(* ===== verification/_CoqProject ===== *)
-Q . S2P
Prelude.v
Sqz.v
RecordNumber.v
Btn.v
Xdr.v
EvlLike.v
SyncObject.v
TipCache.v
LockMgr.v
BePlusTree.v
TreeLevels.v
TreeSpec.v
TreeAdd.v
TreeRemove.v
TreeErase.v
TreeClient.v
SparseBitmap.v
BitmapScan.v
BitmapOps.v
TreeBitmap.v
BitmapClient.v
DataPage.v
DataPageOps.v
DataPageSpec.v
DataPageTable.v
DataPageClient.v
Dpm.v
Counts.v
Vio.v
VioVisible.v
VioIsolation.v
VioQuiet.v
VioReader.v
QSort.v
PageCache.v
PageCacheOrder.v
PageCacheGraph.v
PageCacheSteps.v
PageCacheClient.v
PageCacheWrites.v
PageCacheFlush.v
Sort.v
SortQuick.v
SortOrder.v
SortMerge.v
SortTree.v
SortPass.v
SortClient.v
SortKey.v
SortKeyView.v
SortKeyLaws.v
SortKeyRecord.v
SortKeyOrder.v
SortKeyClient.v
Pag.v
PagBits.v
PagSpec.v
PagAlloc.v
PagClient.v
Clump.v
ClumpSpec.v
ClumpChain.v
ClumpAdd.v
ClumpClient.v
Header.v
HeaderClient.v
