(* ===== verification/Prelude.v ===== *)
(** * A verification library of the Vulcan database engine

    Vulcan is a relational database server: the multi-threaded branch of
    Firebird.  Its parts, below the repository's [src/src]: the engine
    ([jrd]), which keeps records and indexes on pages, runs compiled requests
    against them and shares one page cache among threads; SQL ([dsql]); the
    remote protocol ([remote]) and the dispatcher ([why]) between clients and
    engine; the table of locks that processes share ([lock]); configuration ([config]); and the tools
    ([burp], [isql], [qli], [gpre], ...).  This library models parts of the
    engine, the lock table and the remote protocol that carry logic of their
    own and rest on little else.  Paths below are relative to [src/src].

    ** How the parts interact

    A record is compressed ([jrd/sqz.cpp]) before [dpm.epp] puts it on a data
    page, at a place its record number ([jrd/RecordNumber.h]) encodes; an
    older version is kept as differences to the newer one ([jrd/sqz.cpp]).
    Readers walk from a record to its older versions ([jrd/vio.cpp]).  Pages
    are kept in buffers of the cache ([jrd/PageCache.cpp]), which writes a
    page only after those that its contents refer to.
    An index maps keys to record numbers; its pages are runs of nodes
    ([jrd/btn.cpp]) compressed against their predecessors.  Which of the
    versions of a record a transaction may see depends on the state of the
    transaction that wrote it, which is found on the transaction inventory
    pages or in the cache of them ([jrd/TipCache.cpp], [jrd/tra.cpp]).  A
    request filters records with, among others, pattern matching predicates
    ([jrd/evl_like.cpp]).  Shared structures of the engine are guarded by
    read/write locks ([jrd/SyncObject.cpp]); relations, pages and
    transactions are guarded among processes by the lock table
    ([lock/LockMgr.cpp]): whether a transaction is alive is whether its lock
    can be had.  Sets of record numbers and pages, as index scans and garbage
    collection make them, are sparse bitmaps
    ([common/classes/sparse_bitmap.h]) in a B+ tree in memory
    ([common/classes/tree.h]).  Clients exchange messages with
    the server as XDR data ([remote/xdr.cpp]).

    ** The files

    Each file after this one holds one component in a module of its name:
    data and operations first, in the order and with the names of the code,
    then lemmas, theorems, and concrete inputs the theorems apply to.

    - [Prelude]: machine integers as [Z] with explicit wrap-around, the
      [outcome] of fallible code (a result, a consistency check, a posted
      error, or an access outside of the caller's memory) with its [let*]
      notation, integers in memory, bit fields, writing into buffers.
    - [Sqz] ([jrd/sqz.cpp]): [SQZ_length] builds the chain of control strings
      ([dcc_state], with its free list of blocks) that [SQZ_fast],
      [SQZ_compress] and [SQZ_compress_length] replay; [SQZ_decompress];
      [SQZ_differences], [SQZ_no_differences], [SQZ_apply_differences].
    - [RecordNumber] ([jrd/RecordNumber.h]): the number and its arithmetic,
      [decompose] and [compose], the forms in blob ids.
    - [Btn] ([jrd/btn.cpp], [jrd/btn.h]): [IndexNode], [IndexJumpNode] and
      [IndexJumpInfo]; sizes, writing and reading in the old and the new
      on-disk style ([large] pages with flags, and fixed headers),
      [computePrefix], [keyEquality], [findPageInDuplicates].  It uses
      [RecordNumber].
    - [Xdr] ([remote/xdr.cpp], [remote/xdr.h]): the filters, over a table of
      stream operations; the class [xdr_ops] is that table, the class
      [XdrStream] what the filters rely on, and the memory stream an instance
      of both.
    - [EvlLike] ([jrd/evl_like.cpp], the table of special characters of
      [jrd/evl.cpp]): [LIKENAME], [MATCHESNAME], [SLEUTHNAME] with
      [SLEUTH_AUX] and [SLEUTH_CLASS_NAME], [SLEUTH_MERGE_NAME].  The case
      folding of the text type is an argument.
    - [SyncObject] ([jrd/SyncObject.cpp]): the lock as a transition system of
      any number of threads, one step for each access to a shared variable.
      Program points ([pc]) stand for positions in [lock], [lockConditional],
      [unlock], [downGrade], [wait] and [grantLocks].
    - [TipCache] ([jrd/TipCache.cpp], the routines of [jrd/tra.cpp] that read
      and write transaction states, [jrd/tpc.h], [jrd/tra.h]): the database
      record [dbb] holds the inventory pages, the numbers of the header page,
      the precommitted transactions and the list of cached blocks; each
      operation takes and returns it.
    - [LockMgr] ([lock/LockMgr.cpp], [lock/LockMgr.h]): one lock block
      ([LockBlock]) with the queue of its requests ([LockRequest]);
      [LOCK_enq], [convert], [LOCK_downgrade], [release_request],
      [post_pending] and the beginning and end of [wait_for_request].  Each
      runs with the table acquired, so [step] is one of them, and [reachable]
      what sequences of them lead to.  [deadlock_scan] runs over all blocks.
    - [BePlusTree] ([common/classes/tree.h], [common/classes/vector.h]): the
      tree with its pages as maps from pointers, so that links, parents and
      freed pages are what they are in memory; [add], [removePage],
      [fastRemove], the accessor, [clear].  [TreeParams] are the parameters of
      the template and the pool.  [TreeLevels] says what the levels of a
      well-formed tree are ([tower]), [TreeSpec] what list a tree holds
      ([represents], [positioned]) and what searches and moves do; [TreeAdd]
      is about [add], [TreeRemove] about [removePage], [TreeErase] about
      [fastRemove] and [clear]; [TreeClient] has the properties.
    - [SparseBitmap] ([common/classes/sparse_bitmap.h]): the bitmap, its
      accessor, [bit_or] and [bit_and], over the class [BitmapTree] of trees of
      buckets, whose promises are the class [BitmapTreeLaws].  [BitmapScan] is
      about the accessor, [BitmapOps] about the operations; [TreeBitmap] makes
      the B+ tree an instance of both classes; [BitmapClient] has the
      properties.
    - [DataPage] ([jrd/dpm.epp], [jrd/ods.h]): one data page with its lines
      and fragments; storing, chaining, backing out, deleting, compressing,
      rewriting headers.  [DataPageOps] says what the operations do to the
      lines, [DataPageSpec] and [DataPageTable] what that makes of a page as a
      table of records and what is read back; [DataPageClient] has the
      properties.
    - [Dpm] ([jrd/dpm.epp]): how a thread finds records through pointer pages
      ([DPM_get], [DPM_fetch], [DPM_fetch_back], [DPM_fetch_fragment]) while
      others change them.  The database is a history, one [moment] for each
      fetch of a page; the latches of the thread are counted.
    - [Vio] ([jrd/vio.cpp], [TRA_wait] of [jrd/tra.cpp]):
      [VIO_chase_record_version], [VIO_data], [VIO_get] over that history and
      the transaction states of [TipCache]; [Counts] has [VIO_bump_count].
      The class [Cleanup] states what readers rely on of the removal of dead
      versions.  [VioVisible] and [VioIsolation] are about any history,
      [VioQuiet] about one in which nothing changes; [VioReader] has the
      properties.
    - [QSort] ([jrd/QSort.h]): the sort the page cache uses, over a class of
      comparisons.
    - [Sort] ([jrd/sort.cpp], [jrd/sort.h]): the memory of a sort, runs, the
      merge tree and the interface ([SORT_init], [SORT_put], [SORT_sort],
      [SORT_get]), over the class [SortKeys] of what a sort is for.
      [SortQuick] is about [quick] and the pass after it, [SortOrder] about
      [order], [SortMerge] about [get_merge], [SortTree] about building merge
      trees and reading them, [SortPass] about duplicates in memory and
      [put_run], [SortClient] about the interface over any keys.
    - [SortKey] ([diddle_key] of [jrd/sort.cpp], the descriptions of keys of
      [jrd/sort.h]): records as bytes.  [SortKeyView] is about one key of a
      record, [SortKeyLaws] about changing it forth and back, [SortKeyRecord]
      about all keys of a record, and longwords, [SortKeyOrder] about the
      order; [SortKeyClient] makes described keys an instance of what the sort
      relies on and has the properties of sorting.
    - [PageCache] ([jrd/PageCache.cpp], [jrd/Bdb.cpp]): buffers, precedence
      blocks and the queue of dirty buffers in a record that each operation
      takes and returns; of the contents of a page only the incarnation is
      kept.  [PageCacheOrder] says what well-formed caches are ([wf]) and what
      a step keeps ([good]), [PageCacheGraph] is about the search in the
      graph and new precedences, [PageCacheSteps] about every other operation;
      [PageCacheClient] has the runs of threads and the properties,
      [PageCacheWrites] and [PageCacheFlush] that writing and flushing end.
    - [Pag] ([jrd/pag.cpp], [jrd/pag.h]): page inventory pages and the page
      control block; [PAG_init], [PAG_format_pip], [PAG_allocate],
      [PAG_release_page], [PAG_last_page], with the calls of the page cache in
      their order.  [PagBits] is about the bits of an inventory page,
      [PagSpec] says which databases are well-formed and which pages are in
      use, [PagAlloc] what each operation does to them; [PagClient] has the
      properties, and puts the calls of a release into runs of [PageCache].
    - [Clump] ([jrd/pag.cpp]): the clumps of header and log pages along the
      chain of pages that [Pag] allocates; [PAG_get_clump], [PAG_add_clump],
      [PAG_delete_clump_entry], [find_type], [find_clump_space], and the
      operations on a header page in a buffer.  [ClumpSpec] is about the
      clumps of one page, [ClumpChain] about chains, [ClumpAdd] about adding;
      [ClumpClient] has the properties.
    - [Header] ([jrd/pag.cpp], [jrd/ods.h]): [PAG_format_header], [PAG_header],
      the settings, over the class [Platform] of what the code is compiled
      for; [HeaderClient] has the properties.

    ** What the theorems show

    - Storage: what is stored is read back, for records ([Sqz]), index and
      jump nodes ([Btn]), record numbers and blob ids ([RecordNumber]); the
      announced sizes are the sizes written; differences applied to the old
      version give the new one; damaged stored data never leads outside of
      the buffers of the decompressor; limited space yields a prefix.
      Searches on encoded nodes agree with what the nodes stand for.
    - Transactions ([TipCache]): writing a state changes one transaction and
      keeps the cache in agreement with the pages ([cache_ok]); every answer
      is what the pages say, on each branch; a snapshot keeps the states of
      its start whatever happens after; the clean-up at startup, and its
      access beyond a page.
    - Records ([DataPageClient], [VioReader]): operations on a page do to its
      lines what they do to a table of records, and lines read back what was
      stored; a reader finds only committed versions whatever happens
      meanwhile, a snapshot only those that had committed when it was taken,
      and, while nothing changes, exactly the newest version it may see, with
      its data.
    - Page cache ([PageCacheClient], [PageCacheWrites], [PageCacheFlush]): the
      precedence graph never has a circle; a page is not written before what
      it depends on; what a transaction changed is in the file after a flush
      for it; [writeBuffer] and flushes come to an end; what a sweep's flush
      misses, as a reachable state shows.  [QSort]: the result is sorted, and
      the stack is large enough.
    - Space and header ([PagClient], [ClumpClient], [HeaderClient]): from a
      new database on, pages are handed out as by an allocator of the lowest
      free page, pages in use are left alone, and a freed page is not on disk
      as free before the page that referred to it is; clumps are a map from
      types to values, as long as none of another size is replaced on a
      continuation page; which header pages are opened and which error is posted
      otherwise; settings are found again when a database is opened anew, but
      for the forcing of writes where that is the default and was not set; and
      what replacing a clump damages, and which databases are refused, as
      closed examples show.
    - Sorting ([SortKeyClient]): what is put to a sort comes back in order, all
      of it or without duplicates, with and without runs, records of nothing but
      ones excepted, which are like the guard of the code; the order is that of
      the values of the keys; keys come back as they were.
    - Patterns ([EvlLike]): LIKE, MATCHES and SLEUTH decide the languages
      that are defined for their patterns by inductive relations; the
      exceptions are in the statements.
    - Concurrency ([SyncObject]): an invariant of all interleavings gives
      mutual exclusion, ownership on return, that assertions hold and that no
      wakeup is lost; the grant loop terminates; a downgrade breaks
      exclusion, as a reachable state shows.
    - Locks ([LockMgr]): granted requests are compatible, though the code
      only compares with the highest level; the lock block describes its
      queue; the first waiting request has to wait; a new request is granted
      exactly when it may; the deadlock scan is exact; a conversion that waits for nobody, and a
      downgrade that reports a wrong level, as reachable states show.
    - Trees and bitmaps ([TreeClient], [BitmapClient]): any sequence of
      operations on a B+ tree answers as a sorted list does, on a bitmap as a
      finite set does; union and intersection; what [clear] frees; how high a
      tree is; what a failed allocation leaves behind, and the searches
      downwards, which show a wrong value.
    - Protocol ([Xdr]): every filter is a codec over any stream that keeps
      the laws; arbitrary input does not make the string filter leave its
      memory, but does so for counted bytes.

    ** Bounds and fuel

    Loops whose recursion is not structural take fuel, which the operations
    choose from the input: one more than the length of what is consumed, since
    each turn consumes at least one character, byte, node, page,
    transaction or lock level.  The matchers that call themselves ([LIKENAME],
    [MATCHESNAME], [SLEUTH_AUX]) take it as an argument, which more than the
    length of the pattern suffices for, as each call shortens it.  The
    theorems prove the results of the operations with that fuel, so that it
    is enough; the lemmas on the loops state how much.
    The loops over the pages of a tree have the number of pages ever
    allocated as their fuel, those of [bit_or] and [bit_and] take it as an
    argument, for which more than the values of both bitmaps suffice.
    [writeBuffer] needs three times the number of precedences and two, a flush
    twice the number of queued buffers and one turns; the pieces that [QSort]
    puts aside are fewer than its stack's 256 for up to 2^31 records, those of
    [quick] fewer than 50 for a memory of less than 2^31 longwords.
    The search for a free page looks at no inventory page twice, so that two
    more than the pages there are suffice; a chain of clumps has no more pages
    than there are.
    [get_merge] visits every node at most three times for each record it loses
    or gives.
    Incarnations and mark sequences of pages are numbers without bound.
    Records are shorter than 2^16 characters, the requests of a lock fewer
    than 2^16 (their counts have sixteen bits), transaction numbers below 2^31,
    inventory pages hold less than 2^18 transactions (the code computes the
    length of a page's bits in sixteen bits), prefixes and lengths of index
    nodes below 2^14, as pages of at most 16 KB have them.

    ** What is not modelled

    Memory is not: a buffer is a list, from a pointer on, and leaving it is
    [Overrun].  Fetching a page in [TipCache] reads it; locks and latches are
    left out of it, and steps of other threads in between.  Of [SyncObject]
    the reports on stalled threads are left out; of [LockMgr] the hash table
    of locks, blocking notifications and lock data queries; a victim of the
    deadlock scan or a timeout is the operation [reject].  [Vio] reads; of
    the code that changes records ([VIO_modify], [VIO_erase], [VIO_store],
    garbage collection, savepoints) and of pointer pages only the operations
    on one data page are modelled.  [PageCache] runs one step of a thread
    after another: waiting for latches, page locks between processes, shadows
    and files of differences are left out, and after a failed write that is
    posted as an error no state is given.
    Of [Xdr] failures to allocate memory are left out.
    Of [Sort] the space in the work files and
    their buffers are left out, and cursors that scroll.
    [Pag] and [Clump] run one operation after another; secondary files
    ([PAG_add_file]), their initialization ([PAG_init2]), shadows and the
    flags of the log page are left out, and of attachment ids the locks on
    them.
    Floating point numbers are bit patterns.  The rest of the engine (the
    B-tree above its nodes, requests,
    metadata), SQL, dispatcher, transports and tools are not modelled.
    Candidates for extensions, in this order: changes of records
    ([jrd/vio.cpp]), calendar arithmetic ([jrd/TimeStamp.cpp]), packet
    filters over [Xdr]
    ([remote/protocol.cpp]), configuration files ([config]), events
    ([jrd/event.cpp]). *)

From Stdlib Require Export ZArith Lia.
From stdpp Require Export base tactics numbers list option.

#[global] Open Scope Z_scope.

Declare Scope vulcan_scope.
Delimit Scope vulcan_scope with vulcan.

(** ** Machine integers

    An integer of [w] bits is a [Z]; conversions to a C integer type are
    written out with these two functions. *)

Definition wrap_u (w z : Z) : Z := z mod 2 ^ w.
Definition wrap_s (w z : Z) : Z := (z + 2 ^ (w - 1)) mod 2 ^ w - 2 ^ (w - 1).

(** The integer types of [jrd/common.h]. *)
Definition UCHAR (z : Z) : Z := wrap_u 8 z.
Definition SCHAR (z : Z) : Z := wrap_s 8 z.
Definition USHORT (z : Z) : Z := wrap_u 16 z.
Definition SSHORT (z : Z) : Z := wrap_s 16 z.
Definition ULONG (z : Z) : Z := wrap_u 32 z.
Definition SLONG (z : Z) : Z := wrap_s 32 z.
Definition UINT64 (z : Z) : Z := wrap_u 64 z.
Definition SINT64 (z : Z) : Z := wrap_s 64 z.

(** Value ranges: unsigned and signed characters. *)
Definition is_uchar (b : Z) : Prop := 0 <= b < 256.
Definition is_schar (b : Z) : Prop := -128 <= b < 128.

(** ** Outcomes of fallible code

    [BUGCHECK n] is the engine's consistency check number [n]; [Post n] an
    error posted to the user; [Overrun] an access outside the memory the
    caller passed, where C++ defines no behaviour; [BadAlloc] the exception of
    an exhausted pool. *)
Inductive fault : Type :=
| BUGCHECK (msg : Z)
| Post (code : Z)
| Overrun
| BadAlloc.

Inductive outcome (A : Type) : Type :=
| Ret (a : A)
| Throw (f : fault).
Arguments Ret {A} _.
Arguments Throw {A} _.

Definition obind {A B} (m : outcome A) (k : A -> outcome B) : outcome B :=
  match m with
  | Ret a => k a
  | Throw f => Throw f
  end.

Notation "'let*' x ':=' m 'in' k" := (obind m (fun x => k))
  (at level 10, x pattern, m at level 100, k at level 200) : vulcan_scope.
#[global] Open Scope vulcan_scope.

Definition is_ret {A} (m : outcome A) : bool :=
  match m with Ret _ => true | Throw _ => false end.

#[global] Instance fault_eq_dec : EqDecision fault.
Proof. solve_decision. Defined.

Lemma obind_ret {A B} (m : outcome A) (k : A -> outcome B) b :
  obind m k = Ret b <-> exists a, m = Ret a /\ k a = Ret b.
Proof.
  destruct m as [a|f]; simpl; split.
  - intros H; exists a; auto.
  - intros (a' & [= ->] & H); exact H.
  - discriminate.
  - intros (a' & H & _); discriminate.
Qed.

(** [returns m P]: what [m] returns, if it returns, satisfies [P]. *)
Definition returns {A} (m : outcome A) (P : A -> Prop) : Prop :=
  match m with Ret a => P a | Throw _ => True end.

Lemma returns_bind {A B} (m : outcome A) (k : A -> outcome B) P :
  returns m (fun a => returns (k a) P) -> returns (obind m k) P.
Proof. by destruct m. Qed.

Lemma returns_any {A} (m : outcome A) : returns m (fun _ => True).
Proof. by destruct m. Qed.

Lemma returns_mono {A} (m : outcome A) (P Q : A -> Prop) :
  returns m P -> (forall a, P a -> Q a) -> returns m Q.
Proof. destruct m; cbn; auto. Qed.

Lemma returns_if {A} (b : bool) (m n : outcome A) P :
  (b = true -> returns m P) -> (b = false -> returns n P) -> returns (if b then m else n) P.
Proof. destruct b; auto. Qed.

Lemma returns_ret {A} (m : outcome A) P a : returns m P -> m = Ret a -> P a.
Proof. by intros H ->. Qed.

(** ** Tactics *)

(** The next call of a computation about which [H] says what it returns. *)
Ltac call H := apply returns_bind; eapply returns_mono; [eapply H|].

(** Case analysis on every [if]/[match] of the goal or the context that
    scrutinises a boolean comparison, turning it into arithmetic. *)
Ltac bool_cases :=
  repeat match goal with
  | |- context [Z.eqb ?a ?b] => destruct (Z.eqb_spec a b)
  | |- context [Z.ltb ?a ?b] => destruct (Z.ltb_spec a b)
  | |- context [Z.leb ?a ?b] => destruct (Z.leb_spec a b)
  | |- context [Nat.eqb ?a ?b] => destruct (Nat.eqb_spec a b)
  | |- context [Nat.ltb ?a ?b] => destruct (Nat.ltb_spec a b)
  | |- context [Nat.leb ?a ?b] => destruct (Nat.leb_spec a b)
  end; cbn [andb orb negb].

Ltac bool_hyps :=
  repeat match goal with
  | H : Z.eqb _ _ = true |- _ => apply Z.eqb_eq in H
  | H : Z.eqb _ _ = false |- _ => apply Z.eqb_neq in H
  | H : Z.ltb _ _ = true |- _ => apply Z.ltb_lt in H
  | H : Z.ltb _ _ = false |- _ => apply Z.ltb_ge in H
  | H : Z.leb _ _ = true |- _ => apply Z.leb_le in H
  | H : Z.leb _ _ = false |- _ => apply Z.leb_gt in H
  | H : andb _ _ = true |- _ => apply andb_true_iff in H; destruct H
  | H : orb _ _ = false |- _ => apply orb_false_iff in H; destruct H
  | H : negb _ = true |- _ => apply negb_true_iff in H
  | H : negb _ = false |- _ => apply negb_false_iff in H
  end.

(** Unfold the integer conversions down to [mod] and let [lia] finish. *)
Ltac machine_lia :=
  unfold UCHAR, SCHAR, USHORT, SSHORT, ULONG, SLONG, UINT64, SINT64,
    wrap_u, wrap_s, is_uchar, is_schar in *;
  change (2 ^ 8) with 256 in *; change (2 ^ 16) with 65536 in *;
  change (2 ^ 32) with 4294967296 in *;
  change (2 ^ 64) with 18446744073709551616 in *;
  change (2 ^ (8 - 1)) with 128 in *; change (2 ^ (16 - 1)) with 32768 in *;
  change (2 ^ (32 - 1)) with 2147483648 in *;
  change (2 ^ (64 - 1)) with 9223372036854775808 in *;
  Z.to_euclidean_division_equations; lia.

(** Membership in lists that are put together, in the goal ([mem]) or in a
    hypothesis ([mem_in]). *)
Ltac mem :=
  repeat (rewrite elem_of_app || rewrite elem_of_cons || rewrite list_elem_of_singleton || rewrite elem_of_nil);
  tauto.

Ltac mem_in H :=
  repeat (rewrite elem_of_app in H || rewrite elem_of_cons in H || rewrite list_elem_of_singleton in H
    || rewrite elem_of_nil in H).

(** Equality of structured results whose leaves differ by arithmetic. *)
Ltac f_lia :=
  repeat first [reflexivity | lia |
    match goal with
    | |- @eq Z _ _ => fail 1
    | |- @eq nat _ _ => fail 1
    | |- _ => progress f_equal
    end].

(** ** Facts on machine integers *)

Lemma wrap_u_small w z : 0 <= z < 2 ^ w -> wrap_u w z = z.
Proof. apply Z.mod_small. Qed.

Lemma wrap_s_small w z : 0 < w -> - 2 ^ (w - 1) <= z < 2 ^ (w - 1) -> wrap_s w z = z.
Proof.
  intros Hw Hz. unfold wrap_s.
  assert (E : 2 ^ w = 2 * 2 ^ (w - 1)) by (rewrite <- Z.pow_succ_r; [f_equal|]; lia).
  rewrite Z.mod_small; lia.
Qed.

Lemma USHORT_small z : 0 <= z < 65536 -> USHORT z = z.
Proof. intros H. machine_lia. Qed.

Lemma USHORT_range z : 0 <= USHORT z < 65536.
Proof. machine_lia. Qed.

Lemma SCHAR_small z : is_schar z -> SCHAR z = z.
Proof. intros H. machine_lia. Qed.

Lemma UCHAR_small z : is_uchar z -> UCHAR z = z.
Proof. intros H. machine_lia. Qed.

Lemma SLONG_small z : -2147483648 <= z < 2147483648 -> SLONG z = z.
Proof. intros H. machine_lia. Qed.

Lemma UCHAR_range z : is_uchar (UCHAR z).
Proof. machine_lia. Qed.

Lemma SCHAR_range z : is_schar (SCHAR z).
Proof. machine_lia. Qed.

Create HintDb vulcan.
Create Rewrite HintDb vulcan.
#[export] Hint Resolve UCHAR_range SCHAR_range USHORT_range : vulcan.
#[export] Hint Rewrite USHORT_small SCHAR_small UCHAR_small SLONG_small
  using (unfold is_uchar, is_schar in *; lia) : vulcan.

(** ** Lists *)

Lemma firstn_skipn_eq {A} n (l : list A) : take n l ++ drop n l = l.
Proof. apply take_drop. Qed.

Lemma take_add {A} n m (l : list A) : take (n + m) l = take n l ++ take m (drop n l).
Proof.
  revert l; induction n as [|n IH]; intros [|a l]; simpl; auto.
  - by rewrite take_nil.
  - by rewrite IH.
Qed.

Lemma length_take_le {A} n (l : list A) : (n <= length l)%nat -> length (take n l) = n.
Proof. intros H. rewrite length_take. lia. Qed.

(** A boolean property of a small range of integers holds if it computes to
    [true] at each of them. *)
Lemma Z_range_check (P : Z -> bool) lo hi :
  forallb P (seqZ lo (hi - lo)) = true -> forall z, lo <= z < hi -> P z = true.
Proof.
  intros H z Hz. rewrite forallb_forall in H. apply H, list_elem_of_In, elem_of_seqZ. lia.
Qed.


(** ** Integers in memory

    [le_bytes n z] are the [n] low bytes of [z], least significant first (the
    byte order of the machines the code is built for); [le_value] reads
    them back. [be_bytes] is the network order. *)
Fixpoint le_bytes (n : nat) (z : Z) : list Z :=
  match n with
  | O => []
  | S n => z mod 256 :: le_bytes n (z / 256)
  end.

Fixpoint le_value (bs : list Z) : Z :=
  match bs with
  | [] => 0
  | b :: bs => b + 256 * le_value bs
  end.

Definition be_bytes (n : nat) (z : Z) : list Z := rev (le_bytes n z).
Definition be_value (bs : list Z) : Z := le_value (rev bs).

Lemma length_le_bytes n z : length (le_bytes n z) = n.
Proof. revert z; induction n; intros z; simpl; auto. Qed.

Lemma le_bytes_uchar n z : Forall is_uchar (le_bytes n z).
Proof. revert z; induction n; intros z; simpl; constructor; auto. machine_lia. Qed.

Lemma le_value_le_bytes n z : le_value (le_bytes n z) = z mod 2 ^ (8 * Z.of_nat n).
Proof.
  revert z; induction n as [|n IH]; intros z; cbn [le_bytes le_value].
  { change (2 ^ (8 * Z.of_nat 0)) with 1. by rewrite Z.mod_1_r. }
  rewrite IH. replace (8 * Z.of_nat (S n)) with (8 + 8 * Z.of_nat n) by lia.
  rewrite Z.pow_add_r by lia. change (2 ^ 8) with 256.
  rewrite Z.rem_mul_r by lia. lia.
Qed.

Lemma le_value_range bs :
  Forall is_uchar bs -> 0 <= le_value bs < 2 ^ (8 * Z.of_nat (length bs)).
Proof.
  induction 1 as [|b bs Hb _ IH]; cbn [le_value length]; [lia|].
  replace (8 * Z.of_nat (S (length bs))) with (8 + 8 * Z.of_nat (length bs)) by lia.
  rewrite Z.pow_add_r by lia. change (2 ^ 8) with 256. unfold is_uchar in Hb. lia.
Qed.

Lemma le_bytes_le_value bs :
  Forall is_uchar bs -> le_bytes (length bs) (le_value bs) = bs.
Proof.
  induction 1 as [|b bs Hb _ IH]; cbn [le_value le_bytes length]; [done|].
  unfold is_uchar in Hb. set (v := le_value bs) in *.
  replace ((b + 256 * v) / 256) with v by (Z.to_euclidean_division_equations; lia).
  rewrite IH. f_equal. Z.to_euclidean_division_equations; lia.
Qed.

(** Bytes of a value that fits. *)
Lemma le_value_le_bytes_small n z :
  0 <= z < 2 ^ (8 * Z.of_nat n) -> le_value (le_bytes n z) = z.
Proof. intros H. rewrite le_value_le_bytes. by apply Z.mod_small. Qed.

(** The bytes of an integer only depend on its low bits. *)
Lemma le_bytes_mod n z : le_bytes n (z mod 2 ^ (8 * Z.of_nat n)) = le_bytes n z.
Proof.
  rewrite <-le_value_le_bytes. rewrite <-(length_le_bytes n z) at 1.
  apply le_bytes_le_value, le_bytes_uchar.
Qed.

(** The signed reading of four bytes. *)
Lemma SLONG_le_bytes z :
  -2147483648 <= z < 2147483648 -> SLONG (le_value (le_bytes 4 z)) = z.
Proof.
  intros H. rewrite le_value_le_bytes. change (2 ^ (8 * Z.of_nat 4)) with 4294967296.
  machine_lia.
Qed.

Lemma be_value_be_bytes n z : be_value (be_bytes n z) = z mod 2 ^ (8 * Z.of_nat n).
Proof. unfold be_value, be_bytes. rewrite rev_involutive. apply le_value_le_bytes. Qed.

Lemma length_be_bytes n z : length (be_bytes n z) = n.
Proof. unfold be_bytes. by rewrite length_rev, length_le_bytes. Qed.

(** ** Flag words *)

Definition flag_set (flags bit : Z) : bool := negb (Z.land flags bit =? 0).

(** ** Reading from a buffer

    [read_bytes n s]: the next [n] bytes of [s] and what follows them. *)
Definition read_bytes (n : nat) (s : list Z) : outcome (list Z * list Z) :=
  if (n <=? length s)%nat then Ret (take n s, drop n s) else Throw Overrun.

Definition read_byte (s : list Z) : outcome (Z * list Z) :=
  match s with
  | [] => Throw Overrun
  | b :: s => Ret (b, s)
  end.

Lemma read_bytes_app n bs s : length bs = n -> read_bytes n (bs ++ s) = Ret (bs, s).
Proof.
  intros H. unfold read_bytes. rewrite length_app, (proj2 (Nat.leb_le _ _)) by lia.
  by rewrite take_app_length', drop_app_length'.
Qed.

(** ** Bit fields *)

Lemma shiftr_div n k : 0 <= k -> Z.shiftr n k = n / 2 ^ k.
Proof. apply Z.shiftr_div_pow2. Qed.

Lemma shiftr_eqb_0 n k : 0 <= n -> 0 <= k -> (Z.shiftr n k =? 0) = (n <? 2 ^ k).
Proof.
  intros Hn Hk. rewrite shiftr_div by done. pose proof (Z.pow_pos_nonneg 2 k).
  destruct (Z.ltb_spec n (2 ^ k)) as [H0|H0].
  - rewrite Z.div_small by lia. done.
  - apply Z.eqb_neq. pose proof (Z.div_str_pos n (2 ^ k)). lia.
Qed.

Lemma land_low n k : 0 <= k -> Z.land n (2 ^ k - 1) = n mod 2 ^ k.
Proof. intros Hk. rewrite <-Z.land_ones by done. f_equal. rewrite Z.ones_equiv. lia. Qed.

Lemma testbit_above n k i : 0 <= n < 2 ^ k -> 0 <= k <= i -> Z.testbit n i = false.
Proof.
  intros Hn Hi. rewrite <-(Z.mod_small n (2 ^ k)) by done.
  apply Z.mod_pow2_bits_high. lia.
Qed.

(** Joining a low field and a shifted one. *)
Lemma lor_shiftl_add a b k :
  0 <= k -> 0 <= a < 2 ^ k -> Z.lor a (Z.shiftl b k) = a + b * 2 ^ k.
Proof.
  intros Hk Ha. rewrite <-Z.shiftl_mul_pow2 by done. symmetry. apply Z.add_nocarry_lor.
  apply Z.bits_inj'. intros i Hi. rewrite Z.land_spec, Z.bits_0.
  destruct (Z.ltb_spec i k).
  - rewrite Z.shiftl_spec_low by done. apply andb_false_r.
  - by rewrite (testbit_above a k) by lia.
Qed.

(** A mask of the high bits tests a lower bound. *)
Lemma land_high n m j :
  0 <= j <= m -> 0 <= n < 2 ^ m -> Z.land n (2 ^ m - 2 ^ j) = Z.shiftl (Z.shiftr n j) j.
Proof.
  intros Hj Hn.
  assert (E : 2 ^ m - 2 ^ j = Z.shiftl (Z.ones (m - j)) j).
  { rewrite Z.shiftl_mul_pow2, Z.ones_equiv, <-Z.sub_1_r, Z.mul_sub_distr_r by lia.
    rewrite <-Z.pow_add_r by lia. replace (m - j + j) with m by lia. lia. }
  rewrite E. apply Z.bits_inj'. intros i Hi. rewrite Z.land_spec, !Z.shiftl_spec by done.
  destruct (Z.ltb_spec i j).
  { rewrite !(Z.testbit_neg_r _ (i - j)) by lia. by rewrite andb_false_r. }
  rewrite Z.shiftr_spec by lia. replace (i - j + j) with i by lia.
  destruct (Z.ltb_spec i m).
  - rewrite Z.ones_spec_low by lia. apply andb_true_r.
  - by rewrite (testbit_above n m) by lia.
Qed.

Lemma flag_set_high n m j :
  0 <= j <= m -> 0 <= n < 2 ^ m -> flag_set n (2 ^ m - 2 ^ j) = (2 ^ j <=? n).
Proof.
  intros Hj Hn. unfold flag_set. rewrite land_high, Z.shiftl_mul_pow2, shiftr_div by lia.
  pose proof (Z.pow_pos_nonneg 2 j).
  destruct (Z.leb_spec (2 ^ j) n) as [H0|H0].
  - pose proof (Z.div_str_pos n (2 ^ j)). apply negb_true_iff, Z.eqb_neq. nia.
  - by rewrite Z.div_small by lia.
Qed.

(** ** Overwriting part of a buffer *)

Definition store (page : list Z) (p : nat) (bs : list Z) : list Z :=
  take p page ++ bs ++ drop (p + length bs) page.

Lemma length_store page p bs :
  (p + length bs <= length page)%nat -> length (store page p bs) = length page.
Proof. intros H. unfold store. rewrite !length_app, length_take, length_drop. lia. Qed.

Lemma store_nil page p : store page p [] = page.
Proof. unfold store. simpl. by rewrite Nat.add_0_r, take_drop. Qed.

(** Writing a block after, then before an adjacent one. *)
Lemma store_before page p b1 b2 :
  (p + length b1 + length b2 <= length page)%nat ->
  store (store page (p + length b1) b2) p b1 = store page p (b1 ++ b2).
Proof.
  intros H. unfold store. rewrite length_app.
  rewrite take_app_le, take_take by (rewrite length_take; lia).
  replace (p `min` (p + length b1))%nat with p by lia. rewrite <-app_assoc.
  do 2 f_equal. rewrite drop_app_length' by (rewrite length_take; lia).
  f_equal. f_equal. lia.
Qed.

(** Writing two blocks around what lies between them. *)
Lemma store_around page p b1 b2 n :
  (p + length b1 + n + length b2 <= length page)%nat ->
  store (store page p b1) (p + length b1 + n) b2
  = store page p (b1 ++ take n (drop (p + length b1) page) ++ b2).
Proof.
  intros H. unfold store. rewrite !length_app, length_take_le by (rewrite length_drop; lia).
  assert (E : take (p + length b1 + n) (take p page ++ b1 ++ drop (p + length b1) page)
    = take p page ++ b1 ++ take n (drop (p + length b1) page)).
  { rewrite app_assoc, take_app_add' by (rewrite length_app, length_take; lia).
    by rewrite <-app_assoc. }
  rewrite E, <-!app_assoc. do 4 f_equal.
  rewrite app_assoc, drop_app_ge by (rewrite length_app, length_take; lia).
  rewrite drop_drop, length_app, length_take. f_equal. lia.
Qed.

(** The longest prefix whose elements satisfy a test. *)
Fixpoint take_while {A} (f : A -> bool) (l : list A) : list A :=
  match l with
  | a :: l => if f a then a :: take_while f l else []
  | [] => []
  end.
