(* ===== verification/Sqz.v ===== *)
(** * Record compression (jrd/sqz.cpp)

    [SQZ_length] scans a record and builds the chain of control strings,
    [SQZ_fast], [SQZ_compress] and [SQZ_compress_length] replay the chain,
    [SQZ_decompress] expands the stored form, and [SQZ_differences],
    [SQZ_no_differences], [SQZ_apply_differences] handle back-version
    deltas.  Buffers are lists of signed characters; a buffer from a pointer
    on is the list that starts there. *)

From S2P Require Import Prelude.

Module Sqz.

(** ** Control strings *)

(** [sizeof (Decompress::dcc_string)] *)
Definition dcc_string_size : nat := 128.

(** A [Decompress] chain is the list of its blocks, each the characters
    from [dcc_string] to [dcc_end]; [dcc_next] is the tail.  While a chain
    is built the last block is still open ([control]), and full blocks are
    replaced by one from the pool's free list [plb_dccs], or a new one. *)
Record dcc_state := mk_dcc {
  dcc_full : list (list Z);
  control : list Z;
  plb_dccs : list (list Z)
}.

Definition put_control (c : Z) (st : dcc_state) : dcc_state :=
  let control' := control st ++ [SCHAR c] in
  if (length control' =? dcc_string_size)%nat
  then mk_dcc (dcc_full st ++ [control']) [] (tail (plb_dccs st))
  else mk_dcc (dcc_full st) control' (plb_dccs st).

Fixpoint put_controls (cs : list Z) (st : dcc_state) : dcc_state :=
  match cs with
  | [] => st
  | c :: cs => put_controls cs (put_control c st)
  end.

Definition dcc_chain (st : dcc_state) : list (list Z) := dcc_full st ++ [control st].

(** ** SQZ_length *)

(** The length of the non-compressible run: up to the first position that
    starts three equal characters, or everything. *)
Fixpoint literal_run (data : list Z) : nat :=
  match data with
  | a :: ((b :: c :: _) as tl) =>
      if negb (a =? b) || negb (a =? c) then S (literal_run tl) else 0%nat
  | _ => length data
  end.

(** [while (count) { max = MIN(count, 127); ... *control++ = max; }]: the
    control characters for a non-compressible run; the second component is
    what the loop adds to [length]. *)
Fixpoint literal_controls (fuel : nat) (count : nat) : list Z * Z :=
  match fuel with
  | O => ([], 0)
  | S fuel =>
      if (count =? 0)%nat then ([], 0)
      else
        let max := Nat.min count 127 in
        let '(cs, n) := literal_controls fuel (count - max) in
        (Z.of_nat max :: cs, 1 + Z.of_nat max + n)
  end.

(** [do { if ( *data != c) break; ++data; } while (--max);] *)
Fixpoint equal_run (max : nat) (c : Z) (data : list Z) : nat :=
  match max, data with
  | S max, d :: data => if d =? c then S (equal_run max c data) else 0%nat
  | _, _ => 0%nat
  end.

(** The outer loop; [count] is a [USHORT]. [None] only if out of fuel. *)
Fixpoint SQZ_length_loop (fuel : nat) (data : list Z) (len : Z) (st : dcc_state)
    : option (Z * dcc_state) :=
  match fuel with
  | O => None
  | S fuel =>
      let count := Z.to_nat (USHORT (Z.of_nat (length data))) in
      if (count =? 0)%nat then Some (len, st)
      else
        let count := literal_run (take count data) in
        let '(cs, n) := literal_controls count count in
        let st := put_controls cs st in
        let len := len + n in
        let data := drop count data in
        let max := Nat.min 128 (length data) in
        match data with
        | c :: _ =>
            if (3 <=? max)%nat
            then
              let run := equal_run max c data in
              SQZ_length_loop fuel (drop run data) (len + 2)
                (put_control (- Z.of_nat run) st)
            else SQZ_length_loop fuel data len st
        | [] => SQZ_length_loop fuel data len st
        end
  end.

(** Returns the compressed length (a [USHORT]), the chain and what is left
    of the pool's free list. *)
Definition SQZ_length (data : list Z) (pool : list (list Z))
    : option (Z * list (list Z) * list (list Z)) :=
  match SQZ_length_loop (S (length data)) data 0 (mk_dcc [] [] pool) with
  | Some (len, st) => Some (USHORT len, dcc_chain st, plb_dccs st)
  | None => None
  end.

(** ** SQZ_fast *)

(** One block of the chain: what is written and the rest of the input. *)
Fixpoint fast_block (ctl : list Z) (input : list Z) : outcome (list Z * list Z) :=
  match ctl with
  | [] => Ret ([], input)
  | c :: ctl =>
      if c <? 0 then
        match input with
        | [] => Throw Overrun
        | b :: _ =>
            let* (out, rest) := fast_block ctl (drop (Z.to_nat (- c)) input) in
            Ret (c :: b :: out, rest)
        end
      else if (Z.to_nat c <=? length input)%nat then
        let* (out, rest) := fast_block ctl (drop (Z.to_nat c) input) in
        Ret (c :: take (Z.to_nat c) input ++ out, rest)
      else Throw Overrun
  end.

Fixpoint SQZ_fast (dcc : list (list Z)) (input : list Z) : outcome (list Z) :=
  match dcc with
  | [] => Ret []
  | ctl :: next =>
      let* (out, rest) := fast_block ctl input in
      let* out' := SQZ_fast next rest in
      Ret (out ++ out')
  end.

(** ** SQZ_compress and SQZ_compress_length *)

(** Whether the output area is exhausted in this block ([Full], with the
    number of input characters taken), or the block is used up. *)
Inductive fit (A : Type) : Type :=
| Full (out : list Z) (input : Z)
| More (out : list Z) (rest : A) (space : Z).
Arguments Full {A} _ _.
Arguments More {A} _ _ _.

(** [taken] is [input - start]. *)
Fixpoint compress_block (ctl : list Z) (input : list Z) (taken space : Z)
    : outcome (fit (list Z * Z)) :=
  match ctl with
  | [] => Ret (More [] (input, taken) space)
  | c :: ctl =>
      let space := space - 1 in
      if space <=? 0 then Ret (Full (if space =? 0 then [0] else []) taken)
      else if negb (Z.land c 128 =? 0) then
        match input with
        | [] => Throw Overrun
        | b :: _ =>
            let n := Z.land (- c) 255 in
            let* r := compress_block ctl (drop (Z.to_nat n) input) (taken + n) (space - 1) in
            match r with
            | Full out k => Ret (Full (c :: b :: out) k)
            | More out rest sp => Ret (More (c :: b :: out) rest sp)
            end
        end
      else
        let space := space - c in
        if space <? 0 then
          let len := c + space in
          if 0 <? len then
            if (Z.to_nat len <=? length input)%nat
            then Ret (Full (len :: take (Z.to_nat len) input) (taken + len))
            else Throw Overrun
          else Ret (Full [len] taken)
        else if (Z.to_nat c <=? length input)%nat then
          let* r := compress_block ctl (drop (Z.to_nat c) input) (taken + c) space in
          match r with
          | Full out k => Ret (Full (c :: take (Z.to_nat c) input ++ out) k)
          | More out rest sp => Ret (More (c :: take (Z.to_nat c) input ++ out) rest sp)
          end
        else Throw Overrun
  end.

Fixpoint compress_chain (dcc : list (list Z)) (input : list Z) (taken space : Z)
    : outcome (list Z * Z) :=
  match dcc with
  | [] => Throw (BUGCHECK 178)
  | ctl :: next =>
      let* r := compress_block ctl input taken space in
      match r with
      | Full out k => Ret (out, k)
      | More out (rest, taken) space =>
          let* (out', k) := compress_chain next rest taken space in
          Ret (out ++ out', k)
      end
  end.

(** What is written to the output area and the returned length. *)
Definition SQZ_compress (dcc : list (list Z)) (input : list Z) (space : Z)
    : outcome (list Z * Z) :=
  let* (out, k) := compress_chain dcc input 0 space in
  Ret (out, USHORT k).

(** The variant without output: only the input position moves. *)
Fixpoint compress_length_block (ctl : list Z) (taken space : Z) : fit Z :=
  match ctl with
  | [] => More [] taken space
  | c :: ctl =>
      let space := space - 1 in
      if space <=? 0 then Full [] taken
      else if negb (Z.land c 128 =? 0) then
        compress_length_block ctl (taken + Z.land (- c) 255) (space - 1)
      else
        let space := space - c in
        if space <? 0 then Full [] (taken + (c + space))
        else compress_length_block ctl (taken + c) space
  end.

Fixpoint compress_length_chain (dcc : list (list Z)) (taken space : Z) : outcome Z :=
  match dcc with
  | [] => Throw (BUGCHECK 178)
  | ctl :: next =>
      match compress_length_block ctl taken space with
      | Full _ k => Ret k
      | More _ taken space => compress_length_chain next taken space
      end
  end.

Definition SQZ_compress_length (dcc : list (list Z)) (space : Z) : outcome Z :=
  let* k := compress_length_chain dcc 0 space in
  Ret (USHORT k).

(** ** SQZ_decompress *)

(** [room] is [output_end - output]; returns what is written. *)
Fixpoint decompress_loop (fuel : nat) (input : list Z) (room : Z) : outcome (list Z) :=
  match fuel with
  | O => Throw Overrun
  | S fuel =>
      match input with
      | [] => if room <? 0 then Throw (BUGCHECK 179) else Ret []
      | l :: input =>
          if l <? 0 then
            match input with
            | [] => Throw Overrun
            | c :: input =>
                if room <? - l then Throw (BUGCHECK 179)
                else
                  let* out := decompress_loop fuel input (room + l) in
                  Ret (repeat c (Z.to_nat (- l)) ++ out)
            end
          else if room <? l then Throw (BUGCHECK 179)
          else if (Z.to_nat l <=? length input)%nat then
            let* out := decompress_loop fuel (drop (Z.to_nat l) input) (room - l) in
            Ret (take (Z.to_nat l) input ++ out)
          else Throw Overrun
      end
  end.

Definition SQZ_decompress (input : list Z) (room : Z) : outcome (list Z) :=
  decompress_loop (S (length input)) input room.

(** ** Differences *)

Definition MAX_DIFFERENCES : Z := 1024.

Fixpoint no_differences_loop (fuel : nat) (length : Z) : list Z :=
  match fuel with
  | O => []
  | S fuel =>
      if 127 <? length then -127 :: no_differences_loop fuel (length - 127)
      else if length =? 0 then [] else [SCHAR (- length)]
  end.

(** The characters written; the code returns their number. *)
Definition SQZ_no_differences (length : Z) : list Z :=
  no_differences_loop (S (Z.to_nat length)) length.

(** A literal of a difference record.  [k] positions are left up to and
    including [yellow]; [out < end] is [0 < room]. The second character of
    the test may lie just past the old record: then [rec1 < yellow] is false. *)
Fixpoint diff_literal (k : nat) (rec1 rec2 : list Z) (room : Z)
    : option (list Z * list Z * list Z) :=
  match k with
  | O => Some ([], rec1, rec2)
  | S k =>
      let a0 := nth 0 rec1 0 in let a1 := nth 1 rec1 0 in
      let b0 := nth 0 rec2 0 in let b1 := nth 1 rec2 0 in
      if negb (a0 =? b0) || (negb (a1 =? b1) && (0 <? k)%nat) then
        if 0 <? room then
          match diff_literal k (tail rec1) (tail rec2) (room - 1) with
          | Some (lit, rec1, rec2) => Some (b0 :: lit, rec1, rec2)
          | None => None
          end
        else None
      else Some ([], rec1, rec2)
  end.

(** [for (p = rec2; rec1 < end1 && *rec1 == *rec2; rec1++, rec2++)] *)
Fixpoint diff_equal (rec1 rec2 : list Z) : nat * list Z * list Z :=
  match rec1, rec2 with
  | a :: rec1', b :: rec2' =>
      if a =? b then
        let '(n, rec1, rec2) := diff_equal rec1' rec2' in (S n, rec1, rec2)
      else (0%nat, rec1, rec2)
  | _, _ => (0%nat, rec1, rec2)
  end.

(** [while (l < -127) { STUFF(-127); l += 127; } if (l) STUFF(l);] *)
Fixpoint diff_skip (fuel : nat) (l : Z) (room : Z) : option (list Z) :=
  match fuel with
  | O => None
  | S fuel =>
      if l <? -127 then
        if 0 <? room then
          match diff_skip fuel (l + 127) (room - 1) with
          | Some cs => Some (-127 :: cs)
          | None => None
          end
        else None
      else if l =? 0 then Some []
      else if 0 <? room then Some [SCHAR l] else None
  end.

(** The trailing literals: whatever is left of the new record. *)
Fixpoint diff_tail (fuel : nat) (rec2 : list Z) (room : Z) : option (list Z) :=
  match fuel with
  | O => None
  | S fuel =>
      match rec2 with
      | [] => Some []
      | _ =>
          let n := Nat.min (length rec2) 127 in
          if Z.of_nat n <=? room - 1 then
            match diff_tail fuel (drop n rec2) (room - 1 - Z.of_nat n) with
            | Some out => Some (Z.of_nat n :: take n rec2 ++ out)
            | None => None
            end
          else None
      end
  end.

(** [rec1] runs up to [end1], [rec2] up to [end2]; [room] is [end - out]. *)
Fixpoint diff_loop (fuel : nat) (rec1 rec2 : list Z) (room : Z) : option (list Z) :=
  match fuel with
  | O => None
  | S fuel =>
      if (2 <? length rec1)%nat then
        if negb (nth 0 rec1 0 =? nth 0 rec2 0) || negb (nth 1 rec1 0 =? nth 1 rec2 0) then
          match diff_literal (Nat.min (length rec1) 127) rec1 rec2 (room - 1) with
          | None => None
          | Some (lit, rec1, rec2) =>
              match diff_loop fuel rec1 rec2 (room - 1 - Z.of_nat (length lit)) with
              | Some out => Some (SCHAR (Z.of_nat (length lit)) :: lit ++ out)
              | None => None
              end
          end
        else
          let '(n, rec1, rec2) := diff_equal rec1 rec2 in
          match diff_skip (S n) (- Z.of_nat n) room with
          | None => None
          | Some cs =>
              match diff_loop fuel rec1 rec2 (room - Z.of_nat (length cs)) with
              | Some out => Some (cs ++ out)
              | None => None
              end
          end
      else diff_tail (S (length rec2)) rec2 room
  end.

(** [None] is the return of 32000: no room for the difference record. *)
Definition SQZ_differences (rec1 rec2 : list Z) (length_out : Z) : option (list Z) :=
  let n := Nat.min (length rec1) (length rec2) in
  diff_loop (S n) (take n rec1) rec2 length_out.

(** The returned [USHORT]. *)
Definition SQZ_differences_length (rec1 rec2 : list Z) (length_out : Z) : Z :=
  match SQZ_differences rec1 rec2 length_out with
  | Some out => USHORT (Z.of_nat (length out))
  | None => 32000
  end.

(** ** SQZ_apply_differences *)

(** Returns the record, the offset reached and what is left of the
    differences. *)
Fixpoint apply_loop (fuel : nat) (diffs buf : list Z) (p : nat)
    : outcome (list Z * nat * list Z) :=
  match fuel with
  | O => Throw Overrun
  | S fuel =>
      if (p <? length buf)%nat then
        match diffs with
        | [] => Ret (buf, p, [])
        | l :: diffs =>
            if 0 <? l then
              if (length buf <? p + Z.to_nat l)%nat then Throw (BUGCHECK 177)
              else if (Z.to_nat l <=? length diffs)%nat then
                apply_loop fuel (drop (Z.to_nat l) diffs)
                  (store buf p (take (Z.to_nat l) diffs)) (p + Z.to_nat l)
              else Throw Overrun
            else apply_loop fuel diffs buf (p + Z.to_nat (- l))
        end
      else Ret (buf, p, diffs)
  end.

Definition SQZ_apply_differences (rec_data differences : list Z) : outcome (list Z * Z) :=
  if MAX_DIFFERENCES <? Z.of_nat (length differences) then Throw (BUGCHECK 176)
  else
    let* (buf, p, rest) := apply_loop (S (length differences)) differences rec_data 0 in
    let len := USHORT (Z.of_nat p) in
    if (Z.of_nat (length rec_data) <? len) || (0 <? length rest)%nat
    then Throw (BUGCHECK 177)
    else Ret (buf, len).

(** ** Examples *)

Example ex_length :
  SQZ_length [1;2;3;3;3;3;4] [] = Some (7, [[2; -4; 1]], []).
Proof. reflexivity. Qed.

Example ex_fast :
  SQZ_fast [[2; -4; 1]] [1;2;3;3;3;3;4] = Ret [2;1;2;-4;3;1;4].
Proof. reflexivity. Qed.

Example ex_compress :
  SQZ_compress [[2; -4; 1]] [1;2;3;3;3;3;4] 5 = Ret ([2;1;2;-4;3], 6)
  /\ SQZ_compress [[2; -4; 1]] [1;2;3;3;3;3;4] 6 = Ret ([2;1;2;-4;3;0], 6).
Proof. split; reflexivity. Qed.

Example ex_decompress : SQZ_decompress [2;1;2;-4;3;1;4] 7 = Ret [1;2;3;3;3;3;4].
Proof. reflexivity. Qed.

Example ex_differences :
  SQZ_differences [1;2;3;4;5;6] [1;2;9;4;5;6;7] 100 = Some [-2;1;9;-3;1;7]
  /\ SQZ_apply_differences [1;2;3;4;5;6;0] [-2;1;9;-3;1;7] = Ret ([1;2;9;4;5;6;7], 7).
Proof. split; reflexivity. Qed.

(** ** What a control string describes *)

(** [encodes ctl data]: the control characters [ctl] split [data] into
    literals of 1 to 127 characters and runs of 3 to 128 equal ones. *)
Inductive encodes : list Z -> list Z -> Prop :=
| encodes_nil : encodes [] []
| encodes_literal n lit ctl rest :
    (1 <= n <= 127)%nat -> length lit = n -> encodes ctl rest ->
    encodes (Z.of_nat n :: ctl) (lit ++ rest)
| encodes_run n c ctl rest :
    (3 <= n <= 128)%nat -> encodes ctl rest ->
    encodes (- Z.of_nat n :: ctl) (repeat c n ++ rest).
#[local] Hint Constructors encodes : vulcan.

(** The stored size a control string announces. *)
Fixpoint stored_size (ctl : list Z) : Z :=
  match ctl with
  | [] => 0
  | c :: ctl => (if c <? 0 then 2 else 1 + c) + stored_size ctl
  end.

Lemma stored_size_app c1 c2 : stored_size (c1 ++ c2) = stored_size c1 + stored_size c2.
Proof. induction c1; simpl; lia. Qed.

Lemma encodes_app c1 d1 c2 d2 :
  encodes c1 d1 -> encodes c2 d2 -> encodes (c1 ++ c2) (d1 ++ d2).
Proof. induction 1; simpl; rewrite <-?app_assoc; eauto with vulcan. Qed.

Lemma encodes_schar ctl data : encodes ctl data -> Forall is_schar ctl.
Proof. induction 1; constructor; auto; unfold is_schar; lia. Qed.

Lemma encodes_nil_data ctl : encodes ctl [] -> ctl = [].
Proof.
  remember [] as d eqn:Hd. intros H. destruct H as [|n lit ctl rest Hn Hl _|n c ctl rest Hn _]; auto.
  - apply (f_equal length) in Hd. rewrite length_app in Hd. simpl in Hd. lia.
  - apply (f_equal length) in Hd. rewrite length_app, repeat_length in Hd. simpl in Hd. lia.
Qed.

(** ** The control chain *)

Lemma put_controls_app cs cs' st :
  put_controls (cs ++ cs') st = put_controls cs' (put_controls cs st).
Proof. revert st; induction cs; simpl; auto. Qed.

Lemma put_control_concat c st :
  concat (dcc_chain (put_control c st)) = concat (dcc_chain st) ++ [SCHAR c].
Proof.
  unfold put_control, dcc_chain. case_match; simpl;
  rewrite !concat_app; simpl; rewrite ?app_nil_r, <-?app_assoc; auto.
Qed.

Lemma put_controls_concat cs st :
  concat (dcc_chain (put_controls cs st)) = concat (dcc_chain st) ++ map SCHAR cs.
Proof.
  revert st; induction cs as [|c cs IH]; intros st; simpl; [by rewrite app_nil_r|].
  by rewrite IH, put_control_concat, <-app_assoc.
Qed.

Lemma map_SCHAR_id cs : Forall is_schar cs -> map SCHAR cs = cs.
Proof. induction 1; simpl; [|rewrite SCHAR_small]; congruence. Qed.

(** Every block but the last is full, and none exceeds [dcc_string]. *)
Definition dcc_wf (st : dcc_state) : Prop :=
  Forall (fun b => length b = dcc_string_size) (dcc_full st)
  /\ (length (control st) < dcc_string_size)%nat.

Lemma put_control_wf c st : dcc_wf st -> dcc_wf (put_control c st).
Proof.
  intros [Hf Hc]. unfold put_control.
  destruct (Nat.eqb_spec (length (control st ++ [SCHAR c])) dcc_string_size) as [E|E];
    split; simpl; auto.
  - apply Forall_app; auto.
  - unfold dcc_string_size; lia.
  - rewrite length_app in *; simpl in *; lia.
Qed.

Lemma put_controls_wf cs st : dcc_wf st -> dcc_wf (put_controls cs st).
Proof. revert st; induction cs; simpl; auto using put_control_wf. Qed.

(** ** SQZ_length *)

Lemma literal_run_cons a b c data :
  literal_run (a :: b :: c :: data)
  = if negb (a =? b) || negb (a =? c) then S (literal_run (b :: c :: data)) else 0%nat.
Proof. reflexivity. Qed.

Lemma literal_run_le data : (literal_run data <= length data)%nat.
Proof.
  induction data as [|a [|b [|c data]] IH]; try (simpl; lia).
  rewrite literal_run_cons.
  destruct (negb (a =? b) || negb (a =? c)); cbn [length] in *; lia.
Qed.

(** The scan stops at three equal characters. *)
Lemma literal_run_stop data c rest :
  drop (literal_run data) data = c :: rest ->
  exists rest', rest = c :: c :: rest'.
Proof.
  induction data as [|a [|b [|d data]] IH]; try (simpl; discriminate).
  rewrite literal_run_cons. destruct (negb (a =? b) || negb (a =? d)) eqn:E.
  - intros H; apply IH; exact H.
  - simpl. intros [= <- <-]. bool_hyps; subst; eauto.
Qed.

Lemma literal_controls_spec fuel data :
  (length data <= fuel)%nat ->
  encodes (literal_controls fuel (length data)).1 data /\
  (literal_controls fuel (length data)).2
    = stored_size (literal_controls fuel (length data)).1 /\
  127 * (literal_controls fuel (length data)).2 <= 128 * Z.of_nat (length data) + 126.
Proof.
  revert data; induction fuel as [|fuel IH]; intros data Hf.
  { destruct data; simpl in *; [split_and!; auto with vulcan; lia|lia]. }
  cbn [literal_controls]. destruct (Nat.eqb_spec (length data) 0) as [E|E].
  { destruct data; simpl in *; [split_and!; auto with vulcan; lia|lia]. }
  set (max := Nat.min (length data) 127).
  destruct (IH (drop max data)) as (He & Hs & Hb); [rewrite length_drop; lia|].
  rewrite length_drop in He, Hs, Hb.
  assert (H0 : length data = max -> (literal_controls fuel (length data - max)).2 = 0).
  { intros ->. rewrite Nat.sub_diag. by destruct fuel. }
  destruct (literal_controls fuel (length data - max)) as [cs n]; cbn [fst snd] in *.
  split_and!; [| |destruct (decide (length data = max)); [rewrite H0|]; lia].
  - rewrite <-(take_drop max data) at 1. constructor; auto; [lia|].
    rewrite length_take; lia.
  - cbn [stored_size]. destruct (Z.ltb_spec (Z.of_nat max) 0); lia.
Qed.

Lemma equal_run_spec max c data :
  (equal_run max c data <= max)%nat /\
  data = repeat c (equal_run max c data) ++ drop (equal_run max c data) data.
Proof.
  revert data; induction max as [|max IH]; intros [|d data]; simpl; auto; try (split; auto; lia).
  destruct (Z.eqb_spec d c) as [->|]; simpl; [|split; auto; lia].
  destruct (IH data) as [H1 H2]. split; [lia|]. by rewrite <-H2.
Qed.

Lemma equal_run_three max c rest :
  (3 <= max)%nat -> (3 <= equal_run max c (c :: c :: c :: rest))%nat.
Proof.
  intros H. destruct max as [|[|[|max]]]; try lia. simpl. rewrite Z.eqb_refl. lia.
Qed.

Lemma SQZ_length_loop_spec fuel data len st :
  (length data < fuel)%nat -> Z.of_nat (length data) < 65536 ->
  exists ctl,
    encodes ctl data /\
    127 * stored_size ctl <= 128 * Z.of_nat (length data) + 127 /\
    SQZ_length_loop fuel data len st = Some (len + stored_size ctl, put_controls ctl st).
Proof.
  revert data len st; induction fuel as [|fuel IH]; intros data len st Hf Hl; [lia|].
  cbn [SQZ_length_loop]. rewrite USHORT_small, Nat2Z.id by lia.
  destruct (Nat.eqb_spec (length data) 0) as [E|E].
  { destruct data; [|simpl in *; lia]. exists []. simpl. split_and!; [constructor|lia|].
    by rewrite Z.add_0_r. }
  rewrite take_ge by lia.
  pose proof (literal_run_le data) as Hle.
  set (count := literal_run data) in *.
  destruct (literal_controls_spec count (take count data)) as (He & Hs & Hb);
    [rewrite length_take; lia|].
  rewrite length_take_le in He, Hs, Hb by lia.
  destruct (literal_controls count count) as [cs n]; cbn [fst snd] in *.
  destruct (drop count data) as [|c rest] eqn:Ed.
  - assert (Hd : take count data = data)
      by (rewrite <-(take_drop count data) at 2; rewrite Ed, app_nil_r; auto).
    rewrite Hd in He.
    destruct (IH [] (len + n) (put_controls cs st)) as (ctl & Hctl & _ & ->);
      [simpl in *; lia|simpl; lia|].
    apply encodes_nil_data in Hctl as ->. simpl.
    exists cs. split_and!; auto; [lia|]. do 2 f_equal. lia.
  - destruct (literal_run_stop data c rest Ed) as [rest' ->].
    assert (Hlen : length (drop count data) = S (S (S (length rest')))) by (by rewrite Ed).
    rewrite length_drop in Hlen.
    set (d := c :: c :: c :: rest') in *.
    destruct (Nat.leb_spec 3 (Nat.min 128 (length d))) as [Hm|Hm];
      [|unfold d in Hm; simpl in Hm; lia].
    destruct (equal_run_spec (Nat.min 128 (length d)) c d) as [Hr1 Hr2].
    pose proof (equal_run_three (Nat.min 128 (length d)) c rest' Hm) as Hr3.
    fold d in Hr3. set (run := equal_run (Nat.min 128 (length d)) c d) in *.
    destruct (IH (drop run d) (len + n + 2) (put_control (- Z.of_nat run) (put_controls cs st)))
      as (ctl & Hctl & Hc & ->); try (rewrite length_drop; unfold d; simpl; lia).
    exists (cs ++ - Z.of_nat run :: ctl). split_and!.
    + rewrite <-(take_drop count data), Ed. apply encodes_app; auto.
      rewrite Hr2. constructor; auto. lia.
    + rewrite stored_size_app. cbn [stored_size]. rewrite length_drop in Hc.
      change (length d) with (S (S (S (length rest')))) in *.
      destruct (Z.ltb_spec (- Z.of_nat run) 0); lia.
    + rewrite put_controls_app. simpl put_controls.
      rewrite stored_size_app. cbn [stored_size].
      destruct (Z.ltb_spec (- Z.of_nat run) 0); [|lia]. do 2 f_equal. lia.
Qed.

Lemma SQZ_length_spec data pool :
  Z.of_nat (length data) < 65536 ->
  exists chain pool',
    encodes (concat chain) data /\
    127 * stored_size (concat chain) <= 128 * Z.of_nat (length data) + 127 /\
    Forall (fun b => (length b <= dcc_string_size)%nat) chain /\
    SQZ_length data pool = Some (USHORT (stored_size (concat chain)), chain, pool').
Proof.
  intros Hl. unfold SQZ_length.
  destruct (SQZ_length_loop_spec (S (length data)) data 0 (mk_dcc [] [] pool))
    as (ctl & He & Hb & ->); [lia|auto|].
  set (st := put_controls ctl _).
  assert (Hc : concat (dcc_chain st) = ctl).
  { unfold st. rewrite put_controls_concat. simpl.
    by rewrite map_SCHAR_id by eauto using encodes_schar. }
  assert (Hwf : dcc_wf st)
    by (apply put_controls_wf; split; simpl; [constructor|unfold dcc_string_size; lia]).
  exists (dcc_chain st), (plb_dccs st). rewrite Hc. split_and!; auto.
  destruct Hwf as [H1 H2]. unfold dcc_chain. apply Forall_app; split.
  - eapply Forall_impl; eauto. simpl; lia.
  - constructor; auto. lia.
Qed.

(** ** The stored form *)

Fixpoint stored_form (ctl data : list Z) : list Z :=
  match ctl with
  | [] => []
  | c :: ctl =>
      if c <? 0 then c :: nth 0 data 0 :: stored_form ctl (drop (Z.to_nat (- c)) data)
      else c :: take (Z.to_nat c) data ++ stored_form ctl (drop (Z.to_nat c) data)
  end.

(** [decodes out data]: decompressing [out] gives exactly [data] where there
    is room for it, and is refused where there is not. *)
Definition decodes (out data : list Z) : Prop :=
  forall fuel room, (length out < fuel)%nat ->
    decompress_loop fuel out room
    = if room <? Z.of_nat (length data) then Throw (BUGCHECK 179) else Ret data.

Lemma decodes_nil : decodes [] [].
Proof. intros [|fuel] room H; simpl in *; [lia|done]. Qed.

Lemma decodes_literal n lit out data :
  length lit = n -> decodes out data -> decodes (Z.of_nat n :: lit ++ out) (lit ++ data).
Proof.
  intros Hn Hd [|fuel] room Hf; simpl in Hf; [lia|]. rewrite length_app in Hf |- *.
  cbn [decompress_loop]. destruct (Z.ltb_spec (Z.of_nat n) 0); [lia|].
  destruct (Z.ltb_spec room (Z.of_nat n)).
  { destruct (Z.ltb_spec room (Z.of_nat (length lit + length data))); [auto|lia]. }
  rewrite Nat2Z.id, length_app, (proj2 (Nat.leb_le _ _)), drop_app_length',
    take_app_length', Hd by lia.
  bool_cases; auto; lia.
Qed.

Lemma decodes_run n c out data :
  (0 < n)%nat -> decodes out data -> decodes (- Z.of_nat n :: c :: out) (repeat c n ++ data).
Proof.
  intros Hn Hd [|fuel] room Hf; simpl in Hf; [lia|].
  rewrite length_app, repeat_length.
  cbn [decompress_loop]. destruct (Z.ltb_spec (- Z.of_nat n) 0); [|lia].
  rewrite Z.opp_involutive, Nat2Z.id.
  destruct (Z.ltb_spec room (Z.of_nat n)).
  { destruct (Z.ltb_spec room (Z.of_nat (n + length data))); [auto|lia]. }
  rewrite Hd by lia. bool_cases; auto; lia.
Qed.
#[local] Hint Resolve decodes_nil decodes_literal decodes_run : vulcan.

Lemma stored_form_literal n lit ctl rest :
  length lit = n ->
  stored_form (Z.of_nat n :: ctl) (lit ++ rest) = Z.of_nat n :: lit ++ stored_form ctl rest.
Proof.
  intros Hn. cbn [stored_form]. destruct (Z.ltb_spec (Z.of_nat n) 0); [lia|].
  by rewrite Nat2Z.id, take_app_length', drop_app_length'.
Qed.

Lemma stored_form_run n c ctl rest :
  (0 < n)%nat ->
  stored_form (- Z.of_nat n :: ctl) (repeat c n ++ rest)
  = - Z.of_nat n :: c :: stored_form ctl rest.
Proof.
  intros Hn. cbn [stored_form]. destruct (Z.ltb_spec (- Z.of_nat n) 0); [|lia].
  rewrite Z.opp_involutive, Nat2Z.id, drop_app_length' by (by rewrite repeat_length).
  by destruct n; [lia|].
Qed.

Lemma stored_form_decodes ctl data : encodes ctl data -> decodes (stored_form ctl data) data.
Proof.
  induction 1; [apply decodes_nil|rewrite stored_form_literal|rewrite stored_form_run];
    auto with vulcan; try lia. apply decodes_run; auto; lia.
Qed.

Lemma length_stored_form ctl data :
  encodes ctl data -> Z.of_nat (length (stored_form ctl data)) = stored_size ctl.
Proof.
  induction 1; [done|rewrite stored_form_literal by done|rewrite stored_form_run by lia];
    cbn [stored_size]; bool_cases; try lia; simpl; rewrite ?length_app; lia.
Qed.

Lemma stored_size_nonneg ctl data : encodes ctl data -> 0 <= stored_size ctl.
Proof. intros H. rewrite <-(length_stored_form _ _ H). lia. Qed.

(** ** SQZ_fast *)

Lemma fast_block_app c1 c2 input :
  fast_block (c1 ++ c2) input
  = let* (o1, rest) := fast_block c1 input in
    let* (o2, rest) := fast_block c2 rest in Ret (o1 ++ o2, rest).
Proof.
  revert input; induction c1 as [|c c1 IH]; intros input.
  { simpl. destruct (fast_block c2 input) as [[]|]; auto. }
  cbn [fast_block app]. destruct (c <? 0).
  - destruct input as [|b input]; [done|]. rewrite IH.
    destruct (fast_block c1 _) as [[o1 rest]|]; simpl; auto.
    destruct (fast_block c2 rest) as [[]|]; auto.
  - destruct (_ <=? _)%nat; [|done]. rewrite IH.
    destruct (fast_block c1 _) as [[o1 rest]|]; simpl; auto.
    destruct (fast_block c2 rest) as [[]|]; simpl; by rewrite <-?app_assoc.
Qed.

Lemma SQZ_fast_concat chain input out rest :
  fast_block (concat chain) input = Ret (out, rest) -> SQZ_fast chain input = Ret out.
Proof.
  revert input out; induction chain as [|ctl chain IH]; intros input out.
  { simpl. by intros [= <- _]. }
  cbn [concat SQZ_fast]. rewrite fast_block_app.
  destruct (fast_block ctl input) as [[o1 r1]|]; simpl; [|done].
  destruct (fast_block (concat chain) r1) as [[o2 r2]|] eqn:E; simpl; [|done].
  intros [= <- <-]. by rewrite (IH _ _ E).
Qed.

Lemma fast_block_encodes ctl data :
  encodes ctl data -> fast_block ctl data = Ret (stored_form ctl data, []).
Proof.
  induction 1 as [|n lit ctl rest Hn Hl He IH|n c ctl rest Hn He IH]; [done| |].
  - rewrite stored_form_literal by done. cbn [fast_block].
    destruct (Z.ltb_spec (Z.of_nat n) 0); [lia|].
    rewrite Nat2Z.id, length_app, (proj2 (Nat.leb_le _ _)), drop_app_length',
      take_app_length', IH by lia. done.
  - rewrite stored_form_run by lia. cbn [fast_block].
    destruct (Z.ltb_spec (- Z.of_nat n) 0); [|lia].
    rewrite Z.opp_involutive, Nat2Z.id, drop_app_length', IH by (by rewrite repeat_length).
    by destruct n; [lia|].
Qed.

(** ** SQZ_compress and SQZ_compress_length *)

Lemma literal_sign_bit n : (n <= 127)%nat -> Z.land (Z.of_nat n) 128 = 0.
Proof.
  intros H. apply Z.eqb_eq.
  apply (Z_range_check (fun z => Z.land z 128 =? 0) 0 128); [reflexivity|lia].
Qed.

Lemma run_sign_bit n :
  (1 <= n <= 128)%nat ->
  (Z.land (- Z.of_nat n) 128 =? 0) = false /\ Z.land (- - Z.of_nat n) 255 = Z.of_nat n.
Proof.
  intros H. rewrite Z.opp_involutive. split.
  - apply negb_true_iff.
    apply (Z_range_check (fun z => negb (Z.land (- z) 128 =? 0)) 1 129); [reflexivity|lia].
  - rewrite (Z.land_ones _ 8), Z.mod_small by lia. done.
Qed.

Lemma compress_block_app c1 c2 input taken space :
  compress_block (c1 ++ c2) input taken space
  = let* r := compress_block c1 input taken space in
    match r with
    | Full out k => Ret (Full out k)
    | More out (rest, taken) space =>
        let* r := compress_block c2 rest taken space in
        match r with
        | Full out' k => Ret (Full (out ++ out') k)
        | More out' rest space => Ret (More (out ++ out') rest space)
        end
    end.
Proof.
  revert input taken space; induction c1 as [|c c1 IH]; intros input taken space.
  { simpl. destruct (compress_block c2 _ _ _) as [[]|]; auto. }
  cbn [compress_block app].
  repeat (match goal with
  | |- context [if ?b then _ else _] => destruct b; simpl; try done
  | |- context [match input with [] => _ | _ => _ end] => destruct input; simpl; try done
  end).
  all: rewrite IH; destruct (compress_block c1 _ _ _) as [[|? []]|]; simpl; auto.
  all: destruct (compress_block c2 _ _ _) as [[]|]; simpl; by rewrite <-?app_assoc.
Qed.

Lemma compress_chain_concat chain input taken space :
  compress_chain chain input taken space
  = let* r := compress_block (concat chain) input taken space in
    match r with
    | Full out k => Ret (out, k)
    | More _ _ _ => Throw (BUGCHECK 178)
    end.
Proof.
  revert input taken space; induction chain as [|ctl chain IH]; intros input taken space; [done|].
  cbn [compress_chain concat]. rewrite compress_block_app.
  destruct (compress_block ctl input taken space) as [[|out [rest t] sp]|]; simpl; auto.
  rewrite IH. destruct (compress_block _ rest t sp) as [[]|]; simpl; auto.
Qed.

Lemma compress_length_block_app c1 c2 taken space :
  compress_length_block (c1 ++ c2) taken space
  = match compress_length_block c1 taken space with
    | Full out k => Full out k
    | More _ taken space => compress_length_block c2 taken space
    end.
Proof.
  revert taken space; induction c1 as [|c c1 IH]; intros taken space; [done|].
  cbn [compress_length_block app]. repeat case_match; auto; try congruence.
  all: rewrite IH in *; repeat case_match; congruence.
Qed.

Lemma compress_length_chain_concat chain taken space :
  compress_length_chain chain taken space
  = match compress_length_block (concat chain) taken space with
    | Full _ k => Ret k
    | More _ _ _ => Throw (BUGCHECK 178)
    end.
Proof.
  revert taken space; induction chain as [|ctl chain IH]; intros taken space; [done|].
  cbn [compress_length_chain concat]. rewrite compress_length_block_app.
  destruct (compress_length_block ctl taken space); auto.
Qed.

(** Enough space: the block is used up. *)
Lemma compress_block_more ctl data taken space :
  encodes ctl data -> stored_size ctl <= space ->
  compress_block ctl data taken space
    = Ret (More (stored_form ctl data) ([], taken + Z.of_nat (length data))
        (space - stored_size ctl)) /\
  compress_length_block ctl taken space
    = More [] (taken + Z.of_nat (length data)) (space - stored_size ctl).
Proof.
  intros He. revert taken space.
  induction He as [|n lit ctl rest Hn Hl He IH|n c ctl rest Hn He IH]; intros taken space Hs.
  { simpl. split; f_lia. }
  - rewrite stored_form_literal, length_app by done.
    cbn [stored_size] in *. destruct (Z.ltb_spec (Z.of_nat n) 0); [lia|].
    pose proof (stored_size_nonneg _ _ He).
    destruct (IH (taken + Z.of_nat n) (space - 1 - Z.of_nat n)) as [IH1 IH2]; [lia|].
    cbn [compress_block compress_length_block].
    rewrite literal_sign_bit by lia. change (0 =? 0) with true. cbn [negb].
    destruct (Z.leb_spec (space - 1) 0); [lia|].
    destruct (Z.ltb_spec (space - 1 - Z.of_nat n) 0); [lia|].
    rewrite Nat2Z.id, length_app, (proj2 (Nat.leb_le _ _)), drop_app_length',
      take_app_length', IH1, IH2 by lia.
    simpl. split; f_lia.
  - rewrite stored_form_run, length_app, repeat_length by lia.
    cbn [stored_size] in *. destruct (Z.ltb_spec (- Z.of_nat n) 0); [|lia].
    pose proof (stored_size_nonneg _ _ He).
    destruct (IH (taken + Z.of_nat n) (space - 1 - 1)) as [IH1 IH2]; [lia|].
    destruct (run_sign_bit n) as [B1 B2]; [lia|].
    cbn [compress_block compress_length_block]. rewrite B1, B2, Nat2Z.id. cbn [negb].
    destruct (Z.leb_spec (space - 1) 0); [lia|].
    rewrite drop_app_length', IH1, IH2 by (by rewrite repeat_length).
    destruct n as [|n]; [lia|]. simpl. split; f_lia.
Qed.

(** The whole area was used: by a padding zero, or by a shortened literal. *)
Lemma decodes_pad : decodes [0] [].
Proof. apply (decodes_literal 0 [] [] []); auto using decodes_nil. Qed.

Lemma decodes_shortened n lit rest :
  (n <= length lit)%nat -> decodes (Z.of_nat n :: take n lit) (take n (lit ++ rest)).
Proof.
  intros H. rewrite take_app_le by done.
  pose proof (decodes_literal n (take n lit) [] []) as D. rewrite !app_nil_r in D.
  apply D; [apply length_take_le; lia|apply decodes_nil].
Qed.

(** Too little space: the area is filled exactly with the stored form of a
    prefix of the record. *)
Definition fills (out : list Z) (n : nat) (data : list Z) (space : Z) : Prop :=
  (n <= length data)%nat /\ decodes out (take n data) /\ Z.of_nat (length out) = space.

Lemma fills_pad data : fills [0] 0 data 1.
Proof. split_and!; auto using decodes_pad; lia. Qed.

Lemma fills_literal n lit out k rest space :
  length lit = n -> fills out k rest space ->
  fills (Z.of_nat n :: lit ++ out) (n + k) (lit ++ rest) (1 + Z.of_nat n + space).
Proof.
  intros Hn (H1 & H2 & H3). split_and!; rewrite ?length_app; simpl; rewrite ?length_app; try lia.
  rewrite take_app_add' by done. apply decodes_literal; auto.
Qed.

Lemma fills_run n c out k rest space :
  (0 < n)%nat -> fills out k rest space ->
  fills (- Z.of_nat n :: c :: out) (n + k) (repeat c n ++ rest) (2 + space).
Proof.
  intros Hn (H1 & H2 & H3).
  split_and!; rewrite ?length_app, ?repeat_length; simpl; try lia.
  rewrite take_app_add' by (by rewrite repeat_length). apply decodes_run; auto.
Qed.

(** The stop at the head of a control string. *)
Lemma compress_stop data taken space :
  0 <= space -> space - 1 <= 0 ->
  exists out n,
    Ret (Full (if space - 1 =? 0 then [0] else []) taken)
      = Ret (A := fit (list Z * Z)) (Full out (taken + Z.of_nat n)) /\
    Full (A := Z) [] taken = Full [] (taken + Z.of_nat n) /\
    fills out n data space.
Proof.
  intros H1 H2. destruct (Z.eqb_spec (space - 1) 0).
  - exists [0], 0%nat. replace space with 1 by lia. split_and!; [f_lia..|]. apply fills_pad.
  - exists [], 0%nat. replace space with 0 by lia. split_and!; [f_lia..|].
    split_and!; auto using decodes_nil; lia.
Qed.

Lemma compress_block_full ctl data taken space :
  encodes ctl data -> 0 <= space < stored_size ctl ->
  exists out n,
    compress_block ctl data taken space = Ret (Full out (taken + Z.of_nat n)) /\
    compress_length_block ctl taken space = Full [] (taken + Z.of_nat n) /\
    fills out n data space.
Proof.
  intros He. revert taken space.
  induction He as [|n lit ctl rest Hn Hl He IH|n c ctl rest Hn He IH];
    cbn [stored_size]; intros taken space Hs; [lia| |].
  - destruct (Z.ltb_spec (Z.of_nat n) 0); [lia|].
    cbn [compress_block compress_length_block].
    rewrite literal_sign_bit by lia. change (0 =? 0) with true. cbn [negb].
    destruct (Z.leb_spec (space - 1) 0); [apply compress_stop; lia|].
    destruct (Z.ltb_spec (space - 1 - Z.of_nat n) 0).
    + replace (Z.of_nat n + (space - 1 - Z.of_nat n)) with (Z.of_nat (Z.to_nat (space - 1))) by lia.
      set (m := Z.to_nat (space - 1)). rewrite Nat2Z.id, length_app.
      destruct (Z.ltb_spec 0 (Z.of_nat m)); [|lia].
      rewrite (proj2 (Nat.leb_le _ _)) by lia.
      exists (Z.of_nat m :: take m (lit ++ rest)), m. split_and!; auto.
      rewrite take_app_le by lia. split_and!.
      * rewrite length_app. lia.
      * apply decodes_shortened. lia.
      * simpl. rewrite length_take. lia.
    + rewrite Nat2Z.id, length_app, (proj2 (Nat.leb_le _ _)), drop_app_length',
        take_app_length' by lia.
      destruct (IH (taken + Z.of_nat n) (space - 1 - Z.of_nat n)) as (out & k & -> & -> & Hk); [lia|].
      exists (Z.of_nat n :: lit ++ out), (n + k)%nat. simpl. split_and!; [f_lia|f_lia|].
      replace space with (1 + Z.of_nat n + (space - 1 - Z.of_nat n)) by lia.
      by apply fills_literal.
  - destruct (Z.ltb_spec (- Z.of_nat n) 0); [|lia].
    destruct (run_sign_bit n) as [B1 B2]; [lia|].
    cbn [compress_block compress_length_block]. rewrite B1, B2, Nat2Z.id. cbn [negb].
    destruct (Z.leb_spec (space - 1) 0); [apply compress_stop; lia|].
    destruct (IH (taken + Z.of_nat n) (space - 1 - 1)) as (out & k & H1 & -> & Hk); [lia|].
    rewrite drop_app_length', H1 by (by rewrite repeat_length).
    exists (- Z.of_nat n :: c :: out), (n + k)%nat.
    destruct n as [|n]; [lia|]. simpl. split_and!; [f_lia|f_lia|].
    replace space with (2 + (space - 1 - 1)) by lia.
    apply (fills_run (S n)); auto; lia.
Qed.

(** ** Difference records *)

(** Applied anywhere in a record, the differences [d] turn the piece [s]
    into [t], change nothing else and are used up. *)
Definition applies (d s t : list Z) : Prop :=
  length s = length t /\
  forall fuel pre suf, (length d < fuel)%nat ->
    apply_loop fuel d (pre ++ s ++ suf) (length pre)
    = Ret (pre ++ t ++ suf, (length pre + length t)%nat, []).

Lemma applies_nil : applies [] [] [].
Proof.
  split; [done|]. intros [|fuel] pre suf Hf; simpl in *; [lia|].
  rewrite Nat.add_0_r. by case_match.
Qed.

Lemma store_app pre old new suf :
  length old = length new -> store (pre ++ old ++ suf) (length pre) new = pre ++ new ++ suf.
Proof.
  intros H. unfold store. rewrite take_app_length, <-H.
  by rewrite (app_assoc pre old suf), drop_app_length' by (rewrite length_app; lia).
Qed.

Lemma applies_literal old lit d s t :
  (1 <= length lit)%nat -> length old = length lit -> applies d s t ->
  applies (Z.of_nat (length lit) :: lit ++ d) (old ++ s) (lit ++ t).
Proof.
  intros Hn Hl [Hst Ha]. split; [rewrite !length_app; lia|].
  intros [|fuel] pre suf Hf; simpl in Hf; [lia|]. rewrite length_app in Hf.
  cbn [apply_loop]. rewrite !length_app.
  destruct (Nat.ltb_spec (length pre) (length pre + (length old + length s + length suf)));
    [|lia].
  destruct (Z.ltb_spec 0 (Z.of_nat (length lit))); [|lia]. rewrite Nat2Z.id.
  destruct (Nat.ltb_spec (length pre + (length old + length s + length suf))
    (length pre + length lit)); [lia|].
  rewrite (proj2 (Nat.leb_le _ _)), take_app_length, drop_app_length by lia.
  rewrite <-!app_assoc, store_app by done.
  replace (length pre + length lit)%nat with (length (pre ++ lit)) by apply length_app.
  rewrite (app_assoc pre), Ha by lia. rewrite length_app, <-!app_assoc. f_lia.
Qed.

Lemma applies_skip same d s t :
  (1 <= length same)%nat -> applies d s t ->
  applies (- Z.of_nat (length same) :: d) (same ++ s) (same ++ t).
Proof.
  intros Hn [Hst Ha]. split; [rewrite !length_app; lia|].
  intros [|fuel] pre suf Hf; simpl in Hf; [lia|]. cbn [apply_loop]. rewrite !length_app.
  destruct (Nat.ltb_spec (length pre) (length pre + (length same + length s + length suf)));
    [|lia].
  destruct (Z.ltb_spec 0 (- Z.of_nat (length same))); [lia|].
  rewrite Z.opp_involutive, Nat2Z.id.
  replace (length pre + length same)%nat with (length (pre ++ same)) by apply length_app.
  rewrite <-!app_assoc, (app_assoc pre), Ha by lia. rewrite length_app, <-!app_assoc. f_lia.
Qed.
#[local] Hint Resolve applies_nil applies_literal applies_skip : vulcan.

Lemma nth_cons_tail (l : list Z) : (1 <= length l)%nat -> l = nth 0 l 0 :: tail l.
Proof. destruct l; simpl; [lia|done]. Qed.

Lemma diff_literal_spec k rec1 rec2 room lit r1 r2 :
  (k <= length rec1 <= length rec2)%nat ->
  diff_literal k rec1 rec2 room = Some (lit, r1, r2) ->
  (exists old, rec1 = old ++ r1 /\ length old = length lit) /\
  rec2 = lit ++ r2 /\ (length lit <= k)%nat /\ Z.of_nat (length lit) <= Z.max 0 room.
Proof.
  revert rec1 rec2 room lit; induction k as [|k IH]; intros rec1 rec2 room lit Hk; simpl.
  { intros [= <- <- <-]. split_and!; simpl; eauto with lia. by exists []. }
  case_match; [|intros [= <- <- <-]; split_and!; simpl; eauto with lia; by exists []].
  destruct (Z.ltb_spec 0 room); [|done].
  destruct (diff_literal k _ _ _) as [[[lit' r1'] r2']|] eqn:E; [|done].
  intros [= <- <- <-].
  rewrite (nth_cons_tail rec1), (nth_cons_tail rec2) in * by lia.
  set (a := nth 0 rec1 0) in *. set (b := nth 0 rec2 0) in *. simpl in E, Hk.
  apply IH in E as ((old & -> & Hold) & -> & Hle & Hroom); [|simpl in *; lia].
  split_and!; simpl; try lia; auto.
  exists (a :: old). simpl. auto.
Qed.

Lemma diff_literal_progress k rec1 rec2 room lit r1 r2 :
  (2 <= k)%nat ->
  negb (nth 0 rec1 0 =? nth 0 rec2 0) || negb (nth 1 rec1 0 =? nth 1 rec2 0) = true ->
  diff_literal k rec1 rec2 room = Some (lit, r1, r2) -> (1 <= length lit)%nat.
Proof.
  intros Hk Hne. destruct k as [|k]; [lia|]. cbn [diff_literal].
  rewrite (proj2 (Nat.ltb_lt 0 k)), andb_true_r, Hne by lia.
  destruct (0 <? room); [|done].
  destruct (diff_literal k _ _ _) as [[[? ?] ?]|]; [|done]. intros [= <- _ _]. simpl; lia.
Qed.

Lemma diff_literal_total k rec1 rec2 room :
  Z.of_nat k <= room -> is_Some (diff_literal k rec1 rec2 room).
Proof.
  revert rec1 rec2 room; induction k as [|k IH]; intros rec1 rec2 room Hr; cbn [diff_literal]; eauto.
  case_match; eauto. destruct (Z.ltb_spec 0 room); [|lia].
  destruct (IH (tail rec1) (tail rec2) (room - 1)) as [[[] ] ->]; eauto. lia.
Qed.

Lemma diff_equal_spec rec1 rec2 n r1 r2 :
  diff_equal rec1 rec2 = (n, r1, r2) ->
  exists same, rec1 = same ++ r1 /\ rec2 = same ++ r2 /\ length same = n.
Proof.
  revert rec2 n; induction rec1 as [|a rec1 IH]; intros [|b rec2] n; simpl;
    try (intros [= <- <- <-]; by exists []).
  destruct (Z.eqb_spec a b) as [->|]; [|intros [= <- <- <-]; by exists []].
  destruct (diff_equal rec1 rec2) as [[n' r1'] r2'] eqn:E. intros [= <- <- <-].
  destruct (IH _ _ E) as (same & -> & -> & <-). by exists (b :: same).
Qed.

Lemma diff_equal_progress rec1 rec2 n r1 r2 :
  (1 <= length rec1)%nat -> (1 <= length rec2)%nat -> nth 0 rec1 0 = nth 0 rec2 0 ->
  diff_equal rec1 rec2 = (n, r1, r2) -> (1 <= n)%nat.
Proof.
  destruct rec1 as [|a rec1], rec2 as [|b rec2]; simpl; try lia. intros _ _ ->.
  rewrite Z.eqb_refl. destruct (diff_equal rec1 rec2) as [[]]. intros [= <- _ _]. lia.
Qed.

Lemma diff_skip_spec fuel n room cs :
  (n < fuel)%nat -> diff_skip fuel (- Z.of_nat n) room = Some cs ->
  Z.of_nat (length cs) <= Z.max 0 room /\
  forall same d s t, length same = n -> applies d s t ->
    applies (cs ++ d) (same ++ s) (same ++ t).
Proof.
  revert n room cs; induction fuel as [|fuel IH]; intros n room cs Hf; [lia|].
  cbn [diff_skip]. destruct (Z.ltb_spec (- Z.of_nat n) (-127)).
  - destruct (Z.ltb_spec 0 room); [|done].
    replace (- Z.of_nat n + 127) with (- Z.of_nat (n - 127)) by lia.
    destruct (diff_skip fuel _ _) as [cs'|] eqn:E; [|done]. intros [= <-].
    apply IH in E as [Hle Happ]; [|lia]. split; [simpl; lia|].
    intros same d s t Hs Ha. rewrite <-(take_drop 127 same), <-!app_assoc.
    assert (Ht : length (take 127 same) = 127%nat) by (rewrite length_take; lia).
    pose proof (applies_skip (take 127 same) (cs' ++ d) (drop 127 same ++ s)
      (drop 127 same ++ t)) as A. rewrite Ht in A. apply A; [lia|].
    apply Happ; auto. rewrite length_drop; lia.
  - destruct (Z.eqb_spec (- Z.of_nat n) 0).
    { intros [= <-]. split; [simpl; lia|]. intros [|]; simpl; auto; lia. }
    destruct (Z.ltb_spec 0 room); [|done]. intros [= <-]. split; [simpl; lia|].
    intros same d s t Hs Ha. rewrite SCHAR_small, <-Hs by (unfold is_schar; lia).
    apply applies_skip; auto; lia.
Qed.

Lemma diff_skip_total fuel n room :
  (n < fuel)%nat -> Z.of_nat n <= room -> is_Some (diff_skip fuel (- Z.of_nat n) room).
Proof.
  revert n room; induction fuel as [|fuel IH]; intros n room Hf Hr; [lia|].
  cbn [diff_skip]. destruct (Z.ltb_spec (- Z.of_nat n) (-127)).
  - destruct (Z.ltb_spec 0 room); [|lia].
    replace (- Z.of_nat n + 127) with (- Z.of_nat (n - 127)) by lia.
    destruct (IH (n - 127)%nat (room - 1)) as [cs ->]; eauto; lia.
  - destruct (Z.eqb_spec (- Z.of_nat n) 0); eauto. destruct (Z.ltb_spec 0 room); eauto; lia.
Qed.

Lemma diff_skip_length fuel n room cs :
  (n < fuel)%nat -> diff_skip fuel (- Z.of_nat n) room = Some cs ->
  Z.of_nat (length cs) <= Z.of_nat n.
Proof.
  revert n room cs; induction fuel as [|fuel IH]; intros n room cs Hf; [lia|].
  cbn [diff_skip]. destruct (Z.ltb_spec (- Z.of_nat n) (-127)).
  - destruct (0 <? room); [|done].
    replace (- Z.of_nat n + 127) with (- Z.of_nat (n - 127)) by lia.
    destruct (diff_skip fuel _ _) as [cs'|] eqn:E; [|done]. intros [= <-].
    apply IH in E; simpl; lia.
  - destruct (Z.eqb_spec (- Z.of_nat n) 0); [intros [= <-]; simpl; lia|].
    destruct (0 <? room); [|done]. intros [= <-]. simpl. lia.
Qed.

Lemma diff_tail_spec fuel rec2 room d :
  diff_tail fuel rec2 room = Some d ->
  Z.of_nat (length d) <= Z.max 0 room /\ forall s, length s = length rec2 -> applies d s rec2.
Proof.
  revert rec2 room d; induction fuel as [|fuel IH]; intros rec2 room d; [done|].
  cbn [diff_tail]. destruct rec2 as [|b rec2].
  { intros [= <-]. split; [simpl; lia|]. intros [|]; simpl; auto using applies_nil; lia. }
  set (r := b :: rec2). set (n := Nat.min (length r) 127).
  assert (Hn : (1 <= n)%nat) by (unfold n, r; simpl; lia).
  destruct (Z.leb_spec (Z.of_nat n) (room - 1)); [|done].
  destruct (diff_tail fuel _ _) as [d'|] eqn:E; [|done]. intros <-%(inj Some).
  apply IH in E as [Hle Happ].
  assert (Ht : length (take n r) = n) by (rewrite length_take; lia).
  split; [cbn [length]; rewrite length_app, Ht; lia|].
  intros s Hs.
  pose proof (applies_literal (take n s) (take n r) d' (drop n s) (drop n r)) as A.
  rewrite !take_drop, Ht in A. apply A; [lia|rewrite length_take; lia|].
  apply Happ. rewrite !length_drop. lia.
Qed.

Lemma diff_tail_total fuel rec2 room :
  (length rec2 < fuel)%nat -> 2 * Z.of_nat (length rec2) <= room ->
  is_Some (diff_tail fuel rec2 room).
Proof.
  revert rec2 room; induction fuel as [|fuel IH]; intros rec2 room Hf Hr; [lia|].
  cbn [diff_tail]. destruct rec2 as [|b rec2]; eauto.
  set (r := b :: rec2) in *. set (n := Nat.min (length r) 127).
  assert (Hn : (1 <= n)%nat) by (unfold n, r; simpl; lia).
  destruct (Z.leb_spec (Z.of_nat n) (room - 1)); [|lia].
  destruct (IH (drop n r) (room - 1 - Z.of_nat n)) as [d ->]; eauto;
    rewrite length_drop; lia.
Qed.

Lemma diff_loop_spec fuel rec1 rec2 room d :
  (length rec1 <= length rec2)%nat ->
  diff_loop fuel rec1 rec2 room = Some d ->
  Z.of_nat (length d) <= Z.max 0 room /\
  forall x, length (rec1 ++ x) = length rec2 -> applies d (rec1 ++ x) rec2.
Proof.
  revert rec1 rec2 room d; induction fuel as [|fuel IH]; intros rec1 rec2 room d Hl; [done|].
  cbn [diff_loop]. destruct (Nat.ltb_spec 2 (length rec1)) as [H2|H2].
  2: { intros Hd. apply diff_tail_spec in Hd as [Hd Ha]. auto. }
  destruct (negb (nth 0 rec1 0 =? nth 0 rec2 0) || _) eqn:Hne.
  - destruct (diff_literal _ _ _ _) as [[[lit r1] r2]|] eqn:E; [|done].
    assert (Hp : (1 <= length lit)%nat)
      by (eapply diff_literal_progress; [|exact Hne|exact E]; lia).
    apply diff_literal_spec in E as ((old & -> & Hold) & -> & Hk & Hr); [|lia].
    rewrite !length_app in *.
    destruct (diff_loop fuel r1 r2 _) as [d'|] eqn:E; [|done]. intros <-%(inj Some).
    apply IH in E as [Hle Ha]; [|lia].
    rewrite SCHAR_small by (unfold is_schar; lia).
    split; [cbn [length]; rewrite length_app; lia|].
    intros x Hx. rewrite <-app_assoc, !length_app in *. apply applies_literal; auto.
    apply Ha. rewrite length_app. lia.
  - apply orb_false_iff in Hne as [Hne _]. apply negb_false_iff, Z.eqb_eq in Hne.
    destruct (diff_equal rec1 rec2) as [[n r1] r2] eqn:E.
    assert (Hp : (1 <= n)%nat)
      by (eapply diff_equal_progress; [| |exact Hne|exact E]; lia).
    apply diff_equal_spec in E as (same & -> & -> & Hn). rewrite !length_app in *.
    destruct (diff_skip _ _ _) as [cs|] eqn:Ec; [|done].
    apply diff_skip_spec in Ec as [Hc Happ]; [|lia].
    destruct (diff_loop fuel r1 r2 _) as [d'|] eqn:E; [|done]. intros <-%(inj Some).
    apply IH in E as [Hle Ha]; [|lia].
    split; [rewrite length_app; lia|].
    intros x Hx. rewrite <-app_assoc in *. apply Happ; auto.
    apply Ha. rewrite !length_app in *. lia.
Qed.

Lemma diff_loop_total fuel rec1 rec2 room :
  (length rec1 <= length rec2)%nat -> (length rec1 < fuel)%nat ->
  2 * Z.of_nat (length rec2) <= room -> is_Some (diff_loop fuel rec1 rec2 room).
Proof.
  revert rec1 rec2 room; induction fuel as [|fuel IH]; intros rec1 rec2 room Hl Hf Hr; [lia|].
  cbn [diff_loop]. destruct (Nat.ltb_spec 2 (length rec1)) as [H2|H2].
  2: { apply diff_tail_total; lia. }
  destruct (negb (nth 0 rec1 0 =? nth 0 rec2 0) || _) eqn:Hne.
  - destruct (diff_literal_total (length rec1 `min` 127) rec1 rec2 (room - 1)) as [[[lit r1] r2] E];
      [lia|]. rewrite E.
    assert (Hp : (1 <= length lit)%nat)
      by (eapply diff_literal_progress; [|exact Hne|exact E]; lia).
    apply diff_literal_spec in E as ((old & -> & Hold) & -> & Hk & Hroom); [|lia].
    rewrite !length_app in *.
    destruct (IH r1 r2 (room - 1 - Z.of_nat (length lit))) as [d' ->]; eauto; lia.
  - apply orb_false_iff in Hne as [Hne _]. apply negb_false_iff, Z.eqb_eq in Hne.
    destruct (diff_equal rec1 rec2) as [[n r1] r2] eqn:E.
    assert (Hp : (1 <= n)%nat)
      by (eapply diff_equal_progress; [| |exact Hne|exact E]; lia).
    apply diff_equal_spec in E as (same & -> & -> & Hn). rewrite !length_app in *.
    destruct (diff_skip_total (S n) n room) as [cs Ec]; [lia|lia|]. rewrite Ec.
    assert (Hc : Z.of_nat (length cs) <= Z.of_nat n)
      by (eapply diff_skip_length; [|exact Ec]; lia).
    destruct (IH r1 r2 (room - Z.of_nat (length cs))) as [d' ->]; eauto; lia.
Qed.

Lemma no_differences_applies fuel s :
  (length s < fuel)%nat -> applies (no_differences_loop fuel (Z.of_nat (length s))) s s.
Proof.
  revert s; induction fuel as [|fuel IH]; intros s Hf; [lia|]. cbn [no_differences_loop].
  destruct (Z.ltb_spec 127 (Z.of_nat (length s))).
  - replace (Z.of_nat (length s) - 127) with (Z.of_nat (length (drop 127 s)))
      by (rewrite length_drop; lia).
    assert (Ht : length (take 127 s) = 127%nat) by (rewrite length_take; lia).
    pose proof (applies_skip (take 127 s)
      (no_differences_loop fuel (Z.of_nat (length (drop 127 s)))) (drop 127 s) (drop 127 s)) as A.
    rewrite take_drop, Ht in A. apply A; [lia|]. apply IH. rewrite length_drop; lia.
  - destruct (Z.eqb_spec (Z.of_nat (length s)) 0).
    + destruct s; [apply applies_nil|simpl in *; lia].
    + rewrite SCHAR_small by (unfold is_schar; lia).
      pose proof (applies_skip s [] [] []) as A. rewrite app_nil_r in A.
      apply A; [lia|apply applies_nil].
Qed.

Lemma no_differences_length fuel n :
  (n < fuel)%nat ->
  Z.of_nat (length (no_differences_loop fuel (Z.of_nat n))) <= (Z.of_nat n + 126) / 127.
Proof.
  revert n; induction fuel as [|fuel IH]; intros n Hf; [lia|]. cbn [no_differences_loop].
  destruct (Z.ltb_spec 127 (Z.of_nat n)).
  - replace (Z.of_nat n - 127) with (Z.of_nat (n - 127)) by lia. cbn [length].
    pose proof (IH (n - 127)%nat ltac:(lia)). Z.to_euclidean_division_equations; lia.
  - destruct (Z.eqb_spec (Z.of_nat n) 0); simpl; Z.to_euclidean_division_equations; lia.
Qed.

(** Differences that cover a prefix [s] of the record rewrite that prefix. *)
Lemma SQZ_apply_applies d s t suf :
  applies d s t -> Z.of_nat (length d) <= MAX_DIFFERENCES ->
  Z.of_nat (length (s ++ suf)) < 65536 ->
  SQZ_apply_differences (s ++ suf) d = Ret (t ++ suf, Z.of_nat (length t)).
Proof.
  intros [Hst Ha] Hd Hl. unfold SQZ_apply_differences.
  destruct (Z.ltb_spec MAX_DIFFERENCES (Z.of_nat (length d))); [lia|].
  pose proof (Ha (S (length d)) [] suf ltac:(lia)) as E. simpl app in E. simpl length in E.
  rewrite length_app in Hl |- *. rewrite E. cbn [obind]. rewrite USHORT_small by (simpl; lia).
  cbn [length]. rewrite Nat.ltb_irrefl, orb_false_r, Nat.add_0_l.
  destruct (Z.ltb_spec (Z.of_nat (length s + length suf)) (Z.of_nat (length t))); [lia|done].
Qed.

(** ** The stored length *)

Lemma SQZ_length_exact data pool :
  Z.of_nat (length data) <= 65023 ->
  exists chain pool',
    SQZ_length data pool = Some (stored_size (concat chain), chain, pool') /\
    encodes (concat chain) data /\
    stored_size (concat chain) <= Z.of_nat (length data) + Z.of_nat (length data) / 127 + 1 /\
    Forall (fun b => (length b <= dcc_string_size)%nat) chain.
Proof.
  intros Hl. destruct (SQZ_length_spec data pool) as (chain & pool' & He & Hb & Hf & E); [lia|].
  pose proof (stored_size_nonneg _ _ He).
  assert (stored_size (concat chain) <= 65535) by lia.
  exists chain, pool'. rewrite E, USHORT_small by lia. split_and!; auto.
  Z.to_euclidean_division_equations; lia.
Qed.

(** A record without three equal characters in a row. *)
Definition incompressible (data : list Z) : Prop := literal_run data = length data.

Lemma literal_controls_size fuel n :
  (n <= fuel)%nat ->
  (literal_controls fuel n).2 = Z.of_nat n + (Z.of_nat n + 126) / 127.
Proof.
  revert n; induction fuel as [|fuel IH]; intros n Hn.
  { replace n with 0%nat by lia. reflexivity. }
  cbn [literal_controls]. destruct (Nat.eqb_spec n 0) as [->|]; [reflexivity|].
  pose proof (IH (n - Nat.min n 127)%nat ltac:(lia)) as E.
  destruct (literal_controls fuel _) as [cs m]. cbn [snd] in *. rewrite E.
  Z.to_euclidean_division_equations; lia.
Qed.

Lemma SQZ_length_loop_incompressible data pool :
  incompressible data -> 0 < Z.of_nat (length data) < 65536 ->
  exists st,
    SQZ_length_loop (S (length data)) data 0 (mk_dcc [] [] pool)
      = Some (stored_size (concat (dcc_chain st)), st) /\
    stored_size (concat (dcc_chain st))
      = Z.of_nat (length data) + (Z.of_nat (length data) + 126) / 127.
Proof.
  intros Hi Hl. cbn [SQZ_length_loop]. rewrite USHORT_small, Nat2Z.id by lia.
  destruct (Nat.eqb_spec (length data) 0); [lia|].
  rewrite take_ge, Hi, drop_all by lia.
  pose proof (literal_controls_size (length data) (length data) ltac:(lia)) as En.
  destruct (literal_controls_spec (length data) data) as (He & Hs & _); [lia|].
  destruct (literal_controls _ _) as [cs m]. cbn [fst snd] in *. rewrite Z.add_0_l.
  destruct (length data) eqn:Ed; [lia|]. cbn.
  exists (put_controls cs (mk_dcc [] [] pool)).
  rewrite put_controls_concat. simpl concat.
  rewrite map_SCHAR_id by eauto using encodes_schar. simpl app. rewrite <-Hs, En. auto.
Qed.

(** A record that alternates between two characters. *)
Fixpoint alternating (n : nat) : list Z :=
  match n with
  | O => []
  | S n => Z.of_nat (n mod 2) :: alternating n
  end.

Lemma length_alternating n : length (alternating n) = n.
Proof. induction n; simpl; auto. Qed.

Lemma alternating_incompressible n : incompressible (alternating n).
Proof.
  unfold incompressible. induction n as [|[|[|n]] IH]; try reflexivity.
  cbn [alternating] in *. rewrite literal_run_cons, IH.
  assert (E : (Z.of_nat (S (S n) mod 2) =? Z.of_nat (S n mod 2)) = false).
  { apply Z.eqb_neq. intros E%Nat2Z.inj. revert E.
    replace (S (S n))%nat with (1 + S n)%nat by lia.
    destruct (Nat.Even_or_Odd (S n)) as [[k ->]|[k ->]].
    - rewrite (Nat.mul_comm 2 k), Nat.Div0.mod_add, Nat.Div0.mod_mul. simpl. lia.
    - replace (1 + (2 * k + 1))%nat with (S k * 2)%nat by lia.
      replace (2 * k + 1)%nat with (1 + k * 2)%nat by lia.
      rewrite Nat.Div0.mod_add, Nat.Div0.mod_mul. simpl. lia. }
  rewrite E. reflexivity.
Qed.

(** ** Safety of replay on arbitrary stored data *)

Lemma decompress_loop_room fuel input room out :
  decompress_loop fuel input room = Ret out -> Z.of_nat (length out) <= room.
Proof.
  revert input room out; induction fuel as [|fuel IH]; intros input room out; [done|].
  cbn [decompress_loop]. destruct input as [|l input].
  { destruct (Z.ltb_spec room 0); [done|]. intros [= <-]. simpl. lia. }
  destruct (Z.ltb_spec l 0).
  - destruct input as [|c input]; [done|]. destruct (Z.ltb_spec room (- l)); [done|].
    intros (out' & E & [= <-])%obind_ret. apply IH in E.
    rewrite length_app, repeat_length. lia.
  - destruct (Z.ltb_spec room l); [done|]. destruct (Nat.leb_spec (Z.to_nat l) (length input)); [|done].
    intros (out' & E & [= <-])%obind_ret. apply IH in E.
    rewrite length_app, length_take. lia.
Qed.

Lemma apply_loop_length fuel d buf p buf' p' rest :
  apply_loop fuel d buf p = Ret (buf', p', rest) -> length buf' = length buf.
Proof.
  revert d buf p; induction fuel as [|fuel IH]; intros d buf p; [done|]. cbn [apply_loop].
  destruct (p <? length buf)%nat; [|by intros [= <- _ _]].
  destruct d as [|l d]; [by intros [= <- _ _]|]. destruct (0 <? l); [|apply IH].
  destruct (Nat.ltb_spec (length buf) (p + Z.to_nat l)); [done|].
  destruct (Nat.leb_spec (Z.to_nat l) (length d)); [|done].
  intros ->%IH. apply length_store. rewrite length_take. lia.
Qed.

(** ** Properties *)



(** A record that does not fit its page is split correctly. With less
    space than the stored length, [SQZ_compress] fills the space exactly with
    the stored form of a prefix of the record and returns the length of that
    prefix; with enough space for everything it bugchecks 178. *)
Theorem SQZ_compress_prefix data pool len chain pool' space :
  Z.of_nat (length data) <= 65023 ->
  SQZ_length data pool = Some (len, chain, pool') -> 0 <= space ->
  (len <= space -> SQZ_compress chain data space = Throw (BUGCHECK 178)) /\
  (space < len -> exists out k,
     SQZ_compress chain data space = Ret (out, Z.of_nat k) /\
     (k <= length data)%nat /\ Z.of_nat (length out) = space /\
     SQZ_decompress out (Z.of_nat k) = Ret (take k data)).
Proof.
  intros Hl E Hs. destruct (SQZ_length_exact data pool Hl) as (chain' & pool'' & E' & He & _ & _).
  rewrite E in E'. injection E' as -> -> ->. unfold SQZ_compress.
  rewrite compress_chain_concat. split; intros Hsp.
  - destruct (compress_block_more (concat chain') data 0 space He) as [-> _]; auto.
  - destruct (compress_block_full (concat chain') data 0 space He)
      as (out & k & -> & _ & Hk & Hd & Ho); [lia|].
    exists out, k. cbn [obind]. rewrite USHORT_small by lia. split_and!; auto.
    unfold SQZ_decompress. rewrite Hd, length_take by lia.
    destruct (Z.ltb_spec (Z.of_nat k) (Z.of_nat (k `min` length data))); [lia|done].
Qed.

Lemma SQZ_compress_prefix_witness :
  let data := [1;2;3;3;3;3;4] in
  (Z.of_nat (length data) <= 65023 /\ SQZ_length data [] = Some (7, [[2; -4; 1]], []) /\ 0 <= 6) /\
  (7 <= 6 -> SQZ_compress [[2; -4; 1]] data 6 = Throw (BUGCHECK 178)) /\
  (6 < 7 -> exists out k,
     SQZ_compress [[2; -4; 1]] data 6 = Ret (out, Z.of_nat k) /\
     (k <= length data)%nat /\ Z.of_nat (length out) = 6 /\
     SQZ_decompress out (Z.of_nat k) = Ret (take k data)).
Proof.
  intros data. split; [split_and!; [simpl; lia|reflexivity|lia]|].
  apply (SQZ_compress_prefix data [] 7 [[2; -4; 1]] [] 6); [simpl; lia|reflexivity|lia].
Defined.

(** [SQZ_compress_length] is [SQZ_compress] without the output: for the
    control strings of a record both return the same length, or both
    bugcheck 178. *)
Theorem SQZ_compress_length_agrees data pool len chain pool' space :
  Z.of_nat (length data) <= 65023 ->
  SQZ_length data pool = Some (len, chain, pool') -> 0 <= space ->
  SQZ_compress_length chain space
  = let* (_, k) := SQZ_compress chain data space in Ret k.
Proof.
  intros Hl E Hs. destruct (SQZ_length_exact data pool Hl) as (chain' & pool'' & E' & He & _ & _).
  rewrite E in E'. injection E' as -> -> ->. unfold SQZ_compress, SQZ_compress_length.
  rewrite compress_chain_concat, compress_length_chain_concat.
  destruct (Z.le_gt_cases (stored_size (concat chain')) space).
  - by destruct (compress_block_more (concat chain') data 0 space He) as [-> ->].
  - by destruct (compress_block_full (concat chain') data 0 space He) as (out & k & -> & -> & _).
Qed.

Lemma SQZ_compress_length_agrees_witness :
  let data := [1;2;3;3;3;3;4] in
  (Z.of_nat (length data) <= 65023 /\ SQZ_length data [] = Some (7, [[2; -4; 1]], []) /\ 0 <= 4) /\
  SQZ_compress_length [[2; -4; 1]] 4
  = let* (_, k) := SQZ_compress [[2; -4; 1]] data 4 in Ret k.
Proof.
  intros data. split; [split_and!; [simpl; lia|reflexivity|lia]|].
  apply (SQZ_compress_length_agrees data [] 7 [[2; -4; 1]] [] 4); [simpl; lia|reflexivity|lia].
Defined.

Lemma differences_apply old new room d buf :
  SQZ_differences old new room = Some d ->
  Z.of_nat (length d) <= MAX_DIFFERENCES ->
  take (Nat.min (length old) (length new)) buf = take (Nat.min (length old) (length new)) old ->
  (length new <= length buf)%nat -> Z.of_nat (length buf) < 65536 ->
  SQZ_apply_differences buf d = Ret (new ++ drop (length new) buf, Z.of_nat (length new)).
Proof.
  intros Hd Hm Hb Hn Hl. unfold SQZ_differences in Hd.
  set (n := Nat.min (length old) (length new)) in *.
  assert (Hr : length (take n old) = n) by (rewrite length_take; lia).
  apply diff_loop_spec in Hd as [_ Ha]; [|lia].
  assert (Hs : take (length new) buf = take n old ++ drop n (take (length new) buf)).
  { rewrite <-Hb, <-(take_drop n (take (length new) buf)) at 1.
    rewrite take_take. by replace (n `min` length new)%nat with n by lia. }
  specialize (Ha (drop n (take (length new) buf))). rewrite <-Hs in Ha.
  rewrite <-(take_drop (length new) buf) at 1.
  apply SQZ_apply_applies; [apply Ha|auto|by rewrite take_drop].
  rewrite length_take. lia.
Qed.

(** Applying the differences of two record versions to the old one gives
    the new one. The record buffer [buf] may be longer than either version;
    it must agree with the old version where the two overlap, and keeps what
    lies behind the new version. *)
Theorem SQZ_differences_apply old new room d buf :
  SQZ_differences old new room = Some d ->
  Z.of_nat (length d) <= MAX_DIFFERENCES ->
  take (Nat.min (length old) (length new)) buf = take (Nat.min (length old) (length new)) old ->
  (length new <= length buf)%nat -> Z.of_nat (length buf) < 65536 ->
  SQZ_apply_differences buf d = Ret (new ++ drop (length new) buf, Z.of_nat (length new)).
Proof. apply differences_apply. Qed.

Lemma SQZ_differences_apply_witness :
  let old := [1;2;3;4;5;6] in let new := [1;2;9;4;5;6;7] in
  (SQZ_differences old new 100 = Some [-2;1;9;-3;1;7] /\ 6 <= MAX_DIFFERENCES /\
   take 6 (old ++ [0;0]) = take 6 old /\ (7 <= 8)%nat /\ 8 < 65536) /\
  SQZ_apply_differences (old ++ [0;0]) [-2;1;9;-3;1;7] = Ret (new ++ [0], 7).
Proof.
  intros old new. split; [split_and!; (reflexivity || (unfold MAX_DIFFERENCES; lia))|].
  apply (SQZ_differences_apply old new 100); (reflexivity || (unfold MAX_DIFFERENCES; simpl; lia)).
Defined.

(** The difference record never exceeds the room it is given, and twice
    the length of the new version is always room enough to produce one. *)
Theorem SQZ_differences_room old new room :
  (forall d, SQZ_differences old new room = Some d -> Z.of_nat (length d) <= Z.max 0 room) /\
  (2 * Z.of_nat (length new) <= room -> is_Some (SQZ_differences old new room)).
Proof.
  unfold SQZ_differences. split.
  - intros d Hd. apply diff_loop_spec in Hd as [H _]; [auto|rewrite length_take; lia].
  - intros H. apply diff_loop_total; [|rewrite length_take|]; rewrite ?length_take; lia.
Qed.

(** The "no differences" record of a record's length leaves the record as
    it is and accounts for all of it. *)
Theorem SQZ_no_differences_identity buf :
  Z.of_nat (length buf) < 65536 ->
  SQZ_apply_differences buf (SQZ_no_differences (Z.of_nat (length buf)))
  = Ret (buf, Z.of_nat (length buf)).
Proof.
  intros Hl. unfold SQZ_no_differences. rewrite Nat2Z.id.
  pose proof (no_differences_applies (S (length buf)) buf ltac:(lia)) as Ha.
  pose proof (SQZ_apply_applies _ buf buf [] Ha) as E. rewrite !app_nil_r in E.
  apply E; auto. unfold MAX_DIFFERENCES.
  pose proof (no_differences_length (S (length buf)) (length buf) ltac:(lia)).
  Z.to_euclidean_division_equations; lia.
Qed.

Lemma SQZ_no_differences_identity_witness :
  Z.of_nat (length (repeat 5 300)) < 65536 /\
  SQZ_apply_differences (repeat 5 300) (SQZ_no_differences 300) = Ret (repeat 5 300, 300).
Proof. split; [reflexivity|apply (SQZ_no_differences_identity (repeat 5 300)); reflexivity]. Defined.

(** Replaying stored data is safe whatever the data: decompression never
    writes past the end of its buffer, and applying differences never changes
    the extent of the record nor reports a length beyond it. *)
Theorem SQZ_replay_safe input room buf differences :
  (forall out, SQZ_decompress input room = Ret out -> Z.of_nat (length out) <= room) /\
  (forall buf' len, SQZ_apply_differences buf differences = Ret (buf', len) ->
     length buf' = length buf /\ 0 <= len <= Z.of_nat (length buf)).
Proof.
  split; [intros out; apply decompress_loop_room|].
  intros buf' len. unfold SQZ_apply_differences. destruct (_ <? _); [done|].
  intros ([[b p] rest] & E & H)%obind_ret. apply apply_loop_length in E.
  destruct (Z.ltb_spec (Z.of_nat (length buf)) (USHORT (Z.of_nat p))); [done|]. simpl in H.
  destruct (0 <? length rest)%nat; [done|]. injection H as <- <-.
  pose proof (USHORT_range (Z.of_nat p)). split; auto; lia.
Qed.

(** The stored length of a record without repetitions is its length plus
    one control character per 127, and [SQZ_length] returns that number
    reduced modulo 2^16: from 65024 characters on (where it is 65536, and 0 is
    returned) the result is no longer the number of characters stored. *)
Theorem SQZ_length_incompressible data pool :
  incompressible data -> 0 < Z.of_nat (length data) < 65536 ->
  exists chain pool',
    SQZ_length data pool = Some (USHORT (stored_size (concat chain)), chain, pool') /\
    stored_size (concat chain) = Z.of_nat (length data) + (Z.of_nat (length data) + 126) / 127.
Proof.
  intros Hi Hl. destruct (SQZ_length_loop_incompressible data pool Hi Hl) as (st & E & Hs).
  exists (dcc_chain st), (plb_dccs st). unfold SQZ_length. rewrite E. split; [by rewrite Hs|done].
Qed.

Lemma SQZ_length_incompressible_witness :
  let data := alternating (Z.to_nat 65024) in
  (incompressible data /\ 0 < Z.of_nat (length data) < 65536) /\
  exists chain pool',
    SQZ_length data [] = Some (USHORT (stored_size (concat chain)), chain, pool') /\
    stored_size (concat chain) = Z.of_nat (length data) + (Z.of_nat (length data) + 126) / 127.
Proof.
  intros data.
  assert (Hl : 0 < Z.of_nat (length data) < 65536)
    by (unfold data; rewrite length_alternating; lia).
  assert (Hi : incompressible data) by apply alternating_incompressible.
  split; [auto|]. apply (SQZ_length_incompressible data [] Hi Hl).
Defined.

End Sqz.
