(* ===== verification/RecordNumber.v ===== *)
(** * Record numbers (jrd/RecordNumber.h)

    A record number is a signed 64-bit integer that limits itself to 40
    bits.  It is split into pointer page, slot and line to find the record,
    and stored in five bytes in blob ids and DB_KEYs. *)

From S2P Require Import Prelude.

Module RecordNumber.

Definition EMPTY_NUMBER : Z := 0.
Definition BOF_NUMBER : Z := -1.
Definition MAX_USHORT : Z := 65535.

Record RecordNumber := mk { value : Z }.

#[global] Instance RecordNumber_eq_dec : EqDecision RecordNumber.
Proof. solve_decision. Defined.

Definition getValue (r : RecordNumber) : Z := value r.
Definition setValue (avalue : Z) : RecordNumber := mk (SINT64 avalue).
Definition increment (r : RecordNumber) : RecordNumber := mk (SINT64 (value r + 1)).
Definition decrement (r : RecordNumber) : RecordNumber := mk (SINT64 (value r - 1)).
Definition isBof (r : RecordNumber) : bool := value r =? BOF_NUMBER.
Definition isEmpty (r : RecordNumber) : bool := value r =? EMPTY_NUMBER.
Definition le (a b : RecordNumber) : bool := value a <=? value b.

Definition checkNumber (r : RecordNumber) (records_per_page data_pages_per_pointer_page : Z)
    : bool :=
  (value r <? 0x10000000000)
  && (value r <? SINT64 (MAX_USHORT * records_per_page * data_pages_per_pointer_page)).

(** [line] and [slot] are [SSHORT], the sequence a [ULONG], [pp_sequence] a
    [USHORT]; division truncates. *)
Definition decompose (r : RecordNumber) (records_per_page data_pages_per_pointer_page : Z)
    : Z * Z * Z :=
  let line := SSHORT (Z.rem (value r) records_per_page) in
  let sequence := ULONG (Z.quot (value r) records_per_page) in
  let slot := SSHORT (Z.rem sequence data_pages_per_pointer_page) in
  let pp_sequence := USHORT (Z.quot sequence data_pages_per_pointer_page) in
  (line, slot, pp_sequence).

Definition compose (records_per_page data_pages_per_pointer_page line slot pp_sequence : Z)
    : RecordNumber :=
  mk (SINT64 ((pp_sequence * data_pages_per_pointer_page + slot) * records_per_page + line)).

(** The five bytes of [bid_number]: high byte, then the low 32 bits. *)
Definition bid_encode (r : RecordNumber) : list Z :=
  UCHAR (Z.shiftr (value r) 32) :: le_bytes 4 (ULONG (value r)).

Definition bid_decode (bid_number : list Z) : RecordNumber :=
  match bid_number with
  | b0 :: low => mk (SINT64 (le_value low + Z.shiftl b0 32))
  | [] => mk EMPTY_NUMBER
  end.

(** ** Properties *)

(** Page geometry of a database: positive, and small enough for the line and
    slot numbers to be [SSHORT]. *)
Definition geometry (records_per_page data_pages_per_pointer_page : Z) : Prop :=
  0 < records_per_page <= 32768 /\ 0 < data_pages_per_pointer_page <= 32768.

Lemma SINT64_small z : -9223372036854775808 <= z < 9223372036854775808 -> SINT64 z = z.
Proof. intros H. machine_lia. Qed.

Lemma SSHORT_small z : -32768 <= z < 32768 -> SSHORT z = z.
Proof. intros H. machine_lia. Qed.

Lemma ULONG_small z : 0 <= z < 4294967296 -> ULONG z = z.
Proof. intros H. machine_lia. Qed.

(** The address of a record determines its number and the number its
    address: for a number that [checkNumber] admits, [decompose] yields a
    line, slot and pointer page in range, from which [compose] gives back the
    number. *)
Theorem decompose_compose r rpp dpp :
  geometry rpp dpp -> 0 <= value r -> checkNumber r rpp dpp = true ->
  let '(line, slot, pp) := decompose r rpp dpp in
  0 <= line < rpp /\ 0 <= slot < dpp /\ 0 <= pp < 65535 /\
  compose rpp dpp line slot pp = r.
Proof.
  intros [[Hr1 Hr2] [Hd1 Hd2]] Hv Hc. unfold checkNumber in Hc. bool_hyps.
  assert (Hb : MAX_USHORT * rpp * dpp <= 65535 * (32768 * 32768))
    by (unfold MAX_USHORT; nia).
  rewrite SINT64_small in * by (unfold MAX_USHORT in *; nia). unfold MAX_USHORT in *.
  unfold decompose. rewrite Z.rem_mod_nonneg, Z.quot_div_nonneg by lia.
  set (v := value r) in *. set (q := v / rpp).
  assert (Hq : 0 <= q < 65535 * dpp).
  { unfold q. split; [apply Z.div_pos; lia|]. apply Z.div_lt_upper_bound; lia. }
  rewrite (ULONG_small q) by nia.
  rewrite Z.rem_mod_nonneg, Z.quot_div_nonneg by lia.
  pose proof (Z.mod_pos_bound v rpp Hr1). pose proof (Z.mod_pos_bound q dpp Hd1).
  assert (Hpp : 0 <= q / dpp < 65535).
  { split; [apply Z.div_pos; lia|]. apply Z.div_lt_upper_bound; lia. }
  rewrite !SSHORT_small, USHORT_small by lia. split_and!; try lia.
  unfold compose. rewrite Z.mul_comm with (n := q / dpp), <-Z.div_mod by lia.
  unfold q. rewrite Z.mul_comm with (n := v / rpp), <-Z.div_mod by lia.
  rewrite SINT64_small by lia. by destruct r.
Qed.

Lemma decompose_compose_witness :
  (geometry 400 2000 /\ 0 <= value (mk 123456789) /\ checkNumber (mk 123456789) 400 2000 = true) /\
  (0 <= 389 < 400 /\ 0 <= 641 < 2000 /\ 0 <= 154 < 65535 /\
   compose 400 2000 389 641 154 = mk 123456789).
Proof.
  split; [split_and!; [unfold geometry; lia|simpl; lia|reflexivity]|].
  apply (decompose_compose (mk 123456789) 400 2000); [unfold geometry; lia|simpl; lia|reflexivity].
Defined.

(** Blob ids: a record number of up to 40 bits survives [bid_encode] and
    [bid_decode], and every five bytes survive the converse. *)
Theorem bid_roundtrip :
  (forall r, 0 <= value r < 2 ^ 40 -> bid_decode (bid_encode r) = r) /\
  (forall bs, length bs = 5%nat -> Forall is_uchar bs -> bid_encode (bid_decode bs) = bs).
Proof.
  split.
  - intros [v] Hv. cbn [value] in Hv. unfold bid_encode, bid_decode. cbn [value].
    rewrite le_value_le_bytes_small by (change (2 ^ (8 * Z.of_nat 4)) with 4294967296; machine_lia).
    rewrite Z.shiftl_mul_pow2, Z.shiftr_div_pow2 by lia. f_equal.
    change (2 ^ 40) with 1099511627776 in *. machine_lia.
  - intros [|b0 low] Hl Hb; [done|]. inversion Hb as [|? ? Hb0 Hlow]; subst.
    injection Hl as Hl. pose proof (le_value_range low Hlow) as Hr. rewrite Hl in Hr.
    change (2 ^ (8 * Z.of_nat 4)) with 4294967296 in Hr.
    unfold bid_encode, bid_decode. cbn [value].
    rewrite Z.shiftl_mul_pow2 by lia. change (2 ^ 32) with 4294967296.
    rewrite SINT64_small by (unfold is_uchar in *; lia).
    rewrite Z.shiftr_div_pow2 by lia. f_equal.
    + change (2 ^ 32) with 4294967296. machine_lia.
    + pose proof (le_bytes_le_value low Hlow) as E. rewrite Hl in E.
      etransitivity; [|exact E]. f_equal. machine_lia.
Qed.

(* A record number is written as in the code; [Z] comparisons decide [<=]. *)
Lemma le_spec a b : le a b = true <-> value a <= value b.
Proof. apply Z.leb_le. Qed.

End RecordNumber.
