(* ===== verification/Btn.v ===== *)
(** * B-tree nodes (jrd/btn.cpp)

    The encoding of index nodes, jump nodes and the jump information on a
    B-tree page: sizes, writing, reading, and the searches that work on the
    encoded nodes.  A page from a pointer on is the list of its bytes;
    reading returns what follows the node, which is the pointer the code
    returns; [data] is the run of bytes the node's data pointer addresses.
    The fields [nodePointer] are that pointer itself and are not repeated. *)

From S2P Require Import Prelude RecordNumber.
Import RecordNumber(RecordNumber, mk, value, getValue).

Module Btn.

(** ** Constants (jrd/btn.h, jrd/ods.h) *)

Definition BTN_NORMAL_FLAG : Z := 0.
Definition BTN_END_LEVEL_FLAG : Z := 1.
Definition BTN_END_BUCKET_FLAG : Z := 2.
Definition BTN_ZERO_PREFIX_ZERO_LENGTH_FLAG : Z := 3.
Definition BTN_ZERO_LENGTH_FLAG : Z := 4.
Definition BTN_ONE_LENGTH_FLAG : Z := 5.

Definition btr_all_record_number : Z := 16.
Definition btr_large_keys : Z := 32.
Definition btr_jump_info : Z := 64.

Definition END_LEVEL : Z := -1.
Definition END_BUCKET : Z := -2.

(** ** Data *)

Record IndexNode := mk_node {
  prefix : Z;                 (* USHORT *)
  node_length : Z;            (* USHORT, [length] in the code *)
  pageNumber : Z;             (* SLONG *)
  data : list Z;
  recordNumber : RecordNumber;
  isEndBucket : bool;
  isEndLevel : bool
}.

Record IndexJumpNode := mk_jump {
  jump_prefix : Z;
  jump_length : Z;
  jump_offset : Z;
  jump_data : list Z
}.

Record IndexJumpInfo := mk_info {
  firstNodeOffset : Z;        (* USHORT *)
  jumpAreaSize : Z;           (* USHORT *)
  jumpers : Z                 (* USHORT *)
}.

(** ** Elementary encodings *)

(** [get_long] and [quad_put] on a little-endian machine. *)
Definition get_long (s : list Z) : Z := SLONG (le_value (take 4 s)).
Definition quad_put (v : Z) : list Z := le_bytes 4 (SLONG v).

(** A 16-bit or smaller number in one or two groups of seven bits. *)
Definition put_short7 (number : Z) : list Z :=
  let tmp := Z.land number 0x7F in
  let number := Z.shiftr number 7 in
  if 0 <? number then [Z.lor tmp 0x80; Z.land number 0x7F] else [tmp].

Definition get_short7 (s : list Z) : outcome (Z * list Z) :=
  let* (tmp, s) := read_byte s in
  if flag_set tmp 0x80 then
    let* (tmp', s) := read_byte s in
    Ret (Z.lor (Z.land tmp 0x7F) (Z.shiftl (Z.land tmp' 0x7F) 7), s)
  else Ret (Z.land tmp 0x7F, s).

(** The bits of the record number after the first five, in at most [k]
    groups of seven. When the number does not fit, nothing is written for
    the last group. *)
Fixpoint put_record_bits (k : nat) (number : Z) : list Z :=
  match k with
  | O => []
  | S k =>
      let tmp := Z.land number 0x7F in
      let number := Z.shiftr number 7 in
      if number =? 0 then [tmp]
      else match k with
           | O => []
           | S _ => Z.lor tmp 0x80 :: put_record_bits k number
           end
  end.

(** [shift] is the position of the next group in the result. *)
Fixpoint get_record_bits (k : nat) (shift number : Z) (s : list Z) : outcome (Z * list Z) :=
  match k with
  | O => Ret (number, s)
  | S k =>
      let* (tmp, s) := read_byte s in
      let number := Z.lor number (Z.shiftl (Z.land tmp 0x7F) shift) in
      if 128 <=? tmp then get_record_bits k (shift + 7) number s else Ret (number, s)
  end.

(** The page number: up to four groups of seven bits with a continuation
    bit, and a last group of four bits without. *)
Fixpoint put_page_bits (k : nat) (number : Z) : list Z :=
  match k with
  | O => [Z.land number 0x0F]
  | S k =>
      let tmp := Z.land number 0x7F in
      let number := Z.shiftr number 7 in
      if 0 <? number then Z.lor tmp 0x80 :: put_page_bits k number else [tmp]
  end.

Fixpoint get_page_bits (k : nat) (shift number : Z) (s : list Z) : outcome (Z * list Z) :=
  match k with
  | O =>
      let* (tmp, s) := read_byte s in
      Ret (Z.lor number (Z.shiftl (Z.land tmp 0x0F) shift), s)
  | S k =>
      let* (tmp, s) := read_byte s in
      let number := Z.lor number (Z.shiftl (Z.land tmp 0x7F) shift) in
      if 128 <=? tmp then get_page_bits k (shift + 7) number s else Ret (number, s)
  end.

(** ** Sizes *)

Definition internal_flags (node : IndexNode) : Z :=
  if isEndLevel node then BTN_END_LEVEL_FLAG
  else if isEndBucket node then BTN_END_BUCKET_FLAG
  else if node_length node =? 0 then
    if prefix node =? 0 then BTN_ZERO_PREFIX_ZERO_LENGTH_FLAG else BTN_ZERO_LENGTH_FLAG
  else if node_length node =? 1 then BTN_ONE_LENGTH_FLAG
  else BTN_NORMAL_FLAG.

(** Record and page numbers below zero are stored as zero. *)
Definition not_negative (number : Z) : Z := if number <? 0 then 0 else number.

Definition short7_size (number : Z) : Z :=
  if flag_set number 0xFFFFC000 then 3
  else if flag_set number 0xFFFFFF80 then 2 else 1.

(** Old-style leaf and inner nodes carry an explicit record number under
    this condition. *)
Definition has_record_number (node : IndexNode) (flags : Z) (leafNode : bool) : bool :=
  flag_set flags btr_all_record_number
  && (negb leafNode || (leafNode && isEndBucket node && (node_length node =? 0))).

Definition getNodeSize (node : IndexNode) (flags : Z) (leafNode : bool) : Z :=
  if negb (flag_set flags btr_large_keys) then
    USHORT (1 + 1 + 4 + node_length node
            + if has_record_number node flags leafNode then 4 else 0)
  else if isEndLevel node then 1
  else
    let internalFlags := internal_flags node in
    let number := Z.shiftr (not_negative (getValue (recordNumber node))) 5 in
    let record_size :=
      if flag_set number 0xFFF0000000 then 5
      else if flag_set number 0xFFFFE00000 then 4
      else if flag_set number 0xFFFFFFC000 then 3
      else if flag_set number 0xFFFFFFFF80 then 2
      else 1 in
    let page_size :=
      if leafNode then 0
      else
        let number := not_negative (pageNumber node) in
        if flag_set number 0xF0000000 then 5
        else if flag_set number 0xFFE00000 then 4
        else if flag_set number 0xFFFFC000 then 3
        else if flag_set number 0xFFFFFF80 then 2
        else 1 in
    let prefix_size :=
      if negb (internalFlags =? BTN_ZERO_PREFIX_ZERO_LENGTH_FLAG)
      then short7_size (prefix node) else 0 in
    let length_size :=
      if negb (internalFlags =? BTN_ZERO_PREFIX_ZERO_LENGTH_FLAG)
         && negb (internalFlags =? BTN_ZERO_LENGTH_FLAG)
         && negb (internalFlags =? BTN_ONE_LENGTH_FLAG)
      then short7_size (node_length node) else 0 in
    USHORT (1 + record_size + page_size + prefix_size + length_size + node_length node).

Definition getJumpNodeSize (jumpNode : IndexJumpNode) (flags : Z) : Z :=
  let size number :=
    if flag_set number 0xC000 then 3 else if flag_set number 0xFF80 then 2 else 1 in
  USHORT ((if flag_set flags btr_large_keys
           then size (jump_prefix jumpNode) + size (jump_length jumpNode) else 2)
          + 2 + jump_length jumpNode).

(** ** Writing *)

(** Old-style nodes: the six bytes before the data, and the record number
    some nodes have behind it. *)
Definition old_header (node : IndexNode) (leafNode : bool) : list Z :=
  UCHAR (prefix node) :: UCHAR (node_length node) ::
  (if isEndLevel node then quad_put END_LEVEL
   else if isEndBucket node then quad_put END_BUCKET
   else if leafNode then quad_put (getValue (recordNumber node))
   else quad_put (pageNumber node)).

Definition old_trailer (node : IndexNode) (flags : Z) (leafNode : bool) : list Z :=
  if has_record_number node flags leafNode
  then quad_put (getValue (recordNumber node)) else [].

(** New-style nodes: everything before the data. *)
Definition large_header (node : IndexNode) (leafNode : bool) : list Z :=
  let internalFlags := internal_flags node in
  let number := not_negative (getValue (recordNumber node)) in
  UCHAR (Z.lor (Z.shiftl internalFlags 5) (Z.land number 0x1F)) ::
  if isEndLevel node then []
  else
    put_record_bits 5 (Z.shiftr number 5)
    ++ (if leafNode then [] else put_page_bits 4 (not_negative (pageNumber node)))
    ++ (if negb (internalFlags =? BTN_ZERO_PREFIX_ZERO_LENGTH_FLAG)
        then put_short7 (prefix node) else [])
    ++ (if negb (internalFlags =? BTN_ZERO_PREFIX_ZERO_LENGTH_FLAG)
           && negb (internalFlags =? BTN_ZERO_LENGTH_FLAG)
           && negb (internalFlags =? BTN_ONE_LENGTH_FLAG)
        then put_short7 (node_length node) else []).

(** The bytes [writeNode] puts on the page with [withData]. *)
Definition writeNode (node : IndexNode) (flags : Z) (leafNode : bool) : list Z :=
  let body := take (Z.to_nat (node_length node)) (data node) in
  if negb (flag_set flags btr_large_keys)
  then old_header node leafNode ++ body ++ old_trailer node flags leafNode
  else if isEndLevel node then large_header node leafNode
  else large_header node leafNode ++ body.

(** [writeNode] without [withData]: the data is on the page already, at
    offset [data_at], and is moved (new style) or expected in place (old
    style) before the rest is written at [p]. Returns the page and the
    offset behind the node. *)
Definition writeNode_in_place (page : list Z) (p data_at : nat) (node : IndexNode)
    (flags : Z) (leafNode : bool) : list Z * nat :=
  let len := Z.to_nat (node_length node) in
  if negb (flag_set flags btr_large_keys) then
    let header := old_header node leafNode in
    let trailer := old_trailer node flags leafNode in
    let page := store page p header in
    let behind := (p + length header + len)%nat in
    (store page behind trailer, (behind + length trailer)%nat)
  else
    let offset := Z.to_nat (USHORT (getNodeSize node flags leafNode - node_length node)) in
    let page := store page (p + offset) (take len (drop data_at page)) in
    let header := large_header node leafNode in
    let page := store page p header in
    (page, if isEndLevel node then (p + length header)%nat else (p + length header + len)%nat).

Definition writeJumpNode (jumpNode : IndexJumpNode) (flags : Z) : list Z :=
  (if flag_set flags btr_large_keys
   then put_short7 (jump_prefix jumpNode) ++ put_short7 (jump_length jumpNode)
   else [UCHAR (jump_prefix jumpNode); UCHAR (jump_length jumpNode)])
  ++ le_bytes 2 (jump_offset jumpNode)
  ++ take (Z.to_nat (jump_length jumpNode)) (jump_data jumpNode).

Definition writeJumpInfo (info : IndexJumpInfo) : list Z :=
  le_bytes 2 (firstNodeOffset info) ++ le_bytes 2 (jumpAreaSize info) ++ [UCHAR (jumpers info)].

(** ** Reading *)

(** Fields that a kind of node does not set keep their value in [node]. *)
Definition read_old_node (node : IndexNode) (s : list Z) (flags : Z) (leafNode : bool)
    : outcome (IndexNode * list Z) :=
  let* (prefix, s) := read_byte s in
  let* (len, s) := read_byte s in
  let* (quad, s) := read_bytes 4 s in
  let number := get_long quad in
  let* (data, s) := read_bytes (Z.to_nat len) s in
  let node := mk_node prefix len
    (if leafNode then pageNumber node else number) data
    (if leafNode then mk number else recordNumber node)
    (number =? END_BUCKET) (number =? END_LEVEL) in
  if has_record_number node flags leafNode then
    let* (quad, s) := read_bytes 4 s in
    Ret (mk_node prefix len (pageNumber node) data (mk (get_long quad))
           (isEndBucket node) (isEndLevel node), s)
  else Ret (node, s).

Definition read_large_node (node : IndexNode) (s : list Z) (leafNode : bool)
    : outcome (IndexNode * list Z) :=
  let* (first, s) := read_byte s in
  let number := Z.land first 0x1F in
  let internalFlags := Z.shiftr (Z.land first 0xE0) 5 in
  if internalFlags =? BTN_END_LEVEL_FLAG then
    Ret (mk_node 0 0 0 (data node) (mk 0) false true, s)
  else
    let* (number, s) := get_record_bits 5 5 number s in
    let* (page, s) :=
      (if leafNode then Ret (pageNumber node, s)
       else let* (number, s) := get_page_bits 4 0 0 s in Ret (SLONG number, s)) in
    let* (prefix, s) :=
      (if internalFlags =? BTN_ZERO_PREFIX_ZERO_LENGTH_FLAG then Ret (0, s)
       else get_short7 s) in
    let* (len, s) :=
      (if (internalFlags =? BTN_ZERO_LENGTH_FLAG)
          || (internalFlags =? BTN_ZERO_PREFIX_ZERO_LENGTH_FLAG) then Ret (0, s)
       else if internalFlags =? BTN_ONE_LENGTH_FLAG then Ret (1, s)
       else get_short7 s) in
    let* (data, s) := read_bytes (Z.to_nat len) s in
    Ret (mk_node prefix len page data (mk number)
           (internalFlags =? BTN_END_BUCKET_FLAG) false, s).

Definition readNode (node : IndexNode) (s : list Z) (flags : Z) (leafNode : bool)
    : outcome (IndexNode * list Z) :=
  if negb (flag_set flags btr_large_keys) then read_old_node node s flags leafNode
  else read_large_node node s leafNode.

Definition readJumpNode (s : list Z) (flags : Z) : outcome (IndexJumpNode * list Z) :=
  let* (prefix, s) := (if flag_set flags btr_large_keys then get_short7 s else read_byte s) in
  let* (len, s) := (if flag_set flags btr_large_keys then get_short7 s else read_byte s) in
  let* (offset, s) := read_bytes 2 s in
  let* (data, s) := read_bytes (Z.to_nat len) s in
  Ret (mk_jump prefix len (le_value offset) data, s).

Definition readJumpInfo (s : list Z) : outcome (IndexJumpInfo * list Z) :=
  let* (first, s) := read_bytes 2 s in
  let* (size, s) := read_bytes 2 s in
  let* (jumpers, s) := read_byte s in
  Ret (mk_info (le_value first) (le_value size) jumpers, s).

(** The offset of the first node (or jump node) in a page whose nodes start
    at offset [btr_nodes]. *)
Definition getPointerFirstNode (btr_nodes : nat) (page : list Z) (pag_flags : Z)
    (jumpInfo : bool) : outcome Z :=
  if negb (flag_set pag_flags btr_jump_info) then Ret (Z.of_nat btr_nodes)
  else
    let* (info, _) := readJumpInfo (drop btr_nodes page) in
    if jumpInfo then Ret (Z.of_nat btr_nodes + 5) else Ret (firstNodeOffset info).

(** ** Keys *)

Fixpoint computePrefix (prevString string : list Z) : nat :=
  match prevString, string with
  | p :: prevString, c :: string => if p =? c then S (computePrefix prevString string) else 0%nat
  | _, _ => 0%nat
  end.

(** [key] is the [length] bytes at [data] of the code. *)
Definition keyEquality (key : list Z) (node : IndexNode) : bool :=
  if negb (Z.of_nat (length key) =? node_length node + prefix node) then false
  else if node_length node =? 0 then true
  else bool_decide (take (Z.to_nat (node_length node)) (data node)
         = take (Z.to_nat (node_length node)) (drop (Z.to_nat (prefix node)) key)).

(** The loop over the duplicates of a key on an inner page. *)
Fixpoint find_page_loop (fuel : nat) (node : IndexNode) (s : list Z) (flags : Z)
    (leafPage : bool) (previousNumber : Z) (findRecordNumber : RecordNumber) : outcome Z :=
  match fuel with
  | O => Throw Overrun
  | S fuel =>
      if isEndBucket node then Ret previousNumber
      else if RecordNumber.le findRecordNumber (recordNumber node) then Ret previousNumber
      else
        let previousNumber := pageNumber node in
        let previousNode := node in
        let* (node, s) := readNode node s flags leafPage in
        if isEndLevel node || negb (node_length node =? 0)
           || negb (prefix node =? node_length previousNode + prefix previousNode)
        then Ret previousNumber
        else find_page_loop fuel node s flags leafPage previousNumber findRecordNumber
  end.

Definition findPageInDuplicates (node : IndexNode) (s : list Z) (flags btr_level : Z)
    (previousNumber : Z) (findRecordNumber : RecordNumber) : outcome Z :=
  let leafPage := btr_level =? 0 in
  let* (node, s) := readNode node s flags leafPage in
  find_page_loop (S (length s)) node s flags leafPage previousNumber findRecordNumber.

(** ** Setting nodes *)

Definition setEndBucket (node : IndexNode) : IndexNode :=
  mk_node (prefix node) (node_length node) (pageNumber node) (data node) (recordNumber node)
    true false.

Definition setEndLevel (node : IndexNode) : IndexNode :=
  mk_node 0 0 0 (data node) (mk 0) false true.

Definition setNode (node : IndexNode) (prefix length : Z) (recordNumber : RecordNumber)
    (pageNumber : Z) (isEndBucket isEndLevel : bool) : IndexNode :=
  mk_node prefix length pageNumber (data node) recordNumber isEndBucket isEndLevel.

(** ** Expanded nodes

    An expanded buffer holds, for each node of the page, a [btree_exp]: two
    length bytes and the whole key.  Positions in both buffers are offsets. *)
Record btree_exp := mk_exp { btx_previous_length : Z; btx_btr_previous_length : Z }.
Definition BTX_SIZE : Z := 2.

Definition nextNode (node : IndexNode) (s : list Z) (flags : Z) (expanded : option Z)
    : outcome (IndexNode * list Z * option Z) :=
  let* (node, s) := readNode node s flags true in
  Ret (node, s, (fun e => e + BTX_SIZE + prefix node + node_length node) <$> expanded).

Definition previousNode (pointer expanded : Z) (enode : btree_exp) : Z * Z :=
  (pointer - btx_btr_previous_length enode, expanded - btx_previous_length enode).

(** ** Groups of seven bits *)

Lemma low7 n : Z.land n 0x7F = n mod 128.
Proof. exact (land_low n 7 ltac:(lia)). Qed.

Lemma high7 n : Z.shiftr n 7 = n / 128.
Proof. exact (shiftr_div n 7 ltac:(lia)). Qed.

Lemma low7_range n : 0 <= n mod 128 < 128.
Proof. apply Z.mod_pos_bound. lia. Qed.

(** A group with and without its continuation bit. *)
Lemma continued t : 0 <= t < 128 ->
  Z.lor t 0x80 = t + 128 /\ flag_set (t + 128) 0x80 = true /\ flag_set t 0x80 = false /\
  (t + 128) mod 128 = t /\ t mod 128 = t.
Proof.
  intros Ht.
  assert (E : (Z.lor t 0x80 =? t + 128) && flag_set (t + 128) 0x80 && negb (flag_set t 0x80) = true)
    by (apply (Z_range_check (fun t => (Z.lor t 0x80 =? t + 128) && flag_set (t + 128) 0x80
          && negb (flag_set t 0x80)) 0 128); [reflexivity|lia]).
  bool_hyps. split_and!; auto; Z.to_euclidean_division_equations; lia.
Qed.

Ltac groups := rewrite ?low7, ?high7.

Lemma get_put_short7 n s :
  0 <= n < 2 ^ 14 -> get_short7 (put_short7 n ++ s) = Ret (n, s).
Proof.
  intros Hn. change (2 ^ 14) with 16384 in Hn. unfold put_short7. groups.
  pose proof (low7_range n) as Hr.
  destruct (continued (n mod 128) Hr) as (E1 & E2 & E3 & E4 & E5).
  destruct (Z.ltb_spec 0 (n / 128)).
  - unfold get_short7. cbn [app read_byte obind]. rewrite E1, E2. cbn [read_byte obind].
    groups. rewrite E4, (lor_shiftl_add _ _ 7) by (change (2 ^ 7) with 128; lia).
    f_lia. change (2 ^ 7) with 128. Z.to_euclidean_division_equations; lia.
  - unfold get_short7. cbn [app read_byte obind]. rewrite E3. groups. rewrite E5.
    f_lia. Z.to_euclidean_division_equations; lia.
Qed.

Lemma length_put_short7 n :
  0 <= n < 2 ^ 14 -> Z.of_nat (length (put_short7 n)) = short7_size n.
Proof.
  intros Hn. unfold put_short7, short7_size. groups.
  change 0xFFFFC000 with (2 ^ 32 - 2 ^ 14). change 0xFFFFFF80 with (2 ^ 32 - 2 ^ 7).
  rewrite !flag_set_high by lia. change (2 ^ 14) with 16384 in *. change (2 ^ 7) with 128.
  bool_cases; simpl; try lia; Z.to_euclidean_division_equations; lia.
Qed.

Lemma pow_split k : 0 <= k -> 2 ^ (k + 7) = 128 * 2 ^ k.
Proof. intros H. rewrite Z.pow_add_r by lia. change (2 ^ 7) with 128. lia. Qed.

(** One more group joins the number read so far. *)
Lemma join_group acc t k :
  0 <= k -> 0 <= acc < 2 ^ k -> 0 <= t < 128 ->
  Z.lor acc (Z.shiftl t k) = acc + t * 2 ^ k /\ 0 <= acc + t * 2 ^ k < 2 ^ (k + 7).
Proof.
  intros Hk Ha Ht. rewrite lor_shiftl_add, pow_split by done. split; [done|]. nia.
Qed.

Lemma put_record_bits_S k n :
  put_record_bits (S (S k)) n
  = if n / 128 =? 0 then [n mod 128]
    else (n mod 128 + 128) :: put_record_bits (S k) (n / 128).
Proof.
  destruct (continued (n mod 128) (low7_range n)) as (E1 & _).
  rewrite <-low7, <-high7 in *. rewrite <-E1. reflexivity.
Qed.

Lemma get_record_bits_S k shift acc b s :
  get_record_bits (S k) shift acc (b :: s)
  = if 128 <=? b then get_record_bits k (shift + 7) (Z.lor acc (Z.shiftl (b mod 128) shift)) s
    else Ret (Z.lor acc (Z.shiftl (b mod 128) shift), s).
Proof. rewrite <-low7. reflexivity. Qed.

Lemma get_put_record_bits k shift acc n s :
  0 <= shift -> 0 <= acc < 2 ^ shift -> 0 <= n < 2 ^ (7 * Z.of_nat (S k)) ->
  get_record_bits (S k) shift acc (put_record_bits (S k) n ++ s) = Ret (acc + n * 2 ^ shift, s).
Proof.
  revert shift acc n; induction k as [|k IH]; intros shift acc n Hs Ha Hn.
  - change (2 ^ (7 * Z.of_nat 1)) with 128 in Hn. cbn [put_record_bits]. groups.
    rewrite Z.div_small, Z.mod_small by lia. cbn [Z.eqb app]. rewrite get_record_bits_S.
    rewrite Z.mod_small by lia. destruct (join_group acc n shift) as [-> _]; try lia.
    by destruct (128 <=? n).
  - replace (7 * Z.of_nat (S (S k))) with (7 * Z.of_nat (S k) + 7) in Hn by lia.
    rewrite pow_split in Hn by lia. rewrite put_record_bits_S.
    pose proof (low7_range n) as Hr.
    destruct (continued (n mod 128) Hr) as (_ & _ & _ & E4 & E5).
    destruct (join_group acc (n mod 128) shift Hs Ha Hr) as [J1 J2].
    destruct (Z.eqb_spec (n / 128) 0); cbn [app]; rewrite get_record_bits_S.
    + rewrite E5, J1. destruct (Z.leb_spec 128 (n mod 128)); [lia|]. f_lia.
      Z.to_euclidean_division_equations; lia.
    + rewrite E4, J1. destruct (Z.leb_spec 128 (n mod 128 + 128)); [|lia].
      rewrite (IH (shift + 7) (acc + n mod 128 * 2 ^ shift) (n / 128)) by
        (first [lia | split; [apply Z.div_pos|apply Z.div_lt_upper_bound]; lia]).
      rewrite pow_split by lia. f_lia.
      pose proof (Z.div_mod n 128). nia.
Qed.

Lemma put_page_bits_S k n :
  put_page_bits (S k) n
  = if 0 <? n / 128 then (n mod 128 + 128) :: put_page_bits k (n / 128) else [n mod 128].
Proof.
  destruct (continued (n mod 128) (low7_range n)) as (E1 & _).
  rewrite <-low7, <-high7 in *. rewrite <-E1. reflexivity.
Qed.

Lemma get_page_bits_S k shift acc b s :
  get_page_bits (S k) shift acc (b :: s)
  = if 128 <=? b then get_page_bits k (shift + 7) (Z.lor acc (Z.shiftl (b mod 128) shift)) s
    else Ret (Z.lor acc (Z.shiftl (b mod 128) shift), s).
Proof. rewrite <-low7. reflexivity. Qed.

Lemma get_put_page_bits k shift acc n s :
  0 <= shift -> 0 <= acc < 2 ^ shift -> 0 <= n < 2 ^ (4 + 7 * Z.of_nat k) ->
  get_page_bits k shift acc (put_page_bits k n ++ s) = Ret (acc + n * 2 ^ shift, s).
Proof.
  revert shift acc n; induction k as [|k IH]; intros shift acc n Hs Ha Hn.
  - change (2 ^ (4 + 7 * Z.of_nat 0)) with 16 in Hn.
    assert (E : Z.land n 0x0F = n)
      by (etransitivity; [exact (land_low n 4 ltac:(lia))|apply Z.mod_small; exact Hn]).
    cbn [put_page_bits app get_page_bits read_byte obind].
    rewrite !E, lor_shiftl_add by done. done.
  - replace (4 + 7 * Z.of_nat (S k)) with (4 + 7 * Z.of_nat k + 7) in Hn by lia.
    rewrite pow_split in Hn by lia. rewrite put_page_bits_S.
    pose proof (low7_range n) as Hr.
    destruct (continued (n mod 128) Hr) as (_ & _ & _ & E4 & E5).
    destruct (join_group acc (n mod 128) shift Hs Ha Hr) as [J1 J2].
    destruct (Z.ltb_spec 0 (n / 128)); cbn [app]; rewrite get_page_bits_S.
    + rewrite E4, J1. destruct (Z.leb_spec 128 (n mod 128 + 128)); [|lia].
      rewrite (IH (shift + 7) (acc + n mod 128 * 2 ^ shift) (n / 128)) by
        (first [lia | split; [apply Z.div_pos|apply Z.div_lt_upper_bound]; lia]).
      rewrite pow_split by lia. f_lia. pose proof (Z.div_mod n 128). nia.
    + rewrite E5, J1. destruct (Z.leb_spec 128 (n mod 128)); [lia|].
      replace (n mod 128) with n; [done|]. Z.to_euclidean_division_equations; lia.
Qed.

(** ** Sizes of the groups *)

Lemma length_put_record_bits n :
  0 <= n < 2 ^ 35 ->
  Z.of_nat (length (put_record_bits 5 n))
  = if flag_set n 0xFFF0000000 then 5
    else if flag_set n 0xFFFFE00000 then 4
    else if flag_set n 0xFFFFFFC000 then 3
    else if flag_set n 0xFFFFFFFF80 then 2 else 1.
Proof.
  intros Hn. change (2 ^ 35) with 34359738368 in Hn.
  change 0xFFF0000000 with (2 ^ 40 - 2 ^ 28). change 0xFFFFE00000 with (2 ^ 40 - 2 ^ 21).
  change 0xFFFFFFC000 with (2 ^ 40 - 2 ^ 14). change 0xFFFFFFFF80 with (2 ^ 40 - 2 ^ 7).
  rewrite !flag_set_high by lia.
  change (2 ^ 28) with 268435456. change (2 ^ 21) with 2097152.
  change (2 ^ 14) with 16384. change (2 ^ 7) with 128.
  cbn [put_record_bits]. groups. rewrite !Z.div_div by lia. cbn [Z.mul Pos.mul].
  bool_cases; cbn [length]; try lia; exfalso; Z.to_euclidean_division_equations; lia.
Qed.

Lemma length_put_page_bits n :
  0 <= n < 2 ^ 32 ->
  Z.of_nat (length (put_page_bits 4 n))
  = if flag_set n 0xF0000000 then 5
    else if flag_set n 0xFFE00000 then 4
    else if flag_set n 0xFFFFC000 then 3
    else if flag_set n 0xFFFFFF80 then 2 else 1.
Proof.
  intros Hn. change (2 ^ 32) with 4294967296 in Hn.
  change 0xF0000000 with (2 ^ 32 - 2 ^ 28). change 0xFFE00000 with (2 ^ 32 - 2 ^ 21).
  change 0xFFFFC000 with (2 ^ 32 - 2 ^ 14). change 0xFFFFFF80 with (2 ^ 32 - 2 ^ 7).
  rewrite !flag_set_high by lia.
  change (2 ^ 28) with 268435456. change (2 ^ 21) with 2097152.
  change (2 ^ 14) with 16384. change (2 ^ 7) with 128.
  cbn [put_page_bits]. groups. rewrite !Z.div_div by lia. cbn [Z.mul Pos.mul].
  bool_cases; cbn [length]; try lia; exfalso; Z.to_euclidean_division_equations; lia.
Qed.

(** ** New-style nodes *)

(** What an index can hold: prefix and length of up to 14 bits, record
    numbers of up to 40, non-negative page numbers; an end-level marker has
    nothing else set. *)
Record large_ok (node : IndexNode) (leafNode : bool) : Prop := {
  large_prefix : 0 <= prefix node < 2 ^ 14;
  large_length : 0 <= node_length node < 2 ^ 14;
  large_data : Z.of_nat (length (data node)) = node_length node;
  large_record : 0 <= value (recordNumber node) < 2 ^ 40;
  large_page : leafNode = false -> 0 <= pageNumber node < 2 ^ 31;
  large_end : isEndLevel node = true ->
    isEndBucket node = false /\ prefix node = 0 /\ node_length node = 0 /\
    pageNumber node = 0 /\ value (recordNumber node) = 0
}.

(** Reading does not set the page number of a leaf node, nor the data of an
    end-level marker. *)
Definition large_read_back (old node : IndexNode) (leafNode : bool) : IndexNode :=
  mk_node (prefix node) (node_length node)
    (if leafNode && negb (isEndLevel node) then pageNumber old else pageNumber node)
    (if isEndLevel node then data old else data node)
    (recordNumber node) (isEndBucket node) (isEndLevel node).

Lemma first_byte f t :
  0 <= f < 8 -> 0 <= t < 32 ->
  let b := UCHAR (Z.lor (Z.shiftl f 5) t) in
  Z.land b 0x1F = t /\ Z.shiftr (Z.land b 0xE0) 5 = f.
Proof.
  intros Hf Ht.
  assert (E : forallb (fun f => forallb (fun t =>
      let b := UCHAR (Z.lor (Z.shiftl f 5) t) in
      (Z.land b 0x1F =? t) && (Z.shiftr (Z.land b 0xE0) 5 =? f)) (seqZ 0 32)) (seqZ 0 8) = true)
    by reflexivity.
  rewrite forallb_forall in E. specialize (E f).
  rewrite <-list_elem_of_In, elem_of_seqZ, forallb_forall in E.
  specialize (E ltac:(lia) t). rewrite <-list_elem_of_In, elem_of_seqZ in E.
  specialize (E ltac:(lia)). cbn zeta in E. bool_hyps. auto.
Qed.

Lemma not_negative_id n : 0 <= n -> not_negative n = n.
Proof. intros H. unfold not_negative. bool_cases; [lia|done]. Qed.

Lemma internal_flags_range node : 0 <= internal_flags node < 8.
Proof. unfold internal_flags. repeat case_match; vm_compute; split; congruence. Qed.

(** The record number is split after its five low bits and rejoined. *)
Lemma record_bits_join v s :
  0 <= v < 2 ^ 40 ->
  get_record_bits 5 5 (Z.land v 0x1F) (put_record_bits 5 (Z.shiftr v 5) ++ s) = Ret (v, s).
Proof.
  intros Hv. change (2 ^ 40) with 1099511627776 in Hv.
  assert (E : Z.land v 0x1F = v mod 32) by exact (land_low v 5 ltac:(lia)).
  pose proof (Z.mod_pos_bound v 32 ltac:(lia)).
  rewrite E, (shiftr_div v 5), get_put_record_bits by
    (try lia; change (2 ^ 5) with 32; change (2 ^ (7 * Z.of_nat 5)) with 34359738368;
     Z.to_euclidean_division_equations; lia).
  change (2 ^ 5) with 32. f_lia. Z.to_euclidean_division_equations; lia.
Qed.

Lemma page_bits_join v s :
  0 <= v < 2 ^ 31 ->
  (let* (number, s) := get_page_bits 4 0 0 (put_page_bits 4 v ++ s) in Ret (SLONG number, s))
  = Ret (v, s).
Proof.
  intros Hv. change (2 ^ 31) with 2147483648 in Hv.
  rewrite get_put_page_bits by
    (change (2 ^ 0) with 1; change (2 ^ (4 + 7 * Z.of_nat 4)) with 4294967296; lia).
  cbn [obind]. rewrite SLONG_small by lia. f_lia.
Qed.

Lemma read_body n (bs s : list Z) :
  Z.of_nat (length bs) = n -> read_bytes (Z.to_nat n) (bs ++ s) = Ret (bs, s).
Proof. intros H. apply read_bytes_app. lia. Qed.

Lemma take_body node :
  Z.of_nat (length (data node)) = node_length node ->
  take (Z.to_nat (node_length node)) (data node) = data node.
Proof. intros H. apply take_ge. lia. Qed.

Lemma read_large_written old node leafNode s :
  large_ok node leafNode -> isEndLevel node = false ->
  read_large_node old (large_header node leafNode ++ data node ++ s) leafNode
  = Ret (large_read_back old node leafNode, s).
Proof.
  intros [Hp Hl Hd Hr Hg _] He. unfold large_header, large_read_back. rewrite He.
  rewrite (not_negative_id (getValue _)) by apply Hr.
  set (v := value (recordNumber node)) in *. change (getValue (recordNumber node)) with v.
  destruct (first_byte (internal_flags node) (Z.land v 0x1F)) as [E1 E2];
    [apply internal_flags_range|
     change 0x1F with (2 ^ 5 - 1); rewrite land_low by lia; apply Z.mod_pos_bound; lia|].
  unfold read_large_node. cbn [app read_byte obind]. rewrite E1, E2, <-!app_assoc.
  assert (Hv : mk v = recordNumber node) by (unfold v; by destruct (recordNumber node)).
  assert (Hpage : forall s,
    (if leafNode then Ret (pageNumber old, (if leafNode then []
       else put_page_bits 4 (not_negative (pageNumber node))) ++ s)
     else let* (number, s) := get_page_bits 4 0 0 ((if leafNode then []
       else put_page_bits 4 (not_negative (pageNumber node))) ++ s) in Ret (SLONG number, s))
    = Ret (if leafNode && true then pageNumber old else pageNumber node, s)).
  { intros s'. destruct leafNode; [done|]. specialize (Hg eq_refl).
    rewrite not_negative_id by apply Hg. by apply page_bits_join. }
  unfold internal_flags in *. rewrite He in *.
  destruct (isEndBucket node) eqn:Hb;
    [|destruct (Z.eqb_spec (node_length node) 0) as [Hl0|Hl0];
      [destruct (Z.eqb_spec (prefix node) 0) as [Hp0|Hp0]
      |destruct (Z.eqb_spec (node_length node) 1) as [Hl1|Hl1]]];
  cbn -[get_record_bits put_record_bits get_page_bits put_page_bits get_short7 put_short7
        read_bytes Z.shiftr Z.land];
  rewrite record_bits_join by exact Hr; cbn [obind]; rewrite Hpage; cbn [obind];
  rewrite ?get_put_short7 by done; cbn [obind];
  rewrite ?get_put_short7 by done; cbn [obind];
  rewrite (read_body _ (data node)) by lia; cbn [obind]; by rewrite ?Hv, ?Hl0, ?Hp0, ?Hl1.
Qed.

Lemma read_large_end_level old node leafNode s :
  large_ok node leafNode -> isEndLevel node = true ->
  read_large_node old (large_header node leafNode ++ s) leafNode
  = Ret (large_read_back old node leafNode, s).
Proof.
  intros Hok He. destruct (large_end _ _ Hok He) as (Hb & Hp & Hl & Hg & Hr).
  unfold large_header, large_read_back, internal_flags. rewrite He.
  change (getValue (recordNumber node)) with (value (recordNumber node)).
  rewrite Hr, Hp, Hl, Hg, Hb, andb_false_r.
  unfold read_large_node. cbn -[Z.land Z.shiftr Z.shiftl Z.lor UCHAR].
  replace (mk 0) with (recordNumber node) by (destruct (recordNumber node); simpl in *; congruence).
  reflexivity.
Qed.

Lemma getNodeSize_large node flags leafNode :
  flag_set flags btr_large_keys = true -> large_ok node leafNode -> isEndLevel node = false ->
  getNodeSize node flags leafNode
  = Z.of_nat (length (large_header node leafNode)) + node_length node.
Proof.
  intros Hf [Hp Hl Hd Hr Hg _] He. change (2 ^ 14) with 16384 in *.
  unfold getNodeSize, large_header. rewrite Hf, He. cbn [negb length].
  rewrite (not_negative_id (getValue _)) by apply Hr.
  rewrite !length_app, Nat2Z.inj_succ, !Nat2Z.inj_add.
  change (2 ^ 40) with 1099511627776 in Hr.
  change (getValue (recordNumber node)) with (value (recordNumber node)).
  rewrite length_put_record_bits by
    (rewrite (shiftr_div _ 5) by lia; change (2 ^ 35) with 34359738368; change (2 ^ 5) with 32;
     Z.to_euclidean_division_equations; lia).
  assert (Hpage : Z.of_nat (length (if leafNode then []
       else put_page_bits 4 (not_negative (pageNumber node))))
    = if leafNode then 0 else
        if flag_set (not_negative (pageNumber node)) 0xF0000000 then 5
        else if flag_set (not_negative (pageNumber node)) 0xFFE00000 then 4
        else if flag_set (not_negative (pageNumber node)) 0xFFFFC000 then 3
        else if flag_set (not_negative (pageNumber node)) 0xFFFFFF80 then 2 else 1).
  { destruct leafNode; [done|]. specialize (Hg eq_refl). apply length_put_page_bits.
    rewrite not_negative_id by lia. change (2 ^ 31) with 2147483648 in Hg.
    change (2 ^ 32) with 4294967296. lia. }
  rewrite Hpage.
  set (P := if leafNode then 0 else _). set (R := if flag_set _ _ then 5 else _).
  assert (0 <= P <= 5) by (unfold P; repeat case_match; lia).
  assert (0 <= R <= 5) by (unfold R; repeat case_match; lia).
  assert (HS : forall n, 0 <= short7_size n <= 3) by (intros n; unfold short7_size; repeat case_match; lia).
  pose proof (HS (prefix node)). pose proof (HS (node_length node)).
  assert (Hif : forall (b : bool) n, 0 <= n < 2 ^ 14 ->
    Z.of_nat (length (if b then put_short7 n else [])) = if b then short7_size n else 0)
    by (intros [] n Hn; [by apply length_put_short7|done]).
  rewrite !Hif by (change (2 ^ 14) with 16384; lia).
  rewrite USHORT_small; [lia|]. repeat case_match; lia.
Qed.

(** ** Old-style nodes *)

Definition slong (z : Z) : Prop := -2147483648 <= z < 2147483648.

(** One-byte prefix and length, 32-bit numbers; the two negative markers are
    not record or page numbers. *)
Record old_ok (node : IndexNode) (leafNode : bool) : Prop := {
  old_prefix : is_uchar (prefix node);
  old_length : is_uchar (node_length node);
  old_data : Z.of_nat (length (data node)) = node_length node;
  old_record : slong (value (recordNumber node));
  old_page : slong (pageNumber node);
  old_end : isEndLevel node = true -> isEndBucket node = false;
  old_number : isEndLevel node = false -> isEndBucket node = false ->
    ~ (if leafNode then value (recordNumber node) else pageNumber node) ∈ [END_LEVEL; END_BUCKET]
}.

(** The number stored in the node's four bytes. *)
Definition stored_number (node : IndexNode) (leafNode : bool) : Z :=
  if isEndLevel node then END_LEVEL else if isEndBucket node then END_BUCKET
  else if leafNode then value (recordNumber node) else pageNumber node.

(** Markers replace the number, and an inner node without record number
    keeps the one that was there. *)
Definition old_read_back (old node : IndexNode) (flags : Z) (leafNode : bool) : IndexNode :=
  mk_node (prefix node) (node_length node)
    (if leafNode then pageNumber old else stored_number node leafNode)
    (data node)
    (if has_record_number node flags leafNode then recordNumber node
     else if leafNode then mk (stored_number node leafNode) else recordNumber old)
    (isEndBucket node) (isEndLevel node).

Lemma quad_roundtrip z : slong z -> get_long (quad_put z) = z.
Proof.
  intros H. unfold get_long, quad_put. rewrite (SLONG_small z) by exact H.
  rewrite take_ge by (rewrite length_le_bytes; lia). by apply SLONG_le_bytes.
Qed.

Lemma read_quad z s : read_bytes 4 (quad_put z ++ s) = Ret (quad_put z, s).
Proof. apply read_bytes_app, length_le_bytes. Qed.

Lemma old_header_eq node leafNode :
  old_ok node leafNode ->
  old_header node leafNode
  = prefix node :: node_length node :: quad_put (stored_number node leafNode).
Proof.
  intros [Hp Hl _ _ _ _ _]. unfold old_header, stored_number.
  rewrite !UCHAR_small by done. repeat case_match; done.
Qed.

Lemma stored_number_slong node leafNode : old_ok node leafNode -> slong (stored_number node leafNode).
Proof.
  intros [_ _ _ Hr Hg _ _]. unfold stored_number, slong, END_LEVEL, END_BUCKET in *.
  repeat case_match; lia.
Qed.

Lemma stored_number_marks node leafNode :
  old_ok node leafNode ->
  (stored_number node leafNode =? END_LEVEL) = isEndLevel node /\
  (stored_number node leafNode =? END_BUCKET) = isEndBucket node.
Proof.
  intros [_ _ _ _ _ He Hn]. unfold stored_number.
  destruct (isEndLevel node); [rewrite He by done; done|].
  destruct (isEndBucket node); [done|].
  specialize (Hn eq_refl eq_refl). rewrite !elem_of_cons in Hn.
  split; apply Z.eqb_neq; intros E; apply Hn; rewrite E; auto.
Qed.

Lemma read_old_written old node flags leafNode s :
  old_ok node leafNode ->
  read_old_node old (old_header node leafNode ++ data node ++ old_trailer node flags leafNode ++ s)
    flags leafNode
  = Ret (old_read_back old node flags leafNode, s).
Proof.
  intros Hok. destruct (stored_number_marks _ _ Hok) as [M1 M2].
  pose proof (stored_number_slong _ _ Hok) as Hs.
  rewrite old_header_eq by done. unfold read_old_node. cbn [app read_byte obind].
  rewrite read_quad. cbn [obind]. rewrite quad_roundtrip by done.
  rewrite (read_body _ (data node)) by apply (old_data _ _ Hok). cbn [obind].
  rewrite M1, M2. unfold old_trailer, old_read_back.
  set (node' := mk_node _ _ _ _ _ _ _).
  assert (E : has_record_number node' flags leafNode = has_record_number node flags leafNode)
    by reflexivity.
  rewrite E. destruct (has_record_number node flags leafNode); [|done].
  rewrite read_quad. cbn [obind].
  change (getValue (recordNumber node)) with (value (recordNumber node)).
  rewrite quad_roundtrip by apply (old_record _ _ Hok).
  by destruct (recordNumber node).
Qed.

Lemma length_old_header node leafNode : old_ok node leafNode -> length (old_header node leafNode) = 6%nat.
Proof. intros H. rewrite old_header_eq by done. reflexivity. Qed.

Lemma length_old_trailer node flags leafNode :
  Z.of_nat (length (old_trailer node flags leafNode))
  = if has_record_number node flags leafNode then 4 else 0.
Proof. unfold old_trailer. by case_match. Qed.

(** ** Both styles *)

Definition node_ok (node : IndexNode) (flags : Z) (leafNode : bool) : Prop :=
  if flag_set flags btr_large_keys then large_ok node leafNode else old_ok node leafNode.

Definition read_back (old node : IndexNode) (flags : Z) (leafNode : bool) : IndexNode :=
  if flag_set flags btr_large_keys then large_read_back old node leafNode
  else old_read_back old node flags leafNode.

Lemma readNode_writeNode old node flags leafNode s :
  node_ok node flags leafNode ->
  readNode old (writeNode node flags leafNode ++ s) flags leafNode
  = Ret (read_back old node flags leafNode, s).
Proof.
  unfold node_ok, readNode, writeNode, read_back.
  destruct (flag_set flags btr_large_keys); cbn [negb]; intros Hok.
  - destruct (isEndLevel node) eqn:He; [by apply read_large_end_level|].
    rewrite take_body, <-app_assoc by apply (large_data _ _ Hok). by apply read_large_written.
  - rewrite take_body, <-!app_assoc by apply (old_data _ _ Hok). by apply read_old_written.
Qed.

Lemma length_writeNode node flags leafNode :
  node_ok node flags leafNode ->
  Z.of_nat (length (writeNode node flags leafNode)) = getNodeSize node flags leafNode.
Proof.
  unfold node_ok, writeNode.
  destruct (flag_set flags btr_large_keys) eqn:Hf; cbn [negb]; intros Hok.
  - destruct (isEndLevel node) eqn:He.
    + unfold large_header, getNodeSize. rewrite Hf, He. reflexivity.
    + rewrite (getNodeSize_large _ _ leafNode) by done.
      rewrite take_body, length_app by apply (large_data _ _ Hok).
      rewrite Nat2Z.inj_add. by rewrite (large_data _ _ Hok).
  - rewrite take_body, !length_app by apply (old_data _ _ Hok).
    rewrite !Nat2Z.inj_add, length_old_trailer, length_old_header by done.
    unfold getNodeSize. rewrite Hf. cbn [negb].
    pose proof (old_data _ _ Hok) as E. pose proof (old_length _ _ Hok) as B.
    unfold is_uchar in B. rewrite USHORT_small; repeat case_match; lia.
Qed.

(** ** Jump nodes *)

Definition jump_ok (jumpNode : IndexJumpNode) (flags : Z) : Prop :=
  let bound := if flag_set flags btr_large_keys then 2 ^ 14 else 256 in
  0 <= jump_prefix jumpNode < bound /\ 0 <= jump_length jumpNode < bound /\
  0 <= jump_offset jumpNode < 65536 /\
  Z.of_nat (length (jump_data jumpNode)) = jump_length jumpNode.

Definition info_ok (info : IndexJumpInfo) : Prop :=
  0 <= firstNodeOffset info < 65536 /\ 0 <= jumpAreaSize info < 65536 /\ is_uchar (jumpers info).

Lemma read_short n s :
  0 <= n < 65536 -> read_bytes 2 (le_bytes 2 n ++ s) = Ret (le_bytes 2 n, s) /\
  le_value (le_bytes 2 n) = n.
Proof.
  intros H. split; [apply read_bytes_app, length_le_bytes|].
  apply le_value_le_bytes_small. change (2 ^ (8 * Z.of_nat 2)) with 65536. lia.
Qed.

(** A jump node read from the page is the one that was written, for
    prefixes and lengths below 2^14 with large keys and below 256 without;
    the announced size is the number of bytes written; so it is for the jump
    information, and [getPointerFirstNode] finds both the jump nodes behind
    it and the first node it points to. *)
Theorem jump_area_roundtrip jumpNode info flags page s :
  jump_ok jumpNode flags -> info_ok info ->
  readJumpNode (writeJumpNode jumpNode flags ++ s) flags = Ret (jumpNode, s) /\
  Z.of_nat (length (writeJumpNode jumpNode flags)) = getJumpNodeSize jumpNode flags /\
  readJumpInfo (writeJumpInfo info ++ s) = Ret (info, s) /\
  (flag_set flags btr_jump_info = true ->
   getPointerFirstNode (length page) (page ++ writeJumpInfo info ++ s) flags false
   = Ret (firstNodeOffset info) /\
   getPointerFirstNode (length page) (page ++ writeJumpInfo info ++ s) flags true
   = Ret (Z.of_nat (length (page ++ writeJumpInfo info)))).
Proof.
  intros (Hp & Hl & Ho & Hd) (Hf & Hs & Hj).
  assert (Hi : forall s, readJumpInfo (writeJumpInfo info ++ s) = Ret (info, s)).
  { intros s'. unfold readJumpInfo, writeJumpInfo. rewrite <-!app_assoc.
    rewrite (proj1 (read_short _ _ Hf)). cbn [obind].
    rewrite (proj1 (read_short _ _ Hs)). cbn [obind app read_byte].
    rewrite (proj2 (read_short _ s' Hf)), (proj2 (read_short _ s' Hs)), UCHAR_small by done.
    by destruct info. }
  assert (Hb : take (Z.to_nat (jump_length jumpNode)) (jump_data jumpNode) = jump_data jumpNode)
    by (apply take_ge; lia).
  split_and!; [| |apply Hi|].
  - unfold readJumpNode, writeJumpNode. rewrite <-!app_assoc, Hb.
    destruct (flag_set flags btr_large_keys).
    + rewrite <-!app_assoc, get_put_short7 by done. cbn [obind].
      rewrite get_put_short7 by done. cbn [obind].
      rewrite (proj1 (read_short _ _ Ho)). cbn [obind].
      rewrite read_body, (proj2 (read_short _ s Ho)) by done. cbn [obind]. by destruct jumpNode.
    + cbn [app read_byte obind]. rewrite !UCHAR_small by done.
      rewrite (proj1 (read_short _ _ Ho)). cbn [obind].
      rewrite read_body, (proj2 (read_short _ s Ho)) by done. cbn [obind]. by destruct jumpNode.
  - unfold writeJumpNode, getJumpNodeSize. rewrite Hb, !length_app, length_le_bytes, !Nat2Z.inj_add, Hd.
    assert (HS : forall n, 0 <= n < 2 ^ 14 ->
      (if flag_set n 0xC000 then 3 else if flag_set n 0xFF80 then 2 else 1) = short7_size n /\
      1 <= short7_size n <= 3).
    { intros n Hn. unfold short7_size.
      change 0xC000 with (2 ^ 16 - 2 ^ 14). change 0xFF80 with (2 ^ 16 - 2 ^ 7).
      change 0xFFFFC000 with (2 ^ 32 - 2 ^ 14). change 0xFFFFFF80 with (2 ^ 32 - 2 ^ 7).
      change (2 ^ 14) with 16384 in Hn. rewrite !flag_set_high by lia.
      split; [done|]. repeat case_match; lia. }
    destruct (flag_set flags btr_large_keys).
    + rewrite length_app, Nat2Z.inj_add, !length_put_short7 by done.
      destruct (HS _ Hp) as [-> ?], (HS _ Hl) as [-> ?].
      change (2 ^ 14) with 16384 in *. rewrite USHORT_small; lia.
    + cbn [length]. rewrite USHORT_small; lia.
  - intros Hflag. unfold getPointerFirstNode. rewrite Hflag, drop_app_length, Hi.
    split; [done|]. cbn [negb obind].
    assert (E : length (writeJumpInfo info) = 5%nat) by reflexivity.
    f_equal. rewrite length_app, E. lia.
Qed.

Lemma jump_area_roundtrip_witness :
  let j := mk_jump 300 2 700 [65; 66] in let i := mk_info 600 17 3 in
  (jump_ok j 96 /\ info_ok i) /\
  (readJumpNode (writeJumpNode j 96 ++ [1]) 96 = Ret (j, [1]) /\
  Z.of_nat (length (writeJumpNode j 96)) = getJumpNodeSize j 96 /\
  readJumpInfo (writeJumpInfo i ++ [1]) = Ret (i, [1]) /\
  (flag_set 96 btr_jump_info = true ->
   getPointerFirstNode 3 ([7;8;9] ++ writeJumpInfo i ++ [1]) 96 false = Ret 600 /\
   getPointerFirstNode 3 ([7;8;9] ++ writeJumpInfo i ++ [1]) 96 true = Ret 8)).
Proof.
  intros j i.
  assert (Hj : jump_ok j 96) by (unfold jump_ok; simpl; lia).
  assert (Hi : info_ok i) by (unfold info_ok, is_uchar; simpl; lia).
  split; [done|]. exact (jump_area_roundtrip j i 96 [7;8;9] [1] Hj Hi).
Defined.

(** ** Properties of nodes *)

(** C34: A node read from the page is the one that was written, whatever the
    style of the index and the kind of the node: normal, without data or
    prefix, end of bucket, end of level (up to the fields that reading leaves
    alone); what follows it is untouched. *)
Theorem readNode_roundtrip old node flags leafNode s :
  node_ok node flags leafNode ->
  readNode old (writeNode node flags leafNode ++ s) flags leafNode
  = Ret (read_back old node flags leafNode, s).
Proof. apply readNode_writeNode. Qed.

Definition sample_node : IndexNode := mk_node 3 2 100000 [65; 66] (mk 123456) false false.

Lemma sample_node_ok : node_ok sample_node btr_large_keys false.
Proof. unfold node_ok. simpl. split; simpl; try lia; try done. Qed.

Lemma readNode_roundtrip_witness :
  node_ok sample_node btr_large_keys false /\
  readNode sample_node (writeNode sample_node btr_large_keys false ++ [1]) btr_large_keys false
  = Ret (sample_node, [1]).
Proof.
  split; [apply sample_node_ok|].
  exact (readNode_roundtrip sample_node sample_node btr_large_keys false [1] sample_node_ok).
Defined.

(** C39: [getNodeSize] announces exactly the bytes [writeNode] produces, so a
    node never runs past the room made for it. *)
Theorem getNodeSize_exact node flags leafNode :
  node_ok node flags leafNode ->
  Z.of_nat (length (writeNode node flags leafNode)) = getNodeSize node flags leafNode.
Proof. apply length_writeNode. Qed.

Lemma getNodeSize_exact_witness :
  node_ok sample_node btr_large_keys false /\
  Z.of_nat (length (writeNode sample_node btr_large_keys false)) = 10.
Proof.
  split; [apply sample_node_ok|].
  rewrite (getNodeSize_exact sample_node btr_large_keys false sample_node_ok). reflexivity.
Defined.

(** ** Writing around data that is on the page *)

Lemma length_large_body node flags leafNode :
  flag_set flags btr_large_keys = true -> large_ok node leafNode ->
  getNodeSize node flags leafNode - node_length node
  = Z.of_nat (length (large_header node leafNode)).
Proof.
  intros Hf Hok. assert (Hn : node_ok node flags leafNode) by (unfold node_ok; by rewrite Hf).
  rewrite <-(length_writeNode _ _ _ Hn). unfold writeNode. rewrite Hf. cbn [negb].
  destruct (isEndLevel node) eqn:He.
  - destruct (large_end _ _ Hok He) as (_ & _ & Hl & _). lia.
  - rewrite take_body, length_app by apply (large_data _ _ Hok).
    pose proof (large_data _ _ Hok). lia.
Qed.

(** C40: Writing a node whose data lies on the page already gives the same
    page as writing it with the data copied in, even where the data moves
    over its own place; the pointer returned is behind the node.  Old-style
    nodes expect the data at its final place, six bytes in. *)
Theorem writeNode_in_place_correct page p data_at node flags leafNode :
  node_ok node flags leafNode ->
  data node = take (Z.to_nat (node_length node)) (drop data_at page) ->
  (flag_set flags btr_large_keys = false -> data_at = (p + 6)%nat) ->
  (p + Z.to_nat (getNodeSize node flags leafNode) <= length page)%nat ->
  writeNode_in_place page p data_at node flags leafNode
  = (store page p (writeNode node flags leafNode),
     (p + Z.to_nat (getNodeSize node flags leafNode))%nat).
Proof.
  intros Hok Hd Hat Hroom. pose proof (length_writeNode _ _ _ Hok) as Hsize.
  rewrite <-Hsize, Nat2Z.id in *. unfold node_ok, writeNode, writeNode_in_place in *.
  destruct (flag_set flags btr_large_keys) eqn:Hf; cbn [negb] in *.
  - rewrite (length_large_body _ _ _ Hf Hok). clear Hat.
    assert (E : take (Z.to_nat (node_length node)) (data node) = data node)
      by (apply take_body, (large_data _ _ Hok)).
    pose proof (large_data _ _ Hok) as Hlen. pose proof (large_length _ _ Hok) as Hb.
    rewrite <-Hd, E in *.
    assert (Hh : USHORT (Z.of_nat (length (large_header node leafNode)))
                 = Z.of_nat (length (large_header node leafNode))).
    { rewrite <-(length_large_body _ flags _ Hf Hok). apply USHORT_small.
      rewrite (length_large_body _ flags _ Hf Hok). split; [lia|].
      assert (G : 0 <= getNodeSize node flags leafNode < 65536)
        by (unfold getNodeSize; rewrite Hf; repeat case_match; first [apply USHORT_range|lia]).
      rewrite <-(length_large_body _ flags _ Hf Hok). lia. }
    rewrite Hh, Nat2Z.id. destruct (isEndLevel node) eqn:He.
    + destruct (large_end _ _ Hok He) as (_ & _ & Hl & _). rewrite Hl in Hlen.
      apply (inj Z.of_nat _ 0%nat), nil_length_inv in Hlen. by rewrite Hlen, store_nil.
    + rewrite length_app in *. rewrite store_before by lia. f_equal. lia.
  - rewrite (Hat eq_refl) in *.
    assert (E : take (Z.to_nat (node_length node)) (data node) = data node)
      by (apply take_body, (old_data _ _ Hok)).
    pose proof (old_data _ _ Hok) as Hlen. rewrite E in *.
    pose proof (length_old_header node leafNode Hok) as H6.
    rewrite !length_app in *. replace (p + 6)%nat with (p + length (old_header node leafNode))%nat in Hd by lia.
    rewrite store_around by lia. rewrite <-Hd. f_equal. lia.
Qed.

Lemma writeNode_in_place_correct_witness :
  let page := [0;0;0;0;0;0;0;0;0;0;65;66;0] in
  writeNode_in_place page 1 10 sample_node btr_large_keys false
  = (store page 1 (writeNode sample_node btr_large_keys false), 11%nat).
Proof.
  intros page.
  refine (writeNode_in_place_correct page 1 10 sample_node btr_large_keys false sample_node_ok _ _ _);
    [reflexivity|discriminate|vm_compute; lia].
Defined.

(** ** Keys *)

(** [computePrefix] is the length of the longest common prefix: that
    many bytes agree, and the next ones do not. *)
Theorem computePrefix_longest prevString string :
  let n := computePrefix prevString string in
  take n prevString = take n string /\ (n <= length prevString)%nat /\ (n <= length string)%nat /\
  (forall m, (m <= length prevString)%nat -> (m <= length string)%nat ->
     take m prevString = take m string -> (m <= n)%nat).
Proof.
  cbn zeta. revert string; induction prevString as [|p ps IH]; intros [|c cs]; simpl;
    try (split_and!; auto; lia).
  destruct (Z.eqb_spec p c) as [->|Hne].
  - destruct (IH cs) as (E & L1 & L2 & M). split_and!; simpl; [congruence|lia|lia|].
    intros [|m] H1 H2 H; [lia|]. simpl in H. injection H as H.
    apply le_n_S, M; lia || done.
  - split_and!; auto; try lia. intros [|m] H1 H2 H; [lia|]. simpl in H. congruence.
Qed.

(** On a page whose prefixes are kept by [computePrefix], a node that
    continues the key [before] stands for the key made of the common prefix
    and its own data; [keyEquality] decides whether a search key with the
    same prefix is that key. *)
Theorem keyEquality_spec key node before :
  Z.of_nat (length (data node)) = node_length node -> 0 <= prefix node <= Z.of_nat (length before) ->
  take (Z.to_nat (prefix node)) key = take (Z.to_nat (prefix node)) before ->
  keyEquality key node = bool_decide (key = take (Z.to_nat (prefix node)) before ++ data node).
Proof.
  intros Hd Hp Hk. unfold keyEquality. rewrite take_body by done.
  destruct (Z.eqb_spec (Z.of_nat (length key)) (node_length node + prefix node)) as [E|E]; cbn [negb].
  - assert (Hs : take (Z.to_nat (node_length node)) (drop (Z.to_nat (prefix node)) key)
      = drop (Z.to_nat (prefix node)) key) by (apply take_ge; rewrite length_drop; lia).
    rewrite Hs, <-Hk.
    assert (Hiff : key = take (Z.to_nat (prefix node)) key ++ data node
      <-> data node = drop (Z.to_nat (prefix node)) key).
    { rewrite <-(take_drop (Z.to_nat (prefix node)) key) at 1. split; [intros H%app_inv_head|intros ->]; done. }
    destruct (Z.eqb_spec (node_length node) 0) as [H0|H0].
    + symmetry. apply bool_decide_eq_true, Hiff.
      rewrite (nil_length_inv (data node)) by lia. symmetry. apply drop_ge. lia.
    + apply bool_decide_ext. by rewrite Hiff.
  - symmetry. apply bool_decide_eq_false. intros ->. apply E.
    rewrite length_app, length_take. lia.
Qed.

Lemma keyEquality_spec_witness :
  let node := mk_node 2 1 0 [67] (mk 9) false false in
  keyEquality [65; 66; 67] node = bool_decide ([65; 66; 67] = take 2 [65; 66; 70; 71] ++ [67]) /\
  keyEquality [65; 66; 67] node = true.
Proof.
  intros node. split; [|reflexivity].
  apply (keyEquality_spec [65; 66; 67] node [65; 66; 70; 71]); [reflexivity|simpl; lia|reflexivity].
Defined.

(** ** Duplicates on inner pages *)

(** [node] repeats the key of [previousNode]. *)
Definition repeats (previousNode node : IndexNode) : bool :=
  negb (isEndLevel node) && (node_length node =? 0)
  && (prefix node =? node_length previousNode + prefix previousNode).

(** The node and those behind it with the same key. *)
Fixpoint duplicates (node : IndexNode) (rest : list IndexNode) : list IndexNode :=
  node :: match rest with
          | next :: rest => if repeats node next then duplicates next rest else []
          | [] => []
          end.

(** A node whose page can hold record numbers from before the one sought. *)
Definition starts_before (find : RecordNumber) (node : IndexNode) : bool :=
  negb (isEndBucket node) && negb (RecordNumber.le find (recordNumber node)).

Definition last_page (previousNumber : Z) (nodes : list IndexNode) : Z :=
  match list.last nodes with Some node => pageNumber node | None => previousNumber end.

Lemma last_page_cons n previousNumber nodes :
  last_page previousNumber (n :: nodes) = last_page (pageNumber n) nodes.
Proof. unfold last_page. destruct nodes as [|m nodes]; [done|].
  rewrite last_cons_cons. destruct (list.last (m :: nodes)) eqn:E; [done|]. by apply last_None in E.
Qed.

Definition encode_nodes (flags : Z) (nodes : list IndexNode) : list Z :=
  concat (map (fun node => writeNode node flags false) nodes).

Lemma read_back_inner old node flags :
  flag_set flags btr_large_keys = true ->
  exists d, read_back old node flags false
    = mk_node (prefix node) (node_length node) (pageNumber node) d (recordNumber node)
        (isEndBucket node) (isEndLevel node).
Proof. intros Hf. unfold read_back, large_read_back. rewrite Hf. cbn [andb]. eauto. Qed.

(** Nodes that differ in their data only. *)
Definition same_but_data (n m : IndexNode) : Prop :=
  exists d, n = mk_node (prefix m) (node_length m) (pageNumber m) d (recordNumber m)
        (isEndBucket m) (isEndLevel m).

Lemma find_page_loop_spec flags find nodes : forall fuel n n' s previousNumber,
  flag_set flags btr_large_keys = true -> same_but_data n' n ->
  Forall (fun node => node_ok node flags false) nodes ->
  (isEndBucket n = true \/
   exists z, list.last nodes = Some z /\ (isEndBucket z || isEndLevel z = true)) ->
  (length nodes < fuel)%nat ->
  find_page_loop fuel n' (encode_nodes flags nodes ++ s) flags false previousNumber find
  = Ret (last_page previousNumber (take_while (starts_before find) (duplicates n nodes))).
Proof.
  induction nodes as [|m nodes IH]; intros fuel n n' s prev Hf [d ->] Hok Hlast Hfuel;
    (destruct fuel as [|fuel]; [simpl in Hfuel; lia|]);
    cbn [find_page_loop isEndBucket recordNumber prefix node_length pageNumber duplicates take_while];
    unfold starts_before at 1;
    (destruct (isEndBucket n) eqn:Hb; [done|]);
    (destruct (RecordNumber.le find (recordNumber n)) eqn:Hle; [done|]); cbn [andb negb];
    rewrite last_page_cons.
  - destruct Hlast as [?|(z & ? & _)]; done.
  - inversion Hok as [|? ? Hm Hnodes]; subst.
    unfold encode_nodes. cbn [map concat]. rewrite <-app_assoc, readNode_writeNode by done.
    cbn [obind].
    match goal with |- context [read_back ?o m flags false] =>
      destruct (read_back_inner o m flags Hf) as [d' ->] end.
    cbn [isEndLevel node_length prefix].
    assert (E : isEndLevel m || negb (node_length m =? 0)
                || negb (prefix m =? node_length n + prefix n) = negb (repeats n m))
      by (unfold repeats; by rewrite !negb_andb, negb_involutive).
    rewrite E. destruct (repeats n m) eqn:Hr; cbn [negb]; [|done].
    apply IH; auto; [eexists; done| |simpl in Hfuel; lia].
    destruct Hlast as [?|(z & Hz & Hend)]; [congruence|].
    destruct nodes as [|m' nodes]; [|right; exists z; by rewrite last_cons_cons in Hz].
    injection Hz as <-. left. unfold repeats in Hr. bool_hyps.
    destruct (isEndBucket m), (isEndLevel m); done.
Qed.

Lemma writeNode_not_empty node flags : node_ok node flags false ->
  (1 <= length (writeNode node flags false))%nat.
Proof.
  unfold node_ok, writeNode. intros Hok. case_match; cbn [negb].
  - unfold large_header. case_match; cbn [app length]; lia.
  - rewrite !length_app, length_old_header by done. lia.
Qed.

Lemma length_encode_nodes flags nodes :
  Forall (fun node => node_ok node flags false) nodes ->
  (length nodes <= length (encode_nodes flags nodes))%nat.
Proof.
  induction 1 as [|n nodes Hn _ IH]; [simpl; lia|]. unfold encode_nodes in *. cbn [map concat length].
  rewrite length_app. pose proof (writeNode_not_empty _ _ Hn). lia.
Qed.

(** The child page to descend to for a record number among duplicates
    of a key: on any well-formed run of inner nodes that ends with a marker,
    [findPageInDuplicates] returns the page of the last duplicate whose
    record number is below the one sought, or the page before the run; it
    reads no further than the marker. *)
Theorem findPageInDuplicates_spec old n nodes s flags btr_level previousNumber find :
  flag_set flags btr_large_keys = true -> btr_level <> 0 ->
  Forall (fun node => node_ok node flags false) (n :: nodes) ->
  isEndLevel n = false ->
  (exists z, list.last (n :: nodes) = Some z /\ isEndBucket z || isEndLevel z = true) ->
  findPageInDuplicates old (encode_nodes flags (n :: nodes) ++ s) flags btr_level previousNumber find
  = Ret (last_page previousNumber (take_while (starts_before find) (duplicates n nodes))).
Proof.
  intros Hf Hlevel Hok Hn (z & Hz & Hend). inversion Hok as [|? ? Hn_ok Hnodes]; subst.
  unfold findPageInDuplicates. rewrite (proj2 (Z.eqb_neq _ _) Hlevel).
  unfold encode_nodes at 1. cbn [map concat]. rewrite <-app_assoc, readNode_writeNode by done.
  cbn [obind]. destruct (read_back_inner old n flags Hf) as [d Hd]. rewrite Hd.
  apply find_page_loop_spec; auto; [by eexists| |].
  - destruct nodes as [|m nodes]; [|right; exists z; by rewrite last_cons_cons in Hz].
    injection Hz as <-. rewrite Hn, orb_false_r in Hend. by left.
  - pose proof (length_encode_nodes _ _ Hnodes) as H. unfold encode_nodes in H.
    rewrite length_app. lia.
Qed.

Lemma findPageInDuplicates_spec_witness :
  let n r p := mk_node 3 0 p [] (mk r) false false in
  let nodes := [n 20 101; n 30 102; n 40 103; mk_node 0 0 0 [] (mk 0) false true] in
  findPageInDuplicates sample_node (encode_nodes 32 (n 10 100 :: nodes) ++ []) 32 1 99 (mk 35) = Ret 102.
Proof.
  intros n nodes.
  refine (findPageInDuplicates_spec sample_node (n 10 100) nodes [] 32 1 99 (mk 35) eq_refl _ _ eq_refl _).
  - lia.
  - unfold n, nodes. repeat (constructor; [unfold node_ok; simpl; split; simpl; try lia; done|]). constructor.
  - eexists. split; [reflexivity|reflexivity].
Defined.

End Btn.
