(* ===== verification/Xdr.v ===== *)
(** * External data representation (remote/xdr.cpp)

    The filters that translate the values of the remote protocol between
    memory and a stream, and the memory stream they run on in process.  A
    filter gets the operation, the object and the stream, and returns the
    [bool_t] result, the object and the stream, as the code does through its
    pointers.  The streams are reached through the table [xdr_ops]; filters
    are verified against the laws [XdrStream] of such a table, which the
    memory stream is shown to satisfy.  Floating point values are their bit
    patterns. *)

From S2P Require Import Prelude.

Module Xdr.

Inductive xdr_op := XDR_ENCODE | XDR_DECODE | XDR_FREE.

(** ** The stream operations (remote/xdr.h)

    Reading a long or bytes may fail ([None], [false]); [x_getbytes] fills
    the front of the buffer it is given. *)
Class xdr_ops (St : Type) := {
  x_getlong : St -> outcome (option Z * St);
  x_putlong : Z -> St -> outcome (bool * St);
  x_getbytes : list Z -> Z -> St -> outcome (bool * list Z * St);
  x_putbytes : list Z -> Z -> St -> outcome (bool * St);
  x_getpostn : St -> Z;
  x_setpostn : Z -> St -> bool * St;
  x_inline : Z -> St -> option Z
}.

Definition MAXSTRING_FOR_WRAPSTRING : Z := 65535.

Definition filter (St A : Type) : Type := xdr_op -> A -> St -> outcome (bool * A * St).

(** The number of bytes before the terminating zero. *)
Fixpoint strlen (buf : list Z) : outcome nat :=
  match buf with
  | [] => Throw Overrun
  | b :: buf => if b =? 0 then Ret 0%nat else let* n := strlen buf in Ret (S n)
  end.

Section filters.
Context {St : Type} {ops : xdr_ops St}.

(** The filters whose external form is one long: conversion to [SLONG] on
    the way out, conversion to the object's type on the way in. *)
Definition via_long (to from : Z -> Z) : filter St Z := fun op ip s =>
  match op with
  | XDR_ENCODE => let* (ok, s) := x_putlong (to ip) s in Ret (ok, ip, s)
  | XDR_DECODE =>
      let* (r, s) := x_getlong s in
      match r with
      | None => Ret (false, ip, s)
      | Some temp => Ret (true, from temp, s)
      end
  | XDR_FREE => Ret (true, ip, s)
  end.

Definition xdr_bool : filter St Z := via_long id id.
Definition xdr_enum : filter St Z := via_long id id.
Definition xdr_int : filter St Z := via_long id id.
Definition xdr_long : filter St Z := via_long id id.
Definition xdr_short : filter St Z := via_long id SSHORT.
Definition xdr_u_int : filter St Z := via_long SLONG ULONG.
Definition xdr_u_long : filter St Z := via_long SLONG ULONG.
Definition xdr_u_short : filter St Z := via_long id USHORT.
Definition xdr_float : filter St Z := via_long SLONG ULONG.

(** Two longs, the high one first. *)
Definition via_two_longs (join : Z -> Z -> Z) : filter St Z := fun op ip s =>
  match op with
  | XDR_ENCODE =>
      let* (ok, s) := x_putlong (SLONG (Z.shiftr ip 32)) s in
      if negb ok then Ret (false, ip, s)
      else let* (ok, s) := x_putlong (SLONG ip) s in Ret (ok, ip, s)
  | XDR_DECODE =>
      let* (high, s) := x_getlong s in
      match high with
      | None => Ret (false, ip, s)
      | Some high =>
          let* (low, s) := x_getlong s in
          match low with
          | None => Ret (false, ip, s)
          | Some low => Ret (true, join high low, s)
          end
      end
  | XDR_FREE => Ret (true, ip, s)
  end.

Definition xdr_hyper : filter St Z :=
  via_two_longs (fun high low => SINT64 (Z.shiftl high 32 + ULONG low)).
Definition xdr_double : filter St Z :=
  via_two_longs (fun high low => UINT64 (Z.shiftl high 32 + ULONG low)).

Definition padding (length : Z) : Z := Z.land (4 - length) 3.

(** [trash] is whatever the uninitialised local array holds. *)
Definition xdr_opaque (trash : list Z) (len : Z) : filter St (list Z) := fun op p s =>
  let l := padding len in
  match op with
  | XDR_ENCODE =>
      let* (ok, s) := x_putbytes p len s in
      if negb ok then Ret (false, p, s)
      else if negb (l =? 0) then let* (ok, s) := x_putbytes trash l s in Ret (ok, p, s)
      else Ret (true, p, s)
  | XDR_DECODE =>
      let* (ok, p, s) := x_getbytes p len s in
      if negb ok then Ret (false, p, s)
      else if negb (l =? 0) then let* (ok, _, s) := x_getbytes trash l s in Ret (ok, p, s)
      else Ret (true, p, s)
  | XDR_FREE => Ret (true, p, s)
  end.

(** A string pointer is [None] when null, or the bytes it points to, up to
    the end of its allocation. [fresh n] are the [n] bytes [new] returns;
    [length > maxlength] compares unsigned. *)
Definition xdr_string (fresh : Z -> list Z) (trash : list Z) (maxlength : Z)
    : filter St (option (list Z)) := fun op sp s =>
  match op with
  | XDR_ENCODE =>
      match sp with
      | None => Throw Overrun
      | Some buf =>
          let* n := strlen buf in
          let length := SLONG (Z.of_nat n) in
          if maxlength <? ULONG length then Ret (false, sp, s)
          else
            let* (ok, s) := x_putlong length s in
            if negb ok then Ret (false, sp, s)
            else
              let* (ok, s) := x_putbytes buf (ULONG length) s in
              if negb ok then Ret (false, sp, s)
              else if negb (padding length =? 0) then
                let* (ok, s) := x_putbytes trash (padding length) s in Ret (ok, sp, s)
              else Ret (true, sp, s)
      end
  | XDR_DECODE =>
      let buf := match sp with Some buf => buf | None => fresh (ULONG (maxlength + 1)) end in
      let* (r, s) := x_getlong s in
      match r with
      | None => Ret (false, Some buf, s)
      | Some length =>
          if maxlength <? ULONG length then Ret (false, Some buf, s)
          else
            let* (ok, buf, s) := x_getbytes buf (ULONG length) s in
            if negb ok then Ret (false, Some buf, s)
            else if negb ((0 <=? length) && (length <? Z.of_nat (List.length buf))) then Throw Overrun
            else
              let buf := <[Z.to_nat length := 0]> buf in
              if negb (padding length =? 0) then
                let* (ok, _, s) := x_getbytes trash (padding length) s in Ret (ok, Some buf, s)
              else Ret (true, Some buf, s)
      end
  | XDR_FREE => Ret (true, None, s)
  end.

Definition xdr_wrapstring (fresh : Z -> list Z) (trash : list Z) : filter St (option (list Z)) :=
  xdr_string fresh trash MAXSTRING_FOR_WRAPSTRING.

(** [zeros] is the static array the padding is written from and read into;
    [bpp] is the buffer and [lp] the length. *)
Record counted := mk_counted { zeros : list Z; bpp : option (list Z); lp : Z }.

Definition xdr_bytes (fresh : Z -> list Z) (maxlength : Z) : filter St counted := fun op o s =>
  match op with
  | XDR_ENCODE =>
      match bpp o with
      | None => Throw Overrun
      | Some buf =>
          let length := SLONG (lp o) in
          if SLONG maxlength <? length then Ret (false, o, s)
          else
            let* (ok, s) := x_putlong length s in
            if negb ok then Ret (false, o, s)
            else
              let* (ok, s) := x_putbytes buf (ULONG length) s in
              if negb ok then Ret (false, o, s)
              else if negb (padding length =? 0) then
                let* (ok, s) := x_putbytes (zeros o) (padding length) s in Ret (ok, o, s)
              else Ret (true, o, s)
      end
  | XDR_DECODE =>
      let buf := match bpp o with Some buf => buf | None => fresh (SLONG (maxlength + 1)) end in
      let* (r, s) := x_getlong s in
      match r with
      | None => Ret (false, mk_counted (zeros o) (Some buf) (lp o), s)
      | Some length =>
          if SLONG maxlength <? length then Ret (false, mk_counted (zeros o) (Some buf) (lp o), s)
          else
            let* (ok, buf, s) := x_getbytes buf (ULONG length) s in
            if negb ok then Ret (false, mk_counted (zeros o) (Some buf) (lp o), s)
            else if negb (padding length =? 0) then
              let* (ok, zeros, s) := x_getbytes (zeros o) (padding length) s in
              Ret (ok, mk_counted zeros (Some buf) (lp o), s)
            else Ret (true, mk_counted (zeros o) (Some buf) (padding length), s)
      end
  | XDR_FREE => Ret (true, mk_counted (zeros o) None (lp o), s)
  end.

(** The discriminant, then the arm it selects; the table of arms ends at the
    first without a filter. *)
Definition xdr_union {U} (choices : list (Z * filter St U)) (dfault : option (filter St U))
    : filter St (Z * U) := fun op obj s =>
  let* (bOK, enum_value, s) := xdr_int op obj.1 s in
  if negb bOK then Ret (false, (enum_value, obj.2), s)
  else
    match list_find (fun choice => choice.1 = enum_value) choices, dfault with
    | Some (_, (_, proc)), _ | None, Some proc =>
        let* (ok, u, s) := proc op obj.2 s in Ret (ok, (enum_value, u), s)
    | None, None => Ret (false, (enum_value, obj.2), s)
    end.

(** [xdr_free] runs a filter on a stream of which only the operation is
    set. *)
Definition xdr_free {A} (proc : filter St A) (objp : A) (s : St) : outcome (bool * A) :=
  let* (ok, objp, _) := proc XDR_FREE objp s in Ret (ok, objp).

End filters.

(** ** The memory stream

    [x_base] is the memory from the base address on, [x_private] the offset
    of the next byte, [x_handy] what the stream believes is left, an [int]. *)
Record mem := mk_mem { x_base : list Z; x_private : Z; x_handy : Z }.

Definition xdrmem_create (addr : list Z) (len : Z) : mem := mk_mem addr 0 (SLONG len).

(** A block copy of [count] bytes, converted to [size_t]: [None] when it
    leaves the source. *)
Definition mem_slice (from : list Z) (at_ count : Z) : outcome (list Z) :=
  if (0 <=? at_) && (0 <=? count) && (at_ + count <=? Z.of_nat (length from))
  then Ret (take (Z.to_nat count) (drop (Z.to_nat at_) from)) else Throw Overrun.

Definition mem_store (into : list Z) (at_ : Z) (bs : list Z) : outcome (list Z) :=
  if (0 <=? at_) && (at_ + Z.of_nat (length bs) <=? Z.of_nat (length into))
  then Ret (store into (Z.to_nat at_) bs) else Throw Overrun.

Definition mem_getbytes (buff : list Z) (count : Z) (s : mem) : outcome (bool * list Z * mem) :=
  let bytecount := SLONG count in
  let handy := SLONG (x_handy s - bytecount) in
  if handy <? 0 then Ret (false, buff, mk_mem (x_base s) (x_private s) (SLONG (handy + bytecount)))
  else if negb (bytecount =? 0) then
    let* bs := mem_slice (x_base s) (x_private s) bytecount in
    let* buff := mem_store buff 0 bs in
    Ret (true, buff, mk_mem (x_base s) (x_private s + bytecount) handy)
  else Ret (true, buff, mk_mem (x_base s) (x_private s) handy).

Definition mem_getlong (s : mem) : outcome (option Z * mem) :=
  let handy := SLONG (x_handy s - 4) in
  if handy <? 0 then Ret (None, mk_mem (x_base s) (x_private s) (SLONG (handy + 4)))
  else
    let* bs := mem_slice (x_base s) (x_private s) 4 in
    Ret (Some (SLONG (be_value bs)), mk_mem (x_base s) (x_private s + 4) handy).

Definition mem_putbytes (buff : list Z) (count : Z) (s : mem) : outcome (bool * mem) :=
  let bytecount := SLONG count in
  let handy := SLONG (x_handy s - bytecount) in
  if handy <? 0 then Ret (false, mk_mem (x_base s) (x_private s) (SLONG (handy + bytecount)))
  else if negb (bytecount =? 0) then
    let* bs := mem_slice buff 0 bytecount in
    let* base := mem_store (x_base s) (x_private s) bs in
    Ret (true, mk_mem base (x_private s + bytecount) handy)
  else Ret (true, mk_mem (x_base s) (x_private s) handy).

Definition mem_putlong (lp : Z) (s : mem) : outcome (bool * mem) :=
  let handy := SLONG (x_handy s - 4) in
  if handy <? 0 then Ret (false, mk_mem (x_base s) (x_private s) (SLONG (handy + 4)))
  else
    let* base := mem_store (x_base s) (x_private s) (be_bytes 4 lp) in
    Ret (true, mk_mem base (x_private s + 4) handy).

Definition mem_getpostn (s : mem) : Z := ULONG (x_private s).

Definition mem_setpostn (bytecount : Z) (s : mem) : bool * mem :=
  let length := ULONG (x_private s + x_handy s) in
  if length <? bytecount then (false, s)
  else (true, mk_mem (x_base s) bytecount (SLONG (ULONG (length - bytecount)))).

Definition mem_inline (bytecount : Z) (s : mem) : option Z :=
  if ULONG (x_private s + x_handy s) <? bytecount then None else Some bytecount.

#[export] Instance mem_ops : xdr_ops mem := {
  x_getlong := mem_getlong;
  x_putlong := mem_putlong;
  x_getbytes := mem_getbytes;
  x_putbytes := mem_putbytes;
  x_getpostn := mem_getpostn;
  x_setpostn := mem_setpostn;
  x_inline := mem_inline
}.

(** ** What a stream promises its filters *)

Class XdrStream (St : Type) {ops : xdr_ops St} := {
  stream_ok : St -> Prop;
  written : St -> list Z;     (* the bytes put so far *)
  pending : St -> list Z;     (* the bytes still to get *)
  room : St -> Z;             (* how many bytes can be put *)
  putlong_law s v : stream_ok s ->
    (4 <= room s -> exists s', x_putlong v s = Ret (true, s') /\ stream_ok s' /\
       written s' = written s ++ be_bytes 4 v /\ room s' = room s - 4) /\
    (room s < 4 -> x_putlong v s = Ret (false, s));
  putbytes_law s buff count : stream_ok s ->
    0 <= count < 2147483648 -> count <= Z.of_nat (length buff) ->
    (count <= room s -> exists s', x_putbytes buff count s = Ret (true, s') /\ stream_ok s' /\
       written s' = written s ++ take (Z.to_nat count) buff /\ room s' = room s - count) /\
    (room s < count -> x_putbytes buff count s = Ret (false, s));
  getlong_law s : stream_ok s ->
    (4 <= Z.of_nat (length (pending s)) -> exists s',
       x_getlong s = Ret (Some (SLONG (be_value (take 4 (pending s)))), s') /\ stream_ok s' /\
       pending s' = drop 4 (pending s)) /\
    (Z.of_nat (length (pending s)) < 4 -> x_getlong s = Ret (None, s));
  getbytes_law s buff count : stream_ok s ->
    0 <= count < 2147483648 -> count <= Z.of_nat (length buff) ->
    (count <= Z.of_nat (length (pending s)) -> exists s',
       x_getbytes buff count s
       = Ret (true, take (Z.to_nat count) (pending s) ++ drop (Z.to_nat count) buff, s') /\
       stream_ok s' /\ pending s' = drop (Z.to_nat count) (pending s)) /\
    (Z.of_nat (length (pending s)) < count -> x_getbytes buff count s = Ret (false, buff, s))
}.

(** ** The memory stream keeps the promises *)

Definition mem_ok (s : mem) : Prop :=
  0 <= x_private s /\ 0 <= x_handy s < 2147483648 /\
  x_private s + x_handy s <= Z.of_nat (length (x_base s)).

Definition mem_written (s : mem) : list Z := take (Z.to_nat (x_private s)) (x_base s).
Definition mem_pending (s : mem) : list Z :=
  take (Z.to_nat (x_handy s)) (drop (Z.to_nat (x_private s)) (x_base s)).

Lemma length_mem_pending s : mem_ok s -> Z.of_nat (length (mem_pending s)) = x_handy s.
Proof.
  intros (H1 & H2 & H3). unfold mem_pending. rewrite length_take, length_drop. lia.
Qed.

Lemma mem_eta s : mk_mem (x_base s) (x_private s) (x_handy s) = s.
Proof. by destruct s. Qed.

(** A failed request leaves the stream as it was. *)
Lemma mem_refuse s count :
  mem_ok s -> 0 <= count < 2147483648 -> x_handy s < count ->
  (SLONG (x_handy s - count) <? 0) = true /\
  mk_mem (x_base s) (x_private s) (SLONG (SLONG (x_handy s - count) + count)) = s.
Proof.
  intros (H1 & H2 & H3) Hc Hlt. rewrite (SLONG_small (x_handy s - count)) by lia.
  rewrite SLONG_small by lia. split; [apply Z.ltb_lt; lia|].
  replace (x_handy s - count + count) with (x_handy s) by lia. apply mem_eta.
Qed.

Lemma mem_accept s count :
  mem_ok s -> 0 <= count <= x_handy s ->
  SLONG (x_handy s - count) = x_handy s - count /\ (x_handy s - count <? 0) = false.
Proof.
  intros (H1 & H2 & H3) Hc. rewrite SLONG_small by lia. split; [done|]. apply Z.ltb_ge. lia.
Qed.

Lemma mem_slice_ok from at_ count :
  0 <= at_ -> 0 <= count -> at_ + count <= Z.of_nat (length from) ->
  mem_slice from at_ count = Ret (take (Z.to_nat count) (drop (Z.to_nat at_) from)).
Proof.
  intros H1 H2 H3. unfold mem_slice.
  by rewrite !(proj2 (Z.leb_le _ _)) by lia.
Qed.

Lemma mem_store_ok into at_ bs :
  0 <= at_ -> at_ + Z.of_nat (length bs) <= Z.of_nat (length into) ->
  mem_store into at_ bs = Ret (store into (Z.to_nat at_) bs).
Proof. intros H1 H2. unfold mem_store. by rewrite !(proj2 (Z.leb_le _ _)) by lia. Qed.

(** The stream after [n] bytes were put at its position. *)
Lemma mem_put_state s bs :
  mem_ok s -> Z.of_nat (length bs) <= x_handy s ->
  let n := Z.of_nat (length bs) in
  let s' := mk_mem (store (x_base s) (Z.to_nat (x_private s)) bs) (x_private s + n) (x_handy s - n) in
  mem_ok s' /\ mem_written s' = mem_written s ++ bs.
Proof.
  intros (H1 & H2 & H3) Hn n s'. split.
  - unfold mem_ok, s', n. cbn [x_base x_private x_handy].
    rewrite length_store by lia. lia.
  - unfold mem_written, s'. cbn [x_base x_private]. unfold store.
    rewrite app_assoc, take_app_le by (rewrite length_app, length_take; lia).
    apply take_ge. rewrite length_app, length_take. lia.
Qed.

(** The stream after [n] bytes were got. *)
Lemma mem_get_state s n :
  mem_ok s -> 0 <= n <= x_handy s ->
  let s' := mk_mem (x_base s) (x_private s + n) (x_handy s - n) in
  mem_ok s' /\ mem_pending s' = drop (Z.to_nat n) (mem_pending s) /\
  take (Z.to_nat n) (drop (Z.to_nat (x_private s)) (x_base s)) = take (Z.to_nat n) (mem_pending s).
Proof.
  intros (H1 & H2 & H3) Hn s'. split_and!.
  - unfold mem_ok, s'. cbn [x_base x_private x_handy]. lia.
  - unfold mem_pending, s'. cbn [x_base x_private x_handy].
    rewrite skipn_firstn_comm, drop_drop. f_equal; [|f_equal]; lia.
  - unfold mem_pending. rewrite take_take. f_equal. lia.
Qed.

#[export, refine] Instance mem_stream : XdrStream mem := {
  stream_ok := mem_ok;
  written := mem_written;
  pending := mem_pending;
  room := x_handy
}.
Proof.
  - intros s v Hs. split; intros Hr.
    + cbn [x_putlong mem_ops]. unfold mem_putlong.
      destruct (mem_accept s 4 Hs ltac:(lia)) as [-> ->].
      destruct (mem_put_state s (be_bytes 4 v) Hs) as [Hok Hw]; [by rewrite length_be_bytes|].
      rewrite mem_store_ok by (destruct Hs as (? & ? & ?); rewrite ?length_be_bytes; lia).
      rewrite length_be_bytes in *. cbn [obind]. eexists. split_and!; eauto.
    + cbn [x_putlong mem_ops]. unfold mem_putlong.
      destruct (mem_refuse s 4 Hs ltac:(lia) Hr) as [-> ->]. done.
  - intros s buff count Hs Hc Hb. split; intros Hr; cbn [x_putbytes mem_ops]; unfold mem_putbytes;
      rewrite (SLONG_small count) by lia.
    + destruct (mem_accept s count Hs ltac:(lia)) as [-> ->].
      destruct (Z.eqb_spec count 0) as [->|Hn]; cbn [negb].
      { exists s. rewrite Z.sub_0_r, mem_eta. rewrite take_0, app_nil_r. done. }
      rewrite mem_slice_ok by lia. cbn [obind]. rewrite drop_0.
      assert (Hl : Z.of_nat (length (take (Z.to_nat count) buff)) = count)
        by (rewrite length_take; lia).
      destruct (mem_put_state s (take (Z.to_nat count) buff) Hs) as [Hok Hw]; [lia|].
      rewrite mem_store_ok by (destruct Hs as (? & ? & ?); lia).
      rewrite Hl in *. cbn [obind]. eexists. split_and!; eauto.
    + destruct (mem_refuse s count Hs ltac:(lia) Hr) as [-> ->]. done.
  - intros s Hs. rewrite (length_mem_pending s Hs). split; intros Hr; cbn [x_getlong mem_ops];
      unfold mem_getlong.
    + destruct (mem_accept s 4 Hs ltac:(lia)) as [-> ->].
      rewrite mem_slice_ok by (destruct Hs as (? & ? & ?); lia). cbn [obind].
      destruct (mem_get_state s 4 Hs ltac:(lia)) as (Hok & Hp & ->). eauto.
    + destruct (mem_refuse s 4 Hs ltac:(lia) Hr) as [-> ->]. done.
  - intros s buff count Hs Hc Hb. rewrite (length_mem_pending s Hs).
    split; intros Hr; cbn [x_getbytes mem_ops]; unfold mem_getbytes;
      rewrite (SLONG_small count) by lia.
    + destruct (mem_accept s count Hs ltac:(lia)) as [-> ->].
      destruct (Z.eqb_spec count 0) as [->|Hn]; cbn [negb].
      { exists s. rewrite Z.sub_0_r, mem_eta. done. }
      rewrite mem_slice_ok by (destruct Hs as (? & ? & ?); lia). cbn [obind].
      destruct (mem_get_state s count Hs ltac:(lia)) as (Hok & Hp & ->).
      assert (Hl : length (take (Z.to_nat count) (mem_pending s)) = Z.to_nat count)
        by (pose proof (length_mem_pending s Hs); rewrite length_take; lia).
      rewrite mem_store_ok by (rewrite ?Hl; lia). cbn [obind]. unfold store.
      rewrite Hl. eexists. split_and!; eauto.
    + destruct (mem_refuse s count Hs ltac:(lia) Hr) as [-> ->]. done.
Defined.

(** ** Codecs

    A filter that writes [wire v] for every valid [v] and reads it back, into
    any object that [into] admits; when there is not enough room, or not
    enough input, it fails and leaves a usable stream. *)

Definition slong (z : Z) : Prop := -2147483648 <= z < 2147483648.

Lemma be_bytes_SLONG z : be_bytes 4 (SLONG z) = be_bytes 4 z.
Proof.
  unfold be_bytes. f_equal. rewrite <-(le_bytes_mod 4 (SLONG z)), <-(le_bytes_mod 4 z).
  change (2 ^ (8 * Z.of_nat 4)) with 4294967296. f_equal. machine_lia.
Qed.

Lemma SLONG_be_bytes z : SLONG (be_value (be_bytes 4 z)) = SLONG z.
Proof.
  rewrite be_value_be_bytes. change (2 ^ (8 * Z.of_nat 4)) with 4294967296. machine_lia.
Qed.

Lemma padding_spec n : 0 <= n -> 0 <= padding n < 4 /\ (n + padding n) mod 4 = 0.
Proof.
  intros Hn. unfold padding. change 3 with (2 ^ 2 - 1). rewrite land_low by lia.
  change (2 ^ 2) with 4. Z.to_euclidean_division_equations; lia.
Qed.

Section codecs.
Context {St : Type} {ops : xdr_ops St} {laws : XdrStream St}.

Record codec {A} (f : filter St A) (valid into : A -> Prop) (wire : A -> list Z) : Prop := {
  encode_ok v s : valid v -> stream_ok s -> Z.of_nat (length (wire v)) <= room s ->
    exists s', f XDR_ENCODE v s = Ret (true, v, s') /\ stream_ok s' /\
      written s' = written s ++ wire v /\ room s' = room s - Z.of_nat (length (wire v));
  encode_full v s : valid v -> stream_ok s -> room s < Z.of_nat (length (wire v)) ->
    exists s', f XDR_ENCODE v s = Ret (false, v, s') /\ stream_ok s';
  decode_ok v old s rest : valid v -> into old -> stream_ok s -> pending s = wire v ++ rest ->
    exists s', f XDR_DECODE old s = Ret (true, v, s') /\ stream_ok s' /\ pending s' = rest;
  decode_short v old s n : valid v -> into old -> stream_ok s ->
    (n < length (wire v))%nat -> pending s = take n (wire v) ->
    exists old' s', f XDR_DECODE old s = Ret (false, old', s') /\ stream_ok s'
}.

(** The laws in the form the filters use. *)
Lemma putlong_room s v :
  stream_ok s -> 4 <= room s -> exists s', x_putlong v s = Ret (true, s') /\ stream_ok s' /\
       written s' = written s ++ be_bytes 4 v /\ room s' = room s - 4.
Proof. intros Hs Hr. by apply putlong_law. Qed.

Lemma putlong_full s v : stream_ok s -> room s < 4 -> x_putlong v s = Ret (false, s).
Proof. intros Hs Hr. by apply putlong_law. Qed.

Lemma getlong_next s v rest :
  stream_ok s -> pending s = be_bytes 4 v ++ rest ->
  exists s', x_getlong s = Ret (Some (SLONG v), s') /\ stream_ok s' /\ pending s' = rest.
Proof.
  intros Hs Hp. destruct (getlong_law s Hs) as [H _].
  destruct H as (s' & E & Hs' & Hp'); [rewrite Hp, length_app, length_be_bytes; lia|].
  exists s'. rewrite E, Hp, take_app_length' by (by rewrite length_be_bytes).
  rewrite SLONG_be_bytes.
  split_and!; auto. rewrite Hp', Hp. apply drop_app_length'. by rewrite length_be_bytes.
Qed.

Lemma getlong_short s : stream_ok s -> (length (pending s) < 4)%nat -> x_getlong s = Ret (None, s).
Proof. intros Hs Hp. apply getlong_law; [done|lia]. Qed.

Lemma length_wire_long v : Z.of_nat (length (be_bytes 4 v)) = 4.
Proof. by rewrite length_be_bytes. Qed.

Lemma via_long_codec to from (valid : Z -> Prop) :
  (forall v, valid v -> from (SLONG (to v)) = v) ->
  codec (via_long to from) valid (fun _ => True) (fun v => be_bytes 4 (to v)).
Proof.
  intros Hft. split.
  - intros v s Hv Hs. rewrite length_wire_long. intros Hr.
    destruct (putlong_room s (to v) Hs Hr) as (s' & E & H). exists s'. unfold via_long.
    rewrite E. cbn [obind]. tauto.
  - intros v s Hv Hs. rewrite length_wire_long. intros Hr. exists s. unfold via_long.
    by rewrite putlong_full.
  - intros v old s rest Hv _ Hs Hp. destruct (getlong_next s _ rest Hs Hp) as (s' & E & H).
    exists s'. unfold via_long. rewrite E. cbn [obind]. by rewrite Hft.
  - intros v old s n Hv _ Hs Hn Hp. exists old, s. unfold via_long.
    rewrite getlong_short; [done|done|]. rewrite Hp, length_take. rewrite length_be_bytes in *. lia.
Qed.

Lemma via_two_longs_codec join (valid : Z -> Prop) :
  (forall v, valid v -> join (SLONG (Z.shiftr v 32)) (SLONG v) = v) ->
  codec (via_two_longs join) valid (fun _ => True)
    (fun v => be_bytes 4 (Z.shiftr v 32) ++ be_bytes 4 v).
Proof.
  intros Hj. assert (Hlen : forall v : Z,
    length (be_bytes 4 (Z.shiftr v 32) ++ be_bytes 4 v) = 8%nat)
    by (intros v; by rewrite length_app, !length_be_bytes).
  split.
  - intros v s Hv Hs. rewrite Hlen. intros Hr.
    destruct (putlong_room s (SLONG (Z.shiftr v 32)) Hs ltac:(lia)) as (s1 & E1 & Hs1 & W1 & R1).
    destruct (putlong_room s1 (SLONG v) Hs1 ltac:(lia)) as (s2 & E2 & Hs2 & W2 & R2).
    exists s2. unfold via_two_longs. rewrite E1. cbn [obind negb]. rewrite E2. cbn [obind].
    rewrite W2, W1, !be_bytes_SLONG, <-app_assoc. split_and!; auto. lia.
  - intros v s Hv Hs. rewrite Hlen. intros Hr. unfold via_two_longs.
    destruct (Z.ltb_spec (room s) 4) as [Hr4|Hr4].
    + exists s. rewrite putlong_full by done. done.
    + destruct (putlong_room s (SLONG (Z.shiftr v 32)) Hs ltac:(lia)) as (s1 & E1 & Hs1 & W1 & R1).
      exists s1. rewrite E1. cbn [obind negb]. rewrite putlong_full by (done || lia). done.
  - intros v old s rest Hv _ Hs Hp. rewrite <-app_assoc in Hp.
    destruct (getlong_next s _ _ Hs Hp) as (s1 & E1 & Hs1 & P1).
    destruct (getlong_next s1 _ _ Hs1 P1) as (s2 & E2 & Hs2 & P2).
    exists s2. unfold via_two_longs. rewrite E1. cbn [obind]. rewrite E2. cbn [obind].
    by rewrite Hj.
  - intros v old s n Hv _ Hs Hn Hp. rewrite Hlen in Hn. exists old. unfold via_two_longs.
    destruct (Nat.ltb_spec n 4) as [H4|H4].
    + exists s. rewrite getlong_short; [done|done|]. rewrite Hp, length_take. lia.
    + rewrite take_app_ge in Hp by (rewrite length_be_bytes; lia).
      destruct (getlong_next s _ _ Hs Hp) as (s1 & E1 & Hs1 & P1).
      exists s1. rewrite E1. cbn [obind]. rewrite getlong_short; [done|done|].
      rewrite P1, length_take, length_be_bytes. lia.
Qed.

(** Bytes followed by their padding. *)
Definition wire_padded (trash bs : list Z) : list Z :=
  bs ++ take (Z.to_nat (padding (Z.of_nat (length bs)))) trash.

Lemma length_wire_padded trash bs :
  length trash = 4%nat ->
  Z.of_nat (length (wire_padded trash bs))
  = Z.of_nat (length bs) + padding (Z.of_nat (length bs)).
Proof.
  intros Ht. unfold wire_padded. destruct (padding_spec (Z.of_nat (length bs)) ltac:(lia)) as [H _].
  rewrite length_app, length_take. lia.
Qed.

(** Putting and getting bytes and their padding, as three filters do. *)
Definition put_padded (buf trash : list Z) (len : Z) (s : St) : outcome (bool * St) :=
  let* (ok, s) := x_putbytes buf len s in
  if negb ok then Ret (false, s)
  else if negb (padding len =? 0) then x_putbytes trash (padding len) s else Ret (true, s).

Definition get_padded (buf trash : list Z) (len : Z) (s : St) : outcome (bool * list Z * list Z * St) :=
  let* (ok, buf, s) := x_getbytes buf len s in
  if negb ok then Ret (false, buf, trash, s)
  else if negb (padding len =? 0) then
    let* (ok, trash, s) := x_getbytes trash (padding len) s in Ret (ok, buf, trash, s)
  else Ret (true, buf, trash, s).

Lemma put_padded_spec buf trash len s :
  stream_ok s -> length trash = 4%nat -> 0 <= len < 2147483648 -> len <= Z.of_nat (length buf) ->
  let w := wire_padded trash (take (Z.to_nat len) buf) in
  exists ok s', put_padded buf trash len s = Ret (ok, s') /\ stream_ok s' /\
    ok = (len + padding len <=? room s) /\
    (ok = true -> written s' = written s ++ w /\ room s' = room s - (len + padding len)).
Proof.
  intros Hs Ht Hl Hb w. destruct (padding_spec len ltac:(lia)) as [Hp _].
  assert (Elen : Z.of_nat (length (take (Z.to_nat len) buf)) = len) by (rewrite length_take; lia).
  unfold put_padded. destruct (putbytes_law s buf len Hs Hl Hb) as [H1 H2].
  destruct (Z.leb_spec len (room s)) as [Hr|Hr].
  - destruct H1 as (s1 & -> & Hs1 & W1 & R1); [done|]. cbn [obind negb].
    destruct (Z.eqb_spec (padding len) 0) as [H0|H0]; cbn [negb].
    + exists true, s1. split_and!; auto; [symmetry; apply Z.leb_le; lia|].
      intros _. split; [|lia]. unfold w, wire_padded. by rewrite Elen, H0, take_0, app_nil_r.
    + destruct (putbytes_law s1 trash (padding len) Hs1 ltac:(lia) ltac:(lia)) as [H3 H4].
      destruct (Z.leb_spec (padding len) (room s1)) as [Hr'|Hr'].
      * destruct H3 as (s2 & -> & Hs2 & W2 & R2); [done|]. exists true, s2.
        split_and!; auto; [symmetry; apply Z.leb_le; lia|]. intros _. split; [|lia].
        unfold w, wire_padded. by rewrite Elen, W2, W1, <-app_assoc.
      * rewrite H4 by done. exists false, s1. split_and!; auto; [|done].
        symmetry. apply Z.leb_gt. lia.
  - rewrite H2 by done. exists false, s. split_and!; auto; [|done]. symmetry. apply Z.leb_gt. lia.
Qed.

(** Whatever is pending, getting a block within the buffers is safe. *)
Lemma get_padded_spec buf trash len s :
  stream_ok s -> length trash = 4%nat -> 0 <= len < 2147483648 -> len <= Z.of_nat (length buf) ->
  exists ok buf' trash' s', get_padded buf trash len s = Ret (ok, buf', trash', s') /\
    stream_ok s' /\ length buf' = length buf /\ length trash' = 4%nat /\
    ok = (len + padding len <=? Z.of_nat (length (pending s))) /\
    (ok = true -> buf' = take (Z.to_nat len) (pending s) ++ drop (Z.to_nat len) buf /\
       trash' = take (Z.to_nat (padding len)) (drop (Z.to_nat len) (pending s))
                ++ drop (Z.to_nat (padding len)) trash /\
       pending s' = drop (Z.to_nat (len + padding len)) (pending s)).
Proof.
  intros Hs Ht Hl Hb. destruct (padding_spec len ltac:(lia)) as [Hp _].
  unfold get_padded. destruct (getbytes_law s buf len Hs Hl Hb) as [H1 H2].
  set (P := Z.of_nat (length (pending s))) in *.
  destruct (Z.leb_spec len P) as [Hr|Hr].
  - destruct H1 as (s1 & -> & Hs1 & P1); [done|]. cbn [obind negb].
    set (buf' := take _ _ ++ _).
    assert (Hbuf' : length buf' = length buf)
      by (unfold buf'; rewrite length_app, length_take, length_drop; lia).
    assert (HP1 : Z.of_nat (length (pending s1)) = P - len) by (rewrite P1, length_drop; lia).
    destruct (Z.eqb_spec (padding len) 0) as [H0|H0]; cbn [negb].
    + exists true, buf', trash, s1. split_and!; auto; [symmetry; apply Z.leb_le; lia|].
      intros _. rewrite H0, Z.add_0_r. auto.
    + destruct (getbytes_law s1 trash (padding len) Hs1 ltac:(lia) ltac:(lia)) as [H3 H4].
      destruct (Z.leb_spec (padding len) (P - len)) as [Hr'|Hr'].
      * destruct H3 as (s2 & -> & Hs2 & P2); [lia|]. cbn [obind].
        eexists true, buf', _, s2.
        split_and!; eauto; [rewrite length_app, length_take, length_drop; lia
          |symmetry; apply Z.leb_le; lia|]. intros _.
        rewrite P2, P1, drop_drop. split_and!; auto. f_equal. lia.
      * rewrite H4 by lia. cbn [obind]. exists false, buf', trash, s1. split_and!; auto; [|done].
        symmetry. apply Z.leb_gt. lia.
  - rewrite H2 by lia. exists false, buf, trash, s. split_and!; auto; [|done].
    symmetry. apply Z.leb_gt. lia.
Qed.

(** The three filters in terms of these. *)
Lemma xdr_opaque_put trash len p s :
  xdr_opaque trash len XDR_ENCODE p s = let* (ok, s) := put_padded p trash len s in Ret (ok, p, s).
Proof.
  unfold xdr_opaque, put_padded. destruct (x_putbytes p len s) as [[[] s1]|f]; [|done|done].
  cbn [obind negb]. by destruct (negb _).
Qed.

Lemma xdr_opaque_get trash len p s :
  xdr_opaque trash len XDR_DECODE p s
  = let* (ok, p, _, s) := get_padded p trash len s in Ret (ok, p, s).
Proof.
  unfold xdr_opaque, get_padded. destruct (x_getbytes p len s) as [[[[] p1] s1]|f]; [|done|done].
  cbn [obind negb]. destruct (negb _); [|done]. by destruct (x_getbytes _ _ _) as [[[? ?] ?]|].
Qed.

Lemma xdr_opaque_codec trash len :
  length trash = 4%nat -> 0 <= len < 2147483648 ->
  codec (xdr_opaque trash len) (fun p => Z.of_nat (length p) = len)
    (fun p => Z.of_nat (length p) = len) (wire_padded trash).
Proof.
  intros Ht Hl. destruct (padding_spec len ltac:(lia)) as [Hp _].
  assert (Htake : forall p : list Z, Z.of_nat (length p) = len -> take (Z.to_nat len) p = p)
    by (intros p E; apply take_ge; lia).
  split.
  - intros p s E Hs. rewrite length_wire_padded, E by done. intros Hr.
    rewrite xdr_opaque_put. destruct (put_padded_spec p trash len s Hs Ht Hl ltac:(lia))
      as (ok & s' & -> & Hs' & Hok & H).
    rewrite (proj2 (Z.leb_le _ _) Hr) in Hok. subst ok. rewrite Htake in H by done.
    destruct (H eq_refl) as [W R]. cbn [obind]. eauto.
  - intros p s E Hs. rewrite length_wire_padded, E by done. intros Hr.
    rewrite xdr_opaque_put. destruct (put_padded_spec p trash len s Hs Ht Hl ltac:(lia))
      as (ok & s' & -> & Hs' & Hok & _).
    rewrite (proj2 (Z.leb_gt _ _) Hr) in Hok. subst ok. cbn [obind]. eauto.
  - intros p old s rest E Eold Hs P. rewrite xdr_opaque_get.
    destruct (get_padded_spec old trash len s Hs Ht Hl ltac:(lia))
      as (ok & p' & t' & s' & -> & Hs' & _ & _ & Hok & H).
    pose proof (length_wire_padded trash p Ht) as Hw. rewrite E in Hw.
    rewrite (proj2 (Z.leb_le _ _)) in Hok by (rewrite P, length_app; lia). subst ok.
    destruct (H eq_refl) as (-> & _ & P'). cbn [obind]. exists s'.
    rewrite P', P, drop_app_length' by lia. split_and!; auto.
    do 3 f_equal. unfold wire_padded. rewrite <-app_assoc, take_app_length', drop_ge by lia.
    apply app_nil_r.
  - intros p old s n E Eold Hs Hn P. rewrite xdr_opaque_get.
    destruct (get_padded_spec old trash len s Hs Ht Hl ltac:(lia))
      as (ok & p' & t' & s' & -> & Hs' & _ & _ & Hok & _).
    pose proof (length_wire_padded trash p Ht) as Hw. rewrite E in Hw.
    rewrite (proj2 (Z.leb_gt _ _)) in Hok by (rewrite P, length_take; lia). subst ok.
    cbn [obind]. eauto.
Qed.

(** ** Strings *)

Lemma strlen_app str rest : Forall (fun b => b <> 0) str -> strlen (str ++ 0 :: rest) = Ret (length str).
Proof.
  induction 1 as [|b str Hb _ IH]; [done|]. cbn [app strlen length].
  rewrite (proj2 (Z.eqb_neq _ _) Hb), IH. done.
Qed.

Definition wire_string (trash str : list Z) : list Z :=
  be_bytes 4 (Z.of_nat (length str)) ++ wire_padded trash str.

(** What a string pointer may be when a string is decoded: null, or an area
    for [maxlength] bytes and the terminating zero. *)
Definition string_area (maxlength : Z) (sp : option (list Z)) : Prop :=
  match sp with None => True | Some buf => maxlength < Z.of_nat (length buf) end.

Definition area (fresh : Z -> list Z) (maxlength : Z) (sp : option (list Z)) : list Z :=
  match sp with Some buf => buf | None => fresh (ULONG (maxlength + 1)) end.

Definition c_string (str : list Z) (sp : option (list Z)) : Prop :=
  exists tail, sp = Some (str ++ 0 :: tail).

Variable fresh : Z -> list Z.
Variable trash : list Z.
Variable maxlength : Z.
Hypothesis length_fresh : forall n, 0 <= n -> Z.of_nat (length (fresh n)) = n.
Hypothesis length_trash : length trash = 4%nat.
Hypothesis max_range : 0 <= maxlength < 2147483647.

Lemma length_area sp : string_area maxlength sp -> maxlength < Z.of_nat (length (area fresh maxlength sp)).
Proof.
  destruct sp as [buf|]; [done|]. intros _. cbn [area].
  rewrite length_fresh; unfold ULONG, wrap_u; rewrite Z.mod_small; lia.
Qed.

Lemma xdr_string_put str tail s :
  Forall (fun b => b <> 0) str -> Z.of_nat (length str) <= maxlength ->
  xdr_string fresh trash maxlength XDR_ENCODE (Some (str ++ 0 :: tail)) s
  = let* (ok, s) := x_putlong (Z.of_nat (length str)) s in
    if negb ok then Ret (false, Some (str ++ 0 :: tail), s)
    else let* (ok, s) := put_padded (str ++ 0 :: tail) trash (Z.of_nat (length str)) s in
         Ret (ok, Some (str ++ 0 :: tail), s).
Proof.
  intros Hz Hm. unfold xdr_string, put_padded. rewrite strlen_app by done. cbn [obind].
  rewrite SLONG_small by lia.
  assert (E : ULONG (Z.of_nat (length str)) = Z.of_nat (length str)) by (machine_lia).
  rewrite E, (proj2 (Z.ltb_ge _ _)) by lia.
  destruct (x_putlong _ s) as [[[] s1]|f]; [|done|done]. cbn [obind negb].
  destruct (x_putbytes _ _ s1) as [[[] s2]|f]; [|done|done]. cbn [obind negb].
  by destruct (negb _).
Qed.

(** Decoding once the length is known: a length outside the limit, negative
    ones included, is refused; the area is never left. *)
Lemma xdr_string_get sp s s1 v :
  x_getlong s = Ret (Some v, s1) -> stream_ok s1 -> string_area maxlength sp -> slong v ->
  exists ok sp' s', xdr_string fresh trash maxlength XDR_DECODE sp s = Ret (ok, sp', s') /\
    stream_ok s' /\ string_area maxlength sp' /\
    ok = (0 <=? v) && (v <=? maxlength) && (v + padding v <=? Z.of_nat (length (pending s1))) /\
    (ok = true ->
     sp' = Some (take (Z.to_nat v) (pending s1)
                 ++ 0 :: drop (S (Z.to_nat v)) (area fresh maxlength sp)) /\
     pending s' = drop (Z.to_nat (v + padding v)) (pending s1)).
Proof.
  intros Hg Hs1 Ha Hv. unfold slong in Hv. pose proof (length_area sp Ha) as Hl.
  unfold xdr_string. fold (area fresh maxlength sp). rewrite Hg. cbn [obind].
  set (buf := area fresh maxlength sp) in *.
  destruct (Z.leb_spec 0 v) as [H0|H0]; cbn [andb].
  2:{ rewrite (proj2 (Z.ltb_lt _ _)) by machine_lia.
      exists false, (Some buf), s1. split_and!; auto; done. }
  assert (E : ULONG v = v) by machine_lia. rewrite E.
  destruct (Z.leb_spec v maxlength) as [H1|H1]; cbn [andb].
  2:{ rewrite (proj2 (Z.ltb_lt _ _)) by lia. exists false, (Some buf), s1. split_and!; auto; done. }
  rewrite (proj2 (Z.ltb_ge _ _)) by lia. destruct (padding_spec v H0) as [Hp _].
  destruct (getbytes_law s1 buf v Hs1 ltac:(lia) ltac:(lia)) as [B1 B2].
  destruct (Z.leb_spec v (Z.of_nat (length (pending s1)))) as [H2|H2].
  2:{ rewrite B2 by lia. cbn [obind negb]. rewrite (proj2 (Z.leb_gt _ _)) by lia.
      exists false, (Some buf), s1. split_and!; auto; done. }
  destruct (B1 H2) as (s2 & -> & Hs2 & P2). cbn [obind negb].
  set (front := take (Z.to_nat v) (pending s1)).
  assert (Hf : length front = Z.to_nat v) by (unfold front; rewrite length_take; lia).
  destruct (lookup_lt_is_Some_2 buf (Z.to_nat v) ltac:(lia)) as [x Hx].
  rewrite (drop_S _ _ _ Hx).
  assert (Hbuf : length (front ++ x :: drop (S (Z.to_nat v)) buf) = length buf)
    by (rewrite length_app, Hf; cbn [length]; rewrite length_drop; lia).
  rewrite Hbuf, (proj2 (Z.ltb_lt _ _)) by lia. cbn [negb andb].
  rewrite insert_app_r_alt, Hf, Nat.sub_diag by lia. cbn [insert list_insert].
  set (buf' := front ++ 0 :: drop (S (Z.to_nat v)) buf).
  assert (Hbuf' : maxlength < Z.of_nat (length buf'))
    by (unfold buf'; rewrite length_app in *; cbn [length] in *; lia).
  assert (HP2 : Z.of_nat (length (pending s2)) = Z.of_nat (length (pending s1)) - v)
    by (rewrite P2, length_drop; lia).
  destruct (Z.eqb_spec (padding v) 0) as [H3|H3]; cbn [negb].
  { rewrite (proj2 (Z.leb_le _ _)) by lia. exists true, (Some buf'), s2.
    split_and!; auto. intros _. by rewrite H3, Z.add_0_r. }
  destruct (getbytes_law s2 trash (padding v) Hs2 ltac:(lia) ltac:(lia)) as [C1 C2].
  destruct (Z.leb_spec (v + padding v) (Z.of_nat (length (pending s1)))) as [H4|H4].
  - destruct C1 as (s3 & -> & Hs3 & P3); [lia|]. cbn [obind]. exists true, (Some buf'), s3.
    split_and!; auto. intros _. split; [done|]. rewrite P3, P2, drop_drop. f_equal. lia.
  - rewrite C2 by lia. cbn [obind]. exists false, (Some buf'), s2. split_and!; auto. done.
Qed.

(** Strings survive encoding and decoding through any stream: the
    external form is the length, the bytes and padding to a multiple of four;
    decoding into a null pointer or an area of more than [maxlength] bytes
    yields the string with its terminating zero and consumes exactly that. *)
Theorem xdr_string_roundtrip str sp s sp' s' rest :
  Forall (fun b => b <> 0) str -> Z.of_nat (length str) <= maxlength ->
  c_string str sp -> stream_ok s -> Z.of_nat (length (wire_string trash str)) <= room s ->
  string_area maxlength sp' -> stream_ok s' -> pending s' = wire_string trash str ++ rest ->
  Z.of_nat (length (wire_string trash str)) mod 4 = 0 /\
  (exists s1, xdr_string fresh trash maxlength XDR_ENCODE sp s = Ret (true, sp, s1) /\
     written s1 = written s ++ wire_string trash str) /\
  (exists sp1 s1, xdr_string fresh trash maxlength XDR_DECODE sp' s' = Ret (true, sp1, s1) /\
     c_string str sp1 /\ pending s1 = rest).
Proof.
  intros Hz Hm [tail ->] Hs Hr Ha Hs' Hp. unfold wire_string in *.
  destruct (padding_spec (Z.of_nat (length str)) ltac:(lia)) as [Hpad Hmod].
  rewrite length_app, length_be_bytes in *.
  pose proof (length_wire_padded trash str length_trash) as Hw.
  split_and!.
  - rewrite Nat2Z.inj_add, Hw. Z.to_euclidean_division_equations; lia.
  - rewrite xdr_string_put by done.
    destruct (putlong_room s (Z.of_nat (length str)) Hs ltac:(lia)) as (s1 & -> & Hs1 & W1 & R1).
    cbn [obind negb].
    destruct (put_padded_spec (str ++ 0 :: tail) trash (Z.of_nat (length str)) s1)
      as (ok & s2 & -> & Hs2 & Hok & H); auto; try lia.
    { rewrite length_app. lia. }
    rewrite (proj2 (Z.leb_le _ _)) in Hok by lia. subst ok. destruct (H eq_refl) as [W2 _].
    cbn [obind]. exists s2. split; [done|].
    by rewrite W2, W1, Nat2Z.id, take_app_length, <-app_assoc.
  - rewrite <-app_assoc in Hp.
    destruct (getlong_next s' _ _ Hs' Hp) as (s1 & E1 & Hs1 & P1). rewrite SLONG_small in E1 by lia.
    destruct (xdr_string_get sp' s' s1 _ E1 Hs1 Ha) as (ok & sp1 & s2 & E2 & Hs2 & _ & Hok & H);
      [unfold slong; lia|].
    rewrite P1, length_app in *. rewrite !(proj2 (Z.leb_le _ _)) in Hok by lia. subst ok.
    destruct (H eq_refl) as [-> P2]. eexists; exists s2. split_and!; [exact E2| |].
    + unfold wire_padded. eexists. rewrite Nat2Z.id, <-app_assoc, take_app_length. done.
    + rewrite P2. apply drop_app_length'. lia.
Qed.

(** C35: Decoding a string is safe on any input: it never leaves its area,
    whatever length the stream announces, and when it succeeds the area holds
    a string of at most [maxlength] bytes and its terminating zero. *)
Theorem xdr_string_safe sp s :
  string_area maxlength sp -> stream_ok s ->
  exists ok sp' s', xdr_string fresh trash maxlength XDR_DECODE sp s = Ret (ok, sp', s') /\
    stream_ok s' /\ string_area maxlength sp' /\
    (ok = true -> exists str tail, sp' = Some (str ++ 0 :: tail) /\
       Z.of_nat (length str) <= maxlength).
Proof.
  intros Ha Hs. destruct (getlong_law s Hs) as [G1 G2].
  destruct (Z.leb_spec 4 (Z.of_nat (length (pending s)))) as [H4|H4].
  - destruct (G1 H4) as (s1 & E1 & Hs1 & P1). set (v := SLONG _) in *.
    destruct (xdr_string_get sp s s1 v E1 Hs1 Ha) as (ok & sp' & s' & E & Hs' & Ha' & Hok & H);
      [unfold slong, v; machine_lia|].
    exists ok, sp', s'. split_and!; auto. intros ->. symmetry in Hok. bool_hyps.
    destruct (H eq_refl) as [-> _]. eexists _, _. split; [done|]. rewrite length_take. lia.
  - unfold xdr_string. rewrite G2 by done. cbn [obind]. fold (area fresh maxlength sp).
    exists false, (Some (area fresh maxlength sp)), s. split_and!; auto; [|done].
    by apply length_area.
Qed.

End codecs.

(** ** Unions *)

(** The arm a discriminant selects. *)
Definition arm {St U} (choices : list (Z * filter St U)) (dfault : option (filter St U)) (d : Z)
    : option (filter St U) :=
  match list_find (fun choice => choice.1 = d) choices with
  | Some (_, (_, proc)) => Some proc
  | None => dfault
  end.

Lemma xdr_union_eq {St U} {ops : xdr_ops St} (choices : list (Z * filter St U)) dfault op obj s :
  xdr_union choices dfault op obj s
  = let* (bOK, d, s) := xdr_int op obj.1 s in
    if negb bOK then Ret (false, (d, obj.2), s)
    else match arm choices dfault d with
         | Some proc => let* (ok, u, s) := proc op obj.2 s in Ret (ok, (d, u), s)
         | None => Ret (false, (d, obj.2), s)
         end.
Proof.
  unfold xdr_union, arm. destruct (xdr_int op obj.1 s) as [[[b d] s1]|f]; [|done].
  cbn [obind]. destruct (negb b); [done|].
  by destruct (list_find _ choices) as [[? [? ?]]|], dfault.
Qed.

Lemma xdr_int_codec {St} {ops : xdr_ops St} {laws : XdrStream St} :
  codec (xdr_int (St := St)) slong (fun _ => True) (fun v => be_bytes 4 v).
Proof. apply (via_long_codec id id). intros v Hv. by apply SLONG_small. Qed.

(** A union is carried as its discriminant followed by the arm it
    selects: if the selected filter is a codec, so is the union; and where no
    arm is selected nothing but the discriminant is exchanged and the filter
    fails. *)
Theorem xdr_union_codec {St U} {ops : xdr_ops St} {laws : XdrStream St}
    (choices : list (Z * filter St U)) dfault d :
  slong d ->
  match arm choices dfault d with
  | Some proc => forall valid into wire, codec proc valid into wire ->
      codec (xdr_union choices dfault) (fun o => o.1 = d /\ valid o.2) (fun o => into o.2)
        (fun o => be_bytes 4 o.1 ++ wire o.2)
  | None => forall u s, stream_ok s -> 4 <= room s -> exists s',
      xdr_union choices dfault XDR_ENCODE (d, u) s = Ret (false, (d, u), s') /\
      written s' = written s ++ be_bytes 4 d
  end.
Proof.
  intros Hd. pose proof (xdr_int_codec (St := St)) as [I1 I2 I3 I4].
  destruct (arm choices dfault d) as [proc|] eqn:Harm.
  - intros valid into wire [P1 P2 P3 P4]. split.
    + intros [d' u] s [Ed Hv] Hs. cbn [fst snd] in *. subst d'. rewrite length_app.
      intros Hr. rewrite xdr_union_eq. cbn [fst snd].
      destruct (I1 d s Hd Hs ltac:(lia)) as (s1 & -> & Hs1 & W1 & R1). cbn [obind negb].
      rewrite Harm. destruct (P1 u s1 Hv Hs1 ltac:(lia)) as (s2 & -> & Hs2 & W2 & R2).
      cbn [obind]. exists s2. rewrite W2, W1, <-app_assoc. split_and!; auto. lia.
    + intros [d' u] s [Ed Hv] Hs. cbn [fst snd] in *. subst d'. rewrite length_app.
      intros Hr. rewrite xdr_union_eq. cbn [fst snd].
      destruct (Z.ltb_spec (room s) (Z.of_nat (length (be_bytes 4 d)))) as [H4|H4].
      * destruct (I2 d s Hd Hs H4) as (s1 & -> & Hs1). cbn [obind negb]. eauto.
      * destruct (I1 d s Hd Hs H4) as (s1 & -> & Hs1 & W1 & R1). cbn [obind negb]. rewrite Harm.
        destruct (P2 u s1 Hv Hs1 ltac:(lia)) as (s2 & -> & Hs2). cbn [obind]. eauto.
    + intros [d' u] [d0 u0] s rest [Ed Hv] Hi Hs Hp. cbn [fst snd] in *. subst d'.
      rewrite <-app_assoc in Hp. rewrite xdr_union_eq. cbn [fst snd].
      destruct (I3 d d0 s _ Hd I Hs Hp) as (s1 & -> & Hs1 & Hp1). cbn [obind negb]. rewrite Harm.
      destruct (P3 u u0 s1 rest Hv Hi Hs1 Hp1) as (s2 & -> & Hs2 & Hp2). cbn [obind]. eauto.
    + intros [d' u] [d0 u0] s n [Ed Hv] Hi Hs Hn Hp. cbn [fst snd] in *. subst d'.
      rewrite xdr_union_eq. cbn [fst snd]. rewrite length_app in Hn.
      destruct (Nat.ltb_spec n (length (be_bytes 4 d))) as [H4|H4].
      * rewrite take_app_le in Hp by lia.
        destruct (I4 d d0 s n Hd I Hs H4 Hp) as (d1 & s1 & -> & Hs1). cbn [obind negb]. eauto.
      * rewrite take_app_ge in Hp by lia.
        destruct (I3 d d0 s _ Hd I Hs Hp) as (s1 & -> & Hs1 & Hp1). cbn [obind negb]. rewrite Harm.
        destruct (P4 u u0 s1 (n - length (be_bytes 4 d))%nat Hv Hi Hs1 ltac:(lia) Hp1) as (u1 & s2 & -> & Hs2).
        cbn [obind]. eauto.
  - intros u s Hs Hr. rewrite xdr_union_eq. cbn [fst snd].
    destruct (I1 d s Hd Hs) as (s1 & -> & Hs1 & W1 & R1); [by rewrite length_be_bytes|].
    cbn [obind negb]. rewrite Harm. eauto.
Qed.

Definition sample_fresh (n : Z) : list Z := repeat 255 (Z.to_nat n).

Lemma length_sample_fresh n : 0 <= n -> Z.of_nat (length (sample_fresh n)) = n.
Proof. intros H. unfold sample_fresh. rewrite repeat_length. lia. Qed.

Definition sshort (v : Z) : Prop := -32768 <= v < 32768.

Lemma xdr_short_codec {St} {ops : xdr_ops St} {laws : XdrStream St} :
  codec (St := St) xdr_short sshort (fun _ => True) (be_bytes 4).
Proof. apply (via_long_codec id). unfold sshort. intros v Hv. unfold id in *. machine_lia. Qed.

Lemma xdr_union_codec_witness :
  codec (St := mem) (xdr_union [(3, xdr_int); (5, xdr_short)] None)
    (fun o => o.1 = 5 /\ sshort o.2) (fun _ => True)
    (fun o => be_bytes 4 o.1 ++ be_bytes 4 o.2).
Proof.
  assert (H5 : slong 5) by (unfold slong; lia).
  exact (xdr_union_codec (St := mem) [(3, xdr_int); (5, xdr_short)] None 5 H5
    _ _ _ xdr_short_codec).
Defined.

Lemma mem_ok_example : mem_ok (mk_mem (repeat 0 16) 0 16).
Proof. unfold mem_ok. simpl. lia. Qed.

Lemma xdr_string_roundtrip_witness :
  let s' := mk_mem [0; 0; 0; 3; 70; 66; 49; 7; 9] 0 9 in
  Z.of_nat (length (wire_string [7; 7; 7; 7] [70; 66; 49])) mod 4 = 0 /\
  (exists s1, xdr_string sample_fresh [7; 7; 7; 7] 10 XDR_ENCODE (Some [70; 66; 49; 0])
                (mk_mem (repeat 0 16) 0 16) = Ret (true, Some [70; 66; 49; 0], s1) /\
     written s1 = written (mk_mem (repeat 0 16) 0 16) ++ wire_string [7; 7; 7; 7] [70; 66; 49]) /\
  (exists sp1 s1, xdr_string sample_fresh [7; 7; 7; 7] 10 XDR_DECODE None s' = Ret (true, sp1, s1) /\
     c_string [70; 66; 49] sp1 /\ pending s1 = [9]).
Proof.
  intros s'.
  apply (xdr_string_roundtrip sample_fresh [7; 7; 7; 7] 10 length_sample_fresh eq_refl ltac:(lia)
    [70; 66; 49] (Some [70; 66; 49; 0]) (mk_mem (repeat 0 16) 0 16) None s' [9]).
  - repeat constructor; lia.
  - simpl; lia.
  - by exists [].
  - apply mem_ok_example.
  - vm_compute; congruence.
  - done.
  - unfold s'; cbn; unfold mem_ok; simpl; lia.
  - reflexivity.
Defined.

Lemma xdr_string_safe_witness :
  exists ok sp' s', xdr_string sample_fresh [7; 7; 7; 7] 10 XDR_DECODE None
      (mk_mem [255; 255; 255; 255; 1] 0 5) = Ret (ok, sp', s') /\
    stream_ok s' /\ string_area 10 sp' /\
    (ok = true -> exists str tail, sp' = Some (str ++ 0 :: tail) /\ Z.of_nat (length str) <= 10).
Proof.
  apply (xdr_string_safe sample_fresh [7; 7; 7; 7] 10 length_sample_fresh eq_refl ltac:(lia)
    None (mk_mem [255; 255; 255; 255; 1] 0 5)); [done|cbn; unfold mem_ok; simpl; lia].
Defined.

(** ** The scalar filters *)

(** Over any stream that keeps its promises, every scalar filter writes
    the values of its type in network byte order, four or eight bytes, and
    reads each value back unchanged, whatever the object held before; when
    room or input runs short it fails and leaves a usable stream. *)
Theorem xdr_scalar_codecs {St} {ops : xdr_ops St} {laws : XdrStream St} :
  codec (St := St) xdr_bool slong (fun _ => True) (be_bytes 4) /\
  codec (St := St) xdr_enum slong (fun _ => True) (be_bytes 4) /\
  codec (St := St) xdr_int slong (fun _ => True) (be_bytes 4) /\
  codec (St := St) xdr_long slong (fun _ => True) (be_bytes 4) /\
  codec (St := St) xdr_short sshort (fun _ => True) (be_bytes 4) /\
  codec (St := St) xdr_u_short (fun v => 0 <= v < 65536) (fun _ => True) (be_bytes 4) /\
  codec (St := St) xdr_u_int (fun v => 0 <= v < 2 ^ 32) (fun _ => True) (fun v => be_bytes 4 (SLONG v)) /\
  codec (St := St) xdr_u_long (fun v => 0 <= v < 2 ^ 32) (fun _ => True) (fun v => be_bytes 4 (SLONG v)) /\
  codec (St := St) xdr_float (fun v => 0 <= v < 2 ^ 32) (fun _ => True) (fun v => be_bytes 4 (SLONG v)) /\
  codec (St := St) xdr_hyper (fun v => - 2 ^ 63 <= v < 2 ^ 63) (fun _ => True)
    (fun v => be_bytes 4 (Z.shiftr v 32) ++ be_bytes 4 v) /\
  codec (St := St) xdr_double (fun v => 0 <= v < 2 ^ 64) (fun _ => True)
    (fun v => be_bytes 4 (Z.shiftr v 32) ++ be_bytes 4 v).
Proof.
  change (2 ^ 63) with 9223372036854775808. change (2 ^ 64) with 18446744073709551616.
  change (2 ^ 32) with 4294967296. unfold slong, sshort.
  assert (Hjoin : forall v, -9223372036854775808 <= v < 18446744073709551616 ->
    exists k, Z.shiftl (SLONG (Z.shiftr v 32)) 32 + ULONG (SLONG v) = v + k * 18446744073709551616).
  { intros v Hv. rewrite Z.shiftl_mul_pow2, Z.shiftr_div_pow2 by lia.
    change (2 ^ 32) with 4294967296. exists (- ((v / 4294967296 + 2147483648) / 4294967296)).
    machine_lia. }
  split_and!;
    try (apply (via_long_codec id); intros v Hv; unfold id in *; machine_lia);
    try (apply (via_long_codec SLONG); intros v Hv; unfold id in *; machine_lia);
    apply via_two_longs_codec; intros v Hv; destruct (Hjoin v ltac:(lia)) as [k ->].
  - unfold SINT64, wrap_s. change (2 ^ (64 - 1)) with 9223372036854775808.
    change (2 ^ 64) with 18446744073709551616.
    replace (v + k * 18446744073709551616 + 9223372036854775808)
      with (v + 9223372036854775808 + k * 18446744073709551616) by lia.
    rewrite Z.mod_add, Z.mod_small by lia. lia.
  - unfold UINT64, wrap_u. change (2 ^ 64) with 18446744073709551616.
    rewrite Z.mod_add, Z.mod_small by lia. lia.
Qed.

(** ** Through memory and back *)

Lemma length_mem_written s : mem_ok s -> Z.of_nat (length (mem_written s)) = x_private s.
Proof. intros (H1 & H2 & H3). unfold mem_written. rewrite length_take. lia. Qed.

(** Repositioning within the stream; what was written is pending again. *)
Lemma mem_setpostn_back s :
  mem_ok s -> x_private s + x_handy s < 2147483648 ->
  exists s2, mem_setpostn 0 s = (true, s2) /\ mem_ok s2 /\
    exists rest, mem_pending s2 = mem_written s ++ rest.
Proof.
  intros (H1 & H2 & H3) Hb. unfold mem_setpostn.
  assert (E : ULONG (x_private s + x_handy s) = x_private s + x_handy s) by machine_lia.
  rewrite E, (proj2 (Z.ltb_ge _ _)) by lia. rewrite Z.sub_0_r, E, SLONG_small by lia.
  eexists. split; [reflexivity|]. split.
  - unfold mem_ok. cbn [x_base x_private x_handy]. lia.
  - exists (take (Z.to_nat (x_handy s)) (drop (Z.to_nat (x_private s)) (x_base s))).
    unfold mem_pending, mem_written. cbn [x_base x_private x_handy].
    rewrite <-take_add, drop_0. f_equal. lia.
Qed.

(** Any codec used on a memory stream: the value that is encoded into a
    fresh stream large enough for it is decoded again after repositioning to
    the start, and the position reported in between is the length of its
    external form. *)
Theorem xdrmem_roundtrip {A} (f : filter mem A) valid into wire v old addr len :
  codec f valid into wire -> valid v -> into old ->
  0 <= len < 2147483648 -> len = Z.of_nat (length addr) -> Z.of_nat (length (wire v)) <= len ->
  exists s1 s2 s3, f XDR_ENCODE v (xdrmem_create addr len) = Ret (true, v, s1) /\
    x_getpostn s1 = Z.of_nat (length (wire v)) /\
    x_setpostn 0 s1 = (true, s2) /\
    f XDR_DECODE old s2 = Ret (true, v, s3).
Proof.
  intros [C1 C2 C3 C4] Hv Hi Hlen Haddr Hw. unfold xdrmem_create. rewrite SLONG_small by lia.
  destruct (C1 v (mk_mem addr 0 len) Hv) as (s1 & E1 & Hs1 & W1 & R1).
  { cbn. unfold mem_ok. cbn. lia. }
  { cbn. lia. }
  cbn in Hs1, W1, R1. unfold mem_written at 2 in W1. cbn [x_base x_private] in W1.
  change (Z.to_nat 0) with 0%nat in W1. rewrite take_0 in W1. cbn [app] in W1.
  pose proof (length_mem_written s1 Hs1) as Hp. rewrite W1 in Hp.
  destruct (mem_setpostn_back s1 Hs1 ltac:(lia)) as (s2 & E2 & Hs2 & rest & Hr).
  rewrite W1 in Hr.
  destruct (C3 v old s2 rest Hv Hi Hs2 Hr) as (s3 & E3 & _).
  exists s1, s2, s3. split_and!; auto. cbn. unfold mem_getpostn. rewrite <-Hp.
  unfold ULONG, wrap_u. change (2 ^ 32) with 4294967296. rewrite Z.mod_small; lia.
Qed.

Lemma xdrmem_roundtrip_witness :
  exists s1 s2 s3,
    xdr_short XDR_ENCODE (-5) (xdrmem_create (repeat 170 8) 8) = Ret (true, -5, s1) /\
    x_getpostn s1 = 4 /\ x_setpostn 0 s1 = (true, s2) /\
    xdr_short XDR_DECODE 0 s2 = Ret (true, -5, s3).
Proof.
  apply (xdrmem_roundtrip xdr_short sshort (fun _ => True) (be_bytes 4) (-5) 0 (repeat 170 8) 8
    xdr_short_codec); done.
Defined.

(** ** Counted bytes *)

(** What decoding counted bytes returns: the bytes arrive, but the count
    does not.  [lp] becomes zero when the bytes need no padding and keeps its
    old value otherwise, and the padding that was received replaces the shared
    zeros that later encodings pad with. *)
Theorem xdr_bytes_decode {St} {ops : xdr_ops St} {laws : XdrStream St}
    fresh maxlength o buf (s : St) bs pad rest :
  bpp o = Some buf -> length (zeros o) = 4%nat ->
  Z.of_nat (length bs) <= maxlength < 2147483647 -> maxlength < Z.of_nat (length buf) ->
  Z.of_nat (length pad) = padding (Z.of_nat (length bs)) ->
  stream_ok s -> pending s = be_bytes 4 (Z.of_nat (length bs)) ++ bs ++ pad ++ rest ->
  exists s', xdr_bytes fresh maxlength XDR_DECODE o s
    = Ret (true, mk_counted (pad ++ drop (length pad) (zeros o))
             (Some (bs ++ drop (length bs) buf))
             (if padding (Z.of_nat (length bs)) =? 0 then 0 else lp o), s') /\
    pending s' = rest.
Proof.
  intros Hbuf Hz Hm Ha Hpad Hs Hp. destruct (padding_spec (Z.of_nat (length bs)) ltac:(lia)) as [Hr _].
  unfold xdr_bytes. rewrite Hbuf.
  destruct (getlong_next s _ _ Hs Hp) as (s1 & -> & Hs1 & P1). cbn [obind].
  rewrite (SLONG_small (Z.of_nat (length bs))), (SLONG_small maxlength), (proj2 (Z.ltb_ge _ _)) by lia.
  assert (E : ULONG (Z.of_nat (length bs)) = Z.of_nat (length bs)) by machine_lia. rewrite E.
  destruct (getbytes_law s1 buf (Z.of_nat (length bs)) Hs1 ltac:(lia) ltac:(lia)) as [B1 _].
  rewrite P1, !length_app, Nat2Z.id in B1.
  destruct B1 as (s2 & -> & Hs2 & P2); [lia|]. cbn [obind negb].
  rewrite take_app_length. rewrite drop_app_length in P2.
  destruct (Z.eqb_spec (padding (Z.of_nat (length bs))) 0) as [H0|H0]; cbn [negb].
  - assert (pad = []) as -> by (apply nil_length_inv; lia). rewrite H0. exists s2.
    split; [done|exact P2].
  - destruct (getbytes_law s2 (zeros o) (padding (Z.of_nat (length bs))) Hs2 ltac:(lia) ltac:(lia))
      as [C1 _]. rewrite P2, length_app, <-Hpad, Nat2Z.id in C1.
    destruct C1 as (s3 & E3 & Hs3 & P3); [lia|]. rewrite Hpad in E3. rewrite E3. cbn [obind].
    rewrite take_app_length. rewrite drop_app_length in P3. eauto.
Qed.

Lemma xdr_bytes_decode_witness :
  exists s', xdr_bytes sample_fresh 8 XDR_DECODE (mk_counted [0; 0; 0; 0] (Some (repeat 9 9)) 77)
      (mk_mem [0; 0; 0; 3; 65; 66; 67; 255; 1] 0 9)
    = Ret (true, mk_counted ([255] ++ [0; 0; 0]) (Some ([65; 66; 67] ++ repeat 9 6)) 77, s') /\
    pending s' = [1].
Proof.
  apply (xdr_bytes_decode sample_fresh 8 (mk_counted [0; 0; 0; 0] (Some (repeat 9 9)) 77) (repeat 9 9)
    (mk_mem [0; 0; 0; 3; 65; 66; 67; 255; 1] 0 9) [65; 66; 67] [255] [1]); try reflexivity.
  - simpl; lia.
  - cbn. unfold mem_ok. simpl. lia.
Defined.

(** A negative count passes the check of [xdr_bytes], which compares
    signed, and the memory stream then copies a negative number of bytes:
    the read leaves the buffer.  [xdr_string] refuses the same input. *)
Theorem xdr_bytes_negative_count fresh maxlength o buf s v rest :
  bpp o = Some buf -> 0 <= maxlength < 2147483648 -> mem_ok s ->
  mem_pending s = be_bytes 4 v ++ rest ->
  -2147483648 <= v < 0 -> x_handy s - 4 - v < 2147483648 ->
  xdr_bytes fresh maxlength XDR_DECODE o s = Throw Overrun /\
  exists s', xdr_string fresh (zeros o) maxlength XDR_DECODE (Some buf) s = Ret (false, Some buf, s').
Proof.
  intros Hbuf Hm Hs Hp Hv Hh. pose proof (length_mem_pending s Hs) as Hlen.
  rewrite Hp, length_app, length_be_bytes in Hlen.
  destruct (mem_accept s 4 Hs ltac:(lia)) as [A1 A2].
  destruct (getlong_next (laws := mem_stream) s v rest Hs Hp) as (s1 & E1 & Hs1 & P1).
  rewrite SLONG_small in E1 by lia.
  assert (R1 : x_handy s1 = x_handy s - 4).
  { pose proof (length_mem_pending s1 Hs1) as H. cbn [pending mem_stream] in P1. rewrite P1 in H. lia. }
  split.
  - unfold xdr_bytes. rewrite Hbuf, E1. cbn [obind].
    rewrite (SLONG_small maxlength), (proj2 (Z.ltb_ge _ _)) by lia.
    cbn [x_getbytes mem_ops]. unfold mem_getbytes.
    assert (E : SLONG (ULONG v) = v) by machine_lia. rewrite E, R1, SLONG_small by lia.
    rewrite (proj2 (Z.ltb_ge _ _)), (proj2 (Z.eqb_neq v 0)) by lia. cbn [negb].
    unfold mem_slice. rewrite (proj2 (Z.leb_gt 0 v)), andb_false_r by lia. done.
  - unfold xdr_string. rewrite E1. cbn [obind].
    rewrite (proj2 (Z.ltb_lt _ _)) by machine_lia. eauto.
Qed.

Lemma xdr_bytes_negative_count_witness :
  xdr_bytes sample_fresh 8 XDR_DECODE (mk_counted [0; 0; 0; 0] (Some (repeat 9 9)) 77)
      (mk_mem [255; 255; 255; 255; 1; 2] 0 6) = Throw Overrun.
Proof.
  refine (proj1 (xdr_bytes_negative_count sample_fresh 8
    (mk_counted [0; 0; 0; 0] (Some (repeat 9 9)) 77) (repeat 9 9)
    (mk_mem [255; 255; 255; 255; 1; 2] 0 6) (-1) [1; 2] _ _ _ _ _ _)); try reflexivity; try lia; try done.
Defined.

(** Opaque data of a fixed length travels with padding to a multiple of
    four bytes through any stream, and is read back whatever the padding
    held. *)
Theorem xdr_opaque_is_codec {St} {ops : xdr_ops St} {laws : XdrStream St} trash len :
  length trash = 4%nat -> 0 <= len < 2147483648 ->
  codec (xdr_opaque (St := St) trash len) (fun p => Z.of_nat (length p) = len)
    (fun p => Z.of_nat (length p) = len) (wire_padded trash) /\
  (forall p, Z.of_nat (length p) = len -> Z.of_nat (length (wire_padded trash p)) mod 4 = 0).
Proof.
  intros Ht Hl. split; [by apply xdr_opaque_codec|].
  intros p Hp. rewrite length_wire_padded, Hp by done. by apply (padding_spec len ltac:(lia)).
Qed.

Lemma xdr_opaque_is_codec_witness :
  codec (xdr_opaque (St := mem) [1; 2; 3; 4] 5) (fun p => Z.of_nat (length p) = 5)
    (fun p => Z.of_nat (length p) = 5) (wire_padded [1; 2; 3; 4]).
Proof. refine (proj1 (xdr_opaque_is_codec [1; 2; 3; 4] 5 eq_refl _)). lia. Defined.

End Xdr.
