(* ===== verification/EvlLike.v ===== *)
(** * LIKE, MATCHES and SLEUTH (jrd/evl_like.cpp)

    The pattern matchers of the expression evaluator.  The file is included
    twice, for bytes and for wide characters; characters are integers here
    and strings are lists of them, so that the byte lengths of the code are
    lengths.  Each matcher is shown to decide the language of its pattern:
    LIKE and MATCHES a sequence of literals, single and multiple wildcards,
    SLEUTH a sequence of character tests, some of them repeated. *)

From S2P Require Import Prelude.

Module EvlLike.

Definition SQL_MATCH_ONE : Z := 95.
Definition SQL_MATCH_ANY : Z := 37.
Definition GDML_MATCH_ONE : Z := 63.
Definition GDML_MATCH_ANY : Z := 42.
Definition GDML_QUOTE : Z := 64.
Definition GDML_NOT : Z := 126.
Definition GDML_RANGE : Z := 45.
Definition GDML_CLASS_START : Z := 91.
Definition GDML_CLASS_END : Z := 93.
Definition GDML_FLAG_SET : Z := 43.
Definition GDML_FLAG_CLEAR : Z := 45.
Definition SLEUTH_insensitive : Z := 1.
Definition isc_like_escape_invalid : Z := 335544702.

(** ** LIKE *)

Definition is_nil {A} (l : list A) : bool := match l with [] => true | _ => false end.

Fixpoint skip_any (any : Z) (p2 : list Z) : list Z :=
  match p2 with
  | c :: p2' => if c =? any then skip_any any p2' else p2
  | [] => []
  end.

(** The recursive calls of a multiple wildcard: one for each suffix of the
    string that is not empty, until one succeeds. *)
Fixpoint try_suffixes (f : list Z -> outcome bool) (p1 : list Z) : outcome bool :=
  match p1 with
  | [] => Ret false
  | _ :: p1' => let* b := f p1 in if b then Ret true else try_suffixes f p1'
  end.

(** The next pattern character, whether it was escaped, and what follows. *)
Definition next_like (escape_char c : Z) (p2 : list Z) : outcome (Z * bool * list Z) :=
  if negb (escape_char =? 0) && (c =? escape_char) then
    match p2 with
    | d :: p2 =>
        if (d =? escape_char) || (d =? SQL_MATCH_ANY) || (d =? SQL_MATCH_ONE)
        then Ret (d, true, p2) else Throw (Post isc_like_escape_invalid)
    | [] => Throw (Post isc_like_escape_invalid)
    end
  else Ret (c, false, p2).

Fixpoint LIKENAME (fuel : nat) (escape_char : Z) (p2 p1 : list Z) : outcome bool :=
  match fuel with
  | O => Throw Overrun
  | S fuel =>
      match p2 with
      | [] => Ret (is_nil p1)
      | c :: p2 =>
          let* (c, escape, p2) := next_like escape_char c p2 in
          if negb escape && (c =? SQL_MATCH_ANY) then
            let p2 := skip_any SQL_MATCH_ANY p2 in
            if is_nil p2 then Ret true else try_suffixes (LIKENAME fuel escape_char p2) p1
          else
            match p1 with
            | [] => Ret false
            | d :: p1 =>
                if (escape || negb (c =? SQL_MATCH_ONE)) && negb (c =? d) then Ret false
                else LIKENAME fuel escape_char p2 p1
            end
      end
  end.

(** ** MATCHES *)

Fixpoint MATCHESNAME (fuel : nat) (p2 p1 : list Z) : outcome bool :=
  match fuel with
  | O => Throw Overrun
  | S fuel =>
      match p2 with
      | [] => Ret (is_nil p1)
      | c :: p2 =>
          if c =? GDML_MATCH_ANY then
            let p2 := skip_any GDML_MATCH_ANY p2 in
            if is_nil p2 then Ret true else try_suffixes (MATCHESNAME fuel p2) p1
          else
            match p1 with
            | [] => Ret false
            | d :: p1 =>
                if negb (c =? GDML_MATCH_ONE) && negb (c =? d) then Ret false
                else MATCHESNAME fuel p2 p1
            end
      end
  end.

(** ** SLEUTH *)

(** The table of the characters that mean something in a pattern. *)
Definition special (c : Z) : bool :=
  bool_decide (c ∈ [36; 37; 42; 43; 45; 63; 64; 91; 126]).

Section sleuth.
(** The case mapping of the text type. *)
Variable to_upper : Z -> Z.

Definition COND_UPPER (flags c : Z) : Z :=
  if flag_set flags SLEUTH_insensitive then to_upper c else c.

(** [class_] is the memory from the current position in the class on, [n]
    the distance to its end. *)
Fixpoint class_loop (fuel : nat) (class_ : list Z) (n character : Z) (result : bool) : outcome bool :=
  match fuel with
  | O => Throw Overrun
  | S fuel =>
      if n <=? 0 then Ret (negb result)
      else
        let* (c, class_) := read_byte class_ in
        if c =? GDML_QUOTE then
          let* (d, class_) := read_byte class_ in
          if d =? character then Ret true else class_loop fuel class_ (n - 2) character result
        else
          let* (d, class_') := read_byte class_ in
          if d =? GDML_RANGE then
            let* (last, class_) := read_byte class_' in
            if (c <=? character) && (character <=? last) then Ret result
            else class_loop fuel class_ (n - 3) character result
          else if character =? c then Ret result
          else class_loop fuel class_ (n - 1) character result
  end.

Definition SLEUTH_CLASS_NAME (flags : Z) (class_ : list Z) (n character : Z) : outcome bool :=
  let character := COND_UPPER flags character in
  let* (c, class_') := read_byte class_ in
  if c =? GDML_NOT then class_loop (S (Z.to_nat n)) class_' (n - 1) character false
  else class_loop (S (Z.to_nat n)) class_ n character true.

(** The length of a class and the pattern behind it; [None] when the pattern
    ends inside. *)
Fixpoint class_end (m : list Z) : outcome (option (Z * list Z)) :=
  match m with
  | [] => Throw Overrun
  | c :: m =>
      if c =? GDML_CLASS_END then Ret (Some (0, m))
      else if is_nil m then Ret None
      else let* r := class_end m in
           Ret (match r with Some (n, m) => Some (n + 1, m) | None => None end)
  end.

(** A repeated test: the rest of the pattern is tried first, then one more
    character is consumed. *)
Fixpoint star_loop (f : list Z -> outcome bool) (test : Z -> outcome bool) (search : list Z)
    : outcome bool :=
  let* b := f search in
  if b then Ret true
  else match search with
       | [] => Ret false
       | d :: search => let* ok := test d in if ok then star_loop f test search else Ret false
       end.

(** [?*] gives up when the last character has been consumed. *)
Fixpoint any_loop (f : list Z -> outcome bool) (search : list Z) : outcome bool :=
  let* b := f search in
  if b then Ret true
  else match search with
       | _ :: (_ :: _) as search => any_loop f search
       | _ => Ret false
       end.

Definition star_follows (m : list Z) : bool :=
  match m with c :: _ => c =? GDML_MATCH_ANY | [] => false end.

Definition ordinary (c : Z) : bool := (c <? 256) && negb (special c).

Fixpoint SLEUTH_AUX (fuel : nat) (flags : Z) (match_ search : list Z) : outcome bool :=
  match fuel with
  | O => Throw Overrun
  | S fuel =>
      match match_ with
      | [] => Ret (is_nil search)
      | c :: match_ =>
          let* (c, literal, match_) :=
            (if c =? GDML_QUOTE then
               let* (c, match_) := read_byte match_ in Ret (c, negb (c =? 0) || ordinary c, match_)
             else Ret (c, ordinary c, match_)) in
          if literal then
            let c := COND_UPPER flags c in
            if star_follows match_ then
              star_loop (SLEUTH_AUX fuel flags (tail match_)) (fun d => Ret (c =? COND_UPPER flags d)) search
            else
              match search with
              | [] => Ret false
              | d :: search =>
                  if negb (c =? COND_UPPER flags d) then Ret false
                  else SLEUTH_AUX fuel flags match_ search
              end
          else if c =? GDML_MATCH_ONE then
            if star_follows match_ then
              if is_nil (tail match_) then Ret true
              else any_loop (SLEUTH_AUX fuel flags (tail match_)) search
            else
              match search with
              | [] => Ret false
              | _ :: search => SLEUTH_AUX fuel flags match_ search
              end
          else if c =? GDML_CLASS_START then
            let class_ := match_ in
            let* r := class_end match_ in
            match r with
            | None => Ret false
            | Some (n, match_) =>
                if star_follows match_ then
                  star_loop (SLEUTH_AUX fuel flags (tail match_)) (SLEUTH_CLASS_NAME flags class_ n) search
                else
                  let* (d, search) := read_byte search in
                  let* ok := SLEUTH_CLASS_NAME flags class_ n d in
                  if ok then SLEUTH_AUX fuel flags match_ search else Ret false
            end
          else if c =? GDML_FLAG_SET then
            let* (c, match_) := read_byte match_ in
            SLEUTH_AUX fuel
              (if (c =? 115) || (c =? 83) then Z.ldiff flags SLEUTH_insensitive else flags) match_ search
          else if c =? GDML_FLAG_CLEAR then
            let* (c, match_) := read_byte match_ in
            SLEUTH_AUX fuel
              (if (c =? 115) || (c =? 83) then Z.lor flags SLEUTH_insensitive else flags) match_ search
          else SLEUTH_AUX fuel flags match_ search
      end
  end.

Definition SLEUTHNAME (flags : Z) (search match_ : list Z) : outcome bool :=
  SLEUTH_AUX (S (length match_)) flags match_ search.

End sleuth.

Definition GDML_SUBSTITUTE : Z := 61.
Definition GDML_COMMA : Z := 44.
Definition GDML_LPAREN : Z := 40.
Definition GDML_RPAREN : Z := 41.

(** *** Merging a pattern with its control string

    [combined], [vector] and [temp] are the output so far, the initialised
    part of the vector of definitions, as offsets into [temp], and the text
    of the definitions; [after] is the memory behind a string, of which the
    code looks at the first character. *)
Record merge_state := mk_merge {
  combined : list Z;
  vector : list (option nat);
  temp : list Z
}.

Definition ends_quoted (s : list Z) : bool :=
  match list.last s with Some c => c =? GDML_QUOTE | None => false end.

(** A definition, up to an unquoted comma or parenthesis. *)
Fixpoint slurp_definition (control temp : list Z) : list Z * list Z :=
  match control with
  | [] => ([], temp)
  | c :: control =>
      if ends_quoted temp || (negb (c =? GDML_COMMA) && negb (c =? GDML_RPAREN))
      then slurp_definition control (temp ++ [c]) else (control, temp)
  end.

Definition set_vector (vector : list (option nat)) (i t : nat) : list (option nat) :=
  <[i := Some t]> (vector ++ replicate (S i - length vector) None).

(** Returns the state and the rest of the control string. *)
Fixpoint merge_control (fuel : nat) (control : list Z) (after : Z) (st : merge_state)
    : outcome (merge_state * list Z) :=
  match fuel with
  | O => Throw Overrun
  | S fuel =>
      match control with
      | [] => Ret (st, [])
      | c :: control =>
          if hd after control =? GDML_SUBSTITUTE then
            let i := if c <? 256 then Z.to_nat c else 0%nat in
            let vector := set_vector (vector st) i (length (temp st)) in
            let (control, temp) := slurp_definition (tail control) (temp st) in
            let temp := temp ++ [0] in
            if (256 <? length temp)%nat then Throw Overrun
            else merge_control fuel control after (mk_merge (combined st) vector temp)
          else if (c =? GDML_QUOTE) && negb (is_nil control) then
            merge_control fuel (tail control) after
              (mk_merge (combined st ++ take 1 control) (vector st) (temp st))
          else if c =? GDML_RPAREN then Ret (st, control)
          else if negb (c =? GDML_LPAREN) then
            merge_control fuel control after (mk_merge (combined st ++ [c]) (vector st) (temp st))
          else merge_control fuel control after st
      end
  end.

(** The text of a definition, up to its terminating zero. *)
Fixpoint c_text (s : list Z) : list Z :=
  match s with
  | c :: s => if c =? 0 then [] else c :: c_text s
  | [] => []
  end.

(** [max_op] is one character wide; a character equal to it looks at a
    vector element that was not set. *)
Fixpoint merge_match (fuel : nat) (max_op : Z) (match_ : list Z) (after : Z) (st : merge_state)
    : outcome (list Z) :=
  match fuel with
  | O => Throw Overrun
  | S fuel =>
      match match_ with
      | [] => Ret (combined st)
      | c :: match_ =>
          let* p :=
            (if c <=? max_op then
               match vector st !! Z.to_nat c with Some p => Ret p | None => Throw Overrun end
             else Ret None) in
          match p with
          | Some p =>
              let comb := combined st ++ c_text (drop p (temp st)) in
              if ends_quoted comb && negb (hd after match_ =? 0) then
                merge_match fuel max_op (tail match_) after
                  (mk_merge (comb ++ [hd after match_]) (vector st) (temp st))
              else merge_match fuel max_op match_ after (mk_merge comb (vector st) (temp st))
          | None =>
              let comb := combined st in
              let comb := if (c <? 256) && special c && negb (is_nil comb) && negb (ends_quoted comb)
                          then comb ++ [GDML_QUOTE] else comb in
              merge_match fuel max_op match_ after (mk_merge (comb ++ [c]) (vector st) (temp st))
          end
      end
  end.

(** [width] is the width of a character in bits, [room] the length of
    [combined], which the code does not look at. *)
Definition SLEUTH_MERGE_NAME (width : Z) (room : nat) (match_ : list Z) (match_after : Z)
    (control : list Z) (control_after : Z) : outcome (list Z) :=
  let* (st, trailing) :=
    merge_control (S (length control)) control control_after (mk_merge [] [] []) in
  let max_op := wrap_u width (Z.of_nat (length (vector st))) in
  let* comb := merge_match (S (length match_)) max_op match_ match_after st in
  let comb := comb ++ trailing in
  if (room <? length comb)%nat then Throw Overrun else Ret comb.

(** ** What a LIKE pattern means *)

Inductive token := AnyChars | AnyChar | Lit (c : Z).

(** A string matches a sequence of tokens. *)
Inductive matches : list token -> list Z -> Prop :=
| matches_nil : matches [] []
| matches_one ts c s : matches ts s -> matches (AnyChar :: ts) (c :: s)
| matches_lit ts c s : matches ts s -> matches (Lit c :: ts) (c :: s)
| matches_any ts s1 s2 : matches ts s2 -> matches (AnyChars :: ts) (s1 ++ s2).

(** The tokens match a prefix of the string, and what follows a multiple
    wildcard starts before the end. *)
Inductive reaches : list token -> list Z -> Prop :=
| reaches_nil s : reaches [] s
| reaches_one ts c s : reaches ts s -> reaches (AnyChar :: ts) (c :: s)
| reaches_lit ts c s : reaches ts s -> reaches (Lit c :: ts) (c :: s)
| reaches_any ts s1 s2 : s2 <> [] -> reaches ts s2 -> reaches (AnyChars :: ts) (s1 ++ s2).

(** The tokens of a pattern, up to its first invalid escape; [false] when
    there is one. *)
Fixpoint like_tokens (escape_char : Z) (p2 : list Z) : list token * bool :=
  match p2 with
  | [] => ([], true)
  | c :: p2 =>
      if negb (escape_char =? 0) && (c =? escape_char) then
        match p2 with
        | d :: p2 =>
            if (d =? escape_char) || (d =? SQL_MATCH_ANY) || (d =? SQL_MATCH_ONE)
            then let (ts, ok) := like_tokens escape_char p2 in (Lit d :: ts, ok)
            else ([], false)
        | [] => ([], false)
        end
      else
        let (ts, ok) := like_tokens escape_char p2 in
        ((if c =? SQL_MATCH_ANY then AnyChars
          else if c =? SQL_MATCH_ONE then AnyChar else Lit c) :: ts, ok)
  end.

Definition matches_tokens (p2 : list Z) : list token :=
  map (fun c => if c =? GDML_MATCH_ANY then AnyChars
                else if c =? GDML_MATCH_ONE then AnyChar else Lit c) p2.

Definition is_any (t : token) : bool := match t with AnyChars => true | _ => false end.

(** Matching by tokens, as the code does it. *)
Fixpoint match_tokens (ts : list token) (ok : bool) (p1 : list Z) : outcome bool :=
  match ts with
  | [] => if ok then Ret (is_nil p1) else Throw (Post isc_like_escape_invalid)
  | AnyChars :: ts =>
      if forallb is_any ts && ok then Ret true else try_suffixes (match_tokens ts ok) p1
  | AnyChar :: ts => match p1 with [] => Ret false | _ :: p1 => match_tokens ts ok p1 end
  | Lit c :: ts =>
      match p1 with
      | [] => Ret false
      | d :: p1 => if negb (c =? d) then Ret false else match_tokens ts ok p1
      end
  end.

(** *** Suffixes *)

Definition suffix_of (P : list Z -> Prop) (s : list Z) : Prop :=
  exists s1 s2, s = s1 ++ s2 /\ s2 <> [] /\ P s2.

Lemma suffix_of_nil P : ~ suffix_of P [].
Proof. intros (s1 & s2 & E & Hne & _). symmetry in E. apply app_nil in E. by destruct E. Qed.

Lemma suffix_of_cons P c s : suffix_of P (c :: s) <-> P (c :: s) \/ suffix_of P s.
Proof.
  split.
  - intros (s1 & s2 & E & Hne & HP). destruct s1 as [|d s1]; simpl in E.
    + left. by rewrite E.
    + right. injection E as -> ->. by exists s1, s2.
  - intros [HP|(s1 & s2 & -> & Hne & HP)]; [by exists [], (c :: s)|by exists (c :: s1), s2].
Qed.

Definition decides (r : outcome bool) (P : Prop) : Prop :=
  (r = Ret true /\ P) \/ (r = Ret false /\ ~ P).

Definition posts_if (r : outcome bool) (P : Prop) : Prop :=
  (r = Throw (Post isc_like_escape_invalid) /\ P) \/ (r = Ret false /\ ~ P).

Lemma decides_iff r P Q : (P <-> Q) -> decides r P -> decides r Q.
Proof. unfold decides. tauto. Qed.

Lemma posts_if_iff r P Q : (P <-> Q) -> posts_if r P -> posts_if r Q.
Proof. unfold posts_if. tauto. Qed.

Lemma decides_false P : ~ P -> decides (Ret false) P.
Proof. unfold decides. tauto. Qed.

Lemma try_suffixes_decides f P p1 :
  (forall p, decides (f p) (P p)) -> decides (try_suffixes f p1) (suffix_of P p1).
Proof.
  intros Hf. induction p1 as [|c p1 IH]; simpl.
  - right. split; [done|apply suffix_of_nil].
  - destruct (Hf (c :: p1)) as [[-> HP]|[-> HP]]; simpl.
    + left. rewrite suffix_of_cons. auto.
    + eapply decides_iff; [|exact IH]. rewrite suffix_of_cons. tauto.
Qed.

Lemma try_suffixes_posts f P p1 :
  (forall p, posts_if (f p) (P p)) -> posts_if (try_suffixes f p1) (suffix_of P p1).
Proof.
  intros Hf. induction p1 as [|c p1 IH]; simpl.
  - right. split; [done|apply suffix_of_nil].
  - destruct (Hf (c :: p1)) as [[-> HP]|[-> HP]]; simpl.
    + left. rewrite suffix_of_cons. auto.
    + eapply posts_if_iff; [|exact IH]. rewrite suffix_of_cons. tauto.
Qed.

Lemma try_suffixes_ext f g p1 : (forall p, f p = g p) -> try_suffixes f p1 = try_suffixes g p1.
Proof. intros H. induction p1 as [|c p1 IH]; simpl; [done|]. by rewrite H, IH. Qed.

(** Two multiple wildcards in a row search like one. *)
Lemma try_suffixes_twice f p1 : try_suffixes (try_suffixes f) p1 = try_suffixes f p1.
Proof.
  induction p1 as [|c p1 IH]; simpl; [done|].
  destruct (f (c :: p1)) as [[]|e]; simpl; try done.
  destruct (try_suffixes f p1) as [[]|e] eqn:E; simpl; [done| |done]. by rewrite IH.
Qed.

(** *** Tokens *)

Lemma matches_all_any ts s : forallb is_any ts = true -> matches (AnyChars :: ts) s.
Proof.
  intros H. rewrite <-(app_nil_r s). apply matches_any.
  induction ts as [|t ts IH]; [constructor|]. simpl in H. destruct t; try done.
  apply (matches_any ts [] []). auto.
Qed.

Lemma matches_not_all_any ts : matches ts [] -> forallb is_any ts = true.
Proof.
  remember [] as s eqn:E. induction 1 as [|ts c s H IH|ts c s H IH|ts s1 s2 H IH]; simpl; try done.
  apply app_nil in E as [_ ->]. auto.
Qed.

Lemma match_tokens_decides ts p1 : decides (match_tokens ts true p1) (matches ts p1).
Proof.
  revert p1; induction ts as [|[| |c] ts IH]; intros p1; simpl.
  - destruct p1; [left|right]; split; try done; [constructor|intros H; inversion H].
  - rewrite andb_true_r. destruct (forallb is_any ts) eqn:Ha.
    + left. split; [done|by apply matches_all_any].
    + eapply decides_iff; [|apply try_suffixes_decides, IH]. split.
      * intros (s1 & s2 & -> & _ & H). by constructor.
      * intros H. inversion H as [| | |? s1 s2 Hm]; subst. exists s1, s2. split_and!; [done| |done].
        intros ->. apply matches_not_all_any in Hm. congruence.
  - destruct p1 as [|d p1]; [apply decides_false; intros H; inversion H|].
    eapply decides_iff; [|apply IH]. split; [by constructor|intros H; by inversion H].
  - destruct p1 as [|d p1]; [apply decides_false; intros H; inversion H|].
    destruct (Z.eqb_spec c d) as [->|Hne]; simpl.
    + eapply decides_iff; [|apply IH]. split; [by constructor|intros H; by inversion H].
    + apply decides_false. intros H; inversion H; congruence.
Qed.

Lemma match_tokens_posts ts p1 : posts_if (match_tokens ts false p1) (reaches ts p1).
Proof.
  revert p1; induction ts as [|[| |c] ts IH]; intros p1; simpl.
  - left. split; [done|constructor].
  - rewrite andb_false_r. eapply posts_if_iff; [|apply try_suffixes_posts, IH]. split.
    + intros (s1 & s2 & -> & Hne & H). by constructor.
    + intros H. inversion H as [| | |? s1 s2 Hne Hm]; subst. by exists s1, s2.
  - destruct p1 as [|d p1]; [right; split; [done|intros H; inversion H]|].
    eapply posts_if_iff; [|apply IH]. split; [by constructor|intros H; by inversion H].
  - destruct p1 as [|d p1]; [right; split; [done|intros H; inversion H]|].
    destruct (Z.eqb_spec c d) as [->|Hne]; simpl.
    + eapply posts_if_iff; [|apply IH]. split; [by constructor|intros H; by inversion H].
    + right. split; [done|]. intros H; inversion H; congruence.
Qed.

(** *** The code works on tokens *)

Lemma skip_any_length any p2 : (length (skip_any any p2) <= length p2)%nat.
Proof. induction p2 as [|c p2 IH]; simpl; [lia|]. case_match; simpl; lia. Qed.

Lemma match_tokens_any_run k ts ok p1 :
  match_tokens (AnyChars :: replicate k AnyChars ++ ts) ok p1 = match_tokens (AnyChars :: ts) ok p1.
Proof.
  revert p1; induction k as [|k IH]; intros p1; [done|]. cbn [replicate app].
  assert (E : forallb is_any (AnyChars :: replicate k AnyChars ++ ts) = forallb is_any ts)
    by (clear IH; induction k; done).
  cbn [match_tokens] in *. rewrite E. destruct (forallb is_any ts && ok) eqn:Hall; [done|].
  rewrite (try_suffixes_ext _ (try_suffixes (match_tokens ts ok)))
    by (intros p; exact (IH p)).
  apply try_suffixes_twice.
Qed.

Lemma like_tokens_skip escape_char p2 :
  negb (escape_char =? 0) && (SQL_MATCH_ANY =? escape_char) = false ->
  exists k, like_tokens escape_char p2
    = let (ts, ok) := like_tokens escape_char (skip_any SQL_MATCH_ANY p2) in
      (replicate k AnyChars ++ ts, ok).
Proof.
  intros Hesc. induction p2 as [|c p2 [k IH]]; [by exists 0%nat|].
  cbn [skip_any]. destruct (Z.eqb_spec c SQL_MATCH_ANY) as [->|Hne].
  - exists (S k). cbn [like_tokens]. rewrite Hesc, IH.
    destruct (like_tokens escape_char (skip_any SQL_MATCH_ANY p2)). done.
  - exists 0%nat. by destruct (like_tokens escape_char (c :: p2)).
Qed.

(** What a skipped run of wildcards leaves does not start with one. *)
Lemma like_tokens_not_any escape_char p2 ts ok :
  negb (escape_char =? 0) && (SQL_MATCH_ANY =? escape_char) = false ->
  like_tokens escape_char (skip_any SQL_MATCH_ANY p2) = (ts, ok) ->
  forallb is_any ts && ok = is_nil (skip_any SQL_MATCH_ANY p2).
Proof.
  intros Hesc. induction p2 as [|c p2 IH]; [by intros [= <- <-]|]. cbn [skip_any].
  destruct (Z.eqb_spec c SQL_MATCH_ANY) as [->|Hne]; [done|].
  cbn [like_tokens is_nil]. case_match.
  - destruct p2 as [|d p2]; [by intros [= <- <-]|]. case_match; [|by intros [= <- <-]].
    destruct (like_tokens escape_char p2). by intros [= <- <-].
  - destruct (like_tokens escape_char p2). rewrite (proj2 (Z.eqb_neq _ _) Hne).
    by case_match; intros [= <- <-].
Qed.

Lemma LIKENAME_tokens escape_char p2 : forall fuel p1,
  (length p2 < fuel)%nat ->
  LIKENAME fuel escape_char p2 p1
  = match_tokens (like_tokens escape_char p2).1 (like_tokens escape_char p2).2 p1.
Proof.
  intros fuel; revert p2; induction fuel as [|fuel IH]; intros p2 p1 Hf; [lia|].
  destruct p2 as [|c p2]; [done|]. cbn [LIKENAME like_tokens length] in *. unfold next_like.
  destruct (negb (escape_char =? 0) && (c =? escape_char)) eqn:Hesc.
  - destruct p2 as [|d p2]; [done|]. case_match; [|done]. cbn [obind negb andb orb].
    destruct p1 as [|e p1]; [by destruct (like_tokens escape_char p2)|].
    rewrite IH by (simpl in *; lia). destruct (like_tokens escape_char p2). cbn [fst snd match_tokens].
    done.
  - cbn [obind negb andb orb]. destruct (Z.eqb_spec c SQL_MATCH_ANY) as [->|Hany].
    + destruct (like_tokens_skip _ p2 Hesc) as [k Hk].
      destruct (like_tokens escape_char (skip_any SQL_MATCH_ANY p2)) as [ts ok] eqn:E.
      pose proof (like_tokens_not_any _ _ _ _ Hesc E) as Hnil.
      rewrite Hk. cbn [fst snd]. rewrite match_tokens_any_run. cbn [match_tokens].
      rewrite Hnil. destruct (is_nil _); [done|]. apply try_suffixes_ext. intros p.
      pose proof (skip_any_length SQL_MATCH_ANY p2). rewrite IH by lia. by rewrite E.
    + destruct p1 as [|d p1].
      { destruct (like_tokens escape_char p2). cbn [fst snd]. by case_match. }
      rewrite IH by lia. destruct (like_tokens escape_char p2). cbn [fst snd].
      by destruct (c =? SQL_MATCH_ONE).
Qed.

Lemma matches_tokens_skip p2 :
  exists k, matches_tokens p2 = replicate k AnyChars ++ matches_tokens (skip_any GDML_MATCH_ANY p2).
Proof.
  induction p2 as [|c p2 [k IH]]; [by exists 0%nat|]. cbn [skip_any].
  destruct (Z.eqb_spec c GDML_MATCH_ANY) as [->|Hne]; [|by exists 0%nat].
  exists (S k). cbn [replicate app]. by rewrite <-IH.
Qed.

Lemma matches_tokens_not_any p2 :
  forallb is_any (matches_tokens (skip_any GDML_MATCH_ANY p2)) = is_nil (skip_any GDML_MATCH_ANY p2).
Proof.
  induction p2 as [|c p2 IH]; [done|]. cbn [skip_any].
  destruct (Z.eqb_spec c GDML_MATCH_ANY) as [->|Hne]; [done|].
  cbn [matches_tokens map forallb is_nil]. rewrite (proj2 (Z.eqb_neq _ _) Hne). by case_match.
Qed.

Lemma MATCHESNAME_tokens p2 : forall fuel p1,
  (length p2 < fuel)%nat -> MATCHESNAME fuel p2 p1 = match_tokens (matches_tokens p2) true p1.
Proof.
  intros fuel; revert p2; induction fuel as [|fuel IH]; intros p2 p1 Hf; [lia|].
  destruct p2 as [|c p2]; [done|]. cbn [MATCHESNAME length] in *.
  destruct (Z.eqb_spec c GDML_MATCH_ANY) as [->|Hany].
  - change (matches_tokens (GDML_MATCH_ANY :: p2)) with (AnyChars :: matches_tokens p2).
    destruct (matches_tokens_skip p2) as [k ->]. rewrite match_tokens_any_run. cbn [match_tokens].
    rewrite matches_tokens_not_any, andb_true_r. destruct (is_nil _); [done|].
    apply try_suffixes_ext. intros p. pose proof (skip_any_length GDML_MATCH_ANY p2). apply IH. lia.
  - cbn [matches_tokens map]. rewrite (proj2 (Z.eqb_neq _ _) Hany).
    destruct p1 as [|d p1]; [by case_match|]. rewrite IH by lia.
    by destruct (c =? GDML_MATCH_ONE).
Qed.

(** C32: LIKE decides its pattern: with the fuel of the pattern's length, a
    well-formed pattern yields whether the string matches its tokens -
    literals, escaped characters, single and multiple wildcards; a pattern
    with an invalid escape never matches, and the error is posted exactly
    when the tokens before the escape can match a prefix of the string. *)
Theorem LIKENAME_spec escape_char p2 p1 fuel :
  (length p2 < fuel)%nat ->
  let (ts, ok) := like_tokens escape_char p2 in
  if ok then decides (LIKENAME fuel escape_char p2 p1) (matches ts p1)
  else posts_if (LIKENAME fuel escape_char p2 p1) (reaches ts p1).
Proof.
  intros Hf. rewrite (LIKENAME_tokens _ _ _ _ Hf).
  destruct (like_tokens escape_char p2) as [ts []]; cbn [fst snd];
    [apply match_tokens_decides|apply match_tokens_posts].
Qed.

(** [100%%_] with [%] escaped, against [100%5]. *)
Lemma LIKENAME_spec_witness :
  decides (LIKENAME 7 33 [49; 48; 48; 33; 37; 95] [49; 48; 48; 37; 53])
    (matches [Lit 49; Lit 48; Lit 48; Lit 37; AnyChar] [49; 48; 48; 37; 53]).
Proof. exact (LIKENAME_spec 33 [49; 48; 48; 33; 37; 95] [49; 48; 48; 37; 53] 7 ltac:(simpl; lia)). Defined.

(** MATCHES decides its pattern, without escapes and errors. *)
Theorem MATCHESNAME_spec p2 p1 fuel :
  (length p2 < fuel)%nat -> decides (MATCHESNAME fuel p2 p1) (matches (matches_tokens p2) p1).
Proof. intros Hf. rewrite MATCHESNAME_tokens by done. apply match_tokens_decides. Qed.

Lemma MATCHESNAME_spec_witness :
  decides (MATCHESNAME 4 [97; 42; 63] [97; 98; 99])
    (matches [Lit 97; AnyChars; AnyChar] [97; 98; 99]).
Proof. exact (MATCHESNAME_spec [97; 42; 63] [97; 98; 99] 4 ltac:(simpl; lia)). Defined.

(** ** What a SLEUTH pattern means *)

(** A test of one character: a literal, folded as the flags said where it
    stands, any character, or a class. *)
Inductive test := T_lit (c flags : Z) | T_any | T_class (class_ : list Z) (n flags : Z).

Inductive item := Single (t : test) | Star (t : test) | AnyTail.

(** How a pattern ends: properly, inside a class, or where the code reads
    past it. *)
Inductive ending := Good | Unterminated | Truncated.

Section sleuth_spec.
Variable to_upper : Z -> Z.

Definition accepts (t : test) (d : Z) : outcome bool :=
  match t with
  | T_lit c flags => Ret (c =? COND_UPPER to_upper flags d)
  | T_any => Ret true
  | T_class class_ n flags => SLEUTH_CLASS_NAME to_upper flags class_ n d
  end.

Definition add_item (i : item) (r : list item * ending) : list item * ending := (i :: r.1, r.2).

Fixpoint parse (fuel : nat) (flags : Z) (m : list Z) : list item * ending :=
  match fuel with
  | O => ([], Truncated)
  | S fuel =>
      let item_of (t : test) (m : list Z) :=
        if star_follows m then add_item (Star t) (parse fuel flags (tail m))
        else add_item (Single t) (parse fuel flags m) in
      match m with
      | [] => ([], Good)
      | c :: m =>
          match (if c =? GDML_QUOTE then
                   match m with
                   | c :: m => Some (c, negb (c =? 0) || ordinary c, m)
                   | [] => None
                   end
                 else Some (c, ordinary c, m)) with
          | None => ([], Truncated)
          | Some (c, literal, m) =>
              if literal then item_of (T_lit (COND_UPPER to_upper flags c) flags) m
              else if c =? GDML_MATCH_ONE then
                if star_follows m && is_nil (tail m) then ([AnyTail], Good) else item_of T_any m
              else if c =? GDML_CLASS_START then
                match class_end m with
                | Throw _ => ([], Truncated)
                | Ret None => ([], Unterminated)
                | Ret (Some (n, m')) => item_of (T_class m n flags) m'
                end
              else if (c =? GDML_FLAG_SET) || (c =? GDML_FLAG_CLEAR) then
                match m with
                | [] => ([], Truncated)
                | d :: m =>
                    parse fuel
                      (if (d =? 115) || (d =? 83) then
                         if c =? GDML_FLAG_SET then Z.ldiff flags SLEUTH_insensitive
                         else Z.lor flags SLEUTH_insensitive
                       else flags) m
                end
              else parse fuel flags m
          end
      end
  end.

(** Matching by items, as the code does it. *)
Fixpoint match_items (items : list item) (e : ending) (search : list Z) : outcome bool :=
  match items with
  | [] => match e with
          | Good => Ret (is_nil search)
          | Unterminated => Ret false
          | Truncated => Throw Overrun
          end
  | AnyTail :: _ => Ret true
  | Star T_any :: items => any_loop (match_items items e) search
  | Star t :: items => star_loop (match_items items e) (accepts t) search
  | Single t :: items =>
      match search, t with
      | [], T_class _ _ _ => Throw Overrun
      | [], _ => Ret false
      | d :: search, _ =>
          let* ok := accepts t d in if ok then match_items items e search else Ret false
      end
  end.

(** A string matches a sequence of items. *)
Inductive item_matches : list item -> list Z -> Prop :=
| im_nil : item_matches [] []
| im_single t items d s :
    accepts t d = Ret true -> item_matches items s -> item_matches (Single t :: items) (d :: s)
| im_star t items s1 s2 :
    Forall (fun d => accepts t d = Ret true) s1 -> item_matches items s2 ->
    item_matches (Star t :: items) (s1 ++ s2)
| im_tail items s : item_matches (AnyTail :: items) s.

Lemma star_loop_ext f g t u s :
  (forall p, f p = g p) -> (forall d, t d = u d) -> star_loop f t s = star_loop g u s.
Proof.
  intros Hf Ht. induction s as [|d s IH]; cbn [star_loop]; rewrite Hf; [done|].
  rewrite Ht, IH. done.
Qed.

Lemma any_loop_ext f g s : (forall p, f p = g p) -> any_loop f s = any_loop g s.
Proof.
  intros Hf. induction s as [|d [|e s] IH]; cbn [any_loop] in *; rewrite Hf; [done|done|].
  by rewrite IH.
Qed.

Lemma class_end_length m n m' : class_end m = Ret (Some (n, m')) -> (length m' < length m)%nat.
Proof.
  revert n; induction m as [|c m IH]; intros n; [done|]. cbn [class_end length]. case_match.
  - intros [= <- <-]. lia.
  - case_match; [done|]. destruct (class_end m) as [[[k m'']|]|]; try done. cbn [obind].
    intros [= <- <-]. specialize (IH _ eq_refl). lia.
Qed.

Lemma class_end_fault m f : class_end m = Throw f -> f = Overrun.
Proof.
  induction m as [|c m IH]; cbn [class_end]; [by intros [= <-]|]. case_match; [done|].
  case_match; [done|]. destruct (class_end m) as [|f']; [done|]. cbn [obind]. intros [= ->]. auto.
Qed.

Lemma star_follows_tail m : star_follows m = true -> (length (tail m) < length m)%nat.
Proof. destruct m; simpl; [done|lia]. Qed.

Lemma length_tail (m : list Z) : (length (tail m) <= length m)%nat.
Proof. destruct m; simpl; lia. Qed.

(** The code matches the items of its pattern. *)
Lemma SLEUTH_AUX_items fuel : forall flags m search,
  (length m < fuel)%nat ->
  SLEUTH_AUX to_upper fuel flags m search
  = match_items (parse fuel flags m).1 (parse fuel flags m).2 search.
Proof.
  induction fuel as [|fuel IH]; intros flags m search Hf; [lia|].
  destruct m as [|c m]; [done|]. cbn [length] in Hf.
  assert (Hstar : forall t m, (length m < fuel)%nat -> t <> T_any ->
    star_loop (SLEUTH_AUX to_upper fuel flags (tail m)) (accepts t) search
    = match_items (Star t :: (parse fuel flags (tail m)).1) (parse fuel flags (tail m)).2 search).
  { intros t m' Hl Ht. pose proof (length_tail m').
    destruct t; try done; cbn [match_items]; apply star_loop_ext; try done; intros p; apply IH; lia. }
  cbn [SLEUTH_AUX parse].
  assert (Hnext : forall (r : option (Z * bool * list Z)) (k : _ -> outcome bool),
    obind (match r return outcome (Z * bool * list Z) with Some x => Ret x | None => Throw Overrun end) k
    = match r with Some x => k x | None => Throw Overrun end) by (by intros []).
  set (r := if c =? GDML_QUOTE then _ else Some _).
  assert (E : (if c =? GDML_QUOTE then
       let* (c0, match_0) := read_byte m in Ret (c0, negb (c0 =? 0) || ordinary c0, match_0)
     else Ret (c, ordinary c, m)) = match r with Some x => Ret x | None => Throw Overrun end)
    by (unfold r; destruct (c =? GDML_QUOTE); [by destruct m|done]).
  assert (Hr : forall c' l m', r = Some (c', l, m') -> (length m' < fuel)%nat).
  { unfold r. intros c' l m'. case_match; [destruct m as [|d m]; [done|]|];
      intros [= <- <- <-]; simpl in *; lia. }
  rewrite E, Hnext. destruct r as [[[c' literal] m']|]; [|done].
  specialize (Hr _ _ _ eq_refl). pose proof (length_tail m').
  destruct literal.
  { destruct (star_follows m') eqn:Hs; cbn [add_item fst snd].
    - by rewrite <-Hstar.
    - cbn [match_items]. destruct search as [|d search]; [done|]. cbn [accepts obind].
      destruct (COND_UPPER to_upper flags c' =? COND_UPPER to_upper flags d); [by apply IH|done]. }
  destruct (c' =? GDML_MATCH_ONE).
  { destruct (star_follows m') eqn:Hs; cbn [andb].
    - destruct (is_nil (tail m')); [done|]. cbn [add_item fst snd match_items].
      apply any_loop_ext. intros p. apply IH. lia.
    - cbn [add_item fst snd match_items]. destruct search as [|d search]; [done|]. by apply IH. }
  destruct (c' =? GDML_CLASS_START).
  { destruct (class_end m') as [[[n m'']|]|f] eqn:Hc; cbn [obind]; [|done|].
    - pose proof (class_end_length _ _ _ Hc). destruct (star_follows m'') eqn:Hs; cbn [add_item fst snd].
      + rewrite <-Hstar by (done || lia). done.
      + cbn [match_items]. destruct search as [|d search]; [done|]. cbn [read_byte obind accepts].
        destruct (SLEUTH_CLASS_NAME _ _ _ _ _) as [[]|]; cbn [obind]; try done. apply IH. lia.
    - by rewrite (class_end_fault _ _ Hc). }
  destruct (Z.eqb_spec c' GDML_FLAG_SET) as [->|Hset]; cbn [orb].
  { destruct m' as [|d m']; [done|]. cbn [read_byte obind]. simpl in Hr. apply IH. lia. }
  destruct (Z.eqb_spec c' GDML_FLAG_CLEAR) as [->|Hclear].
  { destruct m' as [|d m']; [done|]. cbn [read_byte obind]. simpl in Hr. apply IH. lia. }
  by apply IH.
Qed.

(** Fuel beyond the length of the pattern changes nothing. *)
Lemma parse_fuel fuel : forall fuel' flags m,
  (length m < fuel)%nat -> (length m < fuel')%nat ->
  parse fuel flags m = parse fuel' flags m.
Proof.
  induction fuel as [|fuel IH]; intros [|fuel'] flags m Hf Hf'; try lia.
  destruct m as [|c m]; [done|]. cbn [length] in *. cbn [parse].
  assert (Hitem : forall t m', (length m' <= length m)%nat ->
    (if star_follows m' then add_item (Star t) (parse fuel flags (tail m'))
     else add_item (Single t) (parse fuel flags m'))
    = (if star_follows m' then add_item (Star t) (parse fuel' flags (tail m'))
       else add_item (Single t) (parse fuel' flags m'))).
  { intros t m' Hl. pose proof (length_tail m'). by rewrite !(IH fuel') by lia. }
  set (r := if c =? GDML_QUOTE then _ else Some _).
  assert (Hr : forall c' l m', r = Some (c', l, m') -> (length m' <= length m)%nat).
  { unfold r. intros c' l m'. case_match; [destruct m as [|d m]; [done|]|];
      intros [= <- <- <-]; simpl in *; lia. }
  destruct r as [[[c' literal] m']|]; [|done]. specialize (Hr _ _ _ eq_refl).
  rewrite !Hitem by done. destruct literal; [done|]. destruct (c' =? GDML_MATCH_ONE); [done|].
  destruct (c' =? GDML_CLASS_START).
  { destruct (class_end m') as [[[n m'']|]|f] eqn:Hc; [|done|done].
    apply class_end_length in Hc. apply Hitem. lia. }
  destruct (_ || _); [|apply IH; lia].
  destruct m' as [|d m']; [done|]. simpl in Hr. apply IH; lia.
Qed.

(** *** Repetition *)

Lemma star_loop_true f t s :
  star_loop f t s = Ret true ->
  exists s1 s2, s = s1 ++ s2 /\ Forall (fun d => t d = Ret true) s1 /\ f s2 = Ret true.
Proof.
  induction s as [|d s IH]; cbn [star_loop]; destruct (f _) as [[]|e] eqn:E; cbn [obind]; try done;
    [by exists [], []|by exists [], (d :: s)|].
  destruct (t d) as [[]|] eqn:Ht; cbn [obind]; try done. intros H.
  destruct (IH H) as (s1 & s2 & -> & H1 & H2). exists (d :: s1), s2. split_and!; auto.
Qed.

Lemma star_loop_false f t s :
  star_loop f t s = Ret false ->
  forall s1 s2, s = s1 ++ s2 -> Forall (fun d => t d = Ret true) s1 -> f s2 = Ret false.
Proof.
  induction s as [|d s IH]; cbn [star_loop]; destruct (f _) as [[]|e] eqn:E; cbn [obind]; try done;
    intros H s1 s2 Hs Hall.
  - symmetry in Hs. apply app_nil in Hs as [-> ->]. done.
  - destruct s1 as [|d' s1]; simpl in Hs; [by subst|]. injection Hs as -> ->.
    inversion Hall as [|? ? Hd Hs1]; subst. rewrite Hd in H. cbn [obind] in H. eauto.
Qed.

Lemma star_loop_returns f t s :
  (forall p, exists b, f p = Ret b) -> (forall d, exists b, t d = Ret b) ->
  exists b, star_loop f t s = Ret b.
Proof.
  intros Hf Ht. induction s as [|d s [b IH]]; cbn [star_loop].
  - destruct (Hf []) as [[] ->]; cbn [obind]; eauto.
  - destruct (Hf (d :: s)) as [[] ->]; cbn [obind]; eauto.
    destruct (Ht d) as [[] ->]; cbn [obind]; eauto.
Qed.

Lemma any_loop_true f s :
  any_loop f s = Ret true -> exists s1 s2, s = s1 ++ s2 /\ f s2 = Ret true.
Proof.
  induction s as [|d s IH]; cbn [any_loop]; destruct (f _) as [[]|e] eqn:E; cbn [obind]; try done;
    [by exists [], []|by exists [], (d :: s)|].
  destruct s as [|d' s]; [done|]. intros H. destruct (IH H) as (s1 & s2 & -> & H2).
  by exists (d :: s1), s2.
Qed.

Lemma any_loop_false f s :
  any_loop f s = Ret false ->
  forall s1 s2, s = s1 ++ s2 -> s2 <> [] \/ s = [] -> f s2 = Ret false.
Proof.
  induction s as [|d s IH]; cbn [any_loop]; destruct (f _) as [[]|e] eqn:E; cbn [obind]; try done;
    intros H s1 s2 Hs Hne.
  - symmetry in Hs. apply app_nil in Hs as [-> ->]. done.
  - destruct s1 as [|d' s1]; simpl in Hs; [by subst|]. injection Hs as -> ->.
    destruct Hne as [Hne|]; [|done]. destruct (s1 ++ s2) as [|d'' s'] eqn:Es.
    { by apply app_nil in Es as [_ ->]. }
    apply (IH H s1 s2); auto.
Qed.

Lemma any_loop_returns f s : (forall p, exists b, f p = Ret b) -> exists b, any_loop f s = Ret b.
Proof.
  intros Hf. induction s as [|d s [b IH]]; cbn [any_loop].
  - destruct (Hf []) as [[] ->]; cbn [obind]; eauto.
  - destruct (Hf (d :: s)) as [[] ->]; cbn [obind]; eauto. destruct s; eauto.
Qed.

(** *** Items *)

Fixpoint has_single (items : list item) : bool :=
  match items with
  | Single _ :: _ => true
  | Star _ :: items => has_single items
  | _ => false
  end.

(** Each [?*] but a final one is followed by something that needs a
    character. *)
Fixpoint anchored (items : list item) : bool :=
  match items with
  | Star T_any :: items => has_single items && anchored items
  | _ :: items => anchored items
  | [] => true
  end.

(** No class that is not repeated, and classes that do not leave the
    pattern. *)
Definition item_total (i : item) : Prop :=
  match i with
  | Single (T_class _ _ _) => False
  | Star t => forall d, exists b, accepts t d = Ret b
  | _ => True
  end.

Lemma item_matches_nil items : has_single items = true -> ~ item_matches items [].
Proof.
  intros Hs H. remember [] as s eqn:E.
  induction H as [|t items d s Ha H IH|t items s1 s2 Ha H IH|items s]; try done.
  apply app_nil in E as [_ ->]. auto.
Qed.

Lemma match_items_true items e s : match_items items e s = Ret true -> item_matches items s.
Proof.
  revert s; induction items as [|[t|t|] items IH]; intros s; cbn [match_items].
  - destruct e; try done. destruct s; [constructor|done].
  - destruct s as [|d s]; [by destruct t|].
    destruct (accepts t d) as [[]|] eqn:Ha; cbn [obind]; try done. intros H.
    constructor; auto. 
  - intros H. assert (Hex : exists s1 s2, s = s1 ++ s2 /\
      Forall (fun d => accepts t d = Ret true) s1 /\ match_items items e s2 = Ret true).
    { destruct t; try (by apply star_loop_true in H).
      apply any_loop_true in H as (s1 & s2 & -> & H2). exists s1, s2. split_and!; auto.
      by apply Forall_true. }
    destruct Hex as (s1 & s2 & -> & H1 & H2). constructor; auto.
  - intros _. constructor.
Qed.

Lemma match_items_false items s :
  anchored items = true -> match_items items Good s = Ret false -> ~ item_matches items s.
Proof.
  revert s; induction items as [|[t|t|] items IH]; intros s Hanch; cbn [match_items anchored] in *.
  - intros H Hm. inversion Hm; subst. done.
  - destruct s as [|d s]; [intros _ Hm; inversion Hm|]. intros H Hm. inversion Hm as [|? ? ? ? Ha Hs| |]; subst.
    rewrite Ha in H. cbn [obind] in H. by apply IH in H.
  - intros H Hm. inversion Hm as [| |? ? s1 s2 Ha Hs|]; subst.
    assert (Hdec : t = T_any \/ t <> T_any) by (destruct t; auto).
    destruct Hdec as [->|Ht].
    + bool_hyps. destruct s2 as [|d s2]; [by eapply item_matches_nil|].
      apply (IH (d :: s2)); auto. eapply any_loop_false; eauto.
    + assert (Hanch' : anchored items = true) by (by destruct t).
      apply (IH s2); auto. eapply (star_loop_false _ (accepts t)); eauto. by destruct t.
  - done.
Qed.

Lemma match_items_returns items e s :
  e <> Truncated -> Forall item_total items -> exists b, match_items items e s = Ret b.
Proof.
  intros He Hi. revert s; induction Hi as [|[t|t|] items Ht Hi IH]; intros s; cbn [match_items].
  - destruct e; eauto. done.
  - destruct s as [|d s]; destruct t; cbn [accepts obind item_total] in *; eauto; try done.
    destruct (_ =? _); eauto.
  - destruct t; [apply star_loop_returns; auto|by apply any_loop_returns|apply star_loop_returns; auto].
  - eauto.
Qed.

(** SLEUTH decides its pattern: with fuel beyond the pattern's length
    the result depends on its items only; a string it accepts matches them; a
    string it rejects does not, provided each inner [?*] is followed by a test
    that needs a character; and it returns a result whenever the pattern does
    not end inside a quote, flag or class and every class is repeated. *)
Theorem SLEUTH_AUX_spec flags m search fuel :
  (length m < fuel)%nat ->
  let (items, e) := parse (S (length m)) flags m in
  (SLEUTH_AUX to_upper fuel flags m search = Ret true -> item_matches items search) /\
  (e = Good -> anchored items = true ->
   SLEUTH_AUX to_upper fuel flags m search = Ret false -> ~ item_matches items search) /\
  (e <> Truncated -> Forall item_total items ->
   exists b, SLEUTH_AUX to_upper fuel flags m search = Ret b).
Proof.
  intros Hf. rewrite (SLEUTH_AUX_items _ _ _ _ Hf), (parse_fuel fuel (S (length m))) by lia.
  destruct (parse (S (length m)) flags m) as [items e]. cbn [fst snd]. split_and!.
  - apply match_items_true.
  - intros ->. apply match_items_false.
  - apply match_items_returns.
Qed.

End sleuth_spec.

Definition ascii_upper (c : Z) : Z := if (97 <=? c) && (c <=? 122) then c - 32 else c.

(** The pattern [a*?*B], folding case, against [AAxb]. *)
Lemma SLEUTH_AUX_spec_witness :
  item_matches ascii_upper [Star (T_lit 65 1); Star T_any; Single (T_lit 66 1)] [65; 65; 120; 98] /\
  SLEUTH_AUX ascii_upper 7 1 [97; 42; 63; 42; 66] [65; 65; 120; 98] = Ret true.
Proof.
  split; [|reflexivity].
  exact (proj1 (SLEUTH_AUX_spec ascii_upper 1 [97; 42; 63; 42; 66] [65; 65; 120; 98] 7
    ltac:(simpl; lia)) eq_refl).
Defined.

(** ** Classes *)

Inductive class_item := CChar (c : Z) | CRange (lo hi : Z) | CQuoted (c : Z).

Definition class_text (i : class_item) : list Z :=
  match i with
  | CChar c => [c]
  | CRange lo hi => [lo; GDML_RANGE; hi]
  | CQuoted c => [GDML_QUOTE; c]
  end.

(** The first character of an item is not taken for something else. *)
Definition class_item_ok (i : class_item) : Prop :=
  match i with
  | CChar c | CRange c _ => c <> GDML_QUOTE /\ c <> GDML_RANGE
  | CQuoted _ => True
  end.

Definition hit (ch : Z) (i : class_item) : bool :=
  match i with
  | CChar c => ch =? c
  | CRange lo hi => (lo <=? ch) && (ch <=? hi)
  | CQuoted c => c =? ch
  end.

Definition is_quoted (i : class_item) : bool := match i with CQuoted _ => true | _ => false end.

(** The first item that holds the character decides. *)
Fixpoint class_result (result : bool) (items : list class_item) (ch : Z) : bool :=
  match items with
  | [] => negb result
  | i :: items => if hit ch i then is_quoted i || result else class_result result items ch
  end.

Definition class_chars (items : list class_item) : list Z := concat (map class_text items).

Lemma class_chars_next items rest :
  Forall class_item_ok items ->
  exists d s, class_chars items ++ GDML_CLASS_END :: rest = d :: s /\ d <> GDML_RANGE.
Proof.
  intros H. destruct H as [|i items Hi _]; [by eexists _, _|]. unfold class_chars. cbn [map concat].
  destruct i; cbn [class_text app class_item_ok] in *; (do 2 eexists; split; [reflexivity|]; first [done|tauto]).
Qed.

Lemma class_loop_items items rest ch result : forall fuel,
  Forall class_item_ok items -> (length (class_chars items) < fuel)%nat ->
  class_loop fuel (class_chars items ++ GDML_CLASS_END :: rest)
    (Z.of_nat (length (class_chars items))) ch result
  = Ret (class_result result items ch).
Proof.
  induction items as [|i items IH]; intros fuel Hok Hf; (destruct fuel as [|fuel]; [lia|]); [done|].
  inversion Hok as [|? ? Hi Hok']; subst.
  change (class_chars (i :: items)) with (class_text i ++ class_chars items) in *.
  rewrite length_app, <-app_assoc in *. cbn [class_loop].
  destruct (class_chars_next items rest Hok') as (d & s & Es & Hd).
  destruct i as [c|lo hi|c]; cbn [class_text length app Nat.add class_item_ok class_result hit is_quoted] in *;
    (rewrite (proj2 (Z.leb_gt _ _)) by lia); cbn [read_byte obind].
  - rewrite (proj2 (Z.eqb_neq c GDML_QUOTE)) by tauto. rewrite Es. cbn [read_byte obind].
    rewrite (proj2 (Z.eqb_neq d GDML_RANGE)) by done. destruct (ch =? c); [done|].
    rewrite <-Es, <-(IH fuel) by (done || lia). f_equal. lia.
  - rewrite (proj2 (Z.eqb_neq lo GDML_QUOTE)) by tauto. rewrite Z.eqb_refl.
    destruct (_ && _); [done|]. rewrite <-(IH fuel) by (done || lia). f_equal. lia.
  - rewrite Z.eqb_refl. destruct (c =? ch); [done|].
    rewrite <-(IH fuel) by (done || lia). f_equal. lia.
Qed.

(** A class decides membership among its characters, ranges and quoted
    characters, or with a leading [~] the converse - except that a quoted
    character that occurs is accepted even by a negated class. *)
Theorem SLEUTH_CLASS_spec to_upper flags negated items rest d :
  Forall class_item_ok items ->
  (negated = false -> forall s, class_chars items <> GDML_NOT :: s) ->
  let text := (if negated then [GDML_NOT] else []) ++ class_chars items in
  let ch := COND_UPPER to_upper flags d in
  SLEUTH_CLASS_NAME to_upper flags (text ++ GDML_CLASS_END :: rest) (Z.of_nat (length text)) d
    = Ret (class_result (negb negated) items ch) /\
  (forallb (fun i => negb (is_quoted i)) items = true ->
   class_result (negb negated) items ch = xorb negated (existsb (hit ch) items)) /\
  (existsb (fun i => is_quoted i && hit ch i) items = true -> negated = true ->
   forallb (fun i => is_quoted i || negb (hit ch i)) items = true ->
   class_result (negb negated) items ch = true).
Proof.
  intros Hok Hnot text ch. split_and!.
  - unfold SLEUTH_CLASS_NAME, text. fold ch. destruct negated; cbn [app read_byte obind].
    + rewrite Z.eqb_refl. cbn [length]. rewrite <-(class_loop_items items rest ch _ (S (Z.to_nat (Z.of_nat (S (length (class_chars items))))))) by (done || lia).
      f_equal. lia.
    + destruct (class_chars items ++ GDML_CLASS_END :: rest) as [|c s] eqn:E.
      { by apply app_nil in E as [_ ?]. }
      cbn [read_byte obind]. destruct (Z.eqb_spec c GDML_NOT) as [->|Hne].
      { destruct (class_chars items) as [|c' s'] eqn:Ec; [done|]. simpl in E. injection E as -> _.
        by apply Hnot in Ec || (exfalso; by apply (Hnot eq_refl s')). }
      rewrite <-E. apply class_loop_items; [done|lia].
  - clear. intros H. induction items as [|i items IH]; cbn [class_result existsb forallb] in *.
    { by destruct negated. }
    bool_hyps. rewrite H. destruct (hit ch i); [by destruct negated|]. auto.
  - clear. intros He -> H. induction items as [|i items IH]; [done|].
    cbn [class_result existsb forallb] in *. bool_hyps.
    destruct (hit ch i); [|rewrite andb_false_r in He; auto].
    cbn [negb] in *. by destruct (is_quoted i).
Qed.

Lemma SLEUTH_CLASS_spec_witness :
  SLEUTH_CLASS_NAME ascii_upper 1 [126; 64; 65; 48; 45; 57; 93] 6 97 = Ret true.
Proof.
  refine (proj1 (SLEUTH_CLASS_spec ascii_upper 1 true [CQuoted 65; CRange 48 57] [] 97 _ _)).
  - repeat constructor; vm_compute; congruence.
  - discriminate.
Defined.

(** ** Merged patterns *)

(** What the merge produces for a literal: the special characters quoted. *)
Definition quote_special (c : Z) : list Z := if special c then [GDML_QUOTE; c] else [c].

Definition literal_char (c : Z) : Prop := 0 < c < 256 /\ c <> GDML_QUOTE.

Lemma ends_quoted_app s c : ends_quoted (s ++ [c]) = (c =? GDML_QUOTE).
Proof. unfold ends_quoted. by rewrite last_snoc. Qed.

Lemma merge_match_literal match_ after : forall fuel comb,
  Forall literal_char match_ -> comb <> [] -> ends_quoted comb = false ->
  (length match_ < fuel)%nat ->
  merge_match fuel 0 match_ after (mk_merge comb [] [])
  = Ret (comb ++ concat (map quote_special match_)).
Proof.
  induction match_ as [|c match_ IH]; intros fuel comb Hl Hne Hq Hf; cbn [length] in Hf;
    (destruct fuel as [|fuel]; [lia|]).
  { cbn. by rewrite app_nil_r. }
  inversion Hl as [|? ? [Hc Hcq] Hl']; subst. cbn [merge_match].
  rewrite (proj2 (Z.leb_gt _ _)), (proj2 (Z.ltb_lt _ _)) by lia. cbn [obind combined andb].
  rewrite Hq. assert (Hn : is_nil comb = false) by (by destruct comb). rewrite Hn. cbn [negb andb].
  rewrite andb_true_r, andb_true_r. cbn [map concat]. unfold quote_special at 1.
  destruct (special c); rewrite IH, <-?app_assoc; try done; try lia;
    try (intros E%app_nil; destruct E; done); by rewrite ends_quoted_app, (proj2 (Z.eqb_neq _ _)).
Qed.

Lemma ordinary_special c : 0 < c < 256 -> ordinary c = negb (special c).
Proof. intros H. unfold ordinary. by rewrite (proj2 (Z.ltb_lt _ _)) by lia. Qed.

Lemma quoted_not_star match_ : star_follows (concat (map quote_special match_)) = false.
Proof.
  destruct match_ as [|c match_]; [done|]. cbn [map concat]. unfold quote_special at 1.
  destruct (special c) eqn:E; [done|]. cbn [app star_follows]. apply Z.eqb_neq. intros ->. done.
Qed.

Lemma parse_literal to_upper flags match_ : forall fuel,
  Forall literal_char match_ -> (length (concat (map quote_special match_)) < fuel)%nat ->
  parse to_upper fuel flags (concat (map quote_special match_))
  = (map (fun c => Single (T_lit (COND_UPPER to_upper flags c) flags)) match_, Good).
Proof.
  induction match_ as [|c match_ IH]; intros fuel Hl Hf; (destruct fuel as [|fuel]; [lia|]); [done|].
  inversion Hl as [|? ? [Hc Hcq] Hl']; subst. cbn [map concat] in *. unfold quote_special at 1.
  rewrite length_app in Hf. pose proof (ordinary_special c Hc) as Ho. unfold quote_special in Hf at 1.
  destruct (special c) eqn:Hs; cbn [app parse length] in *.
  - rewrite Z.eqb_refl, (proj2 (Z.eqb_neq c 0)) by lia. cbn [negb orb].
    rewrite quoted_not_star, IH by (done || lia). done.
  - rewrite (proj2 (Z.eqb_neq c GDML_QUOTE)), Ho by done. cbn [negb].
    rewrite quoted_not_star, IH by (done || lia). done.
Qed.

(** Without a control string, merging quotes what is special in a
    pattern after its first character, and the merged pattern accepts exactly
    the pattern itself, up to the case folding that is in force. *)
Theorem SLEUTH_MERGE_literal to_upper width room c match_ after flags search :
  literal_char c -> special c = false -> Forall literal_char match_ ->
  (2 * length match_ < room)%nat -> 0 < width ->
  exists pattern, SLEUTH_MERGE_NAME width room (c :: match_) after [] 0 = Ret pattern /\
    decides (SLEUTHNAME to_upper flags search pattern)
      (map (COND_UPPER to_upper flags) search = map (COND_UPPER to_upper flags) (c :: match_)).
Proof.
  intros Hc Hs Hl Hroom Hw. unfold SLEUTH_MERGE_NAME. cbn [length merge_control obind vector].
  assert (Hz : wrap_u width (Z.of_nat 0) = 0) by (apply wrap_u_small; pose proof (Z.pow_pos_nonneg 2 width); lia).
  rewrite Hz. destruct Hc as [Hc Hcq].
  assert (E : merge_match (S (S (length match_))) 0 (c :: match_) after (mk_merge [] [] [])
    = Ret (concat (map quote_special (c :: match_)))).
  { assert (Hf : (length match_ < S (length match_))%nat) by lia. revert Hf.
    generalize (S (length match_)) as fuel. intros fuel Hf. cbn [merge_match].
    rewrite (proj2 (Z.leb_gt _ _)), (proj2 (Z.ltb_lt _ _)) by lia.
    cbn [obind combined vector temp]. rewrite Hs. cbn [andb app]. rewrite merge_match_literal; try done.
    - cbn [app map concat]. unfold quote_special at 2. by rewrite Hs.
    - cbn. by rewrite (proj2 (Z.eqb_neq _ _)). }
  rewrite E. cbn [obind]. rewrite app_nil_r. set (pattern := concat _).
  assert (Hlen : (length pattern <= 1 + 2 * length match_)%nat).
  { unfold pattern. cbn [map concat]. rewrite length_app. unfold quote_special at 1. rewrite Hs. cbn [length].
    assert (H : (length (concat (map quote_special match_)) <= 2 * length match_)%nat); [|lia].
    clear. induction match_ as [|d m IH]; [simpl; lia|]. cbn [map concat length]. rewrite length_app.
    unfold quote_special at 1. destruct (special d); cbn [length]; lia. }
  rewrite (proj2 (Nat.ltb_ge _ _)) by lia. exists pattern. split; [done|].
  assert (Hl' : Forall literal_char (c :: match_)) by (by constructor).
  unfold SLEUTHNAME. rewrite SLEUTH_AUX_items by lia. unfold pattern.
  rewrite parse_literal by (done || lia). cbn [fst snd]. clear.
  generalize (c :: match_) as m. intros m. revert search.
  induction m as [|e m IH]; intros search; cbn [map match_items].
  - destruct search; [left|right]; done.
  - destruct search as [|d search]; [right; done|]. cbn [accepts obind map].
    destruct (Z.eqb_spec (COND_UPPER to_upper flags e) (COND_UPPER to_upper flags d)) as [->|Hne].
    + eapply decides_iff; [|apply IH]. split; [by intros ->|by intros [= ->]].
    + apply decides_false. intros [= E _]. congruence.
Qed.

Lemma SLEUTH_MERGE_literal_witness :
  exists pattern, SLEUTH_MERGE_NAME 8 20 [97; 42; 98] 0 [] 0 = Ret pattern /\
    decides (SLEUTHNAME ascii_upper 1 [65; 42; 66] pattern)
      (map (COND_UPPER ascii_upper 1) [65; 42; 66] = map (COND_UPPER ascii_upper 1) [97; 42; 98]).
Proof.
  refine (SLEUTH_MERGE_literal ascii_upper 8 20 97 [42; 98] 0 1 [65; 42; 66] _ eq_refl _ _ _).
  - unfold literal_char, GDML_QUOTE. lia.
  - repeat constructor; unfold GDML_QUOTE; lia.
  - simpl; lia.
  - lia.
Defined.

End EvlLike.
