(* ===== verification/SyncObject.v ===== *)
(** * Synchronization objects (jrd/SyncObject.cpp)

    The read/write lock of the engine as a transition system.  A thread is at
    a program point [pc]; a step of a thread is one access to the shared
    variables: a read, a compare-exchange, a write, or, while the mutex is
    held, the accesses to what only its owner touches.  A thread that waits
    for the mutex or for its grant has no step.  [held] records the locks that
    were acquired and not yet released; the code does not have it.

    The invariant of all interleavings gives mutual exclusion, that the
    assertions of the code hold, that a returning [lock] owns its lock, and
    that no wakeup is lost. *)

From stdpp Require Import functions.
From S2P Require Import Prelude.

Module SyncObject.

Inductive LockType := Shared | Exclusive.

#[export] Instance LockType_eq_dec : EqDecision LockType.
Proof. solve_decision. Defined.

(** ** State *)

(** The program points. [cond] tells [lockConditional] from [lock]; [old] is
    the value a loop has read; [i] the position of [ptr] in the queue. *)
Inductive pc :=
| Ready (result : bool)
(* lock and lockConditional, Shared *)
| LS (cond : bool) | LS_cas (cond : bool) (old : Z)
| LS_mutex | LS_bump | LS_slow | LS_slow_cas (old : Z) | LS_exit
(* lock and lockConditional, Exclusive *)
| LX (cond : bool) | LX_waiters (cond : bool) | LX_read (cond : bool) | LX_cas (cond : bool) | LX_set
| LX_mutex | LX_bump | LX_slow | LX_slow_cas | LX_slow_set | LX_exit
(* wait *)
| W_enqueue (ty : LockType) | W_sleep (ty : LockType)
(* unlock *)
| U (ty : LockType) | U_read (ty : LockType) | U_clear (ty : LockType) (old : Z)
| U_cas (ty : LockType) (old : Z) | U_check
(* downGrade *)
| D | D_cas
(* grantLocks *)
| G_mutex | G_assert | G_scan (i : nat) | G_shared_cas (i : nat) (old : Z) | G_excl_cas (i : nat)
| G_unlink (i : nat) (ty : LockType) | G_grant (i : nat) (thread : nat)
(* an assertion failed or "single thread deadlock" was thrown *)
| Failed.

Record state := mk_state {
  lockState : Z;
  waiters : Z;
  monitorCount : Z;
  exclusiveThread : option nat;
  mutex : option nat;
  que : list (nat * LockType);
  lockGranted : nat -> bool;
  held : list (nat * LockType);
  pcs : nat -> pc
}.

Definition init : state := mk_state 0 0 0 None None [] (fun _ => false) [] (fun _ => Ready true).

Definition goto (t : nat) (p : pc) (s : state) : state :=
  mk_state (lockState s) (waiters s) (monitorCount s) (exclusiveThread s) (mutex s) (que s)
    (lockGranted s) (held s) (<[t := p]> (pcs s)).

Definition set_lock (l : Z) (h : list (nat * LockType)) (s : state) : state :=
  mk_state l (waiters s) (monitorCount s) (exclusiveThread s) (mutex s) (que s)
    (lockGranted s) h (pcs s).

Definition bumpWaiters (delta : Z) (s : state) : state :=
  mk_state (lockState s) (waiters s + delta) (monitorCount s) (exclusiveThread s) (mutex s) (que s)
    (lockGranted s) (held s) (pcs s).

Definition set_monitor (m : Z) (s : state) : state :=
  mk_state (lockState s) (waiters s) m (exclusiveThread s) (mutex s) (que s)
    (lockGranted s) (held s) (pcs s).

Definition set_exclusive (e : option nat) (s : state) : state :=
  mk_state (lockState s) (waiters s) (monitorCount s) e (mutex s) (que s)
    (lockGranted s) (held s) (pcs s).

Definition set_mutex (m : option nat) (s : state) : state :=
  mk_state (lockState s) (waiters s) (monitorCount s) (exclusiveThread s) m (que s)
    (lockGranted s) (held s) (pcs s).

Definition set_que (q : list (nat * LockType)) (s : state) : state :=
  mk_state (lockState s) (waiters s) (monitorCount s) (exclusiveThread s) (mutex s) q
    (lockGranted s) (held s) (pcs s).

Definition set_granted (t : nat) (b : bool) (s : state) : state :=
  mk_state (lockState s) (waiters s) (monitorCount s) (exclusiveThread s) (mutex s) (que s)
    (<[t := b]> (lockGranted s)) (held s) (pcs s).

(** Releasing drops one of the locks held. *)
Fixpoint release (x : nat * LockType) (l : list (nat * LockType)) : list (nat * LockType) :=
  match l with
  | [] => []
  | y :: l => if decide (x = y) then l else y :: release x l
  end.

(** ** Steps *)

Definition acquire_mutex (t : nat) (p : pc) (s : state) : option state :=
  match mutex s with
  | None => Some (goto t p (set_mutex (Some t) s))
  | Some _ => None
  end.

Definition step_lock_shared (t : nat) (s : state) : option state :=
  match pcs s t with
  | LS cond =>
      Some (if lockState s <? 0 then goto t (if cond then Ready false else LS_mutex) s
            else goto t (LS_cas cond (lockState s)) s)
  | LS_cas cond old =>
      Some (if lockState s =? old
            then goto t (Ready true) (set_lock (old + 1) ((t, Shared) :: held s) s)
            else goto t (LS cond) s)
  | LS_mutex => acquire_mutex t LS_bump s
  | LS_bump => Some (goto t LS_slow (bumpWaiters 1 s))
  | LS_slow =>
      Some (if lockState s <? 0 then goto t (W_enqueue Shared) s
            else goto t (LS_slow_cas (lockState s)) s)
  | LS_slow_cas old =>
      Some (if lockState s =? old
            then goto t LS_exit (set_lock (old + 1) ((t, Shared) :: held s) s)
            else goto t LS_slow s)
  | LS_exit => Some (goto t (Ready true) (set_mutex None (bumpWaiters (-1) s)))
  | _ => None
  end.

Definition step_lock_exclusive (t : nat) (s : state) : option state :=
  match pcs s t with
  | LX cond =>
      Some (if decide (exclusiveThread s = Some t)
            then goto t (Ready true) (set_monitor (monitorCount s + 1) s)
            else goto t (LX_waiters cond) s)
  | LX_waiters cond =>
      Some (goto t (if waiters s =? 0 then LX_read cond
                    else if cond then Ready false else LX_mutex) s)
  | LX_read cond =>
      Some (goto t (if lockState s =? 0 then LX_cas cond
                    else if cond then Ready false else LX_mutex) s)
  | LX_cas cond =>
      Some (if lockState s =? 0
            then goto t LX_set (set_lock (-1) ((t, Exclusive) :: held s) s)
            else goto t (LX_waiters cond) s)
  | LX_set => Some (goto t (Ready true) (set_exclusive (Some t) s))
  | LX_mutex => acquire_mutex t LX_bump s
  | LX_bump => Some (goto t LX_slow (bumpWaiters 1 s))
  | LX_slow =>
      Some (goto t (match que s with
                    | [] => if lockState s =? 0 then LX_slow_cas else W_enqueue Exclusive
                    | _ => W_enqueue Exclusive
                    end) s)
  | LX_slow_cas =>
      Some (if lockState s =? 0
            then goto t LX_slow_set (set_lock (-1) ((t, Exclusive) :: held s) s)
            else goto t LX_slow s)
  | LX_slow_set => Some (goto t LX_exit (set_exclusive (Some t) s))
  | LX_exit => Some (goto t (Ready true) (set_mutex None (bumpWaiters (-1) s)))
  | _ => None
  end.

Definition step_wait (t : nat) (s : state) : option state :=
  match pcs s t with
  | W_enqueue ty =>
      Some (if decide (t ∈ (que s).*1) then goto t Failed (set_mutex None s)
            else goto t (W_sleep ty)
                   (set_mutex None (set_granted t false (set_que (que s ++ [(t, ty)]) s))))
  | W_sleep ty => if lockGranted s t then Some (goto t (Ready true) s) else None
  | _ => None
  end.

Definition step_unlock (t : nat) (s : state) : option state :=
  match pcs s t with
  | U ty =>
      Some (if negb (bool_decide (ty = Shared) && (0 <? lockState s)
                     || bool_decide (ty = Exclusive) && (lockState s =? -1))
            then goto t Failed s
            else if negb (monitorCount s =? 0)
            then if 0 <? monitorCount s
                 then goto t (Ready true) (set_monitor (monitorCount s - 1) s)
                 else goto t Failed s
            else goto t (U_read ty) s)
  | U_read ty => Some (goto t (U_clear ty (lockState s)) s)
  | U_clear ty old => Some (goto t (U_cas ty old) (set_exclusive None s))
  | U_cas ty old =>
      Some (if lockState s =? old
            then goto t U_check
                   (set_lock (match ty with Shared => old - 1 | Exclusive => 0 end)
                      (release (t, ty) (held s)) s)
            else goto t (U_read ty) s)
  | U_check => Some (goto t (if waiters s =? 0 then Ready true else G_mutex) s)
  | D =>
      Some (if (monitorCount s =? 0) && (lockState s =? -1) then goto t D_cas s
            else goto t Failed s)
  | D_cas =>
      Some (if lockState s =? -1
            then goto t U_check (set_lock 1 ((t, Shared) :: release (t, Exclusive) (held s)) s)
            else s)
  | _ => None
  end.

Definition step_grant (t : nat) (s : state) : option state :=
  match pcs s t with
  | G_mutex => acquire_mutex t G_assert s
  | G_assert =>
      Some (if bool_decide (waiters s = 0 <-> que s = []) then goto t (G_scan 0) s
            else goto t Failed s)
  | G_scan i =>
      Some (match que s !! i with
            | None => goto t (Ready true) (set_mutex None s)
            | Some (_, Shared) =>
                goto t (if 0 <=? lockState s then G_shared_cas i (lockState s) else G_scan (S i)) s
            | Some (_, Exclusive) =>
                goto t (if lockState s =? 0 then G_excl_cas i else G_scan (S i)) s
            end)
  | G_shared_cas i old =>
      match que s !! i with
      | Some (thread, _) =>
          Some (if lockState s =? old
                then goto t (G_unlink i Shared) (set_lock (old + 1) ((thread, Shared) :: held s) s)
                else goto t (G_scan i) s)
      | None => None
      end
  | G_excl_cas i =>
      match que s !! i with
      | Some (thread, _) =>
          Some (if lockState s =? 0
                then goto t (G_unlink i Exclusive) (set_lock (-1) ((thread, Exclusive) :: held s) s)
                else goto t (G_scan i) s)
      | None => None
      end
  | G_unlink i ty =>
      match que s !! i with
      | Some (thread, _) =>
          let s := match ty with
                   | Shared => s
                   | Exclusive => set_exclusive (Some thread) s
                   end in
          Some (goto t (G_grant i thread) (bumpWaiters (-1) (set_que (delete i (que s)) s)))
      | None => None
      end
  | G_grant i thread => Some (goto t (G_scan i) (set_granted thread true s))
  | _ => None
  end.

(** One step of thread [t]; [None] when it is outside the object's routines
    or blocked. *)
Definition step (t : nat) (s : state) : option state :=
  match step_lock_shared t s with
  | Some s => Some s
  | None =>
      match step_lock_exclusive t s with
      | Some s => Some s
      | None =>
          match step_wait t s with
          | Some s => Some s
          | None =>
              match step_unlock t s with
              | Some s => Some s
              | None => step_grant t s
              end
          end
      end
  end.

(** ** Calls *)

Inductive call := CLock (ty : LockType) | CLockConditional (ty : LockType)
  | CUnlock (ty : LockType) | CDownGrade.

Definition entry (c : call) : pc :=
  match c with
  | CLock Shared => LS false
  | CLock Exclusive => LX false
  | CLockConditional Shared => LS true
  | CLockConditional Exclusive => LX true
  | CUnlock ty => U ty
  | CDownGrade => D
  end.

(** What a caller observes: it releases and downgrades only what it holds,
    and does not ask for the exclusive lock while it has a shared one. *)
Definition disciplined (t : nat) (c : call) (s : state) : Prop :=
  match c with
  | CLock Exclusive | CLockConditional Exclusive => (t, Shared) ∉ held s
  | CLock Shared | CLockConditional Shared => True
  | CUnlock ty => (t, ty) ∈ held s
  | CDownGrade => (t, Exclusive) ∈ held s /\ monitorCount s = 0
  end.

Inductive moves (P : nat -> call -> state -> Prop) : state -> state -> Prop :=
| moves_step t s s' : step t s = Some s' -> moves P s s'
| moves_call t c s r : pcs s t = Ready r -> P t c s -> moves P s (goto t (entry c) s).

(** The states that threads observing [P] can reach. *)
Inductive reachable (P : nat -> call -> state -> Prop) : state -> Prop :=
| reachable_init : reachable P init
| reachable_moves s s' : reachable P s -> moves P s s' -> reachable P s'.

(** ** Queries

    These read the shared variables without a lock of their own; here in one
    step. *)
Definition isLocked (s : state) : bool := negb (lockState s =? 0).

Definition getState (s : state) : option LockType :=
  if lockState s =? 0 then None
  else if lockState s <? 0 then Some Exclusive else Some Shared.

(** [validate] asserts that the object is in a state. *)
Definition validate (lockType : option LockType) (s : state) : bool :=
  match lockType with
  | None => lockState s =? 0
  | Some Shared => 0 <? lockState s
  | Some Exclusive => lockState s =? -1
  end.

Definition ourExclusiveLock (t : nat) (s : state) : bool :=
  (lockState s =? -1) && bool_decide (exclusiveThread s = Some t).

(** [unlock()] releases whatever kind of lock is held. *)
Definition entry_unlock (s : state) : pc :=
  if 0 <? lockState s then U Shared else if lockState s =? -1 then U Exclusive else Failed.

(** ** The invariant *)

(** Program points between acquiring and releasing the mutex, and, among
    them, those where the owner counts as a waiter without being queued. *)
Definition in_mutex (p : pc) : bool :=
  match p with
  | LS_bump | LS_slow | LS_slow_cas _ | LS_exit
  | LX_bump | LX_slow | LX_slow_cas | LX_slow_set | LX_exit
  | W_enqueue _ | G_assert | G_scan _ | G_shared_cas _ _ | G_excl_cas _ | G_unlink _ _
  | G_grant _ _ => true
  | _ => false
  end.

Definition bumped (p : pc) : bool :=
  match p with
  | LS_slow | LS_slow_cas _ | LS_exit | LX_slow | LX_slow_cas | LX_slow_set | LX_exit
  | W_enqueue _ => true
  | _ => false
  end.

(** What each program point of a thread relies on. *)
Definition pc_ok (s : state) (t : nat) (p : pc) : Prop :=
  match p with
  | LS_cas _ old | LS_slow_cas old => 0 <= old
  | LX _ => (t, Shared) ∉ held s
  | LX_set | LX_slow_set => (t, Exclusive) ∈ held s
  | LS_exit => (t, Shared) ∈ held s
  | LX_exit => (t, Exclusive) ∈ held s
  | W_sleep ty => lockGranted s t = true -> (t, ty) ∈ held s
  | U ty => (t, ty) ∈ held s
  | U_read ty => (t, ty) ∈ held s /\ monitorCount s = 0
  | U_clear ty old =>
      (t, ty) ∈ held s /\ monitorCount s = 0 /\ (ty = Exclusive -> old = -1)
  | U_cas ty old =>
      (t, ty) ∈ held s /\ monitorCount s = 0 /\ (ty = Exclusive -> old = -1) /\
      exclusiveThread s = None
  | D | D_cas => (t, Exclusive) ∈ held s /\ monitorCount s = 0
  | G_shared_cas i old => 0 <= old /\ exists t', que s !! i = Some (t', Shared)
  | G_excl_cas i => exists t', que s !! i = Some (t', Exclusive)
  | G_unlink i ty => exists t', que s !! i = Some (t', ty) /\ (t', ty) ∈ held s
  | G_grant _ t' => exists ty, pcs s t' = W_sleep ty /\ (t', ty) ∈ held s /\
      lockGranted s t' = false /\ t' ∉ (que s).*1
  | Failed => False
  | _ => True
  end.

(** The lock state is what is held. *)
Definition count_ok (s : state) : Prop :=
  (lockState s = -1 /\ exists t, held s = [(t, Exclusive)]) \/
  (lockState s = Z.of_nat (length (held s)) /\ Forall (fun x => x.2 = Shared) (held s)).

(** [exclusiveThread] names a thread that holds a lock; the holder of an
    exclusive lock is named, but for the moments around the change. *)
Definition named (s : state) (t : nat) : Prop :=
  exclusiveThread s = Some t \/ pcs s t = LX_set \/ pcs s t = LX_slow_set \/
  (exists old, pcs s t = U_cas Exclusive old) \/
  (exists g i, mutex s = Some g /\ pcs s g = G_unlink i Exclusive /\ que s !! i = Some (t, Exclusive)).

Record inv (s : state) : Prop := {
  inv_count : count_ok s;
  inv_pc t : pc_ok s t (pcs s t);
  inv_exclusive t : exclusiveThread s = Some t -> exists ty, (t, ty) ∈ held s;
  inv_named t : (t, Exclusive) ∈ held s -> named s t;
  inv_monitor : 0 <= monitorCount s /\ (0 < monitorCount s -> exists t, held s = [(t, Exclusive)]);
  inv_mutex t : mutex s = Some t <-> in_mutex (pcs s t) = true;
  inv_que_nodup : NoDup (que s).*1;
  inv_que t ty : (t, ty) ∈ que s -> pcs s t = W_sleep ty /\ lockGranted s t = false;
  inv_waiters : waiters s = Z.of_nat (length (que s))
    + match mutex s with Some t => if bumped (pcs s t) then 1 else 0 | None => 0 end
}.

(** *** Facts on what is held *)

Lemma release_elem x y l : y ∈ release x l -> y ∈ l.
Proof.
  induction l as [|z l IH]; simpl; [done|]. case_decide as Hd; rewrite !elem_of_cons; [tauto|].
  intros [->|H]; auto.
Qed.

Lemma release_elem_ne x y l : x <> y -> y ∈ release x l <-> y ∈ l.
Proof.
  intros Hne. split; [apply release_elem|]. induction l as [|z l IH]; simpl; [done|].
  case_decide as Hd; rewrite !elem_of_cons; [intros [->|H]; [by subst|done]|].
  intros [->|H]; auto.
Qed.

Lemma release_length x l : x ∈ l -> S (length (release x l)) = length l.
Proof.
  induction l as [|z l IH]; simpl; [by intros ?%elem_of_nil|]. case_decide as Hd; [done|].
  rewrite elem_of_cons. intros [->|H]; [done|]. simpl. auto.
Qed.

Lemma release_Forall P x l : Forall P l -> Forall P (release x l).
Proof. induction 1; simpl; [constructor|]. case_decide; auto. Qed.

Lemma count_range s : count_ok s -> -1 <= lockState s.
Proof. intros [[-> _]|[-> _]]; lia. Qed.

Lemma count_exclusive s t : count_ok s -> (t, Exclusive) ∈ held s ->
  lockState s = -1 /\ held s = [(t, Exclusive)].
Proof.
  intros [[E [t' ->]]|[_ Hall]] Ht.
  - apply list_elem_of_singleton in Ht. by injection Ht as ->.
  - rewrite list.Forall_forall in Hall. by apply Hall in Ht.
Qed.

Lemma count_shared s t : count_ok s -> (t, Shared) ∈ held s ->
  0 < lockState s /\ Forall (fun x => x.2 = Shared) (held s).
Proof.
  intros [[E [t' H]]|[E Hall]] Ht.
  - rewrite H in Ht. by apply list_elem_of_singleton in Ht.
  - split; [|done]. destruct (held s); [by apply elem_of_nil in Ht|]. simpl in E. lia.
Qed.

Lemma count_zero s : count_ok s -> lockState s = 0 -> held s = [].
Proof. intros [[E _]|[E _]] H; [lia|]. apply nil_length_inv. lia. Qed.

Lemma count_add_shared s t l : count_ok s -> lockState s = l -> 0 <= l ->
  l + 1 = Z.of_nat (length ((t, Shared) :: held s)) /\
  Forall (fun x => x.2 = Shared) ((t, Shared) :: held s).
Proof.
  intros [[E _]|[E Hall]] Hl H0; [lia|]. split; [simpl; lia|by constructor].
Qed.

(** *** Framing

    What a step of [t] may do to the rest of the state without disturbing
    the other threads. *)
Record frame (t : nat) (s s' : state) : Prop := {
  frame_pcs t2 : t2 <> t -> pcs s' t2 = pcs s t2;
  frame_held t2 ty : t2 <> t -> (t2, ty) ∈ held s -> (t2, ty) ∈ held s';
  frame_held_rev t2 ty : t2 <> t -> (t2, ty) ∈ held s' ->
    (t2, ty) ∈ held s \/ exists ty', pcs s t2 = W_sleep ty';
  frame_monitor t2 ty : t2 <> t -> (t2, ty) ∈ held s -> monitorCount s = 0 -> monitorCount s' = 0;
  frame_exclusive t2 ty : t2 <> t -> (t2, ty) ∈ held s -> (forall ty', pcs s t2 <> W_sleep ty') ->
    exclusiveThread s = None -> exclusiveThread s' = None;
  frame_granted t2 ty : t2 <> t -> pcs s t2 = W_sleep ty -> lockGranted s' t2 = true ->
    lockGranted s t2 = true \/ (t2, ty) ∈ held s';
  frame_mutex : in_mutex (pcs s t) = false ->
    que s' = que s /\ (forall t2, t2 <> t -> lockGranted s' t2 = lockGranted s t2)
}.

Lemma pc_ok_frame t s s' t2 :
  inv s -> frame t s s' -> (forall ty, pcs s t <> W_sleep ty) -> t2 <> t -> pc_ok s' t2 (pcs s' t2).
Proof.
  intros Hi [F1 F2 F3 F4 F5 F6 F7] Ht Hne. rewrite F1 by done.
  pose proof (inv_pc s Hi t2) as Hpc.
  assert (Hm : in_mutex (pcs s t2) = true ->
    que s' = que s /\ (forall t2, t2 <> t -> lockGranted s' t2 = lockGranted s t2)).
  { intros H2. apply F7. destruct (in_mutex (pcs s t)) eqn:E; [|done].
    apply (inv_mutex s Hi) in E, H2. congruence. }
  assert (Hsleep : forall t' ty, pcs s t' = W_sleep ty -> t' <> t) by (intros t' ty H ->; by eapply Ht).
  destruct (pcs s t2) eqn:E; cbn [pc_ok in_mutex] in *; auto; try (by apply F2); try (specialize (Hm eq_refl) as [Q G]).
  - intros H. destruct (F3 _ _ Hne H) as [|[ty' ?]]; [done|congruence].
  - intros H. destruct (F6 _ _ Hne E H); auto.
  - destruct Hpc; split_and!; eauto.
  - destruct Hpc as (? & ? & ?); split_and!; eauto.
  - destruct Hpc as (? & ? & ? & ?); split_and!; eauto. eapply F5; eauto. by rewrite E.
  - destruct Hpc; split_and!; eauto.
  - destruct Hpc; split_and!; eauto.
  - by rewrite Q.
  - by rewrite Q.
  - rewrite Q. destruct Hpc as (t' & H1 & H2). exists t'. split; [done|].
    apply F2; [|done]. eapply Hsleep, (inv_que s Hi), list_elem_of_lookup_2, H1.
  - destruct Hpc as (ty & H1 & H2 & H3 & H4). pose proof (Hsleep _ _ H1) as Ht'.
    exists ty. rewrite F1, Q, G by done. auto.
Qed.

(** Threads that no other part of the invariant looks at. *)
Definition quiet (p : pc) : bool :=
  match p with
  | W_sleep _ | LX_set | LX_slow_set | U_cas Exclusive _ | G_unlink _ _ => false
  | _ => true
  end.

(** Control steps: only the program point, the mutex and the number of
    waiters change. *)
Definition control (t : nat) (p : pc) (m : option nat) (w : Z) (s : state) : state :=
  mk_state (lockState s) w (monitorCount s) (exclusiveThread s) m (que s)
    (lockGranted s) (held s) (<[t := p]> (pcs s)).

Definition bump_of (p : pc) : Z := if bumped p then 1 else 0.

Lemma bumped_in_mutex p : bumped p = true -> in_mutex p = true.
Proof. by destruct p. Qed.

Ltac at_pc t t2 :=
  destruct (decide (t2 = t)) as [->|];
  [rewrite ?fn_lookup_insert|rewrite ?fn_lookup_insert_ne by congruence].

Lemma inv_control s t p m w :
  inv s -> quiet (pcs s t) = true -> pc_ok s t p ->
  (forall ty, p <> W_sleep ty) -> (forall i ty, p <> G_unlink i ty) -> (forall i t', p <> G_grant i t') ->
  m = (if in_mutex p then Some t else if in_mutex (pcs s t) then None else mutex s) ->
  (in_mutex p = true -> in_mutex (pcs s t) = false -> mutex s = None) ->
  w = waiters s + bump_of p - bump_of (pcs s t) ->
  inv (control t p m w s).
Proof.
  intros Hi Hq Hp P1 P2 P3 -> Hfree ->.
  assert (Hs : forall ty, pcs s t <> W_sleep ty) by (intros ty E; by rewrite E in Hq).
  assert (Hf : forall m w, frame t s (control t p m w s)).
  { split; cbn [control pcs held monitorCount exclusiveThread lockGranted que]; auto.
    intros t2 Hne. by rewrite fn_lookup_insert_ne. }
  pose proof Hi as [I1 I2 I3 I4 I5 I6 I7 I8 I9].
  split; try done.
  - intros t2. destruct (decide (t2 = t)) as [->|Hne]; [|by eapply pc_ok_frame].
    cbn [control pcs]. rewrite fn_lookup_insert. destruct p; try done.
    by exfalso; eapply P3.
  - intros t2 Ht2. cbn [control held] in Ht2. unfold named. cbn [control exclusiveThread pcs mutex que].
    destruct (I4 t2 Ht2) as [H|H]; [by left|right].
    destruct (decide (t2 = t)) as [->|Hne].
    + rewrite fn_lookup_insert. destruct H as [H|[H|[[o H]|H]]]; try (by rewrite H in Hq).
      destruct H as (g & i & Hg & Hgi & Hqi). apply list_elem_of_lookup_2, I8 in Hqi as [Hqi _].
      by rewrite Hqi in Hq.
    + rewrite fn_lookup_insert_ne by done. destruct H as [H|[H|[H|(g & i & Hg & Hgi & Hqi)]]]; auto.
      right; right; right. exists g, i.
      assert (Hgt : g <> t) by (intros ->; by rewrite Hgi in Hq).
      rewrite fn_lookup_insert_ne by done. split_and!; auto.
      assert (Hgm : in_mutex (pcs s g) = true) by (by rewrite Hgi).
      destruct (in_mutex (pcs s t)) eqn:E.
      { apply I6 in E. congruence. }
      destruct (in_mutex p) eqn:E'; [|done]. rewrite (Hfree eq_refl eq_refl) in Hg. done.
  - intros t2. cbn [control pcs mutex]. destruct (decide (t2 = t)) as [->|Hne].
    + rewrite fn_lookup_insert. destruct (in_mutex p); [done|].
      destruct (in_mutex (pcs s t)) eqn:E; [done|]. rewrite I6, E. done.
    + rewrite fn_lookup_insert_ne by done. rewrite <-I6.
      destruct (in_mutex (pcs s t)) eqn:E.
      * apply I6 in E. rewrite E. destruct (in_mutex p); split; intros HH; try done; injection HH as ->; done.
      * destruct (in_mutex p) eqn:E'; [|done]. rewrite (Hfree eq_refl eq_refl). split; intros; congruence.
  - intros t2 ty H2. cbn [control pcs que lockGranted] in *.
    destruct (decide (t2 = t)) as [->|Hne]; [|rewrite fn_lookup_insert_ne by done; auto].
    apply I8 in H2 as [H2 _]. by apply Hs in H2.
  - cbn [control waiters que mutex pcs]. rewrite I9. unfold bump_of.
    destruct (in_mutex p) eqn:E'.
    + rewrite fn_lookup_insert. destruct (in_mutex (pcs s t)) eqn:E.
      * apply I6 in E as ->. lia.
      * rewrite (Hfree eq_refl eq_refl).
        destruct (bumped (pcs s t)) eqn:B; [apply bumped_in_mutex in B; congruence|]. lia.
    + destruct (bumped p) eqn:B'; [apply bumped_in_mutex in B'; congruence|].
      destruct (in_mutex (pcs s t)) eqn:E.
      * apply I6 in E as ->. lia.
      * destruct (bumped (pcs s t)) eqn:B; [apply bumped_in_mutex in B; congruence|].
        destruct (mutex s) as [t2|] eqn:M; [|lia].
        rewrite fn_lookup_insert_ne; [lia|]. intros ->. assert (in_mutex (pcs s t2) = true) by (by apply I6). congruence.
Qed.

(** Steps on the lock state, [exclusiveThread] and [monitorCount]: the mutex,
    the queue and the waiters stay. *)
Lemma inv_lock_step s s' t p :
  inv s -> pcs s' = <[t := p]> (pcs s) -> mutex s' = mutex s -> que s' = que s ->
  waiters s' = waiters s -> lockGranted s' = lockGranted s ->
  in_mutex p = in_mutex (pcs s t) -> bumped p = bumped (pcs s t) ->
  (forall ty, pcs s t <> W_sleep ty) ->
  (forall t2 ty, t2 <> t -> (t2, ty) ∈ held s -> (t2, ty) ∈ held s') ->
  (forall t2 ty, t2 <> t -> (t2, ty) ∈ held s' ->
     (t2, ty) ∈ held s \/ exists ty', pcs s t2 = W_sleep ty') ->
  (forall t2 ty, t2 <> t -> (t2, ty) ∈ held s -> monitorCount s = 0 -> monitorCount s' = 0) ->
  (forall t2 ty, t2 <> t -> (t2, ty) ∈ held s -> exclusiveThread s = None -> exclusiveThread s' = None) ->
  pc_ok s' t p -> count_ok s' ->
  (forall t2, exclusiveThread s' = Some t2 -> exists ty, (t2, ty) ∈ held s') ->
  (forall t2, (t2, Exclusive) ∈ held s' -> named s' t2) ->
  0 <= monitorCount s' /\ (0 < monitorCount s' -> exists t, held s' = [(t, Exclusive)]) ->
  inv s'.
Proof.
  intros Hi Hpcs Hm Hq Hw Hg Him Hb Hs F2 F3 F4 F5 Hok Hc He Hn Hmon.
  assert (Hf : frame t s s').
  { split; eauto.
    - intros t2 Hne. by rewrite Hpcs, fn_lookup_insert_ne.
    - intros t2 ty Hne. rewrite Hg. auto.
    - intros _. rewrite Hg. auto. }
  pose proof Hi as [I1 I2 I3 I4 I5 I6 I7 I8 I9].
  split; auto.
  - intros t2. destruct (decide (t2 = t)) as [->|Hne]; [|by eapply pc_ok_frame].
    by rewrite Hpcs, fn_lookup_insert.
  - intros t2. rewrite Hm, Hpcs, I6.
    destruct (decide (t2 = t)) as [->|Hne]; [by rewrite fn_lookup_insert, Him|].
    by rewrite fn_lookup_insert_ne.
  - by rewrite Hq.
  - intros t2 ty. rewrite Hq, Hg. intros H. apply I8 in H as [H1 H2]. split; [|done].
    rewrite Hpcs, fn_lookup_insert_ne; [done|]. intros <-. by apply Hs in H1.
  - rewrite Hw, Hq, Hm, Hpcs, I9. destruct (mutex s) as [t2|]; [|done].
    destruct (decide (t2 = t)) as [->|Hne]; [by rewrite fn_lookup_insert, Hb|].
    by rewrite fn_lookup_insert_ne.
Qed.

Lemma no_exclusive s t : count_ok s -> 0 <= lockState s -> (t, Exclusive) ∉ held s.
Proof. intros Hc H0 H. apply count_exclusive in H as [H _]; [lia|done]. Qed.

Lemma monitor_zero s : inv s -> 0 <= lockState s -> monitorCount s = 0.
Proof.
  intros Hi H0. destruct (inv_monitor s Hi) as [H1 H2].
  destruct (Z.ltb_spec 0 (monitorCount s)) as [H|H]; [|lia].
  destruct (H2 H) as [t Ht]. destruct (no_exclusive s t (inv_count s Hi) H0).
  rewrite Ht. by apply list_elem_of_singleton.
Qed.

(** A shared lock is added, for the running thread or one in the queue. *)
Lemma inv_add_shared s t t' p l :
  inv s -> lockState s = l -> 0 <= l ->
  in_mutex p = in_mutex (pcs s t) -> bumped p = bumped (pcs s t) ->
  (forall ty, pcs s t <> W_sleep ty) ->
  (t' = t \/ exists ty, pcs s t' = W_sleep ty) ->
  (forall s', held s' = (t', Shared) :: held s -> que s' = que s -> pc_ok s' t p) ->
  inv (goto t p (set_lock (l + 1) ((t', Shared) :: held s) s)).
Proof.
  intros Hi Hl H0 Him Hb Hs Ht' Hok. pose proof (inv_count s Hi) as Hc.
  assert (Hc' : count_ok (goto t p (set_lock (l + 1) ((t', Shared) :: held s) s))).
  { right. cbn [goto set_lock lockState held]. by apply count_add_shared. }
  assert (Hm : monitorCount s = 0) by (apply monitor_zero; [done|lia]).
  eapply inv_lock_step with (s := s) (t := t) (p := p);
    cbn [goto set_lock pcs mutex que waiters lockGranted held monitorCount exclusiveThread]; auto.
  - intros t2 ty _ H. apply elem_of_cons. auto.
  - intros t2 ty Hne. rewrite elem_of_cons. intros [[= -> ->]|H]; [|auto].
    destruct Ht' as [->|?]; [done|auto].
  - intros t2 H. destruct (inv_exclusive s Hi t2 H) as [ty Hty]. exists ty. apply elem_of_cons. auto.
  - intros t2 H. exfalso. eapply (no_exclusive _ t2 Hc'); [|exact H].
    cbn [goto set_lock lockState]. lia.
  - rewrite Hm. split; [done|]. lia.
Qed.

(** An exclusive lock is taken while nothing is held. *)
Lemma inv_add_exclusive s t t' p :
  inv s -> lockState s = 0 ->
  in_mutex p = in_mutex (pcs s t) -> bumped p = bumped (pcs s t) ->
  (forall ty, pcs s t <> W_sleep ty) ->
  (t' = t \/ exists ty, pcs s t' = W_sleep ty) ->
  let s' := goto t p (set_lock (-1) ((t', Exclusive) :: held s) s) in
  pc_ok s' t p -> named s' t' -> inv s'.
Proof.
  intros Hi Hl Him Hb Hs Ht' s' Hok Hn. pose proof (inv_count s Hi) as Hc.
  pose proof (count_zero s Hc Hl) as Hh.
  assert (Hm : monitorCount s = 0) by (apply monitor_zero; [done|lia]).
  eapply inv_lock_step with (s := s) (t := t) (p := p);
    unfold s'; cbn [goto set_lock pcs mutex que waiters lockGranted held monitorCount exclusiveThread]; auto;
    rewrite ?Hh, ?Hm.
  - intros t2 ty _ H. by apply elem_of_nil in H.
  - intros t2 ty Hne. rewrite elem_of_cons, elem_of_nil. intros [[= -> ->]|[]].
    destruct Ht' as [->|?]; [done|auto].
  - left. cbn [goto set_lock lockState held]. eauto.
  - intros t2 H. destruct (inv_exclusive s Hi t2 H) as [ty Hty]. rewrite Hh in Hty.
    by apply elem_of_nil in Hty.
  - intros t2. rewrite elem_of_cons, elem_of_nil. intros [[= ->]|[]]. exact Hn.
  - split; [done|lia].
Qed.

(** *** Every step keeps the invariant *)

(** [exclusiveThread] is set by the holder of the exclusive lock. *)
Lemma inv_set_exclusive s t p :
  inv s -> (t, Exclusive) ∈ held s ->
  in_mutex p = in_mutex (pcs s t) -> bumped p = bumped (pcs s t) ->
  (forall ty, pcs s t <> W_sleep ty) -> pc_ok s t p ->
  (p = Ready true \/ p = LX_exit) ->
  inv (goto t p (set_exclusive (Some t) s)).
Proof.
  intros Hi Ht Him Hb Hs Hok Hp.
  destruct (count_exclusive s t (inv_count s Hi) Ht) as [Hl Hh].
  eapply inv_lock_step with (s := s) (t := t) (p := p);
    cbn [goto set_exclusive pcs mutex que waiters lockGranted held monitorCount exclusiveThread]; auto;
    try apply Hi.
  - rewrite Hh. intros t2 ty Hne H%list_elem_of_singleton. congruence.
  - by destruct Hp as [-> | ->].
  - intros t2 [= <-]. eauto.
  - rewrite Hh. intros t2 H%list_elem_of_singleton. injection H as ->. by left.
Qed.

Lemma inv_monitor_up s t p :
  inv s -> exclusiveThread s = Some t -> pcs s t = p -> (exists c, p = LX c) ->
  inv (goto t (Ready true) (set_monitor (monitorCount s + 1) s)).
Proof.
  intros Hi He Hp [c ->]. pose proof (inv_pc s Hi t) as Hpc. rewrite Hp in Hpc. cbn [pc_ok] in Hpc.
  destruct (inv_exclusive s Hi t He) as [ty Hty]. destruct ty; [done|].
  destruct (count_exclusive s t (inv_count s Hi) Hty) as [Hl Hh].
  destruct (inv_monitor s Hi) as [M1 M2].
  eapply inv_lock_step with (s := s) (t := t) (p := Ready true);
    cbn [goto set_monitor pcs mutex que waiters lockGranted held monitorCount exclusiveThread]; auto;
    try apply Hi; rewrite ?Hp; try done.
  - rewrite Hh. intros t2 ty' Hne H%list_elem_of_singleton. congruence.
  - rewrite Hh. intros t2 H%list_elem_of_singleton. injection H as ->. by left.
  - split; [lia|]. eauto.
Qed.

Lemma inv_monitor_down s t ty :
  inv s -> pcs s t = U ty -> 0 < monitorCount s ->
  inv (goto t (Ready true) (set_monitor (monitorCount s - 1) s)).
Proof.
  intros Hi Hp Hm. pose proof (inv_pc s Hi t) as Hpc. rewrite Hp in Hpc. cbn [pc_ok] in Hpc.
  destruct (inv_monitor s Hi) as [M1 M2]. destruct (M2 Hm) as [t' Hh].
  pose proof Hpc as Hty. rewrite Hh in Hty. apply list_elem_of_singleton in Hty. injection Hty as -> ->.
  eapply inv_lock_step with (s := s) (t := t') (p := Ready true);
    cbn [goto set_monitor pcs mutex que waiters lockGranted held monitorCount exclusiveThread]; auto;
    try apply Hi; rewrite ?Hp; try done.
  - rewrite Hh. intros t2 ty' Hne H%list_elem_of_singleton. congruence.
  - intros t2 H2. pose proof (inv_named s Hi t2 H2) as Hn.
    rewrite Hh in H2. apply list_elem_of_singleton in H2. injection H2 as ->.
    destruct Hn as [H|[H|[H|[[o H]|(g & i & Hg & Hgi & Hqi)]]]]; try congruence; [by left|].
    apply list_elem_of_lookup_2, (inv_que s Hi) in Hqi as [Hq _]. congruence.
  - split; [lia|]. eauto.
Qed.

Lemma inv_clear s t ty old :
  inv s -> pcs s t = U_clear ty old -> inv (goto t (U_cas ty old) (set_exclusive None s)).
Proof.
  intros Hi Hp. pose proof (inv_pc s Hi t) as Hpc. rewrite Hp in Hpc. cbn [pc_ok] in Hpc.
  destruct Hpc as (H1 & H2 & H3).
  eapply inv_lock_step with (s := s) (t := t) (p := U_cas ty old);
    cbn [goto set_exclusive pcs mutex que waiters lockGranted held monitorCount exclusiveThread pc_ok]; auto;
    try apply Hi; rewrite ?Hp; try done.
  intros t2 Ht2. destruct (count_exclusive s t2 (inv_count s Hi) Ht2) as [_ Hh].
  rewrite Hh in H1. apply list_elem_of_singleton in H1. injection H1 as -> ->.
  right; right; right; left. exists old. cbn [goto set_exclusive pcs]. by rewrite fn_lookup_insert.
Qed.

Lemma inv_release s t ty old :
  inv s -> pcs s t = U_cas ty old -> lockState s = old ->
  inv (goto t U_check (set_lock (match ty with Shared => old - 1 | Exclusive => 0 end)
                         (release (t, ty) (held s)) s)).
Proof.
  intros Hi Hp Hl. pose proof (inv_pc s Hi t) as Hpc. rewrite Hp in Hpc. cbn [pc_ok] in Hpc.
  destruct Hpc as (H1 & H2 & H3 & H4). pose proof (inv_count s Hi) as Hc.
  set (h := release (t, ty) (held s)).
  assert (Hc' : (match ty with Shared => old - 1 | Exclusive => 0 end) = Z.of_nat (length h) /\
    Forall (fun x => x.2 = Shared) h).
  { pose proof (release_length _ _ H1) as Hlen. fold h in Hlen. destruct ty.
    - destruct (count_shared s t Hc H1) as [Hpos Hall]. split; [|by apply release_Forall].
      destruct Hc as [[E _]|[E _]]; lia.
    - destruct (count_exclusive s t Hc H1) as [_ Hh]. unfold h. rewrite Hh. simpl.
      rewrite decide_True by done. split; [done|constructor]. }
  assert (Hno : forall t2, (t2, Exclusive) ∉ h).
  { intros t2 Ht2. destruct Hc' as [_ Hall]. rewrite list.Forall_forall in Hall. by apply Hall in Ht2. }
  eapply inv_lock_step with (s := s) (t := t) (p := U_check);
    cbn [goto set_lock pcs mutex que waiters lockGranted held monitorCount exclusiveThread pc_ok]; auto;
    rewrite ?Hp; try done.
  - intros t2 ty2 Hne H. apply release_elem_ne; [congruence|done].
  - intros t2 ty2 Hne H. apply release_elem in H. auto.
  - right. exact Hc'.
  - intros t2. by rewrite H4.
  - intros t2 Ht2. by apply Hno in Ht2.
  - rewrite H2. split; [done|lia].
Qed.

Lemma inv_downgrade s t :
  inv s -> pcs s t = D_cas ->
  inv (goto t U_check (set_lock 1 ((t, Shared) :: release (t, Exclusive) (held s)) s)).
Proof.
  intros Hi Hp. pose proof (inv_pc s Hi t) as Hpc. rewrite Hp in Hpc. cbn [pc_ok] in Hpc.
  destruct Hpc as (H1 & H2). destruct (count_exclusive s t (inv_count s Hi) H1) as [Hl Hh].
  assert (Hr : release (t, Exclusive) (held s) = []) by (rewrite Hh; simpl; by rewrite decide_True).
  rewrite Hr.
  eapply inv_lock_step with (s := s) (t := t) (p := U_check);
    cbn [goto set_lock pcs mutex que waiters lockGranted held monitorCount exclusiveThread pc_ok]; auto;
    rewrite ?Hp, ?Hh; try done.
  - intros t2 ty2 Hne H%list_elem_of_singleton. congruence.
  - intros t2 ty2 Hne H%list_elem_of_singleton. congruence.
  - right. cbn [goto set_lock lockState held]. split; [done|by repeat constructor].
  - intros t2 H. destruct (inv_exclusive s Hi t2 H) as [ty2 Hty]. rewrite Hh in Hty.
    apply list_elem_of_singleton in Hty. injection Hty as -> ->. exists Shared.
    by apply list_elem_of_singleton.
  - intros t2 H%list_elem_of_singleton. congruence.
  - rewrite H2. split; [done|lia].
Qed.

(** A waiting thread is queued, granted or being granted; the queue changes
    under the mutex only. *)
Lemma inv_enqueue s t ty :
  inv s -> pcs s t = W_enqueue ty ->
  inv (goto t (W_sleep ty) (set_mutex None (set_granted t false (set_que (que s ++ [(t, ty)]) s)))).
Proof.
  intros Hi Hp. pose proof Hi as [I1 I2 I3 I4 I5 I6 I7 I8 I9].
  assert (Hm : mutex s = Some t) by (apply I6; by rewrite Hp).
  assert (Hnq : t ∉ (que s).*1).
  { intros H. apply list_elem_of_fmap in H as [[t' ty'] [-> H]]. apply I8 in H as [H _].
    cbn [fst] in *. congruence. }
  set (s' := goto _ _ _).
  assert (Hf : frame t s s').
  { split; unfold s'; cbn [goto set_mutex set_granted set_que pcs held monitorCount exclusiveThread
      lockGranted que]; auto; rewrite ?Hp; try done.
    - intros t2 Hne. by rewrite fn_lookup_insert_ne.
    - intros t2 ty2 Hne _. rewrite fn_lookup_insert_ne by done. auto. }
  split; unfold s'; cbn [goto set_mutex set_granted set_que pcs held monitorCount exclusiveThread
      lockGranted que mutex waiters]; auto.
  - intros t2. destruct (decide (t2 = t)) as [->|Hne].
    + rewrite fn_lookup_insert. cbn [pc_ok goto lockGranted set_granted set_mutex].
      by rewrite fn_lookup_insert.
    + pose proof (pc_ok_frame t s s' t2 Hi Hf) as H. rewrite Hp in H. unfold s' in H.
      cbn [goto pcs] in H. apply H; done.
  - intros t2 H2. destruct (I4 t2 H2) as [H|[H|[H|[[o H]|(g & i & Hg & Hgi & _)]]]]; [by left| | | |congruence];
      right; cbn [goto pcs]; (destruct (decide (t2 = t)) as [->|Hne]; [congruence|]);
      rewrite fn_lookup_insert_ne by done; eauto.
  - intros t2. split; [done|]. destruct (decide (t2 = t)) as [->|Hne];
      [by rewrite fn_lookup_insert|]. rewrite fn_lookup_insert_ne by done. intros H%I6. congruence.
  - rewrite fmap_app. apply list.NoDup_app. split_and!; auto; [|by apply NoDup_singleton].
    intros x Hx H%list_elem_of_singleton. by subst.
  - intros t2 ty2. rewrite elem_of_app, list_elem_of_singleton. intros [H|[= -> ->]].
    + assert (Hne : t2 <> t).
      { intros ->. apply Hnq. apply list_elem_of_fmap. by exists (t, ty2). }
      rewrite !fn_lookup_insert_ne by done. auto.
    + by rewrite !fn_lookup_insert.
  - rewrite I9, Hm, Hp, length_app. cbn [bumped length]. lia.
Qed.

Lemma inv_wake s t ty :
  inv s -> pcs s t = W_sleep ty -> lockGranted s t = true -> inv (goto t (Ready true) s).
Proof.
  intros Hi Hp Hg. pose proof Hi as [I1 I2 I3 I4 I5 I6 I7 I8 I9].
  assert (Hnq : forall ty, (t, ty) ∉ que s) by (intros ty2 H; apply I8 in H as [_ H]; congruence).
  split; cbn [goto pcs held monitorCount exclusiveThread lockGranted que mutex waiters]; auto.
  - intros t2. destruct (decide (t2 = t)) as [->|Hne]; [by rewrite fn_lookup_insert|].
    rewrite fn_lookup_insert_ne by done. pose proof (I2 t2) as H.
    destruct (pcs s t2); try done. destruct H as (ty2 & H1 & H2 & H3 & H4). exists ty2.
    cbn [goto pcs held lockGranted que]. rewrite fn_lookup_insert_ne by congruence. done.
  - intros t2 H2. destruct (I4 t2 H2) as [H|[H|[H|[[o H]|(g & i & Hg' & Hgi & Hq)]]]];
      [by left| | | |]; right; cbn [goto pcs];
      try (destruct (decide (t2 = t)) as [->|Hne]; [congruence|]; rewrite fn_lookup_insert_ne by done; eauto).
    right; right; right. exists g, i. cbn [goto mutex que].
      rewrite fn_lookup_insert_ne by congruence. done.
  - intros t2. rewrite I6. destruct (decide (t2 = t)) as [->|Hne];
      [by rewrite fn_lookup_insert, Hp|]. by rewrite fn_lookup_insert_ne.
  - intros t2 ty2 H. rewrite fn_lookup_insert_ne; [auto|]. intros <-. by eapply Hnq.
  - rewrite I9. destruct (mutex s) as [t2|] eqn:M; [|done].
    destruct (decide (t2 = t)) as [->|Hne]; [by rewrite fn_lookup_insert, Hp|].
    by rewrite fn_lookup_insert_ne.
Qed.

Lemma NoDup_delete_not_in (l : list (nat * LockType)) i x y :
  NoDup l.*1 -> l !! i = Some (x, y) ->
  NoDup ((delete i l).*1) /\ (x ∉ (delete i l).*1) /\ S (length (delete i l)) = length l.
Proof.
  intros Hnd Hi. pose proof (take_drop_middle _ _ _ Hi) as E. rewrite <-E in Hnd.
  rewrite fmap_app, fmap_cons in Hnd. apply list.NoDup_app in Hnd as (H1 & H2 & H3).
  apply list.NoDup_cons in H3 as [H3 H4]. cbn [fst] in *.
  rewrite delete_take_drop, fmap_app. split_and!.
  - apply list.NoDup_app. split_and!; auto. intros z Hz Hz'. apply (H2 z Hz). apply elem_of_cons. auto.
  - rewrite elem_of_app. intros [H|H]; [|done]. apply (H2 x H). apply elem_of_cons. auto.
  - rewrite <-E at 3. rewrite !length_app. cbn [length]. lia.
Qed.

Lemma inv_unlink s t i ty thread ty' :
  inv s -> pcs s t = G_unlink i ty -> que s !! i = Some (thread, ty') ->
  inv (goto t (G_grant i thread) (bumpWaiters (-1) (set_que (delete i (que s))
         (match ty with Shared => s | Exclusive => set_exclusive (Some thread) s end)))).
Proof.
  intros Hi Hp Hq. pose proof Hi as [I1 I2 I3 I4 I5 I6 I7 I8 I9].
  pose proof (I2 t) as Hpc. rewrite Hp in Hpc. destruct Hpc as (t' & Hq' & Hh).
  rewrite Hq in Hq'. injection Hq' as <- <-.
  assert (Hm : mutex s = Some t) by (apply I6; by rewrite Hp).
  destruct (I8 thread ty') as [Hsleep Hng]; [by eapply list_elem_of_lookup_2|].
  assert (Hne : thread <> t) by congruence.
  destruct (NoDup_delete_not_in _ _ _ _ I7 Hq) as (D1 & D2 & D3).
  assert (Hdel : forall x, x ∈ delete i (que s) -> x ∈ que s).
  { intros x. rewrite delete_take_drop, elem_of_app. intros [H|H];
      [by eapply elem_of_take in H as (? & ? & _); eapply list_elem_of_lookup_2|].
    apply list_elem_of_lookup in H as [k Hk]. rewrite lookup_drop in Hk. by eapply list_elem_of_lookup_2. }
  set (s' := goto _ _ _).
  assert (Hheld : held s' = held s) by (by destruct ty').
  assert (Hpcs : pcs s' = <[t := G_grant i thread]> (pcs s)) by (by destruct ty').
  assert (Hgr : lockGranted s' = lockGranted s) by (by destruct ty').
  assert (Hque : que s' = delete i (que s)) by (by destruct ty').
  assert (Hmu : mutex s' = mutex s) by (by destruct ty').
  assert (Hex : exclusiveThread s' = match ty' with Shared => exclusiveThread s | Exclusive => Some thread end)
    by (by destruct ty').
  assert (Hmo : monitorCount s' = monitorCount s) by (by destruct ty').
  assert (Hwa : waiters s' = waiters s - 1) by (by destruct ty').
  assert (Hli : lockState s' = lockState s) by (by destruct ty').
  assert (Hf : frame t s s').
  { split; rewrite ?Hheld, ?Hgr, ?Hmo, ?Hp; auto; try done.
    - intros t2 Hn. by rewrite Hpcs, fn_lookup_insert_ne.
    - intros t2 ty2 Hn H2 Hs He. rewrite Hex. destruct ty'; [done|].
      destruct (count_exclusive s thread I1 Hh) as [_ E]. rewrite E in H2.
      apply list_elem_of_singleton in H2. injection H2 as -> ->. by apply Hs in Hsleep. }
  split.
  - unfold count_ok. by rewrite Hli, Hheld.
  - intros t2. destruct (decide (t2 = t)) as [->|Hn].
    + rewrite Hpcs, fn_lookup_insert. exists ty'. rewrite Hpcs, fn_lookup_insert_ne, Hheld, Hgr, Hque by done.
      done.
    + apply (pc_ok_frame t s s' t2 Hi Hf); [by rewrite Hp|done].
  - intros t2. rewrite Hex, Hheld. destruct ty'; [auto|]. intros [= <-]. eauto.
  - intros t2. rewrite Hheld. intros H2. unfold named. rewrite Hex.
    destruct (count_exclusive s t2 I1 H2) as [_ E]. rewrite E in Hh.
    apply list_elem_of_singleton in Hh. injection Hh as -> ->. by left.
  - by rewrite Hmo, Hheld.
  - intros t2. rewrite Hmu, Hpcs, I6. destruct (decide (t2 = t)) as [->|Hn];
      [by rewrite fn_lookup_insert, Hp|]. by rewrite fn_lookup_insert_ne.
  - by rewrite Hque.
  - intros t2 ty2. rewrite Hque, Hgr, Hpcs. intros H. apply Hdel, I8 in H as [H1 H2].
    rewrite fn_lookup_insert_ne by congruence. done.
  - rewrite Hwa, Hque, Hmu, Hpcs, Hm, fn_lookup_insert, I9, Hm, Hp. cbn [bumped]. lia.
Qed.

Lemma inv_granted s t i thread :
  inv s -> pcs s t = G_grant i thread -> inv (goto t (G_scan i) (set_granted thread true s)).
Proof.
  intros Hi Hp. pose proof Hi as [I1 I2 I3 I4 I5 I6 I7 I8 I9].
  pose proof (I2 t) as Hpc. rewrite Hp in Hpc. destruct Hpc as (ty & Hsleep & Hh & Hng & Hnq).
  assert (Hm : mutex s = Some t) by (apply I6; by rewrite Hp).
  assert (Hne : thread <> t) by congruence.
  set (s' := goto _ _ _).
  assert (Hf : frame t s s').
  { split; unfold s'; cbn [goto set_granted pcs held monitorCount exclusiveThread lockGranted que];
      auto; rewrite ?Hp; try done.
    - intros t2 Hn. by rewrite fn_lookup_insert_ne.
    - intros t2 ty2 Hn H. destruct (decide (t2 = thread)) as [->|Hn'].
      + rewrite Hsleep in H. injection H as ->. auto.
      + rewrite fn_lookup_insert_ne by done. auto. }
  split; try done.
  - intros t2. destruct (decide (t2 = t)) as [->|Hn].
    + unfold s'. cbn [goto pcs]. by rewrite fn_lookup_insert.
    + apply (pc_ok_frame t s s' t2 Hi Hf); [by rewrite Hp|done].
  - intros t2 H2. unfold named, s'. cbn [goto set_granted exclusiveThread pcs mutex que].
    destruct (I4 t2 H2) as [H|[H|[H|[[o H]|(g & j & Hg & Hgj & _)]]]]; [by left| | | |congruence];
      right; (destruct (decide (t2 = t)) as [->|Hn]; [congruence|]);
      rewrite fn_lookup_insert_ne by done; eauto.
  - intros t2. unfold s'. cbn [goto set_granted pcs mutex]. rewrite I6.
    destruct (decide (t2 = t)) as [->|Hn];
      [by rewrite fn_lookup_insert, Hp|]. by rewrite fn_lookup_insert_ne.
  - intros t2 ty2 H. unfold s' in *. cbn [goto set_granted pcs que lockGranted] in *.
    pose proof H as [H1 H2]%I8. rewrite !fn_lookup_insert_ne; [done| |congruence].
    intros <-. apply Hnq. apply list_elem_of_fmap. by exists (thread, ty2).
  - unfold s'. cbn [goto set_granted waiters que mutex pcs].
    rewrite I9, Hm, Hp, fn_lookup_insert. done.
Qed.

(** Program points a control step may enter. *)
Definition plain (p : pc) : bool :=
  match p with W_sleep _ | G_unlink _ _ | G_grant _ _ => false | _ => true end.

Lemma inv_goto s t p :
  inv s -> quiet (pcs s t) = true -> pc_ok s t p -> plain p = true ->
  in_mutex p = in_mutex (pcs s t) -> bumped p = bumped (pcs s t) -> inv (goto t p s).
Proof.
  intros Hi Hq Hp Hpl Him Hb.
  change (goto t p s) with (control t p (mutex s) (waiters s) s).
  apply inv_control; auto; try (by intros; intros ->).
  - rewrite Him. destruct (in_mutex (pcs s t)) eqn:E; [|done]. by apply (inv_mutex s Hi).
  - rewrite Him. congruence.
  - unfold bump_of. rewrite Hb. lia.
Qed.

Lemma inv_acquire s t p s' :
  inv s -> acquire_mutex t p s = Some s' -> quiet (pcs s t) = true -> pc_ok s t p -> plain p = true ->
  in_mutex p = true -> in_mutex (pcs s t) = false -> bumped p = false -> inv s'.
Proof.
  intros Hi Ha Hq Hp Hpl Him Him' Hb. unfold acquire_mutex in Ha.
  destruct (mutex s) eqn:M; [done|]. injection Ha as <-.
  change (goto t p (set_mutex (Some t) s)) with (control t p (Some t) (waiters s) s).
  apply inv_control; auto; try (by intros; intros ->).
  - by rewrite Him.
  - unfold bump_of. rewrite Hb.
    destruct (bumped (pcs s t)) eqn:B; [apply bumped_in_mutex in B; congruence|lia].
Qed.

(** Counting oneself among the waiters, and leaving the mutex. *)
Lemma inv_bump s t p :
  inv s -> quiet (pcs s t) = true -> pc_ok s t p -> plain p = true ->
  in_mutex (pcs s t) = true -> bumped (pcs s t) = false -> bumped p = true ->
  inv (goto t p (bumpWaiters 1 s)).
Proof.
  intros Hi Hq Hp Hpl Him Hb Hb'. pose proof (bumped_in_mutex _ Hb') as Him'.
  change (goto t p (bumpWaiters 1 s)) with (control t p (mutex s) (waiters s + 1) s).
  apply inv_control; auto; try (by intros; intros ->).
  - rewrite Him'. by apply (inv_mutex s Hi).
  - congruence.
  - unfold bump_of. rewrite Hb, Hb'. lia.
Qed.

Lemma inv_leave s t d :
  inv s -> quiet (pcs s t) = true -> in_mutex (pcs s t) = true ->
  d = (if bumped (pcs s t) then -1 else 0) ->
  inv (goto t (Ready true) (set_mutex None (bumpWaiters d s))).
Proof.
  intros Hi Hq Him ->.
  change (goto t (Ready true) (set_mutex None (bumpWaiters ?d s)))
    with (control t (Ready true) None (waiters s + d) s).
  apply inv_control; auto; try done.
  - cbn [in_mutex]. by rewrite Him.
  - unfold bump_of. destruct (bumped (pcs s t)); cbn [bumped]; lia.
Qed.

Ltac pc_fact Hi t H :=
  match type of H with pcs ?s t = _ =>
    pose proof (inv_pc s Hi t) as Hpc; rewrite H in Hpc; cbn [pc_ok] in Hpc end.

Ltac goto_step Hp := apply inv_goto; rewrite ?Hp; auto; cbn [pc_ok]; auto.

Lemma inv_step_lock_shared t s s' : inv s -> step_lock_shared t s = Some s' -> inv s'.
Proof.
  intros Hi. unfold step_lock_shared. destruct (pcs s t) eqn:Hp; try done; pc_fact Hi t Hp.
  - intros [= <-]. destruct (Z.ltb_spec (lockState s) 0).
    + destruct cond; by goto_step Hp.
    + by goto_step Hp.
  - intros [= <-]. destruct (Z.eqb_spec (lockState s) old) as [E|E].
    + apply inv_add_shared; rewrite ?Hp; auto; done.
    + by goto_step Hp.
  - intros Ha. eapply inv_acquire; eauto; by rewrite Hp.
  - intros [= <-]. apply inv_bump; rewrite ?Hp; done.
  - intros [= <-]. destruct (Z.ltb_spec (lockState s) 0); by goto_step Hp.
  - intros [= <-]. destruct (Z.eqb_spec (lockState s) old) as [E|E].
    + apply inv_add_shared; rewrite ?Hp; auto. intros s' Hh _. cbn [pc_ok]. rewrite Hh.
      apply elem_of_cons. auto.
    + by goto_step Hp.
  - intros [= <-]. apply inv_leave; by rewrite ?Hp.
Qed.

Lemma inv_step_lock_exclusive t s s' : inv s -> step_lock_exclusive t s = Some s' -> inv s'.
Proof.
  intros Hi. unfold step_lock_exclusive. destruct (pcs s t) eqn:Hp; try done; pc_fact Hi t Hp.
  - intros [= <-]. case_decide as He; [by eapply inv_monitor_up; eauto|by goto_step Hp].
  - intros [= <-]. destruct (waiters s =? 0); [|destruct cond]; by goto_step Hp.
  - intros [= <-]. destruct (lockState s =? 0); [|destruct cond]; by goto_step Hp.
  - intros [= <-]. destruct (Z.eqb_spec (lockState s) 0) as [E|E]; [|by goto_step Hp].
    apply inv_add_exclusive; rewrite ?Hp; auto.
    + cbn [pc_ok goto set_lock held]. apply elem_of_cons. auto.
    + right; left. cbn [goto pcs]. by rewrite fn_lookup_insert.
  - intros [= <-]. apply inv_set_exclusive; rewrite ?Hp; auto; done.
  - intros Ha. eapply inv_acquire; eauto; by rewrite Hp.
  - intros [= <-]. apply inv_bump; rewrite ?Hp; done.
  - intros [= <-]. destruct (que s); [destruct (lockState s =? 0)|]; by goto_step Hp.
  - intros [= <-]. destruct (Z.eqb_spec (lockState s) 0) as [E|E]; [|by goto_step Hp].
    apply inv_add_exclusive; rewrite ?Hp; auto.
    + cbn [pc_ok goto set_lock held]. apply elem_of_cons. auto.
    + right; right; left. cbn [goto pcs]. by rewrite fn_lookup_insert.
  - intros [= <-]. apply inv_set_exclusive; rewrite ?Hp; auto; done.
  - intros [= <-]. apply inv_leave; by rewrite ?Hp.
Qed.

Lemma inv_step_wait t s s' : inv s -> step_wait t s = Some s' -> inv s'.
Proof.
  intros Hi. unfold step_wait. destruct (pcs s t) eqn:Hp; try done.
  - intros [= <-]. case_decide as Hd; [|by apply inv_enqueue].
    apply list_elem_of_fmap in Hd as [[t' ty'] [-> H]]. apply (inv_que s Hi) in H as [H _].
    cbn [fst] in *. congruence.
  - destruct (lockGranted s t) eqn:Hg; [|done]. intros [= <-]. by eapply inv_wake.
Qed.

Lemma inv_step_unlock t s s' : inv s -> step_unlock t s = Some s' -> inv s'.
Proof.
  intros Hi. pose proof (inv_count s Hi) as Hc. unfold step_unlock.
  destruct (pcs s t) eqn:Hp; try done; pc_fact Hi t Hp.
  - intros [= <-].
    assert (Ha : bool_decide (ty = Shared) && (0 <? lockState s)
      || bool_decide (ty = Exclusive) && (lockState s =? -1) = true).
    { destruct ty.
      - destruct (count_shared s t Hc Hpc) as [H _]. by rewrite (proj2 (Z.ltb_lt _ _) H).
      - destruct (count_exclusive s t Hc Hpc) as [-> _]. done. }
    rewrite Ha. cbn [negb]. destruct (inv_monitor s Hi) as [M1 M2].
    destruct (Z.eqb_spec (monitorCount s) 0) as [E|E]; cbn [negb]; [by goto_step Hp|].
    rewrite (proj2 (Z.ltb_lt _ _)) by lia. eapply inv_monitor_down; eauto. lia.
  - intros [= <-]. destruct Hpc as [H1 H2]. goto_step Hp. split_and!; auto. intros ->.
    by destruct (count_exclusive s t Hc H1).
  - intros [= <-]. by apply inv_clear.
  - destruct Hpc as (H1 & H2 & H3 & H4).
    intros [= <-]. destruct (Z.eqb_spec (lockState s) old) as [E|E]; [by apply inv_release|].
    destruct ty; [by goto_step Hp|]. destruct E. rewrite H3 by done.
    by destruct (count_exclusive s t Hc H1).
  - intros [= <-]. destruct (waiters s =? 0); by goto_step Hp.
  - intros [= <-]. destruct Hpc as [H1 H2]. destruct (count_exclusive s t Hc H1) as [H3 _].
    rewrite H2, H3. by goto_step Hp.
  - intros [= <-]. destruct Hpc as [H1 H2]. destruct (count_exclusive s t Hc H1) as [H3 _].
    rewrite H3. by apply inv_downgrade.
Qed.

(** The assertion of [grantLocks]. *)
Lemma grant_assertion s t : inv s -> pcs s t = G_assert -> (waiters s = 0 <-> que s = []).
Proof.
  intros Hi Hp. assert (Hm : mutex s = Some t) by (apply (inv_mutex s Hi); by rewrite Hp).
  pose proof (inv_waiters s Hi) as Hw. rewrite Hm, Hp in Hw. cbn [bumped] in Hw. rewrite Hw. split.
  - intros H. apply nil_length_inv. lia.
  - intros ->. done.
Qed.

Lemma inv_step_grant t s s' : inv s -> step_grant t s = Some s' -> inv s'.
Proof.
  intros Hi. unfold step_grant. destruct (pcs s t) eqn:Hp; try done; pc_fact Hi t Hp.
  - intros Ha. eapply inv_acquire; eauto; by rewrite Hp.
  - intros [= <-]. rewrite bool_decide_eq_true_2 by (by eapply grant_assertion). by goto_step Hp.
  - intros [= <-]. destruct (que s !! i) as [[t' [|]]|] eqn:Hq.
    + destruct (Z.leb_spec 0 (lockState s)); goto_step Hp. eauto.
    + destruct (Z.eqb_spec (lockState s) 0); goto_step Hp. eauto.
    + pose proof (inv_leave s t 0 Hi) as H. rewrite Hp in H. cbn [quiet in_mutex bumped] in H.
      specialize (H eq_refl eq_refl eq_refl).
      unfold bumpWaiters in H. rewrite Z.add_0_r in H. by destruct s.
  - destruct Hpc as (H0 & t' & Hq). rewrite Hq. intros [= <-].
    destruct (inv_que s Hi t' Shared) as [Hs _]; [by eapply list_elem_of_lookup_2|].
    destruct (Z.eqb_spec (lockState s) old) as [E|E]; [|by goto_step Hp].
    apply inv_add_shared; rewrite ?Hp; eauto. intros s' Hh Hq'. cbn [pc_ok]. exists t'.
    rewrite Hh, Hq'. split; [done|]. apply elem_of_cons. auto.
  - destruct Hpc as (t' & Hq). rewrite Hq. intros [= <-].
    destruct (inv_que s Hi t' Exclusive) as [Hs _]; [by eapply list_elem_of_lookup_2|].
    destruct (Z.eqb_spec (lockState s) 0) as [E|E]; [|by goto_step Hp].
    apply inv_add_exclusive; rewrite ?Hp; eauto.
    + cbn [pc_ok goto set_lock held que]. exists t'. split; [done|]. apply elem_of_cons. auto.
    + right; right; right; right. exists t, i. cbn [goto set_lock pcs mutex que].
      rewrite fn_lookup_insert. split_and!; auto. apply (inv_mutex s Hi). by rewrite Hp.
  - destruct (que s !! i) as [[t' ty']|] eqn:Hq; [|done]. intros [= <-]. pose proof (inv_unlink s t i ty t' ty' Hi Hp Hq) as H; by destruct ty.
  - intros [= <-]. by apply inv_granted.
Qed.

Lemma inv_step t s s' : inv s -> step t s = Some s' -> inv s'.
Proof.
  intros Hi. unfold step.
  destruct (step_lock_shared t s) eqn:E1; [intros [= <-]; by eapply inv_step_lock_shared|].
  destruct (step_lock_exclusive t s) eqn:E2; [intros [= <-]; by eapply inv_step_lock_exclusive|].
  destruct (step_wait t s) eqn:E3; [intros [= <-]; by eapply inv_step_wait|].
  destruct (step_unlock t s) eqn:E4; [intros [= <-]; by eapply inv_step_unlock|].
  by apply inv_step_grant.
Qed.

Lemma inv_call t c s r :
  inv s -> pcs s t = Ready r -> disciplined t c s -> inv (goto t (entry c) s).
Proof.
  intros Hi Hp Hd. destruct c as [[|]|[|]|ty|]; cbn [entry disciplined] in *; by goto_step Hp.
Qed.

Lemma inv_init : inv init.
Proof.
  split; cbn; try done.
  - right. by split; [|constructor].
  - intros t H. by apply elem_of_nil in H.
  - constructor.
  - intros t ty H. by apply elem_of_nil in H.
Qed.

Lemma inv_reachable s : reachable disciplined s -> inv s.
Proof.
  induction 1 as [|s s' _ IH Hm]; [apply inv_init|].
  destruct Hm; [by eapply inv_step|by eapply inv_call].
Qed.

(** ** No lost wakeup

    The part of the queue that was looked at since the lock state last
    allowed a grant: all of it, but for what a granter has not reached yet;
    a thread about to queue itself counts as queued. *)
Definition seen_of (q : list (nat * LockType)) (t : nat) (p : pc) : list (nat * LockType) :=
  match p with
  | W_enqueue ty => q ++ [(t, ty)]
  | G_assert => []
  | G_scan i | G_shared_cas i _ | G_excl_cas i | G_unlink i _ | G_grant i _ => take i q
  | _ => q
  end.

Definition seen (s : state) : list (nat * LockType) :=
  match mutex s with
  | None => que s
  | Some t => seen_of (que s) t (pcs s t)
  end.

(** Somebody in the queue could have the lock. *)
Definition grantable (l : Z) (q : list (nat * LockType)) : Prop :=
  (l = 0 /\ q <> []) \/ (0 <= l /\ exists t, (t, Shared) ∈ q).

(** A thread that is about to call [grantLocks] and has not locked the mutex. *)
Definition pending (s : state) : Prop := exists t, pcs s t = U_check \/ pcs s t = G_mutex.

Definition awake (s : state) : Prop := grantable (lockState s) (seen s) -> pending s.

Lemma seen_owner s t :
  inv s -> in_mutex (pcs s t) = true -> seen s = seen_of (que s) t (pcs s t).
Proof. intros Hi H. apply (inv_mutex s Hi) in H. unfold seen. by rewrite H. Qed.

Lemma seen_goto s s' t p :
  inv s -> pcs s' = <[t := p]> (pcs s) -> mutex s' = mutex s -> que s' = que s ->
  in_mutex p = in_mutex (pcs s t) ->
  (in_mutex p = true -> seen_of (que s) t p = seen_of (que s) t (pcs s t)) -> seen s' = seen s.
Proof.
  intros Hi Hp Hm Hq Him Hs. unfold seen. rewrite Hm, Hq, Hp.
  destruct (mutex s) as [t2|] eqn:M; [|done]. apply (inv_mutex s Hi) in M.
  destruct (decide (t2 = t)) as [->|Hne]; [rewrite fn_lookup_insert; apply Hs; congruence|].
  by rewrite fn_lookup_insert_ne.
Qed.

Lemma pending_goto s s' t p :
  pcs s' = <[t := p]> (pcs s) -> pcs s t <> U_check -> pcs s t <> G_mutex -> pending s -> pending s'.
Proof.
  intros Hp H1 H2 [t2 H]. exists t2. rewrite Hp, fn_lookup_insert_ne; [done|].
  intros <-. by destruct H.
Qed.

Lemma awake_goto s s' t p :
  awake s -> pcs s' = <[t := p]> (pcs s) -> pcs s t <> U_check -> pcs s t <> G_mutex ->
  (grantable (lockState s') (seen s') -> grantable (lockState s) (seen s)) -> awake s'.
Proof. intros Ha Hp H1 H2 Hg H. eapply pending_goto; eauto. Qed.

Lemma awake_pending s' t : pcs s' t = U_check \/ pcs s' t = G_mutex -> awake s'.
Proof. intros H _. by exists t. Qed.

Lemma grantable_more l l' q : grantable l' q -> 0 <= l -> 0 < l' -> grantable l q.
Proof. intros [[E _]|[_ H]] H0 H1; [lia|]. by right. Qed.

Lemma grantable_negative l q : l < 0 -> ~ grantable l q.
Proof. intros H [[E _]|[E _]]; lia. Qed.

(** A waiter for the exclusive lock adds nothing while the lock is taken or
    others wait. *)
Lemma grantable_exclusive l q t :
  l <> 0 \/ q <> [] -> grantable l (q ++ [(t, Exclusive)]) -> grantable l q.
Proof.
  intros Hq [[E _]|[E [t' H]]]; [left; destruct Hq; done|].
  right. split; [done|]. apply elem_of_app in H as [H|H%list_elem_of_singleton]; [eauto|done].
Qed.

(** Steps that leave [lockState], and what was seen, alone. *)
Ltac awake_same t p Hp Ha Hi :=
  eapply (awake_goto _ _ t p Ha); [reflexivity|by rewrite Hp|by rewrite Hp|];
  erewrite (seen_goto _ _ t p Hi); [exact id|reflexivity|reflexivity|reflexivity|by rewrite Hp|by rewrite Hp].

Lemma awake_acquire t p s s' :
  awake s -> acquire_mutex t p s = Some s' -> pcs s t <> U_check -> pcs s t <> G_mutex ->
  seen_of (que s) t p = que s -> awake s'.
Proof.
  unfold acquire_mutex. destruct (mutex s) eqn:M; [done|]. intros Ha [= <-] H1 H2 Hs.
  eapply (awake_goto _ _ t p Ha); auto.
  unfold seen. rewrite M. cbn [goto set_mutex mutex que pcs lockState]. by rewrite fn_lookup_insert, Hs.
Qed.

Lemma awake_lock_shared t s s' : inv s -> awake s -> step_lock_shared t s = Some s' -> awake s'.
Proof.
  intros Hi Ha. unfold step_lock_shared. destruct (pcs s t) eqn:Hp; try done; pc_fact Hi t Hp.
  - intros [= <-]. destruct (Z.ltb_spec (lockState s) 0); [destruct cond|].
    + awake_same t (Ready false) Hp Ha Hi.
    + awake_same t LS_mutex Hp Ha Hi.
    + awake_same t (LS_cas cond (lockState s)) Hp Ha Hi.
  - intros [= <-]. destruct (Z.eqb_spec (lockState s) old) as [E|E].
    + eapply (awake_goto _ _ t (Ready true) Ha); [done|by rewrite Hp|by rewrite Hp|].
      erewrite (seen_goto _ _ t (Ready true) Hi); [|done|done|done|by rewrite Hp|done].
      cbn [goto set_lock lockState]. intros H. eapply grantable_more; [exact H| |]; lia.
    + awake_same t (LS cond) Hp Ha Hi.
  - intros H. eapply awake_acquire; eauto; by rewrite ?Hp.
  - intros [= <-]. awake_same t LS_slow Hp Ha Hi.
  - intros [= <-]. destruct (Z.ltb_spec (lockState s) 0) as [H|H].
    + intros Hg. by apply grantable_negative in Hg.
    + awake_same t (LS_slow_cas (lockState s)) Hp Ha Hi.
  - intros [= <-]. destruct (Z.eqb_spec (lockState s) old) as [E|E].
    + eapply (awake_goto _ _ t LS_exit Ha); [done|by rewrite Hp|by rewrite Hp|].
      erewrite (seen_goto _ _ t LS_exit Hi); [|done|done|done|by rewrite Hp|by rewrite Hp].
      cbn [goto set_lock lockState]. intros H. eapply grantable_more; [exact H| |]; lia.
    + awake_same t LS_slow Hp Ha Hi.
  - intros [= <-]. eapply (awake_goto _ _ t (Ready true) Ha); [done|by rewrite Hp|by rewrite Hp|].
    rewrite (seen_owner s t Hi) by (by rewrite Hp). rewrite Hp. exact id.
Qed.

Lemma awake_lock_exclusive t s s' : inv s -> awake s -> step_lock_exclusive t s = Some s' -> awake s'.
Proof.
  intros Hi Ha. unfold step_lock_exclusive. destruct (pcs s t) eqn:Hp; try done; pc_fact Hi t Hp.
  - intros [= <-]. case_decide.
    + awake_same t (Ready true) Hp Ha Hi.
    + awake_same t (LX_waiters cond) Hp Ha Hi.
  - intros [= <-]. destruct (waiters s =? 0); [|destruct cond].
    + awake_same t (LX_read cond) Hp Ha Hi.
    + awake_same t (Ready false) Hp Ha Hi.
    + awake_same t LX_mutex Hp Ha Hi.
  - intros [= <-]. destruct (lockState s =? 0); [|destruct cond].
    + awake_same t (LX_cas cond) Hp Ha Hi.
    + awake_same t (Ready false) Hp Ha Hi.
    + awake_same t LX_mutex Hp Ha Hi.
  - intros [= <-]. destruct (Z.eqb_spec (lockState s) 0) as [E|E].
    + intros Hg. by apply grantable_negative in Hg.
    + awake_same t (LX_waiters cond) Hp Ha Hi.
  - intros [= <-]. awake_same t (Ready true) Hp Ha Hi.
  - intros H. eapply awake_acquire; eauto; by rewrite ?Hp.
  - intros [= <-]. awake_same t LX_slow Hp Ha Hi.
  - intros [= <-].
    assert (Hw : lockState s <> 0 \/ que s <> [] -> awake (goto t (W_enqueue Exclusive) s)).
    { intros Hq. eapply (awake_goto _ _ t (W_enqueue Exclusive) Ha); [done|by rewrite Hp|by rewrite Hp|].
      rewrite (seen_owner s t Hi) by (by rewrite Hp). rewrite Hp. cbn [seen_of].
      assert (Hm : mutex s = Some t) by (apply (inv_mutex s Hi); by rewrite Hp).
      unfold seen. cbn [goto mutex que pcs lockState]. rewrite Hm, fn_lookup_insert.
      by apply grantable_exclusive. }
    destruct (que s) eqn:Hq; [destruct (Z.eqb_spec (lockState s) 0)|].
    + awake_same t LX_slow_cas Hp Ha Hi.
    + apply Hw. auto.
    + apply Hw. by right.
  - intros [= <-]. destruct (Z.eqb_spec (lockState s) 0) as [E|E].
    + intros Hg. by apply grantable_negative in Hg.
    + awake_same t LX_slow Hp Ha Hi.
  - intros [= <-]. awake_same t LX_exit Hp Ha Hi.
  - intros [= <-]. eapply (awake_goto _ _ t (Ready true) Ha); [done|by rewrite Hp|by rewrite Hp|].
    rewrite (seen_owner s t Hi) by (by rewrite Hp). rewrite Hp. exact id.
Qed.

Lemma awake_wait t s s' : inv s -> awake s -> step_wait t s = Some s' -> awake s'.
Proof.
  intros Hi Ha. unfold step_wait. destruct (pcs s t) eqn:Hp; try done.
  - intros [= <-]. case_decide as Hd.
    + apply list_elem_of_fmap in Hd as [[t' ty'] [-> H]]. apply (inv_que s Hi) in H as [H _].
      cbn [fst] in *. congruence.
    + eapply (awake_goto _ _ t (W_sleep ty) Ha); [done|by rewrite Hp|by rewrite Hp|].
      rewrite (seen_owner s t Hi) by (by rewrite Hp). rewrite Hp. exact id.
  - destruct (lockGranted s t) eqn:Hg; [|done]. intros [= <-]. awake_same t (Ready true) Hp Ha Hi.
Qed.

(** Without waiters there is nothing to see. *)
Lemma seen_no_waiters s : inv s -> waiters s = 0 -> seen s = [].
Proof.
  intros Hi Hw. rewrite (inv_waiters s Hi) in Hw. unfold seen.
  assert (Hq : que s = []) by (apply nil_length_inv; repeat case_match; lia).
  rewrite Hq in *. cbn [length] in Hw. destruct (mutex s) as [t|]; [|done].
  destruct (pcs s t); cbn [seen_of bumped] in *; try apply take_nil; done.
Qed.

Lemma awake_unlock t s s' : inv s -> awake s -> step_unlock t s = Some s' -> awake s'.
Proof.
  intros Hi Ha. unfold step_unlock. destruct (pcs s t) eqn:Hp; try done; pc_fact Hi t Hp.
  - intros [= <-]. repeat case_match.
    + awake_same t Failed Hp Ha Hi.
    + awake_same t (Ready true) Hp Ha Hi.
    + awake_same t Failed Hp Ha Hi.
    + awake_same t (U_read ty) Hp Ha Hi.
  - intros [= <-]. awake_same t (U_clear ty (lockState s)) Hp Ha Hi.
  - intros [= <-]. awake_same t (U_cas ty old) Hp Ha Hi.
  - intros [= <-]. case_match.
    + apply (awake_pending _ t). left. cbn [goto pcs]. by rewrite fn_lookup_insert.
    + awake_same t (U_read ty) Hp Ha Hi.
  - intros [= <-]. destruct (Z.eqb_spec (waiters s) 0) as [E|E].
    + intros Hg. erewrite (seen_goto s _ t (Ready true) Hi) in Hg;
        [|reflexivity|reflexivity|reflexivity|by rewrite Hp|done].
      rewrite (seen_no_waiters s Hi E) in Hg.
      destruct Hg as [[_ H]|[_ [t' H]]]; [done|by apply elem_of_nil in H].
    + apply (awake_pending _ t). right. cbn [goto pcs]. by rewrite fn_lookup_insert.
  - intros [= <-]. case_match; [awake_same t D_cas Hp Ha Hi|awake_same t Failed Hp Ha Hi].
  - intros [= <-]. case_match; [|done].
    apply (awake_pending _ t). left. cbn [goto pcs]. by rewrite fn_lookup_insert.
Qed.

(** Passing an entry that cannot be granted. *)
Lemma awake_skip t s i x ty :
  inv s -> awake s -> pcs s t = G_scan i -> que s !! i = Some (x, ty) ->
  (ty = Shared /\ lockState s < 0 \/ ty = Exclusive /\ lockState s <> 0) ->
  awake (goto t (G_scan (S i)) s).
Proof.
  intros Hi Ha Hp Hq Hty. eapply (awake_goto _ _ t (G_scan (S i)) Ha); [done|by rewrite Hp|by rewrite Hp|].
  assert (Hm : mutex s = Some t) by (apply (inv_mutex s Hi); by rewrite Hp).
  unfold seen. cbn [goto mutex que pcs lockState]. rewrite Hm, fn_lookup_insert, Hp. cbn [seen_of].
  rewrite (take_S_r _ _ _ Hq). destruct Hty as [[-> H]|[-> H]].
  - intros Hg. by apply grantable_negative in Hg.
  - apply grantable_exclusive. auto.
Qed.

Lemma awake_grant t s s' : inv s -> awake s -> step_grant t s = Some s' -> awake s'.
Proof.
  intros Hi Ha. unfold step_grant. destruct (pcs s t) eqn:Hp; try done; pc_fact Hi t Hp.
  - unfold acquire_mutex. destruct (mutex s) eqn:M; [done|]. intros [= <-] Hg.
    unfold seen in Hg. cbn [goto set_mutex mutex pcs que] in Hg. rewrite fn_lookup_insert in Hg.
    destruct Hg as [[_ H]|[_ [t' H]]]; [done|by apply elem_of_nil in H].
  - assert (Hm : mutex s = Some t) by (apply (inv_mutex s Hi); by rewrite Hp).
    intros [= <-] Hg. rewrite bool_decide_eq_true_2 in Hg by (by eapply grant_assertion).
    unfold seen in Hg. cbn [goto mutex pcs que] in Hg. rewrite Hm, fn_lookup_insert in Hg.
    cbn [seen_of] in Hg. rewrite take_0 in Hg.
    destruct Hg as [[_ H]|[_ [t' H]]]; [done|by apply elem_of_nil in H].
  - intros [= <-]. destruct (que s !! i) as [[t' [|]]|] eqn:Hq.
    + destruct (Z.leb_spec 0 (lockState s)); [awake_same t (G_shared_cas i (lockState s)) Hp Ha Hi|].
      eapply awake_skip; eauto.
    + destruct (Z.eqb_spec (lockState s) 0); [awake_same t (G_excl_cas i) Hp Ha Hi|].
      eapply awake_skip; eauto.
    + eapply (awake_goto _ _ t (Ready true) Ha); [done|by rewrite Hp|by rewrite Hp|].
      rewrite (seen_owner s t Hi), Hp by (by rewrite Hp). cbn [seen_of].
      rewrite take_ge by (by apply lookup_ge_None). exact id.
  - destruct Hpc as (H0 & t' & Hq). rewrite Hq. intros [= <-].
    destruct (Z.eqb_spec (lockState s) old) as [E|E]; [|awake_same t (G_scan i) Hp Ha Hi].
    eapply (awake_goto _ _ t (G_unlink i Shared) Ha); [done|by rewrite Hp|by rewrite Hp|].
    erewrite (seen_goto _ _ t (G_unlink i Shared) Hi); [|done|done|done|by rewrite Hp|by rewrite Hp].
    cbn [goto set_lock lockState]. intros H. eapply grantable_more; [exact H| |]; lia.
  - destruct Hpc as (t' & Hq). rewrite Hq. intros [= <-].
    destruct (Z.eqb_spec (lockState s) 0) as [E|E]; [|awake_same t (G_scan i) Hp Ha Hi].
    intros Hg. by apply grantable_negative in Hg.
  - destruct (que s !! i) as [[t' ty']|] eqn:Hq; [|done]. intros [= <-].
    assert (Hm : mutex s = Some t) by (apply (inv_mutex s Hi); by rewrite Hp).
    assert (Hs : take i (delete i (que s)) = take i (que s)).
    { rewrite delete_take_drop, take_app_le by (rewrite length_take; apply lookup_lt_Some in Hq; lia).
      rewrite take_take. f_equal. lia. }
    destruct ty;
      (eapply (awake_goto _ _ t (G_grant i t') Ha); [done|by rewrite Hp|by rewrite Hp|]);
      unfold seen; cbn [goto bumpWaiters set_que set_exclusive mutex que pcs lockState];
      rewrite Hm, fn_lookup_insert, Hp; cbn [seen_of]; by rewrite Hs.
  - intros [= <-]. awake_same t (G_scan i) Hp Ha Hi.
Qed.

Lemma awake_step t s s' : inv s -> awake s -> step t s = Some s' -> awake s'.
Proof.
  intros Hi Ha. unfold step.
  destruct (step_lock_shared t s) eqn:E1; [intros [= <-]; by eapply awake_lock_shared|].
  destruct (step_lock_exclusive t s) eqn:E2; [intros [= <-]; by eapply awake_lock_exclusive|].
  destruct (step_wait t s) eqn:E3; [intros [= <-]; by eapply awake_wait|].
  destruct (step_unlock t s) eqn:E4; [intros [= <-]; by eapply awake_unlock|].
  by apply awake_grant.
Qed.

Lemma awake_reachable s : reachable disciplined s -> awake s.
Proof.
  induction 1 as [|s s' Hr IH Hm].
  - intros [[_ H]|[_ [t H]]]; [done|]. by apply elem_of_nil in H.
  - pose proof (inv_reachable s Hr) as Hi. destruct Hm as [t s s' E|t c s r Hp Hd].
    + by eapply awake_step.
    + eapply (awake_goto _ _ t (entry c) IH); [done|by rewrite Hp|by rewrite Hp|].
      erewrite (seen_goto _ _ t (entry c) Hi); [exact id|done|done|done| |]; rewrite Hp;
        destruct c as [[|]|[|]| |]; done.
Qed.

(** ** A granting thread that is not disturbed *)

Fixpoint run (n : nat) (t : nat) (s : state) : option state :=
  match n with
  | O => Some s
  | S n => match step t s with Some s => run n t s | None => None end
  end.

(** Steps of a thread inside [grantLocks] are those of [step_grant]. *)
Definition granting (p : pc) : bool :=
  match p with
  | G_mutex | G_assert | G_scan _ | G_shared_cas _ _ | G_excl_cas _ | G_unlink _ _ | G_grant _ _ => true
  | _ => false
  end.

Lemma step_granting t s : granting (pcs s t) = true -> step t s = step_grant t s.
Proof.
  intros H. unfold step, step_lock_shared, step_lock_exclusive, step_wait, step_unlock.
  by destruct (pcs s t).
Qed.

Lemma run_S t s s1 n s2 : step t s = Some s1 -> run n t s1 = Some s2 -> run (S n) t s = Some s2.
Proof. intros H1 H2. cbn [run]. by rewrite H1. Qed.

Lemma not_grantable_up l q : ~ grantable l q -> 0 <= l -> ~ grantable (l + 1) q.
Proof. intros H H0 [[E _]|[E Hq]]; [lia|]. apply H. by right. Qed.

(** The scan of the queue ends, and leaves nobody behind who could have had
    the lock. *)
Lemma scan_run t k : forall s i,
  inv s -> pcs s t = G_scan i -> (length (que s) - i = k)%nat ->
  ~ grantable (lockState s) (take i (que s)) ->
  exists n s', run n t s = Some s' /\ pcs s' t = Ready true /\ mutex s' = None /\
    ~ grantable (lockState s') (que s').
Proof.
  induction k as [k IH] using lt_wf_ind. intros s i Hi Hp Hk Hg.
  assert (Hstep : forall s1, step_grant t s = Some s1 -> step t s = Some s1)
    by (intros s1 E; rewrite step_granting; [done|by rewrite Hp]).
  destruct (que s !! i) as [[x ty]|] eqn:Hq.
  2:{ eexists 1%nat, _. split; [eapply run_S; [apply Hstep; unfold step_grant; rewrite Hp, Hq; reflexivity|reflexivity]|].
      cbn [goto set_mutex pcs mutex lockState que]. rewrite fn_lookup_insert. split_and!; try done.
      by rewrite take_ge in Hg by (by apply lookup_ge_None). }
  pose proof (lookup_lt_Some _ _ _ Hq) as Hlt.
  (* an entry that is passed *)
  assert (Hskip : step_grant t s = Some (goto t (G_scan (S i)) s) ->
    ~ grantable (lockState s) (take (S i) (que s)) ->
    exists n s', run n t s = Some s' /\ pcs s' t = Ready true /\ mutex s' = None /\
      ~ grantable (lockState s') (que s')).
  { intros E Hg'. pose proof (Hstep _ E) as E'.
    destruct (IH (length (que s) - S i)%nat ltac:(lia) (goto t (G_scan (S i)) s) (S i)) as (n & s' & Hn & H).
    - by eapply inv_step.
    - cbn [goto pcs]. by rewrite fn_lookup_insert.
    - done.
    - done.
    - exists (S n), s'. split; [by eapply run_S|done]. }
  (* an entry that is granted *)
  assert (Hgrant : forall l p, ~ grantable l (take i (que s)) ->
    let s1 := goto t p s in
    let s2 := goto t (G_unlink i ty) (set_lock l ((x, ty) :: held s) s1) in
    step t s = Some s1 -> step t s1 = Some s2 ->
    exists n s', run n t s = Some s' /\ pcs s' t = Ready true /\ mutex s' = None /\
      ~ grantable (lockState s') (que s')).
  { intros l p Hl s1 s2 E1 E2.
    assert (Hi2 : inv s2) by (eapply inv_step; [|exact E2]; by eapply inv_step).
    assert (Hp2 : pcs s2 t = G_unlink i ty) by (unfold s2; cbn [goto pcs]; by rewrite fn_lookup_insert).
    assert (Hq2 : que s2 !! i = Some (x, ty)) by exact Hq.
    set (s3 := goto t (G_grant i x) (bumpWaiters (-1) (set_que (delete i (que s2))
         (match ty with Shared => s2 | Exclusive => set_exclusive (Some x) s2 end)))).
    assert (E3 : step t s2 = Some s3).
    { rewrite step_granting by (by rewrite Hp2). unfold step_grant. rewrite Hp2, Hq2. by destruct ty. }
    assert (Hp3 : pcs s3 t = G_grant i x) by (unfold s3; cbn [goto pcs]; by rewrite fn_lookup_insert).
    set (s4 := goto t (G_scan i) (set_granted x true s3)).
    assert (E4 : step t s3 = Some s4).
    { rewrite step_granting by (by rewrite Hp3). unfold step_grant. by rewrite Hp3. }
    assert (Hque : que s4 = delete i (que s)) by (by destruct ty).
    assert (Hlock : lockState s4 = l) by (by destruct ty).
    pose proof (length_delete (que s) i (ltac:(eauto) : is_Some (que s !! i))) as Hdel.
    destruct (IH (length (que s4) - i)%nat ltac:(rewrite Hque; lia) s4 i) as (n & s' & Hn & H).
    - eapply inv_step; [|exact E4]. by eapply inv_step.
    - unfold s4. cbn [goto pcs]. by rewrite fn_lookup_insert.
    - done.
    - rewrite Hque, Hlock, delete_take_drop, take_app_le by (rewrite length_take; lia).
      rewrite take_take. by replace (i `min` i)%nat with i by lia.
    - exists (S (S (S (S n)))), s'. split; [|done]. by repeat (eapply run_S; [eassumption|]). }
  destruct ty.
  - destruct (Z.leb_spec 0 (lockState s)) as [H0|H0].
    + apply (Hgrant (lockState s + 1) (G_shared_cas i (lockState s))).
      * by apply not_grantable_up.
      * apply Hstep. unfold step_grant. rewrite Hp, Hq. by rewrite (proj2 (Z.leb_le _ _) H0).
      * rewrite step_granting by (cbn [goto pcs]; by rewrite fn_lookup_insert).
        unfold step_grant. cbn [goto pcs que lockState]. rewrite fn_lookup_insert, Hq, Z.eqb_refl. done.
    + apply Hskip; [|by apply grantable_negative].
      unfold step_grant. rewrite Hp, Hq. by rewrite (proj2 (Z.leb_gt _ _) H0).
  - destruct (Z.eqb_spec (lockState s) 0) as [H0|H0].
    + apply (Hgrant (-1) (G_excl_cas i)).
      * by apply grantable_negative.
      * apply Hstep. unfold step_grant. by rewrite Hp, Hq, H0.
      * rewrite step_granting by (cbn [goto pcs]; by rewrite fn_lookup_insert).
        unfold step_grant. cbn [goto pcs que lockState]. rewrite fn_lookup_insert, Hq, H0. done.
    + apply Hskip.
      * unfold step_grant. rewrite Hp, Hq. by rewrite (proj2 (Z.eqb_neq _ _) H0).
      * rewrite (take_S_r _ _ _ Hq). intros H. apply Hg. eapply grantable_exclusive; [|exact H]. auto.
Qed.

(** ** Executions

    A schedule: the thread that moves, and the call it makes if it is outside
    the object's routines. *)
Definition disciplinedb (t : nat) (c : call) (s : state) : bool :=
  match c with
  | CLock Exclusive | CLockConditional Exclusive => bool_decide ((t, Shared) ∉ held s)
  | CLock Shared | CLockConditional Shared => true
  | CUnlock ty => bool_decide ((t, ty) ∈ held s)
  | CDownGrade => bool_decide ((t, Exclusive) ∈ held s) && (monitorCount s =? 0)
  end.

(** Callers that release and downgrade only what they hold, and are not
    restricted otherwise. *)
Definition lawful (t : nat) (c : call) (s : state) : Prop :=
  match c with
  | CLock _ | CLockConditional _ => True
  | CUnlock ty => (t, ty) ∈ held s
  | CDownGrade => (t, Exclusive) ∈ held s /\ monitorCount s = 0
  end.

Definition lawfulb (t : nat) (c : call) (s : state) : bool :=
  match c with
  | CLock _ | CLockConditional _ => true
  | _ => disciplinedb t c s
  end.

Fixpoint execute (allowed : nat -> call -> state -> bool) (schedule : list (nat * option call))
    (s : state) : option state :=
  match schedule with
  | [] => Some s
  | (t, None) :: schedule =>
      match step t s with Some s => execute allowed schedule s | None => None end
  | (t, Some c) :: schedule =>
      match pcs s t with
      | Ready _ => if allowed t c s then execute allowed schedule (goto t (entry c) s) else None
      | _ => None
      end
  end.

Lemma execute_reachable P allowed schedule s s' :
  (forall t c s, allowed t c s = true -> P t c s) ->
  reachable P s -> execute allowed schedule s = Some s' -> reachable P s'.
Proof.
  intros HP. revert s; induction schedule as [|[t [c|]] schedule IH]; intros s Hr; cbn [execute].
  - by intros [= <-].
  - destruct (pcs s t) eqn:Hp; try done. destruct (allowed t c s) eqn:Ha; [|done].
    apply IH. eapply reachable_moves; [done|]. eapply moves_call; eauto.
  - destruct (step t s) eqn:E; [|done]. apply IH. eapply reachable_moves; [done|]. by eapply moves_step.
Qed.

Lemma disciplinedb_ok t c s : disciplinedb t c s = true -> disciplined t c s.
Proof.
  destruct c as [[|]|[|]|ty|]; cbn [disciplinedb disciplined]; try done;
    rewrite ?andb_true_iff, ?bool_decide_eq_true, ?Z.eqb_eq; done.
Qed.

Lemma lawfulb_ok t c s : lawfulb t c s = true -> lawful t c s.
Proof.
  destruct c as [ty|ty|ty|]; cbn [lawfulb lawful]; try done; apply disciplinedb_ok.
Qed.

Definition after (schedule : list (nat * option call)) : state :=
  default init (execute disciplinedb schedule init).

Definition executes (schedule : list (nat * option call)) : bool :=
  match execute disciplinedb schedule init with Some _ => true | None => false end.

Lemma after_reachable schedule :
  executes schedule = true -> reachable disciplined (after schedule).
Proof.
  unfold after, executes. destruct (execute disciplinedb schedule init) as [s|] eqn:E; [|done]. intros _.
  eapply (execute_reachable disciplined); [apply disciplinedb_ok|constructor|exact E].
Qed.

Definition call_of (t : nat) (c : call) (n : nat) : list (nat * option call) :=
  (t, Some c) :: replicate n (t, None).

(** Thread 1 takes the exclusive lock, thread 2 queues for a shared one, and
    thread 1 releases. *)
Definition handover : list (nat * option call) :=
  call_of 1 (CLock Exclusive) 5 ++ call_of 2 (CLock Shared) 5 ++ call_of 1 (CUnlock Exclusive) 4.

(** ** Properties *)

(** C1: Mutual exclusion, in every interleaving of disciplined threads: while
    a thread holds the lock exclusively nobody else holds it, the lock state
    is -1; otherwise the lock state is the number of shared holders. *)
Theorem mutual_exclusion s :
  reachable disciplined s ->
  (forall t, (t, Exclusive) ∈ held s -> held s = [(t, Exclusive)] /\ lockState s = -1) /\
  ((forall t, (t, Exclusive) ∉ held s) -> lockState s = Z.of_nat (length (held s))).
Proof.
  intros Hr. apply inv_reachable in Hr as Hi. pose proof (inv_count s Hi) as Hc. split.
  - intros t Ht. by destruct (count_exclusive s t Hc Ht).
  - intros Hno. destruct Hc as [[_ [t Ht]]|[E _]]; [|done].
    destruct (Hno t). rewrite Ht. by apply list_elem_of_singleton.
Qed.

Lemma mutual_exclusion_witness :
  held (after (call_of 1 (CLock Exclusive) 5)) = [(1%nat, Exclusive)] /\
  lockState (after (call_of 1 (CLock Exclusive) 5)) = -1.
Proof.
  apply (proj1 (mutual_exclusion (after (call_of 1 (CLock Exclusive) 5))
    (after_reachable (call_of 1 (CLock Exclusive) 5) eq_refl)) 1%nat).
  vm_compute. left.
Defined.

(** The lock a thread is acquiring. *)
Definition locking (p : pc) : option LockType :=
  match p with
  | LS _ | LS_cas _ _ | LS_mutex | LS_bump | LS_slow | LS_slow_cas _ | LS_exit => Some Shared
  | LX _ | LX_waiters _ | LX_read _ | LX_cas _ | LX_set
  | LX_mutex | LX_bump | LX_slow | LX_slow_cas | LX_slow_set | LX_exit => Some Exclusive
  | W_enqueue ty | W_sleep ty => Some ty
  | _ => None
  end.

(** When [lock] returns, or [lockConditional] returns true, the thread
    owns the lock it asked for: on the fast path, the slow path, the
    recursive one and after waiting. *)
Theorem lock_returns_owner s t s' ty :
  reachable disciplined s -> locking (pcs s t) = Some ty -> step t s = Some s' ->
  pcs s' t = Ready true -> (t, ty) ∈ held s'.
Proof.
  intros Hr Hl Hstep Hret. apply inv_reachable in Hr as Hi. pose proof (inv_pc s Hi t) as Hpc.
  revert Hstep. unfold step, step_lock_shared, step_lock_exclusive, step_wait, step_unlock, step_grant.
  destruct (pcs s t) eqn:Hp; try done; cbn [locking pc_ok] in *; injection Hl as <-;
    try (unfold acquire_mutex; destruct (mutex s); [done|]);
    try (destruct (lockGranted s t); [|done]);
    intros [= <-]; repeat case_match; cbn [goto pcs] in Hret;
    rewrite fn_lookup_insert in Hret; try done;
    cbn [goto set_lock set_mutex bumpWaiters set_exclusive set_monitor held];
    rewrite ?elem_of_cons; auto.
  match goal with e : exclusiveThread s = Some t |- _ =>
    destruct (inv_exclusive s Hi t e) as [[|] Hty]; done end.
Qed.

Lemma lock_returns_owner_witness :
  (2%nat, Shared) ∈ held (after (handover ++ replicate 7 (1%nat, None) ++ [(2%nat, None)])).
Proof.
  apply (lock_returns_owner (after (handover ++ replicate 7 (1%nat, None))) 2 _ Shared).
  - apply after_reachable. reflexivity.
  - reflexivity.
  - vm_compute. reflexivity.
  - reflexivity.
Defined.

(** No assertion of the object fails and no thread finds itself in the
    queue; the mutex has one owner at a time, and while it is free the number
    of waiters is the length of the queue, in which each thread stands once,
    asleep. *)
Theorem assertions_hold s :
  reachable disciplined s ->
  (forall t, pcs s t <> Failed) /\
  (forall t1 t2, in_mutex (pcs s t1) = true -> in_mutex (pcs s t2) = true -> t1 = t2) /\
  (mutex s = None -> waiters s = Z.of_nat (length (que s))) /\
  NoDup (que s).*1 /\ (forall t ty, (t, ty) ∈ que s -> pcs s t = W_sleep ty).
Proof.
  intros Hr. apply inv_reachable in Hr as Hi. split_and!.
  - intros t Hp. pose proof (inv_pc s Hi t) as H. by rewrite Hp in H.
  - intros t1 t2 H1 H2. apply (inv_mutex s Hi) in H1, H2. congruence.
  - intros Hm. rewrite (inv_waiters s Hi), Hm. lia.
  - apply Hi.
  - intros t ty H. by apply (inv_que s Hi) in H as [H _].
Qed.

Lemma assertions_hold_witness :
  pcs (after handover) 1%nat <> Failed /\ waiters (after handover) = 1.
Proof.
  pose proof (assertions_hold (after handover) (after_reachable handover eq_refl)) as (H1 & _ & H3 & _).
  split; [apply H1|]. rewrite H3 by reflexivity. reflexivity.
Defined.

(** C36: No wakeup is lost: whenever the mutex is free and a queued thread
    could have the lock - nobody holds it, or it is not held exclusively and
    the thread wants it shared - some thread is on its way to [grantLocks] and
    can move. *)
Theorem no_lost_wakeup s :
  reachable disciplined s -> mutex s = None -> grantable (lockState s) (que s) ->
  exists t s', (pcs s t = U_check \/ pcs s t = G_mutex) /\ step t s = Some s'.
Proof.
  intros Hr Hm Hg. destruct (awake_reachable s Hr) as [t Ht]; [unfold seen; by rewrite Hm|].
  exists t. unfold step, step_lock_shared, step_lock_exclusive, step_wait, step_unlock, step_grant,
    acquire_mutex.
  destruct Ht as [Ht|Ht]; rewrite Ht, ?Hm; eauto.
Qed.

Lemma no_lost_wakeup_witness :
  exists t s', (pcs (after handover) t = U_check \/ pcs (after handover) t = G_mutex) /\
    step t (after handover) = Some s'.
Proof.
  apply (no_lost_wakeup (after handover) (after_reachable handover eq_refl) eq_refl).
  vm_compute. left. split; [reflexivity|discriminate].
Defined.

(** [grantLocks] does its work: run without disturbance from its call,
    it terminates, releases the mutex, and leaves nobody in the queue who
    could have the lock. *)
Theorem grantLocks_complete s t :
  reachable disciplined s -> pcs s t = G_mutex -> mutex s = None ->
  exists n s', run n t s = Some s' /\ pcs s' t = Ready true /\ mutex s' = None /\
    ~ grantable (lockState s') (que s').
Proof.
  intros Hr Hp Hm. apply inv_reachable in Hr as Hi.
  set (s1 := goto t G_assert (set_mutex (Some t) s)).
  assert (E1 : step t s = Some s1).
  { rewrite step_granting by (by rewrite Hp). unfold step_grant, acquire_mutex. by rewrite Hp, Hm. }
  assert (Hi1 : inv s1) by (by eapply inv_step).
  assert (Hp1 : pcs s1 t = G_assert) by (unfold s1; cbn [goto pcs]; by rewrite fn_lookup_insert).
  set (s2 := goto t (G_scan 0) s1).
  assert (E2 : step t s1 = Some s2).
  { rewrite step_granting by (by rewrite Hp1). unfold step_grant. rewrite Hp1.
    by rewrite bool_decide_eq_true_2 by (by eapply grant_assertion). }
  destruct (scan_run t (length (que s2) - 0) s2 0) as (n & s' & Hn & H); try done.
  - by eapply inv_step.
  - unfold s2. cbn [goto pcs]. by rewrite fn_lookup_insert.
  - rewrite take_0. intros [[_ H]|[_ [x H]]]; [done|by apply elem_of_nil in H].
  - exists (S (S n)), s'. split; [|done]. by repeat (eapply run_S; [eassumption|]).
Qed.

Lemma grantLocks_complete_witness :
  exists n s', run n 1 (after (handover ++ [(1%nat, None)])) = Some s' /\ pcs s' 1%nat = Ready true /\
    mutex s' = None /\ ~ grantable (lockState s') (que s').
Proof.
  apply (grantLocks_complete (after (handover ++ [(1%nat, None)])) 1
    (after_reachable (handover ++ [(1%nat, None)]) eq_refl)); reflexivity.
Defined.

(** Without the discipline exclusion fails: [downGrade] leaves
    [exclusiveThread] set, so a thread that has downgraded and asks for the
    exclusive lock again is let in at once, while another thread holds the
    lock shared. *)
Theorem downgrade_breaks_exclusion :
  exists s s', reachable lawful s /\ pcs s 1%nat = LX false /\ step 1 s = Some s' /\
    pcs s' 1%nat = Ready true /\ (2%nat, Shared) ∈ held s'.
Proof.
  set (schedule := call_of 1 (CLock Exclusive) 5 ++ call_of 1 CDownGrade 3
    ++ call_of 2 (CLock Shared) 2 ++ [(1%nat, Some (CLock Exclusive))]).
  destruct (execute lawfulb schedule init) as [s|] eqn:E; [|by vm_compute in E].
  exists s. eexists. split_and!.
  - eapply (execute_reachable lawful); [apply lawfulb_ok|constructor|exact E].
  - vm_compute in E. injection E as <-. reflexivity.
  - vm_compute in E. injection E as <-. vm_compute. reflexivity.
  - reflexivity.
  - vm_compute. left.
Qed.

(** The queries tell what is held: the state is none, shared or exclusive
    exactly as nobody, sharers or one owner hold the lock, [validate] agrees
    with it, [unlock()] picks the kind its caller holds, and a thread that is
    told that the exclusive lock is its own owns it. *)
Theorem queries_tell_held s t :
  reachable disciplined s ->
  (isLocked s = true <-> held s <> []) /\
  (forall ty, getState s = Some ty <-> exists t', (t', ty) ∈ held s) /\
  validate (getState s) s = true /\
  (forall ty, (t, ty) ∈ held s -> entry_unlock s = U ty) /\
  (ourExclusiveLock t s = true -> (t, Exclusive) ∈ held s).
Proof.
  intros Hr. apply inv_reachable in Hr as Hi. pose proof (inv_count s Hi) as Hc.
  unfold isLocked, getState, entry_unlock, ourExclusiveLock.
  assert (Hty : forall ty, (exists t', (t', ty) ∈ held s) ->
    match ty with Shared => 0 < lockState s | Exclusive => lockState s = -1 end).
  { intros [|] [t' H]; [by destruct (count_shared s t' Hc H)|by destruct (count_exclusive s t' Hc H)]. }
  destruct Hc as [[E [t' H]]|[E Hall]].
  - rewrite E, H. cbn. split_and!; try done.
    + intros ty. split; [intros [= <-]; exists t'; by apply list_elem_of_singleton|].
      intros [t2 H2%list_elem_of_singleton]. by injection H2 as -> ->.
    + by rewrite E.
    + intros ty H2%list_elem_of_singleton. by injection H2 as -> ->.
    + intros Ht%bool_decide_eq_true. destruct (inv_exclusive s Hi t Ht) as [ty Hty']. rewrite H in Hty'.
      apply list_elem_of_singleton in Hty' as Hty''. injection Hty'' as -> ->. done.
  - assert (Hneg : (lockState s <? 0) = false) by (apply Z.ltb_ge; lia).
    assert (Hone : (lockState s =? -1) = false) by (apply Z.eqb_neq; lia).
    rewrite Hneg, Hone. rewrite list.Forall_forall in Hall. destruct (held s) as [|[t1 ty1] h] eqn:Hh.
    + cbn [length] in E. rewrite E. cbn. split_and!; try done.
      * intros ty. split; [done|]. by intros [t' H%elem_of_nil].
      * change (validate None s = true). cbn [validate]. by rewrite E.
      * by intros ty H%elem_of_nil.
    + cbn [length] in E. rewrite (proj2 (Z.eqb_neq _ _)), (proj2 (Z.ltb_lt 0 _)) by lia. cbn [negb].
      split_and!; try done.
      * intros [|]; [|split; [done|]; intros [t' H]; by apply Hall in H].
        split; [|done]. intros _. exists t1. specialize (Hall (t1, ty1)). cbn [snd] in Hall.
        rewrite <-Hall; [apply elem_of_cons; auto|apply elem_of_cons; auto].
      * cbn [validate]. apply Z.ltb_lt. lia.
      * intros ty H. apply Hall in H. cbn [snd] in H. by rewrite H.
Qed.

Lemma queries_tell_held_witness :
  ourExclusiveLock 1 (after (call_of 1 (CLock Exclusive) 5)) = true /\
  (1%nat, Exclusive) ∈ held (after (call_of 1 (CLock Exclusive) 5)).
Proof.
  split; [reflexivity|].
  apply (queries_tell_held (after (call_of 1 (CLock Exclusive) 5)) 1
    (after_reachable (call_of 1 (CLock Exclusive) 5) eq_refl)).
  reflexivity.
Defined.

End SyncObject.
