(* ===== verification/TipCache.v ===== *)
(** * Transaction states (jrd/TipCache.cpp, jrd/tra.cpp)

    The states of transactions, two bits each, on the transaction inventory
    pages; the cache of these pages; and the routines that answer what state a
    transaction is in.  The database holds the pages (fetching one is reading
    it from the page cache), the numbers of the header page, the list of
    precommitted transactions and the cache.  Transaction numbers stay below
    2^31, so that sums of them do not overflow.  Whether a lock on a
    transaction can be had at once is up to the lock manager: [lockable] is
    an argument. *)

From S2P Require Import Prelude.

Module TipCache.

(** ** Constants (jrd/tra.h) *)

Definition TRA_MASK : Z := 3.
Definition TRA_SHIFT : Z := 2.

Definition TRANS_SHIFT (number : Z) : Z := Z.shiftl (Z.land number TRA_MASK) 1.
Definition TRANS_OFFSET (number : Z) : Z := Z.shiftr number TRA_SHIFT.

Definition tra_active : Z := 0.
Definition tra_limbo : Z := 1.
Definition tra_dead : Z := 2.
Definition tra_committed : Z := 3.
Definition tra_us : Z := 4.
Definition tra_precommitted : Z := 5.

(** ** Data *)

(** One cached page: the first transaction on it and its bits. *)
Record tpc := mk_tpc { tpc_base : Z; tpc_transactions : list Z }.

Record dbb := mk_dbb {
  transactionsPerTip : Z;                (* pgc_tpt *)
  tips : list (list Z);                  (* tip_transactions of the pages of dbb_t_pages *)
  hdr_next_transaction : Z;
  hdr_oldest_transaction : Z;
  hdr_oldest_active : Z;
  dbb_oldest_transaction : Z;
  dbb_pc_transactions : list Z;
  dbb_read_only : bool;
  cache : list tpc
}.

Definition with_cache (c : list tpc) (db : dbb) : dbb :=
  mk_dbb (transactionsPerTip db) (tips db) (hdr_next_transaction db) (hdr_oldest_transaction db)
    (hdr_oldest_active db) (dbb_oldest_transaction db) (dbb_pc_transactions db) (dbb_read_only db) c.

Definition with_tips (t : list (list Z)) (db : dbb) : dbb :=
  mk_dbb (transactionsPerTip db) t (hdr_next_transaction db) (hdr_oldest_transaction db)
    (hdr_oldest_active db) (dbb_oldest_transaction db) (dbb_pc_transactions db) (dbb_read_only db) (cache db).

Definition with_precommitted (l : list Z) (db : dbb) : dbb :=
  mk_dbb (transactionsPerTip db) (tips db) (hdr_next_transaction db) (hdr_oldest_transaction db)
    (hdr_oldest_active db) (dbb_oldest_transaction db) l (dbb_read_only db) (cache db).

(** ** Bits *)

(** The element of a byte array; outside of it, C++ defines nothing. *)
Definition byte_at (l : list Z) (i : Z) : outcome Z :=
  if i <? 0 then Throw Overrun
  else match l !! Z.to_nat i with Some b => Ret b | None => Throw Overrun end.

Definition set_byte (l : list Z) (i b : Z) : list Z := <[Z.to_nat i := b]> l.

Definition get_bits (b shift : Z) : Z := Z.land (Z.shiftr b shift) TRA_MASK.

Definition put_bits (b shift state : Z) : Z :=
  UCHAR (Z.lor (UCHAR (Z.land b (Z.lnot (Z.shiftl TRA_MASK shift)))) (Z.shiftl state shift)).

(** A copy of [l] bytes from the start of an array over the start of
    another. *)
Definition move_fast (from to : list Z) (l : Z) : outcome (list Z) :=
  if (l <=? Z.of_nat (length from)) && (l <=? Z.of_nat (length to))
  then Ret (take (Z.to_nat l) from ++ drop (Z.to_nat l) to) else Throw Overrun.

Definition TRA_state (bit_vector : list Z) (oldest number : Z) : outcome Z :=
  let base := Z.land oldest (Z.lnot TRA_MASK) in
  let byte := TRANS_OFFSET (ULONG (number - base)) in
  let shift := TRANS_SHIFT number in
  let* b := byte_at bit_vector byte in
  Ret (get_bits b shift).

(** ** Precommitted transactions *)

(** Looks for [old_number]; returns its position or the first free one. *)
Fixpoint find_precommitted (l : list Z) (n : nat) (zp : option nat) (old_number : Z)
    : nat + option nat :=
  match l with
  | [] => inr zp
  | number :: l =>
      if number =? old_number then inl n
      else find_precommitted l (S n)
             (match zp with
              | None => if number =? 0 then Some n else None
              | Some _ => zp
              end) old_number
  end.

Definition TRA_precommited (old_number new_number : Z) (db : dbb) : bool * dbb :=
  let l := dbb_pc_transactions db in
  match find_precommitted l 0 None old_number with
  | inl n => (negb (new_number =? 0), with_precommitted (<[n := new_number]> l) db)
  | inr zp =>
      if (old_number =? new_number) || (new_number =? 0) then (false, db)
      else (true, with_precommitted
              (match zp with Some n => <[n := new_number]> l | None => l ++ [new_number] end) db)
  end.

(** [number && dbb_pc_transactions.size() && TRA_precommited (number, number)] *)
Definition is_precommitted (number : Z) (db : dbb) : bool :=
  negb (number =? 0) && negb (length (dbb_pc_transactions db) =? 0)%nat
  && (TRA_precommited number number db).1.

(** ** The cache *)

Fixpoint release_old (tpt oldest : Z) (c : list tpc) : list tpc :=
  match c with
  | b :: c' => if tpc_base b + tpt <=? oldest then release_old tpt oldest c' else c
  | [] => []
  end.

Fixpoint refresh (first_trans l : Z) (page : list Z) (c : list tpc) : outcome (list tpc) :=
  match c with
  | [] => Ret []
  | b :: c =>
      if first_trans =? tpc_base b then
        let* bits := move_fast page (tpc_transactions b) l in
        Ret (mk_tpc (tpc_base b) bits :: c)
      else let* c := refresh first_trans l page c in Ret (b :: c)
  end.

Definition updateCache (page : list Z) (sequence : Z) (db : dbb) : outcome dbb :=
  let tpt := transactionsPerTip db in
  let first_trans := sequence * tpt in
  let c := release_old tpt (dbb_oldest_transaction db) (cache db) in
  let* c := refresh first_trans (USHORT (TRANS_OFFSET tpt)) page c in
  Ret (with_cache c db).

(** The page of a number in the sequence, which must exist. *)
Definition inventory_page (sequence : Z) (db : dbb) : outcome (list Z) :=
  if sequence <? 0 then Throw (BUGCHECK 165)
  else match tips db !! Z.to_nat sequence with
       | Some page => Ret page
       | None => Throw (BUGCHECK 165)
       end.

Definition fetch_inventory_page (sequence : Z) (db : dbb) : outcome (list Z * dbb) :=
  let* page := inventory_page sequence db in
  let* db := updateCache page sequence db in
  Ret (page, db).

Definition TRA_fetch_state (number : Z) (db : dbb) : outcome (Z * dbb) :=
  let tpt := transactionsPerTip db in
  let* (tip, db) := fetch_inventory_page (number / tpt) db in
  let* b := byte_at tip (TRANS_OFFSET (number mod tpt)) in
  Ret (get_bits b (TRANS_SHIFT number), db).

(** Bytes [q] to [q + l] of a page. *)
Definition page_bytes (page : list Z) (q l : Z) : outcome (list Z) :=
  if q + l <=? Z.of_nat (length page)
  then Ret (take (Z.to_nat l) (drop (Z.to_nat q) page)) else Throw Overrun.

Fixpoint inventory_pages (fuel : nat) (want : bool) (sequence last top : Z) (db : dbb)
    : outcome (list Z * dbb) :=
  match fuel with
  | O => Throw Overrun
  | S fuel =>
      if sequence <=? last then
        let tpt := transactionsPerTip db in
        let base := sequence * tpt in
        let* tip := inventory_page sequence db in
        let* db := updateCache tip sequence db in
        let* p := (if want then page_bytes tip 0 (TRANS_OFFSET (Z.min (top + TRA_MASK - base) tpt))
                   else Ret []) in
        let* (rest, db) := inventory_pages fuel want (sequence + 1) last top db in
        Ret (p ++ rest, db)
      else Ret ([], db)
  end.

(** [want] tells whether there is a bit vector; the bytes moved into it are
    returned. *)
Definition TRA_get_inventory (want : bool) (base top : Z) (db : dbb) : outcome (list Z * dbb) :=
  let tpt := transactionsPerTip db in
  let sequence := base / tpt in
  let last := top / tpt in
  let* (tip, db) := fetch_inventory_page sequence db in
  let l := base mod tpt in
  let* p := (if want then page_bytes tip (TRANS_OFFSET l)
                            (TRANS_OFFSET (Z.min (top + TRA_MASK - base) (tpt - l)))
             else Ret []) in
  let* (rest, db) := inventory_pages (S (Z.to_nat (last - sequence))) want (sequence + 1) last top db in
  Ret (p ++ rest, db).

(** [fresh base] is what the memory of a new block holds. *)
Fixpoint allocate_blocks (fuel : nat) (fresh : Z -> list Z) (tpt base top : Z) : list tpc :=
  match fuel with
  | O => []
  | S fuel =>
      if base <=? top then mk_tpc base (fresh base) :: allocate_blocks fuel fresh tpt (base + tpt) top
      else []
  end.

Definition cacheTransactions (fresh : Z -> list Z) (oldest : Z) (db : dbb) : outcome dbb :=
  let top := hdr_next_transaction db in
  let oldest := Z.max oldest (hdr_oldest_transaction db) in
  let tpt := transactionsPerTip db in
  let base := oldest - oldest mod tpt in
  let blocks := allocate_blocks (S (Z.to_nat (top - base))) fresh tpt base top in
  let* (_, db) := TRA_get_inventory false oldest top (with_cache (cache db ++ blocks) db) in
  Ret db.

Definition initialize (fresh : Z -> list Z) (number : Z) (db : dbb) : outcome dbb :=
  match list.last (cache db) with
  | None => cacheTransactions fresh 0 db
  | Some tip_cache =>
      let next := tpc_base tip_cache + transactionsPerTip db in
      if number <? next then Ret db else cacheTransactions fresh next db
  end.

(** The block a number is looked up in. *)
Definition find_block (number : Z) (db : dbb) : option tpc :=
  snd <$> list_find (fun b => number < tpc_base b + transactionsPerTip db) (cache db).

Definition getCacheState (fresh : Z -> list Z) (number : Z) (db : dbb) : outcome (Z * dbb) :=
  let* db := (match cache db with [] => initialize fresh number db | _ => Ret db end) in
  if is_precommitted number db then Ret (tra_precommitted, db)
  else
    match cache db with
    | [] => Throw Overrun
    | first :: _ =>
        if number <? tpc_base first then Ret (tra_committed, db)
        else
          match find_block number db with
          | Some b => let* st := TRA_state (tpc_transactions b) (tpc_base b) number in Ret (st, db)
          | None => Ret (tra_active, db)
          end
    end.

Fixpoint set_in_blocks (tpt number byte shift state : Z) (c : list tpc) : outcome (list tpc) :=
  match c with
  | [] => Ret []
  | b :: c =>
      if number <? tpc_base b + tpt then
        let* old := byte_at (tpc_transactions b) byte in
        Ret (mk_tpc (tpc_base b) (set_byte (tpc_transactions b) byte (put_bits old shift state)) :: c)
      else let* c := set_in_blocks tpt number byte shift state c in Ret (b :: c)
  end.

Definition setState (number state : Z) (db : dbb) : outcome dbb :=
  let tpt := transactionsPerTip db in
  let byte := TRANS_OFFSET (number mod tpt) in
  let* c := set_in_blocks tpt number byte (TRANS_SHIFT number) state (cache db) in
  Ret (with_cache c db).

Definition extendCache (fresh : Z -> list Z) (number : Z) (db : dbb) : outcome (Z * dbb) :=
  match list.last (cache db) with
  | None => Throw Overrun
  | Some tip_cache =>
      let* db := cacheTransactions fresh (tpc_base tip_cache + transactionsPerTip db) db in
      match find_block number db with
      | Some b => let* st := TRA_state (tpc_transactions b) (tpc_base b) number in Ret (st, db)
      | None => Ret (tra_active, db)
      end
  end.

(** What [snapshotState] does once there is a cache. The second pass over the
    blocks, with the exclusive lock, finds what the first one found. *)
Definition snapshot_lookup (fresh : Z -> list Z) (lockable : Z -> bool) (number : Z) (db : dbb)
    : outcome (Z * dbb) :=
  if is_precommitted number db then Ret (tra_precommitted, db)
  else
    match cache db with
    | [] => Throw Overrun
    | first :: _ =>
        if number <? tpc_base first then Ret (tra_committed, db)
        else
          match find_block number db with
          | Some b =>
              let* state := TRA_state (tpc_transactions b) (tpc_base b) number in
              if (state =? tra_committed) || (state =? tra_dead) then Ret (state, db)
              else if negb (lockable number) then Ret (tra_active, db)
              else TRA_fetch_state number db
          | None => extendCache fresh number db
          end
    end.

Definition snapshotState (fresh : Z -> list Z) (lockable : Z -> bool) (number : Z) (db : dbb)
    : outcome (Z * dbb) :=
  let* db := (match cache db with [] => cacheTransactions fresh 0 db | _ => Ret db end) in
  snapshot_lookup fresh lockable number db.

Definition TRA_get_state (fresh : Z -> list Z) (lockable : Z -> bool) (number : Z) (db : dbb)
    : outcome (Z * dbb) :=
  match cache db with
  | _ :: _ => snapshotState fresh lockable number db
  | [] =>
      if negb (number =? 0) && (TRA_precommited number number db).1 then Ret (tra_precommitted, db)
      else TRA_fetch_state number db
  end.

(** ** Transactions *)

Record Transaction := mk_transaction {
  tra_number : Z;
  tra_oldest : Z;
  tra_top : Z;
  tra_transactions : list Z;
  tra_is_precommitted : bool;            (* TRA_precommitted *)
  tra_read_committed : bool;             (* TRA_read_committed *)
  tra_system : bool;                     (* TRA_system *)
  tra_commit_sub_trans : list Z
}.

(** [transaction] may be null; the code then reads its flags nonetheless. *)
Definition TRA_set_state (transaction : option Transaction) (number state : Z) (db : dbb)
    : outcome dbb :=
  if match transaction with
     | Some t => (tra_number t =? number) && tra_is_precommitted t
     | None => false
     end then Ret db
  else if dbb_read_only db && negb (match cache db with [] => true | _ => false end)
  then setState number state db
  else
    let tpt := transactionsPerTip db in
    let sequence := number / tpt in
    let byte := TRANS_OFFSET (number mod tpt) in
    let* (tip, db) := fetch_inventory_page sequence db in
    match transaction with
    | None => Throw Overrun
    | Some _ =>
        let* old := byte_at tip byte in
        let tip := set_byte tip byte (put_bits old (TRANS_SHIFT number) state) in
        let db := with_tips (<[Z.to_nat sequence := tip]> (tips db)) db in
        match cache db with
        | [] => Ret db
        | _ => setState number state db
        end
    end.

Definition TRA_snapshot_state (fresh : Z -> list Z) (lockable : Z -> bool) (trans : Transaction)
    (number : Z) (db : dbb) : outcome (Z * dbb) :=
  if negb (number =? 0) && (TRA_precommited number number db).1 then Ret (tra_precommitted, db)
  else if number =? tra_number trans then Ret (tra_us, db)
  else if number <? tra_oldest trans then Ret (tra_committed, db)
  else if number =? 0 then Ret (tra_committed, db)
  else if tra_read_committed trans then snapshotState fresh lockable number db
  else if tra_system trans then
    let* (state, db) := snapshotState fresh lockable number db in
    Ret (if state =? tra_active then tra_committed else state, db)
  else if bool_decide (number ∈ tra_commit_sub_trans trans) then Ret (tra_committed, db)
  else if tra_top trans <? number then Ret (tra_active, db)
  else let* st := TRA_state (tra_transactions trans) (tra_oldest trans) number in Ret (st, db).

(** ** Clean-up at startup *)

(** The loop over the transactions [number] to [max] of a page. The first
    limbo transaction, which the code looks for but does not use, is left
    out. *)
Fixpoint cleanup_page (fuel : nat) (tip : list Z) (number max : Z) : outcome (list Z) :=
  match fuel with
  | O => Throw Overrun
  | S fuel =>
      if number <=? max then
        let trans_offset := TRANS_OFFSET number in
        let* byte := byte_at tip trans_offset in
        let shift := TRANS_SHIFT number in
        let tip := if get_bits byte shift =? tra_active
                   then set_byte tip trans_offset (put_bits byte shift tra_dead) else tip in
        cleanup_page fuel tip (number + 1) max
      else Ret tip
  end.

Fixpoint cleanup_pages (fuel : nat) (sequence last number ceiling : Z) (db : dbb) : outcome dbb :=
  match fuel with
  | O => Throw Overrun
  | S fuel =>
      if sequence <=? last then
        let tpt := transactionsPerTip db in
        let* tip := inventory_page sequence db in
        let max := ceiling - sequence * tpt in
        let max := if max >? tpt then tpt - 1 else max in
        let* tip := cleanup_page (S (S (Z.to_nat (max - number)))) tip number max in
        cleanup_pages fuel (sequence + 1) last 0 ceiling
          (with_tips (<[Z.to_nat sequence := tip]> (tips db)) db)
      else Ret db
  end.

(** [outstanding] tells whether some attachment has a transaction. *)
Definition TRA_cleanup (outstanding : bool) (db : dbb) : outcome dbb :=
  if dbb_read_only db then Ret db
  else if outstanding then Ret db
  else
    let ceiling := hdr_next_transaction db in
    let active := hdr_oldest_active db in
    if ceiling =? 0 then Ret db
    else
      let tpt := transactionsPerTip db in
      let last := ceiling / tpt in
      cleanup_pages (S (S (Z.to_nat (last - active / tpt)))) (active / tpt) last (active mod tpt) ceiling db.

(** ** Well-formed databases *)

Definition bases (c : list tpc) : list Z := map tpc_base c.

Record wf (db : dbb) : Prop := {
  wf_tpt : 0 < transactionsPerTip db < 262144 /\ transactionsPerTip db mod 4 = 0;
  wf_tips : Forall (fun page => transactionsPerTip db / 4 <= Z.of_nat (length page) /\
    Forall is_uchar page) (tips db);
  wf_exist : hdr_next_transaction db / transactionsPerTip db < Z.of_nat (length (tips db));
  wf_numbers : 0 <= hdr_oldest_transaction db <= dbb_oldest_transaction db /\
    dbb_oldest_transaction db <= hdr_next_transaction db < 2147483648
}.

Definition page_of (db : dbb) (sequence : Z) : list Z :=
  default [] (tips db !! Z.to_nat sequence).

(** The [k]-th state on a page. *)
Definition page_bits (page : list Z) (k : Z) : Z :=
  match page !! Z.to_nat (k / 4) with
  | Some b => get_bits b (TRANS_SHIFT k)
  | None => tra_active
  end.

(** The state of a transaction on its page. *)
Definition page_state (db : dbb) (number : Z) : Z :=
  let tpt := transactionsPerTip db in
  page_bits (page_of db (number / tpt)) (number mod tpt).

(** Cached bits are those of the page. *)
Definition coherent (db : dbb) (b : tpc) : Prop :=
  tpc_transactions b
  = take (Z.to_nat (transactionsPerTip db / 4)) (page_of db (tpc_base b / transactionsPerTip db)).

(** A block of a cache that is being filled; [P] tells the bases whose pages
    have been copied. *)
Record block_ok (P : Z -> Prop) (db : dbb) (b : tpc) : Prop := {
  block_base : 0 <= tpc_base b /\ tpc_base b mod transactionsPerTip db = 0;
  block_length : Z.of_nat (length (tpc_transactions b)) = transactionsPerTip db / 4;
  block_coherent : P (tpc_base b) -> coherent db b
}.

Fixpoint increasing (l : list Z) : Prop :=
  match l with
  | a :: ((b :: _) as l) => a < b /\ increasing l
  | _ => True
  end.

(** The blocks follow each other without a gap. *)
Fixpoint chained (tpt : Z) (l : list Z) : Prop :=
  match l with
  | a :: ((b :: _) as l) => b = a + tpt /\ chained tpt l
  | _ => True
  end.

Definition filled (P : Z -> Prop) (db : dbb) : Prop :=
  increasing (bases (cache db)) /\ Forall (block_ok P db) (cache db).

(** No block is left that [updateCache] would release. *)
Definition released (db : dbb) : Prop :=
  release_old (transactionsPerTip db) (dbb_oldest_transaction db) (cache db) = cache db.

(** The cache is contiguous, starts no later than the oldest interesting
    transaction, and agrees with the pages. *)
Record cache_ok (db : dbb) : Prop := {
  cache_chained : chained (transactionsPerTip db) (bases (cache db));
  cache_first b c : cache db = b :: c -> tpc_base b <= dbb_oldest_transaction db;
  cache_blocks : Forall (block_ok (fun _ => True) db) (cache db)
}.

(** *** Bits of a number *)

Lemma mask_base n : Z.land n (Z.lnot TRA_MASK) = n - n mod 4.
Proof.
  rewrite <-Z.ldiff_land. change TRA_MASK with (Z.ones 2).
  rewrite Z.ldiff_ones_r, Z.shiftl_mul_pow2, Z.shiftr_div_pow2 by lia.
  change (2 ^ 2) with 4. Z.to_euclidean_division_equations; lia.
Qed.

Lemma offset_div n : TRANS_OFFSET n = n / 4.
Proof. unfold TRANS_OFFSET, TRA_SHIFT. by rewrite Z.shiftr_div_pow2 by lia. Qed.

Lemma shift_cases n : exists k, n mod 4 = k /\ 0 <= k < 4 /\ TRANS_SHIFT n = 2 * k.
Proof.
  exists (n mod 4). split; [done|]. split; [apply Z.mod_pos_bound; lia|].
  unfold TRANS_SHIFT, TRA_MASK. change 3 with (2 ^ 2 - 1). rewrite land_low by lia.
  rewrite Z.shiftl_mul_pow2 by lia. change (2 ^ 2) with 4. lia.
Qed.

Lemma shift_congruent n m : n mod 4 = m mod 4 -> TRANS_SHIFT n = TRANS_SHIFT m.
Proof.
  intros E. destruct (shift_cases n) as (k & H1 & _ & ->), (shift_cases m) as (k' & H2 & _ & ->). lia.
Qed.

(** Reading after writing the two bits of a state, of the same transaction
    and of the others in the byte. *)
Lemma get_put_bits b k k' state :
  is_uchar b -> 0 <= k < 4 -> 0 <= k' < 4 -> 0 <= state < 4 ->
  is_uchar (put_bits b (2 * k) state) /\
  get_bits (put_bits b (2 * k) state) (2 * k') = if k =? k' then state else get_bits b (2 * k').
Proof.
  intros Hb Hk Hk' Hs. split; [apply UCHAR_range|].
  assert (E : forallb (fun b => forallb (fun k => forallb (fun k' => forallb (fun state =>
      get_bits (put_bits b (2 * k) state) (2 * k')
      =? if k =? k' then state else get_bits b (2 * k'))
      (seqZ 0 4)) (seqZ 0 4)) (seqZ 0 4)) (seqZ 0 256) = true) by (vm_compute; reflexivity).
  pose proof (Z_range_check _ 0 256 E b Hb) as E1. pose proof (Z_range_check _ 0 4 E1 k Hk) as E2.
  pose proof (Z_range_check _ 0 4 E2 k' Hk') as E3.
  pose proof (Z_range_check _ 0 4 E3 state Hs) as E4.
  by apply Z.eqb_eq.
Qed.

Lemma quarter_lt a t : 0 <= a < t -> t mod 4 = 0 -> 0 <= a / 4 < t / 4.
Proof. intros. Z.to_euclidean_division_equations; lia. Qed.

Lemma quarter_below a t : a < t -> a / 4 < (t + 3) / 4.
Proof. intros. Z.to_euclidean_division_equations; lia. Qed.

Lemma quarter_add a b : a mod 4 = 0 -> (a + b) / 4 = a / 4 + b / 4.
Proof. intros. Z.to_euclidean_division_equations; lia. Qed.

(** Exactly one state of a page changes. *)
Lemma page_bits_set page k state m b :
  page !! Z.to_nat (k / 4) = Some b -> is_uchar b -> 0 <= k -> 0 <= m -> 0 <= state < 4 ->
  page_bits (set_byte page (k / 4) (put_bits b (TRANS_SHIFT k) state)) m
  = if m =? k then state else page_bits page m.
Proof.
  intros Hb Hu Hk Hm Hs. unfold page_bits, set_byte.
  destruct (Z.eq_dec (m / 4) (k / 4)) as [Eq|Hq].
  - rewrite Eq, list_lookup_insert_eq by (by eapply lookup_lt_Some). rewrite Hb.
    destruct (shift_cases k) as (i & Ei & Hi & ->), (shift_cases m) as (j & Ej & Hj & ->).
    destruct (get_put_bits b i j state Hu Hi Hj Hs) as [_ ->].
    pose proof (Z.div_mod m 4 ltac:(lia)). pose proof (Z.div_mod k 4 ltac:(lia)).
    destruct (Z.eqb_spec i j) as [E|E], (Z.eqb_spec m k) as [E'|E']; done || lia.
  - pose proof (Z.div_pos k 4). pose proof (Z.div_pos m 4).
    rewrite list_lookup_insert_ne by lia. rewrite (proj2 (Z.eqb_neq m k)); [done|]. by intros ->.
Qed.

(** *** Pages *)

Lemma wf_page db sequence :
  wf db -> 0 <= sequence <= hdr_next_transaction db / transactionsPerTip db ->
  tips db !! Z.to_nat sequence = Some (page_of db sequence) /\
  inventory_page sequence db = Ret (page_of db sequence) /\
  transactionsPerTip db / 4 <= Z.of_nat (length (page_of db sequence)) /\
  Forall is_uchar (page_of db sequence).
Proof.
  intros Hwf Hs. pose proof (wf_exist db Hwf).
  destruct (lookup_lt_is_Some_2 (tips db) (Z.to_nat sequence)) as [page Hp]; [lia|].
  unfold inventory_page, page_of. rewrite (proj2 (Z.ltb_ge _ _)), Hp by lia.
  cbn [default]. split_and!; try done;
    eapply (proj1 (list.Forall_lookup _ _) (wf_tips db Hwf)); exact Hp.
Qed.

(** The page of a transaction that was started. *)
Lemma number_page db n :
  wf db -> 0 <= n <= hdr_next_transaction db ->
  0 <= n / transactionsPerTip db <= hdr_next_transaction db / transactionsPerTip db.
Proof.
  intros Hwf Hn. pose proof (wf_tpt db Hwf). split; [apply Z.div_pos|apply Z.div_le_mono]; lia.
Qed.

Lemma mod_mod_4 x t : 0 < t -> t mod 4 = 0 -> x mod t mod 4 = x mod 4.
Proof.
  intros Ht H4. pose proof (Z.div_mod x t ltac:(lia)) as Ex. rewrite Ex at 2.
  rewrite Z.add_comm, Z.add_mod, (Z.mul_mod t), H4, Z.mul_0_l, Z.mod_0_l, Z.add_0_r by lia.
  by rewrite Z.mod_mod.
Qed.

Lemma shift_mod db n : wf db -> TRANS_SHIFT (n mod transactionsPerTip db) = TRANS_SHIFT n.
Proof. intros Hwf. destruct (wf_tpt db Hwf). apply shift_congruent, mod_mod_4; [lia|done]. Qed.

Lemma page_index db n :
  wf db -> 0 <= n <= hdr_next_transaction db ->
  exists b, page_of db (n / transactionsPerTip db) !! Z.to_nat (n mod transactionsPerTip db / 4)
      = Some b /\
    is_uchar b /\ page_state db n = get_bits b (TRANS_SHIFT n).
Proof.
  intros Hwf Hn. destruct (wf_page db _ Hwf (number_page db n Hwf Hn)) as (_ & _ & Hl & Hall).
  destruct (wf_tpt db Hwf) as [Ht H4]. set (tpt := transactionsPerTip db) in *.
  pose proof (quarter_lt _ _ (Z.mod_pos_bound n tpt ltac:(lia)) H4).
  destruct (lookup_lt_is_Some_2 (page_of db (n / tpt)) (Z.to_nat (n mod tpt / 4))) as [b Hb]; [lia|].
  exists b. split_and!; [done| |].
  - eapply (proj1 (list.Forall_lookup _ _) Hall); exact Hb.
  - unfold page_state, page_bits. fold tpt. rewrite Hb. unfold tpt. by rewrite shift_mod.
Qed.

Lemma byte_at_lookup l i b : 0 <= i -> l !! Z.to_nat i = Some b -> byte_at l i = Ret b.
Proof. intros Hi H. unfold byte_at. by rewrite (proj2 (Z.ltb_ge _ _) Hi), H. Qed.

(** A page position by its block. *)
Lemma block_position db n base :
  wf db -> 0 <= base -> base mod transactionsPerTip db = 0 ->
  base <= n < base + transactionsPerTip db ->
  n / transactionsPerTip db = base / transactionsPerTip db /\
  n mod transactionsPerTip db = n - base /\ base mod 4 = 0 /\
  n mod transactionsPerTip db / 4 = (n - base) / 4.
Proof.
  intros [[Ht H4] _ _ _] Hb Hm Hn. set (tpt := transactionsPerTip db) in *.
  assert (E : base = tpt * (base / tpt)) by (pose proof (Z.div_mod base tpt); lia).
  assert (Hd : n / tpt = base / tpt).
  { symmetry. apply (Z.div_unique n tpt (base / tpt) (n - base)); lia. }
  assert (Hr : n mod tpt = n - base) by (pose proof (Z.div_mod n tpt ltac:(lia)); lia).
  split_and!; auto; [|by rewrite Hr].
  rewrite E. rewrite Z.mul_mod, H4 by lia. reflexivity.
Qed.

Lemma TRA_state_block db b n :
  wf db -> block_ok (fun _ => True) db b ->
  tpc_base b <= n < tpc_base b + transactionsPerTip db -> n <= hdr_next_transaction db ->
  TRA_state (tpc_transactions b) (tpc_base b) n = Ret (page_state db n).
Proof.
  intros Hwf [[Hb Hm] Hl Hc] Hn Hmax. specialize (Hc I).
  destruct (block_position db n (tpc_base b) Hwf Hb Hm Hn) as (Hd & Hr & H4 & Hq).
  destruct (page_index db n Hwf ltac:(lia)) as (x & Hx & Hu & ->).
  unfold TRA_state. rewrite mask_base, H4, Z.sub_0_r, offset_div.
  assert (E : ULONG (n - tpc_base b) = n - tpc_base b).
  { pose proof (wf_numbers db Hwf). apply wrap_u_small. lia. }
  rewrite E. rewrite (byte_at_lookup _ _ x); [done|apply Z.div_pos; lia|].
  rewrite Hc, <-Hd, lookup_take_lt; [by rewrite <-Hq|].
  destruct (wf_tpt db Hwf) as [Ht H4']. set (tpt := transactionsPerTip db) in *.
  pose proof (quarter_lt (n - tpc_base b) tpt ltac:(lia) H4'). lia.
Qed.

(** *** Filling the cache *)

(** What copying a page into its block does. *)
Definition fill (first_trans : Z) (l : nat) (page : list Z) (b : tpc) : tpc :=
  if first_trans =? tpc_base b then mk_tpc (tpc_base b) (take l page) else b.

Lemma fill_base ft l page c : bases (map (fill ft l page) c) = bases c.
Proof.
  unfold bases. rewrite map_map. apply map_ext. intros b. unfold fill. by destruct (_ =? _).
Qed.

Lemma increasing_cons a l :
  increasing (a :: l) <-> Forall (fun b => a < b) l /\ increasing l.
Proof.
  revert a; induction l as [|b l IH]; intros a; [split; [by repeat constructor|done]|].
  change (increasing (a :: b :: l)) with (a < b /\ increasing (b :: l)). rewrite IH. split.
  - intros (Hab & Hl & Hi). split; [|by split].
    constructor; [done|]. eapply list.Forall_impl; [exact Hl|]. simpl. lia.
  - intros [Hab Hi]. inversion Hab; subst. by split.
Qed.

Lemma refresh_map ft (l : Z) page c :
  increasing (bases c) -> 0 <= l <= Z.of_nat (length page) ->
  Forall (fun b => Z.of_nat (length (tpc_transactions b)) = l) c ->
  refresh ft l page c = Ret (map (fill ft (Z.to_nat l) page) c).
Proof.
  intros Hi Hp. revert Hi. induction c as [|b c IH]; intros Hi Hl; [done|].
  inversion Hl as [|? ? Hb Hc]; subst. cbn [refresh map]. unfold fill at 1.
  apply increasing_cons in Hi as [Hlt Hi].
  destruct (Z.eqb_spec ft (tpc_base b)) as [->|Hne].
  - unfold move_fast. rewrite !(proj2 (Z.leb_le _ _)) by lia. cbn [andb obind].
    rewrite drop_ge, app_nil_r by lia. do 2 f_equal.
    clear -Hlt. induction c as [|x c IHc]; [done|]. inversion Hlt; subst. cbn [map]. f_equal; [|by apply IHc].
    unfold fill. by rewrite (proj2 (Z.eqb_neq _ _)) by lia.
  - by rewrite IH.
Qed.

Lemma release_old_suffix tpt o c :
  exists pre, c = pre ++ release_old tpt o c /\ Forall (fun b => tpc_base b + tpt <= o) pre.
Proof.
  induction c as [|b c (pre & E & H)]; [by exists []|]. cbn [release_old].
  destruct (Z.leb_spec (tpc_base b + tpt) o) as [Hle|_].
  - exists (b :: pre). split; [by rewrite <-app_comm_cons, <-E|by constructor].
  - by exists [].
Qed.

Lemma release_old_idem tpt o c : release_old tpt o (release_old tpt o c) = release_old tpt o c.
Proof.
  induction c as [|b c IH]; [done|]. cbn [release_old].
  destruct (Z.leb_spec (tpc_base b + tpt) o) as [_|Hgt]; [done|]. cbn [release_old].
  by rewrite (proj2 (Z.leb_gt _ _)).
Qed.

(** Releasing only looks at the bases. *)
Lemma release_old_bases tpt o c c' :
  bases c = bases c' -> bases (release_old tpt o c) = bases (release_old tpt o c').
Proof.
  revert c'; induction c as [|b c IH]; intros [|b' c'] E; try done.
  unfold bases in E. cbn [map] in E. injection E as Eb Ec. cbn [release_old]. rewrite Eb.
  destruct (_ <=? _); [by apply IH|]. unfold bases. cbn [map]. by rewrite Eb, Ec.
Qed.

Lemma released_bases db c :
  released db -> bases c = bases (cache db) -> released (with_cache c db).
Proof.
  unfold released. cbn [cache with_cache transactionsPerTip dbb_oldest_transaction].
  destruct (cache db) as [|b c0]; intros H E; destruct c as [|b' c]; try done.
  unfold bases in E. cbn [map] in E. injection E as Eb Ec. cbn [release_old] in *. rewrite Eb.
  destruct (Z.leb_spec (tpc_base b + transactionsPerTip db) (dbb_oldest_transaction db)); [|done].
  exfalso. destruct (release_old_suffix (transactionsPerTip db) (dbb_oldest_transaction db) c0)
    as (pre & Ec0 & _). apply (f_equal length) in H. apply (f_equal length) in Ec0.
  rewrite length_app in Ec0. simpl in *. lia.
Qed.

Lemma increasing_suffix l1 l2 : increasing (l1 ++ l2) -> increasing l2.
Proof. induction l1; [done|]. intros H. cbn [app] in H. apply increasing_cons in H as [_ H]; auto. Qed.

Lemma release_filled P db :
  filled P db ->
  filled P (with_cache (release_old (transactionsPerTip db) (dbb_oldest_transaction db) (cache db)) db).
Proof.
  intros [Hi Hf]. destruct (release_old_suffix (transactionsPerTip db)
    (dbb_oldest_transaction db) (cache db)) as (pre & E & _).
  split; cbn [cache with_cache].
  - rewrite E in Hi. unfold bases in *. rewrite map_app in Hi. by eapply increasing_suffix.
  - rewrite E in Hf. apply Forall_app in Hf as [_ Hf].
    eapply list.Forall_impl; [exact Hf|]. intros b []. by constructor.
Qed.

Lemma offset_tpt db : wf db -> USHORT (TRANS_OFFSET (transactionsPerTip db)) = transactionsPerTip db / 4.
Proof.
  intros [[Ht H4] _ _ _]. rewrite offset_div. apply USHORT_small.
  Z.to_euclidean_division_equations; lia.
Qed.

(** [updateCache] releases old blocks and fills the block of the page. *)
Lemma updateCache_filled P sequence db :
  wf db -> filled P db -> 0 <= sequence <= hdr_next_transaction db / transactionsPerTip db ->
  exists c, updateCache (page_of db sequence) sequence db = Ret (with_cache c db) /\
    bases c = bases (release_old (transactionsPerTip db) (dbb_oldest_transaction db) (cache db)) /\
    filled (fun base => P base \/ base = sequence * transactionsPerTip db) (with_cache c db).
Proof.
  intros Hwf Hf Hs. destruct (wf_page db sequence Hwf Hs) as (_ & _ & Hlen & _).
  pose proof (wf_tpt db Hwf) as [Ht H4].
  destruct (release_filled P db Hf) as [Hi Hb]. cbn [cache with_cache] in Hi, Hb.
  unfold updateCache. rewrite (offset_tpt db Hwf).
  set (c := release_old _ _ _) in *. set (tpt := transactionsPerTip db) in *.
  rewrite refresh_map; [|done| |].
  - cbn [obind]. eexists. split; [done|]. split; [apply fill_base|].
    split; cbn [cache with_cache]; [by rewrite fill_base|].
    apply Forall_map. eapply list.Forall_impl; [exact Hb|]. intros b [H1 H2 H3]. unfold fill.
    change (transactionsPerTip (with_cache c db)) with tpt in H1, H2.
    destruct (Z.eqb_spec (sequence * tpt) (tpc_base b)) as [E|E]; split; try done.
    + cbn [tpc_transactions transactionsPerTip with_cache]. fold tpt. rewrite length_take. lia.
    + intros _. unfold coherent. cbn [tpc_base tpc_transactions transactionsPerTip with_cache].
      fold tpt. rewrite <-E, Z.div_mul by lia. reflexivity.
    + intros [HP|HP]; [by apply H3|]. by rewrite HP in E.
  - fold tpt. split; [apply Z.div_pos; lia|lia].
  - eapply list.Forall_impl; [exact Hb|]. intros b [_ H2 _]. exact H2.
Qed.

Lemma wf_with_cache c db : wf db -> wf (with_cache c db).
Proof. intros []. by constructor. Qed.

Lemma block_ok_with_cache P c db b : block_ok P (with_cache c db) b <-> block_ok P db b.
Proof. split; intros []; by constructor. Qed.

Lemma block_ok_impl (P Q : Z -> Prop) db b :
  (Q (tpc_base b) -> P (tpc_base b)) -> block_ok P db b -> block_ok Q db b.
Proof. intros H []. constructor; auto. Qed.

Lemma filled_impl (P Q : Z -> Prop) db :
  (forall base, Q base -> P base) -> filled P db -> filled Q db.
Proof.
  intros H [Hi Hf]. split; [done|]. eapply list.Forall_impl; [exact Hf|].
  intros b. by apply block_ok_impl, H.
Qed.

(** Reading the rest of the pages fills their blocks. *)
Lemma inventory_pages_fill P fuel sequence last top db :
  wf db -> filled P db -> released db ->
  0 <= sequence -> last <= hdr_next_transaction db / transactionsPerTip db ->
  Z.max 0 (last - sequence + 1) < Z.of_nat fuel ->
  exists c, inventory_pages fuel false sequence last top db = Ret ([], with_cache c db) /\
    bases c = bases (cache db) /\
    filled (fun base => P base \/
      exists s, sequence <= s <= last /\ base = s * transactionsPerTip db) (with_cache c db).
Proof.
  revert P sequence db. induction fuel as [|fuel IH]; intros P sequence db Hwf Hf Hr Hs Hl Hfuel;
    cbn [inventory_pages]; [lia|].
  destruct (Z.leb_spec sequence last) as [Hle|Hgt].
  - destruct (wf_page db sequence Hwf ltac:(lia)) as (_ & -> & _). cbn [obind].
    destruct (updateCache_filled P sequence db Hwf Hf ltac:(lia)) as (c & -> & Hb & Hf').
    rewrite Hr in Hb. cbn [obind].
    destruct (IH _ (sequence + 1) (with_cache c db) (wf_with_cache c db Hwf) Hf'
      (released_bases db c Hr Hb) ltac:(lia) Hl ltac:(lia)) as (c' & -> & Hb' & Hf'').
    cbn [obind app]. exists c'. split; [done|]. split; [by rewrite Hb'|].
    eapply filled_impl; [|exact Hf'']. cbn [transactionsPerTip with_cache].
    intros base [HP|(s & Hrange & ->)]; [by do 2 left|].
    destruct (Z.eq_dec s sequence) as [->|Hne]; [by left; right|].
    right. exists s. split; [lia|done].
  - exists (cache db). split; [by destruct db|]. split; [done|].
    assert (E : with_cache (cache db) db = db) by (by destruct db). rewrite E.
    eapply filled_impl; [|exact Hf]. intros base [HP|(s & Hrange & _)]; [done|lia].
Qed.

Lemma TRA_get_inventory_fill P base top db :
  wf db -> filled P db -> 0 <= base <= top -> top <= hdr_next_transaction db ->
  exists c, TRA_get_inventory false base top db = Ret ([], with_cache c db) /\
    bases c = bases (release_old (transactionsPerTip db) (dbb_oldest_transaction db) (cache db)) /\
    filled (fun b => P b \/ exists s, base / transactionsPerTip db <= s <= top / transactionsPerTip db /\
      b = s * transactionsPerTip db) (with_cache c db).
Proof.
  intros Hwf Hf Hb Ht. pose proof (wf_tpt db Hwf) as [Htp _].
  pose proof (number_page db base Hwf ltac:(lia)) as Hs.
  pose proof (Z.div_le_mono top (hdr_next_transaction db) (transactionsPerTip db) ltac:(lia) Ht).
  unfold TRA_get_inventory, fetch_inventory_page.
  destruct (wf_page db _ Hwf Hs) as (_ & -> & _). cbn [obind].
  destruct (updateCache_filled P _ db Hwf Hf Hs) as (c & -> & Hbases & Hf'). cbn [obind].
  assert (Hrel : released (with_cache c db)).
  { eapply (released_bases (with_cache (release_old _ _ (cache db)) db)); [|exact Hbases].
    apply release_old_idem. }
  destruct (inventory_pages_fill _ (S (Z.to_nat (top / transactionsPerTip db - base / transactionsPerTip db)))
    (base / transactionsPerTip db + 1) (top / transactionsPerTip db) top
    (with_cache c db) (wf_with_cache c db Hwf) Hf' Hrel ltac:(lia) ltac:(done) ltac:(lia))
    as (c' & -> & Hb' & Hf''). cbn [obind app].
  exists c'. split; [done|]. split; [by rewrite Hb'|].
  eapply filled_impl; [|exact Hf'']. cbn [transactionsPerTip with_cache].
  intros b [HP|(s & Hrange & ->)]; [by do 2 left|].
  destruct (Z.eq_dec s (base / transactionsPerTip db)) as [->|Hne]; [by left; right|].
  right. exists s. split; [lia|done].
Qed.

(** *** Chains of blocks *)

Lemma chained_cons tpt a l :
  chained tpt (a :: l) <->
  (match l with b :: _ => b = a + tpt | [] => True end) /\ chained tpt l.
Proof. destruct l; cbn [chained]; tauto. Qed.

Lemma chained_suffix tpt l1 l2 : chained tpt (l1 ++ l2) -> chained tpt l2.
Proof. induction l1; [done|]. cbn [app]. intros [_ H]%chained_cons; auto. Qed.

Lemma chained_app tpt l1 l2 :
  chained tpt l1 -> chained tpt l2 ->
  (forall a b l, list.last l1 = Some a -> l2 = b :: l -> b = a + tpt) ->
  chained tpt (l1 ++ l2).
Proof.
  induction l1 as [|a l1 IH]; intros H1 H2 Hj; [done|]. cbn [app].
  apply chained_cons in H1 as [Ha H1]. apply chained_cons. split.
  - destruct l1 as [|b l1]; cbn [app]; [|done]. destruct l2 as [|b l2]; [done|]. by eapply Hj.
  - apply IH; [done..|]. intros x b l Hx ->. eapply Hj; [|done].
    by destruct l1.
Qed.

Lemma chained_above tpt a l : 0 <= tpt -> chained tpt (a :: l) -> Forall (fun b => a + tpt <= b) l.
Proof.
  intros Ht. revert a; induction l as [|b l IH]; intros a H; [constructor|].
  apply chained_cons in H as [Hb H]. constructor; [lia|].
  eapply list.Forall_impl; [exact (IH b H)|]. simpl. lia.
Qed.

Lemma chained_increasing tpt l : 0 < tpt -> chained tpt l -> increasing l.
Proof.
  intros Ht. induction l as [|a l IH]; intros H; [done|]. apply increasing_cons. split.
  - eapply list.Forall_impl; [exact (chained_above tpt a l ltac:(lia) H)|]. simpl. lia.
  - apply chained_cons in H as [_ H]. auto.
Qed.

Lemma increasing_app l1 l2 :
  increasing l1 -> increasing l2 -> (forall a b, a ∈ l1 -> b ∈ l2 -> a < b) -> increasing (l1 ++ l2).
Proof.
  induction l1 as [|a l1 IH]; intros H1 H2 H; [done|]. cbn [app].
  apply increasing_cons in H1 as [Ha H1]. apply increasing_cons. split.
  - apply Forall_app. split; [done|]. apply list.Forall_forall. intros b Hb.
    apply H; [left|done].
  - apply IH; [done..|]. intros x b Hx Hb. apply H; [by right|done].
Qed.

(** Where the last block of a chain ends. *)
Definition cache_end (db : dbb) : Z :=
  match list.last (cache db) with
  | Some b => tpc_base b + transactionsPerTip db
  | None => 0
  end.

Lemma last_bases c : list.last (bases c) = tpc_base <$> list.last c.
Proof. apply (fmap_last tpc_base). Qed.

Lemma base_elem b c : b ∈ c -> tpc_base b ∈ bases c.
Proof. apply (list_elem_of_fmap_2 tpc_base). Qed.

Lemma chained_last tpt c b x :
  0 <= tpt -> chained tpt (bases c) -> list.last c = Some x -> b ∈ c -> tpc_base b <= tpc_base x.
Proof.
  intros Ht. induction c as [|y c IH]; intros Hc Hl Hb; [by apply not_elem_of_nil in Hb|].
  destruct c as [|z c].
  { apply list_elem_of_singleton in Hb. injection Hl as ->. by subst. }
  apply elem_of_cons in Hb as [->|Hb].
  - pose proof (chained_above tpt _ _ Ht Hc) as Hab.
    assert (Hx : x ∈ z :: c) by (by apply last_Some_elem_of).
    rewrite list.Forall_forall in Hab.
    specialize (Hab _ (base_elem _ _ Hx)). lia.
  - apply IH; [|done..]. by apply chained_cons in Hc as [_ Hc].
Qed.

(** The search for the block of a number in a chain. *)
Lemma find_block_chained db n :
  wf db -> chained (transactionsPerTip db) (bases (cache db)) ->
  (forall b c, cache db = b :: c -> tpc_base b <= n) ->
  match find_block n db with
  | Some b => n < cache_end db /\ b ∈ cache db /\ tpc_base b <= n < tpc_base b + transactionsPerTip db
  | None => cache_end db <= n \/ cache db = []
  end.
Proof.
  intros Hwf Hc Hfirst. pose proof (wf_tpt db Hwf) as [Ht _]. unfold find_block.
  destruct (list_find _ (cache db)) as [[i b]|] eqn:E; cbn [fmap option_fmap option_map snd].
  - apply list_find_Some in E as (Hi & Hlt & Hbefore).
    assert (Hb : b ∈ cache db) by (by eapply list_elem_of_lookup_2).
    assert (Hle : tpc_base b <= n).
    { destruct i as [|i].
      - destruct (cache db) as [|b0 c] eqn:Ec; [done|]. injection Hi as ->. by eapply Hfirst.
      - destruct (lookup_lt_is_Some_2 (cache db) i) as [a Ha].
        { apply lookup_lt_Some in Hi. lia. }
        specialize (Hbefore i a Ha ltac:(lia)).
        assert (Hab : tpc_base b = tpc_base a + transactionsPerTip db); [|lia].
        rewrite <-(take_drop i (cache db)) in Hc. unfold bases in Hc. rewrite map_app in Hc.
        apply chained_suffix in Hc. rewrite (drop_S _ a) in Hc by done.
        rewrite (drop_S _ b) in Hc by done. cbn [map] in Hc. by apply chained_cons in Hc as [Hc _]. }
    split_and!; [|done..]. unfold cache_end.
    destruct (list.last (cache db)) as [x|] eqn:El.
    + pose proof (chained_last (transactionsPerTip db) _ b x ltac:(lia) Hc El Hb). lia.
    + apply last_None in El. rewrite El in Hb. by apply not_elem_of_nil in Hb.
  - apply list_find_None in E. unfold cache_end. destruct (list.last (cache db)) as [x|] eqn:El.
    + left. apply last_Some_elem_of in El. rewrite list.Forall_forall in E.
      specialize (E x El). lia.
    + right. by apply last_None.
Qed.

(** *** Extending the cache *)

(** The blocks allocated from [base] on, up to the block of [top]. *)
Lemma allocate_blocks_spec fuel fresh tpt base top :
  0 < tpt -> top - base < Z.of_nat fuel -> base <= top ->
  let c := allocate_blocks fuel fresh tpt base top in
  chained tpt (bases c) /\ (exists c', c = mk_tpc base (fresh base) :: c') /\
  (exists x, list.last c = Some x /\ tpc_base x <= top < tpc_base x + tpt) /\
  Forall (fun b => tpc_transactions b = fresh (tpc_base b) /\
    exists k, 0 <= k /\ tpc_base b = base + k * tpt) c.
Proof.
  intros Ht. revert base. induction fuel as [|fuel IH]; intros base Hf Hle; [lia|].
  cbn zeta. cbn [allocate_blocks]. rewrite (proj2 (Z.leb_le _ _)) by lia.
  destruct (Z.le_gt_cases (base + tpt) top) as [Hnext|Hend].
  - destruct (IH (base + tpt) ltac:(lia) Hnext) as (Hc & (c' & Ec) & (x & Hx & Hr) & Ha).
    split; [|split; [by eexists|split]].
    + unfold bases in *. rewrite Ec in Hc |- *. by split.
    + exists x. split; [|done]. rewrite Ec in Hx |- *. done.
    + constructor; [split; [done|]; exists 0; simpl; lia|].
      eapply list.Forall_impl; [exact Ha|]. intros b (Hb & k & Hk & E).
      split; [done|]. exists (k + 1). lia.
  - assert (E : allocate_blocks fuel fresh tpt (base + tpt) top = []).
    { destruct fuel; [done|]. cbn [allocate_blocks]. by rewrite (proj2 (Z.leb_gt _ _)) by lia. }
    rewrite E. split; [done|]. split; [by eexists|]. split.
    + eexists. split; [done|]. simpl. lia.
    + constructor; [|constructor]. split; [done|]. exists 0. simpl. lia.
Qed.

(** Releasing keeps the chain, its end, and that it starts early enough. *)
Lemma release_old_chained tpt o c :
  0 < tpt -> chained tpt (bases c) ->
  chained tpt (bases (release_old tpt o c)) /\
  ((forall b c', c = b :: c' -> tpc_base b <= o) ->
   forall b c', release_old tpt o c = b :: c' -> tpc_base b <= o) /\
  (forall x, list.last c = Some x -> o < tpc_base x + tpt -> list.last (release_old tpt o c) = Some x).
Proof.
  intros Ht. induction c as [|b c IH]; intros Hc; [done|]. cbn [release_old].
  destruct (Z.leb_spec (tpc_base b + tpt) o) as [Hle|Hgt]; [|by split_and!; auto].
  apply chained_cons in Hc as [Hb Hc]. destruct (IH Hc) as (H1 & H2 & H3).
  split; [done|]. split.
  - intros _. apply H2. intros b' c' ->. cbn in Hb. lia.
  - intros x Hx Ho. apply H3; [|done]. destruct c; [|done]. injection Hx as ->. lia.
Qed.

Lemma release_old_app tpt o c1 c2 :
  Forall (fun b => tpc_base b + tpt <= o) c1 ->
  release_old tpt o (c1 ++ c2) = release_old tpt o c2.
Proof.
  induction 1 as [|b c1 Hb _ IH]; [done|]. cbn [app release_old].
  by rewrite (proj2 (Z.leb_le _ _)).
Qed.

(** The blocks after an extension: old ones that are not released, then new
    ones, in a chain that reaches [top]. *)
Lemma extended_chain db blocks base top x :
  wf db -> cache_ok db ->
  chained (transactionsPerTip db) (bases blocks) ->
  (exists b c, blocks = b :: c /\ tpc_base b = base) ->
  list.last blocks = Some x -> dbb_oldest_transaction db <= top < tpc_base x + transactionsPerTip db ->
  (cache db = [] /\ base <= dbb_oldest_transaction db \/
   cache db <> [] /\ (base = cache_end db \/ cache_end db <= base <= dbb_oldest_transaction db)) ->
  let c := release_old (transactionsPerTip db) (dbb_oldest_transaction db) (cache db ++ blocks) in
  chained (transactionsPerTip db) (bases c) /\
  (forall b c', c = b :: c' -> tpc_base b <= dbb_oldest_transaction db) /\
  list.last c = Some x.
Proof.
  intros Hwf [Hch Hfst _] Hbl (b0 & c0 & -> & Hb0) Hx Htop Hcase. cbn zeta.
  pose proof (wf_tpt db Hwf) as [Ht _]. set (tpt := transactionsPerTip db) in *.
  set (o := dbb_oldest_transaction db) in *.
  assert (Hgap : base <= o ->
    Forall (fun b => tpc_base b + tpt <= o) (cache db) ->
    let c := release_old tpt o (cache db ++ b0 :: c0) in
    chained tpt (bases c) /\ (forall b c', c = b :: c' -> tpc_base b <= o) /\ list.last c = Some x).
  { intros Hle Hall. cbn zeta. rewrite release_old_app by done.
    destruct (release_old_chained tpt o (b0 :: c0) ltac:(lia) Hbl) as (H1 & H2 & H3).
    split_and!; [done| |apply H3; [done|lia]]. apply H2. intros b c' [= <- <-]. lia. }
  destruct Hcase as [[E Hle]|[Hne [Hb|[Hend Hle]]]].
  - apply Hgap; [done|]. rewrite E. constructor.
  - assert (Hall : chained tpt (bases (cache db ++ b0 :: c0))).
    { unfold bases. rewrite map_app. apply chained_app; [done..|].
      intros a b l Ha [= <- <-]. unfold cache_end in Hb. change (map tpc_base) with bases in Ha.
      rewrite last_bases in Ha. destruct (list.last (cache db)); [|done].
      injection Ha as <-. fold tpt in Hb. lia. }
    destruct (release_old_chained tpt o _ ltac:(lia) Hall) as (H1 & H2 & H3).
    split_and!; [done| |apply H3; [|lia]].
    + apply H2. intros b c' E. destruct (cache db) as [|y c]; [done|].
      injection E as -> _. by eapply Hfst.
    + rewrite last_app, Hx. done.
  - apply Hgap; [done|]. apply list.Forall_forall. intros b Hb.
    unfold cache_end in Hend. destruct (list.last (cache db)) as [y|] eqn:Ey.
    + pose proof (chained_last tpt _ b y ltac:(lia) Hch Ey Hb). fold tpt in Hend. lia.
    + apply last_None in Ey. contradiction.
Qed.

(** A block in memory holds the states of one page. *)
Definition fresh_ok (fresh : Z -> list Z) (db : dbb) : Prop :=
  forall base, Z.of_nat (length (fresh base)) = transactionsPerTip db / 4.

Lemma cache_ok_filled P db : wf db -> cache_ok db -> filled P db.
Proof.
  intros Hwf [Hc _ Hb]. pose proof (wf_tpt db Hwf). split.
  - eapply chained_increasing; [|exact Hc]. lia.
  - eapply list.Forall_impl; [exact Hb|]. intros b. by apply block_ok_impl.
Qed.

(** Old blocks followed by new ones, of which only the old ones are filled. *)
Lemma extended_filled db fresh oldest top :
  wf db -> cache_ok db -> fresh_ok fresh db -> 0 <= oldest <= top ->
  (cache db = [] \/ cache_end db <= oldest - oldest mod transactionsPerTip db) ->
  let base := oldest - oldest mod transactionsPerTip db in
  let blocks := allocate_blocks (S (Z.to_nat (top - base))) fresh (transactionsPerTip db) base top in
  filled (fun b => b < base) (with_cache (cache db ++ blocks) db).
Proof.
  intros Hwf Hok Hfresh Ho Hcase. cbn zeta. pose proof (wf_tpt db Hwf) as [Ht _].
  set (tpt := transactionsPerTip db) in *. set (base := oldest - oldest mod tpt) in *.
  assert (Hbase : base = tpt * (oldest / tpt)) by (pose proof (Z.div_mod oldest tpt); lia).
  pose proof (Z.mod_pos_bound oldest tpt ltac:(lia)). pose proof (Z.div_pos oldest tpt).
  assert (Hbo : base <= oldest) by (unfold base; lia).
  destruct (allocate_blocks_spec (S (Z.to_nat (top - base))) fresh tpt base top
    ltac:(lia) ltac:(lia) ltac:(lia)) as (Hc & _ & _ & Ha). set (blocks := allocate_blocks _ _ _ _ _) in *.
  destruct (cache_ok_filled (fun b => b < base) db Hwf Hok) as [Hi Hf].
  split; cbn [cache with_cache].
  - unfold bases. rewrite map_app. apply increasing_app; [done|eapply chained_increasing; [|exact Hc]; lia|].
    intros a b Ha' Hb'. apply (list_elem_of_fmap tpc_base) in Ha' as (y & -> & Hy).
    apply (list_elem_of_fmap tpc_base) in Hb' as (z & -> & Hz).
    rewrite list.Forall_forall in Ha. destruct (Ha z Hz) as (_ & k & Hk & ->).
    destruct Hcase as [E|Hend]; [rewrite E in Hy; by apply not_elem_of_nil in Hy|].
    unfold cache_end in Hend. destruct (list.last (cache db)) as [x|] eqn:Ex.
    + pose proof (chained_last tpt _ y x ltac:(lia) (cache_chained db Hok) Ex Hy).
      fold tpt in Hend. nia.
    + apply last_None in Ex. rewrite Ex in Hy. by apply not_elem_of_nil in Hy.
  - apply Forall_app. split.
    + eapply list.Forall_impl; [exact Hf|]. intros b. apply block_ok_with_cache.
    + eapply list.Forall_impl; [exact Ha|]. intros b (Hb & k & Hk & E). constructor.
      * cbn [transactionsPerTip with_cache]. fold tpt. split; [nia|].
        rewrite E, Hbase, (Z.mul_comm tpt), <-Z.mul_add_distr_r. apply Z.mod_mul. lia.
      * rewrite Hb. apply Hfresh.
      * intros Hlt. nia.
Qed.

(** Blocks below [base] and the pages from [base] to [top] are all of them. *)
Lemma filled_all db c base top y :
  wf db -> chained (transactionsPerTip db) (bases c) -> list.last c = Some y -> tpc_base y <= top ->
  Forall (block_ok (fun b => b < base \/ exists s, base / transactionsPerTip db <= s
    <= top / transactionsPerTip db /\ b = s * transactionsPerTip db) db) c ->
  Forall (block_ok (fun _ => True) db) c.
Proof.
  intros Hwf Hc Hy Htop Hf. pose proof (wf_tpt db Hwf) as [Ht _].
  rewrite list.Forall_forall in Hf |- *. intros b Hb. specialize (Hf b Hb).
  destruct (block_base _ _ _ Hf) as [Hb0 Hbm].
  eapply block_ok_impl; [|exact Hf]. intros _. set (tpt := transactionsPerTip db) in *.
  destruct (Z.lt_ge_cases (tpc_base b) base); [by left|right].
  pose proof (chained_last tpt c b y ltac:(lia) Hc Hy Hb).
  exists (tpc_base b / tpt). pose proof (Z.div_mod (tpc_base b) tpt ltac:(lia)).
  pose proof (Z.div_le_mono base (tpc_base b) tpt ltac:(lia) ltac:(lia)).
  pose proof (Z.div_le_mono (tpc_base b) top tpt ltac:(lia) ltac:(lia)). lia.
Qed.

Lemma cache_end_mod db :
  wf db -> cache_ok db -> cache_end db mod transactionsPerTip db = 0.
Proof.
  intros Hwf Hok. pose proof (wf_tpt db Hwf) as [Ht _].
  unfold cache_end. destruct (list.last (cache db)) as [x|] eqn:Ex; [|apply Z.mod_0_l; lia].
  apply last_Some_elem_of in Ex. pose proof (cache_blocks db Hok) as Hb.
  rewrite list.Forall_forall in Hb. destruct (block_base _ _ _ (Hb x Ex)) as [_ Hm].
  rewrite <-Z.add_mod_idemp_l, Hm, Z.add_0_l by lia. apply Z.mod_same. lia.
Qed.

(** Where new blocks start: after the old ones, or at the oldest interesting
    transaction of the header page, from which on old ones are released. *)
Lemma extension_base db oldest :
  wf db -> cache_ok db ->
  (cache db = [] /\ oldest = 0 \/ cache db <> [] /\ oldest = cache_end db) ->
  let old := Z.max oldest (hdr_oldest_transaction db) in
  let base := old - old mod transactionsPerTip db in
  cache db = [] /\ base <= dbb_oldest_transaction db \/
  cache db <> [] /\ (base = cache_end db \/ cache_end db <= base <= dbb_oldest_transaction db).
Proof.
  intros Hwf Hok Hcase. cbn zeta. pose proof (wf_tpt db Hwf) as [Ht _].
  pose proof (wf_numbers db Hwf). pose proof (cache_end_mod db Hwf Hok) as Hend.
  set (old := Z.max _ _). set (tpt := transactionsPerTip db) in *.
  pose proof (Z.mod_pos_bound old tpt ltac:(lia)) as Hmod.
  destruct Hcase as [[E Ho]|[Hne Ho]]; [left; split; [done|lia]|right; split; [done|]].
  destruct (Z.le_gt_cases (hdr_oldest_transaction db) (cache_end db)).
  - left. replace old with (cache_end db) by lia. lia.
  - right. split; [|lia].
    pose proof (Z.div_le_mono (cache_end db) old tpt ltac:(lia) ltac:(lia)).
    pose proof (Z.div_mod old tpt ltac:(lia)). pose proof (Z.div_mod (cache_end db) tpt ltac:(lia)). nia.
Qed.

(** Caching the transactions from [oldest] on, for an empty cache or from its
    end: the cache agrees with the pages again and reaches the newest
    transaction. *)
Lemma cacheTransactions_ok fresh oldest db :
  wf db -> cache_ok db -> fresh_ok fresh db -> oldest <= hdr_next_transaction db ->
  (cache db = [] /\ oldest = 0 \/ cache db <> [] /\ oldest = cache_end db) ->
  exists c, cacheTransactions fresh oldest db = Ret (with_cache c db) /\ c <> [] /\
    cache_ok (with_cache c db) /\ hdr_next_transaction db < cache_end (with_cache c db).
Proof.
  intros Hwf Hok Hfresh Hle Hcase. pose proof (wf_tpt db Hwf) as [Ht _].
  pose proof (wf_numbers db Hwf) as [Hn1 Hn2].
  apply (extension_base db oldest Hwf Hok) in Hcase. cbn zeta in Hcase.
  unfold cacheTransactions. set (old := Z.max oldest (hdr_oldest_transaction db)) in *.
  set (top := hdr_next_transaction db) in *. set (tpt := transactionsPerTip db) in *.
  assert (Hold : 0 <= old <= top) by lia. set (base := old - old mod tpt) in *.
  pose proof (Z.mod_pos_bound old tpt ltac:(lia)) as Hmod.
  assert (Hbo : base <= old) by (unfold base; lia).
  assert (Hfilled := extended_filled db fresh old top Hwf Hok Hfresh Hold).
  cbn zeta in Hfilled. fold tpt base in Hfilled. specialize (Hfilled ltac:(intuition lia)).
  destruct (allocate_blocks_spec (S (Z.to_nat (top - base))) fresh tpt base top
    ltac:(lia) ltac:(lia) ltac:(lia)) as (Hc & (c0 & Ec0) & (x & Hx & Hr) & _).
  set (blocks := allocate_blocks _ _ _ _ _) in *.
  destruct (extended_chain db blocks base top x Hwf Hok Hc) as (H1 & H2 & H3);
    [by eexists _, _|done|fold tpt; lia|done|].
  destruct (TRA_get_inventory_fill _ old top (with_cache (cache db ++ blocks) db)
    (wf_with_cache _ db Hwf) Hfilled Hold ltac:(done)) as (c & -> & Hbases & [_ Hf]).
  cbn [obind cache with_cache transactionsPerTip dbb_oldest_transaction] in Hbases, Hf |- *.
  fold tpt in H1, H2, H3, Hbases, Hf. set (rel := release_old _ _ _) in *.
  assert (Hlast : exists y, list.last c = Some y /\ tpc_base y = tpc_base x).
  { pose proof (last_bases c) as E. rewrite Hbases, last_bases, H3 in E.
    destruct (list.last c); [|done]. injection E as E. by eexists. }
  destruct Hlast as (y & Hy & Eyx). rewrite <-Hbases in H1.
  exists c. split; [done|]. split; [by intros ->|]. split.
  - constructor; [done| |].
    + intros b c' Eb. cbn [cache with_cache] in Eb. rewrite Eb in Hbases.
      destruct rel as [|b' rel']; [done|]. injection Hbases as -> _. by eapply H2.
    + eapply list.Forall_impl; [|intros b; apply (proj2 (block_ok_with_cache _ _ _ _))].
      eapply (filled_all db c base top y Hwf H1 Hy ltac:(lia)). fold tpt.
      eapply list.Forall_impl; [exact Hf|]. intros b. rewrite !block_ok_with_cache.
      apply block_ok_impl. intros [Hlt|Hs]; [by left|right].
      assert (Ed : base / tpt = old / tpt); [|by rewrite <-Ed].
      unfold base. pose proof (Z.div_mod old tpt ltac:(lia)).
      replace (old - old mod tpt) with (old / tpt * tpt) by lia. apply Z.div_mul. lia.
  - unfold cache_end. cbn [cache with_cache transactionsPerTip]. rewrite Hy. fold tpt. lia.
Qed.

(** *** Precommitted transactions *)

Lemma find_precommitted_spec l n zp x :
  match find_precommitted l n zp x with
  | inl m => (n <= m)%nat /\ l !! (m - n)%nat = Some x
  | inr _ => x ∉ l
  end.
Proof.
  revert n zp; induction l as [|y l IH]; intros n zp; cbn [find_precommitted].
  { apply not_elem_of_nil. }
  destruct (Z.eqb_spec y x) as [->|Hne]; [by rewrite Nat.sub_diag|].
  set (zp' := match zp with Some _ => _ | None => _ end). specialize (IH (S n) zp').
  destruct (find_precommitted l (S n) zp' x) as [m|].
  - destruct IH as [Hle Hm]. split; [lia|]. by replace (m - n)%nat with (S (m - S n)) by lia.
  - by apply not_elem_of_cons.
Qed.

(** Asking whether a number is precommitted changes nothing. *)
Lemma TRA_precommited_query n db :
  n <> 0 -> TRA_precommited n n db = (bool_decide (n ∈ dbb_pc_transactions db), db).
Proof.
  intros Hn. unfold TRA_precommited.
  pose proof (find_precommitted_spec (dbb_pc_transactions db) 0 None n) as H.
  destruct (find_precommitted _ _ _ _) as [m|].
  - destruct H as [_ H]. rewrite Nat.sub_0_r in H. rewrite bool_decide_true by (by eapply list_elem_of_lookup_2).
    rewrite (proj2 (Z.eqb_neq _ _)) by done. rewrite list_insert_id by done. by destruct db.
  - rewrite Z.eqb_refl. by rewrite bool_decide_false.
Qed.

Lemma is_precommitted_spec n db :
  is_precommitted n db = bool_decide (n <> 0 /\ n ∈ dbb_pc_transactions db).
Proof.
  unfold is_precommitted. destruct (Z.eqb_spec n 0) as [->|Hn].
  { cbn [negb andb]. rewrite bool_decide_false; [done|]. by intros [? _]. }
  rewrite TRA_precommited_query by done. cbn [negb andb fst].
  destruct (dbb_pc_transactions db) as [|y l] eqn:E; cbn [length Nat.eqb negb andb].
  - rewrite bool_decide_false; [done|]. intros [_ H]. by apply not_elem_of_nil in H.
  - apply bool_decide_ext. split; [auto|by intros [_ ?]].
Qed.

(** ** Theorems *)

Definition cache_start (db : dbb) : Z :=
  match cache db with b :: _ => tpc_base b | [] => 0 end.

Lemma cache_start_oldest db : wf db -> cache_ok db -> cache_start db <= dbb_oldest_transaction db.
Proof.
  intros Hwf Hok. unfold cache_start. destruct (cache db) as [|b c] eqn:E.
  - pose proof (wf_numbers db Hwf). lia.
  - by eapply (cache_first db Hok).
Qed.

(** The block of a number, if it is cached, tells the state of its page. *)
Lemma find_block_state db n :
  wf db -> cache_ok db -> cache db <> [] -> cache_start db <= n <= hdr_next_transaction db ->
  match find_block n db with
  | Some b => n < cache_end db /\ TRA_state (tpc_transactions b) (tpc_base b) n = Ret (page_state db n)
  | None => cache_end db <= n
  end.
Proof.
  intros Hwf Hok Hne Hn. pose proof (find_block_chained db n Hwf (cache_chained db Hok)) as H.
  unfold cache_start in Hn.
  assert (Hf : forall b c, cache db = b :: c -> tpc_base b <= n).
  { intros b c E. rewrite E in Hn. lia. }
  specialize (H Hf). destruct (find_block n db) as [b|].
  - destruct H as (He & Hb & Hr). split; [done|].
    pose proof (cache_blocks db Hok) as Hall. rewrite list.Forall_forall in Hall.
    apply TRA_state_block; [done|by apply Hall|done|lia].
  - by destruct H.
Qed.

Lemma cache_filled_ok c db :
  wf db -> cache_ok db ->
  bases c = bases (release_old (transactionsPerTip db) (dbb_oldest_transaction db) (cache db)) ->
  Forall (block_ok (fun _ => True) db) c -> cache_ok (with_cache c db).
Proof.
  intros Hwf [Hc Hf _] Hb Hall. pose proof (wf_tpt db Hwf) as [Ht _].
  destruct (release_old_chained _ (dbb_oldest_transaction db) _ ltac:(exact (proj1 Ht)) Hc) as (H1 & H2 & _).
  constructor; cbn [cache with_cache transactionsPerTip dbb_oldest_transaction].
  - by rewrite Hb.
  - intros b c' ->. destruct (release_old _ _ _) as [|b' rel]; [done|]. injection Hb as -> _.
    by eapply H2.
  - eapply list.Forall_impl; [exact Hall|]. intros b. by apply block_ok_with_cache.
Qed.

(** Fetching a page leaves the cache in agreement with the pages. *)
Lemma fetch_inventory_page_ok sequence db :
  wf db -> cache_ok db -> 0 <= sequence <= hdr_next_transaction db / transactionsPerTip db ->
  exists c, fetch_inventory_page sequence db = Ret (page_of db sequence, with_cache c db) /\
    cache_ok (with_cache c db).
Proof.
  intros Hwf Hok Hs. unfold fetch_inventory_page.
  destruct (wf_page db _ Hwf Hs) as (_ & -> & _). cbn [obind].
  destruct (updateCache_filled (fun _ => True) _ db Hwf (cache_ok_filled _ db Hwf Hok) Hs)
    as (c & -> & Hb & [_ Hf]). cbn [obind]. exists c. split; [done|].
  apply cache_filled_ok; [done..|]. eapply list.Forall_impl; [exact Hf|]. intros b Hx.
  rewrite block_ok_with_cache in Hx. eapply block_ok_impl; [|exact Hx]. by left.
Qed.

Lemma TRA_fetch_state_ok n db :
  wf db -> cache_ok db -> 0 <= n <= hdr_next_transaction db ->
  exists c, TRA_fetch_state n db = Ret (page_state db n, with_cache c db) /\ cache_ok (with_cache c db).
Proof.
  intros Hwf Hok Hn. unfold TRA_fetch_state.
  destruct (fetch_inventory_page_ok _ db Hwf Hok (number_page db n Hwf Hn)) as (c & -> & Hc).
  cbn [obind]. destruct (page_index db n Hwf Hn) as (b & Hb & _ & ->).
  rewrite offset_div, (byte_at_lookup _ _ b); [by exists c| |done].
  apply Z.div_pos; [|lia]. apply Z.mod_pos_bound. pose proof (wf_tpt db Hwf). lia.
Qed.

(** A database whose cache may have changed, in agreement with the pages. *)
Definition recached (db db' : dbb) : Prop := db' = with_cache (cache db') db /\ cache_ok db'.

(** The first use caches the transactions; later ones find the cache. *)
Lemma first_use fresh db (step : outcome dbb) :
  wf db -> cache_ok db -> fresh_ok fresh db ->
  step = match cache db with [] => cacheTransactions fresh 0 db | _ => Ret db end ->
  exists db', step = Ret db' /\ recached db db' /\ wf db' /\ cache db' <> [] /\
    (cache db <> [] -> db' = db) /\ (cache db = [] -> hdr_next_transaction db < cache_end db').
Proof.
  intros Hwf Hok Hfresh ->. pose proof (wf_numbers db Hwf).
  destruct (cache db) as [|b c] eqn:E.
  - destruct (cacheTransactions_ok fresh 0 db Hwf Hok Hfresh ltac:(lia) ltac:(by left))
      as (c & -> & Hne & Hc & Hend).
    eexists. split; [done|]. split; [by split|]. split; [by apply wf_with_cache|]. by split_and!.
  - exists db. split; [done|]. split; [split; [by destruct db|done]|]. rewrite E. by split_and!.
Qed.

Definition cached_state (db : dbb) (n : Z) : Z :=
  if bool_decide (n <> 0 /\ n ∈ dbb_pc_transactions db) then tra_precommitted
  else if n <? cache_start db then tra_committed
  else if n <? cache_end db then page_state db n else tra_active.

(** [getCacheState] never fails on a transaction that was started.  It
    fills an empty cache and answers what the pages say: precommitted for a
    listed transaction, committed below the cache, the state on the
    transaction's page within it, and active beyond it. *)
Theorem getCacheState_spec fresh n db :
  wf db -> cache_ok db -> fresh_ok fresh db -> 0 <= n <= hdr_next_transaction db ->
  exists db', getCacheState fresh n db = Ret (cached_state db' n, db') /\
    recached db db' /\ cache_start db' <= dbb_oldest_transaction db /\
    (cache db <> [] -> db' = db) /\ (cache db = [] -> n < cache_end db').
Proof.
  intros Hwf Hok Hfresh Hn. unfold getCacheState.
  destruct (first_use fresh db _ Hwf Hok Hfresh eq_refl) as (db' & E & [Edb Hok'] & Hwf' & Hne & Hsame & Hend).
  unfold initialize. replace (match cache db with [] => _ | _ => Ret db end) with (Ret db').
  2: { rewrite <-E. by destruct (cache db). }
  cbn [obind]. exists db'.
  assert (Hfst : cache_start db' <= dbb_oldest_transaction db).
  { pose proof (cache_start_oldest db' Hwf' Hok') as H. rewrite Edb in H |- *. done. }
  split; [|split_and!; [by split|done..|]; intros H; specialize (Hend H); lia].
  unfold cached_state. rewrite is_precommitted_spec.
  destruct (bool_decide _); [done|].
  pose proof (find_block_state db' n Hwf' Hok' Hne) as Hfind.
  destruct (cache db') as [|b c] eqn:Ec; [done|].
  assert (Es : cache_start db' = tpc_base b) by (unfold cache_start; by rewrite Ec). rewrite Es in Hfind |- *.
  destruct (Z.ltb_spec n (tpc_base b)); [done|].
  specialize (Hfind ltac:(rewrite Edb; simpl; lia)). destruct (find_block n db') as [x|].
  - destruct Hfind as [Hlt ->]. cbn [obind]. by rewrite (proj2 (Z.ltb_lt _ _)).
  - by rewrite (proj2 (Z.ltb_ge _ _)).
Qed.

(** What a snapshot reader is told of a transaction from [start] on: its
    state on the page, except that one whose lock is taken is active. The
    lock is not asked for a final state, nor beyond the end of the cache. *)
Definition snapshot_state (lockable : Z -> bool) (start stop : Z) (db : dbb) (n : Z) : Z :=
  let s := page_state db n in
  if bool_decide (n <> 0 /\ n ∈ dbb_pc_transactions db) then tra_precommitted
  else if n <? start then tra_committed
  else if (s =? tra_committed) || (s =? tra_dead) || (stop <=? n) || lockable n then s
  else tra_active.

Lemma recached_trans db1 db2 db3 : recached db1 db2 -> recached db2 db3 -> recached db1 db3.
Proof. intros [E1 _] [E2 H]. split; [|done]. rewrite E2. by rewrite E1. Qed.

Lemma extendCache_ok fresh n db :
  wf db -> cache_ok db -> fresh_ok fresh db -> cache db <> [] ->
  dbb_oldest_transaction db <= n -> cache_end db <= n <= hdr_next_transaction db ->
  exists db', extendCache fresh n db = Ret (page_state db n, db') /\ recached db db'.
Proof.
  intros Hwf Hok Hfresh Hne Ho Hn. unfold extendCache.
  destruct (list.last (cache db)) as [x|] eqn:Ex; [|by apply last_None in Ex].
  assert (Eend : tpc_base x + transactionsPerTip db = cache_end db) by (unfold cache_end; by rewrite Ex).
  rewrite Eend. destruct (cacheTransactions_ok fresh (cache_end db) db Hwf Hok Hfresh ltac:(lia)
    ltac:(by right)) as (c & -> & Hc & Hok' & Hend). cbn [obind].
  exists (with_cache c db). pose proof (find_block_state _ n (wf_with_cache c db Hwf) Hok' Hc) as H.
  assert (Hfst : cache_start (with_cache c db) <= dbb_oldest_transaction db).
  { unfold cache_start. cbn [cache with_cache]. destruct c as [|b c]; [done|].
    apply (cache_first _ Hok' b c eq_refl). }
  specialize (H ltac:(cbn [hdr_next_transaction with_cache]; lia)).
  destruct (find_block n (with_cache c db)) as [b|].
  - destruct H as [_ ->]. split; [done|by split].
  - lia.
Qed.

Lemma snapshot_lookup_ok fresh lockable n db :
  wf db -> cache_ok db -> fresh_ok fresh db -> cache db <> [] ->
  dbb_oldest_transaction db <= n <= hdr_next_transaction db ->
  exists db', snapshot_lookup fresh lockable n db
      = Ret (snapshot_state lockable (cache_start db) (cache_end db) db n, db') /\ recached db db'.
Proof.
  intros Hwf Hok Hfresh Hne Hn. pose proof (cache_start_oldest db Hwf Hok) as Hfst.
  assert (Hself : recached db db) by (split; [by destruct db|done]).
  unfold snapshot_lookup, snapshot_state. rewrite is_precommitted_spec.
  destruct (bool_decide _); [by exists db|].
  destruct (cache db) as [|b0 c0] eqn:Ec; [done|].
  assert (Es : tpc_base b0 = cache_start db) by (unfold cache_start; by rewrite Ec).
  rewrite Es, (proj2 (Z.ltb_ge _ _)) by lia. rewrite <-Ec in Hne.
  pose proof (find_block_state db n Hwf Hok Hne ltac:(lia)) as Hfind.
  assert (Hpos : 0 <= n) by (pose proof (wf_numbers db Hwf); lia).
  destruct (find_block n db) as [b|].
  - destruct Hfind as [Hlt ->]. cbn [obind]. rewrite (proj2 (Z.leb_gt _ _)), orb_false_r by done.
    destruct (_ || _); cbn [orb]; [by exists db|].
    destruct (lockable n); cbn [negb]; [|by exists db].
    destruct (TRA_fetch_state_ok n db Hwf Hok ltac:(lia)) as (c & -> & Hc).
    eexists. split; [done|]. by split.
  - rewrite (proj2 (Z.leb_le _ _)), orb_true_r by done. cbn [orb].
    apply extendCache_ok; done || lia.
Qed.

(** What [snapshotState] tells of a started transaction that is not below
    the oldest interesting one. It extends the cache as needed, so that it
    never answers from missing blocks, and keeps it in agreement with the
    pages. *)
Theorem snapshotState_spec fresh lockable n db :
  wf db -> cache_ok db -> fresh_ok fresh db ->
  dbb_oldest_transaction db <= n <= hdr_next_transaction db ->
  exists start stop db',
    snapshotState fresh lockable n db = Ret (snapshot_state lockable start stop db n, db') /\
    recached db db' /\ start <= dbb_oldest_transaction db /\
    (cache db <> [] -> start = cache_start db /\ stop = cache_end db) /\
    (cache db = [] -> hdr_next_transaction db < stop).
Proof.
  intros Hwf Hok Hfresh Hn. unfold snapshotState.
  destruct (first_use fresh db _ Hwf Hok Hfresh eq_refl) as (db1 & -> & Hrec & Hwf' & Hne & Hsame & Hend).
  destruct Hrec as [Edb Hok']. cbn [obind].
  exists (cache_start db1), (cache_end db1).
  pose proof (cache_start_oldest db1 Hwf' Hok') as Hfst.
  assert (Hfresh' : fresh_ok fresh db1) by (intros base; rewrite (Hfresh base), Edb; done).
  destruct (snapshot_lookup_ok fresh lockable n db1 Hwf' Hok' Hfresh' Hne) as (db' & -> & Hrec).
  { by rewrite Edb. }
  exists db'. split; [by rewrite Edb|]. split; [by eapply recached_trans; [split|]|].
  split; [by rewrite Edb in Hfst |- *|]. split; [|done]. intros H. by rewrite (Hsame H).
Qed.

(** *** Writing a state *)

(** The pages after the two bits of [n] were written. *)
Definition poke (n state : Z) (db : dbb) : dbb :=
  let tpt := transactionsPerTip db in
  let sequence := n / tpt in
  let byte := n mod tpt / 4 in
  let page := page_of db sequence in
  match page !! Z.to_nat byte with
  | Some b => with_tips (<[Z.to_nat sequence :=
      set_byte page byte (put_bits b (TRANS_SHIFT n) state)]> (tips db)) db
  | None => db
  end.

Lemma poke_spec db n state :
  wf db -> 0 <= n <= hdr_next_transaction db ->
  exists b, page_of db (n / transactionsPerTip db) !! Z.to_nat (n mod transactionsPerTip db / 4) = Some b /\
    is_uchar b /\
    (forall seq, 0 <= seq -> page_of (poke n state db) seq =
      if seq =? n / transactionsPerTip db
      then set_byte (page_of db seq) (n mod transactionsPerTip db / 4) (put_bits b (TRANS_SHIFT n) state)
      else page_of db seq) /\
    wf (poke n state db).
Proof.
  intros Hwf Hn. destruct (page_index db n Hwf Hn) as (b & Hb & Hu & _).
  destruct (wf_page db _ Hwf (number_page db n Hwf Hn)) as (Hp & _ & Hl & Hall).
  pose proof (number_page db n Hwf Hn) as Hs.
  exists b. split; [done|]. split; [done|]. unfold poke. rewrite Hb. split.
  - intros seq Hseq. unfold page_of at 1. cbn [tips with_tips].
    destruct (Z.eqb_spec seq (n / transactionsPerTip db)) as [->|Hne].
    + rewrite list_lookup_insert_eq by (by eapply lookup_lt_Some). done.
    + by rewrite list_lookup_insert_ne by lia.
  - pose proof Hwf as []. constructor; cbn [transactionsPerTip with_tips tips hdr_next_transaction
      hdr_oldest_transaction dbb_oldest_transaction]; try done.
    + apply Forall_insert; [done|]. unfold set_byte. split; [by rewrite length_insert|].
      apply Forall_insert; [done|apply UCHAR_range].
    + by rewrite length_insert.
Qed.

(** Exactly the state of [n] changes. *)
Lemma poke_state db n state m :
  wf db -> 0 <= n <= hdr_next_transaction db -> 0 <= m <= hdr_next_transaction db ->
  0 <= state < 4 ->
  page_state (poke n state db) m = if m =? n then state else page_state db m.
Proof.
  intros Hwf Hn Hm Hs. destruct (poke_spec db n state Hwf Hn) as (b & Hb & Hu & Hpages & _).
  pose proof (wf_tpt db Hwf) as [Ht H4]. unfold page_state.
  assert (Et : transactionsPerTip (poke n state db) = transactionsPerTip db).
  { unfold poke. by destruct (_ !! _). }
  rewrite Et, Hpages by (apply Z.div_pos; lia). rewrite <-(shift_mod db n Hwf).
  set (tpt := transactionsPerTip db) in *.
  pose proof (Z.mod_pos_bound n tpt ltac:(lia)). pose proof (Z.mod_pos_bound m tpt ltac:(lia)).
  destruct (Z.eqb_spec (m / tpt) (n / tpt)) as [Ed|Hd]; [|by rewrite (proj2 (Z.eqb_neq m n)) by congruence].
  rewrite Ed, (page_bits_set _ _ _ _ b) by (done || lia).
  destruct (Z.eqb_spec (m mod tpt) (n mod tpt)) as [E|E], (Z.eqb_spec m n) as [E'|E']; try done; exfalso.
  - apply E'. pose proof (Z.div_mod m tpt ltac:(lia)). pose proof (Z.div_mod n tpt ltac:(lia)). lia.
  - by subst.
Qed.

Lemma poke_other db n state b :
  wf db -> 0 <= n <= hdr_next_transaction db ->
  block_ok (fun _ => True) db b -> tpc_base b / transactionsPerTip db <> n / transactionsPerTip db ->
  block_ok (fun _ => True) (poke n state db) b.
Proof.
  intros Hwf Hn [H1 H2 H3] Hne. destruct (poke_spec db n state Hwf Hn) as (x & _ & _ & Hpages & _).
  assert (Et : transactionsPerTip (poke n state db) = transactionsPerTip db).
  { unfold poke. by destruct (_ !! _). }
  constructor; unfold coherent in *; rewrite Et; [done..|]. intros _.
  rewrite Hpages by (apply Z.div_pos; pose proof (wf_tpt db Hwf); lia).
  rewrite (proj2 (Z.eqb_neq _ _)) by done. by apply H3.
Qed.

(** [setState] makes the cache agree with the pages after the change. *)
Lemma set_in_blocks_ok db n state c :
  wf db -> 0 <= n <= hdr_next_transaction db ->
  chained (transactionsPerTip db) (bases c) -> (forall b c', c = b :: c' -> tpc_base b <= n) ->
  Forall (block_ok (fun _ => True) db) c ->
  exists c', set_in_blocks (transactionsPerTip db) n (TRANS_OFFSET (n mod transactionsPerTip db))
      (TRANS_SHIFT n) state c = Ret c' /\ bases c' = bases c /\
    Forall (block_ok (fun _ => True) (poke n state db)) c'.
Proof.
  intros Hwf Hn. pose proof (wf_tpt db Hwf) as [Ht H4].
  destruct (poke_spec db n state Hwf Hn) as (x & Hx & _ & Hpages & _).
  assert (Et : transactionsPerTip (poke n state db) = transactionsPerTip db).
  { unfold poke. by destruct (_ !! _). }
  induction c as [|b c IH]; intros Hc Hfst Hall; [by exists []|].
  inversion Hall as [|? ? Hb Hrest]; subst. specialize (Hfst b c eq_refl) as Hbn.
  pose proof (chained_above (transactionsPerTip db) _ _ ltac:(lia) Hc) as Habove. apply chained_cons in Hc as [Hnext Hc].
  destruct (block_base _ _ _ Hb) as [Hb0 Hbm]. cbn [set_in_blocks].
  set (tpt := transactionsPerTip db) in *.
  destruct (Z.ltb_spec n (tpc_base b + tpt)) as [Hlt|Hge].
  - destruct (block_position db n (tpc_base b) Hwf Hb0 Hbm ltac:(fold tpt; lia)) as (Hd & _).
    fold tpt in Hd. pose proof (quarter_lt _ _ (Z.mod_pos_bound n tpt ltac:(lia)) H4) as Hq.
    pose proof (block_coherent _ _ _ Hb I) as Hco. unfold coherent in Hco. fold tpt in Hco.
    rewrite offset_div, (byte_at_lookup _ _ x);
      [|lia|rewrite Hco, lookup_take_lt by lia; by rewrite <-Hd].
    cbn [obind]. eexists. split; [done|]. split; [done|]. constructor.
    + destruct Hb as [_ Hlen _]. constructor; unfold coherent; rewrite Et; fold tpt;
        cbn [tpc_base tpc_transactions]; [done|unfold set_byte; by rewrite length_insert|].
      intros _. rewrite Hpages, <-Hd, Z.eqb_refl by (apply Z.div_pos; lia).
      unfold set_byte. rewrite Hco, <-Hd. rewrite take_insert_lt by lia. done.
    + rewrite list.Forall_forall in Hrest |- *. rewrite list.Forall_forall in Habove. intros y Hy.
      apply poke_other; [done..|by apply Hrest|]. fold tpt.
      specialize (Habove _ (base_elem y c Hy)).
      pose proof (Z.div_le_mono (tpc_base b + 1 * tpt) (tpc_base y) tpt ltac:(lia) ltac:(lia)) as Hm.
      rewrite Z.div_add in Hm by lia. lia.
  - destruct IH as (c' & -> & Hbases & Hall'); [done| |done|].
    { intros b' c' ->. cbn in Hnext. lia. }
    cbn [obind]. eexists. split; [done|]. unfold bases in *. cbn [map]. split; [by rewrite Hbases|].
    constructor; [|done]. apply poke_other; [done..|]. fold tpt.
    pose proof (Z.div_le_mono (tpc_base b + 1 * tpt) n tpt ltac:(lia) ltac:(lia)) as Hm.
    rewrite Z.div_add in Hm by lia. lia.
Qed.

Lemma page_state_with_cache c db n : page_state (with_cache c db) n = page_state db n.
Proof. done. Qed.

(** C31: [TRA_set_state] with a transaction block (not null), on a writable
    database, for a number from the oldest interesting transaction of the cache
    to the next transaction of the header page, and not that of the block if it
    is precommitted, writes the state of that transaction and of no other:
    neither of those in the same byte nor on other pages. The cache keeps agreeing
    with the pages, so that later questions see the new state.  A null transaction
    is read by the code nonetheless, and below the first cached block
    [TipCache::setState] would write the state of another transaction. *)
Theorem TRA_set_state_spec t n state db :
  wf db -> cache_ok db -> dbb_oldest_transaction db <= n <= hdr_next_transaction db ->
  0 <= state < 4 -> (tra_number t =? n) && tra_is_precommitted t = false ->
  dbb_read_only db = false ->
  exists db', TRA_set_state (Some t) n state db = Ret db' /\ wf db' /\ cache_ok db' /\
    dbb_pc_transactions db' = dbb_pc_transactions db /\
    forall m, 0 <= m <= hdr_next_transaction db ->
      page_state db' m = if m =? n then state else page_state db m.
Proof.
  intros Hwf Hok Hn Hs Ht Hro. unfold TRA_set_state. rewrite Ht, Hro. cbn [andb].
  assert (Hn0 : 0 <= n <= hdr_next_transaction db) by (pose proof (wf_numbers db Hwf); lia).
  destruct (fetch_inventory_page_ok _ db Hwf Hok (number_page db n Hwf Hn0)) as (c & -> & Hc).
  cbn [obind]. destruct (poke_spec db n state Hwf Hn0) as (b & Hb & Hu & _ & Hwf').
  rewrite offset_div, (byte_at_lookup _ _ b); [|apply Z.div_pos; [|lia]; apply Z.mod_pos_bound;
    pose proof (wf_tpt db Hwf); lia|done].
  cbn [obind]. pose proof (poke_state db n state) as Hstate.
  assert (Ep : with_tips (<[Z.to_nat (n / transactionsPerTip db) := set_byte
      (page_of db (n / transactionsPerTip db)) (n mod transactionsPerTip db / 4)
      (put_bits b (TRANS_SHIFT n) state)]> (tips (with_cache c db))) (with_cache c db)
    = with_cache c (poke n state db)) by (unfold poke; by rewrite Hb).
  assert (Et : transactionsPerTip (poke n state db) = transactionsPerTip db /\
    dbb_oldest_transaction (poke n state db) = dbb_oldest_transaction db /\
    dbb_pc_transactions (poke n state db) = dbb_pc_transactions db) by (unfold poke; by rewrite Hb).
  destruct Et as (Et & Eo & Epc). rewrite Ep. cbn zeta. cbn [cache with_cache].
  assert (Hblocks : Forall (block_ok (fun _ => True) db) c).
  { eapply list.Forall_impl; [exact (cache_blocks _ Hc)|]. intros x. apply block_ok_with_cache. }
  destruct (set_in_blocks_ok db n state c Hwf Hn0 (cache_chained _ Hc)) as (c' & Hset & Hbases & Hall);
    [|done|].
  { intros x c' ->. pose proof (cache_first _ Hc x c' eq_refl) as Hx. cbn in Hx. lia. }
  assert (Hres : cache_ok (with_cache c' (poke n state db))).
  { destruct Hc as [Hch Hfst _]. constructor; cbn [cache with_cache transactionsPerTip dbb_oldest_transaction].
    - rewrite Hbases, Et. exact Hch.
    - intros x l ->. rewrite Eo. destruct c as [|y c]; [done|]. injection Hbases as -> _.
      apply (Hfst y c eq_refl).
    - eapply list.Forall_impl; [exact Hall|]. intros x. apply block_ok_with_cache. }
  exists (with_cache c' (poke n state db)). split; [|split; [by apply wf_with_cache|]; split; [done|]; split;
    [done|intros m Hm; rewrite page_state_with_cache; by apply Hstate]].
  destruct c as [|y c].
  - cbn in Hset. by injection Hset as <-.
  - unfold setState. cbn [transactionsPerTip with_cache cache]. rewrite Et, Hset. done.
Qed.

(** *** Snapshots *)

(** [bits] holds the states of the transactions from [start] to [top]. *)
Definition covers (db : dbb) (bits : list Z) (start top : Z) : Prop :=
  forall n, start <= n < top ->
    bits !! Z.to_nat ((n - start) / 4)
    = page_of db (n / transactionsPerTip db) !! Z.to_nat (n mod transactionsPerTip db / 4).

(** The bytes moved from one page, and those from the pages after it. *)
Lemma covers_page db page start stop top rest l :
  wf db -> 0 <= start -> start mod 4 = 0 -> start <= top ->
  stop = transactionsPerTip db * (start / transactionsPerTip db + 1) ->
  page = page_of db (start / transactionsPerTip db) ->
  l = Z.min (top + TRA_MASK - start) (stop - start) / 4 ->
  start mod transactionsPerTip db / 4 + l <= Z.of_nat (length page) ->
  (stop < top -> covers db rest stop top) ->
  covers db (take (Z.to_nat l) (drop (Z.to_nat (start mod transactionsPerTip db / 4)) page) ++ rest)
    start top.
Proof.
  intros Hwf H0 Hs4 Hst -> -> -> Hlen Hrest n Hn. pose proof (wf_tpt db Hwf) as [Ht H4].
  set (tpt := transactionsPerTip db) in *. set (seq := start / tpt) in *.
  set (stop := tpt * (seq + 1)) in *. set (l := Z.min (top + TRA_MASK - start) (stop - start) / 4) in *.
  assert (Es : start = tpt * seq + start mod tpt) by (apply Z.div_mod; lia).
  pose proof (Z.mod_pos_bound start tpt ltac:(lia)) as Hm.
  assert (Hstop4 : stop mod 4 = 0) by (unfold stop; rewrite Z.mul_mod, H4 by lia; done).
  assert (Hm4 : start mod tpt mod 4 = 0).
  { replace (start mod tpt) with (start - tpt * seq) by lia.
    rewrite Zminus_mod, Hs4, Z.mul_mod, H4 by lia. done. }
  unfold TRA_MASK in l.
  assert (Hl0 : 0 <= l) by (apply Z.div_pos; lia).
  assert (Hq0 : 0 <= start mod tpt / 4) by (apply Z.div_pos; lia).
  set (taken := take _ _).
  assert (Htaken : Z.of_nat (length taken) = l).
  { unfold taken. rewrite length_take, length_drop. lia. }
  destruct (Z.lt_ge_cases n stop) as [Hlt|Hge].
  - assert (Hd : n / tpt = seq) by (symmetry; apply (Z.div_unique n tpt seq (n - tpt * seq)); lia).
    assert (Hr : n mod tpt = n - tpt * seq) by (pose proof (Z.div_mod n tpt ltac:(lia)); lia).
    assert (Hi : (n - start) / 4 < l).
    { assert (H4' : (stop - start) mod 4 = 0) by (by rewrite Zminus_mod, Hstop4, Hs4).
      pose proof (quarter_lt (n - start) (stop - start) ltac:(lia) H4').
      pose proof (quarter_below (n - start) (top - start) ltac:(lia)).
      unfold l. destruct (Z.min_spec (top + 3 - start) (stop - start)) as [[_ ->]|[_ ->]]; [|lia].
      by replace (top + 3 - start) with (top - start + 3) by lia. }
    assert (Hi0 : 0 <= (n - start) / 4) by (apply Z.div_pos; lia).
    rewrite lookup_app_l by lia. unfold taken. rewrite lookup_take_lt, lookup_drop by lia.
    rewrite Hd. f_equal. rewrite Hr.
    replace (n - tpt * seq) with (start mod tpt + (n - start)) by lia.
    rewrite quarter_add by done. lia.
  - assert (El : l = (stop - start) / 4) by (unfold l; f_equal; lia).
    assert (E4 : (n - start) / 4 = l + (n - stop) / 4).
    { rewrite El, <-quarter_add; [f_equal; lia|by rewrite Zminus_mod, Hstop4, Hs4]. }
    assert (Hp : 0 <= (n - stop) / 4) by (apply Z.div_pos; lia).
    rewrite lookup_app_r by lia.
    specialize (Hrest ltac:(lia) n ltac:(lia)). fold tpt in Hrest. rewrite <-Hrest. f_equal. lia.
Qed.

Lemma page_bytes_ok page q l :
  q + l <= Z.of_nat (length page) ->
  page_bytes page q l = Ret (take (Z.to_nat l) (drop (Z.to_nat q) page)).
Proof. intros H. unfold page_bytes. by rewrite (proj2 (Z.leb_le _ _)). Qed.

Lemma inventory_pages_covers P fuel sequence top db :
  wf db -> filled P db -> 0 <= sequence -> 0 <= top <= hdr_next_transaction db ->
  Z.max 0 (top / transactionsPerTip db - sequence + 1) < Z.of_nat fuel ->
  exists bits c, inventory_pages fuel true sequence (top / transactionsPerTip db) top db
      = Ret (bits, with_cache c db) /\
    (sequence * transactionsPerTip db <= top -> covers db bits (sequence * transactionsPerTip db) top).
Proof.
  revert P sequence db. induction fuel as [|fuel IH]; intros P sequence db Hwf Hf Hs Ht Hfuel;
    cbn [inventory_pages]; [lia|]. pose proof (wf_tpt db Hwf) as [Htpt H4].
  pose proof (number_page db top Hwf Ht) as Hlast.
  pose proof (Z.div_mod top (transactionsPerTip db) ltac:(lia)) as Etop.
  pose proof (Z.mod_pos_bound top (transactionsPerTip db) ltac:(lia)).
  destruct (Z.leb_spec sequence (top / transactionsPerTip db)) as [Hle|Hgt].
  - destruct (wf_page db sequence Hwf ltac:(lia)) as (_ & -> & Hlen & _). cbn [obind].
    destruct (updateCache_filled P sequence db Hwf Hf ltac:(lia)) as (c & -> & _ & Hf').
    cbn [obind]. set (tpt := transactionsPerTip db) in *. set (base := sequence * tpt) in *.
    assert (Hbt : base <= top) by (unfold base; nia).
    assert (Hl : TRANS_OFFSET (Z.min (top + TRA_MASK - base) tpt) <= tpt / 4).
    { rewrite offset_div. apply Z.div_le_mono; lia. }
    rewrite page_bytes_ok by lia. cbn [obind].
    destruct (IH _ (sequence + 1) (with_cache c db) (wf_with_cache c db Hwf) Hf' ltac:(lia) Ht)
      as (rest & c' & E & Hrest); [cbn [transactionsPerTip with_cache]; fold tpt; lia|].
    cbn [transactionsPerTip with_cache] in E, Hrest. fold tpt in E, Hrest. rewrite E. cbn [obind].
    eexists _, c'. split; [done|]. intros _.
    assert (Hd : base / tpt = sequence) by (apply Z.div_mul; lia).
    assert (Hm : base mod tpt = 0) by (apply Z.mod_mul; lia).
    pose proof (covers_page db (page_of db sequence) base (tpt * (base / tpt + 1)) top rest
      (Z.min (top + TRA_MASK - base) (tpt * (base / tpt + 1) - base) / 4) Hwf) as Hcov.
    fold tpt in Hcov. rewrite !Hd, Hm in Hcov. change (0 / 4) with 0 in Hcov.
    replace (tpt * (sequence + 1) - base) with tpt in Hcov by (unfold base; lia).
    rewrite offset_div in Hl |- *. apply Hcov; try done; try lia.
    + unfold base. by rewrite Z.mul_mod, H4, Z.mul_0_r by lia.
    + intros Hstop. rewrite (Z.mul_comm tpt). apply Hrest. lia.
  - exists [], (cache db). split; [by destruct db|]. intros Hle. exfalso. nia.
Qed.

(** The bit vector of [TRA_get_inventory] holds the states between [base]
    and [top]. *)
Lemma TRA_get_inventory_covers base top db :
  wf db -> cache_ok db -> 0 <= base <= top -> base mod 4 = 0 -> top <= hdr_next_transaction db ->
  exists bits c, TRA_get_inventory true base top db = Ret (bits, with_cache c db) /\
    covers db bits base top.
Proof.
  intros Hwf Hok Hb H4b Ht. pose proof (wf_tpt db Hwf) as [Htpt H4].
  pose proof (number_page db base Hwf ltac:(lia)) as Hs. unfold TRA_get_inventory, fetch_inventory_page.
  destruct (wf_page db _ Hwf Hs) as (_ & -> & Hlen & _). cbn [obind].
  destruct (updateCache_filled (fun _ => True) _ db Hwf (cache_ok_filled _ db Hwf Hok) Hs)
    as (c & -> & _ & Hf). cbn [obind]. set (tpt := transactionsPerTip db) in *.
  pose proof (Z.mod_pos_bound base tpt ltac:(lia)) as Hm.
  pose proof (Z.div_mod base tpt ltac:(lia)) as Eb.
  assert (Hm4 : base mod tpt mod 4 = 0).
  { replace (base mod tpt) with (base - tpt * (base / tpt)) by lia.
    by rewrite Zminus_mod, H4b, Z.mul_mod, H4 by lia. }
  assert (Hl : base mod tpt / 4 + Z.min (top + TRA_MASK - base) (tpt - base mod tpt) / 4 <= tpt / 4).
  { rewrite <-quarter_add by done. apply Z.div_le_mono; lia. }
  rewrite !offset_div, page_bytes_ok by lia. cbn [obind].
  destruct (inventory_pages_covers _ (S (Z.to_nat (top / tpt - base / tpt))) (base / tpt + 1) top
    (with_cache c db) (wf_with_cache c db Hwf) Hf ltac:(lia) ltac:(cbn [hdr_next_transaction with_cache]; lia))
    as (rest & c' & E & Hrest).
  { cbn [transactionsPerTip with_cache]. fold tpt.
    pose proof (Z.div_le_mono base top tpt ltac:(lia) ltac:(lia)). lia. }
  cbn [transactionsPerTip with_cache] in E, Hrest. fold tpt in E, Hrest. rewrite E. cbn [obind].
  eexists _, c'. split; [done|].
  apply (covers_page db (page_of db (base / tpt)) base (tpt * (base / tpt + 1)) top rest); fold tpt;
    try done; try lia.
  - do 2 f_equal. lia.
  - intros Hstop. rewrite (Z.mul_comm tpt). apply Hrest. lia.
Qed.

Lemma covers_TRA_state db bits base oldest top n :
  wf db -> covers db bits base top -> base = Z.land oldest (Z.lnot TRA_MASK) -> 0 <= base ->
  base <= n < top -> top <= hdr_next_transaction db -> TRA_state bits oldest n = Ret (page_state db n).
Proof.
  intros Hwf Hcov Eb H0 Hn Ht. destruct (page_index db n Hwf ltac:(lia)) as (b & Hb & _ & ->).
  unfold TRA_state. rewrite <-Eb, offset_div.
  assert (E : ULONG (n - base) = n - base).
  { pose proof (wf_numbers db Hwf). apply wrap_u_small. lia. }
  rewrite E, (byte_at_lookup _ _ b); [done|apply Z.div_pos; lia|]. by rewrite (Hcov n Hn).
Qed.

(** C12: A transaction that is neither read-committed nor the system
    transaction sees the database of its start: with the bit vector that
    [TRA_get_inventory] filled then, [TRA_snapshot_state] tells of every
    earlier transaction since the oldest interesting one the state it had on
    its page at that time, whatever was committed or rolled back since. *)
Theorem TRA_snapshot_state_stable fresh lockable t db0 :
  wf db0 -> cache_ok db0 -> 0 <= tra_oldest t <= tra_top t -> tra_top t <= hdr_next_transaction db0 ->
  tra_number t = tra_top t -> tra_read_committed t = false -> tra_system t = false ->
  exists bits db1,
    TRA_get_inventory true (Z.land (tra_oldest t) (Z.lnot TRA_MASK)) (tra_top t) db0 = Ret (bits, db1) /\
    (tra_transactions t = bits -> forall n db,
       tra_oldest t <= n < tra_top t -> 0 < n -> n ∉ dbb_pc_transactions db ->
       n ∉ tra_commit_sub_trans t ->
       TRA_snapshot_state fresh lockable t n db = Ret (page_state db0 n, db)).
Proof.
  intros Hwf Hok Ho Htop Hnum Hrc Hsys. set (base := Z.land _ _).
  assert (Eb : base = tra_oldest t - tra_oldest t mod 4) by apply mask_base.
  pose proof (Z.mod_pos_bound (tra_oldest t) 4 ltac:(lia)).
  assert (Hb4 : 0 <= base /\ base mod 4 = 0) by (rewrite Eb; Z.to_euclidean_division_equations; lia).
  destruct (TRA_get_inventory_covers base (tra_top t) db0 Hwf Hok ltac:(lia) ltac:(lia) Htop)
    as (bits & c & -> & Hcov).
  exists bits, (with_cache c db0). split; [done|]. intros Ebits n db Hn Hn0 Hpc Hsub.
  unfold TRA_snapshot_state. rewrite TRA_precommited_query by lia.
  rewrite (bool_decide_false _ Hpc), (bool_decide_false _ Hsub), Hrc, Hsys, Ebits.
  cbn [fst]. rewrite andb_false_r.
  rewrite (proj2 (Z.eqb_neq n (tra_number t))), (proj2 (Z.ltb_ge n (tra_oldest t))) by lia.
  rewrite (proj2 (Z.eqb_neq n 0)), (proj2 (Z.ltb_ge (tra_top t) n)) by lia.
  by rewrite (covers_TRA_state db0 bits base (tra_oldest t) (tra_top t) n) by (done || lia).
Qed.

(** *** Clean-up *)

Lemma cleanup_page_ok fuel tip number max :
  Forall is_uchar tip -> 0 <= number -> (number <= max -> max / 4 < Z.of_nat (length tip)) ->
  Z.max 0 (max - number + 1) < Z.of_nat fuel ->
  exists tip', cleanup_page fuel tip number max = Ret tip' /\ length tip' = length tip /\
    Forall is_uchar tip' /\
    forall k, 0 <= k -> page_bits tip' k =
      if (number <=? k) && (k <=? max) && (page_bits tip k =? tra_active) then tra_dead
      else page_bits tip k.
Proof.
  revert tip number. induction fuel as [|fuel IH]; intros tip number Hu Hn Hmax Hf; [lia|].
  cbn [cleanup_page]. destruct (Z.leb_spec number max) as [Hle|Hgt].
  - rewrite offset_div. pose proof (Z.div_le_mono number max 4 ltac:(lia) Hle).
    pose proof (Z.div_pos number 4). specialize (Hmax Hle).
    destruct (lookup_lt_is_Some_2 tip (Z.to_nat (number / 4))) as [b Hb]; [lia|].
    assert (Hub : is_uchar b) by (eapply (proj1 (list.Forall_lookup _ _) Hu); exact Hb).
    rewrite (byte_at_lookup _ _ b) by (done || lia). cbn [obind]. cbn zeta.
    assert (Ebits : page_bits tip number = get_bits b (TRANS_SHIFT number)).
    { unfold page_bits. by rewrite Hb. }
    rewrite <-Ebits. set (tip1 := if page_bits tip number =? tra_active then _ else tip).
    assert (H1 : length tip1 = length tip /\ Forall is_uchar tip1 /\ forall k, 0 <= k ->
      page_bits tip1 k = if (k =? number) && (page_bits tip k =? tra_active) then tra_dead else page_bits tip k).
    { unfold tip1. destruct (Z.eqb_spec (page_bits tip number) tra_active) as [Ea|Ea].
      - unfold set_byte at 1 2. rewrite length_insert. split; [done|]. split.
        { apply Forall_insert; [done|]. apply UCHAR_range. }
        intros k Hk. rewrite page_bits_set by (done || unfold tra_dead; lia).
        destruct (Z.eqb_spec k number) as [->|]; [|done]. by rewrite Ea.
      - split_and!; try done. intros k Hk. destruct (Z.eqb_spec k number) as [->|]; [|done].
        by rewrite (proj2 (Z.eqb_neq _ _)). }
    destruct H1 as (Hl1 & Hu1 & H1).
    destruct (IH tip1 (number + 1) Hu1 ltac:(lia) ltac:(rewrite Hl1; lia) ltac:(lia))
      as (tip' & -> & Hl' & Hu' & H'). exists tip'. split; [done|]. split; [congruence|]. split; [done|].
    intros k Hk. rewrite (H' k Hk), (H1 k Hk).
    destruct (Z.eqb_spec k number) as [->|Hne].
    + rewrite (proj2 (Z.leb_gt _ _)), Z.leb_refl, (proj2 (Z.leb_le _ _)) by lia. done.
    + cbn [andb]. replace (number + 1 <=? k) with (number <=? k); [done|].
      apply eq_true_iff_eq. rewrite !Z.leb_le. lia.
  - exists tip. split_and!; try done. intros k Hk.
    destruct (Z.leb_spec number k), (Z.leb_spec k max); try done; lia.
Qed.

(** The database with another page. *)
Lemma with_page_ok db sequence tip :
  wf db -> 0 <= sequence <= hdr_next_transaction db / transactionsPerTip db ->
  length tip = length (page_of db sequence) -> Forall is_uchar tip ->
  let db' := with_tips (<[Z.to_nat sequence := tip]> (tips db)) db in
  wf db' /\ page_of db' sequence = tip /\
  forall s, 0 <= s -> s <> sequence -> page_of db' s = page_of db s.
Proof.
  intros Hwf Hs Hl Hu. destruct (wf_page db sequence Hwf Hs) as (Hp & _ & Hlen & _). cbn zeta.
  split; [|split].
  - pose proof Hwf as []. constructor; cbn [transactionsPerTip with_tips tips hdr_next_transaction
      hdr_oldest_transaction dbb_oldest_transaction]; try done.
    + apply Forall_insert; [done|]. split; [lia|done].
    + by rewrite length_insert.
  - unfold page_of. cbn [tips with_tips].
    rewrite list_lookup_insert_eq by (by eapply lookup_lt_Some). done.
  - intros s H0 Hne. unfold page_of. cbn [tips with_tips]. by rewrite list_lookup_insert_ne by lia.
Qed.

(** The last transaction of a page that the loop over the page looks at. *)
Definition page_max (tpt room : Z) : Z := if room >? tpt then tpt - 1 else room.

Lemma cleanup_pages_ok fuel sequence number db :
  wf db -> 0 <= sequence -> 0 <= number < transactionsPerTip db ->
  (hdr_next_transaction db mod transactionsPerTip db <> 0 \/
   hdr_next_transaction db <= sequence * transactionsPerTip db + number) ->
  Z.max 0 (hdr_next_transaction db / transactionsPerTip db - sequence + 1) < Z.of_nat fuel ->
  exists tips', cleanup_pages fuel sequence (hdr_next_transaction db / transactionsPerTip db) number
      (hdr_next_transaction db) db = Ret (with_tips tips' db) /\ wf (with_tips tips' db) /\
    forall m, 0 <= m <= hdr_next_transaction db -> page_state (with_tips tips' db) m =
      if (sequence * transactionsPerTip db + number <=? m) && (page_state db m =? tra_active)
      then tra_dead else page_state db m.
Proof.
  revert sequence number db. induction fuel as [|fuel IH]; intros sequence number db Hwf Hs Hn Hb Hf; [lia|].
  cbn [cleanup_pages]. pose proof (wf_tpt db Hwf) as [Ht H4].
  set (next := hdr_next_transaction db) in *. set (tpt := transactionsPerTip db) in *.
  pose proof (Z.div_mod next tpt ltac:(lia)) as Enext. pose proof (Z.mod_pos_bound next tpt ltac:(lia)).
  destruct (Z.leb_spec sequence (next / tpt)) as [Hle|Hgt].
  - destruct (wf_page db sequence Hwf ltac:(fold next tpt; lia)) as (_ & -> & Hlen & Hu). cbn [obind].
    fold tpt in Hlen. fold (page_max tpt (next - sequence * tpt)).
    set (max := page_max tpt (next - sequence * tpt)).
    assert (Hmax : max < tpt /\ (max = next - sequence * tpt \/ max = tpt - 1 /\ tpt < next - sequence * tpt)).
    { unfold max, page_max. destruct (Z.gtb_spec (next - sequence * tpt) tpt) as [Hg|Hg]; [lia|].
      split; [|by left]. destruct (Z.eq_dec (next - sequence * tpt) tpt) as [E|E]; [|lia].
      exfalso. destruct Hb as [Hb|Hb]; [|lia]. apply Hb.
      replace next with ((sequence + 1) * tpt) by lia. apply Z.mod_mul. lia. }
    destruct (cleanup_page_ok (S (S (Z.to_nat (max - number)))) (page_of db sequence) number max Hu
      ltac:(lia) ltac:(intros ?; pose proof (quarter_lt max tpt ltac:(lia) H4); lia) ltac:(lia))
      as (tip & -> & Hl & Hu' & Hbits). cbn [obind].
    destruct (with_page_ok db sequence tip Hwf ltac:(fold next tpt; lia) Hl Hu') as (Hwf' & Hp & Hother).
    set (db1 := with_tips _ db) in *.
    destruct (IH (sequence + 1) 0 db1 Hwf' ltac:(lia) ltac:(cbn; fold tpt; lia)) as (tips' & E & Hwf2 & H2);
      [cbn; fold next tpt; destruct Hb; [by left|right; nia]|cbn; fold next tpt; lia|].
    cbn [transactionsPerTip hdr_next_transaction with_tips db1] in E, H2. fold next tpt in E, H2. rewrite E.
    exists tips'. split; [done|]. split; [done|]. intros m Hm. change (with_tips tips' db1) with (with_tips tips' db) in H2.
    rewrite (H2 m Hm). pose proof (Z.div_mod m tpt ltac:(lia)) as Em.
    pose proof (Z.mod_pos_bound m tpt ltac:(lia)) as Hmm. pose proof (Z.div_pos m tpt ltac:(lia) ltac:(lia)) as Hmd.
    assert (E1 : page_state db1 m = if m / tpt =? sequence then page_bits tip (m mod tpt) else page_state db m).
    { unfold page_state at 1. cbn [transactionsPerTip with_tips db1]. fold tpt db1.
      destruct (Z.eqb_spec (m / tpt) sequence) as [->|Hne]; [by rewrite Hp|by rewrite Hother]. }
    rewrite E1. destruct (Z.eqb_spec (m / tpt) sequence) as [Eq|Hne].
    + assert (Ep : page_bits (page_of db sequence) (m mod tpt) = page_state db m).
      { unfold page_state. fold tpt. by rewrite Eq. }
      rewrite (Hbits (m mod tpt) ltac:(lia)), Ep.
      rewrite (proj2 (Z.leb_gt _ m)) by nia. cbn [andb].
      assert (Ek : (m mod tpt <=? max) = true) by (apply Z.leb_le; lia). rewrite Ek, andb_true_r.
      replace (number <=? m mod tpt) with (sequence * tpt + number <=? m); [done|].
      apply eq_true_iff_eq. rewrite !Z.leb_le. nia.
    + replace ((sequence + 1) * tpt + 0 <=? m) with (sequence * tpt + number <=? m); [done|].
      apply eq_true_iff_eq. rewrite !Z.leb_le. nia.
  - exists (tips db). assert (Edb : with_tips (tips db) db = db) by (by destruct db). rewrite Edb.
    split; [done|]. split; [done|]. intros m Hm.
    rewrite (proj2 (Z.leb_gt _ m)); [done|]. nia.
Qed.

(** At startup [TRA_cleanup] declares dead every transaction that is still
    marked active, from the oldest active one on, and changes no other state,
    provided the newest transaction is not the first of its page. *)
Theorem TRA_cleanup_spec db :
  wf db -> dbb_read_only db = false -> 0 <= hdr_oldest_active db <= hdr_next_transaction db ->
  0 < hdr_next_transaction db -> hdr_next_transaction db mod transactionsPerTip db <> 0 ->
  exists db', TRA_cleanup false db = Ret db' /\ wf db' /\
    forall m, 0 <= m <= hdr_next_transaction db -> page_state db' m =
      if (hdr_oldest_active db <=? m) && (page_state db m =? tra_active) then tra_dead
      else page_state db m.
Proof.
  intros Hwf Hro Ha Hn Hm. unfold TRA_cleanup. rewrite Hro, (proj2 (Z.eqb_neq _ 0)) by lia.
  pose proof (wf_tpt db Hwf) as [Ht _].
  destruct (cleanup_pages_ok (S (S (Z.to_nat (hdr_next_transaction db / transactionsPerTip db
      - hdr_oldest_active db / transactionsPerTip db))))
    (hdr_oldest_active db / transactionsPerTip db) (hdr_oldest_active db mod transactionsPerTip db) db
    Hwf ltac:(apply Z.div_pos; lia) ltac:(apply Z.mod_pos_bound; lia) ltac:(by left) ltac:(lia))
    as (tips' & -> & Hwf' & H). eexists. split; [done|]. split; [done|].
  intros m Hr. rewrite (H m Hr), (Z.mul_comm (_ / _)), <-Z.div_mod by lia. done.
Qed.

(** A page whose last state the loop looks for lies beyond its end. *)
Lemma cleanup_page_overrun fuel tip number max :
  0 <= number <= max -> Z.of_nat (length tip) <= max / 4 -> max - number + 1 < Z.of_nat fuel ->
  cleanup_page fuel tip number max = Throw Overrun.
Proof.
  revert tip number. induction fuel as [|fuel IH]; intros tip number Hn Hmax Hf; [lia|].
  cbn [cleanup_page]. rewrite (proj2 (Z.leb_le _ _)), offset_div by lia.
  pose proof (Z.div_pos number 4 ltac:(lia) ltac:(lia)) as H0. unfold byte_at at 1.
  rewrite (proj2 (Z.ltb_ge _ 0)) by lia.
  destruct (tip !! Z.to_nat (number / 4)) as [b|] eqn:Hb; [|done]. cbn [obind]. cbn zeta.
  apply lookup_lt_Some in Hb.
  assert (Hne : number <> max) by (intros ->; lia).
  apply IH; [lia| |lia]. destruct (_ =? _); [|done]. unfold set_byte. by rewrite length_insert.
Qed.

Definition exact_pages (db : dbb) : Prop :=
  Forall (fun page => Z.of_nat (length page) = transactionsPerTip db / 4) (tips db).

Lemma cleanup_pages_overrun fuel sequence number db :
  wf db -> exact_pages db -> 0 <= sequence -> 0 <= number < transactionsPerTip db ->
  hdr_next_transaction db mod transactionsPerTip db = 0 ->
  sequence * transactionsPerTip db < hdr_next_transaction db ->
  Z.max 0 (hdr_next_transaction db / transactionsPerTip db - sequence + 1) < Z.of_nat fuel ->
  cleanup_pages fuel sequence (hdr_next_transaction db / transactionsPerTip db) number
    (hdr_next_transaction db) db = Throw Overrun.
Proof.
  revert sequence number db. induction fuel as [|fuel IH]; intros sequence number db Hwf Hex Hs Hn Hm Hlt Hf;
    [lia|]. cbn [cleanup_pages]. pose proof (wf_tpt db Hwf) as [Ht H4].
  set (next := hdr_next_transaction db) in *. set (tpt := transactionsPerTip db) in *.
  pose proof (Z.div_mod next tpt ltac:(lia)) as Enext.
  assert (Hle : sequence < next / tpt) by nia. rewrite (proj2 (Z.leb_le _ _)) by lia.
  destruct (wf_page db sequence Hwf ltac:(fold next tpt; lia)) as (Hp & -> & _ & Hu). cbn [obind].
  assert (Hl : Z.of_nat (length (page_of db sequence)) = tpt / 4).
  { by apply (proj1 (list.Forall_lookup _ _) Hex _ _ Hp). }
  fold (page_max tpt (next - sequence * tpt)). set (max := page_max tpt (next - sequence * tpt)).
  assert (Hmax : max = tpt /\ next / tpt = sequence + 1 \/ max = tpt - 1 /\ sequence + 1 < next / tpt).
  { unfold max, page_max. destruct (Z.gtb_spec (next - sequence * tpt) tpt); [right|left]; nia. }
  destruct Hmax as [[Emax Elast]|[Emax Hlast]].
  - rewrite cleanup_page_overrun; [done|lia|rewrite Emax; lia|lia].
  - destruct (cleanup_page_ok (S (S (Z.to_nat (max - number)))) (page_of db sequence) number max Hu
      ltac:(lia) ltac:(intros ?; pose proof (quarter_lt max tpt ltac:(lia) H4); lia) ltac:(lia))
      as (tip & -> & Hlt' & Hu' & _). cbn [obind].
    destruct (with_page_ok db sequence tip Hwf ltac:(fold next tpt; lia) Hlt' Hu') as (Hwf' & _ & _).
    apply (IH (sequence + 1) 0 _ Hwf'); cbn [transactionsPerTip hdr_next_transaction with_tips tips];
      fold next tpt; try done; try nia.
    unfold exact_pages. cbn [transactionsPerTip with_tips tips]. fold tpt.
    apply Forall_insert; [exact Hex|]. by rewrite Hlt'.
Qed.

(** When the newest transaction is the first one of its page, and there is
    something to clean up before it, [TRA_cleanup] goes on to the state after
    the last one of the page before: it reads, and if the bits there are
    zero writes, the byte that follows the page in memory. *)
Theorem TRA_cleanup_overruns_page db :
  wf db -> exact_pages db -> dbb_read_only db = false ->
  0 <= hdr_oldest_active db < hdr_next_transaction db ->
  hdr_next_transaction db mod transactionsPerTip db = 0 ->
  TRA_cleanup false db = Throw Overrun.
Proof.
  intros Hwf Hex Hro Ha Hm. unfold TRA_cleanup. rewrite Hro, (proj2 (Z.eqb_neq _ 0)) by lia.
  pose proof (wf_tpt db Hwf) as [Ht _].
  pose proof (Z.div_mod (hdr_oldest_active db) (transactionsPerTip db) ltac:(lia)).
  pose proof (Z.mod_pos_bound (hdr_oldest_active db) (transactionsPerTip db) ltac:(lia)).
  apply cleanup_pages_overrun; try done; [apply Z.div_pos; lia|nia|lia].
Qed.

(** ** Concrete databases *)

Definition ex_db : dbb :=
  mk_dbb 8 [[27; 228]; [255; 67]; [0; 0]] 20 5 9 5 [14] false [].

Definition ex_fresh (base : Z) : list Z := [170; base mod 256].

Definition ex_snapshot (bits : list Z) : Transaction := mk_transaction 19 5 19 bits false false false [7].

Lemma ex_wf : wf ex_db.
Proof.
  constructor; cbn; [by split; [lia|]| |done|lia].
  repeat first [apply list.Forall_nil_2 | apply list.Forall_cons_2 | split]; unfold is_uchar; try lia; done.
Qed.

Lemma ex_cache_ok : cache_ok ex_db.
Proof. constructor; cbn; [done|discriminate|constructor]. Qed.

Lemma ex_fresh_ok : fresh_ok ex_fresh ex_db.
Proof. intros base. done. Qed.

(** Precommitted, in the second byte of a page, dead, and active. *)
Example getCacheState_example :
  (fun n => match getCacheState ex_fresh n ex_db with
            | Ret (state, db) => (state, map tpc_base (cache db))
            | Throw _ => (-1, [])
            end) <$> [14; 8; 12; 13; 15; 19]
  = [(5, [0; 8; 16]); (3, [0; 8; 16]); (3, [0; 8; 16]); (0, [0; 8; 16]); (1, [0; 8; 16]); (0, [0; 8; 16])].
Proof. vm_compute. reflexivity. Qed.

Lemma getCacheState_spec_witness :
  0 <= 12 <= hdr_next_transaction ex_db /\
  exists db', getCacheState ex_fresh 12 ex_db = Ret (cached_state db' 12, db') /\
    recached ex_db db' /\ cache_start db' <= dbb_oldest_transaction ex_db /\
    (cache ex_db <> [] -> db' = ex_db) /\ (cache ex_db = [] -> 12 < cache_end db').
Proof.
  split; [cbn; lia|].
  apply (getCacheState_spec ex_fresh 12 ex_db ex_wf ex_cache_ok ex_fresh_ok). cbn. lia.
Defined.

Lemma snapshotState_spec_witness :
  exists start stop db',
    snapshotState ex_fresh (fun n => n =? 13) 13 ex_db
    = Ret (snapshot_state (fun n => n =? 13) start stop ex_db 13, db') /\
    recached ex_db db' /\ start <= dbb_oldest_transaction ex_db /\
    (cache ex_db <> [] -> start = cache_start ex_db /\ stop = cache_end ex_db) /\
    (cache ex_db = [] -> hdr_next_transaction ex_db < stop).
Proof.
  apply (snapshotState_spec ex_fresh (fun n => n =? 13) 13 ex_db ex_wf ex_cache_ok ex_fresh_ok).
  cbn. lia.
Defined.

Lemma TRA_set_state_spec_witness :
  exists db', TRA_set_state (Some (ex_snapshot [])) 13 tra_dead ex_db = Ret db' /\ wf db' /\ cache_ok db' /\
    dbb_pc_transactions db' = dbb_pc_transactions ex_db /\
    forall m, 0 <= m <= hdr_next_transaction ex_db ->
      page_state db' m = if m =? 13 then tra_dead else page_state ex_db m.
Proof.
  apply (TRA_set_state_spec (ex_snapshot []) 13 tra_dead ex_db ex_wf ex_cache_ok);
    try reflexivity; cbn; unfold tra_dead; lia.
Defined.

Lemma TRA_snapshot_state_stable_witness :
  exists bits db1,
    TRA_get_inventory true 4 19 ex_db = Ret (bits, db1) /\
    (tra_transactions (ex_snapshot [228; 255; 67; 0]) = bits -> forall n db,
       5 <= n < 19 -> 0 < n -> n ∉ dbb_pc_transactions db -> n ∉ [7] ->
       TRA_snapshot_state ex_fresh (fun _ => true) (ex_snapshot [228; 255; 67; 0]) n db
       = Ret (page_state ex_db n, db)).
Proof.
  apply (TRA_snapshot_state_stable ex_fresh (fun _ => true) (ex_snapshot [228; 255; 67; 0]) ex_db
    ex_wf ex_cache_ok); try reflexivity; cbn; lia.
Defined.

(** The bit vector of the witness is what the inventory gives. *)
Example TRA_get_inventory_example :
  match TRA_get_inventory true 4 19 ex_db with
  | Ret (bits, _) => bits = [228; 255; 67; 0]
  | Throw _ => False
  end.
Proof. vm_compute. reflexivity. Qed.

(** The database after the start of transaction 24, the first of page 3. *)
Definition ex_boundary : dbb :=
  mk_dbb 8 [[27; 228]; [255; 67]; [0; 0]; [0; 0]] 24 5 9 5 [] false [].

Lemma ex_boundary_wf : wf ex_boundary.
Proof.
  constructor; cbn; [by split; [lia|]| |done|lia].
  repeat first [apply list.Forall_nil_2 | apply list.Forall_cons_2 | split]; unfold is_uchar; try lia; done.
Qed.

Lemma TRA_cleanup_spec_witness :
  exists db', TRA_cleanup false ex_db = Ret db' /\ wf db' /\
    forall m, 0 <= m <= hdr_next_transaction ex_db -> page_state db' m =
      if (hdr_oldest_active ex_db <=? m) && (page_state ex_db m =? tra_active) then tra_dead
      else page_state ex_db m.
Proof. apply (TRA_cleanup_spec ex_db ex_wf); try reflexivity; cbn; done || lia. Defined.

Lemma TRA_cleanup_overruns_page_witness :
  wf ex_boundary /\ TRA_cleanup false ex_boundary = Throw Overrun.
Proof.
  split; [exact ex_boundary_wf|].
  apply (TRA_cleanup_overruns_page ex_boundary ex_boundary_wf); try reflexivity; [|cbn; lia].
  repeat first [apply list.Forall_nil_2 | apply list.Forall_cons_2]; done.
Defined.

Example TRA_cleanup_example :
  match TRA_cleanup false ex_db with
  | Ret db => tips db = [[27; 228]; [255; 107]; [170; 2]]
  | Throw _ => False
  end.
Proof. vm_compute. reflexivity. Qed.

End TipCache.
