(* ===== verification/LockMgr.v ===== *)
(** * The lock table (lock/LockMgr.cpp)

    The life of one lock block: the queue of its requests, the counts of the
    levels that are granted, and the operations on them, each between
    acquiring and releasing the lock table, so that interleavings are
    sequences of operations.  A request that has to wait is left pending; the
    rest of the routine its thread is in is an operation of its own, [resume].
    Finding the block of a resource name, the memory of the table, blocking
    notifications and the queues of lock data are left out.  The search for
    deadlocks runs over the blocks of all locks ([table]). *)

From stdpp Require Import relations.
From S2P Require Import Prelude.

Module LockMgr.

(** ** Levels *)

Definition LCK_none : Z := 0.
Definition LCK_null : Z := 1.
Definition LCK_SR : Z := 2.
Definition LCK_PR : Z := 3.
Definition LCK_SW : Z := 4.
Definition LCK_PW : Z := 5.
Definition LCK_EX : Z := 6.
Definition LCK_max : Z := 7.

Definition compatibility : list Z := [
  1; 1; 1; 1; 1; 1; 1;
  1; 1; 1; 1; 1; 1; 1;
  1; 1; 1; 1; 1; 1; 0;
  1; 1; 1; 1; 0; 0; 0;
  1; 1; 1; 0; 1; 0; 0;
  1; 1; 1; 0; 0; 0; 0;
  1; 1; 0; 0; 0; 0; 0 ].

Definition COMPATIBLE (st1 st2 : Z) : bool :=
  negb (nth (Z.to_nat (st1 * LCK_max + st2)) compatibility 0 =? 0).

(** ** Data *)

(** The routine the thread of a request waits in; the code has it on the
    stack of the thread. *)
Inductive wait_kind := Not_waiting | In_grant_or_que | In_convert.

Record LockRequest := mk_lrq {
  lrq_id : nat;                          (* offset of the request *)
  lrq_owner : nat;
  lrq_requested : Z;
  lrq_state : Z;
  lrq_pending : bool;                    (* LRQ_pending *)
  lrq_rejected : bool;                   (* LRQ_rejected *)
  lrq_data : Z;
  lrq_wait : wait_kind
}.

Record LockBlock := mk_lbl {
  lbl_state : Z;
  lbl_requests : list LockRequest;
  lbl_data : Z;
  lbl_converting : bool;                 (* LBL_converting *)
  lbl_pending_lrq_count : Z;
  lbl_counts : list Z
}.

#[export] Instance wait_kind_eq_dec : EqDecision wait_kind.
Proof. solve_decision. Defined.
#[export] Instance LockRequest_eq_dec : EqDecision LockRequest.
Proof. solve_decision. Defined.

Definition set_state (state : Z) (r : LockRequest) : LockRequest :=
  mk_lrq (lrq_id r) (lrq_owner r) (lrq_requested r) state (lrq_pending r) (lrq_rejected r)
    (lrq_data r) (lrq_wait r).
Definition set_requested (requested : Z) (r : LockRequest) : LockRequest :=
  mk_lrq (lrq_id r) (lrq_owner r) requested (lrq_state r) (lrq_pending r) (lrq_rejected r)
    (lrq_data r) (lrq_wait r).
Definition set_flags (pending rejected : bool) (r : LockRequest) : LockRequest :=
  mk_lrq (lrq_id r) (lrq_owner r) (lrq_requested r) (lrq_state r) pending rejected
    (lrq_data r) (lrq_wait r).
Definition set_data (data : Z) (r : LockRequest) : LockRequest :=
  mk_lrq (lrq_id r) (lrq_owner r) (lrq_requested r) (lrq_state r) (lrq_pending r) (lrq_rejected r)
    data (lrq_wait r).
Definition set_wait (w : wait_kind) (r : LockRequest) : LockRequest :=
  mk_lrq (lrq_id r) (lrq_owner r) (lrq_requested r) (lrq_state r) (lrq_pending r) (lrq_rejected r)
    (lrq_data r) w.

Definition with_requests (rs : list LockRequest) (lock : LockBlock) : LockBlock :=
  mk_lbl (lbl_state lock) rs (lbl_data lock) (lbl_converting lock) (lbl_pending_lrq_count lock)
    (lbl_counts lock).
Definition with_counts (counts : list Z) (lock : LockBlock) : LockBlock :=
  mk_lbl (lbl_state lock) (lbl_requests lock) (lbl_data lock) (lbl_converting lock)
    (lbl_pending_lrq_count lock) counts.
Definition with_state (state : Z) (lock : LockBlock) : LockBlock :=
  mk_lbl state (lbl_requests lock) (lbl_data lock) (lbl_converting lock) (lbl_pending_lrq_count lock)
    (lbl_counts lock).
Definition with_data (data : Z) (lock : LockBlock) : LockBlock :=
  mk_lbl (lbl_state lock) (lbl_requests lock) data (lbl_converting lock) (lbl_pending_lrq_count lock)
    (lbl_counts lock).
Definition with_converting (c : bool) (lock : LockBlock) : LockBlock :=
  mk_lbl (lbl_state lock) (lbl_requests lock) (lbl_data lock) c (lbl_pending_lrq_count lock)
    (lbl_counts lock).
Definition with_pending_count (n : Z) (lock : LockBlock) : LockBlock :=
  mk_lbl (lbl_state lock) (lbl_requests lock) (lbl_data lock) (lbl_converting lock) n (lbl_counts lock).

(** The request at an offset, and writing it back. *)
Definition get (id : nat) (rs : list LockRequest) : option LockRequest :=
  List.find (fun r => (lrq_id r =? id)%nat) rs.

Definition put (r : LockRequest) (rs : list LockRequest) : list LockRequest :=
  map (fun x => if (lrq_id x =? lrq_id r)%nat then r else x) rs.

Definition remove (id : nat) (rs : list LockRequest) : list LockRequest :=
  List.filter (fun r => negb (lrq_id r =? id)%nat) rs.

Definition update (r : LockRequest) (lock : LockBlock) : LockBlock :=
  with_requests (put r (lbl_requests lock)) lock.

(** ** Operations *)

Definition count (counts : list Z) (level : Z) : Z := nth (Z.to_nat level) counts 0.

(** [lbl_counts[level] += d] *)
Definition add_count (level d : Z) (lock : LockBlock) : LockBlock :=
  with_counts (<[Z.to_nat level := USHORT (count (lbl_counts lock) level + d)]> (lbl_counts lock)) lock.

Fixpoint highest (levels : list Z) (counts : list Z) : Z :=
  match levels with
  | [] => LCK_none
  | level :: levels => if count counts level =? 0 then highest levels counts else level
  end.

Definition lock_state (lock : LockBlock) : Z :=
  highest [LCK_EX; LCK_PW; LCK_SW; LCK_PR; LCK_SR; LCK_null] (lbl_counts lock).

(** The rejection that a timeout or a deadlock adds to it is in [reject]. *)
Definition clearPending (r : LockRequest) (lock : LockBlock) : LockBlock :=
  let lock := update (set_flags false (lrq_rejected r) r) lock in
  with_pending_count (USHORT (lbl_pending_lrq_count lock - 1)) lock.

Definition grant (r : LockRequest) (lock : LockBlock) : LockBlock :=
  let lock := add_count (lrq_requested r) 1 lock in
  let r := set_state (lrq_requested r) r in
  let lock := if lrq_data r =? 0 then lock else with_data (lrq_data r) lock in
  let r := set_data 0 r in
  let lock := update r lock in
  let lock := with_state (lock_state lock) lock in
  if lrq_pending r then clearPending r lock else lock.

(** The loop over the queue; [ordering] is [LOCK_ordering]. *)
Fixpoint post_pending_loop (ordering : bool) (que : list nat) (lock : LockBlock) : LockBlock :=
  match que with
  | [] => lock
  | id :: que =>
      match get id (lbl_requests lock) with
      | None => lock
      | Some r =>
          if negb (lrq_pending r) then post_pending_loop ordering que lock
          else if negb (lrq_state r =? LCK_none) then
            let lock1 := add_count (lrq_state r) (-1) lock in
            let temp_state := lock_state lock1 in
            if COMPATIBLE (lrq_requested r) temp_state
            then post_pending_loop ordering que (grant r lock1)
            else
              let lock := add_count (lrq_state r) 1 lock1 in
              if ordering then lock else post_pending_loop ordering que lock
          else if COMPATIBLE (lrq_requested r) (lbl_state lock)
          then post_pending_loop ordering que (grant r lock)
          else if ordering then lock else post_pending_loop ordering que lock
      end
  end.

Definition post_pending (ordering : bool) (lock : LockBlock) : LockBlock :=
  if lbl_pending_lrq_count lock =? 0 then lock
  else post_pending_loop ordering (map lrq_id (lbl_requests lock)) lock.

(** [None]: the block is free. *)
Definition release_request (ordering : bool) (r : LockRequest) (lock : LockBlock) : option LockBlock :=
  let lock := if lrq_pending r then clearPending r lock else lock in
  let lock := with_requests (remove (lrq_id r) (lbl_requests lock)) lock in
  match lbl_requests lock with
  | [] => None
  | _ =>
      let lock :=
        if lrq_state r =? LCK_none then lock
        else
          let lock := add_count (lrq_state r) (-1) lock in
          if count (lbl_counts lock) (lrq_state r) =? 0 then with_state (lock_state lock) lock else lock in
      Some (post_pending ordering lock)
  end.

(** What [wait_for_request] does before it waits. *)
Definition wait_for_request (ordering : bool) (w : wait_kind) (r : LockRequest) (lock : LockBlock)
    : LockBlock :=
  let r := set_wait w (set_flags true false r) in
  let lock := update r lock in
  let lock := with_pending_count (USHORT (lbl_pending_lrq_count lock + 1)) lock in
  if ordering && (lrq_state r =? LCK_none)
  then with_requests (remove (lrq_id r) (lbl_requests lock) ++ [r]) lock else lock.

Inductive reply := Granted | Waiting | Denied | Level (state : Z).

Definition grant_or_que (ordering : bool) (r : LockRequest) (lck_wait : bool) (lock : LockBlock)
    : option LockBlock * reply :=
  if COMPATIBLE (lrq_requested r) (lbl_state lock) &&
     (negb ordering || (lrq_requested r =? LCK_null) || (lbl_pending_lrq_count lock =? 0))
  then (Some (post_pending ordering (grant r lock)), Granted)
  else if lck_wait then (Some (wait_for_request ordering In_grant_or_que r lock), Waiting)
  else (release_request ordering r lock, Denied).

(** [LOCK_enq] of a new request for the resource of the block. *)
Definition LOCK_enq (ordering : bool) (id owner : nat) (type data : Z) (lck_wait : bool)
    (lock : option LockBlock) : option LockBlock * reply :=
  match lock with
  | Some lock =>
      let request := mk_lrq id owner type LCK_none false false data Not_waiting in
      grant_or_que ordering request lck_wait (with_requests (lbl_requests lock ++ [request]) lock)
  | None =>
      let request := mk_lrq id owner type LCK_none false false 0 Not_waiting in
      (Some (grant request (mk_lbl type [request] data false 0 (replicate 7 0))), Granted)
  end.

Definition convert (ordering : bool) (r : LockRequest) (type : Z) (lck_wait : bool) (lock : LockBlock)
    : LockBlock * reply :=
  let r := set_requested type r in
  let lock := update r lock in
  let lock1 := add_count (lrq_state r) (-1) lock in
  let temp := lock_state lock1 in
  if COMPATIBLE type temp then (post_pending ordering (grant r lock1), Granted)
  else
    let lock := add_count (lrq_state r) 1 lock1 in
    if lck_wait then
      if lbl_converting lock then (lock, Denied)
      else (wait_for_request ordering In_convert r (with_converting true lock), Waiting)
    else (update (set_requested (lrq_state r) r) lock, Denied).

(** The highest level that other requests wait for. *)
Fixpoint pending_level (id : nat) (rs : list LockRequest) (pending_state : Z) : Z :=
  match rs with
  | [] => pending_state
  | r :: rs =>
      if lrq_pending r && negb (lrq_id r =? id)%nat then
        let pending_state := Z.max (lrq_requested r) pending_state in
        if pending_state =? LCK_EX then pending_state else pending_level id rs pending_state
      else pending_level id rs pending_state
  end.

Fixpoint lower (fuel : nat) (pending_state state : Z) : Z :=
  match fuel with
  | O => state
  | S fuel =>
      if (state >? LCK_none) && negb (COMPATIBLE pending_state state)
      then lower fuel pending_state (state - 1) else state
  end.

Definition LOCK_downgrade (ordering : bool) (r : LockRequest) (lock : LockBlock)
    : option LockBlock * reply :=
  let pending_state := pending_level (lrq_id r) (lbl_requests lock) LCK_none in
  let state := lower 7 pending_state (lrq_state r) in
  if (state =? LCK_none) || (state =? LCK_null)
  then (release_request ordering r lock, Level LCK_none)
  else (Some (convert ordering r state false lock).1, Level state).

(** A timeout, or the choice as the victim of a deadlock, ends a wait. *)
Definition reject (r : LockRequest) (lock : LockBlock) : LockBlock :=
  clearPending (set_flags true true r) lock.

(** What [grant_or_que] and [convert] do after the wait. *)
Definition resume (ordering : bool) (r : LockRequest) (lock : LockBlock) : option LockBlock * reply :=
  let r' := set_wait Not_waiting r in
  let lock := update r' lock in
  match lrq_wait r with
  | In_grant_or_que =>
      if negb (lrq_rejected r) then (Some lock, Granted) else (release_request ordering r' lock, Denied)
  | In_convert =>
      let lock := with_converting false lock in
      if negb (lrq_rejected r) then (Some lock, Granted)
      else
        let lock := post_pending ordering lock in
        (Some (update (set_requested (lrq_state r) r') lock), Denied)
  | Not_waiting => (Some lock, Granted)
  end.

(** ** Sequences of operations *)

Inductive action :=
| A_enq (id owner : nat) (type data : Z) (lck_wait : bool)
| A_deq (id : nat)
| A_convert (id : nat) (type : Z) (lck_wait : bool)
| A_downgrade (id : nat)
| A_reject (id : nat)
| A_resume (id : nat)
| A_purge (id : nat).

(** The callers' side: levels are those of the interface, a new request has
    an offset of its own, and a thread that waits does nothing else.  Counts
    have sixteen bits: there are fewer requests. *)
Definition level_ok (type : Z) : bool := (LCK_null <=? type) && (type <=? LCK_EX).

Definition act_on (id : nat) (guard : LockRequest -> bool)
    (f : LockRequest -> LockBlock -> option LockBlock * reply) (lock : option LockBlock)
    : option (option LockBlock * reply) :=
  match lock with
  | None => None
  | Some lock =>
      match get id (lbl_requests lock) with
      | Some r => if guard r then Some (f r lock) else None
      | None => None
      end
  end.

Definition idle (r : LockRequest) : bool := bool_decide (lrq_wait r = Not_waiting).

Definition step (ordering : bool) (a : action) (lock : option LockBlock)
    : option (option LockBlock * reply) :=
  match a with
  | A_enq id owner type data lck_wait =>
      if level_ok type && match lock with
                          | Some lock => (Z.of_nat (length (lbl_requests lock)) <? 65535)
                              && bool_decide (id ∉ map lrq_id (lbl_requests lock))
                          | None => true
                          end
      then Some (LOCK_enq ordering id owner type data lck_wait lock) else None
  | A_deq id => act_on id idle (fun r lock => (release_request ordering r lock, Granted)) lock
  | A_convert id type lck_wait =>
      act_on id (fun r => idle r && level_ok type)
        (fun r lock => let (lock, reply) := convert ordering r type lck_wait lock in (Some lock, reply)) lock
  | A_downgrade id => act_on id idle (LOCK_downgrade ordering) lock
  | A_reject id => act_on id lrq_pending (fun r lock => (Some (reject r lock), Waiting)) lock
  | A_resume id => act_on id (fun r => negb (idle r) && negb (lrq_pending r)) (resume ordering) lock
  | A_purge id => act_on id (fun _ => true) (fun r lock => (release_request ordering r lock, Granted)) lock
  end.

Inductive reachable (ordering : bool) : option LockBlock -> Prop :=
| reachable_start : reachable ordering None
| reachable_step a lock lock' reply :
    reachable ordering lock -> step ordering a lock = Some (lock', reply) -> reachable ordering lock'.

Fixpoint run (ordering : bool) (l : list action) (lock : option LockBlock) : option (option LockBlock) :=
  match l with
  | [] => Some lock
  | a :: l => match step ordering a lock with
              | Some (lock, _) => run ordering l lock
              | None => None
              end
  end.

(** ** Deadlocks *)

(** All lock blocks; the pending queue of each owner; and whether an owner
    still has blocking notifications to process ([OWN_signaled], or a queue
    [own_blocks] that is not empty). *)
Record table := mk_table {
  tbl_locks : list LockBlock;
  own_pending : nat -> list nat;
  own_busy : nat -> bool
}.

Fixpoint find_request (locks : list LockBlock) (id : nat) : option (LockRequest * LockBlock) :=
  match locks with
  | [] => None
  | lock :: locks =>
      match get id (lbl_requests lock) with
      | Some r => Some (r, lock)
      | None => find_request locks id
      end
  end.

(** The requests of the queue that the walk takes as blocking [r]. *)
Fixpoint blockers (ordering : bool) (r : LockRequest) (que : list LockRequest) : list LockRequest :=
  match que with
  | [] => []
  | block :: que =>
      if negb ordering || (LCK_null <? lrq_state r) then
        if (lrq_id r =? lrq_id block)%nat then blockers ordering r que
        else if COMPATIBLE (lrq_requested r) (lrq_state block) then blockers ordering r que
        else block :: blockers ordering r que
      else
        if (lrq_id r =? lrq_id block)%nat then []
        else if COMPATIBLE (lrq_requested r) (Z.max (lrq_state block) (lrq_requested block))
        then blockers ordering r que
        else block :: blockers ordering r que
  end.

(** The requests marked [LRQ_deadlock] and [LRQ_scanned], newest first, and
    [maybe_deadlock]. *)
Record marks := mk_marks {
  m_deadlock : list nat;
  m_scanned : list nat;
  maybe_deadlock : bool
}.

Definition pending_target (tbl : table) (id : nat) : bool :=
  match find_request (tbl_locks tbl) id with
  | Some (r, _) => lrq_pending r
  | None => false
  end.

(** The inner loop, over the waiting requests of a blocking owner. *)
Fixpoint walk_pending (walk : nat -> marks -> option (option nat * marks)) (tbl : table)
    (targets : list nat) (m : marks) : option (option nat * marks) :=
  match targets with
  | [] => Some (None, m)
  | t :: targets =>
      if pending_target tbl t then
        match walk t m with
        | Some (None, m) => walk_pending walk tbl targets m
        | res => res
        end
      else walk_pending walk tbl targets m
  end.

(** The outer loop, over the blocking requests. *)
Fixpoint walk_blocks (walk : nat -> marks -> option (option nat * marks)) (tbl : table)
    (blocks : list LockRequest) (m : marks) : option (option nat * marks) :=
  match blocks with
  | [] => Some (None, m)
  | block :: blocks =>
      if own_busy tbl (lrq_owner block)
      then walk_blocks walk tbl blocks (mk_marks (m_deadlock m) (m_scanned m) true)
      else
        match walk_pending walk tbl (own_pending tbl (lrq_owner block)) m with
        | Some (None, m) => walk_blocks walk tbl blocks m
        | res => res
        end
  end.

Fixpoint deadlock_walk (fuel : nat) (ordering : bool) (tbl : table) (id : nat) (m : marks)
    : option (option nat * marks) :=
  match fuel with
  | O => None
  | S fuel =>
      if bool_decide (id ∈ m_scanned m) then Some (None, m)
      else if bool_decide (id ∈ m_deadlock m) then Some (Some id, m)
      else
        match find_request (tbl_locks tbl) id with
        | None => Some (None, m)
        | Some (r, lock) =>
            match walk_blocks (deadlock_walk fuel ordering tbl) tbl
                    (blockers ordering r (lbl_requests lock))
                    (mk_marks (id :: m_deadlock m) (m_scanned m) (maybe_deadlock m)) with
            | Some (None, m) =>
                Some (None, mk_marks (List.filter (fun x => negb (x =? id)%nat) (m_deadlock m))
                              (id :: m_scanned m) (maybe_deadlock m))
            | res => res
            end
        end
  end.

(** All marks are cleared first ([deadlock_clear]). The boolean tells whether
    the owner is marked as scanned. *)
Definition deadlock_scan (ordering : bool) (tbl : table) (id : nat) : option (option nat * bool) :=
  let fuel := S (S (length (concat (map lbl_requests (tbl_locks tbl))))) in
  match deadlock_walk fuel ordering tbl id (mk_marks [] [] false) with
  | None => None
  | Some (victim, m) =>
      Some (victim, match victim with None => negb (maybe_deadlock m) | Some _ => false end)
  end.

(** ** Invariant *)

Definition nstate (level : Z) (rs : list LockRequest) : nat :=
  length (List.filter (fun r => lrq_state r =? level) rs).

Definition npending (rs : list LockRequest) : nat := length (List.filter lrq_pending rs).

Record request_ok (r : LockRequest) : Prop := {
  ok_state : 0 <= lrq_state r <= 6;
  ok_requested : 1 <= lrq_requested r <= 6;
  ok_idle : lrq_wait r = Not_waiting -> lrq_pending r = false /\ 1 <= lrq_state r;
  ok_enq : lrq_wait r = In_grant_or_que ->
    if lrq_pending r || lrq_rejected r then lrq_state r = 0 else 1 <= lrq_state r;
  ok_convert : lrq_wait r = In_convert -> 1 <= lrq_state r;
  ok_pending : lrq_pending r = true -> lrq_rejected r = false
}.

Definition compatible_all (rs : list LockRequest) : Prop :=
  forall r1 r2, r1 ∈ rs -> r2 ∈ rs -> lrq_id r1 <> lrq_id r2 ->
    COMPATIBLE (lrq_state r1) (lrq_state r2) = true.

(** The counts are those of [rs]. *)
Definition counts_of (rs : list LockRequest) (counts : list Z) : Prop :=
  length counts = 7%nat /\ forall level, 1 <= level <= 6 -> count counts level = Z.of_nat (nstate level rs).

Record inv (lock : LockBlock) : Prop := {
  inv_nodup : NoDup (map lrq_id (lbl_requests lock));
  inv_length : Z.of_nat (length (lbl_requests lock)) < 65536;
  inv_counts : counts_of (lbl_requests lock) (lbl_counts lock);
  inv_state : lbl_state lock = lock_state lock;
  inv_compat : compatible_all (lbl_requests lock);
  inv_pending : lbl_pending_lrq_count lock = Z.of_nat (npending (lbl_requests lock));
  inv_requests : Forall request_ok (lbl_requests lock)
}.

(** *** Levels *)

Lemma COMPATIBLE_sym a b : 0 <= a <= 6 -> 0 <= b <= 6 -> COMPATIBLE a b = COMPATIBLE b a.
Proof.
  intros Ha Hb. apply eqb_prop.
  assert (E : forallb (fun a => forallb (fun b => eqb (COMPATIBLE a b) (COMPATIBLE b a)) (seqZ 0 7)) (seqZ 0 7)
    = true) by (vm_compute; reflexivity).
  pose proof (Z_range_check _ 0 7 E a ltac:(lia)) as E1. apply (Z_range_check _ 0 7 E1 b ltac:(lia)).
Qed.

(** What is compatible with the highest level is compatible with the lower
    ones that coexist with it. *)
Lemma COMPATIBLE_below t m l :
  0 <= t <= 6 -> 0 <= m <= 6 -> 0 <= l <= m -> COMPATIBLE t m = true ->
  l = m \/ COMPATIBLE l m = true -> COMPATIBLE t l = true.
Proof.
  intros Ht Hm Hl Hc Hlm.
  assert (E : forallb (fun t => forallb (fun m => forallb (fun l =>
      negb (COMPATIBLE t m) || negb (l <=? m) || negb ((l =? m) || COMPATIBLE l m) || COMPATIBLE t l)
      (seqZ 0 7)) (seqZ 0 7)) (seqZ 0 7) = true) by (vm_compute; reflexivity).
  pose proof (Z_range_check _ 0 7 E t ltac:(lia)) as E1.
  pose proof (Z_range_check _ 0 7 E1 m ltac:(lia)) as E2.
  pose proof (Z_range_check _ 0 7 E2 l ltac:(lia)) as E3. cbn beta in E3.
  rewrite Hc, (proj2 (Z.leb_le l m)) in E3 by lia. cbn [negb orb] in E3.
  destruct Hlm as [->|Hlm]; [by rewrite Z.eqb_refl in E3|]. rewrite Hlm, orb_true_r in E3. done.
Qed.

Lemma COMPATIBLE_none t : 0 <= t <= 6 -> COMPATIBLE t 0 = true.
Proof.
  intros Ht. assert (E : forallb (fun t => COMPATIBLE t 0) (seqZ 0 7) = true) by (vm_compute; reflexivity).
  apply (Z_range_check _ 0 7 E t). lia.
Qed.

Lemma highest_spec counts :
  let m := highest [6; 5; 4; 3; 2; 1] counts in
  0 <= m <= 6 /\ (1 <= m -> count counts m <> 0) /\
  forall l, 1 <= l <= 6 -> m < l -> count counts l = 0.
Proof.
  cbn zeta. cbn [highest]. unfold LCK_none. bool_cases; (split; [lia|]; split; [lia|]); intros l Hl Hm;
    assert (l = 1 \/ l = 2 \/ l = 3 \/ l = 4 \/ l = 5 \/ l = 6) by lia;
    intuition (subst; lia).
Qed.

(** *** The queue around a request *)

Definition ids (rs : list LockRequest) : list nat := map lrq_id rs.

Lemma get_split id rs r :
  get id rs = Some r -> exists pre post, rs = pre ++ r :: post /\ lrq_id r = id.
Proof.
  intros H. apply List.find_some in H as [Hin Hid]. apply Nat.eqb_eq in Hid.
  apply list_elem_of_In, list_elem_of_split in Hin as (pre & post & ->). by exists pre, post.
Qed.

Lemma ids_app l1 l2 : ids (l1 ++ l2) = ids l1 ++ ids l2.
Proof. apply map_app. Qed.

Lemma nodup_split pre r post :
  NoDup (ids (pre ++ r :: post)) ->
  Forall (fun x => lrq_id x <> lrq_id r) (pre ++ post) /\ NoDup (ids (pre ++ post)).
Proof.
  rewrite !ids_app. cbn [ids map]. fold (ids post). intros H.
  apply list.NoDup_app in H as (H1 & H2 & H3). apply list.NoDup_cons in H3 as [H3 H4]. split.
  - apply list.Forall_forall. intros x Hx E. apply elem_of_app in Hx as [Hx|Hx].
    + apply (H2 (lrq_id x)); [by apply (list_elem_of_fmap_2 lrq_id)|]. rewrite E. left.
    + apply H3. rewrite <-E. by apply (list_elem_of_fmap_2 lrq_id).
  - apply list.NoDup_app. split_and!; [done| |done]. intros x Hx Hp. apply (H2 x Hx). by right.
Qed.

Lemma put_other r rs : Forall (fun x => lrq_id x <> lrq_id r) rs -> put r rs = rs.
Proof.
  induction 1 as [|x rs Hx _ IH]; [done|]. cbn [put map]. fold (put r rs). rewrite IH.
  by rewrite (proj2 (Nat.eqb_neq _ _)).
Qed.

Lemma remove_other id rs : Forall (fun x => lrq_id x <> id) rs -> remove id rs = rs.
Proof.
  induction 1 as [|x rs Hx _ IH]; [done|]. unfold remove in *. cbn [List.filter].
  rewrite (proj2 (Nat.eqb_neq _ _)) by done. cbn [negb]. by rewrite IH.
Qed.

Section around.
Context (pre post : list LockRequest) (id : nat).
Context (Hother : Forall (fun x => lrq_id x <> id) (pre ++ post)).

Lemma put_split r0 r : lrq_id r0 = id -> lrq_id r = id -> put r (pre ++ r0 :: post) = pre ++ r :: post.
Proof using Hother.
  intros E0 E. apply Forall_app in Hother as [H1 H2]. unfold put. rewrite map_app. cbn [map].
  fold (put r pre) (put r post). rewrite !put_other by (by rewrite E).
  by rewrite E0, E, Nat.eqb_refl.
Qed.

Lemma get_middle r : lrq_id r = id -> get id (pre ++ r :: post) = Some r.
Proof using Hother.
  intros E. apply Forall_app in Hother as [H1 _]. unfold get.
  induction H1 as [|x pre Hx _ IH]; cbn [app List.find].
  - by rewrite E, Nat.eqb_refl.
  - by rewrite (proj2 (Nat.eqb_neq _ _)).
Qed.

Lemma remove_middle r : lrq_id r = id -> remove id (pre ++ r :: post) = pre ++ post.
Proof using Hother.
  intros E. apply Forall_app in Hother as [H1 H2]. unfold remove. rewrite List.filter_app.
  cbn [List.filter]. fold (remove id pre) (remove id post). rewrite !remove_other by done.
  by rewrite E, Nat.eqb_refl.
Qed.
End around.

Lemma nstate_middle level pre r post :
  nstate level (pre ++ r :: post)
  = (nstate level (pre ++ post) + (if Z.eqb (lrq_state r) level then 1 else 0))%nat.
Proof.
  unfold nstate. rewrite !List.filter_app, !length_app. cbn [List.filter].
  destruct (lrq_state r =? level); cbn [length]; lia.
Qed.

Lemma npending_middle pre r post :
  npending (pre ++ r :: post) = (npending (pre ++ post) + (if lrq_pending r then 1 else 0))%nat.
Proof.
  unfold npending. rewrite !List.filter_app, !length_app. cbn [List.filter].
  destruct (lrq_pending r); cbn [length]; lia.
Qed.

Lemma nstate_le level rs : (nstate level rs <= length rs)%nat.
Proof. apply List.filter_length_le. Qed.

Lemma npending_le rs : (npending rs <= length rs)%nat.
Proof. apply List.filter_length_le. Qed.

Lemma npending_zero rs : npending rs = 0%nat <-> Forall (fun r => lrq_pending r = false) rs.
Proof.
  unfold npending. induction rs as [|r rs IH]; [split; [intros _; apply list.Forall_nil_2|done]|].
  cbn [List.filter]. rewrite Forall_cons_iff, <-IH. destruct (lrq_pending r); cbn [length]; intuition done.
Qed.

Lemma ids_middle pre r r' post : lrq_id r = lrq_id r' -> ids (pre ++ r :: post) = ids (pre ++ r' :: post).
Proof. intros E. rewrite !ids_app. cbn [ids map]. by rewrite E. Qed.

Lemma nodup_middle pre r post :
  Forall (fun x => lrq_id x <> lrq_id r) (pre ++ post) -> NoDup (ids (pre ++ post)) ->
  NoDup (ids (pre ++ r :: post)).
Proof.
  intros Ho Hn. rewrite ids_app in *. cbn [ids map]. fold (ids post). apply list.NoDup_app in Hn as (H1 & H2 & H3).
  apply Forall_app in Ho as [Ho1 Ho2]. rewrite list.Forall_forall in Ho1, Ho2.
  assert (N : forall l, (forall x, x ∈ l -> lrq_id x <> lrq_id r) -> lrq_id r ∉ ids l).
  { intros l H Hin. apply (list_elem_of_fmap lrq_id) in Hin as (y & E & Hy). by apply (H y Hy). }
  apply list.NoDup_app. split_and!; [done| |].
  - intros x Hx [->|Hp]%elem_of_cons; [by apply (N pre Ho1)|by apply (H2 x)].
  - apply list.NoDup_cons. split; [by apply N|done].
Qed.

(** *** Granting *)

Lemma add_count_counts level d lock :
  0 <= level < 7 -> length (lbl_counts lock) = 7%nat ->
  let counts := lbl_counts (add_count level d lock) in
  length counts = 7%nat /\ count counts level = USHORT (count (lbl_counts lock) level + d) /\
  forall l, 0 <= l -> l <> level -> count counts l = count (lbl_counts lock) l.
Proof.
  intros Hl Hs. cbn. split; [by rewrite length_insert|]. unfold count.
  rewrite !nth_lookup, list_lookup_insert_eq by lia. split; [done|].
  intros l H0 Hne. by rewrite !nth_lookup, list_lookup_insert_ne by lia.
Qed.

(** Counting a request in and out. *)
Lemma counts_of_in level lock pre r post :
  counts_of (pre ++ post) (lbl_counts lock) -> Z.of_nat (length (pre ++ post)) < 65535 ->
  1 <= level <= 6 -> lrq_state r = level ->
  counts_of (pre ++ r :: post) (lbl_counts (add_count level 1 lock)).
Proof.
  intros [Hs Hc] Hlen Hl Hr. destruct (add_count_counts level 1 lock ltac:(lia) Hs) as (H1 & H2 & H3).
  split; [done|]. intros l Hl'. rewrite nstate_middle, Hr.
  destruct (Z.eqb_spec level l) as [->|Hne].
  - rewrite H2, (Hc l Hl'). pose proof (nstate_le l (pre ++ post)). rewrite USHORT_small by lia. lia.
  - rewrite H3, (Hc l Hl') by lia. lia.
Qed.

Lemma counts_of_out lock pre r post :
  counts_of (pre ++ r :: post) (lbl_counts lock) -> Z.of_nat (length (pre ++ r :: post)) < 65536 ->
  1 <= lrq_state r <= 6 ->
  counts_of (pre ++ post) (lbl_counts (add_count (lrq_state r) (-1) lock)).
Proof.
  intros [Hs Hc] Hlen Hl. destruct (add_count_counts (lrq_state r) (-1) lock ltac:(lia) Hs) as (H1 & H2 & H3).
  split; [done|]. intros l Hl'. pose proof (Hc l Hl') as E. rewrite nstate_middle in E.
  destruct (Z.eqb_spec (lrq_state r) l) as [<-|Hne].
  - rewrite H2, E. pose proof (nstate_le (lrq_state r) (pre ++ post)) as Hle.
    rewrite length_app in Hlen, Hle. cbn [length] in Hlen. rewrite USHORT_small by lia. lia.
  - rewrite H3, E by lia. lia.
Qed.

(** A request of no level is not counted. *)
Lemma counts_of_none counts pre r post :
  lrq_state r = 0 -> counts_of (pre ++ r :: post) counts <-> counts_of (pre ++ post) counts.
Proof.
  intros Hr. unfold counts_of. split; intros [Hs Hc]; (split; [done|]); intros l Hl; specialize (Hc l Hl);
    rewrite nstate_middle, Hr, (proj2 (Z.eqb_neq 0 l)) in * by lia; lia.
Qed.

(** Counting out and in again changes nothing. *)
Lemma add_count_back level lock :
  0 <= level < 7 -> length (lbl_counts lock) = 7%nat ->
  1 <= count (lbl_counts lock) level < 65536 ->
  add_count level 1 (add_count level (-1) lock) = lock.
Proof.
  intros Hl Hs Hc. unfold add_count. cbn [lbl_counts with_counts].
  rewrite list_insert_insert_eq. unfold count in *. rewrite !nth_lookup in *.
  rewrite list_lookup_insert_eq by lia. cbn [default].
  destruct (lbl_counts lock !! Z.to_nat level) as [c|] eqn:E; cbn [default] in *.
  - unfold id in *. rewrite (USHORT_small (c + -1)) by lia. rewrite USHORT_small by lia.
    replace (c + -1 + 1) with c by lia. rewrite list_insert_id by done. by destruct lock.
  - lia.
Qed.

(** The highest level of the counted requests. *)
Lemma lock_state_spec rs lock :
  counts_of rs (lbl_counts lock) -> Forall request_ok rs ->
  0 <= lock_state lock <= 6 /\ (1 <= lock_state lock -> exists r, r ∈ rs /\ lrq_state r = lock_state lock) /\
  forall r, r ∈ rs -> lrq_state r <= lock_state lock.
Proof.
  intros [_ Hc] Hok. destruct (highest_spec (lbl_counts lock)) as (H1 & H2 & H3).
  change (highest _ _) with (lock_state lock) in *. split; [done|]. split.
  - intros Hm. specialize (H2 Hm). rewrite (Hc (lock_state lock) ltac:(lia)) in H2. unfold nstate in H2.
    destruct (List.filter (fun r => lrq_state r =? lock_state lock) rs) as [|r l] eqn:E; [done|].
    exists r. assert (Hin : In r (List.filter (fun r => lrq_state r =? lock_state lock) rs)) by (rewrite E; by left).
    apply List.filter_In in Hin as [Hin He]. apply Z.eqb_eq in He. split; [by apply list_elem_of_In|done].
  - intros r Hr. destruct (Z.le_gt_cases (lrq_state r) (lock_state lock)) as [|Hgt]; [done|exfalso].
    rewrite list.Forall_forall in Hok. pose proof (ok_state r (Hok r Hr)).
    pose proof (H3 (lrq_state r) ltac:(lia) ltac:(lia)) as E. rewrite (Hc (lrq_state r) ltac:(lia)) in E.
    unfold nstate in E. apply list_elem_of_In in Hr.
    assert (Hin : In r (List.filter (fun x => lrq_state x =? lrq_state r) rs)).
    { apply List.filter_In. split; [done|]. apply Z.eqb_refl. }
    destruct (List.filter _ rs); [done|]. cbn in E. lia.
Qed.

(** A level compatible with the state of the lock is compatible with every
    request that is counted. *)
Lemma compatible_others rs lock t :
  counts_of rs (lbl_counts lock) -> Forall request_ok rs -> NoDup (ids rs) -> compatible_all rs ->
  0 <= t <= 6 -> COMPATIBLE t (lock_state lock) = true ->
  Forall (fun r => COMPATIBLE t (lrq_state r) = true) rs.
Proof.
  intros Hc Hok Hn Hall Ht Hcomp. destruct (lock_state_spec rs lock Hc Hok) as (H1 & H2 & H3).
  apply list.Forall_forall. intros r Hr. pose proof Hok as Hok'. rewrite list.Forall_forall in Hok'.
  pose proof (ok_state r (Hok' r Hr)) as Hs. specialize (H3 r Hr).
  destruct (Z.eq_dec (lrq_state r) 0) as [->|Hne]; [by apply COMPATIBLE_none|].
  apply (COMPATIBLE_below t (lock_state lock)); [done..|lia|done|].
  destruct (H2 ltac:(lia)) as (r2 & Hr2 & <-).
  destruct (Nat.eq_dec (lrq_id r) (lrq_id r2)) as [E|E]; [left|right; by apply Hall].
  f_equal. apply list_elem_of_lookup in Hr as [i Hi], Hr2 as [j Hj].
  assert (i = j) as ->; [|congruence].
  eapply (list.NoDup_lookup (ids rs)); [done| |].
  - unfold ids. rewrite (list_lookup_fmap lrq_id), Hi. done.
  - unfold ids. rewrite (list_lookup_fmap lrq_id), Hj. cbn. by rewrite E.
Qed.

(** What is left of the invariant when one request is set apart. *)
Record others (pre post : list LockRequest) (id : nat) : Prop := {
  others_ids : Forall (fun x => lrq_id x <> id) (pre ++ post);
  others_nodup : NoDup (ids (pre ++ post));
  others_length : Z.of_nat (length (pre ++ post)) < 65535;
  others_compat : compatible_all (pre ++ post);
  others_ok : Forall request_ok (pre ++ post)
}.

Lemma elem_of_middle (x r : LockRequest) pre post : x ∈ pre ++ r :: post <-> x = r \/ x ∈ pre ++ post.
Proof. rewrite !elem_of_app, elem_of_cons. tauto. Qed.

Lemma inv_others lock pre r post :
  inv lock -> lbl_requests lock = pre ++ r :: post -> others pre post (lrq_id r) /\ request_ok r.
Proof.
  intros [Hn Hl _ _ Hc _ Hok] E. rewrite E in Hn, Hl, Hc, Hok.
  destruct (nodup_split _ _ _ Hn) as [H1 H2].
  apply Forall_app in Hok as [Hok1 Hok2]. inversion Hok2; subst. split; [|done]. constructor; try done.
  - rewrite length_app in *. cbn [length] in Hl. lia.
  - intros r1 r2 Ha Hb. apply Hc; apply elem_of_middle; by right.
  - by apply Forall_app.
Qed.

Lemma inv_intro lock pre r post :
  lbl_requests lock = pre ++ r :: post -> others pre post (lrq_id r) -> request_ok r ->
  Forall (fun x => COMPATIBLE (lrq_state r) (lrq_state x) = true) (pre ++ post) ->
  counts_of (pre ++ r :: post) (lbl_counts lock) -> lbl_state lock = lock_state lock ->
  lbl_pending_lrq_count lock = Z.of_nat (npending (pre ++ r :: post)) -> inv lock.
Proof.
  intros E [Hi Hn Hl Hc Hok] Hr Hcomp Hcounts Hs Hp. constructor; try rewrite E; try done.
  - by apply nodup_middle.
  - rewrite length_app in *. cbn [length]. lia.
  - intros r1 r2 [->|H1]%elem_of_middle [->|H2]%elem_of_middle Hne; [done| | |by apply Hc].
    + by apply (proj1 (list.Forall_forall _ _) Hcomp).
    + rewrite list.Forall_forall in Hcomp, Hok. rewrite COMPATIBLE_sym; [by apply Hcomp| |].
      * apply ok_state. by apply Hok.
      * by apply ok_state.
  - apply Forall_app in Hok as [H1 H2]. apply Forall_app. split; [done|by constructor].
Qed.

(** The request that [grant] leaves. *)
Definition granted (r : LockRequest) : LockRequest :=
  mk_lrq (lrq_id r) (lrq_owner r) (lrq_requested r) (lrq_requested r) false (lrq_rejected r) 0 (lrq_wait r).

Lemma grant_ok lock pre r0 r post :
  lbl_requests lock = pre ++ r0 :: post -> lrq_id r0 = lrq_id r -> others pre post (lrq_id r) ->
  counts_of (pre ++ post) (lbl_counts lock) ->
  lbl_pending_lrq_count lock = Z.of_nat (npending (pre ++ post)) + (if lrq_pending r then 1 else 0) ->
  1 <= lrq_requested r <= 6 -> COMPATIBLE (lrq_requested r) (lock_state lock) = true ->
  (lrq_wait r = In_grant_or_que -> lrq_rejected r = false) ->
  inv (grant r lock) /\ lbl_requests (grant r lock) = pre ++ granted r :: post /\
  lbl_converting (grant r lock) = lbl_converting lock.
Proof.
  intros E Eid Ho Hc Hp Hreq Hcomp Hw. pose proof (others_ids _ _ _ Ho) as Hi.
  assert (Hcounts : counts_of (pre ++ granted r :: post) (lbl_counts (add_count (lrq_requested r) 1 lock))).
  { by apply counts_of_in; [|apply (others_length _ _ _ Ho)| |]. }
  assert (Hcomp' : Forall (fun x => COMPATIBLE (lrq_state (granted r)) (lrq_state x) = true) (pre ++ post)).
  { apply (compatible_others _ lock); try done; try apply Ho. cbn. lia. }
  assert (Hok : request_ok (granted r)).
  { constructor; cbn; try done; try lia. intros H. rewrite (Hw H). lia. }
  assert (Hreqs : lbl_requests (grant r lock) = pre ++ granted r :: post /\
    lbl_counts (grant r lock) = lbl_counts (add_count (lrq_requested r) 1 lock) /\
    lbl_state (grant r lock) = lock_state (add_count (lrq_requested r) 1 lock) /\
    lbl_converting (grant r lock) = lbl_converting lock /\
    lbl_pending_lrq_count (grant r lock) = Z.of_nat (npending (pre ++ post))).
  { pose proof (npending_le (pre ++ post)) as Hle. pose proof (others_length _ _ _ Ho).
    unfold grant, clearPending. cbn [lrq_pending lrq_data set_state set_data].
    destruct (lrq_data r =? 0), (lrq_pending r) eqn:Ep; rewrite ?Ep in Hp;
      cbn [lbl_requests update with_requests with_state with_data with_pending_count add_count with_counts
        lbl_counts lbl_state lbl_converting lbl_pending_lrq_count]; rewrite E;
      rewrite !(put_split _ _ (lrq_id r)) by done;
      (split; [unfold granted, set_flags, set_data, set_state; cbn; by rewrite ?Ep|]); repeat (split; [done|]);
      rewrite Hp; try lia; rewrite USHORT_small; lia. }
  destruct Hreqs as (E1 & E2 & E3 & E4 & E5). split; [|done].
  apply (inv_intro _ pre (granted r) post); try done.
  - by rewrite E2.
  - rewrite E3. unfold lock_state. by rewrite E2.
  - rewrite E5, npending_middle. cbn [lrq_pending granted]. lia.
Qed.

(** Taking a request out of the counts. *)
Lemma counts_without lock pre r post :
  inv lock -> lbl_requests lock = pre ++ r :: post -> 1 <= lrq_state r ->
  let lock1 := add_count (lrq_state r) (-1) lock in
  counts_of (pre ++ post) (lbl_counts lock1) /\ add_count (lrq_state r) 1 lock1 = lock.
Proof.
  intros Hinv E Hs. destruct (inv_others _ _ _ _ Hinv E) as [Ho Hok].
  pose proof (ok_state r Hok) as Hr. pose proof (inv_counts _ Hinv) as Hc. pose proof (inv_length _ Hinv) as Hl.
  rewrite E in Hc, Hl. cbn zeta. split; [by apply counts_of_out; [| |lia]|].
  destruct Hc as [Hs7 Hc]. apply add_count_back; [lia|done|]. rewrite Hc by lia.
  rewrite nstate_middle, Z.eqb_refl. pose proof (nstate_le (lrq_state r) (pre ++ post)) as Hle.
  rewrite length_app in *. cbn [length] in Hl. lia.
Qed.

(** *** Posting pending requests *)

(** Whether a pending request could be granted now. *)
Definition grantable (r : LockRequest) (lock : LockBlock) : bool :=
  if lrq_state r =? LCK_none then COMPATIBLE (lrq_requested r) (lbl_state lock)
  else COMPATIBLE (lrq_requested r) (lock_state (add_count (lrq_state r) (-1) lock)).

(** The first request that waits has to. *)
Definition quiet (lock : LockBlock) : Prop :=
  forall r, List.find lrq_pending (lbl_requests lock) = Some r -> grantable r lock = false.

Lemma ids_split rs l id que :
  ids rs = l ++ id :: que ->
  exists pre r post, rs = pre ++ r :: post /\ ids pre = l /\ lrq_id r = id /\ ids post = que.
Proof.
  intros E. apply (fmap_app_inv lrq_id) in E as (pre & suf & H1 & H2 & ->).
  destruct suf as [|r post]; [done|]. injection H2 as -> ->. by exists pre, r, post.
Qed.

Lemma find_pending_first pre r post :
  Forall (fun x => lrq_pending x = false) pre -> lrq_pending r = true ->
  List.find lrq_pending (pre ++ r :: post) = Some r.
Proof.
  intros H Hr. induction H as [|x pre Hx _ IH]; cbn [app List.find]; [by rewrite Hr|by rewrite Hx].
Qed.

Lemma find_pending_none rs :
  Forall (fun x => lrq_pending x = false) rs -> List.find lrq_pending rs = None.
Proof. induction 1 as [|x rs Hx _ IH]; cbn [List.find]; [done|by rewrite Hx]. Qed.

(** What an operation on behalf of others does to a lock. *)
Record advanced (lock lock' : LockBlock) : Prop := {
  adv_inv : inv lock';
  adv_ids : ids (lbl_requests lock') = ids (lbl_requests lock);
  adv_converting : lbl_converting lock' = lbl_converting lock;
  adv_kept r : r ∈ lbl_requests lock -> lrq_pending r = false -> r ∈ lbl_requests lock'
}.

Lemma advanced_refl lock : inv lock -> advanced lock lock.
Proof. by constructor. Qed.

Lemma advanced_trans lock1 lock2 lock3 :
  advanced lock1 lock2 -> advanced lock2 lock3 -> advanced lock1 lock3.
Proof. intros [_ Hi1 Hc1 Hk1] [Hinv Hi2 Hc2 Hk2]. constructor; [done|congruence|congruence|auto]. Qed.

(** Granting a pending request of the queue. *)
Lemma grant_pending_ok lock pre r post :
  inv lock -> lbl_requests lock = pre ++ r :: post -> lrq_pending r = true ->
  let lock1 := if lrq_state r =? LCK_none then lock else add_count (lrq_state r) (-1) lock in
  COMPATIBLE (lrq_requested r) (lock_state lock1) = true ->
  advanced lock (grant r lock1) /\ lbl_requests (grant r lock1) = pre ++ granted r :: post.
Proof.
  intros Hinv E Hp lock1 Hcomp. destruct (inv_others _ _ _ _ Hinv E) as [Ho Hok].
  assert (H1 : counts_of (pre ++ post) (lbl_counts lock1) /\ lbl_requests lock1 = lbl_requests lock /\
    lbl_pending_lrq_count lock1 = lbl_pending_lrq_count lock /\ lbl_converting lock1 = lbl_converting lock).
  { pose proof (ok_state r Hok). unfold lock1, LCK_none. destruct (Z.eqb_spec (lrq_state r) 0) as [Es|Es].
    - split; [|done]. apply (counts_of_none _ pre r post Es). rewrite <-E. apply Hinv.
    - split; [|done]. by apply counts_without; [| |lia]. }
  destruct H1 as (Hc & Er & Ep & Econv). rewrite E in Er.
  destruct (grant_ok lock1 pre r r post Er eq_refl Ho Hc) as (Hg & Erg & Ecg).
  - rewrite Ep, (inv_pending _ Hinv), E, npending_middle, Hp. lia.
  - apply Hok.
  - done.
  - intros _. by apply Hok.
  - split; [|done]. constructor; [done| |by rewrite Ecg|].
    + rewrite Erg, E. by apply ids_middle.
    + intros x Hx Hxp. rewrite Erg. rewrite E in Hx. apply elem_of_middle in Hx as [->|Hx]; [congruence|].
      apply elem_of_middle. by right.
Qed.

Lemma post_pending_loop_ok ordering que lock l :
  inv lock -> ids (lbl_requests lock) = l ++ que ->
  let lock' := post_pending_loop ordering que lock in
  advanced lock lock' /\
  (ordering = true ->
   (forall pre suf, lbl_requests lock = pre ++ suf -> ids pre = l -> Forall (fun r => lrq_pending r = false) pre) ->
   quiet lock').
Proof.
  revert lock l. induction que as [|id que IH]; intros lock l Hinv Eids; cbn zeta; cbn [post_pending_loop].
  { split; [by apply advanced_refl|]. intros _ Hpre r Hr. exfalso.
    rewrite app_nil_r in Eids. rewrite find_pending_none in Hr; [done|].
    apply (Hpre (lbl_requests lock) []); [by rewrite app_nil_r|done]. }
  destruct (ids_split _ _ _ _ Eids) as (pre & r & post & E & El & Eid & Eq).
  destruct (inv_others _ _ _ _ Hinv E) as [Ho Hok].
  assert (Eget : get id (lbl_requests lock) = Some r).
  { rewrite E, <-Eid. apply get_middle; [apply Ho|done]. }
  rewrite Eget.
  assert (Enext : forall lock', ids (lbl_requests lock') = ids (lbl_requests lock) ->
    ids (lbl_requests lock') = (l ++ [id]) ++ que) by (intros lock' ->; by rewrite Eids, <-app_assoc).
  assert (Hstep : forall lock' r', advanced lock lock' -> lbl_requests lock' = pre ++ r' :: post ->
    lrq_pending r' = false ->
    let lock'' := post_pending_loop ordering que lock' in
    advanced lock lock'' /\
    (ordering = true ->
     (forall pre suf, lbl_requests lock = pre ++ suf -> ids pre = l -> Forall (fun r => lrq_pending r = false) pre) ->
     quiet lock'')).
  { intros lock' r' Hadv E' Hr'.
    destruct (IH lock' (l ++ [id]) (adv_inv _ _ Hadv) (Enext _ (adv_ids _ _ Hadv))) as [H1 H2].
    split; [by eapply advanced_trans|]. intros Hord Hpre. apply (H2 Hord).
    intros p suf Ep Eids'. rewrite E' in Ep. pose proof (Hpre pre (r :: post) E El) as Hpre'.
    assert (Hlen : length p = length (pre ++ [r'])).
    { rewrite length_app. cbn [length]. unfold ids in *.
      apply (f_equal length) in Eids'. apply (f_equal length) in El.
      rewrite length_map in Eids', El. rewrite length_app in Eids'. cbn [length] in Eids'. lia. }
    replace (pre ++ r' :: post) with ((pre ++ [r']) ++ post) in Ep by (by rewrite <-app_assoc).
    apply app_inj_1 in Ep as [<- _]; [|by rewrite Hlen]. apply Forall_app. split; [done|by repeat constructor]. }
  destruct (lrq_pending r) eqn:Hp; cbn [negb].
  2: { apply (Hstep lock r); [by apply advanced_refl|done..]. }
  pose proof (grant_pending_ok lock pre r post Hinv E Hp) as Hgrant. cbn zeta in Hgrant.
  assert (Hstop : grantable r lock = false ->
    advanced lock lock /\ (ordering = true ->
     (forall pre suf, lbl_requests lock = pre ++ suf -> ids pre = l -> Forall (fun r => lrq_pending r = false) pre) ->
     quiet lock)).
  { intros Hg. split; [by apply advanced_refl|]. intros _ Hpre x Hx.
    rewrite E, find_pending_first in Hx; [|by apply (Hpre pre (r :: post))|done]. injection Hx as <-. done. }
  assert (Hskip : ordering = false ->
    advanced lock (post_pending_loop ordering que lock) /\ (ordering = true ->
     (forall pre suf, lbl_requests lock = pre ++ suf -> ids pre = l -> Forall (fun r => lrq_pending r = false) pre) ->
     quiet (post_pending_loop ordering que lock))).
  { intros Hord. split; [|by rewrite Hord].
    destruct (IH lock (l ++ [id]) Hinv (Enext lock eq_refl)) as [H1 _]. done. }
  unfold grantable in Hstop. unfold LCK_none in *.
  destruct (Z.eqb_spec (lrq_state r) 0) as [Es|Es]; cbn [negb].
  - rewrite <-(inv_state _ Hinv) in Hgrant.
    destruct (COMPATIBLE (lrq_requested r) (lbl_state lock)).
    + destruct (Hgrant eq_refl) as [Hadv Er]. by apply (Hstep _ (granted r)).
    + destruct ordering; [by apply Hstop|by apply Hskip].
  - destruct (counts_without lock pre r post Hinv E) as [_ Hback]; [pose proof (ok_state r Hok); lia|].
    destruct (COMPATIBLE (lrq_requested r) (lock_state (add_count (lrq_state r) (-1) lock))).
    + destruct (Hgrant eq_refl) as [Hadv Er]. by apply (Hstep _ (granted r)).
    + rewrite Hback. destruct ordering; [by apply Hstop|by apply Hskip].
Qed.

Lemma post_pending_ok ordering lock :
  inv lock -> advanced lock (post_pending ordering lock) /\ (ordering = true -> quiet (post_pending ordering lock)).
Proof.
  intros Hinv. unfold post_pending. destruct (Z.eqb_spec (lbl_pending_lrq_count lock) 0) as [E|_].
  - split; [by apply advanced_refl|]. intros _ r Hr. exfalso.
    rewrite (inv_pending _ Hinv) in E. unfold npending in E.
    apply List.find_some in Hr as [Hin Hp].
    assert (H : In r (List.filter lrq_pending (lbl_requests lock))) by (by apply List.filter_In).
    destruct (List.filter _ _); [done|]. cbn in E. lia.
  - destruct (post_pending_loop_ok ordering (map lrq_id (lbl_requests lock)) lock [] Hinv eq_refl) as [H1 H2].
    split; [done|]. intros Hord. apply (H2 Hord). intros pre suf _ E. destruct pre; [constructor|done].
Qed.

(** *** Each operation keeps the invariant *)

(** A rejected request whose thread has not cleaned up yet. *)
Definition outstanding (lock : LockBlock) : Prop :=
  exists r, r ∈ lbl_requests lock /\ lrq_wait r <> Not_waiting /\ lrq_pending r = false /\
    lrq_rejected r = true.

(** With ordering, the first waiting request cannot be granted, unless a
    rejected request is still to be cleaned up. *)
Definition good (ordering : bool) (lock : LockBlock) : Prop :=
  inv lock /\ (ordering = true -> quiet lock \/ outstanding lock).

Lemma find_app_pending pre post :
  List.find lrq_pending (pre ++ post)
  = match List.find lrq_pending pre with Some r => Some r | None => List.find lrq_pending post end.
Proof.
  induction pre as [|x pre IH]; [done|]. cbn [app List.find]. by destruct (lrq_pending x).
Qed.

(** Replacing a request that does not wait by one that does not wait either,
    or has to. *)
Lemma fair_replace lock lock' pre r r' post :
  lbl_requests lock = pre ++ r :: post -> lbl_requests lock' = pre ++ r' :: post ->
  lbl_counts lock' = lbl_counts lock -> lbl_state lock' = lbl_state lock ->
  lrq_pending r = false -> (lrq_pending r' = true -> grantable r' lock' = false) ->
  (lrq_wait r = Not_waiting \/ lrq_rejected r = false) ->
  quiet lock \/ outstanding lock -> quiet lock' \/ outstanding lock'.
Proof.
  intros E E' Ec Es Hp Hp' Hw [Hq|(x & Hx & Hout)].
  - left. intros x Hx. rewrite E' in Hx. rewrite find_app_pending in Hx. cbn [List.find] in Hx.
    assert (Hsame : forall y, List.find lrq_pending (lbl_requests lock) = Some y -> grantable y lock' = false).
    { intros y Hy. specialize (Hq y Hy). unfold grantable in *. rewrite Es.
      replace (lock_state (add_count (lrq_state y) (-1) lock')) with (lock_state (add_count (lrq_state y) (-1) lock));
        [done|]. unfold lock_state. cbn. by rewrite Ec. }
    rewrite E, find_app_pending in Hsame. cbn [List.find] in Hsame. rewrite Hp in Hsame.
    destruct (List.find lrq_pending pre) as [y|]; [injection Hx as <-; by apply Hsame|].
    destruct (lrq_pending r') eqn:Er; [injection Hx as <-; by apply Hp'|by apply Hsame].
  - right. exists x. split; [|done]. rewrite E in Hx. apply elem_of_middle in Hx as [->|Hx].
    + destruct Hout as (H1 & _ & H3). destruct Hw; congruence.
    + rewrite E'. apply elem_of_middle. by right.
Qed.

(** The invariant as it stands while a request is looked at. *)
Record looking (lock : LockBlock) (pre : list LockRequest) (r : LockRequest) (post : list LockRequest)
    : Prop := {
  look_requests : lbl_requests lock = pre ++ r :: post;
  look_others : others pre post (lrq_id r);
  look_counts : counts_of (pre ++ r :: post) (lbl_counts lock);
  look_state : lbl_state lock = lock_state lock;
  look_pending : lbl_pending_lrq_count lock = Z.of_nat (npending (pre ++ r :: post));
  look_level : 0 <= lrq_state r <= 6;
  look_compat : Forall (fun x => COMPATIBLE (lrq_state r) (lrq_state x) = true) (pre ++ post)
}.

Lemma inv_looking lock pre r post :
  inv lock -> lbl_requests lock = pre ++ r :: post -> looking lock pre r post /\ request_ok r.
Proof.
  intros Hinv E. destruct (inv_others _ _ _ _ Hinv E) as [Ho Hok]. split; [|done].
  constructor; try done; try (rewrite <-E; apply Hinv); [apply Hinv|apply Hok|].
  pose proof (inv_compat _ Hinv) as Hc. rewrite E in Hc. apply list.Forall_forall. intros x Hx.
  apply Hc; [by apply elem_of_middle; left|by apply elem_of_middle; right|].
  pose proof (others_ids _ _ _ Ho) as Hi. rewrite list.Forall_forall in Hi. specialize (Hi x Hx). congruence.
Qed.

Lemma looking_inv lock pre r post : looking lock pre r post -> request_ok r -> inv lock.
Proof. intros [] Hr. by apply (inv_intro lock pre r post). Qed.

(** Replacing the request by one of the same level. *)
Lemma looking_replace lock lock' pre r r' post :
  looking lock pre r post -> lrq_id r' = lrq_id r -> lrq_state r' = lrq_state r ->
  lbl_requests lock' = pre ++ r' :: post -> lbl_counts lock' = lbl_counts lock ->
  lbl_state lock' = lbl_state lock ->
  lbl_pending_lrq_count lock' = Z.of_nat (npending (pre ++ r' :: post)) -> looking lock' pre r' post.
Proof.
  intros [] Ei Es E Ec Est Ep. constructor; rewrite ?Ei, ?Es; try done.
  - rewrite Ec. destruct look_counts0 as [Hs Hc]. split; [done|]. intros l Hl. rewrite (Hc l Hl).
    by rewrite !nstate_middle, Es.
  - rewrite Est, look_state0. unfold lock_state. by rewrite Ec.
Qed.

Lemma update_looking lock pre r r' post :
  looking lock pre r post -> lrq_id r' = lrq_id r ->
  lbl_requests (update r' lock) = pre ++ r' :: post.
Proof.
  intros [E Ho _ _ _ _ _] Ei. unfold update. cbn [lbl_requests with_requests]. rewrite E.
  apply (put_split pre post (lrq_id r)); [apply Ho|done|done].
Qed.

Lemma looking_get lock r : inv lock -> get (lrq_id r) (lbl_requests lock) = Some r ->
  exists pre post, looking lock pre r post /\ request_ok r.
Proof.
  intros Hinv Hg. destruct (get_split _ _ _ Hg) as (pre & post & E & _).
  exists pre, post. by apply inv_looking.
Qed.

Lemma highest_ext c c' :
  (forall l, 1 <= l <= 6 -> (count c l = 0 <-> count c' l = 0)) ->
  forall levels, Forall (fun l => 1 <= l <= 6) levels -> highest levels c = highest levels c'.
Proof.
  intros H levels. induction 1 as [|l levels Hl _ IH]; [done|]. cbn [highest]. specialize (H l Hl).
  destruct (Z.eqb_spec (count c l) 0), (Z.eqb_spec (count c' l) 0); tauto.
Qed.

(** Without the request the others remain. *)
Lemma inv_without lock pre post id :
  others pre post id -> lbl_requests lock = pre ++ post -> counts_of (pre ++ post) (lbl_counts lock) ->
  lbl_state lock = lock_state lock -> lbl_pending_lrq_count lock = Z.of_nat (npending (pre ++ post)) ->
  inv lock.
Proof. intros [] E Hc Hs Hp. constructor; try rewrite E; try done. lia. Qed.

Lemma release_request_ok ordering lock pre r post :
  looking lock pre r post ->
  match release_request ordering r lock with
  | Some lock' => inv lock' /\ (ordering = true -> quiet lock')
  | None => pre ++ post = []
  end.
Proof.
  intros H. pose proof (look_others _ _ _ _ H) as Ho. unfold release_request.
  set (lock1 := if lrq_pending r then clearPending r lock else lock).
  assert (H1 : exists r1, lrq_id r1 = lrq_id r /\ lrq_state r1 = lrq_state r /\ lrq_pending r1 = false /\
    looking lock1 pre r1 post).
  { unfold lock1. destruct (lrq_pending r) eqn:Ep; [|by exists r].
    exists (set_flags false (lrq_rejected r) r). split_and!; try done.
    apply (looking_replace lock _ pre r); try done.
    - apply (update_looking lock pre r); done.
    - cbn. rewrite (look_pending _ _ _ _ H), !npending_middle, Ep. cbn [lrq_pending set_flags].
      pose proof (npending_le (pre ++ post)). pose proof (others_length _ _ _ Ho).
      rewrite USHORT_small; lia. }
  destruct H1 as (r1 & Ei & Es & Ep & H1). pose proof H1 as [E _ Hc Hs Hp Hl _].
  rewrite E, (remove_middle _ _ (lrq_id r)) by (apply Ho || done).
  set (lock2 := with_requests (pre ++ post) lock1). cbn [lbl_requests with_requests lock2].
  assert (Hp2 : lbl_pending_lrq_count lock2 = Z.of_nat (npending (pre ++ post))).
  { cbn. rewrite Hp, npending_middle, Ep. lia. }
  assert (Hdone : forall lock3, lbl_requests lock3 = pre ++ post -> counts_of (pre ++ post) (lbl_counts lock3) ->
    lbl_state lock3 = lock_state lock3 -> lbl_pending_lrq_count lock3 = lbl_pending_lrq_count lock2 ->
    inv (post_pending ordering lock3) /\ (ordering = true -> quiet (post_pending ordering lock3))).
  { intros lock3 E3 Hc3 Hs3 Hp3. rewrite Hp2 in Hp3.
    destruct (post_pending_ok ordering lock3 (inv_without _ _ _ _ Ho E3 Hc3 Hs3 Hp3)) as [Ha Hq].
    split; [apply Ha|done]. }
  rewrite <-Es. destruct (pre ++ post) as [|x0 xs] eqn:Eapp; [done|]. rewrite <-Eapp in *. unfold LCK_none.
  destruct (Z.eqb_spec (lrq_state r1) 0) as [E0|E0].
  - apply Hdone; try done. by apply (counts_of_none _ pre r1 post E0).
  - assert (Hc3 : counts_of (pre ++ post) (lbl_counts (add_count (lrq_state r1) (-1) lock2))).
    { apply (counts_of_out lock2 pre r1 post); [done| |lia]. pose proof (others_length _ _ _ Ho).
      rewrite length_app in *. cbn [length]. lia. }
    destruct (Z.eqb_spec (count (lbl_counts (add_count (lrq_state r1) (-1) lock2)) (lrq_state r1)) 0) as [Ez|Ez];
      apply Hdone; try done.
    change (lbl_state (add_count (lrq_state r1) (-1) lock2)) with (lbl_state lock1). rewrite Hs.
    apply highest_ext; [|repeat (apply list.Forall_cons_2; [split; done|]); apply list.Forall_nil_2]. intros l Hl'. destruct Hc as [Hs7 Hc].
    destruct (add_count_counts (lrq_state r1) (-1) lock2 ltac:(lia) Hs7) as (_ & _ & Hother).
    destruct (Z.eq_dec l (lrq_state r1)) as [->|Hne]; [|by rewrite Hother by lia].
    rewrite (Hc _ Hl'), nstate_middle, Z.eqb_refl. split; [lia|done].
Qed.

(** The lock after an operation, if it is still there. *)
Definition good_result (ordering : bool) (res : option LockBlock) : Prop :=
  match res with Some lock => good ordering lock | None => True end.

Lemma release_request_good ordering lock pre r post :
  looking lock pre r post -> good_result ordering (release_request ordering r lock).
Proof.
  intros H. pose proof (release_request_ok ordering lock pre r post H) as Hr.
  destruct (release_request ordering r lock) as [lock'|]; [|done].
  destruct Hr as [H1 H2]. split; [done|]. intros Ho. left. auto.
Qed.

Lemma post_pending_good ordering lock : inv lock -> good ordering (post_pending ordering lock).
Proof.
  intros Hinv. destruct (post_pending_ok ordering lock Hinv) as [H1 H2].
  split; [apply H1|]. intros Ho. left. auto.
Qed.

(** The request that [wait_for_request] leaves. *)
Definition waiting (w : wait_kind) (r : LockRequest) : LockRequest := set_wait w (set_flags true false r).

Lemma wait_for_request_ok ordering w lock pre r post :
  looking lock pre r post -> lrq_pending r = false -> (lrq_state r = 0 -> post = []) ->
  looking (wait_for_request ordering w r lock) pre (waiting w r) post /\
  lbl_counts (wait_for_request ordering w r lock) = lbl_counts lock /\
  lbl_state (wait_for_request ordering w r lock) = lbl_state lock.
Proof.
  intros H Hp Hpost. pose proof (look_others _ _ _ _ H) as Ho.
  assert (E : lbl_requests (update (waiting w r) lock) = pre ++ waiting w r :: post) by (by apply (update_looking _ pre r)).
  assert (Er : lbl_requests (wait_for_request ordering w r lock) = pre ++ waiting w r :: post).
  { unfold wait_for_request. fold (waiting w r).
    destruct (ordering && (lrq_state (waiting w r) =? LCK_none)) eqn:Eb; cbn [lbl_requests with_requests with_pending_count]; [|done].
    apply andb_true_iff in Eb as [_ Eb]. apply Z.eqb_eq in Eb. rewrite (Hpost Eb) in *.
    rewrite E, (remove_middle _ _ (lrq_id r)) by (apply Ho || done). by rewrite app_nil_r. }
  assert (Ec : lbl_counts (wait_for_request ordering w r lock) = lbl_counts lock).
  { unfold wait_for_request. by destruct (_ && _). }
  assert (Es : lbl_state (wait_for_request ordering w r lock) = lbl_state lock).
  { unfold wait_for_request. by destruct (_ && _). }
  split; [|done]. apply (looking_replace lock _ pre r); try done.
  assert (Epc : lbl_pending_lrq_count (wait_for_request ordering w r lock)
    = USHORT (lbl_pending_lrq_count lock + 1)) by (unfold wait_for_request; by destruct (_ && _)).
  rewrite Epc, (look_pending _ _ _ _ H), !npending_middle, Hp. cbn [lrq_pending waiting set_wait set_flags].
  pose proof (npending_le (pre ++ post)). pose proof (others_length _ _ _ Ho). rewrite USHORT_small; lia.
Qed.

(** A new request at the end of the queue. *)
Lemma looking_new lock r :
  inv lock -> Z.of_nat (length (lbl_requests lock)) < 65535 -> lrq_id r ∉ ids (lbl_requests lock) ->
  lrq_state r = 0 -> lrq_pending r = false ->
  looking (with_requests (lbl_requests lock ++ [r]) lock) (lbl_requests lock) r [].
Proof.
  intros Hinv Hl Hid Hs Hp. constructor; cbn [lbl_requests lbl_counts lbl_state lbl_pending_lrq_count with_requests].
  - done.
  - constructor; rewrite ?app_nil_r; try done; try apply Hinv.
    apply list.Forall_forall. intros x Hx E. apply Hid. rewrite <-E. by apply (list_elem_of_fmap_2 lrq_id).
  - apply (counts_of_none _ _ r [] Hs). rewrite app_nil_r. apply Hinv.
  - apply Hinv.
  - rewrite npending_middle, Hp, app_nil_r, (inv_pending _ Hinv). lia.
  - lia.
  - rewrite app_nil_r, Hs. apply list.Forall_forall. intros x Hx.
    pose proof (inv_requests _ Hinv) as Hok. rewrite list.Forall_forall in Hok.
    rewrite COMPATIBLE_sym by (lia || apply ok_state; by apply Hok). apply COMPATIBLE_none. apply ok_state. by apply Hok.
Qed.

Lemma grant_or_que_good ordering lock r lck_wait :
  good ordering lock -> Z.of_nat (length (lbl_requests lock)) < 65535 -> lrq_id r ∉ ids (lbl_requests lock) ->
  lrq_state r = 0 -> lrq_pending r = false -> lrq_wait r = Not_waiting -> 1 <= lrq_requested r <= 6 ->
  good_result ordering
    (grant_or_que ordering r lck_wait (with_requests (lbl_requests lock ++ [r]) lock)).1.
Proof.
  intros [Hinv Hfair] Hl Hid Hs Hp Hw Hreq. pose proof (looking_new lock r Hinv Hl Hid Hs Hp) as Hlook.
  unfold grant_or_que. cbn [lbl_state lbl_pending_lrq_count with_requests].
  destruct (COMPATIBLE (lrq_requested r) (lbl_state lock) && _) eqn:Eb; cbn [fst].
  - apply andb_true_iff in Eb as [Ec _].
    destruct (grant_ok (with_requests (lbl_requests lock ++ [r]) lock) (lbl_requests lock) r r []) as (Hg & _);
      try done; try apply Hlook.
    + cbn [lbl_counts with_requests]. rewrite app_nil_r. apply Hinv.
    + cbn [lbl_pending_lrq_count with_requests]. rewrite Hp, app_nil_r, (inv_pending _ Hinv). lia.
    + change (lock_state (with_requests _ lock)) with (lock_state lock). by rewrite <-(inv_state _ Hinv).
    + by rewrite Hw.
    + by apply post_pending_good.
  - destruct lck_wait; cbn [fst]; [|by eapply release_request_good].
    destruct (wait_for_request_ok ordering In_grant_or_que _ _ _ _ Hlook Hp) as (Hw' & Hcounts & Hst); [done|].
    assert (Hrok : request_ok (waiting In_grant_or_que r)).
    { constructor; cbn; rewrite ?Hs; done || lia. }
    split; [by eapply looking_inv|]. intros Hord. specialize (Hfair Hord).
    pose proof (look_requests _ _ _ _ Hw') as Er. destruct Hfair as [Hq|(x & Hx & Hout)].
    + left. intros x Hx. rewrite Er, find_app_pending in Hx. cbn [List.find lrq_pending waiting set_wait set_flags] in Hx.
      unfold grantable, lock_state. cbn [lbl_counts add_count with_counts]. rewrite Hst, Hcounts.
      destruct (List.find lrq_pending (lbl_requests lock)) as [y|] eqn:Ey.
      * injection Hx as <-. apply (Hq y Ey).
      * injection Hx as <-. cbn [lrq_state lrq_requested waiting set_wait set_flags lbl_state with_requests].
        rewrite Hs. cbn [Z.eqb LCK_none].
        assert (E0 : lbl_pending_lrq_count lock = 0).
        { rewrite (inv_pending _ Hinv). unfold npending.
          destruct (List.filter lrq_pending (lbl_requests lock)) as [|z l] eqn:Ez; [done|].
          assert (Hz : In z (List.filter lrq_pending (lbl_requests lock))) by (rewrite Ez; by left).
          apply List.filter_In in Hz as [Hz1 Hz2]. pose proof (List.find_none _ _ Ey z Hz1). congruence. }
        rewrite E0, orb_true_r, andb_true_r in Eb. done.
    + right. exists x. split; [|done]. rewrite Er. apply elem_of_middle. right. by rewrite app_nil_r.
Qed.

Lemma LOCK_enq_good ordering id owner type data lck_wait lock :
  level_ok type = true -> good_result ordering lock ->
  match lock with
  | Some lock => Z.of_nat (length (lbl_requests lock)) < 65535 /\ id ∉ ids (lbl_requests lock)
  | None => True
  end ->
  good_result ordering (LOCK_enq ordering id owner type data lck_wait lock).1.
Proof.
  intros Ht Hg Hnew. unfold level_ok, LCK_null, LCK_EX in Ht. apply andb_true_iff in Ht as [H1 H2].
  apply Z.leb_le in H1, H2. destruct lock as [lock|]; cbn [LOCK_enq].
  - destruct Hnew as [Hl Hid]. by apply grant_or_que_good.
  - cbn [fst good_result]. set (r := mk_lrq _ _ _ _ _ _ _ _). set (lock := mk_lbl _ _ _ _ _ _).
    destruct (grant_ok lock [] r r []) as (Hinv & Er & _); try done.
    + constructor; first [done | apply list.Forall_nil_2 | apply base.NoDup_nil_2 |
        intros r1 r2 H; by apply not_elem_of_nil in H].
    + split; [done|]. intros l Hl. cbn [lock lbl_counts]. unfold count.
      assert (l = 1 \/ l = 2 \/ l = 3 \/ l = 4 \/ l = 5 \/ l = 6) as Hcase by lia.
      by destruct Hcase as [->|[->|[->|[->|[->| ->]]]]].
    + change (lock_state lock) with 0. cbn [r lrq_requested]. apply COMPATIBLE_none. lia.
    + split; [done|]. intros _. left. intros x Hx. rewrite Er in Hx. done.
Qed.

Lemma convert_good ordering lock pre r post type lck_wait :
  good ordering lock -> looking lock pre r post -> request_ok r -> lrq_wait r = Not_waiting ->
  1 <= type <= 6 -> good ordering (convert ordering r type lck_wait lock).1.
Proof.
  intros [Hinv Hfair] Hlook Hok Hw Ht. destruct (ok_idle r Hok Hw) as [Hp Hs].
  unfold convert. set (r1 := set_requested type r).
  assert (E1 : lbl_requests (update r1 lock) = pre ++ r1 :: post) by (by apply (update_looking _ pre r)).
  assert (Hok1 : request_ok r1).
  { destruct Hok. by constructor. }
  assert (Hlook1 : looking (update r1 lock) pre r1 post).
  { apply (looking_replace lock _ pre r); try done. cbn. by rewrite (look_pending _ _ _ _ Hlook), !npending_middle. }
  set (lock0 := update r1 lock) in *. pose proof (looking_inv _ _ _ _ Hlook1 Hok1) as Hinv1.
  destruct (counts_without lock0 pre r1 post Hinv1 E1) as [Hc Hback]; [done|].
  destruct (COMPATIBLE type (lock_state (add_count (lrq_state r1) (-1) lock0))) eqn:Ecomp; cbn [fst].
  - destruct (grant_ok (add_count (lrq_state r1) (-1) lock0) pre r1 r1 post) as (Hg & _); try done.
    + apply Hlook1.
    + cbn [lbl_pending_lrq_count add_count with_counts].
      rewrite (look_pending _ _ _ _ Hlook1), npending_middle. cbn [lrq_pending r1 set_requested]. rewrite Hp. lia.
    + cbn [lrq_wait r1 set_requested]. by rewrite Hw.
    + by apply post_pending_good.
  - rewrite Hback. destruct lck_wait.
    + change (lbl_converting lock0) with (lbl_converting lock). destruct (lbl_converting lock); cbn [fst].
      * split; [done|]. intros Hord. apply (fair_replace lock lock0 pre r r1 post); try done; [apply Hlook| |by left|by apply Hfair].
        cbn. by rewrite Hp.
      * assert (Hlook2 : looking (with_converting true lock0) pre r1 post) by (destruct Hlook1; by constructor).
        destruct (wait_for_request_ok ordering In_convert _ pre r1 post Hlook2 Hp) as (Hw' & Hcounts & Hst).
        { cbn. lia. }
        assert (Hrok : request_ok (waiting In_convert r1)) by (destruct Hok; constructor; cbn; done || lia).
        split; [by eapply looking_inv|]. intros Hord.
        apply (fair_replace lock _ pre r (waiting In_convert r1) post); try done; [apply Hlook|apply Hw'| |by left|by apply Hfair].
        intros _. unfold grantable. cbn [lrq_state lrq_requested waiting set_wait set_flags r1 set_requested].
        unfold LCK_none. rewrite (proj2 (Z.eqb_neq _ _)) by lia. unfold lock_state.
        cbn [lbl_counts add_count with_counts]. rewrite Hcounts. exact Ecomp.
    + cbn [fst]. set (r2 := set_requested (lrq_state r1) r1).
      assert (Hlook2 : looking (update r2 lock0) pre r2 post).
      { apply (looking_replace lock0 _ pre r1); try done; [by apply (update_looking _ pre r1)|].
        change (lbl_pending_lrq_count (update r2 lock0)) with (lbl_pending_lrq_count lock0).
        by rewrite (look_pending _ _ _ _ Hlook1), !npending_middle. }
      assert (Hok2 : request_ok r2).
      { destruct Hok. constructor; cbn; done || lia. }
      split; [by eapply looking_inv|]. intros Hord.
      apply (fair_replace lock _ pre r r2 post); try done; [apply Hlook|apply Hlook2| |by left|by apply Hfair].
      cbn. by rewrite Hp.
Qed.

Lemma lower_range fuel pending state : 0 <= state -> 0 <= lower fuel pending state <= state.
Proof.
  revert state; induction fuel as [|fuel IH]; intros state Hs; cbn [lower]; [lia|].
  unfold LCK_none. destruct (Z.gtb_spec state 0); cbn [andb]; [|lia].
  destruct (negb _); [|lia]. pose proof (IH (state - 1) ltac:(lia)). lia.
Qed.

Lemma LOCK_downgrade_good ordering lock pre r post :
  good ordering lock -> looking lock pre r post -> request_ok r -> lrq_wait r = Not_waiting ->
  good_result ordering (LOCK_downgrade ordering r lock).1.
Proof.
  intros Hg Hlook Hok Hw. unfold LOCK_downgrade.
  set (state := lower _ _ _). pose proof (ok_state r Hok) as Hs.
  pose proof (lower_range 7 (pending_level (lrq_id r) (lbl_requests lock) LCK_none) (lrq_state r) ltac:(lia)) as Hr.
  fold state in Hr. unfold LCK_none, LCK_null.
  destruct (Z.eqb_spec state 0), (Z.eqb_spec state 1); cbn [orb fst good_result];
    try by eapply release_request_good. eapply convert_good; try done. lia.
Qed.

Lemma reject_good ordering lock pre r post :
  good ordering lock -> looking lock pre r post -> request_ok r -> lrq_pending r = true ->
  good ordering (reject r lock).
Proof.
  intros [Hinv Hfair] Hlook Hok Hp. unfold reject, clearPending.
  set (r' := set_flags false true r).
  change (set_flags false (lrq_rejected (set_flags true true r)) (set_flags true true r)) with r'.
  pose proof (look_others _ _ _ _ Hlook) as Ho.
  assert (E : lbl_requests (update r' lock) = pre ++ r' :: post) by (by apply (update_looking _ pre r)).
  assert (Hok' : request_ok r').
  { destruct Hok. constructor; cbn; try done.
    - intros H. destruct (ok_idle0 H). congruence.
    - intros H. specialize (ok_enq0 H). by rewrite Hp in ok_enq0. }
  set (lock' := with_pending_count _ _).
  assert (Hlook' : looking lock' pre r' post).
  { apply (looking_replace lock _ pre r); try done. cbn [lock' lbl_pending_lrq_count with_pending_count update with_requests].
    rewrite (look_pending _ _ _ _ Hlook), !npending_middle, Hp. cbn [lrq_pending r' set_flags].
    pose proof (npending_le (pre ++ post)). pose proof (others_length _ _ _ Ho). rewrite USHORT_small; lia. }
  split; [by eapply looking_inv|]. intros _. right. exists r'. split; [rewrite (look_requests _ _ _ _ Hlook'); apply elem_of_middle; by left|].
  split; [|done]. cbn. intros H. destruct (ok_idle r Hok H). congruence.
Qed.

Lemma resume_good ordering lock pre r post :
  good ordering lock -> looking lock pre r post -> request_ok r ->
  lrq_wait r <> Not_waiting -> lrq_pending r = false ->
  good_result ordering (resume ordering r lock).1.
Proof.
  intros [Hinv Hfair] Hlook Hok Hw Hp. unfold resume. set (r' := set_wait Not_waiting r).
  assert (E : lbl_requests (update r' lock) = pre ++ r' :: post) by (by apply (update_looking _ pre r)).
  assert (Hlook' : looking (update r' lock) pre r' post).
  { apply (looking_replace lock _ pre r); try done. cbn. by rewrite (look_pending _ _ _ _ Hlook), !npending_middle. }
  assert (Hkeep : lrq_rejected r = false -> forall lock', lbl_requests lock' = pre ++ r' :: post ->
    lbl_counts lock' = lbl_counts lock -> lbl_state lock' = lbl_state lock -> inv lock' -> good ordering lock').
  { intros Hrej lock' E' Ec Es Hinv'. split; [done|]. intros Hord.
    apply (fair_replace lock lock' pre r r' post); try done; [apply Hlook| |by right|by apply Hfair]. cbn. by rewrite Hp. }
  assert (Hok' : 1 <= lrq_state r -> request_ok r') by (intros Hs; destruct Hok; constructor; cbn; done).
  destruct (lrq_wait r) eqn:Ew; [done| |].
  - pose proof (ok_enq r Hok Ew) as Hs. rewrite Hp in Hs. cbn [orb] in Hs.
    destruct (lrq_rejected r) eqn:Er; cbn [negb fst]; [by eapply release_request_good|].
    cbn [good_result]. apply Hkeep; try done. eapply looking_inv; [done|auto].
  - pose proof (ok_convert r Hok Ew) as Hs. specialize (Hok' Hs).
    assert (Hlook2 : looking (with_converting false (update r' lock)) pre r' post) by (destruct Hlook'; by constructor).
    assert (Hinv2 : inv (with_converting false (update r' lock))) by (by eapply looking_inv).
    destruct (lrq_rejected r) eqn:Er; cbn [negb fst good_result]; [|by apply Hkeep].
    destruct (post_pending_ok ordering _ Hinv2) as [Hadv Hq].
    set (lock3 := post_pending ordering _) in *.
    assert (Hin : r' ∈ lbl_requests lock3).
    { apply (adv_kept _ _ Hadv); [|done]. rewrite (look_requests _ _ _ _ Hlook2). apply elem_of_middle. by left. }
    apply list_elem_of_split in Hin as (pre3 & post3 & E3).
    destruct (inv_looking lock3 pre3 r' post3 (adv_inv _ _ Hadv) E3) as [Hlook3 _].
    set (r2 := set_requested (lrq_state r) r').
    assert (Hlook4 : looking (update r2 lock3) pre3 r2 post3).
    { apply (looking_replace lock3 _ pre3 r'); try done; [by apply (update_looking _ pre3 r')|].
      change (lbl_pending_lrq_count (update r2 lock3)) with (lbl_pending_lrq_count lock3).
      by rewrite (look_pending _ _ _ _ Hlook3), !npending_middle. }
    assert (Hok2 : request_ok r2).
    { destruct Hok. constructor; cbn; done || lia. }
    split; [by eapply looking_inv|]. intros Hord.
    apply (fair_replace lock3 _ pre3 r' r2 post3); try done; [apply Hlook4| |by left|left; auto].
    cbn. by rewrite Hp.
Qed.

(** *** Every reachable lock *)

Lemma act_on_good ordering id guard f lock lock' reply :
  act_on id guard f lock = Some (lock', reply) -> good_result ordering lock ->
  (forall l pre r post, lock = Some l -> good ordering l -> looking l pre r post -> request_ok r ->
    guard r = true -> good_result ordering (f r l).1) ->
  good_result ordering lock'.
Proof.
  intros H Hg Hf. unfold act_on in H. destruct lock as [l|]; [|done].
  destruct (get id (lbl_requests l)) as [r|] eqn:E; [|done]. destruct (guard r) eqn:Eg; [|done].
  injection H as H. destruct (get_split _ _ _ E) as (pre & post & Er & _).
  destruct (inv_looking l pre r post (proj1 Hg) Er) as [Hlook Hok].
  pose proof (Hf l pre r post eq_refl Hg Hlook Hok Eg) as Hres. by rewrite H in Hres.
Qed.

Lemma step_good ordering a lock lock' reply :
  step ordering a lock = Some (lock', reply) -> good_result ordering lock -> good_result ordering lock'.
Proof.
  intros H Hg. assert (Hidle : forall r, idle r = true -> lrq_wait r = Not_waiting).
  { intros r Hi. by apply bool_decide_eq_true in Hi. }
  destruct a as [id owner type data w|id|id type w|id|id|id|id]; cbn [step] in H.
  - destruct (level_ok type && _) eqn:E; [|done]. apply andb_true_iff in E as [Ht E].
    injection H as H. pose proof (LOCK_enq_good ordering id owner type data w lock Ht Hg) as Hres.
    rewrite H in Hres. apply Hres. destruct lock as [l|]; [|done].
    apply andb_true_iff in E as [E1 E2]. apply Z.ltb_lt in E1. apply bool_decide_eq_true in E2. done.
  - eapply act_on_good; [exact H|done|]. intros l pre r post _ _ Hlook _ _. by eapply release_request_good.
  - eapply act_on_good; [exact H|done|]. cbn beta. intros l pre r post _ Hgl Hlook Hok Hgd.
    apply andb_true_iff in Hgd as [Hi Ht]. unfold level_ok, LCK_null, LCK_EX in Ht.
    apply andb_true_iff in Ht as [H1 H2]. apply Z.leb_le in H1, H2.
    pose proof (convert_good ordering l pre r post type w Hgl Hlook Hok (Hidle r Hi) ltac:(lia)) as Hres.
    by destruct (convert ordering r type w l).
  - eapply act_on_good; [exact H|done|]. intros l pre r post _ Hgl Hlook Hok Hi.
    eapply LOCK_downgrade_good; eauto.
  - eapply act_on_good; [exact H|done|]. intros l pre r post _ Hgl Hlook Hok Hp. by eapply reject_good.
  - eapply act_on_good; [exact H|done|]. cbn beta. intros l pre r post _ Hgl Hlook Hok Hgd.
    apply andb_true_iff in Hgd as [Hi Hp]. apply negb_true_iff in Hp, Hi. eapply resume_good; try done.
    intros Hw. unfold idle in Hi. by rewrite bool_decide_true in Hi.
  - eapply act_on_good; [exact H|done|]. intros l pre r post _ _ Hlook _ _. by eapply release_request_good.
Qed.

Lemma reachable_good ordering lock : reachable ordering lock -> good_result ordering lock.
Proof. induction 1 as [|a lock lock' reply _ IH H]; [done|by eapply step_good]. Qed.

(** ** Theorems *)

(** C2: Granted locks are compatible: in every sequence of operations of any
    number of owners, with or without grant ordering, two different requests
    of a lock hold compatible levels; beside an exclusive one there are only
    null locks.  The code compares with the highest level only. *)
Theorem granted_compatible ordering lock r1 r2 :
  reachable ordering (Some lock) -> r1 ∈ lbl_requests lock -> r2 ∈ lbl_requests lock ->
  lrq_id r1 <> lrq_id r2 ->
  COMPATIBLE (lrq_state r1) (lrq_state r2) = true /\
  (lrq_state r1 = LCK_EX -> lrq_state r2 <= LCK_null).
Proof.
  intros Hr H1 H2 Hne. destruct (reachable_good _ _ Hr) as [Hinv _].
  pose proof (inv_compat _ Hinv r1 r2 H1 H2 Hne) as Hc. split; [done|]. intros E. rewrite E in Hc.
  pose proof (inv_requests _ Hinv) as Hok. rewrite list.Forall_forall in Hok.
  pose proof (ok_state _ (Hok r2 H2)). unfold LCK_null.
  destruct (Z.le_gt_cases (lrq_state r2) 1); [done|exfalso].
  assert (lrq_state r2 = 2 \/ lrq_state r2 = 3 \/ lrq_state r2 = 4 \/ lrq_state r2 = 5 \/ lrq_state r2 = 6)
    as Hcase by lia.
  by destruct Hcase as [E2|[E2|[E2|[E2|E2]]]]; rewrite E2 in Hc.
Qed.

(** The lock block describes its queue: the counts are the numbers of
    requests at each level, the state is the highest level that is held, the
    pending count is the number of requests that wait, and offsets are
    unique. *)
Theorem lock_block_describes_queue ordering lock :
  reachable ordering (Some lock) ->
  NoDup (map lrq_id (lbl_requests lock)) /\
  (forall level, 1 <= level <= 6 ->
     count (lbl_counts lock) level = Z.of_nat (nstate level (lbl_requests lock))) /\
  (forall r, r ∈ lbl_requests lock -> lrq_state r <= lbl_state lock) /\
  (1 <= lbl_state lock -> exists r, r ∈ lbl_requests lock /\ lrq_state r = lbl_state lock) /\
  lbl_pending_lrq_count lock = Z.of_nat (npending (lbl_requests lock)).
Proof.
  intros Hr. destruct (reachable_good _ _ Hr) as [Hinv _].
  destruct (lock_state_spec (lbl_requests lock) lock (inv_counts _ Hinv) (inv_requests _ Hinv)) as (_ & H2 & H3).
  rewrite <-(inv_state _ Hinv) in H2, H3.
  split; [apply Hinv|]. split; [apply (inv_counts _ Hinv)|]. split; [done|]. split; [done|]. apply Hinv.
Qed.

(** C19: No grant is lost at the head of the queue: with grant ordering, and
    once rejected requests have been cleaned up, the first request that waits
    is in conflict with a request that holds the lock. *)
Theorem first_waiter_blocked lock r :
  reachable true (Some lock) ->
  (forall x, x ∈ lbl_requests lock -> lrq_wait x = Not_waiting \/ lrq_pending x = true \/ lrq_rejected x = false) ->
  List.find lrq_pending (lbl_requests lock) = Some r ->
  exists x, x ∈ lbl_requests lock /\ lrq_id x <> lrq_id r /\
    COMPATIBLE (lrq_requested r) (lrq_state x) = false.
Proof.
  intros Hr Hclean Hfind. destruct (reachable_good _ _ Hr) as [Hinv Hfair].
  destruct (Hfair eq_refl) as [Hq|(x & Hx & H1 & H2 & H3)].
  2: { exfalso. destruct (Hclean x Hx) as [|[|]]; congruence. }
  specialize (Hq r Hfind). apply List.find_some in Hfind as [Hin Hp].
  apply list_elem_of_In, list_elem_of_split in Hin as (pre & post & E).
  destruct (inv_others _ _ _ _ Hinv E) as [Ho Hok].
  set (lock1 := if lrq_state r =? LCK_none then lock else add_count (lrq_state r) (-1) lock).
  assert (Hc : counts_of (pre ++ post) (lbl_counts lock1)).
  { pose proof (ok_state r Hok). unfold lock1, LCK_none. destruct (Z.eqb_spec (lrq_state r) 0) as [Es|Es].
    - apply (counts_of_none _ pre r post Es). rewrite <-E. apply Hinv.
    - by apply counts_without; [| |lia]. }
  assert (Hg : COMPATIBLE (lrq_requested r) (lock_state lock1) = false).
  { unfold grantable in Hq. unfold lock1. rewrite (inv_state _ Hinv) in Hq. by destruct (_ =? _). }
  destruct (lock_state_spec _ lock1 Hc (others_ok _ _ _ Ho)) as (H1 & H2 & _).
  destruct (Z.eq_dec (lock_state lock1) 0) as [E0|E0].
  { rewrite E0, COMPATIBLE_none in Hg; [done|]. pose proof (ok_requested r Hok). lia. }
  destruct (H2 ltac:(lia)) as (x & Hx & Ex). exists x. rewrite E, Ex. split; [apply elem_of_middle; by right|].
  split; [|done]. pose proof (others_ids _ _ _ Ho) as Hi. rewrite list.Forall_forall in Hi. by apply Hi.
Qed.

(** A new request is granted at once exactly when it is compatible with
    every request that holds the lock and, with grant ordering, nobody waits
    or it is for a null lock; otherwise it waits, or is refused if it must
    not. *)
Theorem LOCK_enq_spec ordering id owner type data lck_wait lock :
  reachable ordering (Some lock) -> 1 <= type <= 6 ->
  let reply := (LOCK_enq ordering id owner type data lck_wait (Some lock)).2 in
  (reply = Granted <->
    Forall (fun r => COMPATIBLE type (lrq_state r) = true) (lbl_requests lock) /\
    (ordering = true -> type <> LCK_null -> Forall (fun r => lrq_pending r = false) (lbl_requests lock))) /\
  (reply <> Granted -> reply = if lck_wait then Waiting else Denied).
Proof.
  intros Hr Ht. destruct (reachable_good _ _ Hr) as [Hinv _]. cbn zeta.
  cbn [LOCK_enq]. unfold grant_or_que. cbn [lbl_state lbl_pending_lrq_count with_requests lrq_requested].
  destruct (lock_state_spec (lbl_requests lock) lock (inv_counts _ Hinv) (inv_requests _ Hinv)) as (Hm & H2 & H3).
  rewrite <-(inv_state _ Hinv) in H2, H3, Hm.
  assert (Hcomp : COMPATIBLE type (lbl_state lock) = true <->
    Forall (fun r => COMPATIBLE type (lrq_state r) = true) (lbl_requests lock)).
  { split.
    - intros Hc. apply (compatible_others _ lock); try apply Hinv; [lia|]. by rewrite <-(inv_state _ Hinv).
    - intros Hall. rewrite list.Forall_forall in Hall.
      destruct (Z.eq_dec (lbl_state lock) 0) as [->|E0]; [apply COMPATIBLE_none; lia|].
      destruct (H2 ltac:(lia)) as (x & Hx & <-). by apply Hall. }
  assert (Hnone : (lbl_pending_lrq_count lock =? 0) = true <->
    Forall (fun r => lrq_pending r = false) (lbl_requests lock)).
  { rewrite Z.eqb_eq, (inv_pending _ Hinv), <-npending_zero. lia. }
  unfold LCK_null in *.
  destruct (COMPATIBLE type (lbl_state lock) && _) eqn:Eb; cbn [snd].
  - apply andb_true_iff in Eb as [E1 E2]. split; [|done]. split; [intros _|done]. split; [by apply Hcomp|].
    intros -> Hne. apply Hnone. rewrite (proj2 (Z.eqb_neq _ _)) in E2 by done. done.
  - split; [|by destruct lck_wait]. split; [by destruct lck_wait|]. intros [Hall Hpend]. exfalso.
    apply Hcomp in Hall. rewrite Hall in Eb. cbn [andb] in Eb.
    destruct ordering; cbn [negb orb] in Eb; [|done]. apply orb_false_iff in Eb as [E1 E2].
    apply Z.eqb_neq in E1. apply Hnone in Hpend; [congruence|done..].
Qed.

(** Owner 1 holds the lock for shared write, owner 2 waits for a protected
    read, owner 3 gets a null lock, converts it to shared write and then
    waits for a conversion to protected read; owner 1 leaves. *)
Definition stuck : list action := [
  A_enq 1 1 LCK_SW 0 false; A_enq 2 2 LCK_PR 0 true; A_enq 3 3 LCK_null 0 false;
  A_convert 3 LCK_SW false; A_convert 3 LCK_PR true; A_deq 1 ].

(** Two shared writers, and a request for protected read that waits. *)
Definition two_writers : list action := [
  A_enq 1 1 LCK_SW 0 false; A_enq 2 2 LCK_SW 0 false; A_enq 3 3 LCK_PR 0 true ].

Lemma run_reachable ordering l lock lock' :
  reachable ordering lock -> run ordering l lock = Some lock' -> reachable ordering lock'.
Proof.
  revert lock; induction l as [|a l IH]; intros lock Hr H; cbn [run] in H; [by injection H as <-|].
  destruct (step ordering a lock) as [[lock1 reply]|] eqn:E; [|done].
  apply (IH lock1); [by eapply reachable_step|done].
Qed.

(** With grant ordering a conversion can wait for nobody: there is a
    reachable lock whose only holder waits for a conversion that nothing
    stands in the way of, behind a request that waits for this holder; each
    waits until the other one moves. *)
Theorem conversion_waits_for_nobody :
  exists lock holder waiter, reachable true (Some lock) /\ lbl_requests lock = [waiter; holder] /\
    lrq_pending holder = true /\ lrq_wait holder = In_convert /\ lrq_pending waiter = true /\
    lrq_state waiter = LCK_none /\ lrq_state holder = LCK_SW /\
    COMPATIBLE (lrq_requested waiter) (lrq_state holder) = false /\
    grantable holder lock = true /\ post_pending true lock = lock.
Proof.
  destruct (run true stuck None) as [[lock|]|] eqn:E; [|vm_compute in E; discriminate..].
  exists lock. pose proof (run_reachable true stuck None _ (reachable_start true) E) as Hr.
  vm_compute in E. injection E as E. rewrite <-E in *. eexists _, _. split; [exact Hr|].
  split; [reflexivity|]. repeat (split; [reflexivity|]). vm_compute. reflexivity.
Qed.

(** [LOCK_downgrade] may report a level that the request does not have:
    it chooses the highest level that the waiting requests allow, and
    ignores that the conversion to it fails when another holder is in
    conflict with that level. *)
Theorem downgrade_reports_wrong_level :
  exists lock lock' r r', reachable true (Some lock) /\ get 1 (lbl_requests lock) = Some r /\
    lrq_wait r = Not_waiting /\
    LOCK_downgrade true r lock = (Some lock', Level LCK_PR) /\
    get 1 (lbl_requests lock') = Some r' /\ lrq_state r' = LCK_SW.
Proof.
  destruct (run true two_writers None) as [[lock|]|] eqn:E; [|vm_compute in E; discriminate..].
  exists lock. pose proof (run_reachable true two_writers None _ (reachable_start true) E) as Hr.
  vm_compute in E. injection E as E. rewrite <-E in *. eexists _, _, _. split; [exact Hr|].
  split; [reflexivity|]. split; [reflexivity|]. split; [vm_compute; reflexivity|].
  split; [vm_compute; reflexivity|reflexivity].
Qed.

(** *** The deadlock scan *)

Section deadlock.
Context (ordering : bool) (tbl : table).

(** [b] waits, and its owner stands in the way of [a]. *)
Definition waits_for (a b : nat) : Prop :=
  exists r lock block, find_request (tbl_locks tbl) a = Some (r, lock) /\
    block ∈ blockers ordering r (lbl_requests lock) /\ own_busy tbl (lrq_owner block) = false /\
    b ∈ own_pending tbl (lrq_owner block) /\ pending_target tbl b = true.

(** The marked requests are a path that ends at the one looked at. *)
Fixpoint path (l : list nat) : Prop :=
  match l with
  | b :: l => match l with a :: _ => waits_for a b | [] => True end /\ path l
  | [] => True
  end.

(** Scanned requests wait for requests that were scanned before them. *)
Fixpoint scanned (l : list nat) : Prop :=
  match l with
  | [] => True
  | a :: l => (forall b, waits_for a b -> b ∈ l) /\ (a ∉ l) /\ scanned l
  end.

Definition all_ids : list nat := map lrq_id (concat (map lbl_requests (tbl_locks tbl))).

Record marked (m : marks) : Prop := {
  marked_path : path (m_deadlock m);
  marked_nodup : NoDup (m_deadlock m);
  marked_ids a : a ∈ m_deadlock m -> a ∈ all_ids;
  marked_scanned : scanned (m_scanned m);
  marked_apart a : a ∈ m_deadlock m -> a ∉ m_scanned m
}.

Lemma path_rtc l b a : path (b :: l) -> a ∈ b :: l -> rtc waits_for a b.
Proof.
  revert b; induction l as [|c l IH]; intros b Hp Ha.
  - apply list_elem_of_singleton in Ha as ->. constructor.
  - destruct Hp as [Hw Hp]. apply elem_of_cons in Ha as [->|Ha]; [constructor|].
    eapply rtc_r; [by apply IH|done].
Qed.

Lemma scanned_step l a b : scanned l -> a ∈ l -> waits_for a b -> b ∈ l.
Proof.
  induction l as [|c l IH]; intros Hs Ha Hw; [by apply not_elem_of_nil in Ha|].
  destruct Hs as (H1 & H2 & H3). apply elem_of_cons in Ha as [->|Ha]; right; auto.
Qed.

Lemma scanned_tc l a b : scanned l -> a ∈ l -> tc waits_for a b -> b ∈ l.
Proof. intros Hs Ha Hw. induction Hw as [a b Hw|a b c Hw _ IH]; [|apply IH]; by eapply scanned_step. Qed.

(** No cycle goes through a scanned request. *)
Lemma scanned_acyclic l a : scanned l -> a ∈ l -> ~ tc waits_for a a.
Proof.
  induction l as [|c l IH]; intros Hs Ha Hc; [by apply not_elem_of_nil in Ha|].
  destruct Hs as (H1 & H2 & H3). apply elem_of_cons in Ha as [->|Ha]; [|by apply (IH H3 Ha)].
  apply H2. inversion Hc as [? ? Hw|? b ? Hw Hrest]; subst; [by apply H1|].
  eapply scanned_tc; [exact H3|by apply H1|done].
Qed.

Lemma find_request_id id r lock :
  find_request (tbl_locks tbl) id = Some (r, lock) -> id ∈ all_ids.
Proof.
  unfold all_ids. induction (tbl_locks tbl) as [|l locks IH]; [done|]. cbn [find_request map concat].
  rewrite map_app, elem_of_app. destruct (get id (lbl_requests l)) as [x|] eqn:E; [|by right; apply IH].
  intros [= -> ->]. left. apply List.find_some in E as [Hin Hid]. apply Nat.eqb_eq in Hid as <-.
  apply (list_elem_of_fmap_2 lrq_id). by apply list_elem_of_In.
Qed.

Lemma pending_target_found t : pending_target tbl t = true -> is_Some (find_request (tbl_locks tbl) t).
Proof. unfold pending_target. destruct (find_request _ t) as [[r lock]|]; [by eexists|done]. Qed.

(** What a walk from a request achieves, starting at marks [m]. *)
Definition walk_result (m : marks) (id : nat) (res : option (option nat * marks)) : Prop :=
  match res with
  | Some (Some v, _) => rtc waits_for id v /\ tc waits_for v v
  | Some (None, m') =>
      m_deadlock m' = m_deadlock m /\ marked m' /\ (forall a, a ∈ m_scanned m -> a ∈ m_scanned m') /\
      id ∈ m_scanned m'
  | None => False
  end.

(** What the loops of one request [id] achieve: all it waits for through
    [ts] is scanned. *)
Definition loop_result (m : marks) (id : nat) (done : nat -> Prop) (res : option (option nat * marks)) : Prop :=
  match res with
  | Some (Some v, _) => rtc waits_for id v /\ tc waits_for v v
  | Some (None, m') =>
      m_deadlock m' = m_deadlock m /\ marked m' /\ (forall a, a ∈ m_scanned m -> a ∈ m_scanned m') /\
      (forall t, done t -> t ∈ m_scanned m')
  | None => False
  end.

Section loops.
Context (walk : nat -> marks -> option (option nat * marks)) (id : nat) (p : list nat).
Context (Hwalk : forall t m, marked m -> m_deadlock m = id :: p -> waits_for id t -> walk_result m t (walk t m)).

Lemma walk_pending_ok block r lock ts m :
  find_request (tbl_locks tbl) id = Some (r, lock) -> block ∈ blockers ordering r (lbl_requests lock) ->
  own_busy tbl (lrq_owner block) = false -> (forall t, t ∈ ts -> t ∈ own_pending tbl (lrq_owner block)) ->
  marked m -> m_deadlock m = id :: p ->
  loop_result m id (fun t => t ∈ ts /\ pending_target tbl t = true) (walk_pending walk tbl ts m).
Proof using Hwalk.
  intros Hf Hb Hbusy. revert m. induction ts as [|t ts IH]; intros m Hts Hm Hp; cbn [walk_pending].
  { cbn. split_and!; try done. intros t [Ht _]. by apply not_elem_of_nil in Ht. }
  assert (Hts' : forall x, x ∈ ts -> x ∈ own_pending tbl (lrq_owner block)) by (intros x Hx; apply Hts; by right).
  destruct (pending_target tbl t) eqn:Et.
  - assert (Hw : waits_for id t).
    { exists r, lock, block. split_and!; try done. apply Hts. left. }
    pose proof (Hwalk t m Hm Hp Hw) as Hres. destruct (walk t m) as [[[v|] m1]|]; [| |done]; cbn in Hres.
    + destruct Hres as [H1 H2]. split; [|done]. by eapply rtc_l.
    + destruct Hres as (H1 & H2 & H3 & H4). specialize (IH m1 Hts' H2 ltac:(by rewrite H1)).
      destruct (walk_pending walk tbl ts m1) as [[[v|] m2]|]; [done| |done]. cbn in *.
      destruct IH as (E & Hm2 & Hk & Hd). split; [by rewrite E|]. split; [done|]. split; [auto|].
      intros x [Hx Hxp]. apply elem_of_cons in Hx as [->|Hx]; auto.
  - specialize (IH m Hts' Hm Hp). destruct (walk_pending walk tbl ts m) as [[[v|] m2]|]; [done| |done]. cbn in *.
    destruct IH as (E & Hm2 & Hk & Hd). split_and!; try done.
    intros x [Hx Hxp]. apply elem_of_cons in Hx as [->|Hx]; [congruence|auto].
Qed.

Lemma walk_blocks_ok r lock bs m :
  find_request (tbl_locks tbl) id = Some (r, lock) ->
  (forall b, b ∈ bs -> b ∈ blockers ordering r (lbl_requests lock)) ->
  marked m -> m_deadlock m = id :: p ->
  loop_result m id (fun t => exists b, b ∈ bs /\ own_busy tbl (lrq_owner b) = false /\
    t ∈ own_pending tbl (lrq_owner b) /\ pending_target tbl t = true) (walk_blocks walk tbl bs m).
Proof using Hwalk.
  intros Hf. revert m. induction bs as [|b bs IH]; intros m Hbs Hm Hp; cbn [walk_blocks].
  { cbn. split_and!; try done. intros t (b & Hb & _). by apply not_elem_of_nil in Hb. }
  assert (Hbs' : forall x, x ∈ bs -> x ∈ blockers ordering r (lbl_requests lock)) by (intros x Hx; apply Hbs; by right).
  destruct (own_busy tbl (lrq_owner b)) eqn:Eb.
  - set (m1 := mk_marks _ _ _). assert (Hm1 : marked m1) by (destruct Hm; by constructor).
    specialize (IH m1 Hbs' Hm1 Hp). destruct (walk_blocks walk tbl bs m1) as [[[v|] m2]|]; [done| |done]. cbn in *.
    destruct IH as (E & Hm2 & Hk & Hd). split_and!; try done.
    intros t (x & Hx & Hbx & Ht). apply elem_of_cons in Hx as [->|Hx]; [congruence|]. apply Hd. by exists x.
  - pose proof (walk_pending_ok b r lock (own_pending tbl (lrq_owner b)) m Hf ltac:(apply Hbs; by left) Eb
      ltac:(done) Hm Hp) as Hres.
    destruct (walk_pending walk tbl _ m) as [[[v|] m1]|]; [done| |done]. cbn in Hres.
    destruct Hres as (H1 & H2 & H3 & H4). specialize (IH m1 Hbs' H2 ltac:(by rewrite H1)).
    destruct (walk_blocks walk tbl bs m1) as [[[v|] m2]|]; [done| |done]. cbn in *.
    destruct IH as (E & Hm2 & Hk & Hd). split; [by rewrite E|]. split; [done|]. split; [auto|].
    intros t (x & Hx & Hbx & Ht & Hpt). apply elem_of_cons in Hx as [->|Hx]; [auto|]. apply Hd. by exists x.
Qed.
End loops.

Lemma path_length m : marked m -> (length (m_deadlock m) <= length all_ids)%nat.
Proof. intros [_ Hn Hi _ _]. apply submseteq_length, NoDup_submseteq; [done|]. intros a Ha. by apply Hi. Qed.

Lemma deadlock_walk_ok fuel id m :
  marked m -> match m_deadlock m with a :: _ => waits_for a id | [] => True end ->
  is_Some (find_request (tbl_locks tbl) id) ->
  (length all_ids < fuel + length (m_deadlock m))%nat ->
  walk_result m id (deadlock_walk fuel ordering tbl id m).
Proof.
  revert id m. induction fuel as [|fuel IH]; intros id m Hm Hhead [[r lock] Hf] Hfuel.
  { pose proof (path_length m Hm). lia. }
  cbn [deadlock_walk]. destruct (bool_decide (id ∈ m_scanned m)) eqn:E1.
  { apply bool_decide_eq_true in E1. done. }
  apply bool_decide_eq_false in E1. destruct (bool_decide (id ∈ m_deadlock m)) eqn:E2.
  { apply bool_decide_eq_true in E2. cbn. split; [constructor|].
    destruct (m_deadlock m) as [|a l] eqn:E; [by apply not_elem_of_nil in E2|].
    pose proof (marked_path m Hm) as Hp. rewrite E in Hp.
    eapply tc_rtc_l; [by eapply path_rtc|by constructor]. }
  apply bool_decide_eq_false in E2. rewrite Hf.
  set (m1 := mk_marks (id :: m_deadlock m) (m_scanned m) (maybe_deadlock m)).
  assert (Hm1 : marked m1).
  { destruct Hm as [H1 H2 H3 H4 H5]. constructor; cbn [m1 m_deadlock m_scanned].
    - by split.
    - by apply list.NoDup_cons.
    - intros a [->|Ha]%elem_of_cons; [by eapply find_request_id|auto].
    - done.
    - intros a [->|Ha]%elem_of_cons; auto. }
  assert (Hwalk : forall t m', marked m' -> m_deadlock m' = id :: m_deadlock m -> waits_for id t ->
    walk_result m' t (deadlock_walk fuel ordering tbl t m')).
  { intros t m' Hm' Ed Hw. apply IH; [done|by rewrite Ed| |rewrite Ed; cbn [length]; lia].
    destruct Hw as (? & ? & ? & _ & _ & _ & _ & Ht). by apply pending_target_found. }
  pose proof (walk_blocks_ok _ id (m_deadlock m) Hwalk r lock (blockers ordering r (lbl_requests lock)) m1 Hf
    ltac:(done) Hm1 eq_refl) as Hres.
  destruct (walk_blocks _ tbl _ m1) as [[[v|] m2]|]; [done| |done]. cbn in Hres |- *.
  destruct Hres as (Ed & Hm2 & Hk & Hd).
  assert (Eold : List.filter (fun x => negb (x =? id)%nat) (m_deadlock m2) = m_deadlock m).
  { rewrite Ed. cbn [List.filter]. rewrite Nat.eqb_refl. cbn [negb]. clear -E2.
    induction (m_deadlock m) as [|x l IHl]; [done|]. apply not_elem_of_cons in E2 as [H1 H2]. cbn [List.filter].
    rewrite (proj2 (Nat.eqb_neq x id)) by congruence. cbn [negb]. by rewrite IHl. }
  rewrite Eold. split; [done|]. pose proof Hm2 as [H1 H2 H3 H4 H5].
  rewrite Ed in H1, H2, H3, H5. split; [|split; [intros a Ha; right; auto|left]].
  constructor; cbn [m_deadlock m_scanned].
  - apply H1.
  - by apply list.NoDup_cons in H2 as [_ H2].
  - intros a Ha. apply H3. by right.
  - split; [|split; [apply H5; by left|done]].
    intros b (r' & lock' & block & Hf' & Hb & Hbusy & Hp & Ht). rewrite Hf in Hf'. injection Hf' as <- <-.
    apply Hd. by exists block.
  - intros a Ha. apply not_elem_of_cons. split; [by intros ->|]. apply H5. by right.
Qed.

End deadlock.

(** C24: The deadlock scan of a request returns, and its answer is exact: it
    names a victim that waits, directly or through others, for itself, and
    names one whenever the request waits for such a cycle. Owners that still
    have notifications to process are taken not to stand in the way. *)
Theorem deadlock_scan_exact ordering tbl id :
  exists victim scanned_flag, deadlock_scan ordering tbl id = Some (victim, scanned_flag) /\
    match victim with
    | Some v => rtc (waits_for ordering tbl) id v /\ tc (waits_for ordering tbl) v v
    | None => forall v, rtc (waits_for ordering tbl) id v -> ~ tc (waits_for ordering tbl) v v
    end.
Proof.
  unfold deadlock_scan. set (m := mk_marks [] [] false).
  assert (Hm : marked ordering tbl m).
  { constructor; cbn; first [done | apply base.NoDup_nil_2 | intros a Ha; by apply not_elem_of_nil in Ha]. }
  destruct (find_request (tbl_locks tbl) id) as [[r lock]|] eqn:E.
  - pose proof (deadlock_walk_ok ordering tbl (S (S (length (concat (map lbl_requests (tbl_locks tbl)))))) id m
      Hm I ltac:(by eexists)) as Hres.
    specialize (Hres ltac:(unfold all_ids; rewrite length_map; cbn; lia)).
    destruct (deadlock_walk _ _ _ _ _) as [[[v|] m']|]; [by eexists _, _| |done].
    eexists _, _. split; [done|]. destruct Hres as (_ & Hm' & _ & Hid). intros v Hv Hc.
    apply (scanned_acyclic ordering tbl (m_scanned m') v); [apply Hm'| |done].
    clear -Hm' Hid Hv. induction Hv as [x|x y z Hxy _ IH]; [done|]. apply IH.
    eapply scanned_step; [apply Hm'|exact Hid|done].
  - cbn [deadlock_walk]. rewrite !bool_decide_false by apply not_elem_of_nil. rewrite E.
    eexists _, _. split; [done|]. intros v Hv Hc.
    assert (v = id) as ->.
    { inversion Hv as [|? y ? Hw]; [done|]. destruct Hw as (? & ? & ? & Hw & _). congruence. }
    inversion Hc as [? ? Hw|? y ? Hw]; subst; destruct Hw as (? & ? & ? & Hw & _); congruence.
Qed.

(** ** Concrete locks *)

Definition ex_lock : LockBlock :=
  match run true two_writers None with
  | Some (Some lock) => lock
  | _ => mk_lbl 0 [] 0 false 0 []
  end.

Lemma ex_reachable : reachable true (Some ex_lock).
Proof. apply (run_reachable true two_writers None); [constructor|vm_compute; reflexivity]. Qed.

Definition ex_request (n : nat) : LockRequest :=
  default (mk_lrq 0 0 0 0 false false 0 Not_waiting) (lbl_requests ex_lock !! n).

Lemma granted_compatible_witness :
  COMPATIBLE (lrq_state (ex_request 0)) (lrq_state (ex_request 1)) = true /\
  (lrq_state (ex_request 0) = LCK_EX -> lrq_state (ex_request 1) <= LCK_null).
Proof.
  apply (granted_compatible true ex_lock (ex_request 0) (ex_request 1) ex_reachable).
  - vm_compute. left.
  - vm_compute. right. left.
  - vm_compute. discriminate.
Defined.

Lemma lock_block_describes_queue_witness :
  NoDup (map lrq_id (lbl_requests ex_lock)) /\
  (forall level, 1 <= level <= 6 ->
     count (lbl_counts ex_lock) level = Z.of_nat (nstate level (lbl_requests ex_lock))) /\
  (forall r, r ∈ lbl_requests ex_lock -> lrq_state r <= lbl_state ex_lock) /\
  (1 <= lbl_state ex_lock -> exists r, r ∈ lbl_requests ex_lock /\ lrq_state r = lbl_state ex_lock) /\
  lbl_pending_lrq_count ex_lock = Z.of_nat (npending (lbl_requests ex_lock)).
Proof. apply (lock_block_describes_queue true ex_lock ex_reachable). Defined.

Lemma first_waiter_blocked_witness :
  List.find lrq_pending (lbl_requests ex_lock) = Some (ex_request 2) /\
  exists x, x ∈ lbl_requests ex_lock /\ lrq_id x <> lrq_id (ex_request 2) /\
    COMPATIBLE (lrq_requested (ex_request 2)) (lrq_state x) = false.
Proof.
  split; [vm_compute; reflexivity|].
  apply (first_waiter_blocked ex_lock (ex_request 2) ex_reachable); [|vm_compute; reflexivity].
  intros x Hx. right. right. revert x Hx. apply list.Forall_forall. vm_compute.
  repeat apply list.Forall_cons_2; try reflexivity. apply list.Forall_nil_2.
Defined.

Lemma LOCK_enq_spec_witness :
  let reply := (LOCK_enq true 4 4 LCK_SR 0 true (Some ex_lock)).2 in
  (reply = Granted <->
    Forall (fun r => COMPATIBLE LCK_SR (lrq_state r) = true) (lbl_requests ex_lock) /\
    (true = true -> LCK_SR <> LCK_null -> Forall (fun r => lrq_pending r = false) (lbl_requests ex_lock))) /\
  (reply <> Granted -> reply = Waiting).
Proof. apply (LOCK_enq_spec true 4 4 LCK_SR 0 true ex_lock ex_reachable). vm_compute. split; discriminate. Defined.

(** The scan finds nothing in the lock of [conversion_waits_for_nobody], and
    a cycle between two owners that hold one lock each and wait for the
    other. *)
Definition lock_after (l : list action) : LockBlock :=
  match run true l None with
  | Some (Some lock) => lock
  | _ => mk_lbl 0 [] 0 false 0 []
  end.

Definition ex_pending (owner : nat) : list nat := [owner; owner + 10]%nat.

Example deadlock_scan_stuck :
  (fun id => deadlock_scan true (mk_table [lock_after stuck] ex_pending (fun _ => false)) id) <$> [2; 3]%nat
  = [Some (None, true); Some (None, true)].
Proof. vm_compute. reflexivity. Qed.

Example deadlock_scan_cycle :
  deadlock_scan true (mk_table [lock_after [A_enq 1 1 LCK_EX 0 false; A_enq 12 2 LCK_EX 0 true];
    lock_after [A_enq 2 2 LCK_EX 0 false; A_enq 11 1 LCK_EX 0 true]] ex_pending (fun _ => false)) 11
  = Some (Some 11%nat, false).
Proof. vm_compute. reflexivity. Qed.

(** When an owner dies that waits for a conversion, the lock stays marked as
    converting, and a later conversion that has to wait is refused. *)
Example purge_leaves_converting :
  match run true [A_enq 1 1 LCK_PR 0 false; A_enq 2 2 LCK_PR 0 false; A_enq 3 3 LCK_PR 0 false;
      A_convert 1 LCK_EX true; A_purge 1] None with
  | Some (Some lock) =>
      lbl_converting lock = true /\
      option_map snd (step true (A_convert 2 LCK_EX true) (Some lock)) = Some Denied
  | _ => False
  end.
Proof. vm_compute. split; reflexivity. Qed.

End LockMgr.
