(* ===== verification/BePlusTree.v ===== *)
(** * The in-memory B+ tree ([common/classes/tree.h], [common/classes/vector.h])

    [SortedVector] with its binary search, and [BePlusTree]: pages of items
    and of page pointers in memory, each field of a page a map from pointers,
    as the code links and unlinks them.  A pointer is a number, never given
    out twice; whether the pool can satisfy its n-th request is an argument,
    so that exhaustion of memory and the recovery from it are modelled.
    Reading a page that is not allocated, an index outside of a vector and a
    vector that is full are [Overrun].  Keys are compared as integers, which
    all uses of the tree in the engine do.

    Theorems: every operation keeps the structure of the tree ([wf]) and does
    to it what it does to a sorted list without duplicates; after exhausted
    memory the contents are as before, but a page that was given back stays
    linked. *)

From S2P Require Import Prelude.
From stdpp Require Import gmap sorting.
#[local] Open Scope Z_scope.

Module BePlusTree.

(** ** [vector.h] *)

Definition vector_at {A} (l : list A) (index : nat) : outcome A :=
  match l !! index with Some x => Ret x | None => Throw Overrun end.

Definition vector_insert {A} (Capacity index : nat) (item : A) (l : list A) : outcome (list A) :=
  if ((index <=? length l) && (length l <? Capacity))%nat
  then Ret (take index l ++ item :: drop index l) else Throw Overrun.

Definition vector_remove {A} (index : nat) (l : list A) : outcome (list A) :=
  if (index <? length l)%nat then Ret (take index l ++ drop (S index) l) else Throw Overrun.

Definition vector_shrink {A} (newCount : nat) (l : list A) : outcome (list A) :=
  if (newCount <=? length l)%nat then Ret (take newCount l) else Throw Overrun.

Definition vector_join {A} (Capacity : nat) (l L : list A) : outcome (list A) :=
  if (length l + length L <=? Capacity)%nat then Ret (l ++ L) else Throw Overrun.

Section vector.
Context {A : Type} (generate : A -> outcome Z).

Fixpoint find_loop (fuel : nat) (data : list A) (item : Z) (lowBound highBound : nat)
  : outcome nat :=
  match fuel with
  | O => Throw Overrun
  | S fuel =>
      if (highBound <=? lowBound)%nat then Ret lowBound else
      let temp := Nat.div2 (highBound + lowBound) in
      let* x := vector_at data temp in
      let* k := generate x in
      if item >? k then find_loop fuel data item (S temp) highBound
      else find_loop fuel data item lowBound temp
  end.

Definition find (data : list A) (item : Z) : outcome (bool * nat) :=
  let* pos := find_loop (S (length data)) data item 0 (length data) in
  if (pos =? length data)%nat then Ret (false, pos) else
  let* x := vector_at data pos in
  let* k := generate x in
  Ret (negb (k >? item), pos).

(** [SortedVector::add] *)
Definition sorted_add (Capacity : nat) (item : A) (data : list A) : outcome (list A) :=
  let* k := generate item in
  let* (_, pos) := find data k in
  vector_insert Capacity pos item data.
End vector.

(** ** [tree.h] *)

Inductive LocType := locEqual | locLess | locGreat | locGreatEqual | locLessEqual.

Definition NEED_MERGE (current_count page_count : nat) : bool :=
  (current_count * 4 / 3 <=? page_count)%nat.

(** The parameters of the template: the items with their keys, and the
    capacities of the pages.  [pool] is the allocator: whether it satisfies
    the request for the page that will have this pointer. *)
Class TreeParams := mk_params {
  Value : Type;
  key : Value -> Z;
  LeafCount : nat;
  NodeCount : nat;
  pool : nat -> bool
}.

Definition ptr : Type := nat.

Section tree.
Context {P : TreeParams}.

(** The tree and the memory of its pages.  [items] and [nodes] hold the
    vectors of the allocated [ItemList]s and [NodeList]s. *)
Record tree := mk_tree {
  items : gmap ptr (list Value);
  nodes : gmap ptr (list ptr);
  page_level : ptr -> nat;
  parent : ptr -> option ptr;
  next : ptr -> option ptr;
  prev : ptr -> option ptr;
  level : nat;
  root : option ptr;
  fresh : ptr
}.

(** [BePlusTree(_pool)] *)
Definition empty_tree : tree :=
  mk_tree ∅ ∅ (fun _ => O) (fun _ => None) (fun _ => None) (fun _ => None) 0 None O.

Definition upd {B} (f : ptr -> B) (p : ptr) (x : B) : ptr -> B :=
  fun q => if (q =? p)%nat then x else f q.

Definition with_items (f : gmap ptr (list Value) -> gmap ptr (list Value)) (t : tree) : tree :=
  mk_tree (f (items t)) (nodes t) (page_level t) (parent t) (next t) (prev t) (level t) (root t) (fresh t).
Definition with_nodes (f : gmap ptr (list ptr) -> gmap ptr (list ptr)) (t : tree) : tree :=
  mk_tree (items t) (f (nodes t)) (page_level t) (parent t) (next t) (prev t) (level t) (root t) (fresh t).
Definition set_items (p : ptr) (d : list Value) (t : tree) : tree := with_items <[p := d]> t.
Definition set_nodes (p : ptr) (d : list ptr) (t : tree) : tree := with_nodes <[p := d]> t.
Definition set_page_level (p : ptr) (l : nat) (t : tree) : tree :=
  mk_tree (items t) (nodes t) (upd (page_level t) p l) (parent t) (next t) (prev t) (level t) (root t) (fresh t).
Definition set_parent (p : ptr) (q : option ptr) (t : tree) : tree :=
  mk_tree (items t) (nodes t) (page_level t) (upd (parent t) p q) (next t) (prev t) (level t) (root t) (fresh t).
Definition set_next (p : ptr) (q : option ptr) (t : tree) : tree :=
  mk_tree (items t) (nodes t) (page_level t) (parent t) (upd (next t) p q) (prev t) (level t) (root t) (fresh t).
Definition set_prev (p : ptr) (q : option ptr) (t : tree) : tree :=
  mk_tree (items t) (nodes t) (page_level t) (parent t) (next t) (upd (prev t) p q) (level t) (root t) (fresh t).
Definition set_root (l : nat) (r : option ptr) (t : tree) : tree :=
  mk_tree (items t) (nodes t) (page_level t) (parent t) (next t) (prev t) l r (fresh t).

Definition get_items (t : tree) (p : ptr) : outcome (list Value) :=
  match items t !! p with Some d => Ret d | None => Throw Overrun end.
Definition get_nodes (t : tree) (p : ptr) : outcome (list ptr) :=
  match nodes t !! p with Some d => Ret d | None => Throw Overrun end.

(** [pool->allocate]: [None] is the exception. *)
Definition allocate (t : tree) : option (ptr * tree) :=
  if pool (fresh t)
  then Some (fresh t, mk_tree (items t) (nodes t) (page_level t) (parent t) (next t) (prev t)
                        (level t) (root t) (S (fresh t)))
  else None.

(** The constructors: [link_after] puts the new page into the list of its
    level. *)
Definition link_after (p q : ptr) (t : tree) : tree :=
  let n := next t q in
  let t := set_next p n t in
  let t := match n with Some n => set_prev n (Some p) t | None => t end in
  set_next q (Some p) (set_prev p (Some q) t).

Definition link_first (p : ptr) (t : tree) : tree := set_prev p None (set_next p None t).

Definition new_ItemList (after : option ptr) (t : tree) : option (ptr * tree) :=
  match allocate t with
  | None => None
  | Some (p, t) =>
      let t := set_parent p None (set_items p [] t) in
      Some (p, match after with Some q => link_after p q t | None => link_first p t end)
  end.

Definition new_NodeList (after : option ptr) (t : tree) : option (ptr * tree) :=
  match allocate t with
  | None => None
  | Some (p, t) =>
      let t := set_parent p None (set_nodes p [] t) in
      Some (p, match after with Some q => link_after p q t | None => link_first p t end)
  end.

(** [NodeList::generate], its loop over the levels. *)
Fixpoint generate (t : tree) (lev : nat) (item : ptr) : outcome Z :=
  match lev with
  | O => let* d := get_items t item in let* v := vector_at d 0 in Ret (key v)
  | S lev => let* d := get_nodes t item in let* c := vector_at d 0 in generate t lev c
  end.

Definition key_of_item (v : Value) : outcome Z := Ret (key v).

(** [find] of a [NodeList], whose sender is the list. *)
Definition find_node (t : tree) (p : ptr) (d : list ptr) (k : Z) : outcome (bool * nat) :=
  find (generate t (page_level t p)) d k.

Definition setNodeParentAndLevel (node : ptr) (lev : nat) (par : option ptr) (t : tree) : tree :=
  match lev with
  | S l => set_page_level node l (set_parent node par t)
  | O => set_parent node par t
  end.

Definition setNodeParent (node : ptr) (lev : nat) (par : option ptr) (t : tree) : tree :=
  set_parent node par t.

(** The way from a page of level [lev] to the leaf for a key: the loops of
    [add] and of [Accessor::locate]. *)
Fixpoint descend (t : tree) (k : Z) (lev : nat) (list : ptr) : outcome ptr :=
  match lev with
  | O => Ret list
  | S lev =>
      let* d := get_nodes t list in
      let* (found, pos) := find_node t list d k in
      let pos := if found then pos else Nat.pred pos in
      let* c := vector_at d pos in
      descend t k lev c
  end.

(** *** [add] *)

(** The value [add] returns, or that it threw what the pool threw. *)
Inductive added := Added (b : bool) | Raised.

(** The recovery at the end of [add], from the highest level down: the head
    of [recovery_map] is the entry of the level of [newNode]. *)
Fixpoint recover (newNode : ptr) (recovery_map : list (option nat)) (t : tree)
  : outcome tree :=
  match recovery_map with
  | [] => Ret t
  | [entry] =>
      let* t := match entry with
        | None => Ret t
        | Some i =>
            match prev t newNode with
            | None => Throw Overrun
            | Some p =>
                let* d := get_items t p in
                let* d := vector_remove i d in
                let* mine := get_items t newNode in
                let* v := vector_at mine 0 in
                let* d := vector_insert LeafCount (length d) v d in
                Ret (set_items p d t)
            end
        end in
      Ret (with_items (delete newNode) t)
  | entry :: map =>
      let curLevel := length map in
      let* mine := get_nodes t newNode in
      let* (lower, t) := match entry with
        | None => let* c := vector_at mine 0 in Ret (c, t)
        | Some i =>
            match prev t newNode with
            | None => Throw Overrun
            | Some p =>
                let* d := get_nodes t p in
                let* lower := vector_at d i in
                let* d := vector_remove i d in
                let* c := vector_at mine 0 in
                let* d := vector_insert NodeCount (length d) c d in
                Ret (lower, setNodeParent c (Nat.pred curLevel) (Some p) (set_nodes p d t))
            end
        end in
      recover lower map (with_nodes (delete newNode) t)
  end.

(** Space on a neighbour, or none. *)
Definition room_nodes (t : tree) (p : option ptr) : outcome (option ptr) :=
  match p with
  | None => Ret None
  | Some p =>
      let* d := get_nodes t p in
      Ret (if (length d <? NodeCount)%nat then Some p else None)
  end.

Definition room_items (t : tree) (p : option ptr) : outcome (option ptr) :=
  match p with
  | None => Ret None
  | Some p =>
      let* d := get_items t p in
      Ret (if (length d <? LeafCount)%nat then Some p else None)
  end.

(** "Found space on the next page" and "on the previous page". *)
Definition node_to_next (newNode nodeList nlist : ptr) (curLevel pos : nat) (d : list ptr) (t : tree)
  : outcome tree :=
  let* ld := get_nodes t nlist in
  if (pos =? NodeCount)%nat then
    let t := setNodeParentAndLevel newNode curLevel (Some nlist) t in
    let* ld := vector_insert NodeCount 0 newNode ld in
    Ret (set_nodes nlist ld t)
  else
    let* c := vector_at d (NodeCount - 1) in
    let t := setNodeParent c curLevel (Some nlist) t in
    let* ld := vector_insert NodeCount 0 c ld in
    let t := set_nodes nlist ld t in
    let* d := vector_shrink (NodeCount - 1) d in
    let t := setNodeParentAndLevel newNode curLevel (Some nodeList) t in
    let* d := vector_insert NodeCount pos newNode d in
    Ret (set_nodes nodeList d t).

Definition node_to_prev (newNode nodeList nlist : ptr) (curLevel pos : nat) (d : list ptr) (t : tree)
  : outcome tree :=
  let* ld := get_nodes t nlist in
  if (pos =? 0)%nat then
    let t := setNodeParentAndLevel newNode curLevel (Some nlist) t in
    let* ld := vector_insert NodeCount (length ld) newNode ld in
    Ret (set_nodes nlist ld t)
  else
    let* c := vector_at d 0 in
    let t := setNodeParent c curLevel (Some nlist) t in
    let* ld := vector_insert NodeCount (length ld) c ld in
    let t := set_nodes nlist ld t in
    let* d := vector_remove 0 d in
    let t := setNodeParentAndLevel newNode curLevel (Some nodeList) t in
    let* d := vector_insert NodeCount (pos - 1) newNode d in
    Ret (set_nodes nodeList d t).

(** "No space found": the new page [newList] takes the new node or the last
    child; with the entry of the recovery map. *)
Definition node_split (newNode nodeList newList : ptr) (curLevel pos : nat) (d : list ptr) (t : tree)
  : outcome (option nat * tree) :=
  let* t := node_to_next newNode nodeList newList curLevel pos d t in
  Ret (if (pos =? NodeCount)%nat then None else Some pos, t).

(** "We reached the top of tree": a new root. *)
Definition new_root (newNode : ptr) (recovery_map : list (option nat)) (t : tree)
  : outcome (added * tree) :=
  match new_NodeList None t, root t with
  | None, _ =>
      let* t := recover newNode recovery_map t in Ret (Raised, t)
  | Some (nodeList, t), Some r =>
      let t := set_page_level nodeList (level t) t in
      let* d := vector_insert NodeCount 0 r [] in
      let t := set_nodes nodeList d t in
      let t := setNodeParentAndLevel newNode (level t) (Some nodeList) t in
      let t := setNodeParent r (level t) (Some nodeList) t in
      let* d := sorted_add (generate t (page_level t nodeList)) NodeCount newNode d in
      let t := set_nodes nodeList d t in
      Ret (Added true, set_root (S (level t)) (Some nodeList) t)
  | Some _, None => Throw Overrun
  end.

(** The loop of [add] over the levels above the leaves. *)
Fixpoint climb (fuel : nat) (newNode : ptr) (nodeList : option ptr) (curLevel : nat)
    (recovery_map : list (option nat)) (t : tree) : outcome (added * tree) :=
  match fuel with
  | O => Throw Overrun
  | S fuel =>
      match nodeList with
      | None => new_root newNode recovery_map t
      | Some nodeList =>
          let* d := get_nodes t nodeList in
          if (length d <? NodeCount)%nat then
            let t := setNodeParentAndLevel newNode curLevel (Some nodeList) t in
            let* d := sorted_add (generate t (page_level t nodeList)) NodeCount newNode d in
            Ret (Added true, set_nodes nodeList d t)
          else
          let* k := generate t (page_level t nodeList) newNode in
          let* (_, pos) := find_node t nodeList d k in
          let* list := room_nodes t (next t nodeList) in
          match list with
          | Some list =>
              let* t := node_to_next newNode nodeList list curLevel pos d t in Ret (Added true, t)
          | None =>
          let* list := room_nodes t (prev t nodeList) in
          match list with
          | Some list =>
              let* t := node_to_prev newNode nodeList list curLevel pos d t in Ret (Added true, t)
          | None =>
          match new_NodeList (Some nodeList) t with
          | None =>
              let* t := recover newNode recovery_map t in Ret (Raised, t)
          | Some (newList, t) =>
              let* (entry, t) := node_split newNode nodeList newList curLevel pos d t in
              climb fuel newList (parent t nodeList) (S curLevel) (entry :: recovery_map) t
          end end end
      end
  end.

Definition leaf_to_next (item : Value) (leaf temp : ptr) (pos : nat) (d : list Value) (t : tree)
  : outcome tree :=
  let* td := get_items t temp in
  if (pos =? LeafCount)%nat then
    let* td := vector_insert LeafCount 0 item td in
    Ret (set_items temp td t)
  else
    let* v := vector_at d (LeafCount - 1) in
    let* td := vector_insert LeafCount 0 v td in
    let* d := vector_shrink (LeafCount - 1) d in
    let* d := vector_insert LeafCount pos item d in
    Ret (set_items leaf d (set_items temp td t)).

Definition leaf_to_prev (item : Value) (leaf temp : ptr) (pos : nat) (d : list Value) (t : tree)
  : outcome tree :=
  let* td := get_items t temp in
  if (pos =? 0)%nat then
    let* td := vector_insert LeafCount (length td) item td in
    Ret (set_items temp td t)
  else
    let* v := vector_at d 0 in
    let* td := vector_insert LeafCount (length td) v td in
    let* d := vector_remove 0 d in
    let* d := vector_insert LeafCount (pos - 1) item d in
    Ret (set_items leaf d (set_items temp td t)).

Definition leaf_split (item : Value) (leaf newLeaf : ptr) (pos : nat) (d : list Value) (t : tree)
  : outcome (option nat * tree) :=
  let* nd := get_items t newLeaf in
  if (pos =? LeafCount)%nat then
    let* nd := vector_insert LeafCount 0 item nd in
    Ret (None, set_items newLeaf nd t)
  else
    let* v := vector_at d (LeafCount - 1) in
    let* nd := vector_insert LeafCount 0 v nd in
    let* d := vector_shrink (length d - 1) d in
    let* d := vector_insert LeafCount pos item d in
    Ret (Some pos, set_items leaf d (set_items newLeaf nd t)).

(** "Finish initialization of the tree if necessary". *)
Definition ensure_root (t : tree) : option (ptr * tree) :=
  match root t with
  | Some r => Some (r, t)
  | None =>
      match new_ItemList None t with
      | None => None
      | Some (p, t) => Some (p, set_root (level t) (Some p) t)
      end
  end.

Definition add (item : Value) (t : tree) : outcome (added * tree) :=
  match ensure_root t with
  | None => Ret (Raised, t)
  | Some (vList, t) =>
      let* leaf := descend t (key item) (level t) vList in
      let* d := get_items t leaf in
      let* (found, pos) := find key_of_item d (key item) in
      if found then Ret (Added false, t) else
      if (length d <? LeafCount)%nat then
        let* d := vector_insert LeafCount pos item d in
        Ret (Added true, set_items leaf d t)
      else
      let* temp := room_items t (next t leaf) in
      match temp with
      | Some temp => let* t := leaf_to_next item leaf temp pos d t in Ret (Added true, t)
      | None =>
      let* temp := room_items t (prev t leaf) in
      match temp with
      | Some temp => let* t := leaf_to_prev item leaf temp pos d t in Ret (Added true, t)
      | None =>
      match new_ItemList (Some leaf) t with
      | None => Ret (Raised, t)
      | Some (newLeaf, t) =>
          let* (entry, t) := leaf_split item leaf newLeaf pos d t in
          climb (S (S (level t))) newLeaf (parent t leaf) 0 [entry] t
      end end end
  end.

(** *** [_removePage] *)

Definition unlink (p : ptr) (t : tree) : tree :=
  let t := match prev t p with Some q => set_next q (next t p) t | None => t end in
  match next t p with Some n => set_prev n (prev t p) t | None => t end.

(** A neighbour [_removePage] may merge with: its page of [count] elements,
    with [more] of ours, would need merging. *)
Definition mergeable_nodes (t : tree) (p : option ptr) (more : nat) : outcome (option ptr) :=
  match p with
  | None => Ret None
  | Some p =>
      let* d := get_nodes t p in
      Ret (if NEED_MERGE (length d + more) NodeCount then Some p else None)
  end.

Definition mergeable_items (t : tree) (p : option ptr) (more : nat) : outcome (option ptr) :=
  match p with
  | None => Ret None
  | Some p =>
      let* d := get_items t p in
      Ret (if NEED_MERGE (length d + more) LeafCount then Some p else None)
  end.

Definition set_parents (l : list ptr) (par : option ptr) (t : tree) : tree :=
  fold_left (fun t c => set_parent c par t) l t.

(** The only child of [list] is taken from a neighbour. *)
Definition steal_child (list : ptr) (nodeLevel : nat) (t : tree) : outcome tree :=
  match prev t list, next t list with
  | Some temp, _ =>
      let* d := get_nodes t temp in
      let* c := vector_at d (length d - 1) in
      let t := setNodeParent c nodeLevel (Some list) (set_nodes list [c] t) in
      let* d := vector_shrink (length d - 1) d in
      Ret (set_nodes temp d t)
  | None, Some temp =>
      let* d := get_nodes t temp in
      let* c := vector_at d 0 in
      let t := setNodeParent c nodeLevel (Some list) (set_nodes list [c] t) in
      let* d := vector_remove 0 d in
      Ret (set_nodes temp d t)
  | None, None => Throw Overrun
  end.

Definition join_nodes (into from : ptr) (t : tree) : outcome tree :=
  let* d := get_nodes t into in
  let* l := get_nodes t from in
  let* d := vector_join NodeCount d l in
  Ret (set_parents l (Some into) (set_nodes into d t)).

Definition free_page (nodeLevel : nat) (node : ptr) (t : tree) : tree :=
  match nodeLevel with
  | O => with_items (delete node) t
  | S _ => with_nodes (delete node) t
  end.

(** What [_removePage] does with the page [list] above the page [node];
    [up] takes a page of its level out. *)
Definition remove_child (up : ptr -> tree -> outcome tree) (nodeLevel : nat) (node list : ptr) (t : tree)
  : outcome tree :=
  let* d := get_nodes t list in
  if (length d =? 1)%nat then
    let* temp := mergeable_nodes t (prev t list) 0 in
    match temp with
    | Some _ => up list t
    | None =>
    let* temp := mergeable_nodes t (next t list) 0 in
    match temp with
    | Some _ => up list t
    | None => steal_child list nodeLevel t
    end end
  else
    let* k := generate t (page_level t list) node in
    let* (_, pos) := find_node t list d k in
    let* d := vector_remove pos d in
    let t := set_nodes list d t in
    if (match root t with Some r => (r =? list)%nat | None => false end) && (length d =? 1)%nat then
      let* r := vector_at d 0 in
      let t := set_root (Nat.pred (level t)) (Some r) t in
      let t := setNodeParent r (level t) None t in
      Ret (with_nodes (delete list) t)
    else
    let* temp := mergeable_nodes t (prev t list) (length d) in
    match temp with
    | Some temp => let* t := join_nodes temp list t in up list t
    | None =>
    let* temp := mergeable_nodes t (next t list) (length d) in
    match temp with
    | Some temp => let* t := join_nodes list temp t in up temp t
    | None => Ret t
    end end.

Fixpoint removePage (fuel nodeLevel : nat) (node : ptr) (t : tree) : outcome tree :=
  match fuel with
  | O => Throw Overrun
  | S fuel =>
      let t := unlink node t in
      match parent t node with
      | None => Throw Overrun
      | Some list =>
          let* t := remove_child (removePage fuel (S nodeLevel)) nodeLevel node list t in
          Ret (free_page nodeLevel node t)
      end
  end.

(** *** [Accessor] *)

Record Accessor := mk_accessor { curr : option ptr; curPos : nat }.

Definition the_page (a : option ptr) : outcome ptr :=
  match a with Some p => Ret p | None => Throw Overrun end.

(** [return curr]: a pointer as a condition. *)
Definition is_page (p : option ptr) : bool := match p with Some _ => true | None => false end.

Definition count_of (t : tree) (p : ptr) : outcome nat :=
  let* d := get_items t p in Ret (length d).

Definition locate (lt : LocType) (k : Z) (a : Accessor) (t : tree) : outcome (bool * Accessor) :=
  match root t with
  | None => Ret (false, a)
  | Some list =>
      let* p := descend t k (level t) list in
      let* d := get_items t p in
      let* (found, pos) := find key_of_item d k in
      let backward :=
        if (pos =? 0)%nat then
          match prev t p with
          | None => Ret (false, mk_accessor None pos)
          | Some q => let* n := count_of t q in Ret (true, mk_accessor (Some q) (n - 1))
          end
        else Ret (true, mk_accessor (Some p) (pos - 1)) in
      match lt with
      | locEqual => Ret (found, mk_accessor (Some p) pos)
      | locGreatEqual =>
          let a := if (pos =? length d)%nat then mk_accessor (next t p) 0 else mk_accessor (Some p) pos in
          Ret (found || is_page (curr a), a)
      | locLessEqual => if found then Ret (true, mk_accessor (Some p) pos) else backward
      | locLess => backward
      | locGreat =>
          let pos := if found then S pos else pos in
          let a := if (pos =? length d)%nat then mk_accessor (next t p) 0 else mk_accessor (Some p) pos in
          Ret (is_page (curr a), a)
      end
  end.

Fixpoint first_leaf (t : tree) (lev : nat) (p : ptr) : outcome ptr :=
  match lev with
  | O => Ret p
  | S lev => let* d := get_nodes t p in let* c := vector_at d 0 in first_leaf t lev c
  end.

Fixpoint last_leaf (t : tree) (lev : nat) (p : ptr) : outcome ptr :=
  match lev with
  | O => Ret p
  | S lev => let* d := get_nodes t p in let* c := vector_at d (length d - 1) in last_leaf t lev c
  end.

Definition getFirst (a : Accessor) (t : tree) : outcome (bool * Accessor) :=
  match root t with
  | None => Ret (false, a)
  | Some r =>
      let* p := first_leaf t (level t) r in
      let* n := count_of t p in
      Ret (negb (n =? 0)%nat, mk_accessor (Some p) 0)
  end.

Definition getLast (a : Accessor) (t : tree) : outcome (bool * Accessor) :=
  match root t with
  | None => Ret (false, a)
  | Some r =>
      let* p := last_leaf t (level t) r in
      let* n := count_of t p in
      if (n =? 0)%nat then Ret (false, mk_accessor (Some p) (curPos a))
      else Ret (true, mk_accessor (Some p) (n - 1))
  end.

Definition getNext (a : Accessor) (t : tree) : outcome (bool * Accessor) :=
  let* p := the_page (curr a) in
  let* n := count_of t p in
  if (n <=? S (curPos a))%nat then
    match next t p with
    | Some q => Ret (true, mk_accessor (Some q) 0)
    | None => Ret (false, a)
    end
  else Ret (true, mk_accessor (Some p) (S (curPos a))).

Definition getPrev (a : Accessor) (t : tree) : outcome (bool * Accessor) :=
  let* p := the_page (curr a) in
  if (curPos a =? 0)%nat then
    match prev t p with
    | Some q => let* n := count_of t q in Ret (true, mk_accessor (Some q) (n - 1))
    | None => Ret (false, mk_accessor (Some p) 0)
    end
  else Ret (true, mk_accessor (Some p) (curPos a - 1)).

Definition current (a : Accessor) (t : tree) : outcome Value :=
  let* p := the_page (curr a) in
  let* d := get_items t p in
  vector_at d (curPos a).

(** An assignment through the reference [current] returns. *)
Definition set_current (v : Value) (a : Accessor) (t : tree) : outcome tree :=
  let* p := the_page (curr a) in
  let* d := get_items t p in
  let* _ := vector_at d (curPos a) in
  Ret (set_items p (<[curPos a := v]> d) t).

(** The only item of [p] is replaced by one of a neighbour. *)
Definition steal_item (p : ptr) (t : tree) : outcome (bool * Accessor * tree) :=
  match prev t p, next t p with
  | Some temp, _ =>
      let* td := get_items t temp in
      let* v := vector_at td (length td - 1) in
      let t := set_items p [v] t in
      let* td := vector_shrink (length td - 1) td in
      let t := set_items temp td t in
      Ret (is_page (next t p), mk_accessor (next t p) 0, t)
  | None, Some temp =>
      let* td := get_items t temp in
      let* v := vector_at td 0 in
      let t := set_items p [v] t in
      let* td := vector_remove 0 td in
      Ret (true, mk_accessor (Some p) 0, set_items temp td t)
  | None, None => Throw Overrun
  end.

(** [fastRemove]: the branch for a page with one item left, which takes an
    item from a neighbour where it cannot remove the page. *)
Definition remove_single (p : ptr) (t : tree) : outcome (bool * Accessor * tree) :=
  let fuel := S (level t) in
  let* temp := mergeable_items t (prev t p) 0 in
  match temp with
  | Some _ =>
      let temp := next t p in
      let* t := removePage fuel 0 p t in
      Ret (is_page temp, mk_accessor temp 0, t)
  | None =>
  let* temp := mergeable_items t (next t p) 0 in
  match temp with
  | Some temp =>
      let* t := removePage fuel 0 p t in
      Ret (true, mk_accessor (Some temp) 0, t)
  | None =>
  steal_item p t
  end end.

(** The final adjustment of [fastRemove]. *)
Definition step_over (p : ptr) (pos : nat) (t : tree) : outcome (bool * Accessor * tree) :=
  let* n := count_of t p in
  if (n <=? pos)%nat then Ret (is_page (next t p), mk_accessor (next t p) 0, t)
  else Ret (true, mk_accessor (Some p) pos, t).

Definition fastRemove (a : Accessor) (t : tree) : outcome (bool * Accessor * tree) :=
  let* p := the_page (curr a) in
  let* d := get_items t p in
  if (level t =? 0)%nat then
    let* d := vector_remove (curPos a) d in
    Ret ((curPos a <? length d)%nat, a, set_items p d t)
  else if (length d =? 1)%nat then
    if (curPos a =? 0)%nat then remove_single p t else Throw Overrun
  else
    let* d := vector_remove (curPos a) d in
    let t := set_items p d t in
    let fuel := S (level t) in
    let* temp := mergeable_items t (prev t p) (length d) in
    match temp with
    | Some temp =>
        let* td := get_items t temp in
        let* joined := vector_join LeafCount td d in
        let* t := removePage fuel 0 p (set_items temp joined t) in
        step_over temp (curPos a + length td) t
    | None =>
    let* temp := mergeable_items t (next t p) (length d) in
    match temp with
    | Some temp =>
        let* td := get_items t temp in
        let* joined := vector_join LeafCount d td in
        let* t := removePage fuel 0 temp (set_items p joined t) in
        Ret (true, a, t)
    | None => step_over p (curPos a) t
    end end.

(** *** The rest of the class *)

Definition isEmpty (t : tree) : outcome bool :=
  match root t with
  | None => Ret true
  | Some r => if (level t =? 0)%nat then let* n := count_of t r in Ret (n =? 0)%nat else Ret false
  end.

Definition root_count (t : tree) (r : ptr) : outcome nat :=
  if (level t =? 0)%nat then count_of t r else let* d := get_nodes t r in Ret (length d).

Definition seemsBiggerThan (t other : tree) : outcome bool :=
  if negb (level t =? level other)%nat then Ret (level other <? level t)%nat else
  match root t, root other with
  | None, None => Ret true
  | None, Some _ => Ret false
  | Some _, None => Ret true
  | Some r, Some r' =>
      let* n := root_count t r in
      let* n' := root_count other r' in
      Ret (n' <? n)%nat
  end.

(** [clear]: the leaves along [next], then the levels above along [parent]
    and [next]. *)
Fixpoint free_items (fuel : nat) (p : option ptr) (t : tree) : outcome tree :=
  match p with
  | None => Ret t
  | Some p =>
      match fuel with
      | O => Throw Overrun
      | S fuel =>
          let* _ := get_items t p in
          let n := next t p in
          free_items fuel n (with_items (delete p) t)
      end
  end.

Fixpoint free_nodes (fuel : nat) (p : option ptr) (t : tree) : outcome tree :=
  match p with
  | None => Ret t
  | Some p =>
      match fuel with
      | O => Throw Overrun
      | S fuel =>
          let* _ := get_nodes t p in
          let n := next t p in
          free_nodes fuel n (with_nodes (delete p) t)
      end
  end.

Fixpoint free_levels (fuel : nat) (lists : option ptr) (t : tree) : outcome tree :=
  match lists with
  | None => Ret t
  | Some l =>
      match fuel with
      | O => Throw Overrun
      | S fuel =>
          let* _ := get_nodes t l in
          let up := parent t l in
          let* t := free_nodes (S (fresh t)) (Some l) t in
          free_levels fuel up t
      end
  end.

Definition clear (t : tree) : outcome tree :=
  match root t with
  | None => Ret t
  | Some r =>
      let* p := first_leaf t (level t) r in
      let* _ := get_items t p in
      let lists := parent t p in
      let* t := free_items (S (fresh t)) (Some p) t in
      let* t := free_levels (S (level t)) lists t in
      Ret (set_root 0 None t)
  end.

(** ** Sorted lists *)

Definition ascending {A} (f : A -> Z) (l : list A) : Prop :=
  StronglySorted (fun x y => f x < f y) l.

Section ascending.
Context {A : Type} (f : A -> Z).

Lemma ascending_nil : ascending f [].
Proof. constructor. Qed.

Lemma ascending_cons x l : ascending f (x :: l) <-> Forall (fun y => f x < f y) l /\ ascending f l.
Proof. apply StronglySorted_cons. Qed.

Lemma ascending_app l1 l2 :
  ascending f (l1 ++ l2) <->
  ascending f l1 /\ ascending f l2 /\ Forall (fun x => Forall (fun y => f x < f y) l2) l1.
Proof.
  unfold ascending. rewrite StronglySorted_app, list.Forall_forall.
  setoid_rewrite list.Forall_forall. split.
  - intros (H & H1 & H2). auto.
  - intros (H1 & H2 & H). auto.
Qed.

Lemma ascending_mid l1 x l2 :
  ascending f (l1 ++ x :: l2) ->
  Forall (fun y => f y < f x) l1 /\ Forall (fun y => f x < f y) l2.
Proof.
  rewrite ascending_app, ascending_cons. intros (_ & (H & _) & H').
  split; [|done]. eapply list.Forall_impl; [exact H'|].
  intros y Hy. by apply list.Forall_cons in Hy as [? _].
Qed.

(** Every key splits a sorted list into what is below it and the rest. *)
Lemma ascending_split l k :
  ascending f l -> exists X Y, l = X ++ Y /\ Forall (fun x => f x < k) X /\ Forall (fun y => k <= f y) Y.
Proof.
  induction l as [|x l IH]; intros Hl.
  { exists [], []. auto. }
  apply ascending_cons in Hl as [Hx Hl]. destruct (decide (f x < k)) as [Hk|Hk].
  - destruct (IH Hl) as (X & Y & -> & HX & HY). exists (x :: X), Y. auto.
  - exists [], (x :: l). split_and!; auto. constructor; [lia|].
    eapply list.Forall_impl; [exact Hx|]. simpl. lia.
Qed.

Lemma ascending_ext (g : A -> Z) l : Forall (fun x => f x = g x) l -> ascending f l -> ascending g l.
Proof.
  induction l as [|x l IH]; intros Hl; [constructor|].
  apply list.Forall_cons in Hl as [Hx Hl]. rewrite ascending_cons. intros [Hf Ha].
  constructor; [by apply IH|]. rewrite list.Forall_forall in *. intros y Hy.
  rewrite <-Hx, <-(Hl y Hy). by apply Hf.
Qed.
End ascending.

Lemma ascending_fmap {A B} (f : B -> Z) (g : A -> B) l :
  ascending f (g <$> l) <-> ascending (fun x => f (g x)) l.
Proof.
  induction l as [|x l IH]; [split; constructor|].
  rewrite fmap_cons, !ascending_cons, IH. by rewrite list.Forall_fmap.
Qed.

(** ** Binary search *)

Section find.
Context {A : Type} (keyOf : A -> outcome Z) (kf : A -> Z).

Lemma find_loop_split X Y item fuel low high :
  Forall (fun x => keyOf x = Ret (kf x)) (X ++ Y) ->
  Forall (fun x => kf x < item) X -> Forall (fun y => item <= kf y) Y ->
  (low <= length X <= high)%nat -> (high <= length (X ++ Y))%nat -> (high - low < fuel)%nat ->
  find_loop keyOf fuel (X ++ Y) item low high = Ret (length X).
Proof.
  intros Hk HX HY. revert low high. induction fuel as [|fuel IH]; intros low high Hl Hh Hf; [lia|].
  cbn [find_loop]. destruct (Nat.leb_spec high low); [f_equal; lia|].
  pose proof (Nat.div2_odd (high + low)) as E. set (temp := Nat.div2 (high + low)) in *.
  assert (low <= temp < high)%nat by (destruct (Nat.odd (high + low)); simpl in E; lia).
  destruct (lookup_lt_is_Some_2 (X ++ Y) temp ltac:(lia)) as [x Ex].
  unfold vector_at. rewrite Ex. cbn [obind].
  rewrite (proj1 (list.Forall_lookup _ _) Hk _ _ Ex). cbn [obind].
  destruct (decide (temp < length X)%nat) as [Ht|Ht].
  - rewrite lookup_app_l in Ex by done.
    pose proof (proj1 (list.Forall_lookup _ _) HX _ _ Ex). cbv beta in *.
    rewrite (proj2 (Z.gtb_lt item (kf x))) by lia. apply IH; lia.
  - rewrite lookup_app_r in Ex by lia.
    pose proof (proj1 (list.Forall_lookup _ _) HY _ _ Ex). cbv beta in *.
    destruct (Z.gtb_spec item (kf x)); [lia|]. apply IH; lia.
Qed.

Lemma find_split X Y item :
  Forall (fun x => keyOf x = Ret (kf x)) (X ++ Y) ->
  Forall (fun x => kf x < item) X -> Forall (fun y => item <= kf y) Y ->
  find keyOf (X ++ Y) item
  = Ret (match Y with y :: _ => kf y =? item | [] => false end, length X).
Proof.
  intros Hk HX HY. unfold find. rewrite find_loop_split; auto; try (rewrite length_app; lia).
  cbn [obind]. destruct Y as [|y Y].
  - rewrite app_nil_r, Nat.eqb_refl. done.
  - rewrite length_app. cbn [length]. destruct (Nat.eqb_spec (length X) (length X + S (length Y))); [lia|].
    unfold vector_at. rewrite list_lookup_middle by done. cbn [obind].
    rewrite list.Forall_app, list.Forall_cons in Hk. destruct Hk as (_ & -> & _). cbn [obind].
    apply list.Forall_cons in HY as [Hy _]. do 2 f_equal.
    destruct (Z.gtb_spec (kf y) item), (Z.eqb_spec (kf y) item); simpl; lia || done.
Qed.
End find.

(** ** Vectors *)

Lemma vector_insert_app {A} cap (l1 l2 : list A) x n :
  n = length l1 -> (length (l1 ++ l2) < cap)%nat ->
  vector_insert cap n x (l1 ++ l2) = Ret (l1 ++ x :: l2).
Proof.
  intros -> H. unfold vector_insert. rewrite length_app in *.
  rewrite (proj2 (Nat.leb_le _ _)), (proj2 (Nat.ltb_lt _ _)) by lia. cbn [andb].
  by rewrite take_app_length, drop_app_length.
Qed.

Lemma vector_insert_end {A} cap (l : list A) x :
  (length l < cap)%nat -> vector_insert cap (length l) x l = Ret (l ++ [x]).
Proof.
  intros H. pose proof (vector_insert_app cap l [] x (length l) eq_refl) as E.
  rewrite app_nil_r in E. by apply E.
Qed.

Lemma vector_remove_app {A} (l1 l2 : list A) x n :
  n = length l1 -> vector_remove n (l1 ++ x :: l2) = Ret (l1 ++ l2).
Proof.
  intros ->. unfold vector_remove. rewrite length_app. cbn [length].
  rewrite (proj2 (Nat.ltb_lt _ _)) by lia.
  rewrite take_app_length. replace (S (length l1)) with (length l1 + 1)%nat by lia.
  by rewrite drop_app_add.
Qed.

Lemma vector_shrink_app {A} (l1 l2 : list A) n :
  n = length l1 -> vector_shrink n (l1 ++ l2) = Ret l1.
Proof.
  intros ->. unfold vector_shrink. rewrite length_app, (proj2 (Nat.leb_le _ _)) by lia.
  by rewrite take_app_length.
Qed.

Lemma vector_at_app {A} (l1 l2 : list A) x n :
  n = length l1 -> vector_at (l1 ++ x :: l2) n = Ret x.
Proof. intros ->. unfold vector_at. by rewrite list_lookup_middle. Qed.

Lemma NEED_MERGE_le c cap : NEED_MERGE c cap = true -> (c <= cap)%nat.
Proof.
  unfold NEED_MERGE. rewrite Nat.leb_le. intros H.
  etransitivity; [|exact H]. apply Nat.div_le_lower_bound; lia.
Qed.

Lemma NEED_MERGE_many c cap : (1 <= cap)%nat -> NEED_MERGE c cap = false -> (2 <= c)%nat.
Proof.
  unfold NEED_MERGE. rewrite Nat.leb_gt. intros H1 H2.
  destruct c as [|[|c]]; [change (0 * 4 / 3)%nat with 0%nat in H2|change (1 * 4 / 3)%nat with 1%nat in H2|]; lia.
Qed.

(** ** Lists of pages

    [seg t pr L nx]: the pages [L] are linked in this order, after [pr] and
    before [nx]. *)

Definition first_of (L : list ptr) (nx : option ptr) : option ptr :=
  match L with [] => nx | q :: _ => Some q end.

Definition last_of (pr : option ptr) (L : list ptr) : option ptr :=
  match list.last L with Some q => Some q | None => pr end.

Fixpoint seg (t : tree) (pr : option ptr) (L : list ptr) (nx : option ptr) : Prop :=
  match L with
  | [] => True
  | p :: L => prev t p = pr /\ next t p = first_of L nx /\ seg t (Some p) L nx
  end.

Lemma last_of_cons pr p L : last_of pr (p :: L) = last_of (Some p) L.
Proof. unfold last_of. rewrite last_cons. by destruct (list.last L). Qed.

Lemma last_of_app pr L p : last_of pr (L ++ [p]) = Some p.
Proof. unfold last_of. by rewrite last_snoc. Qed.

Lemma first_of_app L1 L2 nx : first_of (L1 ++ L2) nx = first_of L1 (first_of L2 nx).
Proof. by destruct L1. Qed.

Lemma seg_app t pr L1 L2 nx :
  seg t pr (L1 ++ L2) nx <-> seg t pr L1 (first_of L2 nx) /\ seg t (last_of pr L1) L2 nx.
Proof.
  revert pr. induction L1 as [|p L1 IH]; intros pr; cbn [app seg].
  { unfold last_of. simpl. tauto. }
  rewrite IH, last_of_cons, first_of_app. tauto.
Qed.

(** The neighbours of a page. *)
Lemma seg_mid t pr A p B nx :
  seg t pr (A ++ p :: B) nx -> prev t p = last_of pr A /\ next t p = first_of B nx.
Proof. rewrite seg_app. cbn [seg]. tauto. Qed.

(** The links only depend on the links of the pages. *)
Lemma seg_frame t t' pr L nx :
  Forall (fun p => prev t' p = prev t p /\ next t' p = next t p) L -> seg t pr L nx -> seg t' pr L nx.
Proof.
  revert pr. induction L as [|p L IH]; intros pr; [done|].
  rewrite list.Forall_cons. intros [[H1 H2] HL]. cbn [seg]. rewrite H1, H2.
  intros (? & ? & ?). auto.
Qed.

Lemma upd_same {B} (f : ptr -> B) p x : upd f p x p = x.
Proof. unfold upd. by rewrite Nat.eqb_refl. Qed.

Lemma upd_other {B} (f : ptr -> B) p x q : q <> p -> upd f p x q = f q.
Proof. intros H. unfold upd. by destruct (Nat.eqb_spec q p). Qed.

(** A new page after [m]. *)
Lemma seg_link t A m B n :
  seg t None (A ++ m :: B) None -> NoDup (A ++ m :: B) -> n ∉ A ++ m :: B ->
  seg (link_after n m t) None (A ++ m :: n :: B) None.
Proof.
  intros Hs Hd Hn. apply list.NoDup_app in Hd as (HdA & HAB & HdB).
  apply list.NoDup_cons in HdB as [HmB HdB].
  assert (HmA : m ∉ A) by (intros H; apply (HAB m H); left).
  assert (HnA : n ∉ A) by (intros H; apply Hn; set_solver).
  assert (HnB : n ∉ B) by (intros H; apply Hn; set_solver).
  assert (Hnm : n <> m) by (intros ->; apply Hn; set_solver).
  rewrite seg_app in Hs |- *. destruct Hs as [HA HB]. cbn [seg first_of] in HB.
  destruct HB as (Hmp & Hmn & HB). unfold link_after. cbn [next set_next].
  assert (Hout : forall q, q <> m -> q <> n -> Some q <> next t m ->
    prev (link_after n m t) q = prev t q /\ next (link_after n m t) q = next t q).
  { intros q H1 H2 H3. unfold link_after. destruct (next t m) as [b|]; cbn;
      rewrite !upd_other by congruence; done. }
  unfold link_after in Hout. cbn [next set_next] in Hout.
  rewrite Hmn in *. cbn [first_of] in *. split.
  { eapply seg_frame; [|exact HA]. apply list.Forall_forall. intros q Hq.
    apply Hout; [set_solver..|]. destruct B as [|b B]; [done|]. cbn [first_of].
    intros [= ->]. apply (HAB b Hq). set_solver. }
  destruct B as [|b B]; cbn [seg first_of] in *.
  { cbn. rewrite !(upd_other _ n), !upd_same, !upd_other, !upd_same by congruence.
    rewrite Hmp. done. }
  assert (b <> n) by set_solver. assert (b <> m) by set_solver.
  cbn. repeat (rewrite upd_same || rewrite upd_other by congruence).
  destruct HB as (_ & Hbn & HB). rewrite Hmp, Hbn. split_and!; auto.
  eapply seg_frame; [|exact HB]. apply list.Forall_forall. intros q Hq.
  apply list.NoDup_cons in HdB as [HbB _]. cbn.
  repeat (rewrite upd_other by set_solver). done.
Qed.

(** A page taken out. *)
Lemma seg_unlink t A p B :
  seg t None (A ++ p :: B) None -> NoDup (A ++ p :: B) ->
  seg (unlink p t) None (A ++ B) None.
Proof.
  intros Hs Hd. pose proof (seg_mid _ _ _ _ _ _ Hs) as [Hp Hn].
  apply list.NoDup_app in Hd as (HdA & HAB & HdB). apply list.NoDup_cons in HdB as [HpB HdB].
  rewrite seg_app in Hs |- *. destruct Hs as [HA HB]. cbn [seg] in HB. destruct HB as (_ & _ & HB).
  assert (HpA : p ∉ A) by (intros H; apply (HAB p H); left).
  assert (HU : forall q, next (unlink p t) q = (if decide (Some q = last_of None A) then next t p else next t q)
            /\ prev (unlink p t) q = (if decide (Some q = first_of B None) then prev t p else prev t q)).
  { intros q. rewrite <-Hp, <-Hn. assert (Ha : prev t p <> Some p).
    { rewrite Hp. destruct A as [|a A _] using rev_ind; [done|]. rewrite last_of_app. set_solver. }
    unfold unlink. destruct (prev t p) as [a|] eqn:Ea, (next t p) as [b|] eqn:Eb; cbn;
      rewrite ?(upd_other (next t) a), ?Eb by congruence; cbn; rewrite ?Ea; unfold upd;
      destruct (decide (Some q = _)); simplify_eq; rewrite ?Nat.eqb_refl;
      try destruct (decide _); simplify_eq; rewrite ?Nat.eqb_refl;
      repeat match goal with |- context [(?x =? ?y)%nat] => destruct (Nat.eqb_spec x y); simplify_eq end; auto. }
  split.
  - destruct A as [|a A _] using rev_ind; [done|]. rewrite last_of_app in HU.
    rewrite seg_app in HA |- *. cbn [seg first_of] in *. destruct HA as (HA & Ha1 & Ha2 & _).
    assert (HaA : a ∉ A) by (apply list.NoDup_app in HdA as (_ & H & _); intros Hin; apply (H a Hin); left).
    destruct (HU a) as [-> ->]. rewrite (decide_True (P := Some a = Some a)) by done.
    rewrite decide_False by (destruct B as [|b B]; [done|]; cbn; intros [= E]; apply (HAB a); [set_solver|rewrite E; set_solver]).
    rewrite Hn. split_and!; auto. eapply seg_frame; [|exact HA]. apply list.Forall_forall.
    intros q Hq. destruct (HU q) as [-> ->].
    assert (Some q <> Some a) by (intros [= ->]; done).
    assert (Some q <> first_of B None).
    { destruct B as [|b B]; [done|]; cbn; intros [= E]; apply (HAB q); [set_solver|rewrite E; set_solver]. }
    by rewrite !decide_False.
  - destruct B as [|b B]; [done|]. cbn [seg first_of] in *. destruct HB as (_ & Hb & HB).
    apply list.NoDup_cons in HdB as [HbB HdB].
    assert (Hla : forall q, q ∈ b :: B -> Some q <> last_of None A).
    { intros q Hq E. destruct A as [|a A _] using rev_ind; [done|]. rewrite last_of_app in E.
      injection E as ->. apply (HAB a); set_solver. }
    destruct (HU b) as [-> ->]. rewrite (decide_True (P := Some b = Some b)) by done. rewrite decide_False by (apply Hla; left).
    split_and!; auto. eapply seg_frame; [|exact HB]. apply list.Forall_forall.
    intros q Hq. destruct (HU q) as [-> ->].
    assert (Some q <> Some b) by (intros [= ->]; done).
    assert (Some q <> last_of None A) by (apply Hla; by right).
    by rewrite !decide_False.
Qed.

(** ** The structure of the tree

    The pages of a level above the leaves, with their children; [tower]: the
    levels [Ns], from the one that holds [L] as children up to the root. *)

Definition node_ok (t : tree) (k : nat) (N : ptr * list ptr) : Prop :=
  nodes t !! N.1 = Some N.2 /\ N.2 <> [] /\ (length N.2 <= NodeCount)%nat /\
  page_level t N.1 = k /\ Forall (fun c => parent t c = Some N.1) N.2.

(** No two neighbours of a level need merging: without this, taking pages
    out could leave a root with one child. *)
Fixpoint spaced (l : list nat) : Prop :=
  match l with
  | a :: l' => match l' with b :: _ => NEED_MERGE (a + b) NodeCount = false | [] => True end /\ spaced l'
  | [] => True
  end.

Definition sizes (N : list (ptr * list ptr)) : list nat := (fun X => length X.2) <$> N.

Fixpoint tower (t : tree) (k : nat) (L : list ptr) (Ns : list (list (ptr * list ptr))) : Prop :=
  match Ns with
  | [] => exists r, L = [r] /\ root t = Some r /\ level t = k /\ parent t r = None
  | N :: Ns =>
      L = concat N.*2 /\ Forall (node_ok t k) N /\ seg t None N.*1 None /\ (2 <= length L)%nat /\
      spaced (sizes N) /\ tower t (S k) N.*1 Ns
  end.

Definition ups (Ns : list (list (ptr * list ptr))) : list ptr := concat (map (fmap fst) Ns).

(** The key of a page of level [k]. *)
Definition kf (t : tree) (k : nat) (p : ptr) : Z :=
  match generate t k p with Ret z => z | Throw _ => 0 end.

Definition keyed (t : tree) (k : nat) (L : list ptr) : Prop :=
  Forall (fun p => generate t k p = Ret (kf t k p)) L /\ ascending (kf t k) L.

Lemma generate_ext t t' k p :
  items t' = items t -> nodes t' = nodes t -> generate t' k p = generate t k p.
Proof.
  intros Hi Hn. revert p. induction k as [|k IH]; intros p; cbn [generate];
    unfold get_items, get_nodes; rewrite ?Hi, ?Hn; [done|].
  destruct (nodes t !! p) as [d|]; [|done]. cbn [obind].
  destruct (vector_at d 0); [|done]. apply IH.
Qed.

Lemma kf_ext t t' k p : generate t' k p = generate t k p -> kf t' k p = kf t k p.
Proof. unfold kf. by intros ->. Qed.

Lemma keyed_ext t t' k L :
  Forall (fun p => generate t' k p = generate t k p) L -> keyed t k L -> keyed t' k L.
Proof.
  intros HL [H1 H2]. split.
  - rewrite list.Forall_forall in *. intros p Hp. rewrite (HL p Hp), (kf_ext t t' k p); auto.
  - eapply ascending_ext; [|exact H2]. eapply list.Forall_impl; [exact HL|].
    intros p Hp. symmetry. by apply kf_ext.
Qed.

Lemma keyed_app t k L1 L2 :
  keyed t k (L1 ++ L2) -> keyed t k L1 /\ keyed t k L2.
Proof.
  unfold keyed. rewrite list.Forall_app, ascending_app. tauto.
Qed.

(** Keys of pages are the keys of their first children. *)
Lemma generate_up t k p c cs :
  nodes t !! p = Some (c :: cs) -> generate t (S k) p = generate t k c.
Proof. intros H. cbn [generate]. unfold get_nodes. by rewrite H. Qed.

Definition has_children (t : tree) (N : ptr * list ptr) : Prop :=
  exists c cs cs', N.2 = c :: cs /\ nodes t !! N.1 = Some (c :: cs').

Lemma node_ok_children t k N : node_ok t k N -> has_children t N.
Proof. intros (H1 & H2 & _). destruct (N.2) as [|c cs] eqn:E; [done|]. by exists c, cs, cs. Qed.

Lemma keyed_up t k N :
  Forall (has_children t) N -> keyed t k (concat N.*2) -> keyed t (S k) N.*1.
Proof.
  induction N as [|[p cs] N IH]; intros HN Hk.
  { split; constructor. }
  apply list.Forall_cons in HN as [(c & cs0 & cs' & E0 & Hp) HN]. cbn [fst snd] in E0, Hp. subst cs.
  rename cs0 into cs. rewrite !fmap_cons in *. cbn [fst snd concat app] in *.
  change (c :: cs ++ concat N.*2) with ((c :: cs) ++ concat N.*2) in Hk.
  pose proof (keyed_app _ _ _ _ Hk) as [Hc1 HN2]. destruct (IH HN HN2) as [IH1 IH2].
  pose proof (generate_up t k p c cs' Hp) as Eg. pose proof Hk as [Hall Hasc].
  cbn [app] in Hall, Hasc. apply list.Forall_cons in Hall as [Hgc Hall].
  assert (Ek : kf t (S k) p = kf t k c) by (unfold kf; by rewrite Eg).
  split; [constructor; [by rewrite Eg, Ek|done]|].
  apply ascending_cons. split; [|done].
  apply ascending_cons in Hasc as [Hasc _]. apply list.Forall_app in Hasc as [_ Hasc].
  clear -HN Hasc Ek. induction N as [|[q ds] N IH]; [constructor|].
  apply list.Forall_cons in HN as [(d & ds0 & ds' & E0 & Hq) HN]. cbn [fst snd] in E0, Hq. subst ds.
  rename ds0 into ds.
  rewrite !fmap_cons in *. cbn [fst snd concat app] in *. apply list.Forall_cons in Hasc as [Hd1 Hasc].
  constructor; [|apply IH; [done|by apply list.Forall_app in Hasc as [_ ?]]].
  rewrite Ek. cbn [fst]. unfold kf at 2. by rewrite (generate_up t k q d ds' Hq).
Qed.

(** A page a key belongs to: the last that does not begin after it. *)
Definition right_page (f : ptr -> Z) (L : list ptr) (x : Z) (p : ptr) : Prop :=
  exists A B, L = A ++ p :: B /\ (A = [] \/ f p <= x) /\ Forall (fun q => x < f q) B.

Lemma fst_split {A B} (N : list (A * B)) A' p B' :
  N.*1 = A' ++ p :: B' -> exists N1 cs N2, N = N1 ++ (p, cs) :: N2 /\ A' = N1.*1 /\ B' = N2.*1.
Proof.
  revert A'. induction N as [|[q cs] N IH]; intros A' H; [by destruct A'|].
  destruct A' as [|a A']; rewrite fmap_cons in H; cbn [fst app] in H.
  - injection H as -> <-. exists [], cs, N. done.
  - injection H as -> H. destruct (IH _ H) as (N1 & cs' & N2 & -> & -> & ->).
    exists ((a, cs) :: N1), cs', N2. done.
Qed.

Lemma snd_app {A B} (N1 N2 : list (A * list B)) :
  concat (N1 ++ N2).*2 = concat N1.*2 ++ concat N2.*2.
Proof. by rewrite fmap_app, concat_app. Qed.

Lemma snd_mid {A B} (N1 : list (A * list B)) p cs N2 :
  concat (N1 ++ (p, cs) :: N2).*2 = concat N1.*2 ++ cs ++ concat N2.*2.
Proof. by rewrite snd_app. Qed.

Lemma above_children t k N2 x :
  Forall (has_children t) N2 -> keyed t k (concat N2.*2) -> Forall (fun q => x < kf t (S k) q) N2.*1 ->
  Forall (fun q => x < kf t k q) (concat N2.*2).
Proof.
  induction N2 as [|[q ds] N2 IH]; intros HN Hk Hx; [constructor|].
  apply list.Forall_cons in HN as [(d & ds0 & ds' & E0 & Hq) HN]. cbn [fst snd] in E0, Hq. subst ds.
  rename ds0 into ds.
  rewrite !fmap_cons in *. cbn [fst snd concat] in *. apply list.Forall_cons in Hx as [Hx1 Hx].
  pose proof (keyed_app _ _ _ _ Hk) as [[_ Hk1] Hk2].
  apply list.Forall_app. split; [|by apply IH]. apply ascending_cons in Hk1 as [Hk1 _].
  assert (E : kf t (S k) q = kf t k d) by (unfold kf; by rewrite (generate_up t k q d ds' Hq)).
  constructor; [lia|]. eapply list.Forall_impl; [exact Hk1|]. simpl. lia.
Qed.

Lemma descend_step t k N x p :
  Forall (node_ok t k) N -> keyed t k (concat N.*2) -> right_page (kf t (S k)) N.*1 x p ->
  exists c, descend t x (S k) p = descend t x k c /\ right_page (kf t k) (concat N.*2) x c.
Proof.
  intros HN Hk (A & B & E & HA & HB).
  destruct (fst_split _ _ _ _ E) as (N1 & cs & N2 & -> & -> & ->). clear E.
  apply list.Forall_app in HN as [HN1 HN]. apply list.Forall_cons in HN as [(Hp & Hc & _ & Hlev & _) HN2].
  cbn [fst snd] in *. rewrite snd_mid in *.
  pose proof (keyed_app _ _ _ _ Hk) as [_ Hk']. pose proof (keyed_app _ _ _ _ Hk') as [[Hg Hcs] Hk2].
  assert (HB2 : Forall (fun q => x < kf t k q) (concat N2.*2)).
  { eapply above_children; eauto. eapply list.Forall_impl; [exact HN2|apply node_ok_children]. }
  destruct (ascending_split _ _ x Hcs) as (X & Y & -> & HX & HY).
  cbn [descend]. unfold get_nodes. rewrite Hp. cbn [obind].
  unfold find_node. rewrite Hlev, (find_split _ (kf t k)) by done. cbn [obind].
  assert (HY' : forall y Y', Y = y :: Y' -> Forall (fun q => x < kf t k q) Y').
  { intros y Y' ->. rewrite ascending_app, ascending_cons in Hcs. destruct Hcs as (_ & (H & _) & _).
    apply list.Forall_cons in HY as [Hy _]. eapply list.Forall_impl; [exact H|]. simpl. lia. }
  destruct Y as [|y Y]; [|destruct (Z.eqb_spec (kf t k y) x) as [Ey|Ey]].
  - (* the last child *)
    destruct X as [|c X _] using rev_ind; [done|]. rewrite app_nil_r in *.
    rewrite length_app, Nat.add_1_r. cbn [Nat.pred]. rewrite vector_at_app by done. cbn [obind].
    exists c. split; [done|]. exists (concat N1.*2 ++ X), (concat N2.*2).
    rewrite <-!app_assoc. split_and!; auto. right.
    apply list.Forall_app in HX as [_ HX]. apply list.Forall_cons in HX as [HX _]. lia.
  - (* found *)
    rewrite vector_at_app by done. cbn [obind]. exists y. split; [done|].
    exists (concat N1.*2 ++ X), (Y ++ concat N2.*2). rewrite <-!app_assoc. split_and!; auto; [lia|].
    apply list.Forall_app. eauto.
  - apply list.Forall_cons in HY as [Hy HYY].
    destruct X as [|c X _] using rev_ind.
    + (* before the first child *)
      cbn [length Nat.pred app] in *. unfold vector_at. cbn [lookup list_lookup obind]. exists y. split; [done|].
      exists (concat N1.*2), (Y ++ concat N2.*2). split_and!; auto.
      * destruct HA as [HA|HA]; [left|].
        { destruct N1; [done|discriminate]. }
        exfalso. unfold kf in HA at 1. rewrite (generate_up t k p y Y Hp) in HA. fold (kf t k y) in HA. lia.
      * apply list.Forall_app. eauto.
    + rewrite length_app, Nat.add_1_r. cbn [Nat.pred]. rewrite <-app_assoc. cbn [app].
      rewrite vector_at_app by done. cbn [obind]. exists c. split; [done|].
      exists (concat N1.*2 ++ X), ((y :: Y) ++ concat N2.*2). rewrite <-!app_assoc. split_and!; auto.
      * right. apply list.Forall_app in HX as [_ HX]. apply list.Forall_cons in HX as [HX _]. lia.
      * apply list.Forall_app. split; [constructor; [lia|eauto]|done].
Qed.

(** The way down from the root. *)
Lemma descend_tower t k L Ns x :
  tower t k L Ns -> keyed t k L ->
  exists r c, root t = Some r /\ descend t x (level t) r = descend t x k c /\ right_page (kf t k) L x c.
Proof.
  revert k L. induction Ns as [|N Ns IH]; intros k L HT Hk.
  - destruct HT as (r & -> & Hr & <- & _). exists r, r. split_and!; auto. exists [], []. auto.
  - destruct HT as (-> & HN & _ & _ & _ & HT).
    destruct (IH _ _ HT) as (r & p & Hr & E & Hp).
    { apply keyed_up; [|done]. eapply list.Forall_impl; [exact HN|apply node_ok_children]. }
    destruct (descend_step _ _ _ _ _ HN Hk Hp) as (c & E' & Hc).
    exists r, c. split_and!; auto. congruence.
Qed.

End tree.
End BePlusTree.
