(* ===== verification/TreeLevels.v ===== *)
(** * Levels of the B+ tree ([common/classes/tree.h])

    What a change of one level of [BePlusTree] leaves alone, and the ways
    [add] puts a new page among the children of the level above. *)

From S2P Require Import Prelude.
From S2P Require Import BePlusTree.
From stdpp Require Import gmap sorting.
#[local] Open Scope Z_scope.

Module TreeLevels.
Import BePlusTree.

Section tree.
Context {P : TreeParams}.

(** What the levels depend on. *)
Lemma node_ok_frame t t' k N :
  nodes t' !! N.1 = nodes t !! N.1 -> page_level t' N.1 = page_level t N.1 ->
  Forall (fun c => parent t' c = parent t c) N.2 -> node_ok t k N -> node_ok t' k N.
Proof.
  intros H1 H2 H3 (Ha & Hb & Hc & Hd & He). unfold node_ok. rewrite H1, H2. split_and!; auto.
  rewrite list.Forall_forall in *. intros c Hin. rewrite (H3 c Hin). auto.
Qed.

Lemma Forall_node_ok_frame t t' k Ns :
  Forall (fun p => nodes t' !! p = nodes t !! p /\ page_level t' p = page_level t p) Ns.*1 ->
  Forall (fun c => parent t' c = parent t c) (concat Ns.*2) ->
  Forall (node_ok t k) Ns -> Forall (node_ok t' k) Ns.
Proof.
  induction Ns as [|[p cs] Ns IH]; intros H1 H2 H3; [constructor|].
  rewrite !fmap_cons in *. cbn [fst snd concat] in *.
  apply list.Forall_cons in H1 as [[H1 H1'] H1s]. apply list.Forall_app in H2 as [H2 H2s].
  apply list.Forall_cons in H3 as [H3 H3s]. constructor; [by eapply node_ok_frame|auto].
Qed.

Lemma ups_cons N Ns : ups (N :: Ns) = N.*1 ++ ups Ns.
Proof. done. Qed.

Lemma tower_frame t t' k L Ns :
  Forall (fun p => nodes t' !! p = nodes t !! p /\ page_level t' p = page_level t p /\
            prev t' p = prev t p /\ next t' p = next t p) (ups Ns) ->
  Forall (fun c => parent t' c = parent t c) (L ++ ups Ns) ->
  root t' = root t -> level t' = level t -> tower t k L Ns -> tower t' k L Ns.
Proof.
  revert k L. induction Ns as [|N Ns IH]; intros k L H1 H2 Hr Hl.
  - intros (r & -> & Hr' & Hl' & Hp). exists r. rewrite Hr, Hl.
    apply list.Forall_cons in H2 as [H2 _]. rewrite H2. auto.
  - rewrite ups_cons in *. apply list.Forall_app in H1 as [H1 H1'], H2 as [H2 H2'].
    intros (-> & HN & HS & Hlen & Hsp & HT). cbn [tower]. split_and!; auto.
    + eapply Forall_node_ok_frame; [|exact H2|exact HN].
      eapply list.Forall_impl; [exact H1|]. simpl. tauto.
    + eapply seg_frame; [|exact HS]. eapply list.Forall_impl; [exact H1|]. simpl. tauto.
Qed.

(** The place of a new page among its siblings. *)
Lemma find_child t k A1 C1 n C2 B2 :
  keyed t k ((A1 ++ C1) ++ n :: C2 ++ B2) ->
  find (generate t k) (C1 ++ C2) (kf t k n) = Ret (false, length C1).
Proof.
  intros [Hg Ha]. pose proof (ascending_mid _ _ _ _ Ha) as [H1 H2].
  rewrite !list.Forall_app, list.Forall_cons, !list.Forall_app in *.
  destruct Hg as ((_ & Hg1) & _ & Hg2 & _), H1 as [_ H1], H2 as [H2 _].
  rewrite (find_split _ (kf t k)); auto.
  - destruct C2 as [|c C2]; [done|]. apply list.Forall_cons in H2 as [H2 _].
    destruct (Z.eqb_spec (kf t k c) (kf t k n)); [lia|done].
  - by apply list.Forall_app.
  - eapply list.Forall_impl; [exact H2|]. simpl. lia.
Qed.

(** What a repair of the levels above leaves alone: pages outside of these
    levels ([U]), but for the parents of the level below ([L]). *)
Record keeps (t t' : tree) (U L : list ptr) (n : ptr) : Prop := {
  keeps_items : items t' = items t;
  keeps_fresh : (fresh t <= fresh t')%nat;
  keeps_page : forall p, p ∉ U -> (p < fresh t)%nat ->
    nodes t' !! p = nodes t !! p /\ prev t' p = prev t p /\ next t' p = next t p;
  keeps_parent : forall p, p ∉ U -> p ∉ L -> (p < fresh t)%nat -> parent t' p = parent t p;
  keeps_level : forall p, p ∉ U -> p <> n -> (p < fresh t)%nat -> page_level t' p = page_level t p
}.

Lemma link_after_fields n m t :
  items (link_after n m t) = items t /\ nodes (link_after n m t) = nodes t /\
  page_level (link_after n m t) = page_level t /\ parent (link_after n m t) = parent t /\
  level (link_after n m t) = level t /\ root (link_after n m t) = root t /\
  fresh (link_after n m t) = fresh t.
Proof. unfold link_after. destruct (next t m); cbn; done. Qed.

Lemma link_after_other n m t q :
  q <> n -> q <> m -> Some q <> next t m ->
  prev (link_after n m t) q = prev t q /\ next (link_after n m t) q = next t q.
Proof.
  intros H1 H2 H3. unfold link_after.
  destruct (next t m) as [b|]; cbn; rewrite !upd_other by congruence; done.
Qed.

(** A change of the children of pages [P] of one level, with the parents of
    the children [C], of which [n] is new. *)
Record local_change (t t' : tree) (k : nat) (Q C : list ptr) (n : ptr) : Prop := {
  lc_items : items t' = items t;
  lc_links : prev t' = prev t /\ next t' = next t;
  lc_rest : root t' = root t /\ level t' = level t /\ fresh t' = fresh t;
  lc_nodes : forall p, p ∉ Q -> nodes t' !! p = nodes t !! p;
  lc_parent : forall c, c ∉ C -> parent t' c = parent t c;
  lc_level : forall p, p <> n -> page_level t' p = page_level t p;
  lc_new : forall l, k = S l -> page_level t' n = l
}.

Lemma attach_fields n k par t :
  items (setNodeParentAndLevel n k par t) = items t /\
  nodes (setNodeParentAndLevel n k par t) = nodes t /\
  prev (setNodeParentAndLevel n k par t) = prev t /\ next (setNodeParentAndLevel n k par t) = next t /\
  root (setNodeParentAndLevel n k par t) = root t /\ level (setNodeParentAndLevel n k par t) = level t /\
  fresh (setNodeParentAndLevel n k par t) = fresh t /\
  parent (setNodeParentAndLevel n k par t) = upd (parent t) n par /\
  (forall p, p <> n -> page_level (setNodeParentAndLevel n k par t) p = page_level t p) /\
  (forall l, k = S l -> page_level (setNodeParentAndLevel n k par t) n = l).
Proof.
  destruct k as [|l]; cbn; split_and!; auto; try done.
  - intros p Hp. by rewrite upd_other.
  - intros ? [= ->]. apply upd_same.
Qed.

Lemma NoDup_mid {A} (X : list A) n Y : NoDup (X ++ n :: Y) -> (n ∉ X ++ Y) /\ NoDup (X ++ Y).
Proof. intros H. rewrite <-Permutation_middle in H. by apply list.NoDup_cons in H. Qed.

(** The new child goes to the page its left neighbour is on. *)
Lemma attach_here t k p C1 m n C2 :
  node_ok t k (p, C1 ++ m :: C2) -> (length (C1 ++ m :: C2) < NodeCount)%nat -> n <> p ->
  n ∉ C1 ++ m :: C2 ->
  let t' := set_nodes p (C1 ++ m :: n :: C2) (setNodeParentAndLevel n k (Some p) t) in
  node_ok t' k (p, C1 ++ m :: n :: C2) /\ local_change t t' k [p] [n] n.
Proof.
  intros (H1 & H2 & H3 & H4 & H5) Hlen Hnp Hn t'. cbn [fst snd] in *.
  destruct (attach_fields n k (Some p) t) as (Ei & En & Ep & Ex & Er & El & Ef & Epar & Elev & Enew).
  split.
  - unfold t'. split_and!; cbn [fst snd set_nodes with_nodes nodes page_level parent].
    + by rewrite lookup_insert_eq.
    + by destruct C1.
    + rewrite length_app in *. simpl in *. lia.
    + by rewrite Elev.
    + rewrite Epar. rewrite list.Forall_app, !list.Forall_cons in *. destruct H5 as (Ha & Hb & Hc).
      split_and!; [| |by rewrite upd_same|].
      * rewrite list.Forall_forall in *. intros c Hc'. rewrite upd_other; [auto|set_solver].
      * rewrite upd_other; [done|set_solver].
      * rewrite list.Forall_forall in *. intros c Hc'. rewrite upd_other; [auto|set_solver].
  - unfold t'. split; cbn; auto.
    + intros q Hq. rewrite lookup_insert_ne by set_solver. by rewrite En.
    + intros c Hc. rewrite Epar, upd_other; [done|set_solver].
Qed.

Definition node_mem (t : tree) (N : ptr * list ptr) : Prop :=
  nodes t !! N.1 = Some N.2 /\ (length N.2 <= NodeCount)%nat /\
  Forall (fun c => parent t c = Some N.1) N.2.

Lemma node_ok_mem t k N :
  node_ok t k N <-> node_mem t N /\ N.2 <> [] /\ page_level t N.1 = k.
Proof. unfold node_ok, node_mem. tauto. Qed.

Lemma parents_upd (f : ptr -> option ptr) c par x l :
  c ∉ l -> Forall (fun q => f q = x) l -> Forall (fun q => upd f c par q = x) l.
Proof.
  intros Hc. rewrite !list.Forall_forall. intros H q Hq. rewrite upd_other; [auto|set_solver].
Qed.

(** The new child, or the last one, goes to the page after. *)
Lemma attach_next t k p q C1 m n C2 Q :
  node_mem t (p, C1 ++ m :: C2) -> length (C1 ++ m :: C2) = NodeCount ->
  node_mem t (q, Q) -> (length Q < NodeCount)%nat ->
  p <> q -> NoDup (C1 ++ m :: n :: C2 ++ Q) ->
  exists csp csq t',
    node_to_next n p q k (S (length C1)) (C1 ++ m :: C2) t = Ret t' /\
    csp ++ csq = C1 ++ m :: n :: C2 ++ Q /\ csp <> [] /\ length csp = NodeCount /\ csq <> [] /\
    node_mem t' (p, csp) /\ node_mem t' (q, csq) /\ local_change t t' k [p; q] (n :: C2) n.
Proof.
  intros (H1 & H2 & H3) Hfull (Q1 & Q2 & Q3) HQ Hpq Hnd. cbn [fst snd] in *.
  destruct (attach_fields n k (Some q) t) as (Ei & En & Ep & Ex & Er & El & Ef & Epar & Elev & Enew).
  unfold node_to_next, get_nodes. rewrite Q1. cbn [obind].
  assert (Hn : (n ∉ C1 ++ m :: C2 ++ Q)).
  { replace (C1 ++ m :: n :: C2 ++ Q) with ((C1 ++ [m]) ++ n :: C2 ++ Q) in Hnd by by rewrite <-app_assoc.
    apply NoDup_mid in Hnd as [Hnd _]. by rewrite <-app_assoc in Hnd. }
  destruct C2 as [|c C2 _] using rev_ind.
  - rewrite length_app in Hfull. cbn [length] in Hfull.
    rewrite (proj2 (Nat.eqb_eq _ _)) by lia.
    rewrite (vector_insert_app _ [] Q) by done. cbn [obind app].
    eexists (C1 ++ [m]), (n :: Q), _. split; [reflexivity|]. rewrite <-app_assoc.
    split_and!; [done|by destruct C1|rewrite length_app; simpl; lia|done|split_and!|split_and!|split]; cbn [fst snd set_nodes with_nodes nodes page_level parent items root level fresh prev next]; auto.
    + rewrite lookup_insert_ne by done. by rewrite En.
    + rewrite Epar. apply parents_upd; [set_solver|done].
    + by rewrite lookup_insert_eq.
    + rewrite Epar. constructor; [apply upd_same|apply parents_upd; [set_solver|done]].
    + intros r Hr. rewrite lookup_insert_ne by set_solver. by rewrite En.
    + intros d Hd. rewrite Epar, upd_other; [done|set_solver].
  - rewrite !length_app in Hfull. cbn [length] in Hfull. rewrite length_app in Hfull. cbn [length] in Hfull.
    destruct (Nat.eqb_spec (S (length C1)) NodeCount); [lia|].
    replace (C1 ++ m :: C2 ++ [c]) with ((C1 ++ m :: C2) ++ [c]) by by rewrite <-app_assoc.
    rewrite vector_at_app by (rewrite length_app; cbn [length]; lia). cbn [obind].
    rewrite (vector_insert_app _ [] Q) by done. cbn [obind app].
    rewrite vector_shrink_app by (rewrite length_app; cbn [length]; lia). cbn [obind].
    replace (C1 ++ m :: C2) with ((C1 ++ [m]) ++ C2) by by rewrite <-app_assoc.
    rewrite vector_insert_app by (rewrite !length_app; cbn [length]; lia). cbn [obind].
    destruct (attach_fields n k (Some p) (set_nodes q (c :: Q) (setNodeParent c k (Some q) t)))
      as (Ei' & En' & Ep' & Ex' & Er' & El' & Ef' & Epar' & Elev' & Enew').
    cbn [setNodeParent set_nodes with_nodes set_parent nodes page_level parent items root level fresh prev next] in *.
    eexists ((C1 ++ [m]) ++ n :: C2), (c :: Q), _. split; [reflexivity|].
    assert (Hcc : (c ∉ C1 ++ m :: C2 ++ Q) /\ c <> n).
    { replace (C1 ++ m :: n :: (C2 ++ [c]) ++ Q) with ((C1 ++ m :: n :: C2) ++ c :: Q) in Hnd
        by by rewrite <-!app_assoc.
      apply NoDup_mid in Hnd as [Hnd _]. set_solver. }
    destruct Hcc as [Hcc Hcn].
    rewrite !list.Forall_app, !list.Forall_cons, !list.Forall_app in H3. destruct H3 as (P1 & P2 & P3 & P4).
    split_and!; [by rewrite <-!app_assoc|by destruct C1|rewrite !length_app; simpl; lia|done|split_and!|split_and!|split];
      cbn [fst snd set_nodes with_nodes nodes page_level parent items root level fresh prev next]; auto.
    + by rewrite lookup_insert_eq.
    + rewrite !length_app. cbn [length]. lia.
    + rewrite Epar', !list.Forall_app, !list.Forall_cons. split_and!; [| | |by rewrite upd_same|].
      * do 2 (apply parents_upd; [set_solver|]). done.
      * rewrite !upd_other by set_solver. done.
      * constructor.
      * do 2 (apply parents_upd; [set_solver|]). done.
    + rewrite lookup_insert_ne by done. by rewrite En', lookup_insert_eq.
    + rewrite Epar'. constructor.
      * rewrite upd_other, upd_same by set_solver. done.
      * do 2 (apply parents_upd; [set_solver|]). done.
    + intros r Hr. rewrite lookup_insert_ne by set_solver. rewrite En', lookup_insert_ne by set_solver. done.
    + intros d Hd. rewrite Epar', !upd_other; [done|set_solver..].
Qed.

(** The first child goes to the page before. *)
Lemma attach_prev t k p q C1 m n C2 Q :
  node_mem t (p, C1 ++ m :: C2) -> length (C1 ++ m :: C2) = NodeCount -> (2 <= NodeCount)%nat ->
  node_mem t (q, Q) -> (length Q < NodeCount)%nat ->
  p <> q -> NoDup (Q ++ C1 ++ m :: n :: C2) ->
  exists csp csq t',
    node_to_prev n p q k (S (length C1)) (C1 ++ m :: C2) t = Ret t' /\
    csq ++ csp = Q ++ C1 ++ m :: n :: C2 /\ csp <> [] /\ length csp = NodeCount /\ csq <> [] /\
    node_mem t' (p, csp) /\ node_mem t' (q, csq) /\ local_change t t' k [p; q] (n :: C1 ++ [m]) n.
Proof.
  intros (H1 & H2 & H3) Hfull Hcap (Q1 & Q2 & Q3) HQ Hpq Hnd. cbn [fst snd] in *.
  unfold node_to_prev, get_nodes. rewrite Q1. cbn [obind].
  change (S (length C1) =? 0)%nat with false. cbn [obind].
  destruct (C1 ++ [m]) as [|c C1'] eqn:E; [by destruct C1|].
  assert (E2 : forall l, C1 ++ m :: l = c :: C1' ++ l).
  { intros l. change (m :: l) with ([m] ++ l). by rewrite app_assoc, E. }
  assert (El : length C1 = length C1') by (apply (f_equal length) in E; rewrite length_app in E; simpl in E; lia).
  rewrite !E2 in *. clear E E2.
  unfold vector_at at 1. cbn [lookup list_lookup obind].
  rewrite vector_insert_end by done. cbn [obind].
  rewrite (vector_remove_app [] (C1' ++ C2) c 0 eq_refl : vector_remove 0 (c :: C1' ++ C2) = Ret (C1' ++ C2)).
  cbn [obind].
  replace (S (length C1) - 1)%nat with (length C1') by lia.
  rewrite vector_insert_app by (cbn [length] in Hfull; lia). cbn [obind].
  destruct (attach_fields n k (Some p) (set_nodes q (Q ++ [c]) (setNodeParent c k (Some q) t)))
    as (Ei' & En' & Ep' & Ex' & Er' & El' & Ef' & Epar' & Elev' & Enew').
  cbn [setNodeParent set_nodes with_nodes set_parent nodes page_level parent items root level fresh prev next] in *.
  assert (Hn : (n ∉ Q ++ c :: C1' ++ C2) /\ (c ∉ Q ++ C1' ++ C2)).
  { replace (Q ++ c :: C1' ++ n :: C2) with ((Q ++ c :: C1') ++ n :: C2) in Hnd by by rewrite <-app_assoc.
    apply NoDup_mid in Hnd as [Hn Hnd]. rewrite <-app_assoc in Hnd, Hn. cbn [app] in *. split; [done|].
    by apply NoDup_mid in Hnd as [Hnd _]. }
  destruct Hn as [Hn Hcc].
  apply list.Forall_cons in H3 as [P1 P0]. apply list.Forall_app in P0 as [P2 P3].
  eexists (C1' ++ n :: C2), (Q ++ [c]), _. split; [reflexivity|].
  split_and!; [by rewrite <-app_assoc|by destruct C1'|cbn [length] in Hfull; rewrite length_app in *; simpl; lia|by destruct Q|split_and!|split_and!|split];
    cbn [fst snd set_nodes with_nodes nodes page_level parent items root level fresh prev next]; auto.
  + by rewrite lookup_insert_eq.
  + cbn [length] in Hfull. rewrite length_app in *. cbn [length]. lia.
  + rewrite Epar', list.Forall_app, list.Forall_cons. split_and!; [|by rewrite upd_same|];
      do 2 (apply parents_upd; [set_solver|]); done.
  + rewrite lookup_insert_ne by done. by rewrite En', lookup_insert_eq.
  + rewrite length_app. cbn [length]. lia.
  + rewrite Epar', list.Forall_app, list.Forall_singleton. split.
    * do 2 (apply parents_upd; [set_solver|]). done.
    * rewrite upd_other, upd_same by set_solver. done.
  + intros r Hr. rewrite lookup_insert_ne by set_solver. rewrite En', lookup_insert_ne by set_solver. done.
  + intros d Hd. rewrite Epar', !upd_other; [done|set_solver..].
Qed.

(** A changed level, put back between the levels around it. *)
Lemma local_change_tower t t' k Q C n L N N' Ns :
  local_change t t' k Q C n -> N'.*1 = N.*1 -> concat N'.*2 = L -> (2 <= length L)%nat -> spaced (sizes N') ->
  Forall (node_ok t' k) N' ->
  (forall p, p ∈ Q -> p ∈ N.*1) -> (forall c, c ∈ C -> c ∈ L) -> n ∈ L ->
  NoDup (L ++ N.*1 ++ ups Ns) ->
  seg t None N.*1 None -> tower t (S k) N.*1 Ns ->
  tower t' k L (N' :: Ns) /\ keeps t t' (ups (N :: Ns)) L n.
Proof.
  intros [Hi [Hp Hx] (Hr & Hl & Hf) Hn Hpar Hlev Hnew] E1 E2 Hlen Hspc HN HP HC Hn' Hd HS HT.
  apply list.NoDup_app in Hd as (_ & HdL & Hd). apply list.NoDup_app in Hd as (_ & HdN & _).
  split.
  - cbn [tower]. rewrite E1. split_and!; auto.
    + eapply seg_frame; [|exact HS]. apply list.Forall_forall. intros p _. by rewrite Hp, Hx.
    + eapply tower_frame; [| | | |exact HT]; auto; apply list.Forall_forall; intros p Hin.
      * rewrite Hn, Hlev, Hp, Hx; [done|intros ->; apply (HdL n Hn'); set_solver|].
        intros H. apply (HdN p); auto.
      * apply Hpar. intros H. apply (HdL p); [auto|set_solver].
  - split; [done|lia|..].
    + intros p H1 _. rewrite Hn, Hp, Hx; [done|]. intros H. apply H1. rewrite ups_cons. set_solver.
    + intros p H1 H2 _. apply Hpar. auto.
    + auto.
Qed.

Lemma local_change_others t t' k Q C n M :
  local_change t t' k Q C n -> (forall p, p ∈ M.*1 -> p ∉ n :: Q) ->
  (forall c, c ∈ concat M.*2 -> c ∉ C) -> Forall (node_ok t k) M -> Forall (node_ok t' k) M.
Proof.
  intros H HM HC. apply Forall_node_ok_frame; apply list.Forall_forall.
  - intros p Hp. specialize (HM p Hp). rewrite (lc_nodes _ _ _ _ _ _ H), (lc_level _ _ _ _ _ _ H); set_solver.
  - intros c Hc. apply (lc_parent _ _ _ _ _ _ H). auto.
Qed.

Lemma local_change_mem t t' k Q C n p cs :
  local_change t t' k Q C n -> p <> n -> page_level t p = k -> cs <> [] -> node_mem t' (p, cs) ->
  node_ok t' k (p, cs).
Proof.
  intros H Hp Hk Hcs Hm. apply node_ok_mem. split_and!; auto. cbn [fst].
  by rewrite (lc_level _ _ _ _ _ _ H).
Qed.

(** Larger pages are not nearer to merging. *)
Lemma NEED_MERGE_mono a b : (a <= b)%nat -> NEED_MERGE a NodeCount = false -> NEED_MERGE b NodeCount = false.
Proof.
  unfold NEED_MERGE. rewrite !Nat.leb_gt. intros Hab H. eapply Nat.lt_le_trans; [exact H|].
  apply Nat.Div0.div_le_mono. lia.
Qed.

Lemma spaced_le l l' : Forall2 le l l' -> spaced l -> spaced l'.
Proof.
  induction 1 as [|a b l l' Hab Hl IH]; [done|]. cbn [spaced]. intros [H1 H2]. split; [|auto].
  destruct Hl as [|c d l l' Hcd _]; [done|]. eapply NEED_MERGE_mono; [|exact H1]. lia.
Qed.

Lemma sizes_app N1 N2 : sizes (N1 ++ N2) = sizes N1 ++ sizes N2.
Proof. apply fmap_app. Qed.

Lemma sizes_le N1 M M' N2 :
  Forall2 (fun X Y => (length X.2 <= length Y.2)%nat) M M' ->
  Forall2 le (sizes (N1 ++ M ++ N2)) (sizes (N1 ++ M' ++ N2)).
Proof.
  intros H. rewrite !sizes_app. apply Forall2_app; [|apply Forall2_app].
  - by apply Forall_Forall2_diag, Forall_true.
  - unfold sizes. by apply Forall2_fmap.
  - by apply Forall_Forall2_diag, Forall_true.
Qed.

(** A level that has taken in the new child, without a new page. *)
Definition level_done (t t' : tree) (k : nat) (N : list (ptr * list ptr)) (L : list ptr) (n : ptr) : Prop :=
  exists N' Q C, local_change t t' k Q C n /\ N'.*1 = N.*1 /\ Forall2 le (sizes N) (sizes N') /\ concat N'.*2 = L /\
    Forall (node_ok t' k) N' /\ (forall p, p ∈ Q -> p ∈ N.*1) /\ (forall c, c ∈ C -> c ∈ L).

Section level.
Context (t : tree) (k : nat) (N1 N2 : list (ptr * list ptr)) (p : ptr) (C1 C2 : list ptr) (m n : ptr).
Let A := concat N1.*2 ++ C1.
Let B := C2 ++ concat N2.*2.
Context (HN1 : Forall (node_ok t k) N1) (HN2 : Forall (node_ok t k) N2)
  (Hp : node_ok t k (p, C1 ++ m :: C2))
  (Hd : NoDup ((A ++ m :: n :: B) ++ N1.*1 ++ p :: N2.*1)).

Lemma level_here :
  (length (C1 ++ m :: C2) < NodeCount)%nat ->
  level_done t (set_nodes p (C1 ++ m :: n :: C2) (setNodeParentAndLevel n k (Some p) t)) k
    (N1 ++ (p, C1 ++ m :: C2) :: N2) (A ++ m :: n :: B) n.
Proof.
  intros Hlen. apply list.NoDup_app in Hd as (HL & HLN & HP).
  apply NoDup_mid in HP as [HP _].
  replace (A ++ m :: n :: B) with ((A ++ [m]) ++ n :: B) in HL by by rewrite <-app_assoc.
  apply NoDup_mid in HL as [HnL _]. unfold A, B in *.
  destruct (attach_here t k p C1 m n C2) as [Hok Hlc]; auto;
    [intros ->; apply (HLN p); set_solver|set_solver|].
  exists (N1 ++ (p, C1 ++ m :: n :: C2) :: N2), [p], [n]. split_and!; [done| | | | | |].
  - by rewrite !fmap_app.
  - apply (sizes_le N1 [_] [_] N2). constructor; [|constructor]. simpl. rewrite !length_app. simpl. lia.
  - rewrite snd_mid. by rewrite <-!app_assoc.
  - apply list.Forall_app. split; [|constructor; [done|]];
      (eapply local_change_others; [exact Hlc| | |done]); set_solver.
  - intros q ->%list_elem_of_singleton. rewrite fmap_app. set_solver.
  - set_solver.
Qed.
End level.

(** The children of neighbours, as they come in the level below. *)
Lemma level_next t k N1 p C1 m n C2 q Q N2 :
  let L := (concat N1.*2 ++ C1) ++ m :: n :: (C2 ++ Q ++ concat N2.*2) in
  Forall (node_ok t k) N1 -> Forall (node_ok t k) N2 ->
  node_ok t k (p, C1 ++ m :: C2) -> node_ok t k (q, Q) ->
  NoDup (L ++ N1.*1 ++ p :: q :: N2.*1) ->
  length (C1 ++ m :: C2) = NodeCount -> (length Q < NodeCount)%nat ->
  exists t', node_to_next n p q k (S (length C1)) (C1 ++ m :: C2) t = Ret t' /\
    level_done t t' k (N1 ++ (p, C1 ++ m :: C2) :: (q, Q) :: N2) L n.
Proof.
  intros L HN1 HN2 Hp Hq Hd Hfull HQ. apply list.NoDup_app in Hd as (HL & HLN & HP).
  apply NoDup_mid in HP as [HpN HP]. apply NoDup_mid in HP as [HqN _].
  assert (HLL : NoDup (C1 ++ m :: n :: C2 ++ Q)).
  { unfold L in HL. rewrite <-app_assoc in HL. apply list.NoDup_app in HL as (_ & _ & HL).
    replace (C1 ++ m :: n :: C2 ++ Q ++ concat N2.*2) with ((C1 ++ m :: n :: C2 ++ Q) ++ concat N2.*2) in HL
      by by rewrite <-!app_assoc; simpl; rewrite <-!app_assoc.
    by apply list.NoDup_app in HL as (? & _ & _). }
  pose proof (proj1 (node_ok_mem _ _ _) Hp) as (Hpm & Hpc & Hpl).
  pose proof (proj1 (node_ok_mem _ _ _) Hq) as (Hqm & Hqc & Hql). cbn [fst snd] in *.
  destruct (attach_next t k p q C1 m n C2 Q) as (csp & csq & t' & E & Ecs & Hcp & Hlp & Hcq & Hmp & Hmq & Hlc);
    auto; [set_solver|].
  exists t'. split; [done|]. exists (N1 ++ (p, csp) :: (q, csq) :: N2), [p; q], (n :: C2).
  assert (Hnp : p <> n) by (intros <-; apply (HLN p); unfold L; set_solver).
  assert (Hnq : q <> n) by (intros <-; apply (HLN q); unfold L; set_solver).
  assert (Hrest : forall c, c ∈ concat N1.*2 \/ c ∈ concat N2.*2 -> c ∉ n :: C2).
  { unfold L in HL. intros c Hc. apply list.NoDup_app in HL as (_ & H1 & H2).
    apply list.NoDup_cons in H2 as [_ H2]. change (n :: C2 ++ Q ++ concat N2.*2) with ((n :: C2) ++ Q ++ concat N2.*2) in H2.
    apply list.NoDup_app in H2 as (_ & H2 & _). intros Hin. destruct Hc as [Hc|Hc].
    - apply (H1 c); set_solver.
    - apply (H2 c Hin). set_solver. }
  split_and!; [done|by rewrite !fmap_app| | | | |].
  - apply (sizes_le N1 [_; _] [_; _] N2). apply (f_equal length) in Ecs. rewrite !length_app in *.
    cbn [length] in *. rewrite length_app in *. destruct Hmq as (_ & Hmq & _).
    constructor; [|constructor; [|constructor]]; cbn [snd] in *; rewrite ?length_app; cbn [length]; lia.
  - rewrite snd_mid. cbn [fmap list_fmap snd concat]. rewrite (app_assoc csp), Ecs.
    unfold L. rewrite <-!app_assoc. cbn [app]. by rewrite <-!app_assoc.
  - apply list.Forall_app. split; [|constructor; [|constructor]].
    + eapply local_change_others; [exact Hlc| | |done]; [|naive_solver].
      intros r Hr. assert (n <> r) by (intros ->; apply (HLN r); unfold L; set_solver). set_solver.
    + eapply local_change_mem; [exact Hlc|..]; by auto.
    + eapply local_change_mem; [exact Hlc|..]; by auto.
    + eapply local_change_others; [exact Hlc| | |done]; [|naive_solver].
      intros r Hr. assert (n <> r) by (intros ->; apply (HLN r); unfold L; set_solver). set_solver.
  - rewrite fmap_app. set_solver.
  - unfold L. set_solver.
Qed.

Lemma level_prev t k N1 q Q p C1 m n C2 N2 :
  let L := (concat N1.*2 ++ Q ++ C1) ++ m :: n :: (C2 ++ concat N2.*2) in
  Forall (node_ok t k) N1 -> Forall (node_ok t k) N2 ->
  node_ok t k (p, C1 ++ m :: C2) -> node_ok t k (q, Q) ->
  NoDup (L ++ N1.*1 ++ q :: p :: N2.*1) -> (2 <= NodeCount)%nat ->
  length (C1 ++ m :: C2) = NodeCount -> (length Q < NodeCount)%nat ->
  exists t', node_to_prev n p q k (S (length C1)) (C1 ++ m :: C2) t = Ret t' /\
    level_done t t' k (N1 ++ (q, Q) :: (p, C1 ++ m :: C2) :: N2) L n.
Proof.
  intros L HN1 HN2 Hp Hq Hd Hcap Hfull HQ. apply list.NoDup_app in Hd as (HL & HLN & HP).
  apply NoDup_mid in HP as [HqN HP]. apply NoDup_mid in HP as [HpN _].
  assert (HLL : NoDup (concat N1.*2 ++ (Q ++ C1 ++ m :: n :: C2) ++ concat N2.*2)).
  { replace (concat N1.*2 ++ (Q ++ C1 ++ m :: n :: C2) ++ concat N2.*2) with L; [done|].
    unfold L. by rewrite <-!app_assoc. }
  apply list.NoDup_app in HLL as (_ & HLL1 & HLL). apply list.NoDup_app in HLL as (HLL & HLL2 & _).
  pose proof (proj1 (node_ok_mem _ _ _) Hp) as (Hpm & Hpc & Hpl).
  pose proof (proj1 (node_ok_mem _ _ _) Hq) as (Hqm & Hqc & Hql). cbn [fst snd] in *.
  destruct (attach_prev t k p q C1 m n C2 Q) as (csp & csq & t' & E & Ecs & Hcp & Hlp & Hcq & Hmp & Hmq & Hlc);
    auto; [set_solver|].
  exists t'. split; [done|]. exists (N1 ++ (q, csq) :: (p, csp) :: N2), [p; q], (n :: C1 ++ [m]).
  assert (Hn : forall r, r ∈ N1.*1 ++ q :: p :: N2.*1 -> r <> n).
  { intros r Hr <-. apply (HLN r); [|done]. unfold L. set_solver. }
  split_and!; [done|by rewrite !fmap_app| | | | |].
  - apply (sizes_le N1 [_; _] [_; _] N2). apply (f_equal length) in Ecs. rewrite !length_app in *.
    cbn [length] in *. destruct Hmq as (_ & Hmq & _).
    constructor; [|constructor; [|constructor]]; cbn [snd] in *; rewrite ?length_app; cbn [length]; lia.
  - rewrite snd_mid. cbn [fmap list_fmap snd concat]. rewrite (app_assoc csq), Ecs.
    unfold L. by rewrite <-!app_assoc.
  - apply list.Forall_app. split; [|constructor; [|constructor]].
    + eapply local_change_others; [exact Hlc| | |done].
      * intros r Hr. specialize (Hn r). set_solver.
      * intros c Hc Hin. apply (HLL1 c Hc). set_solver.
    + eapply local_change_mem; [exact Hlc|..]; auto. apply Hn. set_solver.
    + eapply local_change_mem; [exact Hlc|..]; auto. apply Hn. set_solver.
    + eapply local_change_others; [exact Hlc| | |done].
      * intros r Hr. specialize (Hn r). set_solver.
      * intros c Hc Hin. apply (HLL2 c); set_solver.
  - rewrite fmap_app. set_solver.
  - unfold L. set_solver.
Qed.

End tree.
End TreeLevels.
