(* ===== verification/TreeSpec.v ===== *)
(** * What the B+ tree stands for ([common/classes/tree.h])

    The whole structure of a [BePlusTree], [wf_at], the sorted list it
    [represents], and the accessor: the way to the leaf for a key, [locate],
    [getFirst], [getLast], [getNext], [getPrev] and [current] as positions in
    that list. *)

From S2P Require Import Prelude.
From S2P Require Import BePlusTree.
From S2P Require Import TreeLevels.
From stdpp Require Import gmap sorting.
#[local] Open Scope Z_scope.

Module TreeSpec.
Import BePlusTree TreeLevels.

Section tree.
Context {P : TreeParams}.

Lemma elem_children {A B} (N : list (A * list B)) q cs c :
  (q, cs) ∈ N -> c ∈ cs -> c ∈ concat N.*2.
Proof.
  intros Hq Hc. apply list_elem_of_In, in_concat. exists cs.
  split; [|by apply list_elem_of_In]. apply list_elem_of_In, list_elem_of_fmap. by exists (q, cs).
Qed.

(** The page a child is on. *)
Lemma concat_split {A B} (N : list (A * list B)) X m Y :
  X ++ m :: Y = concat N.*2 ->
  exists N1 p C1 C2 N2, N = N1 ++ (p, C1 ++ m :: C2) :: N2 /\
    X = concat N1.*2 ++ C1 /\ Y = C2 ++ concat N2.*2.
Proof.
  revert X. induction N as [|[p cs] N IH]; intros X H; cbn [fmap list_fmap snd concat] in H; [by destruct X|].
  apply app_eq_inv in H as [(l & H1 & H2)|(l & H1 & H2)].
  - destruct (IH l (eq_sym H2)) as (N1 & q & C1 & C2 & N2 & -> & -> & ->).
    exists ((p, cs) :: N1), q, C1, C2, N2. subst X. cbn [fmap list_fmap snd concat]. by rewrite <-app_assoc.
  - destruct l as [|m' l]; cbn [app] in H2.
    + destruct (IH [] H2) as (N1 & q & C1 & C2 & N2 & -> & E1 & ->).
      exists ((p, cs) :: N1), q, C1, C2, N2. rewrite app_nil_r in H1. subst cs.
      cbn [fmap list_fmap snd concat]. by rewrite <-app_assoc, <-E1, app_nil_r.
    + injection H2 as <- ->. subst cs. exists [], p, X, l, N. done.
Qed.

(** ** The leaves and the whole tree *)

Definition leaf_ok (t : tree) (X : ptr * list Value) : Prop :=
  items t !! X.1 = Some X.2 /\ (length X.2 <= LeafCount)%nat.

Record wf_at (t : tree) (D : list (ptr * list Value)) (Ns : list (list (ptr * list ptr)))
    (l : list Value) : Prop := {
  wf_leaves : Forall (leaf_ok t) D;
  wf_nonempty : (2 <= length D)%nat -> Forall (fun X => X.2 <> []) D;
  wf_seg : seg t None D.*1 None;
  wf_tower : tower t 0 D.*1 Ns;
  wf_nodup : NoDup (D.*1 ++ ups Ns);
  wf_fresh : forall q, q ∈ D.*1 ++ ups Ns -> (q < fresh t)%nat;
  wf_sorted : ascending key l;
  wf_contents : concat D.*2 = l
}.

(** The tree holds the items [l], in this order. *)
Definition represents (t : tree) (l : list Value) : Prop :=
  (root t = None /\ level t = O /\ l = []) \/ exists D Ns, wf_at t D Ns l.

(** What [add] does to a sorted list. *)
Fixpoint put (v : Value) (l : list Value) : list Value :=
  match l with
  | [] => [v]
  | w :: l' => if key v <? key w then v :: l else if key w <? key v then w :: put v l' else l
  end.

Definition present (k : Z) (l : list Value) : bool := existsb (fun w => key w =? k) l.

Lemma put_item_split v X Y :
  Forall (fun x => key x < key v) X -> Forall (fun y => key v <= key y) Y ->
  put v (X ++ Y) = X ++ (if match Y with y :: _ => key y =? key v | [] => false end then Y else v :: Y).
Proof.
  induction X as [|x X IH]; intros HX HY.
  - destruct Y as [|y Y]; [done|]. apply list.Forall_cons in HY as [HY _]. cbn [app put].
    destruct (Z.eqb_spec (key y) (key v)), (Z.ltb_spec (key v) (key y)), (Z.ltb_spec (key y) (key v)); lia || done.
  - apply list.Forall_cons in HX as [Hx HX]. cbn [app put].
    rewrite (proj2 (Z.ltb_ge (key v) (key x))), (proj2 (Z.ltb_lt (key x) (key v))) by lia. by rewrite IH.
Qed.

Lemma present_split k X Y :
  ascending key (X ++ Y) -> Forall (fun x => key x < k) X -> Forall (fun y => k <= key y) Y ->
  present k (X ++ Y) = match Y with y :: _ => key y =? k | [] => false end.
Proof.
  intros Ha HX HY. unfold present. rewrite existsb_app.
  assert (existsb (fun w => key w =? k) X = false) as ->.
  { clear -HX. induction HX as [|x X Hx _ IH]; [done|]. cbn. rewrite IH.
    destruct (Z.eqb_spec (key x) k); [lia|done]. }
  destruct Y as [|y Y]; [done|]. cbn [existsb orb].
  destruct (Z.eqb_spec (key y) k); [done|]. cbn [orb].
  apply ascending_mid in Ha as [_ Ha]. apply list.Forall_cons in HY as [Hy _].
  clear -Ha Hy. induction Ha as [|z Y Hz _ IH]; [done|]. cbn. rewrite IH.
  destruct (Z.eqb_spec (key z) k); [lia|done].
Qed.

Lemma put_ascending v X Y :
  ascending key (X ++ Y) -> Forall (fun x => key x < key v) X -> Forall (fun y => key v < key y) Y ->
  ascending key (X ++ v :: Y).
Proof.
  rewrite !ascending_app, ascending_cons. intros (H1 & H2 & H3) HX HY. split_and!; auto.
  rewrite list.Forall_forall in *. intros x Hx. constructor; auto.
Qed.

Lemma tower_level t k L Ns : tower t k L Ns -> level t = (k + length Ns)%nat.
Proof.
  revert k L. induction Ns as [|N Ns IH]; intros k L.
  - intros (r & _ & _ & H & _). simpl. lia.
  - intros (_ & _ & _ & _ & _ & H). rewrite (IH _ _ H). simpl. lia.
Qed.

(** The keys of leaves. *)
Lemma keyed_leaves t D :
  Forall (fun X => items t !! X.1 = Some X.2) D -> Forall (fun X => X.2 <> []) D ->
  ascending key (concat D.*2) -> keyed t 0 D.*1.
Proof.
  assert (Hgen : forall p v d, items t !! p = Some (v :: d) -> generate t 0 p = Ret (key v)).
  { intros p v d H. cbn. unfold get_items. by rewrite H. }
  induction D as [|[p d] D IH]; intros HD HN Hasc; [split; constructor|].
  apply list.Forall_cons in HD as [Hp HD], HN as [Hd HN]. cbn [fst snd] in *. destruct d as [|v d]; [done|].
  rewrite !fmap_cons in *. cbn [fst snd concat app] in *.
  apply ascending_cons in Hasc as [Hv Hasc]. apply ascending_app in Hasc as (_ & Hasc & _).
  apply list.Forall_app in Hv as [_ Hv]. destruct (IH HD HN Hasc) as [IH1 IH2].
  assert (Ek : kf t 0 p = key v) by (unfold kf; by rewrite (Hgen p v d)).
  split; [constructor; [by rewrite (Hgen p v d), Ek|done]|]. apply ascending_cons. split; [|done].
  clear -HD HN Hv Ek Hgen. induction D as [|[q e] D IH]; [constructor|].
  apply list.Forall_cons in HD as [Hq HD], HN as [He HN]. cbn [fst snd] in *. destruct e as [|w e]; [done|].
  rewrite !fmap_cons in *. cbn [fst snd concat app] in *. apply list.Forall_cons in Hv as [Hw Hv].
  constructor; [|apply IH; auto; by apply list.Forall_app in Hv as [_ ?]].
  rewrite Ek. unfold kf. by rewrite (Hgen q w e).
Qed.

Lemma wf_items t D Ns l : wf_at t D Ns l -> Forall (fun X => items t !! X.1 = Some X.2) D.
Proof. intros H. eapply list.Forall_impl; [exact (wf_leaves _ _ _ _ H)|]. by intros X []. Qed.

Lemma wf_single t D Ns l : wf_at t D Ns l -> (length D < 2)%nat -> exists r d, D = [(r, d)] /\ Ns = [].
Proof.
  intros H Hlen. pose proof (wf_tower _ _ _ _ H) as HT. destruct Ns as [|N Ns].
  - destruct HT as (r & E & _). destruct D as [|[q d] [|]]; [done| |simpl in Hlen; lia]. by exists q, d.
  - destruct HT as (_ & _ & _ & HT & _). rewrite length_fmap in HT. lia.
Qed.

(** The leaf for a key, and the place of the key on it. *)
Definition found_at (Y : list Value) (k : Z) : bool :=
  match Y with y :: _ => key y =? k | [] => false end.

Record at_leaf (t : tree) (D1 : list (ptr * list Value)) (p : ptr) (X Y : list Value)
    (D2 : list (ptr * list Value)) (k : Z) : Prop := {
  al_find : find key_of_item (X ++ Y) k = Ret (found_at Y k, length X);
  al_before : Forall (fun x => key x < k) (concat D1.*2 ++ X);
  al_from : Forall (fun y => k <= key y) (Y ++ concat D2.*2);
  al_after : Forall (fun y => k < key y) (concat D2.*2)
}.

Lemma find_leaf t D Ns l k :
  wf_at t D Ns l ->
  exists r p D1 d D2, root t = Some r /\ descend t k (level t) r = Ret p /\ D = D1 ++ (p, d) :: D2 /\
    (D1 = [] \/ exists v d', d = v :: d' /\ key v <= k) /\ Forall (fun y => k < key y) (concat D2.*2).
Proof.
  intros H. destruct (decide (2 <= length D)%nat) as [Hlen|Hlen].
  2:{ destruct (wf_single _ _ _ _ H ltac:(lia)) as (r & d & -> & ->).
      destruct (wf_tower _ _ _ _ H) as (r' & [= <-] & Hr & Hl & _).
      exists r, r, [], d, []. rewrite Hl. split_and!; auto. }
  pose proof (wf_items _ _ _ _ H) as HD. pose proof (wf_nonempty _ _ _ _ H Hlen) as HN.
  assert (Hasc : ascending key (concat D.*2)) by (rewrite (wf_contents _ _ _ _ H); apply H).
  destruct (descend_tower t 0 D.*1 Ns k (wf_tower _ _ _ _ H)) as (r & p & Hr & Hdes & A & B & E & HA & HB).
  { by apply keyed_leaves. }
  destruct (fst_split _ _ _ _ E) as (D1 & d & D2 & -> & -> & ->).
  exists r, p, D1, d, D2. split_and!; auto.
  - destruct HA as [HA|HA]; [left; by destruct D1|right].
    apply list.Forall_app in HD as [_ HD], HN as [_ HN].
    apply list.Forall_cons in HD as [Hp _], HN as [Hd _]. cbn [fst snd] in *. destruct d as [|v d]; [done|].
    exists v, d. split; [done|]. unfold kf in HA. cbn in HA. unfold get_items in HA. rewrite Hp in HA. done.
  - apply list.Forall_app in HD as [_ HD], HN as [_ HN]. apply list.Forall_cons in HD as [_ HD], HN as [_ HN].
    rewrite snd_mid, !ascending_app in Hasc. destruct Hasc as (_ & (_ & Hasc & _) & _).
    clear -HD HN HB Hasc. induction D2 as [|[q e] D2 IH]; [constructor|].
    apply list.Forall_cons in HD as [Hq HD], HN as [He HN]. cbn [fst snd] in *. destruct e as [|w e]; [done|].
    rewrite !fmap_cons in *. cbn [fst snd concat] in *. apply list.Forall_cons in HB as [Hw HB].
    apply ascending_app in Hasc as (H1 & H2 & _). apply ascending_cons in H1 as [H1 _].
    unfold kf in Hw. cbn in Hw. unfold get_items in Hw. rewrite Hq in Hw. cbn in Hw.
    apply list.Forall_app. split; [constructor; [lia|]|auto].
    eapply list.Forall_impl; [exact H1|]. simpl. lia.
Qed.

Lemma at_leaf_exists t D Ns l k :
  wf_at t D Ns l ->
  exists r p D1 X Y D2, root t = Some r /\ descend t k (level t) r = Ret p /\
    D = D1 ++ (p, X ++ Y) :: D2 /\ items t !! p = Some (X ++ Y) /\
    l = (concat D1.*2 ++ X) ++ Y ++ concat D2.*2 /\ at_leaf t D1 p X Y D2 k.
Proof.
  intros H. destruct (find_leaf t D Ns l k H) as (r & p & D1 & d & D2 & Hr & Hdes & -> & HD1 & HD2).
  pose proof (wf_items _ _ _ _ H) as HD. apply list.Forall_app in HD as [_ HD].
  apply list.Forall_cons in HD as [Hp _]. cbn [fst snd] in Hp.
  pose proof (wf_sorted _ _ _ _ H) as Hasc. pose proof (wf_contents _ _ _ _ H) as El.
  rewrite snd_mid in El. rewrite <-El in Hasc.
  pose proof (proj1 (ascending_app _ _ _) Hasc) as (_ & Hasc2 & Hlt).
  pose proof (proj1 (ascending_app _ _ _) Hasc2) as (Hd & _ & _).
  destruct (ascending_split _ _ k Hd) as (X & Y & -> & HX & HY).
  exists r, p, D1, X, Y, D2. split_and!; auto; [by rewrite <-El, <-!app_assoc|]. split; auto.
  - unfold found_at. apply (find_split _ key); auto. by apply list.Forall_forall.
  - apply list.Forall_app. split; [|done]. destruct HD1 as [->|(v & d' & E & Hv)]; [constructor|].
    eapply list.Forall_impl; [exact Hlt|]. intros x Hx. rewrite E in Hx. cbn [app] in Hx.
    apply list.Forall_cons in Hx as [Hx _]. lia.
  - apply list.Forall_app. split; [done|]. eapply list.Forall_impl; [exact HD2|]. simpl. lia.
Qed.

(** ** The accessor

    [positioned t l a i]: the accessor stands on item [i] of the list the tree
    represents. *)

Definition cursor (D : list (ptr * list Value)) (a : Accessor) (i : nat) : Prop :=
  exists D1 p d D2, D = D1 ++ (p, d) :: D2 /\ curr a = Some p /\ (curPos a < length d)%nat /\
    i = (length (concat D1.*2) + curPos a)%nat.

Definition positioned (t : tree) (l : list Value) (a : Accessor) (i : nat) : Prop :=
  exists D Ns, wf_at t D Ns l /\ cursor D a i.

Definition count_below (k : Z) (l : list Value) : nat := length (filter (fun v => key v < k) l).

(** The item a key is looked up for. *)
Definition loc_index (lt : LocType) (k : Z) (l : list Value) : option nat :=
  let n := count_below k l in
  let n' := count_below (k + 1) l in
  match lt with
  | locEqual => if present k l then Some n else None
  | locGreatEqual => if (n <? length l)%nat then Some n else None
  | locGreat => if (n' <? length l)%nat then Some n' else None
  | locLess => if (n =? 0)%nat then None else Some (n - 1)%nat
  | locLessEqual => if (n' =? 0)%nat then None else Some (n' - 1)%nat
  end.

Lemma count_below_split k X Y :
  Forall (fun x => key x < k) X -> Forall (fun y => k <= key y) Y -> count_below k (X ++ Y) = length X.
Proof.
  intros HX HY. unfold count_below. rewrite filter_app, length_app.
  assert (filter (fun v => key v < k) X = X) as ->.
  { clear -HX. induction HX as [|x X Hx _ IH]; [done|]. by rewrite filter_cons_True, IH. }
  assert (filter (fun v => key v < k) Y = []) as ->; [|simpl; lia].
  clear -HY. induction HY as [|y Y Hy _ IH]; [done|]. rewrite filter_cons_False by lia. done.
Qed.

Lemma cursor_here D1 p d D2 i :
  (i < length d)%nat -> cursor (D1 ++ (p, d) :: D2) (mk_accessor (Some p) i) (length (concat D1.*2) + i).
Proof. intros H. exists D1, p, d, D2. split_and!; auto. Qed.

(** The first item of the leaves after, and the last of those before. *)
Lemma cursor_next D1 p d q e D2 :
  e <> [] -> cursor (D1 ++ (p, d) :: (q, e) :: D2) (mk_accessor (Some q) 0) (length (concat D1.*2 ++ d)).
Proof.
  intros He. exists (D1 ++ [(p, d)]), q, e, D2. rewrite <-app_assoc. split_and!; auto.
  - destruct e; [done|simpl; lia].
  - rewrite snd_app. cbn [fmap list_fmap snd concat]. rewrite app_nil_r. simpl. lia.
Qed.

Lemma cursor_prev D1 q e p d D2 :
  e <> [] -> cursor (D1 ++ (q, e) :: (p, d) :: D2) (mk_accessor (Some q) (length e - 1))
    (length (concat (D1 ++ [(q, e)]).*2) - 1).
Proof.
  intros He. exists D1, q, e, ((p, d) :: D2). split_and!; auto.
  - destruct e; [done|simpl; lia].
  - rewrite snd_app, length_app. cbn [fmap list_fmap snd concat curPos]. rewrite app_nil_r.
    destruct e; [done|]. simpl. lia.
Qed.

Lemma wf_leaf_nonempty t D1 p d D2 Ns l :
  wf_at t (D1 ++ (p, d) :: D2) Ns l -> D1 <> [] \/ D2 <> [] -> d <> [].
Proof.
  intros H Ho. assert (Hl : (2 <= length (D1 ++ (p, d) :: D2))%nat).
  { rewrite length_app. simpl. destruct D1, D2; simpl; try lia. by destruct Ho. }
  pose proof (wf_nonempty _ _ _ _ H Hl) as HN. apply list.Forall_app in HN as [_ HN].
  by apply list.Forall_cons in HN as [? _].
Qed.

(** The links of a leaf. *)
Lemma wf_neighbours t D1 p d D2 Ns l :
  wf_at t (D1 ++ (p, d) :: D2) Ns l ->
  items t !! p = Some d /\ prev t p = last_of None D1.*1 /\ next t p = first_of D2.*1 None.
Proof.
  intros H. pose proof (wf_items _ _ _ _ H) as HD. apply list.Forall_app in HD as [_ HD].
  apply list.Forall_cons in HD as [HD _]. pose proof (wf_seg _ _ _ _ H) as HS.
  rewrite fmap_app in HS. cbn [fmap list_fmap fst] in HS. split; [done|]. by eapply seg_mid.
Qed.

Lemma current_spec t l a i :
  positioned t l a i -> exists v, current a t = Ret v /\ l !! i = Some v.
Proof.
  intros (D & Ns & H & D1 & p & d & D2 & -> & Hc & Hi & ->). unfold current. rewrite Hc. cbn [the_page obind].
  destruct (wf_neighbours _ _ _ _ _ _ _ H) as (Hp & _ & _). unfold get_items. rewrite Hp. cbn [obind].
  destruct (lookup_lt_is_Some_2 d (curPos a) Hi) as [v Hv]. unfold vector_at. rewrite Hv. exists v.
  split; [done|]. rewrite <-(wf_contents _ _ _ _ H), snd_mid.
  rewrite lookup_app_r by lia. rewrite lookup_app_l by lia. by replace (_ + _ - _)%nat with (curPos a) by lia.
Qed.

Lemma getNext_spec t l a i :
  positioned t l a i ->
  exists a', getNext a t = Ret ((S i <? length l)%nat, a') /\
    (if (S i <? length l)%nat then positioned t l a' (S i) else a' = a).
Proof.
  intros (D & Ns & H & D1 & p & d & D2 & -> & Hc & Hi & ->). unfold getNext, count_of. rewrite Hc.
  cbn [the_page obind]. destruct (wf_neighbours _ _ _ _ _ _ _ H) as (Hp & _ & Hn).
  unfold get_items. rewrite Hp. cbn [obind].
  assert (El : length l = (length (concat D1.*2) + (length d + length (concat D2.*2)))%nat).
  { rewrite <-(wf_contents _ _ _ _ H), snd_mid, !length_app. lia. }
  destruct (Nat.leb_spec (length d) (S (curPos a))) as [Hlast|Hmore].
  - rewrite Hn. destruct D2 as [|[q e] D2]; cbn [fmap list_fmap fst first_of].
    + cbn in El. destruct (Nat.ltb_spec (S (length (concat D1.*2) + curPos a)) (length l)); [lia|]. eauto.
    + assert (He : e <> []).
      { replace (D1 ++ (p, d) :: (q, e) :: D2) with ((D1 ++ [(p, d)]) ++ (q, e) :: D2) in H by by rewrite <-app_assoc.
        eapply wf_leaf_nonempty; [exact H|]. left. by destruct D1. }
      destruct e as [|v e]; [done|]. cbn in El.
      destruct (Nat.ltb_spec (S (length (concat D1.*2) + curPos a)) (length l)); [|lia].
      eexists. split; [done|]. exists (D1 ++ (p, d) :: (q, v :: e) :: D2), Ns. split; [done|].
      replace (S _) with (length (concat D1.*2 ++ d)) by (rewrite length_app; lia). by apply cursor_next.
  - destruct (Nat.ltb_spec (S (length (concat D1.*2) + curPos a)) (length l)); [|lia].
    eexists. split; [done|]. exists (D1 ++ (p, d) :: D2), Ns. split; [done|].
    rewrite <-Nat.add_succ_r. by apply cursor_here.
Qed.

Lemma getPrev_spec t l a i :
  positioned t l a i ->
  exists a', getPrev a t = Ret (negb (i =? 0)%nat, a') /\
    positioned t l a' (i - 1).
Proof.
  intros (D & Ns & H & D1 & p & d & D2 & -> & Hc & Hi & ->). unfold getPrev, count_of. rewrite Hc.
  cbn [the_page obind]. destruct (wf_neighbours _ _ _ _ _ _ _ H) as (Hp & Hpr & _).
  destruct (Nat.eqb_spec (curPos a) 0) as [E0|E0].
  - rewrite Hpr. destruct D1 as [|[q e] D1 _] using rev_ind.
    + cbn [fmap list_fmap last_of list.last concat length]. rewrite E0. cbn. eexists. split; [done|].
      exists ((p, d) :: D2), Ns. split; [done|]. apply (cursor_here [] p d D2 0). lia.
    + rewrite fmap_app. cbn [fmap list_fmap fst]. rewrite last_of_app.
      assert (H' := H). rewrite <-app_assoc in H'. cbn [app] in H'.
      assert (He : e <> []) by (eapply wf_leaf_nonempty; [exact H'|by right]).
      destruct (wf_neighbours _ _ _ _ _ _ _ H') as (Hq & _ & _). unfold get_items. rewrite Hq. cbn [obind].
      rewrite snd_app, length_app, E0. cbn [fmap list_fmap snd concat]. rewrite app_nil_r.
      destruct e as [|v e]; [done|]. destruct (Nat.eqb_spec (length (concat D1.*2) + length (v :: e) + 0) 0) as [E|E]; [simpl in E; lia|].
      eexists. split; [done|]. exists (D1 ++ (q, v :: e) :: (p, d) :: D2), Ns. split; [done|].
      pose proof (cursor_prev D1 q (v :: e) p d D2 ltac:(done)) as Hcu.
      rewrite snd_app, length_app in Hcu. cbn [fmap list_fmap snd concat] in Hcu. rewrite app_nil_r in Hcu.
      by rewrite Nat.add_0_r.
  - destruct (Nat.eqb_spec (length (concat D1.*2) + curPos a) 0); [lia|].
    eexists. split; [done|]. exists (D1 ++ (p, d) :: D2), Ns. split; [done|].
    rewrite <-Nat.add_sub_assoc by lia. apply cursor_here. lia.
Qed.

(** The ends of the tree. *)
Lemma first_leaf_tower t k L Ns :
  tower t k L Ns -> exists r p L', root t = Some r /\ L = p :: L' /\ first_leaf t (level t) r = first_leaf t k p.
Proof.
  revert k L. induction Ns as [|N Ns IH]; intros k L.
  - intros (r & -> & Hr & <- & _). by exists r, r, [].
  - intros (-> & HN & _ & Hlen & _ & HT). destruct (IH _ _ HT) as (r & p & L' & Hr & EL & E).
    destruct N as [|[q cs] N]; [done|]. injection EL as <- _.
    apply list.Forall_cons in HN as [(Hn & Hc & _) _]. cbn [fst snd] in *. destruct cs as [|c cs]; [done|].
    exists r, c. eexists. split_and!; [done|done|]. rewrite E. cbn [first_leaf]. unfold get_nodes. by rewrite Hn.
Qed.

Lemma last_leaf_tower t k L Ns :
  tower t k L Ns ->
  exists r p L', root t = Some r /\ L = L' ++ [p] /\ last_leaf t (level t) r = last_leaf t k p.
Proof.
  revert k L. induction Ns as [|N Ns IH]; intros k L.
  - intros (r & -> & Hr & <- & _). by exists r, r, [].
  - intros (-> & HN & _ & Hlen & _ & HT). destruct (IH _ _ HT) as (r & p & L' & Hr & EL & E).
    destruct N as [|[q cs] N _] using rev_ind; [by destruct L'|].
    rewrite fmap_app in EL. cbn [fmap list_fmap fst] in EL. apply app_inj_tail in EL as [_ <-].
    apply list.Forall_app in HN as [_ HN]. rewrite list.Forall_singleton in HN. destruct HN as (Hn & Hc & _).
    cbn [fst snd] in *. destruct cs as [|c cs _] using rev_ind; [done|].
    exists r, c, (concat N.*2 ++ cs). split_and!; [done| |].
    + rewrite snd_app. cbn [fmap list_fmap snd concat]. by rewrite app_nil_r, app_assoc.
    + rewrite E. cbn [last_leaf]. unfold get_nodes. rewrite Hn. cbn [obind].
      rewrite vector_at_app by (rewrite length_app; simpl; lia). done.
Qed.

Lemma getFirst_spec a t l :
  represents t l ->
  exists a', getFirst a t = Ret (negb (length l =? 0)%nat, a') /\ (l <> [] -> positioned t l a' 0).
Proof.
  intros [(Hr & _ & ->)|(D & Ns & H)].
  { exists a. unfold getFirst. rewrite Hr. done. }
  destruct (first_leaf_tower _ _ _ _ (wf_tower _ _ _ _ H)) as (r & p & L' & Hr & EL & E).
  destruct D as [|[p' d] D]; [done|]. injection EL as -> _.
  unfold getFirst, count_of. rewrite Hr, E. cbn [first_leaf obind].
  destruct (wf_neighbours t [] p d D Ns l H) as (Hp & _). unfold get_items. rewrite Hp. cbn [obind].
  pose proof (wf_contents _ _ _ _ H) as El. cbn [fmap list_fmap snd concat] in El.
  assert (Hd : d = [] -> D = []).
  { intros ->. destruct D as [|X D]; [done|]. exfalso. apply (wf_leaf_nonempty t [] p [] (X :: D) Ns l H); auto. }
  eexists. split.
  - do 3 f_equal. destruct d as [|v d]; [by rewrite Hd in El by done; subst l|]. by rewrite <-El.
  - intros Hl. exists ((p, d) :: D), Ns. split; [done|]. apply (cursor_here [] p d D 0).
    destruct d; [|simpl; lia]. rewrite Hd in El by done. by subst l.
Qed.

Lemma getLast_spec a t l :
  represents t l ->
  exists a', getLast a t = Ret (negb (length l =? 0)%nat, a') /\ (l <> [] -> positioned t l a' (length l - 1)).
Proof.
  intros [(Hr & _ & ->)|(D & Ns & H)].
  { exists a. unfold getLast. rewrite Hr. done. }
  destruct (last_leaf_tower _ _ _ _ (wf_tower _ _ _ _ H)) as (r & p & L' & Hr & EL & E).
  destruct (fst_split D L' p [] EL) as (D1 & d & D2 & -> & -> & E2). destruct D2; [|done]. clear E2.
  unfold getLast, count_of. rewrite Hr, E. cbn [last_leaf obind].
  destruct (wf_neighbours t D1 p d [] Ns l H) as (Hp & _). unfold get_items. rewrite Hp. cbn [obind].
  pose proof (wf_contents _ _ _ _ H) as El. rewrite snd_mid in El. cbn [fmap list_fmap concat] in El.
  rewrite app_nil_r in El.
  assert (Hd : d = [] -> D1 = []).
  { intros ->. destruct D1 as [|X D1]; [done|]. exfalso. apply (wf_leaf_nonempty t (X :: D1) p [] [] Ns l H); auto. }
  subst l. rewrite length_app in *. destruct d as [|v d].
  - rewrite Hd by done. cbn. eexists. split; [done|]. intros Hl. done.
  - cbn [length Nat.eqb]. rewrite Nat.add_succ_r. cbn [Nat.eqb negb]. eexists. split; [done|].
    intros _. exists (D1 ++ [(p, v :: d)]), Ns. split; [done|].
    replace (S (length (concat D1.*2) + length d) - 1)%nat with (length (concat D1.*2) + (S (length d) - 1))%nat by lia.
    apply cursor_here. simpl. lia.
Qed.

(** Steps from a place on a leaf, to the item there or to the item before. *)
Lemma step_forward t D1 p d D2 Ns l pos :
  wf_at t (D1 ++ (p, d) :: D2) Ns l -> (pos <= length d)%nat ->
  let a := if (pos =? length d)%nat then mk_accessor (next t p) 0 else mk_accessor (Some p) pos in
  let i := (length (concat D1.*2) + pos)%nat in
  is_page (curr a) = (i <? length l)%nat /\ ((i < length l)%nat -> positioned t l a i).
Proof.
  intros H Hpos a i. destruct (wf_neighbours _ _ _ _ _ _ _ H) as (_ & _ & Hn).
  assert (El : length l = (length (concat D1.*2) + (length d + length (concat D2.*2)))%nat).
  { rewrite <-(wf_contents _ _ _ _ H), snd_mid, !length_app. lia. }
  unfold a, i. destruct (Nat.eqb_spec pos (length d)) as [->|Hne].
  - rewrite Hn. destruct D2 as [|[q e] D2]; cbn [fmap list_fmap fst first_of curr is_page].
    + cbn in El. destruct (Nat.ltb_spec (length (concat D1.*2) + length d) (length l)); [lia|]. split; [done|lia].
    + assert (He : e <> []).
      { replace (D1 ++ (p, d) :: (q, e) :: D2) with ((D1 ++ [(p, d)]) ++ (q, e) :: D2) in H by by rewrite <-app_assoc.
        eapply wf_leaf_nonempty; [exact H|]. left. by destruct D1. }
      cbn [fmap list_fmap snd concat] in El. rewrite length_app in El.
      assert (0 < length e)%nat by (destruct e; [done|simpl; lia]).
      destruct (Nat.ltb_spec (length (concat D1.*2) + length d) (length l)); [|lia]. split; [done|]. intros _.
      exists (D1 ++ (p, d) :: (q, e) :: D2), Ns. split; [done|].
      rewrite <-length_app. by apply cursor_next.
  - destruct (Nat.ltb_spec (length (concat D1.*2) + pos) (length l)); [|lia]. split; [done|]. intros _.
    exists (D1 ++ (p, d) :: D2), Ns. split; [done|]. apply cursor_here. lia.
Qed.

Lemma step_backward t D1 p d D2 Ns l pos :
  wf_at t (D1 ++ (p, d) :: D2) Ns l -> (pos <= length d)%nat ->
  let i := (length (concat D1.*2) + pos)%nat in
  exists a, (if (pos =? 0)%nat then
      match prev t p with
      | None => Ret (false, mk_accessor None pos)
      | Some q => let* n := count_of t q in Ret (true, mk_accessor (Some q) (n - 1))
      end
    else Ret (true, mk_accessor (Some p) (pos - 1))) = Ret (negb (i =? 0)%nat, a) /\
    (i <> O -> positioned t l a (i - 1)).
Proof.
  intros H Hpos i. unfold i. destruct (Nat.eqb_spec pos 0) as [->|E0].
  - destruct (wf_neighbours _ _ _ _ _ _ _ H) as (_ & Hpr & _). rewrite Hpr.
    destruct D1 as [|[q e] D1 _] using rev_ind.
    { eexists. split; [done|]. cbn. lia. }
    rewrite fmap_app. cbn [fmap list_fmap fst]. rewrite last_of_app.
    assert (H' := H). rewrite <-app_assoc in H'. cbn [app] in H'.
    assert (He : e <> []) by (eapply wf_leaf_nonempty; [exact H'|by right]).
    destruct (wf_neighbours _ _ _ _ _ _ _ H') as (Hq & _ & _). unfold count_of, get_items. rewrite Hq. cbn [obind].
    pose proof (cursor_prev D1 q e p d D2 He) as Hcu.
    rewrite Nat.add_0_r. destruct (Nat.eqb_spec (length (concat (D1 ++ [(q, e)]).*2)) 0) as [E|E].
    { rewrite snd_app, length_app in E. cbn in E. rewrite app_nil_r in E. destruct e; [done|simpl in E; lia]. }
    eexists. split; [done|]. intros _. by exists (D1 ++ (q, e) :: (p, d) :: D2), Ns.
  - destruct (Nat.eqb_spec (length (concat D1.*2) + pos) 0); [lia|]. eexists. split; [done|]. intros _.
    exists (D1 ++ (p, d) :: D2), Ns. split; [done|]. rewrite <-Nat.add_sub_assoc by lia. apply cursor_here. lia.
Qed.

(** How many items are below a key, and up to it. *)
Lemma at_leaf_counts t D1 p X Y D2 k l :
  ascending key l -> l = (concat D1.*2 ++ X) ++ Y ++ concat D2.*2 -> at_leaf t D1 p X Y D2 k ->
  present k l = found_at Y k /\
  count_below k l = (length (concat D1.*2) + length X)%nat /\
  count_below (k + 1) l = (length (concat D1.*2) + (if found_at Y k then S (length X) else length X))%nat.
Proof.
  intros Ha El [_ HX HY HD]. split_and!.
  - rewrite El in Ha |- *. rewrite (present_split k) by done. destruct Y as [|y Y]; [|done]. cbn.
    destruct (concat D2.*2) as [|z Z]; [done|]. apply list.Forall_cons in HD as [HD _].
    destruct (Z.eqb_spec (key z) k); [lia|done].
  - rewrite El, count_below_split, length_app by done. done.
  - assert (HD' : Forall (fun y => k + 1 <= key y) (concat D2.*2)).
    { eapply list.Forall_impl; [exact HD|]. simpl. lia. }
    assert (HX' : Forall (fun x => key x < k + 1) (concat D1.*2 ++ X)).
    { eapply list.Forall_impl; [exact HX|]. simpl. lia. }
    rewrite El in *. destruct Y as [|y Y]; cbn [found_at].
    { rewrite count_below_split, length_app by done. lia. }
    apply list.Forall_app in HY as [HY _]. apply list.Forall_cons in HY as [Hy HY].
    apply ascending_app in Ha as (_ & Ha & _). apply ascending_app in Ha as (Ha & _ & _).
    apply ascending_cons in Ha as [Ha _]. destruct (Z.eqb_spec (key y) k) as [Ey|Ey].
    + change ((y :: Y) ++ concat D2.*2) with ([y] ++ Y ++ concat D2.*2). rewrite app_assoc, count_below_split.
      * rewrite !length_app. simpl. lia.
      * apply list.Forall_app. split; [done|]. constructor; [lia|constructor].
      * apply list.Forall_app. split; [|done]. eapply list.Forall_impl; [exact Ha|]. simpl. lia.
    + rewrite count_below_split, length_app; [lia|done|]. apply list.Forall_app. split; [|done].
      constructor; [lia|]. eapply list.Forall_impl; [exact Ha|]. simpl. lia.
Qed.

Lemma found_at_true Y k : found_at Y k = true -> Y <> [].
Proof. by destruct Y. Qed.

(** [Accessor::locate]: on every kind of search, the item of [loc_index]. *)
Lemma locate_ok lt k a t l :
  represents t l ->
  exists a', locate lt k a t = Ret (match loc_index lt k l with Some _ => true | None => false end, a') /\
    forall i, loc_index lt k l = Some i -> positioned t l a' i.
Proof.
  intros [(Hr & _ & ->)|(D & Ns & H)].
  { exists a. unfold locate. rewrite Hr. by destruct lt. }
  destruct (at_leaf_exists t D Ns l k H) as (r & p & D1 & X & Y & D2 & Hr & Hdes & -> & Hp & El & Hal).
  destruct (at_leaf_counts _ _ _ _ _ _ _ _ (wf_sorted _ _ _ _ H) El Hal) as (Hpr & Hn & Hn').
  assert (Hlen : (length X <= length (X ++ Y))%nat) by (rewrite length_app; lia).
  assert (Hlen' : ((if found_at Y k then S (length X) else length X) <= length (X ++ Y))%nat).
  { rewrite length_app. destruct Y; simpl; [lia|]. destruct (key v =? k); lia. }
  assert (Hhere : found_at Y k = true ->
    positioned t l (mk_accessor (Some p) (length X)) (length (concat D1.*2) + length X)).
  { intros Hf. apply found_at_true in Hf. exists (D1 ++ (p, X ++ Y) :: D2), Ns. split; [done|].
    apply cursor_here. rewrite length_app. destruct Y; [done|simpl; lia]. }
  destruct (step_forward _ _ _ _ _ _ _ _ H Hlen) as [HF1 HF2].
  destruct (step_forward _ _ _ _ _ _ _ _ H Hlen') as [HG1 HG2].
  destruct (step_backward _ _ _ _ _ _ _ _ H Hlen) as (ab & Eb & Hb). cbv zeta in *.
  unfold locate. rewrite Hr, Hdes. cbn [obind]. unfold get_items. rewrite Hp. cbn [obind].
  rewrite (al_find _ _ _ _ _ _ _ Hal). cbn [obind]. unfold loc_index. rewrite Hn, Hn', Hpr.
  destruct lt.
  - eexists. split; [destruct (found_at Y k); reflexivity|]. intros i. destruct (found_at Y k); [|done].
    intros [= <-]. auto.
  - rewrite Eb. destruct (Nat.eqb_spec (length (concat D1.*2) + length X) 0); eexists; (split; [reflexivity|]);
      intros i; [done|]. intros [= <-]. by apply Hb.
  - eexists. rewrite HG1. split.
    { destruct (length (concat D1.*2) + (if found_at Y k then S (length X) else length X) <? length l)%nat;
        reflexivity. }
    intros i. destruct (Nat.ltb_spec (length (concat D1.*2) + (if found_at Y k then S (length X) else length X)) (length l));
      [|done]. intros [= <-]. by apply HG2.
  - eexists. rewrite HF1. split.
    + destruct (Nat.ltb_spec (length (concat D1.*2) + length X) (length l)) as [|Hge]; [by rewrite orb_true_r|].
      destruct (found_at Y k) eqn:Ef; [|reflexivity]. exfalso.
      apply found_at_true in Ef. rewrite El, !length_app in Hge. destruct Y; [done|simpl in Hge; lia].
    + intros i. destruct (Nat.ltb_spec (length (concat D1.*2) + length X) (length l)); [|done].
      intros [= <-]. by apply HF2.
  - destruct (found_at Y k) eqn:Ef.
    + rewrite Nat.add_succ_r. cbn [Nat.eqb]. eexists. split; [reflexivity|]. intros i [= <-].
      rewrite Nat.sub_0_r. auto.
    + rewrite Eb. destruct (Nat.eqb_spec (length (concat D1.*2) + length X) 0); eexists; (split; [reflexivity|]);
        intros i; [done|]. intros [= <-]. by apply Hb.
Qed.

(** A change of items only. *)
Lemma wf_items_changed t f D D' Ns l l' :
  wf_at t D Ns l -> D'.*1 = D.*1 ->
  Forall (leaf_ok (with_items f t)) D' -> ((2 <= length D')%nat -> Forall (fun X => X.2 <> []) D') ->
  ascending key l' -> concat D'.*2 = l' -> wf_at (with_items f t) D' Ns l'.
Proof.
  intros [_ _ HS HT Hd Hf _ _] E HD HN Ha Hc. split; rewrite ?E; auto.
  - eapply seg_frame; [|exact HS]. by apply list.Forall_forall.
  - eapply tower_frame; [| | | |exact HT]; auto; by apply list.Forall_forall.
Qed.

Lemma leaf_ok_other t f D :
  (forall q, q ∈ D.*1 -> f (items t) !! q = items t !! q) -> Forall (leaf_ok t) D ->
  Forall (leaf_ok (with_items f t)) D.
Proof.
  intros Hf. rewrite !list.Forall_forall. intros H X HX. destruct (H X HX) as [H1 H2]. split; [|done].
  cbn. rewrite Hf; [done|]. apply list_elem_of_fmap. by exists X.
Qed.

Lemma ascending_insert (l : list Value) i v w :
  l !! i = Some v -> key w = key v -> ascending key l -> ascending key (<[i := w]> l).
Proof.
  intros Hv Hk. rewrite <-!(ascending_fmap (fun z => z) key), list_fmap_insert, Hk.
  rewrite list_insert_id; [done|]. by rewrite list_lookup_fmap, Hv.
Qed.

(** An assignment through [current] that keeps the key. *)
Lemma set_current_spec t l a i v w :
  positioned t l a i -> l !! i = Some v -> key w = key v ->
  exists t', set_current w a t = Ret t' /\ positioned t' (<[i := w]> l) a i.
Proof.
  intros (D & Ns & H & D1 & p & d & D2 & -> & Hc & Hi & ->) Hv Hk. unfold set_current. rewrite Hc.
  cbn [the_page obind]. destruct (wf_neighbours _ _ _ _ _ _ _ H) as (Hp & _ & _). unfold get_items. rewrite Hp.
  destruct (lookup_lt_is_Some_2 d (curPos a) Hi) as [u Hu]. unfold vector_at. cbn [obind]. rewrite Hu. cbn [obind].
  eexists. split; [done|]. exists (D1 ++ (p, <[curPos a := w]> d) :: D2), Ns. split.
  - pose proof (wf_nodup _ _ _ _ H) as Hd. apply list.NoDup_app in Hd as (Hd & _ & _).
    rewrite fmap_app in Hd. cbn [fmap list_fmap fst] in Hd. rewrite <-Permutation_middle in Hd.
    apply list.NoDup_cons in Hd as [Hd _].
    pose proof (wf_leaves _ _ _ _ H) as HD. apply list.Forall_app in HD as [HD1 HD].
    apply list.Forall_cons in HD as [[_ Hl] HD2]. cbn [snd] in Hl.
    eapply wf_items_changed; [exact H|by rewrite !fmap_app| | | |].
    + apply list.Forall_app. split; [|constructor].
      * apply leaf_ok_other; [|done]. intros q Hq. apply lookup_insert_ne. intros ->. apply Hd. mem.
      * split; cbn [fst snd]; [cbn; by rewrite lookup_insert_eq|by rewrite length_insert].
      * apply leaf_ok_other; [|done]. intros q Hq. apply lookup_insert_ne. intros ->. apply Hd. mem.
    + intros Hlen. assert (HN := wf_nonempty _ _ _ _ H). rewrite !length_app in *. cbn [length] in *.
      specialize (HN Hlen). apply list.Forall_app in HN as [HN1 HN]. apply list.Forall_cons in HN as [_ HN2].
      apply list.Forall_app. split; [done|]. constructor; [|done]. cbn [snd]. intros E.
      apply (f_equal length) in E. rewrite length_insert in E. simpl in E. lia.
    + eapply ascending_insert; [exact Hv|done|apply H].
    + rewrite <-(wf_contents _ _ _ _ H), !snd_mid, insert_app_r, insert_app_l; done.
  - exists D1, p, (<[curPos a := w]> d), D2. rewrite length_insert. done.
Qed.

End tree.
End TreeSpec.
