(* ===== verification/TreeAdd.v ===== *)
(** * Insertion into the B+ tree ([common/classes/tree.h])

    [add] keeps the structure of [BePlusTree] and inserts into its sorted
    contents: the way up through the levels above a new leaf page, the cases
    on the leaves, and the theorem. *)

From S2P Require Import Prelude.
From S2P Require Import BePlusTree.
From S2P Require Import TreeSpec.
From S2P Require Import TreeLevels.
From stdpp Require Import gmap sorting.
#[local] Open Scope Z_scope.

Module TreeAdd.
Import BePlusTree TreeSpec TreeLevels.

Section tree.
Context {P : TreeParams}.

(** The keys of a level do not depend on the levels above. *)
Definition stable (t : tree) (k : nat) (U L : list ptr) : Prop :=
  forall t', items t' = items t ->
    (forall p, p ∉ U -> (p < fresh t)%nat -> nodes t' !! p = nodes t !! p) ->
    Forall (fun c => generate t' k c = generate t k c) L.

(** The outcome of [climb]. *)
Definition climbed (t t' : tree) (k : nat) (L : list ptr) (n : ptr)
    (Ns Ns' : list (list (ptr * list ptr))) : Prop :=
  tower t' k L Ns' /\ keeps t t' (ups Ns) L n /\ NoDup (ups Ns') /\
  (forall u, u ∈ ups Ns' -> u ∈ ups Ns \/ (fresh t <= u < fresh t')%nat) /\
  (forall l, k = S l -> page_level t' n = l).

Lemma new_NodeList_ok after t :
  pool (fresh t) = true ->
  exists t', new_NodeList after t = Some (fresh t, t') /\
    items t' = items t /\ nodes t' = <[fresh t := []]> (nodes t) /\
    page_level t' = page_level t /\ parent t' = upd (parent t) (fresh t) None /\
    level t' = level t /\ root t' = root t /\ fresh t' = S (fresh t) /\
    t' = (let t0 := set_parent (fresh t) None (set_nodes (fresh t) [] (mk_tree (items t) (nodes t) (page_level t)
            (parent t) (next t) (prev t) (level t) (root t) (S (fresh t)))) in
          match after with Some q => link_after (fresh t) q t0 | None => link_first (fresh t) t0 end).
Proof.
  intros Hp. unfold new_NodeList, allocate. rewrite Hp. eexists. split; [reflexivity|].
  destruct after as [q|]; [|by split_and!].
  match goal with |- context [link_after ?a ?b ?c] => destruct (link_after_fields a b c) as (-> & -> & -> & -> & -> & -> & ->) end.
  cbn. done.
Qed.

Lemma stable_keyed t t' k U L :
  stable t k U L -> items t' = items t ->
  (forall p, p ∉ U -> (p < fresh t)%nat -> nodes t' !! p = nodes t !! p) -> keyed t k L -> keyed t' k L.
Proof. intros H Hi Hn. apply keyed_ext. auto. Qed.

(** A new root. *)
Lemma new_root_ok t k m n map :
  tower t k [m] [] -> keyed t k [m; n] -> stable t k [] [m; n] -> m <> n ->
  (m < fresh t)%nat -> (n < fresh t)%nat -> pool (fresh t) = true -> (2 <= NodeCount)%nat ->
  exists t', new_root n map t = Ret (Added true, t') /\
    climbed t t' k [m; n] n [] [[(fresh t, [m; n])]].
Proof.
  intros (r & [= <-] & Hr & Hl & Hpar) Hk Hst Hmn Hm Hn Hpool Hcap.
  destruct (new_NodeList_ok None t Hpool) as (t0 & E & Ei & En & El & Ep & Elv & Er & Ef & Et).
  unfold new_root. rewrite E, Hr. clear E.
  rewrite (vector_insert_app NodeCount [] [] m 0) by (cbn; lia). cbn [obind app].
  set (t1 := set_nodes (fresh t) [m] (set_page_level (fresh t) (level t0) t0)).
  assert (Hlev : level t1 = k) by (cbn; congruence). rewrite Hlev.
  destruct (attach_fields n k (Some (fresh t)) t1)
    as (Ei' & En' & Ep' & Ex' & Er' & El' & Ef' & Epar' & Elev' & Enew').
  set (t2 := setNodeParentAndLevel n k (Some (fresh t)) t1) in *.
  unfold setNodeParent. set (t3 := set_parent m (Some (fresh t)) t2).
  assert (Hlf : page_level t3 (fresh t) = k).
  { cbn. rewrite Elev' by lia. cbn. rewrite upd_same. congruence. }
  assert (Hk3 : keyed t3 k [m; n]).
  { eapply stable_keyed; [exact Hst| | |exact Hk].
    - cbn. rewrite Ei'. cbn. done.
    - intros p _ Hp. cbn. rewrite En'. cbn. rewrite En, !lookup_insert_ne by lia. done. }
  rewrite Hlf. unfold sorted_add. pose proof (proj1 Hk3) as Hg.
  apply list.Forall_cons in Hg as [_ Hg]. apply list.Forall_cons in Hg as [-> _]. cbn [obind].
  pose proof (find_child t3 k [] [m] n [] [] Hk3) as Hfc. cbn [app] in Hfc. rewrite Hfc. cbn [obind].
  rewrite (vector_insert_app NodeCount [m] []) by (done || cbn; lia). cbn [obind app].
  eexists. split; [reflexivity|]. split_and!.
  - cbn [tower]. split_and!; [done| | |done|done|].
    + apply list.Forall_singleton. split_and!; cbn; auto; [by rewrite lookup_insert_eq|].
      cbn. rewrite Epar'. constructor; [by rewrite upd_same|].
      constructor; [|constructor]. rewrite upd_other by done. by rewrite upd_same.
    + cbn. rewrite Ep', Ex'. cbn. rewrite Et. cbn. by rewrite !upd_same.
    + exists (fresh t). cbn. rewrite El', Hlev, Epar'. split_and!; auto.
      rewrite !upd_other by lia. cbn. by rewrite Ep, upd_same.
  - split; cbn.
    + by rewrite Ei'.
    + rewrite Ef'. cbn. lia.
    + intros p _ Hp. rewrite lookup_insert_ne by lia. rewrite En', Ep', Ex'. cbn.
      rewrite lookup_insert_ne, En, lookup_insert_ne by lia. rewrite Et. cbn. by rewrite !upd_other by lia.
    + intros p _ Hp Hlt. rewrite Epar', !upd_other by (set_solver || lia). cbn. by rewrite Ep, upd_other by lia.
    + intros p _ Hp Hlt. rewrite Elev' by done. cbn. rewrite upd_other by lia. by rewrite El.
  - apply NoDup_singleton.
  - intros u ->%list_elem_of_singleton. right. cbn. rewrite Ef'. cbn. lia.
  - intros l ->. cbn. by apply Enew'.
Qed.

Lemma NoDup_mid' {A} (l X : list A) n Y : NoDup l -> l = X ++ n :: Y -> (n ∉ X ++ Y) /\ NoDup (X ++ Y).
Proof. intros H ->. by apply NoDup_mid. Qed.

Lemma spaced_cons a l :
  spaced (a :: l) <-> match l with b :: _ => NEED_MERGE (a + b) NodeCount = false | [] => True end /\ spaced l.
Proof. done. Qed.

(** A page of any size between full ones. *)
Lemma spaced_split l1 a l2 :
  spaced (l1 ++ NodeCount :: l2) -> (1 <= a)%nat -> match l2 with b :: _ => b = NodeCount | [] => True end ->
  spaced (l1 ++ NodeCount :: a :: l2).
Proof.
  intros H Ha Hb. assert (Hm : forall x y, (NodeCount < x + y)%nat -> NEED_MERGE (x + y) NodeCount = false).
  { intros x y Hxy. unfold NEED_MERGE. apply Nat.leb_gt. eapply Nat.lt_le_trans; [exact Hxy|].
    apply Nat.div_le_lower_bound; lia. }
  induction l1 as [|x l1 IH]; cbn [app] in *.
  - apply spaced_cons in H as [_ H]. rewrite !spaced_cons. split_and!; [apply Hm; lia| |done].
    destruct l2 as [|b l2]; [done|]. subst b. apply Hm. lia.
  - apply spaced_cons in H as [H1 H]. apply spaced_cons. split; [|auto]. by destruct l1.
Qed.

(** A new page at one level, before it has a parent. *)
Record split_state (t t2 : tree) (k : nat) (N : list (ptr * list ptr)) (Ns : list (list (ptr * list ptr)))
    (L : list ptr) (n : ptr) (N' : list (ptr * list ptr)) : Prop := {
  sp_tower : tower t2 (S k) N.*1 Ns;
  sp_mem : Forall (fun X => node_mem t2 X /\ X.2 <> []) N';
  sp_level : Forall (fun X => X.1 = fresh t \/ page_level t2 X.1 = k) N';
  sp_children : concat N'.*2 = L;
  sp_seg : seg t2 None N'.*1 None;
  sp_spaced : spaced (sizes N');
  sp_parent : forall q, q ∈ N.*1 -> parent t2 q = parent t q;
  sp_fresh : fresh t2 = S (fresh t);
  sp_keeps : keeps t t2 N.*1 L n;
  sp_new : forall l, k = S l -> page_level t2 n = l
}.

Lemma level_split t k N1 p C1 m n C2 N2 Ns :
  let N := N1 ++ (p, C1 ++ m :: C2) :: N2 in
  let L := (concat N1.*2 ++ C1) ++ m :: n :: (C2 ++ concat N2.*2) in
  tower t k ((concat N1.*2 ++ C1) ++ m :: (C2 ++ concat N2.*2)) (N :: Ns) ->
  NoDup (L ++ N.*1 ++ ups Ns) -> (forall q, q ∈ L ++ N.*1 ++ ups Ns -> (q < fresh t)%nat) ->
  length (C1 ++ m :: C2) = NodeCount -> pool (fresh t) = true -> (2 <= NodeCount)%nat ->
  match N2 with (_, Q) :: _ => length Q = NodeCount | [] => True end ->
  exists tA t2 csp csr entry,
    new_NodeList (Some p) t = Some (fresh t, tA) /\
    node_split n p (fresh t) k (S (length C1)) (C1 ++ m :: C2) tA = Ret (entry, t2) /\
    split_state t t2 k N Ns L n (N1 ++ (p, csp) :: (fresh t, csr) :: N2).
Proof.
  intros N L (_ & HN & HS & _ & Hsp & HT) Hd Hlt Hfull Hpool Hcap Hnext.
  pose proof (eq_refl : N = N1 ++ (p, C1 ++ m :: C2) :: N2) as DN.
  pose proof (eq_refl : L = (concat N1.*2 ++ C1) ++ m :: n :: (C2 ++ concat N2.*2)) as DL. clearbody N L.
  destruct (new_NodeList_ok (Some p) t Hpool) as (tA & EA & Ei & En & El & Ep & Elv & Er & Ef & Et).
  pose proof HN as HN0. rewrite DN in HN0. apply list.Forall_app in HN0 as [HN1 HN0]. apply list.Forall_cons in HN0 as [Hp HN2].
  apply list.NoDup_app in Hd as (HL & HLN & Hd). apply list.NoDup_app in Hd as (HdN & HNU & _).
  assert (Hfr : forall q, q ∈ L ++ N.*1 ++ ups Ns -> q <> fresh t) by (intros q Hq ->; specialize (Hlt _ Hq); lia).
  assert (EN : N.*1 = N1.*1 ++ p :: N2.*1) by (by rewrite DN, fmap_app).
  assert (Hlk : forall q, q <> fresh t -> q ∉ N.*1 -> prev tA q = prev t q /\ next tA q = next t q).
  { intros q H1 H2. rewrite Et. cbv zeta.
    match goal with |- context [link_after ?a ?b ?c] => apply (link_after_other a b c q) end; [done|intros ->; apply H2; rewrite EN; set_solver +|]. cbn.
    rewrite EN in HS. rewrite (proj2 (seg_mid _ _ _ _ _ _ HS)).
    destruct N2 as [|[q' cs] N2]; cbn; [done|]. intros [= ->]. apply H2. rewrite EN. cbn. set_solver +. }
  assert (HSA : seg tA None (N1.*1 ++ p :: fresh t :: N2.*1) None).
  { rewrite Et. cbv zeta. rewrite EN in *. apply seg_link; [|done|].
    - eapply seg_frame; [|exact HS]. by apply list.Forall_forall.
    - intros H. apply (Hfr (fresh t)); [rewrite ?EN; set_solver + H|done]. }
  assert (HA : forall M, (forall q, q ∈ M.*1 -> q ∈ N.*1) -> (forall c, c ∈ concat M.*2 -> c ∈ L) ->
    Forall (node_ok t k) M -> Forall (node_ok tA k) M).
  { intros M H1 H2. apply Forall_node_ok_frame; apply list.Forall_forall; intros q Hq.
    - rewrite En, El, lookup_insert_ne; [done|]. intros E. apply (Hfr q); [|done]. apply H1 in Hq. set_solver + Hq.
    - rewrite Ep, upd_other; [done|]. apply Hfr. apply H2 in Hq. set_solver + Hq. }
  assert (HCL : forall c, c ∈ C1 ++ m :: C2 -> c ∈ L) by (rewrite DL; set_solver +).
  destruct (attach_next tA k p (fresh t) C1 m n C2 []) as (csp & csr & t' & E & Ecs & Hcp & Hlp & Hcr & Hmp & Hmr & Hlc).
  { assert (Forall (node_ok tA k) [(p, C1 ++ m :: C2)]) as H.
    { apply HA; [rewrite EN; set_solver +|cbn; rewrite app_nil_r; exact HCL|by constructor]. }
    rewrite list.Forall_singleton in H. by apply node_ok_mem in H as [? _]. }
  { done. }
  { split_and!; cbn; [by rewrite En, lookup_insert_eq|lia|constructor]. }
  { cbn. lia. }
  { apply Hfr. rewrite EN. set_solver +. }
  { rewrite app_nil_r. rewrite DL in HL. rewrite <-app_assoc in HL. apply list.NoDup_app in HL as (_ & _ & HL).
    change (m :: n :: C2 ++ concat N2.*2) with ((m :: n :: C2) ++ concat N2.*2) in HL.
    rewrite app_assoc in HL. by apply list.NoDup_app in HL as [HL _]. }
  rewrite app_nil_r in Ecs.
  assert (Hout : forall M, (forall q, q ∈ M.*1 -> q ∈ N.*1 /\ q <> p) ->
    (forall c, c ∈ concat M.*2 -> c ∈ L /\ c ∉ n :: C2) -> Forall (node_ok t k) M -> Forall (node_ok t' k) M).
  { intros M H1 H2 HM. eapply local_change_others; [exact Hlc| | |apply HA; [..|exact HM]].
    2: intros c Hc; by apply H2.
    2: intros c Hc; by apply H1.
    2: intros c Hc; by apply H2.
    intros q Hq. apply H1 in Hq as [Hq Hqp].
    assert (q <> n) by (intros ->; apply (HLN n); [rewrite DL|]; mem).
    assert (q <> fresh t) by (apply Hfr; mem). rewrite !not_elem_of_cons. auto using not_elem_of_nil. }
  assert (Hdisj : forall c, c ∈ concat N1.*2 \/ c ∈ concat N2.*2 -> c ∈ L /\ c ∉ n :: C2).
  { intros c Hc. split; [rewrite DL; mem|]. intros Hin. rewrite DL in HL.
    apply list.NoDup_app in HL as (_ & H1 & H2). apply list.NoDup_cons in H2 as [_ H2].
    rewrite app_comm_cons in H2. apply list.NoDup_app in H2 as (_ & H2 & _). destruct Hc as [Hc|Hc].
    - apply (H1 c); mem_in Hin; mem.
    - by apply (H2 c). }
  destruct (NoDup_mid' _ _ _ _ HdN EN) as [HpN _].
  assert (HN1' : Forall (node_ok t' k) N1).
  { apply Hout; [|auto|done]. intros q Hq. split; [rewrite EN; mem|]. intros ->. apply HpN. mem. }
  assert (HN2' : Forall (node_ok t' k) N2).
  { apply Hout; [|auto|done]. intros q Hq. split; [rewrite EN; mem|]. intros ->. apply HpN. mem. }
  assert (HnL : n ∈ L) by (rewrite DL; mem).
  assert (Hpl : page_level t' p = k).
  { rewrite (lc_level _ _ _ _ _ _ Hlc), El; [by destruct Hp as (_ & _ & _ & ? & _)|].
    intros ->. apply (HLN n); [done|]. rewrite EN. mem. }
  assert (HpN' : p ∈ N.*1) by (rewrite EN; mem).
  destruct Hlc as [Li [Lp Lx] (Lr & Ll & Lf) Ln Lpar Llev Lnew].
  assert (Hpg : forall q, q <> fresh t -> q ∉ N.*1 ->
    nodes t' !! q = nodes t !! q /\ prev t' q = prev t q /\ next t' q = next t q).
  { intros q H1 H2. rewrite Lp, Lx, Ln, En, lookup_insert_ne by (done || (intros Hin; mem_in Hin; naive_solver)).
    destruct (Hlk q H1 H2). done. }
  assert (Hlv : forall q, q <> n -> page_level t' q = page_level t q) by (intros q Hq; by rewrite Llev, El).
  assert (Hpr : forall q, q <> fresh t -> q ∉ n :: C2 -> parent t' q = parent t q).
  { intros q H1 H2. rewrite Lpar, Ep, upd_other; done. }
  assert (HnC : forall q, q ∈ N.*1 ++ ups Ns -> q <> fresh t /\ q <> n /\ q ∉ n :: C2).
  { intros q Hq. assert (q ∉ n :: C2) as Hnc.
    { intros Hin. apply (HLN q); [rewrite DL; mem_in Hin; mem|mem_in Hq; mem]. }
    split_and!; [apply Hfr; mem_in Hq; mem|intros ->; apply Hnc; left|done]. }
  exists tA, t', csp, csr. eexists. split; [done|]. split.
  { unfold node_split. rewrite E. reflexivity. }
  split.
  - eapply tower_frame; [| |by rewrite Lr|by rewrite Ll|exact HT]; apply list.Forall_forall; intros q Hq.
    + assert (Hq' : q ∈ N.*1 ++ ups Ns) by mem. destruct (HnC q Hq') as (H1 & H2 & H3).
      destruct (Hpg q) as (-> & -> & ->); [done|intros Hin; by apply (HNU q)|]. rewrite Hlv; done.
    + destruct (HnC q Hq) as (H1 & H2 & H3). auto.
  - apply list.Forall_app. split; [|constructor; [done|constructor; [done|]]];
      (eapply list.Forall_impl; [done|]; intros X HX; apply node_ok_mem in HX; tauto).
  - apply list.Forall_app. split; [|constructor; [by right|constructor; [by left|]]];
      (eapply list.Forall_impl; [done|]; intros X HX; apply node_ok_mem in HX; tauto).
  - rewrite snd_mid. cbn [fmap list_fmap snd concat]. rewrite (app_assoc csp), Ecs, DL.
    by rewrite <-!app_assoc.
  - rewrite fmap_app. eapply seg_frame; [|exact HSA]. apply list.Forall_forall. intros q _. by rewrite Lp, Lx.
  - rewrite DN, !sizes_app in *. cbn [sizes fmap list_fmap snd] in *. rewrite Hfull in Hsp.
    rewrite Hlp. apply spaced_split; [exact Hsp|by destruct csr; [|simpl; lia]|].
    destruct N2 as [|[q Q] N2]; [done|]. done.
  - intros q Hq. destruct (HnC q) as (H1 & _ & H3); [mem|]. auto.
  - by rewrite Lf.
  - split; [by rewrite Li|lia| | |].
    + intros q H1 H2. apply Hpg; [lia|done].
    + intros q H1 H2 H3. apply Hpr; [lia|]. intros Hin. apply H2. rewrite DL. mem_in Hin. mem.
    + intros q H1 H2 H3. by apply Hlv.
  - done.
Qed.


Lemma room_next_cases t k N2 :
  Forall (node_ok t k) N2 ->
  (room_nodes t (first_of N2.*1 None) = Ret None /\
    match N2 with (_, Q) :: _ => length Q = NodeCount | [] => True end) \/
  exists q Q N2', N2 = (q, Q) :: N2' /\ (length Q < NodeCount)%nat /\
    room_nodes t (first_of N2.*1 None) = Ret (Some q).
Proof.
  destruct N2 as [|[q Q] N2]; [by left|]. intros H. apply list.Forall_cons in H as [(H & _ & Hc & _) _].
  cbn [fst snd] in *. cbn [room_nodes first_of fmap list_fmap fst]. unfold get_nodes. rewrite H. cbn [obind].
  destruct (Nat.ltb_spec (length Q) NodeCount); [right|left; split; [done|lia]]. by exists q, Q, N2.
Qed.

Lemma room_prev_cases t k N1 :
  Forall (node_ok t k) N1 ->
  room_nodes t (last_of None N1.*1) = Ret None \/
  exists q Q N1', N1 = N1' ++ [(q, Q)] /\ (length Q < NodeCount)%nat /\
    room_nodes t (last_of None N1.*1) = Ret (Some q).
Proof.
  destruct N1 as [|[q Q] N1 _] using rev_ind; [by left|]. intros H.
  apply list.Forall_app in H as [_ H]. apply list.Forall_cons in H as [(H & _) _].
  cbn [fst snd] in H. rewrite fmap_app. cbn [fmap list_fmap fst]. rewrite last_of_app.
  cbn [room_nodes]. unfold get_nodes. rewrite H. cbn [obind].
  destruct (Nat.ltb_spec (length Q) NodeCount); [right|by left]. by exists q, Q, N1.
Qed.

Lemma level_done_climbed t t' k N L n Ns :
  level_done t t' k N L n -> tower t (S k) N.*1 Ns -> seg t None N.*1 None -> (2 <= length L)%nat ->
  spaced (sizes N) ->
  n ∈ L -> NoDup (L ++ N.*1 ++ ups Ns) -> exists Ns', climbed t t' k L n (N :: Ns) Ns'.
Proof.
  intros (N' & Q & C & Hlc & E1 & Hle & E2 & HN & HQ & HC) HT HS Hlen Hsp Hn Hd.
  destruct (local_change_tower _ _ _ _ _ _ L N N' Ns Hlc) as [Ht Hk]; eauto using spaced_le.
  exists (N' :: Ns). split_and!; auto.
  - rewrite ups_cons, E1. by apply list.NoDup_app in Hd as (_ & _ & ?).
  - intros u. rewrite !ups_cons, E1. auto.
  - by destruct Hlc.
Qed.

(** The page with the left neighbour has room. *)
Lemma climb_here t k N1 p C1 m n C2 N2 :
  let L := (concat N1.*2 ++ C1) ++ m :: n :: (C2 ++ concat N2.*2) in
  Forall (node_ok t k) N1 -> Forall (node_ok t k) N2 -> node_ok t k (p, C1 ++ m :: C2) ->
  keyed t k L -> stable t k [p] L ->
  NoDup (L ++ N1.*1 ++ p :: N2.*1) -> (length (C1 ++ m :: C2) < NodeCount)%nat ->
  exists t', (let t1 := setNodeParentAndLevel n k (Some p) t in
      let* d := sorted_add (generate t1 (page_level t1 p)) NodeCount n (C1 ++ m :: C2) in
      Ret (Added true, set_nodes p d t1)) = Ret (Added true, t') /\
    level_done t t' k (N1 ++ (p, C1 ++ m :: C2) :: N2) L n.
Proof.
  intros L HN1 HN2 Hp Hk Hst Hd Hlen. cbv zeta.
  destruct (attach_fields n k (Some p) t) as (Ei & En & _ & _ & _ & _ & _ & _ & Elev & _).
  rewrite Elev by (intros ->; apply list.NoDup_app in Hd as (_ & H & _); apply (H n); [unfold L|]; mem).
  replace (page_level t p) with k by (by destruct Hp as (_ & _ & _ & <- & _)).
  set (t1 := setNodeParentAndLevel n k (Some p) t) in *.
  assert (Hk1 : keyed t1 k L) by (eapply stable_keyed; eauto; intros q _ _; by rewrite En).
  assert (Hf : find (generate t1 k) (C1 ++ m :: C2) (kf t1 k n) = Ret (false, length (C1 ++ [m]))).
  { replace (C1 ++ m :: C2) with ((C1 ++ [m]) ++ C2) by by rewrite <-app_assoc.
    apply (find_child t1 k (concat N1.*2) (C1 ++ [m]) n C2 (concat N2.*2)).
    replace ((concat N1.*2 ++ C1 ++ [m]) ++ n :: C2 ++ concat N2.*2) with L; [done|].
    unfold L. by rewrite <-!app_assoc. }
  unfold sorted_add. rewrite (proj1 (list.Forall_forall _ _) (proj1 Hk1) n) by (unfold L; mem).
  cbn [obind]. rewrite Hf. cbn [obind].
  replace (C1 ++ m :: C2) with ((C1 ++ [m]) ++ C2) by by rewrite <-app_assoc.
  rewrite vector_insert_app by (done || (rewrite <-app_assoc; done)). cbn [obind].
  rewrite <-!app_assoc. cbn [app]. eexists. split; [reflexivity|]. by apply level_here.
Qed.

Lemma stable_sub t k U U' L : (forall q, q ∈ U' -> q ∈ U) -> stable t k U L -> stable t k U' L.
Proof. intros HU H t' Hi Hn. apply H; auto. Qed.

(** The state after a split is one from which the level above goes on. *)
Lemma split_stable t t2 k N Ns L n N' :
  split_state t t2 k N Ns L n N' -> stable t k (ups (N :: Ns)) L ->
  (forall q, q ∈ N'.*1 -> (q ∉ ups Ns) /\ (q < fresh t2)%nat) ->
  stable t2 (S k) (ups Ns) N'.*1 /\ (keyed t k L -> keyed t2 (S k) N'.*1).
Proof.
  intros HS Hst Hq2. destruct (sp_keeps _ _ _ _ _ _ _ _ HS) as [Hi Hf Hp _ _].
  assert (Ht : forall t', items t' = items t -> (forall q, q ∉ ups (N :: Ns) -> (q < fresh t)%nat ->
    nodes t' !! q = nodes t2 !! q) -> Forall (fun c => generate t' k c = generate t k c) L).
  { intros t' Hi' Hn'. apply Hst; [done|]. intros q Hq Hlt. rewrite Hn' by done.
    apply Hp; [|done]. intros Hin. apply Hq. rewrite ups_cons. mem. }
  pose proof (sp_mem _ _ _ _ _ _ _ _ HS) as Hm. pose proof (sp_children _ _ _ _ _ _ _ _ HS) as Hc.
  pose proof (Ht t2 Hi (fun _ _ _ => eq_refl)) as H2.
  split.
  - intros t' Hi' Hn'. assert (H' : Forall (fun c => generate t' k c = generate t k c) L).
    { apply Ht; [congruence|]. intros q Hq Hlt. apply Hn'; [|lia].
      intros Hin. apply Hq. rewrite ups_cons. mem. }
    apply list.Forall_forall. intros q Hq. destruct (Hq2 q Hq) as [Hq3 Hq4].
    apply list_elem_of_fmap in Hq as ([q' cs] & -> & Hq). cbn [fst] in *.
    pose proof (proj1 (list.Forall_forall _ _) Hm _ Hq) as [(Hcs & _ & _) Hne]. cbn [fst snd] in *.
    destruct cs as [|c cs]; [done|]. rewrite (generate_up t2 k q' c cs Hcs).
    rewrite (generate_up t' k q' c cs) by (by rewrite Hn').
    assert (HcL : c ∈ L).
    { rewrite <-Hc. eapply elem_children; [done|by left]. }
    rewrite list.Forall_forall in H', H2. by rewrite H', H2.
  - intros Hk. apply keyed_up.
    + eapply list.Forall_impl; [exact Hm|]. intros [q [|c cs]] [(H & _) Hne]; [done|].
      by exists c, cs, cs.
    + rewrite Hc. eapply keyed_ext; [|exact Hk]. done.
Qed.

(** The outcomes of the level and of the levels above it together. *)
Lemma split_climbed t t2 t' k N Ns Ns' L n N' :
  split_state t t2 k N Ns L n N' -> climbed t2 t' (S k) N'.*1 (fresh t) Ns Ns' ->
  (forall q, q ∈ L ++ N.*1 ++ ups Ns -> (q < fresh t)%nat) -> NoDup (L ++ N'.*1 ++ ups Ns) -> n ∈ L ->
  (forall q, q ∈ N'.*1 <-> q ∈ N.*1 \/ q = fresh t) -> (2 <= length L)%nat ->
  climbed t t' k L n (N :: Ns) (N' :: Ns').
Proof.
  intros [HT Hm Hlv Hc HS Hspc Hpar Hfr [Ki Kf Kp Kpar Klv] Hnew] (HT' & [Ki' Kf' Kp' Kpar' Klv'] & Hd' & Hu & Hn')
    Hlt Hd HnL HN Hlen.
  apply list.NoDup_app in Hd as (HdL & HLN & Hd). apply list.NoDup_app in Hd as (HdN & HNU & _).
  assert (HL : forall c, c ∈ L -> (c < fresh t)%nat /\ c <> fresh t /\ (c ∉ N'.*1) /\ (c ∉ ups Ns)).
  { intros c Hcl. pose proof (HLN c Hcl) as H. rewrite not_elem_of_app in H.
    assert (c < fresh t)%nat by (apply Hlt; mem). split_and!; [done|lia|tauto..]. }
  assert (HN' : forall q, q ∈ N'.*1 -> (q < fresh t2)%nat /\ (q ∉ ups Ns)).
  { intros q Hq. split; [|by apply HNU]. apply HN in Hq as [Hq| ->]; [|lia].
    assert (q < fresh t)%nat by (apply Hlt; mem). lia. }
  split_and!.
  - cbn [tower]. split_and!; auto.
    + apply list.Forall_forall. intros [q cs] Hq.
      assert (Hq1 : q ∈ N'.*1) by (apply list_elem_of_fmap; by exists (q, cs)).
      destruct (HN' q Hq1) as [Hq2 Hq3].
      pose proof (proj1 (list.Forall_forall _ _) Hm _ Hq) as [(M1 & M2 & M3) M4].
      pose proof (proj1 (list.Forall_forall _ _) Hlv _ Hq) as M5. cbn [fst snd] in *.
      split_and!; cbn [fst snd]; auto.
      * etransitivity; [by apply Kp'|done].
      * destruct (decide (q = fresh t)) as [->|Hne]; [by apply Hn'|].
        rewrite Klv' by done. by destruct M5.
      * apply list.Forall_forall. intros c Hc'. assert (HcL : c ∈ L).
        { rewrite <-Hc. by eapply elem_children. }
        destruct (HL c HcL) as (H1 & H2 & H3 & H4). rewrite Kpar' by (done || lia).
        by apply (proj1 (list.Forall_forall _ _) M3).
    + eapply seg_frame; [|exact HS]. apply list.Forall_forall. intros q Hq.
      destruct (HN' q Hq) as [Hq2 Hq3]. by apply Kp'.
  - split; [congruence|lia|..].
    + intros q Hq Hl. rewrite ups_cons, not_elem_of_app in Hq. destruct Hq as [Hq1 Hq2].
      destruct (Kp' q Hq2) as (-> & -> & ->); [lia|]. by apply Kp.
    + intros q Hq HqL Hl. rewrite ups_cons, not_elem_of_app in Hq. destruct Hq as [Hq1 Hq2].
      rewrite Kpar'; [by apply Kpar|done| |lia]. rewrite HN. intros [?|?]; [done|lia].
    + intros q Hq Hqn Hl. rewrite ups_cons, not_elem_of_app in Hq. destruct Hq as [Hq1 Hq2].
      rewrite Klv'; [by apply Klv|done|lia..].
  - rewrite ups_cons. apply list.NoDup_app. split_and!; auto. intros q Hq Hin.
    destruct (HN' q Hq) as [H1 H2]. destruct (Hu q Hin) as [?|?]; [done|lia].
  - intros u. rewrite !ups_cons, !elem_of_app, HN. intros [[H|H]|H]; [auto|subst; right; lia|].
    destruct (Hu u H); [auto|right; lia].
  - intros l ->. destruct (HL n HnL) as (H1 & H2 & H3 & H4). rewrite Klv' by (done || lia). by apply Hnew.
Qed.

(** The parent of a page that is full, and its place in it. *)
Lemma full_level t k (N1 : list (ptr * list ptr)) p C1 m n C2 (N2 : list (ptr * list ptr)) :
  let L := (concat N1.*2 ++ C1) ++ m :: n :: (C2 ++ concat N2.*2) in
  keyed t k L -> page_level t p = k ->
  generate t (page_level t p) n = Ret (kf t k n) /\
  find_node t p (C1 ++ m :: C2) (kf t k n) = Ret (false, S (length C1)).
Proof.
  intros L Hk Hl. split.
  { rewrite Hl. apply (proj1 (list.Forall_forall _ _) (proj1 Hk)). unfold L. mem. }
  unfold find_node. rewrite Hl. replace (C1 ++ m :: C2) with ((C1 ++ [m]) ++ C2) by by rewrite <-app_assoc.
  replace (S (length C1)) with (length (C1 ++ [m])) by (rewrite length_app; cbn [length]; lia).
  apply (find_child t k (concat N1.*2) (C1 ++ [m]) n C2 (concat N2.*2)).
  replace ((concat N1.*2 ++ C1 ++ [m]) ++ n :: C2 ++ concat N2.*2) with L; [done|].
  unfold L. by rewrite <-!app_assoc.
Qed.

Lemma climb_ok Ns t k A m B n map fuel :
  (2 <= NodeCount)%nat -> (forall f, pool f = true) ->
  tower t k (A ++ m :: B) Ns -> keyed t k (A ++ m :: n :: B) -> stable t k (ups Ns) (A ++ m :: n :: B) ->
  NoDup ((A ++ m :: n :: B) ++ ups Ns) ->
  (forall q, q ∈ (A ++ m :: n :: B) ++ ups Ns -> (q < fresh t)%nat) -> (length Ns < fuel)%nat ->
  exists t' Ns', climb fuel n (parent t m) k map t = Ret (Added true, t') /\
    climbed t t' k (A ++ m :: n :: B) n Ns Ns'.
Proof.
  intros Hcap Hpool. revert t k A m B n map fuel.
  induction Ns as [|N Ns IH]; intros t k A m B n map fuel HT Hk Hst Hd Hlt Hf;
    (destruct fuel as [|fuel]; [simpl in Hf; lia|]).
  { pose proof HT as (r & HL & _ & _ & Hpar). destruct A as [|a A]; [|by destruct A].
    injection HL as -> ->. cbn [app] in *. cbn [climb]. rewrite Hpar.
    destruct (new_root_ok t k r n map) as (t' & E & Ht'); auto.
    - apply list.NoDup_cons in Hd as [Hd _]. intros ->. apply Hd. left.
    - apply Hlt. mem.
    - apply Hlt. mem.
    - eauto. }
  pose proof HT as (EL & HN & HS & Hlen & Hspc & HT').
  destruct (concat_split _ _ _ _ EL) as (N1 & p & C1 & C2 & N2 & -> & -> & ->).
  pose proof HN as HN0. apply list.Forall_app in HN0 as [HN1 HN0]. apply list.Forall_cons in HN0 as [Hp HN2].
  pose proof Hp as (Hpn & _ & Hpc & Hpl & Hpp). cbn [fst snd] in *.
  rewrite ups_cons in Hd, Hlt. rewrite !fmap_app, !fmap_cons in *. cbn [fst] in *.
  pose proof (seg_mid _ _ _ _ _ _ HS) as [Hprev Hnext].
  assert (Hmp : parent t m = Some p) by (apply (proj1 (list.Forall_forall _ _) Hpp); mem).
  assert (Hd' : NoDup (((concat N1.*2 ++ C1) ++ m :: n :: C2 ++ concat N2.*2) ++ N1.*1 ++ p :: N2.*1)).
  { rewrite app_assoc in Hd. by apply list.NoDup_app in Hd as (? & _ & _). }
  assert (Hlen' : (2 <= length ((concat N1.*2 ++ C1) ++ m :: n :: C2 ++ concat N2.*2))%nat).
  { rewrite !length_app in *. cbn [length] in *. rewrite length_app in *. lia. }
  assert (Hdone : forall t', level_done t t' k (N1 ++ (p, C1 ++ m :: C2) :: N2)
      ((concat N1.*2 ++ C1) ++ m :: n :: C2 ++ concat N2.*2) n ->
    exists Ns', climbed t t' k ((concat N1.*2 ++ C1) ++ m :: n :: C2 ++ concat N2.*2) n
      ((N1 ++ (p, C1 ++ m :: C2) :: N2) :: Ns) Ns').
  { intros t' H. eapply level_done_climbed; [exact H|..]; auto; rewrite ?fmap_app, ?fmap_cons; auto. mem. }
  cbn [climb]. rewrite Hmp. unfold get_nodes at 1. rewrite Hpn. cbn [obind].
  destruct (Nat.ltb_spec (length (C1 ++ m :: C2)) NodeCount) as [Hroom|Hfull].
  { destruct (climb_here t k N1 p C1 m n C2 N2) as (t' & E & Ht'); auto.
    - eapply stable_sub; [|exact Hst]. intros q Hq. rewrite ups_cons, fmap_app. cbn. mem_in Hq. mem.
    - cbv zeta in E. rewrite E. destruct (Hdone t' Ht') as [Ns' H]. eauto. }
  assert (Hfull' : length (C1 ++ m :: C2) = NodeCount) by lia.
  destruct (full_level t k N1 p C1 m n C2 N2 Hk Hpl) as [E1 E2].
  rewrite E1. cbn [obind]. rewrite E2. cbn [obind]. rewrite Hnext, Hprev. clear E1 E2.
  destruct (room_next_cases t k N2 HN2) as [[-> Hnf]| (q & Q & N2' & -> & HQ & ->)]; cbn [obind].
  2:{ apply list.Forall_cons in HN2 as [Hq HN2].
      destruct (level_next t k N1 p C1 m n C2 q Q N2') as (t' & -> & Ht'); auto.
      destruct (Hdone t' Ht') as [Ns' H]. eauto. }
  destruct (room_prev_cases t k N1 HN1) as [-> | (q & Q & N1' & -> & HQ & ->)]; cbn [obind].
  2:{ apply list.Forall_app in HN1 as [HN1 Hq]. rewrite list.Forall_singleton in Hq.
      destruct (level_prev t k N1' q Q p C1 m n C2 N2) as (t' & E & Ht'); auto.
      - clear -Hd'. rewrite !fmap_app, concat_app in Hd'. cbn [fmap list_fmap fst snd concat] in Hd'.
        rewrite app_nil_r, <-!app_assoc in Hd'. cbn [app] in Hd'. by rewrite <-!app_assoc.
      - rewrite E. clear E. destruct (Hdone t') as [Ns' H].
        + revert Ht'. rewrite snd_app. cbn [fmap list_fmap fst snd concat].
          by rewrite app_nil_r, <-!app_assoc.
        + eauto. }
  destruct (level_split t k N1 p C1 m n C2 N2 Ns) as (tA & t2 & csp & csr & entry & EA & E2 & Hsp); auto.
  { by rewrite fmap_app. }
  { intros q. rewrite fmap_app. apply Hlt. }
  rewrite EA. cbn [obind]. rewrite E2. cbn [obind].
  set (L := (concat N1.*2 ++ C1) ++ m :: n :: C2 ++ concat N2.*2) in *.
  set (N' := N1 ++ (p, csp) :: (fresh t, csr) :: N2) in *.
  assert (EN' : N'.*1 = N1.*1 ++ p :: fresh t :: N2.*1) by (unfold N'; by rewrite fmap_app).
  assert (Hmem : forall q, q ∈ N'.*1 <-> q ∈ (N1 ++ (p, C1 ++ m :: C2) :: N2).*1 \/ q = fresh t).
  { intros q. rewrite EN', fmap_app. cbn [fmap list_fmap fst]. rewrite !elem_of_app, !elem_of_cons. tauto. }
  assert (HltN : forall q, q ∈ (N1 ++ (p, C1 ++ m :: C2) :: N2).*1 \/ q ∈ ups Ns \/ q ∈ L -> (q < fresh t)%nat).
  { intros q. rewrite fmap_app. cbn [fmap list_fmap fst]. intros Hq. mem_in Hq. apply Hlt. mem. }
  pose proof (sp_fresh _ _ _ _ _ _ _ _ Hsp) as Hfr.
  assert (HdL : NoDup (L ++ N'.*1 ++ ups Ns)).
  { rewrite EN'. replace (L ++ (N1.*1 ++ p :: fresh t :: N2.*1) ++ ups Ns)
      with ((L ++ N1.*1 ++ [p]) ++ fresh t :: N2.*1 ++ ups Ns) by by rewrite <-!app_assoc.
    rewrite <-Permutation_middle. apply list.NoDup_cons. split.
    - intros Hin. assert (fresh t < fresh t)%nat; [apply Hlt; mem_in Hin; mem|lia].
    - replace ((L ++ N1.*1 ++ [p]) ++ N2.*1 ++ ups Ns) with (L ++ (N1.*1 ++ p :: N2.*1) ++ ups Ns)
        by by rewrite <-!app_assoc. done. }
  pose proof HdL as HdL'. apply list.NoDup_app in HdL' as (_ & _ & HdN).
  assert (HN2' : forall q, q ∈ N'.*1 -> (q ∉ ups Ns) /\ (q < fresh t2)%nat).
  { intros q Hq. apply list.NoDup_app in HdN as (_ & HdN & _). split; [by apply HdN|].
    apply Hmem in Hq as [Hq| ->]; [|lia]. pose proof (HltN q (or_introl Hq)). lia. }
  destruct (split_stable _ _ _ _ _ _ _ _ Hsp Hst HN2') as [Hst2 Hk2]. specialize (Hk2 Hk).
  assert (Hpar : parent t2 p = parent t p).
  { apply (sp_parent _ _ _ _ _ _ _ _ Hsp). rewrite fmap_app. cbn. mem. }
  pose proof (sp_tower _ _ _ _ _ _ _ _ Hsp) as HT2. rewrite fmap_app in HT2. cbn [fmap list_fmap fst] in HT2.
  rewrite EN' in *.
  destruct (IH t2 (S k) N1.*1 p N2.*1 (fresh t) (entry :: map) fuel) as (t' & Ns' & E3 & H3); auto.
  { intros q Hq. rewrite elem_of_app in Hq. destruct Hq as [Hq|Hq]; [by apply HN2'|].
    pose proof (HltN q (or_intror (or_introl Hq))). lia. }
  { simpl in Hf. lia. }
  rewrite E3. exists t', (N' :: Ns'). split; [done|].
  eapply split_climbed; [exact Hsp| | |by rewrite EN'| | |done]; [by rewrite EN'| | |by rewrite EN'].
  - intros q Hq. apply HltN. rewrite !elem_of_app in Hq. tauto.
  - unfold L. mem.
Qed.

(** ** The leaves *)

Lemma leaf_next_data t v p q X Y Q :
  items t !! p = Some (X ++ Y) -> items t !! q = Some Q -> p <> q ->
  length (X ++ Y) = LeafCount -> (length Q < LeafCount)%nat ->
  exists f d Q', leaf_to_next v p q (length X) (X ++ Y) t = Ret (with_items f t) /\
    d ++ Q' = X ++ v :: Y ++ Q /\ f (items t) !! p = Some d /\ f (items t) !! q = Some Q' /\
    length d = LeafCount /\ Q' <> [] /\ (length Q' <= LeafCount)%nat /\
    (forall r, r <> p -> r <> q -> f (items t) !! r = items t !! r).
Proof.
  intros Hp Hq Hpq Hfull HQ. unfold leaf_to_next, get_items. rewrite Hq. cbn [obind].
  rewrite length_app in Hfull. destruct Y as [|y Y _] using rev_ind.
  - cbn [length] in Hfull. rewrite (proj2 (Nat.eqb_eq _ _)) by lia.
    rewrite (vector_insert_app _ [] Q) by done. cbn [obind app].
    exists <[q := v :: Q]>, X, (v :: Q). rewrite app_nil_r in Hp. split_and!; auto; try done.
    + by rewrite lookup_insert_ne.
    + by rewrite lookup_insert_eq.
    + lia.
    + intros r _ Hr. by rewrite lookup_insert_ne.
  - rewrite length_app in Hfull. cbn [length] in Hfull.
    destruct (Nat.eqb_spec (length X) LeafCount); [lia|].
    rewrite app_assoc, vector_at_app by (rewrite length_app; lia). cbn [obind].
    rewrite (vector_insert_app _ [] Q) by done. cbn [obind app].
    rewrite vector_shrink_app by (rewrite length_app; lia). cbn [obind].
    rewrite vector_insert_app by (done || (rewrite length_app; lia)). cbn [obind].
    exists (fun m => <[p := X ++ v :: Y]> (<[q := y :: Q]> m)), (X ++ v :: Y), (y :: Q). split_and!; try done.
    + by rewrite <-!app_assoc.
    + by rewrite lookup_insert_eq.
    + by rewrite lookup_insert_ne, lookup_insert_eq.
    + rewrite length_app. cbn [length]. lia.
    + intros r H1 H2. by rewrite !lookup_insert_ne.
Qed.

Lemma leaf_prev_data t v p q X Y Q :
  items t !! p = Some (X ++ Y) -> items t !! q = Some Q -> p <> q -> (1 <= LeafCount)%nat ->
  length (X ++ Y) = LeafCount -> (length Q < LeafCount)%nat ->
  exists f d Q', leaf_to_prev v p q (length X) (X ++ Y) t = Ret (with_items f t) /\
    Q' ++ d = Q ++ X ++ v :: Y /\ f (items t) !! p = Some d /\ f (items t) !! q = Some Q' /\
    length d = LeafCount /\ Q' <> [] /\ (length Q' <= LeafCount)%nat /\
    (forall r, r <> p -> r <> q -> f (items t) !! r = items t !! r).
Proof.
  intros Hp Hq Hpq Hcap Hfull HQ. unfold leaf_to_prev, get_items. rewrite Hq. cbn [obind].
  destruct X as [|x X].
  - cbn [length Nat.eqb app] in *. rewrite vector_insert_end by done. cbn [obind].
    exists <[q := Q ++ [v]]>, Y, (Q ++ [v]). split_and!; auto.
    + by rewrite <-app_assoc.
    + by rewrite lookup_insert_ne.
    + by rewrite lookup_insert_eq.
    + by destruct Q.
    + rewrite length_app. simpl. lia.
    + intros r _ Hr. by rewrite lookup_insert_ne.
  - change (length (x :: X) =? 0)%nat with false. cbn [obind app].
    unfold vector_at. cbn [lookup list_lookup obind].
    rewrite vector_insert_end by done. cbn [obind].
    rewrite (vector_remove_app [] (X ++ Y) x 0 eq_refl : vector_remove 0 (x :: X ++ Y) = Ret (X ++ Y)).
    cbn [obind]. rewrite vector_insert_app by (cbn [length app] in *; lia). cbn [obind].
    exists (fun m => <[p := X ++ v :: Y]> (<[q := Q ++ [x]]> m)), (X ++ v :: Y), (Q ++ [x]). split_and!; auto.
    + by rewrite <-app_assoc.
    + by rewrite lookup_insert_eq.
    + by rewrite lookup_insert_ne, lookup_insert_eq.
    + cbn [length app] in *. rewrite length_app in *. cbn [length]. lia.
    + by destruct Q.
    + rewrite length_app. simpl. lia.
    + intros r H1 H2. by rewrite !lookup_insert_ne.
Qed.

Lemma leaf_split_next v p q pos d t :
  length d = LeafCount ->
  leaf_split v p q pos d t =
    let* t := leaf_to_next v p q pos d t in Ret (if (pos =? LeafCount)%nat then None else Some pos, t).
Proof.
  intros H. unfold leaf_split, leaf_to_next. rewrite H. destruct (get_items t q) as [nd|]; [|done]. cbn [obind].
  destruct (pos =? LeafCount)%nat; [by destruct (vector_insert _ _ _ _)|].
  destruct (vector_at _ _); [|done]. cbn [obind]. destruct (vector_insert _ _ _ nd); [|done]. cbn [obind].
  destruct (vector_shrink _ _); [|done]. cbn [obind]. by destruct (vector_insert _ _ _ _).
Qed.

Lemma new_ItemList_ok after t :
  pool (fresh t) = true ->
  exists t', new_ItemList after t = Some (fresh t, t') /\
    items t' = <[fresh t := []]> (items t) /\ nodes t' = nodes t /\
    page_level t' = page_level t /\ parent t' = upd (parent t) (fresh t) None /\
    level t' = level t /\ root t' = root t /\ fresh t' = S (fresh t) /\
    t' = (let t0 := set_parent (fresh t) None (set_items (fresh t) [] (mk_tree (items t) (nodes t) (page_level t)
            (parent t) (next t) (prev t) (level t) (root t) (S (fresh t)))) in
          match after with Some q => link_after (fresh t) q t0 | None => link_first (fresh t) t0 end).
Proof.
  intros Hp. unfold new_ItemList, allocate. rewrite Hp. eexists. split; [reflexivity|].
  destruct after as [q|]; [|by split_and!].
  match goal with |- context [link_after ?a ?b ?c] => destruct (link_after_fields a b c) as (-> & -> & -> & -> & -> & -> & ->) end.
  cbn. done.
Qed.

Lemma room_items_next t D2 :
  Forall (leaf_ok t) D2 ->
  room_items t (first_of D2.*1 None) = Ret None \/
  exists q Q D2', D2 = (q, Q) :: D2' /\ (length Q < LeafCount)%nat /\
    room_items t (first_of D2.*1 None) = Ret (Some q).
Proof.
  destruct D2 as [|[q Q] D2]; [by left|]. intros H. apply list.Forall_cons in H as [[H _] _].
  cbn [fst snd] in H. cbn [room_items first_of fmap list_fmap fst]. unfold get_items. rewrite H. cbn [obind].
  destruct (Nat.ltb_spec (length Q) LeafCount); [right|by left]. by exists q, Q, D2.
Qed.

Lemma room_items_prev t D1 :
  Forall (leaf_ok t) D1 ->
  room_items t (last_of None D1.*1) = Ret None \/
  exists q Q D1', D1 = D1' ++ [(q, Q)] /\ (length Q < LeafCount)%nat /\
    room_items t (last_of None D1.*1) = Ret (Some q).
Proof.
  destruct D1 as [|[q Q] D1 _] using rev_ind; [by left|]. intros H.
  apply list.Forall_app in H as [_ H]. apply list.Forall_cons in H as [[H _] _].
  cbn [fst snd] in H. rewrite fmap_app. cbn [fmap list_fmap fst]. rewrite last_of_app.
  cbn [room_items]. unfold get_items. rewrite H. cbn [obind].
  destruct (Nat.ltb_spec (length Q) LeafCount); [right|by left]. by exists q, Q, D1.
Qed.

Lemma represents_wf t D Ns l : wf_at t D Ns l -> represents t l.
Proof. intros H. right. eauto. Qed.

Lemma ensure_root_ok t l :
  pool (fresh t) = true -> represents t l ->
  exists r t1 D Ns, ensure_root t = Some (r, t1) /\ root t1 = Some r /\ wf_at t1 D Ns l.
Proof.
  intros Hpool [(Hr & Hl & ->)|(D & Ns & H)].
  - destruct (new_ItemList_ok None t Hpool) as (t' & E & Ei & En & El & Ep & Elv & Er & Ef & Et).
    unfold ensure_root. rewrite Hr, E. do 2 eexists. exists [(fresh t, [])], [].
    split; [reflexivity|]. split; [done|]. split.
    + constructor; [|constructor]. split; [cbn; by rewrite Ei, lookup_insert_eq|simpl; lia].
    + simpl. lia.
    + cbn. rewrite Et. cbn. by rewrite !upd_same.
    + exists (fresh t). split_and!; cbn; auto; [congruence|by rewrite Ep, upd_same].
    + cbn. apply NoDup_singleton.
    + intros q Hq. cbn in Hq. apply list_elem_of_singleton in Hq as ->. cbn. lia.
    + constructor.
    + done.
  - destruct (at_leaf_exists t D Ns l 0 H) as (r & _ & _ & _ & _ & _ & Hr & _).
    unfold ensure_root. rewrite Hr. exists r, t, D, Ns. done.
Qed.

(** The contents with the new item, at its place. *)
Lemma new_contents t D1 p X Y D2 Ns l v :
  wf_at t (D1 ++ (p, X ++ Y) :: D2) Ns l -> at_leaf t D1 p X Y D2 (key v) -> found_at Y (key v) = false ->
  let l' := (concat D1.*2 ++ X) ++ v :: Y ++ concat D2.*2 in ascending key l' /\ l' = put v l.
Proof.
  intros H [_ HX HY HD] Hf l'. pose proof (wf_sorted _ _ _ _ H) as Ha. pose proof (wf_contents _ _ _ _ H) as El.
  rewrite snd_mid in El. assert (El' : l = (concat D1.*2 ++ X) ++ Y ++ concat D2.*2)
    by (by rewrite <-El, <-!app_assoc).
  rewrite El' in *. assert (HY' : Forall (fun y => key v < key y) (Y ++ concat D2.*2)).
  { apply list.Forall_app. split; [|done]. apply list.Forall_app in HY as [HY _].
    destruct Y as [|y Y]; [constructor|]. cbn in Hf. apply Z.eqb_neq in Hf.
    apply list.Forall_cons in HY as [Hy HY]. rewrite <-app_assoc in Ha. cbn [app] in Ha.
    apply ascending_app in Ha as (_ & Ha & _). apply ascending_app in Ha as (_ & Ha & _).
    apply ascending_cons in Ha as [Ha _]. apply list.Forall_app in Ha as [Ha _].
    constructor; [lia|]. eapply list.Forall_impl; [exact Ha|]. simpl. lia. }
  split.
  - by apply put_ascending.
  - unfold l'. rewrite put_item_split by done. destruct (Y ++ concat D2.*2) as [|z Z] eqn:E; [done|].
    apply list.Forall_cons in HY' as [Hz _]. destruct (Z.eqb_spec (key z) (key v)); [lia|done].
Qed.

Lemma nodup_leaf t D1 p d D2 Ns l :
  wf_at t (D1 ++ (p, d) :: D2) Ns l -> p ∉ D1.*1 ++ D2.*1.
Proof.
  intros H. pose proof (wf_nodup _ _ _ _ H) as Hd. apply list.NoDup_app in Hd as (Hd & _ & _).
  rewrite fmap_app in Hd. by apply NoDup_mid in Hd as [? _].
Qed.

Lemma add_here t D1 p X Y D2 Ns l v :
  wf_at t (D1 ++ (p, X ++ Y) :: D2) Ns l -> at_leaf t D1 p X Y D2 (key v) -> found_at Y (key v) = false ->
  (length (X ++ Y) < LeafCount)%nat ->
  wf_at (set_items p (X ++ v :: Y) t) (D1 ++ (p, X ++ v :: Y) :: D2) Ns (put v l).
Proof.
  intros H Hal Hf Hlen. destruct (new_contents _ _ _ _ _ _ _ _ _ H Hal Hf) as [Ha El].
  pose proof (nodup_leaf _ _ _ _ _ _ _ H) as Hp.
  eapply wf_items_changed; [exact H|by rewrite !fmap_app| | |rewrite <-El; exact Ha|].
  - pose proof (wf_leaves _ _ _ _ H) as HD. apply list.Forall_app in HD as [HD1 HD].
    apply list.Forall_cons in HD as [_ HD2]. apply list.Forall_app. split; [|constructor].
    + apply leaf_ok_other; [|done]. intros q Hq. apply lookup_insert_ne. intros ->. apply Hp. mem.
    + split; cbn [fst snd]; [cbn; by rewrite lookup_insert_eq|].
      rewrite length_app in *. cbn [length]. lia.
    + apply leaf_ok_other; [|done]. intros q Hq. apply lookup_insert_ne. intros ->. apply Hp. mem.
  - intros Hl. assert (HN := wf_nonempty _ _ _ _ H). rewrite !length_app in *. cbn [length] in *.
    specialize (HN Hl). apply list.Forall_app in HN as [HN1 HN]. apply list.Forall_cons in HN as [_ HN2].
    apply list.Forall_app. split; [done|]. constructor; [by destruct X|done].
  - rewrite snd_mid, <-El. by rewrite <-!app_assoc.
Qed.

(** Two neighbouring leaves with new items. *)
Lemma wf_two_leaves t f D1 p d q e D2 Ns l d' e' l' :
  wf_at t (D1 ++ (p, d) :: (q, e) :: D2) Ns l ->
  f (items t) !! p = Some d' -> f (items t) !! q = Some e' ->
  (forall r, r <> p -> r <> q -> f (items t) !! r = items t !! r) ->
  d' <> [] -> e' <> [] -> (length d' <= LeafCount)%nat -> (length e' <= LeafCount)%nat ->
  ascending key l' -> l' = concat D1.*2 ++ (d' ++ e') ++ concat D2.*2 ->
  wf_at (with_items f t) (D1 ++ (p, d') :: (q, e') :: D2) Ns l'.
Proof.
  intros H Hp Hq Hr Hd' He' Ld Le Ha El.
  assert (Hn : forall r, r ∈ D1.*1 \/ r ∈ D2.*1 -> r <> p /\ r <> q).
  { pose proof (nodup_leaf _ _ _ _ _ _ _ H) as H1. replace (D1 ++ (p, d) :: (q, e) :: D2)
      with ((D1 ++ [(p, d)]) ++ (q, e) :: D2) in H by by rewrite <-app_assoc.
    pose proof (nodup_leaf _ _ _ _ _ _ _ H) as H2. rewrite fmap_app in H2. cbn [fmap list_fmap fst] in *.
    intros r Hr'. split; intros ->; [apply H1|apply H2]; mem. }
  eapply wf_items_changed; [exact H|by rewrite !fmap_app| | |exact Ha|].
  - pose proof (wf_leaves _ _ _ _ H) as HD. apply list.Forall_app in HD as [HD1 HD].
    apply list.Forall_cons in HD as [_ HD]. apply list.Forall_cons in HD as [_ HD2].
    apply list.Forall_app. split; [|constructor; [done|constructor; [done|]]];
      (apply leaf_ok_other; [|done]); intros r Hin; apply Hr; apply Hn; auto.
  - intros _. assert (HN := wf_nonempty _ _ _ _ H ltac:(rewrite length_app; simpl; lia)).
    apply list.Forall_app in HN as [HN1 HN]. apply list.Forall_cons in HN as [_ HN].
    apply list.Forall_cons in HN as [_ HN2]. apply list.Forall_app. split; [done|]. by repeat constructor.
  - rewrite snd_mid, El. cbn [fmap list_fmap snd concat]. by rewrite <-!app_assoc.
Qed.

Section insertion.
Context (HL : (1 <= LeafCount)%nat) (HN : (2 <= NodeCount)%nat) (Hpool : forall f, pool f = true).

Lemma add_to_next t D1 p X Y q Q D2 Ns l v :
  wf_at t (D1 ++ (p, X ++ Y) :: (q, Q) :: D2) Ns l -> at_leaf t D1 p X Y ((q, Q) :: D2) (key v) ->
  found_at Y (key v) = false -> length (X ++ Y) = LeafCount -> (length Q < LeafCount)%nat ->
  exists t', leaf_to_next v p q (length X) (X ++ Y) t = Ret t' /\ represents t' (put v l).
Proof.
  intros H Hal Hf Hfull HQ. destruct (new_contents _ _ _ _ _ _ _ _ _ H Hal Hf) as [Ha El].
  pose proof (nodup_leaf _ _ _ _ _ _ _ H) as Hp. cbn [fmap list_fmap fst] in Hp.
  pose proof (wf_items _ _ _ _ H) as HD. apply list.Forall_app in HD as [_ HD].
  apply list.Forall_cons in HD as [Hip HD]. apply list.Forall_cons in HD as [Hiq _]. cbn [fst snd] in *.
  destruct (leaf_next_data t v p q X Y Q) as (f & d & Q' & E & Ec & Fp & Fq & Hld & HQ' & HlQ & Fr); auto.
  { intros ->. apply Hp. mem. }
  exists (with_items f t). split; [done|]. eapply represents_wf, wf_two_leaves; [exact H|..]; eauto.
  - intros ->. simpl in Hld. lia.
  - lia.
  - by rewrite El in Ha.
  - rewrite <-El, Ec. cbn [fmap list_fmap snd concat]. by rewrite <-!app_assoc; cbn; rewrite <-!app_assoc.
Qed.

Lemma add_to_prev t D1 q Q p X Y D2 Ns l v :
  wf_at t ((D1 ++ [(q, Q)]) ++ (p, X ++ Y) :: D2) Ns l -> at_leaf t (D1 ++ [(q, Q)]) p X Y D2 (key v) ->
  found_at Y (key v) = false -> length (X ++ Y) = LeafCount -> (length Q < LeafCount)%nat ->
  exists t', leaf_to_prev v p q (length X) (X ++ Y) t = Ret t' /\ represents t' (put v l).
Proof.
  intros H Hal Hf Hfull HQ. destruct (new_contents _ _ _ _ _ _ _ _ _ H Hal Hf) as [Ha El].
  pose proof (nodup_leaf _ _ _ _ _ _ _ H) as Hp. rewrite fmap_app in Hp. cbn [fmap list_fmap fst] in Hp.
  rewrite <-app_assoc in H. cbn [app] in H.
  pose proof (wf_items _ _ _ _ H) as HD. apply list.Forall_app in HD as [_ HD].
  apply list.Forall_cons in HD as [Hiq HD]. apply list.Forall_cons in HD as [Hip _]. cbn [fst snd] in *.
  destruct (leaf_prev_data t v p q X Y Q) as (f & d & Q' & E & Ec & Fp & Fq & Hld & HQ' & HlQ & Fr); auto.
  { intros ->. apply Hp. mem. }
  exists (with_items f t). split; [done|]. eapply represents_wf, wf_two_leaves; [exact H|..]; eauto.
  - intros ->. simpl in Hld. lia.
  - lia.
  - by rewrite El in Ha.
  - rewrite <-El, Ec, snd_app. cbn [fmap list_fmap snd concat]. rewrite app_nil_r, <-!app_assoc. cbn.
    by rewrite <-?app_assoc.
Qed.

(** The tree with a new leaf, before and after the way up. *)
Lemma split_leaves t tA f D1 p d0 d e D2 Ns l l' :
  wf_at t (D1 ++ (p, d0) :: D2) Ns l ->
  new_ItemList (Some p) t = Some (fresh t, tA) ->
  f (items tA) !! p = Some d -> f (items tA) !! fresh t = Some e ->
  (forall r, r <> p -> r <> fresh t -> f (items tA) !! r = items tA !! r) ->
  d <> [] -> e <> [] -> (length d <= LeafCount)%nat -> (length e <= LeafCount)%nat ->
  ascending key l' -> l' = concat D1.*2 ++ (d ++ e) ++ concat D2.*2 ->
  forall map, exists t', climb (S (S (level (with_items f tA)))) (fresh t) (parent (with_items f tA) p) 0
      map (with_items f tA) = Ret (Added true, t') /\ represents t' l'.
Proof.
  intros H EA Fp Fq Fr Hd He Ld Le Ha El map.
  destruct (new_ItemList_ok (Some p) t (Hpool _)) as (tA' & EA' & Ei & En & Elv & Ep & Ell & Er & Ef & Et).
  rewrite EA' in EA. injection EA as ->.
  pose proof (wf_fresh _ _ _ _ H) as Hlt. rewrite fmap_app in Hlt. cbn [fmap list_fmap fst] in Hlt.
  assert (Hne : forall q, q ∈ (D1.*1 ++ p :: D2.*1) ++ ups Ns -> q <> fresh t).
  { intros q Hq ->. specialize (Hlt _ Hq). lia. }
  pose proof (wf_seg _ _ _ _ H) as HS. pose proof (wf_nodup _ _ _ _ H) as HD.
  pose proof (wf_tower _ _ _ _ H) as HT. rewrite fmap_app in HS, HD, HT. cbn [fmap list_fmap fst] in HS, HD, HT.
  pose proof (seg_mid _ _ _ _ _ _ HS) as [_ Hnx].
  pose proof (proj1 (list.NoDup_app _ _) HD) as (HDL & HDU & _).
  set (t2 := with_items f tA) in *.
  assert (HS2 : seg t2 None (D1.*1 ++ p :: fresh t :: D2.*1) None).
  { eapply (seg_frame tA); [by apply list.Forall_forall|]. rewrite Et. cbv zeta. apply seg_link; [|done|].
    - eapply seg_frame; [|exact HS]. by apply list.Forall_forall.
    - intros Hin. apply (Hne (fresh t)); [mem_in Hin; mem|done]. }
  assert (HT2 : tower t2 0 (D1.*1 ++ p :: D2.*1) Ns).
  { eapply tower_frame; [| | | |exact HT]; cbn; auto; apply list.Forall_forall; intros q Hq.
    - rewrite En, Elv. split_and!; try done; rewrite Et; cbv zeta;
        (match goal with |- context [link_after ?a ?b ?c] => apply (link_after_other a b c q) end;
         [apply Hne; mem|intros ->; apply (HDU p); [mem|done]|]; cbn; rewrite Hnx;
         destruct D2 as [|[q2 d2] D2]; cbn; [done|]; intros [= ->]; apply (HDU q2); [cbn; mem|done]).
    - rewrite Ep, upd_other; [done|]. by apply Hne. }
  set (D' := D1 ++ (p, d) :: (fresh t, e) :: D2).
  assert (ED : D'.*1 = D1.*1 ++ p :: fresh t :: D2.*1) by (unfold D'; by rewrite fmap_app).
  assert (HD' : Forall (leaf_ok t2) D' /\ Forall (fun X => X.2 <> []) D').
  { pose proof (wf_leaves _ _ _ _ H) as HD0. apply list.Forall_app in HD0 as [HD1 HD0].
    apply list.Forall_cons in HD0 as [_ HD2]. pose proof (wf_nonempty _ _ _ _ H) as HN0.
    assert (Hn : Forall (fun X => X.2 <> []) D1 /\ Forall (fun X => X.2 <> []) D2).
    { destruct (decide (2 <= length (D1 ++ (p, d0) :: D2))%nat) as [Hl|Hl].
      - specialize (HN0 Hl). apply list.Forall_app in HN0 as [? HN0]. by apply list.Forall_cons in HN0 as [_ ?].
      - rewrite length_app in Hl. destruct D1, D2; simpl in Hl; try lia. done. }
    pose proof (nodup_leaf _ _ _ _ _ _ _ H) as Hp.
    assert (Ho : forall D, (forall q, q ∈ D.*1 -> q ∈ D1.*1 ++ D2.*1) -> Forall (leaf_ok t) D -> Forall (leaf_ok t2) D).
    { intros D Hin. rewrite !list.Forall_forall. intros HX X HXin. destruct (HX X HXin) as [H1 H2]. split; [|done].
      assert (Hq : X.1 ∈ D1.*1 ++ D2.*1) by (apply Hin, list_elem_of_fmap; by exists X).
      assert (X.1 <> fresh t) by (apply Hne; mem_in Hq; mem).
      cbn. rewrite Fr, Ei, lookup_insert_ne; auto. intros E. rewrite E in Hq. done. }
    split; (apply list.Forall_app; split; [|constructor; [|constructor]]); try apply Hn; try done;
      try (apply Ho; [intros q Hq; mem|done]). }
  assert (Hst : stable t2 0 (ups Ns) (D1.*1 ++ p :: fresh t :: D2.*1)).
  { intros t' Hi _. apply list.Forall_forall. intros q _. cbn. unfold get_items. by rewrite Hi. }
  assert (Hk : keyed t2 0 (D1.*1 ++ p :: fresh t :: D2.*1)).
  { rewrite <-ED. apply keyed_leaves; [|apply HD'|].
    - eapply list.Forall_impl; [exact (proj1 HD')|]. by intros X [].
    - unfold D'. rewrite snd_mid. cbn [fmap list_fmap snd concat]. rewrite (app_assoc d). by rewrite El in Ha. }
  assert (HDn : NoDup ((D1.*1 ++ p :: fresh t :: D2.*1) ++ ups Ns)).
  { replace ((D1.*1 ++ p :: fresh t :: D2.*1) ++ ups Ns) with ((D1.*1 ++ [p]) ++ fresh t :: (D2.*1 ++ ups Ns))
      by by rewrite <-!app_assoc.
    rewrite <-Permutation_middle. apply list.NoDup_cons. split.
    - intros Hin. apply (Hne (fresh t)); [mem_in Hin; mem|done].
    - by rewrite <-app_assoc in HD |- *. }
  assert (Hf2 : fresh t2 = S (fresh t)) by done.
  destruct (climb_ok Ns t2 0 D1.*1 p D2.*1 (fresh t) map (S (S (level t2)))) as (t' & Ns' & E & Ht'); auto.
  { intros q Hq. rewrite Hf2. destruct (decide (q = fresh t)); [lia|].
    assert (q < fresh t)%nat; [apply Hlt; mem_in Hq; mem|lia]. }
  { rewrite (tower_level _ _ _ _ HT2). lia. }
  exists t'. split; [done|]. destruct Ht' as (HT' & [Ki Kf Kp Kpar Klv] & HdN & Hu & _). rewrite <-ED in *.
  right. exists D', Ns'. split; auto.
  - eapply list.Forall_impl; [exact (proj1 HD')|]. intros X [H1 H2]. split; [by rewrite Ki|done].
  - intros _. apply HD'.
  - eapply seg_frame; [|exact HS2]. apply list.Forall_forall. intros q Hq.
    destruct (Kp q) as (_ & -> & ->); [|rewrite Hf2|done].
    + apply list.NoDup_app in HDn as (_ & HDn & _). by apply HDn.
    + rewrite ED in Hq. destruct (decide (q = fresh t)); [lia|].
      assert (q < fresh t)%nat; [apply Hlt; mem_in Hq; mem|lia].
  - apply list.NoDup_app in HDn as (HDn & HDU' & _). apply list.NoDup_app. split_and!; auto.
    intros q Hq Hin. destruct (Hu q Hin) as [Hin'|Hin']; [by apply (HDU' q)|].
    rewrite ED in Hq. destruct (decide (q = fresh t)); [lia|].
    assert (q < fresh t)%nat; [apply Hlt; mem_in Hq; mem|lia].
  - intros q Hq. rewrite elem_of_app in Hq. destruct (decide (q = fresh t)); [lia|].
    destruct Hq as [Hq|Hq]; [|destruct (Hu q Hq) as [Hq'|?]; [|lia]].
    + assert (q < fresh t)%nat; [apply Hlt; rewrite ED in Hq; mem_in Hq; mem|lia].
    + assert (q < fresh t)%nat; [apply Hlt; mem|lia].
  - unfold D'. rewrite snd_mid, El. cbn [fmap list_fmap snd concat]. by rewrite <-!app_assoc.
Qed.

Lemma add_split t D1 p X Y D2 Ns l v :
  wf_at t (D1 ++ (p, X ++ Y) :: D2) Ns l -> at_leaf t D1 p X Y D2 (key v) ->
  found_at Y (key v) = false -> length (X ++ Y) = LeafCount ->
  exists tA t2 entry t',
    new_ItemList (Some p) t = Some (fresh t, tA) /\
    leaf_split v p (fresh t) (length X) (X ++ Y) tA = Ret (entry, t2) /\
    climb (S (S (level t2))) (fresh t) (parent t2 p) 0 [entry] t2 = Ret (Added true, t') /\
    represents t' (put v l).
Proof.
  intros H Hal Hf Hfull. destruct (new_contents _ _ _ _ _ _ _ _ _ H Hal Hf) as [Ha El].
  destruct (new_ItemList_ok (Some p) t (Hpool _)) as (tA & EA & Ei & En & Elv & Ep & Ell & Er & Ef & Et).
  pose proof (nodup_leaf _ _ _ _ _ _ _ H) as Hp.
  pose proof (wf_fresh _ _ _ _ H) as Hlt. rewrite fmap_app in Hlt. cbn [fmap list_fmap fst] in Hlt.
  assert (Hpf : p <> fresh t) by (assert (p < fresh t)%nat by (apply Hlt; mem); lia).
  pose proof (wf_items _ _ _ _ H) as HD. apply list.Forall_app in HD as [HD1 HD].
  apply list.Forall_cons in HD as [Hip HD2]. cbn [fst snd] in *.
  destruct (leaf_next_data tA v p (fresh t) X Y []) as (f & d & Q' & E & Ec & Fp & Fq & Hld & HQ' & HlQ & Fr); auto.
  { by rewrite Ei, lookup_insert_ne. }
  { by rewrite Ei, lookup_insert_eq. }
  rewrite app_nil_r in Ec.
  exists tA, (with_items f tA). eexists.
  rewrite leaf_split_next, E by done. cbn [obind].
  assert (Hd : d <> []) by (intros ->; simpl in Hld; lia).
  assert (Hc : put v l = concat D1.*2 ++ (d ++ Q') ++ concat D2.*2) by (by rewrite <-El, Ec, <-!app_assoc).
  rewrite El in Ha. destruct (split_leaves t tA f D1 p (X ++ Y) d Q' D2 Ns l (put v l) H EA Fp Fq Fr Hd HQ'
    ltac:(lia) HlQ Ha Hc [if (length X =? LeafCount)%nat then None else Some (length X)]) as (t' & Ht' & Hrep).
  exists t'. split_and!; [done|reflexivity|exact Ht'|done].
Qed.

(** [add], on every branch: it inserts an item whose key is not there, and
    says whether it did. *)
Lemma add_ok v t l :
  represents t l ->
  exists t', add v t = Ret (Added (negb (present (key v) l)), t') /\ represents t' (put v l).
Proof.
  intros Hrep. destruct (ensure_root_ok t l (Hpool _) Hrep) as (r & t1 & D & Ns & E & Hr & H).
  unfold add. rewrite E. clear E t Hrep. rename t1 into t.
  destruct (at_leaf_exists t D Ns l (key v) H) as (r' & p & D1 & X & Y & D2 & Hr' & Hdes & -> & Hp & El & Hal).
  assert (r' = r) as -> by congruence. rewrite Hdes. cbn [obind]. unfold get_items. rewrite Hp. cbn [obind].
  rewrite (al_find _ _ _ _ _ _ _ Hal). cbn [obind].
  assert (Epres : present (key v) l = found_at Y (key v)).
  { pose proof (wf_sorted _ _ _ _ H) as Ha. rewrite El in *. rewrite (present_split (key v)); [|done|apply Hal..].
    destruct Y as [|y Y]; [|done]. cbn [found_at app]. pose proof (al_after _ _ _ _ _ _ _ Hal) as H1.
    destruct (concat D2.*2) as [|z Z]; [done|]. apply list.Forall_cons in H1 as [H1 _].
    destruct (Z.eqb_spec (key z) (key v)); [lia|done]. }
  rewrite Epres. destruct (found_at Y (key v)) eqn:Ef.
  { exists t. split; [done|]. apply represents_wf with (D := D1 ++ (p, X ++ Y) :: D2) (Ns := Ns).
    rewrite El, put_item_split by (apply Hal). destruct Y as [|y Y]; [done|]. cbn [found_at app] in *.
    by rewrite Ef, <-El. }
  destruct (Nat.ltb_spec (length (X ++ Y)) LeafCount) as [Hlen|Hlen].
  { rewrite vector_insert_app by done. cbn [obind]. eexists. split; [done|].
    eapply represents_wf, add_here; eauto. }
  pose proof (wf_leaves _ _ _ _ H) as HD. apply list.Forall_app in HD as [HD1 HD].
  apply list.Forall_cons in HD as [[_ Hc] HD2]. cbn [snd] in Hc.
  assert (Hfull : length (X ++ Y) = LeafCount) by lia.
  pose proof (wf_seg _ _ _ _ H) as HS. rewrite fmap_app in HS. cbn [fmap list_fmap fst] in HS.
  apply seg_mid in HS as [Hprev Hnext].
  destruct (room_items_next t D2 HD2) as [E|(q & Q & D2' & -> & HQ & E)]; rewrite Hnext, E; cbn [obind].
  2:{ destruct (add_to_next t D1 p X Y q Q D2' Ns l v) as (t' & -> & Ht'); auto. eauto. }
  destruct (room_items_prev t D1 HD1) as [E'|(q & Q & D1' & -> & HQ & E')]; rewrite Hprev, E'; cbn [obind].
  2:{ destruct (add_to_prev t D1' q Q p X Y D2 Ns l v) as (t' & -> & Ht'); auto. eauto. }
  destruct (add_split t D1 p X Y D2 Ns l v) as (tA & t2 & entry & t' & EA & E2 & E3 & Ht'); auto.
  rewrite EA, E2. cbn [obind]. rewrite E3. eauto.
Qed.

End insertion.

End tree.
End TreeAdd.
