(* ===== verification/TreeRemove.v ===== *)
(** * Removal from the B+ tree ([common/classes/tree.h])

    [removePage] takes a page out of its level, with what has to be merged or
    moved above it; [fastRemove] takes an item out of the sorted contents.
    Both keep the structure of [BePlusTree]. *)

From S2P Require Import Prelude.
From S2P Require Import BePlusTree.
From S2P Require Import TreeLevels.
From S2P Require Import TreeSpec.
From S2P Require Import TreeAdd.
From stdpp Require Import gmap sorting.
#[local] Open Scope Z_scope.

Module TreeRemove.
Import BePlusTree TreeSpec TreeLevels TreeAdd.

Section tree.
Context {P : TreeParams}.

(** ** Sizes of neighbouring pages *)

Definition apart_l (l : list nat) (x : nat) : Prop :=
  match list.last l with Some a => NEED_MERGE (a + x) NodeCount = false | None => True end.
Definition apart_r (x : nat) (l : list nat) : Prop :=
  match l with b :: _ => NEED_MERGE (x + b) NodeCount = false | [] => True end.

Lemma spaced_app l1 x l2 :
  spaced (l1 ++ x :: l2) <-> spaced l1 /\ apart_l l1 x /\ apart_r x l2 /\ spaced l2.
Proof.
  induction l1 as [|a l1 IH].
  - cbn. unfold apart_r. destruct l2; tauto.
  - cbn [app]. rewrite !spaced_cons, IH. unfold apart_l. rewrite last_cons.
    destruct l1 as [|b l1]; [cbn; tauto|].
    cbn [app]. destruct (list.last (b :: l1)) eqn:E; [tauto|]. by apply last_None in E.
Qed.

Lemma apart_l_le l x y : (x <= y)%nat -> apart_l l x -> apart_l l y.
Proof. unfold apart_l. destruct (list.last l); [|done]. intros H. apply NEED_MERGE_mono. lia. Qed.

Lemma apart_r_le x y l : (x <= y)%nat -> apart_r x l -> apart_r y l.
Proof. unfold apart_r. destruct l; [done|]. intros H. apply NEED_MERGE_mono. lia. Qed.

Lemma apart_l_end l a x : apart_l (l ++ [a]) x <-> NEED_MERGE (a + x) NodeCount = false.
Proof. unfold apart_l. by rewrite last_snoc. Qed.

(** A page with one child may go. *)
Lemma spaced_drop l1 l2 :
  Forall (fun x => 1 <= x)%nat l2 -> spaced (l1 ++ 1%nat :: l2) -> spaced (l1 ++ l2).
Proof.
  intros Hl H. apply spaced_app in H as (H1 & H2 & H3 & H4). destruct l2 as [|b l2]; [by rewrite app_nil_r|].
  apply list.Forall_cons in Hl as [Hb _]. rewrite spaced_cons in H4. apply spaced_app.
  split_and!; [done|eapply apart_l_le; [|exact H2]; lia|apply H4..].
Qed.

(** Two neighbours become one. *)
Lemma spaced_join l1 a b c l2 :
  spaced (l1 ++ a :: b :: l2) -> (a <= c)%nat -> (b <= c)%nat -> spaced (l1 ++ c :: l2).
Proof.
  intros H Ha Hb. apply spaced_app in H as (H1 & H2 & _ & H4). rewrite spaced_cons in H4.
  apply spaced_app. split_and!; [done|eapply apart_l_le; [|exact H2]; lia|eapply apart_r_le; [|exact (proj1 H4)]; lia|apply H4].
Qed.

(** Two neighbours whose sizes change. *)
Lemma spaced_two l1 a b c d l2 :
  spaced (l1 ++ a :: b :: l2) -> apart_l l1 c -> NEED_MERGE (c + d) NodeCount = false -> apart_r d l2 ->
  spaced (l1 ++ c :: d :: l2).
Proof.
  intros H H1 H2 H3. apply spaced_app in H as (? & _ & _ & H4). rewrite spaced_cons in H4.
  destruct H4 as [_ H4]. apply spaced_app. rewrite spaced_cons. by split_and!.
Qed.

(** ** What a removal leaves alone *)

Record removed (t t' : tree) (k : nat) (U L : list ptr) (node : ptr) : Prop := {
  rm_items : items t' = match k with O => delete node (items t) | S _ => items t end;
  rm_fresh : fresh t' = fresh t;
  rm_nodes : forall p, p ∉ U -> p <> node -> nodes t' !! p = nodes t !! p;
  rm_links : forall p, p ∉ U -> p ∉ L -> prev t' p = prev t p /\ next t' p = next t p;
  rm_parent : forall p, p ∉ U -> p ∉ L -> parent t' p = parent t p;
  rm_level : page_level t' = page_level t
}.

(** The levels above, without [node]. *)
Definition level_result (t' : tree) (k : nat) (U L : list ptr) : Prop :=
  exists Ns', tower t' k L Ns' /\ (forall u, u ∈ ups Ns' -> u ∈ U) /\ NoDup (ups Ns').

Lemma stable_up t t2 k (N : list (ptr * list ptr)) Ns L :
  stable t k (N.*1 ++ ups Ns) L -> items t2 = items t -> (fresh t <= fresh t2)%nat ->
  (forall q, q ∉ N.*1 ++ ups Ns -> (q < fresh t)%nat -> nodes t2 !! q = nodes t !! q) ->
  (forall x, x ∈ N.*1 -> (x ∉ ups Ns) /\ (x < fresh t2)%nat /\ exists c cs, nodes t2 !! x = Some (c :: cs) /\ c ∈ L) ->
  stable t2 (S k) (ups Ns) N.*1.
Proof.
  intros Hst Hi Hf Hn Hx t' Hi' Hn'. apply list.Forall_forall. intros x Hin.
  destruct (Hx x Hin) as (H1 & H2 & c & cs & E & Hc).
  rewrite (generate_up t2 k x c cs E), (generate_up t' k x c cs) by (etransitivity; [by apply Hn'|exact E]).
  assert (Ht2 := Hst t2 Hi Hn). assert (Ht' : Forall (fun c => generate t' k c = generate t k c) L).
  { apply Hst; [congruence|]. intros q Hq Hlt. rewrite Hn'; [by apply Hn|intros H; apply Hq; mem|lia]. }
  rewrite list.Forall_forall in Ht2, Ht'. by rewrite Ht2, Ht'.
Qed.

Lemma unlink_fields p t :
  items (unlink p t) = items t /\ nodes (unlink p t) = nodes t /\ page_level (unlink p t) = page_level t /\
  parent (unlink p t) = parent t /\ level (unlink p t) = level t /\ root (unlink p t) = root t /\
  fresh (unlink p t) = fresh t.
Proof.
  unfold unlink. destruct (prev t p); cbn;
    match goal with |- context [match ?x with Some _ => _ | None => _ end] => destruct x end; done.
Qed.

Lemma upd_self {B} (f : ptr -> B) a p : upd f a (f p) p = f p.
Proof. unfold upd. by destruct (p =? a)%nat. Qed.

Lemma unlink_other t A p B q :
  seg t None (A ++ p :: B) None -> q ∉ A ++ p :: B ->
  prev (unlink p t) q = prev t q /\ next (unlink p t) q = next t q.
Proof.
  intros HS Hq. destruct (seg_mid _ _ _ _ _ _ HS) as [Hp Hn].
  assert (Ha : forall a, prev t p = Some a -> q <> a).
  { intros a E. rewrite Hp in E. destruct A as [|a' A _] using rev_ind; [done|]. rewrite last_of_app in E.
    injection E as ->. intros ->. apply Hq. mem. }
  assert (Hb : forall b, next t p = Some b -> q <> b).
  { intros b E. rewrite Hn in E. destruct B as [|b' B]; [done|]. injection E as ->. intros ->. apply Hq. mem. }
  unfold unlink. destruct (prev t p) as [a|] eqn:Ea; cbn; rewrite ?upd_self;
    destruct (next t p) as [b|] eqn:Eb; cbn; rewrite ?upd_other by eauto; done.
Qed.

(** A change of the levels above ([U]), with the parents of the level
    below ([L]). *)
Record above (t t' : tree) (U L : list ptr) : Prop := {
  ab_items : items t' = items t;
  ab_fresh : fresh t' = fresh t;
  ab_nodes : forall p, p ∉ U -> nodes t' !! p = nodes t !! p;
  ab_links : forall p, p ∉ U -> prev t' p = prev t p /\ next t' p = next t p;
  ab_parent : forall p, p ∉ U -> p ∉ L -> parent t' p = parent t p;
  ab_level : page_level t' = page_level t
}.

Lemma above_trans t1 t2 t3 U L : above t1 t2 U L -> above t2 t3 U L -> above t1 t3 U L.
Proof.
  intros [A1 A2 A3 A4 A5 A6] [B1 B2 B3 B4 B5 B6]. split; try congruence.
  - intros p H. by rewrite B3, A3.
  - intros p H. destruct (A4 p H) as [<- <-]. by apply B4.
  - intros p H1 H2. by rewrite B5, A5.
Qed.

Lemma above_removed t t' k (N : list (ptr * list ptr)) Ns L x :
  removed t t' (S k) (ups Ns) N.*1 x -> x ∈ N.*1 -> above t t' (N.*1 ++ ups Ns) L.
Proof.
  intros [A1 A2 A3 A4 A5 A6] Hx. split; auto.
  - intros p H. apply A3; [intros H1; apply H; mem|intros ->; apply H; mem].
  - intros p H. apply A4; intros H1; apply H; mem.
  - intros p H _. apply A5; intros H1; apply H; mem.
Qed.

(** The page is unlinked before, and given back after. *)
Lemma removed_above t t2 k U A node B :
  seg t None (A ++ node :: B) None -> above (unlink node t) t2 U (A ++ node :: B) ->
  removed t (free_page k node t2) k U (A ++ node :: B) node.
Proof.
  intros HS [A1 A2 A3 A4 A5 A6].
  destruct (unlink_fields node t) as (U1 & U2 & U3 & U4 & _ & _ & U5).
  assert (Hf : free_page k node t2 = match k with O => with_items (delete node) t2 | S _ => with_nodes (delete node) t2 end)
    by (by destruct k). rewrite Hf. clear Hf. split.
  - destruct k; cbn; by rewrite A1, U1.
  - destruct k; cbn; by rewrite A2, U5.
  - intros p H1 H2. assert (E : nodes t2 !! p = nodes t !! p) by (by rewrite A3, U2).
    destruct k; cbn; [done|]. by rewrite lookup_delete_ne.
  - intros p H1 H2. destruct (A4 p H1) as [E1 E2]. destruct (unlink_other t A node B p HS H2) as [E3 E4].
    destruct k; cbn; split; congruence.
  - intros p H1 H2. assert (E : parent t2 p = parent t p) by (by rewrite A5, U4). by destruct k.
  - destruct k; cbn; congruence.
Qed.

Lemma level_result_free t k U L node :
  level_result t k U L -> node ∉ U -> level_result (free_page k node t) k U L.
Proof.
  intros (Ns & HT & HU & Hd) Hn. exists Ns. split_and!; auto.
  eapply tower_frame; [| | | |exact HT]; try (by destruct k); apply list.Forall_forall; intros p Hp; [|by destruct k].
  destruct k; cbn; [done|]. rewrite lookup_delete_ne; [done|]. intros ->. apply Hn. auto.
Qed.

(** A level whose page [x] is gone, once the levels above know. *)
Lemma level_result_up t t2 k N' (M : list (ptr * list ptr)) x Ns L :
  Forall (node_ok t k) N' -> concat N'.*2 = L -> spaced (sizes N') -> (2 <= length L)%nat ->
  removed t t2 (S k) (ups Ns) M.*1 x -> seg t2 None N'.*1 None -> level_result t2 (S k) (ups Ns) N'.*1 ->
  (forall q, q ∈ N'.*1 -> q ∈ M.*1 /\ q <> x) -> NoDup N'.*1 ->
  (forall q, q ∈ M.*1 -> q ∉ ups Ns) -> (forall c, c ∈ L -> (c ∉ ups Ns) /\ (c ∉ M.*1)) ->
  level_result t2 k (M.*1 ++ ups Ns) L.
Proof.
  intros HN EL Hsp Hlen [R1 R2 R3 R4 R5 R6] HS (Ns' & HT & HU & Hd) Hq HdN HMU HL.
  exists (N' :: Ns'). split_and!.
  - cbn [tower]. split_and!; auto.
    eapply Forall_node_ok_frame; [| |exact HN]; apply list.Forall_forall; intros c Hc.
    + destruct (Hq c Hc) as [H1 H2]. rewrite R6. split; [apply R3; auto|done].
    + rewrite EL in Hc. destruct (HL c Hc). by apply R5.
  - intros u. rewrite ups_cons, !elem_of_app. intros [H|H]; [left; by apply Hq|right; auto].
  - rewrite ups_cons. apply list.NoDup_app. split_and!; auto. intros q H1 H2.
    apply Hq in H1 as [H1 _]. apply (HMU q H1). auto.
Qed.

(** A level that changed by itself. *)
Record touched (t t' : tree) (Q L : list ptr) : Prop := {
  to_items : items t' = items t;
  to_links : prev t' = prev t /\ next t' = next t;
  to_rest : fresh t' = fresh t /\ root t' = root t /\ level t' = level t;
  to_nodes : forall p, p ∉ Q -> nodes t' !! p = nodes t !! p;
  to_parent : forall p, p ∉ L -> parent t' p = parent t p;
  to_level : page_level t' = page_level t
}.

Lemma touched_above t t' Q L U : touched t t' Q L -> (forall q, q ∈ Q -> q ∈ U) -> above t t' U L.
Proof.
  intros [A1 [A2 A3] (A4 & _) A5 A6 A7] H. split; auto.
  - intros p _. by rewrite A2, A3.
Qed.

Lemma touched_tower t t' k L (N : list (ptr * list ptr)) Ns :
  touched t t' N.*1 L -> tower t (S k) N.*1 Ns -> NoDup (N.*1 ++ ups Ns) ->
  (forall c, c ∈ L -> (c ∉ ups Ns) /\ (c ∉ N.*1)) -> tower t' (S k) N.*1 Ns.
Proof.
  intros [R1 [Hp Hx] (_ & Hr & Hl) R3 R5 R6] HT Hd HL.
  apply list.NoDup_app in Hd as (Hd1 & HNU & _).
  eapply tower_frame; [| |done|done|exact HT]; apply list.Forall_forall; intros q Hq.
  - assert (q ∉ N.*1) by (intros H; by apply (HNU q)). rewrite R3, R6, Hp, Hx by done. done.
  - apply R5. intros H. apply HL in H as [H1 H2]. mem_in Hq. tauto.
Qed.

Lemma level_result_here t t2 k (N N' : list (ptr * list ptr)) Ns L L' :
  touched t t2 N.*1 L' -> tower t (S k) N.*1 Ns ->
  seg t None N.*1 None -> Forall (node_ok t2 k) N' -> N'.*1 = N.*1 -> concat N'.*2 = L ->
  spaced (sizes N') -> (2 <= length L)%nat -> NoDup (N.*1 ++ ups Ns) ->
  (forall c, c ∈ L' -> (c ∉ ups Ns) /\ (c ∉ N.*1)) -> level_result t2 k (N.*1 ++ ups Ns) L.
Proof.
  intros Ht HT HS HN E1 EL Hsp Hlen Hd HL.
  exists (N' :: Ns). rewrite ups_cons, E1. split_and!; [|done|done].
  cbn [tower]. rewrite E1. split_and!; auto.
  - eapply seg_frame; [|exact HS]. apply list.Forall_forall. intros q _.
    destruct Ht as [_ [-> ->] _ _ _ _]. done.
  - by eapply touched_tower.
Qed.

(** The root of the levels. *)
Lemma tower_root t k (N : list (ptr * list ptr)) Ns p :
  tower t (S k) N.*1 Ns -> NoDup (N.*1 ++ ups Ns) -> p ∈ N.*1 ->
  if (length N =? 1)%nat then root t = Some p /\ level t = S k /\ Ns = [] else root t <> Some p.
Proof.
  intros HT Hd Hp. apply list.NoDup_app in Hd as (_ & Hd & _). destruct Ns as [|M Ns].
  - destruct HT as (r & E & Hr & Hl & _). destruct N as [|[q cs] [|]]; try done. cbn in *.
    injection E as ->. apply list_elem_of_singleton in Hp as ->. done.
  - pose proof HT as (_ & _ & _ & Hlen & _). rewrite length_fmap in Hlen.
    destruct (Nat.eqb_spec (length N) 1); [lia|]. intros Hr. apply (Hd p Hp).
    assert (Hin : forall k L Ns, tower t k L Ns -> Ns <> [] -> p ∈ ups Ns).
    { clear -Hr. intros k L Ns. revert k L. induction Ns as [|M Ns IH]; intros k L; [done|].
      intros (_ & _ & _ & _ & _ & HT) _. rewrite ups_cons. destruct Ns as [|M' Ns].
      - destruct HT as (r & -> & Hr' & _). rewrite Hr in Hr'. injection Hr' as ->. mem.
      - apply elem_of_app. right. by apply (IH (S k) M.*1). }
    by apply (Hin (S k) N.*1 (M :: Ns)).
Qed.

(** ** [removePage] *)

(** What [removePage] does with the levels [Ns] above its page. *)
Definition removes (Ns : list (list (ptr * list ptr))) : Prop :=
  forall t k A node B fuel,
    tower t k (A ++ node :: B) Ns -> seg t None (A ++ node :: B) None -> keyed t k (A ++ node :: B) ->
    stable t k (ups Ns) (A ++ node :: B) -> NoDup ((A ++ node :: B) ++ ups Ns) ->
    (forall q, q ∈ (A ++ node :: B) ++ ups Ns -> (q < fresh t)%nat) ->
    (2 <= length (A ++ node :: B))%nat -> (length Ns <= fuel)%nat ->
    exists t', removePage fuel k node t = Ret t' /\
      removed t t' k (ups Ns) (A ++ node :: B) node /\ level_result t' k (ups Ns) (A ++ B) /\
      seg t' None (A ++ B) None.

Lemma stable_up' t t2 k (N : list (ptr * list ptr)) Ns L :
  stable t k (N.*1 ++ ups Ns) L -> touched t t2 N.*1 L -> Forall (has_children t2) N ->
  (forall c, c ∈ concat N.*2 -> c ∈ L) -> NoDup (N.*1 ++ ups Ns) ->
  (forall q, q ∈ N.*1 -> (q < fresh t)%nat) -> keyed t k (concat N.*2) ->
  stable t2 (S k) (ups Ns) N.*1 /\ keyed t2 (S k) N.*1.
Proof.
  intros Hst [A1 A2 (A3 & _) A4 A5 A6] HN HL Hd Hlt Hk. apply list.NoDup_app in Hd as (_ & Hd & _). split.
  - eapply stable_up; [exact Hst|done|lia| |].
    + intros q Hq _. apply A4. intros H. apply Hq. mem.
    + intros x Hx. split_and!; [by apply Hd|rewrite A3; by apply Hlt|].
      apply list_elem_of_fmap in Hx as ([q cs] & -> & Hx).
      destruct (proj1 (list.Forall_forall _ _) HN _ Hx) as (c & cs0 & cs' & E & Hn). cbn [fst snd] in *.
      exists c, cs'. split; [done|]. apply HL. eapply elem_children; [exact Hx|]. rewrite E. left.
  - apply keyed_up; [done|]. eapply keyed_ext; [|exact Hk].
    eapply (list.Forall_impl (fun c => c ∈ L)).
    + apply list.Forall_forall. intros c Hc. auto.
    + intros c Hc. assert (H := Hst t2 A1). rewrite list.Forall_forall in H. apply H; [|done].
      intros q Hq _. apply A4. intros Hin. apply Hq. mem.
Qed.

(** One of the pages of a level goes. *)
Lemma recursion_case t tj k (N N' N'' : list (ptr * list ptr)) Ns L L' M1 x M2 fuel :
  removes Ns -> touched t tj N.*1 L -> tower t (S k) N.*1 Ns -> seg t None N.*1 None ->
  stable t k (N.*1 ++ ups Ns) L -> NoDup (N.*1 ++ ups Ns) -> (forall q, q ∈ N.*1 ++ ups Ns -> (q < fresh t)%nat) ->
  (forall c, c ∈ L -> (c ∉ ups Ns) /\ (c ∉ N.*1)) ->
  N''.*1 = N.*1 -> Forall (has_children tj) N'' -> (forall c, c ∈ concat N''.*2 -> c ∈ L) ->
  keyed t k (concat N''.*2) ->
  N.*1 = M1 ++ x :: M2 -> N'.*1 = M1 ++ M2 -> Forall (node_ok tj k) N' -> concat N'.*2 = L' ->
  (forall c, c ∈ L' -> c ∈ L) -> spaced (sizes N') -> (2 <= length L')%nat ->
  (2 <= length N.*1)%nat -> (length Ns <= fuel)%nat ->
  exists t2, removePage fuel (S k) x tj = Ret t2 /\ above t t2 (N.*1 ++ ups Ns) L /\
    level_result t2 k (N.*1 ++ ups Ns) L'.
Proof.
  intros Hrec Ht HT HS Hst Hd Hlt HL E'' HN'' Hc'' Hk'' EN EN' HN' EL' HL' Hsp Hlen Hlen' Hf.
  pose proof (touched_tower _ _ _ _ _ _ Ht HT Hd HL) as HTj.
  assert (HSj : seg tj None N.*1 None).
  { eapply seg_frame; [|exact HS]. apply list.Forall_forall. intros q _. by destruct Ht as [_ [-> ->] _ _ _ _]. }
  destruct (stable_up' t tj k N'' Ns L) as [Hstj Hkj]; rewrite ?E''; auto.
  { intros q Hq. apply Hlt. mem. }
  rewrite E'' in *. rewrite EN in *.
  destruct (Hrec tj (S k) M1 x M2 fuel) as (t2 & E & Hr & Hres & HS2); auto.
  { intros q Hq. destruct Ht as [_ _ (-> & _) _ _ _]. by apply Hlt. }
  assert (Hx : x ∈ N.*1) by (rewrite EN; mem). rewrite <-EN in *.
  exists t2. split; [done|]. split.
  - eapply above_trans; [eapply touched_above; [exact Ht|intros q Hq; mem]|by eapply above_removed].
  - assert (HdN : NoDup N.*1) by (by apply list.NoDup_app in Hd as (? & _ & _)).
    rewrite EN in HdN. apply NoDup_mid in HdN as [HxM HdN].
    eapply (level_result_up tj t2 k N' N x); eauto; rewrite ?EN'; auto.
    + intros q Hq. split; [rewrite EN; mem_in Hq; mem|]. intros ->. done.
    + intros q Hq. apply list.NoDup_app in Hd as (_ & Hd & _). auto.
Qed.

Lemma set_parents_fields l par t :
  items (set_parents l par t) = items t /\ nodes (set_parents l par t) = nodes t /\
  page_level (set_parents l par t) = page_level t /\ prev (set_parents l par t) = prev t /\
  next (set_parents l par t) = next t /\ root (set_parents l par t) = root t /\
  level (set_parents l par t) = level t /\ fresh (set_parents l par t) = fresh t /\
  forall c, parent (set_parents l par t) c = if decide (c ∈ l) then par else parent t c.
Proof.
  revert t. induction l as [|d l IH]; intros t; [by split_and!|].
  cbn [set_parents fold_left]. destruct (IH (set_parent d par t)) as (E1 & E2 & E3 & E4 & E5 & E6 & E7 & E8 & E9).
  unfold set_parents in *. rewrite E1, E2, E3, E4, E5, E6, E7, E8. split_and!; try done.
  intros c. rewrite E9. cbn. destruct (decide (c ∈ l)), (decide (c ∈ d :: l)) as [H|H]; try done.
  - exfalso. apply H. by right.
  - apply elem_of_cons in H as [->|H]; [|done]. apply upd_same.
  - apply upd_other. intros ->. apply H. left.
Qed.

Lemma small_merge x : (2 <= NodeCount)%nat -> (x <= 2)%nat -> NEED_MERGE x NodeCount = true.
Proof.
  intros Hc Hx. unfold NEED_MERGE. apply Nat.leb_le. etransitivity; [|exact Hc].
  destruct x as [|[|[|x]]]; [cbn; lia..|lia].
Qed.

Lemma sizes_positive t k N : Forall (node_ok t k) N -> Forall (fun x => 1 <= x)%nat (sizes N).
Proof.
  intros H. unfold sizes. rewrite list.Forall_fmap. eapply list.Forall_impl; [exact H|].
  intros [q [|c cs]] (_ & Hne & _); [done|]. unfold compose. cbn. lia.
Qed.

Lemma length_children (N : list (ptr * list ptr)) : length (concat N.*2) = sum_list (sizes N).
Proof. induction N as [|[q cs] N IH]; [done|]. cbn. by rewrite length_app, IH. Qed.

Lemma children_count t k N : Forall (node_ok t k) N -> (length N <= length (concat N.*2))%nat.
Proof.
  intros H. apply sizes_positive in H. rewrite length_children. induction N as [|X N IH]; [done|].
  change (sizes (X :: N)) with (length X.2 :: sizes N) in *.
  apply list.Forall_cons in H as [H1 H2]. specialize (IH H2). cbn [length sum_list sum_list_with fold_right] in *.
  simpl in *. lia.
Qed.

Section page.
Context (t : tree) (k : nat) (N1 N2 : list (ptr * list ptr)) (p : ptr) (C1 C2 : list ptr) (node : ptr)
  (Ns : list (list (ptr * list ptr))) (fuel : nat).
Let N := N1 ++ (p, C1 ++ node :: C2) :: N2.
Let L := (concat N1.*2 ++ C1) ++ node :: (C2 ++ concat N2.*2).
Let L' := (concat N1.*2 ++ C1) ++ C2 ++ concat N2.*2.
Context (HN1 : Forall (node_ok t k) N1) (HN2 : Forall (node_ok t k) N2)
  (Hp : node_ok t k (p, C1 ++ node :: C2))
  (HS : seg t None N.*1 None) (Hsp : spaced (sizes N)) (HT : tower t (S k) N.*1 Ns)
  (Hk : keyed t k L) (Hst : stable t k (N.*1 ++ ups Ns) L)
  (Hd : NoDup (L ++ N.*1 ++ ups Ns)) (Hlt : forall q, q ∈ N.*1 ++ ups Ns -> (q < fresh t)%nat)
  (Hcap : (2 <= NodeCount)%nat) (Hf : (length Ns <= fuel)%nat) (Hrec : removes Ns).

Lemma page_L' : forall c, c ∈ L' -> c ∈ L.
Proof. intros c Hc. unfold L, L' in *. mem_in Hc. mem. Qed.

Lemma page_disjoint : forall c, c ∈ L -> (c ∉ ups Ns) /\ (c ∉ N.*1).
Proof. intros c Hc. apply list.NoDup_app in Hd as (_ & Hd' & _). split; intros H; apply (Hd' c Hc); mem. Qed.

Lemma page_upper : NoDup (N.*1 ++ ups Ns).
Proof. by apply list.NoDup_app in Hd as (_ & _ & ?). Qed.

Lemma page_keyed : keyed t k L'.
Proof.
  unfold L, L' in *. destruct Hk as [H1 H2]. split.
  - apply list.Forall_app in H1 as [H1 H3]. apply list.Forall_cons in H3 as [_ H3]. by apply list.Forall_app.
  - rewrite ascending_app, ascending_cons in H2. rewrite ascending_app. destruct H2 as (H2 & [_ H3] & H4).
    split_and!; auto. eapply list.Forall_impl; [exact H4|]. intros c Hc. by apply list.Forall_cons in Hc as [_ ?].
Qed.

(** Facts on the pages of the level. *)
Lemma page_names : N.*1 = N1.*1 ++ p :: N2.*1.
Proof. unfold N. by rewrite fmap_app. Qed.

Lemma page_sizes : sizes N = sizes N1 ++ length (C1 ++ node :: C2) :: sizes N2.
Proof. unfold N. by rewrite sizes_app. Qed.

Lemma page_touched_self : touched t t N.*1 L.
Proof. by split. Qed.

(** The page is the only child of its parent, which goes too. *)
Lemma only_child :
  C1 = [] -> C2 = [] -> (2 <= length N)%nat ->
  exists t2, removePage fuel (S k) p t = Ret t2 /\ above t t2 (N.*1 ++ ups Ns) L /\
    level_result t2 k (N.*1 ++ ups Ns) L'.
Proof.
  intros E1 E2 Hlen. pose proof page_sizes as Hsz. pose proof page_names as Hnm.
  pose proof page_upper as Hup. pose proof page_disjoint as Hdj. pose proof page_L' as HL'.
  pose proof page_touched_self as Hto. rewrite Hsz in Hsp.
  assert (HL2 : L' = concat (N1 ++ N2).*2) by (unfold L'; by rewrite E1, E2, snd_app, app_nil_r).
  apply (recursion_case t t k N (N1 ++ N2) N Ns L L' N1.*1 p N2.*1 fuel); auto.
  - apply list.Forall_app. split; [|constructor].
    + eapply list.Forall_impl; [exact HN1|apply node_ok_children].
    + by eapply node_ok_children.
    + eapply list.Forall_impl; [exact HN2|apply node_ok_children].
  - intros c Hc. unfold N in Hc. rewrite snd_mid in Hc. unfold L. mem_in Hc. mem.
  - unfold N. rewrite snd_mid. unfold L in Hk. by rewrite <-!app_assoc in *.
  - by rewrite fmap_app.
  - by apply list.Forall_app.
  - rewrite sizes_app. apply spaced_drop; [by eapply sizes_positive|]. rewrite E1, E2 in Hsp. exact Hsp.
  - rewrite HL2, length_children, sizes_app, E1, E2 in *. cbn [app length] in Hsp.
    apply spaced_app in Hsp as (_ & H1 & H2 & _). pose proof (sizes_positive _ _ _ HN2) as Hpos.
    unfold apart_l, apart_r in *. clear -H1 H2 Hpos Hlen Hcap.
    assert (Hs : forall x, NEED_MERGE x NodeCount = false -> (3 <= x)%nat).
    { intros x Hx. destruct (decide (x <= 2)%nat) as [H|H]; [|lia].
      pose proof (small_merge x Hcap H). congruence. }
    rewrite sum_list_with_app. destruct N1 as [|X M _] using rev_ind.
    + destruct N2 as [|Y M]; [unfold N in Hlen; simpl in Hlen; lia|]. simpl in *. apply Hs in H2. lia.
    + rewrite sizes_app in *. change (sizes [X]) with [length X.2] in *. rewrite last_snoc in H1.
      apply Hs in H1. rewrite sum_list_with_app. simpl. lia.
  - by rewrite length_fmap.
Qed.

(** Pages of the level that do not change. *)
Lemma page_others t' M :
  touched t t' N.*1 L -> (forall X, X ∈ M -> X ∈ N /\ nodes t' !! X.1 = nodes t !! X.1) ->
  (forall c, c ∈ concat M.*2 -> parent t' c = parent t c) -> Forall (node_ok t' k) M.
Proof.
  intros Ht HM Hc. apply (Forall_node_ok_frame t).
  - apply list.Forall_forall. intros q Hq. apply list_elem_of_fmap in Hq as (X & -> & HX).
    split; [by apply HM|]. by rewrite (to_level _ _ _ _ Ht).
  - apply list.Forall_forall. auto.
  - apply list.Forall_forall. intros X HX. apply HM in HX as [HX _].
    assert (HN : Forall (node_ok t k) N) by (apply list.Forall_app; by split; [|constructor]).
    by apply (proj1 (list.Forall_forall _ _) HN).
Qed.

Lemma page_p_fresh : p ∉ N1.*1 ++ N2.*1.
Proof.
  pose proof page_upper as Hup. apply list.NoDup_app in Hup as (Hup & _). rewrite page_names in Hup.
  by apply NoDup_mid in Hup as [? _].
Qed.

Lemma elem_name (M : list (ptr * list ptr)) X : X ∈ M -> X.1 ∈ M.*1.
Proof. intros H. apply list_elem_of_fmap. by exists X. Qed.

Definition cut : tree := set_nodes p (C1 ++ C2) t.

Lemma cut_touched : touched t cut N.*1 L.
Proof.
  split; try done. intros q Hq. cbn. apply lookup_insert_ne. intros <-. apply Hq. rewrite page_names. mem.
Qed.

Lemma cut_ok : C1 ++ C2 <> [] -> node_ok cut k (p, C1 ++ C2).
Proof.
  intros Hne. destruct Hp as (H1 & H2 & H3 & H4 & H5). cbn [fst snd] in *. split_and!; cbn [fst snd]; auto.
  - cbn. by rewrite lookup_insert_eq.
  - rewrite length_app in *. cbn [length] in *. lia.
  - cbn. apply list.Forall_app in H5 as [? H5]. apply list.Forall_cons in H5 as [_ ?]. by apply list.Forall_app.
Qed.

(** The page loses a child, and that is all. *)
Lemma plain :
  C1 ++ C2 <> [] -> apart_l (sizes N1) (length (C1 ++ C2)) -> apart_r (length (C1 ++ C2)) (sizes N2) ->
  (2 <= length L')%nat ->
  above t cut (N.*1 ++ ups Ns) L /\ level_result cut k (N.*1 ++ ups Ns) L'.
Proof.
  intros Hne Hl Hr Hlen. pose proof cut_touched as Ht. pose proof page_p_fresh as Hpf.
  pose proof page_names as Hnm. pose proof page_upper as Hup. pose proof page_disjoint as Hdj.
  split.
  - eapply touched_above; [exact Ht|]. intros q Hq. mem.
  - apply (level_result_here t cut k N (N1 ++ (p, C1 ++ C2) :: N2) Ns L' L); auto.
    + apply list.Forall_app. split; [|constructor; [by apply cut_ok|]].
      * apply page_others; [exact Ht| |done]. intros X HX. split; [unfold N; mem|].
        cbn. apply lookup_insert_ne. intros E. apply Hpf. rewrite E. apply elem_name in HX. mem.
      * apply page_others; [exact Ht| |done]. intros X HX. split; [unfold N; mem|].
        cbn. apply lookup_insert_ne. intros E. apply Hpf. rewrite E. apply elem_name in HX. mem.
    + unfold N. by rewrite !fmap_app.
    + unfold L'. rewrite snd_mid. by rewrite <-!app_assoc.
    + rewrite page_sizes in Hsp. apply spaced_app in Hsp as (H1 & _ & _ & H4).
      rewrite sizes_app. by apply spaced_app.
Qed.


Lemma page_cut_children : C1 ++ C2 <> [] -> has_children cut (p, C1 ++ C2).
Proof. intros H. by eapply node_ok_children, cut_ok. Qed.

Lemma join_nodes_ok t0 into from d l :
  nodes t0 !! into = Some d -> nodes t0 !! from = Some l -> (length d + length l <= NodeCount)%nat ->
  join_nodes into from t0 = Ret (set_parents l (Some into) (set_nodes into (d ++ l) t0)).
Proof.
  intros Hi Hfrom Hl. unfold join_nodes, get_nodes. rewrite Hi, Hfrom. cbn [obind].
  unfold vector_join. by rewrite (proj2 (Nat.leb_le _ _)).
Qed.

(** The page is joined with a neighbour: the changes before a page goes. *)
Lemma joined_touched into l d :
  into ∈ N.*1 -> (forall c, c ∈ l -> c ∈ L) ->
  touched t (set_parents l (Some into) (set_nodes into d cut)) N.*1 L.
Proof.
  intros Hi Hl. destruct (set_parents_fields l (Some into) (set_nodes into d cut))
    as (E1 & E2 & E3 & E4 & E5 & E6 & E7 & E8 & E9).
  split; rewrite ?E1, ?E2, ?E3, ?E4, ?E5, ?E6, ?E7, ?E8; try done.
  - intros q Hq. cbn. rewrite !lookup_insert_ne; [done| |].
    + intros <-. apply Hq. rewrite page_names. mem.
    + by intros ->.
  - intros c Hc. rewrite E9. rewrite decide_False; [done|]. intros H. auto.
Qed.

(** What a neighbour of the page has. *)
Lemma neighbour_names M1 q Q M2 :
  N1 ++ N2 = M1 ++ (q, Q) :: M2 -> p <> q /\ (q ∉ M1.*1 ++ M2.*1) /\ q ∈ N.*1 /\ node_ok t k (q, Q).
Proof.
  intros E. pose proof page_p_fresh as Hpf. pose proof page_upper as Hup.
  assert (E' : N1.*1 ++ N2.*1 = M1.*1 ++ q :: M2.*1) by (by rewrite <-fmap_app, E, fmap_app).
  apply list.NoDup_app in Hup as (Hup & _). rewrite page_names in Hup.
  apply NoDup_mid in Hup as [_ Hup]. rewrite E' in *.
  assert (Hq : q ∈ N1.*1 ++ N2.*1) by (rewrite E'; mem).
  split_and!.
  - intros ->. apply Hpf. mem.
  - by apply NoDup_mid in Hup as [? _].
  - rewrite page_names. mem_in Hq. mem.
  - assert (HN : Forall (node_ok t k) (N1 ++ N2)) by (by apply list.Forall_app).
    rewrite E in HN. apply list.Forall_app in HN as [_ HN]. by apply list.Forall_cons in HN as [? _].
Qed.

Lemma has_children_frame t0 t' X :
  nodes t' !! X.1 = nodes t0 !! X.1 -> has_children t0 X -> has_children t' X.
Proof. intros E (c & cs & cs' & E1 & E2). exists c, cs, cs'. split; [done|]. by rewrite E. Qed.

Lemma children_others t' M :
  (forall X, X ∈ M -> X ∈ N1 ++ N2 /\ nodes t' !! X.1 = nodes t !! X.1) -> Forall (has_children t') M.
Proof.
  intros H. apply list.Forall_forall. intros X HX. destruct (H X HX) as [H1 H2].
  assert (HN : Forall (node_ok t k) (N1 ++ N2)) by (by apply list.Forall_app).
  eapply has_children_frame; [exact H2|]. eapply node_ok_children, (proj1 (list.Forall_forall _ _) HN); done.
Qed.

Lemma elem_concat_mid (M1 M2 : list (ptr * list ptr)) q Q c :
  c ∈ concat (M1 ++ (q, Q) :: M2).*2 <-> c ∈ concat M1.*2 \/ c ∈ Q \/ c ∈ concat M2.*2.
Proof. rewrite snd_mid, !elem_of_app. tauto. Qed.

Lemma L_NoDup : NoDup L.
Proof. by apply list.NoDup_app in Hd as (? & _ & _). Qed.

Lemma page_rest c : c ∈ concat N1.*2 \/ c ∈ concat N2.*2 -> c ∉ C1 ++ C2.
Proof.
  pose proof L_NoDup as HL. unfold L in HL. apply list.NoDup_app in HL as (H1 & H2 & H3).
  apply list.NoDup_app in H1 as (_ & H1 & _). apply list.NoDup_cons in H3 as [_ H3].
  apply list.NoDup_app in H3 as (_ & H3 & _). intros Hc Hin. mem_in Hin. destruct Hc as [Hc|Hc], Hin as [Hin|Hin].
  - by apply (H1 c).
  - apply (H2 c); mem.
  - apply (H2 c); mem.
  - by apply (H3 c).
Qed.

(** Joined with the page before. *)
Lemma join_prev M1 q Q :
  N1 = M1 ++ [(q, Q)] -> C1 ++ C2 <> [] -> NEED_MERGE (length Q + length (C1 ++ C2)) NodeCount = true ->
  exists t2, (let* t' := join_nodes q p cut in removePage fuel (S k) p t') = Ret t2 /\
    above t t2 (N.*1 ++ ups Ns) L /\ level_result t2 k (N.*1 ++ ups Ns) L'.
Proof.
  intros E1 Hne Hm. apply NEED_MERGE_le in Hm.
  destruct (neighbour_names M1 q Q N2) as (Hpq & HqM & HqN & Hq); [by rewrite E1, <-app_assoc|].
  pose proof page_p_fresh as Hpf. pose proof page_upper as Hup. pose proof page_disjoint as Hdj.
  pose proof page_L' as HL'. pose proof page_names as Hnm. pose proof cut_ok Hne as Hcut.
  pose proof L_NoDup as HLd. pose proof page_keyed as HkL. pose proof page_sizes as Hsz. rewrite Hsz in Hsp.
  pose proof Hq as (Hqn & Hqne & Hqc & Hql & Hqp). cbn [fst snd] in *.
  rewrite (join_nodes_ok cut q p Q (C1 ++ C2)); [|cbn; by rewrite lookup_insert_ne|by apply Hcut|done].
  cbn [obind]. set (tj := set_parents (C1 ++ C2) (Some q) (set_nodes q (Q ++ C1 ++ C2) cut)).
  assert (Ht : touched t tj N.*1 L).
  { apply joined_touched; [done|]. intros c Hc. unfold L. mem_in Hc. mem. }
  assert (En : forall r, r <> q -> r <> p -> nodes tj !! r = nodes t !! r).
  { intros r H1 H2. unfold tj. destruct (set_parents_fields (C1 ++ C2) (Some q) (set_nodes q (Q ++ C1 ++ C2) cut))
      as (_ & -> & _). cbn. by rewrite !lookup_insert_ne. }
  assert (Ep : forall c, parent tj c = if decide (c ∈ C1 ++ C2) then Some q else parent t c).
  { intros c. unfold tj. by destruct (set_parents_fields (C1 ++ C2) (Some q) (set_nodes q (Q ++ C1 ++ C2) cut))
      as (_ & _ & _ & _ & _ & _ & _ & _ & ->). }
  assert (Enq : nodes tj !! q = Some (Q ++ C1 ++ C2)).
  { unfold tj. destruct (set_parents_fields (C1 ++ C2) (Some q) (set_nodes q (Q ++ C1 ++ C2) cut)) as (_ & -> & _).
    cbn. by rewrite lookup_insert_eq. }
  assert (Enp : nodes tj !! p = Some (C1 ++ C2)).
  { unfold tj. destruct (set_parents_fields (C1 ++ C2) (Some q) (set_nodes q (Q ++ C1 ++ C2) cut)) as (_ & -> & _).
    cbn. by rewrite lookup_insert_ne, lookup_insert_eq. }
  assert (Hoth : forall X, X ∈ M1 ++ N2 -> X ∈ N /\ X ∈ N1 ++ N2 /\ nodes tj !! X.1 = nodes t !! X.1).
  { intros X HX. unfold N. rewrite E1. split_and!; [mem_in HX; mem|mem_in HX; mem|].
    apply elem_name in HX. rewrite fmap_app in HX.
    apply En; [intros E; rewrite E in HX; done|intros E; rewrite E in HX; apply Hpf].
    rewrite E1, fmap_app. mem_in HX. mem. }
  assert (Hrest : forall c, c ∈ concat M1.*2 \/ c ∈ Q \/ c ∈ concat N2.*2 -> parent tj c = parent t c).
  { intros c Hc. rewrite Ep, decide_False; [done|]. apply page_rest. rewrite E1, snd_app. cbn.
    rewrite app_nil_r, elem_of_app. tauto. }
  assert (EL' : L' = concat M1.*2 ++ (Q ++ C1 ++ C2) ++ concat N2.*2).
  { unfold L'. rewrite E1, snd_app. cbn. by rewrite app_nil_r, <-!app_assoc. }
  apply (recursion_case t tj k N (M1 ++ (q, Q ++ C1 ++ C2) :: N2) (M1 ++ (q, Q) :: (p, C1 ++ C2) :: N2)
    Ns L L' N1.*1 p N2.*1 fuel); auto.
  - rewrite Hnm, E1, !fmap_app. cbn. by rewrite <-app_assoc.
  - apply list.Forall_app. split; [|constructor; [|constructor]].
    + apply children_others. intros X HX. apply Hoth. mem.
    + destruct Q as [|c Q]; [done|]. by exists c, Q, (Q ++ C1 ++ C2).
    + destruct (C1 ++ C2) as [|c cs]; [done|]. by exists c, cs, cs.
    + apply children_others. intros X HX. apply Hoth. mem.
  - intros c Hc. apply HL'. rewrite EL'. rewrite elem_concat_mid in Hc. cbn in Hc. mem_in Hc. mem.
  - rewrite snd_mid. cbn. replace (concat M1.*2 ++ Q ++ (C1 ++ C2) ++ concat N2.*2) with L'; [done|].
    by rewrite EL', <-!app_assoc.
  - rewrite E1, !fmap_app. cbn. by rewrite <-app_assoc.
  - apply list.Forall_app. split; [|constructor].
    + apply page_others; [exact Ht| |]; [intros X HX; split; apply Hoth; mem|]. intros c Hc. apply Hrest. by left.
    + split_and!; cbn [fst snd]; [done|by destruct Q|rewrite length_app; lia|by rewrite (to_level _ _ _ _ Ht)|].
      apply list.Forall_app. split; apply list.Forall_forall; intros c Hc.
      * rewrite Hrest by auto. by apply (proj1 (list.Forall_forall _ _) Hqp).
      * rewrite Ep. by rewrite decide_True.
    + apply page_others; [exact Ht| |]; [intros X HX; split; apply Hoth; mem|]. intros c Hc. apply Hrest. auto.
  - by rewrite snd_mid.
  - rewrite E1, sizes_app, <-app_assoc in Hsp. cbn in Hsp. rewrite sizes_app. cbn.
    eapply spaced_join; [exact Hsp|rewrite length_app; lia|].
    rewrite !length_app in *. cbn [length]. destruct Q; [done|]. cbn [length]. lia.
  - rewrite EL', !length_app. destruct Q; [done|]. assert (length (C1 ++ C2) <> O) by (by destruct (C1 ++ C2)).
    rewrite length_app in *. simpl. lia.
  - rewrite Hnm, E1, fmap_app, !length_app. simpl. lia.
Qed.

(** The page after is joined with it. *)
Lemma join_next M2 q Q :
  N2 = (q, Q) :: M2 -> C1 ++ C2 <> [] -> NEED_MERGE (length Q + length (C1 ++ C2)) NodeCount = true ->
  exists t2, (let* t' := join_nodes p q cut in removePage fuel (S k) q t') = Ret t2 /\
    above t t2 (N.*1 ++ ups Ns) L /\ level_result t2 k (N.*1 ++ ups Ns) L'.
Proof.
  intros E1 Hne Hm. apply NEED_MERGE_le in Hm.
  destruct (neighbour_names N1 q Q M2) as (Hpq & HqM & HqN & Hq); [by rewrite E1|].
  pose proof page_p_fresh as Hpf. pose proof page_upper as Hup. pose proof page_disjoint as Hdj.
  pose proof page_L' as HL'. pose proof page_names as Hnm. pose proof cut_ok Hne as Hcut.
  pose proof page_keyed as HkL. pose proof page_sizes as Hsz. rewrite Hsz in Hsp.
  pose proof Hq as (Hqn & Hqne & Hqc & Hql & Hqp). cbn [fst snd] in *.
  rewrite (join_nodes_ok cut p q (C1 ++ C2) Q); [|by apply Hcut|cbn; by rewrite lookup_insert_ne|lia].
  cbn [obind]. set (tj := set_parents Q (Some p) (set_nodes p ((C1 ++ C2) ++ Q) cut)).
  assert (HQL : forall c, c ∈ Q -> c ∈ L).
  { intros c Hc. unfold L. rewrite E1. cbn. mem. }
  assert (Ht : touched t tj N.*1 L).
  { apply joined_touched; [rewrite Hnm; mem|done]. }
  destruct (set_parents_fields Q (Some p) (set_nodes p ((C1 ++ C2) ++ Q) cut))
    as (_ & En & _ & _ & _ & _ & _ & _ & Ep). fold tj in En, Ep. cbn in En, Ep.
  assert (Enp : nodes tj !! p = Some ((C1 ++ C2) ++ Q)) by (by rewrite En, lookup_insert_eq).
  assert (Enq : nodes tj !! q = Some Q) by (by rewrite En, !lookup_insert_ne).
  assert (Hoth : forall X, X ∈ N1 ++ M2 -> X ∈ N /\ X ∈ N1 ++ N2 /\ nodes tj !! X.1 = nodes t !! X.1).
  { intros X HX. unfold N. rewrite E1. split_and!; [mem_in HX; mem|mem_in HX; mem|].
    apply elem_name in HX. rewrite fmap_app in HX. rewrite En, !lookup_insert_ne; [done|..];
      intros E; rewrite <-E in HX; apply Hpf; rewrite E1; cbn; mem_in HX; mem. }
  assert (Hrest : forall c, c ∈ concat N1.*2 \/ c ∈ C1 ++ C2 \/ c ∈ concat M2.*2 -> parent tj c = parent t c).
  { intros c Hc. rewrite Ep, decide_False; [done|]. intros Hin. pose proof L_NoDup as HLd. unfold L in HLd.
    rewrite E1 in HLd. cbn in HLd. apply list.NoDup_app in HLd as (_ & H1 & H2).
    apply list.NoDup_cons in H2 as [_ H2]. apply list.NoDup_app in H2 as (_ & H2 & H3).
    apply list.NoDup_app in H3 as (_ & H3 & _). mem_in Hc. destruct Hc as [Hc|[[Hc|Hc]|Hc]].
    - apply (H1 c); mem.
    - apply (H1 c); mem.
    - apply (H2 c); mem.
    - by apply (H3 c). }
  assert (EL' : L' = concat N1.*2 ++ ((C1 ++ C2) ++ Q) ++ concat M2.*2).
  { unfold L'. rewrite E1. cbn. by rewrite <-!app_assoc. }
  apply (recursion_case t tj k N (N1 ++ (p, (C1 ++ C2) ++ Q) :: M2) (N1 ++ (p, C1 ++ C2) :: (q, Q) :: M2)
    Ns L L' (N1.*1 ++ [p]) q M2.*1 fuel); auto.
  - rewrite Hnm, E1, !fmap_app. done.
  - apply list.Forall_app. split; [|constructor; [|constructor]].
    + apply children_others. intros X HX. apply Hoth. mem.
    + destruct (C1 ++ C2) as [|c cs]; [done|]. by exists c, cs, (cs ++ Q).
    + destruct Q as [|c Q]; [done|]. by exists c, Q, Q.
    + apply children_others. intros X HX. apply Hoth. mem.
  - intros c Hc. apply HL'. rewrite EL'. rewrite elem_concat_mid in Hc. cbn in Hc. mem_in Hc. mem.
  - rewrite snd_mid. cbn. replace (concat N1.*2 ++ (C1 ++ C2) ++ Q ++ concat M2.*2) with L'; [done|].
    by rewrite EL', <-!app_assoc.
  - rewrite Hnm, E1. cbn. by rewrite <-app_assoc.
  - rewrite !fmap_app. cbn. by rewrite <-app_assoc.
  - apply list.Forall_app. split; [|constructor].
    + apply page_others; [exact Ht| |]; [intros X HX; split; apply Hoth; mem|]. intros c Hc. apply Hrest. by left.
    + destruct Hcut as (_ & _ & _ & Hcl & Hcp). cbn [fst snd] in *.
      split_and!; cbn [fst snd]; [done|by destruct (C1 ++ C2)|rewrite length_app; lia|by rewrite (to_level _ _ _ _ Ht)|].
      apply list.Forall_app. split; apply list.Forall_forall; intros c Hc.
      * rewrite Hrest by auto. by apply (proj1 (list.Forall_forall _ _) Hcp).
      * rewrite Ep. by rewrite decide_True.
    + apply page_others; [exact Ht| |]; [intros X HX; split; apply Hoth; mem|]. intros c Hc. apply Hrest. auto.
  - by rewrite snd_mid.
  - rewrite E1 in Hsp. cbn in Hsp. rewrite sizes_app. cbn.
    eapply spaced_join; [exact Hsp| |rewrite length_app; lia].
    rewrite !length_app in *. cbn [length]. destruct Q; [done|]. cbn [length]. lia.
  - rewrite EL', !length_app. destruct Q; [done|]. assert (length (C1 ++ C2) <> O) by (by destruct (C1 ++ C2)).
    rewrite length_app in *. simpl. lia.
  - rewrite Hnm, E1, !length_app. simpl. lia.
Qed.

(** ** The only child is replaced *)

(** [list] takes a child [c] of its neighbour [q]. *)
Definition stolen (q : ptr) (Q : list ptr) (c : ptr) : tree :=
  set_nodes q Q (set_parent c (Some p) (set_nodes p [c] t)).

Lemma stolen_touched q Q c : q ∈ N.*1 -> c ∈ L -> touched t (stolen q Q c) N.*1 L.
Proof.
  intros Hq Hc. split; try done.
  - intros r Hr. cbn. rewrite !lookup_insert_ne; [done|intros <-; apply Hr; rewrite page_names; mem|by intros ->].
  - intros d Hdn. cbn. apply upd_other. by intros ->.
Qed.

Lemma stolen_level M1 q Q c M2 N' :
  C1 = [] -> C2 = [] -> N1 ++ N2 = M1 ++ (q, Q) :: M2 ->
  forall Q', (forall d, d ∈ Q <-> d = c \/ d ∈ Q') -> c ∉ Q' -> Q' <> [] -> length Q = S (length Q') ->
  (N' = M1 ++ (q, Q') :: (p, [c]) :: M2 /\ N1 = M1 ++ [(q, Q)] \/
   N' = M1 ++ (p, [c]) :: (q, Q') :: M2 /\ N2 = (q, Q) :: M2) ->
  concat N'.*2 = L' -> spaced (sizes N') ->
  above t (stolen q Q' c) (N.*1 ++ ups Ns) L /\ level_result (stolen q Q' c) k (N.*1 ++ ups Ns) L'.
Proof.
  intros E1 E2 E Q' HQ Hc HQ' Hlq HN' EL' Hsp'.
  destruct (neighbour_names M1 q Q M2 E) as (Hpq & HqM & HqN & Hq).
  pose proof page_p_fresh as Hpf. pose proof page_upper as Hup. pose proof page_disjoint as Hdj.
  pose proof page_L' as HL'. pose proof page_names as Hnm. pose proof L_NoDup as HLd.
  pose proof Hq as (Hqn & Hqne & Hqc & Hql & Hqp). pose proof Hp as (_ & _ & _ & Hpl & _). cbn [fst snd] in *.
  assert (Hall : L' = concat M1.*2 ++ Q ++ concat M2.*2).
  { unfold L'. rewrite E1, E2, app_nil_r. cbn [app]. rewrite <-snd_app, E. by rewrite snd_mid. }
  assert (HcQ : c ∈ Q) by (apply HQ; auto).
  assert (HcL : c ∈ L) by (apply HL'; rewrite Hall; mem).
  assert (Ht : touched t (stolen q Q' c) N.*1 L) by (by apply stolen_touched).
  assert (HcM : forall d, d ∈ concat M1.*2 \/ d ∈ concat M2.*2 -> d <> c).
  { assert (HdL' : NoDup L').
    { unfold L, L' in *. rewrite E1, E2 in *. cbn [app] in *. by apply NoDup_mid in HLd as [_ ?]. }
    rewrite Hall in HdL'. apply list.NoDup_app in HdL' as (_ & H1 & H2). apply list.NoDup_app in H2 as (_ & H2 & _).
    intros d [Hd'|Hd'] ->; [apply (H1 c Hd'); mem|by apply (H2 c)]. }
  assert (Hoth : Forall (node_ok (stolen q Q' c) k) M1 /\ Forall (node_ok (stolen q Q' c) k) M2).
  { assert (Ho : forall M, (forall X, X ∈ M -> X ∈ M1 ++ M2) -> Forall (node_ok (stolen q Q' c) k) M).
    { intros M HM. apply page_others; [exact Ht| |].
      - intros X HX. apply HM in HX. assert (HXN : X ∈ N1 ++ N2) by (rewrite E; mem_in HX; mem).
        split; [unfold N; mem_in HXN; mem|]. apply elem_name in HX, HXN. rewrite fmap_app in HX, HXN.
        cbn. rewrite !lookup_insert_ne; [done|intros E'; by rewrite E' in Hpf|intros E'; by rewrite E' in HqM].
      - intros d Hd'. cbn. apply upd_other. apply HcM.
        apply list_elem_of_In, in_concat in Hd' as (ds & H1 & H2). apply list_elem_of_In in H1, H2.
        apply list_elem_of_fmap in H1 as (X & -> & HX). apply HM in HX. destruct X as [x ds]. mem_in HX.
        destruct HX; [left|right]; by eapply elem_children. }
    split; apply Ho; intros X HX; mem. }
  assert (Hqok : node_ok (stolen q Q' c) k (q, Q')).
  { split_and!; cbn [fst snd]; [cbn; by rewrite lookup_insert_eq|done|lia|done|].
    apply list.Forall_forall. intros d Hd'. cbn. rewrite upd_other by (by intros ->).
    apply (proj1 (list.Forall_forall _ _) Hqp), HQ. auto. }
  assert (Hpok : node_ok (stolen q Q' c) k (p, [c])).
  { split_and!; cbn [fst snd]; [cbn; by rewrite lookup_insert_ne, lookup_insert_eq|done|simpl; lia|done|].
    constructor; [|constructor]. cbn. apply upd_same. }
  split; [eapply touched_above; [exact Ht|intros r Hr; mem]|].
  apply (level_result_here t _ k N N' Ns L' L); auto.
  - destruct HN' as [[-> _]|[-> _]]; apply list.Forall_app; (split; [apply Hoth|]);
      repeat (constructor; [done|]); apply Hoth.
  - rewrite Hnm. destruct HN' as [[-> E']|[-> E']]; rewrite E' in *.
    + rewrite !fmap_app. cbn. rewrite <-!app_assoc in *. apply app_inv_head in E. by injection E as ->.
    + rewrite !fmap_app. cbn. apply app_inv_tail in E. by subst.
  - rewrite Hall, !length_app, Hlq. destruct Q'; [done|]. cbn [length]. lia.
Qed.

Lemma spaced_steal a l1 l2 x :
  Forall (fun y => 1 <= y)%nat l1 -> NEED_MERGE x NodeCount = false -> x = S a -> apart_l l1 a /\ NEED_MERGE (a + 1) NodeCount = false /\
  (Forall (fun y => 1 <= y)%nat l2 -> apart_r a l2).
Proof.
  intros H1 Hx ->. split_and!.
  - unfold apart_l. destruct (list.last l1) as [b|] eqn:E; [|done].
    apply last_Some_elem_of in E. apply (proj1 (list.Forall_forall _ _) H1) in E.
    eapply NEED_MERGE_mono; [|exact Hx]. lia.
  - by rewrite Nat.add_1_r.
  - intros H2. unfold apart_r. destruct l2 as [|b l2]; [done|]. apply list.Forall_cons in H2 as [H2 _].
    eapply NEED_MERGE_mono; [|exact Hx]. lia.
Qed.

(** The last child of the page before. *)
Lemma steal_prev M1 q Q :
  N1 = M1 ++ [(q, Q)] -> C1 = [] -> C2 = [] -> NEED_MERGE (length Q) NodeCount = false ->
  exists t2, steal_child p k t = Ret t2 /\
    above t t2 (N.*1 ++ ups Ns) L /\ level_result t2 k (N.*1 ++ ups Ns) L'.
Proof.
  intros E1 E2 E3 Hm.
  assert (E : N1 ++ N2 = M1 ++ (q, Q) :: N2) by (by rewrite E1, <-app_assoc).
  destruct (neighbour_names M1 q Q N2 E) as (Hpq & HqM & HqN & Hq).
  destruct Q as [|c Q _] using rev_ind; [destruct Hq as (_ & [] & _); done|].
  rewrite length_app, Nat.add_1_r in Hm. pose proof (NEED_MERGE_many _ _ (Nat.lt_le_incl _ _ Hcap) Hm) as Hlen.
  exists (stolen q Q c). destruct (seg_mid _ _ _ _ _ _ (eq_ind _ (fun l => seg t None l None) HS _ page_names)) as [Hpr _].
  rewrite E1, fmap_app in Hpr. change ([(q, Q ++ [c])].*1) with [q] in Hpr. rewrite last_of_app in Hpr.
  split.
  { unfold steal_child, get_nodes. destruct Hq as [Eq _]. cbn [fst snd] in Eq. rewrite Hpr, Eq. cbn [obind].
    rewrite length_app, Nat.add_sub, vector_at_app, vector_shrink_app by done. cbn [obind].
    unfold stolen. done. }
  assert (HcQ : c ∉ Q).
  { pose proof L_NoDup as HLd. unfold L in HLd. rewrite E1, snd_app, !fmap_cons in HLd. cbn [fst snd concat] in HLd.
    rewrite app_nil_r, <-!app_assoc in HLd. apply list.NoDup_app in HLd as (_ & _ & HLd).
    apply list.NoDup_app in HLd as (_ & HLd & _). intros H. apply (HLd c H). mem. }
  apply (stolen_level M1 q (Q ++ [c]) c N2 (M1 ++ (q, Q) :: (p, [c]) :: N2)); auto.
  - intros d. rewrite elem_of_app, list_elem_of_singleton. tauto.
  - destruct Q; [simpl in Hlen; lia|done].
  - by rewrite length_app, Nat.add_1_r.
  - unfold L'. rewrite E1, E2, E3, !snd_app, !fmap_cons. cbn. by rewrite app_nil_r, <-!app_assoc.
  - rewrite page_sizes, E1, E2, E3, sizes_app, <-app_assoc in Hsp. cbn in Hsp. rewrite sizes_app. cbn.
    rewrite length_app in Hsp.
    assert (HM : Forall (node_ok t k) M1) by (rewrite E1 in HN1; by apply list.Forall_app in HN1 as [? _]).
    destruct (spaced_steal (length Q) (sizes M1) [] _ (sizes_positive _ _ _ HM) Hm eq_refl) as (H1 & H2 & _).
    eapply spaced_two; [exact Hsp|done..|].
    change (sizes M1 ++ length Q + length [c] :: 1%nat :: sizes N2)%nat with (sizes M1 ++ [length Q + 1] ++ 1 :: sizes N2)%nat in Hsp.
    rewrite app_assoc in Hsp. by apply spaced_app in Hsp as (_ & _ & ? & _).
Qed.

(** The first child of the page after. *)
Lemma steal_next M2 q Q :
  N1 = [] -> N2 = (q, Q) :: M2 -> C1 = [] -> C2 = [] -> NEED_MERGE (length Q) NodeCount = false ->
  exists t2, steal_child p k t = Ret t2 /\
    above t t2 (N.*1 ++ ups Ns) L /\ level_result t2 k (N.*1 ++ ups Ns) L'.
Proof.
  intros E0 E1 E2 E3 Hm.
  assert (E : N1 ++ N2 = [] ++ (q, Q) :: M2) by (by rewrite E0, E1).
  destruct (neighbour_names [] q Q M2 E) as (Hpq & HqM & HqN & Hq).
  destruct Q as [|c Q]; [destruct Hq as (_ & [] & _); done|].
  cbn [length] in Hm. pose proof (NEED_MERGE_many _ _ (Nat.lt_le_incl _ _ Hcap) Hm) as Hlen.
  exists (stolen q Q c). destruct (seg_mid _ _ _ _ _ _ (eq_ind _ (fun l => seg t None l None) HS _ page_names)) as [Hpr Hnx].
  rewrite E0 in Hpr. rewrite E1 in Hnx. cbn in Hpr, Hnx.
  split.
  { unfold steal_child, get_nodes. destruct Hq as [Eq _]. cbn [fst snd] in Eq. rewrite Hpr, Hnx, Eq. cbn [obind].
    rewrite (vector_at_app [] Q c), (vector_remove_app [] Q c) by done. cbn [obind]. done. }
  assert (HcQ : c ∉ Q).
  { pose proof L_NoDup as HLd. unfold L in HLd. rewrite E0, E1, E2, E3 in HLd. cbn in HLd.
    apply list.NoDup_cons in HLd as [_ HLd]. apply list.NoDup_cons in HLd as [HLd _].
    intros H. apply HLd. mem. }
  apply (stolen_level [] q (c :: Q) c M2 ((p, [c]) :: (q, Q) :: M2)); auto.
  - intros d. by rewrite elem_of_cons.
  - destruct Q; [simpl in Hlen; lia|done].
  - unfold L'. rewrite E0, E1, E2, E3. done.
  - rewrite page_sizes, E0, E1, E2, E3 in Hsp. cbn [app sizes fmap list_fmap length snd] in Hsp.
    destruct Hsp as [_ Hsp]. rewrite E1 in HN2. apply list.Forall_cons in HN2 as [_ HM].
    destruct (spaced_steal (length Q) [] (sizes M2) _ (list.Forall_nil_2 _) Hm eq_refl) as (_ & H2 & H3).
    specialize (H3 (sizes_positive _ _ _ HM)). cbn. split; [by rewrite Nat.add_comm in H2|].
    destruct Hsp as [_ Hsp]. split; [|exact Hsp]. exact H3.
Qed.

(** The root is left with one child, which becomes the root. *)
Lemma collapse c :
  N1 = [] -> N2 = [] -> C1 ++ C2 = [c] -> Ns = [] -> level t = S k ->
  let t2 := with_nodes (delete p) (setNodeParent c k None (set_root k (Some c) cut)) in
  above t t2 (N.*1 ++ ups Ns) L /\ level_result t2 k (N.*1 ++ ups Ns) L'.
Proof.
  intros E1 E2 E3 E4 E5 t2. pose proof page_names as Hnm.
  assert (HL' : L' = [c]) by (unfold L'; rewrite E1, E2; cbn; by rewrite app_nil_r).
  assert (HcL : c ∈ L) by (apply page_L'; rewrite HL'; left).
  split.
  - split; try done.
    + intros q Hq. cbn. rewrite lookup_delete_ne by (intros <-; apply Hq; rewrite Hnm; mem).
      apply lookup_insert_ne. intros <-. apply Hq. rewrite Hnm. mem.
    + intros q _ Hq. cbn. apply upd_other. by intros ->.
  - exists []. split; [|split; [by intros u Hu; apply elem_of_nil in Hu|constructor]].
    rewrite HL'. exists c. split_and!; try done. cbn. apply upd_same.
Qed.

(** The neighbours of the page on its level. *)
Lemma page_prev : prev t p = match list.last N1 with Some X => Some X.1 | None => None end.
Proof.
  pose proof page_names as Hnm. rewrite Hnm in HS. destruct (seg_mid _ _ _ _ _ _ HS) as [-> _].
  unfold last_of. rewrite fmap_last. by destruct (list.last N1).
Qed.

Lemma page_next : next t p = match N2 with X :: _ => Some X.1 | [] => None end.
Proof.
  pose proof page_names as Hnm. rewrite Hnm in HS. destruct (seg_mid _ _ _ _ _ _ HS) as [_ ->]. by destruct N2.
Qed.

Lemma mergeable_prev t0 n :
  (forall q, q <> p -> nodes t0 !! q = nodes t !! q) ->
  mergeable_nodes t0 (prev t p) n
  = Ret (match list.last N1 with Some X => if NEED_MERGE (length X.2 + n) NodeCount then Some X.1 else None | None => None end).
Proof.
  intros Hn. rewrite page_prev. destruct (list.last N1) as [[q Q]|] eqn:E; [|done]. cbn [fst snd].
  apply last_Some in E as [M1 E].
  destruct (neighbour_names M1 q Q N2) as (Hpq & _ & _ & Hq & _); [by rewrite E, <-app_assoc|].
  unfold mergeable_nodes, get_nodes. cbn [fst snd] in Hq. rewrite Hn, Hq by done. done.
Qed.

Lemma mergeable_next t0 n :
  (forall q, q <> p -> nodes t0 !! q = nodes t !! q) ->
  mergeable_nodes t0 (next t p) n
  = Ret (match N2 with X :: _ => if NEED_MERGE (length X.2 + n) NodeCount then Some X.1 else None | [] => None end).
Proof.
  intros Hn. rewrite page_next. pose proof (fun q Q M2 => neighbour_names N1 q Q M2) as Hnb.
  destruct N2 as [|[q Q] M2]; [done|]. cbn [fst snd].
  destruct (Hnb q Q M2 eq_refl) as (Hpq & _ & _ & Hq & _).
  unfold mergeable_nodes, get_nodes. cbn [fst snd] in Hq. rewrite Hn, Hq by done. done.
Qed.

Lemma find_self :
  generate t k node = Ret (kf t k node) /\
  find (generate t k) (C1 ++ node :: C2) (kf t k node) = Ret (true, length C1).
Proof.
  destruct Hk as [Hg Ha]. unfold L in Hg, Ha. pose proof (ascending_mid _ _ _ _ Ha) as [H1 H2].
  apply list.Forall_app in Hg as [Hg1 Hg2]. apply list.Forall_app in Hg1 as [_ Hg1].
  apply list.Forall_cons in Hg2 as [Hg Hg2]. apply list.Forall_app in Hg2 as [Hg2 _].
  apply list.Forall_app in H1 as [_ H1]. apply list.Forall_app in H2 as [H2 _]. split; [done|].
  rewrite (find_split _ (kf t k)); [by rewrite Z.eqb_refl| |done|].
  - apply list.Forall_app. split; [done|by constructor].
  - constructor; [lia|]. eapply list.Forall_impl; [exact H2|]. simpl. lia.
Qed.

Definition page_done (o : outcome tree) : Prop :=
  exists t2, o = Ret t2 /\ above t t2 (N.*1 ++ ups Ns) L /\ level_result t2 k (N.*1 ++ ups Ns) L'.

Lemma after_cases (M : list (ptr * list ptr)) : M = [] \/ exists q Q M2, M = (q, Q) :: M2.
Proof. destruct M as [|[q Q] M2]; eauto. Qed.

Lemma before_cases (M : list (ptr * list ptr)) : M = [] \/ exists M1 q Q, M = M1 ++ [(q, Q)].
Proof. destruct M as [|[q Q] M1 _] using rev_ind; [auto|right; eauto]. Qed.

(** The page had only this child. *)
Lemma lone_child :
  C1 ++ C2 = [] -> (2 <= length L)%nat -> page_done (remove_child (removePage fuel (S k)) k node p t).
Proof.
  intros E Hlen. apply app_eq_nil in E as [E1 E2].
  unfold remove_child, get_nodes. destruct Hp as (Hpn & _). cbn [fst snd] in Hpn. rewrite Hpn. cbn [obind].
  rewrite E1, E2. cbn [app length Nat.eqb].
  rewrite mergeable_prev, mergeable_next by done. cbn [obind].
  assert (HN : (2 <= length N)%nat).
  { destruct (after_cases N1) as [H1|(q & Q & M & H1)]; [destruct (after_cases N2) as [H2|(q & Q & M & H2)]|].
    - exfalso. unfold L in Hlen. rewrite E1, E2, H1, H2 in Hlen. cbn in Hlen. lia.
    - unfold N. rewrite length_app, H2. cbn. lia.
    - unfold N. rewrite length_app, H1. cbn. lia. }
  destruct (before_cases N1) as [HN1e|(M1 & q & Q & HN1e)]; destruct (after_cases N2) as [HN2e|(q' & Q' & M2 & HN2e)];
    rewrite HN1e, HN2e, ?last_snoc; cbn [list.last obind fst snd]; rewrite ?Nat.add_0_r.
  - exfalso. unfold N in HN. rewrite HN1e, HN2e in HN. cbn in HN. lia.
  - destruct (NEED_MERGE (length Q') NodeCount) eqn:Em; [by apply only_child|by eapply steal_next].
  - destruct (NEED_MERGE (length Q) NodeCount) eqn:Em; [by apply only_child|by eapply steal_prev].
  - destruct (NEED_MERGE (length Q) NodeCount) eqn:Em; cbn [obind]; [by apply only_child|].
    destruct (NEED_MERGE (length Q') NodeCount) eqn:Em'; [by apply only_child|by eapply steal_prev].
Qed.

(** The page is merged with a neighbour, or stays as it is. *)
Lemma merge_or_plain :
  C1 ++ C2 <> [] -> (2 <= length L')%nat ->
  page_done
    match match list.last N1 with
          | Some X => if NEED_MERGE (length X.2 + length (C1 ++ C2)) NodeCount then Some X.1 else None
          | None => None
          end with
    | Some temp => let* t' := join_nodes temp p cut in removePage fuel (S k) p t'
    | None =>
        match match N2 with
              | X :: _ => if NEED_MERGE (length X.2 + length (C1 ++ C2)) NodeCount then Some X.1 else None
              | [] => None
              end with
        | Some temp => let* t' := join_nodes p temp cut in removePage fuel (S k) temp t'
        | None => Ret cut
        end
    end.
Proof.
  intros Hne Hlen.
  assert (Hplain : apart_l (sizes N1) (length (C1 ++ C2)) -> apart_r (length (C1 ++ C2)) (sizes N2) ->
    page_done (Ret cut)).
  { intros Hl Hr. exists cut. split; [done|]. by apply plain. }
  assert (Hnext : apart_l (sizes N1) (length (C1 ++ C2)) ->
    page_done
      match match N2 with
            | X :: _ => if NEED_MERGE (length X.2 + length (C1 ++ C2)) NodeCount then Some X.1 else None
            | [] => None
            end with
      | Some temp => let* t' := join_nodes p temp cut in removePage fuel (S k) temp t'
      | None => Ret cut
      end).
  { intros Hl. destruct (after_cases N2) as [E|(q & Q & M2 & E)].
    - rewrite E. apply Hplain; [done|]. by rewrite E.
    - rewrite E. cbn [fst snd]. destruct (NEED_MERGE (length Q + length (C1 ++ C2)) NodeCount) eqn:Em.
      + by eapply join_next.
      + apply Hplain; [done|]. rewrite E. cbn. by rewrite Nat.add_comm. }
  destruct (before_cases N1) as [E|(M1 & q & Q & E)].
  - rewrite E. apply Hnext. by rewrite E.
  - rewrite E, last_snoc. cbn [fst snd]. destruct (NEED_MERGE (length Q + length (C1 ++ C2)) NodeCount) eqn:Em.
    + by eapply join_prev.
    + apply Hnext. rewrite E, sizes_app. by apply apart_l_end.
Qed.

(** The page has other children. *)
Lemma other_children :
  C1 ++ C2 <> [] -> page_done (remove_child (removePage fuel (S k)) k node p t).
Proof.
  intros Hne. unfold remove_child, get_nodes. destruct Hp as (Hpn & _ & _ & Hpl & _). cbn [fst snd] in Hpn, Hpl.
  rewrite Hpn. cbn [obind].
  assert (Hlen : (1 <= length (C1 ++ C2))%nat) by (destruct (C1 ++ C2); [done|cbn; lia]).
  rewrite length_app. cbn [length]. rewrite length_app in Hlen.
  destruct (Nat.eqb_spec (length C1 + S (length C2)) 1); [lia|].
  unfold find_node. rewrite Hpl. destruct find_self as [Eg Ef]. rewrite Eg. cbn [obind]. rewrite Ef. cbn [obind].
  rewrite vector_remove_app by done. cbn [obind]. fold cut.
  assert (Hup : NoDup (N.*1 ++ ups Ns)) by apply page_upper.
  assert (HpN : p ∈ N.*1) by (rewrite page_names; mem).
  pose proof (tower_root t k N Ns p HT Hup HpN) as Hroot.
  assert (HL' : length L' = (length (concat N1.*2) + length (C1 ++ C2) + length (concat N2.*2))%nat).
  { unfold L'. rewrite !length_app. lia. }
  pose proof (children_count _ _ _ HN1) as HcN1. pose proof (children_count _ _ _ HN2) as HcN2.
  assert (HlN : length N = S (length N1 + length N2)) by (unfold N; rewrite length_app; cbn; lia).
  assert (Hcount : (match root cut with Some r => (r =? p)%nat | None => false end) = (length N =? 1)%nat).
  { change (root cut) with (root t). destruct (Nat.eqb_spec (length N) 1) as [H1|H1].
    - destruct Hroot as (-> & _). by rewrite Nat.eqb_refl.
    - destruct (root t) as [r|]; [|done]. destruct (Nat.eqb_spec r p); [congruence|done]. }
  rewrite Hcount.
  destruct ((length N =? 1)%nat && (length (C1 ++ C2) =? 1)%nat) eqn:Ec.
  { apply andb_prop in Ec as [H1 H2]. rewrite H1 in Hroot. apply Nat.eqb_eq in H1, H2.
    destruct Hroot as (Hr & Hlv & HNs). destruct (C1 ++ C2) as [|c [|]] eqn:EC; try done.
    cbn [vector_at lookup list_lookup obind]. eexists. split; [reflexivity|].
    change (level cut) with (level t). rewrite Hlv. cbn [Nat.pred].
    apply (collapse c); auto; apply nil_length_inv; lia. }
  assert (Hlen2 : (2 <= length L')%nat).
  { rewrite HL', length_app. apply andb_false_iff in Ec as [H|H]; apply Nat.eqb_neq in H; rewrite ?length_app in H; lia. }
  change (prev cut p) with (prev t p). change (next cut p) with (next t p).
  assert (Hcut : forall q, q <> p -> nodes cut !! q = nodes t !! q).
  { intros q Hq. cbn. by apply lookup_insert_ne. }
  rewrite mergeable_prev, mergeable_next by done. cbn [obind].
  by apply merge_or_plain.
Qed.

Lemma page_ok : (2 <= length L)%nat -> page_done (remove_child (removePage fuel (S k)) k node p t).
Proof.
  intros Hlen. destruct (decide (C1 ++ C2 = [])); [by apply lone_child|by apply other_children].
Qed.

End page.

(** With the page out of the list of its level, the levels above are as they
    were. *)
Lemma unlinked t k A node B Ns :
  tower t k (A ++ node :: B) Ns -> seg t None (A ++ node :: B) None -> NoDup ((A ++ node :: B) ++ ups Ns) ->
  tower (unlink node t) k (A ++ node :: B) Ns.
Proof.
  intros HT HS Hd. destruct (unlink_fields node t) as (U1 & U2 & U3 & U4 & U5 & U6 & U7).
  eapply tower_frame; [| |done|done|exact HT]; apply list.Forall_forall; intros q Hq.
  - rewrite U2, U3. split_and!; try done; eapply unlink_other; try exact HS;
      intros H; apply list.NoDup_app in Hd as (_ & Hd & _); by apply (Hd q H).
  - by rewrite U4.
Qed.

Lemma unlinked_keyed t k L p : keyed t k L -> keyed (unlink p t) k L.
Proof.
  destruct (unlink_fields p t) as (U1 & U2 & _). apply keyed_ext, list.Forall_forall.
  intros c _. by apply generate_ext.
Qed.

Lemma unlinked_stable t k U L p : stable t k U L -> stable (unlink p t) k U L.
Proof.
  destruct (unlink_fields p t) as (U1 & U2 & _ & _ & _ & _ & U7). intros H t' Hi Hn.
  rewrite U1, U2, U7 in *. specialize (H t' Hi Hn). eapply list.Forall_impl; [exact H|].
  intros c ->. symmetry. by apply generate_ext.
Qed.

(** [removePage] takes one page of a level out, and repairs the levels
    above. *)
Lemma removePage_ok Ns : (2 <= NodeCount)%nat -> removes Ns.
Proof.
  intros Hcap. induction Ns as [|N Ns IH]; intros t k A node B fuel HT HS Hk Hst Hd Hlt Hlen Hf.
  { destruct HT as (r & E & _). rewrite E in Hlen. cbn in Hlen. lia. }
  destruct fuel as [|fuel]; [cbn in Hf; lia|].
  pose proof (unlinked _ _ _ _ _ _ HT HS Hd) as HTu. apply (unlinked_keyed _ _ _ node) in Hk.
  apply (unlinked_stable _ _ _ _ node) in Hst.
  destruct (unlink_fields node t) as (_ & _ & _ & _ & _ & _ & U7).
  pose proof (seg_unlink t A node B HS (proj1 (proj1 (list.NoDup_app _ _) Hd))) as HSu.
  destruct HTu as (EL & HN & HSN & _ & Hsp & HTN).
  destruct (concat_split _ _ _ _ EL) as (N1 & p & C1 & C2 & N2 & -> & -> & ->).
  apply list.Forall_app in HN as [HN1 HN]. apply list.Forall_cons in HN as [Hp HN2].
  rewrite ups_cons in *. cbn [removePage].
  assert (Epar : parent (unlink node t) node = Some p).
  { destruct Hp as (_ & _ & _ & _ & Hp). cbn [fst snd] in Hp. apply list.Forall_app in Hp as [_ Hp].
    by apply list.Forall_cons in Hp as [? _]. }
  rewrite Epar.
  destruct (page_ok (unlink node t) k N1 N2 p C1 C2 node Ns fuel) as (t2 & E & Ha & Hr); auto.
  { intros q Hq. rewrite U7. apply Hlt, elem_of_app. by right. }
  { cbn in Hf. lia. }
  rewrite E. cbn [obind]. eexists. split; [reflexivity|]. split_and!.
  - by apply removed_above.
  - apply level_result_free; [by rewrite <-!app_assoc in *|].
    apply list.NoDup_app in Hd as (_ & Hd & _). apply Hd. mem.
  - eapply seg_frame; [|exact HSu]. apply list.Forall_forall. intros q Hq.
    assert (Hq' : q ∉ (N1 ++ (p, C1 ++ node :: C2) :: N2).*1 ++ ups Ns).
    { apply list.NoDup_app in Hd as (_ & Hd & _). apply Hd. mem_in Hq. mem. }
    destruct Ha as [_ _ _ Ha _ _]. destruct (Ha q Hq') as [<- <-]. by destruct k.
Qed.

End tree.
End TreeRemove.
