(* ===== verification/TreeErase.v ===== *)
(** * [fastRemove] of the B+ tree ([common/classes/tree.h])

    [fastRemove] takes the item an accessor stands on out of the sorted
    contents, on every branch, and leaves the accessor on the item after it. *)

From S2P Require Import Prelude.
From S2P Require Import BePlusTree.
From S2P Require Import TreeLevels.
From S2P Require Import TreeSpec.
From S2P Require Import TreeAdd.
From S2P Require Import TreeRemove.
From stdpp Require Import gmap sorting.
#[local] Open Scope Z_scope.

Module TreeErase.
Import BePlusTree TreeSpec TreeLevels TreeAdd TreeRemove.

Section tree.
Context {P : TreeParams}.
Context (HL : (1 <= LeafCount)%nat) (HN : (2 <= NodeCount)%nat).

(** A leaf goes; the items of the others may have changed, but not the first
    ones. *)
Lemma remove_leaf t f D1 p d D2 Ns l D' l' :
  wf_at t (D1 ++ (p, d) :: D2) Ns l -> D1 <> [] \/ D2 <> [] -> D'.*1 = D1.*1 ++ D2.*1 ->
  Forall (fun q => generate (with_items f t) 0 q = generate t 0 q) (D1.*1 ++ p :: D2.*1) ->
  Forall (leaf_ok (with_items f t)) D' -> Forall (fun X => X.2 <> []) D' ->
  ascending key l' -> concat D'.*2 = l' ->
  exists t' Ns', removePage (S (level t)) 0 p (with_items f t) = Ret t' /\ wf_at t' D' Ns' l'.
Proof.
  intros H Ho ED Hg Hok Hne Ha El. set (t1 := with_items f t) in *.
  pose proof (wf_tower _ _ _ _ H) as HT. pose proof (wf_seg _ _ _ _ H) as HS.
  pose proof (wf_nodup _ _ _ _ H) as Hd. pose proof (wf_fresh _ _ _ _ H) as Hlt.
  assert (Hlen : (2 <= length (D1 ++ (p, d) :: D2))%nat).
  { rewrite length_app. cbn. destruct D1, D2; cbn; try lia. by destruct Ho. }
  pose proof (keyed_leaves t _ (wf_items _ _ _ _ H) (wf_nonempty _ _ _ _ H Hlen)) as Hk.
  rewrite (wf_contents _ _ _ _ H) in Hk. specialize (Hk (wf_sorted _ _ _ _ H)).
  assert (Enames : (D1 ++ (p, d) :: D2).*1 = D1.*1 ++ p :: D2.*1) by (by rewrite fmap_app).
  rewrite Enames in *.
  destruct (removePage_ok Ns HN t1 0%nat D1.*1 p D2.*1 (S (level t))) as (t' & E & Hr & (Ns' & HT' & HU & HdU) & HS').
  - eapply tower_frame; [| | | |exact HT]; auto; by apply list.Forall_forall.
  - eapply seg_frame; [|exact HS]. by apply list.Forall_forall.
  - by eapply keyed_ext.
  - intros t2 Hi _. apply list.Forall_forall. intros c _. cbn. unfold get_items. by rewrite Hi.
  - done.
  - done.
  - rewrite <-Enames. by rewrite length_fmap.
  - rewrite (tower_level _ _ _ _ HT). lia.
  - exists t', Ns'. split; [done|]. pose proof (rm_items _ _ _ _ _ _ Hr) as Hi. cbn in Hi.
    apply list.NoDup_app in Hd as (Hd1 & Hd2 & Hd3). pose proof (NoDup_mid _ _ _ Hd1) as [Hp Hd1'].
    split; rewrite ?ED; auto.
    + rewrite list.Forall_forall in Hok |- *. intros X HX. destruct (Hok X HX) as [H1 H2]. split; [|done].
      rewrite Hi. rewrite lookup_delete_ne; [done|]. intros E'. apply Hp. rewrite E', <-ED.
      apply list_elem_of_fmap. by exists X.
    + apply list.NoDup_app. split_and!; auto. intros q Hq Hin. apply (Hd2 q); [mem_in Hq; mem|auto].
    + intros q Hq. rewrite (rm_fresh _ _ _ _ _ _ Hr). apply Hlt. mem_in Hq.
      destruct Hq as [Hq|Hq]; [mem|]. apply HU in Hq. mem.
Qed.

(** What [fastRemove] promises of its result. *)
Definition erased (o : outcome (bool * Accessor * tree)) (l : list Value) (i : nat) : Prop :=
  exists a t, o = Ret ((i <? length l)%nat, a, t) /\ represents t l /\
    ((i < length l)%nat -> positioned t l a i).

Lemma erased_over t D1 p d D2 Ns l pos :
  wf_at t (D1 ++ (p, d) :: D2) Ns l -> (pos <= length d)%nat ->
  erased (step_over p pos t) l (length (concat D1.*2) + pos).
Proof.
  intros H Hpos. pose proof (step_forward _ _ _ _ _ _ _ _ H Hpos) as [Hb Ha].
  destruct (wf_neighbours _ _ _ _ _ _ _ H) as (Hp & _ & _).
  unfold step_over, count_of, get_items. rewrite Hp. cbn [obind].
  destruct (Nat.eqb_spec pos (length d)) as [E|E].
  - rewrite (proj2 (Nat.leb_le _ _)) by lia. cbn [curr] in Hb. unfold erased. rewrite <-Hb.
    do 2 eexists. split; [reflexivity|]. split; [by eapply represents_wf|exact Ha].
  - rewrite (proj2 (Nat.leb_gt _ _)) by lia. cbn [curr is_page] in Hb. unfold erased. rewrite <-Hb.
    do 2 eexists. split; [reflexivity|]. split; [by eapply represents_wf|exact Ha].
Qed.

Lemma erased_at t D1 p d D2 Ns l a pos :
  wf_at t (D1 ++ (p, d) :: D2) Ns l -> curr a = Some p -> curPos a = pos -> (pos < length d)%nat ->
  erased (Ret (true, a, t)) l (length (concat D1.*2) + pos).
Proof.
  intros H Ha <- Hpos. exists a, t.
  assert ((length (concat D1.*2) + curPos a <? length l)%nat = true) as ->.
  { apply Nat.ltb_lt. rewrite <-(wf_contents _ _ _ _ H), snd_mid, !length_app. lia. }
  split_and!; [done|by eapply represents_wf|]. intros _. eexists _, Ns. split; [exact H|].
  destruct a as [c n]. cbn in *. subst c. by apply cursor_here.
Qed.

Lemma ascending_drop {A} (f : A -> Z) X v Y : ascending f (X ++ v :: Y) -> ascending f (X ++ Y).
Proof.
  rewrite !ascending_app, ascending_cons. intros (H1 & [_ H2] & H3). split_and!; auto.
  eapply list.Forall_impl; [exact H3|]. intros x Hx. by apply list.Forall_cons in Hx as [_ ?].
Qed.

(** The contents without the item. *)
Lemma less_contents t D1 p X v Y D2 Ns l :
  wf_at t (D1 ++ (p, X ++ v :: Y) :: D2) Ns l ->
  let l' := delete (length (concat D1.*2) + length X)%nat l in
  l' = concat D1.*2 ++ (X ++ Y) ++ concat D2.*2 /\ ascending key l'.
Proof.
  intros H l'. pose proof (wf_sorted _ _ _ _ H) as Ha. pose proof (wf_contents _ _ _ _ H) as El.
  rewrite snd_mid in El. unfold l'. rewrite <-length_app.
  assert (E : l = (concat D1.*2 ++ X) ++ v :: (Y ++ concat D2.*2)) by (by rewrite <-El, <-!app_assoc).
  rewrite E, delete_middle. rewrite E in Ha. apply ascending_drop in Ha. split; [by rewrite <-!app_assoc|done].
Qed.

(** The other leaves, after a change of the items of [p]. *)
Lemma other_leaves t f D1 p d D2 Ns l :
  wf_at t (D1 ++ (p, d) :: D2) Ns l -> (forall q, q <> p -> f (items t) !! q = items t !! q) ->
  Forall (leaf_ok (with_items f t)) D1 /\ Forall (leaf_ok (with_items f t)) D2.
Proof.
  intros H Hf. pose proof (nodup_leaf _ _ _ _ _ _ _ H) as Hp. pose proof (wf_leaves _ _ _ _ H) as HD.
  apply list.Forall_app in HD as [HD1 HD]. apply list.Forall_cons in HD as [_ HD2].
  split; (apply leaf_ok_other; [|done]); intros q Hq; apply Hf; intros ->; apply Hp; mem.
Qed.

Lemma nonempty_leaves t D1 p d D2 Ns l :
  wf_at t (D1 ++ (p, d) :: D2) Ns l -> D1 <> [] \/ D2 <> [] ->
  Forall (fun X => X.2 <> []) D1 /\ Forall (fun X => X.2 <> []) D2.
Proof.
  intros H Ho. assert (Hn := wf_nonempty _ _ _ _ H). rewrite length_app in Hn. cbn [length] in Hn.
  assert (Hl : (2 <= length D1 + S (length D2))%nat) by (destruct D1, D2; cbn; try lia; by destruct Ho).
  specialize (Hn Hl). apply list.Forall_app in Hn as [? Hn]. by apply list.Forall_cons in Hn as [_ ?].
Qed.

Lemma cut_item t D1 p X v Y D2 Ns l :
  wf_at t (D1 ++ (p, X ++ v :: Y) :: D2) Ns l -> X ++ Y <> [] \/ D1 = [] /\ D2 = [] ->
  wf_at (set_items p (X ++ Y) t) (D1 ++ (p, X ++ Y) :: D2) Ns
    (delete (length (concat D1.*2) + length X)%nat l).
Proof.
  intros H Hne. destruct (less_contents _ _ _ _ _ _ _ _ _ H) as [El Ha].
  destruct (other_leaves t <[p := X ++ Y]> _ _ _ _ _ _ H) as [HD1 HD2].
  { intros q Hq. by apply lookup_insert_ne. }
  pose proof (wf_leaves _ _ _ _ H) as HD. apply list.Forall_app in HD as [_ HD].
  apply list.Forall_cons in HD as [[_ Hl] _]. cbn [snd] in Hl.
  eapply wf_items_changed; [exact H|by rewrite !fmap_app| | |exact Ha|].
  - apply list.Forall_app. split; [done|]. constructor; [|done].
    split; [cbn; by rewrite lookup_insert_eq|]. cbn [snd]. rewrite length_app in *. cbn [length] in Hl. lia.
  - intros Hlen. destruct Hne as [Hne|[-> ->]]; [|cbn in Hlen; lia].
    destruct (nonempty_leaves _ _ _ _ _ _ _ H) as [H1 H2].
    { rewrite length_app in Hlen. cbn in Hlen. destruct D1, D2; cbn in Hlen; try lia; [by right|by left..]. }
    apply list.Forall_app. split; [done|]. by constructor.
  - by rewrite snd_mid, El.
Qed.

Lemma mergeable_items_prev t D1 p d D2 Ns l n :
  wf_at t (D1 ++ (p, d) :: D2) Ns l ->
  mergeable_items t (prev t p) n
  = Ret (match list.last D1 with Some X => if NEED_MERGE (length X.2 + n) LeafCount then Some X.1 else None | None => None end).
Proof.
  intros H. destruct (wf_neighbours _ _ _ _ _ _ _ H) as (_ & -> & _). unfold last_of. rewrite fmap_last.
  destruct (list.last D1) as [[q Q]|] eqn:E; [|done]. cbn [fmap option_fmap option_map fst snd].
  apply last_Some in E as [M ->]. rewrite <-app_assoc in H. cbn [app] in H.
  destruct (wf_neighbours _ _ _ _ _ _ _ H) as (Hq & _). unfold mergeable_items, get_items. by rewrite Hq.
Qed.

Lemma mergeable_items_next t D1 p d D2 Ns l n :
  wf_at t (D1 ++ (p, d) :: D2) Ns l ->
  mergeable_items t (next t p) n
  = Ret (match D2 with X :: _ => if NEED_MERGE (length X.2 + n) LeafCount then Some X.1 else None | [] => None end).
Proof.
  intros H. destruct (wf_neighbours _ _ _ _ _ _ _ H) as (_ & _ & ->).
  destruct D2 as [|[q Q] D2]; [done|]. cbn [fmap list_fmap first_of fst snd].
  replace (D1 ++ (p, d) :: (q, Q) :: D2) with ((D1 ++ [(p, d)]) ++ (q, Q) :: D2) in H by by rewrite <-app_assoc.
  destruct (wf_neighbours _ _ _ _ _ _ _ H) as (Hq & _). unfold mergeable_items, get_items. by rewrite Hq.
Qed.

(** ** A leaf with one item *)

Lemma single_contents t D1 p v D2 Ns l :
  wf_at t (D1 ++ (p, [v]) :: D2) Ns l ->
  let l' := delete (length (concat D1.*2)) l in
  l' = concat D1.*2 ++ concat D2.*2 /\ ascending key l'.
Proof.
  intros H. pose proof (less_contents t D1 p [] v [] D2 Ns l H) as H1. cbn in H1. by rewrite Nat.add_0_r in H1.
Qed.

Lemma single_gone t D1 p v D2 Ns l :
  wf_at t (D1 ++ (p, [v]) :: D2) Ns l -> D1 <> [] \/ D2 <> [] ->
  exists t' Ns', removePage (S (level t)) 0 p t = Ret t' /\
    wf_at t' (D1 ++ D2) Ns' (delete (length (concat D1.*2)) l).
Proof.
  intros H Ho. destruct (single_contents _ _ _ _ _ _ _ H) as [El Ha].
  destruct (nonempty_leaves _ _ _ _ _ _ _ H Ho) as [Hn1 Hn2].
  destruct (other_leaves t id _ _ _ _ _ _ H) as [HD1 HD2]; [done|].
  assert (Eid : with_items id t = t) by (by destruct t). rewrite Eid in *.
  pose proof (remove_leaf t id D1 p [v] D2 Ns l (D1 ++ D2)) as HR. rewrite Eid in HR.
  eapply HR; [exact H|done|by rewrite fmap_app| | | |exact Ha|].
  - by apply list.Forall_forall.
  - by apply list.Forall_app.
  - by apply list.Forall_app.
  - by rewrite El, snd_app.
Qed.

(** The first item after what was there. *)
Lemma erased_next t D1 D2 Ns l i temp :
  wf_at t (D1 ++ D2) Ns l -> D1 ++ D2 <> [] -> (D2 <> [] -> Forall (fun X => X.2 <> []) D2) ->
  temp = first_of D2.*1 None -> i = length (concat D1.*2) ->
  erased (Ret (is_page temp, mk_accessor temp 0, t)) l i.
Proof.
  intros H Ho Hn -> ->. destruct D2 as [|[q e] D2].
  - rewrite app_nil_r in *. cbn [fmap list_fmap first_of is_page]. eexists _, t.
    pose proof (wf_contents _ _ _ _ H) as El. rewrite El, Nat.ltb_irrefl.
    split_and!; [done|by eapply represents_wf|lia].
  - specialize (Hn ltac:(done)). apply list.Forall_cons in Hn as [He _]. cbn [snd] in He.
    cbn [fmap list_fmap first_of is_page fst]. rewrite <-(Nat.add_0_r (length _)).
    eapply erased_at; [exact H|done|done|]. destruct e; [done|cbn; lia].
Qed.

(** An item comes from the leaf before, or after. *)
Lemma take_prev t M q Q w p v D2 Ns l :
  wf_at t ((M ++ [(q, Q ++ [w])]) ++ (p, [v]) :: D2) Ns l -> Q <> [] ->
  let t' := set_items q Q (set_items p [w] t) in
  wf_at t' ((M ++ [(q, Q)]) ++ (p, [w]) :: D2) Ns (delete (length (concat (M ++ [(q, Q ++ [w])]).*2)) l).
Proof.
  intros H HQ t'. destruct (single_contents _ _ _ _ _ _ _ H) as [El Ha].
  pose proof (nodup_leaf _ _ _ _ _ _ _ H) as Hpq. rewrite fmap_app in Hpq. cbn [fmap list_fmap fst] in Hpq.
  pose proof (wf_leaves _ _ _ _ H) as HD. apply list.Forall_app in HD as [HD _].
  apply list.Forall_app in HD as [_ HD]. apply list.Forall_cons in HD as [[_ Hl] _]. cbn [snd] in Hl.
  rewrite length_app in Hl. cbn [length] in Hl. rewrite <-app_assoc in *. cbn [app] in *.
  assert (Hne : p <> q) by (intros ->; apply Hpq; mem).
  eapply (wf_two_leaves t (fun m => <[q := Q]> (<[p := [w]]> m))); [exact H|..]; auto.
  - by rewrite lookup_insert_eq.
  - by rewrite lookup_insert_ne, lookup_insert_eq.
  - intros r H1 H2. by rewrite !lookup_insert_ne.
  - lia.
  - rewrite El, snd_app. cbn [fmap list_fmap snd concat]. by rewrite app_nil_r, <-!app_assoc.
Qed.

Lemma take_next t p v q w Q D2 Ns l :
  wf_at t ((p, [v]) :: (q, w :: Q) :: D2) Ns l -> Q <> [] ->
  let t' := set_items q Q (set_items p [w] t) in
  wf_at t' ((p, [w]) :: (q, Q) :: D2) Ns (delete 0%nat l).
Proof.
  intros H HQ t'. destruct (single_contents _ [] _ _ _ _ _ H) as [El Ha]. cbn [concat fmap list_fmap length] in *.
  pose proof (nodup_leaf _ [] _ _ _ _ _ H) as Hpq. cbn [fmap list_fmap fst app] in Hpq.
  pose proof (wf_leaves _ _ _ _ H) as HD. apply list.Forall_cons in HD as [_ HD].
  apply list.Forall_cons in HD as [[_ Hl] _]. cbn [snd length] in Hl.
  assert (Hne : p <> q) by (intros ->; apply Hpq; mem).
  eapply (wf_two_leaves t (fun m => <[q := Q]> (<[p := [w]]> m)) []); [exact H|..]; auto.
  - by rewrite lookup_insert_ne, lookup_insert_eq.
  - by rewrite lookup_insert_eq.
  - intros r H1 H2. by rewrite !lookup_insert_ne.
  - cbn. lia.
Qed.

Lemma steal_before t M q Q p v D2 Ns l :
  wf_at t ((M ++ [(q, Q)]) ++ (p, [v]) :: D2) Ns l -> NEED_MERGE (length Q) LeafCount = false ->
  erased (steal_item p t) (delete (length (concat (M ++ [(q, Q)]).*2)) l) (length (concat (M ++ [(q, Q)]).*2)).
Proof.
  intros H Hm. apply NEED_MERGE_many in Hm; [|done].
  destruct Q as [|w Q _] using rev_ind; [cbn in Hm; lia|]. rewrite length_app in Hm. cbn in Hm.
  pose proof (take_prev _ _ _ _ _ _ _ _ _ _ H ltac:(intros ->; cbn in Hm; lia)) as Hw. cbv zeta in Hw.
  destruct (wf_neighbours _ _ _ _ _ _ _ H) as (_ & Hprev & Hnext).
  assert (Hq : items t !! q = Some (Q ++ [w])).
  { rewrite <-app_assoc in H. cbn [app] in H. by apply (wf_neighbours _ _ _ _ _ _ _ H). }
  unfold steal_item. rewrite Hprev, fmap_app. cbn [fmap list_fmap fst]. rewrite last_of_app.
  unfold get_items. rewrite Hq. cbn [obind]. rewrite length_app. cbn [length]. rewrite Nat.add_sub.
  rewrite vector_at_app, vector_shrink_app by done. cbn [obind].
  pose proof (erased_over _ _ _ _ _ _ _ 1%nat Hw ltac:(done)) as He.
  unfold step_over, count_of, get_items in He. rewrite (proj1 (wf_neighbours _ _ _ _ _ _ _ Hw)) in He.
  cbn [obind length Nat.leb] in He.
  replace (length (concat (M ++ [(q, Q)]).*2) + 1)%nat with (length (concat (M ++ [(q, Q ++ [w])]).*2)) in He; [exact He|].
  rewrite !snd_app, !length_app. cbn. rewrite !app_nil_r, !length_app. cbn. lia.
Qed.

Lemma steal_after t p v q Q D2 Ns l :
  wf_at t ((p, [v]) :: (q, Q) :: D2) Ns l -> NEED_MERGE (length Q) LeafCount = false ->
  erased (steal_item p t) (delete 0%nat l) 0.
Proof.
  intros H Hm. apply NEED_MERGE_many in Hm; [|done].
  destruct Q as [|w Q]; [cbn in Hm; lia|]. cbn in Hm.
  pose proof (take_next _ _ _ _ _ _ _ _ _ H ltac:(intros ->; cbn in Hm; lia)) as Hw. cbv zeta in Hw.
  destruct (wf_neighbours _ [] _ _ _ _ _ H) as (_ & Hprev & Hnext).
  assert (Hq : items t !! q = Some (w :: Q)).
  { by apply (wf_neighbours t [(p, [v])] _ _ _ _ _ H). }
  unfold steal_item. rewrite Hprev, Hnext. cbn [fmap list_fmap fst first_of last_of list.last].
  unfold get_items. rewrite Hq. cbn [obind].
  rewrite (vector_at_app [] Q w), (vector_remove_app [] Q w) by done. cbn [obind app].
  change O with (length (concat (@nil (ptr * list Value)).*2) + 0)%nat at 3. eapply erased_at; [exact Hw|done|done|cbn; lia].
Qed.

Lemma remove_single_ok t D1 p v D2 Ns l :
  wf_at t (D1 ++ (p, [v]) :: D2) Ns l -> D1 <> [] \/ D2 <> [] ->
  erased (remove_single p t) (delete (length (concat D1.*2)) l) (length (concat D1.*2)).
Proof.
  intros H Ho. destruct (single_gone _ _ _ _ _ _ _ H Ho) as (t' & Ns' & Er & Hw).
  destruct (nonempty_leaves _ _ _ _ _ _ _ H Ho) as [Hn1 Hn2].
  destruct (wf_neighbours _ _ _ _ _ _ _ H) as (Hp & Hprev & Hnext).
  assert (Hne : D1 ++ D2 <> []) by (destruct D1; [destruct D2; [by destruct Ho|done]|done]).
  assert (Hgone : forall temp, temp = first_of D2.*1 None -> erased (let* t2 := removePage (S (level t)) 0 p t in
    Ret (is_page temp, mk_accessor temp 0, t2)) (delete (length (concat D1.*2)) l) (length (concat D1.*2))).
  { intros temp ->. rewrite Er. cbn [obind]. eapply erased_next; eauto. }
  assert (Hsteal : (exists M q Q, D1 = M ++ [(q, Q)] /\ NEED_MERGE (length Q) LeafCount = false) \/
    D1 = [] /\ (exists q Q M, D2 = (q, Q) :: M /\ NEED_MERGE (length Q) LeafCount = false) ->
    erased (steal_item p t) (delete (length (concat D1.*2)) l) (length (concat D1.*2))).
  { intros [(M & q & Q & -> & Hm)|(-> & q & Q & M & -> & Hm)]; [by eapply steal_before|by eapply steal_after]. }
  unfold remove_single. rewrite (mergeable_items_prev _ _ _ _ _ _ _ _ H), (mergeable_items_next _ _ _ _ _ _ _ _ H).
  rewrite Hnext. cbn [obind].
  destruct D2 as [|[q' Q'] D2]; (destruct D1 as [|[q Q] D1 _] using rev_ind); rewrite ?last_snoc;
    cbn [list.last obind fst snd]; rewrite ?Nat.add_0_r; [by destruct Ho|..].
  - destruct (NEED_MERGE (length Q) LeafCount) eqn:Em; [by apply Hgone|]. apply Hsteal. eauto 10.
  - destruct (NEED_MERGE (length Q') LeafCount) eqn:Em; cbn [obind]; [by apply (Hgone (Some q'))|]. apply Hsteal. eauto 10.
  - destruct (NEED_MERGE (length Q) LeafCount) eqn:Em; cbn [obind]; [by apply Hgone|].
    destruct (NEED_MERGE (length Q') LeafCount) eqn:Em'; cbn [obind]; [by apply (Hgone (Some q'))|]. apply Hsteal. eauto 10.
Qed.

(** ** A leaf with other items *)

(** A leaf is joined with its neighbour [q] before it, and goes. *)
Lemma join_before t M q Q p e D2 Ns l :
  wf_at t ((M ++ [(q, Q)]) ++ (p, e) :: D2) Ns l -> (length Q + length e <= LeafCount)%nat ->
  exists t' Ns', removePage (S (level t)) 0 p (set_items q (Q ++ e) t) = Ret t' /\
    wf_at t' (M ++ (q, Q ++ e) :: D2) Ns' l.
Proof.
  intros H Hlen. pose proof (nodup_leaf _ _ _ _ _ _ _ H) as Hp.
  destruct (nonempty_leaves _ _ _ _ _ _ _ H) as [Hn1 Hn2]; [left; by destruct M|].
  assert (H' := H). rewrite <-app_assoc in H'. cbn [app] in H'.
  destruct (other_leaves t <[q := Q ++ e]> _ _ _ _ _ _ H') as [HM HD].
  { intros r Hr. by apply lookup_insert_ne. }
  destruct (wf_neighbours _ _ _ _ _ _ _ H') as (Hq & _). apply list.Forall_app in Hn1 as [HnM Hn1].
  apply list.Forall_cons in Hn1 as [HQ _]. apply list.Forall_cons in HD as [_ HD]. cbn [snd] in HQ.
  rewrite fmap_app in Hp. cbn [fmap list_fmap fst] in Hp.
  eapply (remove_leaf t <[q := Q ++ e]>); [exact H|left; by destruct M|..].
  - rewrite !fmap_app. cbn. by rewrite <-app_assoc.
  - apply list.Forall_forall. intros r _. cbn. unfold get_items. cbn.
    destruct (decide (r = q)) as [->|Hr]; [|by rewrite lookup_insert_ne].
    rewrite lookup_insert_eq, Hq. cbn [obind]. by destruct Q.
  - apply list.Forall_app. split; [done|]. constructor; [|done]. split; cbn; [by rewrite lookup_insert_eq|].
    rewrite length_app. lia.
  - apply list.Forall_app. split; [done|]. constructor; [by destruct Q|done].
  - apply H.
  - rewrite <-(wf_contents _ _ _ _ H), snd_mid, snd_app, snd_app. cbn. by rewrite app_nil_r, <-!app_assoc.
Qed.

(** The leaf [q] after it is joined with it, and goes. *)
Lemma join_after t D1 p e q Q D2 Ns l :
  wf_at t (D1 ++ (p, e) :: (q, Q) :: D2) Ns l -> (length e + length Q <= LeafCount)%nat ->
  exists t' Ns', removePage (S (level t)) 0 q (set_items p (e ++ Q) t) = Ret t' /\
    wf_at t' (D1 ++ (p, e ++ Q) :: D2) Ns' l.
Proof.
  intros H. replace (D1 ++ (p, e) :: (q, Q) :: D2) with ((D1 ++ [(p, e)]) ++ (q, Q) :: D2) in H by by rewrite <-app_assoc.
  intros Hlen. by eapply join_before.
Qed.

(** The leaf after an item is gone. *)
Definition after_cut (p : ptr) (pos : nat) (d : list Value) (t : tree) : outcome (bool * Accessor * tree) :=
  let fuel := S (level t) in
  let* temp := mergeable_items t (prev t p) (length d) in
  match temp with
  | Some temp =>
      let* td := get_items t temp in
      let* joined := vector_join LeafCount td d in
      let* t := removePage fuel 0 p (set_items temp joined t) in
      step_over temp (pos + length td) t
  | None =>
  let* temp := mergeable_items t (next t p) (length d) in
  match temp with
  | Some temp =>
      let* td := get_items t temp in
      let* joined := vector_join LeafCount d td in
      let* t := removePage fuel 0 temp (set_items p joined t) in
      Ret (true, mk_accessor (Some p) pos, t)
  | None => step_over p pos t
  end end.

Lemma after_cut_ok t D1 p d D2 Ns l pos :
  wf_at t (D1 ++ (p, d) :: D2) Ns l -> (pos <= length d)%nat ->
  erased (after_cut p pos d t) l (length (concat D1.*2) + pos).
Proof.
  intros H Hpos. unfold after_cut.
  rewrite (mergeable_items_prev _ _ _ _ _ _ _ _ H), (mergeable_items_next _ _ _ _ _ _ _ _ H). cbn [obind].
  assert (Hnext : erased
    match match D2 with
          | X :: _ => if NEED_MERGE (length X.2 + length d) LeafCount then Some X.1 else None
          | [] => None
          end with
    | Some temp =>
        let* td := get_items t temp in
        let* joined := vector_join LeafCount d td in
        let* t := removePage (S (level t)) 0 temp (set_items p joined t) in
        Ret (true, mk_accessor (Some p) pos, t)
    | None => step_over p pos t
    end l (length (concat D1.*2) + pos)).
  { destruct D2 as [|[q Q] D2]; [by eapply erased_over|]. cbn [fst snd].
    destruct (NEED_MERGE (length Q + length d) LeafCount) eqn:Em; [|by eapply erased_over].
    apply NEED_MERGE_le in Em.
    destruct (join_after _ _ _ _ _ _ _ _ _ H ltac:(lia)) as (t' & Ns' & E & Hw).
    replace (D1 ++ (p, d) :: (q, Q) :: D2) with ((D1 ++ [(p, d)]) ++ (q, Q) :: D2) in H by by rewrite <-app_assoc.
    unfold get_items. rewrite (proj1 (wf_neighbours _ _ _ _ _ _ _ H)). cbn [obind].
    unfold vector_join. rewrite (proj2 (Nat.leb_le _ _)) by lia. cbn [obind]. rewrite E. cbn [obind].
    eapply erased_at; [exact Hw|done|done|]. rewrite length_app.
    assert (HQ : Q <> []) by (eapply wf_leaf_nonempty; [exact H|left; by destruct D1]).
    assert (0 < length Q)%nat by (destruct Q; [done|cbn; lia]). lia. }
  destruct D1 as [|[q Q] M _] using rev_ind; [exact Hnext|]. rewrite last_snoc in *. cbn [fst snd] in *.
  destruct (NEED_MERGE (length Q + length d) LeafCount) eqn:Em; [|exact Hnext]. clear Hnext.
  apply NEED_MERGE_le in Em.
  destruct (join_before _ _ _ _ _ _ _ _ _ H Em) as (t' & Ns' & E & Hw).
  rewrite <-app_assoc in H. cbn [app] in H.
  unfold get_items. rewrite (proj1 (wf_neighbours _ _ _ _ _ _ _ H)). cbn [obind].
  unfold vector_join. rewrite (proj2 (Nat.leb_le _ _)) by lia. cbn [obind]. rewrite E. cbn [obind].
  pose proof (erased_over _ _ _ _ _ _ _ (pos + length Q)%nat Hw) as He. rewrite length_app in He.
  replace (length (concat (M ++ [(q, Q)]).*2) + pos)%nat with (length (concat M.*2) + (pos + length Q))%nat.
  - apply He. lia.
  - rewrite snd_app, length_app. cbn. rewrite app_nil_r. lia.
Qed.

Lemma fastRemove_ok t l a i :
  positioned t l a i -> erased (fastRemove a t) (delete i l) i.
Proof.
  intros (D & Ns & H & D1 & p & d & D2 & -> & Hc & Hi & ->).
  destruct (wf_neighbours _ _ _ _ _ _ _ H) as (Hp & _).
  destruct (lookup_lt_is_Some_2 d (curPos a) Hi) as [v Hv].
  apply take_drop_middle in Hv. set (X := take (curPos a) d) in *. set (Y := drop (S (curPos a)) d) in *.
  assert (HX : length X = curPos a) by (unfold X; rewrite length_take; lia). clearbody X Y. subst d.
  unfold fastRemove. rewrite Hc. cbn [the_page obind]. unfold get_items. rewrite Hp. cbn [obind].
  pose proof (tower_level _ _ _ _ (wf_tower _ _ _ _ H)) as Elev. rewrite <-HX.
  destruct (Nat.eqb_spec (level t) 0) as [E0|E0].
  - (* only one leaf *)
    rewrite vector_remove_app by done. cbn [obind]. destruct Ns; [|cbn in Elev; lia].
    destruct (wf_tower _ _ _ _ H) as (r & E1 & _). rewrite fmap_app in E1.
    destruct D1; [|by destruct D1]. destruct D2; [|done].
    pose proof (cut_item _ _ _ _ _ _ _ _ _ H ltac:(by right)) as Hw. cbn [fmap list_fmap concat length app Nat.add] in *.
    pose proof (wf_contents _ _ _ _ Hw) as El. cbn in El. rewrite app_nil_r in El. rewrite <-El in *.
    exists a, (set_items p (X ++ Y) t). split_and!; [done|by eapply represents_wf|]. intros Hlt.
    exists [(p, X ++ Y)], []. split; [done|]. destruct a as [c n]. cbn in *. subst c n. by apply (cursor_here []).
  - assert (Ho : D1 <> [] \/ D2 <> []).
    { destruct D1, D2; auto. exfalso. apply wf_single in H as (? & ? & _ & ->); [cbn in Elev; lia|cbn; lia]. }
    destruct (Nat.eqb_spec (length (X ++ v :: Y)) 1) as [E1|E1].
    + rewrite length_app in E1. cbn in E1. destruct X; [|cbn in E1; lia]. destruct Y; [|cbn in E1; lia].
      cbn [length Nat.eqb]. rewrite Nat.add_0_r. by eapply remove_single_ok.
    + rewrite vector_remove_app by done. cbn [obind].
      assert (Hne : X ++ Y <> []).
      { intros E. apply app_eq_nil in E as [-> ->]. done. }
      pose proof (cut_item _ _ _ _ _ _ _ _ _ H (or_introl Hne)) as Hw.
      pose proof (after_cut_ok _ _ _ _ _ _ _ (length X) Hw ltac:(rewrite length_app; lia)) as He.
      unfold after_cut in He. assert (Ea : a = mk_accessor (Some p) (length X)) by (destruct a; cbn in *; congruence).
      rewrite Ea. exact He.
Qed.

End tree.

(** ** The rest of the class *)

Section rest.
Context {P : TreeParams}.

Lemma isEmpty_spec t l : represents t l -> isEmpty t = Ret (length l =? 0)%nat.
Proof.
  unfold isEmpty. intros [(-> & _ & ->)|(D & Ns & H)]; [done|].
  destruct (at_leaf_exists t D Ns l 0 H) as (r & p & D1 & X & Y & D2 & Hr & _ & ED & _ & El & _). rewrite Hr.
  pose proof (tower_level _ _ _ _ (wf_tower _ _ _ _ H)) as Elev. destruct (Nat.eqb_spec (level t) 0) as [E0|E0].
  - destruct Ns; [|cbn in Elev; lia]. destruct (wf_tower _ _ _ _ H) as (r' & E1 & Hr' & _).
    assert (r' = r) as -> by congruence. destruct D as [|[q d] [|]]; try done. cbn in E1. injection E1 as ->.
    destruct (wf_neighbours t [] r d [] [] l H) as (Hi & _). unfold count_of, get_items. rewrite Hi. cbn [obind].
    rewrite <-(wf_contents _ _ _ _ H). cbn. by rewrite app_nil_r.
  - destruct (Nat.eqb_spec (length l) 0) as [E|E]; [|done]. exfalso. destruct l; [|done].
    assert (Hlen : (2 <= length D)%nat).
    { destruct (decide (length D < 2)%nat) as [Hlt|]; [|lia]. apply wf_single in H as (? & ? & _ & ->); [cbn in Elev; lia|done]. }
    pose proof (wf_nonempty _ _ _ _ H Hlen) as Hn. pose proof (wf_contents _ _ _ _ H) as Ec.
    destruct D as [|[q d] D]; [cbn in Hlen; lia|]. apply list.Forall_cons in Hn as [Hn _]. cbn in Ec, Hn.
    by apply app_eq_nil in Ec as [-> _].
Qed.

Lemma root_node t k L Ns r : tower t k L Ns -> root t = Some r -> Ns <> [] -> exists d, nodes t !! r = Some d.
Proof.
  revert k L. induction Ns as [|N Ns IH]; intros k L; [done|]. intros (_ & HN' & _ & _ & _ & HT) Hr _.
  destruct Ns as [|M Ns]; [|by eapply IH].
  destruct HT as (r' & E & Hr' & _). assert (r' = r) as -> by congruence.
  destruct N as [|[q d] [|]]; try done. cbn in E. injection E as ->. apply list.Forall_cons in HN' as [(Hn & _) _].
  by exists d.
Qed.

(** A tree with levels is not empty; its root has children. *)
Lemma root_count_spec t l :
  represents t l ->
  match root t with
  | None => l = [] /\ level t = O
  | Some r => exists n, root_count t r = Ret n /\ ((level t = O) -> n = length l) /\ (level t <> O -> l <> [])
  end.
Proof.
  intros Hrep. pose proof (isEmpty_spec _ _ Hrep) as He. destruct Hrep as [(-> & ? & ->)|(D & Ns & H)]; [done|].
  destruct (at_leaf_exists t D Ns l 0 H) as (r & _ & _ & _ & _ & _ & Hr & _). unfold isEmpty in He. rewrite Hr in *.
  unfold root_count. destruct (Nat.eqb_spec (level t) 0) as [E0|E0].
  - destruct (count_of t r) as [n|] eqn:En; [|done]. exists n. split; [done|]. split; [|done]. intros _.
    pose proof (tower_level _ _ _ _ (wf_tower _ _ _ _ H)) as Elev.
    destruct Ns; [|cbn in Elev; lia]. destruct (wf_tower _ _ _ _ H) as (r' & E1 & Hr' & _).
    assert (r' = r) as -> by congruence. destruct D as [|[q d] [|]]; try done. cbn in E1. injection E1 as ->.
    destruct (wf_neighbours t [] r d [] [] l H) as (Hi & _). unfold count_of, get_items in En. rewrite Hi in En.
    injection En as <-. rewrite <-(wf_contents _ _ _ _ H). cbn. by rewrite app_nil_r.
  - assert (Hn : exists d, nodes t !! r = Some d).
    { destruct (root_node t 0 D.*1 Ns r (wf_tower _ _ _ _ H) Hr) as (d & Hd); [|by eauto].
      intros ->. pose proof (tower_level _ _ _ _ (wf_tower _ _ _ _ H)). cbn in *. lia. }
    destruct Hn as [d Hd]. unfold get_nodes. rewrite Hd. exists (length d). split_and!; [done|done|].
    intros _ ->. done.
Qed.

(** The comparison is only a guess at the sizes, but it knows an empty tree. *)
Lemma seemsBiggerThan_spec t l t' l' :
  represents t l -> represents t' l' ->
  exists b, seemsBiggerThan t t' = Ret b /\ (if b then l = [] -> l' = [] else l' = [] -> l = []).
Proof.
  intros H H'. pose proof (root_count_spec _ _ H) as Hc. pose proof (root_count_spec _ _ H') as Hc'.
  unfold seemsBiggerThan. destruct (Nat.eqb_spec (level t) (level t')) as [E|E]; cbn [negb].
  - destruct (root t) as [r|], (root t') as [r'|].
    + destruct Hc as (n & -> & H1 & H2), Hc' as (n' & -> & H1' & H2'). cbn [obind]. eexists. split; [done|].
      destruct (Nat.eqb_spec (level t) 0) as [E0|E0].
      * rewrite E0 in E. specialize (H1 E0). specialize (H1' (eq_sym E)). subst.
        destruct (Nat.ltb_spec (length l') (length l)); intros ->; cbn in *; [lia|by destruct l; [|cbn in *; lia]].
      * assert (l <> []) by auto. assert (l' <> []) by (apply H2'; congruence).
        by destruct (n' <? n)%nat.
    + eexists. split; [done|]. by destruct Hc' as [-> _].
    + eexists. split; [done|]. by destruct Hc as [-> _].
    + eexists. split; [done|]. by destruct Hc' as [-> _].
  - eexists. split; [done|]. destruct (Nat.ltb_spec (level t') (level t)) as [Hl|Hl]; intros ->.
    + destruct (root t) as [r|]; [|lia]. destruct Hc as (n & _ & _ & H2). by destruct H2; [lia|].
    + destruct (root t') as [r|]; [|lia]. destruct Hc' as (n & _ & _ & H2). by destruct H2; [lia|].
Qed.

(** *** [clear] *)

Definition frees {A} (L : list ptr) (m m' : gmap ptr A) : Prop :=
  forall q, m' !! q = if decide (q ∈ L) then None else m !! q.

Lemma frees_cons {A} p L (m m' : gmap ptr A) : frees L (delete p m) m' -> frees (p :: L) m m'.
Proof.
  intros H q. rewrite (H q). destruct (decide (q ∈ L)), (decide (q ∈ p :: L)) as [Hq|Hq]; try done.
  - destruct Hq. by right.
  - apply elem_of_cons in Hq as [->|Hq]; [|done]. apply lookup_delete_eq.
  - apply lookup_delete_ne. intros ->. apply Hq. left.
Qed.

Lemma free_items_ok L t pr fuel :
  seg t pr L None -> NoDup L -> (forall q, q ∈ L -> is_Some (items t !! q)) -> (length L <= fuel)%nat ->
  exists m, free_items fuel (first_of L None) t = Ret (with_items (fun _ => m) t) /\ frees L (items t) m.
Proof.
  revert t pr fuel. induction L as [|p L IH]; intros t pr fuel HS Hd Hi Hf.
  { exists (items t). split; [destruct t; by destruct fuel|]. intros q. done. }
  destruct fuel as [|fuel]; [cbn in Hf; lia|]. cbn [seg first_of] in *. destruct HS as (_ & Hn & HS).
  apply list.NoDup_cons in Hd as [Hp Hd]. destruct (Hi p) as [d Ed]; [left|].
  cbn [free_items]. unfold get_items. rewrite Ed. cbn [obind]. rewrite Hn.
  destruct (IH (with_items (delete p) t) (Some p) fuel) as (m & E & Hm); auto.
  - eapply seg_frame; [|exact HS]. by apply list.Forall_forall.
  - intros q Hq. cbn. rewrite lookup_delete_ne by (by intros ->). apply Hi. by right.
  - cbn in Hf. lia.
  - exists m. split; [exact E|]. by apply frees_cons.
Qed.

Lemma free_nodes_ok L t pr fuel :
  seg t pr L None -> NoDup L -> (forall q, q ∈ L -> is_Some (nodes t !! q)) -> (length L <= fuel)%nat ->
  exists m, free_nodes fuel (first_of L None) t = Ret (with_nodes (fun _ => m) t) /\ frees L (nodes t) m.
Proof.
  revert t pr fuel. induction L as [|p L IH]; intros t pr fuel HS Hd Hi Hf.
  { exists (nodes t). split; [destruct t; by destruct fuel|]. intros q. done. }
  destruct fuel as [|fuel]; [cbn in Hf; lia|]. cbn [seg first_of] in *. destruct HS as (_ & Hn & HS).
  apply list.NoDup_cons in Hd as [Hp Hd]. destruct (Hi p) as [d Ed]; [left|].
  cbn [free_nodes]. unfold get_nodes. rewrite Ed. cbn [obind]. rewrite Hn.
  destruct (IH (with_nodes (delete p) t) (Some p) fuel) as (m & E & Hm); auto.
  - eapply seg_frame; [|exact HS]. by apply list.Forall_forall.
  - intros q Hq. cbn. rewrite lookup_delete_ne by (by intros ->). apply Hi. by right.
  - cbn in Hf. lia.
  - exists m. split; [exact E|]. by apply frees_cons.
Qed.

(** Different pages with bounded numbers. *)
Lemma pages_bounded (L : list ptr) n : NoDup L -> (forall q, q ∈ L -> (q < n)%nat) -> (length L <= n)%nat.
Proof.
  intros Hd Hl. rewrite <-(length_seq n 0). apply submseteq_length, NoDup_submseteq; [done|].
  intros q Hq. apply elem_of_seq. specialize (Hl q Hq). lia.
Qed.

(** The levels above, from the parent of the first page of a level. *)
Lemma free_levels_ok Ns t k c L fuel :
  tower t k (c :: L) Ns -> NoDup (ups Ns) -> (forall q, q ∈ ups Ns -> (q < fresh t)%nat) -> (length Ns <= fuel)%nat ->
  exists m, free_levels fuel (parent t c) t = Ret (with_nodes (fun _ => m) t) /\ frees (ups Ns) (nodes t) m.
Proof.
  revert t k c L fuel. induction Ns as [|N Ns IH]; intros t k c L fuel HT Hd Hlt Hf.
  - destruct HT as (r & [= -> ->] & _ & _ & ->). exists (nodes t). split; [destruct t; by destruct fuel|].
    intros q. done.
  - destruct fuel as [|fuel]; [cbn in Hf; lia|]. destruct HT as (EL & HNk & HS & Hlen & _ & HT).
    rewrite ups_cons in *. apply list.NoDup_app in Hd as (HdN & Hdis & Hd).
    destruct N as [|[q cs] N]; [done|]. pose proof HNk as HNk'. apply list.Forall_cons in HNk' as [(Hn & Hne & _ & _ & Hpar) _].
    cbn [fst snd] in *. destruct cs as [|c' cs]; [done|]. cbn in EL. injection EL as <- _.
    apply list.Forall_cons in Hpar as [Hpar _]. rewrite Hpar. cbn [free_levels]. unfold get_nodes. rewrite Hn. cbn [obind].
    destruct (free_nodes_ok _ t None (S (fresh t)) HS HdN) as (m & E & Hm).
    { intros x Hx. apply list_elem_of_fmap in Hx as (X & -> & HX).
      destruct (proj1 (list.Forall_forall _ _) HNk X HX) as (Hx & _). by eexists. }
    { assert (length ((q, c :: cs) :: N).*1 <= fresh t)%nat; [|lia]. apply pages_bounded; [done|].
      intros x Hx. apply Hlt, elem_of_app. by left. }
    cbn [fmap list_fmap first_of fst] in E. rewrite E. cbn [obind].
    destruct (IH (with_nodes (fun _ => m) t) (S k) q N.*1 fuel) as (m' & E' & Hm'); auto.
    + eapply tower_frame; [| | | |exact HT]; auto; [|by apply list.Forall_forall].
      apply list.Forall_forall. intros x Hx. cbn. rewrite (Hm x). split_and!; try done.
      apply decide_False. intros H. by apply (Hdis x).
    + intros x Hx. apply Hlt, elem_of_app. by right.
    + cbn in Hf. lia.
    + exists m'. split; [exact E'|]. intros x. rewrite (Hm' x). cbn. rewrite (Hm x).
      change (q :: N.*1 ++ ups Ns) with (((q, c :: cs) :: N).*1 ++ ups Ns).
      destruct (decide (x ∈ ups Ns)) as [H1|H1]; [by rewrite decide_True by (apply elem_of_app; by right)|].
      destruct (decide (x ∈ ((q, c :: cs) :: N).*1)) as [H2|H2]; [by rewrite decide_True by (apply elem_of_app; by left)|].
      rewrite decide_False; [done|]. intros [H3|H3]%elem_of_app; auto.
Qed.

Lemma tree_clear_ok t D Ns l :
  wf_at t D Ns l ->
  exists t', clear t = Ret t' /\ represents t' [] /\
    frees D.*1 (items t) (items t') /\ frees (ups Ns) (nodes t) (nodes t').
Proof.
  intros H. destruct (at_leaf_exists t D Ns l 0 H) as (r & _ & _ & _ & _ & _ & Hr & _).
  unfold clear. rewrite Hr. pose proof (wf_tower _ _ _ _ H) as HT. pose proof (wf_nodup _ _ _ _ H) as Hd.
  pose proof (wf_fresh _ _ _ _ H) as Hlt. apply list.NoDup_app in Hd as (HdD & Hdis & HdU).
  destruct (first_leaf_tower t 0%nat D.*1 Ns HT) as (r' & p & L & Hr' & E1 & E2).
  assert (r' = r) as -> by congruence. rewrite E2. cbn [first_leaf obind]. rewrite E1 in *.
  pose proof (wf_items _ _ _ _ H) as Hi.
  assert (Hsome : forall q, q ∈ p :: L -> is_Some (items t !! q)).
  { rewrite <-E1. intros q Hq. apply list_elem_of_fmap in Hq as (X & -> & HX).
    rewrite list.Forall_forall in Hi. rewrite (Hi X HX). by eexists. }
  destruct (Hsome p ltac:(left)) as [d Ed]. unfold get_items. rewrite Ed. cbn [obind].
  pose proof (wf_seg _ _ _ _ H) as HS. rewrite E1 in HS.
  destruct (free_items_ok (p :: L) t None (S (fresh t)) HS HdD Hsome) as (m & E & Hm).
  { assert (length (p :: L) <= fresh t)%nat; [|lia]. apply pages_bounded; [done|].
    intros x Hx. apply Hlt, elem_of_app. by left. }
  cbn [first_of] in E. rewrite E. cbn [obind].
  destruct (free_levels_ok Ns (with_items (fun _ => m) t) 0%nat p L (S (level t))) as (m' & E' & Hm'); auto.
  - eapply tower_frame; [| | | |exact HT]; auto; by apply list.Forall_forall.
  - intros x Hx. apply Hlt, elem_of_app. by right.
  - rewrite (tower_level _ _ _ _ HT). lia.
  - cbn [parent with_items level] in *. rewrite E'. cbn [obind]. eexists. split_and!; [done|by left|exact Hm|exact Hm'].
Qed.

End rest.
End TreeErase.
