(* ===== verification/TreeClient.v ===== *)
(** * What the B+ tree promises ([common/classes/tree.h])

    A client sees a sorted list of items: any sequence of operations on an
    empty tree returns what the same sequence returns on a list.  The pages of
    every tree it meets are within their capacities and know their parents,
    and the tree is not higher than its contents warrant. *)

From S2P Require Import Prelude.
From S2P Require Import BePlusTree.
From S2P Require Import TreeLevels.
From S2P Require Import TreeSpec.
From S2P Require Import TreeAdd.
From S2P Require Import TreeRemove.
From S2P Require Import TreeErase.
From stdpp Require Import gmap sorting.
#[local] Open Scope Z_scope.

Module TreeClient.
Import BePlusTree TreeSpec TreeLevels TreeAdd TreeRemove TreeErase.

Section client.
Context {P : TreeParams}.

(** ** Sequences of operations *)

Inductive op :=
  | Insert (v : Value)
  | Erase (k : Z)
  | Lookup (lt : LocType) (k : Z)
  | Items
  | Empty
  | Clear.

Inductive answer := Yes (b : bool) | Found (v : option Value) | Listed (l : list Value).

(** The items from an accessor to the end, with [getNext]. *)
Fixpoint listing (fuel : nat) (a : Accessor) (t : tree) : outcome (list Value) :=
  match fuel with
  | O => Throw Overrun
  | S fuel =>
      let* v := current a t in
      let* (more, a) := getNext a t in
      if more then let* l := listing fuel a t in Ret (v :: l) else Ret [v]
  end.

Definition op_tree (o : op) (a : Accessor) (t : tree) : outcome (answer * Accessor * tree) :=
  match o with
  | Insert v =>
      let* (r, t) := add v t in
      match r with Added b => Ret (Yes b, a, t) | Raised => Throw Overrun end
  | Erase k =>
      let* (found, a) := locate locEqual k a t in
      if found then let* (_, a, t) := fastRemove a t in Ret (Yes true, a, t) else Ret (Yes false, a, t)
  | Lookup lt k =>
      let* (found, a) := locate lt k a t in
      if found then let* v := current a t in Ret (Found (Some v), a, t) else Ret (Found None, a, t)
  | Items =>
      let* (some, a) := getFirst a t in
      if some then let* l := listing (S (fresh t * LeafCount)) a t in Ret (Listed l, a, t)
      else Ret (Listed [], a, t)
  | Empty => let* b := isEmpty t in Ret (Yes b, a, t)
  | Clear => let* t := clear t in Ret (Yes true, a, t)
  end.

Definition op_list (o : op) (l : list Value) : answer * list Value :=
  match o with
  | Insert v => (Yes (negb (present (key v) l)), put v l)
  | Erase k => (Yes (present k l), filter (fun v => key v <> k) l)
  | Lookup lt k => (Found (loc_index lt k l ≫= (l !!.)), l)
  | Items => (Listed l, l)
  | Empty => (Yes (length l =? 0)%nat, l)
  | Clear => (Yes true, [])
  end.

Fixpoint run_tree (os : list op) (a : Accessor) (t : tree) : outcome (list answer * tree) :=
  match os with
  | [] => Ret ([], t)
  | o :: os =>
      let* (r, a, t) := op_tree o a t in
      let* (rs, t) := run_tree os a t in
      Ret (r :: rs, t)
  end.

Fixpoint run_list (os : list op) (l : list Value) : list answer * list Value :=
  match os with
  | [] => ([], l)
  | o :: os => let (r, l) := op_list o l in let (rs, l) := run_list os l in (r :: rs, l)
  end.

Lemma wf_size t D Ns l : wf_at t D Ns l -> (length l <= fresh t * LeafCount)%nat.
Proof.
  intros H. pose proof (wf_nodup _ _ _ _ H) as Hd. apply list.NoDup_app in Hd as (Hd & _ & _).
  assert (Hb : (length D.*1 <= fresh t)%nat).
  { apply pages_bounded; [done|]. intros q Hq. apply (wf_fresh _ _ _ _ H), elem_of_app. by left. }
  rewrite length_fmap in Hb. rewrite <-(wf_contents _ _ _ _ H).
  etransitivity; [|apply Nat.mul_le_mono_r; exact Hb]. pose proof (wf_leaves _ _ _ _ H) as HD. clear -HD.
  induction D as [|X D IH]; [cbn; lia|]. apply list.Forall_cons in HD as [[_ HX] HD]. specialize (IH HD).
  cbn [fmap list_fmap concat length Nat.mul]. rewrite length_app. lia.
Qed.

Lemma tree_listing_ok t l fuel a i :
  positioned t l a i -> (length l <= i + fuel)%nat -> listing fuel a t = Ret (drop i l).
Proof.
  revert a i. induction fuel as [|fuel IH]; intros a i Hp Hf.
  - exfalso. destruct (current_spec _ _ _ _ Hp) as (v & _ & Hv). apply lookup_lt_Some in Hv. lia.
  - cbn [listing]. destruct (current_spec _ _ _ _ Hp) as (v & -> & Hv). cbn [obind].
    destruct (getNext_spec _ _ _ _ Hp) as (a' & -> & Ha). cbn [obind]. rewrite (drop_S l v i) by done.
    destruct (Nat.ltb_spec (S i) (length l)) as [Hlt|Hlt].
    + by rewrite (IH a' (S i) Ha) by lia.
    + by rewrite (drop_ge l) by lia.
Qed.

(** The item of a key is the only one. *)
Lemma filter_none (k : Z) (l : list Value) : Forall (fun v => key v <> k) l -> filter (fun v => key v <> k) l = l.
Proof. induction 1 as [|v l Hv _ IH]; [done|]. by rewrite filter_cons_True, IH. Qed.

Lemma delete_key l i k :
  ascending key l -> loc_index locEqual k l = Some i -> delete i l = filter (fun v => key v <> k) l.
Proof.
  intros Ha. destruct (ascending_split key l k Ha) as (X & Y & -> & HX & HY).
  unfold loc_index. rewrite (present_split k) by done. destruct Y as [|y Y]; [done|].
  destruct (Z.eqb_spec (key y) k) as [E|E]; [|done]. rewrite count_below_split by done. intros [= <-].
  rewrite delete_middle, filter_app. apply ascending_mid in Ha as [_ HY'].
  rewrite (filter_cons_False _ y) by (intros H; by apply H).
  rewrite !filter_none; [done| |]; (eapply list.Forall_impl; [eassumption|]); cbv beta; lia.
Qed.

Lemma absent_key l k : loc_index locEqual k l = None -> filter (fun v => key v <> k) l = l.
Proof.
  unfold loc_index, present. destruct (existsb _ l) eqn:E; [done|]. intros _. apply filter_none.
  clear -E. induction l as [|v l IH]; [constructor|]. cbn in E. apply orb_false_iff in E as [E1 E2].
  constructor; [by apply Z.eqb_neq|auto].
Qed.

Lemma represents_sorted t l : represents t l -> ascending key l.
Proof. intros [(_ & _ & ->)|(D & Ns & H)]; [constructor|apply H]. Qed.

Context (HL : (1 <= LeafCount)%nat) (HN : (2 <= NodeCount)%nat) (Hpool : forall f, pool f = true).

(** One operation. *)
Lemma op_ok o a t l :
  represents t l ->
  exists a' t', op_tree o a t = Ret ((op_list o l).1, a', t') /\ represents t' (op_list o l).2.
Proof.
  intros H. pose proof (represents_sorted _ _ H) as Ha. destruct o as [v|k|lt k| | |]; cbn [op_tree op_list fst snd].
  - destruct (add_ok HL HN Hpool v t l H) as (t' & -> & H'). cbn [obind]. eauto.
  - destruct (locate_ok locEqual k a t l H) as (a' & -> & Hi). cbn [obind].
    destruct (loc_index locEqual k l) as [i|] eqn:E.
    + destruct (fastRemove_ok HL HN t l a' i (Hi i eq_refl)) as (a2 & t2 & -> & H2 & _). cbn [obind].
      rewrite (delete_key l i k Ha E) in H2. do 2 eexists. split; [|exact H2].
      unfold loc_index in E. by destruct (present k l).
    + do 2 eexists. rewrite absent_key by done. split; [|exact H]. unfold loc_index in E. by destruct (present k l).
  - destruct (locate_ok lt k a t l H) as (a' & -> & Hi). cbn [obind].
    destruct (loc_index lt k l) as [i|]; [|cbn; eauto].
    destruct (current_spec _ _ _ _ (Hi i eq_refl)) as (v & -> & Hv). cbn. rewrite Hv. eauto.
  - destruct (getFirst_spec a t l H) as (a' & -> & Hp). cbn [obind].
    destruct l as [|v l]; [cbn; eauto|]. cbn [length Nat.eqb negb].
    destruct H as [(_ & _ & ?)|(D & Ns & H)]; [done|].
    rewrite (tree_listing_ok t (v :: l) _ a' 0 (Hp ltac:(done))) by (pose proof (wf_size _ _ _ _ H); lia).
    cbn [obind]. rewrite drop_0. eauto using represents_wf.
  - rewrite (isEmpty_spec _ _ H). cbn. eauto.
  - destruct H as [(Hr & Hl & ->)|(D & Ns & H)].
    + unfold clear. rewrite Hr. cbn. do 2 eexists. split; [done|]. by left.
    + destruct (tree_clear_ok t D Ns l H) as (t' & -> & H' & _). cbn. eauto.
Qed.

Lemma run_ok os a t l :
  represents t l ->
  exists t', run_tree os a t = Ret ((run_list os l).1, t') /\ represents t' (run_list os l).2.
Proof.
  revert a t l. induction os as [|o os IH]; intros a t l H; cbn [run_tree run_list]; [eauto|].
  destruct (op_ok o a t l H) as (a' & t' & -> & H'). cbn [obind].
  destruct (op_list o l) as [r l']. cbn [fst snd] in *. destruct (IH a' t' l' H') as (t2 & -> & H2). cbn [obind].
  destruct (run_list os l') as [rs l2]. eauto.
Qed.

(** C14: any sequence of insertions, removals by key, searches of every kind,
    listings, tests for emptiness and clearings, on an empty tree, returns what
    it returns on a sorted list without duplicates, and leaves a well-formed
    tree with the items of that list. *)
Theorem tree_refines_list os a :
  exists t, run_tree os a empty_tree = Ret ((run_list os []).1, t) /\ represents t (run_list os []).2.
Proof. apply run_ok. by left. Qed.

(** [fastRemove] takes out the item the accessor stands on, whatever is
    merged or moved on the way; it returns whether there is an item after it,
    and then the accessor stands on that. *)
Theorem fastRemove_moves_on t l a i :
  positioned t l a i ->
  exists a' t', fastRemove a t = Ret ((i <? length (delete i l))%nat, a', t') /\
    represents t' (delete i l) /\ ((i < length (delete i l))%nat -> positioned t' (delete i l) a' i).
Proof. by apply fastRemove_ok. Qed.

End client.

Section pages.
Context {P : TreeParams}.

(** [clear] returns, gives back every page of the tree and no other, and
    leaves an empty tree that can be used again. *)
Theorem clear_frees t D Ns l :
  wf_at t D Ns l ->
  exists t', clear t = Ret t' /\ represents t' [] /\
    (forall q, items t' !! q = if decide (q ∈ D.*1) then None else items t !! q) /\
    (forall q, nodes t' !! q = if decide (q ∈ ups Ns) then None else nodes t !! q).
Proof. apply tree_clear_ok. Qed.

(** ** Every page of a tree *)

(** The pages reachable from the root, with their levels. *)
Inductive page_at (t : tree) : nat -> ptr -> Prop :=
  | at_root r : root t = Some r -> page_at t (level t) r
  | at_child k p cs c : page_at t (S k) p -> nodes t !! p = Some cs -> c ∈ cs -> page_at t k c.

Lemma page_at_le t j p : page_at t j p -> (j <= level t)%nat.
Proof. induction 1; lia. Qed.

Lemma page_at_tower t k L Ns j p :
  tower t k L Ns -> keyed t k L -> page_at t j p -> (k <= j)%nat ->
  (j = k /\ p ∈ L) \/ (exists m cs, j = S m /\ (k <= m)%nat /\ node_ok t m (p, cs) /\ keyed t m cs).
Proof.
  revert k L j p. induction Ns as [|N Ns IH]; intros k L j p HT Hk Hp Hj.
  - destruct HT as (r & -> & Hr & Hl & _). left. destruct Hp as [r' Hr'|j q cs c Hq _ _].
    + split; [done|]. assert (r' = r) as -> by congruence. left.
    + apply page_at_le in Hq. lia.
  - pose proof HT as (-> & HN & _ & _ & _ & HTN).
    assert (HkN : keyed t (S k) N.*1).
    { apply keyed_up; [|done]. eapply list.Forall_impl; [exact HN|apply node_ok_children]. }
    assert (Hnode : forall q, q ∈ N.*1 -> exists cs, (q, cs) ∈ N /\ node_ok t k (q, cs) /\ keyed t k cs).
    { intros q Hq. apply list_elem_of_fmap in Hq as ([q' cs] & -> & Hq). exists cs. split; [done|].
      split; [by apply (proj1 (list.Forall_forall _ _) HN)|].
      apply list_elem_of_split in Hq as (N1 & N2 & ->). rewrite snd_mid in Hk.
      apply keyed_app in Hk as [_ Hk]. by apply keyed_app in Hk as [? _]. }
    destruct (decide (j = k)) as [->|Hne].
    + left. split; [done|]. destruct Hp as [r Hr|k q cs c Hq Hcs Hc].
      * pose proof (tower_level _ _ _ _ HT). cbn in *. lia.
      * destruct (IH (S k) N.*1 (S k) q HTN HkN Hq) as [[_ Hin]|(m & cs' & ? & ? & _)]; [lia| |lia].
        destruct (Hnode q Hin) as (cs' & Hin' & (Hn & _) & _). cbn in Hn. rewrite Hcs in Hn. injection Hn as <-.
        by eapply elem_children.
    + right. destruct (IH (S k) N.*1 j p HTN HkN Hp) as [[-> Hin]|(m & cs & -> & Hm & H)]; [lia| |].
      * destruct (Hnode p Hin) as (cs & _ & H). exists k, cs. split_and!; [done|lia|apply H..].
      * exists m, cs. split_and!; [done|lia|apply H..].
Qed.

Lemma leaf_typed t D Ns l p :
  wf_at t D Ns l -> p ∈ D.*1 -> exists d, items t !! p = Some d /\ (length d <= LeafCount)%nat /\ ascending key d.
Proof.
  intros H Hp. apply list_elem_of_fmap in Hp as ([q d] & -> & Hq). exists d.
  destruct (proj1 (list.Forall_forall _ _) (wf_leaves _ _ _ _ H) _ Hq) as [H1 H2]. split_and!; [done|done|].
  pose proof (wf_sorted _ _ _ _ H) as Ha. rewrite <-(wf_contents _ _ _ _ H) in Ha.
  apply list_elem_of_split in Hq as (D1 & D2 & ->). rewrite snd_mid in Ha.
  apply ascending_app in Ha as (_ & Ha & _). by apply ascending_app in Ha as (Ha & _).
Qed.


(** ** The height *)

Lemma spaced_sum l :
  (2 <= NodeCount)%nat -> Forall (fun x => 1 <= x)%nat l -> spaced l -> (3 * length l <= 2 * sum_list l + 1)%nat.
Proof.
  intros Hcap. revert l. fix IH 1. intros [|a [|b l]] Hl Hs; [cbn; lia| |].
  - apply list.Forall_cons in Hl as [Ha _]. cbn. lia.
  - apply list.Forall_cons in Hl as [Ha Hl]. apply list.Forall_cons in Hl as [Hb Hl].
    rewrite !spaced_cons in Hs. destruct Hs as [Hab [_ Hs]]. specialize (IH l Hl Hs).
    change (NEED_MERGE (a + b) NodeCount = false) in Hab. cbn.
    destruct (decide (a + b <= 2)%nat) as [H|H]; [pose proof (small_merge (a + b) Hcap H); congruence|]. cbn in IH. lia.
Qed.

Lemma tower_pages t k L Ns h :
  (2 <= NodeCount)%nat -> tower t k L Ns -> length Ns = S h -> (2 <= length L /\ 3 ^ h <= 2 ^ h * (length L - 1))%nat.
Proof.
  intros Hcap. revert k L h. induction Ns as [|N Ns IH]; intros k L h; [done|].
  intros (-> & HNk & _ & Hlen & Hsp & HT) [= Eh]. split; [done|]. destruct h as [|h]; [cbn; lia|].
  destruct (IH _ _ h HT Eh) as [H2 H3]. rewrite length_fmap in *.
  pose proof (spaced_sum _ Hcap (sizes_positive _ _ _ HNk) Hsp) as Hsum. rewrite <-length_children in Hsum.
  assert (length (sizes N) = length N) by (unfold sizes; by rewrite length_fmap).
  rewrite !Nat.pow_succ_r'. nia.
Qed.

(** a tree of height [h + 1] has more than [(3/2)^h] items, so that the
    entries of [recovery_map] are enough for every tree with no more items
    than that. *)
Theorem height_bound t l h :
  (2 <= NodeCount)%nat -> represents t l -> level t = S h -> (3 ^ h <= 2 ^ h * (length l - 1))%nat.
Proof.
  intros Hcap [(_ & Hl & _)|(D & Ns & H)] Hh; [congruence|].
  pose proof (wf_tower _ _ _ _ H) as HT. rewrite (tower_level _ _ _ _ HT) in Hh. cbn in Hh.
  destruct (tower_pages _ _ _ _ h Hcap HT Hh) as [H2 H3]. rewrite length_fmap in *.
  etransitivity; [exact H3|]. apply Nat.mul_le_mono_l.
  assert (length D <= length l)%nat; [|lia]. rewrite <-(wf_contents _ _ _ _ H).
  pose proof (wf_nonempty _ _ _ _ H ltac:(lia)) as Hn. clear -Hn.
  induction D as [|[q d] D IH]; [cbn; lia|]. apply list.Forall_cons in Hn as [Hd Hn]. specialize (IH Hn).
  cbn [snd] in Hd. cbn. rewrite length_app. destruct d; [done|]. cbn. lia.
Qed.

End pages.
(** ** Examples

    A tree of integers with small pages. *)

Definition small : TreeParams :=
  {| Value := Z; key := fun z => z; LeafCount := 3; NodeCount := 2; pool := fun _ => true |}.

Definition nowhere : Accessor := mk_accessor None 0.

Definition sample : list (op (P := small)) :=
  map (Insert (P := small)) [70; 10; 130; 40; 100; 160; 20; 80; 140; 50; 110; 30; 90; 150; 60; 120; 15; 25].

Definition sample_tree : tree (P := small) :=
  match run_tree (P := small) sample nowhere empty_tree with Ret (_, t) => t | Throw _ => empty_tree end.

Lemma small_caps : (1 <= @LeafCount small)%nat /\ (2 <= @NodeCount small)%nat /\ (forall f, @pool small f = true).
Proof. split_and!; [cbn; lia..|done]. Qed.

Definition sample_list : list Z := [10; 15; 20; 25; 30; 40; 50; 60; 70; 80; 90; 100; 110; 120; 130; 140; 150; 160].

Lemma sample_represents : represents (P := small) sample_tree sample_list.
Proof.
  destruct small_caps as (H1 & H2 & H3).
  destruct (run_ok (P := small) H1 H2 H3 sample nowhere empty_tree [] ltac:(by left)) as (t & E & H).
  unfold sample_tree. rewrite E. exact H.
Qed.

Lemma tree_refines_list_witness :
  exists t, run_tree (P := small) (sample ++ [Erase 70; Erase 70; Lookup locGreat 60; Lookup locLessEqual 9; Items; Clear; Empty])
    nowhere empty_tree = Ret (repeat (Yes true) 18 ++ [Yes true; Yes false; Found (P := small) (Some 80); Found None;
      Listed (P := small) [10; 15; 20; 25; 30; 40; 50; 60; 80; 90; 100; 110; 120; 130; 140; 150; 160]; Yes true; Yes true], t) /\
    represents t [].
Proof.
  destruct small_caps as (H1 & H2 & H3).
  exact (tree_refines_list (P := small) H1 H2 H3 (sample ++ [Erase 70; Erase 70; Lookup locGreat 60;
    Lookup locLessEqual 9; Items; Clear; Empty]) nowhere).
Defined.

(** The accessor on the first item. *)
Lemma sample_first : exists a, positioned (P := small) sample_tree sample_list a 0.
Proof.
  destruct (getFirst_spec (P := small) nowhere sample_tree sample_list sample_represents) as (a & _ & H).
  exists a. by apply H.
Qed.

Lemma fastRemove_moves_on_witness :
  exists a a' t', fastRemove (P := small) a sample_tree = Ret (true, a', t') /\
    represents t' (delete 0%nat sample_list) /\ positioned t' (delete 0%nat sample_list) a' 0.
Proof.
  destruct small_caps as (H1 & H2 & _). destruct sample_first as [a Ha].
  destruct (fastRemove_moves_on (P := small) H1 H2 sample_tree sample_list a 0%nat Ha) as (a' & t' & E & H & Hp).
  exists a, a', t'. split; [exact E|]. split; [exact H|]. apply Hp. cbn. lia.
Defined.

Lemma clear_frees_witness :
  exists (D : list (ptr * list Z)) Ns t', clear (P := small) sample_tree = Ret t' /\ represents t' [] /\
    (forall q, q ∈ D.*1 -> items t' !! q = None) /\ (forall q, q ∈ ups Ns -> nodes t' !! q = None).
Proof.
  assert (Hroot : root sample_tree <> None) by (vm_compute; discriminate).
  destruct sample_represents as [(Hr & _)|(D & Ns & H)]; [by destruct Hroot|].
  destruct (clear_frees (P := small) sample_tree D Ns sample_list H) as (t' & E & H0 & H1 & H2).
  exists D, Ns, t'. split; [exact E|]. split; [exact H0|].
  split; intros q Hq; [rewrite H1|rewrite H2]; by rewrite decide_True.
Defined.


Lemma height_bound_witness : (3 ^ 2 <= 2 ^ 2 * (18 - 1))%nat.
Proof.
  apply (height_bound (P := small) sample_tree sample_list 2 ltac:(cbn; lia) sample_represents).
  vm_compute. reflexivity.
Defined.

(** *** Exhausted memory *)

(** A pool that is exhausted after [n] pages. *)
Definition exhausted (n : nat) : TreeParams :=
  {| Value := Z; key := fun z => z; LeafCount := 2; NodeCount := 2; pool := fun f => (f <? n)%nat |}.

(** when memory runs out while [add] climbs, the recovery at its end gives
    the contents of all pages back as they were, but not their links: the new
    leaf is freed, and still the [next] page of its neighbour, so that going
    through the items afterwards reads a freed page. *)
Theorem recovery_leaves_links :
  exists t, run_tree (P := exhausted 8) (map (Insert (P := exhausted 8)) [10; 20; 30; 40; 50; 60; 70; 80])
      nowhere empty_tree = Ret (repeat (Yes true) 8, t) /\
    exists t', add (P := exhausted 8) 55 t = Ret (Raised, t') /\
      items t' = items t /\ nodes t' = nodes t /\ root t' = root t /\
      next t' 3%nat = Some 7%nat /\ items t' !! 7%nat = None /\
      op_tree (P := exhausted 8) Items nowhere t' = Throw Overrun.
Proof.
  eexists. split; [vm_compute; reflexivity|]. eexists. split; [vm_compute; reflexivity|].
  do 5 (split; [vm_compute; reflexivity|]). vm_compute. reflexivity.
Qed.

End TreeClient.
