(* ===== verification/SparseBitmap.v ===== *)
(** * Sparse bitmaps ([common/classes/sparse_bitmap.h])

    [SparseBitmap]: sets of unsigned integers, kept as a single value or as a
    tree of buckets of [BUNCH_BITS] bits, with an accessor that walks through
    the values, union and intersection.  The tree is an interface here, the
    class [BitmapTree] with its laws [BitmapTreeLaws]; [TreeBitmap] implements
    it with the B+ tree.

    Theorems (in [BitmapScan] and [BitmapOps]): every operation does to the
    bitmap what it does to a set of integers; the accessor stops at the values
    of the set, in order. *)

From S2P Require Import Prelude.
From S2P Require Import BePlusTree.
From stdpp Require Import gmap sorting.
#[local] Open Scope Z_scope.

Module SparseBitmap.
Import BePlusTree(LocType(..), ascending).

(** ** Types *)

Inductive BitmapTypes := BitmapTypes_32 | BitmapTypes_64.

Definition BUNCH_BITS (ty : BitmapTypes) : Z :=
  match ty with BitmapTypes_32 => 32 | BitmapTypes_64 => 64 end.
Definition LOG2_BUNCH_BITS (ty : BitmapTypes) : Z :=
  match ty with BitmapTypes_32 => 7 | BitmapTypes_64 => 8 end.

(** The type [T] of the values: [ULONG] or [UINT64]. *)
Inductive value_type := T_ULONG | T_UINT64.
Definition T_BITS (T : value_type) : Z := match T with T_ULONG => 32 | T_UINT64 => 64 end.

(** [SparseBitmap::Bucket]; the key is [start_value]. *)
Record Bucket := mk_bucket { start_value : Z; bits : Z }.

(** ** The tree of buckets

    What a bitmap asks of its tree.  [t_set_bits] is an assignment through the
    reference that [current] returns. *)
Class BitmapTree := {
  BTree : Type;
  Position : Type;
  t_new : BTree;
  t_nowhere : Position;
  t_isEmpty : BTree -> outcome bool;
  t_add : Bucket -> BTree -> outcome (bool * BTree);
  t_locate : LocType -> Z -> Position -> BTree -> outcome (bool * Position);
  t_getFirst : Position -> BTree -> outcome (bool * Position);
  t_getLast : Position -> BTree -> outcome (bool * Position);
  t_getNext : Position -> BTree -> outcome (bool * Position);
  t_getPrev : Position -> BTree -> outcome (bool * Position);
  t_current : Position -> BTree -> outcome Bucket;
  t_set_bits : Z -> Position -> BTree -> outcome BTree;
  t_fastRemove : Position -> BTree -> outcome (bool * Position * BTree);
  t_clear : BTree -> outcome BTree;
  t_seemsBiggerThan : BTree -> BTree -> outcome bool
}.

(** The place a search goes to, in the sorted list [l1 ++ x :: l2]. *)
Definition found_place (lt : LocType) (k : Z) (l1 : list Bucket) (x : Bucket) (l2 : list Bucket) : Prop :=
  match lt with
  | locEqual => start_value x = k
  | locGreatEqual => Forall (fun y => start_value y < k) l1 /\ k <= start_value x
  | locGreat => Forall (fun y => start_value y <= k) l1 /\ k < start_value x
  | locLessEqual => start_value x <= k /\ Forall (fun y => k < start_value y) l2
  | locLess => start_value x < k /\ Forall (fun y => k <= start_value y) l2
  end.

Definition no_place (lt : LocType) (k : Z) (l : list Bucket) : Prop :=
  Forall (fun y => match lt with
    | locEqual => start_value y <> k
    | locGreatEqual => start_value y < k
    | locGreat => start_value y <= k
    | locLessEqual => k < start_value y
    | locLess => k <= start_value y
    end) l.

(** The laws.  [t_holds t l]: the tree holds the buckets [l], in this order;
    [t_at t a l1 x l2]: it holds [l1 ++ x :: l2], and the accessor [a] stands
    on [x]. *)
Class BitmapTreeLaws (B : BitmapTree) := {
  t_holds : BTree -> list Bucket -> Prop;
  t_at : BTree -> Position -> list Bucket -> Bucket -> list Bucket -> Prop;
  t_new_holds : t_holds t_new [];
  t_sorted t l : t_holds t l -> ascending start_value l;
  t_holds_unique t l l' : t_holds t l -> t_holds t l' -> l = l';
  t_at_holds t a l1 x l2 : t_at t a l1 x l2 -> t_holds t (l1 ++ x :: l2);
  t_isEmpty_law t l : t_holds t l -> t_isEmpty t = Ret (length l =? 0)%nat;
  t_add_law t l b :
    t_holds t l -> Forall (fun y => start_value y <> start_value b) l ->
    exists t' l1 l2, t_add b t = Ret (true, t') /\ l = l1 ++ l2 /\ t_holds t' (l1 ++ b :: l2);
  t_locate_law t l lt k a :
    t_holds t l ->
    exists found a', t_locate lt k a t = Ret (found, a') /\
      if found then exists l1 x l2, l = l1 ++ x :: l2 /\ t_at t a' l1 x l2 /\ found_place lt k l1 x l2
      else no_place lt k l;
  t_getFirst_law t l a :
    t_holds t l ->
    exists a', t_getFirst a t = Ret (negb (length l =? 0)%nat, a') /\
      match l with [] => True | x :: l2 => t_at t a' [] x l2 end;
  t_getLast_law t l a :
    t_holds t l ->
    exists a', t_getLast a t = Ret (negb (length l =? 0)%nat, a') /\
      forall l1 x, l = l1 ++ [x] -> t_at t a' l1 x [];
  t_getNext_law t a l1 x l2 :
    t_at t a l1 x l2 ->
    exists a', t_getNext a t = Ret (negb (length l2 =? 0)%nat, a') /\
      match l2 with [] => a' = a | y :: l2 => t_at t a' (l1 ++ [x]) y l2 end;
  t_getPrev_law t a l1 x l2 :
    t_at t a l1 x l2 ->
    exists a', t_getPrev a t = Ret (negb (length l1 =? 0)%nat, a') /\
      forall l0 y, l1 = l0 ++ [y] -> t_at t a' l0 y (x :: l2);
  t_current_law t a l1 x l2 : t_at t a l1 x l2 -> t_current a t = Ret x;
  t_set_bits_law t a l1 x l2 v :
    t_at t a l1 x l2 ->
    exists t', t_set_bits v a t = Ret t' /\ t_at t' a l1 (mk_bucket (start_value x) v) l2;
  t_fastRemove_law t a l1 x l2 :
    t_at t a l1 x l2 ->
    exists a' t', t_fastRemove a t = Ret (negb (length l2 =? 0)%nat, a', t') /\
      match l2 with [] => t_holds t' l1 | y :: l2 => t_at t' a' l1 y l2 end;
  t_clear_law t l : t_holds t l -> exists t', t_clear t = Ret t' /\ t_holds t' [];
  t_seemsBiggerThan_law t l t' l' :
    t_holds t l -> t_holds t' l' ->
    exists b, t_seemsBiggerThan t t' = Ret b /\ if b then l = [] -> l' = [] else l' = [] -> l = []
}.

Section bitmap.
Context (ty : BitmapTypes) (T : value_type) {B : BitmapTree}.

Definition to_T (z : Z) : Z := wrap_u (T_BITS T) z.
Definition to_BUNCH (z : Z) : Z := wrap_u (BUNCH_BITS ty) z.

Definition BUNCH_ONE : Z := 1.

(** [value & ~(T) (BUNCH_BITS - 1)] *)
Definition aligned (value : Z) : Z := Z.land value (to_T (Z.lnot (to_T (BUNCH_BITS ty - 1)))).

(** [BUNCH_ONE << (value - val_aligned)] *)
Definition mask_of (value val_aligned : Z) : Z := to_BUNCH (Z.shiftl BUNCH_ONE (to_T (value - val_aligned))).

(** The fields, with the default accessor of the tree. *)
Record bitmap := mk_bitmap {
  singular : bool;
  singular_value : Z;
  the_tree : BTree;
  tree_accessor : Position
}.

Definition new_bitmap : bitmap := mk_bitmap false 0 t_new t_nowhere.

Definition tree_add (b : Bucket) (m : bitmap) : outcome bitmap :=
  let* (_, t) := t_add b (the_tree m) in
  Ret (mk_bitmap (singular m) (singular_value m) t (tree_accessor m)).

(** The part of [set] after the single value is dealt with. *)
Definition set_in_tree (value : Z) (m : bitmap) : outcome bitmap :=
  let val_aligned := aligned value in
  let bit_mask := mask_of value val_aligned in
  let* (found, a) := t_locate locEqual val_aligned (tree_accessor m) (the_tree m) in
  if found then
    let* b := t_current a (the_tree m) in
    let* t := t_set_bits (Z.lor (bits b) bit_mask) a (the_tree m) in
    Ret (mk_bitmap (singular m) (singular_value m) t a)
  else
    tree_add (mk_bucket val_aligned bit_mask) (mk_bitmap (singular m) (singular_value m) (the_tree m) a).

Definition set (value : Z) (m : bitmap) : outcome bitmap :=
  if singular m then
    if singular_value m =? value then Ret m else
    let m := mk_bitmap false (singular_value m) (the_tree m) (tree_accessor m) in
    let start := aligned (singular_value m) in
    let* m := tree_add (mk_bucket start (mask_of (singular_value m) start)) m in
    set_in_tree value m
  else
    let* e := t_isEmpty (the_tree m) in
    if e then Ret (mk_bitmap true value (the_tree m) (tree_accessor m))
    else set_in_tree value m.

(** [bool clear(T value)] *)
Definition clear (value : Z) (m : bitmap) : outcome (bool * bitmap) :=
  if singular m then
    if value =? singular_value m
    then Ret (true, mk_bitmap false (singular_value m) (the_tree m) (tree_accessor m))
    else Ret (false, m)
  else
    let val_aligned := aligned value in
    let bit_mask := mask_of value val_aligned in
    let* (found, a) := t_locate locEqual val_aligned (tree_accessor m) (the_tree m) in
    let m := mk_bitmap (singular m) (singular_value m) (the_tree m) a in
    if found then
      let* b := t_current a (the_tree m) in
      if negb (Z.land (bits b) bit_mask =? 0) then
        let left := Z.land (bits b) (to_BUNCH (Z.lnot bit_mask)) in
        let* t := t_set_bits left a (the_tree m) in
        if left =? 0 then
          let* (_, a, t) := t_fastRemove a t in
          Ret (true, mk_bitmap (singular m) (singular_value m) t a)
        else Ret (true, mk_bitmap (singular m) (singular_value m) t a)
      else Ret (false, m)
    else Ret (false, m).

(** [bool test(T value)], with an accessor of its own. *)
Definition test (value : Z) (m : bitmap) : outcome bool :=
  if singular m then Ret (value =? singular_value m) else
  let val_aligned := aligned value in
  let bit_mask := mask_of value val_aligned in
  let* (found, a) := t_locate locEqual val_aligned t_nowhere (the_tree m) in
  if found then
    let* b := t_current a (the_tree m) in Ret (negb (Z.land (bits b) bit_mask =? 0))
  else Ret false.

(** [static bool test(SparseBitmap*, T)] *)
Definition test_ptr (value : Z) (m : option bitmap) : outcome bool :=
  match m with None => Ret false | Some m => test value m end.

(** [void clear()] *)
Definition clear_all (m : bitmap) : outcome bitmap :=
  let* t := t_clear (the_tree m) in
  Ret (mk_bitmap false (singular_value m) t (tree_accessor m)).

Definition reset (m : option bitmap) : outcome (option bitmap) :=
  match m with None => Ret None | Some m => let* m := clear_all m in Ret (Some m) end.

(** ** [SparseBitmap::Accessor] *)

Record Accessor := mk_accessor { treeAccessor : Position; bit_mask : Z; current_value : Z }.

Definition new_Accessor : Accessor := mk_accessor t_nowhere BUNCH_ONE 0.

(** The scanning loops: [do { if (tree_bits & mask) return true; mask <<= 1;
    value++; } while (mask)], and downwards with the condition of the loop as
    an argument. *)
Fixpoint scan_forward (fuel : nat) (tree_bits mask value : Z) : outcome (bool * Z * Z) :=
  match fuel with
  | O => Throw Overrun
  | S fuel =>
      if negb (Z.land tree_bits mask =? 0) then Ret (true, mask, value) else
      let mask := to_BUNCH (Z.shiftl mask 1) in
      let value := to_T (value + 1) in
      if mask =? 0 then Ret (false, mask, value) else scan_forward fuel tree_bits mask value
  end.

Fixpoint scan_backward (stop : Z -> bool) (fuel : nat) (tree_bits mask value : Z) : outcome (bool * Z * Z) :=
  match fuel with
  | O => Throw Overrun
  | S fuel =>
      if negb (Z.land tree_bits mask =? 0) then Ret (true, mask, value) else
      let mask := Z.shiftr mask 1 in
      let value := to_T (value - 1) in
      if stop mask then Ret (false, mask, value) else scan_backward stop fuel tree_bits mask value
  end.

Definition is_zero (mask : Z) : bool := mask =? 0.

(** Enough for one bucket. *)
Definition scan_fuel : nat := Z.to_nat (BUNCH_BITS ty).

Definition HIGH_MASK : Z := to_BUNCH (Z.shiftl BUNCH_ONE (BUNCH_BITS ty - 1)).

(** The loops that test before they scan: [while (try_mask) ...]. *)
Definition while_forward (tree_bits mask value : Z) : outcome (bool * Z * Z) :=
  if mask =? 0 then Ret (false, mask, value) else scan_forward scan_fuel tree_bits mask value.

Definition while_backward (tree_bits mask value : Z) : outcome (bool * Z * Z) :=
  if mask =? 0 then Ret (false, mask, value) else scan_backward is_zero scan_fuel tree_bits mask value.

(** The value of the highest bit of a bucket. *)
Definition last_value (b : Bucket) : Z := to_T (to_T (start_value b + BUNCH_BITS ty) - 1).

(** The whole of the bucket the tree accessor stands on, upwards and
    downwards. *)
Definition scan_bucket_up (p : Position) (m : bitmap) : outcome (bool * Accessor) :=
  let* b := t_current p (the_tree m) in
  let* (found, mask, value) := scan_forward scan_fuel (bits b) BUNCH_ONE (start_value b) in
  Ret (found, mk_accessor p mask value).

Definition scan_bucket_down (stop : Z -> bool) (p : Position) (m : bitmap) : outcome (bool * Accessor) :=
  let* b := t_current p (the_tree m) in
  let* (found, mask, value) := scan_backward stop scan_fuel (bits b) HIGH_MASK (last_value b) in
  Ret (found, mk_accessor p mask value).

(** A bucket must contain one bit at least: the end of a function without a
    [return]. *)
Definition must_find (r : bool * Accessor) : outcome (bool * Accessor) :=
  if fst r then Ret r else Throw Overrun.

(** [locate] in the tree, the transformation of [locLess] and [locGreat]
    done. *)
Definition locate_tree (lt : LocType) (key : Z) (a : Accessor) (m : bitmap) : outcome (bool * Accessor) :=
  let key_aligned := aligned key in
  let* (found, p) := t_locate lt key_aligned (treeAccessor a) (the_tree m) in
  let a := mk_accessor p (bit_mask a) (current_value a) in
  if negb found then Ret (false, a) else
  let* b := t_current p (the_tree m) in
  match lt with
  | locEqual =>
      let mask := mask_of key key_aligned in
      Ret (negb (Z.land (bits b) mask =? 0), mk_accessor p mask key)
  | locGreatEqual =>
      let (mask, value) :=
        if start_value b =? key_aligned then (mask_of key key_aligned, key)
        else (BUNCH_ONE, start_value b) in
      let* (hit, mask, value) := scan_forward scan_fuel (bits b) mask value in
      if hit then Ret (true, mk_accessor p mask value) else
      let* (more, p) := t_getNext p (the_tree m) in
      if negb more then Ret (false, mk_accessor p mask value) else
      let* r := scan_bucket_up p m in must_find r
  | locLessEqual =>
      let (mask, value) :=
        if start_value b =? key_aligned then (mask_of key key_aligned, key)
        else (HIGH_MASK, start_value b) in
      let* (hit, mask, value) := scan_backward is_zero scan_fuel (bits b) mask value in
      if hit then Ret (true, mk_accessor p mask value) else
      let* (more, p) := t_getPrev p (the_tree m) in
      if negb more then Ret (false, mk_accessor p mask value) else
      let* r := scan_bucket_down is_zero p m in must_find r
  | _ => Throw Overrun
  end.

Definition locate_singular (lt : LocType) (key value : Z) : bool :=
  match lt with
  | locEqual => value =? key
  | locGreatEqual => key <=? value
  | locLessEqual => value <=? key
  | locLess => value <? key
  | locGreat => key <? value
  end.

Definition locate (lt : LocType) (key : Z) (a : Accessor) (m : option bitmap) : outcome (bool * Accessor) :=
  match m with
  | None => Ret (false, a)
  | Some m =>
      if singular m then
        let value := singular_value m in
        Ret (locate_singular lt key value, mk_accessor (treeAccessor a) (bit_mask a) value)
      else
        match lt with
        | locLess => if key =? 0 then Ret (false, a) else locate_tree locLessEqual (to_T (key - 1)) a m
        | locGreat =>
            if key =? to_T (Z.lnot 0) then Ret (false, a) else locate_tree locGreatEqual (to_T (key + 1)) a m
        | _ => locate_tree lt key a m
        end
  end.

Definition getFirst (a : Accessor) (m : option bitmap) : outcome (bool * Accessor) :=
  match m with
  | None => Ret (false, a)
  | Some m =>
      if singular m then Ret (true, mk_accessor (treeAccessor a) (bit_mask a) (singular_value m)) else
      let* (found, p) := t_getFirst (treeAccessor a) (the_tree m) in
      if negb found then Ret (false, mk_accessor p (bit_mask a) (current_value a)) else
      scan_bucket_up p m
  end.

Definition getLast (a : Accessor) (m : option bitmap) : outcome (bool * Accessor) :=
  match m with
  | None => Ret (false, a)
  | Some m =>
      if singular m then Ret (true, mk_accessor (treeAccessor a) (bit_mask a) (singular_value m)) else
      let* (found, p) := t_getLast (treeAccessor a) (the_tree m) in
      if negb found then Ret (false, mk_accessor p (bit_mask a) (current_value a)) else
      let* r := scan_bucket_down is_zero p m in must_find r
  end.

Definition getNext (a : Accessor) (m : bitmap) : outcome (bool * Accessor) :=
  if singular m then Ret (false, a) else
  let try_mask := to_BUNCH (Z.shiftl (bit_mask a) 1) in
  let try_value := to_T (current_value a + 1) in
  let* b := t_current (treeAccessor a) (the_tree m) in
  let* (hit, mask, value) := while_forward (bits b) try_mask try_value in
  if hit then Ret (true, mk_accessor (treeAccessor a) mask value) else
  let* (more, p) := t_getNext (treeAccessor a) (the_tree m) in
  if negb more then Ret (false, mk_accessor p (bit_mask a) (current_value a)) else
  let* (found, a') := scan_bucket_up p m in
  if found then Ret (true, a') else Ret (false, mk_accessor p (bit_mask a) (current_value a)).

(** The last loop of [getPrev] tests [bit_mask], which it does not change. *)
Definition getPrev (a : Accessor) (m : bitmap) : outcome (bool * Accessor) :=
  if singular m then Ret (false, a) else
  let try_mask := Z.shiftr (bit_mask a) 1 in
  let try_value := to_T (current_value a - 1) in
  let* b := t_current (treeAccessor a) (the_tree m) in
  let* (hit, mask, value) := while_backward (bits b) try_mask try_value in
  if hit then Ret (true, mk_accessor (treeAccessor a) mask value) else
  let* (more, p) := t_getPrev (treeAccessor a) (the_tree m) in
  if negb more then Ret (false, mk_accessor p (bit_mask a) (current_value a)) else
  let* r := scan_bucket_down (fun _ => bit_mask a =? 0) p m in must_find r.

(** ** Union and intersection *)

(** A [SparseBitmap**]: the pointer and the pointer it points to may be
    [NULL]. *)
Definition bitmap_ref : Type := option (option bitmap).

(** What is returned: one of the arguments, or [NULL]. *)
Inductive which := First | Second | Null.

Definition seek_first (m : bitmap) : outcome (bool * bitmap) :=
  let* (found, a) := t_getFirst (tree_accessor m) (the_tree m) in
  Ret (found, mk_bitmap (singular m) (singular_value m) (the_tree m) a).
Definition seek_next (m : bitmap) : outcome (bool * bitmap) :=
  let* (found, a) := t_getNext (tree_accessor m) (the_tree m) in
  Ret (found, mk_bitmap (singular m) (singular_value m) (the_tree m) a).
Definition seek (k : Z) (m : bitmap) : outcome (bool * bitmap) :=
  let* (found, a) := t_locate locEqual k (tree_accessor m) (the_tree m) in
  Ret (found, mk_bitmap (singular m) (singular_value m) (the_tree m) a).
Definition here (m : bitmap) : outcome Bucket := t_current (tree_accessor m) (the_tree m).
Definition here_bits (v : Z) (m : bitmap) : outcome bitmap :=
  let* t := t_set_bits v (tree_accessor m) (the_tree m) in
  Ret (mk_bitmap (singular m) (singular_value m) t (tree_accessor m)).
Definition remove_here (m : bitmap) : outcome (bool * bitmap) :=
  let* (more, a, t) := t_fastRemove (tree_accessor m) (the_tree m) in
  Ret (more, mk_bitmap (singular m) (singular_value m) t a).

(** [if ((found = tree.getNext())) value = tree.current().start_value] *)
Definition step (m : bitmap) (value : Z) : outcome (bool * Z * bitmap) :=
  let* (found, m) := seek_next m in
  if found then let* b := here m in Ret (true, start_value b, m) else Ret (false, value, m).

(** "Add remaining buckets to destination tree and get out". *)
Fixpoint or_rest (fuel : nat) (dest source : bitmap) : outcome (bitmap * bitmap) :=
  match fuel with
  | O => Throw Overrun
  | S fuel =>
      let* b := here source in
      let* dest := tree_add b dest in
      let* (more, source) := seek_next source in
      if more then or_rest fuel dest source else Ret (dest, source)
  end.

(** "Try to add them in a row to avoid accessor resync after addition". *)
Fixpoint or_row (fuel : nat) (destValue : Z) (dest source : bitmap)
  : outcome (bool * Z * bitmap * bitmap) :=
  match fuel with
  | O => Throw Overrun
  | S fuel =>
      let* b := here source in
      let* dest := tree_add b dest in
      let* (sourceFound, source) := seek_next source in
      if negb sourceFound then Ret (false, start_value b, dest, source) else
      let* b := here source in
      let sourceValue := start_value b in
      if destValue <=? sourceValue then
        let* (_, dest) := seek destValue dest in Ret (true, sourceValue, dest, source)
      else or_row fuel destValue dest source
  end.

Fixpoint or_loop (fuel : nat) (destFound sourceFound : bool) (destValue sourceValue : Z)
    (dest source : bitmap) : outcome (bitmap * bitmap) :=
  match fuel with
  | O => Throw Overrun
  | S fuel' =>
      if negb sourceFound then Ret (dest, source) else
      if destFound then
        if destValue <? sourceValue then
          let* (destFound, destValue, dest) := step dest destValue in
          or_loop fuel' destFound sourceFound destValue sourceValue dest source
        else if destValue =? sourceValue then
          let* d := here dest in
          let* s := here source in
          let* dest := here_bits (Z.lor (bits d) (bits s)) dest in
          let* (destFound, destValue, dest) := step dest destValue in
          let* (sourceFound, sourceValue, source) := step source sourceValue in
          or_loop fuel' destFound sourceFound destValue sourceValue dest source
        else
          let* (sourceFound, sourceValue, dest, source) := or_row fuel destValue dest source in
          or_loop fuel' destFound sourceFound destValue sourceValue dest source
      else or_rest fuel dest source
  end.

(** The union of two trees, in [dest]. *)
Definition or_trees (fuel : nat) (dest source : bitmap) : outcome (bitmap * bitmap) :=
  let* (sourceFound, source) := seek_first source in
  if negb sourceFound then Ret (dest, source) else
  let* (destFound, dest) := seek_first dest in
  if negb destFound then Ret (dest, source) else
  let* d := here dest in
  let* s := here source in
  or_loop fuel destFound sourceFound (start_value d) (start_value s) dest source.

Definition bit_or (fuel : nat) (bitmap1 bitmap2 : bitmap_ref) : outcome (which * bitmap_ref * bitmap_ref) :=
  match bitmap1, bitmap2 with
  | Some (Some map1), Some (Some map2) =>
      if singular map1 then
        let* map2 := set (singular_value map1) map2 in Ret (Second, bitmap1, Some (Some map2))
      else if singular map2 then
        let* map1 := set (singular_value map2) map1 in Ret (First, Some (Some map1), bitmap2)
      else
      let* bigger := t_seemsBiggerThan (the_tree map2) (the_tree map1) in
      if bigger then
        let* (map2, map1) := or_trees fuel map2 map1 in Ret (Second, Some (Some map1), Some (Some map2))
      else
        let* (map1, map2) := or_trees fuel map1 map2 in Ret (First, Some (Some map1), Some (Some map2))
  | Some (Some _), _ => Ret (First, bitmap1, bitmap2)
  | _, _ => Ret (Second, bitmap1, bitmap2)
  end.

(** "Trim out remaining values from destination list and get out". *)
Fixpoint trim (fuel : nat) (dest : bitmap) : outcome bitmap :=
  match fuel with
  | O => Throw Overrun
  | S fuel => let* (more, dest) := remove_here dest in if more then trim fuel dest else Ret dest
  end.

Fixpoint and_loop (fuel : nat) (destFound sourceFound : bool) (destValue sourceValue : Z)
    (dest source : bitmap) : outcome (bitmap * bitmap) :=
  match fuel with
  | O => Throw Overrun
  | S fuel' =>
      if negb destFound then Ret (dest, source) else
      if sourceFound then
        if sourceValue <? destValue then
          let* (sourceFound, sourceValue, source) := step source sourceValue in
          and_loop fuel' destFound sourceFound destValue sourceValue dest source
        else if sourceValue =? destValue then
          let* d := here dest in
          let* s := here source in
          let left := Z.land (bits d) (bits s) in
          let* dest := here_bits left dest in
          let* (destFound, dest) := if left =? 0 then remove_here dest else seek_next dest in
          let* destValue := if destFound then let* b := here dest in Ret (start_value b) else Ret destValue in
          let* (sourceFound, sourceValue, source) := step source sourceValue in
          and_loop fuel' destFound sourceFound destValue sourceValue dest source
        else
          let* (destFound, dest) := remove_here dest in
          let* destValue := if destFound then let* b := here dest in Ret (start_value b) else Ret destValue in
          and_loop fuel' destFound sourceFound destValue sourceValue dest source
      else let* dest := trim fuel dest in Ret (dest, source)
  end.

(** The intersection of two trees, in [dest]. *)
Definition and_trees (fuel : nat) (dest source : bitmap) : outcome (bitmap * bitmap) :=
  let* (destFound, dest) := seek_first dest in
  if negb destFound then Ret (dest, source) else
  let* (sourceFound, source) := seek_first source in
  if negb sourceFound then Ret (dest, source) else
  let* d := here dest in
  let* s := here source in
  and_loop fuel destFound sourceFound (start_value d) (start_value s) dest source.

Definition bit_and (fuel : nat) (bitmap1 bitmap2 : bitmap_ref) : outcome (which * bitmap_ref * bitmap_ref) :=
  match bitmap1, bitmap2 with
  | Some (Some map1), Some (Some map2) =>
      if singular map1 then
        let* b := test (singular_value map1) map2 in Ret (if b then First else Null, bitmap1, bitmap2)
      else if singular map2 then
        let* b := test (singular_value map2) map1 in Ret (if b then Second else Null, bitmap1, bitmap2)
      else
      let* bigger := t_seemsBiggerThan (the_tree map1) (the_tree map2) in
      if bigger then
        let* (map2, map1) := and_trees fuel map2 map1 in Ret (Second, Some (Some map1), Some (Some map2))
      else
        let* (map1, map2) := and_trees fuel map1 map2 in Ret (First, Some (Some map1), Some (Some map2))
  | _, _ => Ret (Null, bitmap1, bitmap2)
  end.

End bitmap.
End SparseBitmap.
