(* ===== verification/BitmapScan.v ===== *)
(** * Reading a sparse bitmap ([common/classes/sparse_bitmap.h])

    The buckets as sets of integers, [test], and the accessor: every search
    and step of [SparseBitmap::Accessor] goes to the value of the set it names,
    or says that there is none. *)

From S2P Require Import Prelude.
From S2P Require Import BePlusTree.
From S2P Require Import SparseBitmap.
From stdpp Require Import gmap sorting.
#[local] Open Scope Z_scope.

Module BitmapScan.
Import BePlusTree(LocType(..), ascending, ascending_app, ascending_cons, ascending_mid).
Import SparseBitmap.

Section bits.
Context (ty : BitmapTypes) (T : value_type).

#[local] Abbreviation W := (BUNCH_BITS ty).
#[local] Abbreviation TB := (T_BITS T).

(** ** Bits of a bucket *)

Definition in_range (v : Z) : Prop := 0 <= v < 2 ^ TB.

Definition in_bucket (b : Bucket) (v : Z) : Prop :=
  0 <= v - start_value b < W /\ Z.testbit (bits b) (v - start_value b) = true.

Definition wf_bucket (b : Bucket) : Prop :=
  0 <= start_value b /\ start_value b + W <= 2 ^ TB /\ start_value b mod W = 0 /\ 0 < bits b < 2 ^ W.

Lemma W_cases : W = 32 \/ W = 64.
Proof. destruct ty; auto. Qed.

Lemma TB_cases : 2 ^ TB = 2 ^ 32 \/ 2 ^ TB = 2 ^ 64.
Proof. destruct T; auto. Qed.

Lemma W_divides : (2 ^ TB) mod W = 0.
Proof. by destruct ty, T. Qed.

Lemma W_small : W < 2 ^ TB.
Proof. by destruct ty, T. Qed.

Lemma to_T_small z : in_range z -> to_T T z = z.
Proof. intros H. unfold to_T. by apply wrap_u_small. Qed.

Lemma land_aligned a k n :
  0 <= k <= n -> 0 <= a < 2 ^ n -> Z.land a (2 ^ n - 2 ^ k) = a - a mod 2 ^ k.
Proof.
  intros Hk Ha. assert (E : 2 ^ n - 2 ^ k = Z.shiftl (Z.ones (n - k)) k).
  { rewrite Z.shiftl_mul_pow2 by lia. rewrite Z.ones_equiv, Z.mul_pred_l, <-Z.pow_add_r by lia.
    by rewrite Z.sub_add. }
  assert (E2 : a - a mod 2 ^ k = Z.shiftl (Z.shiftr a k) k).
  { rewrite Z.shiftl_mul_pow2, Z.shiftr_div_pow2 by lia. pose proof (Z.div_mod a (2 ^ k)). lia. }
  rewrite E, E2. apply Z.bits_inj'. intros i Hi. rewrite Z.land_spec, !Z.shiftl_spec by done.
  destruct (decide (i < k)) as [Hik|Hik].
  - by rewrite !(Z.testbit_neg_r _ (i - k)), andb_false_r by lia.
  - rewrite Z.shiftr_spec, Z.sub_add by lia. destruct (decide (i < n)) as [Hin|Hin].
    + by rewrite Z.ones_spec_low, andb_true_r by lia.
    + assert (Z.testbit a i = false) as ->; [|done]. destruct (decide (a = 0)) as [->|]; [apply Z.bits_0|].
      apply Z.bits_above_log2; [lia|]. apply Z.log2_lt_pow2; [lia|]. eapply Z.lt_le_trans; [apply Ha|].
      apply Z.pow_le_mono_r; lia.
Qed.

Lemma aligned_eq v : in_range v -> aligned ty T v = v - v mod W.
Proof.
  intros H. unfold in_range in H. unfold aligned.
  destruct ty, T; cbn [BUNCH_BITS T_BITS] in *.
  - apply (land_aligned v 5 32); [lia|done].
  - apply (land_aligned v 5 64); [lia|done].
  - apply (land_aligned v 6 32); [lia|done].
  - apply (land_aligned v 6 64); [lia|done].
Qed.

Lemma mod_range v : 0 <= v mod W < W.
Proof. apply Z.mod_pos_bound. destruct W_cases; lia. Qed.

Lemma to_BUNCH_pow i : 0 <= i < W -> to_BUNCH ty (Z.shiftl BUNCH_ONE i) = 2 ^ i.
Proof.
  intros H. rewrite Z.shiftl_1_l. apply wrap_u_small. split; [lia|]. apply Z.pow_lt_mono_r; lia.
Qed.

Lemma mask_of_eq v : in_range v -> mask_of ty T v (aligned ty T v) = 2 ^ (v mod W).
Proof.
  intros H. unfold mask_of. pose proof (mod_range v). rewrite aligned_eq by done.
  replace (v - (v - v mod W)) with (v mod W) by lia. rewrite to_T_small; [by apply to_BUNCH_pow|].
  pose proof W_small. unfold in_range. lia.
Qed.

Lemma land_pow b i : 0 <= i -> (Z.land b (2 ^ i) =? 0) = negb (Z.testbit b i).
Proof.
  intros Hi. destruct (Z.testbit b i) eqn:E; cbn.
  - apply Z.eqb_neq. intros H. apply (f_equal (fun z => Z.testbit z i)) in H.
    by rewrite Z.land_spec, E, Z.pow2_bits_true, Z.bits_0 in H by lia.
  - apply Z.eqb_eq, Z.bits_inj'. intros n Hn. rewrite Z.land_spec, Z.bits_0.
    destruct (decide (n = i)) as [->|]; [by rewrite E|]. by rewrite Z.pow2_bits_false, andb_false_r by lia.
Qed.

(** The bucket of a value. *)
Lemma in_bucket_aligned b v :
  wf_bucket b -> in_range v -> 0 <= v - start_value b < W <-> start_value b = aligned ty T v.
Proof.
  intros (H1 & H2 & H3 & _) Hv. rewrite aligned_eq by done. pose proof (mod_range v). split.
  - intros H0. pose proof (Z.div_mod v W). pose proof (Z.div_mod (start_value b) W). destruct W_cases; nia.
  - lia.
Qed.

Lemma in_bucket_range b v : wf_bucket b -> in_bucket b v -> in_range v.
Proof. unfold wf_bucket, in_bucket, in_range. lia. Qed.

Lemma bucket_values b v :
  wf_bucket b -> in_range v -> start_value b = aligned ty T v ->
  in_bucket b v <-> (Z.land (bits b) (mask_of ty T v (aligned ty T v)) =? 0) = false.
Proof.
  intros Hb Hv E. rewrite mask_of_eq, land_pow by (done || pose proof (mod_range v); lia).
  rewrite negb_false_iff. unfold in_bucket. pose proof (proj2 (in_bucket_aligned b v Hb Hv) E).
  replace (v - start_value b) with (v mod W) by (rewrite E, aligned_eq by done; lia).
  pose proof (mod_range v). tauto.
Qed.

(** ** The scanning loops *)

(** Some bit of a bucket is set. *)
Lemma some_bit b : 0 < b < 2 ^ W -> exists i, 0 <= i < W /\ Z.testbit b i = true.
Proof.
  intros H. exists (Z.log2 b). split; [|apply Z.bit_log2; lia].
  split; [apply Z.log2_nonneg|]. apply Z.log2_lt_pow2; lia.
Qed.

Lemma scan_forward_spec b i value fuel :
  0 <= i < W -> W - i <= Z.of_nat fuel -> 0 <= value -> value + (W - i) <= 2 ^ TB ->
  (exists j, i <= j < W /\ Z.testbit b j = true /\ (forall x, i <= x < j -> Z.testbit b x = false) /\
    scan_forward ty T fuel b (2 ^ i) value = Ret (true, 2 ^ j, value + (j - i))) \/
  ((forall x, i <= x < W -> Z.testbit b x = false) /\
    exists m v, scan_forward ty T fuel b (2 ^ i) value = Ret (false, m, v)).
Proof.
  revert i value. induction fuel as [|fuel IH]; intros i value Hi Hf Hv Hs; [lia|].
  cbn [scan_forward]. rewrite land_pow, negb_involutive by lia. destruct (Z.testbit b i) eqn:E.
  { left. exists i. split_and!; [lia|lia|done|intros x Hx; lia|]. f_lia. }
  rewrite Z.shiftl_mul_pow2 by lia. rewrite <-Z.pow_add_r by lia. destruct (decide (i + 1 < W)) as [Hlt|Hge].
  - assert (to_BUNCH ty (2 ^ (i + 1)) = 2 ^ (i + 1)) as ->.
    { apply wrap_u_small. split; [lia|]. apply Z.pow_lt_mono_r; lia. }
    assert (0 < 2 ^ (i + 1)) by lia. destruct (Z.eqb_spec (2 ^ (i + 1)) 0); [lia|].
    rewrite to_T_small by (unfold in_range; lia).
    destruct (IH (i + 1) (value + 1)) as [(j & H1 & H2 & H3 & H4)|(H1 & H2)]; try lia.
    + left. exists j. split_and!; [lia|lia|done| |].
      * intros x Hx. destruct (decide (x = i)) as [->|]; [done|]. apply H3. lia.
      * rewrite H4. f_lia.
    + right. split; [|done]. intros x Hx. destruct (decide (x = i)) as [->|]; [done|]. apply H1. lia.
  - assert (to_BUNCH ty (2 ^ (i + 1)) = 0) as ->.
    { replace (i + 1) with W by lia. unfold to_BUNCH, wrap_u. apply Z.mod_same. lia. }
    right. split; [|by do 2 eexists]. intros x Hx. by replace x with i by lia.
Qed.

Lemma scan_backward_spec stop b i value fuel :
  (forall x, 0 <= x -> stop (2 ^ x) = false) -> stop 0 = true ->
  0 <= i < W -> i < Z.of_nat fuel -> in_range value -> i <= value ->
  (exists j, 0 <= j <= i /\ Z.testbit b j = true /\ (forall x, j < x <= i -> Z.testbit b x = false) /\
    scan_backward T stop fuel b (2 ^ i) value = Ret (true, 2 ^ j, value - (i - j))) \/
  ((forall x, 0 <= x <= i -> Z.testbit b x = false) /\
    exists m v, scan_backward T stop fuel b (2 ^ i) value = Ret (false, m, v)).
Proof.
  intros Hs1 Hs2. revert i value. induction fuel as [|fuel IH]; intros i value Hi Hf Hv Hs; [lia|].
  cbn [scan_backward]. rewrite land_pow, negb_involutive by lia. destruct (Z.testbit b i) eqn:E.
  { left. exists i. split_and!; [lia|lia|done|intros x Hx; lia|]. f_lia. }
  rewrite Z.shiftr_div_pow2 by lia. destruct (decide (0 < i)) as [Hlt|Hge].
  - rewrite <-Z.pow_sub_r by lia. rewrite Hs1 by lia. unfold in_range in Hv.
    rewrite to_T_small by (unfold in_range; lia).
    destruct (IH (i - 1) (value - 1)) as [(j & H1 & H2 & H3 & H4)|(H1 & H2)]; try (unfold in_range; lia).
    + left. exists j. split_and!; [lia|lia|done| |].
      * intros x Hx. destruct (decide (x = i)) as [->|]; [done|]. apply H3. lia.
      * rewrite H4. f_lia.
    + right. split; [|done]. intros x Hx. destruct (decide (x = i)) as [->|]; [done|]. apply H1. lia.
  - replace i with 0 in * by lia. change (2 ^ 0 / 2 ^ 1) with 0. rewrite Hs2.
    right. split; [|by do 2 eexists]. intros x Hx. by replace x with 0 by lia.
Qed.

(** With a set bit the condition of the loop does not matter. *)
Lemma scan_backward_stop stop stop' b i value fuel j :
  0 <= j <= i -> Z.testbit b j = true -> (forall x, 0 <= x -> stop (2 ^ x) = false) ->
  (forall x, 0 <= x -> stop' (2 ^ x) = false) ->
  scan_backward T stop fuel b (2 ^ i) value = scan_backward T stop' fuel b (2 ^ i) value.
Proof.
  intros Hj Hb H1 H2. revert i value Hj. induction fuel as [|fuel IH]; intros i value Hj; [done|].
  cbn [scan_backward]. rewrite land_pow, negb_involutive by lia. destruct (Z.testbit b i) eqn:E; [done|].
  assert (j <> i) by congruence. rewrite Z.shiftr_div_pow2, <-Z.pow_sub_r by lia. rewrite H1, H2 by lia.
  apply IH. lia.
Qed.

(** From a value of a bucket, upwards and downwards. *)
Lemma scan_up_from b v :
  wf_bucket b -> 0 <= v - start_value b < W ->
  (exists u, v <= u /\ in_bucket b u /\ (forall x, in_bucket b x -> v <= x -> u <= x) /\
    scan_forward ty T (scan_fuel ty) (bits b) (2 ^ (v - start_value b)) v = Ret (true, 2 ^ (u - start_value b), u)) \/
  ((forall x, in_bucket b x -> x < v) /\
    exists m y, scan_forward ty T (scan_fuel ty) (bits b) (2 ^ (v - start_value b)) v = Ret (false, m, y)).
Proof.
  intros (H1 & H2 & _ & _) Hv. pose proof W_cases as HW.
  destruct (scan_forward_spec (bits b) (v - start_value b) v (scan_fuel ty)) as [(j & Hj & Hb & Hn & E)|(Hn & m & y & E)].
  - done.
  - unfold scan_fuel. lia.
  - lia.
  - lia.
  - left. exists (j + start_value b). split_and!; [lia| | |].
    + unfold in_bucket. rewrite Z.add_simpl_r. split; [lia|done].
    + intros x [Hx1 Hx2] Hvx. destruct (decide (j + start_value b <= x)); [done|].
      rewrite Hn in Hx2 by lia. done.
    + rewrite E, Z.add_simpl_r. f_lia.
  - right. split; [|by eauto]. intros x [Hx1 Hx2]. destruct (decide (x < v)); [done|].
    rewrite Hn in Hx2 by lia. done.
Qed.

Lemma scan_down_from b v stop :
  (forall x, 0 <= x -> stop (2 ^ x) = false) -> stop 0 = true -> wf_bucket b -> 0 <= v - start_value b < W ->
  (exists u, u <= v /\ in_bucket b u /\ (forall x, in_bucket b x -> x <= v -> x <= u) /\
    scan_backward T stop (scan_fuel ty) (bits b) (2 ^ (v - start_value b)) v = Ret (true, 2 ^ (u - start_value b), u)) \/
  ((forall x, in_bucket b x -> v < x) /\
    exists m y, scan_backward T stop (scan_fuel ty) (bits b) (2 ^ (v - start_value b)) v = Ret (false, m, y)).
Proof.
  intros Hs1 Hs2 (H1 & H2 & _ & _) Hv. pose proof W_cases as HW.
  destruct (scan_backward_spec stop (bits b) (v - start_value b) v (scan_fuel ty)) as [(j & Hj & Hb & Hn & E)|(Hn & m & y & E)].
  - done.
  - done.
  - done.
  - unfold scan_fuel. lia.
  - unfold in_range. lia.
  - lia.
  - left. exists (j + start_value b). split_and!; [lia| | |].
    + unfold in_bucket. rewrite Z.add_simpl_r. split; [lia|done].
    + intros x [Hx1 Hx2] Hvx. destruct (decide (x <= j + start_value b)); [done|].
      rewrite Hn in Hx2 by lia. done.
    + rewrite E, Z.add_simpl_r. f_lia.
  - right. split; [|by eauto]. intros x [Hx1 Hx2]. destruct (decide (v < x)); [done|].
    rewrite Hn in Hx2 by lia. done.
Qed.

Lemma is_zero_pow x : 0 <= x -> is_zero (2 ^ x) = false.
Proof. intros H. apply Z.eqb_neq. lia. Qed.

Lemma wf_bucket_value b : wf_bucket b -> exists v, in_bucket b v.
Proof.
  intros (_ & _ & _ & Hb). destruct (some_bit _ Hb) as (i & Hi & E). exists (start_value b + i).
  unfold in_bucket. by rewrite Z.add_simpl_l.
Qed.

(** The whole of a bucket. *)
Lemma scan_up b :
  wf_bucket b ->
  exists u, in_bucket b u /\ (forall x, in_bucket b x -> u <= x) /\
    scan_forward ty T (scan_fuel ty) (bits b) BUNCH_ONE (start_value b) = Ret (true, 2 ^ (u - start_value b), u).
Proof.
  intros Hb. pose proof W_cases. change BUNCH_ONE with (2 ^ 0).
  destruct (scan_up_from b (start_value b) Hb) as [(u & H1 & H2 & H3 & E)|(Hn & _)]; [lia| |].
  - exists u. rewrite Z.sub_diag in E. split_and!; [done| |done]. intros x Hx. apply H3; [done|]. destruct Hx. lia.
  - destruct (wf_bucket_value b Hb) as (v & Hv). specialize (Hn v Hv). destruct Hv. lia.
Qed.

Lemma HIGH_MASK_eq : HIGH_MASK ty = 2 ^ (W - 1).
Proof. by destruct ty. Qed.

Lemma last_value_eq b : wf_bucket b -> last_value ty T b = start_value b + W - 1.
Proof.
  intros (H1 & H2 & _). pose proof W_cases. unfold last_value, to_T, wrap_u.
  rewrite Zminus_mod_idemp_l. apply Z.mod_small. lia.
Qed.

Lemma scan_down stop b :
  (forall x, 0 <= x -> stop (2 ^ x) = false) -> wf_bucket b ->
  exists u, in_bucket b u /\ (forall x, in_bucket b x -> x <= u) /\
    scan_backward T stop (scan_fuel ty) (bits b) (HIGH_MASK ty) (last_value ty T b) = Ret (true, 2 ^ (u - start_value b), u).
Proof.
  intros Hs Hb. pose proof W_cases. destruct (wf_bucket_value b Hb) as (v & Hv).
  rewrite HIGH_MASK_eq, last_value_eq by done.
  destruct (scan_down_from b (start_value b + W - 1) is_zero is_zero_pow eq_refl Hb) as [(u & H1 & H2 & H3 & E)|(Hn & _)]; [lia| |].
  - exists u. split_and!; [done| |].
    + intros x Hx. apply H3; [done|]. destruct Hx. lia.
    + replace (start_value b + W - 1 - start_value b) with (W - 1) in E by lia. rewrite <-E.
      destruct Hv as [Hv1 Hv2]. apply (scan_backward_stop stop is_zero (bits b) (W - 1) _ _ (v - start_value b));
        [lia|done|done|exact is_zero_pow].
  - specialize (Hn v Hv). destruct Hv. lia.
Qed.

(** The loop counts down from any value. *)
Lemma to_T_range z : in_range (to_T T z).
Proof. unfold to_T, wrap_u, in_range. apply Z.mod_pos_bound. by destruct T. Qed.

Lemma scan_backward_shift stop fuel b m v w h m' v' :
  scan_backward T stop fuel b m v = Ret (h, m', v') -> in_range v -> in_range w ->
  scan_backward T stop fuel b m w = Ret (h, m', to_T T (w + (v' - v))).
Proof.
  revert m v w. induction fuel as [|fuel IH]; intros m v w; [done|]. cbn [scan_backward].
  assert (Hstep : forall w, to_T T (to_T T (w - 1) + (v' - to_T T (v - 1))) = to_T T (w + (v' - v))).
  { intros w'. unfold to_T, wrap_u. rewrite Zplus_mod_idemp_l.
    replace (w' - 1 + (v' - (v - 1) mod 2 ^ TB)) with (w' - 1 + v' - (v - 1) mod 2 ^ TB) by lia.
    rewrite Zminus_mod_idemp_r. f_equal. lia. }
  destruct (negb (Z.land b m =? 0)).
  - intros [= <- <- <-] Hv Hw. rewrite Z.sub_diag, Z.add_0_r. by rewrite to_T_small.
  - destruct (stop (Z.shiftr m 1)).
    + intros [= <- <- <-] Hv Hw. by rewrite <-Hstep, Z.sub_diag, Z.add_0_r, (to_T_small (to_T T (w - 1))) by apply to_T_range.
    + intros E Hv Hw. rewrite (IH _ _ (to_T T (w - 1)) E) by apply to_T_range. by rewrite Hstep.
Qed.

End bits.

(** ** A bitmap as a set *)

Definition in_list (ty : BitmapTypes) (l : list Bucket) (v : Z) : Prop := Exists (fun b => in_bucket ty b v) l.

Section bitmap.
Context (ty : BitmapTypes) (T : value_type) {B : BitmapTree} {BL : BitmapTreeLaws B}.

#[local] Abbreviation W := (BUNCH_BITS ty).
#[local] Abbreviation TB := (T_BITS T).

(** The bitmap holds the values [s]. *)
Definition models (m : bitmap) (s : gset Z) : Prop :=
  if singular m then in_range T (singular_value m) /\ t_holds (the_tree m) [] /\ s = {[singular_value m]}
  else exists l, t_holds (the_tree m) l /\ Forall (wf_bucket ty T) l /\ forall v, v ∈ s <-> in_list ty l v.

(** The accessor stands on the value [v]. *)
Definition on (m : bitmap) (a : Accessor) (v : Z) : Prop :=
  current_value a = v /\
  if singular m then v = singular_value m
  else exists l1 x l2, t_at (the_tree m) (treeAccessor a) l1 x l2 /\ in_bucket ty x v /\
    bit_mask a = 2 ^ (v - start_value x).

Lemma in_list_mid l1 x l2 v : in_list ty (l1 ++ x :: l2) v <-> in_list ty l1 v \/ in_bucket ty x v \/ in_list ty l2 v.
Proof. unfold in_list. rewrite Exists_app, Exists_cons. tauto. Qed.

Lemma in_list_below l k v :
  Forall (wf_bucket ty T) l -> k mod W = 0 -> Forall (fun y => start_value y < k) l -> in_list ty l v -> v < k.
Proof.
  intros Hw Hk Hl Hv. unfold in_list in Hv. rewrite list.Exists_exists in Hv. destruct Hv as (b & Hin & [Hb _]).
  rewrite list.Forall_forall in Hw, Hl. destruct (Hw b Hin) as (_ & _ & Hm & _). specialize (Hl b Hin). cbv beta in Hl.
  pose proof (Z.div_mod (start_value b) W). pose proof (Z.div_mod k W). pose proof (W_cases ty). nia.
Qed.

Lemma in_list_above l k v :
  Forall (wf_bucket ty T) l -> k mod W = 0 -> Forall (fun y => k < start_value y) l -> in_list ty l v -> k + W <= v.
Proof.
  intros Hw Hk Hl Hv. unfold in_list in Hv. rewrite list.Exists_exists in Hv. destruct Hv as (b & Hin & [Hb _]).
  rewrite list.Forall_forall in Hw, Hl. destruct (Hw b Hin) as (_ & _ & Hm & _). specialize (Hl b Hin). cbv beta in Hl.
  pose proof (Z.div_mod (start_value b) W). pose proof (Z.div_mod k W). pose proof (W_cases ty). nia.
Qed.

Lemma in_list_range l v : Forall (wf_bucket ty T) l -> in_list ty l v -> in_range T v.
Proof.
  intros Hw Hv. unfold in_list in Hv. rewrite list.Exists_exists in Hv. destruct Hv as (b & Hin & Hb).
  rewrite list.Forall_forall in Hw. by eapply in_bucket_range; [apply Hw|].
Qed.

(** What is known of the buckets around the one the tree accessor is on. *)
Record around (l1 : list Bucket) (x : Bucket) (l2 : list Bucket) : Prop := {
  ar_here : wf_bucket ty T x;
  ar_below : forall v, in_list ty l1 v -> v < start_value x;
  ar_above : forall v, in_list ty l2 v -> start_value x + W <= v
}.

Lemma around_of t l1 x l2 :
  t_holds t (l1 ++ x :: l2) -> Forall (wf_bucket ty T) (l1 ++ x :: l2) -> around l1 x l2.
Proof.
  intros Ht Hw. pose proof (t_sorted t _ Ht) as Ha. apply ascending_mid in Ha as [H1 H2].
  apply list.Forall_app in Hw as [Hw1 Hw]. apply list.Forall_cons in Hw as [Hx Hw2].
  assert (start_value x mod W = 0) by apply Hx. split; [done| |]; intros v Hv.
  - by apply (in_list_below l1).
  - by apply (in_list_above l2).
Qed.

Lemma test_list m l v :
  singular m = false -> t_holds (the_tree m) l -> Forall (wf_bucket ty T) l -> in_range T v ->
  exists b, test ty T v m = Ret b /\ (b = true <-> in_list ty l v).
Proof.
  intros Es Ht Hw Hv. unfold test. rewrite Es.
  destruct (t_locate_law (the_tree m) l locEqual (aligned ty T v) t_nowhere Ht) as (found & p & -> & Hf).
  cbn [obind]. destruct found.
  - destruct Hf as (l1 & x & l2 & -> & Hp & E). cbn in E. rewrite (t_current_law _ _ _ _ _ Hp). cbn [obind].
    destruct (around_of _ _ _ _ Ht Hw) as [Hwx Hb Hab].
    pose proof (bucket_values ty T x v Hwx Hv E) as Hbv.
    pose proof (proj2 (in_bucket_aligned ty T x v Hwx Hv) E) as Hr.
    eexists. split; [done|]. rewrite in_list_mid, negb_true_iff, <-Hbv. split; [auto|]. intros [H|[H|H]]; [|done|].
    + specialize (Hb v H). lia.
    + specialize (Hab v H). lia.
  - eexists. split; [done|]. split; [done|]. unfold in_list. rewrite list.Exists_exists. intros (b & Hin & Hb & _).
    unfold no_place in Hf. rewrite list.Forall_forall in Hf, Hw. exfalso. apply (Hf b Hin).
    by apply (in_bucket_aligned ty T b v (Hw b Hin)).
Qed.

Lemma test_ok m s v : models m s -> in_range T v -> test ty T v m = Ret (bool_decide (v ∈ s)).
Proof.
  unfold models. intros Hm Hv. destruct (singular m) eqn:Es.
  - destruct Hm as (_ & _ & ->). unfold test. rewrite Es. f_equal.
    destruct (Z.eqb_spec v (singular_value m)); symmetry; [apply bool_decide_eq_true|apply bool_decide_eq_false]; set_solver.
  - destruct Hm as (l & Ht & Hw & Hl). destruct (test_list m l v Es Ht Hw Hv) as (b & -> & Hb). f_equal.
    destruct b; symmetry; [apply bool_decide_eq_true|apply bool_decide_eq_false]; rewrite Hl; [by apply Hb|].
    intros H. by apply Hb in H.
Qed.

(** *** The accessor *)

Lemma bucket_up m p l1 x l2 :
  t_at (the_tree m) p l1 x l2 -> wf_bucket ty T x ->
  exists u, scan_bucket_up ty T p m = Ret (true, mk_accessor p (2 ^ (u - start_value x)) u) /\
    in_bucket ty x u /\ forall y, in_bucket ty x y -> u <= y.
Proof.
  intros Ha Hx. unfold scan_bucket_up. rewrite (t_current_law _ _ _ _ _ Ha). cbn [obind].
  destruct (scan_up ty T x Hx) as (u & H1 & H2 & ->). cbn [obind]. eauto.
Qed.

Lemma bucket_down stop m p l1 x l2 :
  (forall i, 0 <= i -> stop (2 ^ i) = false) -> t_at (the_tree m) p l1 x l2 -> wf_bucket ty T x ->
  exists u, scan_bucket_down ty T stop p m = Ret (true, mk_accessor p (2 ^ (u - start_value x)) u) /\
    in_bucket ty x u /\ forall y, in_bucket ty x y -> y <= u.
Proof.
  intros Hs Ha Hx. unfold scan_bucket_down. rewrite (t_current_law _ _ _ _ _ Ha). cbn [obind].
  destruct (scan_down ty T stop x Hs Hx) as (u & H1 & H2 & ->). cbn [obind]. eauto.
Qed.

Lemma on_bucket m p l1 x l2 u :
  singular m = false -> t_at (the_tree m) p l1 x l2 -> in_bucket ty x u ->
  on m (mk_accessor p (2 ^ (u - start_value x)) u) u.
Proof. intros Hs Ha Hu. split; [done|]. rewrite Hs. exists l1, x, l2. by split_and!. Qed.

Lemma getFirst_ok a m s :
  models m s ->
  exists b a', getFirst ty T a (Some m) = Ret (b, a') /\
    if b then exists v, on m a' v /\ v ∈ s /\ (forall u, u ∈ s -> v <= u) else s = ∅.
Proof.
  unfold models, getFirst. intros Hm. destruct (singular m) eqn:Es.
  - destruct Hm as (_ & _ & ->). do 2 eexists. split; [done|]. exists (singular_value m). split_and!; [|set_solver..].
    split; [done|]. by rewrite Es.
  - destruct Hm as (l & Ht & Hw & Hl).
    destruct (t_getFirst_law (the_tree m) l (treeAccessor a) Ht) as (p & -> & Hp). cbn [obind]. destruct l as [|x l2]; cbn.
    + do 2 eexists. split; [done|]. apply set_eq. intros v. rewrite Hl. unfold in_list. rewrite Exists_nil. set_solver.
    + destruct (around_of _ [] x l2 Ht Hw) as [Hx _ Hab].
      destruct (bucket_up m p [] x l2 Hp Hx) as (u & -> & Hu & Hmin). do 2 eexists. split; [done|].
      exists u. split_and!; [by eapply on_bucket|rewrite Hl; apply Exists_cons; by left|].
      intros y Hy. apply Hl in Hy. unfold in_list in Hy. apply Exists_cons in Hy as [Hy|Hy]; [auto|].
      specialize (Hab y Hy). destruct Hu as [Hu _]. lia.
Qed.

Lemma getLast_ok a m s :
  models m s ->
  exists b a', getLast ty T a (Some m) = Ret (b, a') /\
    if b then exists v, on m a' v /\ v ∈ s /\ (forall u, u ∈ s -> u <= v) else s = ∅.
Proof.
  unfold models, getLast. intros Hm. destruct (singular m) eqn:Es.
  - destruct Hm as (_ & _ & ->). do 2 eexists. split; [done|]. exists (singular_value m). split_and!; [|set_solver..].
    split; [done|]. by rewrite Es.
  - destruct Hm as (l & Ht & Hw & Hl).
    destruct (t_getLast_law (the_tree m) l (treeAccessor a) Ht) as (p & -> & Hp). cbn [obind].
    destruct l as [|x l1 _] using rev_ind; cbn.
    + do 2 eexists. split; [done|]. apply set_eq. intros v. rewrite Hl. unfold in_list. rewrite Exists_nil. set_solver.
    + rewrite length_app, Nat.add_comm. cbn. specialize (Hp l1 x eq_refl).
      destruct (around_of _ l1 x [] Ht Hw) as [Hx Hb _].
      destruct (bucket_down is_zero m p l1 x [] is_zero_pow Hp Hx) as (u & -> & Hu & Hmax). cbn. do 2 eexists. split; [done|].
      exists u. split_and!; [by eapply on_bucket|rewrite Hl; apply in_list_mid; auto|].
      intros y Hy. apply Hl, in_list_mid in Hy as [Hy|[Hy|Hy]]; [|auto|by apply Exists_nil in Hy].
      specialize (Hb y Hy). destruct Hu as [Hu _]. lia.
Qed.

(** The buckets around the accessor. *)
Lemma on_tree m a v s :
  singular m = false -> models m s -> on m a v ->
  exists l1 x l2, t_at (the_tree m) (treeAccessor a) l1 x l2 /\ in_bucket ty x v /\
    bit_mask a = 2 ^ (v - start_value x) /\ current_value a = v /\
    Forall (wf_bucket ty T) (l1 ++ x :: l2) /\ around l1 x l2 /\
    (forall u, u ∈ s <-> in_list ty l1 u \/ in_bucket ty x u \/ in_list ty l2 u).
Proof.
  unfold models, on. intros -> (l & Ht & Hw & Hl) (Hc & l1 & x & l2 & Ha & Hx & Hm).
  pose proof (t_at_holds _ _ _ _ _ Ha) as Ht'. rewrite (t_holds_unique _ _ _ Ht Ht') in *.
  exists l1, x, l2. split_and!; try done; [by eapply around_of|]. intros u. by rewrite Hl, in_list_mid.
Qed.

(** The rest of the bucket, after and before a value. *)
Lemma rest_up x v :
  wf_bucket ty T x -> in_bucket ty x v ->
  (exists u, v < u /\ in_bucket ty x u /\ (forall y, in_bucket ty x y -> v < y -> u <= y) /\
    while_forward ty T (bits x) (to_BUNCH ty (Z.shiftl (2 ^ (v - start_value x)) 1)) (to_T T (v + 1))
    = Ret (true, 2 ^ (u - start_value x), u)) \/
  ((forall y, in_bucket ty x y -> y <= v) /\ exists mk mv,
    while_forward ty T (bits x) (to_BUNCH ty (Z.shiftl (2 ^ (v - start_value x)) 1)) (to_T T (v + 1))
    = Ret (false, mk, mv)).
Proof.
  intros Hx [Hr _]. pose proof (W_cases ty). pose proof Hx as (Hx1 & Hx2 & _ & _).
  rewrite Z.shiftl_mul_pow2, <-Z.pow_add_r by lia. unfold while_forward.
  destruct (decide (v - start_value x + 1 < W)) as [Hlt|Hge].
  - assert (to_BUNCH ty (2 ^ (v - start_value x + 1)) = 2 ^ (v - start_value x + 1)) as ->.
    { apply wrap_u_small. split; [lia|]. apply Z.pow_lt_mono_r; lia. }
    destruct (Z.eqb_spec (2 ^ (v - start_value x + 1)) 0) as [E|_]; [lia|].
    rewrite to_T_small by (unfold in_range; lia).
    replace (v - start_value x + 1) with (v + 1 - start_value x) by lia.
    destruct (scan_up_from ty T x (v + 1) Hx) as [(u & H1 & H2 & H3 & E)|(Hn & mk & mv & E)]; [lia|left|right].
    + exists u. split_and!; [lia|done| |done]. intros y Hy Hvy. apply H3; [done|lia].
    + split; [|by eauto]. intros y Hy. specialize (Hn y Hy). lia.
  - assert (to_BUNCH ty (2 ^ (v - start_value x + 1)) = 0) as ->.
    { replace (v - start_value x + 1) with W by lia. unfold to_BUNCH, wrap_u. apply Z.mod_same. lia. }
    right. split; [|by eauto]. intros y [Hy _]. lia.
Qed.

Lemma rest_down x v :
  wf_bucket ty T x -> in_bucket ty x v ->
  (exists u, u < v /\ in_bucket ty x u /\ (forall y, in_bucket ty x y -> y < v -> y <= u) /\
    while_backward ty T (bits x) (Z.shiftr (2 ^ (v - start_value x)) 1) (to_T T (v - 1))
    = Ret (true, 2 ^ (u - start_value x), u)) \/
  ((forall y, in_bucket ty x y -> v <= y) /\ exists mk mv,
    while_backward ty T (bits x) (Z.shiftr (2 ^ (v - start_value x)) 1) (to_T T (v - 1)) = Ret (false, mk, mv)).
Proof.
  intros Hx [Hr _]. pose proof (W_cases ty). pose proof Hx as (Hx1 & Hx2 & _ & _).
  rewrite Z.shiftr_div_pow2 by lia. unfold while_backward.
  destruct (decide (0 < v - start_value x)) as [Hlt|Hge].
  - rewrite <-Z.pow_sub_r by lia. destruct (Z.eqb_spec (2 ^ (v - start_value x - 1)) 0) as [E|_]; [lia|].
    rewrite to_T_small by (unfold in_range; lia).
    replace (v - start_value x - 1) with (v - 1 - start_value x) by lia.
    destruct (scan_down_from ty T x (v - 1) is_zero is_zero_pow eq_refl Hx) as [(u & H1 & H2 & H3 & E)|(Hn & mk & mv & E)];
      [lia|left|right].
    + exists u. split_and!; [lia|done| |done]. intros y Hy Hvy. apply H3; [done|lia].
    + split; [|by eauto]. intros y Hy. specialize (Hn y Hy). lia.
  - replace (v - start_value x) with 0 by lia. right. split; [|by eauto]. intros y [Hy _]. lia.
Qed.

Lemma getNext_ok a m s v :
  models m s -> on m a v ->
  exists b a', getNext ty T a m = Ret (b, a') /\
    if b then exists v', on m a' v' /\ v' ∈ s /\ v < v' /\ (forall u, u ∈ s -> v < u -> v' <= u)
    else on m a' v /\ (forall u, u ∈ s -> u <= v).
Proof.
  intros Hm Ho. unfold getNext. destruct (singular m) eqn:Es.
  { do 2 eexists. split; [done|]. split; [done|]. unfold models, on in *. rewrite Es in *.
    destruct Hm as (_ & _ & ->), Ho as [_ ->]. set_solver. }
  destruct (on_tree m a v s Es Hm Ho) as (l1 & x & l2 & Ha & Hv & Hmask & Hcur & Hw & [Hx Hb Hab] & Hs).
  rewrite (t_current_law _ _ _ _ _ Ha), Hmask, Hcur. cbn [obind].
  pose proof (W_cases ty). pose proof Hv as [Hr _].
  destruct (rest_up x v Hx Hv) as [(u & H1 & H2 & H3 & ->)|(Hn & mk & mv & ->)]; cbn [obind].
  { do 2 eexists. split; [done|]. exists u. split_and!; [by eapply on_bucket|rewrite Hs; auto|done|].
    intros y Hy Hvy. apply Hs in Hy as [Hy|[Hy|Hy]]; [|auto|].
    - specialize (Hb y Hy). lia.
    - specialize (Hab y Hy). destruct H2 as [H2 _]. lia. }
  destruct (t_getNext_law _ _ _ _ _ Ha) as (p & -> & Hp). cbn [obind]. destruct l2 as [|z l2]; cbn [length Nat.eqb negb].
  - rewrite Hp. do 2 eexists. split; [done|]. split.
    + split; [done|]. rewrite Es. exists l1, x, []. by split_and!.
    + intros u Hu. apply Hs in Hu as [Hu|[Hu|Hu]]; [|auto|by apply Exists_nil in Hu]. specialize (Hb u Hu). lia.
  - replace (l1 ++ x :: z :: l2) with ((l1 ++ [x]) ++ z :: l2) in Hw by by rewrite <-app_assoc.
    destruct (around_of _ _ _ _ (t_at_holds _ _ _ _ _ Hp) Hw) as [Hz _ Habz].
    destruct (bucket_up m p _ z l2 Hp Hz) as (u & -> & Hu & Hmin). cbn [obind]. do 2 eexists. split; [done|].
    assert (Hxu : v < u).
    { assert (start_value x + W <= u); [|lia]. apply Hab. by left. }
    exists u. split_and!; [by eapply on_bucket| |done|].
    + rewrite Hs. right. right. by left.
    + intros y' Hy Hvy. apply Hs in Hy as [Hy|[Hy|Hy]].
      * specialize (Hb y' Hy). lia.
      * specialize (Hn y' Hy). lia.
      * apply Exists_cons in Hy as [Hy|Hy]; [auto|]. specialize (Habz y' Hy). destruct Hu as [Hu _]. lia.
Qed.

Lemma getPrev_ok a m s v :
  models m s -> on m a v ->
  exists b a', getPrev ty T a m = Ret (b, a') /\
    if b then exists v', on m a' v' /\ v' ∈ s /\ v' < v /\ (forall u, u ∈ s -> u < v -> u <= v')
    else (forall u, u ∈ s -> v <= u).
Proof.
  intros Hm Ho. unfold getPrev. destruct (singular m) eqn:Es.
  { do 2 eexists. split; [done|]. unfold models, on in *. rewrite Es in *.
    destruct Hm as (_ & _ & ->), Ho as [_ ->]. set_solver. }
  destruct (on_tree m a v s Es Hm Ho) as (l1 & x & l2 & Ha & Hv & Hmask & Hcur & Hw & [Hx Hb Hab] & Hs).
  rewrite (t_current_law _ _ _ _ _ Ha), Hmask, Hcur. cbn [obind].
  pose proof (W_cases ty). pose proof Hv as [Hr _].
  destruct (rest_down x v Hx Hv) as [(u & H1 & H2 & H3 & ->)|(Hn & mk & mv & ->)]; cbn [obind].
  { do 2 eexists. split; [done|]. exists u. split_and!; [by eapply on_bucket|rewrite Hs; auto|done|].
    intros y Hy Hvy. apply Hs in Hy as [Hy|[Hy|Hy]]; [|auto|].
    - specialize (Hb y Hy). destruct H2 as [H2 _]. lia.
    - specialize (Hab y Hy). lia. }
  destruct (t_getPrev_law _ _ _ _ _ Ha) as (p & -> & Hp). cbn [obind].
  destruct l1 as [|z l1 _] using rev_ind; cbn [length Nat.eqb negb].
  - do 2 eexists. split; [done|]. intros u Hu.
    apply Hs in Hu as [Hu|[Hu|Hu]]; [by apply Exists_nil in Hu|auto|]. specialize (Hab u Hu). lia.
  - specialize (Hp l1 z eq_refl). rewrite length_app, Nat.add_comm. cbn [length Nat.add Nat.eqb negb].
    rewrite <-app_assoc in Hw. cbn [app] in Hw.
    destruct (around_of _ _ _ _ (t_at_holds _ _ _ _ _ Hp) Hw) as [Hz Hbz _].
    destruct (bucket_down (fun _ => 2 ^ (v - start_value x) =? 0) m p l1 z (x :: l2)) as (u & -> & Hu & Hmax).
    { intros i _. apply Z.eqb_neq. lia. }
    { done. }
    { done. }
    cbn [obind must_find fst]. do 2 eexists. split; [done|].
    assert (Hxu : u < start_value x) by (apply Hb, in_list_mid; auto).
    exists u. split_and!; [by eapply on_bucket| |lia|].
    + rewrite Hs. left. apply in_list_mid. auto.
    + intros y' Hy Hvy. apply Hs in Hy as [Hy|[Hy|Hy]].
      * apply in_list_mid in Hy as [Hy|[Hy|Hy]]; [|auto|by apply Exists_nil in Hy].
        specialize (Hbz y' Hy). destruct Hu as [Hu _]. lia.
      * specialize (Hn y' Hy). lia.
      * specialize (Hab y' Hy). lia.
Qed.

(** *** [locate] *)

(** The searches of a place for a key that lead upwards. *)
Lemma locate_up_tree a m s key :
  singular m = false -> models m s -> in_range T key ->
  exists b a', locate_tree ty T locGreatEqual key a m = Ret (b, a') /\
    if b then exists v, on m a' v /\ v ∈ s /\ key <= v /\ (forall u, u ∈ s -> key <= u -> v <= u)
    else forall u, u ∈ s -> u < key.
Proof.
  intros Es Hm Hk. unfold models in Hm. rewrite Es in Hm. destruct Hm as (l & Ht & Hw & Hl). unfold locate_tree.
  pose proof (mod_range ty key) as Hkm. pose proof (aligned_eq ty T key Hk) as Eal.
  assert (Hal : aligned ty T key mod W = 0).
  { rewrite Eal. pose proof (Z.div_mod key W). pose proof (W_cases ty).
    replace (key - key mod W) with (key / W * W) by lia. apply Z.mod_mul. lia. }
  destruct (t_locate_law (the_tree m) l locGreatEqual (aligned ty T key) (treeAccessor a) Ht) as (found & p & -> & Hf).
  cbn [obind]. destruct found; cbn [negb].
  2:{ do 2 eexists. split; [done|]. intros u Hu. apply Hl in Hu.
      pose proof (in_list_below l _ u Hw Hal Hf Hu). lia. }
  destruct Hf as (l1 & x & l2 & -> & Hp & Hl1 & Hx). rewrite (t_current_law _ _ _ _ _ Hp). cbn [obind].
  destruct (around_of _ _ _ _ Ht Hw) as [Hwx Hb Hab].
  assert (Hlow : forall u, in_list ty l1 u -> u < key).
  { intros u Hu. apply list.Forall_app in Hw as [Hw1 _]. pose proof (in_list_below l1 _ u Hw1 Hal Hl1 Hu). lia. }
  destruct (Z.eqb_spec (start_value x) (aligned ty T key)) as [E|E].
  - rewrite mask_of_eq by done. replace (key mod W) with (key - start_value x) by lia.
    destruct (scan_up_from ty T x key Hwx) as [(u & H1 & H2 & H3 & ->)|(Hn & mk & mv & ->)]; [lia| |]; cbn [obind].
    { do 2 eexists. split; [done|]. exists u. split_and!; [by eapply on_bucket|rewrite Hl; apply in_list_mid; auto|done|].
      intros y Hy Hky. apply Hl, in_list_mid in Hy as [Hy|[Hy|Hy]]; [|auto|].
      - specialize (Hlow y Hy). lia.
      - specialize (Hab y Hy). destruct H2 as [H2 _]. lia. }
    destruct (t_getNext_law _ _ _ _ _ Hp) as (p' & -> & Hp'). cbn [obind].
    destruct l2 as [|z l2]; cbn [length Nat.eqb negb].
    + do 2 eexists. split; [done|]. intros u Hu.
      apply Hl, in_list_mid in Hu as [Hu|[Hu|Hu]]; [auto|auto|by apply Exists_nil in Hu].
    + replace (l1 ++ x :: z :: l2) with ((l1 ++ [x]) ++ z :: l2) in Hw by by rewrite <-app_assoc.
      destruct (around_of _ _ _ _ (t_at_holds _ _ _ _ _ Hp') Hw) as [Hz _ Habz].
      destruct (bucket_up m p' _ z l2 Hp' Hz) as (u & -> & Hu & Hmin). cbn [obind must_find fst].
      assert (start_value x + W <= u) by (apply Hab; by left).
      do 2 eexists. split; [done|]. exists u. split_and!; [by eapply on_bucket| |lia|].
      * rewrite Hl. apply in_list_mid. right. right. by left.
      * intros y Hy Hky. apply Hl, in_list_mid in Hy as [Hy|[Hy|Hy]].
        -- specialize (Hlow y Hy). lia.
        -- specialize (Hn y Hy). lia.
        -- apply Exists_cons in Hy as [Hy|Hy]; [auto|]. specialize (Habz y Hy). destruct Hu as [Hu _]. lia.
  - destruct (scan_up ty T x Hwx) as (u & Hu & Hmin & ->). cbn [obind].
    assert (Hxk : key < start_value x).
    { destruct Hwx as (_ & _ & Hm & _). pose proof (Z.div_mod (start_value x) W).
      pose proof (Z.div_mod (aligned ty T key) W). pose proof (W_cases ty). nia. }
    do 2 eexists. split; [done|]. exists u. pose proof Hu as [Hu1 _].
    split_and!; [by eapply on_bucket|rewrite Hl; apply in_list_mid; auto|lia|].
    intros y Hy Hky. apply Hl, in_list_mid in Hy as [Hy|[Hy|Hy]]; [|auto|].
    + specialize (Hlow y Hy). lia.
    + specialize (Hab y Hy). lia.
Qed.

Lemma locate_equal_tree a m s key :
  singular m = false -> models m s -> in_range T key ->
  exists a', locate_tree ty T locEqual key a m = Ret (bool_decide (key ∈ s), a') /\ (key ∈ s -> on m a' key).
Proof.
  intros Es Hm Hk. unfold models in Hm. rewrite Es in Hm. destruct Hm as (l & Ht & Hw & Hl). unfold locate_tree.
  destruct (t_locate_law (the_tree m) l locEqual (aligned ty T key) (treeAccessor a) Ht) as (found & p & -> & Hf).
  cbn [obind]. destruct found; cbn [negb].
  - destruct Hf as (l1 & x & l2 & -> & Hp & E). cbn in E. rewrite (t_current_law _ _ _ _ _ Hp). cbn [obind].
    destruct (around_of _ _ _ _ Ht Hw) as [Hwx Hb Hab].
    pose proof (bucket_values ty T x key Hwx Hk E) as Hbv.
    pose proof (proj2 (in_bucket_aligned ty T x key Hwx Hk) E) as Hr.
    assert (Hin : key ∈ s <-> in_bucket ty x key).
    { rewrite Hl, in_list_mid. split; [|auto]. intros [H|[H|H]]; [|done|].
      - specialize (Hb key H). lia.
      - specialize (Hab key H). lia. }
    eexists. split.
    + f_equal. f_equal. destruct (Z.land (bits x) _ =? 0); symmetry; cbn;
        [apply bool_decide_eq_false_2|apply bool_decide_eq_true_2]; rewrite Hin, Hbv; done.
    + intros H. apply Hin in H. rewrite mask_of_eq by done. pose proof (aligned_eq ty T key Hk).
      replace (key mod W) with (key - start_value x) by lia. by eapply on_bucket.
  - assert (Hn : key ∉ s).
    { rewrite Hl. unfold in_list. rewrite list.Exists_exists. intros (b & Hin & Hb & _). unfold no_place in Hf.
      rewrite list.Forall_forall in Hf, Hw. apply (Hf b Hin). by apply (in_bucket_aligned ty T b key (Hw b Hin)). }
    rewrite bool_decide_eq_false_2 by done. eexists. by split.
Qed.

(** Some value of the set is in the bucket of the key. *)
Definition bucket_present (s : gset Z) (key : Z) : Prop := set_Exists (fun u => aligned ty T u = aligned ty T key) s.

#[global] Instance bucket_present_dec s key : Decision (bucket_present s key).
Proof. unfold bucket_present. apply _. Defined.

Lemma aligned_mult key : in_range T key -> aligned ty T key mod W = 0.
Proof.
  intros Hk. rewrite aligned_eq by done. pose proof (Z.div_mod key W). pose proof (W_cases ty).
  replace (key - key mod W) with (key / W * W) by lia. apply Z.mod_mul. lia.
Qed.

Lemma bucket_of l b v : Forall (wf_bucket ty T) l -> b ∈ l -> in_bucket ty b v -> aligned ty T v = start_value b.
Proof.
  intros Hw Hb Hv. rewrite list.Forall_forall in Hw. specialize (Hw b Hb).
  symmetry. apply in_bucket_aligned; [done|by eapply in_bucket_range|apply Hv].
Qed.

(** The searches that lead downwards: the bucket and the bit are right, the
    value only where the bucket of the key is there. *)
Lemma locate_down_tree a m s key :
  singular m = false -> models m s -> in_range T key ->
  exists b a', locate_tree ty T locLessEqual key a m = Ret (b, a') /\
    if b then exists v, v ∈ s /\ v <= key /\ (forall u, u ∈ s -> u <= key -> u <= v) /\
      on m (mk_accessor (treeAccessor a') (bit_mask a') v) v /\
      current_value a' = (if decide (bucket_present s key) then v else to_T T (v - (W - 1)))
    else forall u, u ∈ s -> key < u.
Proof.
  intros Es Hm Hk. unfold models in Hm. rewrite Es in Hm. destruct Hm as (l & Ht & Hw & Hl). unfold locate_tree.
  pose proof (mod_range ty key) as Hkm. pose proof (aligned_eq ty T key Hk) as Eal. pose proof (aligned_mult key Hk) as Hal.
  pose proof (W_cases ty) as HW.
  destruct (t_locate_law (the_tree m) l locLessEqual (aligned ty T key) (treeAccessor a) Ht) as (found & p & -> & Hf).
  cbn [obind]. destruct found; cbn [negb].
  2:{ do 2 eexists. split; [done|]. intros u Hu. apply Hl in Hu.
      pose proof (in_list_above l _ u Hw Hal Hf Hu). lia. }
  destruct Hf as (l1 & x & l2 & -> & Hp & Hx & Hl2). rewrite (t_current_law _ _ _ _ _ Hp). cbn [obind].
  destruct (around_of _ _ _ _ Ht Hw) as [Hwx Hb Hab].
  assert (Hhigh : forall u, in_list ty l2 u -> key < u).
  { intros u Hu. apply list.Forall_app in Hw as [_ Hw]. apply list.Forall_cons in Hw as [_ Hw2].
    pose proof (in_list_above l2 _ u Hw2 Hal Hl2 Hu). lia. }
  destruct (Z.eqb_spec (start_value x) (aligned ty T key)) as [E|E].
  - assert (Hpres : bucket_present s key).
    { destruct (wf_bucket_value ty T x Hwx) as (y & Hy). exists y. split; [rewrite Hl; apply in_list_mid; auto|].
      rewrite <-E. apply (bucket_of _ x y Hw); [apply elem_of_app; right; left|done]. }
    rewrite mask_of_eq by done. replace (key mod W) with (key - start_value x) by lia.
    destruct (scan_down_from ty T x key is_zero is_zero_pow eq_refl Hwx)
      as [(u & H1 & H2 & H3 & ->)|(Hn & mk & mv & ->)]; [lia| |]; cbn [obind].
    { do 2 eexists. split; [done|]. exists u. rewrite decide_True by done.
      split_and!; [rewrite Hl; apply in_list_mid; auto|done| |by eapply on_bucket|done].
      intros y Hy Hky. apply Hl, in_list_mid in Hy as [Hy|[Hy|Hy]]; [|auto|].
      - specialize (Hb y Hy). destruct H2 as [H2 _]. lia.
      - specialize (Hhigh y Hy). lia. }
    destruct (t_getPrev_law _ _ _ _ _ Hp) as (p' & -> & Hp'). cbn [obind].
    destruct l1 as [|z l1 _] using rev_ind; cbn [length Nat.eqb negb].
    + do 2 eexists. split; [done|]. intros u Hu.
      apply Hl, in_list_mid in Hu as [Hu|[Hu|Hu]]; [by apply Exists_nil in Hu|auto|auto].
    + specialize (Hp' l1 z eq_refl). rewrite length_app, Nat.add_comm. cbn [length Nat.add Nat.eqb negb].
      assert (Hw' := Hw). rewrite <-app_assoc in Hw'. cbn [app] in Hw'.
      destruct (around_of _ _ _ _ (t_at_holds _ _ _ _ _ Hp') Hw') as [Hz Hbz _].
      destruct (bucket_down is_zero m p' l1 z (x :: l2) is_zero_pow Hp' Hz) as (u & -> & Hu & Hmax). cbn [obind must_find fst].
      assert (u < start_value x) by (apply Hb, in_list_mid; auto).
      do 2 eexists. split; [done|]. exists u. rewrite decide_True by done.
      split_and!; [|lia| |by eapply on_bucket|done].
      * rewrite Hl. apply in_list_mid. left. apply in_list_mid. auto.
      * intros y Hy Hky. apply Hl, in_list_mid in Hy as [Hy|[Hy|Hy]].
        -- apply in_list_mid in Hy as [Hy|[Hy|Hy]]; [|auto|by apply Exists_nil in Hy].
           specialize (Hbz y Hy). destruct Hu as [Hu _]. lia.
        -- specialize (Hn y Hy). lia.
        -- specialize (Hhigh y Hy). lia.
  - assert (Hnot : ~ bucket_present s key).
    { intros (y & Hy & Ey). apply Hl in Hy. unfold in_list in Hy. rewrite list.Exists_exists in Hy.
      destruct Hy as (b & Hin & Hy). pose proof (bucket_of _ b y Hw Hin Hy) as Eb. rewrite Ey in Eb.
      pose proof (t_sorted _ _ Ht) as Ha. apply ascending_mid in Ha as [Ha _].
      rewrite list.Forall_forall in Ha, Hl2. apply elem_of_app in Hin as [Hin|Hin].
      - specialize (Ha b Hin). cbv beta in Ha. lia.
      - apply elem_of_cons in Hin as [->|Hin]; [congruence|]. specialize (Hl2 b Hin). cbv beta in Hl2. lia. }
    destruct (scan_down ty T is_zero x is_zero_pow Hwx) as (u & Hu & Hmax & Escan).
    pose proof Hwx as (Hx1 & Hx2 & Hxm & _).
    assert (Hxr : in_range T (start_value x)) by (unfold in_range; lia).
    rewrite last_value_eq in Escan by done.
    apply (scan_backward_shift T is_zero _ _ _ _ (start_value x)) in Escan as ->; [|unfold in_range; lia|done]. cbn [obind].
    pose proof Hu as [Hu1 _].
    assert (Hxk : start_value x + W <= aligned ty T key).
    { pose proof (Z.div_mod (start_value x) W). pose proof (Z.div_mod (aligned ty T key) W). nia. }
    do 2 eexists. split; [done|]. exists u. rewrite decide_False by done. cbn [treeAccessor bit_mask current_value].
    split_and!; [rewrite Hl; apply in_list_mid; auto|lia| |by eapply on_bucket|f_equal; lia].
    intros y Hy Hky. apply Hl, in_list_mid in Hy as [Hy|[Hy|Hy]]; [|auto|].
    + specialize (Hb y Hy). lia.
    + specialize (Hhigh y Hy). lia.
Qed.

Lemma locate_one lt key a m s :
  singular m = true -> models m s ->
  exists a', locate ty T lt key a (Some m) = Ret (locate_singular lt key (singular_value m), a') /\
    on m a' (singular_value m) /\ s = {[singular_value m]}.
Proof.
  intros Es Hm. unfold models in Hm. rewrite Es in Hm. destruct Hm as (_ & _ & ->). unfold locate. rewrite Es.
  eexists. split_and!; [done| |done]. split; [done|]. by rewrite Es.
Qed.

Lemma locate_up_ok lt key a m s :
  models m s -> in_range T key -> lt = locEqual \/ lt = locGreatEqual \/ lt = locGreat ->
  exists b a', locate ty T lt key a (Some m) = Ret (b, a') /\
    if b then exists v, on m a' v /\ v ∈ s /\ locate_singular lt key v = true /\
        (forall u, u ∈ s -> locate_singular lt key u = true -> v <= u)
    else forall u, u ∈ s -> locate_singular lt key u = false.
Proof.
  intros Hm Hk Hlt. destruct (singular m) eqn:Es.
  { destruct (locate_one lt key a m s Es Hm) as (a' & E & Ho & ->). do 2 eexists. split; [exact E|].
    destruct (locate_singular lt key (singular_value m)) eqn:El.
    - exists (singular_value m). split_and!; [done|set_solver|done|]. intros u Hu _. set_solver by lia.
    - intros u Hu. apply elem_of_singleton in Hu as ->. done. }
  unfold locate. rewrite Es. destruct Hlt as [-> | [-> | ->] ]; cbn [locate_singular].
  - destruct (locate_equal_tree a m s key Es Hm Hk) as (a' & E & Ho). do 2 eexists. split; [exact E|].
    destruct (bool_decide_reflect (key ∈ s)) as [H|H].
    + exists key. split_and!; [auto|done|by apply Z.eqb_refl|]. intros u _ Hu. lia.
    + intros u Hu. apply Z.eqb_neq. by intros ->.
  - destruct (locate_up_tree a m s key Es Hm Hk) as (b & a' & E & H). do 2 eexists. split; [exact E|].
    destruct b.
    + destruct H as (v & H1 & H2 & H3 & H4). exists v. split_and!; [done..|lia|]. intros u Hu Hle. apply H4; [done|lia].
    + intros u Hu. specialize (H u Hu). lia.
  - destruct (Z.eqb_spec key (to_T T (Z.lnot 0))) as [E|E].
    + do 2 eexists. split; [done|]. intros u Hu. unfold models in Hm. rewrite Es in Hm.
      destruct Hm as (l & _ & Hw & Hl). apply Hl in Hu. pose proof (in_list_range l u Hw Hu) as Hr.
      assert (key = 2 ^ TB - 1) by (rewrite E; by destruct T). unfold in_range in Hr. lia.
    + assert (key <> 2 ^ TB - 1) by (intros ->; apply E; by destruct T).
      assert (Hk' : in_range T (key + 1)) by (unfold in_range in *; lia). rewrite to_T_small by done.
      destruct (locate_up_tree a m s (key + 1) Es Hm Hk') as (b & a' & E' & H'). do 2 eexists. split; [exact E'|].
      destruct b.
      * destruct H' as (v & H1 & H2 & H3 & H4). exists v. split_and!; [done..|lia|]. intros u Hu Hle. apply H4; [done|lia].
      * intros u Hu. specialize (H' u Hu). lia.
Qed.

Lemma locate_down_ok lt key a m s :
  singular m = false -> models m s -> in_range T key -> lt = locLessEqual \/ lt = locLess ->
  exists b a', locate ty T lt key a (Some m) = Ret (b, a') /\
    if b then exists v, v ∈ s /\ locate_singular lt key v = true /\
        (forall u, u ∈ s -> locate_singular lt key u = true -> u <= v) /\
        on m (mk_accessor (treeAccessor a') (bit_mask a') v) v /\
        current_value a' = (if decide (bucket_present s (match lt with locLess => key - 1 | _ => key end))
                            then v else to_T T (v - (W - 1)))
    else forall u, u ∈ s -> locate_singular lt key u = false.
Proof.
  intros Es Hm Hk Hlt. unfold locate. rewrite Es. destruct Hlt as [-> | ->]; cbn [locate_singular].
  - destruct (locate_down_tree a m s key Es Hm Hk) as (b & a' & E & H). do 2 eexists. split; [exact E|].
    destruct b.
    + destruct H as (v & H1 & H2 & H3 & H4). exists v. split_and!; [done|lia| |apply H4..]. intros u Hu Hle. apply H3; [done|lia].
    + intros u Hu. specialize (H u Hu). lia.
  - destruct (Z.eqb_spec key 0) as [->|E].
    + do 2 eexists. split; [done|]. intros u Hu. unfold models in Hm. rewrite Es in Hm.
      destruct Hm as (l & _ & Hw & Hl). apply Hl in Hu. pose proof (in_list_range l u Hw Hu) as Hr. unfold in_range in Hr. lia.
    + assert (Hk' : in_range T (key - 1)) by (unfold in_range in *; lia). rewrite to_T_small by done.
      destruct (locate_down_tree a m s (key - 1) Es Hm Hk') as (b & a' & E' & H'). do 2 eexists. split; [exact E'|].
      destruct b.
      * destruct H' as (v & H1 & H2 & H3 & H4). exists v. split_and!; [done|lia| |apply H4..]. intros u Hu Hle. apply H3; [done|lia].
      * intros u Hu. specialize (H' u Hu). lia.
Qed.

End bitmap.
End BitmapScan.
