(* ===== verification/BitmapOps.v ===== *)
(** * Changing and combining sparse bitmaps ([common/classes/sparse_bitmap.h])

    [set], [clear], and the union and intersection of two bitmaps, which walk
    through both trees at once and leave the result in one of them. *)

From S2P Require Import Prelude.
From S2P Require Import BePlusTree.
From S2P Require Import SparseBitmap.
From S2P Require Import BitmapScan.
From stdpp Require Import gmap sorting.
#[local] Open Scope Z_scope.

Module BitmapOps.
Import BePlusTree(LocType(..), ascending, ascending_app, ascending_cons, ascending_mid).
Import SparseBitmap BitmapScan.

Section bitmap.
Context (ty : BitmapTypes) (T : value_type) {B : BitmapTree} {BL : BitmapTreeLaws B}.

#[local] Abbreviation W := (BUNCH_BITS ty).
#[local] Abbreviation TB := (T_BITS T).

(** ** Buckets *)

Lemma W_pos : 0 < W.
Proof. destruct (W_cases ty); lia. Qed.

Lemma new_bucket v :
  in_range T v ->
  let b := mk_bucket (aligned ty T v) (mask_of ty T v (aligned ty T v)) in
  wf_bucket ty T b /\ forall u, in_bucket ty b u <-> u = v.
Proof.
  intros Hv b. pose proof (mod_range ty v) as Hm. pose proof W_pos. unfold in_range in Hv.
  assert (Ea : start_value b = v - v mod W) by (by apply aligned_eq).
  assert (Eb : bits b = 2 ^ (v mod W)) by (by apply mask_of_eq). split.
  - unfold wf_bucket. rewrite Eb. pose proof (aligned_mult ty T v Hv) as Hal.
    change (aligned ty T v) with (start_value b) in Hal. pose proof (W_divides ty T) as HT.
    assert (0 < 2 ^ (v mod W) < 2 ^ W) by (split; [lia|apply Z.pow_lt_mono_r; lia]).
    assert (v mod W <= v) by (apply Z.mod_le; lia).
    assert (start_value b + W <= 2 ^ TB).
    { assert (Hlt : start_value b < 2 ^ TB) by lia. revert Hal HT Hlt. generalize (start_value b), (2 ^ TB).
      intros p q Hp Hq Hpq. destruct (W_cases ty) as [E|E]; rewrite E in *; Z.to_euclidean_division_equations; lia. }
    split_and!; lia.
  - intros u. unfold in_bucket. rewrite Ea, Eb. split.
    + intros [Hu Hb]. destruct (decide (u - (v - v mod W) = v mod W)) as [E|E]; [lia|].
      rewrite Z.pow2_bits_false in Hb by lia. done.
    + intros ->. split; [lia|]. replace (v - (v - v mod W)) with (v mod W) by lia. apply Z.pow2_bits_true. lia.
Qed.

Lemma in_bucket_same b1 b2 v :
  wf_bucket ty T b1 -> wf_bucket ty T b2 -> in_bucket ty b1 v -> in_bucket ty b2 v -> start_value b1 = start_value b2.
Proof.
  intros (_ & _ & H1 & _) (_ & _ & H2 & _) [H3 _] [H4 _].
  destruct (W_cases ty) as [E|E]; rewrite E in *; Z.to_euclidean_division_equations; lia.
Qed.

Lemma low_bits b : 0 <= b < 2 ^ W <-> 0 <= b /\ forall i, W <= i -> Z.testbit b i = false.
Proof.
  pose proof W_pos. split.
  - intros H0. split; [lia|]. intros i Hi. destruct (decide (b = 0)) as [->|]; [apply Z.bits_0|].
    apply Z.bits_above_log2; [lia|]. assert (Z.log2 b < W); [|lia]. apply Z.log2_lt_pow2; lia.
  - intros [H0 Hb]. split; [done|]. destruct (decide (b < 2 ^ W)); [done|]. exfalso.
    assert (W <= Z.log2 b) by (apply Z.log2_le_pow2; lia). assert (0 < 2 ^ W) by lia.
    assert (Z.testbit b (Z.log2 b) = true) by (apply Z.bit_log2; lia). rewrite Hb in *; done.
Qed.

(** The bits of two buckets with the same start. *)
Lemma or_bucket x y :
  wf_bucket ty T x -> wf_bucket ty T y -> start_value x = start_value y ->
  let b := mk_bucket (start_value x) (Z.lor (bits x) (bits y)) in
  wf_bucket ty T b /\ forall u, in_bucket ty b u <-> in_bucket ty x u \/ in_bucket ty y u.
Proof.
  intros (H1 & H2 & H3 & H4) (_ & _ & _ & H5) E b. split.
  - unfold wf_bucket. cbn. split_and!; try done.
    + assert (0 <= Z.lor (bits x) (bits y)) by (apply Z.lor_nonneg; lia).
      assert (Z.lor (bits x) (bits y) <> 0); [|lia]. intros H0. apply Z.lor_eq_0_iff in H0. lia.
    + apply low_bits. split; [apply Z.lor_nonneg; lia|]. intros i Hi. rewrite Z.lor_spec.
      assert (Hx : 0 <= bits x < 2 ^ W) by lia. assert (Hy : 0 <= bits y < 2 ^ W) by lia.
      apply low_bits in Hx as [_ Hx], Hy as [_ Hy]. by rewrite Hx, Hy.
  - intros u. unfold in_bucket. cbn. rewrite Z.lor_spec, orb_true_iff, <-E. tauto.
Qed.

Lemma and_bucket x y :
  wf_bucket ty T x -> wf_bucket ty T y -> start_value x = start_value y ->
  let b := mk_bucket (start_value x) (Z.land (bits x) (bits y)) in
  (bits b <> 0 -> wf_bucket ty T b) /\ forall u, in_bucket ty b u <-> in_bucket ty x u /\ in_bucket ty y u.
Proof.
  intros (H1 & H2 & H3 & H4) (_ & _ & _ & H5) E b. split.
  - intros Hne. unfold wf_bucket. cbn in *. assert (0 <= Z.land (bits x) (bits y)) by (apply Z.land_nonneg; lia).
    split_and!; try done; [lia|]. apply low_bits. split; [done|]. intros i Hi. rewrite Z.land_spec.
    assert (Hx : 0 <= bits x < 2 ^ W) by lia. apply low_bits in Hx as [_ Hx]. by rewrite Hx.
  - intros u. unfold in_bucket. cbn. rewrite Z.land_spec, andb_true_iff, <-E. tauto.
Qed.

(** A bit taken out. *)
Lemma clear_bucket x v :
  wf_bucket ty T x -> in_range T v -> start_value x = aligned ty T v ->
  let b := mk_bucket (start_value x) (Z.land (bits x) (to_BUNCH ty (Z.lnot (mask_of ty T v (aligned ty T v))))) in
  (bits b <> 0 -> wf_bucket ty T b) /\ forall u, in_bucket ty b u <-> in_bucket ty x u /\ u <> v.
Proof.
  intros (H1 & H2 & H3 & H4) Hv E. rewrite mask_of_eq by done. intros b.
  pose proof (aligned_eq ty T v Hv) as Ea. pose proof (mod_range ty v) as Hm. split.
  - intros Hne. unfold wf_bucket. cbn in *. set (r := Z.land _ _) in *.
    assert (0 <= r) by (apply Z.land_nonneg; lia).
    split_and!; try done; [lia|]. apply low_bits. split; [done|]. intros i Hi. unfold r. rewrite Z.land_spec.
    assert (Hx : 0 <= bits x < 2 ^ W) by lia. apply low_bits in Hx as [_ Hx]. by rewrite Hx.
  - intros u. unfold in_bucket. cbn. rewrite Z.land_spec, andb_true_iff.
    assert (Hbit : forall i, 0 <= i < W -> Z.testbit (to_BUNCH ty (Z.lnot (2 ^ (v mod W)))) i = negb (i =? v mod W)).
    { intros i Hi. unfold to_BUNCH, wrap_u. rewrite Z.mod_pow2_bits_low, Z.lnot_spec by lia. f_equal.
      destruct (Z.eqb_spec i (v mod W)) as [->|]; [apply Z.pow2_bits_true; lia|apply Z.pow2_bits_false; lia]. }
    split.
    + intros [Hu [Hx Hn]]. rewrite Hbit in Hn by done. split; [done|]. intros ->.
      apply negb_true_iff, Z.eqb_neq in Hn. lia.
    + intros [[Hu Hx] Hne]. rewrite Hbit by done. split; [done|split; [done|]]. apply negb_true_iff, Z.eqb_neq. lia.
Qed.

(** ** [set] and [clear] *)

Lemma mk_same (m : bitmap) : mk_bitmap (singular m) (singular_value m) (the_tree m) (tree_accessor m) = m.
Proof. by destruct m. Qed.

(** The bitmap is a tree with the buckets [l]. *)
Definition tree_is (m : bitmap) (l : list Bucket) : Prop :=
  singular m = false /\ t_holds (the_tree m) l /\ Forall (wf_bucket ty T) l.

Definition stands (m : bitmap) (l1 : list Bucket) (x : Bucket) (l2 : list Bucket) : Prop :=
  singular m = false /\ t_at (the_tree m) (tree_accessor m) l1 x l2 /\ Forall (wf_bucket ty T) (l1 ++ x :: l2).

Lemma stands_tree m l1 x l2 : stands m l1 x l2 -> tree_is m (l1 ++ x :: l2).
Proof. intros (H1 & H2 & H3). split_and!; [done|by eapply t_at_holds|done]. Qed.

Lemma tree_models m l s : tree_is m l -> (forall v, v ∈ s <-> in_list ty l v) -> models ty T m s.
Proof. intros (H1 & H2 & H3) Hs. unfold models. rewrite H1. eauto. Qed.

Lemma in_list_app l1 l2 v : in_list ty (l1 ++ l2) v <-> in_list ty l1 v \/ in_list ty l2 v.
Proof. apply Exists_app. Qed.

Lemma in_list_cons x l v : in_list ty (x :: l) v <-> in_bucket ty x v \/ in_list ty l v.
Proof. apply Exists_cons. Qed.

Lemma in_list_nil v : ~ in_list ty [] v.
Proof. intros H. by apply Exists_nil in H. Qed.

Lemma tree_add_ok m l b :
  tree_is m l -> wf_bucket ty T b -> Forall (fun y => start_value y <> start_value b) l ->
  exists m' l1 l2, tree_add b m = Ret m' /\ l = l1 ++ l2 /\ tree_is m' (l1 ++ b :: l2).
Proof.
  intros (Hs & Ht & Hw) Hb Hl. unfold tree_add.
  destruct (t_add_law (the_tree m) l b Ht Hl) as (t' & l1 & l2 & -> & -> & Ht'). cbn [obind].
  eexists _, l1, l2. split_and!; [done|done|]. split_and!; [done|done|].
  apply list.Forall_app in Hw as [Hw1 Hw2]. apply list.Forall_app. auto.
Qed.

Lemma set_in_tree_ok m l v :
  tree_is m l -> in_range T v ->
  exists m' l', set_in_tree ty T v m = Ret m' /\ tree_is m' l' /\ forall u, in_list ty l' u <-> u = v \/ in_list ty l u.
Proof.
  intros (Hs & Ht & Hw) Hv. unfold set_in_tree.
  destruct (new_bucket v Hv) as [Hnw Hnb].
  destruct (t_locate_law (the_tree m) l locEqual (aligned ty T v) (tree_accessor m) Ht) as (found & a & -> & Hf).
  cbn [obind]. destruct found.
  - destruct Hf as (l1 & x & l2 & -> & Ha & E). cbn in E. rewrite (t_current_law _ _ _ _ _ Ha). cbn [obind].
    destruct (t_set_bits_law _ _ _ _ _ (Z.lor (bits x) (mask_of ty T v (aligned ty T v))) Ha) as (t' & -> & Ha').
    cbn [obind]. apply list.Forall_app in Hw as [Hw1 Hw]. apply list.Forall_cons in Hw as [Hx Hw2].
    destruct (or_bucket x (mk_bucket (aligned ty T v) (mask_of ty T v (aligned ty T v))) Hx Hnw E) as [Hb Hbu]. cbn [bits] in *.
    eexists _, _. split; [done|]. split.
    + split_and!; [done|cbn; by eapply t_at_holds|]. apply list.Forall_app. auto.
    + intros u. rewrite !in_list_mid, Hbu, Hnb. tauto.
  - destruct (tree_add_ok (mk_bitmap (singular m) (singular_value m) (the_tree m) a) l
      (mk_bucket (aligned ty T v) (mask_of ty T v (aligned ty T v)))) as (m' & l1 & l2 & -> & -> & Hm'); [done|done|done|].
    eexists _, _. split; [done|]. split; [exact Hm'|]. intros u. rewrite in_list_mid, Hnb, in_list_app. tauto.
Qed.

Lemma set_ok m s v :
  models ty T m s -> in_range T v -> exists m', set ty T v m = Ret m' /\ models ty T m' ({[v]} ∪ s).
Proof.
  unfold models at 1. intros Hm Hv. unfold set. destruct (singular m) eqn:Es.
  - destruct Hm as (Hr & Ht & ->). destruct (Z.eqb_spec (singular_value m) v) as [E|E].
    { exists m. split; [done|]. unfold models. rewrite Es. split_and!; [done|done|]. set_solver. }
    destruct (new_bucket (singular_value m) Hr) as [Hnw Hnb]. cbv zeta. cbn [singular_value].
    destruct (tree_add_ok (mk_bitmap false (singular_value m) (the_tree m) (tree_accessor m)) []
      (mk_bucket (aligned ty T (singular_value m)) (mask_of ty T (singular_value m) (aligned ty T (singular_value m)))))
      as (m' & l1 & l2 & -> & E' & Hm'); [by split_and!|done|done|]. cbn [obind].
    destruct (set_in_tree_ok _ _ v Hm' Hv) as (m2 & l' & -> & Hm2 & Hl'). eexists. split; [done|].
    eapply tree_models; [exact Hm2|]. intros u. rewrite Hl', in_list_mid, Hnb.
    symmetry in E'. apply app_eq_nil in E' as [-> ->]. pose proof (in_list_nil u). set_solver.
  - destruct Hm as (l & Ht & Hw & Hl). rewrite (t_isEmpty_law _ _ Ht). cbn [obind]. destruct l as [|x l]; cbn [length Nat.eqb].
    + eexists. split; [done|]. unfold models. cbn. split_and!; [done|done|]. apply set_eq. intros u.
      pose proof (in_list_nil u). rewrite elem_of_union, Hl. set_solver.
    + destruct (set_in_tree_ok m (x :: l) v) as (m2 & l' & -> & Hm2 & Hl'); [by split_and!|done|]. eexists. split; [done|].
      eapply tree_models; [exact Hm2|]. intros u. rewrite Hl', elem_of_union, Hl. set_solver.
Qed.

Lemma clear_ok m s v :
  models ty T m s -> in_range T v ->
  exists m', clear ty T v m = Ret (bool_decide (v ∈ s), m') /\ models ty T m' (s ∖ {[v]}).
Proof.
  unfold models at 1. intros Hm Hv. unfold clear. destruct (singular m) eqn:Es.
  - destruct Hm as (Hr & Ht & ->). destruct (Z.eqb_spec v (singular_value m)) as [E|E].
    + rewrite bool_decide_eq_true_2 by set_solver. eexists. split; [done|]. unfold models. cbn. exists [].
      split_and!; [done|constructor|]. intros u. pose proof (in_list_nil u). set_solver.
    + rewrite bool_decide_eq_false_2 by set_solver. eexists. split; [done|]. unfold models. rewrite Es.
      split_and!; [done|done|set_solver].
  - destruct Hm as (l & Ht & Hw & Hl).
    destruct (t_locate_law (the_tree m) l locEqual (aligned ty T v) (tree_accessor m) Ht) as (found & a & -> & Hf).
    cbn [obind]. cbv zeta. cbn [the_tree singular singular_value]. destruct found.
    + destruct Hf as (l1 & x & l2 & -> & Ha & E). cbn in E. rewrite (t_current_law _ _ _ _ _ Ha). cbn [obind].
      destruct (around_of ty T _ _ _ _ Ht Hw) as [Hx Hb Hab].
      pose proof (bucket_values ty T x v Hx Hv E) as Hbv.
      pose proof (proj2 (in_bucket_aligned ty T x v Hx Hv) E) as Hr.
      assert (Hin : v ∈ s <-> in_bucket ty x v).
      { rewrite Hl, in_list_mid. split; [|auto]. intros [H|[H|H]]; [|done|].
        - specialize (Hb v H). lia.
        - specialize (Hab v H). lia. }
      destruct (Z.land (bits x) (mask_of ty T v (aligned ty T v)) =? 0) eqn:Eb; cbn [negb].
      * rewrite bool_decide_eq_false_2 by (rewrite Hin, Hbv; done). eexists. split; [done|].
        apply (tree_models _ (l1 ++ x :: l2)); [by split_and!|]. intros u. rewrite elem_of_difference, Hl, elem_of_singleton.
        split; [tauto|]. intros Hu. split; [done|]. intros ->. rewrite <-Hl, Hin, Hbv in Hu. done.
      * rewrite bool_decide_eq_true_2 by (rewrite Hin, Hbv; done).
        destruct (clear_bucket x v Hx Hv E) as [Hcw Hcb]. cbn [bits] in Hcw.
        set (left := Z.land (bits x) (to_BUNCH ty (Z.lnot (mask_of ty T v (aligned ty T v))))) in *.
        destruct (t_set_bits_law _ _ _ _ _ left Ha) as (t' & -> & Ha'). cbn [obind].
        apply list.Forall_app in Hw as [Hw1 Hw]. apply list.Forall_cons in Hw as [_ Hw2].
        assert (Hset : forall u, u ∈ s ∖ {[v]} <-> in_list ty l1 u \/ in_bucket ty (mk_bucket (start_value x) left) u \/ in_list ty l2 u).
        { intros u. rewrite elem_of_difference, elem_of_singleton, Hl, in_list_mid, Hcb. split; [tauto|].
          intros [H|[H|H]]; [split; [auto|]|tauto|split; [auto|]]; intros ->.
          - specialize (Hb v H). lia.
          - specialize (Hab v H). lia. }
        destruct (Z.eqb_spec left 0) as [E0|E0].
        -- destruct (t_fastRemove_law _ _ _ _ _ Ha') as (a2 & t2 & -> & H2). cbn [obind]. eexists. split; [done|].
           apply (tree_models _ (l1 ++ l2)).
           ++ split_and!; [done| |by apply list.Forall_app]. cbn. destruct l2 as [|y l2]; [by rewrite app_nil_r|].
              by eapply t_at_holds.
           ++ intros u. rewrite Hset, in_list_app. split; [|tauto]. intros [H|[[_ H]|H]]; [auto| |auto].
              cbn in H. by rewrite E0, Z.bits_0 in H.
        -- eexists. split; [done|]. apply (tree_models _ (l1 ++ mk_bucket (start_value x) left :: l2)).
           ++ split_and!; [done|cbn; by eapply t_at_holds|]. apply list.Forall_app. auto.
           ++ intros u. by rewrite Hset, in_list_mid.
    + assert (Hn : v ∉ s).
      { rewrite Hl. unfold in_list. rewrite list.Exists_exists. intros (b & Hin & Hb & _). unfold no_place in Hf.
        rewrite list.Forall_forall in Hf, Hw. apply (Hf b Hin). by apply (in_bucket_aligned ty T b v (Hw b Hin)). }
      rewrite bool_decide_eq_false_2 by done. eexists. split; [done|].
      apply (tree_models _ l); [by split_and!|]. intros u. rewrite <-Hl. set_solver.
Qed.

Lemma clear_all_ok m s : models ty T m s -> exists m', clear_all m = Ret m' /\ models ty T m' ∅.
Proof.
  unfold models at 1. intros Hm. unfold clear_all.
  assert (Hh : exists l, t_holds (the_tree m) l) by (destruct (singular m); [exists []; apply Hm|destruct Hm as (l & ? & _); eauto]).
  destruct Hh as [l Hh]. destruct (t_clear_law _ _ Hh) as (t' & -> & Ht'). cbn [obind]. eexists. split; [done|].
  unfold models. cbn. exists []. split_and!; [done|constructor|]. intros u. pose proof (in_list_nil u). set_solver.
Qed.

(** ** Walking through a tree *)

(** The bitmap is a tree with the buckets [l1 ++ rest]; its tree accessor
    stands on the first of [rest], whose start is [value], if there is one. *)
Definition walk (m : bitmap) (found : bool) (value : Z) (l1 rest : list Bucket) : Prop :=
  match rest with
  | x :: l2 => found = true /\ value = start_value x /\ stands m l1 x l2
  | [] => found = false /\ tree_is m l1
  end.

Lemma walk_tree m found value l1 rest : walk m found value l1 rest -> tree_is m (l1 ++ rest).
Proof.
  destruct rest as [|x l2]; cbn.
  - intros [_ H]. by rewrite app_nil_r.
  - intros (_ & _ & H). by apply stands_tree.
Qed.

Lemma walk_around m found value l1 x l2 :
  walk m found value l1 (x :: l2) ->
  found = true /\ value = start_value x /\ wf_bucket ty T x /\ Forall (wf_bucket ty T) l1 /\ Forall (wf_bucket ty T) l2 /\
  Forall (fun b => start_value b < start_value x) l1 /\ Forall (fun b => start_value x < start_value b) l2.
Proof.
  intros (-> & -> & (_ & Ha & Hw)). pose proof (t_sorted _ _ (t_at_holds _ _ _ _ _ Ha)) as Hs.
  apply ascending_mid in Hs as [H1 H2]. apply list.Forall_app in Hw as [Hw1 Hw].
  apply list.Forall_cons in Hw as [Hx Hw2]. by split_and!.
Qed.

Lemma here_ok m l1 x l2 : stands m l1 x l2 -> here m = Ret x.
Proof. intros (_ & Ha & _). by eapply t_current_law. Qed.

Lemma seek_next_ok m l1 x l2 :
  stands m l1 x l2 ->
  exists found value m', seek_next m = Ret (found, m') /\ walk m' found value (l1 ++ [x]) l2.
Proof.
  intros (Hs & Ha & Hw). unfold seek_next. destruct (t_getNext_law _ _ _ _ _ Ha) as (a' & -> & Ha'). cbn [obind].
  destruct l2 as [|y l2]; cbn [length Nat.eqb negb].
  - exists false, 0. eexists. split; [done|]. split; [done|]. split_and!; [done| |done]. cbn. by eapply t_at_holds.
  - exists true, (start_value y). eexists. split; [done|]. split_and!; [done|done|]. split_and!; [done|done|].
    by rewrite <-app_assoc.
Qed.

Lemma step_ok m l1 x l2 value :
  stands m l1 x l2 ->
  exists found value' m', step m value = Ret (found, value', m') /\ walk m' found value' (l1 ++ [x]) l2.
Proof.
  intros H. unfold step. destruct (seek_next_ok _ _ _ _ H) as (found & v & m' & -> & Hw). cbn [obind].
  destruct l2 as [|y l2].
  - destruct Hw as [-> Hw]. do 3 eexists. split; [done|]. by split.
  - destruct Hw as (-> & -> & Hw). rewrite (here_ok _ _ _ _ Hw). cbn [obind]. do 3 eexists. split; [done|]. by split_and!.
Qed.

Lemma here_bits_ok m l1 x l2 v :
  stands m l1 x l2 -> wf_bucket ty T (mk_bucket (start_value x) v) ->
  exists m', here_bits v m = Ret m' /\ stands m' l1 (mk_bucket (start_value x) v) l2.
Proof.
  intros (Hs & Ha & Hw) Hv. unfold here_bits. destruct (t_set_bits_law _ _ _ _ _ v Ha) as (t' & -> & Ha'). cbn [obind].
  eexists. split; [done|]. split_and!; [done|done|]. apply list.Forall_app in Hw as [Hw1 Hw].
  apply list.Forall_cons in Hw as [_ Hw2]. apply list.Forall_app. auto.
Qed.

Lemma seek_first_ok m l :
  tree_is m l -> exists value m', seek_first m = Ret (negb (length l =? 0)%nat, m') /\ walk m' (negb (length l =? 0)%nat) value [] l.
Proof.
  intros (Hs & Ht & Hw). unfold seek_first. destruct (t_getFirst_law _ _ (tree_accessor m) Ht) as (a' & -> & Ha). cbn [obind].
  destruct l as [|x l]; cbn [length Nat.eqb negb].
  - exists 0. eexists. split; [done|]. by split_and!.
  - exists (start_value x). eexists. split; [done|]. by split_and!.
Qed.

Lemma seek_ok m l x :
  tree_is m l -> x ∈ l ->
  exists m' l1 y l2, seek (start_value x) m = Ret (true, m') /\ l = l1 ++ y :: l2 /\ start_value y = start_value x /\ stands m' l1 y l2.
Proof.
  intros (Hs & Ht & Hw) Hx. unfold seek.
  destruct (t_locate_law _ _ locEqual (start_value x) (tree_accessor m) Ht) as (found & a & -> & Hf). cbn [obind].
  destruct found.
  - destruct Hf as (l1 & y & l2 & -> & Ha & E). eexists _, l1, y, l2. split_and!; [done|done|done|]. by split_and!.
  - exfalso. unfold no_place in Hf. rewrite list.Forall_forall in Hf. by apply (Hf x Hx).
Qed.

Lemma remove_here_ok m l1 x l2 :
  stands m l1 x l2 ->
  exists found value m', remove_here m = Ret (found, m') /\ walk m' found value l1 l2.
Proof.
  intros (Hs & Ha & Hw). unfold remove_here. destruct (t_fastRemove_law _ _ _ _ _ Ha) as (a' & t' & -> & Ha'). cbn [obind].
  apply list.Forall_app in Hw as [Hw1 Hw]. apply list.Forall_cons in Hw as [_ Hw2].
  destruct l2 as [|y l2]; cbn [length Nat.eqb negb].
  - exists false, 0. eexists. split; [done|]. by split_and!.
  - exists true, (start_value y). eexists. split; [done|]. split_and!; [done|done|]. split_and!; [done|done|].
    by apply list.Forall_app.
Qed.

(** Buckets with other starts have other values. *)
Lemma apart_after x l u :
  wf_bucket ty T x -> Forall (wf_bucket ty T) l -> Forall (fun b => start_value x < start_value b) l ->
  in_bucket ty x u -> ~ in_list ty l u.
Proof.
  intros Hx Hw Hl [Hu _] Hin. assert (Hm : start_value x mod W = 0) by apply Hx.
  pose proof (in_list_above ty T l _ u Hw Hm Hl Hin). lia.
Qed.

(** ** Union *)

Lemma or_rest_ok fuel dest source l s1 y s2 :
  tree_is dest l -> stands source s1 y s2 -> Forall (fun b => start_value b < start_value y) l ->
  (length s2 < fuel)%nat ->
  exists dest' source' l', or_rest fuel dest source = Ret (dest', source') /\ tree_is dest' l' /\
    (forall u, in_list ty l' u <-> in_list ty l u \/ in_list ty (y :: s2) u) /\ tree_is source' (s1 ++ y :: s2).
Proof.
  revert dest source l s1 y s2. induction fuel as [|fuel IH]; intros dest source l s1 y s2 Hd Hs Hlt Hf; [lia|].
  cbn [or_rest]. rewrite (here_ok _ _ _ _ Hs). cbn [obind].
  assert (Hwk : walk source true (start_value y) s1 (y :: s2)) by by split_and!.
  destruct (walk_around _ _ _ _ _ _ Hwk) as (_ & _ & Hy & _ & _ & _ & Hs2).
  destruct (tree_add_ok dest l y Hd Hy) as (d' & l1 & l2 & -> & -> & Hd').
  { eapply list.Forall_impl; [exact Hlt|]. cbn. lia. }
  cbn [obind]. destruct (seek_next_ok _ _ _ _ Hs) as (more & v & so' & -> & Hw). cbn [obind].
  destruct s2 as [|z s2].
  - destruct Hw as [-> Hw]. eexists _, _, _. split; [done|]. split_and!; [exact Hd'| |exact Hw].
    intros u. rewrite in_list_mid, in_list_app, in_list_cons. pose proof (in_list_nil u). tauto.
  - destruct Hw as (-> & _ & Hw). apply list.Forall_cons in Hs2 as [Hyz Hs2]. apply list.Forall_app in Hlt as [Hl1 Hl2].
    destruct (IH d' so' (l1 ++ y :: l2) (s1 ++ [y]) z s2 Hd' Hw) as (d2 & s' & l' & E & H1 & H2 & H3).
    + apply list.Forall_app. split; [|constructor; [done|]]; (eapply list.Forall_impl; [eassumption|]); cbn; lia.
    + cbn in Hf. lia.
    + exists d2, s', l'. split; [exact E|]. rewrite <-app_assoc in H3. split_and!; [done| |done].
      intros u. rewrite H2, in_list_mid, in_list_app, !in_list_cons. tauto.
Qed.

(** The buckets from a start on. *)
Definition count_from (k : Z) (l : list Bucket) : nat := length (filter (fun b => k <= start_value b) l).

Lemma count_from_add k l1 y l2 : start_value y < k -> count_from k (l1 ++ y :: l2) = count_from k (l1 ++ l2).
Proof. intros H. unfold count_from. rewrite !filter_app, filter_cons_False by lia. done. Qed.

Lemma count_from_here l1 x l2 :
  Forall (fun b => start_value b < start_value x) l1 -> Forall (fun b => start_value x < start_value b) l2 ->
  count_from (start_value x) (l1 ++ x :: l2) = S (length l2).
Proof.
  intros H1 H2. unfold count_from. rewrite filter_app, length_app, filter_cons_True by lia.
  assert (filter (fun b => start_value x <= start_value b) l1 = []) as ->.
  { clear -H1. induction H1 as [|b l Hb _ IH]; [done|]. by rewrite filter_cons_False by lia. }
  assert (filter (fun b => start_value x <= start_value b) l2 = l2) as ->; [|done].
  clear -H2. induction H2 as [|b l Hb _ IH]; [done|]. by rewrite filter_cons_True, IH by lia.
Qed.

Lemma or_row_ok fuel dv dest source l s1 y s2 x :
  tree_is dest l -> stands source s1 y s2 -> x ∈ l -> start_value x = dv -> start_value y < dv ->
  Forall (fun b => start_value b < start_value y \/ dv <= start_value b) l -> (length s2 < fuel)%nat ->
  exists sf sv dest' source' s1' sr l' moved,
    or_row fuel dv dest source = Ret (sf, sv, dest', source') /\ walk source' sf sv s1' sr /\
    y :: s2 = moved ++ sr /\ s1 ++ y :: s2 = s1' ++ sr /\ (length sr <= length s2)%nat /\
    tree_is dest' l' /\ (forall u, in_list ty l' u <-> in_list ty l u \/ in_list ty moved u) /\
    count_from dv l' = count_from dv l /\
    (sf = true -> exists d1 d2 z, l' = d1 ++ z :: d2 /\ walk dest' true dv d1 (z :: d2) /\
      Forall (fun b => start_value b < sv) d1).
Proof.
  revert dest source l s1 y s2. induction fuel as [|fuel IH]; intros dest source l s1 y s2 Hd Hs Hx Ex Hy Hl Hf; [lia|].
  cbn [or_row]. rewrite (here_ok _ _ _ _ Hs). cbn [obind].
  assert (Hwk : walk source true (start_value y) s1 (y :: s2)) by by split_and!.
  destruct (walk_around _ _ _ _ _ _ Hwk) as (_ & _ & Hyw & _ & _ & _ & Hs2).
  destruct (tree_add_ok dest l y Hd Hyw) as (d' & l1 & l2 & -> & -> & Hd').
  { eapply list.Forall_impl; [exact Hl|]. cbn. lia. }
  cbn [obind]. destruct (seek_next_ok _ _ _ _ Hs) as (more & v & so' & -> & Hw). cbn [obind].
  assert (Hx' : x ∈ l1 ++ y :: l2) by (mem_in Hx; mem).
  assert (Hcount : count_from dv (l1 ++ y :: l2) = count_from dv (l1 ++ l2)) by by apply count_from_add.
  apply list.Forall_app in Hl as [Hl1 Hl2].
  destruct s2 as [|z s2].
  - destruct Hw as [-> Hw]. cbn [negb].
    exists false, (start_value y), d', so', (s1 ++ [y]), [], (l1 ++ y :: l2), [y].
    split_and!; try done.
    + by rewrite <-app_assoc.
    + intros u. rewrite in_list_mid, in_list_app, in_list_cons. pose proof (in_list_nil u). tauto.
  - destruct Hw as (-> & -> & Hw). cbn [negb]. rewrite (here_ok _ _ _ _ Hw). cbn [obind].
    apply list.Forall_cons in Hs2 as [Hyz Hs2].
    assert (Hu : forall u, in_list ty (l1 ++ y :: l2) u <-> in_list ty (l1 ++ l2) u \/ in_list ty [y] u).
    { intros u. rewrite in_list_mid, in_list_app, in_list_cons. pose proof (in_list_nil u). tauto. }
    destruct (Z.leb_spec dv (start_value z)) as [Hle|Hgt].
    + rewrite <-Ex. destruct (seek_ok d' _ x Hd' Hx') as (d2 & e1 & w & e2 & -> & El & Ew & Hst). cbn [obind].
      assert (Hwd : walk d2 true (start_value x) e1 (w :: e2)) by by split_and!.
      destruct (walk_around _ _ _ _ _ _ Hwd) as (_ & _ & _ & _ & _ & He1 & _).
      exists true, (start_value z), d2, so', (s1 ++ [y]), (z :: s2), (l1 ++ y :: l2), [y].
      split_and!; try done.
      * by rewrite <-app_assoc.
      * rewrite El. by apply stands_tree.
      * by rewrite Ex.
      * intros _. exists e1, e2, w. split_and!; [done|done|]. eapply list.Forall_impl; [exact He1|]. cbn. lia.
    + destruct (IH d' so' (l1 ++ y :: l2) (s1 ++ [y]) z s2 Hd' Hw Hx' Ex Hgt)
        as (sf & sv & d2 & s' & s1' & sr & l' & moved & E & H1 & H2 & H3 & H4 & H5 & H6 & H7 & H8).
      * apply list.Forall_app. split; [|constructor; [by left|]]; (eapply list.Forall_impl; [eassumption|]); cbn; lia.
      * cbn in Hf. lia.
      * exists sf, sv, d2, s', s1', sr, l', (y :: moved). split_and!; try done.
        -- cbn. by rewrite H2.
        -- rewrite <-H3. by rewrite <-app_assoc.
        -- cbn. lia.
        -- intros u. rewrite H6, Hu, !in_list_cons. pose proof (in_list_nil u). tauto.
        -- by rewrite H7.
Qed.

(** What a loop does to the tree [l] of the destination: [Q] are the values it
    leaves there; the source keeps its buckets [ls]. *)
Definition combined (o : outcome (bitmap * bitmap)) (Q : Z -> Prop) (ls : list Bucket) : Prop :=
  exists dest' source' l', o = Ret (dest', source') /\ tree_is dest' l' /\
    (forall u, in_list ty l' u <-> Q u) /\ tree_is source' ls.

Lemma combined_ext o (Q Q' : Z -> Prop) ls : (forall u, Q u <-> Q' u) -> combined o Q ls -> combined o Q' ls.
Proof.
  intros H (d & s & l' & E & H1 & H2 & H3). exists d, s, l'. split_and!; [done|done| |done].
  intros u. by rewrite H2.
Qed.

Lemma or_loop_ok fuel df dv d1 dr dest sf sv s1 sr source :
  walk dest df dv d1 dr -> walk source sf sv s1 sr ->
  (sf = true -> Forall (fun b => start_value b < sv) d1) -> (length dr + length sr < fuel)%nat ->
  combined (or_loop fuel df sf dv sv dest source)
    (fun u => in_list ty (d1 ++ dr) u \/ in_list ty sr u) (s1 ++ sr).
Proof.
  revert df dv d1 dr dest sf sv s1 sr source.
  induction fuel as [|fuel IH]; intros df dv d1 dr dest sf sv s1 sr source Hd Hs Hlt Hf; [lia|].
  cbn [or_loop]. destruct sr as [|y s2].
  { destruct Hs as [-> Hs]. cbn [negb]. exists dest, source, (d1 ++ dr). rewrite app_nil_r.
    split_and!; [done|by eapply walk_tree| |done]. intros u. pose proof (in_list_nil u). tauto. }
  pose proof Hs as (-> & -> & Hst). cbn [negb]. specialize (Hlt eq_refl).
  destruct (walk_around _ _ _ _ _ _ Hs) as (_ & _ & Hyw & _ & _ & _ & Hs2).
  destruct dr as [|x d2].
  { destruct Hd as [-> Hd]. rewrite app_nil_r.
    destruct (or_rest_ok (S fuel) dest source d1 s1 y s2 Hd Hst Hlt) as (d' & s' & l' & E & H); [cbn in Hf; lia|].
    by exists d', s', l'. }
  pose proof Hd as (-> & -> & Hdt).
  destruct (walk_around _ _ _ _ _ _ Hd) as (_ & _ & Hxw & Hw1 & Hw2 & Hd1 & Hd2).
  destruct (Z.ltb_spec (start_value x) (start_value y)) as [Hxy|Hxy].
  - destruct (step_ok dest d1 x d2 (start_value x) Hdt) as (df & dv & d' & -> & Hd'). cbn [obind].
    eapply combined_ext; [|eapply (IH df dv (d1 ++ [x]) d2 d' true (start_value y) s1 (y :: s2) source); [done|done| |cbn in *; lia]].
    + intros u. rewrite <-app_assoc. done.
    + intros _. apply list.Forall_app. auto.
  - destruct (Z.eqb_spec (start_value x) (start_value y)) as [Exy|Exy].
    + rewrite (here_ok _ _ _ _ Hdt), (here_ok _ _ _ _ Hst). cbn [obind].
      destruct (or_bucket x y Hxw Hyw Exy) as [Hbw Hbu].
      destruct (here_bits_ok dest d1 x d2 _ Hdt Hbw) as (dst & -> & Hdst). cbn [obind].
      destruct (step_ok _ _ _ _ (start_value x) Hdst) as (df & dv & d' & -> & Hd'). cbn [obind].
      destruct (step_ok source s1 y s2 (start_value y) Hst) as (sf & sv & s' & -> & Hs'). cbn [obind].
      replace (s1 ++ y :: s2) with ((s1 ++ [y]) ++ s2) by by rewrite <-app_assoc.
      eapply combined_ext; [|eapply (IH _ _ _ _ _ _ _ (s1 ++ [y]) s2); [exact Hd'|exact Hs'| |cbn in *; lia]].
      * intros u. cbv beta. rewrite <-app_assoc, !in_list_app. cbn [app]. rewrite !in_list_cons, Hbu.
        pose proof (in_list_nil u). tauto.
      * intros ->. destruct s2 as [|z s2]; [by destruct Hs'|]. destruct Hs' as (_ & -> & _).
        apply list.Forall_cons in Hs2 as [Hyz _]. apply list.Forall_app. split.
        -- eapply list.Forall_impl; [exact Hd1|]. cbn. lia.
        -- constructor; [cbn; lia|done].
    + destruct (or_row_ok (S fuel) (start_value x) dest source (d1 ++ x :: d2) s1 y s2 x)
        as (sf & sv & d' & s' & s1' & sr & l' & moved & -> & Hs' & Emv & Esr & Hsr & Hd' & Hu & Hc & Hsf).
      { by apply stands_tree. }
      { done. }
      { mem. }
      { done. }
      { lia. }
      { apply list.Forall_app. split; [|constructor; [right; lia|]].
        - eapply list.Forall_impl; [exact Hlt|]. cbn. lia.
        - eapply list.Forall_impl; [exact Hd2|]. cbn. lia. }
      { cbn in Hf. lia. }
      cbn [obind]. rewrite Esr.
      assert (Hval : forall u, in_list ty (d1 ++ x :: d2) u \/ in_list ty (y :: s2) u <-> in_list ty l' u \/ in_list ty sr u).
      { intros u. rewrite Hu, Emv, !in_list_app. tauto. }
      destruct sf.
      * destruct (Hsf eq_refl) as (e1 & e2 & w & -> & Hwk & Hlt').
        destruct (walk_around _ _ _ _ _ _ Hwk) as (_ & Ew & _ & _ & _ & He1 & He2).
        rewrite (count_from_here d1 x d2) in Hc by done. rewrite Ew, (count_from_here e1 w e2) in Hc by done.
        eapply combined_ext; [intros u; symmetry; apply Hval|].
        apply (IH true (start_value x) e1 (w :: e2) d' true sv s1' sr s'); [done|done|done|cbn in *; lia].
      * assert (sr = []) as -> by (destruct sr as [|z sr]; [done|by destruct Hs' as (? & _)]).
        destruct fuel as [|fuel]; [cbn in Hf; lia|]. cbn [or_loop negb]. destruct Hs' as [_ Hs'].
        exists d', s', l'. rewrite app_nil_r. split_and!; [done|done| |done].
        intros u. rewrite Hval. pose proof (in_list_nil u). tauto.
Qed.

Lemma or_trees_ok fuel dest source l ls :
  tree_is dest l -> tree_is source ls -> (l = [] -> ls = []) -> (length l + length ls < fuel)%nat ->
  combined (or_trees fuel dest source) (fun u => in_list ty l u \/ in_list ty ls u) ls.
Proof.
  intros Hd Hs He Hf. unfold or_trees.
  destruct (seek_first_ok source ls Hs) as (sv & s' & -> & Hws). cbn [obind].
  destruct ls as [|y s2]; cbn [length Nat.eqb negb] in *.
  { destruct Hws as [_ Hs']. exists dest, s', l. split_and!; [done|done| |done]. intros u. pose proof (in_list_nil u). tauto. }
  destruct (seek_first_ok dest l Hd) as (dv & d' & -> & Hwd). cbn [obind].
  destruct l as [|x d2]; cbn [length Nat.eqb negb] in *; [by specialize (He eq_refl)|].
  pose proof Hwd as (_ & -> & Hdt). pose proof Hws as (_ & -> & Hst).
  rewrite (here_ok _ _ _ _ Hdt), (here_ok _ _ _ _ Hst). cbn [obind].
  apply (or_loop_ok fuel true (start_value x) [] (x :: d2) d' true (start_value y) [] (y :: s2) s'); [done..|].
  cbn in *. lia.
Qed.

(** ** Intersection *)

Lemma trim_ok fuel dest d1 x d2 :
  stands dest d1 x d2 -> (length d2 < fuel)%nat -> exists dest', trim fuel dest = Ret dest' /\ tree_is dest' d1.
Proof.
  revert dest x d2. induction fuel as [|fuel IH]; intros dest x d2 Hd Hf; [lia|]. cbn [trim].
  destruct (remove_here_ok _ _ _ _ Hd) as (found & v & d' & -> & Hw). cbn [obind]. destruct d2 as [|y d2].
  - destruct Hw as [-> Hw]. by exists d'.
  - destruct Hw as (-> & _ & Hw). apply (IH d' y d2 Hw). cbn in Hf. lia.
Qed.

(** The bucket the destination stands on goes, whatever its bits. *)
Lemma erase_ok dest d1 x d2 v :
  stands dest d1 x d2 ->
  exists m found value m', here_bits v dest = Ret m /\ remove_here m = Ret (found, m') /\ walk m' found value d1 d2.
Proof.
  intros (Hs & Ha & Hw). unfold here_bits. destruct (t_set_bits_law _ _ _ _ _ v Ha) as (t' & -> & Ha'). cbn [obind].
  apply list.Forall_app in Hw as [Hw1 Hw]. apply list.Forall_cons in Hw as [_ Hw2]. eexists _.
  unfold remove_here. cbn [the_tree tree_accessor]. destruct (t_fastRemove_law _ _ _ _ _ Ha') as (a2 & t2 & E & Ha2).
  destruct d2 as [|y d2]; cbn [length Nat.eqb negb] in E.
  - exists false, 0. eexists. split; [done|]. cbn. rewrite E. cbn. split; [done|]. by split_and!.
  - exists true, (start_value y). eexists. split; [done|]. cbn. rewrite E. cbn. split; [done|].
    split_and!; [done|done|]. split_and!; [done|done|]. apply list.Forall_app. auto.
Qed.

Lemma value_here m found value l1 rest d :
  walk m found value l1 rest ->
  exists v, (if found then let* b := here m in Ret (start_value b) else Ret d) = Ret v /\ walk m found v l1 rest.
Proof.
  intros H. destruct rest as [|x l2].
  - destruct H as [-> H]. by exists d.
  - destruct H as (-> & -> & H). rewrite (here_ok _ _ _ _ H). cbn [obind]. eexists. split; [done|]. by split_and!.
Qed.

Lemma and_loop_ok fuel df dv d1 dr dest sf sv s1 sr source :
  walk dest df dv d1 dr -> walk source sf sv s1 sr -> (length dr + length sr < fuel)%nat ->
  combined (and_loop fuel df sf dv sv dest source)
    (fun u => in_list ty d1 u \/ in_list ty dr u /\ in_list ty sr u) (s1 ++ sr).
Proof.
  revert df dv d1 dr dest sf sv s1 sr source.
  induction fuel as [|fuel IH]; intros df dv d1 dr dest sf sv s1 sr source Hd Hs Hf; [lia|].
  cbn [and_loop]. destruct dr as [|x d2].
  { destruct Hd as [-> Hd]. cbn [negb]. exists dest, source, d1. split_and!; [done|done| |by eapply walk_tree].
    intros u. pose proof (in_list_nil u). tauto. }
  pose proof Hd as (-> & -> & Hdt). cbn [negb].
  destruct (walk_around _ _ _ _ _ _ Hd) as (_ & _ & Hxw & Hw1 & Hw2 & Hd1 & Hd2).
  destruct sr as [|y s2].
  { destruct Hs as [-> Hs]. destruct (trim_ok (S fuel) dest d1 x d2 Hdt) as (d' & -> & Hd'); [cbn in Hf; lia|]. cbn [obind].
    exists d', source, d1. rewrite app_nil_r. split_and!; [done|done| |done]. intros u. pose proof (in_list_nil u). tauto. }
  pose proof Hs as (-> & -> & Hst).
  destruct (walk_around _ _ _ _ _ _ Hs) as (_ & _ & Hyw & Hv1 & Hv2 & _ & Hs2).
  assert (Hwx : Forall (wf_bucket ty T) (x :: d2)) by auto. assert (Hwy : Forall (wf_bucket ty T) (y :: s2)) by auto.
  destruct (Z.ltb_spec (start_value y) (start_value x)) as [Hxy|Hxy].
  - destruct (step_ok source s1 y s2 (start_value y) Hst) as (sf & sv & s' & -> & Hs'). cbn [obind].
    eapply combined_ext; [|].
    2:{ replace (s1 ++ y :: s2) with ((s1 ++ [y]) ++ s2) by by rewrite <-app_assoc.
        apply (IH true (start_value x) d1 (x :: d2) dest sf sv (s1 ++ [y]) s2 s'); [done|done|cbn in *; lia]. }
    intros u. cbv beta. rewrite (in_list_cons y).
    assert (Hy : in_bucket ty y u -> ~ in_list ty (x :: d2) u); [|tauto].
    intros Hy. apply (apart_after y); [done|done| |done]. constructor; [done|].
    eapply list.Forall_impl; [exact Hd2|]. cbn. lia.
  - destruct (Z.eqb_spec (start_value y) (start_value x)) as [Exy|Exy].
    + rewrite (here_ok _ _ _ _ Hdt), (here_ok _ _ _ _ Hst). cbn [obind].
      destruct (and_bucket x y Hxw Hyw (eq_sym Exy)) as [Hbw Hbu]. cbn [bits] in Hbw.
      assert (Hval : forall u, in_list ty d1 u \/ in_list ty (x :: d2) u /\ in_list ty (y :: s2) u <->
        in_list ty d1 u \/ (in_bucket ty x u /\ in_bucket ty y u) \/ in_list ty d2 u /\ in_list ty s2 u).
      { intros u. rewrite !in_list_cons.
        assert (in_bucket ty x u -> ~ in_list ty s2 u).
        { apply (apart_after x); [done|done|]. eapply list.Forall_impl; [exact Hs2|]. cbn. lia. }
        assert (in_bucket ty y u -> ~ in_list ty d2 u).
        { apply (apart_after y); [done|done|]. eapply list.Forall_impl; [exact Hd2|]. cbn. lia. }
        tauto. }
      set (left := Z.land (bits x) (bits y)) in *.
      assert (Hstep : exists m df dv d' e1, here_bits left dest = Ret m /\
        (if left =? 0 then remove_here m else seek_next m) = Ret (df, d') /\ walk d' df dv e1 d2 /\
        forall u, in_list ty e1 u <-> in_list ty d1 u \/ in_bucket ty x u /\ in_bucket ty y u).
      { destruct (Z.eqb_spec left 0) as [E0|E0].
        - destruct (erase_ok dest d1 x d2 left Hdt) as (m & df & dv & d' & E1 & E2 & Hw).
          exists m, df, dv, d', d1. split_and!; [done|done|done|]. intros u. rewrite <-Hbu.
          unfold in_bucket at 1. cbn. rewrite E0, Z.bits_0. split; [auto|]. intros [H|[_ H]]; done.
        - destruct (here_bits_ok dest d1 x d2 left Hdt (Hbw E0)) as (m & E1 & Hm).
          destruct (seek_next_ok _ _ _ _ Hm) as (df & dv & d' & E2 & Hw).
          eexists m, df, dv, d', _. split_and!; [done|done|exact Hw|]. intros u.
          rewrite in_list_app, in_list_cons, Hbu. pose proof (in_list_nil u). tauto. }
      destruct Hstep as (m & df & dv & d' & e1 & -> & E2 & Hw & Hu). cbn [obind]. rewrite E2. cbn [obind].
      destruct (value_here d' df dv e1 d2 (start_value x) Hw) as (dv' & -> & Hw'). cbn [obind].
      destruct (step_ok source s1 y s2 (start_value y) Hst) as (sf & sv & s' & -> & Hs'). cbn [obind].
      replace (s1 ++ y :: s2) with ((s1 ++ [y]) ++ s2) by by rewrite <-app_assoc.
      eapply combined_ext; [|apply (IH df dv' e1 d2 d' sf sv (s1 ++ [y]) s2 s'); [done|done|cbn in *; lia]].
      intros u. cbv beta. rewrite Hval, Hu. tauto.
    + destruct (remove_here_ok dest d1 x d2 Hdt) as (df & dv & d' & -> & Hw). cbn [obind].
      destruct (value_here d' df dv d1 d2 (start_value x) Hw) as (dv' & -> & Hw'). cbn [obind].
      eapply combined_ext; [|apply (IH df dv' d1 d2 d' true (start_value y) s1 (y :: s2) source); [done|done|cbn in *; lia]].
      intros u. cbv beta. rewrite (in_list_cons x).
      assert (Hx : in_bucket ty x u -> ~ in_list ty (y :: s2) u); [|tauto].
      apply (apart_after x); [done|done|]. constructor; [lia|]. eapply list.Forall_impl; [exact Hs2|]. cbn. lia.
Qed.

Lemma and_trees_ok fuel dest source l ls :
  tree_is dest l -> tree_is source ls -> (ls = [] -> l = []) -> (length l + length ls < fuel)%nat ->
  combined (and_trees fuel dest source) (fun u => in_list ty l u /\ in_list ty ls u) ls.
Proof.
  intros Hd Hs He Hf. unfold and_trees.
  destruct (seek_first_ok dest l Hd) as (dv & d' & -> & Hwd). cbn [obind].
  destruct l as [|x d2]; cbn [length Nat.eqb negb] in *.
  { destruct Hwd as [_ Hd']. exists d', source, []. split_and!; [done|done| |done]. intros u. pose proof (in_list_nil u). tauto. }
  destruct (seek_first_ok source ls Hs) as (sv & s' & -> & Hws). cbn [obind].
  destruct ls as [|y s2]; cbn [length Nat.eqb negb] in *; [by specialize (He eq_refl)|].
  pose proof Hwd as (_ & -> & Hdt). pose proof Hws as (_ & -> & Hst).
  rewrite (here_ok _ _ _ _ Hdt), (here_ok _ _ _ _ Hst). cbn [obind].
  eapply combined_ext; [|apply (and_loop_ok fuel true (start_value x) [] (x :: d2) d' true (start_value y) [] (y :: s2) s');
    [done..|cbn in *; lia]].
  intros u. cbv beta. pose proof (in_list_nil u). tauto.
Qed.

(** *** [bit_or] and [bit_and] *)

Definition ref_models (r : bitmap_ref) (s : gset Z) : Prop :=
  match r with Some (Some m) => models ty T m s | _ => s = ∅ end.

(** What the returned pointer points to. *)
Definition chosen (w : which) (r1 r2 : bitmap_ref) : bitmap_ref :=
  match w with First => r1 | Second => r2 | Null => None end.

(** A bucket holds a value at least. *)
Lemma buckets_size l (s : gset Z) :
  Forall (wf_bucket ty T) l -> ascending start_value l -> (forall v, in_list ty l v -> v ∈ s) -> (length l <= size s)%nat.
Proof.
  revert s. induction l as [|x l IH]; intros s Hw Ha Hs; [cbn; lia|].
  apply list.Forall_cons in Hw as [Hx Hw]. apply ascending_cons in Ha as [Hxl Ha].
  destruct (wf_bucket_value ty T x Hx) as (u & Hu). assert (Hus : u ∈ s) by (apply Hs, in_list_cons; auto).
  specialize (IH (s ∖ {[u]}) Hw Ha). rewrite size_difference in IH by set_solver. rewrite size_singleton in IH.
  assert (size s <> 0)%nat. { intros E. apply size_empty_inv in E. set_solver. }
  cbn. enough (length l <= size s - 1)%nat by lia. apply IH. intros v Hv. apply elem_of_difference. split.
  - apply Hs, in_list_cons. auto.
  - intros ->%elem_of_singleton. by apply (apart_after x l u).
Qed.

Lemma models_tree m s :
  singular m = false -> models ty T m s ->
  exists l, tree_is m l /\ (forall v, v ∈ s <-> in_list ty l v) /\ (length l <= size s)%nat.
Proof.
  intros Hs Hm. unfold models in Hm. rewrite Hs in Hm. destruct Hm as (l & Ht & Hw & Hl).
  exists l. split_and!; [by split_and!|done|]. apply buckets_size; [done|by eapply t_sorted|]. intros v. apply Hl.
Qed.

Lemma models_range m s v : models ty T m s -> v ∈ s -> in_range T v.
Proof.
  unfold models. destruct (singular m).
  - intros (H & _ & ->) Hv. by apply elem_of_singleton in Hv as ->.
  - intros (l & _ & Hw & Hl) Hv. apply Hl in Hv. by eapply in_list_range.
Qed.

Lemma bit_or_ok fuel b1 b2 s1 s2 :
  ref_models b1 s1 -> ref_models b2 s2 -> (size s1 + size s2 < fuel)%nat ->
  exists w b1' b2', bit_or ty T fuel b1 b2 = Ret (w, b1', b2') /\ ref_models (chosen w b1' b2') (s1 ∪ s2).
Proof.
  intros H1 H2 Hf. destruct b1 as [[m1|]|]; cbn in H1.
  2-3: subst s1; do 3 eexists; (split; [reflexivity|]); cbn [chosen]; by rewrite union_empty_l_L.
  destruct b2 as [[m2|]|]; cbn in H2.
  2-3: subst s2; do 3 eexists; (split; [reflexivity|]); cbn [chosen ref_models]; by rewrite union_empty_r_L.
  unfold bit_or. destruct (singular m1) eqn:E1.
  { pose proof H1 as H1'. unfold models in H1'. rewrite E1 in H1'. destruct H1' as (Hr & _ & ->).
    destruct (set_ok m2 s2 _ H2 Hr) as (m2' & -> & Hm). cbn [obind]. by do 3 eexists. }
  destruct (singular m2) eqn:E2.
  { pose proof H2 as H2'. unfold models in H2'. rewrite E2 in H2'. destruct H2' as (Hr & _ & ->).
    destruct (set_ok m1 s1 _ H1 Hr) as (m1' & -> & Hm). cbn [obind]. do 3 eexists. split; [done|].
    cbn [chosen ref_models]. by rewrite union_comm_L. }
  destruct (models_tree m1 s1 E1 H1) as (l1 & Ht1 & Hl1 & Hn1), (models_tree m2 s2 E2 H2) as (l2 & Ht2 & Hl2 & Hn2).
  destruct (t_seemsBiggerThan_law (the_tree m2) l2 (the_tree m1) l1) as (b & -> & Hb); [apply Ht2|apply Ht1|]. cbn [obind].
  destruct b.
  - destruct (or_trees_ok fuel m2 m1 l2 l1 Ht2 Ht1 Hb ltac:(lia)) as (d & s & l' & -> & Hd & Hu & _). cbn [obind].
    do 3 eexists. split; [done|]. cbn [chosen ref_models]. apply (tree_models d l'); [done|].
    intros v. rewrite elem_of_union, Hu, Hl1, Hl2. tauto.
  - destruct (or_trees_ok fuel m1 m2 l1 l2 Ht1 Ht2 Hb ltac:(lia)) as (d & s & l' & -> & Hd & Hu & _). cbn [obind].
    do 3 eexists. split; [done|]. cbn [chosen ref_models]. apply (tree_models d l'); [done|].
    intros v. rewrite elem_of_union, Hu, Hl1, Hl2. tauto.
Qed.

Lemma bit_and_ok fuel b1 b2 s1 s2 :
  ref_models b1 s1 -> ref_models b2 s2 -> (size s1 + size s2 < fuel)%nat ->
  exists w b1' b2', bit_and ty T fuel b1 b2 = Ret (w, b1', b2') /\ ref_models (chosen w b1' b2') (s1 ∩ s2).
Proof.
  intros H1 H2 Hf. destruct b1 as [[m1|]|]; cbn in H1.
  2-3: subst s1; do 3 eexists; (split; [reflexivity|]); cbn [chosen ref_models]; set_solver.
  destruct b2 as [[m2|]|]; cbn in H2.
  2-3: subst s2; do 3 eexists; (split; [reflexivity|]); cbn [chosen ref_models]; set_solver.
  unfold bit_and. destruct (singular m1) eqn:E1.
  { pose proof H1 as H1'. unfold models in H1'. rewrite E1 in H1'. destruct H1' as (Hr & _ & ->).
    rewrite (test_ok ty T m2 s2 _ H2 Hr). cbn [obind]. do 3 eexists. split; [done|].
    case_bool_decide; cbn [chosen ref_models]; [|set_solver].
    replace ({[singular_value m1]} ∩ s2) with ({[singular_value m1]} : gset Z) by set_solver. done. }
  destruct (singular m2) eqn:E2.
  { pose proof H2 as H2'. unfold models in H2'. rewrite E2 in H2'. destruct H2' as (Hr & _ & ->).
    rewrite (test_ok ty T m1 s1 _ H1 Hr). cbn [obind]. do 3 eexists. split; [done|].
    case_bool_decide; cbn [chosen ref_models]; [|set_solver].
    replace (s1 ∩ {[singular_value m2]}) with ({[singular_value m2]} : gset Z) by set_solver. done. }
  destruct (models_tree m1 s1 E1 H1) as (l1 & Ht1 & Hl1 & Hn1), (models_tree m2 s2 E2 H2) as (l2 & Ht2 & Hl2 & Hn2).
  destruct (t_seemsBiggerThan_law (the_tree m1) l1 (the_tree m2) l2) as (b & -> & Hb); [apply Ht1|apply Ht2|]. cbn [obind].
  destruct b.
  - destruct (and_trees_ok fuel m2 m1 l2 l1 Ht2 Ht1 Hb ltac:(lia)) as (d & s & l' & -> & Hd & Hu & _). cbn [obind].
    do 3 eexists. split; [done|]. cbn [chosen ref_models]. apply (tree_models d l'); [done|].
    intros v. rewrite elem_of_intersection, Hu, Hl1, Hl2. tauto.
  - destruct (and_trees_ok fuel m1 m2 l1 l2 Ht1 Ht2 Hb ltac:(lia)) as (d & s & l' & -> & Hd & Hu & _). cbn [obind].
    do 3 eexists. split; [done|]. cbn [chosen ref_models]. apply (tree_models d l'); [done|].
    intros v. rewrite elem_of_intersection, Hu, Hl1, Hl2. tauto.
Qed.

End bitmap.
End BitmapOps.
