(* ===== verification/TreeBitmap.v ===== *)
(** * Sparse bitmaps over the B+ tree ([common/classes/sparse_bitmap.h], [tree.h])

    The B+ tree of buckets implements the interface [BitmapTree] and has its
    laws; what a sparse bitmap promises, for every tree with these laws, and so
    for the one the engine uses. *)

From S2P Require Import Prelude.
From S2P Require Import BePlusTree.
From S2P Require Import TreeSpec.
From S2P Require Import TreeAdd.
From S2P Require Import TreeErase.
From S2P Require Import TreeClient.
From S2P Require Import SparseBitmap.
From S2P Require Import BitmapScan.
From S2P Require Import BitmapOps.
From stdpp Require Import gmap sorting.
#[local] Open Scope Z_scope.

Module TreeBitmap.

(** ** The tree of buckets *)

Section implementation.
Import SparseBitmap.
Import BePlusTree TreeSpec TreeAdd TreeErase TreeClient.

Context (leaf_count node_count : nat) (Hleaf : (1 <= leaf_count)%nat) (Hnode : (2 <= node_count)%nat).

(** [BePlusTree<Bucket, T, MemoryPool, Bucket>]; the pool is not exhausted. *)
Definition bucket_params : TreeParams :=
  {| Value := Bucket; key := start_value; LeafCount := leaf_count; NodeCount := node_count; pool := fun _ => true |}.

#[local] Existing Instance bucket_params.

Definition bucket_tree : BitmapTree := {|
  SparseBitmap.BTree := tree;
  SparseBitmap.Position := Accessor;
  t_new := empty_tree;
  t_nowhere := mk_accessor None 0;
  t_isEmpty := isEmpty;
  t_add b t := let* (r, t) := add b t in match r with Added x => Ret (x, t) | Raised => Throw BadAlloc end;
  t_locate := locate;
  t_getFirst := getFirst;
  t_getLast := getLast;
  t_getNext := getNext;
  t_getPrev := getPrev;
  t_current := current;
  t_set_bits v a t := let* b := current a t in set_current (mk_bucket (start_value b) v) a t;
  t_fastRemove := fastRemove;
  t_clear := clear;
  t_seemsBiggerThan := seemsBiggerThan
|}.

Definition standing (t : tree) (a : Accessor) (l1 : list Bucket) (x : Bucket) (l2 : list Bucket) : Prop :=
  positioned t (l1 ++ x :: l2) a (length l1).

Lemma positioned_represents t l a i : positioned t l a i -> represents t l.
Proof. intros (D & Ns & H & _). by eapply represents_wf. Qed.

(** Going through a tree shows its items: they are determined. *)
Lemma represents_unique t l l' : represents t l -> represents t l' -> l = l'.
Proof.
  intros H H'. destruct (getFirst_spec (mk_accessor None 0) t l H) as (a & E & Ha).
  destruct (getFirst_spec (mk_accessor None 0) t l' H') as (a' & E' & Ha'). rewrite E in E'.
  injection E' as En <-. destruct l as [|x l], l' as [|x' l']; try done.
  pose proof (tree_listing_ok t (x :: l) (length (x :: l) + length (x' :: l')) a 0 (Ha ltac:(done)) ltac:(lia)) as E1.
  pose proof (tree_listing_ok t (x' :: l') (length (x :: l) + length (x' :: l')) a 0 (Ha' ltac:(done)) ltac:(lia)) as E2.
  rewrite !drop_0 in *. congruence.
Qed.

(** A sorted list around a key. *)
Lemma split_key (l : list Bucket) k :
  ascending start_value l ->
  exists X M Z, l = X ++ M ++ Z /\ Forall (fun x => start_value x < k) X /\
    (M = [] \/ exists m, M = [m] /\ start_value m = k) /\ Forall (fun z => k < start_value z) Z.
Proof.
  intros Ha. destruct (ascending_split start_value l k Ha) as (X & Y & -> & HX & HY). exists X.
  destruct Y as [|y Y]; [exists [], []; auto|]. apply list.Forall_cons in HY as [Hy HY].
  apply ascending_app in Ha as (_ & Ha & _). apply ascending_cons in Ha as [Hlt _].
  destruct (decide (start_value y = k)) as [E|E].
  - exists [y], Y. split_and!; [done|done|right; by exists y|]. eapply list.Forall_impl; [exact Hlt|]. cbn. lia.
  - exists [], (y :: Y). split_and!; [done|done|by left|]. constructor; [lia|].
    eapply list.Forall_impl; [exact Hlt|]. cbn. lia.
Qed.

(** The places of the searches, in terms of the list. *)
Lemma loc_index_place lt k l :
  ascending key l ->
  match loc_index lt k l with
  | Some i => exists l1 x l2, l = l1 ++ x :: l2 /\ length l1 = i /\ found_place lt k l1 x l2
  | None => no_place lt k l
  end.
Proof.
  intros Ha. destruct (split_key l k Ha) as (X & M & Z & -> & HX & HM & HZ).
  assert (HMZ : Forall (fun y => k <= start_value y) (M ++ Z)).
  { apply list.Forall_app. split; [|eapply list.Forall_impl; [exact HZ|]; cbn; lia].
    destruct HM as [->|(m & -> & E)]; [constructor|]. constructor; [lia|constructor]. }
  assert (HXM : Forall (fun y => start_value y < k + 1) (X ++ M)).
  { apply list.Forall_app. split; [eapply list.Forall_impl; [exact HX|]; cbn; lia|].
    destruct HM as [->|(m & -> & E)]; [constructor|]. constructor; [lia|constructor]. }
  assert (HZ' : Forall (fun y => k + 1 <= start_value y) Z) by (eapply list.Forall_impl; [exact HZ|]; cbn; lia).
  assert (En : count_below k (X ++ M ++ Z) = length X).
  { exact (count_below_split (P := bucket_params) k X (M ++ Z) HX HMZ). }
  assert (En' : count_below (k + 1) (X ++ M ++ Z) = length (X ++ M)).
  { rewrite app_assoc. exact (count_below_split (P := bucket_params) (k + 1) (X ++ M) Z HXM HZ'). }
  assert (Ep : present k (X ++ M ++ Z) = match M ++ Z with y :: _ => key y =? k | [] => false end).
  { exact (present_split (P := bucket_params) k X (M ++ Z) Ha HX HMZ). }
  unfold loc_index. rewrite En, En', Ep. unfold no_place, found_place. cbn [Value key bucket_params].
  clear En En' Ep. destruct lt.
  - destruct HM as [->|(m & -> & E)]; cbn [app].
    + assert (E : match Z with y :: _ => start_value y =? k | [] => false end = false).
      { destruct Z as [|z Z]; [done|]. apply list.Forall_cons in HZ as [Hz _]. apply Z.eqb_neq. change (start_value z <> k). lia. }
      rewrite E. apply list.Forall_app. split; (eapply list.Forall_impl; [eassumption|]); cbn; lia.
    + rewrite E, Z.eqb_refl. by exists X, m, Z.
  - destruct X as [|x X _] using rev_ind; [done|]. rewrite length_app, Nat.add_comm. cbn [length Nat.add Nat.eqb].
    exists X, x, (M ++ Z). rewrite <-app_assoc. split_and!; [done|cbn; lia| |done].
    apply list.Forall_app in HX as [_ HX]. by apply list.Forall_cons in HX as [? _].
  - destruct (Nat.ltb_spec (length (X ++ M)) (length (X ++ M ++ Z))) as [Hl|Hl].
    + destruct Z as [|z Z]; [rewrite app_nil_r in Hl; lia|]. exists (X ++ M), z, Z. rewrite <-app_assoc.
      split_and!; [done|done| |by apply list.Forall_cons in HZ as [? _]]. eapply list.Forall_impl; [exact HXM|]. cbn. lia.
    + assert (Z = []) as -> by (destruct Z; [done|rewrite !length_app in Hl; cbn in Hl; lia]).
      rewrite app_nil_r. eapply list.Forall_impl; [exact HXM|]. cbn. lia.
  - destruct (Nat.ltb_spec (length X) (length (X ++ M ++ Z))) as [Hl|Hl].
    + destruct (M ++ Z) as [|z Y]; [rewrite app_nil_r in Hl; lia|]. exists X, z, Y.
      apply list.Forall_cons in HMZ as [? _]. by split_and!.
    + assert (M ++ Z = []) as -> by (destruct (M ++ Z); [done|rewrite !length_app in Hl; cbn in Hl; lia]).
      by rewrite app_nil_r.
  - rewrite (app_assoc X M Z). destruct (X ++ M) as [|x XM _] using rev_ind; cbn [app].
    + cbn [length Nat.eqb]. done.
    + rewrite length_app, Nat.add_comm. cbn [length Nat.add Nat.eqb]. exists XM, x, Z. rewrite <-app_assoc.
      split_and!; [done|cbn; lia| |done]. apply list.Forall_app in HXM as [_ HXM].
      apply list.Forall_cons in HXM as [? _]. lia.
Qed.

(** An accessor at an index stands on the item there. *)
Lemma positioned_standing t (l : list Bucket) a i :
  positioned t l a i -> exists l1 x l2, l = l1 ++ x :: l2 /\ length l1 = i /\ standing t a l1 x l2.
Proof.
  intros H. destruct (current_spec t l a i H) as (x & _ & Hx). apply list_elem_of_split_length in Hx as (l1 & l2 & -> & ->).
  by exists l1, x, l2.
Qed.

Lemma standing_at t a (l1 : list Bucket) x l2 i :
  positioned t (l1 ++ x :: l2) a i -> i = length l1 -> standing t a l1 x l2.
Proof. by intros H ->. Qed.

Lemma add_law t (l : list Bucket) b :
  represents t l -> Forall (fun y => start_value y <> start_value b) l ->
  exists t' l1 l2, @t_add bucket_tree b t = Ret (true, t') /\ l = l1 ++ l2 /\ represents t' (l1 ++ b :: l2).
Proof.
  intros H Hn. pose proof (represents_sorted _ _ H) as Ha.
  destruct (split_key l (start_value b) Ha) as (X & M & Z & -> & HX & HM & HZ).
  assert (M = []) as ->.
  { destruct HM as [HM|(m & -> & E)]; [done|]. apply list.Forall_app in Hn as [_ Hn]. by apply Forall_inv in Hn. }
  assert (HZ' : Forall (fun z => start_value b <= start_value z) Z) by (eapply list.Forall_impl; [exact HZ|]; cbn; lia).
  destruct (add_ok (P := bucket_params) Hleaf Hnode (fun _ => eq_refl) b t _ H) as (t' & E & H').
  cbn [app Value key bucket_params] in *. pose proof (put_item_split (P := bucket_params) b X Z HX HZ') as Ep.
  cbn [Value key bucket_params] in Ep. rewrite Ep in H'. clear Ep.
  pose proof (present_split (P := bucket_params) (start_value b) X Z Ha HX HZ') as Ep.
  cbn [Value key bucket_params] in Ep. rewrite Ep in E. clear Ep.
  exists t', X, Z.
  assert (E0 : match Z with y :: _ => start_value y =? start_value b | [] => false end = false).
  { destruct Z as [|z Z]; [done|]. apply Forall_inv in HZ. apply Z.eqb_neq. lia. }
  rewrite E0 in *. cbn [t_add bucket_tree]. by rewrite E.
Qed.

Lemma locate_law t (l : list Bucket) lt k a :
  represents t l ->
  exists found a', @t_locate bucket_tree lt k a t = Ret (found, a') /\
    if found then exists l1 x l2, l = l1 ++ x :: l2 /\ standing t a' l1 x l2 /\ found_place lt k l1 x l2
    else no_place lt k l.
Proof.
  intros H. destruct (locate_ok lt k a t l H) as (a' & E & Hi).
  pose proof (loc_index_place lt k l (represents_sorted _ _ H)) as Hp. cbn [t_locate bucket_tree].
  exists (match loc_index (P := bucket_params) lt k l with Some _ => true | None => false end), a'. split; [exact E|].
  destruct (loc_index (P := bucket_params) lt k l) as [i|]; [|done]. destruct Hp as (l1 & x & l2 & -> & <- & Hp).
  exists l1, x, l2. split; [done|]. by split; [exact (Hi _ eq_refl)|].
Qed.

Lemma current_law t a (l1 : list Bucket) x l2 : standing t a l1 x l2 -> current a t = Ret x.
Proof.
  intros H. destruct (current_spec t _ a _ H) as (y & E & Hy).
  cbn [Value bucket_params] in Hy. rewrite (list_lookup_middle l1 l2 x _ eq_refl) in Hy. by injection Hy as <-.
Qed.

Lemma set_bits_law t a (l1 : list Bucket) x l2 v :
  standing t a l1 x l2 ->
  exists t', @t_set_bits bucket_tree v a t = Ret t' /\ standing t' a l1 (mk_bucket (start_value x) v) l2.
Proof.
  intros H. pose proof (current_law _ _ _ _ _ H) as E.
  destruct (set_current_spec t _ a _ x (mk_bucket (start_value x) v) H (list_lookup_middle l1 l2 x _ eq_refl) eq_refl)
    as (t' & E' & H').
  exists t'. cbn [t_set_bits bucket_tree]. rewrite E. cbn [obind]. split; [exact E'|]. unfold standing.
  cbn [Value bucket_params] in H'. rewrite insert_app_r_alt, Nat.sub_diag in H' by lia. exact H'.
Qed.

Lemma remove_law t a (l1 : list Bucket) x l2 :
  standing t a l1 x l2 ->
  exists a' t', fastRemove a t = Ret (negb (length l2 =? 0)%nat, a', t') /\
    match l2 with [] => represents t' l1 | y :: l2 => standing t' a' l1 y l2 end.
Proof.
  intros H. destruct (fastRemove_ok (P := bucket_params) Hleaf Hnode t _ a _ H) as (a' & t' & E & H' & Hp).
  cbn [Value bucket_params] in *. rewrite delete_middle in *. exists a', t'.
  destruct l2 as [|y l2]; cbn [length Nat.eqb negb].
  - rewrite app_nil_r in *. rewrite Nat.ltb_irrefl in E. by split.
  - assert (Hlt : (length l1 < length (l1 ++ y :: l2))%nat) by (rewrite length_app; cbn; lia).
    rewrite (proj2 (Nat.ltb_lt _ _) Hlt) in E. split; [exact E|exact (Hp Hlt)].
Qed.

Lemma next_law t a (l1 : list Bucket) x l2 :
  standing t a l1 x l2 ->
  exists a', getNext a t = Ret (negb (length l2 =? 0)%nat, a') /\
    match l2 with [] => a' = a | y :: l2 => standing t a' (l1 ++ [x]) y l2 end.
Proof.
  intros H. destruct (getNext_spec t _ a _ H) as (a' & E & Ha). exists a'.
  cbn [Value bucket_params] in *. rewrite length_app in *. destruct l2 as [|y l2]; cbn [length Nat.eqb negb] in *.
  - rewrite (proj2 (Nat.ltb_ge _ _)) in * by lia. by split.
  - rewrite (proj2 (Nat.ltb_lt _ _)) in * by lia. split; [exact E|]. unfold standing. rewrite <-app_assoc, length_app.
    cbn [app length]. by rewrite Nat.add_1_r.
Qed.

Lemma prev_law t a (l1 : list Bucket) x l2 :
  standing t a l1 x l2 ->
  exists a', getPrev a t = Ret (negb (length l1 =? 0)%nat, a') /\
    forall l0 y, l1 = l0 ++ [y] -> standing t a' l0 y (x :: l2).
Proof.
  intros H. destruct (getPrev_spec t _ a _ H) as (a' & E & Ha). exists a'. split; [exact E|].
  intros l0 y ->. unfold standing. rewrite <-app_assoc in Ha. rewrite length_app in Ha. cbn [app length] in Ha.
  by rewrite Nat.add_sub in Ha.
Qed.

Lemma first_law t (l : list Bucket) a :
  represents t l ->
  exists a', getFirst a t = Ret (negb (length l =? 0)%nat, a') /\
    match l with [] => True | x :: l2 => standing t a' [] x l2 end.
Proof.
  intros H. destruct (getFirst_spec a t l H) as (a' & E & Ha). exists a'. split; [exact E|].
  destruct l as [|x l]; [done|]. by apply Ha.
Qed.

Lemma last_law t (l : list Bucket) a :
  represents t l ->
  exists a', getLast a t = Ret (negb (length l =? 0)%nat, a') /\
    forall l1 x, l = l1 ++ [x] -> standing t a' l1 x [].
Proof.
  intros H. destruct (getLast_spec a t l H) as (a' & E & Ha). exists a'. split; [exact E|].
  intros l1 x ->. eapply standing_at; [apply Ha; by destruct l1|]. cbn [Value bucket_params]. rewrite length_app. cbn. lia.
Qed.

Lemma clear_law t (l : list Bucket) : represents t l -> exists t', clear t = Ret t' /\ represents t' [].
Proof.
  intros [(Hr & Hl & ->)|(D & Ns & H)]; [|destruct (tree_clear_ok _ _ _ _ H) as (t' & E & H' & _); eauto].
  exists t. split; [unfold clear; by rewrite Hr|]. by left.
Qed.

#[global] Instance bucket_laws : BitmapTreeLaws bucket_tree :=
  @Build_BitmapTreeLaws bucket_tree (represents (P := bucket_params)) standing
    (or_introl (conj eq_refl (conj eq_refl eq_refl)))
    (represents_sorted (P := bucket_params)) represents_unique
    (fun t a l1 x l2 => positioned_represents t (l1 ++ x :: l2) a (length l1))
    (isEmpty_spec (P := bucket_params)) add_law locate_law first_law last_law next_law prev_law current_law
    set_bits_law remove_law clear_law (seemsBiggerThan_spec (P := bucket_params)).

End implementation.
End TreeBitmap.
