(* ===== verification/BitmapClient.v ===== *)
(** * Sparse bitmaps: what their users see ([common/classes/sparse_bitmap.h])

    Sequences of calls on a bitmap, next to the same operations on a finite
    set; union and intersection of the bitmaps such calls make; the searches
    downwards.  The theorems hold for every tree with the laws of
    [BitmapTree]; the witnesses run them on the B+ tree. *)

From S2P Require Import Prelude.
From S2P Require Import BePlusTree.
From S2P Require Import SparseBitmap.
From S2P Require Import BitmapScan.
From S2P Require Import BitmapOps.
From S2P Require Import TreeBitmap.
From stdpp Require Import gmap sorting.
#[local] Open Scope Z_scope.

Module BitmapClient.
Import BePlusTree(LocType(..)).
Import SparseBitmap BitmapScan BitmapOps.

Section client.
Context (ty : BitmapTypes) (T : value_type) {B : BitmapTree} {BL : BitmapTreeLaws B}.

(** ** Sequences of calls *)

Inductive op :=
  | Add (v : Z)
  | Remove (v : Z)
  | Test (v : Z)
  | Find (lt : LocType) (k : Z)
  | Up
  | Down
  | Empty.

Inductive answer := Done | Yes (b : bool) | Found (v : option Z) | Listed (l : list Z).

(** The values from an accessor on, with [getNext] and with [getPrev]. *)
Fixpoint upwards (fuel : nat) (a : Accessor) (m : bitmap) : outcome (list Z) :=
  match fuel with
  | O => Throw Overrun
  | S fuel =>
      let* (more, a') := getNext ty T a m in
      if more then let* l := upwards fuel a' m in Ret (current_value a :: l) else Ret [current_value a]
  end.

Fixpoint downwards (fuel : nat) (a : Accessor) (m : bitmap) : outcome (list Z) :=
  match fuel with
  | O => Throw Overrun
  | S fuel =>
      let* (more, a') := getPrev ty T a m in
      if more then let* l := downwards fuel a' m in Ret (current_value a :: l) else Ret [current_value a]
  end.

Definition listing (fuel : nat) (m : bitmap) : outcome (list Z) :=
  let* (some, a) := getFirst ty T new_Accessor (Some m) in
  if some then upwards fuel a m else Ret [].

Definition gnitsil (fuel : nat) (m : bitmap) : outcome (list Z) :=
  let* (some, a) := getLast ty T new_Accessor (Some m) in
  if some then downwards fuel a m else Ret [].

Definition call (fuel : nat) (o : op) (m : bitmap) : outcome (answer * bitmap) :=
  match o with
  | Add v => let* m := set ty T v m in Ret (Done, m)
  | Remove v => let* (b, m) := clear ty T v m in Ret (Yes b, m)
  | Test v => let* b := test ty T v m in Ret (Yes b, m)
  | Find lt k =>
      let* (b, a) := locate ty T lt k new_Accessor (Some m) in
      Ret (Found (if b then Some (current_value a) else None), m)
  | Up => let* l := listing fuel m in Ret (Listed l, m)
  | Down => let* l := gnitsil fuel m in Ret (Listed l, m)
  | Empty => let* m := clear_all m in Ret (Done, m)
  end.

Fixpoint run (fuel : nat) (os : list op) (m : bitmap) : outcome (list answer * bitmap) :=
  match os with
  | [] => Ret ([], m)
  | o :: os =>
      let* (r, m) := call fuel o m in
      let* (rs, m) := run fuel os m in
      Ret (r :: rs, m)
  end.

(** ** The same on a finite set *)

Definition sorted (s : gset Z) : list Z := merge_sort Z.le (elements s).

Definition call_set (o : op) (s : gset Z) : answer * gset Z :=
  match o with
  | Add v => (Done, {[v]} ∪ s)
  | Remove v => (Yes (bool_decide (v ∈ s)), s ∖ {[v]})
  | Test v => (Yes (bool_decide (v ∈ s)), s)
  | Find lt k => (Found (head (filter (fun v => locate_singular lt k v = true) (sorted s))), s)
  | Up => (Listed (sorted s), s)
  | Down => (Listed (reverse (sorted s)), s)
  | Empty => (Done, ∅)
  end.

Fixpoint run_set (os : list op) (s : gset Z) : list answer * gset Z :=
  match os with
  | [] => ([], s)
  | o :: os => let (r, s) := call_set o s in let (rs, s) := run_set os s in (r :: rs, s)
  end.

(** The arguments are values of the type [T]; the searches do not go
    downwards. *)
Definition op_in_range (o : op) : Prop :=
  match o with
  | Add v | Remove v | Test v => 0 <= v < 2 ^ T_BITS T
  | Find lt k => 0 <= k < 2 ^ T_BITS T /\ (lt = locEqual \/ lt = locGreatEqual \/ lt = locGreat)
  | Up | Down | Empty => True
  end.

(** ** Sorted lists of values *)

Lemma sorted_elem s v : v ∈ sorted s <-> v ∈ s.
Proof. unfold sorted. rewrite merge_sort_Permutation. apply elem_of_elements. Qed.

Lemma sorted_NoDup s : NoDup (sorted s).
Proof. unfold sorted. rewrite merge_sort_Permutation. apply NoDup_elements. Qed.

Lemma sorted_sorted s : StronglySorted Z.lt (sorted s).
Proof.
  pose proof (sorted_NoDup s) as Hd. assert (Hs : StronglySorted Z.le (sorted s)) by (apply StronglySorted_merge_sort; [apply _..]).
  induction Hs as [|v l Hs IH Hv]; [constructor|]. apply list.NoDup_cons in Hd as [Hn Hd]. constructor; [auto|].
  rewrite list.Forall_forall in Hv |- *. intros u Hu. specialize (Hv u Hu). assert (u <> v) by (by intros ->). lia.
Qed.

Lemma sorted_unique l l' :
  StronglySorted Z.lt l -> StronglySorted Z.lt l' -> (forall v, v ∈ l <-> v ∈ l') -> l = l'.
Proof.
  intros H H' E.
  assert (Hd : forall l, StronglySorted Z.lt l -> NoDup l).
  { clear. induction 1 as [|v l Hs IH Hv]; [constructor|]. constructor; [|done]. intros Hin.
    rewrite list.Forall_forall in Hv. specialize (Hv v Hin). lia. }
  apply (StronglySorted_unique_strong Z.lt); [intros; lia|done|done|]. apply NoDup_Permutation; auto.
Qed.

(** The first value of a sorted list that satisfies a condition. *)
Lemma head_filter (P : Z -> Prop) `{forall v, Decision (P v)} s :
  (forall v, v ∈ s -> ~ P v) -> head (filter P (sorted s)) = None.
Proof.
  intros Hn. destruct (filter P (sorted s)) as [|v l] eqn:E; [done|]. exfalso.
  assert (Hv : v ∈ filter P (sorted s)) by (rewrite E; left). apply list_elem_of_filter in Hv as [Hp Hv].
  apply sorted_elem in Hv. by apply (Hn v).
Qed.

Lemma head_filter_least (P : Z -> Prop) `{forall v, Decision (P v)} s v :
  v ∈ s -> P v -> (forall u, u ∈ s -> P u -> v <= u) -> head (filter P (sorted s)) = Some v.
Proof.
  intros Hv Hp Hl. assert (Hin : v ∈ filter P (sorted s)) by (by apply list_elem_of_filter; rewrite sorted_elem).
  pose proof (sorted_sorted s) as Hs. assert (Hf : StronglySorted Z.lt (filter P (sorted s))).
  { clear -Hs. induction Hs as [|w l Hs IH Hw]; [constructor|]. destruct (decide (P w)).
    - rewrite filter_cons_True by done. constructor; [done|]. rewrite list.Forall_forall in Hw |- *.
      intros u Hu. apply list_elem_of_filter in Hu as [_ Hu]. auto.
    - by rewrite filter_cons_False. }
  assert (Hall : forall u, u ∈ filter P (sorted s) -> v <= u).
  { intros u Hu. apply list_elem_of_filter in Hu as [Hu1 Hu]. apply sorted_elem in Hu. auto. }
  destruct Hf as [|w l Hf Hw]; [by apply not_elem_of_nil in Hin|]. cbn. f_equal.
  apply elem_of_cons in Hin as [->|Hin]; [done|]. rewrite list.Forall_forall in Hw. specialize (Hw v Hin).
  specialize (Hall w ltac:(left)). lia.
Qed.

(** ** The listings *)

(** What [models] and [on] promise of a walk upwards. *)
Lemma upwards_ok fuel a m s v :
  models ty T m s -> on ty m a v -> v ∈ s -> (size (filter (fun u => (v <= u)%Z) s) <= fuel)%nat ->
  exists l, upwards fuel a m = Ret l /\ StronglySorted Z.lt l /\ forall u, u ∈ l <-> u ∈ s /\ v <= u.
Proof.
  intros Hm. revert a v. induction fuel as [|fuel IH]; intros a v Ho Hv Hf.
  { assert (E : size (filter (fun u => (v <= u)%Z) s) = 0%nat) by lia. apply size_empty_inv in E.
    specialize (E v). rewrite elem_of_filter in E. set_solver by lia. }
  cbn [upwards]. destruct (getNext_ok ty T a m s v Hm Ho) as (b & a' & -> & H). cbn [obind].
  assert (current_value a = v) as -> by apply Ho. destruct b.
  - destruct H as (v' & Ho' & Hv' & Hlt & Hl). destruct (IH a' v' Ho' Hv') as (l & -> & Hs & Hl').
    { enough (size (filter (fun u => (v' <= u)%Z) s) < size (filter (fun u => (v <= u)%Z) s))%nat by lia.
      apply subset_size. split; [intros u; rewrite !elem_of_filter; intuition lia|].
      intros Hsub. specialize (Hsub v). rewrite !elem_of_filter in Hsub. assert (v' <= v) by (apply Hsub; split; [lia|done]). lia. }
    cbn [obind]. exists (v :: l). split; [done|]. split.
    + constructor; [done|]. rewrite list.Forall_forall. intros u Hu. apply Hl' in Hu as [_ Hu]. lia.
    + intros u. rewrite elem_of_cons, Hl'. split; [intros [->|[Hu1 Hu2]]; split; (done || lia)|].
      intros [Hu1 Hu2]. destruct (decide (u = v)) as [->|]; [by left|right]. split; [done|]. apply Hl; [done|lia].
  - destruct H as [_ Hl]. exists [v]. split; [done|]. split; [repeat constructor|]. intros u. rewrite list_elem_of_singleton.
    split; [intros ->; split; [done|lia]|]. intros [Hu1 Hu2]. specialize (Hl u Hu1). lia.
Qed.

Lemma downwards_ok fuel a m s v :
  models ty T m s -> on ty m a v -> v ∈ s -> (size (filter (fun u => (u <= v)%Z) s) <= fuel)%nat ->
  exists l, downwards fuel a m = Ret l /\ StronglySorted (flip Z.lt) l /\ forall u, u ∈ l <-> u ∈ s /\ u <= v.
Proof.
  intros Hm. revert a v. induction fuel as [|fuel IH]; intros a v Ho Hv Hf.
  { assert (E : size (filter (fun u => (u <= v)%Z) s) = 0%nat) by lia. apply size_empty_inv in E.
    specialize (E v). rewrite elem_of_filter in E. set_solver by lia. }
  cbn [downwards]. destruct (getPrev_ok ty T a m s v Hm Ho) as (b & a' & -> & H). cbn [obind].
  assert (current_value a = v) as -> by apply Ho. destruct b.
  - destruct H as (v' & Ho' & Hv' & Hlt & Hl). destruct (IH a' v' Ho' Hv') as (l & -> & Hs & Hl').
    { enough (size (filter (fun u => (u <= v')%Z) s) < size (filter (fun u => (u <= v)%Z) s))%nat by lia.
      apply subset_size. split; [intros u; rewrite !elem_of_filter; intuition lia|].
      intros Hsub. specialize (Hsub v). rewrite !elem_of_filter in Hsub. assert (v <= v') by (apply Hsub; split; [lia|done]). lia. }
    cbn [obind]. exists (v :: l). split; [done|]. split.
    + constructor; [done|]. rewrite list.Forall_forall. intros u Hu. apply Hl' in Hu as [_ Hu]. cbn. lia.
    + intros u. rewrite elem_of_cons, Hl'. split; [intros [->|[Hu1 Hu2]]; split; (done || lia)|].
      intros [Hu1 Hu2]. destruct (decide (u = v)) as [->|]; [by left|right]. split; [done|]. apply Hl; [done|lia].
  - exists [v]. split; [done|]. split; [repeat constructor|]. intros u. rewrite list_elem_of_singleton.
    split; [intros ->; split; [done|lia]|]. intros [Hu1 Hu2]. specialize (H u Hu1). lia.
Qed.

Lemma filter_size (P : Z -> Prop) `{forall v, Decision (P v)} (s : gset Z) : (size (filter P s) <= size s)%nat.
Proof. apply subseteq_size. set_solver. Qed.

Lemma listing_ok fuel m s : models ty T m s -> (size s < fuel)%nat -> listing fuel m = Ret (sorted s).
Proof.
  intros Hm Hf. unfold listing. destruct (getFirst_ok ty T new_Accessor m s Hm) as (b & a & -> & H). cbn [obind]. destruct b.
  - destruct H as (v & Ho & Hv & Hl).
    destruct (upwards_ok fuel a m s v Hm Ho Hv) as (l & -> & Hs & Hlv); [pose proof (filter_size (fun u => (v <= u)%Z) s); lia|].
    f_equal. apply sorted_unique; [done|apply sorted_sorted|]. intros u. rewrite Hlv, sorted_elem. split; [by intros []|auto].
  - subst s. done.
Qed.

Lemma sorted_reverse l : StronglySorted (flip Z.lt) l -> StronglySorted Z.lt (reverse l).
Proof.
  induction 1 as [|v l Hs IH Hv]; [constructor|]. rewrite reverse_cons. clear Hs.
  assert (Hr : Forall (fun u => u < v) (reverse l)) by (by apply Forall_reverse).
  clear Hv. induction IH as [|u l' Hs IH Hu]; [repeat constructor|]. apply list.Forall_cons in Hr as [Hu' Hr].
  cbn. constructor; [auto|]. apply list.Forall_app. split; [done|]. by repeat constructor.
Qed.

Lemma gnitsil_ok fuel m s : models ty T m s -> (size s < fuel)%nat -> gnitsil fuel m = Ret (reverse (sorted s)).
Proof.
  intros Hm Hf. unfold gnitsil. destruct (getLast_ok ty T new_Accessor m s Hm) as (b & a & -> & H). cbn [obind]. destruct b.
  - destruct H as (v & Ho & Hv & Hl).
    destruct (downwards_ok fuel a m s v Hm Ho Hv) as (l & -> & Hs & Hlv); [pose proof (filter_size (fun u => (u <= v)%Z) s); lia|].
    f_equal. rewrite <-(reverse_involutive l). f_equal. apply sorted_unique; [by apply sorted_reverse|apply sorted_sorted|].
    intros u. rewrite elem_of_reverse, Hlv, sorted_elem. split; [by intros []|auto].
  - subst s. done.
Qed.

(** ** Every call *)

Lemma call_ok fuel o m s :
  models ty T m s -> op_in_range o -> (size s < fuel)%nat ->
  exists m', call fuel o m = Ret ((call_set o s).1, m') /\ models ty T m' (call_set o s).2.
Proof.
  intros Hm Ho Hf. destruct o as [v|v|v|lt k| | |]; cbn [call call_set op_in_range fst snd] in *.
  - destruct (set_ok ty T m s v Hm Ho) as (m' & -> & H). cbn. eauto.
  - destruct (clear_ok ty T m s v Hm Ho) as (m' & -> & H). cbn. eauto.
  - rewrite (test_ok ty T m s v Hm Ho). cbn. eauto.
  - destruct Ho as [Hk Hlt]. destruct (locate_up_ok ty T lt k new_Accessor m s Hm Hk Hlt) as (b & a & -> & H).
    cbn [obind]. exists m. split; [|done]. do 3 f_equal. symmetry. destruct b.
    + destruct H as (v & Hov & Hv & Hl & Hle). assert (current_value a = v) as -> by apply Hov.
      by apply head_filter_least.
    + apply head_filter. intros v Hv. by rewrite (H v Hv).
  - rewrite (listing_ok fuel m s Hm Hf). cbn. eauto.
  - rewrite (gnitsil_ok fuel m s Hm Hf). cbn. eauto.
  - destruct (clear_all_ok ty T m s Hm) as (m' & -> & H). cbn. eauto.
Qed.

Lemma call_size o s : (size (call_set o s).2 <= S (size s))%nat.
Proof.
  destruct o as [v|v|v|lt k| | |]; cbn [call_set snd]; try lia.
  - rewrite size_union_alt, size_singleton. pose proof (subseteq_size (s ∖ {[v]}) s ltac:(set_solver)). lia.
  - pose proof (subseteq_size (s ∖ {[v]}) s ltac:(set_solver)). lia.
  - rewrite size_empty. lia.
Qed.

Lemma calls_ok fuel os m s :
  models ty T m s -> Forall op_in_range os -> (size s + length os < fuel)%nat ->
  exists m', run fuel os m = Ret ((run_set os s).1, m') /\ models ty T m' (run_set os s).2 /\
    (size (run_set os s).2 <= size s + length os)%nat.
Proof.
  revert m s. induction os as [|o os IH]; intros m s Hm Ho Hf.
  { exists m. split_and!; [done|done|]. cbn. lia. }
  apply list.Forall_cons in Ho as [Ho Hos]. cbn [run run_set length] in *.
  destruct (call_ok fuel o m s Hm Ho ltac:(lia)) as (m1 & -> & Hm1). pose proof (call_size o s) as Hs.
  destruct (call_set o s) as [r s1]. cbn [obind fst snd] in *.
  destruct (IH m1 s1 Hm1 Hos ltac:(lia)) as (m2 & -> & Hm2 & Hs2). destruct (run_set os s1) as [rs s2].
  cbn [obind fst snd] in *. exists m2. split_and!; [done|done|lia].
Qed.

Lemma new_models : models ty T new_bitmap ∅.
Proof.
  unfold models. cbn. exists []. split_and!; [apply t_new_holds|constructor|]. intros v. pose proof (in_list_nil ty v). set_solver.
Qed.

(** The bitmap some calls make from an empty one. *)
Definition made (fuel : nat) (os : list op) : bitmap :=
  match run fuel os new_bitmap with Ret (_, m) => m | Throw _ => new_bitmap end.

Lemma made_models fuel os :
  Forall op_in_range os -> (length os < fuel)%nat ->
  models ty T (made fuel os) (run_set os ∅).2 /\ (size (run_set os ∅).2 <= length os)%nat.
Proof.
  intros Ho Hf. destruct (calls_ok fuel os new_bitmap ∅ new_models Ho) as (m & E & Hm & Hs); [by rewrite size_empty|].
  unfold made. rewrite E. by rewrite size_empty in Hs.
Qed.

(** ** Properties *)

(** C15: A bitmap is a finite set of integers.  Whatever sequence of [set],
    [clear], [test], upward [locate], walks from [getFirst] with [getNext],
    walks from [getLast] with [getPrev] and [clear()] is made on an empty
    bitmap, it gives the answers the same sequence gives on a set: the walks
    list the values in order, [locate] finds the least value that qualifies. *)
Theorem bitmap_refines_set fuel os :
  Forall op_in_range os -> (length os < fuel)%nat ->
  exists m, run fuel os new_bitmap = Ret ((run_set os ∅).1, m).
Proof.
  intros Ho Hf. destruct (calls_ok fuel os new_bitmap ∅ new_models Ho) as (m & E & _); [by rewrite size_empty|]. eauto.
Qed.

(** What the returned pointer of [bit_or] and [bit_and] shows. *)
Definition listed (fuel : nat) (o : outcome (which * bitmap_ref * bitmap_ref)) : outcome (list Z) :=
  let* (w, r1, r2) := o in
  match chosen w r1 r2 with Some (Some m) => listing fuel m | _ => Ret [] end.

Lemma listed_ok fuel w r1 r2 s :
  ref_models ty T (chosen w r1 r2) s -> (size s < fuel)%nat -> listed fuel (Ret (w, r1, r2)) = Ret (sorted s).
Proof.
  unfold listed. cbn [obind]. destruct (chosen w r1 r2) as [[m|]|]; cbn [ref_models].
  - apply listing_ok.
  - by intros ->.
  - by intros ->.
Qed.

(** [bit_or] of two bitmaps, made by any calls, returns a bitmap of the
    values that are in one of them. *)
Theorem bit_or_union fuel os os' :
  Forall op_in_range os -> Forall op_in_range os' -> (length os + length os' < fuel)%nat ->
  listed fuel (bit_or ty T fuel (Some (Some (made fuel os))) (Some (Some (made fuel os')))) =
    Ret (sorted ((run_set os ∅).2 ∪ (run_set os' ∅).2)).
Proof.
  intros Ho Ho' Hf. destruct (made_models fuel os Ho ltac:(lia)) as [Hm Hs].
  destruct (made_models fuel os' Ho' ltac:(lia)) as [Hm' Hs'].
  destruct (bit_or_ok ty T fuel (Some (Some (made fuel os))) (Some (Some (made fuel os'))) _ _ Hm Hm' ltac:(lia))
    as (w & r1 & r2 & -> & H).
  apply listed_ok; [exact H|]. rewrite size_union_alt.
  pose proof (subseteq_size ((run_set os' ∅).2 ∖ (run_set os ∅).2) (run_set os' ∅).2 ltac:(set_solver)). lia.
Qed.

(** [bit_and] of two bitmaps, made by any calls, returns a bitmap of the
    values that are in both. *)
Theorem bit_and_intersection fuel os os' :
  Forall op_in_range os -> Forall op_in_range os' -> (length os + length os' < fuel)%nat ->
  listed fuel (bit_and ty T fuel (Some (Some (made fuel os))) (Some (Some (made fuel os')))) =
    Ret (sorted ((run_set os ∅).2 ∩ (run_set os' ∅).2)).
Proof.
  intros Ho Ho' Hf. destruct (made_models fuel os Ho ltac:(lia)) as [Hm Hs].
  destruct (made_models fuel os' Ho' ltac:(lia)) as [Hm' Hs'].
  destruct (bit_and_ok ty T fuel (Some (Some (made fuel os))) (Some (Some (made fuel os'))) _ _ Hm Hm' ltac:(lia))
    as (w & r1 & r2 & -> & H).
  apply listed_ok; [exact H|].
  pose proof (subseteq_size ((run_set os ∅).2 ∩ (run_set os' ∅).2) (run_set os' ∅).2 ltac:(set_solver)). lia.
Qed.

(** The searches [locLess] and [locLessEqual], in a bitmap that is a tree:
    they answer whether there is a value to find, but where the bitmap has no
    value in the bucket of the key, the value of the accessor is too small by
    the width of a bucket less one (below 0 it wraps around). *)
Theorem locate_down_misplaced fuel os lt k :
  Forall op_in_range os -> (length os < fuel)%nat -> 0 <= k < 2 ^ T_BITS T -> lt = locLessEqual \/ lt = locLess ->
  singular (made fuel os) = false ->
  let s := (run_set os ∅).2 in
  let k' := match lt with locLess => k - 1 | _ => k end in
  exists b a, locate ty T lt k new_Accessor (Some (made fuel os)) = Ret (b, a) /\
    if b then exists v, v ∈ s /\ v <= k' /\ (forall u, u ∈ s -> u <= k' -> u <= v) /\
      current_value a = (if decide (bucket_present ty T s k') then v else (v - (BUNCH_BITS ty - 1)) mod 2 ^ T_BITS T)
    else forall u, u ∈ s -> k' < u.
Proof.
  intros Ho Hf Hk Hlt Es. cbv zeta. destruct (made_models fuel os Ho Hf) as [Hm _].
  destruct (locate_down_ok ty T lt k new_Accessor _ _ Es Hm Hk Hlt) as (b & a & E & H). exists b, a. split; [exact E|].
  assert (Hl : forall u, locate_singular lt k u = true <-> u <= match lt with locLess => k - 1 | _ => k end).
  { intros u. destruct Hlt as [-> | ->]; cbn; lia. }
  destruct b.
  - destruct H as (v & Hv & H1 & H2 & _ & H3). exists v. split_and!; [done|by apply Hl| |exact H3].
    intros u Hu Hle. apply H2; [done|by apply Hl].
  - intros u Hu. specialize (H u Hu). destruct (Z.le_gt_cases u (match lt with locLess => k - 1 | _ => k end)) as [Hle|]; [|lia].
    apply Hl in Hle. congruence.
Qed.

End client.

(** ** Examples, over the B+ tree with small pages *)

Section examples.
Import TreeBitmap.

#[local] Instance small_buckets : BitmapTree := bucket_tree 3 2.
#[local] Instance small_laws : BitmapTreeLaws small_buckets := bucket_laws 3 2 ltac:(lia) ltac:(lia).

Ltac ops_in_range :=
  repeat (apply list.Forall_cons_2; [cbn; first [exact I | lia | (split; [lia|auto])]|]); apply list.Forall_nil_2.

Definition values : list Z := [5; 40; 41; 4294967295; 1000; 70; 300; 301; 0; 31; 2000; 3000].

Lemma bitmap_refines_set_witness :
  exists m, run BitmapTypes_32 T_ULONG 30
    (map Add values ++ [Remove 300; Remove 302; Test 301; Test 300; Find locGreatEqual 302; Find locGreat 3000;
      Find locEqual 6; Up; Down; Empty; Up; Add 7; Find locGreat 6]) new_bitmap =
    Ret (repeat Done 12 ++ [Yes true; Yes false; Yes true; Yes false; Found (Some 1000); Found (Some 4294967295);
      Found None; Listed [0; 5; 31; 40; 41; 70; 301; 1000; 2000; 3000; 4294967295];
      Listed [4294967295; 3000; 2000; 1000; 301; 70; 41; 40; 31; 5; 0]; Done; Listed []; Done; Found (Some 7)], m).
Proof.
  refine (bitmap_refines_set BitmapTypes_32 T_ULONG 30 (map Add values ++ [Remove 300; Remove 302; Test 301; Test 300;
    Find locGreatEqual 302; Find locGreat 3000; Find locEqual 6; Up; Down; Empty; Up; Add 7; Find locGreat 6]) _ _).
  - ops_in_range.
  - cbn. lia.
Defined.

Lemma bit_or_union_witness :
  listed BitmapTypes_32 T_ULONG 20
    (bit_or BitmapTypes_32 T_ULONG 20 (Some (Some (made BitmapTypes_32 T_ULONG 20 (map Add values))))
      (Some (Some (made BitmapTypes_32 T_ULONG 20 [Add 6; Add 500; Add 40; Add 100000])))) =
    Ret [0; 5; 6; 31; 40; 41; 70; 300; 301; 500; 1000; 2000; 3000; 100000; 4294967295].
Proof.
  refine (bit_or_union BitmapTypes_32 T_ULONG 20 (map Add values) [Add 6; Add 500; Add 40; Add 100000] _ _ _).
  - ops_in_range.
  - ops_in_range.
  - cbn. lia.
Defined.

Lemma bit_and_intersection_witness :
  listed BitmapTypes_32 T_ULONG 20
    (bit_and BitmapTypes_32 T_ULONG 20 (Some (Some (made BitmapTypes_32 T_ULONG 20 (map Add values))))
      (Some (Some (made BitmapTypes_32 T_ULONG 20 [Add 6; Add 500; Add 40; Add 2000; Add 302])))) =
    Ret [40; 2000].
Proof.
  refine (bit_and_intersection BitmapTypes_32 T_ULONG 20 (map Add values) [Add 6; Add 500; Add 40; Add 2000; Add 302] _ _ _).
  - ops_in_range.
  - ops_in_range.
  - cbn. lia.
Defined.

(** 31 is the greatest value up to 200 of [{5, 31}], and the accessor shows 0. *)
Lemma locate_down_misplaced_witness :
  let m := made BitmapTypes_32 T_ULONG 3 [Add 5; Add 31] in
  let s := (run_set [Add 5; Add 31] ∅).2 in
  exists b a, locate BitmapTypes_32 T_ULONG locLessEqual 200 new_Accessor (Some m) = Ret (b, a) /\
    if b then exists v, v ∈ s /\ v <= 200 /\ (forall u, u ∈ s -> u <= 200 -> u <= v) /\
      current_value a = (if decide (bucket_present BitmapTypes_32 T_ULONG s 200) then v else (v - 31) mod 2 ^ 32)
    else forall u, u ∈ s -> 200 < u.
Proof.
  refine (locate_down_misplaced BitmapTypes_32 T_ULONG 3 [Add 5; Add 31] locLessEqual 200 _ _ _ _ _).
  - ops_in_range.
  - cbn. lia.
  - cbn. lia.
  - by left.
  - vm_compute. reflexivity.
Defined.

Definition shown (o : outcome (bool * Accessor)) : option (bool * Z) :=
  match o with Ret (b, a) => Some (b, current_value a) | Throw _ => None end.

Example locate_shows_zero :
  shown (locate BitmapTypes_32 T_ULONG locLessEqual 200 new_Accessor
    (Some (made BitmapTypes_32 T_ULONG 3 [Add 5; Add 31]))) = Some (true, 0).
Proof. vm_compute. reflexivity. Qed.

End examples.
End BitmapClient.
