(* ===== verification/DataPage.v ===== *)
(** * Data pages ([jrd/dpm.epp], [jrd/ods.h])

    One data page: an index of lines, each the offset and length of a record
    fragment on the page, and the fragments, which grow from the end of the
    page towards the index.  Reading a header, compressing the page, finding
    space, storing, chaining a new version in front of an old one, backing it
    out, deleting a line.

    Theorems (here and in [DataPageOps]): the fragments stay within the page
    and apart; compression keeps them; a page is a table of fragments, bounded
    by their total length only. *)

From S2P Require Import Prelude.
From S2P Require Import Sqz.
From stdpp Require Import list.
#[local] Open Scope Z_scope.

Module DataPage.
Import Sqz.

(** ** Layout *)

Definition ODS_ALIGNMENT : Z := 4.
Definition ROUNDUP (n b : Z) : Z := Z.land (n + b - 1) (Z.lnot (b - 1)).

Definition MAX_PAGE_SIZE : Z := 16384.
Definition pag_data : Z := 5.

(** [sizeof] of [data_page], whose last member is one [dpg_repeat]. *)
Definition sizeof_data_page : Z := 28.
Definition sizeof_dpg_repeat : Z := 4.
Definition HIGH_WATER (x : Z) : Z := SSHORT sizeof_data_page + SSHORT sizeof_dpg_repeat * (x - 1).

(** Offsets of [rhd_data] in [rhd], and of [rhdf_data] in [rhdf]. *)
Definition RHD_SIZE : Z := 13.
Definition RHDF_SIZE : Z := 22.
Definition SPACE_FUDGE : Z := RHDF_SIZE.

(** Record flags, and their replicas in record parameters. *)
Definition rpb_deleted : Z := 1.
Definition rpb_chained : Z := 2.
Definition rpb_fragment : Z := 4.
Definition rpb_incomplete : Z := 8.
Definition rpb_blob : Z := 16.
Definition rpb_delta : Z := 32.
Definition rpb_damaged : Z := 128.
Definition rpb_gc_active : Z := 256.

Definition dpg_orphan : Z := 1.
Definition dpg_full : Z := 2.

Record dpg_repeat := mk_repeat { dpg_offset : Z; dpg_length : Z }.

(** [dpg_rpt] are the first [dpg_count] entries of the index; [page_bytes] is
    the buffer of the page, of which only the fragments are looked at. *)
Record data_page := mk_page {
  pag_type : Z;
  pag_flags : Z;
  dpg_sequence : Z;
  dpg_rpt : list dpg_repeat;
  page_bytes : list Z
}.

Definition dpg_count (p : data_page) : Z := Z.of_nat (length (dpg_rpt p)).

Definition with_rpt (l : list dpg_repeat) (p : data_page) : data_page :=
  mk_page (pag_type p) (pag_flags p) (dpg_sequence p) l (page_bytes p).
Definition with_bytes (b : list Z) (p : data_page) : data_page :=
  mk_page (pag_type p) (pag_flags p) (dpg_sequence p) (dpg_rpt p) b.
Definition with_flags (f : Z) (p : data_page) : data_page :=
  mk_page (pag_type p) f (dpg_sequence p) (dpg_rpt p) (page_bytes p).

(** [record_param]; a [Record] is named by a number, [rpb_address] points to
    [rpb_length] bytes. *)
Record record_param := mk_rpb {
  rpb_number : Z;
  rpb_transaction : Z;
  rpb_record : option nat;
  rpb_prior : option nat;
  rpb_format_number : Z;
  rpb_page : Z;
  rpb_line : Z;
  rpb_f_page : Z;
  rpb_f_line : Z;
  rpb_b_page : Z;
  rpb_b_line : Z;
  rpb_address : list Z;
  rpb_flags : Z
}.

(** ** Memory of a page *)

Definition bytes_at (b : list Z) (o n : Z) : outcome (list Z) :=
  if (0 <=? o) && (0 <=? n) && (o + n <=? Z.of_nat (length b))
  then Ret (take (Z.to_nat n) (drop (Z.to_nat o) b)) else Throw Overrun.

Definition put_at (b : list Z) (o : Z) (bs : list Z) : outcome (list Z) :=
  if (0 <=? o) && (o + Z.of_nat (length bs) <=? Z.of_nat (length b))
  then Ret (store b (Z.to_nat o) bs) else Throw Overrun.

(** An unsigned field of [n] bytes. *)
Definition field (b : list Z) (o n : Z) : outcome Z := let* x := bytes_at b o n in Ret (le_value x).

Definition entry (p : data_page) (line : Z) : outcome dpg_repeat :=
  if line <? 0 then Throw Overrun else
  match dpg_rpt p !! Z.to_nat line with Some x => Ret x | None => Throw Overrun end.

(** ** [get_header] *)

Definition get_header (win_page line : Z) (p : data_page) (rpb : record_param)
    : outcome (bool * record_param) :=
  if dpg_count p <=? line then Ret (false, rpb) else
  let* index := entry p line in
  if dpg_offset index =? 0 then Ret (false, rpb) else
  let b := page_bytes p in
  let o := dpg_offset index in
  let* flags := field b (o + 10) 2 in
  let* (b_page, b_line, transaction, format) :=
    (if flag_set flags rpb_fragment
     then Ret (rpb_b_page rpb, rpb_b_line rpb, rpb_transaction rpb, rpb_format_number rpb)
     else
       let* b_page := field b (o + 4) 4 in
       let* b_line := field b (o + 8) 2 in
       let* transaction := field b o 4 in
       let* format := field b (o + 12) 1 in
       Ret (SLONG b_page, b_line, SLONG transaction, format)) in
  let* (f_page, f_line, address) :=
    (if flag_set flags rpb_incomplete then
       let* f_page := field b (o + 16) 4 in
       let* f_line := field b (o + 20) 2 in
       let* address := bytes_at b (o + RHDF_SIZE) (USHORT (dpg_length index - RHDF_SIZE)) in
       Ret (SLONG f_page, f_line, address)
     else
       let* address := bytes_at b (o + RHD_SIZE) (USHORT (dpg_length index - RHD_SIZE)) in
       Ret (rpb_f_page rpb, rpb_f_line rpb, address)) in
  Ret (true, mk_rpb (rpb_number rpb) transaction (rpb_record rpb) (rpb_prior rpb) format
               win_page (USHORT line) f_page f_line b_page b_line address flags).

(** ** [DPM_compress] *)

(** The loop over the index; [temp] is [temp_page]. *)
Fixpoint compress_loop (b : list Z) (l : list dpg_repeat) (space : Z) (temp : list Z)
    : outcome (list dpg_repeat * Z * list Z) :=
  match l with
  | [] => Ret ([], space, temp)
  | index :: l =>
      if dpg_offset index =? 0 then
        let* (l, space, temp) := compress_loop b l space temp in Ret (index :: l, space, temp)
      else
        let len := SSHORT (dpg_length index) in
        let space := SSHORT (space - ROUNDUP len ODS_ALIGNMENT) in
        let* bs := bytes_at b (dpg_offset index) len in
        let* temp := put_at temp space bs in
        let* (l, space', temp) := compress_loop b l space temp in
        Ret (mk_repeat (USHORT space) (dpg_length index) :: l, space', temp)
  end.

(** [temp_page] is what the local buffer holds at first. *)
Definition DPM_compress (page_size : Z) (temp_page : list Z) (p : data_page) : outcome (Z * data_page) :=
  if Z.of_nat (length temp_page) <? page_size then Throw (BUGCHECK 250) else
  let* (rpt, space, temp) := compress_loop (page_bytes p) (dpg_rpt p) (SSHORT page_size) temp_page in
  let* bs := bytes_at temp space (page_size - space) in
  let* b := put_at (page_bytes p) space bs in
  if negb (pag_type p =? pag_data) then Throw (BUGCHECK 251)
  else Ret (space, with_bytes b (with_rpt rpt p)).

(** ** [find_space] *)

(** The scan of the lines; [reserve] is [type == DPM_primary && reserving]. *)
Fixpoint find_scan (reserve : bool) (b : list Z) (i : Z) (l : list dpg_repeat) (space slot used : Z)
    : outcome (Z * Z * Z) :=
  match l with
  | [] => Ret (space, slot, used)
  | index :: l =>
      if negb (dpg_offset index =? 0) then
        let space := Z.min space (dpg_offset index) in
        let used := SSHORT (used + ROUNDUP (dpg_length index) ODS_ALIGNMENT) in
        let* used :=
          (if reserve then
             let* b_page := field b (dpg_offset index + 4) 4 in
             let* flags := field b (dpg_offset index + 10) 2 in
             Ret (if (b_page =? 0) && negb (flag_set flags (rpb_chained + rpb_blob + rpb_deleted + rpb_fragment))
                  then SSHORT (used + SPACE_FUDGE) else used)
           else Ret used) in
        find_scan reserve b (i + 1) l space slot used
      else find_scan reserve b (i + 1) l space (if slot =? 0 then i else slot) used
  end.

(** The line and the offset of the space, or that the page is full. *)
Definition find_space (page_size : Z) (temp_page : list Z) (reserve : bool) (size : Z) (p : data_page)
    : outcome (option (Z * Z) * data_page) :=
  let aligned_size := SSHORT (ROUNDUP size ODS_ALIGNMENT) in
  let* (space, slot, used) :=
    find_scan reserve (page_bytes p) 0 (dpg_rpt p) (SSHORT page_size) 0
    (SSHORT (HIGH_WATER (dpg_count p))) in
  let used := if slot =? 0 then SSHORT (used + sizeof_dpg_repeat) else used in
  if page_size - used <? aligned_size then Ret (None, with_flags (Z.lor (pag_flags p) dpg_full) p) else
  let i := dpg_count p + (if slot =? 0 then 1 else 0) in
  let* (space, p) :=
    (if space - HIGH_WATER i <? aligned_size then DPM_compress page_size temp_page p else Ret (space, p)) in
  let space := SSHORT (space - aligned_size) in
  let index := mk_repeat (USHORT space) (USHORT size) in
  if slot =? 0
  then Ret (Some (dpg_count p, space), with_rpt (dpg_rpt p ++ [index]) p)
  else Ret (Some (slot, space), with_rpt (<[Z.to_nat slot := index]> (dpg_rpt p)) p).

(** ** Writing a record *)

Definition rhd_header (rpb : record_param) : list Z :=
  le_bytes 4 (rpb_transaction rpb) ++ le_bytes 4 (rpb_b_page rpb) ++ le_bytes 2 (rpb_b_line rpb)
  ++ le_bytes 2 (rpb_flags rpb) ++ le_bytes 1 (rpb_format_number rpb).

(** The header, the data with [SQZ_fast], and the padding. *)
Definition write_record (space : Z) (rpb : record_param) (dcc : list (list Z)) (fill : Z) (p : data_page)
    : outcome data_page :=
  let* b := put_at (page_bytes p) space (rhd_header rpb) in
  let* data := SQZ_fast dcc (map SCHAR (rpb_address rpb)) in
  let* b := put_at b (space + RHD_SIZE) (map UCHAR data ++ repeat 0 (Z.to_nat fill)) in
  Ret (with_bytes b p).

(** [SQZ_length] with the control strings it builds. *)
Definition sqz_length (rpb : record_param) : outcome (Z * list (list Z)) :=
  match SQZ_length (map SCHAR (rpb_address rpb)) [] with
  | Some (size, dcc, _) => Ret (size, dcc)
  | None => Throw Overrun
  end.

(** The record must be long enough to be fragmented later. *)
Definition fill_of (size : Z) : Z := Z.max 0 (RHDF_SIZE - RHD_SIZE - size).

(** [DPM_store] once a page is found: [None] where the page is full or the
    record does not fit on a page. *)
Definition store_on_page (page_size : Z) (temp_page : list Z) (reserve : bool) (rpb : record_param) (p : data_page)
    : outcome (option Z * data_page) :=
  let* (size, dcc) := sqz_length rpb in
  if page_size - (sizeof_data_page + RHD_SIZE) <? size then Ret (None, p) else
  let fill := fill_of size in
  let* (r, p) := find_space page_size temp_page reserve (SSHORT (RHD_SIZE + size + fill)) p in
  match r with
  | None => Ret (None, p)
  | Some (slot, space) => let* p := write_record space rpb dcc fill p in Ret (Some slot, p)
  end.

(** ** [DPM_chain], on the page *)

(** The scan: an empty line, or [count] if there is none. *)
Fixpoint chain_scan (count n : Z) (l : list dpg_repeat) (slot available space : Z) : Z * Z * Z :=
  match l with
  | [] => (slot, available, space)
  | index :: l =>
      let slot := if (dpg_length index =? 0) && (slot =? count) then n else slot in
      if negb (dpg_length index =? 0) && negb (SSHORT (dpg_offset index) =? 0) then
        chain_scan count (n + 1) l slot (SSHORT (available - ROUNDUP (dpg_length index) ODS_ALIGNMENT))
          (Z.min space (SSHORT (dpg_offset index)))
      else chain_scan count (n + 1) l slot available space
  end.

Definition or_flags (b : list Z) (o bits : Z) : outcome (list Z) :=
  let* f := field b (o + 10) 2 in put_at b (o + 10) (le_bytes 2 (Z.lor f bits)).
Definition clear_flags (b : list Z) (o bits : Z) : outcome (list Z) :=
  let* f := field b (o + 10) 2 in put_at b (o + 10) (le_bytes 2 (Z.land f (Z.lnot bits))).

(** The new version takes the line of the old one, which moves to [slot]. *)
Definition chain_on_page (page_size : Z) (temp_page : list Z) (org_page org_line size : Z) (dcc : list (list Z))
    (new_rpb : record_param) (p : data_page) : outcome (option record_param * data_page) :=
  let fill := fill_of size in
  let length := ROUNDUP (RHD_SIZE + size + fill) ODS_ALIGNMENT in
  let count := dpg_count p in
  let top := SSHORT (HIGH_WATER count) in
  let '(slot, available, space) := chain_scan count 0 (dpg_rpt p) count (SSHORT (page_size - top)) (SSHORT page_size) in
  let top := if slot =? count then SSHORT (top + sizeof_dpg_repeat) else top in
  let available := if slot =? count then SSHORT (available - sizeof_dpg_repeat) else available in
  if available <? length then Ret (None, p) else
  let space := SSHORT (space - length) in
  let* (space, p) :=
    (if space <? top then
       let* (s, p) := DPM_compress page_size temp_page p in Ret (SSHORT (s - length), p)
     else Ret (space, p)) in
  let new_rpb := mk_rpb (rpb_number new_rpb) (rpb_transaction new_rpb) (rpb_record new_rpb) (rpb_prior new_rpb)
    (rpb_format_number new_rpb) org_page org_line (rpb_f_page new_rpb) (rpb_f_line new_rpb) org_page slot
    (rpb_address new_rpb) (rpb_flags new_rpb) in
  let* index := entry p org_line in
  let* b := or_flags (page_bytes p) (dpg_offset index) rpb_chained in
  let rpt := if slot =? count then dpg_rpt p ++ [index] else <[Z.to_nat slot := index]> (dpg_rpt p) in
  let rpt := <[Z.to_nat org_line := mk_repeat (USHORT space) (USHORT (RHD_SIZE + size + fill))]> rpt in
  let* p := write_record space new_rpb dcc fill (with_bytes b (with_rpt rpt p)) in
  Ret (Some new_rpb, p).

(** ** [DPM_backout] and [DPM_delete], on the page *)

(** [for (n = dpg_count; --n;) if (dpg_rpt[n].dpg_length) break;
    dpg_count = n + 1] *)
Fixpoint shorten (n : nat) (l : list dpg_repeat) : nat :=
  match n with
  | O => 1%nat
  | S n' =>
      match l !! n with
      | Some x => if dpg_length x =? 0 then shorten n' l else S n
      | None => shorten n' l
      end
  end.

Definition backout_on_page (line b_line : Z) (p : data_page) : outcome data_page :=
  let* _ := entry p line in
  let* index2 := entry p b_line in
  let rpt := <[Z.to_nat b_line := mk_repeat 0 0]> (<[Z.to_nat line := index2]> (dpg_rpt p)) in
  let* index1 := entry (with_rpt rpt p) line in
  let* b := clear_flags (page_bytes p) (dpg_offset index1) (rpb_chained + rpb_gc_active) in
  Ret (with_bytes b (with_rpt (take (shorten (length rpt - 1) rpt) rpt) p)).

(** The index without the empty lines at its end. *)
Fixpoint last_used (l : list dpg_repeat) : list dpg_repeat :=
  match l with
  | [] => []
  | x :: l => match last_used l with [] => if dpg_offset x =? 0 then [] else [x] | l' => x :: l' end
  end.

Definition remove_line (line : Z) (p : data_page) : outcome data_page :=
  let* _ := entry p line in
  Ret (with_rpt (last_used (<[Z.to_nat line := mk_repeat 0 0]> (dpg_rpt p))) p).

Definition delete_on_page (win_page : Z) (rpb : record_param) (p : data_page) : outcome (record_param * data_page) :=
  let* (found, rpb) := get_header win_page (rpb_line rpb) p rpb in
  if negb found then Throw (BUGCHECK 244) else
  let* p := remove_line (rpb_line rpb) p in Ret (rpb, p).

(** [DPM_rewrite_header] *)
Definition rewrite_header (rpb : record_param) (p : data_page) : outcome data_page :=
  let* index := entry p (rpb_line rpb) in
  let* b := put_at (page_bytes p) (dpg_offset index) (rhd_header rpb) in
  Ret (with_bytes b p).

End DataPage.
