(* ===== verification/DataPageOps.v ===== *)
(** * What the operations on a data page do ([jrd/dpm.epp])

    A page is seen as the list of its lines, each empty or a fragment
    ([lines]).  The operations of [DataPage] keep the page well formed ([wf])
    and change the lines as the functions of this file say; where the
    fragments lie does not matter. *)

From S2P Require Import Prelude.
From S2P Require Import Sqz.
From S2P Require Import DataPage.
From stdpp Require Import list.
#[local] Open Scope Z_scope.

Module DataPageOps.
Import Sqz DataPage.

(** ** Parts of a buffer *)

Definition sub (b : list Z) (o n : Z) : list Z := take (Z.to_nat n) (drop (Z.to_nat o) b).

Lemma bytes_at_ok b o n : 0 <= o -> 0 <= n -> o + n <= Z.of_nat (length b) -> bytes_at b o n = Ret (sub b o n).
Proof. intros H1 H2 H3. unfold bytes_at. by rewrite !(proj2 (Z.leb_le _ _)) by lia. Qed.

Lemma put_at_ok b o bs :
  0 <= o -> o + Z.of_nat (length bs) <= Z.of_nat (length b) -> put_at b o bs = Ret (store b (Z.to_nat o) bs).
Proof. intros H1 H2. unfold put_at. by rewrite !(proj2 (Z.leb_le _ _)) by lia. Qed.

Lemma length_sub b o n : 0 <= o -> 0 <= n -> o + n <= Z.of_nat (length b) -> Z.of_nat (length (sub b o n)) = n.
Proof. intros. unfold sub. rewrite length_take, length_drop. lia. Qed.

Lemma lookup_sub b o n i :
  0 <= o -> sub b o n !! i = if decide (Z.of_nat i < n) then b !! (Z.to_nat o + i)%nat else None.
Proof.
  intros Ho. unfold sub. destruct (decide (Z.of_nat i < n)) as [H|H].
  - rewrite lookup_take_lt, lookup_drop by lia. done.
  - apply lookup_take_ge. lia.
Qed.

Lemma lookup_store b p bs i :
  (p + length bs <= length b)%nat ->
  store b p bs !! i = if decide (p <= i < p + length bs)%nat then bs !! (i - p)%nat else b !! i.
Proof.
  intros H. unfold store. destruct (decide (i < p)%nat) as [H1|H1].
  - rewrite lookup_app_l by (rewrite length_take; lia). rewrite decide_False by lia. apply lookup_take_lt. lia.
  - rewrite lookup_app_r by (rewrite length_take; lia). rewrite length_take, Nat.min_l by lia.
    destruct (decide (i - p < length bs)%nat) as [H2|H2].
    + rewrite lookup_app_l, decide_True by lia. done.
    + rewrite lookup_app_r, decide_False, lookup_drop by lia. f_equal. lia.
Qed.

Ltac by_lookup :=
  apply list_eq; intros ?i; repeat first
    [ rewrite lookup_sub by lia | rewrite lookup_store by (rewrite ?length_sub; lia)
    | case_decide; try lia ]; try reflexivity; try (f_equal; lia).

Lemma sub_sub b o n o' n' : 0 <= o -> 0 <= o' -> 0 <= n' -> o' + n' <= n -> sub (sub b o n) o' n' = sub b (o + o') n'.
Proof. intros. by_lookup. Qed.

Lemma sub_store_same b p bs n :
  (p + length bs <= length b)%nat -> n = Z.of_nat (length bs) -> sub (store b p bs) (Z.of_nat p) n = bs.
Proof. intros H ->. by_lookup. by rewrite lookup_ge_None_2 by lia. Qed.

Lemma sub_store_other b p bs o n :
  (p + length bs <= length b)%nat -> 0 <= o ->
  o + n <= Z.of_nat p \/ Z.of_nat (p + length bs) <= o ->
  sub (store b p bs) o n = sub b o n.
Proof. intros H Ho [Hd|Hd]; by_lookup. Qed.

(** Writing a block, then the adjacent one after it. *)
Lemma store_after b p b1 b2 :
  (p + length b1 + length b2 <= length b)%nat ->
  store (store b p b1) (p + length b1) b2 = store b p (b1 ++ b2).
Proof.
  intros H. pose proof (store_around b p b1 b2 0) as E. rewrite Nat.add_0_r in E. rewrite E by lia. by rewrite take_0.
Qed.

Lemma sub_store_inside b p bs o n :
  (p + length bs <= length b)%nat -> Z.of_nat p <= o -> 0 <= n -> o + n <= Z.of_nat (p + length bs) ->
  sub (store b p bs) o n = sub bs (o - Z.of_nat p) n.
Proof. intros. by_lookup. Qed.

(** A part of a buffer that is written to. *)
Lemma store_sub b o n k bs :
  0 <= o -> 0 <= n -> o + n <= Z.of_nat (length b) -> 0 <= k -> k + Z.of_nat (length bs) <= n ->
  sub (store b (Z.to_nat (o + k)) bs) o n = store (sub b o n) (Z.to_nat k) bs.
Proof.
  intros H1 H2 H3 H4 H5. pose proof (length_sub b o n H1 H2 H3). by_lookup.
Qed.

(** ** Sizes *)

Lemma ROUNDUP_eq n : ROUNDUP n ODS_ALIGNMENT = (n + 3) / 4 * 4.
Proof.
  unfold ROUNDUP, ODS_ALIGNMENT. change (4 - 1) with (Z.ones 2). rewrite <-Z.ldiff_land, Z.ldiff_ones_r by lia.
  rewrite Z.shiftl_mul_pow2, Z.shiftr_div_pow2 by lia. change (2 ^ 2) with 4. f_equal. f_equal. lia.
Qed.

Lemma ROUNDUP_bounds n : n <= ROUNDUP n ODS_ALIGNMENT <= n + 3.
Proof. rewrite ROUNDUP_eq. Z.to_euclidean_division_equations; lia. Qed.

Lemma ROUNDUP_mod n : ROUNDUP n ODS_ALIGNMENT mod 4 = 0.
Proof. rewrite ROUNDUP_eq. apply Z.mod_mul. lia. Qed.

Lemma HIGH_WATER_eq n : HIGH_WATER n = 24 + 4 * n.
Proof.
  unfold HIGH_WATER, sizeof_data_page, sizeof_dpg_repeat.
  change (SSHORT 28) with 28. change (SSHORT 4) with 4. lia.
Qed.

Lemma SSHORT_id z : -32768 <= z < 32768 -> SSHORT z = z.
Proof. intros H. machine_lia. Qed.

(** ** Well-formed pages *)

Definition used (x : dpg_repeat) : Prop := dpg_offset x <> 0.
#[global] Instance used_dec x : Decision (used x).
Proof. unfold used. apply _. Defined.

Definition room (x : dpg_repeat) : Z := ROUNDUP (dpg_length x) ODS_ALIGNMENT.

(** The fragment is on the page, above the index, and can be turned into the
    head of a fragmented record. *)
Definition placed (ps top : Z) (x : dpg_repeat) : Prop :=
  if decide (used x) then top <= dpg_offset x /\ dpg_offset x + room x <= ps /\ RHDF_SIZE <= dpg_length x
  else dpg_length x = 0.

Definition apart (x y : dpg_repeat) : Prop :=
  dpg_offset x + room x <= dpg_offset y \/ dpg_offset y + room y <= dpg_offset x.

Definition all_apart (l : list dpg_repeat) : Prop :=
  forall i j x y, l !! i = Some x -> l !! j = Some y -> i <> j -> used x -> used y -> apart x y.

Record wf (ps : Z) (p : data_page) : Prop := {
  wf_ps : 64 <= ps <= MAX_PAGE_SIZE;
  wf_aligned : ps mod 4 = 0;
  wf_bytes : Z.of_nat (length (page_bytes p)) = ps;
  wf_type : pag_type p = pag_data;
  wf_top : HIGH_WATER (dpg_count p) <= ps;
  wf_placed : Forall (placed ps (HIGH_WATER (dpg_count p))) (dpg_rpt p);
  wf_apart : all_apart (dpg_rpt p)
}.

(** ** The lines of a page *)

Definition fragment (b : list Z) (x : dpg_repeat) : option (list Z) :=
  if decide (used x) then Some (sub b (dpg_offset x) (dpg_length x)) else None.

Definition lines_of (b : list Z) (l : list dpg_repeat) : list (option (list Z)) := fragment b <$> l.
Definition lines (p : data_page) : list (option (list Z)) := lines_of (page_bytes p) (dpg_rpt p).

Definition size_of (f : option (list Z)) : Z :=
  match f with Some bs => ROUNDUP (Z.of_nat (length bs)) ODS_ALIGNMENT | None => 0 end.

Fixpoint total (l : list (option (list Z))) : Z :=
  match l with [] => 0 | f :: l => size_of f + total l end.

Fixpoint rooms (l : list dpg_repeat) : Z :=
  match l with [] => 0 | x :: l => (if decide (used x) then room x else 0) + rooms l end.

Lemma rooms_nonneg ps top l : 0 <= top -> Forall (placed ps top) l -> 0 <= rooms l.
Proof.
  intros Ht. induction 1 as [|x l Hx _ IH]; [done|]. cbn [rooms]. unfold placed in Hx.
  destruct (decide (used x)); [|lia]. pose proof (ROUNDUP_bounds (dpg_length x)). unfold room, RHDF_SIZE in *. lia.
Qed.

(** The places fragments take are distinct bytes of the page. *)
Definition places (x : dpg_repeat) : list Z := if decide (used x) then seqZ (dpg_offset x) (room x) else [].

Lemma all_apart_cons x l : all_apart (x :: l) <-> (used x -> forall y, y ∈ l -> used y -> apart x y) /\ all_apart l.
Proof.
  split.
  - intros H. split.
    + intros Hx y Hy Huy. apply list_elem_of_lookup in Hy as [i Hi]. by apply (H 0%nat (S i) x y).
    + intros i j a b Ha Hb Hij. apply (H (S i) (S j) a b); auto.
  - intros [Hx Hl] [|i] [|j] a b Ha Hb Hij Hua Hub; try done.
    + injection Ha as <-. apply Hx; [done| |done]. by apply list_elem_of_lookup_2 with j.
    + injection Hb as <-. destruct (Hx Hub a); [by apply list_elem_of_lookup_2 with i|done|by right|by left].
    + apply (Hl i j); auto.
Qed.

Lemma places_NoDup l : all_apart l -> NoDup (concat (places <$> l)).
Proof.
  induction l as [|x l IH]; [constructor|]. intros [Hx Hl]%all_apart_cons. cbn. apply list.NoDup_app. split_and!; [|intros z Hz Hc|auto].
  - unfold places. destruct (decide _); [apply NoDup_seqZ|constructor].
  - unfold places in Hz. destruct (decide (used x)) as [Hu|]; [|by apply not_elem_of_nil in Hz]. apply elem_of_seqZ in Hz.
    apply list_elem_of_In, in_concat in Hc as (s & Hs & Hzs). apply list_elem_of_In, list_elem_of_fmap in Hs as (y & -> & Hy).
    apply list_elem_of_In in Hzs. unfold places in Hzs. destruct (decide (used y)) as [Huy|]; [|by apply not_elem_of_nil in Hzs].
    apply elem_of_seqZ in Hzs. specialize (Hx Hu y Hy Huy). unfold apart in Hx. lia.
Qed.

Lemma length_places l :
  (forall x, x ∈ l -> used x -> 0 <= room x) -> Z.of_nat (length (concat (places <$> l))) = rooms l.
Proof.
  induction l as [|x l IH]; intros H; [done|]. cbn [fmap list_fmap concat rooms]. rewrite length_app, Nat2Z.inj_add.
  rewrite IH by (intros y Hy; apply H; by right). f_equal. unfold places. destruct (decide (used x)) as [Hu|]; [|done].
  specialize (H x ltac:(left) Hu). rewrite length_seqZ. lia.
Qed.

(** Fragments that lie apart within bounds fit between the bounds. *)
Lemma rooms_bound ps top l :
  top <= ps -> all_apart l -> Forall (placed ps top) l -> rooms l <= ps - top.
Proof.
  intros Ht Ha Hp. rewrite <-length_places.
  2:{ intros x Hx Hu. rewrite list.Forall_forall in Hp. specialize (Hp x Hx). unfold placed in Hp.
      rewrite decide_True in Hp by done. pose proof (ROUNDUP_bounds (dpg_length x)). unfold room, RHDF_SIZE in *. lia. }
  assert (H : (length (concat (places <$> l)) <= length (seqZ top (ps - top)))%nat).
  { apply submseteq_length, NoDup_submseteq; [by apply places_NoDup|]. intros z Hz.
    apply list_elem_of_In, in_concat in Hz as (s & Hs & Hzs). apply list_elem_of_In, list_elem_of_fmap in Hs as (x & -> & Hx).
    apply list_elem_of_In in Hzs. unfold places in Hzs. destruct (decide (used x)) as [Hu|]; [|by apply not_elem_of_nil in Hzs].
    apply elem_of_seqZ in Hzs. apply elem_of_seqZ. rewrite list.Forall_forall in Hp. specialize (Hp x Hx). unfold placed in Hp.
    rewrite decide_True in Hp by done. lia. }
  rewrite length_seqZ in H. lia.
Qed.

Lemma total_lines ps top b l :
  Forall (placed ps top) l -> 0 <= top -> ps <= Z.of_nat (length b) -> total (lines_of b l) = rooms l.
Proof.
  intros Hp Ht Hb. induction Hp as [|x l Hx _ IH]; [done|]. cbn [lines_of fmap list_fmap total rooms].
  fold (lines_of b l). rewrite IH. f_equal. unfold fragment, placed in *. destruct (decide (used x)) as [Hu|]; [|done].
  cbn [size_of]. pose proof (ROUNDUP_bounds (dpg_length x)). unfold room, RHDF_SIZE in *. rewrite length_sub by lia. done.
Qed.

(** ** [DPM_compress] *)

Lemma placed_used ps top x :
  placed ps top x -> used x ->
  top <= dpg_offset x /\ dpg_offset x + room x <= ps /\ RHDF_SIZE <= dpg_length x /\ dpg_length x <= room x.
Proof.
  unfold placed. intros H Hu. rewrite decide_True in H by done. pose proof (ROUNDUP_bounds (dpg_length x)).
  unfold room in *. lia.
Qed.

(** What a line was and is. *)
Definition moved (b temp : list Z) (lo hi : Z) (x x' : dpg_repeat) : Prop :=
  dpg_length x' = dpg_length x /\ (used x' <-> used x) /\
  (used x -> lo <= dpg_offset x' /\ dpg_offset x' + room x' <= hi /\
    sub temp (dpg_offset x') (dpg_length x) = sub b (dpg_offset x) (dpg_length x)).

Lemma moved_weaken b temp lo lo' hi hi' x x' : lo' <= lo -> hi <= hi' -> moved b temp lo hi x x' -> moved b temp lo' hi' x x'.
Proof. intros Hl Hh (H1 & H2 & H3). split_and!; [done|done|]. intros Hu. destruct (H3 Hu) as (? & ? & ?). split_and!; [lia|lia|done]. Qed.

Lemma compress_loop_ok ps top b l s0 temp :
  0 < top -> ps <= MAX_PAGE_SIZE -> Z.of_nat (length b) = ps -> Forall (placed ps top) l ->
  0 < s0 - rooms l -> s0 <= ps -> ps <= Z.of_nat (length temp) ->
  exists l' temp', compress_loop b l s0 temp = Ret (l', s0 - rooms l, temp') /\ length temp' = length temp /\
    Forall2 (moved b temp' (s0 - rooms l) s0) l l' /\ all_apart l' /\
    (forall o n, s0 <= o -> sub temp' o n = sub temp o n).
Proof.
  intros Ht Hps Hb Hp. unfold MAX_PAGE_SIZE in Hps. revert s0 temp.
  induction Hp as [|x l Hx Hl IH]; intros s0 temp Hr Hs Htl; cbn [compress_loop rooms] in *.
  { exists [], temp. rewrite Z.sub_0_r. split_and!; [done|done|constructor|intros i; done|done]. }
  pose proof (rooms_nonneg ps top l ltac:(lia) Hl) as Hnn. destruct (decide (used x)) as [Hu|Hu].
  - destruct (placed_used _ _ _ Hx Hu) as (H1 & H2 & H3 & H4). unfold RHDF_SIZE, room in *.
    pose proof (ROUNDUP_bounds (dpg_length x)).
    rewrite (proj2 (Z.eqb_neq _ _)) by exact Hu. rewrite (SSHORT_id (dpg_length x)) by lia.
    rewrite SSHORT_id by lia. set (R := ROUNDUP (dpg_length x) ODS_ALIGNMENT) in *.
    rewrite bytes_at_ok by lia. cbn [obind].
    pose proof (length_sub b (dpg_offset x) (dpg_length x) ltac:(lia) ltac:(lia) ltac:(lia)) as Hlen.
    rewrite put_at_ok by lia. cbn [obind].
    assert (Hst : length (store temp (Z.to_nat (s0 - R)) (sub b (dpg_offset x) (dpg_length x))) = length temp)
      by (apply length_store; lia).
    destruct (IH (s0 - R) (store temp (Z.to_nat (s0 - R)) (sub b (dpg_offset x) (dpg_length x))))
      as (l' & temp' & -> & Hlen' & HM & HA & Hab); [lia|lia|lia|]. cbn [obind].
    rewrite USHORT_small by lia. exists (mk_repeat (s0 - R) (dpg_length x) :: l'), temp'.
    replace (s0 - (R + rooms l)) with (s0 - R - rooms l) by lia. split; [done|]. split; [lia|].
    assert (Hux : used (mk_repeat (s0 - R) (dpg_length x))) by (unfold used; cbn; lia). split; [|split].
    + constructor; [|eapply Forall2_impl; [exact HM|]; intros ??; apply moved_weaken; lia].
      split_and!; [done|done|]. intros _. cbn. unfold room. cbn. fold R. split_and!; [lia|lia|].
      rewrite Hab by lia. replace (s0 - R) with (Z.of_nat (Z.to_nat (s0 - R))) at 2 by lia.
      apply sub_store_same; lia.
    + apply all_apart_cons. split; [|done]. intros _ y Hy Huy. right. cbn.
      apply list_elem_of_lookup in Hy as [i Hi]. destruct (Forall2_lookup_r _ _ _ _ _ HM Hi) as (z & _ & _ & Huz & Hz).
      apply Huz in Huy. apply Hz in Huy. lia.
    + intros o n Ho. rewrite Hab by lia. apply sub_store_other; [lia|lia|right; lia].
  - rewrite (proj2 (Z.eqb_eq _ _)) by (unfold used in Hu; lia).
    destruct (IH s0 temp) as (l' & temp' & -> & Hlen' & HM & HA & Hab); [lia..|]. cbn [obind].
    exists (x :: l'), temp'. split; [done|]. split; [done|]. split; [|split; [|done]].
    + constructor; [|done]. by split_and!.
    + apply all_apart_cons. by split.
Qed.

(** The page is as before, with its fragments at the end. *)
Record compressed (ps : Z) (p p' : data_page) : Prop := {
  cp_wf : wf ps p';
  cp_lines : lines p' = lines p;
  cp_flags : pag_flags p' = pag_flags p;
  cp_sequence : dpg_sequence p' = dpg_sequence p;
  cp_above : Forall (fun x => used x -> ps - total (lines p) <= dpg_offset x) (dpg_rpt p');
  cp_lengths : dpg_length <$> dpg_rpt p' = dpg_length <$> dpg_rpt p
}.

Lemma wf_total ps p : wf ps p -> total (lines p) = rooms (dpg_rpt p).
Proof.
  intros [Hps _ Hb _ Htop Hp _]. unfold MAX_PAGE_SIZE in *. rewrite HIGH_WATER_eq in *.
  eapply total_lines; [exact Hp| |lia]. unfold dpg_count. lia.
Qed.

Lemma wf_fits ps p : wf ps p -> 0 <= total (lines p) <= ps - HIGH_WATER (dpg_count p).
Proof.
  intros H. rewrite (wf_total _ _ H). destruct H as [Hps _ Hb _ Htop Hp Ha]. split.
  - eapply rooms_nonneg; [|exact Hp]. rewrite HIGH_WATER_eq. unfold dpg_count. lia.
  - by apply rooms_bound.
Qed.

Lemma DPM_compress_ok ps temp p :
  wf ps p -> ps <= Z.of_nat (length temp) ->
  exists p', DPM_compress ps temp p = Ret (ps - total (lines p), p') /\ compressed ps p p'.
Proof.
  intros H Ht. pose proof (wf_fits _ _ H) as Hfit. pose proof (wf_total _ _ H) as Htot. rewrite Htot in *.
  destruct H as [Hps Hal Hb Hty Htop Hp Ha] eqn:EH. clear EH. unfold DPM_compress. unfold MAX_PAGE_SIZE in Hps.
  rewrite HIGH_WATER_eq in *. pose proof (Nat2Z.is_nonneg (length (dpg_rpt p))) as Hc. fold (dpg_count p) in Hc.
  rewrite (proj2 (Z.ltb_ge _ _)) by lia. rewrite SSHORT_id by lia.
  destruct (compress_loop_ok ps (24 + 4 * dpg_count p) (page_bytes p) (dpg_rpt p) ps temp) as
    (l' & temp' & -> & Hlen & HM & HA & _); [lia|unfold MAX_PAGE_SIZE; lia|done|done|lia|lia|lia|]. cbn [obind].
  set (s := ps - rooms (dpg_rpt p)) in *. rewrite bytes_at_ok by lia. cbn [obind].
  pose proof (length_sub temp' s (ps - s) ltac:(lia) ltac:(lia) ltac:(lia)) as Hls.
  rewrite put_at_ok by lia. cbn [obind]. rewrite Hty, Z.eqb_refl. cbn [negb].
  eexists. split; [done|]. set (b' := store _ _ _).
  assert (Hb' : Z.of_nat (length b') = ps) by (unfold b'; rewrite length_store; lia).
  assert (Hc' : length l' = length (dpg_rpt p)) by (symmetry; by eapply Forall2_length).
  assert (Hp' : Forall (placed ps (24 + 4 * dpg_count p)) l').
  { apply list.Forall_forall. intros x' Hx'. apply list_elem_of_lookup in Hx' as [i Hi].
    destruct (Forall2_lookup_r _ _ _ _ _ HM Hi) as (x & Hx & HL & HU & HX).
    rewrite list.Forall_forall in Hp. specialize (Hp x (list_elem_of_lookup_2 _ _ _ Hx)).
    unfold placed. destruct (decide (used x')) as [Hu|Hu].
    - apply HU in Hu. destruct (placed_used _ _ _ Hp Hu) as (_ & _ & ? & _). destruct (HX Hu) as (? & ? & _).
      rewrite HL. split_and!; lia.
    - rewrite HL. unfold placed in Hp. by rewrite decide_False in Hp by (by rewrite <-HU). }
  split; cbn.
  - split; cbn; try done; unfold dpg_count in *; cbn; rewrite HIGH_WATER_eq, Hc'; (done || lia).
  - unfold lines. cbn. apply list_eq. intros i. unfold lines_of. rewrite !list_lookup_fmap.
    destruct (l' !! i) as [x'|] eqn:Ei.
    + destruct (Forall2_lookup_r _ _ _ _ _ HM Ei) as (x & Ex & HL & HU & HX). rewrite Ex. cbn. f_equal. unfold fragment.
      destruct (decide (used x)) as [Hu|Hu]; [rewrite decide_True by tauto|by rewrite decide_False by tauto].
      destruct (HX Hu) as (H1 & H2 & H3). f_equal. rewrite HL, <-H3. unfold b'.
      rewrite list.Forall_forall in Hp. destruct (placed_used _ _ _ (Hp x (list_elem_of_lookup_2 _ _ _ Ex)) Hu) as (_ & _ & H4 & H5).
      unfold room, RHDF_SIZE in *. rewrite HL in H2.
      rewrite sub_store_inside by lia. rewrite sub_sub by lia. f_equal. lia.
    + apply lookup_ge_None in Ei. rewrite lookup_ge_None_2 by lia. done.
  - done.
  - done.
  - apply list.Forall_forall. intros x' Hx' Hu. apply list_elem_of_lookup in Hx' as [i Hi].
    destruct (Forall2_lookup_r _ _ _ _ _ HM Hi) as (x & Hx & HL & HU & HX). apply HU, HX in Hu. rewrite Htot. apply Hu.
  - apply list_eq. intros i. rewrite !list_lookup_fmap. destruct (l' !! i) as [x'|] eqn:Ei.
    + destruct (Forall2_lookup_r _ _ _ _ _ HM Ei) as (x & -> & HL & _). cbn. by rewrite HL.
    + apply lookup_ge_None in Ei. by rewrite lookup_ge_None_2 by lia.
Qed.

(** ** The image of a record *)

Lemma stored_ok rpb :
  Z.of_nat (length (rpb_address rpb)) <= 65023 ->
  exists dcc out, sqz_length rpb = Ret (Z.of_nat (length out), dcc) /\
    SQZ_fast dcc (map SCHAR (rpb_address rpb)) = Ret out /\
    forall room, SQZ_decompress out room =
      if room <? Z.of_nat (length (rpb_address rpb)) then Throw (BUGCHECK 179) else Ret (map SCHAR (rpb_address rpb)).
Proof.
  intros Hl. destruct (SQZ_length_exact (map SCHAR (rpb_address rpb)) []) as (chain & pool & E & He & _); [by rewrite length_map|].
  exists chain, (stored_form (concat chain) (map SCHAR (rpb_address rpb))). unfold sqz_length. rewrite E.
  split_and!.
  - by rewrite length_stored_form.
  - apply (SQZ_fast_concat _ _ _ []). by apply fast_block_encodes.
  - intros room. pose proof (stored_form_decodes _ _ He) as Hd. unfold SQZ_decompress.
    rewrite (Hd (S (length (stored_form (concat chain) (map SCHAR (rpb_address rpb))))) room) by lia.
    by rewrite length_map.
Qed.

(** What [write_record] puts on the page. *)
Definition image (rpb : record_param) : list Z :=
  match sqz_length rpb with
  | Ret (size, dcc) =>
      match SQZ_fast dcc (map SCHAR (rpb_address rpb)) with
      | Ret out => rhd_header rpb ++ map UCHAR out ++ repeat 0 (Z.to_nat (fill_of size))
      | Throw _ => []
      end
  | Throw _ => []
  end.

Definition storable (rpb : record_param) : Prop := Z.of_nat (length (rpb_address rpb)) <= 65023.

Lemma length_header rpb : length (rhd_header rpb) = 13%nat.
Proof. unfold rhd_header. rewrite !length_app, !length_le_bytes. done. Qed.

Lemma fill_of_bounds size : 0 <= size -> 0 <= fill_of size /\ 9 <= size + fill_of size /\ (9 <= size -> fill_of size = 0).
Proof. unfold fill_of, RHDF_SIZE, RHD_SIZE. lia. Qed.

Lemma image_ok rpb :
  storable rpb ->
  exists size dcc, sqz_length rpb = Ret (size, dcc) /\ 0 <= size /\
    Z.of_nat (length (image rpb)) = RHD_SIZE + size + fill_of size /\ RHDF_SIZE <= Z.of_nat (length (image rpb)) /\
    forall space p, 0 <= space -> space + Z.of_nat (length (image rpb)) <= Z.of_nat (length (page_bytes p)) ->
      write_record space rpb dcc (fill_of size) p = Ret (with_bytes (store (page_bytes p) (Z.to_nat space) (image rpb)) p).
Proof.
  intros Hs. destruct (stored_ok rpb Hs) as (dcc & out & E & Ef & _). exists (Z.of_nat (length out)), dcc.
  pose proof (fill_of_bounds (Z.of_nat (length out)) ltac:(lia)) as (Hf1 & Hf2 & Hf3).
  assert (Hl : Z.of_nat (length (image rpb)) = RHD_SIZE + Z.of_nat (length out) + fill_of (Z.of_nat (length out))).
  { unfold image. rewrite E, Ef. rewrite !length_app, length_header, length_map, repeat_length. unfold RHD_SIZE. lia. }
  split; [done|]. split; [lia|]. split; [done|]. split; [unfold RHDF_SIZE, RHD_SIZE in *; lia|].
  intros space p Hsp Hb. unfold write_record. unfold RHD_SIZE in *. rewrite put_at_ok by (rewrite ?length_header; lia).
  cbn [obind]. rewrite Ef. cbn [obind].
  rewrite put_at_ok by (rewrite ?length_store, ?length_app, ?length_header, ?length_map, ?repeat_length; rewrite ?length_header; lia).
  cbn [obind]. do 2 f_equal. unfold image. rewrite E, Ef.
  replace (Z.to_nat (space + 13)) with (Z.to_nat space + length (rhd_header rpb))%nat by (rewrite length_header; lia).
  apply store_after. rewrite length_header, length_app, length_map, repeat_length. lia.
Qed.

(** ** New lines *)

(** The line [n], which is the next one or exists, becomes [x]. *)
Definition put_line {A} (n : nat) (x : A) (l : list A) : list A :=
  if (n =? length l)%nat then l ++ [x] else <[n := x]> l.

Lemma lookup_put_line {A} n (x : A) l i :
  (n <= length l)%nat -> put_line n x l !! i = if decide (i = n) then Some x else l !! i.
Proof.
  intros Hn. unfold put_line. destruct (Nat.eqb_spec n (length l)) as [->|Hne].
  - destruct (decide (i = length l)) as [->|Hi].
    + rewrite lookup_app_r, Nat.sub_diag by lia. done.
    + destruct (decide (i < length l)%nat); [by rewrite lookup_app_l by lia|].
      rewrite !lookup_ge_None_2; [done|lia|rewrite length_app; cbn; lia].
  - destruct (decide (i = n)) as [->|Hi]; [by rewrite list_lookup_insert_eq by lia|by rewrite list_lookup_insert_ne].
Qed.

Lemma length_put_line {A} n (x : A) l : (n <= length l)%nat -> length (put_line n x l) = Nat.max (length l) (S n).
Proof.
  intros H. unfold put_line. destruct (Nat.eqb_spec n (length l)); [rewrite length_app; cbn|rewrite length_insert]; lia.
Qed.

Lemma fmap_put_line {A B} (f : A -> B) n x l : f <$> put_line n x l = put_line n (f x) (f <$> l).
Proof.
  unfold put_line. rewrite length_fmap. destruct (n =? length l)%nat; [by rewrite fmap_app|by rewrite list_fmap_insert].
Qed.

Lemma Forall_put_line {A} (Q : A -> Prop) n x l : Forall Q l -> Q x -> Forall Q (put_line n x l).
Proof.
  intros Hl Hx. unfold put_line. destruct (n =? length l)%nat; [|by apply Forall_insert].
  apply list.Forall_app. auto.
Qed.

(** A new fragment below all others. *)
Lemma all_apart_new l n x :
  (forall i j a b, i <> n -> j <> n -> l !! i = Some a -> l !! j = Some b -> i <> j -> used a -> used b -> apart a b) ->
  (forall i y, i <> n -> l !! i = Some y -> used y -> dpg_offset x + room x <= dpg_offset y) ->
  l !! n = Some x -> all_apart l.
Proof.
  intros Ho Hn Hx i j a b Ha Hb Hij Hua Hub. destruct (decide (i = n)) as [->|Hi].
  - assert (a = x) as -> by congruence. left. by apply (Hn j).
  - destruct (decide (j = n)) as [->|Hj]; [|by apply (Ho i j)].
    assert (b = x) as -> by congruence. right. by apply (Hn i).
Qed.

(** A list of lines that is written below [space] reads as before. *)
Lemma lines_of_store b l space bs :
  0 <= space -> space + Z.of_nat (length bs) <= Z.of_nat (length b) ->
  Forall (fun x => used x -> space + Z.of_nat (length bs) <= dpg_offset x) l ->
  lines_of (store b (Z.to_nat space) bs) l = lines_of b l.
Proof.
  intros H1 H2 Hl. unfold lines_of. apply list_fmap_ext. intros i x Hx. unfold fragment. destruct (decide (used x)) as [Hu|]; [|done].
  rewrite list.Forall_forall in Hl. specialize (Hl x (list_elem_of_lookup_2 _ _ _ Hx) Hu). f_equal.
  apply sub_store_other; lia.
Qed.

Lemma fragment_new b space bs n :
  0 < space -> space + Z.of_nat (length bs) <= Z.of_nat (length b) -> n = Z.of_nat (length bs) ->
  fragment (store b (Z.to_nat space) bs) (mk_repeat space n) = Some bs.
Proof.
  intros H1 H2 ->. unfold fragment, used. rewrite decide_True by (cbn; lia). cbn. f_equal.
  replace space with (Z.of_nat (Z.to_nat space)) at 2 by lia. apply sub_store_same; lia.
Qed.

(** The space a new fragment takes: above the index, below the others. *)
Record free_space (ps top space n : Z) (l : list dpg_repeat) : Prop := {
  fs_top : top <= space;
  fs_end : space + ROUNDUP n ODS_ALIGNMENT <= ps;
  fs_below : Forall (fun x => used x -> space + ROUNDUP n ODS_ALIGNMENT <= dpg_offset x) l
}.

Lemma placed_top ps top top' x : placed ps top x -> (used x -> top' <= dpg_offset x) -> placed ps top' x.
Proof. unfold placed. intros H Ht. destruct (decide (used x)) as [Hu|]; [|done]. specialize (Ht Hu). intuition. Qed.

Lemma place_ok ps p slot space bs :
  wf ps p -> (slot <= length (dpg_rpt p))%nat ->
  RHDF_SIZE <= Z.of_nat (length bs) ->
  free_space ps (HIGH_WATER (Z.of_nat (Nat.max (length (dpg_rpt p)) (S slot)))) space (Z.of_nat (length bs)) (dpg_rpt p) ->
  let p' := with_bytes (store (page_bytes p) (Z.to_nat space) bs)
    (with_rpt (put_line slot (mk_repeat space (Z.of_nat (length bs))) (dpg_rpt p)) p) in
  wf ps p' /\ lines p' = put_line slot (Some bs) (lines p).
Proof.
  intros [Hps Hal Hb Hty Htop Hp Ha] Hslot Hbs [Ht He Hbe]. cbv zeta. rewrite HIGH_WATER_eq in *. unfold RHDF_SIZE in *.
  pose proof (ROUNDUP_bounds (Z.of_nat (length bs))) as HR. set (x := mk_repeat space (Z.of_nat (length bs))).
  assert (Hux : used x) by (unfold used; cbn; lia).
  assert (Hpx : placed ps (24 + 4 * Z.of_nat (Nat.max (length (dpg_rpt p)) (S slot))) x).
  { unfold placed. rewrite decide_True by done. unfold room, RHDF_SIZE. cbn. lia. }
  split.
  - split; cbn; try done; unfold dpg_count; cbn; rewrite ?length_put_line, ?HIGH_WATER_eq by done.
    + rewrite length_store by lia. done.
    + lia.
    + apply Forall_put_line; [|done]. apply list.Forall_forall. intros y Hy. rewrite list.Forall_forall in Hp, Hbe.
      apply placed_top with (24 + 4 * dpg_count p); [by apply Hp|]. intros Hu. specialize (Hbe y Hy Hu). lia.
    + apply (all_apart_new _ slot x); [| |by rewrite lookup_put_line, decide_True].
      * intros i j a b Hi Hj. rewrite !lookup_put_line, !decide_False by done. apply Ha.
      * intros i y Hi. rewrite lookup_put_line, decide_False by done. intros Hy Hu.
        rewrite list.Forall_forall in Hbe. apply (Hbe y (list_elem_of_lookup_2 _ _ _ Hy) Hu).
  - unfold lines. cbn. unfold lines_of. rewrite fmap_put_line. f_equal.
    + apply fragment_new; [lia|lia|done].
    + apply lines_of_store; [lia|lia|]. eapply list.Forall_impl; [exact Hbe|]. cbn. intros y Hy Hu. specialize (Hy Hu). lia.
Qed.

(** ** [find_space] *)

(** The first empty line after line 0, or 0. *)
Fixpoint first_free (i : nat) (l : list (option (list Z))) : nat :=
  match l with
  | [] => O
  | Some _ :: l => first_free (S i) l
  | None :: l => if (i =? 0)%nat then first_free 1 l else i
  end.

(** The line a new record gets. *)
Definition store_line (l : list (option (list Z))) : nat :=
  match first_free 0 l with O => length l | n => n end.

(** What is held back for a record that may be changed. *)
Definition fudge (reserve : bool) (f : option (list Z)) : Z :=
  match f with
  | Some bs =>
      if reserve && (le_value (sub bs 4 4) =? 0)
         && negb (flag_set (le_value (sub bs 10 2)) (rpb_chained + rpb_blob + rpb_deleted + rpb_fragment))
      then SPACE_FUDGE else 0
  | None => 0
  end.

Fixpoint reserved (reserve : bool) (l : list (option (list Z))) : Z :=
  match l with [] => 0 | f :: l => fudge reserve f + reserved reserve l end.

Lemma first_free_bound i l : first_free i l = O \/ (i <= first_free i l < i + length l)%nat.
Proof.
  revert i. induction l as [|[bs|] l IH]; intros i; cbn; [by left| |].
  - destruct (IH (S i)); [by left|right; lia].
  - destruct (Nat.eqb_spec i 0) as [->|]; [|right; lia]. destruct (IH 1%nat); [by left|right; lia].
Qed.

Lemma fudge_bounds reserve f : 0 <= fudge reserve f <= SPACE_FUDGE.
Proof. unfold fudge, SPACE_FUDGE, RHDF_SIZE. destruct f; [|lia]. destruct (_ && _); lia. Qed.

Lemma reserved_bound ps top b l reserve :
  Forall (placed ps top) l -> 0 <= top -> ps <= Z.of_nat (length b) ->
  0 <= reserved reserve (lines_of b l) /\ 12 * reserved reserve (lines_of b l) <= 11 * total (lines_of b l).
Proof.
  intros Hp Ht Hb. induction Hp as [|x l Hx _ IH]; [done|]. cbn [lines_of fmap list_fmap total reserved]. fold (lines_of b l).
  pose proof (fudge_bounds reserve (fragment b x)) as Hf. unfold SPACE_FUDGE, RHDF_SIZE in Hf.
  enough (12 * fudge reserve (fragment b x) <= 11 * size_of (fragment b x)) by lia. unfold fragment, placed in *.
  destruct (decide (used x)) as [Hu|]; [|done]. cbn [size_of].
  pose proof (ROUNDUP_bounds (dpg_length x)). unfold room, RHDF_SIZE in *. rewrite length_sub by lia.
  pose proof (ROUNDUP_mod (dpg_length x)). Z.to_euclidean_division_equations; lia.
Qed.

Lemma find_scan_ok ps top b reserve l i space slot used0 :
  0 < top -> top <= space -> Z.of_nat (length b) = ps -> ps <= MAX_PAGE_SIZE -> Forall (placed ps top) l -> 0 <= used0 ->
  used0 + total (lines_of b l) + reserved reserve (lines_of b l) < 32768 ->
  exists space', find_scan reserve b (Z.of_nat i) l space (Z.of_nat slot) used0 =
    Ret (space', Z.of_nat (if (slot =? 0)%nat then first_free i (lines_of b l) else slot),
         used0 + total (lines_of b l) + reserved reserve (lines_of b l)) /\
    top <= space' <= space /\ Forall (fun x => used x -> space' <= dpg_offset x) l.
Proof.
  intros Ht Hts Hb Hps Hp. unfold MAX_PAGE_SIZE in Hps. revert i space slot used0 Hts.
  induction Hp as [|x l Hx Hl IH]; intros i space slot used0 Hts Hu0 Hs; cbn [find_scan].
  { exists space. cbn. split_and!; [|lia|lia|constructor]. do 3 f_equal; [|lia]. destruct (Nat.eqb_spec slot 0); [lia|done]. }
  cbn [lines_of fmap list_fmap total reserved] in *. fold (lines_of b l) in *.
  destruct (reserved_bound ps top b l reserve Hl ltac:(lia) ltac:(lia)) as [Hr1 Hr2].
  pose proof (fudge_bounds reserve (fragment b x)) as Hf. unfold SPACE_FUDGE, RHDF_SIZE in Hf.
  destruct (decide (used x)) as [Hu|Hu].
  - rewrite (proj2 (Z.eqb_neq _ _)) by exact Hu. cbn [negb]. destruct (placed_used _ _ _ Hx Hu) as (H1 & H2 & H3 & H4).
    unfold RHDF_SIZE, room in *. pose proof (ROUNDUP_bounds (dpg_length x)) as HR.
    assert (Esz : size_of (fragment b x) = ROUNDUP (dpg_length x) ODS_ALIGNMENT).
    { unfold fragment. rewrite decide_True by done. cbn. rewrite length_sub by lia. done. }
    assert (Eff : first_free i (fragment b x :: lines_of b l) = first_free (S i) (lines_of b l)).
    { unfold fragment. by rewrite decide_True. }
    rewrite Esz in *. rewrite Eff. rewrite (SSHORT_id (used0 + _)) by lia.
    assert (Ef : (if reserve
      then let* b_page := field b (dpg_offset x + 4) 4 in
           let* flags := field b (dpg_offset x + 10) 2 in
           Ret (if (b_page =? 0) && negb (flag_set flags (rpb_chained + rpb_blob + rpb_deleted + rpb_fragment))
             then SSHORT (used0 + ROUNDUP (dpg_length x) ODS_ALIGNMENT + SPACE_FUDGE)
             else used0 + ROUNDUP (dpg_length x) ODS_ALIGNMENT)
      else Ret (used0 + ROUNDUP (dpg_length x) ODS_ALIGNMENT)) =
      Ret (used0 + ROUNDUP (dpg_length x) ODS_ALIGNMENT + fudge reserve (fragment b x))).
    { unfold fudge in *. unfold fragment in *. rewrite decide_True in * by done. rewrite !sub_sub in * by lia.
      destruct reserve; cbn [andb] in *; [|by rewrite Z.add_0_r]. unfold field. rewrite !bytes_at_ok by lia. cbn [obind].
      destruct (_ && _) in *; [|by rewrite Z.add_0_r]. unfold SPACE_FUDGE, RHDF_SIZE in *. rewrite SSHORT_id by lia. done. }
    rewrite Ef. cbn [obind]. clear Ef.
    destruct (IH (S i) (Z.min space (dpg_offset x)) slot (used0 + ROUNDUP (dpg_length x) ODS_ALIGNMENT + fudge reserve (fragment b x)))
      as (space' & E & Hsp & Hb'); [lia|lia|lia|].
    replace (Z.of_nat i + 1) with (Z.of_nat (S i)) by lia. rewrite E. exists space'. split; [do 2 f_equal; lia|].
    split; [lia|]. constructor; [lia|done].
  - rewrite (proj2 (Z.eqb_eq _ _)) by (unfold used in Hu; lia). cbn [negb].
    assert (Ef : fragment b x = None) by (unfold fragment; by rewrite decide_False).
    rewrite Ef in *. cbn [size_of fudge first_free] in *.
    destruct (IH (S i) space (if (slot =? 0)%nat then i else slot) used0) as (space' & E & Hsp & Hb'); [lia|lia|lia|].
    replace (Z.of_nat i + 1) with (Z.of_nat (S i)) by lia.
    replace (if Z.of_nat slot =? 0 then Z.of_nat i else Z.of_nat slot) with (Z.of_nat (if (slot =? 0)%nat then i else slot))
      by (destruct (Nat.eqb_spec slot 0), (Z.eqb_spec (Z.of_nat slot) 0); lia).
    rewrite E. exists space'. split; [|split; [lia|by constructor]]. rewrite !Z.add_0_l.
    destruct (Nat.eqb_spec slot 0) as [->|]; [|by rewrite (proj2 (Nat.eqb_neq slot 0))].
    by destruct (Nat.eqb_spec i 0) as [->|].
Qed.

(** What the index and the fragments take if the record is stored. *)
Definition taken (reserve : bool) (l : list (option (list Z))) : Z :=
  HIGH_WATER (Z.of_nat (Nat.max (length l) (S (store_line l)))) + total l + reserved reserve l.

(** The page as it is after the search: compressed or not, its lines are the
    same, and there is space below its fragments. *)
Record has_space (ps : Z) (slot : nat) (space n : Z) (p p' : data_page) : Prop := {
  hs_wf : wf ps p';
  hs_lines : lines p' = lines p;
  hs_count : length (dpg_rpt p') = length (dpg_rpt p);
  hs_flags : pag_flags p' = pag_flags p /\ dpg_sequence p' = dpg_sequence p;
  hs_free : free_space ps (HIGH_WATER (Z.of_nat (Nat.max (length (dpg_rpt p)) (S slot)))) space n (dpg_rpt p')
}.

Lemma length_lines p : length (lines p) = length (dpg_rpt p).
Proof. apply length_fmap. Qed.

(** Compressing makes all the free space available. *)
Lemma compressed_space ps temp p slot n :
  wf ps p -> ps <= Z.of_nat (length temp) -> 0 < n ->
  HIGH_WATER (Z.of_nat (Nat.max (length (dpg_rpt p)) (S slot))) + total (lines p) + ROUNDUP n ODS_ALIGNMENT <= ps ->
  exists p', DPM_compress ps temp p = Ret (ps - total (lines p), p') /\
    has_space ps slot (ps - total (lines p) - ROUNDUP n ODS_ALIGNMENT) n p p'.
Proof.
  intros H Ht Hn Hfit. destruct (DPM_compress_ok ps temp p H Ht) as (p' & E & [Hw Hl Hf Hs Ha Hlen]). exists p'.
  split; [exact E|]. assert (Hc : length (dpg_rpt p') = length (dpg_rpt p)) by (by rewrite <-!length_lines, Hl).
  pose proof (wf_fits _ _ H). split; [done|done|done|done|]. split; [lia|lia|].
  eapply list.Forall_impl; [exact Ha|]. cbn. intros x Hx Hu. specialize (Hx Hu). lia.
Qed.

Lemma find_space_ok ps temp reserve n p :
  wf ps p -> ps <= Z.of_nat (length temp) -> RHDF_SIZE <= n <= MAX_PAGE_SIZE ->
  if ps - taken reserve (lines p) <? ROUNDUP n ODS_ALIGNMENT
  then find_space ps temp reserve n p = Ret (None, with_flags (Z.lor (pag_flags p) dpg_full) p)
  else exists p' space, has_space ps (store_line (lines p)) space n p p' /\
    find_space ps temp reserve n p =
      Ret (Some (Z.of_nat (store_line (lines p)), space), with_rpt (put_line (store_line (lines p)) (mk_repeat space n) (dpg_rpt p')) p').
Proof.
  intros H Ht Hn. pose proof (wf_fits _ _ H) as Hfit. pose proof H as [Hps Hal Hb Hty Htop Hp Ha].
  unfold RHDF_SIZE, MAX_PAGE_SIZE in *. pose proof (ROUNDUP_bounds n) as HR.
  rewrite HIGH_WATER_eq in *. pose proof (Nat2Z.is_nonneg (length (dpg_rpt p))) as Hc. fold (dpg_count p) in Hc.
  pose proof (reserved_bound ps (24 + 4 * dpg_count p) (page_bytes p) (dpg_rpt p) reserve Hp ltac:(lia) ltac:(lia)) as Hres.
  fold (lines p) in Hres.
  unfold find_space. rewrite (SSHORT_id (ROUNDUP n ODS_ALIGNMENT)), (SSHORT_id ps), HIGH_WATER_eq, (SSHORT_id (24 + _)) by lia.
  destruct (find_scan_ok ps (24 + 4 * dpg_count p) (page_bytes p) reserve (dpg_rpt p) 0 ps 0 (24 + 4 * dpg_count p))
    as (space & E & Hsp & Hbe); [lia|lia|done|unfold MAX_PAGE_SIZE; lia|done|lia|fold (lines p); lia|].
  change (Z.of_nat 0) with 0 in E. rewrite E. cbn [obind Nat.eqb]. clear E. fold (lines p).
  set (ff := first_free 0 (lines p)). pose proof (first_free_bound 0 (lines p)) as Hff. fold ff in Hff. rewrite length_lines in Hff.
  assert (Esl : store_line (lines p) = if (ff =? 0)%nat then length (dpg_rpt p) else ff).
  { unfold store_line. fold ff. rewrite length_lines. by destruct ff. }
  assert (Etk : taken reserve (lines p) = 24 + 4 * (dpg_count p + (if Z.of_nat ff =? 0 then 1 else 0)) + total (lines p) + reserved reserve (lines p)).
  { unfold taken, dpg_count. rewrite HIGH_WATER_eq, Esl, length_lines. destruct (Nat.eqb_spec ff 0), (Z.eqb_spec (Z.of_nat ff) 0); lia. }
  assert (Eu : (if Z.of_nat ff =? 0
     then SSHORT (24 + 4 * dpg_count p + total (lines p) + reserved reserve (lines p) + sizeof_dpg_repeat)
     else 24 + 4 * dpg_count p + total (lines p) + reserved reserve (lines p)) = taken reserve (lines p)).
  { rewrite Etk. unfold sizeof_dpg_repeat. destruct (Z.eqb_spec (Z.of_nat ff) 0); [rewrite SSHORT_id|]; lia. }
  rewrite Eu. destruct (Z.ltb_spec (ps - taken reserve (lines p)) (ROUNDUP n ODS_ALIGNMENT)) as [Hfull|Hroom]; [done|].
  assert (Emax : Z.of_nat (Nat.max (length (dpg_rpt p)) (S (store_line (lines p)))) = dpg_count p + (if Z.of_nat ff =? 0 then 1 else 0)).
  { unfold dpg_count. rewrite Esl. destruct (Nat.eqb_spec ff 0), (Z.eqb_spec (Z.of_nat ff) 0); lia. }
  assert (Hplace : forall p' sp, has_space ps (store_line (lines p)) sp n p p' ->
    (if Z.of_nat ff =? 0 then Ret (Some (dpg_count p', sp), with_rpt (dpg_rpt p' ++ [mk_repeat (USHORT sp) (USHORT n)]) p')
     else Ret (Some (Z.of_nat ff, sp), with_rpt (<[Z.to_nat (Z.of_nat ff) := mk_repeat (USHORT sp) (USHORT n)]> (dpg_rpt p')) p'))
    = Ret (Some (Z.of_nat (store_line (lines p)), sp), with_rpt (put_line (store_line (lines p)) (mk_repeat sp n) (dpg_rpt p')) p')).
  { intros p' sp Hs. pose proof (hs_count _ _ _ _ _ _ Hs) as Hcount. destruct (hs_free _ _ _ _ _ _ Hs) as [Hf1 Hf2 _].
    rewrite Emax, HIGH_WATER_eq in Hf1. rewrite !USHORT_small by (destruct (Z.eqb_spec (Z.of_nat ff) 0); lia).
    unfold put_line, dpg_count. rewrite Esl, Hcount, Nat2Z.id.
    destruct (Z.eqb_spec (Z.of_nat ff) 0), (Nat.eqb_spec ff 0); try lia.
    - by rewrite Nat.eqb_refl.
    - by rewrite (proj2 (Nat.eqb_neq _ _)) by lia. }
  rewrite HIGH_WATER_eq.
  destruct (Z.ltb_spec (space - (24 + 4 * (dpg_count p + (if Z.of_nat ff =? 0 then 1 else 0)))) (ROUNDUP n ODS_ALIGNMENT)) as [Hc1|Hc1].
  - destruct (compressed_space ps temp p (store_line (lines p)) n H Ht ltac:(lia)) as (p' & E & Hs).
    { rewrite Emax, HIGH_WATER_eq. lia. }
    rewrite E. cbn [obind]. rewrite SSHORT_id by lia. exists p'. eexists. split; [exact Hs|]. by apply Hplace.
  - cbn [obind]. rewrite SSHORT_id by (destruct (Z.eqb_spec (Z.of_nat ff) 0); lia). exists p. eexists. split; [|apply Hplace].
    1,2: split; try done. 1,2: split; [rewrite Emax, HIGH_WATER_eq; lia|lia|].
    1,2: eapply list.Forall_impl; [exact Hbe|]; cbn; intros x Hx Hu; specialize (Hx Hu); lia.
Qed.

End DataPageOps.
