(* ===== verification/DataPageSpec.v ===== *)
(** * Data pages as tables of fragments ([jrd/dpm.epp])

    What storing, chaining, backing out, deleting and compressing do to the
    lines of a page, for single operations and for sequences of them; what is
    read back. *)

From S2P Require Import Prelude.
From S2P Require Import Sqz.
From S2P Require Import DataPage.
From S2P Require Import DataPageOps.
From stdpp Require Import list.
#[local] Open Scope Z_scope.

Module DataPageSpec.
Import Sqz DataPage DataPageOps.

(** ** Operations on lists of lines *)

Abbreviation line_list := (list (option (list Z))).

Definition set_flags (f : Z -> Z) (bs : list Z) : list Z :=
  store bs 10 (le_bytes 2 (f (le_value (sub bs 10 2)))).
Definition chain_flag (flags : Z) : Z := Z.lor flags rpb_chained.
Definition backout_flags (flags : Z) : Z := Z.land flags (Z.lnot (rpb_chained + rpb_gc_active)).

(** Without the empty lines at the end. *)
Fixpoint trim (l : line_list) : line_list :=
  match l with
  | [] => []
  | f :: l => match trim l with [] => match f with None => [] | Some _ => [f] end | l' => f :: l' end
  end.

Definition spec_store (ps : Z) (reserve : bool) (rpb : record_param) (l : line_list) : option Z * line_list :=
  if ps - taken reserve l <? size_of (Some (image rpb)) then (None, l)
  else (Some (Z.of_nat (store_line l)), put_line (store_line l) (Some (image rpb)) l).

(** The first empty line, or the next one. *)
Fixpoint chain_line (l : line_list) : nat :=
  match l with Some _ :: l => S (chain_line l) | _ => O end.

Definition chained_rpb (rpb : record_param) (page line b_line : Z) : record_param :=
  mk_rpb (rpb_number rpb) (rpb_transaction rpb) (rpb_record rpb) (rpb_prior rpb) (rpb_format_number rpb)
    page line (rpb_f_page rpb) (rpb_f_line rpb) page b_line (rpb_address rpb) (rpb_flags rpb).

Definition spec_chain (ps page : Z) (line : nat) (rpb : record_param) (l : line_list)
    : option (option record_param * line_list) :=
  match l !! line with
  | Some (Some old) =>
      let slot := chain_line l in
      let rpb' := chained_rpb rpb page (Z.of_nat line) (Z.of_nat slot) in
      Some (if ps - (HIGH_WATER (Z.of_nat (Nat.max (length l) (S slot))) + total l) <? size_of (Some (image rpb'))
            then (None, l)
            else (Some rpb', <[line := Some (image rpb')]> (put_line slot (Some (set_flags chain_flag old)) l)))
  | _ => None
  end.

Definition spec_backout (line b_line : nat) (l : line_list) : option line_list :=
  match l !! line, l !! b_line with
  | Some _, Some (Some old) =>
      if decide (line = b_line) then None
      else Some (trim (<[line := Some (set_flags backout_flags old)]> (<[b_line := None]> l)))
  | _, _ => None
  end.

Definition spec_delete (line : nat) (l : line_list) : option line_list :=
  match l !! line with Some _ => Some (trim (<[line := None]> l)) | None => None end.

(** ** Pages with lines taken away or moved *)

Lemma placed_less ps top top' x : top' <= top -> placed ps top x -> placed ps top' x.
Proof. unfold placed. destruct (decide _); [intros ? (? & ? & ?); split_and!; lia|done]. Qed.

Lemma placed_free ps top x : placed ps top x -> used x <-> dpg_length x <> 0.
Proof.
  unfold placed. destruct (decide (used x)); [|tauto]. unfold RHDF_SIZE. intros (_ & _ & ?). split; [lia|done].
Qed.

Lemma take_lines ps p n :
  wf ps p -> wf ps (with_rpt (take n (dpg_rpt p)) p) /\ lines (with_rpt (take n (dpg_rpt p)) p) = take n (lines p).
Proof.
  intros [Hps Hal Hb Hty Htop Hp Ha]. rewrite HIGH_WATER_eq in *. unfold dpg_count in *. split.
  - split; cbn; try done; unfold dpg_count; cbn; rewrite ?HIGH_WATER_eq, ?length_take.
    + lia.
    + apply Forall_take. eapply list.Forall_impl; [exact Hp|]. intros x. apply placed_less. lia.
    + intros i j x y Hx Hy. apply lookup_take_Some in Hx as [Hx _]. apply lookup_take_Some in Hy as [Hy _]. by apply Ha.
  - unfold lines, lines_of. cbn. by rewrite fmap_take.
Qed.

(** Line [i] becomes line [slot], whose fragment is given up. *)
Definition move (i slot : nat) (x : dpg_repeat) (l : list dpg_repeat) : list dpg_repeat :=
  <[i := mk_repeat 0 0]> (put_line slot x l).

Lemma lookup_move i slot x l k :
  (i < length l)%nat -> (slot <= length l)%nat ->
  move i slot x l !! k = if decide (k = i) then Some (mk_repeat 0 0) else if decide (k = slot) then Some x else l !! k.
Proof.
  intros Hi Hs. unfold move. destruct (decide (k = i)) as [->|Hk].
  - rewrite list_lookup_insert_eq; [done|rewrite length_put_line; lia].
  - by rewrite list_lookup_insert_ne, lookup_put_line.
Qed.

Lemma move_ok ps p i slot x :
  wf ps p -> dpg_rpt p !! i = Some x -> used x -> (slot <= length (dpg_rpt p))%nat -> slot <> i ->
  let top := HIGH_WATER (Z.of_nat (Nat.max (length (dpg_rpt p)) (S slot))) in
  top <= ps -> Forall (fun y => used y -> top <= dpg_offset y) (dpg_rpt p) ->
  wf ps (with_rpt (move i slot x (dpg_rpt p)) p) /\
  lines (with_rpt (move i slot x (dpg_rpt p)) p) =
    <[i := None]> (put_line slot (fragment (page_bytes p) x) (lines p)).
Proof.
  intros [Hps Hal Hb Hty Htop Hp Ha] Hx Hu Hs Hne. cbv zeta. rewrite HIGH_WATER_eq in *. intros Ht Hab.
  pose proof (lookup_lt_Some _ _ _ Hx) as Hi. unfold dpg_count in *.
  assert (H0 : ~ used (mk_repeat 0 0)) by (unfold used; cbn; lia). rewrite list.Forall_forall in Hp, Hab.
  assert (Hpl : forall y, y ∈ dpg_rpt p -> placed ps (24 + 4 * Z.of_nat (Nat.max (length (dpg_rpt p)) (S slot))) y).
  { intros y Hy. eapply placed_top; [exact (Hp y Hy)|]. intros Huy. specialize (Hab y Hy Huy). lia. }
  split.
  - split; cbn; try done; unfold dpg_count; cbn; unfold move; rewrite ?length_insert, ?length_put_line, ?HIGH_WATER_eq by done.
    + lia.
    + apply Forall_insert; [|by unfold placed; rewrite decide_False].
      apply Forall_put_line; [by apply list.Forall_forall|]. apply Hpl. by eapply list_elem_of_lookup_2.
    + fold (move i slot x (dpg_rpt p)). intros j k a b. rewrite !lookup_move by done.
      destruct (decide (j = i)); [intros [= <-]; done|]. destruct (decide (k = i)); [intros _ [= <-]; done|].
      destruct (decide (j = slot)) as [->|], (decide (k = slot)) as [->|]; [done| | |apply Ha].
      * intros [= <-] Hb' _. apply (Ha i k); auto.
      * intros Ha' [= <-] _. apply (Ha j i); auto.
  - unfold lines, lines_of, move. cbn. rewrite list_fmap_insert, fmap_put_line. f_equal.
Qed.

(** A patch within a fragment changes its line only. *)
Lemma patch_ok ps p i x k bs :
  wf ps p -> dpg_rpt p !! i = Some x -> used x -> 0 <= k -> k + Z.of_nat (length bs) <= dpg_length x ->
  exists b, put_at (page_bytes p) (dpg_offset x + k) bs = Ret b /\ wf ps (with_bytes b p) /\
    fragment b x = Some (store (sub (page_bytes p) (dpg_offset x) (dpg_length x)) (Z.to_nat k) bs) /\
    lines (with_bytes b p) = <[i := fragment b x]> (lines p).
Proof.
  intros [Hps Hal Hb Hty Htop Hp Ha] Hx Hu Hk Hbs. rewrite HIGH_WATER_eq in *. unfold dpg_count in *.
  pose proof Hp as Hp'. rewrite list.Forall_forall in Hp'.
  destruct (placed_used _ _ _ (Hp' x (list_elem_of_lookup_2 _ _ _ Hx)) Hu) as (H1 & H2 & H3 & H4). unfold RHDF_SIZE in *.
  rewrite put_at_ok by lia. eexists. split; [done|]. split; [|split].
  - split; cbn; unfold dpg_count in *; cbn; rewrite ?HIGH_WATER_eq; try done. rewrite length_store by lia. done.
  - unfold fragment. rewrite decide_True by done. f_equal. apply store_sub; lia.
  - unfold lines, lines_of. cbn. apply list_eq. intros j. rewrite list_lookup_fmap. destruct (decide (j = i)) as [->|Hj].
    + rewrite list_lookup_insert_eq by (rewrite length_fmap; by eapply lookup_lt_Some). by rewrite Hx.
    + rewrite list_lookup_insert_ne, list_lookup_fmap by done. destruct (dpg_rpt p !! j) as [y|] eqn:Ey; [|done]. cbn. f_equal.
      unfold fragment. destruct (decide (used y)) as [Huy|]; [|done]. f_equal.
      destruct (placed_used _ _ _ (Hp' y (list_elem_of_lookup_2 _ _ _ Ey)) Huy) as (? & ? & ? & ?).
      destruct (Ha i j x y Hx Ey ltac:(done) Hu Huy); apply sub_store_other; lia.
Qed.

(** Changing the flags of a fragment. *)
Lemma flags_ok ps p i x f :
  wf ps p -> dpg_rpt p !! i = Some x -> used x ->
  exists b, (let* v := field (page_bytes p) (dpg_offset x + 10) 2 in
             put_at (page_bytes p) (dpg_offset x + 10) (le_bytes 2 (f v))) = Ret b /\
    wf ps (with_bytes b p) /\
    fragment b x = Some (set_flags f (sub (page_bytes p) (dpg_offset x) (dpg_length x))) /\
    lines (with_bytes b p) = <[i := fragment b x]> (lines p).
Proof.
  intros H Hx Hu. pose proof (wf_placed _ _ H) as Hp. rewrite list.Forall_forall in Hp.
  destruct (placed_used _ _ _ (Hp x (list_elem_of_lookup_2 _ _ _ Hx)) Hu) as (H1 & H2 & H3 & H4).
  pose proof (wf_bytes _ _ H). rewrite HIGH_WATER_eq in *. unfold RHDF_SIZE, dpg_count in *.
  unfold field. rewrite bytes_at_ok by lia. cbn [obind].
  destruct (patch_ok ps p i x 10 (le_bytes 2 (f (le_value (sub (page_bytes p) (dpg_offset x + 10) 2)))) H Hx Hu)
    as (b & E & Hw & Hf & Hl); [lia|rewrite length_le_bytes; lia|].
  exists b. split; [exact E|]. split; [done|]. split; [|done]. rewrite Hf. unfold set_flags. rewrite sub_sub by lia. done.
Qed.

(** ** Storing *)

Lemma taken_min l : 28 <= HIGH_WATER (Z.of_nat (Nat.max (length l) (S (store_line l)))).
Proof. rewrite HIGH_WATER_eq. lia. Qed.

Lemma store_on_page_ok ps temp reserve rpb p :
  wf ps p -> ps <= Z.of_nat (length temp) -> storable rpb ->
  exists p', store_on_page ps temp reserve rpb p = Ret ((spec_store ps reserve rpb (lines p)).1, p') /\
    wf ps p' /\ lines p' = (spec_store ps reserve rpb (lines p)).2.
Proof.
  intros H Ht Hs. destruct (image_ok rpb Hs) as (size & dcc & E & Hsz & Hlen & Hmin & Hwr). unfold store_on_page. rewrite E. cbn [obind].
  pose proof (wf_fits _ _ H) as Hfit. pose proof H as [Hps Hal Hb Hty Htop Hp Ha]. unfold MAX_PAGE_SIZE in Hps.
  assert (Hres : 0 <= reserved reserve (lines p)).
  { unfold lines. eapply reserved_bound; [exact Hp|rewrite HIGH_WATER_eq; unfold dpg_count; lia|lia]. }
  pose proof (taken_min (lines p)) as Htk. pose proof (ROUNDUP_bounds (Z.of_nat (length (image rpb)))) as HR.
  pose proof (fill_of_bounds size Hsz) as (Hf1 & Hf2 & Hf3).
  unfold spec_store. cbn [size_of]. unfold sizeof_data_page, RHD_SIZE in *.
  destruct (Z.ltb_spec (ps - (28 + 13)) size) as [Hbig|Hsmall].
  { rewrite (proj2 (Z.ltb_lt _ _)) by (unfold taken; lia). by exists p. }
  rewrite SSHORT_id by (destruct (Z.le_gt_cases 9 size); [rewrite Hf3 by done|]; unfold fill_of, RHDF_SIZE, RHD_SIZE in *; lia).
  rewrite <-Hlen.
  pose proof (find_space_ok ps temp reserve (Z.of_nat (length (image rpb))) p H Ht) as Hfs.
  destruct (ps - taken reserve (lines p) <? ROUNDUP (Z.of_nat (length (image rpb))) ODS_ALIGNMENT) eqn:Efull.
  - rewrite Hfs. 2:{ unfold MAX_PAGE_SIZE. destruct (Z.le_gt_cases 9 size); [rewrite Hf3 in Hlen by done|]; unfold fill_of, RHDF_SIZE, RHD_SIZE in *; lia. }
    cbn [obind]. eexists. split; [done|]. split; [|done]. by split.
  - destruct Hfs as (p' & space & [Hw Hl Hc _ Hfr] & Ef).
    { unfold MAX_PAGE_SIZE. destruct (Z.le_gt_cases 9 size); [rewrite Hf3 in Hlen by done|]; unfold fill_of, RHDF_SIZE, RHD_SIZE in *; lia. }
    rewrite Ef. cbn [obind]. rewrite <-Hc in Hfr. pose proof (fs_top _ _ _ _ _ Hfr). rewrite HIGH_WATER_eq in *.
    rewrite Hwr; [|lia|cbn; rewrite (wf_bytes _ _ Hw); pose proof (fs_end _ _ _ _ _ Hfr); lia]. cbn [obind].
    destruct (place_ok ps p' (store_line (lines p)) space (image rpb) Hw) as [Hw' Hl'].
    + rewrite <-Hl. unfold store_line. rewrite <-length_lines. pose proof (first_free_bound 0 (lines p')).
      destruct (first_free 0 (lines p')); lia.
    + done.
    + by rewrite HIGH_WATER_eq.
    + eexists. split; [done|]. split; [exact Hw'|]. rewrite Hl in Hl'. exact Hl'.
Qed.

(** ** Chaining *)

Lemma chain_line_bound l : (chain_line l <= length l)%nat.
Proof. induction l as [|[bs|] l IH]; cbn; lia. Qed.

Lemma chain_line_free l : (chain_line l < length l)%nat -> l !! chain_line l = Some None.
Proof. induction l as [|[bs|] l IH]; cbn; [lia| |done]. intros H. apply IH. lia. Qed.

Lemma chain_scan_ok ps top b l count i slot available space :
  0 < top -> Z.of_nat (length b) = ps -> ps <= MAX_PAGE_SIZE -> Forall (placed ps top) l ->
  count = Z.of_nat (i + length l) -> top <= space <= ps -> 0 <= available - total (lines_of b l) -> available < 32768 ->
  exists space', chain_scan count (Z.of_nat i) l slot available space =
      (if slot =? count then Z.of_nat (i + chain_line (lines_of b l)) else slot,
       available - total (lines_of b l), space') /\
    top <= space' <= space /\ Forall (fun x => used x -> space' <= dpg_offset x) l.
Proof.
  intros Ht Hb Hps Hp. unfold MAX_PAGE_SIZE in Hps. revert i slot available space.
  induction Hp as [|x l Hx Hl IH]; intros i slot available space Hc Hs Ha Hav; cbn [chain_scan].
  { exists space. cbn. rewrite Z.sub_0_r. split_and!; [|lia|lia|constructor].
    cbn in Hc. destruct (Z.eqb_spec slot count) as [->|]; [|done]. by rewrite Hc. }
  cbn [length] in Hc. pose proof (placed_free _ _ _ Hx) as Huf.
  cbn [lines_of fmap list_fmap total chain_line] in *. fold (lines_of b l) in *.
  assert (0 <= total (lines_of b l)).
  { rewrite (total_lines ps top) by (done || lia). eapply rooms_nonneg; [|exact Hl]. lia. }
  replace (Z.of_nat i + 1) with (Z.of_nat (S i)) by lia.
  destruct (decide (used x)) as [Hu|Hu].
  - destruct (placed_used _ _ _ Hx Hu) as (H1 & H2 & H3 & H4). unfold RHDF_SIZE, room in *.
    pose proof (ROUNDUP_bounds (dpg_length x)).
    rewrite (SSHORT_id (dpg_offset x)), (proj2 (Z.eqb_neq (dpg_length x) 0)), (proj2 (Z.eqb_neq (dpg_offset x) 0)) by lia.
    cbn [negb andb]. unfold fragment in *. rewrite decide_True in * by done. cbn [size_of] in *. rewrite length_sub in * by lia.
    rewrite SSHORT_id by lia.
    destruct (IH (S i) slot (available - ROUNDUP (dpg_length x) ODS_ALIGNMENT) (Z.min space (dpg_offset x)))
      as (space' & E & Hsp & Hbe); [lia..|]. rewrite E. exists space'. split; [|split; [lia|by constructor; [lia|]] ].
    rewrite <-Z.sub_add_distr. by replace (i + S (chain_line (lines_of b l)))%nat with (S i + chain_line (lines_of b l))%nat by lia.
  - assert (dpg_length x = 0) as -> by (destruct (Z.eq_dec (dpg_length x) 0); tauto).
    rewrite Z.eqb_refl. cbn [negb andb]. unfold fragment in *. rewrite decide_False in * by done. cbn [size_of] in *.
    destruct (IH (S i) (if slot =? count then Z.of_nat i else slot) available space) as (space' & E & Hsp & Hbe); [lia..|].
    rewrite E. exists space'. split; [|split; [lia|by constructor] ]. rewrite Z.add_0_l, Nat.add_0_r.
    destruct (Z.eqb_spec slot count) as [->|Hn]; [|by rewrite (proj2 (Z.eqb_neq _ _))].
    by rewrite (proj2 (Z.eqb_neq _ _)) by lia.
Qed.

(** With space below the fragments: the old version moves, the new one takes
    its line. *)
Lemma chain_place ps p line slot x space bs :
  wf ps p -> dpg_rpt p !! line = Some x -> used x -> (slot <= length (dpg_rpt p))%nat -> slot <> line ->
  RHDF_SIZE <= Z.of_nat (length bs) ->
  free_space ps (HIGH_WATER (Z.of_nat (Nat.max (length (dpg_rpt p)) (S slot)))) space (Z.of_nat (length bs)) (dpg_rpt p) ->
  exists b, or_flags (page_bytes p) (dpg_offset x) rpb_chained = Ret b /\ length b = length (page_bytes p) /\
    let p' := with_bytes (store b (Z.to_nat space) bs)
      (with_rpt (<[line := mk_repeat space (Z.of_nat (length bs))]> (put_line slot x (dpg_rpt p))) p) in
    wf ps p' /\
    lines p' = <[line := Some bs]> (put_line slot (Some (set_flags chain_flag (sub (page_bytes p) (dpg_offset x) (dpg_length x)))) (lines p)).
Proof.
  intros H Hx Hu Hs Hne Hbs Hfr. destruct (flags_ok ps p line x chain_flag H Hx Hu) as (b & E & Hw & Hf & Hl).
  exists b. split; [exact E|]. pose proof (wf_bytes _ _ Hw) as Hb. cbn in Hb. pose proof (wf_bytes _ _ H). split; [lia|]. cbv zeta.
  pose proof (fs_top _ _ _ _ _ Hfr) as Ht. pose proof (fs_end _ _ _ _ _ Hfr) as He. pose proof (fs_below _ _ _ _ _ Hfr) as Hbe.
  pose proof (ROUNDUP_bounds (Z.of_nat (length bs))) as HR. unfold RHDF_SIZE in Hbs.
  destruct (move_ok ps (with_bytes b p) line slot x Hw Hx Hu Hs Hne) as [Hw1 Hl1].
  { cbn. lia. }
  { cbn. eapply list.Forall_impl; [exact Hbe|]. cbn. intros y Hy Huy. specialize (Hy Huy). lia. }
  pose proof (lookup_lt_Some _ _ _ Hx) as Hli.
  assert (Hlm : length (move line slot x (dpg_rpt p)) = Nat.max (length (dpg_rpt p)) (S slot))
    by (unfold move; rewrite length_insert, length_put_line; lia).
  destruct (place_ok ps (with_rpt (move line slot x (dpg_rpt p)) (with_bytes b p)) line space bs Hw1) as [Hw2 Hl2].
  - cbn. rewrite Hlm. lia.
  - unfold RHDF_SIZE. lia.
  - cbn. rewrite Hlm. replace (Nat.max (Nat.max (length (dpg_rpt p)) (S slot)) (S line)) with (Nat.max (length (dpg_rpt p)) (S slot)) by lia.
    split; [done|done|]. apply list.Forall_forall. intros y Hy Huy. apply list_elem_of_lookup in Hy as [k Hk].
    rewrite lookup_move in Hk by lia. rewrite list.Forall_forall in Hbe.
    destruct (decide (k = line)); [injection Hk as <-; by unfold used in Huy|].
    destruct (decide (k = slot)); [injection Hk as <-|]; eapply Hbe; [by eapply list_elem_of_lookup_2|done|by eapply list_elem_of_lookup_2|done].
  - change (dpg_rpt (with_bytes b p)) with (dpg_rpt p) in Hl1. rewrite Hl1 in Hl2.
    cbn [with_rpt with_bytes dpg_rpt page_bytes pag_type pag_flags dpg_sequence] in Hw2, Hl2.
    assert (Ep : put_line line (mk_repeat space (Z.of_nat (length bs))) (move line slot x (dpg_rpt p)) =
      <[line := mk_repeat space (Z.of_nat (length bs))]> (put_line slot x (dpg_rpt p))).
    { unfold put_line at 1. rewrite Hlm, (proj2 (Nat.eqb_neq _ _)) by lia. unfold move. apply list_insert_insert_eq. }
    rewrite Ep in *. split; [exact Hw2|]. etransitivity; [exact Hl2|]. rewrite Hl, Hf.
    unfold put_line at 1. rewrite length_insert, length_put_line, length_insert, length_lines by (rewrite length_insert, length_lines; lia).
    rewrite (proj2 (Nat.eqb_neq _ _)) by lia. rewrite list_insert_insert_eq.
    apply list_eq. intros k. destruct (decide (k = line)) as [->|Hk].
    + rewrite !list_lookup_insert_eq; [done|rewrite length_put_line; rewrite ?length_lines; lia|
        rewrite length_put_line; rewrite ?length_insert, ?length_lines; lia].
    + rewrite !(list_lookup_insert_ne _ line k) by done. rewrite !lookup_put_line by (rewrite ?length_insert, ?length_lines; lia).
      destruct (decide (k = slot)); [done|]. by rewrite list_lookup_insert_ne.
Qed.

(** Space for the new version, with or without compression. *)
Lemma chain_space ps temp p slot space n :
  wf ps p -> ps <= Z.of_nat (length temp) -> RHDF_SIZE <= n -> (slot <= length (dpg_rpt p))%nat ->
  let top := HIGH_WATER (Z.of_nat (Nat.max (length (dpg_rpt p)) (S slot))) in
  ROUNDUP n ODS_ALIGNMENT <= ps - (top + total (lines p)) ->
  HIGH_WATER (dpg_count p) <= space <= ps -> Forall (fun x => used x -> space <= dpg_offset x) (dpg_rpt p) ->
  exists p' space', (if SSHORT (space - ROUNDUP n ODS_ALIGNMENT) <? top then
      let* (s, p') := DPM_compress ps temp p in Ret (SSHORT (s - ROUNDUP n ODS_ALIGNMENT), p')
     else Ret (SSHORT (space - ROUNDUP n ODS_ALIGNMENT), p)) = Ret (space', p') /\
    has_space ps slot space' n p p'.
Proof.
  intros H Ht Hn Hs. cbv zeta. intros Hfit Hsp Hbe. pose proof (wf_fits _ _ H) as Htot. pose proof (wf_ps _ _ H) as Hps.
  unfold MAX_PAGE_SIZE, RHDF_SIZE, dpg_count in *. rewrite HIGH_WATER_eq in *. pose proof (ROUNDUP_bounds n) as HR.
  rewrite !(SSHORT_id (space - _)) by lia. destruct (Z.ltb_spec (space - ROUNDUP n ODS_ALIGNMENT) (24 + 4 * Z.of_nat (Nat.max (length (dpg_rpt p)) (S slot)))).
  - destruct (compressed_space ps temp p slot n H Ht) as (p' & E & Hh); [lia|rewrite HIGH_WATER_eq; lia|].
    rewrite E. cbn [obind]. rewrite SSHORT_id by lia. eauto.
  - do 2 eexists. split; [done|]. split; [done|done|done|done|]. rewrite HIGH_WATER_eq. split; [lia|lia|].
    eapply list.Forall_impl; [exact Hbe|]. cbn. intros x Hx Hu. specialize (Hx Hu). lia.
Qed.

Lemma lookup_lines p i f :
  lines p !! i = Some f -> exists x, dpg_rpt p !! i = Some x /\ f = fragment (page_bytes p) x.
Proof. unfold lines, lines_of. rewrite list_lookup_fmap. destruct (dpg_rpt p !! i) as [x|]; [|done]. intros [= <-]. eauto. Qed.

Lemma lookup_lines_used p i bs :
  lines p !! i = Some (Some bs) ->
  exists x, dpg_rpt p !! i = Some x /\ used x /\ bs = sub (page_bytes p) (dpg_offset x) (dpg_length x).
Proof.
  intros (x & Hx & Hf)%lookup_lines. unfold fragment in Hf. destruct (decide (used x)); [|done]. injection Hf as ->. eauto.
Qed.

Lemma entry_ok p i x : dpg_rpt p !! i = Some x -> entry p (Z.of_nat i) = Ret x.
Proof. intros Hx. unfold entry. rewrite (proj2 (Z.ltb_ge _ _)) by lia. by rewrite Nat2Z.id, Hx. Qed.

Lemma chain_on_page_ok ps temp page line rpb size dcc p r :
  wf ps p -> ps <= Z.of_nat (length temp) -> storable rpb -> sqz_length rpb = Ret (size, dcc) ->
  spec_chain ps page line rpb (lines p) = Some r ->
  exists p', chain_on_page ps temp page (Z.of_nat line) size dcc rpb p = Ret (r.1, p') /\ wf ps p' /\ lines p' = r.2.
Proof.
  intros H Ht Hst Esz Er. pose proof (wf_fits _ _ H) as Hfit. pose proof H as [Hps Hal Hb Hty Htop Hp Ha].
  unfold spec_chain in Er. destruct (lines p !! line) as [[old|]|] eqn:Eold; try done. cbv zeta in Er; apply (inj Some) in Er as <-.
  destruct (lookup_lines_used _ _ _ Eold) as (x & Hx & Hu & ->). set (slot := chain_line (lines p)).
  set (rpb' := chained_rpb rpb page (Z.of_nat line) (Z.of_nat slot)).
  destruct (image_ok rpb' Hst) as (size' & dcc' & E' & Hsz & Hlen & Hmin & Hwr). change (sqz_length rpb') with (sqz_length rpb) in E'. rewrite Esz in E'.
  injection E' as <- <-. pose proof (chain_line_bound (lines p)) as Hsl. rewrite length_lines in *. fold slot in Hsl.
  assert (Hne : slot <> line).
  { intros Hs. pose proof (lookup_lt_Some _ _ _ Eold) as Hlt. rewrite <-Hs in Eold, Hlt.
    unfold slot in *. by rewrite (chain_line_free _ Hlt) in Eold. }
  unfold chain_on_page. rewrite <-Hlen. cbn [size_of]. set (n := Z.of_nat (length (image rpb'))) in *.
  unfold MAX_PAGE_SIZE in Hps. rewrite HIGH_WATER_eq in *. rewrite (SSHORT_id (24 + _)), !SSHORT_id by (unfold dpg_count in *; lia).
  destruct (chain_scan_ok ps (24 + 4 * dpg_count p) (page_bytes p) (dpg_rpt p) (dpg_count p) 0 (dpg_count p) (ps - (24 + 4 * dpg_count p)) ps)
    as (space & E & Hsp & Hbe); [unfold dpg_count; lia|done|unfold MAX_PAGE_SIZE; lia|done|done|lia|fold (lines p); lia|unfold dpg_count in *; lia|].
  change (Z.of_nat 0) with 0 in E. rewrite E. clear E. fold (lines p). rewrite Z.eqb_refl. cbn [Nat.add]. fold slot.
  assert (Hmax : Z.of_nat (Nat.max (length (dpg_rpt p)) (S slot)) = dpg_count p + (if Z.of_nat slot =? dpg_count p then 1 else 0)).
  { unfold dpg_count in *. destruct (Z.eqb_spec (Z.of_nat slot) (Z.of_nat (length (dpg_rpt p)))); lia. }
  unfold sizeof_dpg_repeat.
  assert (Etop : (if Z.of_nat slot =? dpg_count p then SSHORT (24 + 4 * dpg_count p + 4) else 24 + 4 * dpg_count p)
     = HIGH_WATER (Z.of_nat (Nat.max (length (dpg_rpt p)) (S slot)))).
  { rewrite HIGH_WATER_eq, Hmax. destruct (_ =? _); [rewrite SSHORT_id|]; unfold dpg_count in *; lia. }
  assert (Eav : (if Z.of_nat slot =? dpg_count p then SSHORT (ps - (24 + 4 * dpg_count p) - total (lines p) - 4)
      else ps - (24 + 4 * dpg_count p) - total (lines p))
     = ps - (HIGH_WATER (Z.of_nat (Nat.max (length (dpg_rpt p)) (S slot))) + total (lines p))).
  { rewrite HIGH_WATER_eq, Hmax. destruct (_ =? _); [rewrite SSHORT_id|]; unfold dpg_count in *; lia. }
  rewrite Etop, Eav. destruct (Z.ltb_spec (ps - (HIGH_WATER (Z.of_nat (Nat.max (length (dpg_rpt p)) (S slot))) + total (lines p))) (ROUNDUP n ODS_ALIGNMENT)) as [Hno|Hyes].
  { exists p. done. }
  destruct (chain_space ps temp p slot space n H Ht Hmin ltac:(lia) ltac:(lia)) as (p' & space' & E & [Hw Hl Hc Hfl Hfr]);
    [rewrite HIGH_WATER_eq; lia|done|]. rewrite E. cbn [obind]. clear E.
  change (mk_rpb _ _ _ _ _ _ _ _ _ _ _ _ _) with rpb'.
  rewrite <-Hl in Eold. destruct (lookup_lines_used _ _ _ Eold) as (x' & Hx' & Hu' & Hbs). rewrite (entry_ok _ _ _ Hx'). cbn [obind].
  rewrite <-Hc in Hfr, Hsl. destruct (chain_place ps p' line slot x' space' (image rpb') Hw Hx' Hu' Hsl Hne Hmin Hfr) as (b & Eb & Hlb & Hw2 & Hl2).
  rewrite Eb. cbn [obind]. pose proof (fs_top _ _ _ _ _ Hfr) as Hft. pose proof (fs_end _ _ _ _ _ Hfr) as Hfe.
  rewrite HIGH_WATER_eq in Hft. pose proof (ROUNDUP_bounds n) as HR. fold n in Hfe. unfold RHDF_SIZE in Hmin.
  rewrite Hwr; [|lia|cbn; rewrite Hlb, (wf_bytes _ _ Hw); fold n; lia]. cbn [obind].
  eexists. split; [done|]. cbn [with_bytes with_rpt page_bytes pag_type pag_flags dpg_sequence dpg_rpt] in *.
  rewrite !USHORT_small by lia. rewrite !Nat2Z.id.
  assert (Ers : (if Z.of_nat slot =? dpg_count p then dpg_rpt p' ++ [x'] else <[slot := x']> (dpg_rpt p')) = put_line slot x' (dpg_rpt p')).
  { unfold put_line, dpg_count. rewrite Hc. destruct (Z.eqb_spec (Z.of_nat slot) (Z.of_nat (length (dpg_rpt p)))), (Nat.eqb_spec slot (length (dpg_rpt p))); (done || lia). }
  rewrite Ers. split; [exact Hw2|]. etransitivity; [exact Hl2|]. cbn [snd]. by rewrite <-Hbs, Hl.
Qed.

(** ** Backing out and deleting *)

Lemma trim_take (l : line_list) n :
  (forall i bs, (n <= i)%nat -> l !! i = Some (Some bs) -> False) ->
  n = O \/ (exists bs, l !! (n - 1)%nat = Some (Some bs)) -> trim l = take n l.
Proof.
  revert n. induction l as [|f l IH]; intros n Hn Hl; [by rewrite take_nil|]. destruct n as [|n].
  - cbn. rewrite (IH O); [rewrite take_0|intros i bs _ Hi; by eapply (Hn (S i)); [lia|]|by left].
    destruct f as [bs|]; [|done]. by destruct (Hn 0%nat bs).
  - cbn. rewrite (IH n); [|intros i bs Hi E; by eapply (Hn (S i)); [lia|]|].
    + destruct (take n l) eqn:Et; [|done]. destruct f as [bs|]; [done|]. destruct Hl as [|[bs Hl]]; [done|]. cbn in Hl.
      rewrite Nat.sub_0_r in Hl. destruct n as [|n]; [done|]. cbn in Hl. destruct l as [|g l]; [done|]. done.
    + destruct n as [|n]; [by left|]. right. destruct Hl as [|[bs Hl]]; [done|]. exists bs. cbn in *. by rewrite Nat.sub_0_r in *.
Qed.

Lemma shorten_spec n l :
  (n < length l)%nat ->
  (1 <= shorten n l <= S n)%nat /\
  (shorten n l = 1%nat \/ exists x, l !! (shorten n l - 1)%nat = Some x /\ dpg_length x <> 0) /\
  (forall i x, (shorten n l <= i <= n)%nat -> l !! i = Some x -> dpg_length x = 0).
Proof.
  induction n as [|n IH]; intros Hn; cbn [shorten]; [split_and!; [lia|lia|by left|intros; lia]|].
  destruct (lookup_lt_is_Some_2 l (S n) Hn) as [x Hx]. rewrite Hx.
  destruct (Z.eqb_spec (dpg_length x) 0) as [E|E].
  - destruct (IH ltac:(lia)) as (H1 & H2 & H3). split_and!; [lia|lia|done|]. intros i y Hi Hy.
    destruct (decide (i = S n)) as [->|]; [congruence|]. apply (H3 i y); [lia|done].
  - split_and!; [lia|lia| |intros; lia]. right. exists x. cbn. done.
Qed.

(** The end of the index is cut as [trim] does. *)
Lemma shorten_trim ps p i bs :
  wf ps p -> lines p !! i = Some (Some bs) ->
  take (shorten (length (dpg_rpt p) - 1) (dpg_rpt p)) (lines p) = trim (lines p).
Proof.
  intros H Hi. pose proof (lookup_lt_Some _ _ _ Hi) as Hlt. rewrite length_lines in Hlt.
  destruct (shorten_spec (length (dpg_rpt p) - 1) (dpg_rpt p)) as (H1 & H2 & H3); [lia|]. set (n := shorten _ _) in *.
  assert (Hz : forall j y, (n <= j)%nat -> lines p !! j = Some (Some y) -> False).
  { intros j y Hj Hy. destruct (lookup_lines_used _ _ _ Hy) as (x & Hx & Hu & _).
    pose proof (lookup_lt_Some _ _ _ Hx). pose proof (wf_placed _ _ H) as Hp. rewrite list.Forall_forall in Hp.
    pose proof (placed_free _ _ _ (Hp x (list_elem_of_lookup_2 _ _ _ Hx))) as Hf. apply Hf in Hu. apply Hu. apply (H3 j); [lia|done]. }
  symmetry. apply trim_take; [exact Hz|]. right. destruct H2 as [E|(x & Hx & Hlen)].
  - assert (i = O) as -> by (destruct i; [done|]; exfalso; apply (Hz (S i) bs); [lia|done]). rewrite E. eauto.
  - pose proof (wf_placed _ _ H) as Hp. rewrite list.Forall_forall in Hp. apply (placed_free _ _ _ (Hp x (list_elem_of_lookup_2 _ _ _ Hx))) in Hlen.
    unfold lines, lines_of. rewrite list_lookup_fmap, Hx. cbn. unfold fragment. rewrite decide_True by done. eauto.
Qed.

Lemma backout_on_page_ok ps line b_line p l :
  wf ps p -> spec_backout line b_line (lines p) = Some l ->
  exists p', backout_on_page (Z.of_nat line) (Z.of_nat b_line) p = Ret p' /\ wf ps p' /\ lines p' = l.
Proof.
  intros H Es. unfold spec_backout in Es. destruct (lines p !! line) as [f|] eqn:Ef; [|done].
  destruct (lines p !! b_line) as [[old|]|] eqn:Eold; try done. destruct (decide (line = b_line)) as [|Hne]; [done|]. injection Es as <-.
  destruct (lookup_lines _ _ _ Ef) as (x1 & Hx1 & _). destruct (lookup_lines_used _ _ _ Eold) as (x & Hx & Hu & Hold).
  pose proof (lookup_lt_Some _ _ _ Hx1) as Hli. pose proof (lookup_lt_Some _ _ _ Hx) as Hbi.
  pose proof (wf_top _ _ H) as Htop. pose proof (wf_placed _ _ H) as Hp. unfold dpg_count in *.
  assert (Em : move b_line line x (dpg_rpt p) = <[b_line := mk_repeat 0 0]> (<[line := x]> (dpg_rpt p))).
  { unfold move, put_line. by rewrite (proj2 (Nat.eqb_neq _ _)) by lia. }
  destruct (move_ok ps p b_line line x H Hx Hu) as [Hw1 Hl1]; [lia|done|replace (Nat.max (length (dpg_rpt p)) (S line)) with (length (dpg_rpt p)) by lia; done| |].
  { replace (Nat.max (length (dpg_rpt p)) (S line)) with (length (dpg_rpt p)) by lia. eapply list.Forall_impl; [exact Hp|]. cbn.
    intros y Hy Huy. by destruct (placed_used _ _ _ Hy Huy). }
  rewrite Em in *. set (rpt := <[b_line := _]> _) in *.
  assert (Hrx : rpt !! line = Some x) by (unfold rpt; rewrite list_lookup_insert_ne by done; by apply list_lookup_insert_eq).
  destruct (flags_ok ps (with_rpt rpt p) line x backout_flags Hw1 Hrx Hu) as (b & Eb & Hw2 & Hf2 & Hl2).
  unfold backout_on_page. rewrite (entry_ok _ _ _ Hx1), (entry_ok _ _ _ Hx). cbn [obind]. rewrite !Nat2Z.id. fold rpt.
  rewrite (entry_ok (with_rpt rpt p) _ _ Hrx). cbn [obind]. unfold clear_flags. cbn [page_bytes with_rpt] in Eb. unfold backout_flags in Eb. rewrite Eb. cbn [obind].
  eexists. split; [done|]. destruct (take_lines ps (with_bytes b (with_rpt rpt p)) (shorten (length rpt - 1) rpt) Hw2) as [Hw3 Hl3].
  split; [exact Hw3|]. etransitivity; [exact Hl3|]. rewrite Hl1, Hf2 in Hl2.
  assert (El : lines (with_bytes b (with_rpt rpt p)) = <[line := Some (set_flags backout_flags old)]> (<[b_line := None]> (lines p))).
  { rewrite Hl2, Hold. cbn [page_bytes with_rpt]. unfold put_line. rewrite length_lines, (proj2 (Nat.eqb_neq _ _)) by lia.
    rewrite (list_insert_insert_ne _ b_line line) by done. by rewrite list_insert_insert_eq. }
  rewrite <-El. apply (shorten_trim ps (with_bytes b (with_rpt rpt p)) line (set_flags backout_flags old)); [exact Hw2|].
  rewrite El. apply list_lookup_insert_eq. rewrite length_insert, length_lines. lia.
Qed.

Lemma last_used_take l : exists n, last_used l = take n l.
Proof.
  induction l as [|x l [n IH]]; [by exists O|]. cbn. destruct (last_used l) as [|y l'] eqn:E.
  - destruct (_ =? 0); [by exists O|]. exists 1%nat. cbn. by rewrite take_0.
  - exists (S n). cbn. by rewrite IH.
Qed.

Lemma last_used_trim b l : lines_of b (last_used l) = trim (lines_of b l).
Proof.
  induction l as [|x l IH]; [done|]. cbn [last_used lines_of fmap list_fmap trim]. fold (lines_of b l). rewrite <-IH.
  unfold fragment, used. destruct (last_used l) as [|y l'] eqn:E.
  - destruct (Z.eqb_spec (dpg_offset x) 0); [by rewrite decide_False by tauto|rewrite decide_True by done]. cbn.
    unfold fragment, used. by rewrite decide_True.
  - done.
Qed.

(** A line is given up. *)
Lemma free_line_ok ps p i :
  wf ps p -> (i < length (dpg_rpt p))%nat ->
  wf ps (with_rpt (<[i := mk_repeat 0 0]> (dpg_rpt p)) p) /\
  lines (with_rpt (<[i := mk_repeat 0 0]> (dpg_rpt p)) p) = <[i := None]> (lines p).
Proof.
  intros [Hps Hal Hb Hty Htop Hp Ha] Hi. assert (H0 : ~ used (mk_repeat 0 0)) by (unfold used; cbn; lia). split.
  - split; cbn; try done; unfold dpg_count in *; cbn; rewrite ?length_insert; try done.
    + apply Forall_insert; [done|]. unfold placed. by rewrite decide_False.
    + intros j k a c. rewrite !list_lookup_insert_Some. intros [(<- & <- & _)|[_ Hj]]; [done|]. intros [(<- & <- & _)|[_ Hk]]; [done|]. by apply (Ha j k).
  - unfold lines, lines_of. cbn. by rewrite list_fmap_insert.
Qed.

Lemma remove_line_ok ps line p l :
  wf ps p -> spec_delete line (lines p) = Some l ->
  exists p', remove_line (Z.of_nat line) p = Ret p' /\ wf ps p' /\ lines p' = l.
Proof.
  intros H Es. unfold spec_delete in Es. destruct (lines p !! line) as [f|] eqn:Ef; [|done]. injection Es as <-.
  destruct (lookup_lines _ _ _ Ef) as (x & Hx & _). unfold remove_line. rewrite (entry_ok _ _ _ Hx). cbn [obind]. rewrite Nat2Z.id.
  destruct (free_line_ok ps p line H (lookup_lt_Some _ _ _ Hx)) as [Hw Hl]. set (p1 := with_rpt _ p) in *.
  eexists. split; [done|]. destruct (last_used_take (dpg_rpt p1)) as [n En]. change (<[line := mk_repeat 0 0]> (dpg_rpt p)) with (dpg_rpt p1).
  split.
  - rewrite En. destruct (take_lines ps p1 n Hw) as [Hw' _]. exact Hw'.
  - change (lines_of (page_bytes p1) (last_used (dpg_rpt p1)) = trim (<[line:=None]> (lines p))). rewrite last_used_trim. by rewrite <-Hl.
Qed.

End DataPageSpec.
