(* ===== verification/DataPageTable.v ===== *)
(** * Data pages as tables of fragments: sequences of operations and what is
    read back ([jrd/dpm.epp]) *)

From S2P Require Import Prelude.
From S2P Require Import Sqz.
From S2P Require Import DataPage.
From S2P Require Import DataPageOps.
From S2P Require Import DataPageSpec.
From stdpp Require Import list.
#[local] Open Scope Z_scope.

Module DataPageTable.
Import Sqz DataPage DataPageOps DataPageSpec.

(** ** Reading a line *)

(** What [get_header] makes of a line. *)
Definition read_line (win_page line : Z) (f : option (option (list Z))) (rpb : record_param) : bool * record_param :=
  match f with
  | Some (Some bs) =>
      let flags := le_value (sub bs 10 2) in
      let frag := flag_set flags rpb_fragment in
      let inc := flag_set flags rpb_incomplete in
      let n := Z.of_nat (length bs) in
      (true, mk_rpb (rpb_number rpb)
        (if frag then rpb_transaction rpb else SLONG (le_value (sub bs 0 4)))
        (rpb_record rpb) (rpb_prior rpb)
        (if frag then rpb_format_number rpb else le_value (sub bs 12 1))
        win_page (USHORT line)
        (if inc then SLONG (le_value (sub bs 16 4)) else rpb_f_page rpb)
        (if inc then le_value (sub bs 20 2) else rpb_f_line rpb)
        (if frag then rpb_b_page rpb else SLONG (le_value (sub bs 4 4)))
        (if frag then rpb_b_line rpb else le_value (sub bs 8 2))
        (if inc then sub bs RHDF_SIZE (n - RHDF_SIZE) else sub bs RHD_SIZE (n - RHD_SIZE))
        flags)
  | _ => (false, rpb)
  end.

(** ** Operations in sequence *)

Inductive page_op :=
  | Op_store (reserve : bool) (rpb : record_param)
  | Op_chain (page : Z) (line : nat) (rpb : record_param)
  | Op_backout (line b_line : nat)
  | Op_delete (rpb : record_param)
  | Op_rewrite_header (rpb : record_param)
  | Op_compress.

(** What an operation returns. *)
Inductive page_result :=
  | Res_line (slot : option Z)
  | Res_rpb (rpb : option record_param)
  | Res_done.

Definition page_step (ps page : Z) (temp : list Z) (o : page_op) (p : data_page) : outcome (page_result * data_page) :=
  match o with
  | Op_store reserve rpb => let* (r, p) := store_on_page ps temp reserve rpb p in Ret (Res_line r, p)
  | Op_chain page line rpb =>
      let* (size, dcc) := sqz_length rpb in
      let* (r, p) := chain_on_page ps temp page (Z.of_nat line) size dcc rpb p in Ret (Res_rpb r, p)
  | Op_backout line b_line => let* p := backout_on_page (Z.of_nat line) (Z.of_nat b_line) p in Ret (Res_done, p)
  | Op_delete rpb => let* (r, p) := delete_on_page page rpb p in Ret (Res_rpb (Some r), p)
  | Op_rewrite_header rpb => let* p := rewrite_header rpb p in Ret (Res_done, p)
  | Op_compress => let* (_, p) := DPM_compress ps temp p in Ret (Res_done, p)
  end.

Fixpoint page_run (ps page : Z) (ops : list (list Z * page_op)) (p : data_page) : outcome (list page_result * data_page) :=
  match ops with
  | [] => Ret ([], p)
  | (temp, o) :: ops =>
      let* (r, p) := page_step ps page temp o p in
      let* (rs, p) := page_run ps page ops p in Ret (r :: rs, p)
  end.

(** The same operations on a list of lines; [None] where the caller passes a
    line the operation is not meant for. *)
Definition table_step (ps page : Z) (o : page_op) (l : line_list) : option (page_result * line_list) :=
  match o with
  | Op_store reserve rpb =>
      if decide (storable rpb) then let (r, l) := spec_store ps reserve rpb l in Some (Res_line r, l) else None
  | Op_chain page line rpb =>
      if decide (storable rpb) then
        match spec_chain ps page line rpb l with Some (r, l) => Some (Res_rpb r, l) | None => None end
      else None
  | Op_backout line b_line =>
      match spec_backout line b_line l with Some l => Some (Res_done, l) | None => None end
  | Op_delete rpb =>
      if (rpb_line rpb <? 0) || (65535 <? rpb_line rpb) then None else
      match read_line page (rpb_line rpb) (l !! Z.to_nat (rpb_line rpb)) rpb with
      | (true, rpb') =>
          match spec_delete (Z.to_nat (rpb_line rpb)) l with Some l => Some (Res_rpb (Some rpb'), l) | None => None end
      | (false, _) => None
      end
  | Op_rewrite_header rpb =>
      if rpb_line rpb <? 0 then None else
      match l !! Z.to_nat (rpb_line rpb) with
      | Some (Some bs) => Some (Res_done, <[Z.to_nat (rpb_line rpb) := Some (store bs 0 (rhd_header rpb))]> l)
      | _ => None
      end
  | Op_compress => Some (Res_done, l)
  end.

Fixpoint table_run (ps page : Z) (ops : list (list Z * page_op)) (l : line_list) : option (list page_result * line_list) :=
  match ops with
  | [] => Some ([], l)
  | (_, o) :: ops =>
      match table_step ps page o l with
      | Some (r, l) => match table_run ps page ops l with Some (rs, l) => Some (r :: rs, l) | None => None end
      | None => None
      end
  end.

(** ** Lemmas *)

#[global] Instance storable_dec rpb : Decision (storable rpb).
Proof. unfold storable. apply _. Defined.

Lemma get_header_ok ps page line p rpb :
  wf ps p -> 0 <= line ->
  get_header page line p rpb = Ret (read_line page line (lines p !! Z.to_nat line) rpb).
Proof.
  intros H Hl. unfold get_header, dpg_count. pose proof (wf_ps _ _ H) as Hps. unfold MAX_PAGE_SIZE in Hps.
  destruct (Z.leb_spec (Z.of_nat (length (dpg_rpt p))) line) as [Ho|Hi].
  { rewrite (lookup_ge_None_2 (lines p)) by (rewrite length_lines; lia). done. }
  destruct (lookup_lt_is_Some_2 (dpg_rpt p) (Z.to_nat line)) as [x Hx]; [lia|].
  replace line with (Z.of_nat (Z.to_nat line)) at 1 by lia. rewrite (entry_ok _ _ _ Hx). cbn [obind].
  unfold lines, lines_of. rewrite list_lookup_fmap, Hx. cbn [fmap option_fmap option_map]. unfold fragment, used.
  destruct (Z.eqb_spec (dpg_offset x) 0) as [E|E]; [by rewrite decide_False by tauto|rewrite decide_True by done]. cbn [read_line].
  pose proof (wf_placed _ _ H) as Hp. rewrite list.Forall_forall in Hp.
  destruct (placed_used _ _ _ (Hp x (list_elem_of_lookup_2 _ _ _ Hx)) E) as (H1 & H2 & H3 & H4). pose proof (wf_bytes _ _ H) as Hb.
  rewrite HIGH_WATER_eq in H1. unfold dpg_count in H1. unfold RHDF_SIZE, RHD_SIZE in *.
  rewrite length_sub by lia. rewrite !sub_sub by lia. rewrite !USHORT_small by lia.
  unfold field. rewrite !bytes_at_ok by lia. cbn [obind]. rewrite Z.add_0_r.
  destruct (flag_set _ rpb_fragment); cbn [obind]; destruct (flag_set _ rpb_incomplete); done.
Qed.

Lemma rewrite_header_ok ps rpb p bs :
  wf ps p -> 0 <= rpb_line rpb -> lines p !! Z.to_nat (rpb_line rpb) = Some (Some bs) ->
  exists p', rewrite_header rpb p = Ret p' /\ wf ps p' /\
    lines p' = <[Z.to_nat (rpb_line rpb) := Some (store bs 0 (rhd_header rpb))]> (lines p).
Proof.
  intros H Hl Hbs. destruct (lookup_lines_used _ _ _ Hbs) as (x & Hx & Hu & ->). unfold rewrite_header.
  pose proof (entry_ok _ _ _ Hx) as Ee. rewrite Z2Nat.id in Ee by done. rewrite Ee. cbn [obind].
  pose proof (wf_placed _ _ H) as Hp. rewrite list.Forall_forall in Hp.
  destruct (placed_used _ _ _ (Hp x (list_elem_of_lookup_2 _ _ _ Hx)) Hu) as (H1 & H2 & H3 & H4). unfold RHDF_SIZE in H3.
  destruct (patch_ok ps p (Z.to_nat (rpb_line rpb)) x 0 (rhd_header rpb) H Hx Hu) as (b & E & Hw & Hf & Hls);
    [lia|rewrite length_header; lia|]. rewrite Z.add_0_r in E. rewrite E. cbn [obind]. eexists. split; [done|]. split; [done|].
  by rewrite Hls, Hf.
Qed.

Lemma page_step_ok ps page temp o p r l :
  wf ps p -> ps <= Z.of_nat (length temp) -> table_step ps page o (lines p) = Some (r, l) ->
  exists p', page_step ps page temp o p = Ret (r, p') /\ wf ps p' /\ lines p' = l.
Proof.
  intros H Ht. destruct o as [reserve rpb|pg line rpb|line b_line|rpb|rpb|]; cbn [table_step page_step].
  - case_decide as Hs; [|done]. destruct (spec_store ps reserve rpb (lines p)) as [r' l'] eqn:E. intros [= <- <-].
    destruct (store_on_page_ok ps temp reserve rpb p H Ht Hs) as (p' & -> & Hw & Hl). rewrite E in *. cbn. eauto.
  - case_decide as Hs; [|done]. destruct (spec_chain ps pg line rpb (lines p)) as [[r' l']|] eqn:E; [|done]. intros [= <- <-].
    destruct (image_ok rpb Hs) as (size & dcc & Esz & _). rewrite Esz. cbn [obind].
    destruct (chain_on_page_ok ps temp pg line rpb size dcc p _ H Ht Hs Esz E) as (p' & -> & Hw & Hl). cbn. eauto.
  - destruct (spec_backout line b_line (lines p)) as [l'|] eqn:E; [|done]. intros [= <- <-].
    destruct (backout_on_page_ok ps line b_line p l' H E) as (p' & -> & Hw & Hl). cbn. eauto.
  - destruct (Z.ltb_spec (rpb_line rpb) 0) as [|Hr]; [done|]. destruct (Z.ltb_spec 65535 (rpb_line rpb)) as [|Hr']; [done|]. cbn [orb].
    unfold delete_on_page. rewrite (get_header_ok ps) by done.
    destruct (lines p !! Z.to_nat (rpb_line rpb)) as [[bs|]|] eqn:El; cbn [read_line]; [|done|done].
    destruct (spec_delete (Z.to_nat (rpb_line rpb)) (lines p)) as [l'|] eqn:E; [|done]. intros [= <- <-]. cbn [obind negb rpb_line].
    rewrite USHORT_small by lia. destruct (remove_line_ok ps _ p l' H E) as (p' & E' & Hw & Hl).
    rewrite Z2Nat.id in E' by done. rewrite E'. cbn. eauto.
  - destruct (Z.ltb_spec (rpb_line rpb) 0) as [|Hr]; [done|].
    destruct (lines p !! Z.to_nat (rpb_line rpb)) as [[bs|]|] eqn:El; [|done|done]. intros [= <- <-].
    destruct (rewrite_header_ok ps rpb p bs H Hr El) as (p' & -> & Hw & Hl). cbn. eauto.
  - intros [= <- <-]. destruct (DPM_compress_ok ps temp p H Ht) as (p' & -> & [Hw Hl _ _ _ _]). cbn. eauto.
Qed.

Lemma page_run_ok ps page ops p rs l :
  wf ps p -> Forall (fun o => ps <= Z.of_nat (length o.1)) ops -> table_run ps page ops (lines p) = Some (rs, l) ->
  exists p', page_run ps page ops p = Ret (rs, p') /\ wf ps p' /\ lines p' = l.
Proof.
  intros H Ht. revert p H rs l. induction Ht as [|[temp o] ops Ho _ IH]; intros p H rs l; cbn [table_run page_run].
  { intros [= <- <-]. eauto. }
  destruct (table_step ps page o (lines p)) as [[r l']|] eqn:Es; [|done].
  destruct (page_step_ok ps page temp o p r l' H Ho Es) as (p1 & -> & Hw & <-). cbn [obind].
  destruct (table_run ps page ops (lines p1)) as [[rs' l'']|] eqn:Er; [|done]. intros [= <- <-].
  destruct (IH p1 Hw _ _ Er) as (p' & -> & Hw' & Hl'). cbn. eauto.
Qed.

(** ** What a stored record reads as *)

(** The padding of a short record decompresses to nothing. *)
Lemma stored_padded ctl data k : encodes ctl data -> decodes (stored_form ctl data ++ repeat 0 k) data.
Proof.
  induction 1 as [|n lit ctl rest Hn Hl He IH|n c ctl rest Hn He IH].
  - cbn [stored_form app]. induction k as [|k IH]; [apply decodes_nil|]. cbn [repeat].
    change (0 :: repeat 0 k) with (Z.of_nat 0 :: [] ++ repeat 0 k). change (@nil Z) with ([] ++ @nil Z) at 2.
    by apply decodes_literal.
  - rewrite stored_form_literal by done. cbn [app]. rewrite <-app_assoc. by apply decodes_literal.
  - rewrite stored_form_run by lia. cbn [app]. apply decodes_run; [lia|done].
Qed.

Lemma stored_schar ctl data : encodes ctl data -> Forall is_schar data -> Forall is_schar (stored_form ctl data).
Proof.
  induction 1 as [|n lit ctl rest Hn Hl He IH|n c ctl rest Hn He IH]; intros Hd; [constructor| |].
  - rewrite stored_form_literal by done. apply list.Forall_app in Hd as [H1 H2].
    constructor; [unfold is_schar; lia|]. apply list.Forall_app. auto.
  - rewrite stored_form_run by lia. apply list.Forall_app in Hd as [H1 H2]. destruct n as [|n]; [lia|]. cbn in H1.
    apply list.Forall_cons in H1 as [H1 _]. constructor; [unfold is_schar; lia|]. constructor; auto.
Qed.

Lemma image_data rpb :
  storable rpb ->
  exists tail, image rpb = rhd_header rpb ++ tail /\
    forall room, SQZ_decompress (map SCHAR tail) room =
      if room <? Z.of_nat (length (rpb_address rpb)) then Throw (BUGCHECK 179) else Ret (map SCHAR (rpb_address rpb)).
Proof.
  intros Hs. destruct (SQZ_length_exact (map SCHAR (rpb_address rpb)) []) as (chain & pool & E & He & _); [by rewrite length_map|].
  unfold image, sqz_length. rewrite E. rewrite (SQZ_fast_concat _ _ _ _ (fast_block_encodes _ _ He)).
  eexists. split; [done|]. intros room. rewrite map_app, map_map.
  assert (Em : map (fun x => SCHAR (UCHAR x)) (stored_form (concat chain) (map SCHAR (rpb_address rpb)))
      = stored_form (concat chain) (map SCHAR (rpb_address rpb))).
  { rewrite <-(map_id (stored_form _ _)) at 2. apply map_ext_in. intros z Hz. apply list_elem_of_In in Hz.
    assert (Hf : Forall is_schar (stored_form (concat chain) (map SCHAR (rpb_address rpb)))).
    { apply stored_schar; [done|]. apply list.Forall_forall. intros y Hy. apply list_elem_of_In, in_map_iff in Hy as (w & <- & _). apply SCHAR_range. }
    rewrite list.Forall_forall in Hf. specialize (Hf z Hz). unfold is_schar in Hf. machine_lia. }
  rewrite Em, map_repeat. change (SCHAR 0) with 0. unfold SQZ_decompress.
  rewrite (stored_padded _ _ _ He) by lia. by rewrite length_map.
Qed.

(** The fields of a record, as wide as they are declared. *)
Record typed_rpb (rpb : record_param) : Prop := {
  ty_transaction : -2147483648 <= rpb_transaction rpb < 2147483648;
  ty_b_page : -2147483648 <= rpb_b_page rpb < 2147483648;
  ty_b_line : 0 <= rpb_b_line rpb < 65536;
  ty_flags : 0 <= rpb_flags rpb < 65536;
  ty_format : 0 <= rpb_format_number rpb < 256
}.

Lemma sub_app_l l1 l2 o n : 0 <= o -> 0 <= n -> o + n <= Z.of_nat (length l1) -> sub (l1 ++ l2) o n = sub l1 o n.
Proof. intros. apply list_eq. intros i. rewrite !lookup_sub by lia. case_decide; [|done]. by rewrite lookup_app_l by lia. Qed.

Lemma header_fields rpb :
  sub (rhd_header rpb) 0 4 = le_bytes 4 (rpb_transaction rpb) /\ sub (rhd_header rpb) 4 4 = le_bytes 4 (rpb_b_page rpb) /\
  sub (rhd_header rpb) 8 2 = le_bytes 2 (rpb_b_line rpb) /\ sub (rhd_header rpb) 10 2 = le_bytes 2 (rpb_flags rpb) /\
  sub (rhd_header rpb) 12 1 = le_bytes 1 (rpb_format_number rpb).
Proof. unfold rhd_header. cbn. done. Qed.

(** The image of a record reads as the record. *)
Lemma read_image rpb :
  storable rpb -> typed_rpb rpb -> flag_set (rpb_flags rpb) rpb_fragment = false -> flag_set (rpb_flags rpb) rpb_incomplete = false ->
  exists data,
    (forall room, SQZ_decompress (map SCHAR data) room =
      if room <? Z.of_nat (length (rpb_address rpb)) then Throw (BUGCHECK 179) else Ret (map SCHAR (rpb_address rpb))) /\
    forall page line rpb0, read_line page line (Some (Some (image rpb))) rpb0 =
      (true, mk_rpb (rpb_number rpb0) (rpb_transaction rpb) (rpb_record rpb0) (rpb_prior rpb0) (rpb_format_number rpb)
         page (USHORT line) (rpb_f_page rpb0) (rpb_f_line rpb0) (rpb_b_page rpb) (rpb_b_line rpb) data (rpb_flags rpb)).
Proof.
  intros Hs [Ht Hbp Hbl Hfl Hfm] Hf Hi. destruct (image_data rpb Hs) as (tail & E & Hd). exists tail. split; [done|]. intros page line rpb0.
  cbn [read_line]. rewrite E. pose proof (length_header rpb) as Hl. destruct (header_fields rpb) as (F1 & F2 & F3 & F4 & F5).
  rewrite (sub_app_l _ tail 0 4), (sub_app_l _ tail 4 4), (sub_app_l _ tail 8 2), (sub_app_l _ tail 10 2), (sub_app_l _ tail 12 1) by lia.
  rewrite F1, F2, F3, F4, F5.
  rewrite !SLONG_le_bytes by done. rewrite !le_value_le_bytes_small by (cbn; lia). rewrite Hf, Hi.
  do 2 f_equal. rewrite length_app, Hl. unfold RHD_SIZE, sub. rewrite drop_app_length' by done.
  apply take_ge. lia.
Qed.

(** A new record goes to an empty line. *)
Lemma first_free_empty i l : first_free i l = O \/ l !! (first_free i l - i)%nat = Some None.
Proof.
  revert i. induction l as [|[bs|] l IH]; intros i; cbn [first_free]; [by left| |].
  - destruct (first_free_bound (S i) l) as [E|E]; [by left|]. destruct (IH (S i)) as [H|H]; [by left|right].
    by replace (first_free (S i) l - i)%nat with (S (first_free (S i) l - S i)) by lia.
  - destruct (Nat.eqb_spec i 0) as [->|]; [|right; by rewrite Nat.sub_diag]. destruct (IH 1%nat) as [H|H]; [by left|].
    destruct (first_free_bound 1 l) as [E|E]; [by left|right]. rewrite Nat.sub_0_r.
    by replace (first_free 1 l) with (S (first_free 1 l - 1)) by lia.
Qed.

Lemma store_line_bound l : (store_line l <= length l)%nat.
Proof. unfold store_line. pose proof (first_free_bound 0 l). destruct (first_free 0 l); lia. Qed.

Lemma store_line_empty l : l !! store_line l = None \/ l !! store_line l = Some None.
Proof.
  unfold store_line. pose proof (first_free_empty 0 l) as H. destruct (first_free 0 l) as [|n] eqn:E.
  - left. by apply lookup_ge_None_2.
  - right. destruct H as [|H]; [done|]. by rewrite Nat.sub_0_r in H.
Qed.

(** ** Chaining, then backing out *)

Lemma store_again b p b1 b2 :
  length b1 = length b2 -> (p + length b1 <= length b)%nat -> store (store b p b1) p b2 = store b p b2.
Proof.
  intros H1 H2. apply list_eq. intros i. rewrite !lookup_store by (rewrite ?length_store; lia).
  repeat case_decide; try lia; done.
Qed.

Lemma store_same b o n :
  0 <= o -> 0 <= n -> o + n <= Z.of_nat (length b) -> store b (Z.to_nat o) (sub b o n) = b.
Proof.
  intros H1 H2 H3. pose proof (length_sub b o n H1 H2 H3). apply list_eq. intros i.
  rewrite lookup_store by lia. case_decide; [|done]. rewrite lookup_sub by lia. rewrite decide_True by lia. f_equal. lia.
Qed.

Lemma backout_chain_flags v : 0 <= v < 65536 -> Z.land v (rpb_chained + rpb_gc_active) = 0 -> backout_flags (chain_flag v mod 65536) = v.
Proof.
  intros Hv H0. unfold backout_flags, chain_flag, rpb_chained, rpb_gc_active in *.
  assert (E : Z.lor v 2 mod 65536 = Z.lor v 2).
  { change 65536 with (2 ^ 16). rewrite <-Z.land_ones by lia. apply Z.bits_inj'. intros n Hn.
    rewrite Z.land_spec, Z.testbit_ones_nonneg by lia. destruct (Z.ltb_spec n 16) as [|Hge]; [by rewrite andb_true_r|].
    rewrite andb_false_r, Z.lor_spec, (Z.bits_above_log2 2 n) by (cbn; lia).
    destruct (Z.eq_dec v 0) as [->|Hn0]; [by rewrite Z.bits_0|]. rewrite (Z.bits_above_log2 v n); [done|lia|].
    apply Z.lt_le_trans with 16; [apply Z.log2_lt_pow2; lia|lia]. }
  rewrite E. apply Z.bits_inj'. intros n Hn. apply (f_equal (fun z => Z.testbit z n)) in H0.
  rewrite Z.land_spec in H0. rewrite Z.land_spec, Z.lor_spec, Z.lnot_spec by lia. change (2 + 256) with 258 in *.
  rewrite Z.bits_0 in H0. assert (Hs : Z.testbit 2 n = true -> Z.testbit 258 n = true).
  { intros Ht. change 258 with (Z.lor 2 256). by rewrite Z.lor_spec, Ht. }
  destruct (Z.testbit v n), (Z.testbit 2 n) eqn:E2, (Z.testbit 258 n); try done; by specialize (Hs eq_refl).
Qed.

(** Backing out gives the old version its flags back. *)
Lemma flags_restored bs :
  (12 <= length bs)%nat -> Forall is_uchar bs -> flag_set (le_value (sub bs 10 2)) (rpb_chained + rpb_gc_active) = false ->
  set_flags backout_flags (set_flags chain_flag bs) = bs.
Proof.
  intros H Hu Hf. unfold set_flags. rewrite (sub_store_same bs 10 _ 2) by (rewrite ?length_le_bytes; lia).
  rewrite le_value_le_bytes. rewrite store_again by (rewrite ?length_le_bytes; lia).
  assert (Hs : Forall is_uchar (sub bs 10 2)) by (unfold sub; by apply Forall_take, Forall_drop).
  pose proof (length_sub bs 10 2 ltac:(lia) ltac:(lia) ltac:(lia)) as Hl. pose proof (le_value_range _ Hs) as Hr.
  rewrite Hl in Hr. change (2 ^ (8 * Z.of_nat 2)) with 65536. change (2 ^ (8 * 2)) with 65536 in Hr.
  rewrite backout_chain_flags; [|done|].
  - pose proof (le_bytes_le_value _ Hs) as El. replace (length (sub bs 10 2)) with 2%nat in El by lia. rewrite El. by apply (store_same bs 10 2); lia.
  - unfold flag_set in Hf. by destruct (Z.eqb_spec (Z.land (le_value (sub bs 10 2)) (rpb_chained + rpb_gc_active)) 0).
Qed.

Lemma trim_snoc_None l : trim (l ++ [None]) = trim l.
Proof. induction l as [|f l IH]; [done|]. cbn. by rewrite IH. Qed.

(** On lists of lines: what chaining changed is undone. *)
Lemma chain_backout_lines ps page line rpb l old rpb' l' :
  l !! line = Some (Some old) -> (12 <= length old)%nat -> Forall is_uchar old ->
  flag_set (le_value (sub old 10 2)) (rpb_chained + rpb_gc_active) = false ->
  spec_chain ps page line rpb l = Some (Some rpb', l') ->
  spec_backout line (Z.to_nat (rpb_b_line rpb')) l' = Some (trim l).
Proof.
  intros Hl Ho Hu Hf. unfold spec_chain. rewrite Hl. destruct (_ <? _); [done|]. intros [= <- <-]. cbn [rpb_b_line chained_rpb].
  rewrite Nat2Z.id. set (slot := chain_line l). pose proof (chain_line_bound l) as Hs. fold slot in Hs.
  pose proof (lookup_lt_Some _ _ _ Hl) as Hi.
  assert (Hne : line <> slot).
  { intros E. subst line. unfold slot in *. by rewrite (chain_line_free _ Hi) in Hl. }
  set (v := Some (set_flags chain_flag old)).
  assert (Hlp : length (put_line slot v l) = Nat.max (length l) (S slot)) by (by apply length_put_line).
  unfold spec_backout. rewrite list_lookup_insert_eq by lia. rewrite list_lookup_insert_ne by done.
  rewrite lookup_put_line, decide_True by done. unfold v at 1. rewrite decide_False by done. f_equal.
  rewrite flags_restored by done. rewrite (list_insert_insert_ne _ slot line) by done. rewrite list_insert_insert_eq.
  destruct (decide (slot = length l)) as [E|E].
  - rewrite <-(trim_snoc_None l). f_equal. unfold put_line. rewrite E, Nat.eqb_refl.
    apply list_eq. intros i. destruct (decide (i = length l)) as [->|Hil].
    + rewrite list_lookup_insert_ne by lia. rewrite list_lookup_insert_eq by (rewrite length_app; cbn; lia).
      by rewrite lookup_app_r, Nat.sub_diag by lia.
    + destruct (decide (i = line)) as [->|Hiln].
      * rewrite list_lookup_insert_eq by (rewrite length_insert, length_app; lia). by rewrite lookup_app_l.
      * rewrite !list_lookup_insert_ne by done. destruct (decide (i < length l)%nat); [by rewrite !lookup_app_l by lia|].
        rewrite !lookup_ge_None_2; [done|rewrite length_app; cbn; lia|rewrite length_app; cbn; lia].
  - f_equal. unfold put_line. rewrite (proj2 (Nat.eqb_neq _ _)) by done. rewrite list_insert_insert_eq.
    apply list_eq. intros i. destruct (decide (i = line)) as [->|Hiln].
    + by rewrite list_lookup_insert_eq by (rewrite length_insert; lia).
    + rewrite list_lookup_insert_ne by done. destruct (decide (i = slot)) as [->|Hsl].
      * rewrite list_lookup_insert_eq by lia. symmetry. apply chain_line_free. fold slot. lia.
      * by rewrite list_lookup_insert_ne.
Qed.

End DataPageTable.
