(* ===== verification/DataPageClient.v ===== *)
(** * What users of a data page rely on ([jrd/dpm.epp])

    The theorems on data pages, with concrete pages they apply to. *)

From S2P Require Import Prelude.
From S2P Require Import Sqz.
From S2P Require Import DataPage.
From S2P Require Import DataPageOps.
From S2P Require Import DataPageSpec.
From S2P Require Import DataPageTable.
From stdpp Require Import list.
#[local] Open Scope Z_scope.

Module DataPageClient.
Import Sqz DataPage DataPageOps DataPageSpec DataPageTable.

(** A page as [extend_relation] formats it. *)
Definition empty_page (ps : Z) : data_page := mk_page pag_data 0 0 [] (repeat 0 (Z.to_nat ps)).

Definition page_after (ps page : Z) (ops : list (list Z * page_op)) : data_page :=
  match page_run ps page ops (empty_page ps) with Ret (_, p) => p | Throw _ => empty_page ps end.

Lemma wf_empty ps : 64 <= ps <= MAX_PAGE_SIZE -> ps mod 4 = 0 -> wf ps (empty_page ps).
Proof.
  intros H1 H2. split; cbn; try done.
  - rewrite repeat_length. lia.
  - unfold dpg_count. cbn. rewrite HIGH_WATER_eq. lia.
Qed.

Lemma page_after_ok ps page ops rs l :
  64 <= ps <= MAX_PAGE_SIZE -> ps mod 4 = 0 -> Forall (fun o => ps <= Z.of_nat (length o.1)) ops ->
  table_run ps page ops [] = Some (rs, l) -> wf ps (page_after ps page ops) /\ lines (page_after ps page ops) = l.
Proof.
  intros H1 H2 Ht E. destruct (page_run_ok ps page ops (empty_page ps) rs l (wf_empty ps H1 H2) Ht E) as (p & Ep & Hw & Hl).
  unfold page_after. by rewrite Ep.
Qed.

(** C7: a data page is a table of record fragments.  Whatever sequence of
    stores, version chainings, backouts, deletions, header rewrites and
    compressions is run on a page, each with any contents of the buffer for
    compression, no access leaves the page or the index, the results and the
    lines are those of the same operations on a list of lines, where a record
    is refused only if the fragments, the index and what is held back leave
    too few bytes in total, and the fragments stay on the page above the index
    and apart. *)
Theorem page_refines_table ps page ops p rs l :
  wf ps p -> Forall (fun o => ps <= Z.of_nat (length o.1)) ops ->
  table_run ps page ops (lines p) = Some (rs, l) ->
  exists p', page_run ps page ops p = Ret (rs, p') /\ lines p' = l /\
    (forall line rpb, 0 <= line -> get_header page line p' rpb = Ret (read_line page line (l !! Z.to_nat line) rpb)) /\
    (forall i x, dpg_rpt p' !! i = Some x -> used x ->
       HIGH_WATER (dpg_count p') <= dpg_offset x /\ dpg_offset x + dpg_length x <= ps /\
       forall j y, dpg_rpt p' !! j = Some y -> used y -> i <> j ->
         dpg_offset x + dpg_length x <= dpg_offset y \/ dpg_offset y + dpg_length y <= dpg_offset x).
Proof.
  intros H Ht E. destruct (page_run_ok ps page ops p rs l H Ht E) as (p' & Er & Hw & Hl). exists p'.
  split; [done|]. split; [done|]. split; [intros line rpb Hline; rewrite <-Hl; by apply (get_header_ok ps)|].
  intros i x Hx Hu. pose proof (wf_placed _ _ Hw) as Hp. rewrite list.Forall_forall in Hp.
  destruct (placed_used _ _ _ (Hp x (list_elem_of_lookup_2 _ _ _ Hx)) Hu) as (H1 & H2 & H3 & H4). split_and!; [lia|lia|].
  intros j y Hy Huy Hij. destruct (placed_used _ _ _ (Hp y (list_elem_of_lookup_2 _ _ _ Hy)) Huy) as (_ & _ & _ & H5).
  destruct (wf_apart _ _ Hw i j x y Hx Hy Hij Hu Huy); [left|right]; lia.
Qed.

(** C26: a record that is stored is read back.  If the fragments, the index
    and what is held back leave room for it, however they are scattered, the
    record goes to a line that was empty; reading that line gives the fields
    it was stored with and data that decompress to its data; every other line
    reads as before. *)
Theorem store_read_roundtrip ps page temp reserve rpb p :
  wf ps p -> ps <= Z.of_nat (length temp) -> storable rpb -> typed_rpb rpb ->
  flag_set (rpb_flags rpb) rpb_fragment = false -> flag_set (rpb_flags rpb) rpb_incomplete = false ->
  taken reserve (lines p) + size_of (Some (image rpb)) <= ps ->
  exists slot p' data, store_on_page ps temp reserve rpb p = Ret (Some (Z.of_nat slot), p') /\ wf ps p' /\
    (forall rpb0, get_header page (Z.of_nat slot) p rpb0 = Ret (false, rpb0)) /\
    (forall rpb0, get_header page (Z.of_nat slot) p' rpb0 =
       Ret (true, mk_rpb (rpb_number rpb0) (rpb_transaction rpb) (rpb_record rpb0) (rpb_prior rpb0) (rpb_format_number rpb)
         page (USHORT (Z.of_nat slot)) (rpb_f_page rpb0) (rpb_f_line rpb0) (rpb_b_page rpb) (rpb_b_line rpb) data (rpb_flags rpb))) /\
    (forall room, SQZ_decompress (map SCHAR data) room =
       if room <? Z.of_nat (length (rpb_address rpb)) then Throw (BUGCHECK 179) else Ret (map SCHAR (rpb_address rpb))) /\
    (forall line rpb0, 0 <= line -> line <> Z.of_nat slot -> get_header page line p' rpb0 = get_header page line p rpb0).
Proof.
  intros H Ht Hs Hty Hf Hi Hfit. destruct (store_on_page_ok ps temp reserve rpb p H Ht Hs) as (p' & E & Hw & Hl).
  unfold spec_store in *. rewrite (proj2 (Z.ltb_ge _ _)) in * by lia. cbn [fst snd] in *.
  set (slot := store_line (lines p)) in *.
  assert (Hsl : lines p !! slot = None \/ lines p !! slot = Some None) by apply store_line_empty.
  assert (Hsb : (slot <= length (lines p))%nat) by apply store_line_bound.
  destruct (read_image rpb Hs Hty Hf Hi) as (data & Hd & Hread). exists slot, p', data.
  split; [done|]. split; [done|]. split; [|split; [|split; [done|]]].
  - intros rpb0. rewrite (get_header_ok ps) by (done || lia). rewrite Nat2Z.id. by destruct Hsl as [-> | ->].
  - intros rpb0. rewrite (get_header_ok ps) by (done || lia). rewrite Nat2Z.id, Hl, lookup_put_line, decide_True by done.
    by rewrite Hread.
  - intros line rpb0 H0 Hne. rewrite !(get_header_ok ps) by done. rewrite Hl, lookup_put_line, decide_False by (done || lia). done.
Qed.

Lemma length_image_chained rpb page line b_line : storable rpb ->
  length (image (chained_rpb rpb page line b_line)) = length (image rpb).
Proof.
  intros Hs. destruct (image_ok rpb Hs) as (size & dcc & E & _ & Hl & _).
  destruct (image_ok (chained_rpb rpb page line b_line) Hs) as (size' & dcc' & E' & _ & Hl' & _).
  change (sqz_length rpb = Ret (size', dcc')) in E'. rewrite E in E'. injection E' as <- <-. lia.
Qed.

(** C30: a new version takes the line of the old one.  If there is room,
    [DPM_chain] moves the old version, marked as chained, to an empty line of
    the page, and the line of the record then reads as the new version, with
    its fields and data and a back pointer to where the old one is; the other
    lines are as before. *)
Theorem chain_reads_new_version ps page temp line rpb p size dcc old :
  wf ps p -> ps <= Z.of_nat (length temp) -> storable rpb -> typed_rpb rpb ->
  flag_set (rpb_flags rpb) rpb_fragment = false -> flag_set (rpb_flags rpb) rpb_incomplete = false ->
  -2147483648 <= page < 2147483648 -> sqz_length rpb = Ret (size, dcc) -> lines p !! line = Some (Some old) ->
  HIGH_WATER (Z.of_nat (Nat.max (length (lines p)) (S (chain_line (lines p))))) + total (lines p) + size_of (Some (image rpb)) <= ps ->
  exists slot p' data,
    chain_on_page ps temp page (Z.of_nat line) size dcc rpb p = Ret (Some (chained_rpb rpb page (Z.of_nat line) (Z.of_nat slot)), p') /\
    wf ps p' /\ slot <> line /\ (lines p !! slot = None \/ lines p !! slot = Some None) /\
    lines p' !! slot = Some (Some (set_flags chain_flag old)) /\
    (forall rpb0, get_header page (Z.of_nat line) p' rpb0 =
       Ret (true, mk_rpb (rpb_number rpb0) (rpb_transaction rpb) (rpb_record rpb0) (rpb_prior rpb0) (rpb_format_number rpb)
         page (USHORT (Z.of_nat line)) (rpb_f_page rpb0) (rpb_f_line rpb0) page (Z.of_nat slot) data (rpb_flags rpb))) /\
    (forall room, SQZ_decompress (map SCHAR data) room =
       if room <? Z.of_nat (length (rpb_address rpb)) then Throw (BUGCHECK 179) else Ret (map SCHAR (rpb_address rpb))) /\
    (forall i, i <> line -> i <> slot -> lines p' !! i = lines p !! i).
Proof.
  intros H Ht Hs [Hty Hbp Hbl Hfl Hfm] Hf Hi Hpg Esz Hold Hfit. set (slot := chain_line (lines p)) in *.
  pose proof (chain_line_bound (lines p)) as Hsb. fold slot in Hsb. set (rpb' := chained_rpb rpb page (Z.of_nat line) (Z.of_nat slot)).
  pose proof (lookup_lt_Some _ _ _ Hold) as Hli.
  assert (Hsl : lines p !! slot = None \/ lines p !! slot = Some None).
  { destruct (decide (slot < length (lines p))%nat) as [Hlt|]; [right; by apply chain_line_free|left; apply lookup_ge_None_2; lia]. }
  assert (Hne : slot <> line) by (intros E; rewrite E in Hsl; destruct Hsl; congruence).
  assert (Espec : spec_chain ps page line rpb (lines p) =
      Some (Some rpb', <[line := Some (image rpb')]> (put_line slot (Some (set_flags chain_flag old)) (lines p)))).
  { unfold spec_chain. rewrite Hold. fold slot rpb'. cbn [size_of] in *. unfold rpb'. rewrite length_image_chained by done. by rewrite (proj2 (Z.ltb_ge _ _)) by lia. }
  destruct (chain_on_page_ok ps temp page line rpb size dcc p _ H Ht Hs Esz Espec) as (p' & E & Hw & Hl). cbn [fst snd] in *.
  pose proof (wf_top _ _ H) as Htop. pose proof (wf_ps _ _ H). rewrite HIGH_WATER_eq in Htop. unfold dpg_count, MAX_PAGE_SIZE in *. rewrite length_lines in *.
  assert (Hty' : typed_rpb rpb') by (split; cbn; (done || lia)).
  destruct (read_image rpb' Hs Hty' Hf Hi) as (data & Hd & Hread). exists slot, p', data. split_and!; try done.
  - rewrite Hl, list_lookup_insert_ne, lookup_put_line, decide_True; [done|done|rewrite length_lines; lia|done].
  - intros rpb0. rewrite (get_header_ok ps) by (done || lia). rewrite Nat2Z.id, Hl.
    rewrite list_lookup_insert_eq by (rewrite length_put_line; rewrite length_lines; lia). by rewrite Hread.
  - intros i Hi1 Hi2. rewrite Hl, list_lookup_insert_ne, lookup_put_line, decide_False; [done|done|rewrite length_lines; lia|done].
Qed.

(** C37: backing a version out undoes chaining it.  After [DPM_chain] has put
    a new version in front of an old one, [DPM_backout] of the new version
    gives a page whose lines are those before, except for empty lines at the
    end of the index: the old version is in its line again, with the flags it
    had. *)
Theorem chain_backout_roundtrip ps page temp line rpb p size dcc old rpb' p1 :
  wf ps p -> ps <= Z.of_nat (length temp) -> storable rpb -> sqz_length rpb = Ret (size, dcc) ->
  lines p !! line = Some (Some old) -> Forall is_uchar old ->
  flag_set (le_value (sub old 10 2)) (rpb_chained + rpb_gc_active) = false ->
  chain_on_page ps temp page (Z.of_nat line) size dcc rpb p = Ret (Some rpb', p1) ->
  exists p2, backout_on_page (Z.of_nat line) (rpb_b_line rpb') p1 = Ret p2 /\ wf ps p2 /\ lines p2 = trim (lines p).
Proof.
  intros H Ht Hs Esz Hold Hu Hf E. destruct (spec_chain ps page line rpb (lines p)) as [r|] eqn:Es.
  2:{ unfold spec_chain in Es. by rewrite Hold in Es. }
  destruct (chain_on_page_ok ps temp page line rpb size dcc p r H Ht Hs Esz Es) as (p' & E' & Hw & Hl). rewrite E in E'.
  destruct r as [r l']. cbn [fst snd] in *. injection E' as <- <-.
  assert (Hlen : (12 <= length old)%nat).
  { destruct (lookup_lines_used _ _ _ Hold) as (x & Hx & Hux & ->). pose proof (wf_placed _ _ H) as Hp. rewrite list.Forall_forall in Hp.
    destruct (placed_used _ _ _ (Hp x (list_elem_of_lookup_2 _ _ _ Hx)) Hux) as (H1 & H2 & H3 & H4). pose proof (wf_bytes _ _ H).
    rewrite HIGH_WATER_eq in H1. unfold dpg_count, RHDF_SIZE in *.
    pose proof (length_sub (page_bytes p) (dpg_offset x) (dpg_length x) ltac:(lia) ltac:(lia) ltac:(lia)). lia. }
  pose proof (chain_backout_lines ps page line rpb (lines p) old rpb' l' Hold Hlen Hu Hf Es) as Hb. rewrite <-Hl in Hb.
  assert (Hbl : 0 <= rpb_b_line rpb').
  { unfold spec_chain in Es. rewrite Hold in Es. destruct (_ <? _) in Es; [done|]. injection Es as <- _. cbn. lia. }
  destruct (backout_on_page_ok ps line _ p1 _ Hw Hb) as (p2 & E2 & Hw2 & Hl2). rewrite Z2Nat.id in E2 by done. eauto.
Qed.

(** compressing a page keeps every line and gathers the free space: the
    fragments then lie within the last bytes of the page, as many as they
    need. *)
Theorem compress_gathers ps temp p :
  wf ps p -> ps <= Z.of_nat (length temp) ->
  exists p', DPM_compress ps temp p = Ret (ps - total (lines p), p') /\ wf ps p' /\ lines p' = lines p /\
    (forall i x, dpg_rpt p' !! i = Some x -> used x -> ps - total (lines p) <= dpg_offset x) /\
    0 <= total (lines p) <= ps - HIGH_WATER (dpg_count p).
Proof.
  intros H Ht. destruct (DPM_compress_ok ps temp p H Ht) as (p' & E & [Hw Hl _ _ Ha _]). exists p'. split_and!; try done.
  - intros i x Hx. rewrite list.Forall_forall in Ha. apply Ha. by eapply list_elem_of_lookup_2.
  - apply (wf_fits _ _ H).
  - apply (wf_fits _ _ H).
Qed.

(** ** Concrete pages *)

Definition sample_rpb (transaction flags : Z) (data : list Z) : record_param :=
  mk_rpb 0 transaction None None 1 0 0 0 0 0 0 data flags.
Definition sample_temp : list Z := repeat 170 192.

(** Three records, the second of which is deleted again. *)
Definition sample_ops : list (list Z * page_op) :=
  [(sample_temp, Op_store false (sample_rpb 5 0 (repeat 65 20)));
   (sample_temp, Op_store false (sample_rpb 6 0 [1;2;3]));
   (sample_temp, Op_store false (sample_rpb 7 0 [9;8;7;6;5;4;3;2;1;0;255;254]));
   (sample_temp, Op_delete (mk_rpb 0 6 None None 1 0 1 0 0 0 0 [] 0))].
Definition sample_page : data_page := page_after 192 7 sample_ops.

(** Every buffer is large enough. *)
Ltac sample_temps := repeat (apply list.Forall_cons; split; [by vm_compute|]); apply list.Forall_nil.

Lemma sample_ok : wf 192 sample_page /\ lines sample_page = lines_of (page_bytes sample_page) (dpg_rpt sample_page).
Proof.
  split; [|done]. destruct (table_run 192 7 sample_ops []) as [[rs l]|] eqn:E; [|by vm_compute in E].
  apply (page_after_ok 192 7 sample_ops rs l); [unfold MAX_PAGE_SIZE; lia|done|by sample_temps|exact E].
Qed.

Lemma page_refines_table_witness :
  exists rs l p', table_run 192 7 (sample_ops ++ [(sample_temp, Op_chain 7 0 (sample_rpb 8 0 (repeat 66 30)));
      (sample_temp, Op_compress); (sample_temp, Op_backout 0 1)]) [] = Some (rs, l) /\
    page_run 192 7 (sample_ops ++ [(sample_temp, Op_chain 7 0 (sample_rpb 8 0 (repeat 66 30)));
      (sample_temp, Op_compress); (sample_temp, Op_backout 0 1)]) (empty_page 192) = Ret (rs, p') /\
    lines p' = l /\ length rs = 7%nat /\ length l = 3%nat.
Proof.
  destruct (table_run 192 7 (sample_ops ++ [(sample_temp, Op_chain 7 0 (sample_rpb 8 0 (repeat 66 30)));
      (sample_temp, Op_compress); (sample_temp, Op_backout 0 1)]) []) as [[rs l]|] eqn:E; [|by vm_compute in E].
  destruct (page_refines_table 192 7 (sample_ops ++ [(sample_temp, Op_chain 7 0 (sample_rpb 8 0 (repeat 66 30)));
      (sample_temp, Op_compress); (sample_temp, Op_backout 0 1)]) (empty_page 192) rs l) as (p' & Er & Hl & _).
  - apply wf_empty; [unfold MAX_PAGE_SIZE; lia|done].
  - by sample_temps.
  - exact E.
  - exists rs, l, p'. split; [reflexivity|]. split; [exact Er|]. split; [exact Hl|]. clear Er Hl.
    vm_compute in E. injection E as <- <-. done.
Defined.

Lemma store_read_roundtrip_witness :
  exists slot p' data, store_on_page 192 sample_temp true (sample_rpb 9 0 [1;1;1;1;2]) sample_page = Ret (Some (Z.of_nat slot), p') /\
    get_header 7 (Z.of_nat slot) p' (sample_rpb 0 0 []) = Ret (true, mk_rpb 0 9 None None 1 7 (USHORT (Z.of_nat slot)) 0 0 0 0 data 0) /\
    SQZ_decompress (map SCHAR data) 5 = Ret [1;1;1;1;2].
Proof.
  destruct (store_read_roundtrip 192 7 sample_temp true (sample_rpb 9 0 [1;1;1;1;2]) sample_page) as (slot & p' & data & E & _ & _ & Hg & Hd & _).
  - apply sample_ok.
  - done.
  - done.
  - split; cbn; lia.
  - done.
  - done.
  - by vm_compute.
  - exists slot, p', data. split; [exact E|]. split; [apply Hg|]. rewrite Hd. done.
Defined.

Lemma chain_reads_new_version_witness :
  exists size dcc slot p' data, sqz_length (sample_rpb 9 0 (repeat 3 25)) = Ret (size, dcc) /\
    chain_on_page 192 sample_temp 7 2 size dcc (sample_rpb 9 0 (repeat 3 25)) sample_page
      = Ret (Some (chained_rpb (sample_rpb 9 0 (repeat 3 25)) 7 2 (Z.of_nat slot)), p') /\
    get_header 7 2 p' (sample_rpb 0 0 []) = Ret (true, mk_rpb 0 9 None None 1 7 2 0 0 7 (Z.of_nat slot) data 0) /\
    SQZ_decompress (map SCHAR data) 25 = Ret (repeat 3 25).
Proof.
  destruct (sqz_length (sample_rpb 9 0 (repeat 3 25))) as [[size dcc]|] eqn:Esz; [|by vm_compute in Esz].
  destruct (lines sample_page !! 2%nat) as [[old|]|] eqn:Eo; [|by vm_compute in Eo|by vm_compute in Eo].
  destruct (chain_reads_new_version 192 7 sample_temp 2 (sample_rpb 9 0 (repeat 3 25)) sample_page size dcc old)
    as (slot & p' & data & E & _ & _ & _ & _ & Hg & Hd & _).
  - apply sample_ok.
  - done.
  - done.
  - split; cbn; lia.
  - done.
  - done.
  - lia.
  - exact Esz.
  - exact Eo.
  - by vm_compute.
  - exists size, dcc, slot, p', data. split; [done|]. split; [exact E|]. split; [apply Hg|]. rewrite Hd. done.
Defined.

Lemma chain_backout_roundtrip_witness :
  exists size dcc rpb' p1 p2, sqz_length (sample_rpb 9 0 (repeat 3 25)) = Ret (size, dcc) /\
    chain_on_page 192 sample_temp 7 2 size dcc (sample_rpb 9 0 (repeat 3 25)) sample_page = Ret (Some rpb', p1) /\
    backout_on_page 2 (rpb_b_line rpb') p1 = Ret p2 /\ lines p2 = trim (lines sample_page).
Proof.
  destruct (sqz_length (sample_rpb 9 0 (repeat 3 25))) as [[size dcc]|] eqn:Esz; [|by vm_compute in Esz].
  pose proof Esz as Esz'. vm_compute in Esz'. injection Esz' as <- <-.
  destruct (chain_on_page 192 sample_temp 7 2 2 [[-25]] (sample_rpb 9 0 (repeat 3 25)) sample_page) as [[[rpb'|] p1]|] eqn:Ec;
    [|by vm_compute in Ec|by vm_compute in Ec].
  destruct (lines sample_page !! 2%nat) as [[old|]|] eqn:Eo; [|by vm_compute in Eo|by vm_compute in Eo].
  destruct (chain_backout_roundtrip 192 7 sample_temp 2 (sample_rpb 9 0 (repeat 3 25)) sample_page 2 [[-25]] old rpb' p1) as (p2 & E & _ & Hl).
  - apply sample_ok.
  - done.
  - done.
  - exact Esz.
  - exact Eo.
  - vm_compute in Eo. injection Eo as <-. repeat constructor; unfold is_uchar; lia.
  - vm_compute in Eo. injection Eo as <-. done.
  - exact Ec.
  - exists 2, [[-25]], rpb', p1, p2. auto.
Defined.

Lemma compress_gathers_witness :
  exists p', DPM_compress 192 sample_temp sample_page = Ret (192 - total (lines sample_page), p') /\ lines p' = lines sample_page.
Proof.
  destruct (compress_gathers 192 sample_temp sample_page) as (p' & E & _ & Hl & _); [apply sample_ok|done|]. eauto.
Defined.

End DataPageClient.
