(* ===== verification/Dpm.v ===== *)
(** * Finding records and their versions ([jrd/dpm.epp], [jrd/PageCache.cpp])

    How a thread reads records while others change them.  The database is a
    history: what the pages hold at each of the moments the thread looks at
    one.  Fetching a page takes a latch on it and moves to the next moment;
    what happens between two moments is not restricted, so every interleaving
    with other threads is a history.  Latches are counted: the state lists the
    pages the thread has latched. *)

From S2P Require Import Prelude.
From S2P Require Import RecordNumber.
From S2P Require Import TipCache.
From S2P Require Import DataPage.
From stdpp Require Import list gmap.
#[local] Open Scope Z_scope.

Module Dpm.
Import DataPage.

(** ** The database over time *)

Record pointer_page := mk_pointer { ppg_relation : Z; ppg_sequence : Z; ppg_page : list Z }.

(** What there is at a moment: data pages and pointer pages by number; the
    numbers of the pointer pages of the relation ([rel_pages] and what a scan
    of the pages system table would add to it); the transaction states, with
    which transactions' locks can be had at once, or ([granted]) by waiting
    where the argument says so, and what new cache blocks hold; the pages
    whose lock cannot be had in time. *)
Record moment := mk_moment {
  data_pages : gmap Z data_page;
  pointer_pages : gmap Z pointer_page;
  rel_pages : list Z;
  tip : TipCache.dbb;
  lockable : Z -> bool;
  granted : bool -> Z -> bool;
  fresh_block : Z -> list Z;
  timeout : Z -> bool
}.

Class Database := {
  dbb_max_records : Z;
  dbb_dp_per_pp : Z;
  rel_id : Z;
  at_moment : nat -> moment
}.

Definition isc_db_corrupt : Z := 335544335.

(** [latches] are the pages latched, [window] the page of the record's
    window. *)
Record access := mk_access { clock : nat; window : Z; latches : list Z }.

Section Dpm.
Context `{DB : Database}.

(** ** The page cache *)

Definition tick (a : access) : access := mk_access (S (clock a)) (window a) (latches a).

Definition CCH_FETCH (page : Z) (a : access) : access := mk_access (S (clock a)) page (page :: latches a).

Fixpoint unlatch (page : Z) (l : list Z) : option (list Z) :=
  match l with
  | [] => None
  | x :: l => if x =? page then Some l else (match unlatch page l with Some l => Some (x :: l) | None => None end)
  end.

(** Releasing a page that is not latched is an error of the caller. *)
Definition CCH_RELEASE (a : access) : outcome access :=
  match unlatch (window a) (latches a) with
  | Some l => Ret (mk_access (clock a) (window a) l)
  | None => Throw Overrun
  end.

(** The new page is fetched before the old one is released; [read] is
    [lock == LCK_read].  On a timeout the old page is released. *)
Definition CCH_HANDOFF (read : bool) (page : Z) (a : access) : outcome (bool * access) :=
  if (window a =? page) && read then Ret (true, a)
  else if timeout (at_moment (S (clock a))) page then let* a := CCH_RELEASE (tick a) in Ret (false, a)
  else
    match unlatch (window a) (page :: latches a) with
    | Some l => Ret (true, mk_access (S (clock a)) page l)
    | None => Throw Overrun
    end.

(** The page of the window, which must be a data page. *)
Definition win_buffer (a : access) : outcome data_page :=
  match data_pages (at_moment (clock a)) !! window a with
  | Some p => Ret p
  | None => Throw (Post isc_db_corrupt)
  end.

(** ** Reading a record *)

Definition set_rpb_place (page line : Z) (rpb : record_param) : record_param :=
  mk_rpb (rpb_number rpb) (rpb_transaction rpb) (rpb_record rpb) (rpb_prior rpb) (rpb_format_number rpb)
    page line (rpb_f_page rpb) (rpb_f_line rpb) (rpb_b_page rpb) (rpb_b_line rpb) (rpb_address rpb) (rpb_flags rpb).
Definition set_rpb_prior (prior : option nat) (rpb : record_param) : record_param :=
  mk_rpb (rpb_number rpb) (rpb_transaction rpb) (rpb_record rpb) prior (rpb_format_number rpb)
    (rpb_page rpb) (rpb_line rpb) (rpb_f_page rpb) (rpb_f_line rpb) (rpb_b_page rpb) (rpb_b_line rpb) (rpb_address rpb) (rpb_flags rpb).

Definition DPM_fetch (rpb : record_param) (a : access) : outcome (bool * record_param * access) :=
  let a := CCH_FETCH (rpb_page rpb) a in
  let* p := win_buffer a in
  let* (found, rpb) := get_header (window a) (rpb_line rpb) p rpb in
  if negb found then let* a := CCH_RELEASE a in Ret (false, rpb, a)
  else Ret (true, rpb, a).

Definition DPM_fetch_back (rpb : record_param) (a : access) : outcome (bool * record_param * access) :=
  let* (ok, a) := CCH_HANDOFF true (rpb_b_page rpb) a in
  if negb ok then Ret (false, rpb, a) else
  let rpb := set_rpb_place (rpb_b_page rpb) (rpb_b_line rpb) rpb in
  let* p := win_buffer a in
  let* (found, rpb) := get_header (window a) (rpb_line rpb) p rpb in
  if negb found then Throw (BUGCHECK 291) else Ret (true, rpb, a).

(** Neither this nor [DPM_get] looks at the result of the handoff: after a
    timeout, what they read is not latched. *)
Definition DPM_fetch_fragment (rpb : record_param) (a : access) : outcome (record_param * access) :=
  let rpb := set_rpb_place (rpb_f_page rpb) (rpb_f_line rpb) rpb in
  let* (ok, a) := CCH_HANDOFF true (rpb_page rpb) a in
  if negb ok then Throw Overrun else
  let* p := win_buffer a in
  let* (found, rpb) := get_header (window a) (rpb_line rpb) p rpb in
  if negb found then Throw (BUGCHECK 248) else Ret (rpb, a).

(** [rel_pages] is taken to be up to date. *)
Definition get_pointer_page (sequence : Z) (a : access) : outcome (option pointer_page * access) :=
  match rel_pages (at_moment (clock a)) !! Z.to_nat sequence with
  | None => Ret (None, a)
  | Some n =>
      let a := CCH_FETCH n a in
      match pointer_pages (at_moment (clock a)) !! n with
      | None => Throw (Post isc_db_corrupt)
      | Some page =>
          if negb (ppg_relation page =? rel_id) || negb (ppg_sequence page =? sequence)
          then Throw (Post isc_db_corrupt) else Ret (Some page, a)
      end
  end.

Definition DPM_get (read : bool) (rpb : record_param) (a : access) : outcome (bool * record_param * access) :=
  let rpb := set_rpb_prior None rpb in
  let '(line, slot, pp_sequence) := RecordNumber.decompose (RecordNumber.mk (rpb_number rpb)) dbb_max_records dbb_dp_per_pp in
  if rpb_number rpb <? 0 then Ret (false, rpb, a) else
  let* (page, a) := get_pointer_page pp_sequence a in
  match page with
  | None => Ret (false, rpb, a)
  | Some page =>
      let* page_number := (if slot <? 0 then Throw Overrun else
        match ppg_page page !! Z.to_nat slot with Some n => Ret n | None => Throw Overrun end) in
      if page_number =? 0 then let* a := CCH_RELEASE a in Ret (false, rpb, a) else
      let* (ok, a) := CCH_HANDOFF read page_number a in
      if negb ok then Throw Overrun else
      let* p := win_buffer a in
      let* (found, rpb) := get_header (window a) line p rpb in
      if found && negb (flag_set (rpb_flags rpb) (rpb_blob + rpb_chained + rpb_fragment)) then Ret (true, rpb, a)
      else let* a := CCH_RELEASE a in Ret (false, rpb, a)
  end.

End Dpm.

End Dpm.
