(* ===== verification/Counts.v ===== *)
(** * Operation counts ([VIO_bump_count] of [jrd/vio.cpp], [jrd/SVector.h])

    An attachment counts reads, updates and so on of each relation in a vector
    that is indexed by the number of the relation. *)

From S2P Require Import Prelude.
From stdpp Require Import list.
#[local] Open Scope Z_scope.

Module Counts.

(** The buffer is [true_length] elements long, of which [length] are in use. *)
Record SVector := mk_svector { buffer : list Z; size : Z }.

Definition true_length (v : SVector) : Z := Z.of_nat (length (buffer v)).

Definition empty_vector : SVector := mk_svector [] 0.

(** The exception of [operator[]], an [OSRIBugcheck] without a number. *)
Definition vector_index_error : fault := BUGCHECK 0.

Definition at_index (v : SVector) (n : Z) : outcome Z :=
  if n <? size v
  then match buffer v !! Z.to_nat n with Some x => Ret x | None => Throw Overrun end
  else Throw vector_index_error.

Definition set_index (v : SVector) (n x : Z) : outcome SVector :=
  if n <? size v then Ret (mk_svector (<[Z.to_nat n := x]> (buffer v)) (size v)) else Throw vector_index_error.

(** [resize], where memory is not exhausted. *)
Definition resize (n : Z) (v : SVector) : SVector :=
  if n =? 0 then empty_vector
  else if n <=? true_length v then
    mk_svector
      (if size v <? n
       then take (Z.to_nat (size v)) (buffer v) ++ repeat 0 (Z.to_nat (n - size v)) ++ drop (Z.to_nat n) (buffer v)
       else buffer v) n
  else mk_svector (take (Z.to_nat (size v)) (buffer v) ++ repeat 0 (Z.to_nat (n - size v))) n.

(** [count + (error) ? -1 : 1] is a conditional on the sum. *)
Definition VIO_bump_count (relation_id : Z) (error : bool) (v : SVector) : outcome SVector :=
  let v := resize (relation_id + 1) v in
  let* count := at_index v relation_id in
  set_index v relation_id (if SLONG (count + Z.b2z error) =? 0 then 1 else -1).

(** ** What it does *)

Record wf (v : SVector) : Prop := { size_ok : 0 <= size v <= true_length v }.

(** What the vector says: a count, or nothing beyond its size. *)
Definition count_of (v : SVector) (n : Z) : Z :=
  if n <? size v then default 0 (buffer v !! Z.to_nat n) else 0.

Lemma resize_wf n v : wf v -> 0 <= n -> wf (resize n v) /\ size (resize n v) = n.
Proof.
  intros [Hv] Hn. unfold resize, true_length in *. destruct (Z.eqb_spec n 0) as [->|Hn0]; [split; [by split|done]|].
  destruct (Z.leb_spec n (Z.of_nat (length (buffer v)))).
  - split; [|done]. split. cbn. destruct (Z.ltb_spec (size v) n); unfold true_length; cbn; [|lia].
    rewrite !length_app, length_take, repeat_length, length_drop. lia.
  - split; [|done]. split. unfold true_length. cbn. rewrite length_app, length_take, repeat_length. lia.
Qed.

(** Growing adds zeros, shrinking forgets. *)
Lemma resize_count n v m :
  wf v -> 0 <= n -> 0 <= m -> count_of (resize n v) m = if m <? n then count_of v m else 0.
Proof.
  intros Hw Hn Hm. destruct (resize_wf n v Hw Hn) as [_ Hs]. unfold count_of at 1. rewrite Hs.
  destruct (Z.ltb_spec m n) as [Hmn|]; [|done]. destruct Hw as [Hv]. unfold count_of, true_length in *.
  assert (Hz : forall k, default 0 (repeat 0 k !! (Z.to_nat m - Z.to_nat (size v))%nat) = 0).
  { intros k. destruct (_ !! _) as [x|] eqn:E; [|done]. apply list_elem_of_lookup_2, list_elem_of_In, repeat_spec in E. by subst. }
  assert (Hlow : forall tl, m < size v -> default 0 ((take (Z.to_nat (size v)) (buffer v) ++ tl) !! Z.to_nat m) = default 0 (buffer v !! Z.to_nat m)).
  { intros tl Hms. rewrite lookup_app_l by (rewrite length_take; lia). by rewrite lookup_take_lt by lia. }
  unfold resize, true_length. rewrite (proj2 (Z.eqb_neq n 0)) by lia.
  destruct (Z.leb_spec n (Z.of_nat (length (buffer v)))) as [Hle|Hgt]; [destruct (Z.ltb_spec (size v) n) as [Hsn|Hsn]|]; cbn [buffer].
  - destruct (Z.ltb_spec m (size v)); [by apply Hlow|].
    rewrite lookup_app_r by (rewrite length_take; lia). rewrite length_take, Nat.min_l by lia.
    rewrite lookup_app_l by (rewrite repeat_length; lia). apply Hz.
  - by rewrite (proj2 (Z.ltb_lt m (size v))) by lia.
  - destruct (Z.ltb_spec m (size v)); [by apply Hlow|].
    rewrite lookup_app_r by (rewrite length_take; lia). rewrite length_take, Nat.min_l by lia. apply Hz.
Qed.

Lemma at_index_ok v n : wf v -> 0 <= n < size v -> at_index v n = Ret (count_of v n).
Proof.
  intros [Hv] Hn. unfold at_index, count_of, true_length in *. rewrite (proj2 (Z.ltb_lt _ _)) by lia.
  by destruct (lookup_lt_is_Some_2 (buffer v) (Z.to_nat n)) as [x ->]; [lia|].
Qed.

Lemma set_index_ok v n x :
  wf v -> 0 <= n < size v -> exists v', set_index v n x = Ret v' /\ wf v' /\ size v' = size v /\
    forall m, 0 <= m -> count_of v' m = if m =? n then x else count_of v m.
Proof.
  intros [Hv] Hn. unfold set_index. rewrite (proj2 (Z.ltb_lt _ _)) by lia. eexists. split; [reflexivity|].
  unfold true_length in Hv. split; [split; unfold true_length; cbn; rewrite length_insert; lia|]. split; [done|].
  intros m Hm. unfold count_of. cbn. destruct (Z.eqb_spec m n) as [->|Hne].
  - rewrite (proj2 (Z.ltb_lt _ _)) by lia. by rewrite list_lookup_insert_eq by lia.
  - by rewrite list_lookup_insert_ne by lia.
Qed.

Lemma bump_count_ok relation_id error v :
  wf v -> 0 <= relation_id ->
  exists v', VIO_bump_count relation_id error v = Ret v' /\ wf v' /\ size v' = relation_id + 1 /\
    forall m, 0 <= m -> count_of v' m =
      if m =? relation_id then if SLONG (count_of v m + Z.b2z error) =? 0 then 1 else -1
      else if m <? relation_id then count_of v m else 0.
Proof.
  intros Hw Hr. unfold VIO_bump_count. destruct (resize_wf (relation_id + 1) v Hw) as [Hw1 Hs1]; [lia|].
  rewrite (at_index_ok _ relation_id Hw1) by lia. cbn [obind].
  destruct (set_index_ok (resize (relation_id + 1) v) relation_id
    (if SLONG (count_of (resize (relation_id + 1) v) relation_id + Z.b2z error) =? 0 then 1 else -1) Hw1) as (v' & -> & Hw' & Hs' & Hc); [lia|].
  exists v'. split; [done|]. split; [done|]. split; [lia|]. intros m Hm. rewrite Hc by done.
  rewrite !resize_count by (done || lia).
  destruct (Z.eqb_spec m relation_id) as [->|Hne]; [by rewrite (proj2 (Z.ltb_lt _ _)) by lia|].
  destruct (Z.ltb_spec m (relation_id + 1)), (Z.ltb_spec m relation_id); (done || lia).
Qed.

(** ** What it does not *)

(** The counts do not count: after two reads and more, the count of a relation
    is -1. *)
Lemma bump_count_sticks relation_id v v1 v2 :
  wf v -> 0 <= relation_id -> count_of v relation_id = 0 ->
  VIO_bump_count relation_id false v = Ret v1 -> VIO_bump_count relation_id false v1 = Ret v2 ->
  count_of v1 relation_id = 1 /\ count_of v2 relation_id = -1 /\
  forall v3, VIO_bump_count relation_id false v2 = Ret v3 -> count_of v3 relation_id = -1.
Proof.
  intros Hw Hr H0 E1 E2. destruct (bump_count_ok relation_id false v Hw Hr) as (w1 & F1 & Hw1 & _ & C1). rewrite E1 in F1. injection F1 as <-.
  destruct (bump_count_ok relation_id false v1 Hw1 Hr) as (w2 & F2 & Hw2 & _ & C2). rewrite E2 in F2. injection F2 as <-.
  specialize (C1 relation_id Hr). specialize (C2 relation_id Hr). rewrite Z.eqb_refl in C1, C2. rewrite H0 in C1. rewrite C1 in C2.
  split; [done|]. split; [done|]. intros v3 E3.
  destruct (bump_count_ok relation_id false v2 Hw2 Hr) as (w3 & F3 & _ & _ & C3). rewrite E3 in F3. injection F3 as <-.
  specialize (C3 relation_id Hr). rewrite Z.eqb_refl, C2 in C3. exact C3.
Qed.

(** An operation on one relation forgets the counts of all with higher
    numbers. *)
Lemma bump_count_forgets relation_id error v v' m :
  wf v -> 0 <= relation_id < m -> VIO_bump_count relation_id error v = Ret v' -> count_of v' m = 0.
Proof.
  intros Hw Hm E. destruct (bump_count_ok relation_id error v Hw) as (w & F & _ & _ & C); [lia|]. rewrite E in F. injection F as <-.
  rewrite C by lia. rewrite (proj2 (Z.eqb_neq _ _)), (proj2 (Z.ltb_ge _ _)) by lia. done.
Qed.

(** Two reads of relation 5 and one of relation 2. *)
Example bump_count_example :
  (let* a := VIO_bump_count 5 false empty_vector in let* b := VIO_bump_count 5 false a in let* c := VIO_bump_count 2 false b in
   Ret (map (count_of a) [2; 5], map (count_of b) [2; 5], map (count_of c) [2; 5]))
  = Ret ([0; 1], [0; -1], [1; 0]).
Proof. vm_compute. reflexivity. Qed.

End Counts.
