(* ===== verification/Vio.v ===== *)
(** * Record versions ([jrd/vio.cpp], [TRA_wait] of [jrd/tra.cpp])

    Which version of a record a transaction sees, and what its data are.  A
    version may be stored as the differences to the next newer one; reading it
    means reading the newer ones first.  Pages, transaction states and locks
    are those of the history of [Dpm]; the record blocks data are read into
    belong to the thread. *)

From S2P Require Import Prelude.
From S2P Require Import Sqz.
From S2P Require Import TipCache.
From S2P Require Import DataPage.
From S2P Require Import Dpm.
From S2P Require Import Counts.
From stdpp Require Import list gmap.
#[local] Open Scope Z_scope.

Module Vio.
Import Sqz TipCache DataPage Dpm.
Import Counts(SVector, VIO_bump_count).

(** ** Data *)

(** A [Record]: the length of its buffer is [rec_length]; of the format only
    the number is kept. *)
Record rec := mk_rec { rec_format : Z; rec_data : list Z }.
Definition rec_length (r : rec) : Z := Z.of_nat (length (rec_data r)).

(** [Transaction], with what [TipCache] does not look at, and the flag
    [ATT_no_cleanup] of its attachment. *)
Record transaction := mk_transaction {
  tra : TipCache.Transaction;
  tra_oldest_active : Z;
  TRA_ignore_limbo : bool;
  TRA_rec_version : bool;
  TRA_nowait : bool;
  ATT_no_cleanup : bool
}.

(** What a thread has: latches, record blocks by number, the transaction. *)
Record state := mk_state { acc : access; records : gmap nat rec; trans : transaction }.

Definition with_acc (a : access) (s : state) : state := mk_state a (records s) (trans s).
Definition with_records (h : gmap nat rec) (s : state) : state := mk_state (acc s) h (trans s).
Definition with_trans (t : transaction) (s : state) : state := mk_state (acc s) (records s) t.

Definition isc_deadlock : Z := 335544336.
Definition isc_rec_in_limbo : Z := 335544459.

Definition set_rpb_record (r : option nat) (rpb : record_param) : record_param :=
  mk_rpb (rpb_number rpb) (rpb_transaction rpb) r (rpb_prior rpb) (rpb_format_number rpb)
    (rpb_page rpb) (rpb_line rpb) (rpb_f_page rpb) (rpb_f_line rpb) (rpb_b_page rpb) (rpb_b_line rpb) (rpb_address rpb) (rpb_flags rpb).
Definition set_rpb_flags (flags : Z) (rpb : record_param) : record_param :=
  mk_rpb (rpb_number rpb) (rpb_transaction rpb) (rpb_record rpb) (rpb_prior rpb) (rpb_format_number rpb)
    (rpb_page rpb) (rpb_line rpb) (rpb_f_page rpb) (rpb_f_line rpb) (rpb_b_page rpb) (rpb_b_line rpb) (rpb_address rpb) flags.
Definition set_rpb_back (page line : Z) (rpb : record_param) : record_param :=
  mk_rpb (rpb_number rpb) (rpb_transaction rpb) (rpb_record rpb) (rpb_prior rpb) (rpb_format_number rpb)
    (rpb_page rpb) (rpb_line rpb) (rpb_f_page rpb) (rpb_f_line rpb) page line (rpb_address rpb) (rpb_flags rpb).
Definition set_rpb_address (address : list Z) (rpb : record_param) : record_param :=
  mk_rpb (rpb_number rpb) (rpb_transaction rpb) (rpb_record rpb) (rpb_prior rpb) (rpb_format_number rpb)
    (rpb_page rpb) (rpb_line rpb) (rpb_f_page rpb) (rpb_f_line rpb) (rpb_b_page rpb) (rpb_b_line rpb) address (rpb_flags rpb).

(** The formats of the relation, read from system tables, and the memory new
    record blocks are made of. *)
Class Formats := {
  fmt_length : Z -> Z;
  fresh_byte : nat -> nat -> Z
}.

(** Cleaning up a record on the way, of which the reader relies only on what
    [Cleanup] says: the page is not latched on return, and the record is the
    one it was. *)
Class Cleanup := {
  VIO_backout : record_param -> state -> outcome (record_param * state);
  purge : record_param -> state -> outcome (record_param * state);
  expunge : record_param -> state -> outcome (record_param * state);
  backout_done : forall rpb s rpb' s', latches (acc s) = [] -> VIO_backout rpb s = Ret (rpb', s') ->
    latches (acc s') = [] /\ rpb_number rpb' = rpb_number rpb /\ (clock (acc s) <= clock (acc s'))%nat /\ trans s' = trans s;
  purge_done : forall rpb s rpb' s', latches (acc s) = [rpb_page rpb] -> window (acc s) = rpb_page rpb -> purge rpb s = Ret (rpb', s') ->
    latches (acc s') = [] /\ rpb_number rpb' = rpb_number rpb /\ (clock (acc s) <= clock (acc s'))%nat /\ trans s' = trans s;
  expunge_done : forall rpb s rpb' s', latches (acc s) = [] -> expunge rpb s = Ret (rpb', s') ->
    latches (acc s') = [] /\ rpb_number rpb' = rpb_number rpb /\ (clock (acc s) <= clock (acc s'))%nat /\ trans s' = trans s
}.

Section Vio.
Context `{DB : Database} `{FM : Formats} `{CL : Cleanup}.

(** Page operations on the state of the thread. *)
Definition release (s : state) : outcome state := let* a := CCH_RELEASE (acc s) in Ret (with_acc a s).
Definition get (read : bool) (rpb : record_param) (s : state) : outcome (bool * record_param * state) :=
  let* (found, rpb, a) := DPM_get read rpb (acc s) in Ret (found, rpb, with_acc a s).
Definition fetch (rpb : record_param) (s : state) : outcome (bool * record_param * state) :=
  let* (found, rpb, a) := DPM_fetch rpb (acc s) in Ret (found, rpb, with_acc a s).
Definition fetch_back (rpb : record_param) (s : state) : outcome (bool * record_param * state) :=
  let* (ok, rpb, a) := DPM_fetch_back rpb (acc s) in Ret (ok, rpb, with_acc a s).

(** ** [VIO_record] *)

(** A new block of [length] bytes; the first ones are copied. *)
Definition new_rec (format len : Z) (old : list Z) (h : gmap nat rec) : nat * gmap nat rec :=
  let r := fresh (dom h) in
  (r, <[r := mk_rec format (old ++ map (fresh_byte r) (seq (length old) (Z.to_nat len - length old)))]> h).

(** A block of the garbage collector is replaced in the relation's vector as
    well, which is not modelled. *)
Definition VIO_record (rpb : record_param) (s : state) : outcome (nat * record_param * state) :=
  let format := rpb_format_number rpb in
  let len := fmt_length format in
  match rpb_record rpb with
  | None =>
      let (r, h) := new_rec format len [] (records s) in
      Ret (r, set_rpb_record (Some r) rpb, with_records h s)
  | Some old =>
      match records s !! old with
      | None => Throw Overrun
      | Some record =>
          if rec_length record <? len then
            let (r, h) := new_rec format len (rec_data record) (records s) in
            let rpb' := set_rpb_record (Some r) rpb in
            let rpb' := if bool_decide (rpb_prior rpb = Some old) then set_rpb_prior (Some r) rpb' else rpb' in
            Ret (r, rpb', with_records (delete old h) s)
          else Ret (old, rpb, with_records (<[old := mk_rec format (rec_data record)]> (records s)) s)
      end
  end.

(** ** [VIO_data] *)

Definition back_version_is_delta (rpb : record_param) : bool :=
  negb (rpb_b_page rpb =? 0) && flag_set (rpb_flags rpb) rpb_delta.

(** The fragments after the first: what they decompress to. *)
Fixpoint fragments (fuel : nat) (rpb : record_param) (room : Z) (a : access) : outcome (list Z * record_param * access) :=
  match fuel with
  | O => Throw Overrun
  | S fuel =>
      if flag_set (rpb_flags rpb) rpb_incomplete then
        let* (rpb, a) := DPM_fetch_fragment rpb a in
        let* out := SQZ_decompress (map SCHAR (rpb_address rpb)) room in
        let* (rest, rpb, a) := fragments fuel rpb (room - Z.of_nat (length out)) a in
        Ret (out ++ rest, rpb, a)
      else Ret ([], rpb, a)
  end.

(** All that is stored of a version; [room] is the size of the buffer. *)
Definition stored_data (fuel : nat) (rpb : record_param) (room : Z) (a : access) : outcome (list Z * record_param * access) :=
  let* out := SQZ_decompress (map SCHAR (rpb_address rpb)) room in
  if flag_set (rpb_flags rpb) rpb_incomplete then
    let* (rest, rpb', a) := fragments fuel rpb (room - Z.of_nat (length out)) a in
    Ret (out ++ rest, set_rpb_back (rpb_b_page rpb) (rpb_b_line rpb) rpb', a)
  else Ret (out, rpb, a).

Definition rec_at (s : state) (r : nat) : outcome rec :=
  match records s !! r with Some x => Ret x | None => Throw Overrun end.

(** The prior version's data, of the length of the format, over the start of
    the record. *)
Definition move_prior (len : Z) (from to : list Z) : outcome (list Z) :=
  if (len <=? Z.of_nat (length from)) && (len <=? Z.of_nat (length to))
  then Ret (take (Z.to_nat len) from ++ drop (Z.to_nat len) to) else Throw Overrun.

Definition VIO_data (fuel : nat) (rpb : record_param) (s : state) : outcome (record_param * state) :=
  let* (r, rpb, s) := VIO_record rpb s in
  let len := fmt_length (rpb_format_number rpb) in
  let prior := rpb_prior rpb in
  let* record := rec_at s r in
  let* data := (match prior with
    | Some p => if (p =? r)%nat then Ret (rec_data record) else let* x := rec_at s p in move_prior len (rec_data x) (rec_data record)
    | None => Ret (rec_data record)
    end) in
  let room := match prior with Some _ => MAX_DIFFERENCES | None => rec_length record end in
  let rpb := set_rpb_prior (if back_version_is_delta rpb then Some r else None) rpb in
  let* (out, rpb, a) := stored_data fuel rpb room (acc s) in
  let* a := CCH_RELEASE a in
  let* (data, n) := (match prior with
    | Some _ => SQZ_apply_differences data out
    | None => Ret (out ++ drop (length out) data, USHORT (Z.of_nat (length out)))
    end) in
  if negb (len =? n) then Throw (BUGCHECK 183) else
  let s := with_acc a (with_records (<[r := mk_rec (rec_format record) data]> (records s)) s) in
  Ret (set_rpb_address (map UCHAR (take (Z.to_nat len) data)) rpb, s).

(** ** Transaction states *)

(** [TRA_snapshot_state]; the cache it updates is that of the moment. *)
Definition snapshot_state (number : Z) (s : state) : outcome (Z * state) :=
  let s := with_acc (tick (acc s)) s in
  let m := at_moment (clock (acc s)) in
  let* (st, _) := TRA_snapshot_state (fresh_block m) (lockable m) (tra (trans s)) number (tip m) in
  Ret (st, s).

Definition set_tra_transactions (bits : list Z) (t : transaction) : transaction :=
  let x := tra t in
  mk_transaction
    (TipCache.mk_transaction (tra_number x) (tra_oldest x) (tra_top x) bits (tra_is_precommitted x)
       (tra_read_committed x) (tra_system x) (tra_commit_sub_trans x))
    (tra_oldest_active t) (TRA_ignore_limbo t) (TRA_rec_version t) (TRA_nowait t) (ATT_no_cleanup t).

(** [TRA_wait] with [wait]: what it writes to the inventory pages and the
    cache is part of the history; the snapshot is the transaction's own. *)
Definition TRA_wait (number : Z) (s : state) : outcome (Z * state) :=
  let t := trans s in
  let s := with_acc (tick (acc s)) s in
  let m := at_moment (clock (acc s)) in
  if negb (granted m (negb (TRA_nowait t)) number) then Ret (tra_active, s) else
  let* (st, db) := TRA_get_state (fresh_block m) (lockable m) number (tip m) in
  if st =? tra_committed then Ret (st, s) else
  if st =? tra_precommitted then Ret (st, s) else
  let* st := (if st =? tra_active then let* _ := TRA_set_state None number tra_dead db in Ret tra_dead else Ret st) in
  if tra_top (tra t) <? number then Ret (st, s) else
  if tra_read_committed (tra t) then let* _ := setState number st db in Ret (st, s)
  else
    let bits := tra_transactions (tra t) in
    let byte := ULONG (TRANS_OFFSET (number - Z.land (tra_oldest (tra t)) (Z.lnot TRA_MASK))) in
    let* b := byte_at bits byte in
    Ret (st, with_trans (set_tra_transactions (set_byte bits byte (put_bits b (TRANS_SHIFT number) st)) t) s).

(** A version whose backout was under way is dead if its transaction is in a
    final state. *)
Definition reset_gc_active (st : Z) (rpb : record_param) : Z * record_param :=
  if flag_set (rpb_flags rpb) rpb_gc_active then
    if (st =? tra_committed) || (st =? tra_dead)
    then (tra_dead, set_rpb_flags (Z.land (rpb_flags rpb) (Z.lnot rpb_gc_active)) rpb) else (st, rpb)
  else (st, rpb).

(** ** [VIO_chase_record_version] *)

(** Whether the search ends here. *)
Inductive step :=
  | Found
  | NotFound
  | Again.

(** Start again from the primary version, if there still is one. *)
Definition refetch (rpb : record_param) (s : state) : outcome (step * record_param * state) :=
  let* (found, rpb, s) := get true rpb s in
  Ret (if found then Again else NotFound, rpb, s).

Definition to_back_version (rpb : record_param) (s : state) : outcome (step * record_param * state) :=
  let* (ok, rpb, s) := fetch_back rpb s in
  if ok then Ret (Again, rpb, s) else refetch rpb s.

Definition not_found (rpb : record_param) (s : state) : outcome (step * record_param * state) :=
  let* s := release s in Ret (NotFound, rpb, s).

(** The part of the loop before the switch: [None] where the switch follows. *)
Definition wait_for_writer (writelock : bool) (st : Z) (rpb : record_param) (s : state)
    : outcome (option step * Z * record_param * state) :=
  let t := trans s in
  if tra_read_committed (tra t) && (negb (TRA_rec_version t) || writelock) then
    if st =? tra_limbo then
      let* s := release s in
      let* (_, s) := TRA_wait (rpb_transaction rpb) s in
      let* (found, rpb, s) := get true rpb s in
      if negb found then Ret (Some NotFound, st, rpb, s) else
      let* (st, s) := snapshot_state (rpb_transaction rpb) s in
      if st =? tra_active then
        if negb (TRA_ignore_limbo t) then Throw (Post isc_deadlock) else Ret (None, tra_limbo, rpb, s)
      else Ret (None, st, rpb, s)
    else if (st =? tra_active) && negb (flag_set (rpb_flags rpb) rpb_gc_active) then
      let* s := release s in
      let* (st, s) := TRA_wait (rpb_transaction rpb) s in
      if st =? tra_active then Throw (Post isc_deadlock) else
      let* (found, rpb, s) := get true rpb s in
      if negb found then Ret (Some NotFound, st, rpb, s) else
      let* (st, s) := snapshot_state (rpb_transaction rpb) s in
      Ret (Some Again, st, rpb, s)
    else Ret (None, st, rpb, s)
  else Ret (None, st, rpb, s).

(** Dead or precommitted: skip it where cleaning up is left to others. *)
Definition skip_dead (fuel : nat) (rpb : record_param) (s : state) : outcome (step * record_param * state) :=
  if rpb_b_page rpb =? 0 then not_found rpb s else
  let temp := rpb in
  if negb (flag_set (rpb_flags rpb) rpb_deleted) || flag_set (rpb_flags rpb) rpb_delta then
    let* (rpb, s) := VIO_data fuel rpb s in
    let rpb := set_rpb_place (rpb_page temp) (rpb_line temp) rpb in
    let* (found, rpb, s) := fetch rpb s in
    if negb found then refetch rpb s
    else if negb ((rpb_b_page rpb =? rpb_b_page temp) && (rpb_b_line rpb =? rpb_b_line temp)
                  && (rpb_f_page rpb =? rpb_f_page temp) && (rpb_f_line rpb =? rpb_f_line temp)
                  && (rpb_flags rpb =? rpb_flags temp))
    then let* s := release s in refetch rpb s
    else if negb (rpb_transaction temp =? rpb_transaction rpb) then Ret (Again, rpb, s)
    else if rpb_b_page rpb =? 0 then not_found rpb s
    else to_back_version (if flag_set (rpb_flags rpb) rpb_delta then set_rpb_prior (rpb_record rpb) rpb else rpb) s
  else to_back_version rpb s.

Definition case_dead (fuel : nat) (rpb : record_param) (s : state) : outcome (step * record_param * state) :=
  if ATT_no_cleanup (trans s) || flag_set (rpb_flags rpb) (rpb_chained + rpb_gc_active)
  then skip_dead fuel rpb s
  else
    let* s := release s in
    let* (rpb, s) := VIO_backout rpb s in
    refetch rpb s.

(** Active: the next older version, for which the data of this one may be
    needed. *)
Definition case_active (fuel : nat) (rpb : record_param) (s : state) : outcome (step * record_param * state) :=
  if rpb_b_page rpb =? 0 then not_found rpb s
  else if negb (flag_set (rpb_flags rpb) rpb_delta) then to_back_version (set_rpb_prior None rpb) s
  else
    let temp := rpb in
    let* (rpb, s) := VIO_data fuel rpb s in
    if flag_set (rpb_flags temp) rpb_chained then
      let rpb := set_rpb_place (rpb_b_page temp) (rpb_b_line temp) rpb in
      let* (found, rpb, s) := fetch rpb s in
      if negb found then refetch rpb s else Ret (Again, rpb, s)
    else
      let rpb := set_rpb_place (rpb_page temp) (rpb_line temp) rpb in
      let* (found, rpb, s) := fetch rpb s in
      if negb found then refetch rpb s
      else if negb (rpb_transaction rpb =? rpb_transaction temp) then let* s := release s in refetch rpb s
      else if rpb_b_page rpb =? 0 then not_found rpb s
      else to_back_version (if negb (flag_set (rpb_flags rpb) rpb_delta) then set_rpb_prior None rpb else rpb) s.

Definition case_committed (rpb : record_param) (s : state) : outcome (step * record_param * state) :=
  let t := trans s in
  if flag_set (rpb_flags rpb) rpb_deleted then
    let* s := release s in
    if (rpb_transaction rpb <? tra_oldest_active t) && negb (ATT_no_cleanup t)
    then let* (rpb, s) := expunge rpb s in Ret (NotFound, rpb, s)
    else Ret (NotFound, rpb, s)
  else if (tra_oldest_active t <=? rpb_transaction rpb) || (rpb_b_page rpb =? 0)
          || flag_set (rpb_flags rpb) rpb_chained || ATT_no_cleanup t
  then Ret (Found, rpb, s)
  else let* (rpb, s) := purge rpb s in refetch rpb s.

Definition version_switch (fuel : nat) (st : Z) (rpb : record_param) (s : state) : outcome (step * record_param * state) :=
  if (st =? tra_dead) || (st =? tra_precommitted) then case_dead fuel rpb s
  else if st =? tra_limbo then
    if negb (TRA_ignore_limbo (trans s)) then Throw (Post isc_rec_in_limbo) else case_active fuel rpb s
  else if st =? tra_active then case_active fuel rpb s
  else if st =? tra_us then
    if flag_set (rpb_flags rpb) rpb_deleted then not_found rpb s else Ret (Found, rpb, s)
  else if st =? tra_committed then case_committed rpb s
  else Ret (Again, rpb, s).

(** Waiting for a transaction in limbo, where limbo is not ignored. *)
Definition limbo_wait (st : Z) (rpb : record_param) (s : state) : outcome (Z * state) :=
  if (st =? tra_limbo) && negb (TRA_ignore_limbo (trans s)) then
    let* (st, s) := TRA_wait (rpb_transaction rpb) s in
    Ret (if st =? tra_active then tra_limbo else st, s)
  else Ret (st, s).

(** The state of the next version to look at. *)
Definition next_state (rpb : record_param) (s : state) : outcome (Z * record_param * state) :=
  let* (st, s) := snapshot_state (rpb_transaction rpb) s in
  let (st, rpb) := if flag_set (rpb_flags rpb) rpb_chained then (st, rpb) else reset_gc_active st rpb in
  Ret (st, rpb, s).

Fixpoint chase_loop (fuel : nat) (writelock : bool) (st : Z) (rpb : record_param) (s : state)
    : outcome (bool * record_param * state) :=
  match fuel with
  | O => Throw Overrun
  | S fuel =>
      if flag_set (rpb_flags rpb) rpb_damaged then let* s := release s in Ret (false, rpb, s) else
      let* (st, s) := limbo_wait st rpb s in
      let* (w, st, rpb, s) := wait_for_writer writelock st rpb s in
      match w with
      | Some NotFound => Ret (false, rpb, s)
      | Some Found => Ret (true, rpb, s)
      | Some Again => chase_loop fuel writelock st rpb s
      | None =>
          let* (r, rpb, s) := version_switch fuel st rpb s in
          match r with
          | Found => Ret (true, rpb, s)
          | NotFound => Ret (false, rpb, s)
          | Again => let* (st, rpb, s) := next_state rpb s in chase_loop fuel writelock st rpb s
          end
      end
  end.

Definition VIO_chase_record_version (fuel : nat) (writelock : bool) (rpb : record_param) (s : state)
    : outcome (bool * record_param * state) :=
  let* (st, s) := snapshot_state (rpb_transaction rpb) s in
  let (st, rpb) := reset_gc_active st rpb in
  if ((st =? tra_committed) || (st =? tra_us)) && negb (flag_set (rpb_flags rpb) (rpb_deleted + rpb_damaged))
     && ((rpb_b_page rpb =? 0) || (tra_oldest_active (trans s) <=? rpb_transaction rpb))
  then Ret (true, rpb, s)
  else chase_loop fuel writelock st rpb s.

(** ** [VIO_get] *)

(** [update] is the stream flag [RPB_s_update]; [pool] tells whether the data
    are wanted; [counts] are the indexed reads of the attachment. *)
Definition VIO_get (fuel : nat) (update pool : bool) (rpb : record_param) (s : state) (counts : SVector)
    : outcome (bool * record_param * state * SVector) :=
  let* (found, rpb, s) := get (negb update) rpb s in
  if negb found then Ret (false, rpb, s, counts) else
  let* (found, rpb, s) := VIO_chase_record_version fuel false rpb s in
  if negb found then Ret (false, rpb, s, counts) else
  let* (rpb, s) := (if pool then VIO_data fuel rpb s else Ret (rpb, s)) in
  let* counts := VIO_bump_count rel_id false counts in
  Ret (true, rpb, s, counts).

End Vio.

End Vio.
