(* ===== verification/VioVisible.v ===== *)
(** * What a reader gets to see, whatever happens meanwhile ([jrd/vio.cpp])

    No assumption is made on the history: other threads may do anything
    between two looks at a page. *)

From S2P Require Import Prelude.
From S2P Require Import Sqz.
From S2P Require Import TipCache.
From S2P Require Import DataPage.
From S2P Require Import Dpm.
From S2P Require Import Vio.
From stdpp Require Import list gmap.
#[local] Open Scope Z_scope.

Module VioVisible.
Import Sqz TipCache DataPage Dpm Vio.

Section VioVisible.
Context `{DB : Database} `{FM : Formats} `{CL : Cleanup}.

(** ** What is held and what was seen *)

(** No latch is held; or one, on the page of the record. *)
Definition idle (s : state) : Prop := latches (acc s) = [].
Definition holds (rpb : record_param) (s : state) : Prop :=
  latches (acc s) = [rpb_page rpb] /\ window (acc s) = rpb_page rpb.

(** At the moment [u] the record parameters are what the header of their line
    said, except that the flag of a backout under way may be cleared. *)
Definition on_page (u : nat) (rpb : record_param) : Prop :=
  exists p line flags, data_pages (at_moment u) !! rpb_page rpb = Some p /\ USHORT line = rpb_line rpb /\
    get_header (rpb_page rpb) line p (set_rpb_flags flags rpb) = Ret (true, set_rpb_flags flags rpb) /\
    (rpb_flags rpb = flags \/ rpb_flags rpb = Z.land flags (Z.lnot rpb_gc_active)).

(** What the snapshot of a transaction, or its isolation mode, says of
    another one at the moment [v]. *)
Definition says (v : nat) (t : transaction) (number st : Z) : Prop :=
  let m := at_moment v in
  exists db, TRA_snapshot_state (fresh_block m) (lockable m) (tra t) number (tip m) = Ret (st, db).

(** The state of a transaction was found to be [st]: in the snapshot, or, if it
    was in limbo there, on the inventory pages after waiting. *)
Definition judged (v : nat) (t : transaction) (number st : Z) : Prop :=
  says v t number st \/
  ((exists v', says v' t number tra_limbo) /\
   let m := at_moment v in exists db, TRA_get_state (fresh_block m) (lockable m) number (tip m) = Ret (st, db)).

(** The outcome of a transaction is written into the snapshot. *)
Definition decided (t : transaction) (number st : Z) (t' : transaction) : Prop :=
  let bits := tra_transactions (tra t) in
  let byte := ULONG (TRANS_OFFSET (number - Z.land (tra_oldest (tra t)) (Z.lnot TRA_MASK))) in
  number <= tra_top (tra t) /\ tra_read_committed (tra t) = false /\ 0 <= st < 4 /\
  exists b, byte_at bits byte = Ret b /\
    t' = set_tra_transactions (set_byte bits byte (put_bits b (TRANS_SHIFT number) st)) t.

(** The transaction as the outcomes of transactions that were in limbo become
    known. *)
Inductive evolves (t : transaction) : transaction -> Prop :=
  | evolves_refl : evolves t t
  | evolves_wait t1 t2 number st v :
      evolves t t1 -> says v t1 number tra_limbo -> decided t1 number st t2 -> evolves t t2.
#[local] Hint Constructors evolves : core.

Lemma decided_same t number st t' :
  decided t number st t' -> exists bits, t' = set_tra_transactions bits t.
Proof. intros (_ & _ & _ & b & _ & ->). by eexists. Qed.

Lemma evolves_same t t' : evolves t t' -> exists bits, t' = set_tra_transactions bits t.
Proof.
  induction 1 as [|t1 t2 number st v _ [bits ->] _ Hd]; [exists (tra_transactions (tra t)); by destruct t as [[] ]|].
  apply decided_same in Hd as [bits' ->]. by exists bits'.
Qed.

Lemma evolves_trans t1 t2 t3 : evolves t1 t2 -> evolves t2 t3 -> evolves t1 t3.
Proof. intros H1 H2. induction H2; eauto. Qed.

(** ** Pages *)

Lemma get_header_again page line p rpb r :
  get_header page line p rpb = Ret (true, r) ->
  rpb_page r = page /\ rpb_line r = USHORT line /\ rpb_number r = rpb_number rpb /\ rpb_record r = rpb_record rpb /\
  rpb_prior r = rpb_prior rpb /\ get_header page line p r = Ret (true, r).
Proof.
  unfold get_header. destruct (dpg_count p <=? line); [done|]. destruct (entry p line) as [x|]; [|done]. cbn [obind].
  destruct (dpg_offset x =? 0); [done|]. destruct (field (page_bytes p) (dpg_offset x + 10) 2) as [fl|]; [|done]. cbn [obind].
  destruct (flag_set fl rpb_fragment); cbn [obind].
  - destruct (flag_set fl rpb_incomplete); cbn [obind].
    + destruct (field _ (_ + 16) 4) as [fp|]; [|done]. cbn [obind]. destruct (field _ (_ + 20) 2) as [fll|]; [|done]. cbn [obind].
      destruct (bytes_at _ _ _) as [bs|]; [|done]. cbn [obind]. intros [= <-]. by split_and!.
    + destruct (bytes_at _ _ _) as [bs|]; [|done]. cbn [obind]. intros [= <-]. by split_and!.
  - destruct (field _ (_ + 4) 4) as [f1|]; [|done]. cbn [obind]. destruct (field _ (_ + 8) 2) as [f2|]; [|done]. cbn [obind].
    destruct (field _ (dpg_offset x) 4) as [f3|]; [|done]. cbn [obind]. destruct (field _ (_ + 12) 1) as [f4|]; [|done]. cbn [obind].
    destruct (flag_set fl rpb_incomplete); cbn [obind].
    + destruct (field _ (_ + 16) 4) as [fp|]; [|done]. cbn [obind]. destruct (field _ (_ + 20) 2) as [fll|]; [|done]. cbn [obind].
      destruct (bytes_at _ _ _) as [bs|]; [|done]. cbn [obind]. intros [= <-]. by split_and!.
    + destruct (bytes_at _ _ _) as [bs|]; [|done]. cbn [obind]. intros [= <-]. by split_and!.
Qed.

Lemma get_header_number page line p rpb b r :
  get_header page line p rpb = Ret (b, r) -> rpb_number r = rpb_number rpb.
Proof.
  destruct b; [intros E; by apply get_header_again in E as (_ & _ & ? & _)|].
  unfold get_header. destruct (_ <=? _); [by intros [= <-]|]. destruct (entry p line) as [x|]; [|done]. cbn [obind].
  destruct (dpg_offset x =? 0); [by intros [= <-]|]. destruct (field _ _ _) as [fl|]; [|done]. cbn [obind].
  destruct (if flag_set fl rpb_fragment then _ else _) as [ [[[? ?] ?] ?] |]; [|done]. cbn [obind].
  destruct (if flag_set fl rpb_incomplete then _ else _) as [ [[? ?] ?] |]; [|done]. done.
Qed.

Lemma unlatch_one page : unlatch page [page] = Some [].
Proof. cbn. by rewrite Z.eqb_refl. Qed.

Lemma release_ok a :
  latches a = [window a] -> CCH_RELEASE a = Ret (mk_access (clock a) (window a) []).
Proof. intros E. unfold CCH_RELEASE. by rewrite E, unlatch_one. Qed.

Lemma win_buffer_some a : returns (win_buffer a) (fun p => data_pages (at_moment (clock a)) !! window a = Some p).
Proof. unfold win_buffer. by destruct (data_pages _ !! _). Qed.

(** What has been read from the page in the window. *)
Lemma on_page_read a page line p rpb r :
  window a = page -> data_pages (at_moment (clock a)) !! page = Some p -> get_header page line p rpb = Ret (true, r) ->
  on_page (clock a) r /\ rpb_page r = page.
Proof.
  intros _ Hp E. pose proof (get_header_again _ _ _ _ _ E) as (E1 & E2 & _ & _ & _ & E3). split; [|done].
  exists p, line, (rpb_flags r). rewrite E1. replace (set_rpb_flags (rpb_flags r) r) with r by (by destruct r). auto.
Qed.

Lemma handoff_ok read page a :
  latches a = [window a] ->
  returns (CCH_HANDOFF read page a) (fun '(ok, a') => (clock a <= clock a')%nat /\
    if ok then latches a' = [page] /\ window a' = page else latches a' = []).
Proof.
  intros E. unfold CCH_HANDOFF. apply returns_if; intros Hb.
  { cbn. apply andb_true_iff in Hb as [Hb _]. apply Z.eqb_eq in Hb. rewrite E, Hb. done. }
  apply returns_if; intros Ht.
  { rewrite (release_ok (tick a)) by done. cbn. split; [lia|done]. }
  rewrite E. cbn [unlatch]. destruct (Z.eqb_spec page (window a)) as [->|Hne]; cbn; [split; [lia|done]|].
  rewrite Z.eqb_refl. cbn. split; [lia|done].
Qed.

(** What a fetch returns: a record of a latched page, or nothing. *)
Definition fetched (u0 : nat) (rpb0 : record_param) (x : bool * record_param * access) : Prop :=
  let '(found, rpb, a) := x in
  (u0 <= clock a)%nat /\ rpb_number rpb = rpb_number rpb0 /\
  if found then latches a = [rpb_page rpb] /\ window a = rpb_page rpb /\ on_page (clock a) rpb else latches a = [].

Lemma DPM_fetch_ok rpb a : latches a = [] -> returns (DPM_fetch rpb a) (fetched (clock a) rpb).
Proof.
  intros E. unfold DPM_fetch. cbv zeta. set (a1 := CCH_FETCH _ _). call win_buffer_some. intros p Hp.
  destruct (get_header _ _ _ _) as [[found r]|] eqn:Eg; [|done]. cbn [obind]. pose proof (get_header_number _ _ _ _ _ _ Eg) as En.
  destruct found; cbn [negb].
  - destruct (on_page_read a1 (window a1) _ _ _ _ eq_refl Hp Eg) as [Ho Hpg]. cbn. rewrite Hpg, E. cbn. split_and!; [lia|done|done|done|done].
  - rewrite (release_ok a1) by (unfold a1; cbn; by rewrite E). cbn. split_and!; [lia|done|done].
Qed.

Lemma DPM_fetch_back_ok rpb a : latches a = [window a] -> returns (DPM_fetch_back rpb a) (fetched (clock a) rpb).
Proof.
  intros E. unfold DPM_fetch_back. call (handoff_ok true (rpb_b_page rpb) a E). intros [ok a1] [Hc Hl].
  destruct ok; cbn [negb]; [|done]. destruct Hl as [Hl Hw]. call win_buffer_some. intros p Hp.
  destruct (get_header _ _ _ _) as [[found r]|] eqn:Eg; [|done]. cbn [obind]. pose proof (get_header_number _ _ _ _ _ _ Eg) as En.
  destruct found; cbn [negb]; [|done]. destruct (on_page_read a1 (window a1) _ _ _ _ eq_refl Hp Eg) as [Ho Hpg].
  cbn. rewrite Hpg, Hw, Hl. by split_and!.
Qed.

Lemma DPM_fetch_fragment_ok rpb a :
  latches a = [window a] ->
  returns (DPM_fetch_fragment rpb a) (fun '(rpb', a') => (clock a <= clock a')%nat /\ rpb_number rpb' = rpb_number rpb /\ latches a' = [window a']).
Proof.
  intros E. unfold DPM_fetch_fragment. call (handoff_ok true (rpb_f_page rpb) a E). intros [ok a1] [Hc Hl].
  destruct ok; cbn [negb]; [|done]. destruct Hl as [Hl Hw]. call win_buffer_some. intros p Hp.
  destruct (get_header _ _ _ _) as [[found r]|] eqn:Eg; [|done]. cbn [obind]. pose proof (get_header_number _ _ _ _ _ _ Eg) as En.
  destruct found; cbn [negb]; [|done]. cbn. rewrite Hl, Hw. by split_and!.
Qed.

Lemma get_pointer_page_ok sequence a :
  latches a = [] ->
  returns (get_pointer_page sequence a) (fun '(page, a') => (clock a <= clock a')%nat /\
    match page with Some _ => latches a' = [window a'] | None => latches a' = [] end).
Proof.
  intros E. unfold get_pointer_page. destruct (rel_pages _ !! _) as [n|]; [|done]. cbn. destruct (pointer_pages _ !! n) as [page|]; [|done].
  destruct (_ || _); [done|]. cbn. rewrite E. split; [lia|done].
Qed.

Lemma DPM_get_ok read rpb a : latches a = [] -> returns (DPM_get read rpb a) (fetched (clock a) rpb).
Proof.
  intros E. unfold DPM_get. destruct (RecordNumber.RecordNumber.decompose _ _ _) as [[line slot] pp].
  apply returns_if; intros _; [done|]. call (get_pointer_page_ok pp a E). intros [[page|] a1] [Hc Hl]; [|done].
  apply returns_bind. destruct (if slot <? 0 then _ else _) as [page_number|]; [|done]. cbn [returns].
  apply returns_if; intros _. { rewrite (release_ok a1 Hl). cbn. done. }
  call (handoff_ok read page_number a1 Hl). intros [ok a2] [Hc2 Hl2].
  destruct ok; cbn [negb]; [|done]. destruct Hl2 as [Hl2 Hw]. call win_buffer_some. intros p Hp.
  destruct (get_header _ _ _ _) as [[found r]|] eqn:Eg; [|done]. cbn [obind]. pose proof (get_header_number _ _ _ _ _ _ Eg) as En. cbn in En.
  apply returns_if; intros Hb.
  - apply andb_true_iff in Hb as [-> _]. destruct (on_page_read a2 (window a2) _ _ _ _ eq_refl Hp Eg) as [Ho Hpg].
    cbn. rewrite Hpg, Hw, Hl2. split_and!; [lia|done..].
  - rewrite (release_ok a2) by (by rewrite Hw). cbn. split_and!; [lia|done..].
Qed.

(** ** The thread *)

Definition went (rpb0 : record_param) (s0 : state) (x : bool * record_param * state) : Prop :=
  let '(found, rpb, s) := x in
  fetched (clock (acc s0)) rpb0 (found, rpb, acc s) /\ trans s = trans s0.

Lemma release_s s : latches (acc s) = [window (acc s)] ->
  release s = Ret (with_acc (mk_access (clock (acc s)) (window (acc s)) []) s).
Proof. intros E. unfold release. by rewrite (release_ok _ E). Qed.

Lemma get_ok read rpb s : idle s -> returns (get read rpb s) (went rpb s).
Proof. intros E. unfold get. call (DPM_get_ok read rpb (acc s) E). intros [[found r] a]. by cbn. Qed.

Lemma fetch_ok rpb s : idle s -> returns (fetch rpb s) (went rpb s).
Proof. intros E. unfold fetch. call (DPM_fetch_ok rpb (acc s) E). intros [[found r] a]. by cbn. Qed.

Lemma fetch_back_ok rpb s : latches (acc s) = [window (acc s)] -> returns (fetch_back rpb s) (went rpb s).
Proof. intros E. unfold fetch_back. call (DPM_fetch_back_ok rpb (acc s) E). intros [[found r] a]. by cbn. Qed.

Lemma VIO_record_ok rpb s :
  returns (VIO_record rpb s) (fun '(_, rpb', s') => rpb_number rpb' = rpb_number rpb /\ acc s' = acc s /\ trans s' = trans s).
Proof.
  unfold VIO_record. destruct (rpb_record rpb) as [old|]; [|done]. destruct (records s !! old) as [x|]; [|done].
  apply returns_if; intros _; [|done]. cbn. by destruct (bool_decide _).
Qed.

Lemma fragments_ok fuel rpb room a :
  latches a = [window a] ->
  returns (fragments fuel rpb room a) (fun '(_, rpb', a') => (clock a <= clock a')%nat /\ rpb_number rpb' = rpb_number rpb /\ latches a' = [window a']).
Proof.
  revert rpb room a. induction fuel as [|fuel IH]; intros rpb room a E; cbn [fragments]; [done|]. apply returns_if; intros _; [|done].
  call (DPM_fetch_fragment_ok rpb a E). intros [r a1] (H1 & H2 & H3). destruct (SQZ_decompress _ _) as [out|]; [|done]. cbn [obind].
  call (IH r (room - Z.of_nat (length out)) a1 H3). intros [[rest r'] a2] (H4 & H5 & H6). cbn. split_and!; [lia|congruence|done].
Qed.

Lemma VIO_data_ok fuel rpb s :
  latches (acc s) = [window (acc s)] ->
  returns (VIO_data fuel rpb s) (fun '(rpb', s') => idle s' /\ rpb_number rpb' = rpb_number rpb /\
    (clock (acc s) <= clock (acc s'))%nat /\ trans s' = trans s).
Proof.
  intros E. unfold VIO_data. call (VIO_record_ok rpb s). intros [[r rpb1] s1] (En & Ea & Et). destruct (rec_at s1 r) as [x|]; [|done]. cbn [obind].
  apply returns_bind. destruct (match rpb_prior rpb1 with Some p => _ | None => _ end) as [data|]; [|done]. cbn [returns]. cbv zeta.
  set (room := match rpb_prior rpb1 with Some _ => _ | None => _ end). set (rpb2 := set_rpb_prior _ rpb1).
  assert (En2 : rpb_number rpb2 = rpb_number rpb) by exact En. clearbody rpb2.
  assert (Hst : returns (stored_data fuel rpb2 room (acc s1)) (fun '(_, rpb', a') => (clock (acc s) <= clock a')%nat /\
    rpb_number rpb' = rpb_number rpb /\ latches a' = [window a'])).
  { unfold stored_data. destruct (SQZ_decompress _ _) as [out|]; [|done]. cbn [obind]. apply returns_if; intros _.
    - call (fragments_ok fuel rpb2 (room - Z.of_nat (length out)) (acc s1)); [by rewrite Ea|]. intros [[rest r'] a'] (H1' & H2' & H3'). cbn.
      rewrite Ea in H1'. split_and!; [lia|congruence|done].
    - cbn. rewrite Ea. split_and!; [lia|done|done]. }
  call Hst. intros [[out r'] a'] (Hc & Hn & Hl). rewrite (release_ok a' Hl). cbn [obind].
  apply returns_bind. eapply returns_mono; [apply returns_any|]. intros [d n] _. apply returns_if; intros _; [done|].
  cbn. split_and!; [done|done|done|done].
Qed.

Lemma snapshot_state_ok n s :
  returns (snapshot_state n s) (fun '(st, s') => latches (acc s') = latches (acc s) /\ window (acc s') = window (acc s) /\
    (clock (acc s) <= clock (acc s'))%nat /\ trans s' = trans s /\ says (clock (acc s')) (trans s) n st).
Proof.
  unfold snapshot_state. cbv zeta. cbn [acc with_acc trans]. destruct (TRA_snapshot_state _ _ _ _ _) as [[st db]|] eqn:E; [|done]. cbn.
  split_and!; [done|done|lia|done|]. unfold says. cbn. by exists db.
Qed.

(** The states on inventory pages and in the cache of them. *)
Lemma get_bits_range b shift : 0 <= get_bits b shift < 4.
Proof. unfold get_bits, TRA_MASK. change 3 with (Z.ones 2). rewrite Z.land_ones by lia. apply Z.mod_pos_bound. lia. Qed.

Lemma TRA_state_range bits oldest n : returns (TRA_state bits oldest n) (fun st => 0 <= st < 4).
Proof. unfold TRA_state. destruct (byte_at _ _) as [b|]; [|done]. apply get_bits_range. Qed.

Definition stored_state (x : Z * dbb) : Prop := 0 <= x.1 < 4 \/ x.1 = tra_precommitted.

Lemma TRA_fetch_state_range n db : returns (TRA_fetch_state n db) stored_state.
Proof.
  unfold TRA_fetch_state. destruct (fetch_inventory_page _ _) as [[tip' db']|]; [|done]. cbn [obind].
  destruct (byte_at _ _) as [b|]; [|done]. left. apply get_bits_range.
Qed.

Lemma snapshot_lookup_range fresh lockable n db : returns (snapshot_lookup fresh lockable n db) stored_state.
Proof.
  unfold snapshot_lookup. apply returns_if; intros _; [by right|]. destruct (cache db) as [|first c]; [done|].
  apply returns_if; intros _; [by left|]. destruct (find_block n db) as [b|].
  - call (TRA_state_range (tpc_transactions b) (tpc_base b) n). intros st Hst. apply returns_if; intros _; [by left|].
    apply returns_if; intros _; [by left|]. apply TRA_fetch_state_range.
  - unfold extendCache. destruct (list.last _) as [x|]; [|done]. destruct (cacheTransactions _ _ _) as [db'|]; [|done]. cbn [obind].
    destruct (find_block n db') as [b|]; [|by left]. call (TRA_state_range (tpc_transactions b) (tpc_base b) n). intros st Hst. by left.
Qed.

Lemma TRA_get_state_range fresh lockable n db : returns (TRA_get_state fresh lockable n db) stored_state.
Proof.
  unfold TRA_get_state. destruct (cache db) as [|x c] eqn:Ec.
  - apply returns_if; intros _; [by right|]. apply TRA_fetch_state_range.
  - unfold snapshotState. rewrite Ec. cbn [obind]. apply snapshot_lookup_range.
Qed.

Lemma TRA_wait_ok n s :
  returns (TRA_wait n s) (fun '(st, s') => latches (acc s') = latches (acc s) /\ window (acc s') = window (acc s) /\
    (clock (acc s) <= clock (acc s'))%nat /\
    (trans s' = trans s \/ decided (trans s) n st (trans s')) /\
    (st = tra_committed \/ st = tra_us ->
       let m := at_moment (clock (acc s')) in exists db, TRA_get_state (fresh_block m) (lockable m) n (tip m) = Ret (st, db))).
Proof.
  unfold TRA_wait. cbv zeta. cbn [acc with_acc trans tick clock]. apply returns_if; intros _.
  { cbn. split_and!; [done|done|lia|by left|]. by intros [?|?]. }
  destruct (TRA_get_state _ _ _ _) as [[st db]|] eqn:E; [|done]. cbn [obind].
  pose proof (returns_ret _ _ _ (TRA_get_state_range _ _ _ _) E) as Hr. unfold stored_state in Hr. cbn [fst] in Hr.
  apply returns_if; intros E1. { cbn. split_and!; [done|done|lia|by left|eauto]. }
  apply returns_if; intros E2. { cbn. split_and!; [done|done|lia|by left|eauto]. }
  assert (Hst : forall s', acc s' = tick (acc s) -> forall st', (st' = st \/ st' = tra_dead) -> (trans s' = trans s \/ decided (trans s) n st' (trans s')) ->
    latches (acc s') = latches (acc s) /\ window (acc s') = window (acc s) /\
    (clock (acc s) <= clock (acc s'))%nat /\ (trans s' = trans s \/ decided (trans s) n st' (trans s')) /\
    (st' = tra_committed \/ st' = tra_us ->
       let m := at_moment (clock (acc s')) in exists db, TRA_get_state (fresh_block m) (lockable m) n (tip m) = Ret (st', db))).
  { intros s' Ha st' Hst' Hs. rewrite Ha. cbn. split_and!; [done|done|lia|done|]. intros Hc. destruct Hst' as [->| ->]; [eauto|]. by destruct Hc. }
  apply Z.eqb_neq in E2. apply returns_bind. apply (returns_mono _ (fun st' => (st' = st \/ st' = tra_dead) /\ 0 <= st' < 4)).
  { apply returns_if; intros _; [|split; [by left|tauto] ]. destruct (TRA_set_state _ _ _ _) as [?|]; [|done]. by split; [right|]. }
  intros st' [Hst' Hr']. apply returns_if; intros Htop; [apply Hst; auto|]. apply returns_if; intros Hrc.
  { destruct (setState _ _ _) as [?|]; [|done]. apply Hst; auto. }
  destruct (byte_at _ _) as [b|] eqn:Eb; [|done]. cbn [obind returns]. apply Hst; [done|done|]. right. cbn. apply Z.ltb_ge in Htop.
  split_and!; [done|done|lia|lia|]. exists b. split; [exact Eb|done].
Qed.

(** ** The search *)

(** The version at hand: latched, and seen since the moment [u0]. *)
Definition current (u0 : nat) (rpb : record_param) (s : state) : Prop :=
  holds rpb s /\ exists u, (u0 <= u <= clock (acc s))%nat /\ on_page u rpb.

Definition step_post (u0 : nat) (rpb0 : record_param) (s0 : state) (x : step * record_param * state) : Prop :=
  let '(r, rpb, s) := x in
  rpb_number rpb = rpb_number rpb0 /\ (clock (acc s0) <= clock (acc s))%nat /\ evolves (trans s0) (trans s) /\
  match r with
  | Found => rpb = rpb0 /\ s = s0 /\ flag_set (rpb_flags rpb) rpb_deleted = false
  | NotFound => idle s
  | Again => current u0 rpb s
  end.

Lemma holds_window rpb s : holds rpb s -> latches (acc s) = [window (acc s)].
Proof. by intros [-> ->]. Qed.
#[local] Hint Resolve holds_window : core.

(** The prior record plays no part in reading a header. *)
Lemma get_header_prior page line p prior rpb :
  get_header page line p (set_rpb_prior prior rpb) = let* (found, r) := get_header page line p rpb in Ret (found, set_rpb_prior prior r).
Proof.
  unfold get_header. destruct (_ <=? _); [done|]. destruct (entry p line) as [x|]; [|done]. cbn [obind].
  destruct (dpg_offset x =? 0); [done|]. destruct (field _ _ _) as [fl|]; [|done]. cbn [obind].
  change (rpb_f_page (set_rpb_prior prior rpb)) with (rpb_f_page rpb). change (rpb_f_line (set_rpb_prior prior rpb)) with (rpb_f_line rpb).
  change (if flag_set fl rpb_fragment then Ret (rpb_b_page (set_rpb_prior prior rpb), _, _, _) else ?e) with
    (if flag_set fl rpb_fragment then Ret (rpb_b_page rpb, rpb_b_line rpb, rpb_transaction rpb, rpb_format_number rpb) else e).
  destruct (if flag_set fl rpb_fragment then _ else _) as [ [[[? ?] ?] ?] |]; [|done]. cbn [obind].
  by destruct (if flag_set fl rpb_incomplete then _ else _) as [ [[? ?] ?] |].
Qed.

Lemma on_page_prior u prior rpb : on_page u rpb -> on_page u (set_rpb_prior prior rpb).
Proof.
  intros (p & line & flags & Hp & Hl & Hg & Hf). exists p, line, flags. split_and!; [done|done| |done].
  change (set_rpb_flags flags (set_rpb_prior prior rpb)) with (set_rpb_prior prior (set_rpb_flags flags rpb)).
  change (rpb_page (set_rpb_prior prior rpb)) with (rpb_page rpb). by rewrite get_header_prior, Hg.
Qed.

Lemma current_of_went u0 rpb0 s0 rpb s : (u0 <= clock (acc s0))%nat -> went rpb0 s0 (true, rpb, s) -> current u0 rpb s.
Proof. intros Hu [(Hc & _ & Hl & Hw & Ho) _]. split; [done|]. exists (clock (acc s)). split; [lia|done]. Qed.

Lemma refetch_ok u0 rpb s :
  idle s -> (u0 <= clock (acc s))%nat -> returns (refetch rpb s) (step_post u0 rpb s).
Proof.
  intros E Hu. unfold refetch. call (get_ok true rpb s E). intros [[found r] s'] Hw. pose proof Hw as [(Hc & Hn & Hf) Ht]. cbn.
  rewrite Ht. split_and!; [done|done|done|]. destruct found; [by eapply current_of_went|done].
Qed.

(** What follows after the record has been released and read again. *)
Lemma step_post_trans u0 rpb0 s0 rpb1 s1 x :
  rpb_number rpb1 = rpb_number rpb0 -> (clock (acc s0) <= clock (acc s1))%nat -> evolves (trans s0) (trans s1) ->
  x.1.1 <> Found -> step_post u0 rpb1 s1 x -> step_post u0 rpb0 s0 x.
Proof.
  destruct x as [[r rpb] s]. intros Hn Hc Ht Hr (H1' & H2' & H3' & H4'). cbn in Hr. split_and!; [congruence|lia|by eapply evolves_trans|].
  by destruct r.
Qed.

Definition no_find (u0 : nat) (rpb0 : record_param) (s0 : state) (x : step * record_param * state) : Prop :=
  x.1.1 <> Found /\ step_post u0 rpb0 s0 x.

Lemma refetch_no_find u0 rpb0 s0 rpb s :
  idle s -> (u0 <= clock (acc s))%nat -> rpb_number rpb = rpb_number rpb0 -> (clock (acc s0) <= clock (acc s))%nat -> evolves (trans s0) (trans s) ->
  returns (refetch rpb s) (no_find u0 rpb0 s0).
Proof.
  intros E Hu Hn Hc Ht. assert (Hr : returns (refetch rpb s) (fun x => x.1.1 <> Found)).
  { unfold refetch. destruct (get true rpb s) as [[[[] r] s']|]; done. }
  pose proof (refetch_ok u0 rpb s E Hu) as Hp. destruct (refetch rpb s) as [x|]; [|done]. cbn in *. split; [done|]. by eapply step_post_trans.
Qed.

Lemma not_found_no_find u0 rpb0 s0 rpb s :
  latches (acc s) = [window (acc s)] -> rpb_number rpb = rpb_number rpb0 -> (clock (acc s0) <= clock (acc s))%nat -> evolves (trans s0) (trans s) ->
  returns (not_found rpb s) (no_find u0 rpb0 s0).
Proof. intros E Hn Hc Ht. unfold not_found. rewrite (release_s s E). done. Qed.

Lemma to_back_no_find u0 rpb0 s0 rpb s :
  latches (acc s) = [window (acc s)] -> (u0 <= clock (acc s))%nat -> rpb_number rpb = rpb_number rpb0 -> (clock (acc s0) <= clock (acc s))%nat ->
  evolves (trans s0) (trans s) -> returns (to_back_version rpb s) (no_find u0 rpb0 s0).
Proof.
  intros E Hu Hn Hc Ht. unfold to_back_version. call (fetch_back_ok rpb s E). intros [[ok r] s'] Hw. pose proof Hw as [(Hc' & Hn' & Hf) Ht'].
  destruct ok.
  - cbn. split; [done|]. split_and!; [congruence|lia|by rewrite Ht'|]. eapply current_of_went; [|exact Hw]. lia.
  - apply refetch_no_find; [done|lia|congruence|lia|by rewrite Ht'].
Qed.

Lemma skip_dead_ok fuel u0 rpb s :
  holds rpb s -> (u0 <= clock (acc s))%nat -> returns (skip_dead fuel rpb s) (no_find u0 rpb s).
Proof.
  intros Hh Hu. unfold skip_dead. apply returns_if; intros _; [apply not_found_no_find; [by eapply holds_window|auto..]|]. cbv zeta.
  apply returns_if; intros _; [|apply to_back_no_find; [by eapply holds_window|auto..] ].
  call (VIO_data_ok fuel rpb s (holds_window _ _ Hh)). intros [r1 s1] (Hi1 & Hn1 & Hc1 & Ht1).
  call (fetch_ok (set_rpb_place (rpb_page rpb) (rpb_line rpb) r1) s1 Hi1). intros [[found r2] s2] Hw. pose proof Hw as [(Hc2 & Hn2 & Hf2) Ht2].
  cbn in Hn2. assert (Hs : evolves (trans s) (trans s2)) by (rewrite Ht2, Ht1; auto).
  destruct found; cbn [negb]; [|apply refetch_no_find; [done|lia|congruence|lia|done]].
  destruct Hf2 as (Hl2 & Hw2 & Ho2). assert (Hlw : latches (acc s2) = [window (acc s2)]) by (by rewrite Hw2).
  apply returns_if; intros _. { rewrite (release_s s2 Hlw). cbn [obind]. apply refetch_no_find; [done|cbn; lia|congruence|cbn; lia|done]. }
  apply returns_if; intros _. { cbn. split; [done|]. split_and!; [congruence|lia|done|]. eapply (current_of_went u0 _ s1); [lia|exact Hw]. }
  apply returns_if; intros _. { apply not_found_no_find; [done|congruence|lia|done]. }
  apply to_back_no_find; [done|lia|destruct (flag_set _ _); cbn; congruence|lia|done].
Qed.

Lemma case_dead_ok fuel u0 rpb s :
  holds rpb s -> (u0 <= clock (acc s))%nat -> returns (case_dead fuel rpb s) (no_find u0 rpb s).
Proof.
  intros Hh Hu. unfold case_dead. apply returns_if; intros _; [by apply skip_dead_ok|].
  rewrite (release_s s) by (by eapply holds_window). cbn [obind]. set (s1 := with_acc _ s).
  destruct (VIO_backout rpb s1) as [[r2 s2]|] eqn:E; [|done]. cbn [obind].
  destruct (backout_done rpb s1 r2 s2 eq_refl E) as (Hi & Hn & Hc & Ht). cbn in Hc. apply refetch_no_find; [done|lia|done|lia|by rewrite Ht; cbn].
Qed.

Lemma case_active_ok fuel u0 rpb s :
  holds rpb s -> (u0 <= clock (acc s))%nat -> returns (case_active fuel rpb s) (no_find u0 rpb s).
Proof.
  intros Hh Hu. unfold case_active. apply returns_if; intros _; [apply not_found_no_find; [by eapply holds_window|auto..]|].
  apply returns_if; intros _; [apply to_back_no_find; [by eapply holds_window|auto..]|]. cbv zeta.
  call (VIO_data_ok fuel rpb s (holds_window _ _ Hh)). intros [r1 s1] (Hi1 & Hn1 & Hc1 & Ht1). apply returns_if; intros _.
  - call (fetch_ok (set_rpb_place (rpb_b_page rpb) (rpb_b_line rpb) r1) s1 Hi1). intros [[found r2] s2] Hw. pose proof Hw as [(Hc2 & Hn2 & Hf2) Ht2].
    cbn in Hn2. assert (Hs : evolves (trans s) (trans s2)) by (rewrite Ht2, Ht1; auto).
    destruct found; cbn [negb]; [|apply refetch_no_find; [done|lia|congruence|lia|done]].
    cbn. split; [done|]. split_and!; [congruence|lia|done|]. eapply (current_of_went u0 _ s1); [lia|exact Hw].
  - call (fetch_ok (set_rpb_place (rpb_page rpb) (rpb_line rpb) r1) s1 Hi1). intros [[found r2] s2] Hw. pose proof Hw as [(Hc2 & Hn2 & Hf2) Ht2].
    cbn in Hn2. assert (Hs : evolves (trans s) (trans s2)) by (rewrite Ht2, Ht1; auto).
    destruct found; cbn [negb]; [|apply refetch_no_find; [done|lia|congruence|lia|done]].
    destruct Hf2 as (Hl2 & Hw2 & Ho2). assert (Hlw : latches (acc s2) = [window (acc s2)]) by (by rewrite Hw2).
    apply returns_if; intros _. { rewrite (release_s s2 Hlw). cbn [obind]. apply refetch_no_find; [done|cbn; lia|congruence|cbn; lia|done]. }
    apply returns_if; intros _. { apply not_found_no_find; [done|congruence|lia|done]. }
    apply to_back_no_find; [done|lia|destruct (negb _); cbn; congruence|lia|done].
Qed.

Lemma case_committed_ok u0 rpb s :
  holds rpb s -> (u0 <= clock (acc s))%nat -> returns (case_committed rpb s) (step_post u0 rpb s).
Proof.
  intros Hh Hu. unfold case_committed. cbv zeta. apply returns_if; intros Hd.
  - rewrite (release_s s) by (by eapply holds_window). cbn [obind]. set (s1 := with_acc _ s).
    apply returns_if; intros _; [|by split_and!; [..|apply evolves_refl|]].
    destruct (expunge rpb s1) as [[r2 s2]|] eqn:E; [|done]. cbn. destruct (expunge_done rpb s1 r2 s2 eq_refl E) as (Hi & Hn & Hc & Ht).
    cbn in Hc. split_and!; [done|done|by rewrite Ht; cbn|done].
  - apply returns_if; intros _. { cbn. split_and!; auto. }
    destruct (purge rpb s) as [[r2 s2]|] eqn:E; [|done]. cbn [obind]. destruct Hh as [Hl Hw].
    destruct (purge_done rpb s r2 s2 Hl Hw E) as (Hi & Hn & Hc & Ht).
    eapply returns_mono; [apply (refetch_no_find u0 rpb s); [done|lia|done|lia|by rewrite Ht]|]. by intros x [_ Hx].
Qed.

Lemma case_active_post fuel u0 rpb s :
  holds rpb s -> (u0 <= clock (acc s))%nat -> returns (case_active fuel rpb s) (step_post u0 rpb s).
Proof. intros Hh Hu. eapply returns_mono; [by apply case_active_ok|]. by intros x [_ Hx]. Qed.

(** A version is found only if it is ours or committed. *)
Lemma version_switch_ok fuel u0 st rpb s :
  current u0 rpb s ->
  returns (version_switch fuel st rpb s) (fun x => step_post u0 rpb s x /\ (x.1.1 = Found -> st = tra_us \/ st = tra_committed)).
Proof.
  intros [Hh (u & Hu & Ho)]. assert (Hu0 : (u0 <= clock (acc s))%nat) by lia. unfold version_switch.
  apply returns_if; intros _. { eapply returns_mono; [by apply case_dead_ok|]. by intros x [Hx1 Hx2]. }
  apply returns_if; intros _.
  { apply returns_if; intros _; [done|]. eapply returns_mono; [by apply case_active_ok|]. by intros x [Hx1 Hx2]. }
  apply returns_if; intros _. { eapply returns_mono; [by apply case_active_ok|]. by intros x [Hx1 Hx2]. }
  apply returns_if; intros E1.
  { apply Z.eqb_eq in E1. apply returns_if; intros Hd; [|cbn; split; [split_and!; auto|by left] ].
    eapply returns_mono; [apply (not_found_no_find u0 rpb s); [by eapply holds_window|auto..]|]. by intros x [Hx1 Hx2]. }
  apply returns_if; intros E2.
  { apply Z.eqb_eq in E2. eapply returns_mono; [by apply (case_committed_ok u0)|]. intros x Hx. split; [done|by right]. }
  cbn. split; [|done]. split_and!; auto. split; [done|]. eauto.
Qed.

(** What is known of the state the search has at hand; [judged_so] suffices
    for the switch. *)
Definition judged_so (u0 : nat) (t : transaction) (st : Z) (rpb : record_param) (s : state) : Prop :=
  st = tra_committed \/ st = tra_us ->
  exists v t', (u0 <= v <= clock (acc s))%nat /\ evolves t t' /\ judged v t' (rpb_transaction rpb) st.
Definition verdict (u0 : nat) (t : transaction) (st : Z) (rpb : record_param) (s : state) : Prop :=
  judged_so u0 t st rpb s /\ (st = tra_limbo -> exists v, says v (trans s) (rpb_transaction rpb) tra_limbo).

Lemma limbo_wait_ok u0 t st rpb s :
  (u0 <= clock (acc s))%nat -> evolves t (trans s) -> verdict u0 t st rpb s ->
  returns (limbo_wait st rpb s) (fun '(st', s') => latches (acc s') = latches (acc s) /\ window (acc s') = window (acc s) /\
    (clock (acc s) <= clock (acc s'))%nat /\ evolves t (trans s') /\ judged_so u0 t st' rpb s').
Proof.
  intros Hu Ht [Hv Hlim]. unfold limbo_wait. apply returns_if; intros Hb; [|cbn; auto].
  apply andb_true_iff in Hb as [Hst0 _]. apply Z.eqb_eq in Hst0. destruct (Hlim Hst0) as [v0 Hsay].
  call (TRA_wait_ok (rpb_transaction rpb) s). intros [st' s'] (Hl & Hw & Hc & Hs & Hj). cbn.
  split_and!; [done|done|done| |].
  - destruct Hs as [->|Hd]; [done|]. by eapply evolves_wait.
  - intros Hst. assert (st' = tra_committed \/ st' = tra_us) as Hst' by (destruct (st' =? tra_active); [by destruct Hst|done]).
    exists (clock (acc s')), (trans s). split; [lia|]. split; [done|]. right. split; [by exists v0|]. specialize (Hj Hst').
    destruct (st' =? tra_active); [by destruct Hst|done].
Qed.

Lemma snapshot_verdict u0 t rpb s :
  (u0 <= clock (acc s))%nat -> evolves t (trans s) ->
  returns (snapshot_state (rpb_transaction rpb) s) (fun '(st, s') => latches (acc s') = latches (acc s) /\ window (acc s') = window (acc s) /\
    (clock (acc s) <= clock (acc s'))%nat /\ evolves t (trans s') /\ verdict u0 t st rpb s').
Proof.
  intros Hu Ht. eapply returns_mono; [apply snapshot_state_ok|]. intros [st s'] (Hl & Hw & Hc & Hs & Hj).
  split_and!; [done|done|done|by rewrite Hs|]. split.
  - intros _. exists (clock (acc s')), (trans s). split_and!; [lia|lia|done|by left].
  - intros ->. exists (clock (acc s')). by rewrite Hs.
Qed.

Lemma current_later u0 rpb s s' :
  current u0 rpb s -> latches (acc s') = latches (acc s) -> window (acc s') = window (acc s) -> (clock (acc s) <= clock (acc s'))%nat ->
  current u0 rpb s'.
Proof. intros [[Hl Hw] (u & Hu & Ho)] El Ew Hc. split; [split; congruence|]. exists u. split; [lia|done]. Qed.

(** Transactions that wait for the writers of what they read. *)
Definition waits (t : transaction) (writelock : bool) : bool :=
  tra_read_committed (tra t) && (negb (TRA_rec_version t) || writelock).

Lemma evolves_waits t t' writelock : evolves t t' -> waits t' writelock = waits t writelock.
Proof. by intros [bits ->]%evolves_same. Qed.

(** After waiting, the record as it is then. *)
Definition waited (u0 : nat) (t : transaction) (writelock : bool) (rpb : record_param) (s : state)
    (x : option step * Z * record_param * state) : Prop :=
  let '(w, st', rpb', s') := x in
  rpb_number rpb' = rpb_number rpb /\ (clock (acc s) <= clock (acc s'))%nat /\ evolves t (trans s') /\
  match w with
  | Some NotFound => idle s'
  | Some Found => False
  | Some Again => current u0 rpb' s' /\ verdict u0 t st' rpb' s'
  | None => current u0 rpb' s' /\ judged_so u0 t st' rpb' s' /\ (rpb' = rpb \/ waits t writelock = true)
  end.

(** Reading the record again, with its state. *)
Lemma reread_ok u0 t writelock rpb s s1 K st0 :
  idle s1 -> (u0 <= clock (acc s))%nat -> (clock (acc s) <= clock (acc s1))%nat -> evolves t (trans s1) ->
  (forall st2 rpb2 s2, rpb_number rpb2 = rpb_number rpb -> (clock (acc s) <= clock (acc s2))%nat -> evolves t (trans s2) ->
     current u0 rpb2 s2 -> verdict u0 t st2 rpb2 s2 -> returns (K st2 rpb2 s2) (waited u0 t writelock rpb s)) ->
  returns (let* (found, rpb2, s2) := get true rpb s1 in
    if negb found then Ret (Some NotFound, st0, rpb2, s2) else
    let* (st2, s3) := snapshot_state (rpb_transaction rpb2) s2 in K st2 rpb2 s3) (waited u0 t writelock rpb s).
Proof.
  intros Hi1 Hu Hc1 Ht1 HK. call (get_ok true rpb s1 Hi1). intros [[found r2] s2] Hw2. pose proof Hw2 as [(Hc2 & Hn2 & Hf2) Ht2].
  assert (Hts2 : evolves t (trans s2)) by (by rewrite Ht2). destruct found; cbn [negb].
  - call (snapshot_verdict u0 t r2 s2); [lia|done|]. intros [st2 s3] (Hl & Hw & Hc & Hs & Hj).
    apply HK; [done|lia|done| |done]. eapply (current_later u0 _ s2); [|done|done|done]. eapply (current_of_went u0 _ s1); [lia|exact Hw2].
  - cbn. split_and!; [done|lia|done|done].
Qed.

Lemma wait_for_writer_ok u0 t writelock st rpb s :
  current u0 rpb s -> evolves t (trans s) -> judged_so u0 t st rpb s ->
  returns (wait_for_writer writelock st rpb s) (waited u0 t writelock rpb s).
Proof.
  intros Hcur Ht Hv. pose proof Hcur as [Hh (u & Hu & Ho)]. unfold wait_for_writer. cbv zeta. apply returns_if; intros Hw0.
  2:{ cbn. split_and!; auto. }
  assert (Hrc : tra_read_committed (tra (trans s)) = true) by (apply andb_true_iff in Hw0; tauto).
  change (waits (trans s) writelock = true) in Hw0. rewrite (evolves_waits _ _ _ Ht) in Hw0.
  set (s0 := with_acc (mk_access (clock (acc s)) (window (acc s)) []) s).
  assert (Hwait : returns (TRA_wait (rpb_transaction rpb) s0) (fun '(_, s1) => idle s1 /\ (clock (acc s) <= clock (acc s1))%nat /\ evolves t (trans s1))).
  { eapply returns_mono; [apply TRA_wait_ok|]. intros [st1 s1] (Hl1 & Hw1 & Hc1 & Hs1 & _). split_and!; [done|done|].
    destruct Hs1 as [->|(_ & E & _)]; [done|]. cbn in E. congruence. }
  apply returns_if; intros E1.
  - rewrite (release_s s) by (by eapply holds_window). cbn [obind]. call Hwait. intros [st1 s1] (Hi1 & Hc1 & Hs1).
    apply reread_ok; [done|lia|done|done|]. intros st2 rpb2 s2 Hn2 Hc2 Hts2 Hcur2 [Hv2 _]. apply returns_if; intros E2.
    + apply returns_if; intros _; [done|]. cbn. split_and!; [done|done|done|done| |by right]. by intros [?|?].
    + cbn. split_and!; auto.
  - apply returns_if; intros E2.
    + rewrite (release_s s) by (by eapply holds_window). cbn [obind]. call Hwait. intros [st1 s1] (Hi1 & Hc1 & Hs1).
      apply returns_if; intros _; [done|]. apply reread_ok; [done|lia|done|done|].
      intros st2 rpb2 s2 Hn2 Hc2 Hts2 Hcur2 Hv2. cbn. split_and!; auto.
    + cbn. split_and!; auto.
Qed.

(** ** The result of the search *)

Definition chased (u0 : nat) (rpb0 : record_param) (t : transaction) (writelock : bool) (x : bool * record_param * state) : Prop :=
  let '(found, rpb, s) := x in
  rpb_number rpb = rpb_number rpb0 /\ (u0 <= clock (acc s))%nat /\ evolves t (trans s) /\
  if found then
    current u0 rpb s /\ flag_set (rpb_flags rpb) rpb_deleted = false /\
    (flag_set (rpb_flags rpb) rpb_damaged = false \/ waits t writelock = true) /\
    exists v t' st, (u0 <= v <= clock (acc s))%nat /\ evolves t t' /\ judged v t' (rpb_transaction rpb) st /\
      (st = tra_us \/ st = tra_committed)
  else idle s.

Lemma on_page_flags u rpb :
  on_page u rpb -> on_page u (set_rpb_flags (Z.land (rpb_flags rpb) (Z.lnot rpb_gc_active)) rpb).
Proof.
  intros (p & line & flags & Hp & Hl & Hg & Hf). exists p, line, flags. split_and!; [done|done|done|]. right. cbn.
  destruct Hf as [->| ->]; [done|]. by rewrite <-Z.land_assoc, Z.land_diag.
Qed.

Lemma reset_gc_active_ok u0 t st rpb s :
  current u0 rpb s -> verdict u0 t st rpb s ->
  current u0 (reset_gc_active st rpb).2 s /\ verdict u0 t (reset_gc_active st rpb).1 (reset_gc_active st rpb).2 s /\
  rpb_number (reset_gc_active st rpb).2 = rpb_number rpb.
Proof.
  intros Hc Hv. unfold reset_gc_active. destruct (flag_set _ _); [|done]. destruct (_ || _); [|done]. cbn. split_and!; [|split; [by intros [?|?]|done]|done].
  destruct Hc as [Hh (u & Hu & Ho)]. split; [done|]. exists u. split; [done|]. by apply on_page_flags.
Qed.

Lemma next_state_ok u0 t rpb s :
  current u0 rpb s -> evolves t (trans s) ->
  returns (next_state rpb s) (fun '(st, rpb', s') => rpb_number rpb' = rpb_number rpb /\ (clock (acc s) <= clock (acc s'))%nat /\
    evolves t (trans s') /\ current u0 rpb' s' /\ verdict u0 t st rpb' s').
Proof.
  intros Hc Ht. unfold next_state. pose proof Hc as [_ (u & Hu & _)]. call (snapshot_verdict u0 t rpb s); [lia|done|].
  intros [st s'] (Hl & Hw & Hc' & Hs & Hj). assert (Hcur : current u0 rpb s') by (by eapply current_later).
  destruct (flag_set (rpb_flags rpb) rpb_chained); [cbn; auto|].
  destruct (reset_gc_active_ok u0 t st rpb s' Hcur Hj) as (H1 & H2 & H3). destruct (reset_gc_active st rpb) as [st' rpb']. cbn in *. auto.
Qed.

Lemma chase_loop_ok fuel writelock u0 rpb0 t st rpb s :
  current u0 rpb s -> evolves t (trans s) -> verdict u0 t st rpb s -> rpb_number rpb = rpb_number rpb0 ->
  returns (chase_loop fuel writelock st rpb s) (chased u0 rpb0 t writelock).
Proof.
  revert st rpb s. induction fuel as [|fuel IH]; intros st rpb s Hcur Ht Hv Hn; cbn [chase_loop]; [done|].
  pose proof Hcur as [Hh (u & Hu & Ho)]. apply returns_if; intros Hdam.
  { rewrite (release_s s) by (by eapply holds_window). cbn. split_and!; [done|lia|done|done]. }
  call (limbo_wait_ok u0 t st rpb s); [lia|done|done|]. intros [st1 s1] (Hl1 & Hw1 & Hc1 & Hs1 & Hv1).
  assert (Hcur1 : current u0 rpb s1) by (by eapply current_later).
  call (wait_for_writer_ok u0 t writelock st1 rpb s1 Hcur1 Hs1 Hv1). intros [[[w st2] rpb2] s2] (Hn2 & Hc2 & Hs2 & Hw2).
  destruct w as [[| |]|]; [done| | |].
  - cbn. split_and!; [congruence|lia|done|done].
  - destruct Hw2 as (Hcur2 & Hv2). apply IH; [done|done|done|congruence].
  - destruct Hw2 as (Hcur2 & Hv2 & Hsame). call (version_switch_ok fuel u0 st2 rpb2 s2 Hcur2). intros [[r rpb3] s3] [(Hn3 & Hc3 & Hs3 & Hr) Hfound].
    assert (Hs23 : evolves t (trans s3)) by (by eapply evolves_trans). destruct r.
    + destruct Hr as (-> & -> & Hdel). cbn. split_and!; [congruence|lia|done|done|done| |].
      * destruct Hsame as [->|Hsame]; auto.
      * specialize (Hfound eq_refl). destruct Hv2 as (v & t' & Hvv & Htt & Hj); [tauto|]. exists v, t', st2. split_and!; [lia|lia|done|done|done].
    + cbn. split_and!; [congruence|lia|done|done].
    + call (next_state_ok u0 t rpb3 s3 Hr Hs23). intros [[st4 rpb4] s4] (Hn4 & Hc4 & Hs4 & Hcur4 & Hv4). apply IH; [done|done|done|congruence].
Qed.

Lemma flag_set_sub f m m' : Z.land m' m = m' -> flag_set f m = false -> flag_set f m' = false.
Proof.
  unfold flag_set. intros Hm Hf. destruct (Z.eqb_spec (Z.land f m) 0) as [E|]; [|done]. destruct (Z.eqb_spec (Z.land f m') 0) as [|E']; [done|].
  destruct E'. rewrite <-Hm, (Z.land_comm m'), Z.land_assoc, E. apply Z.land_0_l.
Qed.

Lemma chase_ok fuel writelock rpb s :
  current (clock (acc s)) rpb s ->
  returns (VIO_chase_record_version fuel writelock rpb s) (chased (clock (acc s)) rpb (trans s) writelock).
Proof.
  intros Hcur. set (u0 := clock (acc s)) in *. unfold VIO_chase_record_version.
  call (snapshot_verdict u0 (trans s) rpb s); [done|done|]. intros [st s'] (Hl & Hw & Hc & Hs & Hv).
  assert (Hcur' : current u0 rpb s') by (by eapply current_later).
  destruct (reset_gc_active_ok u0 (trans s) st rpb s' Hcur' Hv) as (H1 & H2 & H3). destruct (reset_gc_active st rpb) as [st' rpb']. cbn [fst snd] in *.
  apply returns_if; intros Hfast; [|by apply chase_loop_ok].
  apply andb_true_iff in Hfast as [Hfast _]. apply andb_true_iff in Hfast as [Hst Hfl]. apply negb_true_iff in Hfl.
  assert (Hst' : st' = tra_committed \/ st' = tra_us) by (apply orb_true_iff in Hst as [E|E]; apply Z.eqb_eq in E; auto).
  destruct (proj1 H2 Hst') as (v & t' & Hvv & Htt & Hj). cbn. split_and!; [done|lia|done|done| | |].
  - by apply (flag_set_sub _ (rpb_deleted + rpb_damaged)).
  - left. by apply (flag_set_sub _ (rpb_deleted + rpb_damaged)).
  - exists v, t', st'. split_and!; [lia|lia|done|done|tauto].
Qed.

End VioVisible.

End VioVisible.
