(* ===== verification/VioIsolation.v ===== *)
(** * Isolation of readers ([jrd/vio.cpp], [jrd/tra.cpp])

    What the snapshot of a transaction says of the writer of a version, in
    terms of the inventory pages when it was taken, while outcomes of
    transactions that were in limbo are written into it. *)

From S2P Require Import Prelude.
From S2P Require Import Sqz.
From S2P Require Import TipCache.
From S2P Require Import DataPage.
From S2P Require Import Dpm.
From S2P Require Import Vio.
From S2P Require Import VioVisible.
From stdpp Require Import list gmap.
#[local] Open Scope Z_scope.

Module VioIsolation.
Import Sqz TipCache DataPage Dpm Vio VioVisible.

Section VioIsolation.
Context `{DB : Database} `{FM : Formats} `{CL : Cleanup}.

(** ** The snapshot *)

(** The snapshot shows the states of [db0], except for transactions that were
    in limbo then. *)
Definition shows (db0 : dbb) (t : transaction) : Prop :=
  let base := Z.land (tra_oldest (tra t)) (Z.lnot TRA_MASK) in
  let bits := tra_transactions (tra t) in
  forall n, tra_oldest (tra t) <= n < tra_top (tra t) ->
    (exists b, bits !! Z.to_nat ((n - base) / 4) = Some b /\ is_uchar b) /\
    (page_bits bits (n - base) = page_state db0 n \/ page_state db0 n = tra_limbo).

(** A transaction that reads by a snapshot. *)
Record snapshot_reader (t : transaction) : Prop := {
  sr_mode : tra_read_committed (tra t) = false;
  sr_user : tra_system (tra t) = false;
  sr_oldest : 0 <= tra_oldest (tra t) <= tra_top (tra t);
  sr_top : tra_top (tra t) < 2147483648;
  sr_number : tra_number (tra t) = tra_top (tra t)
}.

Lemma base_bounds n : 0 <= n -> 0 <= Z.land n (Z.lnot TRA_MASK) <= n /\ Z.land n (Z.lnot TRA_MASK) mod 4 = 0.
Proof. intros H. rewrite mask_base. Z.to_euclidean_division_equations; lia. Qed.

Lemma TRA_state_shown db0 t n :
  snapshot_reader t -> shows db0 t -> tra_oldest (tra t) <= n < tra_top (tra t) ->
  TRA_state (tra_transactions (tra t)) (tra_oldest (tra t)) n
  = Ret (page_bits (tra_transactions (tra t)) (n - Z.land (tra_oldest (tra t)) (Z.lnot TRA_MASK))).
Proof.
  intros [Hrc Hsys Ho Ht Hn] Hs Hr. destruct (Hs n Hr) as [(b & Hb & Hu) _]. pose proof (base_bounds _ (proj1 Ho)) as [Hb0 Hb4].
  unfold TRA_state. set (base := Z.land (tra_oldest (tra t)) _) in *. rewrite offset_div.
  assert (E : ULONG (n - base) = n - base) by (apply wrap_u_small; lia). rewrite E.
  rewrite (byte_at_lookup _ _ b); [|apply Z.div_pos; lia|done]. cbn [obind]. unfold page_bits. rewrite Hb.
  do 2 f_equal. apply shift_congruent. Z.to_euclidean_division_equations; lia.
Qed.

(** What the snapshot says, by the number of the other transaction. *)
Lemma says_cases db0 v t n st :
  snapshot_reader t -> shows db0 t -> says v t n st ->
  st = tra_precommitted \/ (n = tra_number (tra t) /\ st = tra_us) \/
  (st = tra_committed /\ (n < tra_oldest (tra t) \/ n = 0 \/ n ∈ tra_commit_sub_trans (tra t))) \/
  st = tra_active \/
  (tra_oldest (tra t) <= n < tra_top (tra t) /\ st = page_bits (tra_transactions (tra t)) (n - Z.land (tra_oldest (tra t)) (Z.lnot TRA_MASK))).
Proof.
  intros Hr Hs [db E]. pose proof Hr as [Hrc Hsys Ho Ht Hn]. unfold TRA_snapshot_state in E.
  destruct (negb (n =? 0) && _); [injection E as <- _; by left|].
  destruct (Z.eqb_spec n (tra_number (tra t))) as [->|Hne]; [injection E as <- _; right; by left|].
  destruct (Z.ltb_spec n (tra_oldest (tra t))) as [Hlt|Hge]; [injection E as <- _; right; right; left; auto|].
  destruct (Z.eqb_spec n 0) as [->|Hn0]; [injection E as <- _; right; right; left; auto|].
  rewrite Hrc, Hsys in E. destruct (bool_decide_reflect (n ∈ tra_commit_sub_trans (tra t))) as [Hsub|_]; [injection E as <- _; right; right; left; auto|].
  destruct (Z.ltb_spec (tra_top (tra t)) n) as [Hab|Hbe]; [injection E as <- _; right; right; right; by left|].
  do 4 right. assert (Hrange : tra_oldest (tra t) <= n < tra_top (tra t)) by lia. split; [done|].
  rewrite (TRA_state_shown db0) in E by done. cbn in E. by injection E.
Qed.

(** What is decided later was in limbo. *)
Lemma decided_shows db0 v t n st t' :
  snapshot_reader t -> shows db0 t -> says v t n tra_limbo -> decided t n st t' ->
  snapshot_reader t' /\ shows db0 t' /\ tra_number (tra t') = tra_number (tra t) /\ tra_oldest (tra t') = tra_oldest (tra t) /\
  tra_top (tra t') = tra_top (tra t) /\ tra_commit_sub_trans (tra t') = tra_commit_sub_trans (tra t).
Proof.
  intros Hr Hs Hsay (Htop & _ & Hst & b & Hb & ->). pose proof Hr as [Hrc Hsys Ho Ht Hn].
  split; [split; cbn; done|]. split; [|done].
  destruct (says_cases _ _ _ _ _ Hr Hs Hsay) as [?|[[_ ?]|[[? _]|[?|[Hrange Hlim]]]]]; [done..|].
  pose proof (base_bounds _ (proj1 Ho)) as [Hb0 Hb4].
  intros m Hm. cbn [tra set_tra_transactions tra_oldest tra_top tra_transactions] in *.
  set (base := Z.land (tra_oldest (tra t)) (Z.lnot TRA_MASK)) in *.
  destruct (Hs n Hrange) as [(b' & Hb' & Hu') Hp]. fold base in Hb', Hp.
  assert (Hpn : page_state db0 n = tra_limbo) by (destruct Hp as [E|E]; congruence).
  assert (Ebyte : ULONG (TRANS_OFFSET (n - base)) = (n - base) / 4).
  { rewrite offset_div. apply wrap_u_small. Z.to_euclidean_division_equations; lia. }
  rewrite Ebyte in *. rewrite (byte_at_lookup _ _ b') in Hb; [|apply Z.div_pos; lia|done]. injection Hb as <-.
  assert (Esh : TRANS_SHIFT n = TRANS_SHIFT (n - base)) by (apply shift_congruent; Z.to_euclidean_division_equations; lia).
  rewrite Esh. destruct (Hs m Hm) as [(c & Hc & Huc) Hpm]. fold base in Hc, Hpm. split.
  - destruct (decide (Z.to_nat ((m - base) / 4) = Z.to_nat ((n - base) / 4))) as [E|E].
    + rewrite E. unfold set_byte. rewrite list_lookup_insert_eq by (by eapply lookup_lt_Some). eexists. split; [done|]. apply UCHAR_range.
    + unfold set_byte. rewrite list_lookup_insert_ne by done. eauto.
  - rewrite (page_bits_set _ (n - base) st (m - base) b') by (done || lia).
    destruct (Z.eqb_spec (m - base) (n - base)) as [E|E]; [|done]. right. by replace m with n by lia.
Qed.

Lemma evolves_shows db0 t t' :
  snapshot_reader t -> shows db0 t -> evolves t t' ->
  snapshot_reader t' /\ shows db0 t' /\ tra_number (tra t') = tra_number (tra t) /\ tra_oldest (tra t') = tra_oldest (tra t) /\
  tra_top (tra t') = tra_top (tra t) /\ tra_commit_sub_trans (tra t') = tra_commit_sub_trans (tra t).
Proof.
  intros Hr Hs He. induction He as [|t1 t2 n st v He IH Hsay Hd]; [done|]. destruct IH as (Hr1 & Hs1 & E1 & E2 & E3 & E4).
  destruct (decided_shows db0 v t1 n st t2 Hr1 Hs1 Hsay Hd) as (Hr2 & Hs2 & F1 & F2 & F3 & F4). split_and!; (done || congruence).
Qed.

(** The snapshot [TRA_get_inventory] fills shows the pages. *)
Lemma inventory_shows db0 db1 t :
  wf db0 -> cache_ok db0 -> snapshot_reader t -> tra_top (tra t) <= hdr_next_transaction db0 ->
  TRA_get_inventory true (Z.land (tra_oldest (tra t)) (Z.lnot TRA_MASK)) (tra_top (tra t)) db0 = Ret (tra_transactions (tra t), db1) ->
  shows db0 t.
Proof.
  intros Hwf Hok [Hrc Hsys Ho Ht Hn] Hnext E. pose proof (base_bounds _ (proj1 Ho)) as [Hb0 Hb4].
  set (base := Z.land (tra_oldest (tra t)) (Z.lnot TRA_MASK)) in *.
  destruct (TRA_get_inventory_covers base (tra_top (tra t)) db0 Hwf Hok ltac:(lia) Hb4 Hnext) as (bits & c & E' & Hcov).
  rewrite E in E'. injection E' as <- _. intros n Hr. fold base. destruct (page_index db0 n Hwf ltac:(lia)) as (b & Hb & Hu & Eb).
  pose proof (Hcov n ltac:(lia)) as Hl. rewrite Hb in Hl. split; [by exists b|]. left. unfold page_bits. rewrite Hl, Eb.
  f_equal. apply shift_congruent. Z.to_euclidean_division_equations; lia.
Qed.

End VioIsolation.

End VioIsolation.
