(* ===== verification/VioQuiet.v ===== *)
(** * What a reader gets when nothing changes ([jrd/vio.cpp])

    While the database stays as it is, the search through the versions of a
    record, with its latches, its re-fetching and its one record block, comes
    to the version a simple scan of the chain of versions finds, with the data
    that version had. *)

From S2P Require Import Prelude.
From S2P Require Import Sqz.
From S2P Require Import TipCache.
From S2P Require Import DataPage.
From S2P Require Import Dpm.
From S2P Require Import Vio.
From S2P Require Import VioVisible.
From stdpp Require Import list gmap.
#[local] Open Scope Z_scope.

Module VioQuiet.
Import Sqz TipCache DataPage Dpm Vio VioVisible.

(** ** Versions *)

(** The record parameters once a header [v] has been read into them. *)
Definition fill (page line : Z) (v rpb : record_param) : record_param :=
  let frag := flag_set (rpb_flags v) rpb_fragment in
  let inc := flag_set (rpb_flags v) rpb_incomplete in
  mk_rpb (rpb_number rpb) (if frag then rpb_transaction rpb else rpb_transaction v) (rpb_record rpb) (rpb_prior rpb)
    (if frag then rpb_format_number rpb else rpb_format_number v) page (USHORT line)
    (if inc then rpb_f_page v else rpb_f_page rpb) (if inc then rpb_f_line v else rpb_f_line rpb)
    (if frag then rpb_b_page rpb else rpb_b_page v) (if frag then rpb_b_line rpb else rpb_b_line v)
    (rpb_address v) (rpb_flags v).

(** The line holds the header [v]. *)
Definition reads_as (m : moment) (page line : Z) (v : record_param) : Prop :=
  0 <= line < 65536 /\
  exists p, data_pages m !! page = Some p /\ forall rpb, get_header page line p rpb = Ret (true, fill page line v rpb).

Definition is_whole (v : record_param) : Prop :=
  flag_set (rpb_flags v) rpb_fragment = false /\ flag_set (rpb_flags v) rpb_damaged = false /\
  flag_set (rpb_flags v) rpb_gc_active = false.

(** The versions of a record, newest first. *)
Inductive version_chain (m : moment) : Z -> Z -> list record_param -> Prop :=
  | chain_last page line v :
      reads_as m page line v -> is_whole v -> rpb_b_page v = 0 -> version_chain m page line [v]
  | chain_next page line v vs :
      reads_as m page line v -> is_whole v -> rpb_b_page v <> 0 ->
      version_chain m (rpb_b_page v) (rpb_b_line v) vs -> version_chain m page line (v :: vs).

Definition decodes_to (address data : list Z) : Prop :=
  forall room, SQZ_decompress (map SCHAR address) room = if room <? Z.of_nat (length data) then Throw (BUGCHECK 179) else Ret data.

(** What is stored of a version, in [n] fragments at most. *)
Inductive stored_as (m : moment) : nat -> record_param -> list Z -> Prop :=
  | stored_whole n v data : flag_set (rpb_flags v) rpb_incomplete = false -> decodes_to (rpb_address v) data -> stored_as m (S n) v data
  | stored_more n v out v' rest :
      flag_set (rpb_flags v) rpb_incomplete = true -> decodes_to (rpb_address v) out ->
      reads_as m (rpb_f_page v) (rpb_f_line v) v' -> flag_set (rpb_flags v') rpb_fragment = true ->
      stored_as m n v' rest -> stored_as m (S n) v (out ++ rest).

(** [differences] turn [newer] into [data], at the start of any buffer that is
    large enough. *)
Definition turns (differences newer data : list Z) : Prop :=
  Z.of_nat (length differences) <= MAX_DIFFERENCES /\
  forall buf, take (length newer) buf = newer -> (length newer <= length buf)%nat -> (length data <= length buf)%nat ->
    Z.of_nat (length buf) < 65536 ->
    SQZ_apply_differences buf differences = Ret (data ++ drop (length data) buf, Z.of_nat (length data)).

(** The data of a version: stored, or as differences to the data of the next
    newer one. *)
Definition version_data (m : moment) (n : nat) (newer : option (list Z)) (v : record_param) (data : list Z) : Prop :=
  match newer with
  | None => stored_as m n v data
  | Some d => exists differences, stored_as m n v differences /\ turns differences d data
  end.

Definition is_delta (v : record_param) : bool := flag_set (rpb_flags v) rpb_delta.
Definition is_deleted (v : record_param) : bool := flag_set (rpb_flags v) rpb_deleted.

(** Versions and their data; a deleted version has none, unless older ones
    depend on it. *)
Inductive chain_data `{FM : Formats} (m : moment) (n : nat) : option (list Z) -> list record_param -> list (list Z) -> Prop :=
  | data_nil newer : chain_data m n newer [] []
  | data_cons newer v vs data ds :
      (is_deleted v = false \/ is_delta v = true -> version_data m n newer v data /\ Z.of_nat (length data) = fmt_length (rpb_format_number v)) ->
      chain_data m n (if is_delta v then Some data else None) vs ds -> chain_data m n newer (v :: vs) (data :: ds).

(** The version a transaction sees, by its place in the chain. *)
Fixpoint visible (judge : Z -> Z) (vs : list record_param) : option nat :=
  match vs with
  | [] => None
  | v :: vs =>
      let st := judge (rpb_transaction v) in
      if (st =? tra_us) || (st =? tra_committed) then (if is_deleted v then None else Some 0%nat)
      else S <$> visible judge vs
  end.

(** What the transaction can do about the versions of a chain: it neither
    waits, nor cleans up, nor meets a deleted version that was rolled back
    where it holds data to apply differences to ([stale]). *)
Fixpoint passable (t : transaction) (judge : Z -> Z) (stale : bool) (vs : list record_param) : Prop :=
  match vs with
  | [] => True
  | v :: vs =>
      let st := judge (rpb_transaction v) in
      let gone := (st =? tra_dead) || (st =? tra_precommitted) in
      (gone = true \/ st = tra_active \/ (st = tra_limbo /\ TRA_ignore_limbo t = true) \/ st = tra_us \/ st = tra_committed) /\
      (ATT_no_cleanup t = true \/ (gone = false /\ (st = tra_committed -> tra_oldest_active t <= rpb_transaction v))) /\
      (stale = true -> gone = true -> is_deleted v = true -> is_delta v = true) /\
      passable t judge (is_delta v) vs
  end.

Section VioQuiet.
Context `{DB : Database} `{FM : Formats} `{CL : Cleanup}.

(** Nothing changes, and no page has to be waited for too long. *)
Variable m : moment.
Hypothesis quiet : forall u, at_moment u = m.
Hypothesis no_timeout : forall page, timeout m page = false.

(** ** Pages *)

Definition on (page : Z) (a : access) : Prop := latches a = [page] /\ window a = page.

Lemma fetch_quiet rpb a v :
  latches a = [] -> reads_as m (rpb_page rpb) (rpb_line rpb) v ->
  exists a', DPM_fetch rpb a = Ret (true, fill (rpb_page rpb) (rpb_line rpb) v rpb, a') /\ on (rpb_page rpb) a'.
Proof.
  intros E [Hl (p & Hp & Hg)]. unfold DPM_fetch, win_buffer. cbn. rewrite quiet, Hp. cbn [obind]. rewrite Hg. cbn.
  eexists. split; [done|]. unfold on. cbn. by rewrite E.
Qed.

Lemma handoff_quiet read page a : latches a = [window a] -> exists a', CCH_HANDOFF read page a = Ret (true, a') /\ on page a'.
Proof.
  intros E. unfold CCH_HANDOFF. rewrite quiet, no_timeout, E. cbn [unlatch]. destruct (Z.eqb_spec (window a) page) as [<-|Hne]; cbn [andb].
  - destruct read; [by exists a|]. rewrite Z.eqb_refl. by eexists.
  - rewrite (proj2 (Z.eqb_neq _ _)) by congruence. rewrite Z.eqb_refl. by eexists.
Qed.

Lemma fetch_back_quiet rpb a v :
  latches a = [window a] -> reads_as m (rpb_b_page rpb) (rpb_b_line rpb) v ->
  exists a', DPM_fetch_back rpb a = Ret (true, fill (rpb_b_page rpb) (rpb_b_line rpb) v rpb, a') /\ on (rpb_b_page rpb) a'.
Proof.
  intros E [Hl (p & Hp & Hg)]. unfold DPM_fetch_back. destruct (handoff_quiet true (rpb_b_page rpb) a E) as (a' & -> & Ho). cbn [obind negb].
  unfold win_buffer. destruct Ho as [Ho1 Ho2]. rewrite quiet, Ho2, Hp. cbn [obind]. rewrite Hg. cbn [obind negb]. eexists. split; [|done].
  reflexivity.
Qed.

Lemma fetch_fragment_quiet rpb a v :
  latches a = [window a] -> reads_as m (rpb_f_page rpb) (rpb_f_line rpb) v ->
  exists a', DPM_fetch_fragment rpb a = Ret (fill (rpb_f_page rpb) (rpb_f_line rpb) v rpb, a') /\ on (rpb_f_page rpb) a'.
Proof.
  intros E [Hl (p & Hp & Hg)]. unfold DPM_fetch_fragment. destruct (handoff_quiet true (rpb_f_page rpb) a E) as (a' & Eh & Ho). cbn [rpb_page set_rpb_place].
  rewrite Eh. cbn [obind negb]. unfold win_buffer. destruct Ho as [Ho1 Ho2]. rewrite quiet, Ho2, Hp. cbn [obind]. rewrite Hg. cbn [obind negb].
  eexists. split; [|done]. reflexivity.
Qed.

(** ** Data *)

(** The record parameters show the version [v], up to where the record is and
    what is in the blocks. *)
Definition shows_version (page line : Z) (v rpb : record_param) : Prop :=
  rpb_page rpb = page /\ rpb_line rpb = line /\ rpb_transaction rpb = rpb_transaction v /\
  rpb_format_number rpb = rpb_format_number v /\ rpb_b_page rpb = rpb_b_page v /\ rpb_b_line rpb = rpb_b_line v /\
  rpb_address rpb = rpb_address v /\ rpb_flags rpb = rpb_flags v /\
  (flag_set (rpb_flags v) rpb_incomplete = true -> rpb_f_page rpb = rpb_f_page v /\ rpb_f_line rpb = rpb_f_line v).

Lemma shows_fill page line v rpb :
  0 <= line < 65536 -> flag_set (rpb_flags v) rpb_fragment = false -> shows_version page line v (fill page line v rpb).
Proof.
  intros Hl Hf. unfold shows_version, fill. cbn. rewrite Hf, USHORT_small by done. split_and!; try done. by intros ->.
Qed.

(** What the fragments after the first give. *)
Lemma fragments_quiet n v rest rpb a fuel room :
  stored_as m n v rest -> flag_set (rpb_flags v) rpb_fragment = true -> rpb_address rpb = rpb_address v -> rpb_flags rpb = rpb_flags v ->
  (flag_set (rpb_flags v) rpb_incomplete = true -> rpb_f_page rpb = rpb_f_page v /\ rpb_f_line rpb = rpb_f_line v) ->
  latches a = [window a] -> (n <= fuel)%nat -> Z.of_nat (length rest) <= room ->
  exists rpb' a', (let* out := SQZ_decompress (map SCHAR (rpb_address rpb)) room in
     let* (more, rpb, a) := fragments fuel rpb (room - Z.of_nat (length out)) a in Ret (out ++ more, rpb, a)) = Ret (rest, rpb', a') /\
    latches a' = [window a'] /\
    rpb_transaction rpb' = rpb_transaction rpb /\ rpb_format_number rpb' = rpb_format_number rpb /\ rpb_number rpb' = rpb_number rpb /\
    rpb_record rpb' = rpb_record rpb /\ rpb_prior rpb' = rpb_prior rpb.
Proof.
  intros Hs. revert rpb a fuel room. induction Hs as [n v data Hi Hd|n v out v' rest Hi Hd Hr Hfr Hs IH]; intros rpb a fuel room Hf Ea Efl Hfp El Hfu Hroom.
  - rewrite Ea, Hd. rewrite (proj2 (Z.ltb_ge _ _)) by done. cbn [obind]. destruct fuel as [|fuel]; [lia|]. cbn [fragments].
    rewrite Efl, Hi. cbn. rewrite app_nil_r. do 2 eexists. split; [done|]. done.
  - rewrite length_app in Hroom. rewrite Ea, Hd. rewrite (proj2 (Z.ltb_ge _ _)) by lia. cbn [obind]. destruct fuel as [|fuel]; [lia|]. cbn [fragments].
    rewrite Efl, Hi. destruct (Hfp Hi) as [E1 E2]. rewrite <-E1, <-E2 in Hr. destruct (fetch_fragment_quiet rpb a v' El Hr) as (a1 & -> & Ho). cbn [obind].
    destruct Ho as [Ho1 Ho2].
    destruct (IH (fill (rpb_f_page rpb) (rpb_f_line rpb) v' rpb) a1 fuel (room - Z.of_nat (length out))) as (rpb' & a' & E & El' & E3 & E4 & E5 & E6 & E7).
    + done.
    + done.
    + done.
    + unfold fill. cbn. by intros ->.
    + by rewrite Ho2.
    + lia.
    + lia.
    + rewrite E. cbn [obind]. do 2 eexists. split; [done|]. split; [done|]. unfold fill in *. cbn in *. rewrite Hfr in *. done.
Qed.

(** The record block, if there is one; it holds the newer version's data where
    those are needed. *)
Definition block_ok (rpb : record_param) (s : state) : Prop :=
  match rpb_record rpb with None => True | Some r => exists x, records s !! r = Some x /\ rec_length x < 65536 end.

Definition starts_with (x : rec) (d : list Z) : Prop :=
  take (length d) (rec_data x) = d /\ Z.of_nat (length d) <= rec_length x.

Definition base_ok (newer : option (list Z)) (rpb : record_param) (s : state) : Prop :=
  match newer with
  | None => rpb_prior rpb = None
  | Some d => exists r x, rpb_prior rpb = Some r /\ rpb_record rpb = Some r /\ records s !! r = Some x /\ starts_with x d
  end.

(** Fields that reading data leaves alone. *)
Definition same_header (rpb rpb' : record_param) : Prop :=
  rpb_number rpb' = rpb_number rpb /\ rpb_transaction rpb' = rpb_transaction rpb /\ rpb_format_number rpb' = rpb_format_number rpb /\
  rpb_b_page rpb' = rpb_b_page rpb /\ rpb_b_line rpb' = rpb_b_line rpb.
Definition same_place (rpb rpb' : record_param) : Prop :=
  rpb_page rpb' = rpb_page rpb /\ rpb_line rpb' = rpb_line rpb /\ rpb_f_page rpb' = rpb_f_page rpb /\ rpb_f_line rpb' = rpb_f_line rpb /\
  rpb_address rpb' = rpb_address rpb /\ rpb_flags rpb' = rpb_flags rpb.

Lemma starts_with_app d bs more format : starts_with (mk_rec format bs) d -> starts_with (mk_rec format (bs ++ more)) d.
Proof.
  unfold starts_with, rec_length. cbn. intros [H1 H2]. split; [by rewrite take_app_le by lia|]. rewrite length_app. lia.
Qed.

Lemma VIO_record_quiet newer rpb s :
  block_ok rpb s -> base_ok newer rpb s -> 0 <= fmt_length (rpb_format_number rpb) < 65536 ->
  exists r rpb' s' x, VIO_record rpb s = Ret (r, rpb', s') /\ same_header rpb rpb' /\ same_place rpb rpb' /\
    acc s' = acc s /\ trans s' = trans s /\ rpb_record rpb' = Some r /\ records s' !! r = Some x /\
    fmt_length (rpb_format_number rpb) <= rec_length x < 65536 /\
    match newer with None => rpb_prior rpb' = None | Some d => rpb_prior rpb' = Some r /\ starts_with x d end.
Proof.
  intros Hb Hbase Hf. unfold VIO_record, block_ok, base_ok in *. destruct (rpb_record rpb) as [old|] eqn:Er.
  - destruct Hb as (x & Hx & Hlx). rewrite Hx. destruct (Z.ltb_spec (rec_length x) (fmt_length (rpb_format_number rpb))) as [Hlt|Hge].
    + unfold new_rec. set (r := fresh (dom (records s))).
      set (x' := mk_rec (rpb_format_number rpb) (rec_data x ++ map (fresh_byte r) (seq (length (rec_data x)) (Z.to_nat (fmt_length (rpb_format_number rpb)) - length (rec_data x))))).
      assert (Hlen : rec_length x' = fmt_length (rpb_format_number rpb)).
      { unfold rec_length, x' in *. cbn. rewrite length_app, length_map, length_seq. lia. }
      assert (Hne : old <> r).
      { intros ->. apply (is_fresh (dom (records s))). fold r. by apply elem_of_dom_2 with x. }
      exists r. eexists. eexists. exists x'. split; [reflexivity|]. unfold same_header, same_place. cbn.
      split; [by destruct (bool_decide _)|]. split; [by destruct (bool_decide _)|]. split; [done|]. split; [done|].
      split; [by destruct (bool_decide _)|]. split; [by rewrite lookup_delete_ne, lookup_insert_eq|]. split; [lia|].
      destruct newer as [d|].
      * destruct Hbase as (r0 & x0 & Hp & Hr0 & Hx0 & Hd). injection Hr0 as <-. rewrite bool_decide_true by done. cbn. split; [done|].
        assert (x0 = x) as -> by congruence. destruct x. by apply starts_with_app.
      * rewrite bool_decide_false by (by rewrite Hbase). done.
    + exists old, rpb. eexists. exists (mk_rec (rpb_format_number rpb) (rec_data x)). split; [reflexivity|].
      unfold same_header, same_place. cbn. rewrite lookup_insert_eq. unfold rec_length in *. cbn. split_and!; try done.
      destruct newer as [d|]; [|done]. destruct Hbase as (r0 & x0 & Hp & Hr0 & Hx0 & Hd). split; [congruence|].
      assert (x0 = x) as -> by congruence. exact Hd.
  - destruct newer as [d|]; [by destruct Hbase as (r0 & x0 & _ & ? & _)|].
    unfold new_rec. set (r := fresh (dom (records s))). eexists r, _, _, _. split; [reflexivity|].
    unfold same_header, same_place. cbn. rewrite lookup_insert_eq. split_and!; try done.
    + unfold rec_length. cbn. rewrite length_map, length_seq. lia.
    + unfold rec_length. cbn. rewrite length_map, length_seq. lia.
Qed.

(** After reading data. *)
Definition data_read (v : record_param) (data : list Z) (rpb : record_param) (s : state) (x : record_param * state) : Prop :=
  let '(rpb', s') := x in
  latches (acc s') = [] /\ trans s' = trans s /\ same_header rpb rpb' /\ rpb_address rpb' = map UCHAR data /\
  (flag_set (rpb_flags v) rpb_incomplete = false -> rpb_f_page rpb' = rpb_f_page rpb /\ rpb_f_line rpb' = rpb_f_line rpb) /\
  exists r x, rpb_record rpb' = Some r /\ records s' !! r = Some x /\ starts_with x data /\ rec_length x < 65536 /\
    rpb_prior rpb' = if back_version_is_delta v then Some r else None.

Lemma stored_data_quiet n v data rpb a fuel room :
  stored_as m n v data -> flag_set (rpb_flags v) rpb_fragment = false -> rpb_address rpb = rpb_address v -> rpb_flags rpb = rpb_flags v ->
  (flag_set (rpb_flags v) rpb_incomplete = true -> rpb_f_page rpb = rpb_f_page v /\ rpb_f_line rpb = rpb_f_line v) ->
  latches a = [window a] -> (n <= fuel)%nat -> Z.of_nat (length data) <= room ->
  exists rpb' a', stored_data fuel rpb room a = Ret (data, rpb', a') /\ latches a' = [window a'] /\ same_header rpb rpb' /\
    rpb_record rpb' = rpb_record rpb /\ rpb_prior rpb' = rpb_prior rpb /\
    (flag_set (rpb_flags v) rpb_incomplete = false -> rpb_f_page rpb' = rpb_f_page rpb /\ rpb_f_line rpb' = rpb_f_line rpb).
Proof.
  intros Hs Hfr Ea Efl Hfp El Hfu Hroom. unfold stored_data. destruct Hs as [n v data Hi Hd|n v out v' rest Hi Hd Hr Hfr' Hs].
  - rewrite Ea, Hd. rewrite (proj2 (Z.ltb_ge _ _)) by done. cbn [obind]. rewrite Efl, Hi. exists rpb, a. done.
  - rewrite length_app in Hroom. rewrite Ea, Hd. rewrite (proj2 (Z.ltb_ge _ _)) by lia. cbn [obind]. rewrite Efl, Hi.
    destruct fuel as [|fuel]; [lia|]. cbn [fragments]. rewrite Efl, Hi. destruct (Hfp Hi) as [E1 E2]. rewrite <-E1, <-E2 in Hr.
    destruct (fetch_fragment_quiet rpb a v' El Hr) as (a1 & -> & Ho1 & Ho2). cbn [obind].
    destruct (fragments_quiet n v' rest (fill (rpb_f_page rpb) (rpb_f_line rpb) v' rpb) a1 fuel (room - Z.of_nat (length out)) Hs Hfr')
      as (rpb' & a' & E & El' & E3 & E4 & E5 & E6 & E7).
    + done.
    + done.
    + unfold fill. cbn. by intros ->.
    + by rewrite Ho2.
    + lia.
    + lia.
    + rewrite E. cbn [obind]. do 2 eexists. split; [done|]. split; [done|]. unfold fill in E3, E4, E5, E6, E7. cbn in E3, E4, E5, E6, E7. rewrite Hfr' in *.
      unfold same_header. cbn. split_and!; (done || (by rewrite Hi)).
Qed.

Lemma VIO_data_quiet n newer v data page line rpb s fuel :
  on page (acc s) -> shows_version page line v rpb -> is_whole v -> block_ok rpb s -> base_ok newer rpb s ->
  version_data m n newer v data -> Z.of_nat (length data) = fmt_length (rpb_format_number v) -> Z.of_nat (length data) < 65536 ->
  (n <= fuel)%nat ->
  exists x, VIO_data fuel rpb s = Ret x /\ data_read v data rpb s x.
Proof.
  intros [Hl Hw] (S1 & S2 & S3 & S4 & S5 & S6 & S7 & S8 & S9) (Hfr & _ & _) Hb Hbase Hd Hlen Hsz Hfu. unfold VIO_data.
  destruct (VIO_record_quiet newer rpb s Hb Hbase) as (r & rpb1 & s1 & x & -> & Hh & Hp & Ea & Et & Er & Ex & Hfx & Hpr); [rewrite S4; lia|]. cbn [obind].
  destruct Hh as (H1 & H2 & H3 & H4 & H5). destruct Hp as (P1 & P2 & P3 & P4 & P5 & P6). rewrite S4, <-Hlen in Hfx.
  unfold rec_at at 1. rewrite Ex. cbn [obind]. rewrite H3, S4, <-Hlen.
  assert (Hbd : back_version_is_delta rpb1 = back_version_is_delta v) by (unfold back_version_is_delta; by rewrite H4, S5, P6, S8).
  rewrite Hbd. set (rpb2 := set_rpb_prior _ rpb1).
  assert (Hstored : forall room out, stored_as m n v out -> Z.of_nat (length out) <= room ->
    exists rpb' a', stored_data fuel rpb2 room (acc s1) = Ret (out, rpb', a') /\ latches a' = [window a'] /\ same_header rpb2 rpb' /\
      rpb_record rpb' = rpb_record rpb2 /\ rpb_prior rpb' = rpb_prior rpb2 /\
      (flag_set (rpb_flags v) rpb_incomplete = false -> rpb_f_page rpb' = rpb_f_page rpb2 /\ rpb_f_line rpb' = rpb_f_line rpb2)).
  { intros room out Hs Hroom. apply (stored_data_quiet n v out); try done.
    - unfold rpb2. cbn. congruence.
    - unfold rpb2. cbn. congruence.
    - intros Hi. unfold rpb2. cbn. rewrite P3, P4. auto.
    - rewrite Ea, Hw. done. }
  assert (Hfin : forall rpb' a' buf, latches a' = [window a'] -> same_header rpb2 rpb' -> rpb_record rpb' = rpb_record rpb2 -> rpb_prior rpb' = rpb_prior rpb2 ->
      (flag_set (rpb_flags v) rpb_incomplete = false -> rpb_f_page rpb' = rpb_f_page rpb2 /\ rpb_f_line rpb' = rpb_f_line rpb2) ->
      length buf = length (rec_data x) -> take (length data) buf = data ->
      data_read v data rpb s (set_rpb_address (map UCHAR (take (Z.to_nat (Z.of_nat (length data))) buf)) rpb',
         with_acc (mk_access (clock a') (window a') []) (with_records (<[r := mk_rec (rec_format x) buf]> (records s1)) s1))).
  { intros rpb' a' buf Hla (A1 & A2 & A3 & A4 & A5) Hrec Hpri Hff Hbuf Htk. unfold data_read. cbn. rewrite Nat2Z.id, Htk.
    unfold rpb2 in *. cbn in *. split_and!; try congruence; try (unfold same_header; cbn; split_and!; congruence).
    { intros Hi. destruct (Hff Hi). split; congruence. }
    exists r. eexists. split; [congruence|]. split; [apply lookup_insert_eq|]. unfold starts_with, rec_length in *. cbn. rewrite Hbuf. split_and!; [done|lia|lia|done]. }
  destruct newer as [d|].
  - destruct Hpr as [Hpr Hst]. rewrite Hpr, Nat.eqb_refl. cbn [obind]. destruct Hd as (diffs & Hs & Hdl & Hturn).
    destruct (Hstored MAX_DIFFERENCES diffs Hs Hdl) as (rpb' & a' & -> & Hla & Hsh & Hrec & Hpri & Hff). cbn [obind].
    rewrite (release_ok a' Hla). cbn [obind]. destruct Hst as [Hst1 Hst2]. unfold rec_length in *.
    rewrite (Hturn (rec_data x)) by (done || lia). cbn [obind]. rewrite Z.eqb_refl. cbn [negb].
    eexists. split; [reflexivity|]. apply Hfin; try done; [rewrite length_app, length_drop; lia|by rewrite take_app_length].
  - rewrite Hpr. cbn [obind]. destruct (Hstored (rec_length x) data Hd) as (rpb' & a' & -> & Hla & Hsh & Hrec & Hpri & Hff); [lia|]. cbn [obind].
    rewrite (release_ok a' Hla). cbn [obind]. rewrite USHORT_small by lia. rewrite Z.eqb_refl. cbn [negb]. unfold rec_length in *.
    eexists. split; [reflexivity|]. apply Hfin; try done; [rewrite length_app, length_drop; lia|by rewrite take_app_length].
Qed.

(** ** One version to the next *)

(** The search is at the version [v], with the newer version's data at hand
    where they are needed. *)
Record at_version (newer : option (list Z)) (page line : Z) (v rpb : record_param) (s : state) : Prop := {
  av_on : on page (acc s);
  av_shows : shows_version page line v rpb;
  av_block : block_ok rpb s;
  av_base : base_ok newer rpb s
}.

Lemma on_latched page a : on page a -> latches a = [window a].
Proof. by intros [-> ->]. Qed.

(** A header read into the parameters, with the same blocks. *)
Lemma at_version_fill newer page line v rpb s s' :
  reads_as m page line v -> is_whole v -> on page (acc s') -> records s' = records s -> block_ok rpb s -> base_ok newer rpb s ->
  at_version newer page line v (fill page line v rpb) s'.
Proof.
  intros [Hl _] (Hf & _ & _) Hon Hr Hb Hbase. split; [done|by apply shows_fill| |].
  - unfold block_ok in *. cbn. by rewrite Hr.
  - unfold base_ok in *. destruct newer; cbn; by rewrite ?Hr.
Qed.

Lemma to_back_quiet newer page line v v' rpb s :
  on page (acc s) -> shows_version page line v rpb -> block_ok rpb s -> base_ok newer rpb s ->
  reads_as m (rpb_b_page v) (rpb_b_line v) v' -> is_whole v' ->
  exists rpb' s', to_back_version rpb s = Ret (Again, rpb', s') /\ at_version newer (rpb_b_page v) (rpb_b_line v) v' rpb' s' /\
    trans s' = trans s /\ rpb_number rpb' = rpb_number rpb.
Proof.
  intros Hon (S1 & S2 & S3 & S4 & S5 & S6 & S7 & S8 & S9) Hb Hbase Hr Hw. rewrite <-S5, <-S6 in *. unfold to_back_version, fetch_back.
  destruct (fetch_back_quiet rpb (acc s) v' (on_latched _ _ Hon) Hr) as (a' & -> & Ho). cbn [obind].
  do 2 eexists. split; [reflexivity|]. split; [|done]. by apply (at_version_fill newer _ _ _ _ s).
Qed.

Lemma fetch_s_quiet newer page line v rpb s :
  latches (acc s) = [] -> rpb_page rpb = page -> rpb_line rpb = line -> reads_as m page line v -> is_whole v -> block_ok rpb s -> base_ok newer rpb s ->
  exists s', fetch rpb s = Ret (true, fill page line v rpb, s') /\ at_version newer page line v (fill page line v rpb) s' /\ trans s' = trans s.
Proof.
  intros E <- <- Hr Hw Hb Hbase. unfold fetch. destruct (fetch_quiet rpb (acc s) v E Hr) as (a' & -> & Ho). cbn [obind].
  eexists. split; [reflexivity|]. split; [|done]. by apply (at_version_fill newer _ _ _ _ s).
Qed.

(** What reading the data of a version leaves for the next one. *)
Lemma data_read_base v data rpb s rpb' s' :
  data_read v data rpb s (rpb', s') -> block_ok rpb' s' /\ base_ok (if back_version_is_delta v then Some data else None) rpb' s'.
Proof.
  intros (_ & _ & _ & _ & _ & r & x & Hr & Hx & Hst & Hl & Hp). split.
  - unfold block_ok. rewrite Hr. eauto.
  - unfold base_ok. destruct (back_version_is_delta v); [|done]. exists r, x. done.
Qed.

Lemma base_prior newer rpb s prior : base_ok newer rpb s -> prior = rpb_prior rpb -> base_ok newer (set_rpb_prior prior rpb) s.
Proof. intros Hb ->. unfold base_ok in *. destruct newer; exact Hb. Qed.

Section Version.
Variables (n : nat) (newer : option (list Z)) (v v' : record_param) (data : list Z) (page line : Z) (fuel : nat).
Hypothesis v_here : reads_as m page line v.
Hypothesis v_whole : is_whole v.
Hypothesis v_next : reads_as m (rpb_b_page v) (rpb_b_line v) v'.
Hypothesis v'_whole : is_whole v'.
Hypothesis v_back : rpb_b_page v <> 0.
Hypothesis v_data : is_deleted v = false \/ is_delta v = true ->
  version_data m n newer v data /\ Z.of_nat (length data) = fmt_length (rpb_format_number v).
Hypothesis v_small : Z.of_nat (length data) < 65536.
Hypothesis v_fuel : (n <= fuel)%nat.

Lemma back_delta : back_version_is_delta v = is_delta v.
Proof. unfold back_version_is_delta. by rewrite (proj2 (Z.eqb_neq _ _)). Qed.

(** Reading the data, then the page again. *)
Lemma read_and_return rpb s :
  at_version newer page line v rpb s -> is_deleted v = false \/ is_delta v = true ->
  exists rpb1 s1, VIO_data fuel rpb s = Ret (rpb1, s1) /\ data_read v data rpb s (rpb1, s1).
Proof.
  intros [Hon Hsh Hb Hbase] Hd. destruct (v_data Hd) as [Hvd Hlen].
  destruct (VIO_data_quiet n newer v data page line rpb s fuel Hon Hsh v_whole Hb Hbase Hvd Hlen v_small v_fuel) as ([rpb1 s1] & E & Hdr). eauto.
Qed.

Lemma active_quiet rpb s :
  at_version newer page line v rpb s ->
  exists rpb' s', case_active fuel rpb s = Ret (Again, rpb', s') /\
    at_version (if is_delta v then Some data else None) (rpb_b_page v) (rpb_b_line v) v' rpb' s' /\
    trans s' = trans s /\ rpb_number rpb' = rpb_number rpb.
Proof.
  intros Hav. pose proof Hav as [Hon Hsh Hb Hbase]. pose proof Hsh as (S1 & S2 & S3 & S4 & S5 & S6 & S7 & S8 & S9).
  unfold case_active. rewrite S5, (proj2 (Z.eqb_neq _ _)) by done. rewrite S8. fold (is_delta v). destruct (is_delta v) eqn:Ed in |- *; cbn [negb].
  - destruct (read_and_return rpb s Hav) as (rpb1 & s1 & -> & Hdr); [by right|]. cbn [obind]. destruct (data_read_base _ _ _ _ _ _ Hdr) as [Hb1 Hbase1].
    rewrite back_delta, Ed in Hbase1. destruct Hdr as (Hi & Ht & (A1 & A2 & A3 & A4 & A5) & Hadr & Hff & _).
    destruct (flag_set (rpb_flags v) rpb_chained).
    + rewrite S6. destruct (fetch_s_quiet (Some data) (rpb_b_page v) (rpb_b_line v) v' (set_rpb_place (rpb_b_page v) (rpb_b_line v) rpb1) s1) as (s2 & -> & Hav2 & Ht2); try done.
      cbn [obind negb]. do 2 eexists. split; [reflexivity|]. split; [exact Hav2|]. split; [congruence|done].
    + rewrite S1, S2. destruct (fetch_s_quiet (Some data) page line v (set_rpb_place page line rpb1) s1) as (s2 & -> & Hav2 & Ht2); try done.
      cbn [obind negb]. destruct v_whole as (Hfr & _ & _). unfold fill at 1 3 4 5. cbn [rpb_transaction rpb_b_page rpb_flags]. rewrite Hfr, S3, Z.eqb_refl. cbn [negb].
      rewrite (proj2 (Z.eqb_neq _ _)) by done. fold (is_delta v). rewrite Ed. cbn [negb].
      destruct Hav2 as [Hon2 Hsh2 Hb2 Hbase2].
      destruct (to_back_quiet (Some data) page line v v' _ s2 Hon2 Hsh2 Hb2 Hbase2 v_next v'_whole) as (rpb' & s' & -> & Hav' & Ht' & Hn').
      do 2 eexists. split; [reflexivity|]. split; [exact Hav'|]. split; [congruence|]. rewrite Hn'. done.
  - destruct (to_back_quiet None page line v v' (set_rpb_prior None rpb) s) as (rpb' & s' & E & Hav' & Ht' & Hn'); try done.
    rewrite E. do 2 eexists. split; [reflexivity|]. done.
Qed.

Lemma dead_quiet rpb s :
  at_version newer page line v rpb s -> (is_deleted v = true -> is_delta v = false -> newer = None) ->
  exists rpb' s', skip_dead fuel rpb s = Ret (Again, rpb', s') /\
    at_version (if is_delta v then Some data else None) (rpb_b_page v) (rpb_b_line v) v' rpb' s' /\
    trans s' = trans s /\ rpb_number rpb' = rpb_number rpb.
Proof.
  intros Hav Hstale. pose proof Hav as [Hon Hsh Hb Hbase]. pose proof Hsh as (S1 & S2 & S3 & S4 & S5 & S6 & S7 & S8 & S9).
  unfold skip_dead. rewrite S5, (proj2 (Z.eqb_neq _ _)) by done. rewrite S8. fold (is_delta v) (is_deleted v).
  destruct (negb (is_deleted v) || is_delta v) eqn:Eb in |- *.
  - destruct (read_and_return rpb s Hav) as (rpb1 & s1 & -> & Hdr); [apply orb_true_iff in Eb as [E|E]; [left; by apply negb_true_iff|by right]|]. cbn [obind].
    destruct (data_read_base _ _ _ _ _ _ Hdr) as [Hb1 Hbase1]. rewrite back_delta in Hbase1.
    pose proof Hdr as (Hi & Ht & (A1 & A2 & A3 & A4 & A5) & Hadr & Hff & r & x & Hr & _ & _ & _ & Hpr). rewrite back_delta in Hpr.
    rewrite S1, S2. destruct (fetch_s_quiet (if is_delta v then Some data else None) page line v (set_rpb_place page line rpb1) s1) as (s2 & -> & Hav2 & Ht2); try done.
    cbn [obind negb]. set (rpb2 := fill page line v (set_rpb_place page line rpb1)) in *. pose proof v_whole as (Hfr & _ & _).
    assert (F : rpb_b_page rpb2 = rpb_b_page v /\ rpb_b_line rpb2 = rpb_b_line v /\ rpb_flags rpb2 = rpb_flags v /\ rpb_transaction rpb2 = rpb_transaction v /\
      rpb_f_page rpb2 = rpb_f_page rpb /\ rpb_f_line rpb2 = rpb_f_line rpb /\ rpb_prior rpb2 = rpb_prior rpb1 /\ rpb_record rpb2 = rpb_record rpb1 /\ rpb_number rpb2 = rpb_number rpb1).
    { unfold rpb2, fill. cbn. rewrite Hfr. split_and!; try done.
      - destruct (flag_set (rpb_flags v) rpb_incomplete) eqn:Ei; [by destruct (S9 eq_refl)|by destruct (Hff eq_refl)].
      - destruct (flag_set (rpb_flags v) rpb_incomplete) eqn:Ei; [by destruct (S9 eq_refl)|by destruct (Hff eq_refl)]. }
    destruct F as (F1 & F2 & F3 & F4 & F5 & F6 & F7 & F8 & F9). rewrite F1, F2, F3, F4, F5, F6, S6, S3, !Z.eqb_refl. cbn [andb negb].
    rewrite (proj2 (Z.eqb_neq _ _)) by done. fold (is_delta v).
    assert (Eset : (if is_delta v then set_rpb_prior (rpb_record rpb2) rpb2 else rpb2) = rpb2).
    { destruct (is_delta v) in Hpr |- *; [|done]. rewrite F8, Hr, <-Hpr, <-F7. by destruct rpb2. }
    rewrite Eset. destruct Hav2 as [Hon2 Hsh2 Hb2 Hbase2].
    destruct (to_back_quiet _ page line v v' rpb2 s2 Hon2 Hsh2 Hb2 Hbase2 v_next v'_whole) as (rpb' & s' & -> & Hav' & Ht' & Hn').
    do 2 eexists. split; [reflexivity|]. split; [exact Hav'|]. split; congruence.
  - apply orb_false_iff in Eb as [Eb1 Eb2]. rewrite Eb2. rewrite Hstale in Hbase by (done || by apply negb_false_iff).
    destruct (to_back_quiet None page line v v' rpb s Hon Hsh Hb Hbase v_next v'_whole) as (rpb' & s' & -> & Hav' & Ht' & Hn').
    do 2 eexists. split; [reflexivity|]. done.
Qed.

End Version.

(** ** The search *)

Definition stale (newer : option (list Z)) : bool := match newer with Some _ => true | None => false end.

(** What the transaction is told of the writers of the versions. *)
Definition told (t : transaction) (judge : Z -> Z) (v : record_param) : Prop :=
  exists db, TRA_snapshot_state (fresh_block m) (lockable m) (tra t) (rpb_transaction v) (tip m) = Ret (judge (rpb_transaction v), db).

Lemma snapshot_quiet judge v rpb s :
  told (trans s) judge v -> rpb_transaction rpb = rpb_transaction v ->
  exists s', snapshot_state (rpb_transaction rpb) s = Ret (judge (rpb_transaction v), s') /\
    latches (acc s') = latches (acc s) /\ window (acc s') = window (acc s) /\ records s' = records s /\ trans s' = trans s.
Proof.
  intros [db E] Et. unfold snapshot_state. cbn. rewrite quiet, Et, E. cbn. eexists. split; [reflexivity|]. done.
Qed.

Lemma at_version_same newer page line v rpb s s' :
  at_version newer page line v rpb s -> latches (acc s') = latches (acc s) -> window (acc s') = window (acc s) -> records s' = records s ->
  at_version newer page line v rpb s'.
Proof.
  intros [[H1 H2] Hsh Hb Hbase] E1 E2 E3. split; [split; congruence|done| |].
  - unfold block_ok in *. by rewrite E3.
  - unfold base_ok in *. by rewrite E3.
Qed.

Lemma no_gc rpb v st : rpb_flags rpb = rpb_flags v -> is_whole v -> reset_gc_active st rpb = (st, rpb).
Proof. intros E (_ & _ & Hg). unfold reset_gc_active. by rewrite E, Hg. Qed.

(** The version a search ends at, ready to be read. *)
Definition found_at (n : nat) (v : record_param) (data : list Z) (rpb : record_param) (s : state) : Prop :=
  exists newer page line, at_version newer page line v rpb s /\ is_whole v /\ version_data m n newer v data /\
    Z.of_nat (length data) = fmt_length (rpb_format_number v) /\ Z.of_nat (length data) < 65536.

Definition search_result (n : nat) (t : transaction) (judge : Z -> Z) (vs : list record_param) (ds : list (list Z)) (number : Z)
    (x : bool * record_param * state) : Prop :=
  let '(found, rpb, s) := x in
  rpb_number rpb = number /\ trans s = t /\
  match visible judge vs with
  | None => found = false /\ latches (acc s) = []
  | Some i => found = true /\ exists v data, vs !! i = Some v /\ ds !! i = Some data /\ found_at n v data rpb s
  end.

Lemma search_result_next n t judge v vs data ds number x :
  judge (rpb_transaction v) <> tra_us -> judge (rpb_transaction v) <> tra_committed ->
  search_result n t judge vs ds number x -> search_result n t judge (v :: vs) (data :: ds) number x.
Proof.
  intros H1 H2. destruct x as [[found rpb] s]. unfold search_result. cbn [visible].
  rewrite (proj2 (Z.eqb_neq _ _) H1), (proj2 (Z.eqb_neq _ _) H2). cbn [orb]. intros (E1 & E2 & E3). split; [done|]. split; [done|].
  destruct (visible judge vs) as [i|]; cbn; [|done]. destruct E3 as (E3 & w & d & Hw & Hd & Hf). eauto 8.
Qed.

Lemma not_found_quiet page rpb s :
  on page (acc s) -> exists s', not_found rpb s = Ret (NotFound, rpb, s') /\ latches (acc s') = [] /\ trans s' = trans s.
Proof. intros Hon. unfold not_found. rewrite (release_s s) by (by eapply on_latched). cbn. eexists. split; [reflexivity|]. done. Qed.

(** A version that is skipped and is the last one. *)
Lemma last_quiet fuel st newer page line v rpb s :
  at_version newer page line v rpb s -> rpb_b_page v = 0 ->
  (st = tra_dead \/ st = tra_precommitted) /\ ATT_no_cleanup (trans s) = true \/ st = tra_active \/ (st = tra_limbo /\ TRA_ignore_limbo (trans s) = true) ->
  exists s', version_switch fuel st rpb s = Ret (NotFound, rpb, s') /\ latches (acc s') = [] /\ trans s' = trans s.
Proof.
  intros [Hon (_ & _ & _ & _ & S5 & _) _ _] Hz Hst. destruct (not_found_quiet page rpb s Hon) as (s' & E & Hs').
  assert (Ea : case_active fuel rpb s = Ret (NotFound, rpb, s')) by (unfold case_active; by rewrite S5, Hz).
  exists s'. split; [|done]. unfold version_switch. destruct Hst as [[[->| ->] Hc]|[->|[-> Hi]]]; cbn [orb Z.eqb]; try exact Ea.
  - unfold case_dead, skip_dead. rewrite Hc. cbn [orb]. by rewrite S5, Hz.
  - unfold case_dead, skip_dead. rewrite Hc. cbn [orb]. by rewrite S5, Hz.
  - rewrite Hi. exact Ea.
Qed.

(** A version that is skipped for the next one. *)
Lemma skip_quiet n fuel st newer page line v v' data rpb s :
  reads_as m page line v -> is_whole v -> reads_as m (rpb_b_page v) (rpb_b_line v) v' -> is_whole v' -> rpb_b_page v <> 0 ->
  (is_deleted v = false \/ is_delta v = true -> version_data m n newer v data /\ Z.of_nat (length data) = fmt_length (rpb_format_number v)) ->
  Z.of_nat (length data) < 65536 -> (n <= fuel)%nat -> at_version newer page line v rpb s ->
  (st = tra_dead \/ st = tra_precommitted) /\ ATT_no_cleanup (trans s) = true /\ (is_deleted v = true -> is_delta v = false -> newer = None) \/
  st = tra_active \/ (st = tra_limbo /\ TRA_ignore_limbo (trans s) = true) ->
  exists rpb' s', version_switch fuel st rpb s = Ret (Again, rpb', s') /\
    at_version (if is_delta v then Some data else None) (rpb_b_page v) (rpb_b_line v) v' rpb' s' /\
    trans s' = trans s /\ rpb_number rpb' = rpb_number rpb.
Proof.
  intros H1 H2 H3 H4 H5 H6 H7 H8 Hav Hst. unfold version_switch. destruct Hst as [([->| ->] & Hc & Hstale)|[->|[-> Hi]]]; cbn [orb Z.eqb].
  - unfold case_dead. rewrite Hc. cbn [orb]. by apply (dead_quiet n newer v v' data page line).
  - unfold case_dead. rewrite Hc. cbn [orb]. by apply (dead_quiet n newer v v' data page line).
  - by apply (active_quiet n newer v v' data page line).
  - rewrite Hi. by apply (active_quiet n newer v v' data page line).
Qed.

Lemma next_quiet judge newer page line v rpb s :
  told (trans s) judge v -> is_whole v -> at_version newer page line v rpb s ->
  exists s', next_state rpb s = Ret (judge (rpb_transaction v), rpb, s') /\ at_version newer page line v rpb s' /\ trans s' = trans s.
Proof.
  intros Ht Hw Hav. pose proof Hav as [_ (S1 & S2 & S3 & S4 & S5 & S6 & S7 & S8 & S9) _ _]. unfold next_state.
  destruct (snapshot_quiet judge v rpb s Ht S3) as (s' & -> & E1 & E2 & E3 & E4). cbn [obind]. rewrite (no_gc rpb v) by done.
  exists s'. split; [by destruct (flag_set (rpb_flags rpb) rpb_chained)|]. split; [by eapply at_version_same|done].
Qed.

(** What precedes the switch does nothing here. *)
Lemma pre_switch_quiet writelock st rpb s :
  (st = tra_limbo -> TRA_ignore_limbo (trans s) = true) -> waits (trans s) writelock = false ->
  limbo_wait st rpb s = Ret (st, s) /\ wait_for_writer writelock st rpb s = Ret (None, st, rpb, s).
Proof.
  intros Hl Hw. split.
  - unfold limbo_wait. destruct (Z.eqb_spec st tra_limbo) as [->|]; cbn [andb]; [|done]. by rewrite Hl.
  - unfold wait_for_writer. unfold waits in Hw. by rewrite Hw.
Qed.

Lemma chase_quiet n t judge writelock vs :
  waits t writelock = false ->
  forall page line newer ds rpb s fuel,
  version_chain m page line vs -> chain_data m n newer vs ds -> passable t judge (stale newer) vs ->
  Forall (fun d => Z.of_nat (length d) < 65536) ds -> Forall (told t judge) vs -> trans s = t -> (length vs + n <= fuel)%nat ->
  forall v, head vs = Some v -> at_version newer page line v rpb s ->
  exists x, chase_loop fuel writelock (judge (rpb_transaction v)) rpb s = Ret x /\ search_result n t judge vs ds (rpb_number rpb) x.
Proof.
  intros Hwaits. induction vs as [|v vs IH]; intros page line newer ds rpb s fuel Hc Hd Hp Hsm Ht Et Hfu v0 Hv0 Hav; [done|].
  injection Hv0 as <-. destruct fuel as [|fuel]; [cbn in Hfu; lia|]. cbn [chase_loop].
  inversion Hd as [|newer0 v0 vs0 data ds0 Hdat Hd']; subst. apply list.Forall_cons in Hsm as [Hsm Hsm']. apply list.Forall_cons in Ht as [Htold Ht'].
  destruct Hp as (Hst & Hclean & Hstl & Hp'). set (st := judge (rpb_transaction v)) in *. pose proof Hav as [Hon Hsh Hb Hbase].
  assert (Hw : is_whole v) by (by inversion Hc). assert (Hr : reads_as m page line v) by (by inversion Hc).
  pose proof Hsh as (S1 & S2 & S3 & S4 & S5 & S6 & S7 & S8 & S9). pose proof Hw as (W1 & W2 & W3). rewrite S8, W2.
  destruct (pre_switch_quiet writelock st rpb s) as [El Ew]; [intros El; destruct Hst as [E|[E|[[_ E]|[E|E]]]]; try (by rewrite El in E); exact E|done|].
  rewrite El. cbn [obind]. rewrite Ew. cbn [obind].
  (** The last version, or ours, or committed. *)
  destruct (Z.eq_dec st tra_us) as [Eus|Nus].
  { unfold version_switch. rewrite Eus. cbn [orb Z.eqb]. rewrite S8. fold (is_deleted v). unfold search_result. cbn [visible]. fold st. rewrite Eus. cbn [orb Z.eqb].
    destruct (is_deleted v) eqn:Edel.
    - destruct (not_found_quiet page rpb s Hon) as (s' & -> & Hi & Hs'). cbn [obind]. eexists. split; [reflexivity|]. done.
    - cbn [obind]. eexists. split; [reflexivity|]. split; [done|]. split; [done|]. split; [done|]. exists v, data. split; [done|]. split; [done|].
      exists newer, page, line. destruct Hdat as [? ?]; [by left|]. done. }
  destruct (Z.eq_dec st tra_committed) as [Eco|Nco].
  { unfold version_switch. rewrite Eco. cbn [orb Z.eqb]. unfold search_result. cbn [visible]. fold st. rewrite Eco. cbn [orb Z.eqb].
    unfold case_committed. rewrite S8, S3. fold (is_deleted v). destruct (is_deleted v) eqn:Edel.
    - rewrite (release_s s) by (by eapply on_latched). cbn [obind]. 
      assert (Hno : (rpb_transaction v <? tra_oldest_active (trans s)) && negb (ATT_no_cleanup (trans s)) = false).
      { destruct Hclean as [->|[_ Hold]]; [apply andb_false_r|]. specialize (Hold Eco). by rewrite (proj2 (Z.ltb_ge _ _)) by lia. }
      rewrite Hno. cbn [obind]. eexists. split; [reflexivity|]. done.
    - assert (Hyes : (tra_oldest_active (trans s) <=? rpb_transaction v) || (rpb_b_page rpb =? 0) || flag_set (rpb_flags v) rpb_chained || ATT_no_cleanup (trans s) = true).
      { destruct Hclean as [->|[_ Hold]]; [apply orb_true_r|]. specialize (Hold Eco). by rewrite (proj2 (Z.leb_le _ _)) by lia. }
      rewrite Hyes. cbn [obind]. eexists. split; [reflexivity|]. split; [done|]. split; [done|]. split; [done|]. exists v, data. split; [done|]. split; [done|].
      exists newer, page, line. destruct Hdat as [? ?]; [by left|]. done. }
  assert (Hskip : (st = tra_dead \/ st = tra_precommitted) /\ ATT_no_cleanup (trans s) = true \/ st = tra_active \/ (st = tra_limbo /\ TRA_ignore_limbo (trans s) = true)).
  { destruct Hst as [E|[E|[E|[E|E]]]]; [left|by right; left|by right; right|done|done]. split.
    - apply orb_true_iff in E as [E|E]; apply Z.eqb_eq in E; auto.
    - destruct Hclean as [?|[E' _]]; [done|congruence]. }
  inversion Hc as [page0 line0 v0 _ _ Hz|page0 line0 v0 vs0 _ _ Hnz Hc']; subst.
  - destruct (last_quiet fuel st newer _ _ v rpb s Hav Hz Hskip) as (s' & -> & Hi & Hs'). cbn [obind]. eexists. split; [reflexivity|].
    unfold search_result. cbn [visible]. fold st. rewrite (proj2 (Z.eqb_neq _ _) Nus), (proj2 (Z.eqb_neq _ _) Nco). done.
  - destruct vs as [|v' vs]; [by inversion Hc'|]. assert (Hr' : reads_as m (rpb_b_page v) (rpb_b_line v) v') by (by inversion Hc').
    assert (Hw' : is_whole v') by (by inversion Hc').
    destruct (skip_quiet n fuel st newer _ _ v v' data rpb s Hr Hw Hr' Hw' Hnz Hdat Hsm) as (rpb' & s' & -> & Hav' & Et' & En'); [cbn in Hfu; lia|done| |].
    { destruct Hskip as [[E1 E2]|Hskip]; [left|by right]. split; [done|]. split; [done|]. intros Hdel Hdelta. destruct newer as [d|]; [|done].
      assert (Hg : (st =? tra_dead) || (st =? tra_precommitted) = true) by (destruct E1 as [->| ->]; done).
      specialize (Hstl eq_refl Hg Hdel). congruence. }
    cbn [obind]. apply list.Forall_cons in Ht' as [Htold' Ht'']. rewrite <-Et' in Htold'.
    destruct (next_quiet judge _ _ _ v' rpb' s' Htold' Hw' Hav') as (s2 & -> & Hav2 & Et2). cbn [obind].
    destruct (IH (rpb_b_page v) (rpb_b_line v) (if is_delta v then Some data else None) ds0 rpb' s2 fuel) with (v := v') as (x & E & Hx); try done.
    + destruct (is_delta v); exact Hp'.
    + apply list.Forall_cons. split; [rewrite <-Et'; exact Htold'|exact Ht''].
    + congruence.
    + cbn in Hfu |- *. lia.
    + exists x. split; [exact E|]. rewrite En' in Hx. by apply search_result_next.
Qed.

End VioQuiet.

End VioQuiet.
