(* ===== verification/VioReader.v ===== *)
(** * Reading a record through all layers ([jrd/vio.cpp], [jrd/dpm.epp],
    [jrd/sqz.cpp], [jrd/tra.cpp])

    Theorems about [VIO_chase_record_version] and [VIO_get], and a database they apply to:
    record numbers, pointer pages, data pages, compressed and differential
    versions, the inventory of transactions. *)

From S2P Require Import Prelude.
From S2P Require Import Sqz.
From S2P Require Import RecordNumber.
From S2P Require Import TipCache.
From S2P Require Import DataPage.
From S2P Require Import DataPageOps.
From S2P Require Import DataPageSpec.
From S2P Require Import DataPageTable.
From S2P Require Import DataPageClient.
From S2P Require Import Dpm.
From S2P Require Import Counts.
From S2P Require Import Vio.
From S2P Require Import VioVisible.
From S2P Require Import VioIsolation.
From S2P Require Import VioQuiet.
From stdpp Require Import list gmap.
#[local] Open Scope Z_scope.

Module VioReader.
Import TipCache Sqz DataPage DataPageOps DataPageSpec DataPageTable DataPageClient Dpm Vio VioVisible VioIsolation VioQuiet.

(** ** Headers on pages *)

(** The line of a page that holds the image of a record reads as the record. *)
Lemma image_reads m ps p page line r :
  DataPageOps.wf ps p -> data_pages m !! page = Some p -> 0 <= line < 65536 -> lines p !! Z.to_nat line = Some (Some (image r)) ->
  storable r -> typed_rpb r -> flag_set (rpb_flags r) rpb_fragment = false -> flag_set (rpb_flags r) rpb_incomplete = false ->
  exists data, decodes_to data (map SCHAR (rpb_address r)) /\
    reads_as m page line (mk_rpb 0 (rpb_transaction r) None None (rpb_format_number r) page line 0 0 (rpb_b_page r) (rpb_b_line r) data (rpb_flags r)).
Proof.
  intros Hw Hp Hl Hb Hs Hty Hf Hi. destruct (read_image r Hs Hty Hf Hi) as (data & Hd & Hread). exists data. split.
  - intros room. by rewrite Hd, length_map.
  - split; [done|]. exists p. split; [done|]. intros rpb. rewrite (get_header_ok ps) by (done || lia). rewrite Hb, Hread.
    unfold fill. cbn. by rewrite Hf, Hi.
Qed.

(** What [SQZ_differences] makes of two versions turns one into the other. *)
Lemma differences_turn newer data room d :
  SQZ_differences newer data room = Some d -> Z.of_nat (length d) <= MAX_DIFFERENCES -> turns d newer data.
Proof.
  intros H1 H2. split; [done|]. intros buf Hb Hn Hd Hl. apply (differences_apply newer data room); try done.
  transitivity (take (Nat.min (length newer) (length data)) (take (length newer) buf)); [|by rewrite Hb].
  rewrite take_take. f_equal. lia.
Qed.

Section VioReader.
Context `{DB : Database} `{FM : Formats} `{CL : Cleanup}.

(** Where the pointer pages say a record is. *)
Definition located (m : moment) (number page line : Z) : Prop :=
  0 <= number /\ exists slot pp n pointer,
    RecordNumber.decompose (RecordNumber.mk number) dbb_max_records dbb_dp_per_pp = (line, slot, pp) /\ 0 <= slot /\
    rel_pages m !! Z.to_nat pp = Some n /\ pointer_pages m !! n = Some pointer /\
    ppg_relation pointer = rel_id /\ ppg_sequence pointer = pp /\ ppg_page pointer !! Z.to_nat slot = Some page /\ page <> 0.

Lemma get_quiet m page line v read rpb s :
  (forall u, at_moment u = m) -> (forall page, timeout m page = false) ->
  latches (acc s) = [] -> located m (rpb_number rpb) page line -> reads_as m page line v -> is_whole v ->
  flag_set (rpb_flags v) (rpb_blob + rpb_chained + rpb_fragment) = false -> block_ok rpb s ->
  exists s', get read rpb s = Ret (true, fill page line v (set_rpb_prior None rpb), s') /\
    at_version None page line v (fill page line v (set_rpb_prior None rpb)) s' /\ trans s' = trans s.
Proof.
  intros Hq Hto E (Hn & slot & pp & n & pointer & Edec & Hs & E1 & E2 & E3 & E4 & E5 & Hpg) Hr Hw Hf Hb. pose proof Hr as [Hl (p & Hp & Hg)].
  unfold get, DPM_get. cbn [rpb_number set_rpb_prior]. rewrite Edec, (proj2 (Z.ltb_ge _ _)) by done.
  unfold get_pointer_page. rewrite Hq, E1. cbn [obind]. cbn [clock CCH_FETCH]. rewrite Hq, E2, E3, E4, !Z.eqb_refl. cbn [negb orb obind].
  rewrite (proj2 (Z.ltb_ge _ _)), E5 by done. cbn [obind]. rewrite (proj2 (Z.eqb_neq _ _)) by done.
  destruct (handoff_quiet m Hq Hto read page (CCH_FETCH n (acc s))) as (a' & -> & Ho); [cbn; by rewrite E|]. cbn [obind negb].
  unfold win_buffer. destruct Ho as [Ho1 Ho2]. rewrite Hq, Ho2, Hp. cbn [obind]. rewrite Hg. cbn [obind andb].
  change (rpb_flags (fill page line v ?r)) with (rpb_flags v). rewrite Hf. cbn [negb]. cbn [obind].
  eexists. split; [reflexivity|]. split; [|done].
  apply (at_version_fill m None page line v (set_rpb_prior None rpb) s); try done.
Qed.

(** C25: whatever other threads do between two looks at a page, and whatever
    cleaning up does, a record [VIO_chase_record_version] finds is on the page
    it names, as it was at some moment of the search, not deleted, and written
    by the transaction itself or by one found committed during the search; it
    is not a damaged one, unless the transaction waits for writers.  On
    return the page of the record is latched, and no other; if nothing was
    found no page is. *)
Theorem chase_finds_committed fuel writelock rpb s found rpb' s' :
  latches (acc s) = [rpb_page rpb] -> window (acc s) = rpb_page rpb -> on_page (clock (acc s)) rpb ->
  VIO_chase_record_version fuel writelock rpb s = Ret (found, rpb', s') ->
  if found then
    latches (acc s') = [rpb_page rpb'] /\
    (exists u, (clock (acc s) <= u <= clock (acc s'))%nat /\ on_page u rpb') /\
    flag_set (rpb_flags rpb') rpb_deleted = false /\
    (flag_set (rpb_flags rpb') rpb_damaged = false \/ waits (trans s) writelock = true) /\
    (exists v t st, (clock (acc s) <= v <= clock (acc s'))%nat /\ evolves (trans s) t /\
       judged v t (rpb_transaction rpb') st /\ (st = tra_us \/ st = tra_committed))
  else latches (acc s') = [].
Proof.
  intros Hl Hw Ho E. assert (Hcur : current (clock (acc s)) rpb s) by (split; [done|]; exists (clock (acc s)); split; [lia|done]).
  pose proof (returns_ret _ _ _ (chase_ok fuel writelock rpb s Hcur) E) as (_ & _ & _ & Hf). destruct found; [|done].
  destruct Hf as ([[Hl' _] Hu] & Hd & Hdam & Hj). auto.
Qed.

(** C6: a transaction that reads by a snapshot sees the database as it was
    when the snapshot was taken.  If its bit vector is what
    [TRA_get_inventory] gave at its start, the writer of any record it finds
    is the transaction itself, or one older than the oldest interesting one,
    the system transaction, or one committed under a retained snapshot, or
    had committed by then on its inventory page; the only others are those
    that were in limbo then. *)
Theorem snapshot_isolation fuel writelock rpb s rpb' s' db0 db1 :
  latches (acc s) = [rpb_page rpb] -> window (acc s) = rpb_page rpb -> on_page (clock (acc s)) rpb ->
  TipCache.wf db0 -> TipCache.cache_ok db0 -> snapshot_reader (trans s) -> tra_top (tra (trans s)) <= hdr_next_transaction db0 ->
  TipCache.TRA_get_inventory true (Z.land (tra_oldest (tra (trans s))) (Z.lnot TRA_MASK)) (tra_top (tra (trans s))) db0
    = Ret (tra_transactions (tra (trans s)), db1) ->
  VIO_chase_record_version fuel writelock rpb s = Ret (true, rpb', s') ->
  let n := rpb_transaction rpb' in
  let t := tra (trans s) in
  n = tra_number t \/ n < tra_oldest t \/ n = 0 \/ n ∈ tra_commit_sub_trans t \/
  (tra_oldest t <= n < tra_top t /\ (page_state db0 n = tra_committed \/ page_state db0 n = tra_limbo)).
Proof.
  intros Hl Hw Ho Hwf Hok Hr Hnext Einv E n t.
  assert (Hcur : current (clock (acc s)) rpb s) by (split; [done|]; exists (clock (acc s)); split; [lia|done]).
  pose proof (returns_ret _ _ _ (chase_ok fuel writelock rpb s Hcur) E) as (_ & _ & _ & _ & _ & _ & v & t' & st & _ & He & Hj & Hst).
  pose proof (inventory_shows db0 db1 (trans s) Hwf Hok Hr Hnext Einv) as Hs.
  destruct (evolves_shows db0 _ _ Hr Hs He) as (Hr' & Hs' & E1 & E2 & E3 & E4). fold n in Hj.
  assert (Hlimbo : forall v0, says v0 t' n tra_limbo -> tra_oldest t <= n < tra_top t /\ page_state db0 n = tra_limbo).
  { intros v0 Hsay. destruct (says_cases db0 _ _ _ _ Hr' Hs' Hsay) as [?|[[_ ?]|[[? _]|[?|[Hrange Hlim]]]]]; [done..|].
    destruct (Hs' n Hrange) as [_ [Ep|Ep]]; rewrite E2, E3 in Hrange; split; (done || congruence). }
  destruct Hj as [Hsay|[[v0 Hsay] _]]; [|destruct (Hlimbo v0 Hsay); tauto].
  destruct (says_cases _ _ _ _ _ Hr' Hs' Hsay) as [?|[[? _]|[[_ Hc]|[?|[Hrange Hlim]]]]].
  - by destruct Hst; subst.
  - left. unfold t. congruence.
  - rewrite E2, E4 in Hc. tauto.
  - by destruct Hst; subst.
  - do 4 right. destruct (Hs' n Hrange) as [_ Hp]. rewrite E2, E3 in Hrange. split; [done|]. destruct Hp as [Ep|Ep]; [|by right].
    left. destruct Hst as [->| ->]; [|by rewrite <-Ep, <-Hlim]. exfalso. rewrite E2 in Hlim.
    pose proof (get_bits_range 0 0) as _. unfold page_bits in Hlim. destruct (_ !! _) as [b|]; [|done].
    pose proof (get_bits_range b (TRANS_SHIFT (n - Z.land (tra_oldest (tra (trans s))) (Z.lnot TRA_MASK)))) as Hg. unfold tra_us in Hlim. lia.
Qed.

(** C5: [VIO_get] reads the right version, through every layer.  While
    nothing changes, for a transaction that has neither to wait nor to clean
    up, it finds the record its number leads to exactly if the scan of the
    chain of versions finds one to see: the newest one written by the
    transaction itself or by one it is told is committed, unless that one is
    deleted.  The data it returns are those of that version, put together
    from all its fragments and, if versions newer than it are kept as
    differences, from these, newest first; no page stays latched. *)
Theorem VIO_get_reads_visible_version m n judge vs ds page line fuel update rpb s counts :
  (forall u, at_moment u = m) -> (forall page, timeout m page = false) ->
  located m (rpb_number rpb) page line -> version_chain m page line vs -> chain_data m n None vs ds ->
  (forall v, head vs = Some v -> flag_set (rpb_flags v) (rpb_blob + rpb_chained + rpb_fragment) = false) ->
  Forall (fun d => Z.of_nat (length d) < 65536) ds -> Forall (told m (trans s) judge) vs ->
  passable (trans s) judge false vs -> waits (trans s) false = false ->
  latches (acc s) = [] -> block_ok rpb s -> (length vs + n <= fuel)%nat -> Counts.wf counts -> 0 <= rel_id ->
  exists found rpb' s' counts', VIO_get fuel update true rpb s counts = Ret (found, rpb', s', counts') /\
    latches (acc s') = [] /\ Counts.wf counts' /\
    match visible judge vs with
    | None => found = false /\ counts' = counts
    | Some i => found = true /\ exists v data, vs !! i = Some v /\ ds !! i = Some data /\
        rpb_transaction rpb' = rpb_transaction v /\ rpb_address rpb' = map UCHAR data
    end.
Proof.
  intros Hq Hto Hloc Hc Hd Hprim Hsm Htold Hpass Hw Hi Hb Hfu Hcn Hrel.
  destruct vs as [|v vs]; [inversion Hc|]. assert (Hr : reads_as m page line v) by (by inversion Hc). assert (Hwh : is_whole v) by (by inversion Hc).
  destruct (get_quiet m page line v (negb update) rpb s Hq Hto Hi Hloc Hr Hwh (Hprim v eq_refl) Hb) as (s1 & Eg & Hav & Et).
  unfold VIO_get. rewrite Eg. cbn [obind negb]. set (rpb1 := fill page line v (set_rpb_prior None rpb)) in *. clearbody rpb1.
  assert (Hchase : exists x, VIO_chase_record_version fuel false rpb1 s1 = Ret x /\ search_result m n (trans s) judge (v :: vs) ds (rpb_number rpb1) x).
  { pose proof Hav as [Hon Hsh Hb1 Hbase1]. pose proof Hsh as (S1 & S2 & S3 & S4 & S5 & S6 & S7 & S8 & S9). unfold VIO_chase_record_version.
    destruct (snapshot_quiet m Hq judge v rpb1 s1) as (s2 & -> & L1 & L2 & L3 & L4); [rewrite Et; by apply list.Forall_cons in Htold as [? _]|done|].
    cbn [obind]. rewrite (no_gc rpb1 v) by done.
    assert (Hav2 : at_version None page line v rpb1 s2) by (by eapply at_version_same).
    assert (Et2 : trans s2 = trans s) by congruence.
    destruct (((judge (rpb_transaction v) =? TipCache.tra_committed) || (judge (rpb_transaction v) =? TipCache.tra_us)) &&
      negb (flag_set (rpb_flags rpb1) (rpb_deleted + rpb_damaged)) && ((rpb_b_page rpb1 =? 0) || (tra_oldest_active (trans s2) <=? rpb_transaction rpb1))) eqn:Efast.
    - eexists. split; [reflexivity|]. split; [done|]. split; [done|]. apply andb_true_iff in Efast as [Efast _]. apply andb_true_iff in Efast as [Est Efl].
      apply negb_true_iff in Efl. rewrite S8 in Efl. assert (Hdel : is_deleted v = false) by (by apply (flag_set_sub _ (rpb_deleted + rpb_damaged))).
      cbn [visible]. rewrite orb_comm in Est. rewrite Est, Hdel. split; [done|].
      inversion Hd as [|newer0 v0 vs0 data ds0 Hdat Hd']; subst. exists v, data. split; [done|]. split; [done|].
      exists None. eexists. eexists. destruct Hdat as [? ?]; [by left|]. apply list.Forall_cons in Hsm as [? _]. split_and!; [exact Hav2|done..].
    - apply (chase_quiet m Hq Hto n (trans s) judge false (v :: vs) Hw page line None ds rpb1 s2 fuel Hc Hd Hpass Hsm Htold Et2 Hfu v eq_refl Hav2). }
  destruct Hchase as ([[found rpb2] s2] & Ech & En & Et2 & Hres). rewrite Ech. cbn [obind].
  destruct (visible judge (v :: vs)) as [i|].
  - destruct Hres as (-> & w & data & Hw' & Hd' & newer & pg & ln & Hav2 & Hwh2 & Hvd & Hlen & Hsz). cbn [negb].
    destruct Hav2 as [Hon2 Hsh2 Hb2 Hbase2].
    destruct (VIO_data_quiet m Hq Hto n newer w data pg ln rpb2 s2 fuel Hon2 Hsh2 Hwh2 Hb2 Hbase2 Hvd Hlen Hsz) as ([rpb3 s3] & E3 & Hdr).
    { cbn in Hfu. lia. }
    rewrite E3. cbn [obind]. destruct (Counts.bump_count_ok rel_id false counts Hcn Hrel) as (counts' & -> & Hcn' & _). cbn [obind].
    exists true, rpb3, s3, counts'. split; [done|]. destruct Hdr as (Hl3 & _ & (_ & A2 & _) & Ha & _). do 3 (split; [done|]).
    exists w, data. split; [done|]. split; [done|]. split; [|done]. rewrite A2. by destruct Hsh2 as (_ & _ & ? & _).
  - destruct Hres as (-> & Hl2). cbn [negb]. exists false, rpb2, s2, counts. done.
Qed.

(** [VIO_get] holds no latch when it returns with data or without a
    record, whatever happens meanwhile; without being asked for data, it
    returns a record with its page latched, and no other. *)
Theorem VIO_get_latches fuel update pool rpb s counts found rpb' s' counts' :
  latches (acc s) = [] -> VIO_get fuel update pool rpb s counts = Ret (found, rpb', s', counts') ->
  latches (acc s') = if found && negb pool then [rpb_page rpb'] else [].
Proof.
  intros Hi E. assert (Hr : returns (VIO_get fuel update pool rpb s counts) (fun '(found, rpb', s', _) => latches (acc s') = if found && negb pool then [rpb_page rpb'] else [])).
  { unfold VIO_get. call (get_ok (negb update) rpb s Hi). intros [[f1 r1] s1] Hw1. pose proof Hw1 as [(Hc1 & _ & Hf1) _].
    destruct f1; cbn [negb]; [|done]. assert (Hcur : current (clock (acc s1)) r1 s1).
    { destruct Hf1 as (Hl & Hw & Ho). split; [done|]. exists (clock (acc s1)). split; [lia|done]. }
    call (chase_ok fuel false r1 s1 Hcur). intros [[f2 r2] s2] (_ & _ & _ & Hf2). destruct f2; cbn [negb]; [|done].
    destruct Hf2 as ([Hh2 _] & _). destruct pool; cbn [obind andb negb].
    - call (VIO_data_ok fuel r2 s2 (holds_window _ _ Hh2)). intros [r3 s3] (Hi3 & _). call (@returns_any Counts.SVector). by intros c3 _.
    - call (@returns_any Counts.SVector). intros c3 _. by destruct Hh2. }
  exact (returns_ret _ _ _ Hr E).
Qed.

End VioReader.

(** ** A database *)

Definition new_data : list Z := [1;2;3;4;5;6;7;8;9;10;11;12].
Definition old_data : list Z := [1;2;3;4;50;6;7;8;9;10;11;-12].
Definition old_differences : list Z :=
  match SQZ_differences new_data old_data 1024 with Some d => d | None => [] end.

(** A version of transaction 8, committed, behind one of transaction 13, which
    is active, as differences to it. *)
Definition old_version : record_param := mk_rpb 0 8 None None 1 0 0 0 0 0 0 (map UCHAR old_differences) rpb_chained.
Definition new_version : record_param := mk_rpb 0 13 None None 1 0 0 0 0 7 0 (map UCHAR new_data) rpb_delta.

Definition versions_ops : list (list Z * page_op) :=
  [(sample_temp, Op_store false old_version); (sample_temp, Op_store false new_version)].
Definition versions_page : data_page := page_after 192 7 versions_ops.

Definition sample_moment : moment :=
  mk_moment {[ 7 := versions_page ]} {[ 3 := mk_pointer 5 0 [7; 0] ]} [3] ex_db (fun _ => true) (fun _ _ => true) ex_fresh (fun _ => false).

#[local] Instance sample_database : Database :=
  { dbb_max_records := 50; dbb_dp_per_pp := 2; rel_id := 5; at_moment := fun _ => sample_moment }.
#[local] Instance sample_formats : Formats := { fmt_length := fun _ => 12; fresh_byte := fun _ _ => 170 }.

(** Cleaning up that finds the record changed and lets it be. *)
Definition let_be (rpb : record_param) (s : state) : outcome (record_param * state) :=
  Ret (rpb, with_acc (mk_access (clock (acc s)) (window (acc s)) []) s).

#[local] Program Instance sample_cleanup : Cleanup :=
  { VIO_backout := let_be; purge := let_be; expunge := let_be }.
Next Obligation. intros rpb s rpb' s' Hl E. injection E as <- <-. done. Qed.
Next Obligation. intros rpb s rpb' s' Hl Hw E. injection E as <- <-. done. Qed.
Next Obligation. intros rpb s rpb' s' Hl E. injection E as <- <-. done. Qed.

Definition reader : transaction := mk_transaction (ex_snapshot [228; 255; 67; 0]) 5 false true false false.
Definition reader_state : state := mk_state (mk_access 0 0 []) ∅ reader.
Definition wanted : record_param := mk_rpb 1 0 None None 0 0 0 0 0 0 0 [] 0.
Definition sample_judge (n : Z) : Z := if n =? 8 then tra_committed else tra_active.

Lemma versions_ok :
  DataPageOps.wf 192 versions_page /\ lines versions_page = [Some (image old_version); Some (image new_version)].
Proof.
  destruct (table_run 192 7 versions_ops []) as [[rs l]|] eqn:E; [|by vm_compute in E].
  destruct (page_after_ok 192 7 versions_ops rs l) as [Hw Hl]; [unfold MAX_PAGE_SIZE; lia|done|by sample_temps|exact E|].
  split; [exact Hw|]. etransitivity; [exact Hl|]. vm_compute in E. injection E as <- <-. vm_compute. reflexivity.
Qed.

Lemma sample_chain :
  exists vs, version_chain sample_moment 7 1 vs /\ chain_data sample_moment 1 None vs [new_data; old_data] /\
    map rpb_transaction vs = [13; 8] /\ map rpb_flags vs = [rpb_delta; rpb_chained].
Proof.
  destruct versions_ok as [Hw Hl].
  destruct (image_reads sample_moment 192 versions_page 7 1 new_version Hw) as (d1 & Hd1 & Hr1);
    [reflexivity|lia|by rewrite Hl|vm_compute; discriminate|split; cbn; unfold rpb_delta; lia|reflexivity|reflexivity|].
  destruct (image_reads sample_moment 192 versions_page 7 0 old_version Hw) as (d2 & Hd2 & Hr2);
    [reflexivity|lia|by rewrite Hl|vm_compute; discriminate|split; cbn; unfold rpb_chained; lia|reflexivity|reflexivity|].
  eexists [_; _]. split; [|split; [|split] ].
  - eapply chain_next; [exact Hr1|by split_and!|cbn; lia|]. eapply chain_last; [exact Hr2|by split_and!|done].
  - apply data_cons. { intros _. split; [|done]. apply stored_whole; [done|exact Hd1]. }
    apply data_cons; [|apply data_nil]. intros _. split; [|done]. exists old_differences. split.
    + apply stored_whole; [done|exact Hd2].
    + apply (differences_turn _ _ 1024); [by vm_compute|by vm_compute].
  - done.
  - done.
Qed.

Lemma VIO_get_reads_visible_version_witness :
  exists rpb' s' c', VIO_get 10 false true wanted reader_state Counts.empty_vector = Ret (true, rpb', s', c') /\ latches (acc s') = [] /\
    rpb_transaction rpb' = 8 /\ rpb_address rpb' = map UCHAR old_data.
Proof.
  destruct sample_chain as (vs & Hc & Hd & Htx & Hfl). destruct vs as [|v1 [|v2 [|] ] ]; try done. cbn in Htx, Hfl.
  injection Htx as Ht1 Ht2. injection Hfl as Hf1 Hf2.
  destruct (VIO_get_reads_visible_version sample_moment 1 sample_judge [v1; v2] [new_data; old_data] 7 1 10 false wanted reader_state Counts.empty_vector)
    as (found & rpb' & s' & c' & E & Hl & _ & Hres).
  - done.
  - done.
  - split; [done|]. exists 0, 0, 3, (mk_pointer 5 0 [7; 0]). split_and!; done.
  - exact Hc.
  - exact Hd.
  - intros v [= <-]. rewrite Hf1. done.
  - repeat constructor; done.
  - apply list.Forall_cons. split; [|apply list.Forall_cons; split; [|done] ]; unfold told; rewrite ?Ht1, ?Ht2; eexists; vm_compute; reflexivity.
  - cbn. rewrite Ht1, Ht2. split_and!; auto; try done; right; (split; [done|]); cbn; lia.
  - done.
  - done.
  - done.
  - cbn. lia.
  - by split.
  - done.
  - assert (Hv2 : visible sample_judge [v1; v2] = Some 1%nat) by (cbn [visible]; unfold is_deleted; by rewrite Ht1, Ht2, Hf2).
    rewrite Hv2 in Hres. destruct Hres as (-> & v & data & Hv & Hda & E1 & E2).
    injection Hv as <-. injection Hda as <-. exists rpb', s', c'. split; [exact E|]. split; [exact Hl|]. split; [congruence|exact E2].
Defined.

(** The record's page is left latched when only the record is asked for. *)
Lemma VIO_get_latches_witness :
  exists rpb' s' c', VIO_get 10 false false wanted reader_state Counts.empty_vector = Ret (true, rpb', s', c') /\ rpb_page rpb' = 7 /\ latches (acc s') = [7].
Proof.
  assert (E : exists rpb' s' c', VIO_get 10 false false wanted reader_state Counts.empty_vector = Ret (true, rpb', s', c') /\ rpb_page rpb' = 7).
  { eexists. eexists. eexists. split; [vm_compute; reflexivity|vm_compute; reflexivity]. }
  destruct E as (rpb' & s' & c' & E & Hp). exists rpb', s', c'. split; [exact E|]. split; [exact Hp|].
  rewrite (VIO_get_latches 10 false false wanted reader_state _ true rpb' s' c' eq_refl E). cbn. by rewrite Hp.
Defined.

(** The reader with the page of the newest version in its hands. *)
Lemma sample_found :
  exists rpb s rpb' s', get true wanted reader_state = Ret (true, rpb, s) /\ latches (acc s) = [rpb_page rpb] /\
    window (acc s) = rpb_page rpb /\ on_page (clock (acc s)) rpb /\ trans s = reader /\
    VIO_chase_record_version 10 false rpb s = Ret (true, rpb', s') /\ rpb_transaction rpb' = 8.
Proof.
  assert (E : exists rpb s, get true wanted reader_state = Ret (true, rpb, s) /\ trans s = reader /\
    exists rpb' s', VIO_chase_record_version 10 false rpb s = Ret (true, rpb', s') /\ rpb_transaction rpb' = 8).
  { eexists. eexists. split; [vm_compute; reflexivity|]. split; [vm_compute; reflexivity|].
    eexists. eexists. split; vm_compute; reflexivity. }
  destruct E as (rpb & s & E & Ht & rpb' & s' & Ec & Hn). exists rpb, s, rpb', s'.
  pose proof (returns_ret _ _ _ (get_ok true wanted reader_state eq_refl) E) as [(_ & _ & Hl & Hw & Ho) _]. split_and!; assumption.
Qed.

Lemma chase_finds_committed_witness :
  exists rpb s rpb' s', VIO_chase_record_version 10 false rpb s = Ret (true, rpb', s') /\ rpb_transaction rpb' = 8 /\
    exists u, on_page u rpb'.
Proof.
  destruct sample_found as (rpb & s & rpb' & s' & _ & Hl & Hw & Ho & _ & E & Hn). exists rpb, s, rpb', s'.
  split; [exact E|]. split; [exact Hn|].
  destruct (chase_finds_committed 10 false rpb s true rpb' s' Hl Hw Ho E) as (_ & (u & _ & Hu) & _). by exists u.
Defined.

Lemma snapshot_isolation_witness :
  exists rpb' : record_param, rpb_transaction rpb' = 8 /\ (page_state ex_db 8 = tra_committed \/ page_state ex_db 8 = tra_limbo).
Proof.
  destruct sample_found as (rpb & s & rpb' & s' & _ & Hl & Hw & Ho & Ht & E & Hn). exists rpb'. split; [exact Hn|].
  assert (Einv : exists db1, TipCache.TRA_get_inventory true (Z.land (tra_oldest (tra (trans s))) (Z.lnot TRA_MASK)) (tra_top (tra (trans s))) ex_db
    = Ret (tra_transactions (tra (trans s)), db1)) by (rewrite Ht; eexists; vm_compute; reflexivity).
  destruct Einv as [db1 Einv]. assert (Hr : snapshot_reader (trans s)) by (rewrite Ht; split; cbn; (done || lia)).
  assert (Htop : tra_top (tra (trans s)) <= hdr_next_transaction ex_db) by (rewrite Ht; cbn; lia).
  pose proof (snapshot_isolation 10 false rpb s rpb' s' ex_db db1 Hl Hw Ho ex_wf ex_cache_ok Hr Htop Einv E) as H.
  cbn zeta in H. rewrite Ht, Hn in H. cbn [tra reader] in H. destruct H as [H|[H|[H|[H|[_ H] ] ] ] ]; [by cbn in H..| |exact H].
  by cbn in H; rewrite list_elem_of_singleton in H.
Defined.

End VioReader.
