(* ===== verification/QSort.v ===== *)
(** * Sorting pointers ([jrd/QSort.h])

    The template [QSort]: quicksort with an explicit stack that leaves pieces
    of two records alone, and a last pass over neighbours. *)

From S2P Require Import Prelude.
From stdpp Require Import list sorting.
#[local] Open Scope Z_scope.

Module QSort.

(** The virtual [compare] of the subclass. *)
Class Compare (T : Type) := compare : T -> T -> Z.

Definition stackSize : Z := 256.

Section QSort.
Context {T : Type} `{C : Compare T}.

(** [records[i]] *)
Definition record_at (records : list T) (i : Z) : outcome T :=
  if i <? 0 then Throw Overrun else
  match records !! Z.to_nat i with Some x => Ret x | None => Throw Overrun end.

Definition set_record (i : Z) (x : T) (records : list T) : outcome (list T) :=
  if (0 <=? i) && (i <? Z.of_nat (length records)) then Ret (<[Z.to_nat i := x]> records) else Throw Overrun.

(** [while (compare (records [i], key) <= 0 && i < limit) ++i] *)
Fixpoint scan_up (fuel : nat) (records : list T) (key : T) (limit i : Z) : outcome Z :=
  match fuel with
  | O => Throw Overrun
  | S fuel =>
      let* x := record_at records i in
      if (compare x key <=? 0) && (i <? limit) then scan_up fuel records key limit (i + 1) else Ret i
  end.

(** [while (compare (records [j], key) >= 0 && j > r) --j] *)
Fixpoint scan_down (fuel : nat) (records : list T) (key : T) (r j : Z) : outcome Z :=
  match fuel with
  | O => Throw Overrun
  | S fuel =>
      let* x := record_at records j in
      if (0 <=? compare x key) && (r <? j) then scan_down fuel records key r (j - 1) else Ret j
  end.

(** The loop that ends with [if (i >= j) break]; it returns [j]. *)
Fixpoint partition_loop (fuel : nat) (key : T) (r limit i j : Z) (records : list T) : outcome (Z * list T) :=
  match fuel with
  | O => Throw Overrun
  | S fuel =>
      let* i := scan_up (S (Z.to_nat (limit - i))) records key limit i in
      let* j := scan_down (S (Z.to_nat (j - r))) records key r j in
      if j <=? i then Ret (j, records) else
      let* temp := record_at records i in
      let* x := record_at records j in
      let* records := set_record i x records in
      let* records := set_record j temp records in
      partition_loop fuel key r limit i j records
  end.

(** The piece from [r] to [hi]: where the key ends up. *)
Definition split (r hi : Z) (records : list T) : outcome (Z * list T) :=
  let* key := record_at records r in
  let* (j, records) := partition_loop (S (Z.to_nat (hi - r))) key r hi (r + 1) hi records in
  let* x := record_at records j in
  let* records := set_record r x records in
  let* records := set_record j key records in
  Ret (j, records).

(** [low [stack] = l; high [stack++] = h] *)
Definition push (l h : Z) (stack : list (Z * Z)) : outcome (list (Z * Z)) :=
  if Z.of_nat (length stack) <? stackSize then Ret ((l, h) :: stack) else Throw Overrun.

Definition push_if (size l h : Z) (stack : list (Z * Z)) : outcome (list (Z * Z)) :=
  if 2 <=? size then push l h stack else Ret stack.

Fixpoint sort_loop (fuel : nat) (stack : list (Z * Z)) (records : list T) : outcome (list T) :=
  match stack with
  | [] => Ret records
  | (r, hi) :: stack =>
      match fuel with
      | O => Throw Overrun
      | S fuel =>
          let* (j, records) := split r hi records in
          let loSize := (j - 1) - r in
          let hiSize := hi - (j + 1) in
          let* stack :=
            (if hiSize <? loSize
             then let* stack := push_if loSize r (j - 1) stack in push_if hiSize (j + 1) hi stack
             else let* stack := push_if hiSize (j + 1) hi stack in push_if loSize r (j - 1) stack) in
          sort_loop fuel stack records
      end
  end.

(** The pass over neighbours: [for (n = 1; n < size; ++n)]. *)
Fixpoint flip_pass (x : T) (l : list T) : list T :=
  match l with
  | [] => [x]
  | y :: l => if 0 <? compare x y then y :: flip_pass x l else x :: flip_pass y l
  end.

Definition sort (records : list T) : outcome (list T) :=
  let size := Z.of_nat (length records) in
  let* stack := (if 2 <? size then push 0 (size - 1) [] else Ret []) in
  let* records := sort_loop (length records) stack records in
  Ret (match records with [] => [] | x :: l => flip_pass x l end).


(** ** The order *)

(** What a comparison function promises. *)
Class CompareLaws : Prop := {
  compare_flip x y : compare x y <= 0 <-> 0 <= compare y x;
  compare_trans x y z : compare x y <= 0 -> compare y z <= 0 -> compare x z <= 0
}.

Definition le (x y : T) : Prop := compare x y <= 0.

Context {L : CompareLaws}.

#[local] Instance le_trans : Transitive le.
Proof. intros x y z. apply compare_trans. Qed.

Lemma le_refl x : le x x.
Proof. unfold le. destruct (Z.le_gt_cases (compare x x) 0) as [|H]; [done|]. apply compare_flip. lia. Qed.

Lemma le_total x y : le x y \/ le y x.
Proof. unfold le. destruct (Z.le_gt_cases (compare x y) 0) as [|H]; [by left|right]. apply compare_flip. lia. Qed.

(** ** Positions *)

(** The records from [a] up to, not including, [b]. *)
Definition all_at (P : T -> Prop) (a b : Z) (l : list T) : Prop :=
  forall k x, a <= k < b -> l !! Z.to_nat k = Some x -> P x.

(** [l'] is [l] with the records from [a] to [b] in another order. *)
Record shuffled (a b : Z) (l l' : list T) : Prop := {
  sh_perm : l' ≡ₚ l;
  sh_out : forall k, 0 <= k -> k < a \/ b < k -> l' !! Z.to_nat k = l !! Z.to_nat k;
  sh_in : forall k, a <= k <= b -> exists k', a <= k' <= b /\ l' !! Z.to_nat k = l !! Z.to_nat k'
}.

Lemma shuffled_refl a b l : shuffled a b l l.
Proof. split; [done|done|]. intros k Hk. by exists k. Qed.

Lemma shuffled_trans a b l1 l2 l3 : 0 <= a -> shuffled a b l1 l2 -> shuffled a b l2 l3 -> shuffled a b l1 l3.
Proof.
  intros Ha [P1 O1 I1] [P2 O2 I2]. split.
  - by rewrite P2.
  - intros k Hk Hout. by rewrite O2, O1.
  - intros k Hk. destruct (I2 k Hk) as (k2 & Hk2 & ->). by apply I1.
Qed.

Lemma shuffled_wider a b a' b' l l' : 0 <= a' -> a' <= a -> b <= b' -> shuffled a b l l' -> shuffled a' b' l l'.
Proof.
  intros H0 Ha Hb [P O I]. split; [done| |].
  - intros k Hk Hout. apply O; lia.
  - intros k Hk. destruct (decide (a <= k <= b)) as [Hin|Hout].
    + destruct (I k Hin) as (k' & Hk' & E). exists k'. split; [lia|done].
    + exists k. split; [done|]. apply O; lia.
Qed.

Lemma shuffled_length a b l l' : shuffled a b l l' -> length l' = length l.
Proof. intros [P _ _]. by apply Permutation_length. Qed.

Lemma shuffled_all P a b l l' : shuffled a b l l' -> all_at P a (b + 1) l -> all_at P a (b + 1) l'.
Proof.
  intros [_ _ I] H k x Hk Hx. destruct (I k) as (k' & Hk' & E); [lia|]. apply (H k' x); [lia|]. by rewrite <-E.
Qed.

Lemma shuffled_apart P a b c d l l' :
  shuffled a b l l' -> 0 <= c -> d <= a \/ b < c -> all_at P c d l -> all_at P c d l'.
Proof. intros [_ O _] Hc Hd H k x Hk Hx. apply (H k x Hk). rewrite <-O; [done|lia|lia]. Qed.

Definition swap (i j k : nat) : nat := if decide (k = i) then j else if decide (k = j) then i else k.

Lemma swap_lookup (l : list T) i j x y k :
  l !! i = Some x -> l !! j = Some y -> <[j := x]> (<[i := y]> l) !! k = l !! swap i j k.
Proof.
  intros Hi Hj. pose proof (lookup_lt_Some _ _ _ Hi). pose proof (lookup_lt_Some _ _ _ Hj). unfold swap.
  destruct (decide (k = j)) as [->|Hkj].
  - rewrite list_lookup_insert_eq by (rewrite length_insert; lia). by destruct (decide (j = i)) as [->|]; congruence.
  - rewrite list_lookup_insert_ne by done. destruct (decide (k = i)) as [->|Hki].
    + by rewrite list_lookup_insert_eq by lia.
    + by rewrite list_lookup_insert_ne by done.
Qed.

Lemma swap_shuffled (l : list T) a b i j x y :
  0 <= a -> a <= i <= b -> a <= j <= b -> l !! Z.to_nat i = Some x -> l !! Z.to_nat j = Some y ->
  shuffled a b l (<[Z.to_nat j := x]> (<[Z.to_nat i := y]> l)).
Proof.
  intros Ha Hi Hj Hx Hy. pose proof (fun k => swap_lookup l _ _ x y k Hx Hy) as E. split.
  - apply Permutation_inj. split; [by rewrite !length_insert|]. exists (swap (Z.to_nat i) (Z.to_nat j)). split; [|done].
    intros k1 k2. unfold swap. repeat case_decide; lia.
  - intros k Hk Hout. rewrite E. unfold swap. rewrite !decide_False by lia. done.
  - intros k Hk. rewrite E. unfold swap. repeat case_decide; [exists j|exists i|exists k]; done.
Qed.

Lemma record_at_ok (l : list T) i x : 0 <= i -> l !! Z.to_nat i = Some x -> record_at l i = Ret x.
Proof. intros Hi Hx. unfold record_at. by rewrite (proj2 (Z.ltb_ge i 0)), Hx by lia. Qed.

Lemma record_exists (l : list T) i : 0 <= i < Z.of_nat (length l) -> exists x, l !! Z.to_nat i = Some x.
Proof. intros Hi. apply lookup_lt_is_Some_2. lia. Qed.

Lemma set_record_ok (l : list T) i x : 0 <= i < Z.of_nat (length l) -> set_record i x l = Ret (<[Z.to_nat i := x]> l).
Proof. intros Hi. unfold set_record. by rewrite (proj2 (Z.leb_le _ _)), (proj2 (Z.ltb_lt _ _)) by lia. Qed.

(** ** Scans *)

Lemma scan_up_ok fuel l key limit i :
  0 <= i <= limit -> limit < Z.of_nat (length l) -> limit - i < Z.of_nat fuel ->
  exists i', scan_up fuel l key limit i = Ret i' /\ i <= i' <= limit /\ all_at (fun x => le x key) i i' l /\
    (i' = limit \/ forall x, l !! Z.to_nat i' = Some x -> ~ le x key).
Proof.
  revert i. induction fuel as [|fuel IH]; intros i Hi Hl Hf; [lia|]. cbn [scan_up].
  destruct (record_exists l i) as [x Hx]; [lia|]. rewrite (record_at_ok _ _ _ (proj1 Hi) Hx). cbn [obind].
  destruct (Z.leb_spec (compare x key) 0) as [Hle|Hgt]; cbn [andb]; [destruct (Z.ltb_spec i limit) as [Hlt|Hge]|].
  - destruct (IH (i + 1)) as (i' & E & H1 & H2 & H3); [lia..|]. exists i'. split; [done|]. split; [lia|]. split; [|done].
    intros k y Hk Hy. destruct (decide (k = i)) as [->|]; [by rewrite Hx in Hy; injection Hy as <-|]. apply (H2 k); [lia|done].
  - exists i. split; [done|]. split; [lia|]. split; [intros k y Hk; lia|left; lia].
  - exists i. split; [done|]. split; [lia|]. split; [intros k y Hk; lia|right]. intros y Hy. rewrite Hx in Hy. injection Hy as <-. unfold le. lia.
Qed.

Lemma scan_down_ok fuel l key r j :
  0 <= r <= j -> j < Z.of_nat (length l) -> j - r < Z.of_nat fuel ->
  exists j', scan_down fuel l key r j = Ret j' /\ r <= j' <= j /\ all_at (le key) (j' + 1) (j + 1) l /\
    (j' = r \/ forall x, l !! Z.to_nat j' = Some x -> ~ le key x).
Proof.
  revert j. induction fuel as [|fuel IH]; intros j Hj Hl Hf; [lia|]. cbn [scan_down].
  destruct (record_exists l j) as [x Hx]; [lia|]. rewrite (record_at_ok _ j _ ltac:(lia) Hx). cbn [obind].
  destruct (Z.leb_spec 0 (compare x key)) as [Hle|Hgt]; cbn [andb]; [destruct (Z.ltb_spec r j) as [Hlt|Hge]|].
  - destruct (IH (j - 1)) as (j' & E & H1 & H2 & H3); [lia..|]. exists j'. split; [done|]. split; [lia|]. split; [|done].
    intros k y Hk Hy. destruct (decide (k = j)) as [->|]; [|apply (H2 k); [lia|done] ].
    rewrite Hx in Hy. injection Hy as <-. by apply compare_flip.
  - exists j. split; [done|]. split; [lia|]. split; [intros k y Hk; lia|left; lia].
  - exists j. split; [done|]. split; [lia|]. split; [intros k y Hk; lia|right]. intros y Hy. rewrite Hx in Hy. injection Hy as <-.
    unfold le. rewrite compare_flip. lia.
Qed.

(** ** Splitting a piece *)

Lemma all_at_split P a b c (l : list T) : a <= b <= c -> all_at P a b l -> all_at P b c l -> all_at P a c l.
Proof. intros H H1 H2 k x Hk Hx. destruct (decide (k < b)); [by apply (H1 k); [lia|]|by apply (H2 k); [lia|] ]. Qed.

(** What the loop has sorted out: [i] and [j] bound what is still to be looked
    at; after a swap, the record at [i] need not be. *)
Lemma partition_loop_ok fuel key r limit i j l :
  0 <= r -> r + 1 <= i <= limit -> r <= j <= limit -> limit < Z.of_nat (length l) ->
  all_at (fun x => le x key) (r + 1) i l -> all_at (le key) (j + 1) (limit + 1) l ->
  (limit - i < Z.of_nat fuel \/
   (limit - i <= Z.of_nat fuel /\ i < limit /\ exists x, l !! Z.to_nat i = Some x /\ le x key)) ->
  exists j' l', partition_loop fuel key r limit i j l = Ret (j', l') /\ r <= j' <= limit /\
    shuffled (r + 1) limit l l' /\
    all_at (fun x => le x key) (r + 1) (j' + 1) l' /\ all_at (le key) (j' + 1) (limit + 1) l'.
Proof.
  revert i j l. induction fuel as [|fuel IH]; intros i j l Hr Hi Hj Hl Hlow Hhigh Hf; [lia|]. cbn [partition_loop].
  destruct (scan_up_ok (S (Z.to_nat (limit - i))) l key limit i) as (i1 & -> & Hi1 & Hup & Hs1); [lia..|]. cbn [obind].
  destruct (scan_down_ok (S (Z.to_nat (j - r))) l key r j) as (j1 & -> & Hj1 & Hdn & Hs2); [lia..|]. cbn [obind].
  assert (Hlow1 : all_at (fun x => le x key) (r + 1) i1 l) by (apply (all_at_split _ _ i); [lia|done..]).
  assert (Hhigh1 : all_at (le key) (j1 + 1) (limit + 1) l) by (apply (all_at_split _ _ (j + 1)); [lia|done..]).
  destruct (Z.leb_spec j1 i1) as [Hij|Hij].
  - exists j1, l. split; [done|]. split; [lia|]. split; [apply shuffled_refl|]. split; [|done].
    destruct (decide (j1 < i1)); [intros k x Hk; apply (Hlow1 k x); lia|]. assert (j1 = i1) as -> by lia.
    apply (all_at_split _ _ i1); [lia|done|]. intros k x Hk Hx. assert (k = i1) as -> by lia.
    destruct Hs2 as [->|Hnle]; [lia|]. destruct (le_total x key) as [|Hk']; [done|]. by destruct (Hnle x Hx).
  - destruct (record_exists l i1) as [x Hx]; [lia|]. destruct (record_exists l j1) as [y Hy]; [lia|].
    rewrite (record_at_ok l i1 x), (record_at_ok l j1 y) by (done || lia). cbn [obind].
    rewrite set_record_ok by lia. cbn [obind]. rewrite set_record_ok by (rewrite length_insert; lia). cbn [obind].
    destruct Hs1 as [|Hx']; [lia|]. specialize (Hx' x Hx). destruct Hs2 as [|Hy']; [lia|]. specialize (Hy' y Hy).
    assert (Hyk : le y key) by (by destruct (le_total y key)).
    pose proof (swap_shuffled l (r + 1) limit i1 j1 x y ltac:(lia) ltac:(lia) ltac:(lia) Hx Hy) as Hsh.
    set (l1 := <[Z.to_nat j1:=x]> (<[Z.to_nat i1:=y]> l)) in *.
    assert (Hat : forall k, k <> Z.to_nat i1 -> k <> Z.to_nat j1 -> l1 !! k = l !! k).
    { intros k H1 H2. unfold l1. by rewrite !list_lookup_insert_ne by done. }
    assert (Hati : l1 !! Z.to_nat i1 = Some y).
    { unfold l1. rewrite list_lookup_insert_ne by lia. apply list_lookup_insert_eq. lia. }
    assert (Hatj : l1 !! Z.to_nat j1 = Some x).
    { unfold l1. apply list_lookup_insert_eq. rewrite length_insert. lia. }
    destruct (IH i1 j1 l1) as (j' & l' & E & Hj' & Hsh' & Hlo' & Hhi').
    + done.
    + lia.
    + lia.
    + rewrite (shuffled_length _ _ _ _ Hsh). lia.
    + intros k z Hk Hz. apply (Hlow1 k z Hk). by rewrite <-Hat by lia.
    + intros k z Hk Hz. apply (Hhigh1 k z Hk). by rewrite <-Hat by lia.
    + right. split; [|split; [lia|by exists y] ]. destruct Hf as [|(Hf & Hil & w & Hw & Hwk)]; [lia|].
      destruct (decide (i1 = i)) as [->|]; [|lia]. rewrite Hx in Hw. injection Hw as <-. done.
    + exists j', l'. split; [done|]. split; [done|]. split; [|done]. apply (shuffled_trans _ _ _ l1); [lia|done..].
Qed.

Lemma split_ok r hi l :
  0 <= r -> r < hi -> hi < Z.of_nat (length l) ->
  exists j key l', split r hi l = Ret (j, l') /\ r <= j <= hi /\ shuffled r hi l l' /\ l' !! Z.to_nat j = Some key /\
    all_at (fun x => le x key) r j l' /\ all_at (le key) (j + 1) (hi + 1) l'.
Proof.
  intros Hr Hlt Hl. unfold split. destruct (record_exists l r) as [key Hkey]; [lia|]. rewrite (record_at_ok l r key Hr Hkey). cbn [obind].
  destruct (partition_loop_ok (S (Z.to_nat (hi - r))) key r hi (r + 1) hi l) as (j & l1 & -> & Hj & Hsh & Hlo & Hhi);
    [lia|lia|lia|lia|intros k x Hk; lia|intros k x Hk; lia|left; lia|]. cbn [obind].
  pose proof (shuffled_length _ _ _ _ Hsh) as Hlen. assert (Hkey1 : l1 !! Z.to_nat r = Some key) by (by rewrite (sh_out _ _ _ _ Hsh) by lia).
  destruct (record_exists l1 j) as [x Hx]; [lia|]. rewrite (record_at_ok l1 j x) by (done || lia). cbn [obind].
  rewrite set_record_ok by lia. cbn [obind]. rewrite set_record_ok by (rewrite length_insert; lia). cbn [obind].
  exists j, key, (<[Z.to_nat j := key]> (<[Z.to_nat r := x]> l1)). split; [done|]. split; [lia|].
  pose proof (swap_shuffled l1 r hi r j key x Hr ltac:(lia) ltac:(lia) Hkey1 Hx) as Hsw. split; [|split; [|split] ].
  - apply (shuffled_trans _ _ _ l1); [done| |done]. by apply (shuffled_wider (r + 1) hi); [lia..|].
  - apply list_lookup_insert_eq. rewrite length_insert. lia.
  - intros k y Hk Hy. rewrite list_lookup_insert_ne in Hy by lia. destruct (decide (k = r)) as [->|Hne].
    + rewrite list_lookup_insert_eq in Hy by lia. injection Hy as <-. apply (Hlo j x); [lia|done].
    + rewrite list_lookup_insert_ne in Hy by lia. apply (Hlo k y); [lia|done].
  - intros k y Hk Hy. rewrite !list_lookup_insert_ne in Hy by lia. apply (Hhi k y); [lia|done].
Qed.

(** ** Sorting a piece *)

(** All but neighbours are in order. *)
Definition almost (a b : Z) (l : list T) : Prop :=
  forall p q x y, a <= p -> p + 2 <= q -> q <= b -> l !! Z.to_nat p = Some x -> l !! Z.to_nat q = Some y -> le x y.

Lemma almost_same a b l l' :
  (forall k, a <= k <= b -> l' !! Z.to_nat k = l !! Z.to_nat k) -> almost a b l -> almost a b l'.
Proof. intros E H p q x y Hp Hpq Hq Hx Hy. rewrite E in Hx, Hy by lia. by apply (H p q). Qed.

Lemma almost_small a b l : b <= a + 1 -> almost a b l.
Proof. intros Hb p q x y Hp Hpq Hq. lia. Qed.

(** A piece on top of the stack, or one that was not pushed, is dealt with
    before what is below. *)
Definition sorts_piece (a b : Z) : Prop :=
  forall l stack fuel,
    0 <= a -> b < Z.of_nat (length l) -> (b - a) * 2 ^ Z.of_nat (length stack) < 2147483648 -> b - a <= Z.of_nat fuel ->
    exists l' fuel',
      sort_loop fuel (if 2 <=? b - a then (a, b) :: stack else stack) l = sort_loop fuel' stack l' /\
      Z.of_nat fuel <= Z.of_nat fuel' + Z.max 0 (b - a) /\ shuffled a b l l' /\ almost a b l'.

Lemma small_piece a b : b - a < 2 -> sorts_piece a b.
Proof.
  intros Hab l stack fuel Ha Hb _ _. rewrite (proj2 (Z.leb_gt _ _)) by lia. exists l, fuel. split; [done|]. split; [lia|].
  split; [apply shuffled_refl|]. apply almost_small. lia.
Qed.

Lemma push_if_ok a b stack :
  (b - a) * 2 ^ Z.of_nat (length stack) < 2147483648 ->
  push_if (b - a) a b stack = Ret (if 2 <=? b - a then (a, b) :: stack else stack).
Proof.
  intros H. unfold push_if. destruct (Z.leb_spec 2 (b - a)); [|done]. unfold push, stackSize. rewrite (proj2 (Z.ltb_lt _ _)); [done|].
  destruct (Z.lt_ge_cases (Z.of_nat (length stack)) 256) as [|Hge]; [done|exfalso].
  pose proof (Z.pow_le_mono_r 2 256 (Z.of_nat (length stack)) eq_refl Hge) as Hp.
  assert (2 * 2 ^ 256 <= (b - a) * 2 ^ Z.of_nat (length stack)) by nia.
  assert (2147483648 < 2 * 2 ^ 256) by reflexivity. lia.
Qed.

(** Two pieces side by side: the larger below the smaller. *)
Lemma two_pieces a b c d l stack fuel :
  sorts_piece a b -> sorts_piece c d ->
  0 <= a -> 0 <= c -> a <= b + 1 -> c <= d + 1 -> b < c \/ d < a -> b < Z.of_nat (length l) -> d < Z.of_nat (length l) ->
  b - a <= d - c -> (d - c) * 2 ^ Z.of_nat (length stack) < 2147483648 ->
  (b - a) * 2 ^ Z.of_nat (S (length stack)) < 2147483648 ->
  Z.max 0 (b - a) + Z.max 0 (d - c) <= Z.of_nat fuel ->
  exists l' fuel',
    (let* stack := (let* stack := push_if (d - c) c d stack in push_if (b - a) a b stack) in sort_loop fuel stack l)
    = sort_loop fuel' stack l' /\
    Z.of_nat fuel <= Z.of_nat fuel' + Z.max 0 (b - a) + Z.max 0 (d - c) /\
    exists l1, shuffled a b l l1 /\ shuffled c d l1 l' /\ almost a b l' /\ almost c d l'.
Proof.
  intros Hp1 Hp2 Ha Hc Hab Hcd Hap Hbl Hdl Hle Hpow Hpow' Hf. rewrite (push_if_ok c d) by done. cbn [obind].
  set (stack1 := if 2 <=? d - c then (c, d) :: stack else stack).
  assert (Hlen : (b - a) * 2 ^ Z.of_nat (length stack1) < 2147483648).
  { unfold stack1. destruct (Z.leb_spec 2 (d - c)); cbn [length]; [done|].
    destruct (Z.le_gt_cases (b - a) 0); [|nia]. pose proof (Z.pow_nonneg 2 (Z.of_nat (length stack)) ltac:(lia)). nia. }
  rewrite (push_if_ok a b stack1 Hlen). cbn [obind].
  destruct (Hp1 l stack1 fuel) as (l1 & fuel1 & -> & Hf1 & Hsh1 & Hal1); [done|done|done|lia|].
  pose proof (shuffled_length _ _ _ _ Hsh1) as Hl1.
  destruct (Hp2 l1 stack fuel1) as (l' & fuel' & E2 & Hf2 & Hsh2 & Hal2); [done|lia|done|lia|].
  fold stack1 in E2. rewrite E2.
  exists l', fuel'. split; [done|]. split; [lia|]. exists l1. split; [done|]. split; [done|]. split; [|done].
  apply (almost_same a b l1); [|done]. intros k Hk. apply (sh_out _ _ _ _ Hsh2); lia.
Qed.

Lemma piece_ok n : forall a b, b - a <= Z.of_nat n -> sorts_piece a b.
Proof.
  induction n as [|n IH]; intros a b Hn; [apply small_piece; lia|].
  destruct (Z.lt_ge_cases (b - a) 2) as [|Hbig]; [by apply small_piece|].
  intros l stack fuel Ha Hb Hpow Hf. rewrite (proj2 (Z.leb_le 2 (b - a))) by lia.
  destruct fuel as [|fuel]; [lia|]. cbn [sort_loop].
  destruct (split_ok a b l) as (j & key & l1 & -> & Hj & Hsh & Hkey & Hlo & Hhi); [lia..|]. cbn [obind].
  pose proof (shuffled_length _ _ _ _ Hsh) as Hlen.
  pose proof (Z.pow_pos_nonneg 2 (Z.of_nat (length stack)) ltac:(lia) ltac:(lia)) as Hpos.
  assert (Hp1 : sorts_piece a (j - 1)) by (apply IH; lia). assert (Hp2 : sorts_piece (j + 1) b) by (apply IH; lia).
  assert (Hfin : forall l2 l' fuel', shuffled a (j - 1) l1 l2 /\ shuffled (j + 1) b l2 l' \/ shuffled (j + 1) b l1 l2 /\ shuffled a (j - 1) l2 l' ->
    almost a (j - 1) l' -> almost (j + 1) b l' -> Z.of_nat fuel <= Z.of_nat fuel' + Z.max 0 (j - 1 - a) + Z.max 0 (b - (j + 1)) ->
    Z.of_nat (S fuel) <= Z.of_nat fuel' + Z.max 0 (b - a) /\ shuffled a b l l' /\ almost a b l').
  { intros l2 l' fuel' Hshs Hal1 Hal2 Hfu. split; [lia|].
    assert (Hkey' : l' !! Z.to_nat j = Some key).
    { destruct Hshs as [[S1 S2]|[S1 S2]]; by rewrite (sh_out _ _ _ _ S2), (sh_out _ _ _ _ S1) by lia. }
    assert (Hlo' : all_at (fun x => le x key) a j l').
    { replace j with (j - 1 + 1) by lia. destruct Hshs as [[S1 S2]|[S1 S2]].
      - apply (shuffled_apart _ (j + 1) b _ _ l2); [done|lia|lia|]. apply (shuffled_all _ _ _ l1); [done|]. by replace (j - 1 + 1) with j by lia.
      - apply (shuffled_all _ _ _ l2); [done|]. apply (shuffled_apart _ (j + 1) b _ _ l1); [done|lia|lia|]. by replace (j - 1 + 1) with j by lia. }
    assert (Hhi' : all_at (le key) (j + 1) (b + 1) l').
    { destruct Hshs as [[S1 S2]|[S1 S2]].
      - apply (shuffled_all _ _ _ l2); [done|]. apply (shuffled_apart _ a (j - 1) _ _ l1); [done|lia|lia|done].
      - apply (shuffled_apart _ a (j - 1) _ _ l2); [done|lia|lia|]. by apply (shuffled_all _ _ _ l1). }
    split.
    - apply (shuffled_trans _ _ _ l1); [done..|]. destruct Hshs as [[S1 S2]|[S1 S2]]; (apply (shuffled_trans _ _ _ l2); [done|..]);
        (eapply shuffled_wider; [done| | |eassumption]; lia).
    - intros p q x y Hp Hpq Hq Hx Hy.
      destruct (Z.lt_trichotomy q j) as [Hqj|[->|Hqj]].
      + apply (Hal1 p q); [lia..|done|done].
      + rewrite Hkey' in Hy. injection Hy as <-. apply (Hlo' p x); [lia|done].
      + destruct (Z.lt_trichotomy p j) as [Hpj|[->|Hpj]].
        * transitivity key; [apply (Hlo' p x); [lia|done]|apply (Hhi' q y); [lia|done] ].
        * rewrite Hkey' in Hx. injection Hx as <-. apply (Hhi' q y); [lia|done].
        * apply (Hal2 p q); [lia..|done|done]. }
  destruct (Z.ltb_spec (b - (j + 1)) (j - 1 - a)) as [Hs|Hs].
  - destruct (two_pieces (j + 1) b a (j - 1) l1 stack fuel) as (l' & fuel' & E & Hfu & l2 & S1 & S2 & A1 & A2);
      [done|done|lia|lia|lia|lia|lia|lia|lia|lia|nia|rewrite Nat2Z.inj_succ, Z.pow_succ_r by lia; nia|lia|].
    exists l', fuel'. split; [exact E|]. apply (Hfin l2); [by right|done|done|lia].
  - destruct (two_pieces a (j - 1) (j + 1) b l1 stack fuel) as (l' & fuel' & E & Hfu & l2 & S1 & S2 & A1 & A2);
      [done|done|lia|lia|lia|lia|lia|lia|lia|lia|nia|rewrite Nat2Z.inj_succ, Z.pow_succ_r by lia; nia|lia|].
    exists l', fuel'. split; [exact E|]. apply (Hfin l2); [by left|done|done|lia].
Qed.

(** ** The last pass *)

Definition nearly (l : list T) : Prop :=
  forall p q x y, (p + 2 <= q)%nat -> l !! p = Some x -> l !! q = Some y -> le x y.

Lemma flip_pass_perm x l : flip_pass x l ≡ₚ x :: l.
Proof.
  revert x. induction l as [|y l IH]; intros x; cbn; [done|]. destruct (0 <? compare x y); rewrite IH; [apply Permutation_swap|done].
Qed.

Lemma nearly_drop x y z l : (z = x \/ z = y) -> nearly (x :: y :: l) -> nearly (z :: l).
Proof.
  intros Hz H p q a b Hpq Ha Hb. destruct q as [|q]; [lia|]. cbn in Hb. destruct p as [|p]; cbn in Ha.
  - injection Ha as <-. destruct Hz as [->| ->]; [apply (H 0%nat (S (S q))); (done || lia)|apply (H 1%nat (S (S q))); (done || lia)].
  - by apply (H (S (S p)) (S (S q))); [lia|..].
Qed.

Lemma flip_pass_sorted x l : nearly (x :: l) -> StronglySorted le (flip_pass x l).
Proof.
  revert x. induction l as [|y l IH]; intros x Hn; cbn; [by repeat constructor|].
  assert (Htail : forall z, z ∈ l -> le x z).
  { intros z Hz. apply list_elem_of_lookup_1 in Hz as [k Hk]. by apply (Hn 0%nat (S (S k))); [lia|..]. }
  destruct (Z.ltb_spec 0 (compare x y)) as [Hgt|Hle].
  - assert (Hyx : le y x) by (destruct (le_total x y); [unfold le in *; lia|done]).
    constructor; [apply IH; by apply (nearly_drop x y); [left|]|]. apply list.Forall_forall. intros z Hz.
    rewrite flip_pass_perm in Hz. apply elem_of_cons in Hz as [->|Hz]; [done|]. transitivity x; [done|by apply Htail].
  - constructor; [apply IH; by apply (nearly_drop x y); [right|]|]. apply list.Forall_forall. intros z Hz.
    rewrite flip_pass_perm in Hz. apply elem_of_cons in Hz as [->|Hz]; [done|by apply Htail].
Qed.

Lemma almost_nearly l : almost 0 (Z.of_nat (length l) - 1) l -> nearly l.
Proof.
  intros H p q x y Hpq Hx Hy. pose proof (lookup_lt_Some _ _ _ Hy). apply (H (Z.of_nat p) (Z.of_nat q)); [lia..| |]; by rewrite Nat2Z.id.
Qed.

Lemma sort_ok (l : list T) :
  Z.of_nat (length l) < 2147483648 -> exists l', sort l = Ret l' /\ l' ≡ₚ l /\ StronglySorted le l'.
Proof.
  intros Hlen. unfold sort.
  destruct (piece_ok (length l) 0 (Z.of_nat (length l) - 1) ltac:(lia) l [] (length l)) as (l1 & fuel' & E & _ & Hsh & Hal);
    [lia|lia|cbn [length]; lia|lia|].
  assert (Es : (let* stack := (if 2 <? Z.of_nat (length l) then push 0 (Z.of_nat (length l) - 1) [] else Ret []) in sort_loop (length l) stack l) = Ret l1).
  { assert (Hend : sort_loop fuel' [] l1 = Ret l1) by (by destruct fuel'). rewrite Hend in E.
    destruct (Z.ltb_spec 2 (Z.of_nat (length l))) as [H2|H2]; cbn [obind].
    - rewrite (proj2 (Z.leb_le _ _)) in E by lia. exact E.
    - destruct (Z.leb_spec 2 (Z.of_nat (length l) - 1 - 0)); [lia|exact E]. }
  apply obind_ret in Es as (stack & -> & Eloop). cbn [obind]. rewrite Eloop. cbn [obind].
  rewrite <-(shuffled_length _ _ _ _ Hsh) in Hal. apply almost_nearly in Hal. pose proof (sh_perm _ _ _ _ Hsh) as Hperm.
  destruct l1 as [|x l1].
  - exists []. split; [done|]. split; [done|constructor].
  - exists (flip_pass x l1). split; [done|]. split; [by rewrite flip_pass_perm|by apply flip_pass_sorted].
Qed.

(** C33: [sort] returns the records in order, neither losing nor repeating any,
    and stays within its two stacks of 256 positions and the array, for every
    array an [int] can count.  (Pieces of two records are left to the last
    pass; the larger piece is pushed first.) *)
Theorem sort_sorted (l : list T) :
  Z.of_nat (length l) < 2147483648 -> exists l', sort l = Ret l' /\ l' ≡ₚ l /\ StronglySorted le l'.
Proof. apply sort_ok. Qed.

End QSort.

(** ** Numbers in order *)

#[local] Instance compare_numbers : Compare Z := fun x y => x - y.
#[local] Instance compare_numbers_laws : CompareLaws (T := Z).
Proof. split; unfold compare, compare_numbers; lia. Qed.

Example sort_example : sort [5; 3; 9; 1; 1; 8; 2; 7] = Ret [1; 1; 2; 3; 5; 7; 8; 9].
Proof. reflexivity. Qed.

Lemma sort_sorted_witness : exists l', sort [5; 3; 9; 1; 1; 8; 2; 7] = Ret l' /\ l' ≡ₚ [5; 3; 9; 1; 1; 8; 2; 7] /\ StronglySorted le l'.
Proof. apply (sort_sorted [5; 3; 9; 1; 1; 8; 2; 7]). reflexivity. Defined.

End QSort.
