(* ===== verification/PageCache.v ===== *)
(** * The page cache ([jrd/PageCache.cpp], [jrd/Bdb.cpp], [jrd/cch.h])

    Buffers for pages, which of them have to be written before which others
    (the precedence graph), and writing them.  The configuration is that of
    the engine library: [SHARED_CACHE] and [SUPERSERVER] are defined,
    [CACHE_WRITER] is not.  One thread runs: its latches are counted, those
    of others, page locks between processes, shadows, and files of differences
    are left out.  Of the contents of a page only the incarnation is kept,
    which grows with each change of a page. *)

From S2P Require Import Prelude.
From S2P Require Import QSort.
From stdpp Require Import list.
#[local] Open Scope Z_scope.

Module PageCache.
Import QSort.

(** ** Data *)

Definition HEADER_PAGE : Z := 0.
Definition JOURNAL_PAGE : Z := -1.
Definition PRE_SEARCH_LIMIT : Z := 100.
Definition PRE_EXISTS : Z := -1.
Definition PRE_UNKNOWN : Z := -2.
Definition FLUSH_ALL : Z := 1.
Definition FLUSH_TRAN : Z := 4.
Definition FLUSH_SWEEP : Z := 8.
Definition FLUSH_SYSTEM : Z := 16.
Definition isc_io_error : Z := 335544344.

(** A buffer, with the bits of [bdb_flags] by name. *)
Record Bdb := mk_bdb {
  bdb_page : Z;
  bdb_incarnation : Z;
  bdb_transactions : Z;
  bdb_mark_sequence : Z;
  bdb_use_count : Z;
  exclusive : bool;
  writers : Z;
  BDB_dirty : bool;
  BDB_db_dirty : bool;
  BDB_writer : bool;
  BDB_marked : bool;
  BDB_faked : bool;
  BDB_must_write : bool;
  BDB_system_dirty : bool
}.

(** [pre_hi] has to be written before [pre_low]. *)
Record Precedence := mk_precedence { pre_hi : nat; pre_low : nat; pre_cleared : bool }.

#[global] Instance Precedence_eq_dec : EqDecision Precedence.
Proof. solve_decision. Defined.

(** The cache: buffers by number; all precedence blocks, newest first, which
    is the order they have in the queues of each buffer; buffers without a
    page; the queue of dirty buffers; what has been written to the database
    file, newest first: a page and its incarnation. *)
Record cache := mk_cache {
  bdbs : list Bdb;
  precedences : list Precedence;
  bcb_empty : list nat;
  bcb_dirty : list nat;
  markSequence : Z;
  dbb_page_incarnation : Z;
  dbb_last_header_write : Z;
  attempts : nat;
  writes : list (Z * Z)
}.

Definition with_bdbs (l : list Bdb) (s : cache) : cache :=
  mk_cache l (precedences s) (bcb_empty s) (bcb_dirty s) (markSequence s) (dbb_page_incarnation s)
    (dbb_last_header_write s) (attempts s) (writes s).
Definition with_precedences (l : list Precedence) (s : cache) : cache :=
  mk_cache (bdbs s) l (bcb_empty s) (bcb_dirty s) (markSequence s) (dbb_page_incarnation s)
    (dbb_last_header_write s) (attempts s) (writes s).
Definition with_empty (l : list nat) (s : cache) : cache :=
  mk_cache (bdbs s) (precedences s) l (bcb_dirty s) (markSequence s) (dbb_page_incarnation s)
    (dbb_last_header_write s) (attempts s) (writes s).
Definition with_dirty (l : list nat) (s : cache) : cache :=
  mk_cache (bdbs s) (precedences s) (bcb_empty s) l (markSequence s) (dbb_page_incarnation s)
    (dbb_last_header_write s) (attempts s) (writes s).
Definition with_sequence (n : Z) (s : cache) : cache :=
  mk_cache (bdbs s) (precedences s) (bcb_empty s) (bcb_dirty s) n (dbb_page_incarnation s)
    (dbb_last_header_write s) (attempts s) (writes s).
Definition with_incarnation (n : Z) (s : cache) : cache :=
  mk_cache (bdbs s) (precedences s) (bcb_empty s) (bcb_dirty s) (markSequence s) n
    (dbb_last_header_write s) (attempts s) (writes s).
Definition with_file (header : Z) (n : nat) (w : list (Z * Z)) (s : cache) : cache :=
  mk_cache (bdbs s) (precedences s) (bcb_empty s) (bcb_dirty s) (markSequence s) (dbb_page_incarnation s)
    header n w.

(** The file, whose writes may fail, and the numbers on an incarnation of the
    header page. *)
Class Storage := {
  PIO_write : nat -> bool;
  hdr_next_transaction : Z -> Z;
  hdr_oldest_active : Z -> Z;
  hdr_oldest_transaction : Z -> Z
}.

(** [ERR_punt] after a failed write. *)
Definition punt : fault := Post isc_io_error.

Definition bdb_at (s : cache) (b : nat) : outcome Bdb :=
  match bdbs s !! b with Some x => Ret x | None => Throw Overrun end.

Definition set_bdb (b : nat) (x : Bdb) (s : cache) : cache := with_bdbs (<[b := x]> (bdbs s)) s.

(** The buffers above and below a buffer, in the order of its queues. *)
Definition bdb_higher (s : cache) (b : nat) : list Precedence :=
  filter (fun p => pre_low p = b) (precedences s).
Definition bdb_lower (s : cache) (b : nat) : list Precedence :=
  filter (fun p => pre_hi p = b) (precedences s).

Fixpoint delete_first (p : Precedence) (l : list Precedence) : list Precedence :=
  match l with
  | [] => []
  | q :: l => if decide (q = p) then l else q :: delete_first p l
  end.

Definition deletePrecedence (p : Precedence) (s : cache) : cache :=
  with_precedences (delete_first p (precedences s)) s.

(** Every block in the lower queue is deleted. *)
Definition clearPrecedence (b : nat) (s : cache) : cache :=
  fold_left (fun s p => deletePrecedence p s) (bdb_lower s b) s.

(** ** Latches: [addRef] and [release] of [Bdb] *)

Definition with_latch (use : Z) (ex : bool) (w : Z) (x : Bdb) : Bdb :=
  mk_bdb (bdb_page x) (bdb_incarnation x) (bdb_transactions x) (bdb_mark_sequence x) use ex w
    (BDB_dirty x) (BDB_db_dirty x) (BDB_writer x) (BDB_marked x) (BDB_faked x) (BDB_must_write x) (BDB_system_dirty x).

Definition addRef (write : bool) (x : Bdb) : Bdb :=
  if write then with_latch (bdb_use_count x + 1) true (writers x + 1) x
  else with_latch (bdb_use_count x + 1) (exclusive x) (writers x) x.

Definition unref (x : Bdb) : Bdb :=
  if exclusive x then with_latch (bdb_use_count x - 1) (negb (writers x - 1 =? 0)) (writers x - 1) x
  else with_latch (bdb_use_count x - 1) false (writers x) x.

(** To [Shared]. *)
Definition downGrade (x : Bdb) : Bdb :=
  if exclusive x then with_latch (bdb_use_count x) false (writers x - 1) x else x.

(** ** The queue of dirty buffers *)

Definition with_mark_sequence (n : Z) (x : Bdb) : Bdb :=
  mk_bdb (bdb_page x) (bdb_incarnation x) (bdb_transactions x) n (bdb_use_count x) (exclusive x) (writers x)
    (BDB_dirty x) (BDB_db_dirty x) (BDB_writer x) (BDB_marked x) (BDB_faked x) (BDB_must_write x) (BDB_system_dirty x).

Definition insertDirtyPage (b : nat) (s : cache) : outcome cache :=
  let* x := bdb_at s b in
  if negb (bdb_mark_sequence x =? 0) then Ret s else
  if negb (BDB_dirty x) then Throw (BUGCHECK (-1)) else
  let n := markSequence s + 1 in
  Ret (with_dirty (bcb_dirty s ++ [b]) (with_sequence n (set_bdb b (with_mark_sequence n x) s))).

Definition removeDirtyPage (b : nat) (s : cache) : outcome cache :=
  let* x := bdb_at s b in
  if bdb_mark_sequence x =? 0 then Ret s else
  Ret (with_dirty (filter (fun c => c <> b) (bcb_dirty s)) (set_bdb b (with_mark_sequence 0 x) s)).

Definition page_of (s : cache) (b : nat) : Z :=
  match bdbs s !! b with Some x => bdb_page x | None => 0 end.

(** [BdbSort] *)
Definition BdbSort (s : cache) (l : list nat) : outcome (list nat) :=
  sort (C := fun b c => page_of s b - page_of s c) l.

Definition out_of_order (s : cache) : Z -> list nat -> bool :=
  fix scan prior l :=
    match l with [] => false | b :: l => (page_of s b <? prior) || scan (page_of s b) l end.

Definition reorderDirty (s : cache) : outcome cache :=
  let l := bcb_dirty s in
  if negb (out_of_order s (-1) l) then Ret s else
  match l with
  | [b; c] => Ret (with_dirty [c; b] s)
  | _ => let* l := BdbSort s l in Ret (with_dirty l s)
  end.

(** ** [mark] *)

Definition mark_bits (number : Z) : Z := Z.shiftl 1 (Z.land number 31).

Definition with_mark (inc trans : Z) (sys : bool) (x : Bdb) : Bdb :=
  mk_bdb (bdb_page x) inc (Z.lor (bdb_transactions x) trans) (bdb_mark_sequence x) (bdb_use_count x) (exclusive x) (writers x)
    true true (BDB_writer x) true (BDB_faked x) (BDB_must_write x) (BDB_system_dirty x || sys).

(** [number] is the transaction of the thread, 0 for the system transaction or
    none. *)
Definition mark (sweeper : bool) (number : Z) (mark_system : bool) (b : nat) (s : cache) : outcome cache :=
  let* x := bdb_at s b in
  let inc := dbb_page_incarnation s + 1 in
  let s := with_incarnation inc s in
  if negb (BDB_writer x) then Throw (BUGCHECK 208) else
  let trans := if negb (number =? 0) && negb sweeper then mark_bits number else 0 in
  let x := with_mark inc trans ((number =? 0) || mark_system) x in
  let s := set_bdb b x s in
  if negb sweeper || BDB_system_dirty x then insertDirtyPage b s else Ret s.

Definition with_must_write (x : Bdb) : Bdb :=
  mk_bdb (bdb_page x) (bdb_incarnation x) (bdb_transactions x) (bdb_mark_sequence x) (bdb_use_count x) (exclusive x) (writers x)
    true (BDB_db_dirty x) (BDB_writer x) (BDB_marked x) (BDB_faked x) true (BDB_system_dirty x).

Definition markMustWrite (sweeper : bool) (number : Z) (b : nat) (s : cache) : outcome cache :=
  let* x := bdb_at s b in
  if negb (BDB_writer x) then Throw (BUGCHECK 208) else
  mark sweeper number false b (set_bdb b (with_must_write x) s).

(** ** Writing *)

Definition needs_write (write_thru : bool) (x : Bdb) : bool := BDB_dirty x || (write_thru && BDB_db_dirty x).

Definition with_written (x : Bdb) : Bdb :=
  mk_bdb (bdb_page x) (bdb_incarnation x) 0 (bdb_mark_sequence x) (bdb_use_count x) (exclusive x) (writers x)
    false false (BDB_writer x) (BDB_marked x) (BDB_faked x) false false.

Section PageCache.
Context `{ST : Storage}.

Definition header_check (x : Bdb) : outcome unit :=
  let n := bdb_incarnation x in
  if (bdb_page x =? HEADER_PAGE) && negb (hdr_next_transaction n =? 0) then
    if hdr_next_transaction n <? hdr_oldest_active n then Throw (BUGCHECK 266)
    else if hdr_next_transaction n <? hdr_oldest_transaction n then Throw (BUGCHECK 267)
    else Ret ()
  else Ret ().

(** The page goes to the file, unless that fails. *)
Definition write_to_file (x : Bdb) (s : cache) : bool * cache :=
  if 0 <=? bdb_page x then
    if PIO_write (attempts s) then
      (true, with_file (if bdb_page x =? HEADER_PAGE then hdr_next_transaction (bdb_incarnation x) else dbb_last_header_write s)
               (S (attempts s)) ((bdb_page x, bdb_incarnation x) :: writes s) s)
    else (false, with_file (dbb_last_header_write s) (S (attempts s)) (writes s) s)
  else (true, s).

Definition writePage (write_thru : bool) (b : nat) (s : cache) : outcome (bool * cache) :=
  let* x := bdb_at s b in
  if negb (needs_write write_thru x && negb (BDB_marked x)) then Ret (true, s) else
  let* _ := header_check x in
  let (result, s) := write_to_file x s in
  if negb result then Ret (false, s) else
  let* s := removeDirtyPage b s in
  let* x := bdb_at s b in
  Ret (true, set_bdb b (with_written x) s).

(** [writeBuffer], and its loop over the higher queue, which yields a status
    where the function returns. *)
Fixpoint writeBuffer (fuel : nat) (write_thru write_this_page : bool) (b : nat) (s : cache) : outcome (Z * cache) :=
  match fuel with
  | O => Throw Overrun
  | S fuel =>
      let* x := bdb_at s b in
      if BDB_marked x && negb (BDB_faked x) then Throw (BUGCHECK 217) else
      if negb (needs_write write_thru x) then Ret (1, clearPrecedence b s) else
      let* (r, s) := write_higher fuel write_thru write_this_page b s in
      match r with
      | Some status => Ret (status, s)
      | None =>
          let* x := bdb_at s b in
          let* (result, s) :=
            (if needs_write write_thru x && negb (BDB_marked x) then
               let* (ok, s) := writePage write_thru b s in
               Ret (ok, if ok : bool then clearPrecedence b s else s)
             else Ret (true, clearPrecedence b s)) in
          if negb result then Ret (0, s) else if negb write_this_page then Ret (2, s) else Ret (1, s)
      end
  end
with write_higher (fuel : nat) (write_thru write_this_page : bool) (b : nat) (s : cache) : outcome (option Z * cache) :=
  match fuel with
  | O => Throw Overrun
  | S fuel =>
      match bdb_higher s b with
      | [] => Ret (None, s)
      | p :: _ =>
          if pre_cleared p then write_higher fuel write_thru write_this_page b (deletePrecedence p s) else
          let* (status, s) := writeBuffer fuel write_thru false (pre_hi p) s in
          if status =? 0 then Ret (Some 0, s)
          else if negb write_this_page then Ret (Some 2, s)
          else write_higher fuel write_thru write_this_page b s
      end
  end.

(** ** The precedence graph *)

(** The search up from [low] for [high]: found, too long, or what is left of
    the limit.  Each level uses up some of the limit, so that no more levels
    than it can be needed. *)
Fixpoint related_scan (next : nat -> Z -> Z) (high : nat) (l : list Precedence) (limit : Z) : Z :=
  match l with
  | [] => limit
  | p :: l =>
      let limit := limit - 1 in
      if limit =? 0 then PRE_UNKNOWN else
      if pre_cleared p then related_scan next high l limit else
      if decide (pre_hi p = high) then PRE_EXISTS else
      let limit := next (pre_hi p) limit in
      if (limit =? PRE_EXISTS) || (limit =? PRE_UNKNOWN) then limit else related_scan next high l limit
  end.

Fixpoint related_within (levels : nat) (s : cache) (low high : nat) (limit : Z) : Z :=
  match levels with
  | O => PRE_UNKNOWN
  | S levels => related_scan (fun b limit => related_within levels s b high limit) high (bdb_higher s low) limit
  end.

Definition related (s : cache) (low high : nat) (limit : Z) : Z :=
  related_within (Z.to_nat limit) s low high limit.

(** The buffer of a page. *)
Definition find_page (s : cache) (page : Z) : option nat :=
  fst <$> list_find (fun x => bdb_page x = page) (bdbs s).

(** The second look, under the exclusive lock on the graph, is a third and
    fourth call of [related]. *)
Fixpoint relate (fuel : nat) (low high : nat) (s : cache) : outcome cache :=
  match fuel with
  | O => Throw Overrun
  | S fuel' =>
      let relationship := related s low high PRE_SEARCH_LIMIT in
      if negb (bool_decide (bdb_lower s high = [])) && (relationship =? PRE_EXISTS) then Ret s
      else if negb (bool_decide (bdb_lower s high = [])) && (relationship =? PRE_UNKNOWN) then
        let* (status, s) := writeBuffer fuel false true high s in
        if status =? 0 then Throw punt else Ret s
      else
        let relationship := related s high low PRE_SEARCH_LIMIT in
        let* s :=
          (if negb (bool_decide (bdb_lower s low = [])) && ((relationship =? PRE_EXISTS) || (relationship =? PRE_UNKNOWN)) then
             let* (status, s) := writeBuffer fuel false true low s in
             if status =? 0 then Throw punt else Ret s
           else Ret s) in
        let relationship := related s low high PRE_SEARCH_LIMIT in
        if negb (bool_decide (bdb_lower s high = [])) && (relationship =? PRE_EXISTS) then Ret s
        else if negb (bool_decide (bdb_lower s high = [])) && (relationship =? PRE_UNKNOWN) then relate fuel' low high s
        else
          let relationship := related s high low PRE_SEARCH_LIMIT in
          if negb (bool_decide (bdb_lower s low = [])) && ((relationship =? PRE_EXISTS) || (relationship =? PRE_UNKNOWN))
          then relate fuel' low high s
          else Ret (with_precedences (mk_precedence high low false :: precedences s) s)
  end.

(** [low] is the buffer of the window. *)
Definition declarePrecedence (fuel : nat) (low : nat) (page : Z) (s : cache) : outcome cache :=
  if page =? 0 then Ret s else
  if (page <? 0) && (- page <=? dbb_last_header_write s) then Ret s else
  let page := if page <? 0 then HEADER_PAGE else page in
  match find_page s page with
  | None => Ret s
  | Some high =>
      let* h := bdb_at s high in
      let* x := bdb_at s low in
      if negb (BDB_dirty h) || (bdb_page h =? bdb_page x) then Ret s else
      if BDB_marked x && negb (BDB_faked x) then Throw (BUGCHECK 212) else
      relate fuel low high s
  end.

(** Neither the buffer nor one above it is being changed. *)
Fixpoint writeable_scan (next : nat -> outcome bool) (l : list Precedence) : outcome bool :=
  match l with
  | [] => Ret true
  | p :: l =>
      if pre_cleared p then writeable_scan next l else
      let* w := next (pre_hi p) in if w then writeable_scan next l else Ret false
  end.

Fixpoint writeable (fuel : nat) (s : cache) (b : nat) : outcome bool :=
  match fuel with
  | O => Throw Overrun
  | S fuel =>
      let* x := bdb_at s b in
      if BDB_marked x then Ret false else writeable_scan (writeable fuel s) (bdb_higher s b)
  end.

(** ** Getting a buffer *)

(** A buffer that has not been used.  It is in no chain of the hash table, so
    that [find_page] finds it for no page. *)
Definition empty_bdb : Bdb := mk_bdb JOURNAL_PAGE 0 0 0 0 false 0 false false false false false false false.

(** All flags off, as [BDB_read_pending] and the chain of recently used buffers
    are not modelled. *)
Definition with_page (page : Z) (x : Bdb) : Bdb :=
  mk_bdb page (bdb_incarnation x) (bdb_transactions x) (bdb_mark_sequence x) (bdb_use_count x) (exclusive x) (writers x)
    false false false false false false false.

Definition upd_bdb (b : nat) (f : Bdb -> Bdb) (s : cache) : outcome cache :=
  let* x := bdb_at s b in Ret (set_bdb b (f x) s).

(** The blocks above a buffer are deleted. *)
Definition deleteHigher (b : nat) (s : cache) : cache :=
  fold_left (fun s p => deletePrecedence p s) (bdb_higher s b) s.

Definition MAX_PAGE_BUFFERS : Z := 131071.

Definition expandBuffers (expandedSize : nat) (s : cache) : cache :=
  let count := length (bdbs s) in
  if (expandedSize <=? count)%nat || (MAX_PAGE_BUFFERS <? Z.of_nat expandedSize) then s
  else with_empty (rev (seq count (expandedSize - count)) ++ bcb_empty s)
         (with_bdbs (bdbs s ++ replicate (expandedSize - count) empty_bdb) s).

(** The oldest buffer that is neither in use nor to be written after a page
    that is being changed; [lru] is the queue of buffers in use, oldest
    first. *)
Fixpoint oldest (fuel : nat) (lru : list nat) (s : cache) : outcome (option nat) :=
  match lru with
  | [] => Ret None
  | b :: lru =>
      let* x := bdb_at s b in
      if negb (bdb_use_count x =? 0) then oldest fuel lru s else
      let* w := writeable fuel s b in
      if w then Ret (Some b) else oldest fuel lru s
  end.

(** The buffer is given to another page, once its own is written. *)
Definition reassign (fuel : nat) (b : nat) (page : Z) (s : cache) : outcome cache :=
  let* s := upd_bdb b (addRef true) s in
  let* x := bdb_at s b in
  let* s :=
    (if BDB_dirty x || BDB_db_dirty x then
       let* (status, s) := writeBuffer fuel true true b s in
       if status =? 0 then Throw punt else Ret s
     else Ret s) in
  let* s := removeDirtyPage b s in
  let s := clearPrecedence b (deleteHigher b s) in
  upd_bdb b (with_page page) s.

(** The buffer, and whether its page has to be read. *)
Fixpoint getBuffer (tries fuel : nat) (lru : list nat) (page : Z) (write : bool) (s : cache) : outcome (nat * bool * cache) :=
  match find_page s page with
  | Some b => let* s := upd_bdb b (addRef write) s in Ret (b, false, s)
  | None =>
      match bcb_empty s with
      | b :: rest =>
          let* s := upd_bdb b (fun x => addRef true (with_page page x)) (with_empty rest s) in
          Ret (b, true, s)
      | [] =>
          let* victim := oldest fuel lru s in
          match victim, tries with
          | Some b, _ => let* s := reassign fuel b page s in Ret (b, true, s)
          | None, S tries => getBuffer tries fuel lru page write (expandBuffers (length (bdbs s) + 75) s)
          | None, O => Throw Overrun
          end
      end
  end.

Definition with_writer (x : Bdb) : Bdb :=
  mk_bdb (bdb_page x) (bdb_incarnation x) (bdb_transactions x) (bdb_mark_sequence x) (bdb_use_count x) (exclusive x) (writers x)
    (BDB_dirty x) (BDB_db_dirty x) true (BDB_marked x) (BDB_faked x) (BDB_must_write x) (BDB_system_dirty x).

Definition with_read (inc : Z) (x : Bdb) : Bdb :=
  mk_bdb (bdb_page x) inc (bdb_transactions x) (bdb_mark_sequence x) (bdb_use_count x) (exclusive x) (writers x)
    (BDB_dirty x) (BDB_db_dirty x) (BDB_writer x) (BDB_marked x) (BDB_faked x) (BDB_must_write x) (BDB_system_dirty x).

(** [fetchPage] reads the page, which is a new incarnation. *)
Definition fetchPage (b : nat) (s : cache) : outcome cache :=
  let inc := dbb_page_incarnation s + 1 in
  upd_bdb b (with_read inc) (with_incarnation inc s).

(** A page whose lock the process gets at once. *)
Definition fetch (fuel : nat) (lru : list nat) (page : Z) (write : bool) (s : cache) : outcome (nat * cache) :=
  let* (b, must_read, s) := getBuffer 1 fuel lru page write s in
  let* s := (if write then upd_bdb b with_writer s else Ret s) in
  if must_read : bool then
    let* s := fetchPage b s in
    let* s := (if write then Ret s else upd_bdb b downGrade s) in
    Ret (b, s)
  else Ret (b, s).

Definition with_fake (x : Bdb) : Bdb :=
  mk_bdb (bdb_page x) (bdb_incarnation x) (bdb_transactions x) (bdb_mark_sequence x) (bdb_use_count x) (exclusive x) (writers x)
    false false true false true false false.

(** A page that is being allocated. *)
Definition fake (fuel : nat) (lru : list nat) (sweeper : bool) (number : Z) (page : Z) (s : cache) : outcome (nat * cache) :=
  let* (b, _, s) := getBuffer 1 fuel lru page true s in
  let* x := bdb_at s b in
  let* s :=
    (if BDB_dirty x || BDB_db_dirty x then
       let* (status, s) := writeBuffer fuel true true b s in
       if status =? 0 then Throw punt else Ret s
     else Ret (clearPrecedence b s)) in
  let* s := upd_bdb b with_fake s in
  let* s := mark sweeper number false b s in
  Ret (b, s).

(** ** Releasing a buffer *)

Definition with_released (x : Bdb) : Bdb :=
  mk_bdb (bdb_page x) (bdb_incarnation x) (bdb_transactions x) (bdb_mark_sequence x) (bdb_use_count x) (exclusive x) (writers x)
    (BDB_dirty x) (BDB_db_dirty x) false false false (BDB_must_write x) (BDB_system_dirty x).

Definition release (fuel : nat) (b : nat) (s : cache) : outcome cache :=
  let* x := bdb_at s b in
  let* s :=
    (if exclusive x && (writers x =? 1) then
       let s := set_bdb b (with_released x) s in
       if BDB_must_write x then
         let* s := upd_bdb b downGrade s in
         let* (status, s) := writeBuffer fuel false true b s in
         if status =? 0 then let* s := insertDirtyPage b s in Throw punt else Ret s
       else Ret s
     else Ret s) in
  upd_bdb b unref s.

(** ** Flushing *)

Definition selected (transaction_mask : Z) (sys_only : bool) (x : Bdb) : bool :=
  negb (Z.land transaction_mask (bdb_transactions x) =? 0) || BDB_system_dirty x
  || ((transaction_mask =? 0) && negb sys_only) || (bdb_transactions x =? 0).

Fixpoint first_selected (transaction_mask : Z) (sys_only : bool) (s : cache) (l : list nat) : outcome (option nat) :=
  match l with
  | [] => Ret None
  | b :: l =>
      let* x := bdb_at s b in
      if selected transaction_mask sys_only x then Ret (Some b) else first_selected transaction_mask sys_only s l
  end.

(** A marked buffer is waited for. *)
Fixpoint flushDirtyPages (turns fuel : nat) (transaction_mask : Z) (sys_only : bool) (priorPage : Z) (s : cache) : outcome cache :=
  match turns with
  | O => Throw Overrun
  | S turns =>
      let* r := first_selected transaction_mask sys_only s (bcb_dirty s) in
      match r with
      | None => Ret s
      | Some b =>
          let* x := bdb_at s b in
          if bdb_page x <? priorPage then
            let* s := reorderDirty s in
            flushDirtyPages turns fuel transaction_mask sys_only (-1) s
          else if BDB_marked x || negb (BDB_dirty x) then
            flushDirtyPages turns fuel transaction_mask sys_only (bdb_page x) s
          else
            let* s := upd_bdb b (addRef false) s in
            let* (status, s) := writeBuffer fuel false true b s in
            let* s := upd_bdb b unref s in
            if status =? 0 then Throw punt
            else flushDirtyPages turns fuel transaction_mask sys_only (bdb_page x) s
      end
  end.

Definition flush (turns fuel : nat) (flush_flag tra_number : Z) (s : cache) : outcome cache :=
  let '(transaction_mask, sys_only) :=
    if flag_set flush_flag (FLUSH_TRAN + FLUSH_SYSTEM) then
      let m := if tra_number =? 0 then 0 else mark_bits tra_number in
      (m, (m =? 0) && flag_set flush_flag FLUSH_SYSTEM)
    else (if flag_set flush_flag (FLUSH_ALL + FLUSH_SWEEP) then -1 else 0, false) in
  flushDirtyPages turns fuel transaction_mask sys_only (-1) s.

(** ** Clients *)

(** What a thread does with pages; a window stands for its page. *)
Inductive cache_op :=
  | Op_fetch (lru : list nat) (page : Z) (write : bool)
  | Op_fake (lru : list nat) (page : Z)
  | Op_precedence (low page : Z)
  | Op_mark (page : Z) (mark_system : bool)
  | Op_must_write (page : Z)
  | Op_release (page : Z)
  | Op_flush (flush_flag tra_number : Z).

Definition window (s : cache) (page : Z) : outcome nat :=
  match find_page s page with Some b => Ret b | None => Throw Overrun end.

(** The thread: whether it is a sweeper, and its transaction. *)
Class Thread := { tdbb_sweeper : bool; tdbb_transaction : Z }.

Definition cache_step `{Thread} (turns fuel : nat) (o : cache_op) (s : cache) : outcome cache :=
  match o with
  | Op_fetch lru page write => let* (_, s) := fetch fuel lru page write s in Ret s
  | Op_fake lru page => let* (_, s) := fake fuel lru tdbb_sweeper tdbb_transaction page s in Ret s
  | Op_precedence low page => let* b := window s low in declarePrecedence fuel b page s
  | Op_mark page mark_system => let* b := window s page in mark tdbb_sweeper tdbb_transaction mark_system b s
  | Op_must_write page => let* b := window s page in markMustWrite tdbb_sweeper tdbb_transaction b s
  | Op_release page => let* b := window s page in release fuel b s
  | Op_flush flush_flag tra_number => flush turns fuel flush_flag tra_number s
  end.

End PageCache.
End PageCache.
