(* ===== verification/PageCacheOrder.v ===== *)
(** * The order of page writes ([jrd/PageCache.cpp])

    What keeps the cache well-formed, and what a page that depends on another
    one is promised while pages are written, changed and replaced. *)

From S2P Require Import Prelude.
From S2P Require Import QSort.
From S2P Require Import PageCache.
From stdpp Require Import list relations.
#[local] Open Scope Z_scope.

Module PageCacheOrder.
Import PageCache.

(** ** What the file holds *)

(** The incarnation of a page in the file, where [w] has been written. *)
Fixpoint on_file (w : list (Z * Z)) (page : Z) : Z :=
  match w with
  | [] => 0
  | (p, v) :: w => if p =? page then v else on_file w page
  end.

(** What [page] contains at present. *)
Definition version (s : cache) (page : Z) : Z :=
  match find_page s page with
  | Some b => match bdbs s !! b with
              | Some x => if BDB_dirty x then bdb_incarnation x else on_file (writes s) page
              | None => 0
              end
  | None => on_file (writes s) page
  end.

(** ** Well-formed caches *)

(** [low] has to wait for [high]. *)
Definition edge (s : cache) (low high : nat) : Prop :=
  exists p, p ∈ precedences s /\ pre_low p = low /\ pre_hi p = high /\ pre_cleared p = false.

(** [w] is what has been written, [n] the newest incarnation. *)
Record bdb_ok (w : list (Z * Z)) (n : Z) (x : Bdb) : Prop := {
  ok_db_dirty : BDB_db_dirty x = true -> BDB_dirty x = true;
  ok_queued : bdb_mark_sequence x <> 0 -> BDB_dirty x = true;
  ok_page : BDB_dirty x = true -> 0 <= bdb_page x;
  ok_newest : bdb_incarnation x <= n;
  ok_newer : BDB_dirty x = true -> on_file w (bdb_page x) <= bdb_incarnation x
}.

Record wf (s : cache) : Prop := {
  wf_pages b c x y : bdbs s !! b = Some x -> bdbs s !! c = Some y -> bdb_page x = bdb_page y -> 0 <= bdb_page x -> b = c;
  wf_edges p : p ∈ precedences s -> is_Some (bdbs s !! pre_low p) /\ exists y, bdbs s !! pre_hi p = Some y /\
    (pre_cleared p = false -> BDB_dirty y = true /\ BDB_faked y = false);
  wf_acyclic b : ~ tc (edge s) b b;
  wf_bdbs b x : bdbs s !! b = Some x -> bdb_ok (writes s) (dbb_page_incarnation s) x;
  wf_queue b : b ∈ bcb_dirty s <-> exists x, bdbs s !! b = Some x /\ bdb_mark_sequence x <> 0;
  wf_queue_once : NoDup (bcb_dirty s);
  wf_sequence : 0 <= markSequence s;
  wf_newest : 0 <= dbb_page_incarnation s /\ forall page v, (page, v) ∈ writes s -> v <= dbb_page_incarnation s;
  wf_empty b : b ∈ bcb_empty s -> exists x, bdbs s !! b = Some x /\ bdb_page x < 0;
  wf_empty_once : NoDup (bcb_empty s);
  wf_count : Z.of_nat (length (bdbs s)) < 2147483648
}.

(** [l] depends on what [h] contained at incarnation [v]: that is in the file,
    or [l] is changed in memory and waits for [h]. *)
Definition depends (s : cache) (l h v : Z) : Prop :=
  v <= on_file (writes s) h \/
  exists bl bh xl xh, bdbs s !! bl = Some xl /\ bdb_page xl = l /\ BDB_dirty xl = true /\
    bdbs s !! bh = Some xh /\ bdb_page xh = h /\ v <= bdb_incarnation xh /\ tc (edge s) bl bh.

(** Whenever [l] has been written since [w0], that incarnation of [h] had. *)
Definition ordered (w0 w1 : list (Z * Z)) (l h v : Z) : Prop :=
  forall later earlier u, w1 = later ++ (l, u) :: earlier -> w0 `suffix_of` earlier -> v <= on_file earlier h.

(** A buffer a flush with transaction mask [m] looks for: it is queued, and one
    of these transactions has changed it.  The mask 0 stands for any buffer. *)
Definition owes (m : Z) (x : Bdb) : Prop :=
  m <> 0 -> bdb_mark_sequence x <> 0 /\ Z.land m (bdb_transactions x) <> 0.

(** Incarnation [v] of a page, or a newer one, is in the file or in memory, to
    be written by a flush with mask [m]. *)
Definition held (s : cache) (m page v : Z) : Prop :=
  v <= on_file (writes s) page \/
  exists b x, bdbs s !! b = Some x /\ bdb_page x = page /\ BDB_dirty x = true /\ v <= bdb_incarnation x /\ owes m x.

(** A step of the cache that keeps what it promises. *)
Definition good (s s' : cache) : Prop :=
  wf s -> wf s' /\ writes s `suffix_of` writes s' /\
    (forall l h v, depends s l h v -> depends s' l h v /\ ordered (writes s) (writes s') l h v) /\
    (forall m page v, held s m page v -> held s' m page v).

Lemma suffix_not_longer {A} (x : A) w later earlier : w = later ++ x :: earlier -> ~ w `suffix_of` earlier.
Proof. intros -> [k E]. apply (f_equal length) in E. rewrite !length_app in E. cbn in E. lia. Qed.

Lemma ordered_refl w l h v : ordered w w l h v.
Proof. intros later earlier u E Hs. by destruct (suffix_not_longer _ _ _ _ E). Qed.

Lemma good_refl s : good s s.
Proof. intros Hw. split; [done|]. split; [done|]. split; [|done]. intros l h v Hd. split; [done|apply ordered_refl]. Qed.

Lemma good_trans s1 s2 s3 : good s1 s2 -> good s2 s3 -> good s1 s3.
Proof.
  intros G1 G2 Hw. destruct (G1 Hw) as (Hw2 & S1 & D1 & H1). destruct (G2 Hw2) as (Hw3 & S2 & D2 & H2).
  split; [done|]. split; [by transitivity (writes s2)|]. split; [|auto]. intros l h v Hd. destruct (D1 l h v Hd) as [Hd2 O1]. destruct (D2 l h v Hd2) as [Hd3 O2].
  split; [done|]. intros later earlier u E Hs.
  destruct (suffix_weak_total ((l, u) :: earlier) (writes s2) (writes s3)) as [[mid Em]|[k Ek]]; [by exists later|done| |].
  - by apply (O1 mid earlier u).
  - destruct k as [|x k]; cbn in Ek; [by apply (O1 [] earlier u)|]. injection Ek as _ ->. apply (O2 later _ u); [done|by exists k].
Qed.

(** ** Deleting precedence blocks *)

Lemma delete_first_sub p l q : q ∈ delete_first p l -> q ∈ l.
Proof. induction l as [|x l IH]; cbn; [done|]. case_decide; [by right|]. intros [->|Hq]%elem_of_cons; [left|right; auto]. Qed.

Lemma delete_first_keeps p l q : q <> p -> q ∈ l -> q ∈ delete_first p l.
Proof.
  intros Hne. induction l as [|x l IH]; cbn; [done|]. intros [<-|H]%elem_of_cons.
  - rewrite decide_False by done. left.
  - case_decide; [done|]. right. auto.
Qed.

Lemma delete_first_filter (P : Precedence -> Prop) `{!forall p, Decision (P p)} l :
  fold_left (fun l p => delete_first p l) (filter P l) l = filter (fun p => ~ P p) l.
Proof.
  assert (Hskip : forall x m k, (forall p, p ∈ k -> p <> x) -> fold_left (fun l p => delete_first p l) k (x :: m) = x :: fold_left (fun l p => delete_first p l) k m).
  { intros x m k. revert m. induction k as [|p k IH]; intros m Hk; cbn; [done|]. rewrite decide_False by (intros ->; by apply (Hk p); [left|]).
    apply IH. intros q Hq. apply Hk. by right. }
  induction l as [|x l IH]; [done|]. rewrite !filter_cons. destruct (decide (P x)) as [Hx|Hx].
  - cbn [fold_left]. cbn [delete_first]. rewrite !decide_True by done. rewrite IH. by rewrite decide_False by tauto.
  - rewrite decide_True by done. rewrite Hskip; [by rewrite IH|]. intros p Hp ->. apply list_elem_of_filter in Hp. tauto.
Qed.

Lemma fold_delete l s :
  fold_left (fun s p => deletePrecedence p s) l s = with_precedences (fold_left (fun l p => delete_first p l) l (precedences s)) s.
Proof. revert s. induction l as [|p l IH]; intros s; cbn; [by destruct s|]. rewrite IH. by destruct s. Qed.

Lemma clearPrecedence_eq b s : clearPrecedence b s = with_precedences (filter (fun p => pre_hi p <> b) (precedences s)) s.
Proof. unfold clearPrecedence, bdb_lower. by rewrite fold_delete, (delete_first_filter (fun p => pre_hi p = b)). Qed.

Lemma deleteHigher_eq b s : deleteHigher b s = with_precedences (filter (fun p => pre_low p <> b) (precedences s)) s.
Proof. unfold deleteHigher, bdb_higher. by rewrite fold_delete, (delete_first_filter (fun p => pre_low p = b)). Qed.

(** ** Steps that keep what is known of the buffers *)

(** Nothing that others rely on is changed. *)
Record same_bdb (x y : Bdb) : Prop := {
  same_page : bdb_page y = bdb_page x;
  same_incarnation : bdb_incarnation y = bdb_incarnation x;
  same_sequence : bdb_mark_sequence y = bdb_mark_sequence x;
  same_transactions : bdb_transactions y = bdb_transactions x;
  same_dirty : BDB_dirty y = BDB_dirty x;
  same_db_dirty : BDB_db_dirty y = BDB_db_dirty x;
  same_faked : BDB_faked y = true -> BDB_faked x = true
}.

Lemma set_bdb_lookup b x s c :
  bdbs (set_bdb b x s) !! c = if decide (c = b /\ is_Some (bdbs s !! b)) then Some x else bdbs s !! c.
Proof.
  unfold set_bdb. cbn. destruct (decide (c = b)) as [->|Hne].
  - destruct (decide (b = b /\ is_Some (bdbs s !! b))) as [[_ Hs]|Hs].
    + apply list_lookup_insert_eq. by apply lookup_lt_is_Some_1.
    + destruct (bdbs s !! b) eqn:E; [exfalso; apply Hs; split; [done|by eexists]|]. rewrite list_insert_ge; [done|]. by apply lookup_ge_None_1.
  - rewrite decide_False by tauto. by apply list_lookup_insert_ne.
Qed.

(** Blocks go that stand for nothing; buffers change in nothing that matters. *)
Lemma good_same s s' :
  length (bdbs s') = length (bdbs s) ->
  (forall b x, bdbs s !! b = Some x -> exists y, bdbs s' !! b = Some y /\ same_bdb x y) ->
  (forall p, p ∈ precedences s' -> p ∈ precedences s) ->
  (wf s -> forall low high, edge s low high -> edge s' low high) ->
  bcb_empty s' = bcb_empty s -> bcb_dirty s' = bcb_dirty s -> markSequence s' = markSequence s ->
  dbb_page_incarnation s <= dbb_page_incarnation s' -> writes s' = writes s -> good s s'.
Proof.
  intros Hlen Hb Hp He E1 E2 E3 E4 E5 Hw. specialize (He Hw).
  assert (Hb' : forall b y, bdbs s' !! b = Some y -> exists x, bdbs s !! b = Some x /\ same_bdb x y).
  { intros b y Hy. destruct (lookup_lt_is_Some_2 (bdbs s) b) as [x Hx]; [rewrite <-Hlen; by eapply lookup_lt_Some|].
    destruct (Hb b x Hx) as (y' & Hy' & Hs). rewrite Hy in Hy'. injection Hy' as <-. by exists x. }
  assert (He' : forall low high, edge s' low high -> edge s low high).
  { intros low high (p & H1 & H2). exists p. split; [by apply Hp|done]. }
  split; [|split; [by rewrite E5|split] ].
  - destruct Hw as [W1 W2 W3 W4 W5 W6 W7 W8 W9 W10 W11]. split.
    + intros b c y z Hy Hz E Hpg. destruct (Hb' b y Hy) as (x & Hx & [S1 _ _ _ _ _ _]). destruct (Hb' c z Hz) as (w & Hw & [T1 _ _ _ _ _ _]).
      apply (W1 b c x w); [done|done|congruence|by rewrite <-S1].
    + intros p Hin. destruct (W2 p (Hp p Hin)) as ([x Hx] & y & Hy & Hc). destruct (Hb _ _ Hx) as (x' & Hx' & _).
      destruct (Hb _ _ Hy) as (y' & Hy' & [_ _ _ _ S4 _ S6]). split; [by eexists|]. exists y'. split; [done|]. intros Hcl.
      destruct (Hc Hcl) as [Hd Hf]. split; [by rewrite S4|]. destruct (BDB_faked y') eqn:E; [|done]. by rewrite S6 in Hf.
    + intros b H. apply (W3 b). apply (tc_congruence (fun b => b) (edge s)) in H; [done|]. intros; by apply He'.
    + intros b y Hy. destruct (Hb' b y Hy) as (x & Hx & [S1 S2 S3 St S4 S5 S6]). destruct (W4 b x Hx) as [K1 K2 K3 K4 K5].
      rewrite E5. split; rewrite ?S1, ?S2, ?S3, ?S4, ?S5; auto. lia.
    + intros b. rewrite E2, W5. split; intros (x & Hx & Hseq).
      * destruct (Hb b x Hx) as (y & Hy & S). exists y. by rewrite (same_sequence _ _ S).
      * destruct (Hb' b x Hx) as (y & Hy & S). exists y. by rewrite <-(same_sequence _ _ S).
    + by rewrite E2.
    + by rewrite E3.
    + destruct W8 as [N1 N2]. split; [lia|]. intros pg v Hv. rewrite E5 in Hv. specialize (N2 pg v Hv). lia.
    + intros b H. rewrite E1 in H. destruct (W9 b H) as (x & Hx & Hpg). destruct (Hb b x Hx) as (y & Hy & S). exists y. by rewrite (same_page _ _ S).
    + by rewrite E1.
    + by rewrite Hlen.
  - intros l h v Hd. split; [|rewrite E5; apply ordered_refl]. destruct Hd as [Hd|(bl & bh & xl & xh & H1 & H2 & H3 & H4 & H5 & H6 & H7)]; [left; by rewrite E5|].
    right. destruct (Hb _ _ H1) as (yl & Hyl & [S1 S2 S3 St S4 S5 S6]). destruct (Hb _ _ H4) as (yh & Hyh & [T1 T2 T3 Tt T4 T5 T6]).
    exists bl, bh, yl, yh. split_and!; [done|congruence|congruence|done|congruence|by rewrite T2|].
    apply (tc_congruence (fun b => b) (edge s')) in H7; [done|]. intros; by apply He.
  - intros m page v [H|(b & x & Hx & <- & Hd & Hv & Ho)]; [left; by rewrite E5|right]. destruct (Hb b x Hx) as (y & Hy & [S1 S2 S3 St S4 S5 S6]).
    exists b, y. split_and!; [done|done|congruence|by rewrite S2|]. unfold owes. by rewrite S3, St.
Qed.

Lemma good_set b f s x :
  bdbs s !! b = Some x -> same_bdb x (f x) -> good s (set_bdb b (f x) s).
Proof.
  intros Hx Hs. apply good_same; try done.
  - cbn. apply length_insert.
  - intros c y Hy. rewrite set_bdb_lookup. case_decide as Hc; [|exists y; split; [done|by split] ].
    destruct Hc as [-> _]. rewrite Hx in Hy. injection Hy as <-. by exists (f x).
Qed.

Lemma good_upd b f s : (forall x, same_bdb x (f x)) -> returns (upd_bdb b f s) (fun s' => good s s').
Proof. intros Hs. unfold upd_bdb, bdb_at. destruct (bdbs s !! b) as [x|] eqn:Hx; [|done]. cbn. by apply good_set. Qed.

(** ** Blocks that go *)

Lemma edge_sub (s s' : cache) low high :
  (forall p, p ∈ precedences s' -> p ∈ precedences s) -> edge s' low high -> edge s low high.
Proof. intros H (p & Hp & E). exists p. split; [by apply H|done]. Qed.

(** Buffers that nothing waits for. *)
Definition free (s : cache) (b : nat) : Prop := forall low, ~ edge s low b.

Lemma wf_free s b : wf s -> (forall x, bdbs s !! b = Some x -> BDB_dirty x = false \/ BDB_faked x = true) -> free s b.
Proof.
  intros Hw Hx low (p & Hp & _ & <- & Hc). destruct (wf_edges s Hw p Hp) as (_ & y & Hy & Hd). destruct (Hd Hc) as [H1 H2].
  destruct (Hx y Hy); congruence.
Qed.

(** Blocks that are cleared, or have nothing above them, may go. *)
Lemma good_delete_cleared p s : pre_cleared p = true -> good s (deletePrecedence p s).
Proof.
  intros Hc. apply good_same; try done; cbn.
  - intros b x Hx. exists x. split; [done|by split].
  - intros q. apply delete_first_sub.
  - intros _ low high (q & Hq & E). exists q. split; [|done]. apply delete_first_keeps; [|done]. intros ->. destruct E as (_ & _ & E). congruence.
Qed.

Lemma good_clear b s : (wf s -> free s b) -> good s (clearPrecedence b s).
Proof.
  intros Hf. rewrite clearPrecedence_eq. apply good_same; try done; cbn.
  - intros c x Hx. exists x. split; [done|by split].
  - intros p Hp. by apply list_elem_of_filter in Hp as [_ Hp].
  - intros Hw low high (p & Hp & E1 & E2 & E3). exists p. split; [|done]. apply list_elem_of_filter. split; [|done].
    intros Hb. apply (Hf Hw low). exists p. split_and!; congruence.
Qed.

(** What a path keeps when edges go: it goes up to a buffer that has lost
    them. *)
Lemma tc_cut (R R' : nat -> nat -> Prop) b x z :
  (forall u v, R u v -> v <> b -> R' u v) -> (forall u, ~ R b u) -> tc R x z -> z = b \/ tc R' x z.
Proof.
  intros Hk Hb. revert z. apply (tc_ind_r (R := R) (fun z => z = b \/ tc R' x z)); [intros z Hz|intros y z Hy Hz IH].
  - destruct (decide (z = b)) as [->|Hne]; [by left|right]. apply tc_once. auto.
  - destruct (decide (z = b)) as [->|Hne]; [by left|right]. destruct IH as [->|IH]; [by destruct (Hb z)|]. apply (tc_r _ y); auto.
Qed.

(** Edges out of a clean buffer may go. *)
Lemma good_deleteHigher b s :
  (forall x, bdbs s !! b = Some x -> BDB_dirty x = false) -> good s (deleteHigher b s).
Proof.
  intros Hcl Hw. rewrite deleteHigher_eq. set (s' := with_precedences _ s).
  assert (Hsub : forall p, p ∈ precedences s' -> p ∈ precedences s) by (intros p Hp; by apply list_elem_of_filter in Hp as [_ Hp]).
  assert (Hfree : free s b) by (apply wf_free; auto).
  assert (Hkeep : forall u v, edge s u v -> u <> b -> edge s' u v).
  { intros u v (p & Hp & E1 & E2 & E3) Hne. exists p. split; [|done]. apply list_elem_of_filter. split; [congruence|done]. }
  split; [|split; [done|split; [|done] ] ].
  - destruct Hw as [W1 W2 W3 W4 W5 W6 W7 W8 W9 W10 W11]. split; try done; [intros p Hp; by apply W2, Hsub|].
    intros c H. apply (W3 c). apply (tc_congruence (fun b => b) (edge s)) in H; [done|]. intros u v. by apply edge_sub.
  - intros l h v Hd. split; [|apply ordered_refl]. destruct Hd as [Hd|(bl & bh & xl & xh & H1 & H2 & H3 & H4 & H5 & H6 & H7)]; [by left|right].
    exists bl, bh, xl, xh. split_and!; try done. assert (Hbl : bl <> b) by (intros ->; specialize (Hcl xl H1); congruence).
    clear -Hbl H7 Hfree Hkeep. induction H7 as [x z Hx|x y z Hx _ IH].
    + apply tc_once. auto.
    + apply (tc_l _ _ y); [auto|]. apply IH. intros ->. by apply (Hfree x).
Qed.

(** ** A page that is written *)

(** What is left of a successful [writePage] and the clearing of blocks. *)
Definition written (b : nat) (x : Bdb) (header : Z) (s : cache) : cache :=
  with_precedences (filter (fun p => pre_hi p <> b) (precedences s))
    (with_bdbs (<[b := with_written (with_mark_sequence 0 x)]> (bdbs s))
      (with_dirty (filter (fun c => c <> b) (bcb_dirty s))
        (with_file header (S (attempts s)) ((bdb_page x, bdb_incarnation x) :: writes s) s))).

Lemma on_file_cons p v w page : on_file ((p, v) :: w) page = if p =? page then v else on_file w page.
Proof. done. Qed.

(** The file only gets newer. *)
Lemma newer_file s b x page :
  wf s -> bdbs s !! b = Some x -> BDB_dirty x = true -> on_file (writes s) page <= on_file ((bdb_page x, bdb_incarnation x) :: writes s) page.
Proof.
  intros Hw Hx Hd. rewrite on_file_cons. destruct (Z.eqb_spec (bdb_page x) page) as [<-|]; [|done].
  by apply (ok_newer _ _ _ (wf_bdbs s Hw b x Hx)).
Qed.

Lemma good_written b x header s :
  bdbs s !! b = Some x -> BDB_dirty x = true -> (forall high, ~ edge s b high) -> good s (written b x header s).
Proof.
  intros Hx Hd Htop Hw. set (s' := written b x header s). set (y := with_written (with_mark_sequence 0 x)).
  assert (Hb : bdbs s' !! b = Some y) by (apply list_lookup_insert_eq; by eapply lookup_lt_Some).
  assert (Hc : forall c, c <> b -> bdbs s' !! c = bdbs s !! c) by (intros c Hc; by apply list_lookup_insert_ne).
  assert (Hall : forall c z, bdbs s' !! c = Some z -> (c = b /\ z = y) \/ (c <> b /\ bdbs s !! c = Some z)).
  { intros c z Hz. destruct (decide (c = b)) as [->|Hne]; [left; split; congruence|right; split; [done|by rewrite <-Hc] ]. }
  assert (Hsub : forall p, p ∈ precedences s' -> p ∈ precedences s /\ pre_hi p <> b) by (intros p Hp; by apply list_elem_of_filter in Hp as [? Hp]).
  assert (Hkeep : forall u v, edge s u v -> v <> b -> edge s' u v).
  { intros u v (p & Hp & E1 & E2 & E3) Hne. exists p. split; [|done]. apply list_elem_of_filter. split; [congruence|done]. }
  assert (Hnew : forall page, on_file (writes s) page <= on_file (writes s') page) by (intros page; by apply (newer_file s b)).
  split; [|split; [by exists [(bdb_page x, bdb_incarnation x)]|split] ].
  - pose proof (wf_bdbs s Hw b x Hx) as Hok. destruct Hw as [W1 W2 W3 W4 W5 W6 W7 W8 W9 W10 W11]. split.
    + intros c d z w Hz Hw' E Hpg. destruct (Hall c z Hz) as [[-> ->]|[Hcb Hz']], (Hall d w Hw') as [[-> ->]|[Hdb Hw'']]; [done| | |by apply (W1 c d z w)].
      * by apply (W1 b d x w).
      * by apply (W1 c b z x).
    + intros p Hp. destruct (Hsub p Hp) as [Hp' Hne]. destruct (W2 p Hp') as ([z Hz] & w & Hw' & Hcl). split.
      * destruct (decide (pre_low p = b)) as [->|]; [by exists y|by rewrite Hc].
      * exists w. by rewrite Hc.
    + intros c H. apply (W3 c). apply (tc_congruence (fun b => b) (edge s)) in H; [done|]. intros u v. apply edge_sub. intros p Hp. by apply Hsub.
    + intros c z Hz. destruct (Hall c z Hz) as [[-> ->]|[Hne Hz']].
      * destruct Hok. split; cbn; done.
      * destruct (W4 c z Hz') as [K1 K2 K3 K4 K5]. split; auto. intros Hdz. cbn [writes s' written]. change (writes s') with ((bdb_page x, bdb_incarnation x) :: writes s).
        rewrite on_file_cons. destruct (Z.eqb_spec (bdb_page x) (bdb_page z)) as [E|]; [|by apply K5]. exfalso. apply Hne. symmetry.
        apply (W1 b c x z); [done|done|done|by apply (ok_page _ _ _ Hok)].
    + intros c. cbn [bcb_dirty s' written]. change (bcb_dirty s') with (filter (fun c => c <> b) (bcb_dirty s)). rewrite list_elem_of_filter, W5. split.
      * intros (Hne & z & Hz & Hseq). exists z. by rewrite Hc.
      * intros (z & Hz & Hseq). destruct (Hall c z Hz) as [[-> ->]|[Hne Hz']]; [by cbn in Hseq|]. split; [done|by exists z].
    + by apply NoDup_filter.
    + done.
    + destruct W8 as [N1 N2]. split; [done|]. intros pg v [E|Hv]%elem_of_cons; [|by apply (N2 pg)]. injection E as -> ->. by apply (ok_newest _ _ _ Hok).
    + intros c Hcin. destruct (W9 c Hcin) as (z & Hz & Hpg). destruct (decide (c = b)) as [->|Hne]; [|exists z; by rewrite Hc].
      pose proof (ok_page _ _ _ Hok Hd). rewrite Hx in Hz. injection Hz as <-. lia.
    + done.
    + cbn. by rewrite length_insert.
  - assert (Hone : forall l h v, depends s l h v -> l = bdb_page x -> v <= on_file (writes s) h).
    { intros l h v [Hdd|(bl & bh & xl & xh & H1 & H2 & H3 & H4 & H5 & H6 & H7)] ->; [done|].
      assert (bl = b) as -> by (apply (wf_pages s Hw bl b xl x); [done|done|done|by apply (ok_page _ _ _ (wf_bdbs s Hw bl xl H1))]).
      apply tc_nsteps in H7 as (k & Hk & Hs). destruct Hs as [|k b1 b2 b3 Hs _]; [lia|]. by destruct (Htop b2). }
    intros l h v Hdep. split.
    + pose proof Hdep as Hdep'. destruct Hdep as [Hdd|(bl & bh & xl & xh & H1 & H2 & H3 & H4 & H5 & H6 & H7)]; [left; specialize (Hnew h); lia|].
      destruct (decide (bl = b)) as [->|Hbl].
      { left. specialize (Hnew h). assert (v <= on_file (writes s) h); [|lia]. apply (Hone l h v Hdep'). congruence. }
      destruct (tc_cut (edge s) (edge s') b bl bh Hkeep Htop H7) as [->|Ht].
      * left. rewrite Hx in H4. injection H4 as <-. change (writes s') with ((bdb_page x, bdb_incarnation x) :: writes s).
        rewrite on_file_cons, (proj2 (Z.eqb_eq _ _)) by done. done.
      * right. destruct (decide (bh = b)) as [->|Hbh].
        -- exists bl, b, xl, y. split_and!; [by rewrite Hc|done|done|done|cbn; congruence|cbn; congruence|done].
        -- exists bl, bh, xl, xh. split_and!; [by rewrite Hc|done|done|by rewrite Hc|done|done|done].
    + intros later earlier u E Hs. change (writes s') with ((bdb_page x, bdb_incarnation x) :: writes s) in E.
      destruct later as [|z later].
      * injection E as E1 _ <-. by apply (Hone l).
      * exfalso. injection E as _ E. by apply (suffix_not_longer _ _ _ _ E).
  - intros m page v [H|(c & z & Hz & <- & Hdz & Hv & Ho)]; [left; specialize (Hnew page); lia|]. destruct (decide (c = b)) as [->|Hne].
    + left. rewrite Hx in Hz. injection Hz as <-. change (writes s') with ((bdb_page x, bdb_incarnation x) :: writes s).
      by rewrite on_file_cons, Z.eqb_refl.
    + right. exists c, z. by rewrite Hc.
Qed.

(** ** [writePage] and [writeBuffer] *)

#[local] Arguments clearPrecedence : simpl never.
#[local] Arguments deleteHigher : simpl never.

Section Writing.
Context `{ST : Storage}.

(** Writing leaves latches and marks as they are, and makes nothing dirty. *)
Record kept_bdb (x y : Bdb) : Prop := {
  kept_page : bdb_page y = bdb_page x;
  kept_incarnation : bdb_incarnation y = bdb_incarnation x;
  kept_latch : bdb_use_count y = bdb_use_count x /\ exclusive y = exclusive x /\ writers y = writers x;
  kept_marks : BDB_writer y = BDB_writer x /\ BDB_marked y = BDB_marked x /\ BDB_faked y = BDB_faked x;
  kept_dirty : BDB_dirty y = true -> BDB_dirty x = true /\ bdb_mark_sequence y = bdb_mark_sequence x /\
    bdb_transactions y = bdb_transactions x /\ BDB_system_dirty y = BDB_system_dirty x
}.

Record kept (s s' : cache) : Prop := {
  kept_bdbs b x : bdbs s !! b = Some x -> exists y, bdbs s' !! b = Some y /\ kept_bdb x y;
  kept_length : length (bdbs s') = length (bdbs s);
  kept_precedences p : p ∈ precedences s' -> p ∈ precedences s;
  kept_empty : bcb_empty s' = bcb_empty s;
  kept_newest : dbb_page_incarnation s' = dbb_page_incarnation s /\ markSequence s' = markSequence s
}.

Lemma kept_bdb_refl x : kept_bdb x x.
Proof. by split. Qed.

Lemma kept_refl s : kept s s.
Proof. split; try done. intros b x Hx. exists x. split; [done|apply kept_bdb_refl]. Qed.

Lemma kept_trans s1 s2 s3 : kept s1 s2 -> kept s2 s3 -> kept s1 s3.
Proof.
  intros [A1 A2 A3 A4 [A5 A6]] [B1 B2 B3 B4 [B5 B6]]. split; try (congruence || auto); [|split; congruence].
  intros b x Hx. destruct (A1 b x Hx) as (y & Hy & [C1 C2 (C3 & C3' & C3'') (C4 & C4' & C4'') C5]). destruct (B1 b y Hy) as (z & Hz & [D1 D2 (D3 & D3' & D3'') (D4 & D4' & D4'') D5]).
  exists z. split; [done|]. split; [congruence|congruence|split_and!; congruence|split_and!; congruence|].
  intros Hd. destruct (D5 Hd) as (D6 & -> & -> & ->). by destruct (C5 D6) as (? & -> & -> & ->).
Qed.

Lemma kept_fewer l s : (forall p, p ∈ l -> p ∈ precedences s) -> kept s (with_precedences l s).
Proof. intros Hl. split; try done. intros b x Hx. exists x. split; [done|apply kept_bdb_refl]. Qed.

Lemma kept_clear b s : kept s (clearPrecedence b s).
Proof. rewrite clearPrecedence_eq. apply kept_fewer. intros p Hp. by apply list_elem_of_filter in Hp as [_ Hp]. Qed.

Lemma kept_written b x header s : bdbs s !! b = Some x -> kept s (written b x header s).
Proof.
  intros Hx. split; try done.
  - intros c z Hz. destruct (decide (c = b)) as [->|Hne].
    + rewrite Hx in Hz. injection Hz as <-. exists (with_written (with_mark_sequence 0 x)). split; [|by split].
      apply list_lookup_insert_eq. by eapply lookup_lt_Some.
    + exists z. split; [|apply kept_bdb_refl]. cbn. by rewrite list_lookup_insert_ne.
  - cbn. apply length_insert.
  - intros p Hp. by apply list_elem_of_filter in Hp as [_ Hp].
Qed.

(** A failed attempt leaves everything else as it is. *)
Lemma good_attempt n s : good s (with_file (dbb_last_header_write s) n (writes s) s).
Proof.
  apply good_same; try done.
  intros b x Hx. exists x. split; [done|by split].
Qed.

Lemma kept_attempt n s : kept s (with_file (dbb_last_header_write s) n (writes s) s).
Proof. split; try done. intros b x Hx. exists x. split; [done|apply kept_bdb_refl]. Qed.

Lemma bdb_at_ok (s : cache) b x : bdbs s !! b = Some x -> bdb_at s b = Ret x.
Proof. intros Hx. unfold bdb_at. by rewrite Hx. Qed.

Lemma filter_everything {A} (P : A -> Prop) `{!forall x, Decision (P x)} (l : list A) : (forall x, x ∈ l -> P x) -> filter P l = l.
Proof.
  induction l as [|x l IH]; intros Hl; [done|]. rewrite filter_cons, decide_True by (apply Hl; left). f_equal. apply IH. intros y Hy. apply Hl. by right.
Qed.

Lemma writePage_spec thru b s x :
  wf s -> bdbs s !! b = Some x -> BDB_marked x = false -> BDB_dirty x = true ->
  returns (writePage thru b s) (fun '(ok, s') =>
    if ok : bool then exists header, clearPrecedence b s' = written b x header s
    else exists n, s' = with_file (dbb_last_header_write s) n (writes s) s).
Proof.
  intros Hw Hx Hm Hd. unfold writePage. rewrite (bdb_at_ok s b x Hx). cbn [obind]. unfold needs_write. rewrite Hd, Hm. cbn [orb andb negb].
  apply returns_bind. eapply returns_mono; [apply returns_any|]. intros _ _. unfold write_to_file.
  rewrite (proj2 (Z.leb_le _ _)) by (by apply (ok_page _ _ _ (wf_bdbs s Hw b x Hx))).
  destruct (PIO_write (attempts s)); cbn [negb]; [|by eexists].
  set (header := if bdb_page x =? HEADER_PAGE then _ else _). unfold removeDirtyPage, bdb_at. cbn. rewrite Hx. cbn.
  destruct (Z.eqb_spec (bdb_mark_sequence x) 0) as [E|E]; cbn.
  - rewrite Hx. cbn. exists header. rewrite clearPrecedence_eq. unfold written, set_bdb, with_precedences, with_bdbs, with_dirty. cbn. f_equal.
    + f_equal. unfold with_written, with_mark_sequence. cbn. by rewrite E.
    + symmetry. apply filter_everything. intros c Hc ->. apply (wf_queue s Hw) in Hc as (y & Hy & Hs).
      rewrite Hx in Hy. injection Hy as <-. done.
  - rewrite list_lookup_insert_eq by (by eapply lookup_lt_Some). cbn. exists header. rewrite clearPrecedence_eq. unfold written, set_bdb, with_precedences, with_bdbs, with_dirty.
    cbn. f_equal. by rewrite list_insert_insert_eq.
Qed.

Lemma good_wf s s' : good s s' -> wf s -> wf s'.
Proof. intros G Hw. by apply G. Qed.

Lemma kept_at s s' b x y : kept s s' -> bdbs s !! b = Some x -> bdbs s' !! b = Some y -> kept_bdb x y.
Proof. intros K Hx Hy. destruct (kept_bdbs _ _ K b x Hx) as (z & Hz & Kz). rewrite Hy in Hz. by injection Hz as <-. Qed.

Lemma edge_higher s b high : bdb_higher s b = [] -> ~ edge s b high.
Proof. intros E (p & Hp & Hl & _). assert (Hin : p ∈ bdb_higher s b) by (by apply list_elem_of_filter). rewrite E in Hin. by apply elem_of_nil in Hin. Qed.

(** What a call of [writeBuffer] that was to write its page has achieved. *)
Definition now_clean (one : bool) (status : Z) (b : nat) (s : cache) : Prop :=
  one = true -> status <> 0 -> forall y, bdbs s !! b = Some y -> BDB_marked y = false -> BDB_dirty y = false.

(** Writing a page touches no others than those above it. *)
Definition spares (b : nat) (s s' : cache) : Prop :=
  forall c x y, c <> b -> ~ tc (edge s) b c -> bdbs s !! c = Some x -> bdbs s' !! c = Some y -> BDB_dirty y = BDB_dirty x.

Lemma spares_same b s s' : bdbs s' = bdbs s -> spares b s s'.
Proof. intros E c x y _ _ Hx Hy. congruence. Qed.

Lemma spares_trans b s1 s2 s3 : kept s1 s2 -> spares b s1 s2 -> spares b s2 s3 -> spares b s1 s3.
Proof.
  intros K H1 H2 c x z Hc Ht Hx Hz. destruct (kept_bdbs _ _ K c x Hx) as (y & Hy & _). rewrite <-(H1 c x y); [|done..]. apply (H2 c); [done| |done|done].
  intros H. apply Ht. apply (tc_congruence (fun b => b) (edge s1)) in H; [done|]. intros u v. apply edge_sub, (kept_precedences _ _ K).
Qed.

(** From a buffer above: the buffers above that one are above this one too. *)
Lemma spares_above b h s s' : edge s b h -> spares h s s' -> spares b s s'.
Proof.
  intros He Hs c x y Hc Ht Hx Hy. apply (Hs c); [intros ->; by apply Ht, tc_once| |done|done]. intros H. by apply Ht, (tc_l _ _ h).
Qed.

Lemma spares_written b x header s : spares b s (written b x header s).
Proof. intros c y z Hc _ Hy Hz. cbn in Hz. rewrite list_lookup_insert_ne in Hz by done. congruence. Qed.

Lemma spares_clear b c s : spares b s (clearPrecedence c s).
Proof. apply spares_same. by rewrite clearPrecedence_eq. Qed.

Lemma kept_delete p s : kept s (deletePrecedence p s).
Proof. apply kept_fewer. intros q. apply delete_first_sub. Qed.

(** The end of [writeBuffer]. *)
Lemma write_one thru b s y status :
  wf s -> bdbs s !! b = Some y -> bdb_higher s b = [] -> (BDB_marked y = true -> BDB_faked y = true) ->
  returns
    (let* (result, s) :=
       (if needs_write thru y && negb (BDB_marked y) then
          let* (ok, s) := writePage thru b s in Ret (ok, if ok : bool then clearPrecedence b s else s)
        else Ret (true, clearPrecedence b s)) in
     Ret (if negb result then 0 else status, s))
    (fun '(status, s') => good s s' /\ kept s s' /\ spares b s s' /\ now_clean true status b s').
Proof.
  intros Hw Hy Htop Hmf. destruct (needs_write thru y && negb (BDB_marked y)) eqn:Hny.
  - apply andb_true_iff in Hny as [Hn1 Hm1]. apply negb_true_iff in Hm1.
    assert (Hd1 : BDB_dirty y = true).
    { apply orb_true_iff in Hn1 as [?|Hdb]; [done|]. apply andb_true_iff in Hdb as [_ Hdb]. by apply (ok_db_dirty _ _ _ (wf_bdbs s Hw b y Hy)). }
    apply returns_bind. apply returns_bind. eapply returns_mono; [apply (writePage_spec thru b s y Hw Hy Hm1 Hd1)|].
    intros [ok s2] Hs2. cbn. destruct ok; cbn [negb].
    + destruct Hs2 as [header ->]. split; [|split; [by apply kept_written|split; [apply spares_written|] ] ].
      * apply good_written; [done..|]. intros high. by apply edge_higher.
      * intros _ _ w Hz _. cbn in Hz. rewrite list_lookup_insert_eq in Hz by (by eapply lookup_lt_Some). by injection Hz as <-.
    + destruct Hs2 as [n ->]. split; [apply good_attempt|]. split; [apply kept_attempt|]. split; [by apply spares_same|by intros _ ?].
  - cbn [obind negb]. split; [|split; [apply kept_clear|split; [apply spares_clear|] ] ].
    + apply good_clear. intros _. apply wf_free; [done|]. intros z Hz. rewrite Hy in Hz. injection Hz as <-.
      apply andb_false_iff in Hny as [Hny|Hny]; [left; by apply orb_false_iff in Hny as [? _]|right]. apply Hmf. by apply negb_false_iff.
    + intros _ _ w Hz Hm. rewrite clearPrecedence_eq in Hz. cbn in Hz. rewrite Hy in Hz. injection Hz as <-. rewrite Hm in Hny.
      apply andb_false_iff in Hny as [Hny|Hny]; [by apply orb_false_iff in Hny as [? _]|done].
Qed.

Lemma write_ok fuel :
  (forall thru one b s, wf s -> returns (writeBuffer fuel thru one b s)
     (fun '(status, s') => good s s' /\ kept s s' /\ spares b s s' /\ now_clean one status b s')) /\
  (forall thru one b s, wf s -> returns (write_higher fuel thru one b s)
     (fun '(r, s') => good s s' /\ kept s s' /\ spares b s s' /\ (r = None -> bdb_higher s' b = []) /\
        (one = true -> forall status, r = Some status -> status = 0))).
Proof.
  induction fuel as [|fuel [IHb IHh]]; [by split|]. split; intros thru one b s Hw.
  - cbn. unfold bdb_at at 1. destruct (bdbs s !! b) as [x|] eqn:Hx; [|done]. cbn [obind].
    destruct (BDB_marked x && negb (BDB_faked x)) eqn:Hmf; [done|]. destruct (needs_write thru x) eqn:Hn; cbn [negb].
    2: { split; [|split; [apply kept_clear|split; [apply spares_clear|] ] ].
      - apply good_clear. intros _. apply wf_free; [done|]. intros y Hy. left. rewrite Hx in Hy. injection Hy as <-. by apply orb_false_iff in Hn as [? _].
      - intros _ _ y Hy _. rewrite clearPrecedence_eq in Hy. cbn in Hy. rewrite Hx in Hy. injection Hy as <-. by apply orb_false_iff in Hn as [? _]. }
    call (IHh thru one b s Hw). intros [r s1] (G1 & K1 & S1 & Hr1 & Hr2). pose proof (good_wf _ _ G1 Hw) as Hw1.
    destruct r as [status|]; [do 3 (split; [done|]); intros Ho Hst; exfalso; apply Hst; by apply Hr2|].
    unfold bdb_at. destruct (bdbs s1 !! b) as [y|] eqn:Hy; [|done]. cbn [obind]. pose proof (kept_at _ _ _ _ _ K1 Hx Hy) as [_ _ _ (_ & Km & Kf) _].
    assert (Hmf1 : BDB_marked y = true -> BDB_faked y = true) by (rewrite Km, Kf; destruct (BDB_marked x), (BDB_faked x); done).
    assert (Hone := write_one thru b s1 y (if one then 1 else 2) Hw1 Hy (Hr1 eq_refl) Hmf1).
    destruct (if needs_write thru y && negb (BDB_marked y) then _ else _) as [[result s2]|e]; [|done]. cbn in Hone |- *.
    destruct Hone as (G2 & K2 & S2 & C2).
    assert (Hall : good s s2 /\ kept s s2 /\ spares b s s2) by (split_and!; [by eapply good_trans|by eapply kept_trans|by eapply spares_trans]).
    destruct Hall as (? & ? & ?). destruct result; cbn [negb] in *; [|split_and!; try done; by intros _ ?]. destruct one; split_and!; try done; by apply C2.
  - cbn. destruct (bdb_higher s b) as [|p l] eqn:Hh.
    { split; [apply good_refl|]. split; [apply kept_refl|]. split; [by apply spares_same|]. split; [done|by intros _ st]. }
    assert (Hp : p ∈ precedences s /\ pre_low p = b) by (assert (Hin : p ∈ bdb_higher s b) by (rewrite Hh; left); by apply list_elem_of_filter in Hin as [? ?]).
    destruct (pre_cleared p) eqn:Hc.
    + assert (G0 : good s (deletePrecedence p s)) by (by apply good_delete_cleared). eapply returns_mono; [apply (IHh thru one b); by apply (good_wf _ _ G0)|].
      intros [r s'] (G & K & S & H1 & H2). split; [by eapply good_trans|]. split; [by eapply kept_trans; [apply kept_delete|]|]. split; [|done].
      eapply spares_trans; [apply kept_delete|by apply spares_same|done].
    + call (IHb thru false (pre_hi p) s Hw). intros [status s1] (G1 & K1 & S1 & _).
      assert (He : edge s b (pre_hi p)) by (destruct Hp; by exists p). apply (spares_above b) in S1; [|done]. destruct (Z.eqb_spec status 0) as [->|Hst].
      { do 3 (split; [done|]). split; [done|]. intros _ st [= <-]. done. }
      destruct one; cbn [negb]; [|do 3 (split; [done|]); split; [done|discriminate] ].
      eapply returns_mono; [apply (IHh thru true b s1); by apply (good_wf _ _ G1)|]. intros [r s'] (G & K & S & H1 & H2).
      split; [by eapply good_trans|]. split; [by eapply kept_trans|]. split; [by eapply spares_trans|done].
Qed.

Definition writeBuffer_ok fuel := proj1 (write_ok fuel).

End Writing.

End PageCacheOrder.
