(* ===== verification/PageCacheGraph.v ===== *)
(** * The precedence graph ([jrd/PageCache.cpp])

    What the search for a path finds, and that declaring a precedence makes one
    page wait for another without ever closing a circle. *)

From S2P Require Import Prelude.
From S2P Require Import QSort.
From S2P Require Import PageCache.
From S2P Require Import PageCacheOrder.
From stdpp Require Import list relations.
#[local] Open Scope Z_scope.

Module PageCacheGraph.
Import PageCache PageCacheOrder.

(** ** [related] *)

(** Whether one of the blocks leads to [high]. *)
Definition leads (s : cache) (l : list Precedence) (high : nat) : Prop :=
  exists p, p ∈ l /\ pre_cleared p = false /\ (pre_hi p = high \/ tc (edge s) (pre_hi p) high).

Lemma leads_tc s b high : leads s (bdb_higher s b) high <-> tc (edge s) b high.
Proof.
  split.
  - intros (p & Hp & Hc & H). apply list_elem_of_filter in Hp as [Hl Hp]. assert (He : edge s b (pre_hi p)) by (by exists p).
    destruct H as [<-|H]; [by apply tc_once|by apply (tc_l _ _ (pre_hi p))].
  - intros Ht. assert (Hin : forall c, edge s b c -> exists p, p ∈ bdb_higher s b /\ pre_cleared p = false /\ pre_hi p = c).
    { intros c (p & Hp & Hl & Hh & Hc). exists p. split; [by apply list_elem_of_filter|done]. }
    inversion Ht as [x y He|x y z He Ht']; subst; destruct (Hin _ He) as (p & Hp & Hc & Eh); exists p; split_and!; try done; [by left|right; by rewrite Eh].
Qed.

(** The answer to a search that was given [limit]. *)
Definition answers (P : Prop) (limit r : Z) : Prop :=
  (r = PRE_EXISTS /\ P) \/ r = PRE_UNKNOWN \/ (0 < r <= limit /\ ~ P).

Lemma related_scan_ok s next high l limit :
  (forall b limit, 0 < limit -> answers (tc (edge s) b high) limit (next b limit)) ->
  0 < limit -> answers (leads s l high) limit (related_scan next high l limit).
Proof.
  intros Hnext. revert limit. induction l as [|p l IHl]; intros limit Hl; cbn [related_scan].
  { right. right. split; [lia|]. intros (p & Hp & _). by apply elem_of_nil in Hp. }
  destruct (Z.eqb_spec (limit - 1) 0) as [|Hne]; [by right; left|].
  assert (Hrest : forall r, 0 < r < limit -> (pre_cleared p = false -> ~ (pre_hi p = high \/ tc (edge s) (pre_hi p) high)) ->
    answers (leads s (p :: l) high) limit (related_scan next high l r)).
  { intros r Hr Hp. destruct (IHl r) as [[H1 H2]|[H1|[H1 H2]]]; [lia|left|right; by left|right; right].
    - split; [done|]. destruct H2 as (q & Hq & H2). exists q. split; [by right|done].
    - split; [lia|]. intros (q & [->|Hq]%elem_of_cons & Hqc & Hq'); [by apply Hp|]. apply H2. by exists q. }
  destruct (pre_cleared p) eqn:Hc; [apply Hrest; (done || lia)|]. case_decide as Eh.
  { left. split; [done|]. exists p. split; [left|]. split; [done|by left]. }
  destruct (Hnext (pre_hi p) (limit - 1) ltac:(lia)) as [[-> H2]|[->|[H1 H2]]]; [|by right; left|].
  { left. split; [done|]. exists p. split; [left|]. split; [done|by right]. }
  rewrite (proj2 (Z.eqb_neq (next _ _) PRE_EXISTS)), (proj2 (Z.eqb_neq (next _ _) PRE_UNKNOWN)) by (unfold PRE_EXISTS, PRE_UNKNOWN; lia).
  apply Hrest; [lia|]. intros _ [|]; done.
Qed.

Lemma related_within_ok levels s low high limit :
  0 < limit -> answers (tc (edge s) low high) limit (related_within levels s low high limit).
Proof.
  revert low limit. induction levels as [|levels IH]; intros low limit Hl; [by right; left|]. cbn [related_within].
  destruct (related_scan_ok s (fun b limit => related_within levels s b high limit) high (bdb_higher s low) limit) as [[H1 H2]|[H1|[H1 H2]]]; [by intros; apply IH|done| | |].
  - left. split; [done|]. by apply leads_tc.
  - right. by left.
  - right. right. split; [done|]. by rewrite <-leads_tc.
Qed.

Lemma related_ok s low high : answers (tc (edge s) low high) PRE_SEARCH_LIMIT (related s low high PRE_SEARCH_LIMIT).
Proof. by apply related_within_ok. Qed.

(** More levels than the limit allows for change nothing. *)
Lemma related_levels levels more s low high limit :
  0 < limit <= Z.of_nat levels -> related_within (levels + more) s low high limit = related_within levels s low high limit.
Proof.
  revert low limit. induction levels as [|levels IH]; intros low limit Hl; [lia|]. cbn [related_within Nat.add].
  generalize (bdb_higher s low). intros l. revert limit Hl. induction l as [|p l IHl]; intros limit Hl; [done|]. cbn [related_scan].
  destruct (Z.eqb_spec (limit - 1) 0) as [|Hne]; [done|]. destruct (pre_cleared p); [apply IHl; lia|]. case_decide; [done|].
  rewrite IH by lia. pose proof (related_within_ok levels s (pre_hi p) high (limit - 1) ltac:(lia)) as Hr.
  set (r := related_within levels s (pre_hi p) high (limit - 1)) in *.
  destruct Hr as [[-> _]|[->|[Hr _]]]; [done..|]. destruct ((r =? PRE_EXISTS) || (r =? PRE_UNKNOWN)); [done|]. apply IHl. lia.
Qed.

(** Nothing waits for a buffer without lower blocks. *)
Lemma no_lower s b x : bdb_lower s b = [] -> ~ tc (edge s) x b.
Proof.
  intros E Ht. apply tc_nsteps in Ht as (n & Hn & Hs). destruct n as [|n]; [lia|]. apply nsteps_inv_r in Hs as (y & _ & p & Hp & _ & Hh & _).
  assert (Hin : p ∈ bdb_lower s b) by (by apply list_elem_of_filter). rewrite E in Hin. by apply elem_of_nil in Hin.
Qed.

(** What the test before a search comes to. *)
Lemma tested s low high r :
  r = related s low high PRE_SEARCH_LIMIT ->
  let some := negb (bool_decide (bdb_lower s high = [])) in
  (some && (r =? PRE_EXISTS) = true -> tc (edge s) low high) /\
  (some && (r =? PRE_EXISTS) = false -> some && (r =? PRE_UNKNOWN) = false -> ~ tc (edge s) low high).
Proof.
  intros -> some. unfold some. destruct (bool_decide_reflect (bdb_lower s high = [])) as [E|Hne]; cbn [negb andb].
  { split; [done|]. intros _ _. by apply no_lower. }
  destruct (related_ok s low high) as [[-> H]|[->|[H1 H2]]]; [by split|by split|]. split; [|done]. intros H. apply Z.eqb_eq in H. unfold PRE_EXISTS in H. lia.
Qed.

(** ** A new block *)

Definition with_edge (low high : nat) (s : cache) : cache :=
  with_precedences (mk_precedence high low false :: precedences s) s.

Lemma with_edge_tc low high s u v :
  tc (edge (with_edge low high s)) u v -> tc (edge s) u v \/ (rtc (edge s) u low /\ rtc (edge s) high v).
Proof.
  assert (He : forall u v, edge (with_edge low high s) u v -> edge s u v \/ (u = low /\ v = high)).
  { intros x y (p & [->|Hp]%elem_of_cons & E1 & E2 & E3); [right; by subst|left; by exists p]. }
  induction 1 as [x y H|x y z H _ IH].
  - destruct (He x y H) as [|[-> ->]]; [left; by apply tc_once|by right].
  - destruct (He x y H) as [E|[-> ->]].
    + destruct IH as [IH|[IH1 IH2]]; [left; by apply (tc_l _ _ y)|right; split; [by apply (rtc_l _ _ y)|done] ].
    + right. split; [done|]. destruct IH as [IH|[_ IH]]; [by apply tc_rtc|done].
Qed.

Lemma edge_more low high s u v : edge s u v -> edge (with_edge low high s) u v.
Proof. intros (p & Hp & E). exists p. split; [by right|done]. Qed.

Lemma good_edge low high s xl xh :
  bdbs s !! low = Some xl -> bdbs s !! high = Some xh -> BDB_dirty xh = true -> BDB_faked xh = false ->
  low <> high -> ~ tc (edge s) high low -> good s (with_edge low high s).
Proof.
  intros Hl Hh Hd Hf Hne Hno Hw. set (s' := with_edge low high s). split; [|split; [done|split; [|done] ] ].
  - destruct Hw as [W1 W2 W3 W4 W5 W6 W7 W8 W9 W10 W11]. split; try done.
    + intros p [->|Hp]%elem_of_cons; [|by apply W2]. split; [by exists xl|]. by exists xh.
    + intros b Hb. destruct (with_edge_tc _ _ _ _ _ Hb) as [H|[H1 H2]]; [by apply (W3 b)|].
      assert (H : rtc (edge s) high low) by (by transitivity b). apply rtc_tc in H as [->|H]; done.
  - intros l h v Hdep. split; [|apply ordered_refl]. destruct Hdep as [|(bl & bh & yl & yh & H1 & H2 & H3 & H4 & H5 & H6 & H7)]; [by left|right].
    exists bl, bh, yl, yh. split_and!; try done. apply (tc_congruence (fun b => b) (edge s')) in H7; [done|]. intros u w. apply edge_more.
Qed.

(** ** [declarePrecedence] *)

Section Declaring.
Context `{ST : Storage}.

(** Buffers keep their pages, contents, latches and marks. *)
Definition steady (s s' : cache) : Prop :=
  forall b x, bdbs s !! b = Some x -> exists y, bdbs s' !! b = Some y /\ kept_bdb x y.

Lemma steady_refl s : steady s s.
Proof. intros b x Hx. exists x. split; [done|apply kept_bdb_refl]. Qed.

Lemma steady_trans s1 s2 s3 : steady s1 s2 -> steady s2 s3 -> steady s1 s3.
Proof.
  intros A B b x Hx. destruct (A b x Hx) as (y & Hy & [C1 C2 (C3 & C3' & C3'') (C4 & C4' & C4'') C5]).
  destruct (B b y Hy) as (z & Hz & [D1 D2 (D3 & D3' & D3'') (D4 & D4' & D4'') D5]).
  exists z. split; [done|]. split; [congruence|congruence|split_and!; congruence|split_and!; congruence|].
  intros Hd. destruct (D5 Hd) as (D6 & -> & -> & ->). by destruct (C5 D6) as (? & -> & -> & ->).
Qed.

Lemma kept_steady s s' : kept s s' -> steady s s'.
Proof. intros K b x. apply (kept_bdbs _ _ K). Qed.

(** The page of [low] waits for what [high] contained, or that is on file. *)
Definition waits_for (s s' : cache) (low high : nat) : Prop :=
  forall x, bdbs s !! high = Some x ->
    bdb_incarnation x <= on_file (writes s') (bdb_page x) \/ tc (edge s') low high.

Lemma clean_on_file s b x v : wf s -> bdbs s !! b = Some x -> BDB_dirty x = false -> 0 <= bdb_page x -> held s 0 (bdb_page x) v -> v <= on_file (writes s) (bdb_page x).
Proof.
  intros Hw Hx Hd Hp [H|(c & y & Hy & E & Hdy & _ & _)]; [done|]. assert (c = b) as -> by (by apply (wf_pages s Hw c b y x); [| | |rewrite E]). congruence.
Qed.

Lemma writeBuffer_marked fuel thru one b s x :
  bdbs s !! b = Some x -> BDB_marked x = true -> BDB_faked x = false -> writeBuffer (S fuel) thru one b s = Throw (BUGCHECK 217).
Proof. intros Hx Hm Hf. cbn [writeBuffer]. rewrite (bdb_at_ok s b x Hx). cbn [obind]. by rewrite Hm, Hf. Qed.

(** Writing the page above settles the matter. *)
Lemma write_high fuel high s xh :
  wf s -> bdbs s !! high = Some xh -> BDB_dirty xh = true -> BDB_faked xh = false ->
  returns (let* (status, s) := writeBuffer (S fuel) false true high s in if status =? 0 then Throw punt else Ret s)
    (fun s' => good s s' /\ steady s s' /\ bdb_incarnation xh <= on_file (writes s') (bdb_page xh)).
Proof.
  intros Hw Hh Hd Hf. destruct (BDB_marked xh) eqn:Hm; [by rewrite (writeBuffer_marked _ _ _ _ _ xh)|].
  call (writeBuffer_ok (S fuel) false true high s Hw). intros [status s1] (G & K & _ & C). destruct (Z.eqb_spec status 0) as [|Hst]; [done|].
  split; [done|]. split; [by apply kept_steady|]. destruct (kept_bdbs _ _ K high xh Hh) as (y & Hy & [P1 P2 _ (_ & P4 & P5) _]). rewrite <-P1.
  apply (clean_on_file s1 high y); [by apply (good_wf _ _ G)|done|apply (C eq_refl Hst y Hy); congruence| |].
  - rewrite P1. by apply (ok_page _ _ _ (wf_bdbs s Hw high xh Hh)).
  - rewrite P1. apply G; [done|]. right. by exists high, xh.
Qed.

(** Writing the page below leaves the one above to be written. *)
Lemma write_low fuel low high s xh :
  wf s -> bdbs s !! high = Some xh -> BDB_dirty xh = true -> low <> high -> ~ tc (edge s) low high ->
  returns (let* (status, s) := writeBuffer (S fuel) false true low s in if status =? 0 then Throw punt else Ret s)
    (fun s' => good s s' /\ steady s s' /\ exists y, bdbs s' !! high = Some y /\ kept_bdb xh y /\ BDB_dirty y = true).
Proof.
  intros Hw Hh Hd Hne Hno. call (writeBuffer_ok (S fuel) false true low s Hw). intros [status s1] (G & K & S & _).
  destruct (Z.eqb_spec status 0) as [|Hst]; [done|]. split; [done|]. split; [by apply kept_steady|].
  destruct (kept_bdbs _ _ K high xh Hh) as (y & Hy & Ky). exists y. split_and!; [done|done|]. rewrite <-Hd. by apply (S high).
Qed.

Lemma relate_ok fuel low high s xl xh :
  wf s -> bdbs s !! low = Some xl -> bdbs s !! high = Some xh -> BDB_dirty xh = true -> BDB_faked xh = false -> low <> high ->
  returns (relate fuel low high s) (fun s' => good s s' /\ steady s s' /\ waits_for s s' low high).
Proof.
  revert s xl xh. induction fuel as [|fuel IH]; intros s xl xh Hw Hl Hh Hd Hf Hne; [done|]. cbn [relate].
  destruct (tested s low high _ eq_refl) as [T1 T2].
  destruct (negb (bool_decide (bdb_lower s high = [])) && (related s low high PRE_SEARCH_LIMIT =? PRE_EXISTS)).
  { split; [apply good_refl|]. split; [apply steady_refl|]. intros x Hx. right. by apply T1. }
  destruct (negb (bool_decide (bdb_lower s high = [])) && (related s low high PRE_SEARCH_LIMIT =? PRE_UNKNOWN)).
  { eapply returns_mono; [by apply (write_high fuel high s xh)|]. intros s1 (G & K & H). do 2 (split; [done|]).
    intros x Hx. rewrite Hh in Hx. injection Hx as <-. by left. }
  apply returns_bind. eapply (returns_mono _ (fun s' => good s s' /\ steady s s' /\ exists y, bdbs s' !! high = Some y /\ kept_bdb xh y /\ BDB_dirty y = true)).
  { apply returns_if; intros _; [apply (write_low fuel low high s xh); auto|]. split; [apply good_refl|]. split; [apply steady_refl|].
    exists xh. split; [done|]. split; [apply kept_bdb_refl|done]. }
  intros s1 (G1 & K1 & y & Hy & Ky & Hdy). pose proof (good_wf _ _ G1 Hw) as Hw1. destruct (K1 low xl Hl) as (yl & Hyl & _).
  assert (Hfy : BDB_faked y = false) by (destruct Ky as [_ _ _ (_ & _ & ->) _]; done).
  assert (Hwait : forall s2, waits_for s1 s2 low high -> waits_for s s2 low high).
  { intros s2 H x Hx. rewrite Hh in Hx. injection Hx as <-. destruct Ky as [E1 E2 _ _ _]. specialize (H y Hy). by rewrite E1, E2 in H. }
  assert (Hagain : returns (relate fuel low high s1) (fun s' => good s s' /\ steady s s' /\ waits_for s s' low high)).
  { eapply returns_mono; [by apply (IH s1 yl y)|]. intros s2 (G2 & K2 & W2).
    split; [by eapply good_trans|]. split; [by eapply steady_trans|]. by apply Hwait. }
  destruct (tested s1 low high _ eq_refl) as [U1 U2].
  destruct (negb (bool_decide (bdb_lower s1 high = [])) && (related s1 low high PRE_SEARCH_LIMIT =? PRE_EXISTS)).
  { split; [done|]. split; [done|]. apply Hwait. intros x Hx. right. by apply U1. }
  destruct (negb (bool_decide (bdb_lower s1 high = [])) && (related s1 low high PRE_SEARCH_LIMIT =? PRE_UNKNOWN)); [exact Hagain|].
  destruct (tested s1 high low _ eq_refl) as [_ V2].
  destruct (negb (bool_decide (bdb_lower s1 low = [])) && ((related s1 high low PRE_SEARCH_LIMIT =? PRE_EXISTS) || (related s1 high low PRE_SEARCH_LIMIT =? PRE_UNKNOWN))) eqn:E;
    [exact Hagain|].
  assert (Hno : ~ tc (edge s1) high low).
  { apply V2; destruct (negb (bool_decide (bdb_lower s1 low = []))); cbn [andb] in *; try done; by apply orb_false_iff in E as [? ?]. }
  split; [|split].
  - eapply good_trans; [exact G1|]. by apply (good_edge low high s1 yl y).
  - exact K1.
  - apply Hwait. intros x Hx. right. apply tc_once. exists (mk_precedence high low false). split; [left|done].
Qed.

(** The page that has to be written first: a transaction number stands for the
    header page. *)
Definition first_page (page : Z) : Z := if page <? 0 then HEADER_PAGE else page.

Lemma find_page_ok s page b : find_page s page = Some b -> exists x, bdbs s !! b = Some x /\ bdb_page x = page.
Proof.
  unfold find_page. destruct (list_find _ _) as [[c x]|] eqn:E; [|done]. intros [= <-]. apply list_find_Some in E as (Hx & Hp & _). by exists x.
Qed.

Lemma find_page_none s page b x : find_page s page = None -> bdbs s !! b = Some x -> bdb_page x <> page.
Proof.
  unfold find_page. destruct (list_find _ _) as [|] eqn:E; [done|]. intros _ Hx Hp. apply list_find_None in E. rewrite list.Forall_forall in E.
  apply (E x); [|done]. by eapply list_elem_of_lookup_2.
Qed.

Lemma version_held s page : wf s -> 0 <= page -> held s 0 page (version s page).
Proof.
  intros Hw Hp. unfold version. destruct (find_page s page) as [b|] eqn:E; [|by left].
  destruct (find_page_ok s page b E) as (x & Hx & Hpx). rewrite Hx. destruct (BDB_dirty x) eqn:Hd; [right; by exists b, x|by left].
Qed.

(** A client waits with a precedence until the other page is no longer being
    allocated. *)
Definition allocated (s : cache) (page : Z) : Prop :=
  forall b x, find_page s (first_page page) = Some b -> bdbs s !! b = Some x -> BDB_faked x = false.

Definition settled (page : Z) (s : cache) : Prop := page = 0 \/ (page < 0 /\ - page <= dbb_last_header_write s).

Lemma declarePrecedence_ok fuel low page s xl :
  wf s -> bdbs s !! low = Some xl -> allocated s page ->
  returns (declarePrecedence fuel low page s) (fun s' => good s s' /\ steady s s' /\
    (settled page s \/ bdb_page xl = first_page page \/
     version s (first_page page) <= on_file (writes s') (first_page page) \/
     exists high xh, bdbs s' !! high = Some xh /\ bdb_page xh = first_page page /\ version s (first_page page) <= bdb_incarnation xh /\
       tc (edge s') low high)).
Proof.
  intros Hw Hl Ha. unfold declarePrecedence. destruct (Z.eqb_spec page 0) as [|Hp0].
  { split; [apply good_refl|]. split; [apply steady_refl|]. left. by left. }
  destruct ((page <? 0) && (- page <=? dbb_last_header_write s)) eqn:Eh.
  { apply andb_true_iff in Eh as [H1 H2]. split; [apply good_refl|]. split; [apply steady_refl|]. left. right. bool_hyps. lia. }
  fold (first_page page). destruct (find_page s (first_page page)) as [high|] eqn:Ef.
  2: { split; [apply good_refl|]. split; [apply steady_refl|]. right. right. left. unfold version. by rewrite Ef. }
  destruct (find_page_ok s _ high Ef) as (xh & Hh & Hpg). rewrite (bdb_at_ok s high xh Hh), (bdb_at_ok s low xl Hl). cbn [obind].
  destruct (BDB_dirty xh) eqn:Hd; cbn [negb orb].
  2: { split; [apply good_refl|]. split; [apply steady_refl|]. right. right. left. unfold version. by rewrite Ef, Hh, Hd. }
  destruct (Z.eqb_spec (bdb_page xh) (bdb_page xl)) as [E|Hne].
  { split; [apply good_refl|]. split; [apply steady_refl|]. right. left. congruence. }
  destruct (BDB_marked xl && negb (BDB_faked xl)); [done|].
  eapply returns_mono; [apply (relate_ok fuel low high s xl xh); try done; [by apply (Ha high)|intros ->; congruence]|].
  intros s' (G & K & W). split; [done|]. split; [done|]. right. right. unfold version. rewrite Ef, Hh, Hd.
  destruct (W xh Hh) as [H|H]; [left; by rewrite <-Hpg|right]. destruct (K high xh Hh) as (y & Hy & [P1 P2 _ _ _]).
  exists high, y. split_and!; [done|congruence|by rewrite P2|done].
Qed.

End Declaring.

End PageCacheGraph.
