(* ===== verification/PageCacheSteps.v ===== *)
(** * What a thread does with the page cache ([jrd/PageCache.cpp])

    Each operation of the cache keeps its promises. *)

From S2P Require Import Prelude.
From S2P Require Import QSort.
From S2P Require Import PageCache.
From S2P Require Import PageCacheOrder.
From S2P Require Import PageCacheGraph.
From stdpp Require Import list relations.
#[local] Open Scope Z_scope.

Module PageCacheSteps.
Import PageCache PageCacheOrder PageCacheGraph.

(** ** Marking *)

Lemma set_bdb_eq b x s : is_Some (bdbs s !! b) -> bdbs (set_bdb b x s) !! b = Some x.
Proof. intros H. by rewrite set_bdb_lookup, decide_True. Qed.

Lemma set_bdb_ne b x s c : c <> b -> bdbs (set_bdb b x s) !! c = bdbs s !! c.
Proof. intros H. rewrite set_bdb_lookup, decide_False; [done|tauto]. Qed.

Lemma set_set_bdb b x y s : set_bdb b x (set_bdb b y s) = set_bdb b x s.
Proof. unfold set_bdb, with_bdbs. cbn. by rewrite list_insert_insert_eq. Qed.

Lemma set_same_bdb b x s : bdbs s !! b = Some x -> set_bdb b x s = s.
Proof. intros Hx. unfold set_bdb. rewrite list_insert_id by done. by destruct s. Qed.

(** A buffer that becomes dirty or is queued: what else may change with it. *)
Record raised (b : nat) (x y : Bdb) (s s' : cache) : Prop := {
  raised_bdbs : bdbs s' = <[b := y]> (bdbs s);
  raised_others : precedences s' = precedences s /\ bcb_empty s' = bcb_empty s /\ writes s' = writes s;
  raised_newest : dbb_page_incarnation s <= dbb_page_incarnation s';
  raised_sequence : 0 <= markSequence s -> 0 <= markSequence s';
  raised_page : bdb_page y = bdb_page x /\ 0 <= bdb_page x;
  raised_incarnation : bdb_incarnation x <= bdb_incarnation y <= dbb_page_incarnation s';
  raised_newer : on_file (writes s) (bdb_page x) <= bdb_incarnation y;
  raised_dirty : BDB_dirty y = true;
  raised_faked : BDB_faked y = true -> BDB_faked x = true \/ free s b;
  raised_owes m : owes m x -> owes m y;
  raised_queue c : c ∈ bcb_dirty s' <-> if decide (c = b) then bdb_mark_sequence y <> 0 else c ∈ bcb_dirty s;
  raised_once : NoDup (bcb_dirty s')
}.

Lemma raised_up b x y s s' c z :
  raised b x y s s' -> bdbs s !! b = Some x -> bdbs s !! c = Some z ->
  exists w, bdbs s' !! c = Some w /\ bdb_page w = bdb_page z /\ bdb_incarnation z <= bdb_incarnation w /\
    (BDB_dirty z = true -> BDB_dirty w = true) /\ (forall m, owes m z -> owes m w).
Proof.
  intros R Hx Hz. rewrite (raised_bdbs _ _ _ _ _ R). destruct (decide (c = b)) as [->|Hne].
  - rewrite Hx in Hz. injection Hz as <-. exists y. rewrite list_lookup_insert_eq by (by eapply lookup_lt_Some). destruct R. split_and!; try done; [tauto|lia].
  - exists z. rewrite list_lookup_insert_ne by done. by split_and!.
Qed.

Lemma raised_wf b x y s s' : raised b x y s s' -> bdbs s !! b = Some x -> wf s -> wf s'.
Proof.
  intros R Hx Hw. pose proof (fun c z => raised_up b x y s s' c z R Hx) as Hup. destruct R as [R1 (R2 & R3 & R4) R5 R6 [R7 R7'] R8 R9 R10 R11 R12 R13 R14].
  assert (Hall : forall c z, bdbs s' !! c = Some z -> (c = b /\ z = y) \/ (c <> b /\ bdbs s !! c = Some z)).
  { intros c z Hz. rewrite R1 in Hz. destruct (decide (c = b)) as [->|Hne]; [left|right; by rewrite list_lookup_insert_ne in Hz].
    rewrite list_lookup_insert_eq in Hz by (by eapply lookup_lt_Some). by injection Hz as <-. }
  assert (He : forall u v, edge s' u v <-> edge s u v) by (intros u v; unfold edge; by rewrite R2).
  pose proof (wf_bdbs s Hw b x Hx) as Hok. destruct Hw as [W1 W2 W3 W4 W5 W6 W7 W8 W9 W10 W11]. split.
  - intros c d z w Hz Hw' E Hpg. destruct (Hall c z Hz) as [[-> ->]|[Hcb Hz']], (Hall d w Hw') as [[-> ->]|[Hdb Hw'']]; [done| | |by apply (W1 c d z w)].
    + apply (W1 b d x w); [done|done|congruence|done].
    + apply (W1 c b z x); [done|done|congruence|done].
  - intros p Hp. rewrite R2 in Hp. destruct (W2 p Hp) as ([z Hz] & w & Hw' & Hcl). destruct (Hup _ _ Hz) as (z' & Hz' & _). split; [by exists z'|].
    destruct (Hup _ _ Hw') as (w' & Hw'' & _ & _ & Hd & _). exists w'. split; [done|]. intros Hc. destruct (Hcl Hc) as [H1 H2]. split; [auto|].
    destruct (Hall _ _ Hw'') as [[E ->]|[_ Hs]]; [|congruence]. destruct (BDB_faked y) eqn:Ef; [|done]. exfalso.
    destruct (R11 eq_refl) as [Hfx|Hfree]; [congruence|]. apply (Hfree (pre_low p)). by exists p.
  - intros c H. apply (W3 c). apply (tc_congruence (fun b => b) (edge s)) in H; [done|]. intros; by apply He.
  - intros c z Hz. rewrite R4. destruct (Hall c z Hz) as [[-> ->]|[Hne Hz']]; [split; try done; rewrite ?R7; (done || lia)|].
    destruct (W4 c z Hz') as [K1 K2 K3 K4 K5]. split; auto. lia.
  - intros c. rewrite R13. case_decide as E.
    + subst c. split; [intros Hs; exists y; by rewrite R1, list_lookup_insert_eq by (by eapply lookup_lt_Some)|]. intros (z & Hz & Hs).
      destruct (Hall b z Hz) as [[_ ->]|[? _]]; done.
    + rewrite W5, R1. by rewrite list_lookup_insert_ne.
  - done.
  - auto.
  - destruct W8 as [N1 N2]. split; [lia|]. intros pg v Hin. rewrite R4 in Hin. specialize (N2 pg v Hin). lia.
  - intros c Hin. rewrite R3 in Hin. destruct (W9 c Hin) as (z & Hz & Hpg). destruct (Hup c z Hz) as (w & Hw' & E & _). exists w. by rewrite E.
  - by rewrite R3.
  - by rewrite R1, length_insert.
Qed.

Lemma good_raised b x y s s' : bdbs s !! b = Some x -> (wf s -> raised b x y s s') -> good s s'.
Proof.
  intros Hx HR Hw. specialize (HR Hw). pose proof (fun c z => raised_up b x y s s' c z HR Hx) as Hup.
  destruct (raised_others _ _ _ _ _ HR) as (E1 & E2 & E3). split; [by eapply raised_wf|]. split; [by rewrite E3|]. split.
  - intros l h v Hd. split; [|rewrite E3; apply ordered_refl]. destruct Hd as [Hd|(bl & bh & xl & xh & H1 & H2 & H3 & H4 & H5 & H6 & H7)]; [left; by rewrite E3|right].
    destruct (Hup _ _ H1) as (yl & Hyl & L1 & L2 & L3 & _). destruct (Hup _ _ H4) as (yh & Hyh & K1 & K2 & _).
    exists bl, bh, yl, yh. split_and!; [done|congruence|auto|done|congruence|lia|].
    apply (tc_congruence (fun b => b) (edge s')) in H7; [done|]. intros u w. unfold edge. by rewrite E1.
  - intros m page v [H|(c & z & Hz & <- & Hd & Hv & Ho)]; [left; by rewrite E3|right]. destruct (Hup c z Hz) as (w & Hw' & F1 & F2 & F3 & F4).
    exists c, w. split_and!; auto. lia.
Qed.

(** A buffer whose page changes: it is dirty with the newest incarnation. *)
Record changes (s : cache) (b : nat) (x y : Bdb) : Prop := {
  changes_page : bdb_page y = bdb_page x;
  changes_sequence : bdb_mark_sequence y = bdb_mark_sequence x;
  changes_incarnation : bdb_incarnation y = dbb_page_incarnation s + 1;
  changes_dirty : BDB_dirty y = true;
  changes_faked : BDB_faked y = true -> BDB_faked x = true \/ free s b;
  changes_owes m : owes m x -> owes m y
}.

Lemma on_file_newest s page : wf s -> on_file (writes s) page <= dbb_page_incarnation s.
Proof.
  intros Hw. destruct (wf_newest s Hw) as [N1 N2]. induction (writes s) as [|[q v] w IH]; cbn; [done|].
  destruct (q =? page); [apply (N2 q); left|apply IH; intros q' v' Hin; apply (N2 q'); by right].
Qed.

Lemma good_changes s b x y :
  bdbs s !! b = Some x -> 0 <= bdb_page x -> changes s b x y ->
  good s (set_bdb b y (with_incarnation (dbb_page_incarnation s + 1) s)).
Proof.
  intros Hx Hp [C1 C2 C3 C4 C5 C6]. apply (good_raised b x y); [done|]. intros Hw.
  pose proof (ok_newest _ _ _ (wf_bdbs s Hw b x Hx)). pose proof (on_file_newest s (bdb_page x) Hw).
  split; cbn; try done; try lia; [|by apply (wf_queue_once s Hw)]. intros c. case_decide as E; [|done]. subst c. rewrite (wf_queue s Hw), C2.
  split; [intros (z & Hz & Hs); congruence|by exists x].
Qed.

(** Queueing a dirty buffer. *)
Lemma insertDirtyPage_ok b s x :
  bdbs s !! b = Some x -> BDB_dirty x = true ->
  returns (insertDirtyPage b s) (fun s' => good s s' /\ (wf s -> exists n, n <> 0 /\ bdbs s' !! b = Some (with_mark_sequence n x)) /\
    (forall c, c <> b -> bdbs s' !! c = bdbs s !! c) /\ precedences s' = precedences s /\ writes s' = writes s).
Proof.
  intros Hx Hd. unfold insertDirtyPage. rewrite (bdb_at_ok s b x Hx). cbn [obind]. rewrite Hd. cbn [negb].
  destruct (Z.eqb_spec (bdb_mark_sequence x) 0) as [E|Hne]; cbn [negb].
  2: { split; [apply good_refl|]. split; [|done]. intros _. exists (bdb_mark_sequence x). split; [done|]. rewrite Hx. by destruct x. }
  set (n := markSequence s + 1). set (y := with_mark_sequence n x).
  split; [|split; [|by split; [intros c Hne; apply set_bdb_ne|] ] ].
  2: { intros Hw. exists n. split; [pose proof (wf_sequence s Hw); lia|]. apply set_bdb_eq. by eexists. }
  apply (good_raised b x y); [done|]. intros Hw. pose proof (wf_sequence s Hw). destruct (wf_bdbs s Hw b x Hx) as [K1 K2 K3 K4 K5].
  assert (Hb : b ∉ bcb_dirty s) by (intros Hin; apply (wf_queue s Hw) in Hin as (z & Hz & Hs); congruence).
  split; cbn; try done; try lia; auto.
  - intros m Ho Hm. destruct (Ho Hm). done.
  - intros c. rewrite elem_of_app, list_elem_of_singleton. case_decide; [split; [lia|by right]|tauto].
  - apply NoDup_app. split; [by apply wf_queue_once|]. split; [|by apply NoDup_singleton]. by intros c Hin ->%list_elem_of_singleton.
Qed.

(** ** [mark] *)

Lemma land_lor_nonzero m t u : Z.land m t <> 0 -> Z.land m (Z.lor t u) <> 0.
Proof. rewrite Z.land_lor_distr_r. intros H E. apply Z.lor_eq_0_iff in E as [E _]. done. Qed.

Lemma mark_bits_selects number t : Z.land (mark_bits number) (Z.lor t (mark_bits number)) <> 0.
Proof.
  rewrite Z.lor_comm. apply land_lor_nonzero. rewrite Z.land_diag. unfold mark_bits. rewrite Z.shiftl_1_l.
  apply Z.pow_nonzero; [lia|]. apply Z.land_nonneg. by right.
Qed.

(** A buffer as [fake] and [markMustWrite] have left it for [mark]. *)
Record prepared (s : cache) (b : nat) (x y : Bdb) : Prop := {
  prepared_page : bdb_page y = bdb_page x;
  prepared_sequence : bdb_mark_sequence y = bdb_mark_sequence x;
  prepared_transactions : bdb_transactions y = bdb_transactions x;
  prepared_faked : BDB_faked y = true -> BDB_faked x = true \/ free s b
}.

(** The page has a new incarnation, which a flush for the transaction finds. *)
Record marked (sweeper : bool) (number : Z) (sys : bool) (b : nat) (x : Bdb) (s s' : cache) : Prop := {
  marked_bdb : exists z, bdbs s' !! b = Some z /\ bdb_page z = bdb_page x /\ BDB_dirty z = true /\
    bdb_incarnation z = dbb_page_incarnation s + 1 /\ owes 0 z /\
    (sweeper = false -> number <> 0 -> owes (mark_bits number) z) /\
    (sweeper = true -> sys = false -> number <> 0 -> bdb_mark_sequence z = bdb_mark_sequence x);
  marked_rest c : c <> b -> bdbs s' !! c = bdbs s !! c;
  marked_edges : precedences s' = precedences s;
  marked_writes : writes s' = writes s
}.

Lemma mark_ok sweeper number sys b s x y :
  wf s -> bdbs s !! b = Some x -> 0 <= bdb_page x -> prepared s b x y ->
  returns (mark sweeper number sys b (set_bdb b y s)) (fun s' => good s s' /\ marked sweeper number (BDB_system_dirty y || sys) b x s s').
Proof.
  intros Hw Hx Hp [P1 P2 P3 P4]. unfold mark. rewrite (bdb_at_ok _ b y) by (apply set_bdb_eq; by eexists). cbn [obind].
  destruct (BDB_writer y); cbn [negb]; [|done]. change (dbb_page_incarnation (set_bdb b y s)) with (dbb_page_incarnation s).
  set (n := dbb_page_incarnation s + 1). set (trans := if negb (number =? 0) && negb sweeper then _ else _).
  set (z := with_mark n trans _ y).
  change (set_bdb b z (with_incarnation n (set_bdb b y s))) with (set_bdb b z (set_bdb b y (with_incarnation n s))). rewrite set_set_bdb.
  set (s1 := set_bdb b z (with_incarnation n s)).
  assert (G1 : good s s1).
  { apply (good_changes s b x z); [done..|]. split; try done. intros m Ho Hm. destruct (Ho Hm) as [O1 O2]. cbn. rewrite P2, P3. split; [done|]. by apply land_lor_nonzero. }
  assert (Hz : bdbs s1 !! b = Some z) by (apply set_bdb_eq; by eexists).
  assert (Hrest : forall c, c <> b -> bdbs s1 !! c = bdbs s !! c) by (intros c Hc; exact (set_bdb_ne b z (with_incarnation n s) c Hc)).
  assert (Hbits : sweeper = false -> number <> 0 -> Z.land (mark_bits number) (bdb_transactions z) <> 0).
  { intros -> Hn. cbn. unfold trans. rewrite (proj2 (Z.eqb_neq number 0)) by done. apply mark_bits_selects. }
  destruct (negb sweeper || BDB_system_dirty z) eqn:Eq.
  - eapply returns_mono; [by apply (insertDirtyPage_ok b s1 z)|]. intros s' (G2 & Hb & H1 & H2 & H3). split; [by eapply good_trans|].
    destruct (Hb (good_wf _ _ G1 Hw)) as (k & Hk & Hb'). split; [|by intros c Hc; rewrite H1, Hrest|done|done].
    exists (with_mark_sequence k z). split_and!; [done|done|done|done|done|by intros E1 E2 _; split; [|by apply Hbits]|].
    intros -> E1 E2. exfalso. cbn in Eq. rewrite (proj2 (Z.eqb_neq number 0)) in Eq by done. cbn in Eq. congruence.
  - split; [done|]. apply orb_false_iff in Eq as [Eq _]. apply negb_false_iff in Eq. subst sweeper. split; [|done|done|done].
    exists z. split_and!; try done.
Qed.

(** [CCH_MARK] of a page the thread has fetched for writing. *)
Lemma mark_page_ok sweeper number sys b s x :
  wf s -> bdbs s !! b = Some x -> 0 <= bdb_page x ->
  returns (mark sweeper number sys b s) (fun s' => good s s' /\ marked sweeper number (BDB_system_dirty x || sys) b x s s').
Proof.
  intros Hw Hx Hp. rewrite <-(set_same_bdb b x s Hx) at 1. apply mark_ok; [done..|]. split; auto.
Qed.

Lemma markMustWrite_ok sweeper number b s x :
  wf s -> bdbs s !! b = Some x -> 0 <= bdb_page x ->
  returns (markMustWrite sweeper number b s) (fun s' => good s s' /\ marked sweeper number (BDB_system_dirty x || false) b x s s').
Proof.
  intros Hw Hx Hp. unfold markMustWrite. rewrite (bdb_at_ok s b x Hx). cbn [obind]. destruct (BDB_writer x); cbn [negb]; [|done].
  apply (mark_ok sweeper number false b s x (with_must_write x)); [done..|]. split; auto.
Qed.

(** ** Getting a buffer *)

(** A clean buffer that stays clean, whatever it contains afterwards. *)
Record reused (b : nat) (x y : Bdb) (s s' : cache) : Prop := {
  reused_bdbs : bdbs s' = <[b := y]> (bdbs s);
  reused_others : precedences s' = precedences s /\ bcb_dirty s' = bcb_dirty s /\ markSequence s' = markSequence s /\ writes s' = writes s;
  reused_newest : dbb_page_incarnation s <= dbb_page_incarnation s';
  reused_clean : BDB_dirty x = false /\ BDB_dirty y = false /\ (BDB_db_dirty x = false -> BDB_db_dirty y = false) /\
    bdb_mark_sequence y = bdb_mark_sequence x;
  reused_incarnation : bdb_incarnation y <= dbb_page_incarnation s';
  reused_page : bdb_page y = bdb_page x \/ find_page s (bdb_page y) = None;
  reused_empty c : c ∈ bcb_empty s' -> c ∈ bcb_empty s /\ (c = b -> bdb_page y = bdb_page x);
  reused_once : NoDup (bcb_empty s')
}.

Lemma good_reused b x y s s' : bdbs s !! b = Some x -> (wf s -> reused b x y s s') -> good s s'.
Proof.
  intros Hx HR Hw. destruct (HR Hw) as [R1 (R2 & R3 & R4 & R5) R6 (R7 & R8 & R9 & R10) R11 R12 R13 R14].
  assert (Hb : bdbs s' !! b = Some y) by (rewrite R1; apply list_lookup_insert_eq; by eapply lookup_lt_Some).
  assert (Hc : forall c, c <> b -> bdbs s' !! c = bdbs s !! c) by (intros c Hne; rewrite R1; by apply list_lookup_insert_ne).
  assert (Hall : forall c z, bdbs s' !! c = Some z -> (c = b /\ z = y) \/ (c <> b /\ bdbs s !! c = Some z)).
  { intros c z Hz. destruct (decide (c = b)) as [->|Hne]; [left; split; congruence|right; split; [done|by rewrite <-Hc] ]. }
  assert (He : forall u v, edge s' u v <-> edge s u v) by (intros u v; unfold edge; by rewrite R2).
  assert (Hdirty : forall c z, bdbs s !! c = Some z -> BDB_dirty z = true -> bdbs s' !! c = Some z).
  { intros c z Hz Hd. rewrite Hc; [done|]. intros ->. congruence. }
  split; [|split; [by rewrite R5|split] ].
  - pose proof (wf_bdbs s Hw b x Hx) as Hok. destruct Hw as [W1 W2 W3 W4 W5 W6 W7 W8 W9 W10 W11].
    assert (Hnew : forall c z, c <> b -> bdbs s !! c = Some z -> bdb_page z = bdb_page y -> 0 <= bdb_page z -> False).
    { intros c z Hne Hz E Hp. destruct R12 as [E'|E']; [|by apply (find_page_none s _ c z E')]. apply Hne, (W1 c b z x); [done|done|congruence|done]. }
    split; rewrite ?R3, ?R4; try done.
    + intros c d z w Hz Hw' E Hpg. destruct (Hall c z Hz) as [[-> ->]|[Hcb Hz']], (Hall d w Hw') as [[-> ->]|[Hdb Hw'']]; [done| | |by apply (W1 c d z w)].
      * destruct (Hnew d w); [done|done|congruence|congruence].
      * by destruct (Hnew c z).
    + intros p Hp. rewrite R2 in Hp. destruct (W2 p Hp) as ([z Hz] & w & Hw' & Hcl). split.
      * destruct (decide (pre_low p = b)) as [->|]; [by exists y|by rewrite Hc].
      * destruct (decide (pre_hi p = b)) as [E|]; [|exists w; by rewrite Hc]. exists y. rewrite E in *. split; [done|].
        intros Hcc. destruct (Hcl Hcc) as [H _]. congruence.
    + intros c H. apply (W3 c). apply (tc_congruence (fun b => b) (edge s)) in H; [done|]. intros; by apply He.
    + intros c z Hz. rewrite R5. destruct (Hall c z Hz) as [[-> ->]|[Hne Hz']].
      * destruct Hok as [K1 K2 K3 K4 K5]. split; rewrite ?R8; try done.
        -- intros Hdb. rewrite R9 in Hdb; [done|]. destruct (BDB_db_dirty x) eqn:Edb; [|done]. rewrite K1 in R7; done.
        -- intros Hs. rewrite R10 in Hs. specialize (K2 Hs). congruence.
      * destruct (W4 c z Hz') as [K1 K2 K3 K4 K5]. split; auto. lia.
    + intros c. rewrite W5. split; intros (z & Hz & Hs).
      * destruct (decide (c = b)) as [->|Hne]; [exists y; split; [done|congruence]|exists z; by rewrite Hc].
      * destruct (Hall c z Hz) as [[-> ->]|[_ Hz']]; [exists x; by rewrite <-R10|by exists z].
    + destruct W8 as [N1 N2]. split; [lia|]. intros pg v Hin. rewrite R5 in Hin. specialize (N2 pg v Hin). lia.
    + intros c Hin. destruct (R13 c Hin) as [Hin' E]. destruct (W9 c Hin') as (z & Hz & Hpg). destruct (decide (c = b)) as [->|Hne].
      * exists y. split; [done|]. rewrite E by done. congruence.
      * exists z. by rewrite Hc.
    + by rewrite R1, length_insert.
  - intros l h v Hd. split; [|rewrite R5; apply ordered_refl]. destruct Hd as [Hd|(bl & bh & xl & xh & H1 & H2 & H3 & H4 & H5 & H6 & H7)]; [left; by rewrite R5|right].
    assert (Hdh : BDB_dirty xh = true).
    { apply tc_nsteps in H7 as (n & Hn & Hs). destruct n as [|n]; [lia|]. apply nsteps_inv_r in Hs as (u & _ & p & Hp & _ & <- & Hcl).
      destruct (wf_edges s Hw p Hp) as (_ & w & Hw' & Hd). rewrite H4 in Hw'. injection Hw' as <-. by apply Hd. }
    exists bl, bh, xl, xh. split_and!; auto. apply (tc_congruence (fun b => b) (edge s')) in H7; [done|]. intros; by apply He.
  - intros m page v [H|(c & z & Hz & E & Hd & Hv)]; [left; by rewrite R5|right]. exists c, z. auto.
Qed.

(** New buffers, without pages. *)
Lemma expandBuffers_ok n s : good s (expandBuffers n s).
Proof.
  unfold expandBuffers. set (count := length (bdbs s)). destruct ((n <=? count)%nat || (MAX_PAGE_BUFFERS <? Z.of_nat n)) eqn:E; [apply good_refl|].
  apply orb_false_iff in E as [E1 E2]. apply Nat.leb_gt in E1. apply Z.ltb_ge in E2. unfold MAX_PAGE_BUFFERS in E2.
  set (k := (n - count)%nat). set (s' := with_empty _ _).
  assert (Hold : forall c z, bdbs s !! c = Some z -> bdbs s' !! c = Some z) by (intros c z Hz; cbn; by apply lookup_app_l_Some).
  assert (Hnew : forall c z, bdbs s' !! c = Some z -> bdbs s !! c = Some z \/ ((count <= c)%nat /\ z = empty_bdb)).
  { intros c z Hz. cbn in Hz. apply lookup_app_Some in Hz as [Hz|[Hl Hz]]; [by left|right]. apply lookup_replicate in Hz as [-> _]. done. }
  assert (Hlt : forall c, is_Some (bdbs s !! c) -> (c < count)%nat) by (intros c Hs; by apply lookup_lt_is_Some_1).
  intros Hw. split; [|split; [done|split] ].
  - destruct Hw as [W1 W2 W3 W4 W5 W6 W7 W8 W9 W10 W11]. split; try done.
    + intros c d z w Hz Hw' E Hp. destruct (Hnew c z Hz) as [Hz'|[_ ->]]; [|done]. destruct (Hnew d w Hw') as [Hw''|[_ ->]]; [by apply (W1 c d z w)|].
      cbn in E. unfold JOURNAL_PAGE in E. lia.
    + intros p Hp. destruct (W2 p Hp) as ([z Hz] & w & Hw' & Hcl). split; [exists z; auto|]. exists w. auto.
    + intros c z Hz. destruct (Hnew c z Hz) as [Hz'|[_ ->]]; [by apply (W4 c)|]. destruct W8 as [N1 _]. by split.
    + intros c. change (bcb_dirty s') with (bcb_dirty s). rewrite W5. split; intros (z & Hz & Hs); [exists z; auto|].
      destruct (Hnew c z Hz) as [Hz'|[_ ->]]; [by exists z|done].
    + intros c [Hin|Hin]%elem_of_app; [|destruct (W9 c Hin) as (z & Hz & Hp); exists z; auto].
      apply list_elem_of_In, in_rev, in_seq in Hin. exists empty_bdb. split; [|done]. cbn. rewrite lookup_app_r by (fold count; lia).
      apply lookup_replicate. fold count. split; [done|lia].
    + cbn. apply NoDup_app. split; [|split; [|done] ].
      * apply NoDup_ListNoDup, NoDup_rev, seq_NoDup.
      * intros c Hin Hin'. apply list_elem_of_In, in_rev, in_seq in Hin. destruct (W9 c Hin') as (z & Hz & _).
        assert (c < count)%nat by (apply Hlt; by exists z). lia.
    + cbn. rewrite length_app, length_replicate. fold count. unfold k. lia.
  - intros l h v Hd. split; [|apply ordered_refl]. destruct Hd as [Hd|(bl & bh & xl & xh & H1 & H2 & H3 & H4 & H5 & H6 & H7)]; [by left|right].
    exists bl, bh, xl, xh. split_and!; auto.
  - intros m page v [H|(c & z & Hz & Hr)]; [by left|right]. exists c, z. auto.
Qed.

Lemma find_page_none_iff s page : find_page s page = None <-> forall b x, bdbs s !! b = Some x -> bdb_page x <> page.
Proof.
  split; [intros E b x; by apply find_page_none|]. intros H. unfold find_page. destruct (list_find _ _) as [[b x]|] eqn:E; [|done].
  exfalso. apply list_find_Some in E as (Hx & Hp & _). by apply (H b x).
Qed.

Lemma find_page_none_expand n s page : 0 <= page -> find_page s page = None -> find_page (expandBuffers n s) page = None.
Proof.
  rewrite !find_page_none_iff. intros Hp H b x Hx. unfold expandBuffers in Hx. destruct ((n <=? _)%nat || _) in Hx; [by apply (H b)|].
  cbn in Hx. apply lookup_app_Some in Hx as [Hx|[_ Hx]]; [by apply (H b)|]. apply lookup_replicate in Hx as [-> _]. cbn. unfold JOURNAL_PAGE. lia.
Qed.

Section Steps.
Context `{ST : Storage}.

Lemma find_page_none_steady s s' page :
  length (bdbs s') = length (bdbs s) -> steady s s' -> find_page s page = None -> find_page s' page = None.
Proof.
  rewrite !find_page_none_iff. intros Hlen K H b y Hy. destruct (lookup_lt_is_Some_2 (bdbs s) b) as [x Hx]; [rewrite <-Hlen; by eapply lookup_lt_Some|].
  destruct (K b x Hx) as (z & Hz & [P1 _ _ _ _]). rewrite Hy in Hz. injection Hz as <-. rewrite P1. by apply (H b).
Qed.

Lemma oldest_ok fuel lru s :
  returns (oldest fuel lru s) (fun r => forall b, r = Some b -> exists x, bdbs s !! b = Some x /\ BDB_marked x = false).
Proof.
  induction lru as [|b lru IH]; [done|]. cbn [oldest]. unfold bdb_at. destruct (bdbs s !! b) as [x|] eqn:Hx; [|done]. cbn [obind].
  destruct (bdb_use_count x =? 0); cbn [negb]; [|done]. apply returns_bind.
  eapply (returns_mono _ (fun w => w = true -> BDB_marked x = false)).
  - destruct fuel as [|fuel]; [done|]. cbn [writeable]. rewrite (bdb_at_ok s b x Hx). cbn [obind]. destruct (BDB_marked x); [done|].
    eapply returns_mono; [apply returns_any|]. done.
  - intros [|] H; [|done]. intros c [= <-]. exists x. auto.
Qed.

Lemma upd_bdb_eq b f s x : bdbs s !! b = Some x -> upd_bdb b f s = Ret (set_bdb b (f x) s).
Proof. intros Hx. unfold upd_bdb. by rewrite (bdb_at_ok s b x Hx). Qed.

(** The page of a buffer that is not being changed is written. *)
Lemma write_out_ok fuel b s x :
  wf s -> bdbs s !! b = Some x -> BDB_marked x = false ->
  returns (if BDB_dirty x || BDB_db_dirty x then
             let* (status, s) := writeBuffer fuel true true b s in if status =? 0 then Throw punt else Ret s
           else Ret s)
    (fun s' => good s s' /\ kept s s' /\ exists y, bdbs s' !! b = Some y /\ BDB_dirty y = false).
Proof.
  intros Hw Hx Hm. destruct (BDB_dirty x || BDB_db_dirty x) eqn:E.
  - call (writeBuffer_ok fuel true true b s Hw). intros [status s1] (G & K & _ & C). destruct (Z.eqb_spec status 0) as [|Hst]; [done|].
    split; [done|]. split; [done|]. destruct (kept_bdbs _ _ K b x Hx) as (y & Hy & [_ _ _ (_ & Km & _) _]). exists y. split; [done|].
    apply (C eq_refl Hst); [done|congruence].
  - apply orb_false_iff in E as [E _]. split; [apply good_refl|]. split; [apply kept_refl|]. by exists x.
Qed.

(** A buffer that has been written may be given to another page. *)
Lemma reassign_ok fuel b page s x :
  wf s -> bdbs s !! b = Some x -> BDB_marked x = false -> find_page s page = None -> bcb_empty s = [] ->
  returns (reassign fuel b page s) (fun s' => good s s' /\ exists y, bdbs s' !! b = Some y /\ bdb_page y = page /\ BDB_dirty y = false).
Proof.
  intros Hw Hx Hm Hno Hem. unfold reassign. rewrite (upd_bdb_eq _ _ _ x Hx). cbn [obind]. set (x0 := addRef true x). set (s0 := set_bdb b x0 s).
  assert (Hx0 : bdbs s0 !! b = Some x0) by (apply set_bdb_eq; by eexists). rewrite (bdb_at_ok s0 b x0 Hx0). cbn [obind].
  assert (G0 : good s s0) by (by apply (good_set b (addRef true))). pose proof (good_wf _ _ G0 Hw) as Hw0.
  apply returns_bind. eapply returns_mono; [by apply (write_out_ok fuel b s0 x0)|]. intros s1 (G1 & K1 & y & Hy & Hd).
  pose proof (good_wf _ _ G1 Hw0) as Hw1. unfold removeDirtyPage. rewrite (bdb_at_ok s1 b y Hy). cbn [obind].
  assert (Hseq : bdb_mark_sequence y = 0).
  { destruct (Z.eq_dec (bdb_mark_sequence y) 0) as [|Hs]; [done|]. pose proof (ok_queued _ _ _ (wf_bdbs s1 Hw1 b y Hy) Hs). congruence. }
  rewrite Hseq. cbn [Z.eqb obind]. set (s2 := clearPrecedence b (deleteHigher b s1)).
  assert (Hb2 : bdbs s2 = bdbs s1) by (unfold s2; by rewrite clearPrecedence_eq, deleteHigher_eq).
  assert (G2 : good s1 s2).
  { apply (good_trans _ (deleteHigher b s1)).
    - apply good_deleteHigher. intros z Hz. congruence.
    - apply good_clear. intros Hw2. apply wf_free; [done|]. rewrite deleteHigher_eq. cbn. intros z Hz. left. congruence. }
  assert (Hy2 : bdbs s2 !! b = Some y) by (by rewrite Hb2). rewrite (upd_bdb_eq _ _ _ y Hy2).
  split; [|exists (with_page page y); split; [apply set_bdb_eq; by eexists|done] ].
  eapply good_trans; [exact G0|]. eapply good_trans; [exact G1|]. eapply good_trans; [exact G2|]. apply (good_reused b y (with_page page y)); [done|].
  intros Hw2. pose proof (wf_bdbs s2 Hw2 b y Hy2) as Hok. split; cbn; try done; [by apply (ok_newest _ _ _ Hok)|right| |by apply wf_empty_once].
  - apply (find_page_none_steady s1); [by rewrite Hb2| |].
    + intros c z Hz. exists z. rewrite Hb2. split; [done|apply kept_bdb_refl].
    + apply (find_page_none_steady s0); [by apply kept_length|by apply kept_steady|].
      apply find_page_none_iff. intros c z Hz. unfold s0 in Hz. rewrite set_bdb_lookup in Hz. rewrite find_page_none_iff in Hno.
      case_decide as Hc; [|by apply (Hno c)]. injection Hz as <-. by apply (Hno b x).
  - intros c Hin. exfalso. revert Hin. unfold s2. rewrite clearPrecedence_eq, deleteHigher_eq. cbn. rewrite (kept_empty _ _ K1). cbn. rewrite Hem.
    by intros ?%elem_of_nil.
Qed.

(** A buffer without a page is given one. *)
Lemma reuse_empty b x rest page s :
  bcb_empty s = b :: rest -> bdbs s !! b = Some x -> bdb_page x < 0 -> find_page s page = None ->
  good s (set_bdb b (addRef true (with_page page x)) (with_empty rest s)).
Proof.
  intros Eq Hx Hp Hno. apply (good_reused b x (addRef true (with_page page x))); [done|]. intros Hw. pose proof (wf_bdbs s Hw b x Hx) as [K1 K2 K3 K4 K5].
  pose proof (wf_empty_once s Hw) as Hnd. rewrite Eq in Hnd. apply NoDup_cons in Hnd as [Hb Hnd].
  split; cbn; try done; [|by right|].
  - split_and!; try done. destruct (BDB_dirty x) eqn:E; [|done]. specialize (K3 eq_refl). lia.
  - intros c Hin. rewrite Eq. split; [by right|]. intros ->. done.
Qed.

(** The buffer [b] holds [page], and is clean if the page is still to be read. *)
Definition holds (b : nat) (page : Z) (read : bool) (s : cache) : Prop :=
  exists x, bdbs s !! b = Some x /\ bdb_page x = page /\ (read = true -> BDB_dirty x = false).

Lemma getBuffer_ok tries fuel lru page write s :
  wf s -> 0 <= page ->
  returns (getBuffer tries fuel lru page write s) (fun '(b, read, s') => good s s' /\ holds b page read s').
Proof.
  revert s. induction tries as [|tries IH]; intros s Hw Hp; cbn [getBuffer]; (destruct (find_page s page) as [b|] eqn:Ef;
    [destruct (find_page_ok s page b Ef) as (x & Hx & E); rewrite (upd_bdb_eq _ _ _ x Hx); cbn;
     split; [by apply good_set; [|destruct write]|exists (addRef write x); split; [apply set_bdb_eq; by eexists|by destruct write] ]|]).
  all: destruct (bcb_empty s) as [|b rest] eqn:Eq;
    [|destruct (wf_empty s Hw b) as (x & Hx & E); [rewrite Eq; left|]; rewrite (upd_bdb_eq _ _ _ x) by exact Hx; cbn [obind]; split;
      [by apply (reuse_empty b x rest)|eexists; split; [apply set_bdb_eq; by eexists|done] ] ].
  all: apply returns_bind; eapply returns_mono; [apply oldest_ok|]; intros [b|] Hv; [destruct (Hv b eq_refl) as (x & Hx & Hm);
    call (reassign_ok fuel b page s x); [done..|]; intros s' (G & y & Hy & E1 & E2); split; [done|]; by exists y|].
  - done.
  - eapply returns_mono; [apply IH; [by apply (good_wf _ _ (expandBuffers_ok _ s))|done] |].
    intros [ [b read] s'] [G H]. split; [|done]. by eapply good_trans; [apply expandBuffers_ok|].
Qed.

(** ** [fetch] and [fake] *)

Lemma upd_same_ok b page read f s :
  (forall x, same_bdb x (f x)) -> holds b page read s -> returns (upd_bdb b f s) (fun s' => good s s' /\ holds b page read s').
Proof.
  intros Hf (x & Hx & E & Hd). rewrite (upd_bdb_eq _ _ _ x Hx). split; [by apply good_set|]. exists (f x). split; [apply set_bdb_eq; by eexists|].
  destruct (Hf x) as [S1 _ _ _ S5 _ _]. rewrite S1, S5. done.
Qed.

Lemma fetchPage_ok b page s : holds b page true s -> returns (fetchPage b s) (fun s' => good s s' /\ holds b page true s').
Proof.
  intros (x & Hx & E & Hd). unfold fetchPage. set (n := dbb_page_incarnation s + 1). rewrite (upd_bdb_eq _ _ _ x) by exact Hx.
  split; [|eexists; split; [apply set_bdb_eq; by eexists|done] ]. apply (good_reused b x (with_read n x)); [done|]. intros Hw.
  pose proof (Hd eq_refl). split; cbn; try done; [lia|by left|by apply wf_empty_once].
Qed.

Lemma cache_fetch_ok fuel lru page write s :
  wf s -> 0 <= page -> returns (fetch fuel lru page write s) (fun '(b, s') => good s s' /\ holds b page false s').
Proof.
  intros Hw Hp. unfold fetch. call (getBuffer_ok 1 fuel lru page write s Hw Hp). intros [ [b read] s1] [G1 H1].
  apply returns_bind. eapply (returns_mono _ (fun s2 => good s s2 /\ holds b page read s2)).
  { apply returns_if; intros _; [|done]. eapply returns_mono; [by apply (upd_same_ok b page read)|]. intros s2 [G2 H2]. split; [by eapply good_trans|done]. }
  intros s2 [G2 H2]. destruct read; [|done]. call fetchPage_ok; [exact H2|]. intros s3 [G3 H3].
  apply returns_bind. eapply (returns_mono _ (fun s4 => good s s4 /\ holds b page true s4)).
  { assert (G : good s s3) by (by eapply good_trans). apply returns_if; intros _; [done|]. eapply returns_mono; [apply (upd_same_ok b page true); [|exact H3]|].
    - intros x. unfold downGrade. by destruct (exclusive x).
    - intros s4 [G4 H4]. split; [by eapply good_trans|done]. }
  intros s4 [G4 (x & Hx & E & _)]. split; [done|]. by exists x.
Qed.

(** What [fake] does before it takes the buffer over: nothing waits for it
    any more. *)
Lemma take_over_ok fuel b s x :
  wf s -> bdbs s !! b = Some x ->
  returns (if BDB_dirty x || BDB_db_dirty x then
             let* (status, s) := writeBuffer fuel true true b s in if status =? 0 then Throw punt else Ret s
           else Ret (clearPrecedence b s))
    (fun s' => good s s' /\ exists y, bdbs s' !! b = Some y /\ bdb_page y = bdb_page x /\ free s' b).
Proof.
  intros Hw Hx. destruct (BDB_dirty x || BDB_db_dirty x) eqn:E.
  - destruct (BDB_marked x && negb (BDB_faked x)) eqn:Hmf.
    { apply andb_true_iff in Hmf as [Hm Hf]. destruct fuel as [|fuel]; [done|]. rewrite (writeBuffer_marked _ _ _ _ _ x); [done..|]. by apply negb_true_iff. }
    call (writeBuffer_ok fuel true true b s Hw). intros [status s1] (G & K & _ & C). destruct (Z.eqb_spec status 0) as [|Hst]; [done|].
    split; [done|]. destruct (kept_bdbs _ _ K b x Hx) as (y & Hy & [Kp _ _ (_ & Km & Kf) _]). exists y. split_and!; [done..|].
    apply wf_free; [by apply (good_wf _ _ G)|]. intros z Hz. rewrite Hy in Hz. injection Hz as <-. rewrite Kf.
    destruct (BDB_faked x) eqn:Ef; [by right|left]. apply (C eq_refl Hst); [done|]. rewrite Km. by destruct (BDB_marked x).
  - apply orb_false_iff in E as [E _]. assert (Hf : free s b) by (apply wf_free; [done|]; intros y Hy; left; congruence).
    split; [by apply good_clear|]. exists x. rewrite clearPrecedence_eq. split_and!; [done..|]. intros low (p & Hp & Ep). apply (Hf low).
    exists p. split; [|done]. by apply list_elem_of_filter in Hp as [_ Hp].
Qed.

Lemma fake_ok fuel lru sweeper number page s :
  wf s -> 0 <= page -> returns (fake fuel lru sweeper number page s) (fun '(b, s') => good s s' /\ holds b page false s').
Proof.
  intros Hw Hp. unfold fake. call (getBuffer_ok 1 fuel lru page true s Hw Hp). intros [ [b read] s1] [G1 (x & Hx & E & _)].
  rewrite (bdb_at_ok s1 b x Hx). cbn [obind]. apply returns_bind.
  eapply returns_mono; [apply (take_over_ok fuel b s1 x); [by apply (good_wf _ _ G1)|done]|]. intros s2 (G2 & y & Hy & Ey & Hf).
  rewrite (upd_bdb_eq _ _ _ y Hy). cbn [obind]. apply returns_bind.
  assert (G : good s s2) by (by eapply good_trans). pose proof (good_wf _ _ G Hw) as Hw2.
  eapply returns_mono; [apply (mark_ok _ _ _ b s2 y (with_fake y)); [done|done|congruence|]|].
  { split; try done. by right. }
  intros s3 [G3 [(z & Hz & Ez & _) _ _ _]]. split; [by eapply good_trans|]. exists z. split; [done|]. split; [congruence|done].
Qed.

(** ** [release] *)

Lemma good_upd_at b f s x : bdbs s !! b = Some x -> same_bdb x (f x) -> returns (upd_bdb b f s) (fun s' => good s s').
Proof. intros Hx Hs. rewrite (upd_bdb_eq _ _ _ x Hx). by apply good_set. Qed.

Lemma same_unref x : same_bdb x (unref x).
Proof. unfold unref. by destruct (exclusive x). Qed.

Lemma same_downGrade x : same_bdb x (downGrade x).
Proof. unfold downGrade. by destruct (exclusive x). Qed.

Lemma cache_release_ok fuel b s : wf s -> returns (release fuel b s) (fun s' => good s s').
Proof.
  intros Hw. unfold release. unfold bdb_at at 1. destruct (bdbs s !! b) as [x|] eqn:Hx; [|done]. cbn [obind].
  apply returns_bind. eapply (returns_mono _ (fun s1 => good s s1)).
  2: { intros s1 G. eapply returns_mono; [apply good_upd, same_unref|]. intros s2. by apply good_trans. }
  apply returns_if; intros _; [|apply good_refl]. set (s0 := set_bdb b (with_released x) s).
  assert (G0 : good s s0) by (by apply (good_set b with_released)). destruct (BDB_must_write x); [|done].
  call good_upd; [apply same_downGrade|]. intros s1 G1. assert (G : good s s1) by (by eapply good_trans).
  call writeBuffer_ok; [by apply (good_wf _ _ G)|]. intros [status s2] (G2 & _). destruct (status =? 0).
  - eapply returns_mono; [apply returns_bind; eapply returns_mono; [apply returns_any|]; by intros|done].
  - by eapply good_trans.
Qed.

(** ** Flushing *)

Lemma good_permuted l s : l ≡ₚ bcb_dirty s -> good s (with_dirty l s).
Proof.
  intros Hl Hw. split; [|split; [done|split; [|done] ] ].
  - destruct Hw as [W1 W2 W3 W4 W5 W6 W7 W8 W9 W10 W11]. split; try done; cbn; [intros b; by rewrite Hl|by rewrite Hl].
  - intros l' h v Hd. split; [done|apply ordered_refl].
Qed.

Lemma queue_length s : wf s -> Z.of_nat (length (bcb_dirty s)) < 2147483648.
Proof.
  intros Hw. enough (length (bcb_dirty s) <= length (bdbs s))%nat by (pose proof (wf_count s Hw); lia).
  rewrite <-(length_seq (length (bdbs s)) 0). apply submseteq_length, NoDup_submseteq; [by apply wf_queue_once|].
  intros b Hb. apply (wf_queue s Hw) in Hb as (x & Hx & _). apply list_elem_of_In, in_seq. pose proof (lookup_lt_Some _ _ _ Hx). lia.
Qed.

#[export] Instance BdbSort_laws s : QSort.CompareLaws (C := fun b c => page_of s b - page_of s c).
Proof. split; intros; unfold QSort.compare in *; lia. Qed.

(** The queue in the order of the pages. *)
Lemma reorderDirty_ok s : wf s -> returns (reorderDirty s) (fun s' => good s s' /\ exists l, l ≡ₚ bcb_dirty s /\ s' = with_dirty l s).
Proof.
  intros Hw. unfold reorderDirty. destruct (negb (out_of_order s (-1) (bcb_dirty s))).
  { split; [apply good_refl|]. exists (bcb_dirty s). split; [done|by destruct s]. }
  assert (Hsort : returns (let* l := BdbSort s (bcb_dirty s) in Ret (with_dirty l s))
    (fun s' => good s s' /\ exists l, l ≡ₚ bcb_dirty s /\ s' = with_dirty l s)).
  { unfold BdbSort. destruct (QSort.sort_ok (C := fun b c => page_of s b - page_of s c) (bcb_dirty s)) as (l & -> & Hl & _); [by apply queue_length|].
    cbn. split; [by apply good_permuted|by exists l]. }
  destruct (bcb_dirty s) as [|b [|c [|d l] ] ] eqn:E; try exact Hsort.
  split; [apply good_permuted; rewrite E; apply perm_swap|]. exists [c; b]. split; [apply perm_swap|done].
Qed.

Lemma flushDirtyPages_ok turns fuel mask sys prior s :
  wf s -> returns (flushDirtyPages turns fuel mask sys prior s) (fun s' => good s s' /\ first_selected mask sys s' (bcb_dirty s') = Ret None).
Proof.
  revert prior s. induction turns as [|turns IH]; intros prior s Hw; [done|]. cbn [flushDirtyPages].
  assert (Hgo : forall prior s1, good s s1 -> returns (flushDirtyPages turns fuel mask sys prior s1)
    (fun s' => good s s' /\ first_selected mask sys s' (bcb_dirty s') = Ret None)).
  { intros prior' s1 G. eapply returns_mono; [apply IH; by apply (good_wf _ _ G)|]. intros s2 [G2 H]. split; [by eapply good_trans|done]. }
  destruct (first_selected mask sys s (bcb_dirty s)) as [[b|]|e] eqn:E; cbn [obind]; [|split; [apply good_refl|done]|done].
  unfold bdb_at at 1. destruct (bdbs s !! b) as [x|] eqn:Hx; [|done]. cbn [obind]. apply returns_if; intros _.
  { call reorderDirty_ok; [done|]. intros s1 [G _]. by apply Hgo. }
  apply returns_if; intros _; [apply Hgo, good_refl|].
  call (good_upd b (addRef false) s); [done|]. intros s1 G1.
  call writeBuffer_ok; [by apply (good_wf _ _ G1)|]. intros [status s2] (G2 & _). call good_upd; [apply same_unref|]. intros s3 G3.
  destruct (status =? 0); [done|]. apply Hgo. eapply good_trans; [exact G1|]. by eapply good_trans.
Qed.

(** The mask [flush] looks for. *)
Definition flush_mask (flush_flag tra_number : Z) : Z * bool :=
  if flag_set flush_flag (FLUSH_TRAN + FLUSH_SYSTEM) then
    let m := if tra_number =? 0 then 0 else mark_bits tra_number in (m, (m =? 0) && flag_set flush_flag FLUSH_SYSTEM)
  else (if flag_set flush_flag (FLUSH_ALL + FLUSH_SWEEP) then -1 else 0, false).

Lemma flush_ok turns fuel flush_flag tra_number s :
  wf s -> returns (flush turns fuel flush_flag tra_number s) (fun s' => good s s' /\
    let '(mask, sys) := flush_mask flush_flag tra_number in first_selected mask sys s' (bcb_dirty s') = Ret None).
Proof.
  intros Hw. unfold flush. fold (flush_mask flush_flag tra_number). destruct (flush_mask flush_flag tra_number) as [mask sys]. by apply flushDirtyPages_ok.
Qed.

End Steps.

End PageCacheSteps.
