(* ===== verification/PageCacheClient.v ===== *)
(** * Promises of the page cache ([jrd/PageCache.cpp])

    What holds in every state that threads can bring the cache to: the graph of
    precedences has no circles, pages are written in the order their precedences
    ask for, and a flush for a transaction writes what the transaction changed,
    while one for a sweep writes less than its caller counts on. *)

From S2P Require Import Prelude.
From S2P Require Import QSort.
From S2P Require Import PageCache.
From S2P Require Import PageCacheOrder.
From S2P Require Import PageCacheGraph.
From S2P Require Import PageCacheSteps.
From stdpp Require Import list relations.
#[local] Open Scope Z_scope.

Module PageCacheClient.
Import PageCache PageCacheOrder PageCacheGraph PageCacheSteps.

(** ** Threads that use the cache *)

(** A cache of [n] buffers that have not been used. *)
Definition initial (n : nat) : cache := mk_cache (replicate n empty_bdb) [] (seq 0 n) [] 0 0 0 0 [].

(** Pages have numbers from 0; a page is made to wait only for one that is no
    longer being allocated. *)
Definition legal (o : cache_op) (s : cache) : Prop :=
  match o with
  | Op_fetch _ page _ | Op_fake _ page | Op_mark page _ | Op_must_write page => 0 <= page
  | Op_precedence low page => 0 <= low /\ allocated s page
  | Op_release _ | Op_flush _ _ => True
  end.

Section Client.
Context `{ST : Storage}.

(** Steps of threads, with their transactions, one after the other. *)
Inductive cache_steps : cache -> cache -> Prop :=
  | steps_none s : cache_steps s s
  | steps_then T turns fuel o s1 s2 s3 :
      legal o s1 -> cache_step (H := T) turns fuel o s1 = Ret s2 -> cache_steps s2 s3 -> cache_steps s1 s3.

Definition reachable (s : cache) : Prop :=
  exists n, Z.of_nat n < 2147483648 /\ cache_steps (initial n) s.

Lemma window_ok s page : returns (window s page) (fun b => exists x, find_page s page = Some b /\ bdbs s !! b = Some x /\ bdb_page x = page).
Proof.
  unfold window. destruct (find_page s page) as [b|] eqn:E; [|done]. destruct (find_page_ok s page b E) as (x & Hx & Hp). by exists x.
Qed.

Lemma cache_step_ok `{T : Thread} turns fuel o s :
  legal o s -> wf s -> returns (cache_step turns fuel o s) (fun s' => good s s').
Proof.
  intros L Hw. destruct o as [lru page write|lru page|low page|page sys|page|page|flag number]; cbn [cache_step]; cbn in L.
  - call cache_fetch_ok; [done..|]. by intros [b s'] [G _].
  - call fake_ok; [done..|]. by intros [b s'] [G _].
  - destruct L as [Lp La]. call window_ok. intros b (x & _ & Hx & Hp).
    eapply returns_mono; [by apply (declarePrecedence_ok fuel b page s x)|]. by intros s' [G _].
  - call window_ok. intros b (x & _ & Hx & Hp). eapply returns_mono; [apply (mark_page_ok _ _ _ b s x); [done..|congruence]|]. by intros s' [G _].
  - call window_ok. intros b (x & _ & Hx & Hp). eapply returns_mono; [apply (markMustWrite_ok _ _ b s x); [done..|congruence]|]. by intros s' [G _].
  - call window_ok. intros b (x & _ & Hx & Hp). by apply cache_release_ok.
  - eapply returns_mono; [by apply flush_ok|]. by intros s' [G _].
Qed.

Lemma cache_steps_good s s' : cache_steps s s' -> good s s'.
Proof.
  induction 1 as [s|T turns fuel o s1 s2 s3 L E _ IH]; [apply good_refl|]. intros Hw.
  pose proof (returns_ret _ _ _ (cache_step_ok (T := T) turns fuel o s1 L Hw) E) as G. by apply (good_trans s1 s2 s3).
Qed.

Lemma initial_wf n : Z.of_nat n < 2147483648 -> wf (initial n).
Proof.
  intros Hn. assert (Hall : forall b x, bdbs (initial n) !! b = Some x -> x = empty_bdb) by (intros b x Hx; cbn in Hx; by apply lookup_replicate in Hx as [? _]).
  split; try done.
  - intros b c x y Hx _ _ Hp. apply Hall in Hx as ->. done.
  - intros p Hp. by apply elem_of_nil in Hp.
  - intros b Ht. apply tc_nsteps in Ht as (k & Hk & Hs). destruct Hs as [|k x y z (p & Hp & _) _]; [lia|]. by apply elem_of_nil in Hp.
  - intros b x Hx. apply Hall in Hx as ->. by split.
  - intros b. split; [by intros ?%elem_of_nil|]. intros (x & Hx & Hs). apply Hall in Hx as ->. done.
  - apply NoDup_nil_2.
  - split; [done|]. by intros page v ?%elem_of_nil.
  - intros b Hb. apply list_elem_of_In, in_seq in Hb. exists empty_bdb. split; [|done]. cbn. apply lookup_replicate. split; [done|lia].
  - cbn. apply NoDup_ListNoDup, seq_NoDup.
  - cbn. by rewrite length_replicate.
Qed.

Lemma reachable_ok s : reachable s -> wf s.
Proof. intros (n & Hn & Hs). apply (cache_steps_good _ _ Hs). by apply initial_wf. Qed.

(** C13: Whatever threads do with a cache, one step after another, it stays
    well-formed: no two buffers hold the same page, no page waits for itself
    through any chain of precedences, a page that others wait for is dirty, and
    the queue of dirty buffers holds exactly the buffers with a mark sequence,
    each once. *)
Theorem cache_invariant s : reachable s ->
  (forall b c x y, bdbs s !! b = Some x -> bdbs s !! c = Some y -> bdb_page x = bdb_page y -> 0 <= bdb_page x -> b = c) /\
  (forall b, ~ tc (edge s) b b) /\
  (forall low high, edge s low high -> exists y, bdbs s !! high = Some y /\ BDB_dirty y = true) /\
  (forall b, b ∈ bcb_dirty s <-> exists x, bdbs s !! b = Some x /\ bdb_mark_sequence x <> 0) /\ NoDup (bcb_dirty s).
Proof.
  intros Hs. apply reachable_ok in Hs. destruct Hs as [W1 W2 W3 W4 W5 W6 W7 W8 W9 W10 W11]. split_and!; [done|done| |done|done].
  intros low high (p & Hp & _ & <- & Hc). destruct (W2 p Hp) as (_ & y & Hy & Hd). exists y. split; [done|by apply Hd].
Qed.

(** What [declarePrecedence] and [mark] make of two pages. *)
Lemma precedence_then_mark `{T : Thread} turns fuel s s1 s2 low high sys :
  wf s -> legal (Op_precedence low high) s ->
  cache_step turns fuel (Op_precedence low high) s = Ret s1 -> cache_step turns fuel (Op_mark low sys) s1 = Ret s2 ->
  ~ settled high s -> low <> first_page high -> good s s2 /\ depends s2 low (first_page high) (version s (first_page high)).
Proof.
  intros Hw [Lp La] E1 E2 Hset Hne. cbn [cache_step] in E1, E2. pose proof (window_ok s low) as Hb. destruct (window s low) as [b|e]; [|done].
  destruct Hb as (x & _ & Hx & Hp). cbn [obind] in E1. pose proof (returns_ret _ _ _ (declarePrecedence_ok fuel b high s x Hw Hx La) E1) as (G & K & D).
  pose proof (good_wf _ _ G Hw) as Hw1. destruct (K b x Hx) as (y & Hy & [P1 P2 _ _ _]).
  pose proof (window_ok s1 low) as Hc. destruct (window s1 low) as [c|e]; [|done]. destruct Hc as (z & _ & Hz & Hpz). cbn [obind] in E2.
  assert (c = b) as -> by (apply (wf_pages s1 Hw1 c b z y); [done|done|congruence|lia]). rewrite Hy in Hz. injection Hz as <-.
  destruct (returns_ret _ _ _ (mark_page_ok _ _ _ b s1 y Hw1 Hy ltac:(lia)) E2) as [G2 [(w & Hmw & Mp & Md & _) Mr Me Mw] ].
  split; [by eapply good_trans|]. destruct D as [D|[D|[D|(h & xh & Hh & Hph & Hv & Ht)]]]; [done|congruence|left; by rewrite Mw|right].
  exists b, h, w, xh. assert (h <> b) by (intros ->; congruence). split_and!; [done|congruence|done|by rewrite Mr|done|done|].
  apply (tc_congruence (fun b => b) (edge s2)) in Ht; [done|]. intros u v. unfold edge. by rewrite Me.
Qed.

(** C3: Careful write: once a thread has declared that the page [low] depends on
    the page [high] and then changed [low], no later step of any thread writes
    [low] before what [high] contained at that time is in the file; a
    transaction number, as a negative page, stands for the header page. *)
Theorem careful_write_order `{T : Thread} turns fuel s s1 s2 s3 low high sys :
  reachable s -> legal (Op_precedence low high) s ->
  cache_step turns fuel (Op_precedence low high) s = Ret s1 -> cache_step turns fuel (Op_mark low sys) s1 = Ret s2 ->
  ~ settled high s -> low <> first_page high -> cache_steps s2 s3 ->
  forall later u earlier, writes s3 = later ++ (low, u) :: earlier -> writes s2 `suffix_of` earlier ->
    version s (first_page high) <= on_file earlier (first_page high).
Proof.
  intros Hr L E1 E2 Hset Hne Hs later u earlier. pose proof (reachable_ok s Hr) as Hw.
  destruct (precedence_then_mark turns fuel s s1 s2 low high sys Hw L E1 E2 Hset Hne) as [G D].
  destruct (cache_steps_good _ _ Hs (good_wf _ _ G Hw)) as (_ & _ & Hd & _). by apply (Hd _ _ _ D).
Qed.

Lemma first_selected_none mask sys s l b x :
  first_selected mask sys s l = Ret None -> b ∈ l -> bdbs s !! b = Some x -> selected mask sys x = false.
Proof.
  induction l as [|c l IH]; [by intros _ ?%elem_of_nil|]. cbn. unfold bdb_at. destruct (bdbs s !! c) as [y|] eqn:Hy; [|done]. cbn.
  destruct (selected mask sys y) eqn:E; [done|]. intros Hl [->|Hb]%elem_of_cons Hx; [congruence|auto].
Qed.

(** A flush writes what it looks for. *)
Lemma flush_writes turns fuel flag number s s' m sys page v :
  wf s -> flush_mask flag number = (m, sys) -> m <> 0 -> flush turns fuel flag number s = Ret s' ->
  held s m page v -> v <= on_file (writes s') page.
Proof.
  intros Hw Em Hm E Hh. pose proof (returns_ret _ _ _ (flush_ok turns fuel flag number s Hw) E) as [G F]. rewrite Em in F.
  destruct (G Hw) as (Hw' & _ & _ & Hheld). destruct (Hheld m page v Hh) as [H|(b & x & Hx & _ & _ & _ & Ho)]; [done|]. exfalso.
  destruct (Ho Hm) as [H1 H2]. assert (Hq : b ∈ bcb_dirty s') by (apply (wf_queue s' Hw'); by exists x).
  pose proof (first_selected_none _ _ _ _ _ _ F Hq Hx) as Hsel. unfold selected in Hsel. rewrite (proj2 (Z.eqb_neq _ _) H2) in Hsel. done.
Qed.

(** C11: What a transaction has changed is in the file when a flush for it
    returns, whatever threads did with the cache in between. *)
Theorem flush_makes_durable `{T : Thread} turns fuel s s1 s2 s3 page sys :
  reachable s -> 0 <= page -> tdbb_sweeper = false -> tdbb_transaction <> 0 ->
  cache_step turns fuel (Op_mark page sys) s = Ret s1 -> cache_steps s1 s2 ->
  cache_step turns fuel (Op_flush FLUSH_TRAN tdbb_transaction) s2 = Ret s3 ->
  dbb_page_incarnation s < on_file (writes s3) page.
Proof.
  intros Hr Hp Hsw Ht E1 Hs E2. pose proof (reachable_ok s Hr) as Hw. cbn [cache_step] in E1, E2. pose proof (window_ok s page) as Hb.
  destruct (window s page) as [b|e]; [|done]. destruct Hb as (x & _ & Hx & Hpx). cbn [obind] in E1.
  destruct (returns_ret _ _ _ (mark_page_ok _ _ _ b s x Hw Hx ltac:(lia)) E1) as [G1 [(z & Hz & Ez & Hd & Hi & _ & Ho & _) _ _ _] ].
  set (v := dbb_page_incarnation s + 1) in *. assert (Hheld : held s1 (mark_bits tdbb_transaction) page v).
  { right. exists b, z. split_and!; [done|congruence|done|lia|by apply Ho]. }
  destruct (cache_steps_good _ _ Hs (good_wf _ _ G1 Hw)) as (Hw2 & _ & _ & H2).
  enough (v <= on_file (writes s3) page) by lia. eapply (flush_writes turns fuel FLUSH_TRAN tdbb_transaction s2 s3); [done| | |exact E2|by apply H2].
  - unfold flush_mask. cbn. by rewrite (proj2 (Z.eqb_neq tdbb_transaction 0)).
  - pose proof (mark_bits_selects tdbb_transaction 0) as Hm. intros E. by rewrite E in Hm.
Qed.

(** The pages that only a sweeper has changed are not in the queue of dirty
    buffers, so that the flush that a sweep asks for before it moves the oldest
    interesting transaction leaves them in memory: with the queue otherwise
    empty it does nothing at all. *)
Theorem sweep_flush_misses `{T : Thread} turns fuel turns' s s1 b x page number :
  reachable s -> tdbb_sweeper = true -> tdbb_transaction <> 0 -> bcb_dirty s = [] ->
  0 <= page -> find_page s page = Some b -> bdbs s !! b = Some x -> BDB_system_dirty x = false ->
  cache_step turns fuel (Op_mark page false) s = Ret s1 ->
  cache_step (S turns') fuel (Op_flush FLUSH_SWEEP number) s1 = Ret s1 /\ on_file (writes s1) page < version s1 page.
Proof.
  intros Hr Hsw Ht Hq Hp Hf Hx Hsd E. pose proof (reachable_ok s Hr) as Hw. cbn [cache_step] in *. unfold window in E. rewrite Hf in E. cbn [obind] in E.
  destruct (find_page_ok s page b Hf) as (x' & Hx' & Hpx). rewrite Hx in Hx'. injection Hx' as <-.
  destruct (returns_ret _ _ _ (mark_page_ok _ _ _ b s x Hw Hx ltac:(lia)) E) as [G [(z & Hz & Ez & Hd & Hi & _ & _ & Hs) Mr Me Mw] ].
  pose proof (good_wf _ _ G Hw) as Hw1. rewrite Hsd in Hs. specialize (Hs Hsw eq_refl Ht).
  assert (Hq1 : bcb_dirty s1 = []).
  { destruct (bcb_dirty s1) as [|c l] eqn:Eq; [done|]. exfalso. assert (Hc : c ∈ bcb_dirty s1) by (rewrite Eq; left).
    apply (wf_queue s1 Hw1) in Hc as (y & Hy & Hne). assert (Hc : c ∈ bcb_dirty s); [|rewrite Hq in Hc; by apply elem_of_nil in Hc].
    apply (wf_queue s Hw). destruct (decide (c = b)) as [->|Hcb]; [exists x; split; [done|congruence]|exists y; by rewrite <-Mr]. }
  split; [unfold flush; cbn; by rewrite Hq1|]. unfold version. assert (Hf1 : find_page s1 page = Some b).
  { destruct (find_page s1 page) as [c|] eqn:Ec; [|by destruct (find_page_none s1 page b z Ec Hz); congruence].
    destruct (find_page_ok s1 page c Ec) as (y & Hy & Hpy). f_equal. apply (wf_pages s1 Hw1 c b y z); [done|done|congruence|lia]. }
  rewrite Hf1, Hz, Hd, Mw. pose proof (on_file_newest s page Hw). lia.
Qed.

End Client.

(** ** A run of the cache *)

Section Run.
Context `{ST : Storage} {T : Thread}.

Definition legalb (o : cache_op) (s : cache) : bool :=
  match o with
  | Op_fetch _ page _ | Op_fake _ page | Op_mark page _ | Op_must_write page => 0 <=? page
  | Op_precedence low page =>
      (0 <=? low) && match find_page s (first_page page) with
                     | Some b => match bdbs s !! b with Some x => negb (BDB_faked x) | None => true end
                     | None => true
                     end
  | Op_release _ | Op_flush _ _ => true
  end.

Lemma legalb_ok o s : legalb o s = true -> legal o s.
Proof.
  destruct o; cbn; try lia. intros [H1 H2]%andb_true_iff. split; [lia|]. intros b x Hf Hx. rewrite Hf, Hx in H2. by apply negb_true_iff.
Qed.

(** The steps of one thread, as long as they are legal. *)
Fixpoint cache_run (turns fuel : nat) (l : list cache_op) (s : cache) : outcome cache :=
  match l with
  | [] => Ret s
  | o :: l => if legalb o s then let* s := cache_step turns fuel o s in cache_run turns fuel l s else Throw Overrun
  end.

Lemma cache_run_steps turns fuel l s s' : cache_run turns fuel l s = Ret s' -> cache_steps s s'.
Proof.
  revert s. induction l as [|o l IH]; intros s; cbn; [intros [= ->]; apply steps_none|].
  destruct (legalb o s) eqn:L; [|done]. destruct (cache_step turns fuel o s) as [s1|e] eqn:E; [|done]. cbn. intros H.
  eapply (steps_then T turns fuel o); [by apply legalb_ok|exact E|by apply IH].
Qed.

Definition after (turns fuel : nat) (l : list cache_op) (s : cache) : cache :=
  match cache_run turns fuel l s with Ret s' => s' | Throw _ => s end.

Lemma after_steps turns fuel l s : cache_steps s (after turns fuel l s).
Proof. unfold after. destruct (cache_run turns fuel l s) eqn:E; [by eapply cache_run_steps|apply steps_none]. Qed.

Lemma cache_after_reachable turns fuel l n : Z.of_nat n < 2147483648 -> reachable (after turns fuel l (initial n)).
Proof. intros Hn. exists n. split; [done|apply after_steps]. Qed.

End Run.

(** A file that takes every write, and a thread with a transaction. *)
Definition some_storage : Storage := {| PIO_write := fun _ => true; hdr_next_transaction := fun _ => 0;
  hdr_oldest_active := fun _ => 0; hdr_oldest_transaction := fun _ => 0 |}.
Definition some_thread (sweeper : bool) : Thread := {| tdbb_sweeper := sweeper; tdbb_transaction := 5 |}.

#[local] Existing Instance some_storage.

(** Page 2 has been changed, page 1 is about to be. *)
Definition two_pages : cache := after (T := some_thread false) 20 20
  [Op_fetch [] 2 true; Op_mark 2 false; Op_release 2; Op_fetch [] 1 true] (initial 3).

(** The page that waits is written last, though its number is smaller. *)
Example two_pages_flushed :
  writes (after (T := some_thread false) 20 20 [Op_precedence 1 2; Op_mark 1 false; Op_release 1; Op_flush FLUSH_ALL 0] two_pages) = [(1, 4); (2, 2)].
Proof. vm_compute. reflexivity. Qed.

Lemma two_pages_reachable : reachable two_pages.
Proof. apply cache_after_reachable. lia. Qed.

Example cache_invariant_witness : ~ tc (edge two_pages) 0%nat 0%nat.
Proof. apply (proj1 (proj2 (cache_invariant two_pages two_pages_reachable)) 0%nat). Defined.

(** The same thread through the rest of its change. *)
Definition declared : cache := after (T := some_thread false) 20 20 [Op_precedence 1 2] two_pages.
Definition changed : cache := after (T := some_thread false) 20 20 [Op_mark 1 false] declared.
Definition flushed : cache := after (T := some_thread false) 20 20 [Op_release 1; Op_flush FLUSH_TRAN 5] changed.

Example careful_write_order_witness : 2 <= on_file [(2, 2)] 2.
Proof.
  change 2 with (version two_pages (first_page 2)) at 1.
  apply (careful_write_order (T := some_thread false) 20 20 two_pages declared changed flushed 1 2 false) with (later := []) (u := 4).
  - apply two_pages_reachable.
  - apply (legalb_ok (Op_precedence 1 2)). reflexivity.
  - vm_compute. reflexivity.
  - vm_compute. reflexivity.
  - intros [H|[H _]]; discriminate H.
  - discriminate.
  - apply after_steps.
  - vm_compute. reflexivity.
  - exists [(2, 2)]. vm_compute. reflexivity.
Defined.

Example flush_makes_durable_witness : 3 < on_file (writes flushed) 1.
Proof.
  change 3 with (dbb_page_incarnation declared). apply (flush_makes_durable (T := some_thread false) 20 20 declared changed
    (after (T := some_thread false) 20 20 [Op_release 1] changed) flushed 1 false).
  - exists 3%nat. split; [done|]. vm_compute. eapply (cache_run_steps (T := some_thread false) 20 20
      [Op_fetch [] 2 true; Op_mark 2 false; Op_release 2; Op_fetch [] 1 true; Op_precedence 1 2]). vm_compute. reflexivity.
  - done.
  - reflexivity.
  - discriminate.
  - vm_compute. reflexivity.
  - apply after_steps.
  - vm_compute. reflexivity.
Defined.

(** A sweeper is about to change page 1. *)
Definition sweeping : cache := after (T := some_thread true) 20 20 [Op_fetch [] 1 true] (initial 3).

Example sweep_flush_misses_witness :
  cache_step (H := some_thread true) 20 20 (Op_flush FLUSH_SWEEP 0) (after (T := some_thread true) 20 20 [Op_mark 1 false] sweeping)
    = Ret (after (T := some_thread true) 20 20 [Op_mark 1 false] sweeping)
  /\ on_file (writes (after (T := some_thread true) 20 20 [Op_mark 1 false] sweeping)) 1
     < version (after (T := some_thread true) 20 20 [Op_mark 1 false] sweeping) 1.
Proof.
  apply (sweep_flush_misses (T := some_thread true) 20 20 19 sweeping _ 0
    (mk_bdb 1 1 0 0 1 true 1 false false true false false false false)).
  - apply cache_after_reachable. lia.
  - reflexivity.
  - discriminate.
  - vm_compute. reflexivity.
  - lia.
  - vm_compute. reflexivity.
  - vm_compute. reflexivity.
  - reflexivity.
  - vm_compute. reflexivity.
Defined.

End PageCacheClient.
