(* ===== verification/PageCacheWrites.v ===== *)
(** * Writing a page and those above it ([jrd/PageCache.cpp])

    [writeBuffer] takes the pages above its page one by one from the top of the
    graph.  Each turn uses up a precedence, so that it comes to an end. *)

From S2P Require Import Prelude.
From S2P Require Import QSort.
From S2P Require Import PageCache.
From S2P Require Import PageCacheOrder.
From S2P Require Import PageCacheGraph.
From S2P Require Import PageCacheSteps.
From S2P Require Import PageCacheClient.
From stdpp Require Import list relations.
#[local] Open Scope Z_scope.

Module PageCacheWrites.
Import PageCache PageCacheOrder PageCacheGraph PageCacheSteps PageCacheClient.

(** ** Chains of precedences *)

(** No chain above [b] has more than [h] precedences. *)
Definition height_at_most (s : cache) (b h : nat) : Prop := forall k c, nsteps (edge s) k b c -> (k <= h)%nat.

Lemma chain_nodes s k b c :
  wf s -> nsteps (edge s) k b c ->
  exists l, length l = k /\ NoDup l /\ forall x, x ∈ l -> tc (edge s) b x /\ x ∈ pre_hi <$> precedences s.
Proof.
  intros Hw. induction 1 as [b|k b y c He _ IH]; [exists []; split_and!; [done|apply NoDup_nil_2|by intros x ?%elem_of_nil]|].
  destruct IH as (l & El & Hnd & Hl). exists (y :: l). split_and!; [cbn; congruence| |].
  - apply NoDup_cons. split; [|done]. intros Hy. by apply (wf_acyclic s Hw y), Hl.
  - intros x [->|Hx]%elem_of_cons.
    + split; [by apply tc_once|]. destruct He as (p & Hp & _ & <- & _). by apply list_elem_of_fmap_2.
    + destruct (Hl x Hx) as [H1 H2]. split; [by apply (tc_l _ _ y)|done].
Qed.

Lemma height_bounded s b : wf s -> height_at_most s b (length (precedences s)).
Proof.
  intros Hw k c Hs. destruct (chain_nodes s k b c Hw Hs) as (l & <- & Hnd & Hl). rewrite <-(length_fmap pre_hi).
  apply submseteq_length, NoDup_submseteq; [done|]. intros x Hx. by apply Hl.
Qed.

Lemma height_above s b c h : height_at_most s b h -> edge s b c -> exists h', h = S h' /\ height_at_most s c h'.
Proof.
  intros Hh He. destruct h as [|h]; [specialize (Hh 1%nat c); assert (1 <= 0)%nat; [apply Hh, nsteps_once, He|lia]|].
  exists h. split; [done|]. intros k d Hs. specialize (Hh (S k) d). enough (S k <= S h)%nat by lia. apply Hh. by eapply nsteps_l.
Qed.

Lemma height_sub s s' b h :
  precedences s' `sublist_of` precedences s -> height_at_most s b h -> height_at_most s' b h.
Proof.
  intros Hsub Hh k c Hs. apply (Hh k c). clear -Hsub Hs. induction Hs as [|k b y c He _ IH]; [constructor|]. apply (nsteps_l _ _ _ y); [|done].
  eapply edge_sub; [|exact He]. by apply sublist_subseteq.
Qed.

(** ** Precedences that are used up *)

Section Writing.
Context `{ST : Storage}.

Lemma sublist_delete_first p l : delete_first p l `sublist_of` l.
Proof. induction l as [|x l IH]; [done|]. cbn. case_decide; [by apply sublist_cons|by apply sublist_skip]. Qed.

Lemma fewer_trans (l1 l2 l3 : list Precedence) :
  l3 `sublist_of` l2 -> l2 `sublist_of` l1 -> l2 <> l1 \/ l3 <> l2 -> l3 <> l1.
Proof. intros H1 H2 H3 ->. assert (l2 = l1) as -> by (by apply (anti_symm sublist)). by destruct H3. Qed.

Lemma returns_ret2 {A} (m : outcome A) (P Q R : A -> Prop) :
  returns m P -> returns m Q -> (forall a, P a -> Q a -> R a) -> returns m R.
Proof. destruct m; cbn; auto. Qed.

Definition sub (s' s : cache) : Prop := precedences s' `sublist_of` precedences s.

Lemma sub_refl s : sub s s.
Proof. unfold sub. reflexivity. Qed.

Lemma sub_trans s1 s2 s3 : sub s3 s2 -> sub s2 s1 -> sub s3 s1.
Proof. unfold sub. intros. by transitivity (precedences s2). Qed.

Lemma sub_clear b s : sub (clearPrecedence b s) s.
Proof. rewrite clearPrecedence_eq. apply sublist_filter. Qed.

(** Clearing takes a precedence away if there is one. *)
Lemma clear_fewer b s low : edge s low b -> precedences (clearPrecedence b s) <> precedences s.
Proof.
  rewrite clearPrecedence_eq. cbn. intros (p & Hp & _ & Hh & _) E. rewrite <-E in Hp. apply list_elem_of_filter in Hp as [? _]. done.
Qed.

Lemma writePage_precedences thru b s : returns (writePage thru b s) (fun '(_, s') => precedences s' = precedences s).
Proof.
  unfold writePage. unfold bdb_at at 1. destruct (bdbs s !! b) as [x|] eqn:Hx; [|done]. cbn [obind]. apply returns_if; intros _; [done|].
  apply returns_bind. eapply returns_mono; [apply returns_any|]. intros _ _. unfold write_to_file.
  destruct (0 <=? bdb_page x); [destruct (PIO_write (attempts s))|]; cbn; try done; unfold removeDirtyPage, bdb_at; cbn; rewrite Hx; cbn;
    (destruct (bdb_mark_sequence x =? 0); cbn; [by rewrite Hx|by rewrite list_lookup_insert_eq by (by eapply lookup_lt_Some)]).
Qed.

(** The end of [writeBuffer]. *)
Lemma end_uses (c thru : bool) status b s :
  returns
    (let* (result, s) :=
       (if c then let* (ok, s) := writePage thru b s in Ret (ok, if ok : bool then clearPrecedence b s else s)
        else Ret (true, clearPrecedence b s)) in
     Ret (if negb result then 0 else status, s))
    (fun '(status, s') => sub s' s /\ (status <> 0 -> forall low, edge s low b -> precedences s' <> precedences s)).
Proof.
  apply returns_bind. eapply (returns_mono _ (fun '(result, s') => sub s' s /\ (result = true -> forall low, edge s low b -> precedences s' <> precedences s))).
  2: { intros [ [|] s'] [H1 H2]; (split; [done|]); [intros _; by apply H2|by intros ?]. }
  apply returns_if; intros _; [|split; [apply sub_clear|intros _ low; apply clear_fewer] ].
  call writePage_precedences. intros [ok s1] E. cbn. assert (Hs : sub s1 s) by (unfold sub; by rewrite E).
  destruct ok; [|by split]. split; [by eapply sub_trans; [apply sub_clear|]|]. intros _ low He. rewrite <-E. apply (clear_fewer b s1 low).
  destruct He as (p & Hp & Ep). exists p. by rewrite E.
Qed.

Lemma write_uses fuel :
  (forall thru one b s, wf s -> returns (writeBuffer fuel thru one b s) (fun '(status, s') => sub s' s /\
     (status <> 0 -> forall low, edge s low b -> precedences s' <> precedences s))) /\
  (forall thru one b s, wf s -> returns (write_higher fuel thru one b s) (fun '(r, s') => sub s' s /\
     (forall status, r = Some status -> status <> 0 -> precedences s' <> precedences s))).
Proof.
  induction fuel as [|fuel [IHb IHh]]; [by split|]. split; intros thru one b s Hw.
  - cbn. unfold bdb_at at 1. destruct (bdbs s !! b) as [x|] eqn:Hx; [|done]. cbn [obind].
    destruct (BDB_marked x && negb (BDB_faked x)); [done|]. destruct (needs_write thru x); cbn [negb];
      [|split; [apply sub_clear|intros _ low; apply clear_fewer] ].
    call (IHh thru one b s Hw). intros [r s1] (S1 & H1). destruct r as [status|]; [split; [done|intros Hst low _; by apply (H1 status)]|].
    unfold bdb_at. destruct (bdbs s1 !! b) as [y|] eqn:Hy; [|done]. cbn [obind].
    pose proof (end_uses (needs_write thru y && negb (BDB_marked y)) thru (if one then 1 else 2) b s1) as Hend.
    destruct (if needs_write thru y && negb (BDB_marked y) then _ else _) as [[result s2]|e]; [|done]. cbn in Hend |- *.
    assert (Hall : sub s2 s /\ ((if negb result then 0 else if one then 1 else 2) <> 0 -> forall low, edge s low b -> precedences s2 <> precedences s)).
    { destruct Hend as [S2 H2]. split; [by eapply sub_trans|]. intros Hst low He. apply (fewer_trans _ (precedences s1)); [done..|].
      destruct (decide (precedences s1 = precedences s)) as [E|]; [right|by left]. apply (H2 Hst low). destruct He as (p & Hp & Ep). exists p. by rewrite E. }
    destruct result, one; exact Hall.
  - cbn. destruct (bdb_higher s b) as [|p l] eqn:Hh; [split; [apply sub_refl|done]|].
    assert (Hp : p ∈ precedences s /\ pre_low p = b) by (assert (Hin : p ∈ bdb_higher s b) by (rewrite Hh; left); by apply list_elem_of_filter in Hin as [? ?]).
    destruct (pre_cleared p) eqn:Hc.
    + assert (S0 : sub (deletePrecedence p s) s) by apply sublist_delete_first.
      eapply returns_mono; [apply (IHh thru one b); by apply (good_wf _ _ (good_delete_cleared p s Hc))|]. intros [r s1] [S1 H1].
      split; [by eapply sub_trans|]. intros st Er Hst. apply (fewer_trans _ (precedences (deletePrecedence p s))); [done..|]. right. by apply (H1 st).
    + apply returns_bind. eapply returns_ret2; [apply (IHb thru false (pre_hi p) s Hw)|apply (writeBuffer_ok fuel thru false (pre_hi p) s Hw)|].
      intros [status s1] [S1 H1] (G1 & _). destruct (Z.eqb_spec status 0) as [->|Hst]; [split; [done|by intros st [= <-]]|].
      assert (Hne : precedences s1 <> precedences s) by (apply (H1 Hst b); destruct Hp; by exists p).
      destruct one; cbn [negb]; [|split; [done|by intros st [= <-]] ].
      eapply returns_mono; [apply (IHh thru true b s1); by apply (good_wf _ _ G1)|]. intros [r s2] [S2 H2]. split; [by eapply sub_trans|].
      intros st Er Hst'. apply (fewer_trans _ (precedences s1)); [done..|]. by left.
Qed.

(** ** [writeBuffer] comes to an end *)

(** There is fuel enough, and every buffer asked for exists. *)
Definition ends {A} (m : outcome A) : Prop := m <> Throw Overrun.

Lemma ends_bind {A B} (m : outcome A) (k : A -> outcome B) :
  ends m -> (forall a, m = Ret a -> ends (k a)) -> ends (obind m k).
Proof. unfold ends. destruct m as [a|e]; cbn; [auto|congruence]. Qed.

Lemma delete_first_length p l : p ∈ l -> (length (delete_first p l) < length l)%nat.
Proof.
  induction l as [|x l IH]; [by intros ?%elem_of_nil|]. intros Hp. cbn. case_decide as E; [lia|].
  apply elem_of_cons in Hp as [->|Hp]; [done|]. cbn. specialize (IH Hp). lia.
Qed.

Lemma sub_length s s' : sub s' s -> precedences s' <> precedences s -> (length (precedences s') < length (precedences s))%nat.
Proof.
  intros Hs Hne. pose proof (sublist_length _ _ Hs). enough (length (precedences s') <> length (precedences s)) by lia.
  intros E. apply Hne. clear -Hs E. induction Hs as [|x l1 l2 Hs IH|x l1 l2 Hs IH]; [done|cbn in E; f_equal; apply IH; lia|].
  pose proof (sublist_length _ _ Hs). cbn in E. lia.
Qed.

Lemma writePage_ends thru b s : is_Some (bdbs s !! b) -> ends (writePage thru b s).
Proof.
  intros [x Hx]. unfold writePage. rewrite (bdb_at_ok s b x Hx). cbn [obind]. destruct (negb _); [done|].
  apply ends_bind; [unfold header_check, ends; repeat (case_match; try done)|]. intros _ _. unfold write_to_file, ends.
  destruct (0 <=? bdb_page x); [destruct (PIO_write (attempts s))|]; cbn; try done; unfold removeDirtyPage, bdb_at; cbn; rewrite Hx; cbn;
    (destruct (bdb_mark_sequence x =? 0); cbn; [by rewrite Hx|by rewrite list_lookup_insert_eq by (by eapply lookup_lt_Some)]).
Qed.

Lemma kept_some s s' b : kept s s' -> is_Some (bdbs s !! b) -> is_Some (bdbs s' !! b).
Proof. intros K [x Hx]. destruct (kept_bdbs _ _ K b x Hx) as (y & Hy & _). by exists y. Qed.

Lemma write_ends fuel :
  (forall thru one b s n h, wf s -> is_Some (bdbs s !! b) -> height_at_most s b h -> (length (precedences s) <= n)%nat ->
     (n + 2 * h + 2 <= fuel)%nat -> ends (writeBuffer fuel thru one b s)) /\
  (forall thru one b s n h, wf s -> is_Some (bdbs s !! b) -> height_at_most s b h -> (length (precedences s) <= n)%nat ->
     (n + 2 * h + 1 <= fuel)%nat -> ends (write_higher fuel thru one b s)).
Proof.
  induction fuel as [|fuel [IHb IHh]]; [split; intros; lia|]. split; intros thru one b s n h Hw Hb Hh Hn Hf.
  - pose proof Hb as [x Hx]. cbn. rewrite (bdb_at_ok s b x Hx). cbn [obind]. destruct (BDB_marked x && negb (BDB_faked x)); [done|].
    destruct (needs_write thru x); cbn [negb]; [|done]. apply ends_bind; [apply (IHh thru one b s n h); (done || lia)|]. intros [r s1] E1.
    destruct (returns_ret _ _ _ (proj2 (write_ok fuel) thru one b s Hw) E1) as (_ & K1 & _). destruct r as [status|]; [done|].
    pose proof (kept_some _ _ _ K1 Hb) as [y Hy]. rewrite (bdb_at_ok s1 b y Hy). cbn [obind].
    apply ends_bind; [|intros [ [|] s2] _; [by destruct one|done] ].
    destruct (needs_write thru y && negb (BDB_marked y)); [|done]. apply ends_bind; [apply writePage_ends; by exists y|by intros [ok s2] _].
  - cbn. destruct (bdb_higher s b) as [|p l] eqn:Eh; [done|].
    assert (Hp : p ∈ precedences s /\ pre_low p = b) by (assert (Hin : p ∈ bdb_higher s b) by (rewrite Eh; left); by apply list_elem_of_filter in Hin as [? ?]).
    destruct (pre_cleared p) eqn:Hc.
    + pose proof (delete_first_length p (precedences s) (proj1 Hp)) as Hlen.
      apply (IHh thru one b (deletePrecedence p s) (n - 1)%nat h); [by apply (good_wf _ _ (good_delete_cleared p s Hc))|done| |cbn; lia|lia].
      apply (height_sub s); [apply sublist_delete_first|done].
    + assert (He : edge s b (pre_hi p)) by (destruct Hp; by exists p). destruct (height_above s b _ h Hh He) as (h' & -> & Hh').
      assert (Hhi : is_Some (bdbs s !! pre_hi p)) by (destruct (wf_edges s Hw p (proj1 Hp)) as (_ & y & Hy & _); by exists y).
      apply ends_bind; [apply (IHb thru false (pre_hi p) s n h'); (done || lia)|]. intros [status s1] E1.
      destruct (returns_ret _ _ _ (writeBuffer_ok fuel thru false (pre_hi p) s Hw) E1) as (G1 & K1 & _).
      destruct (returns_ret _ _ _ (proj1 (write_uses fuel) thru false (pre_hi p) s Hw) E1) as (S1 & H1).
      destruct (Z.eqb_spec status 0) as [|Hst]; [done|]. destruct one; cbn [negb]; [|done].
      pose proof (sub_length s s1 S1 (H1 Hst b He)) as Hlen.
      apply (IHh thru true b s1 (n - 1)%nat (S h')); [by apply (good_wf _ _ G1)|by apply (kept_some s)|by apply (height_sub s)|lia|lia].
Qed.

(** Fuel that is enough for a cache. *)
Definition write_fuel (s : cache) : nat := 3 * length (precedences s) + 2.

Lemma writeBuffer_ends thru one b s fuel :
  wf s -> is_Some (bdbs s !! b) -> (write_fuel s <= fuel)%nat -> ends (writeBuffer fuel thru one b s).
Proof.
  intros Hw Hb Hf. apply (proj1 (write_ends fuel) thru one b s (length (precedences s)) (length (precedences s))); [done|done|by apply height_bounded|done|].
  unfold write_fuel in Hf. lia.
Qed.

(** C20: [writeBuffer] comes to an end in every state of the cache: each of its
    turns uses up a precedence, and it goes up a chain of them, which has no
    circle, so that three times their number is fuel enough. *)
Theorem writeBuffer_terminates thru one b s fuel :
  reachable s -> (b < length (bdbs s))%nat -> (3 * length (precedences s) + 2 <= fuel)%nat ->
  writeBuffer fuel thru one b s <> Throw Overrun.
Proof. intros Hr Hb Hf. apply writeBuffer_ends; [by apply reachable_ok|by apply lookup_lt_is_Some_2|done]. Qed.

(** ** With no page marked and no failing write *)

Definition calm (s : cache) : Prop := forall b x, bdbs s !! b = Some x -> BDB_marked x = false.

Lemma calm_kept s s' : kept s s' -> calm s -> calm s'.
Proof.
  intros K Hc b y Hy. destruct (lookup_lt_is_Some_2 (bdbs s) b) as [x Hx]; [rewrite <-(kept_length _ _ K); by eapply lookup_lt_Some|].
  destruct (kept_at _ _ _ _ _ K Hx Hy) as [_ _ _ (_ & -> & _) _]. by apply (Hc b).
Qed.

(** The file takes every write, and the numbers on the header page are in
    order. *)
Class Sound : Prop := {
  sound_write n : PIO_write n = true;
  sound_header n : hdr_oldest_active n <= hdr_next_transaction n /\ hdr_oldest_transaction n <= hdr_next_transaction n
}.

Context {SO : Sound}.

(** No error but a lack of fuel. *)
Definition succeeds {A} (m : outcome A) (P : A -> Prop) : Prop := match m with Ret a => P a | Throw e => e = Overrun end.

Lemma succeeds_bind {A B} (m : outcome A) (k : A -> outcome B) P : succeeds m (fun a => succeeds (k a) P) -> succeeds (obind m k) P.
Proof. by destruct m. Qed.

Lemma succeeds_mono {A} (m : outcome A) (P Q : A -> Prop) : succeeds m P -> (forall a, m = Ret a -> P a -> Q a) -> succeeds m Q.
Proof. destruct m; cbn; auto. Qed.

Lemma writePage_succeeds thru b s : calm s -> succeeds (writePage thru b s) (fun '(ok, _) => ok = true).
Proof.
  intros Hc. unfold writePage. unfold bdb_at at 1. destruct (bdbs s !! b) as [x|] eqn:Hx; [|done]. cbn [obind]. destruct (negb _); [done|].
  assert (header_check x = Ret ()) as ->.
  { unfold header_check. destruct (sound_header (bdb_incarnation x)). rewrite !(proj2 (Z.ltb_ge _ _)) by done. by destruct (_ && _). }
  cbn [obind]. unfold write_to_file. rewrite sound_write.
  destruct (0 <=? bdb_page x); cbn; unfold removeDirtyPage, bdb_at; cbn; rewrite Hx; cbn;
    (destruct (bdb_mark_sequence x =? 0); cbn; [by rewrite Hx|by rewrite list_lookup_insert_eq by (by eapply lookup_lt_Some)]).
Qed.

Lemma write_succeeds fuel :
  (forall thru one b s, wf s -> calm s -> succeeds (writeBuffer fuel thru one b s)
     (fun '(status, _) => status <> 0 /\ (one = true -> status = 1))) /\
  (forall thru one b s, wf s -> calm s -> succeeds (write_higher fuel thru one b s)
     (fun '(r, _) => r <> Some 0 /\ (one = true -> r = None))).
Proof.
  induction fuel as [|fuel [IHb IHh]]; [by split|]. split; intros thru one b s Hw Hc.
  - cbn. unfold bdb_at at 1. destruct (bdbs s !! b) as [x|] eqn:Hx; [|done]. cbn [obind]. rewrite (Hc b x Hx). cbn [andb].
    destruct (needs_write thru x); cbn [negb]; [|done]. apply succeeds_bind. eapply succeeds_mono; [by apply IHh|]. intros [r s1] E1 [H1 H2].
    destruct (returns_ret _ _ _ (proj2 (write_ok fuel) thru one b s Hw) E1) as (G1 & K1 & _). destruct r as [status|].
    { split; [congruence|]. intros Ho. by specialize (H2 Ho). }
    unfold bdb_at. destruct (bdbs s1 !! b) as [y|] eqn:Hy; [|done]. cbn [obind]. apply succeeds_bind.
    eapply (succeeds_mono _ (fun '(ok, _) => ok = true)); [|intros [ok s2] _ ->; cbn; by destruct one].
    destruct (needs_write thru y && negb (BDB_marked y)); [|done]. apply succeeds_bind.
    eapply succeeds_mono; [apply writePage_succeeds; by apply (calm_kept s)|]. by intros [ok s2] _ ->.
  - cbn. destruct (bdb_higher s b) as [|p l] eqn:Eh; [done|]. destruct (pre_cleared p) eqn:Ec.
    + apply IHh; [by apply (good_wf _ _ (good_delete_cleared p s Ec))|]. by apply (calm_kept s); [apply kept_delete|].
    + apply succeeds_bind. eapply succeeds_mono; [by apply IHb|]. intros [status s1] E1 [H1 _].
      destruct (returns_ret _ _ _ (writeBuffer_ok fuel thru false (pre_hi p) s Hw) E1) as (G1 & K1 & _).
      rewrite (proj2 (Z.eqb_neq status 0)) by done. destruct one; cbn [negb]; [|done]. apply IHh; [by apply (good_wf _ _ G1)|by apply (calm_kept s)].
Qed.

(** C21: With no page being changed and a file that takes every write,
    [writeBuffer] returns 1, and then the page it was called for is in the file
    and its buffer clean, as are the contents that every page above it, through
    any chain of precedences, had when it was called. *)
Theorem writeBuffer_writes thru b s x :
  reachable s -> calm s -> bdbs s !! b = Some x -> BDB_dirty x = true ->
  exists s' y, writeBuffer (write_fuel s) thru true b s = Ret (1, s') /\ bdbs s' !! b = Some y /\ BDB_dirty y = false /\
    bdb_incarnation x <= on_file (writes s') (bdb_page x) /\
    forall c z, tc (edge s) b c -> bdbs s !! c = Some z -> bdb_incarnation z <= on_file (writes s') (bdb_page z).
Proof.
  intros Hr Hc Hx Hd. pose proof (reachable_ok s Hr) as Hw. assert (Hb : is_Some (bdbs s !! b)) by (by exists x).
  pose proof (writeBuffer_ends thru true b s (write_fuel s) Hw Hb (le_n _)) as He.
  pose proof (proj1 (write_succeeds (write_fuel s)) thru true b s Hw Hc) as Hs. pose proof (writeBuffer_ok (write_fuel s) thru true b s Hw) as Ho.
  destruct (writeBuffer (write_fuel s) thru true b s) as [[status s']|e]; [|by destruct (He (f_equal Throw Hs))].
  destruct Hs as [_ Hst]. rewrite (Hst eq_refl) in *. destruct Ho as (G & K & _ & C).
  destruct (kept_bdbs _ _ K b x Hx) as (y & Hy & [Ep Ei _ (_ & Em & _) _]).
  assert (Hdy : BDB_dirty y = false) by (apply (C eq_refl ltac:(done) y Hy); rewrite Em; by apply (Hc b)).
  pose proof (ok_page _ _ _ (wf_bdbs s Hw b x Hx) Hd) as Hpage. destruct (G Hw) as (Hw' & _ & Hdep & Hheld). exists s', y. split_and!; [done|done|done| |].
  - rewrite <-Ep. apply (clean_on_file s' b y); [done|done|done|lia|]. rewrite Ep. apply Hheld. right. by exists b, x.
  - intros c z Ht Hz. destruct (Hdep (bdb_page x) (bdb_page z) (bdb_incarnation z)) as [[H|(bl & bh & xl & xh & H1 & H2 & H3 & _)] _];
      [right; by exists b, c, x, z|done|]. assert (bl = b) as -> by (apply (wf_pages s' Hw' bl b xl y); [done|done|congruence|lia]). congruence.
Qed.

End Writing.

#[local] Existing Instance some_storage.

(** Page 3 waits for page 2, and that for page 1; none of them is being changed. *)
Definition chain : cache := after (T := some_thread false) 20 20
  [Op_fetch [] 1 true; Op_mark 1 false; Op_release 1; Op_fetch [] 2 true; Op_precedence 2 1; Op_mark 2 false; Op_release 2;
   Op_fetch [] 3 true; Op_precedence 3 2; Op_mark 3 false; Op_release 3] (initial 3).

Lemma chain_reachable : reachable chain.
Proof. apply cache_after_reachable. lia. Qed.

Example writeBuffer_terminates_witness : writeBuffer 8 false true 2 chain <> Throw Overrun.
Proof. apply (writeBuffer_terminates false true 2 chain 8); [apply chain_reachable|vm_compute; lia|vm_compute; lia]. Defined.

Lemma some_sound : Sound.
Proof. by split. Qed.

Example writeBuffer_writes_witness : exists s' y, writeBuffer 8 false true 2 chain = Ret (1, s') /\ bdbs s' !! 2%nat = Some y /\ BDB_dirty y = false /\
    6 <= on_file (writes s') 3 /\
    forall c z, tc (edge chain) 2%nat c -> bdbs chain !! c = Some z -> bdb_incarnation z <= on_file (writes s') (bdb_page z).
Proof.
  apply (writeBuffer_writes (SO := some_sound) false 2 chain (mk_bdb 3 6 32 3 0 false 0 true true false false false false false)).
  - apply chain_reachable.
  - intros b x Hx. vm_compute in Hx. destruct b as [|[|[|b]]]; [injection Hx as <-; reflexivity..|discriminate Hx].
  - vm_compute. reflexivity.
  - reflexivity.
Defined.

(** The page at the top goes first. *)
Example chain_written : writes (after (T := some_thread false) 20 20 [Op_flush FLUSH_ALL 0] chain) = [(3, 6); (2, 4); (1, 2)].
Proof. vm_compute. reflexivity. Qed.

End PageCacheWrites.
