(* ===== verification/PageCacheFlush.v ===== *)
(** * A flush comes to an end ([jrd/PageCache.cpp])

    Each turn of [flushDirtyPages] writes a page of the queue of dirty buffers,
    or puts the queue in order. *)

From S2P Require Import Prelude.
From S2P Require Import QSort.
From S2P Require Import PageCache.
From S2P Require Import PageCacheOrder.
From S2P Require Import PageCacheGraph.
From S2P Require Import PageCacheSteps.
From S2P Require Import PageCacheClient.
From S2P Require Import PageCacheWrites.
From stdpp Require Import list relations.
#[local] Open Scope Z_scope.

Module PageCacheFlush.
Import PageCache PageCacheOrder PageCacheGraph PageCacheSteps PageCacheClient PageCacheWrites.

Section Flushing.
Context `{ST : Storage} {SO : Sound}.

Lemma calm_set b f s x : bdbs s !! b = Some x -> BDB_marked (f x) = BDB_marked x -> calm s -> calm (set_bdb b (f x) s).
Proof.
  intros Hx Hf Hc c y Hy. rewrite set_bdb_lookup in Hy. case_decide; [|by apply (Hc c)]. injection Hy as <-. rewrite Hf. by apply (Hc b).
Qed.

(** Writing takes buffers from the queue and adds none. *)
Lemma queue_kept s s' c : wf s -> wf s' -> kept s s' -> c ∈ bcb_dirty s' -> c ∈ bcb_dirty s.
Proof.
  intros Hw Hw' K Hc. apply (wf_queue s' Hw') in Hc as (y & Hy & Hs). apply (wf_queue s Hw).
  destruct (lookup_lt_is_Some_2 (bdbs s) c) as [x Hx]; [rewrite <-(kept_length _ _ K); by eapply lookup_lt_Some|]. exists x. split; [done|].
  destruct (kept_at _ _ _ _ _ K Hx Hy) as [_ _ _ _ Kd]. destruct Kd as (_ & <- & _); [|done]. by apply (ok_queued _ _ _ (wf_bdbs s' Hw' c y Hy)).
Qed.

Lemma queue_shorter s s' b :
  wf s -> wf s' -> (forall c, c ∈ bcb_dirty s' -> c ∈ bcb_dirty s) -> b ∈ bcb_dirty s -> b ∉ bcb_dirty s' ->
  (length (bcb_dirty s') < length (bcb_dirty s))%nat.
Proof.
  intros Hw Hw' Hsub Hb Hb'. change (length (b :: bcb_dirty s') <= length (bcb_dirty s))%nat. apply submseteq_length, NoDup_submseteq.
  - apply NoDup_cons. split; [done|by apply wf_queue_once].
  - intros c [->|Hc]%elem_of_cons; auto.
Qed.

Lemma first_selected_some mask sys s l :
  (forall b, b ∈ l -> is_Some (bdbs s !! b)) ->
  exists r, first_selected mask sys s l = Ret r /\ forall b, r = Some b -> b ∈ l.
Proof.
  induction l as [|c l IH]; intros Hl; cbn; [by exists None|]. destruct (Hl c) as [x Hx]; [left|]. rewrite (bdb_at_ok s c x Hx). cbn.
  destruct (selected mask sys x); [exists (Some c); split; [done|]; intros b [= ->]; left|].
  destruct IH as (r & -> & Hr); [intros b Hb; apply Hl; by right|]. exists r. split; [done|]. intros b Eb. right. by apply Hr.
Qed.

(** A queued buffer is taken from the queue. *)
Lemma flush_one fuel b s x :
  wf s -> calm s -> (write_fuel s <= fuel)%nat -> b ∈ bcb_dirty s -> bdbs s !! b = Some x ->
  exists s1 s2 y, upd_bdb b (addRef false) s = Ret s1 /\ writeBuffer fuel false true b s1 = Ret (1, s2) /\ bdbs s2 !! b = Some y /\
    let s3 := set_bdb b (unref y) s2 in
    wf s3 /\ calm s3 /\ (write_fuel s3 <= fuel)%nat /\ (length (bcb_dirty s3) < length (bcb_dirty s))%nat.
Proof.
  intros Hw Hc Hf Hb Hx. set (s1 := set_bdb b (addRef false x) s). exists s1.
  assert (G1 : good s s1) by (by apply (good_set b (addRef false))). pose proof (good_wf _ _ G1 Hw) as Hw1.
  assert (Hc1 : calm s1) by (by apply (calm_set b (addRef false))).
  assert (Hx1 : bdbs s1 !! b = Some (addRef false x)) by (apply set_bdb_eq; by eexists).
  pose proof (writeBuffer_ends false true b s1 fuel Hw1 (ex_intro _ _ Hx1) Hf) as He.
  pose proof (proj1 (write_succeeds fuel) false true b s1 Hw1 Hc1) as Hs. pose proof (writeBuffer_ok fuel false true b s1 Hw1) as Ho.
  pose proof (proj1 (write_uses fuel) false true b s1 Hw1) as Hu.
  destruct (writeBuffer fuel false true b s1) as [[status s2]|e]; [|by destruct (He (f_equal Throw Hs))].
  destruct Hs as [_ Hst]. rewrite (Hst eq_refl) in *. destruct Ho as (G2 & K2 & _ & C2). destruct Hu as [S2 _]. pose proof (good_wf _ _ G2 Hw1) as Hw2.
  destruct (kept_bdbs _ _ K2 b _ Hx1) as (y & Hy & Ky). exists s2, y. rewrite (upd_bdb_eq _ _ _ x Hx). split_and!; [done|done|done|].
  assert (G3 : good s2 (set_bdb b (unref y) s2)) by (apply good_set; [done|apply same_unref]).
  pose proof (good_wf _ _ G3 Hw2) as Hw3. split_and!; [done| | |].
  - apply (calm_set b unref); [done|unfold unref; by destruct (exclusive y)|by apply (calm_kept s1)].
  - pose proof (sublist_length _ _ S2). unfold write_fuel in *. cbn in *. lia.
  - apply (queue_shorter s _ b); [done..|intros c Hin; by apply (queue_kept s1 s2 c)|done|]. cbn. intros Hin.
    apply (wf_queue s2 Hw2) in Hin as (z & Hz & Hne). rewrite Hy in Hz. injection Hz as <-.
    pose proof (ok_queued _ _ _ (wf_bdbs s2 Hw2 b y Hy) Hne) as Hd. destruct Ky as [_ _ _ (_ & Km & _) _].
    rewrite (C2 eq_refl ltac:(done) y Hy) in Hd; [done|]. rewrite Km. by apply (Hc1 b).
Qed.

Lemma reorderDirty_returns s : wf s -> exists l, reorderDirty s = Ret (with_dirty l s) /\ l ≡ₚ bcb_dirty s.
Proof.
  intros Hw. pose proof (reorderDirty_ok s Hw) as H. destruct (reorderDirty s) as [s'|e] eqn:E; [destruct H as (_ & l & Hl & ->); by exists l|].
  exfalso. unfold reorderDirty, BdbSort in E. destruct (negb _); [done|].
  destruct (QSort.sort_ok (C := fun b c => page_of s b - page_of s c) (bcb_dirty s)) as (l & El & _); [by apply queue_length|].
  rewrite El in E. by destruct (bcb_dirty s) as [|b [|c [|d l'] ] ].
Qed.

Lemma flushDirtyPages_returns n turns fuel mask sys prior s :
  wf s -> calm s -> (write_fuel s <= fuel)%nat -> (length (bcb_dirty s) <= n)%nat ->
  (2 * n + 1 <= turns)%nat -> exists s', flushDirtyPages turns fuel mask sys prior s = Ret s'.
Proof.
  revert turns prior s. induction n as [|n IH]; intros turns prior s Hw Hc Hf Hn Ht; (destruct turns as [|turns]; [lia|]); cbn [flushDirtyPages].
  { destruct (bcb_dirty s) eqn:E; [|cbn in Hn; lia]. by exists s. }
  assert (Hq : forall s, wf s -> forall b, b ∈ bcb_dirty s -> exists x, bdbs s !! b = Some x /\ BDB_dirty x = true /\ 0 <= bdb_page x).
  { intros s0 Hw0 b Hb. apply (wf_queue s0 Hw0) in Hb as (x & Hx & Hs). exists x. destruct (wf_bdbs s0 Hw0 b x Hx) as [K1 K2 K3 K4 K5]. auto. }
  assert (Hsel : forall s, wf s -> exists r, first_selected mask sys s (bcb_dirty s) = Ret r /\ forall b, r = Some b -> b ∈ bcb_dirty s).
  { intros s0 Hw0. apply first_selected_some. intros b Hb. destruct (Hq s0 Hw0 b Hb) as (x & Hx & _). by exists x. }
  assert (Hwrite : forall turns s b x, wf s -> calm s -> (write_fuel s <= fuel)%nat -> (length (bcb_dirty s) <= S n)%nat -> (2 * n + 1 <= turns)%nat ->
    b ∈ bcb_dirty s -> bdbs s !! b = Some x ->
    exists s', (let* s := upd_bdb b (addRef false) s in let* (status, s) := writeBuffer fuel false true b s in let* s := upd_bdb b unref s in
       if status =? 0 then Throw punt else flushDirtyPages turns fuel mask sys (bdb_page x) s) = Ret s').
  { intros turns0 s0 b x Hw0 Hc0 Hf0 Hn0 Ht0 Hb Hx. destruct (flush_one fuel b s0 x Hw0 Hc0 Hf0 Hb Hx) as (s1 & s2 & y & -> & E2 & Hy & Hw3 & Hc3 & Hf3 & Hlen).
    cbn [obind]. rewrite E2. cbn [obind]. rewrite (upd_bdb_eq _ _ _ y Hy). cbn [obind Z.eqb]. apply IH; (done || lia). }
  destruct (Hsel s Hw) as ([b|] & -> & Hb); cbn [obind]; [|by exists s]. specialize (Hb b eq_refl). destruct (Hq s Hw b Hb) as (x & Hx & Hd & Hp).
  rewrite (bdb_at_ok s b x Hx). cbn [obind]. destruct (bdb_page x <? prior).
  2: { rewrite (Hc b x Hx), Hd. cbn [negb orb]. apply Hwrite; (done || lia). }
  destruct (reorderDirty_returns s Hw) as (l & -> & Hl). cbn [obind]. set (s1 := with_dirty l s).
  pose proof (good_wf _ _ (good_permuted l s Hl) Hw) as Hw1. destruct turns as [|turns]; [lia|]. cbn [flushDirtyPages].
  destruct (Hsel s1 Hw1) as ([c|] & -> & Hb1); cbn [obind]; [|by exists s1]. specialize (Hb1 c eq_refl). destruct (Hq s1 Hw1 c Hb1) as (z & Hz & Hdz & Hpz).
  rewrite (bdb_at_ok s1 c z Hz). cbn [obind]. rewrite (proj2 (Z.ltb_ge _ _)) by lia. rewrite (Hc c z Hz), Hdz. cbn [negb orb].
  apply Hwrite; try done; [|lia]. cbn. rewrite Hl. done.
Qed.

(** C18: With no page being changed and a file that takes every write, a flush
    returns: twice the number of queued buffers is turns enough, as a queue
    that had to be put in order needs it no second time before a page of it is
    written.  A flush of all pages leaves the queue empty. *)
Theorem flush_returns turns fuel flag number s :
  reachable s -> calm s -> (3 * length (precedences s) + 2 <= fuel)%nat -> (2 * length (bcb_dirty s) + 1 <= turns)%nat ->
  exists s', flush turns fuel flag number s = Ret s' /\ (flag = FLUSH_ALL -> bcb_dirty s' = []).
Proof.
  intros Hr Hc Hf Ht. pose proof (reachable_ok s Hr) as Hw. pose proof (flush_ok turns fuel flag number s Hw) as Ho.
  assert (exists s', flush turns fuel flag number s = Ret s') as [s' E].
  { unfold flush. fold (flush_mask flag number). destruct (flush_mask flag number) as [mask sys]. by apply (flushDirtyPages_returns (length (bcb_dirty s))). }
  exists s'. split; [done|]. rewrite E in Ho. destruct Ho as [G Hn]. intros ->. unfold flush_mask in Hn. cbn in Hn.
  destruct (bcb_dirty s') as [|b l] eqn:Eq; [done|]. exfalso. pose proof (good_wf _ _ G Hw) as Hw'.
  assert (Hb : b ∈ bcb_dirty s') by (rewrite Eq; left). apply (wf_queue s' Hw') in Hb as (x & Hx & _).
  pose proof (first_selected_none _ _ _ _ b x Hn ltac:(left) Hx) as Hs. unfold selected in Hs. rewrite Z.land_m1_l in Hs.
  destruct (bdb_transactions x =? 0); cbn in Hs; [by rewrite orb_true_r in Hs|done].
Qed.

End Flushing.

#[local] Existing Instance some_storage.

Example flush_returns_witness : exists s', flush 7 8 FLUSH_ALL 0 chain = Ret s' /\ (FLUSH_ALL = FLUSH_ALL -> bcb_dirty s' = []).
Proof.
  apply (flush_returns (SO := some_sound) 7 8 FLUSH_ALL 0 chain).
  - apply chain_reachable.
  - intros b x Hx. vm_compute in Hx. destruct b as [|[|[|b]]]; [injection Hx as <-; reflexivity..|discriminate Hx].
  - vm_compute. lia.
  - vm_compute. lia.
Defined.

End PageCacheFlush.
