(* ===== verification/Sort.v ===== *)
(** * Sorting records ([jrd/sort.cpp], [jrd/sort.h])

    Records are collected in a piece of memory, with pointers to them.  When it
    is full they are sorted, put in physical order and written to a file as a
    run; runs are merged when there are many of them, and in the end as the
    records are fetched.  Longwords have 32 bits, and so do pointers.  The
    [SORT_...] interface without scrollable cursors is modelled; space in the
    work files, their buffers and the list of a session's sorts are not. *)

From S2P Require Import Prelude.
From stdpp Require Import list.
#[local] Open Scope Z_scope.

Module Sort.

(** ** The memory of a sort *)

Definition ULONG_MAX : Z := 4294967295.
Definition MAX_MERGE_LEVEL : Z := 2.
Definition RUN_GROUP : nat := 8.

(** Keys that guard the ends of the pointers. *)
Definition low_key : list Z := replicate 6 0.
Definition high_key : list Z := replicate 64 ULONG_MAX.

(** A record in memory; [None] is a null pointer. *)
Record sr := mk_sr { sr_bckptr : option nat; sort_record_key : list Z }.

(** The pointers behind the one to the low key, and the records by the order in
    which they came, which is downwards from the end of the memory.  [high] is
    the high key, which [diddle_key] may get to see. *)
Record memory := mk_memory { pointers : list (option nat); records : list sr; high : list Z }.

Definition with_pointers (l : list (option nat)) (m : memory) : memory := mk_memory l (records m) (high m).
Definition with_records (l : list sr) (m : memory) : memory := mk_memory (pointers m) l (high m).
Definition with_high (h : list Z) (m : memory) : memory := mk_memory (pointers m) (records m) h.

(** What a pointer array position holds: a record of its own. *)
Definition slot_at (m : memory) (i : Z) : outcome nat :=
  if i <? 0 then Throw Overrun else
  match pointers m !! Z.to_nat i with Some (Some s) => Ret s | _ => Throw Overrun end.

Definition record_of (m : memory) (s : nat) : outcome sr :=
  match records m !! s with Some r => Ret r | None => Throw Overrun end.

(** The key at a position, guards included. *)
Definition key_at (m : memory) (i : Z) : outcome (list Z) :=
  if i =? -1 then Ret low_key else
  if i =? Z.of_nat (length (pointers m)) then Ret (high m) else
  let* s := slot_at m i in
  let* r := record_of m s in
  Ret (sort_record_key r).

Definition word_at (m : memory) (i : Z) (w : nat) : outcome Z :=
  let* k := key_at m i in
  match k !! w with Some x => Ret x | None => Throw Overrun end.

Definition set_bckptr (s : nat) (p : option nat) (m : memory) : outcome memory :=
  let* r := record_of m s in
  Ret (with_records (<[s := mk_sr p (sort_record_key r)]> (records m)) m).

(** Two pointers change places, with the pointers back to them. *)
Definition exchange (i j : Z) (m : memory) : outcome memory :=
  let* s := slot_at m i in
  let* t := slot_at m j in
  let* m := set_bckptr s (Some (Z.to_nat j)) m in
  let* m := set_bckptr t (Some (Z.to_nat i)) m in
  Ret (with_pointers (<[Z.to_nat j := Some s]> (<[Z.to_nat i := Some t]> (pointers m))) m).

(** Where two keys differ, within [tl] longwords from longword [w] on. *)
Fixpoint differ (tl w : nat) (m : memory) (i j : Z) : outcome (option (Z * Z)) :=
  match tl with
  | O => Ret None
  | S tl =>
      let* p := word_at m i w in
      let* q := word_at m j w in
      if p =? q then differ tl (S w) m i j else Ret (Some (p, q))
  end.

(** ** [quick] *)

(** [while ( **i < key) i++] *)
Fixpoint skip_less (fuel : nat) (key : Z) (m : memory) (i : Z) : outcome Z :=
  match fuel with
  | O => Throw Overrun
  | S fuel =>
      let* x := word_at m i 0 in
      if x <? key then skip_less fuel key m (i + 1) else Ret i
  end.

(** Up to a greater record than that at [r]. *)
Fixpoint skip_up (fuel tl : nat) (m : memory) (r i : Z) : outcome Z :=
  match fuel with
  | O => Throw Overrun
  | S fuel =>
      let* d := differ tl 0 m i r in
      match d with
      | Some (p, q) => if q <? p then Ret i else skip_up fuel tl m r (i + 1)
      | None => skip_up fuel tl m r (i + 1)
      end
  end.

Definition scan_up (fuel tl : nat) (key : Z) (m : memory) (r i : Z) : outcome Z :=
  let* i := skip_less fuel key m i in
  let* x := word_at m i 0 in
  if x =? key then skip_up fuel tl m r i else Ret i.

(** [while ( **j > key) j--] *)
Fixpoint skip_greater (fuel : nat) (key : Z) (m : memory) (j : Z) : outcome Z :=
  match fuel with
  | O => Throw Overrun
  | S fuel =>
      let* x := word_at m j 0 in
      if key <? x then skip_greater fuel key m (j - 1) else Ret j
  end.

(** Down to a smaller record than that at [r], or to [r] itself. *)
Fixpoint skip_down (fuel tl : nat) (m : memory) (r j : Z) : outcome Z :=
  match fuel with
  | O => Throw Overrun
  | S fuel =>
      if j =? r then Ret j else
      let* d := differ tl 0 m j r in
      match d with
      | Some (p, q) => if p <? q then Ret j else skip_down fuel tl m r (j - 1)
      | None => skip_down fuel tl m r (j - 1)
      end
  end.

Definition scan_down (fuel tl : nat) (key : Z) (m : memory) (r j : Z) : outcome Z :=
  let* j := skip_greater fuel key m j in
  let* x := word_at m j 0 in
  if x =? key then skip_down fuel tl m r j else Ret j.

(** The two scans converge; the slot for the record at [r] is returned. *)
Fixpoint converge (fuel scan tl : nat) (key r i j : Z) (m : memory) : outcome (Z * memory) :=
  match fuel with
  | O => Throw Overrun
  | S fuel =>
      let* i := scan_up scan tl key m r i in
      let* j := scan_down scan tl key m r j in
      if j <=? i then Ret (j, m) else
      let* m := exchange i j m in
      converge fuel scan tl key r (i + 1) (j - 1) m
  end.

(** The interval from [r] to [j], of more than two records. *)
Definition partition (scan tl : nat) (r j : Z) (m : memory) : outcome (Z * memory) :=
  let i := r + (j - r) / 2 in
  let* m := exchange r i m in
  let* key := word_at m r 0 in
  let* (j, m) := converge scan scan tl key r (r + 1) j m in
  let* m := exchange r j m in
  Ret (j, m).

Definition stack_size : nat := 50.

(** [*sl++ = l; *su++ = u] *)
Definition stack_interval (l u : Z) (stack : list (Z * Z)) : outcome (list (Z * Z)) :=
  if (length stack <? stack_size)%nat then Ret ((l, u) :: stack) else Throw Overrun.

Fixpoint quick_loop (fuel scan tl : nat) (stack : list (Z * Z)) (m : memory) : outcome memory :=
  match stack with
  | [] => Ret m
  | (r, u) :: stack =>
      match fuel with
      | O => Throw Overrun
      | S fuel =>
          if u - r <? 2 then quick_loop fuel scan tl stack m else
          let* (j, m) := partition scan tl r u m in
          let* stack :=
            (if u - j + 1 <? j - r
             then let* stack := stack_interval r (j - 1) stack in stack_interval (j + 1) u stack
             else let* stack := stack_interval (j + 1) u stack in stack_interval r (j - 1) stack) in
          quick_loop fuel scan tl stack m
      end
  end.

(** [length] is that of a record in memory, with its pointer back. *)
Definition quick (size : nat) (m : memory) (length : nat) : outcome memory :=
  quick_loop (2 * size + 1) (S (S size)) (length - 1) [(0, Z.of_nat size - 1)] m.

(** ** [sort] *)

(** Pairs out of order, for [n] positions from [i] on. *)
Fixpoint straighten (n tl : nat) (i : Z) (m : memory) : outcome memory :=
  match n with
  | O => Ret m
  | S n =>
      let j := i + 1 in
      let* x := word_at m i 0 in
      let* y := word_at m j 0 in
      let* m :=
        (if y <=? x then
           let* d := differ tl 0 m i j in
           match d with
           | Some (p, q) => if q <? p then exchange i j m else Ret m
           | None => Ret m
           end
         else Ret m) in
      straighten n tl j m
  end.

(** What a sort is for: how the keys of a record are made comparable and back
    ([true] and [false]), which depends on whether the sort is complete; how
    many longwords are key and unique key; what to do with duplicates. *)
Class SortKeys := {
  scb_key_length : nat;
  scb_unique_length : nat;
  diddle_key : bool -> bool -> list Z -> list Z;
  scb_dup_callback : option (list Z -> list Z -> bool)
}.

Section Sort.
Context `{SK : SortKeys}.

(** The key at a position is changed in place. *)
Definition set_key (i : Z) (k : list Z) (m : memory) : outcome memory :=
  if i =? Z.of_nat (length (pointers m)) then Ret (with_high k m) else
  let* s := slot_at m i in
  let* r := record_of m s in
  Ret (with_records (<[s := mk_sr (sr_bckptr r) k]> (records m)) m).

Definition diddle_at (direction : bool) (i : Z) (m : memory) : outcome memory :=
  let* k := key_at m i in set_key i (diddle_key false direction k) m.

(** Duplicates the callback rejects lose the earlier record. *)
Fixpoint eliminate (callback : list Z -> list Z -> bool) (n : nat) (i : Z) (m : memory) : outcome memory :=
  match n with
  | O => Ret m
  | S n =>
      let j := i + 1 in
      let* x := word_at m i 0 in
      let* y := word_at m j 0 in
      if negb (x =? y) then eliminate callback n j m else
      let* d := differ scb_unique_length 0 m i j in
      match d with
      | Some _ => eliminate callback n j m
      | None =>
          let* m := diddle_at false i m in
          let* m := diddle_at false j m in
          let* k := key_at m i in
          let* l := key_at m j in
          let* m :=
            (if callback k l then
               let* s := slot_at m i in
               let* m := set_bckptr s None m in
               Ret (with_pointers (<[Z.to_nat i := None]> (pointers m)) m)
             else diddle_at true i m) in
          let* m := diddle_at true j m in
          eliminate callback n j m
      end
  end.

Definition sort (scb_longs : nat) (m : memory) : outcome memory :=
  let size := length (pointers m) in
  let* m := quick size m scb_longs in
  let* m := straighten size (scb_longs - 1) 0 m in
  match scb_dup_callback with
  | None => Ret m
  | Some callback => eliminate callback size 0 m
  end.

End Sort.

(** ** [order] *)

(** The memory from the last record up to the end, longword by longword: the
    pointer back, counted from 1 with 0 for a null pointer, and the record. *)
Definition longwords (m : memory) : list Z :=
  concat (reverse ((fun r => match sr_bckptr r with Some k => Z.of_nat (S k) | None => 0 end :: sort_record_key r) <$> records m)).

(** Pointers as addresses of keys in it. *)
Definition addresses (scb_longs : nat) (m : memory) : list (option nat) :=
  map (option_map (fun s => (length (records m) - S s) * scb_longs + 1)%nat) (pointers m).

Definition fetch_words (n a : nat) (mem : list Z) : outcome (list Z) :=
  if (a + n <=? length mem)%nat then Ret (take n (drop a mem)) else Throw Overrun.

Definition store_words (l : list Z) (a : nat) (mem : list Z) : outcome (list Z) :=
  if (a + length l <=? length mem)%nat then Ret (list_inserts a l mem) else Throw Overrun.

(** [MOVE_32] *)
Definition move_32 (n from to : nat) (mem : list Z) : outcome (list Z) :=
  let* l := fetch_words n from mem in store_words l to mem.

(** The lower limit of live records is advanced. *)
Fixpoint advance (fuel scb_longs lower_limit : nat) (mem : list Z) : outcome nat :=
  match fuel with
  | O => Throw Overrun
  | S fuel =>
      match mem !! lower_limit with
      | None => Throw Overrun
      | Some b => if (b =? 0) && (lower_limit <? length mem)%nat then advance fuel scb_longs (lower_limit + scb_longs) mem else Ret lower_limit
      end
  end.

(** The records of [n] pointers from [p] on are moved to [output]. *)
Fixpoint order_loop (n p scb_longs : nat) (ptrs : list (option nat)) (lower_limit output : nat) (mem : list Z) : outcome (nat * list Z) :=
  match n with
  | O => Ret (output, mem)
  | S n =>
      let length := (scb_longs - 1)%nat in
      match ptrs !! p with
      | None => Throw Overrun
      | Some None => order_loop n (S p) scb_longs ptrs lower_limit output mem
      | Some (Some key) =>
          let record := (key - 1)%nat in
          let* lower_limit := advance (S (List.length mem)) scb_longs lower_limit mem in
          if (key =? lower_limit)%nat then
            let* mem := move_32 length key output mem in
            order_loop n (S p) scb_longs ptrs lower_limit (output + length) mem
          else if (output + scb_longs - 1 <=? lower_limit)%nat then
            let* mem := store_words [0] record mem in
            let* mem := move_32 length key output mem in
            order_loop n (S p) scb_longs ptrs lower_limit (output + length) mem
          else
            let* buffer := fetch_words length key mem in
            let* b := fetch_words 1 lower_limit mem in
            match b with
            | [b] =>
                if b =? 0 then Throw Overrun else
                let ptrs := <[Z.to_nat (b - 1) := Some key]> ptrs in
                let* mem := move_32 scb_longs lower_limit record mem in
                let* mem := store_words buffer output mem in
                order_loop n (S p) scb_longs ptrs (lower_limit + scb_longs) (output + length) mem
            | _ => Throw Overrun
            end
      end
  end.

(** The number of records, and the memory with the records from its start. *)
Definition order (scb_longs : nat) (m : memory) : outcome (nat * list Z) :=
  let* (output, mem) := order_loop (length (pointers m)) 0 scb_longs (addresses scb_longs m) 0 0 (longwords m) in
  Ret ((output / (scb_longs - 1))%nat, mem).

Example order_example :
  (let m := mk_memory (Some <$> seq 0 3) ((fun '(k, x) => mk_sr (Some k) [x; x]) <$> zip (seq 0 3) [30; 10; 20]) high_key in
   let* m := quick 3 m 3 in let* m := straighten 3 2 0 m in let* (n, mem) := order 3 m in Ret (n, take 6 mem)) = Ret (3%nat, [10; 10; 20; 20; 30; 30]).
Proof. vm_compute. reflexivity. Qed.

(** Six records of one longword. *)
Example quick_example :
  let m := mk_memory (Some <$> seq 0 6) ((fun '(k, x) => mk_sr (Some k) [x]) <$> zip (seq 0 6) [30; 10; 50; 20; 50; 40]) high_key in
  (let* m := quick 6 m 2 in straighten 6 1 0 m) =
  Ret (mk_memory (Some <$> [1; 3; 0; 5; 4; 2]%nat)
         ((fun '(k, x) => mk_sr (Some k) [x]) <$> zip [2; 0; 5; 1; 4; 3]%nat [30; 10; 50; 20; 50; 40]) high_key).
Proof. vm_compute. reflexivity. Qed.

(** ** Runs and merging *)

(** A node of the merge tree: a run, or a merge block. *)
Inductive stream := Run (r : nat) | Mrg (m : nat).

(** The records of a run that are still to be fetched. *)
Record run_control := mk_run { run_records : list (list Z); run_depth : Z; run_parent : option nat }.

Record merge_control := mk_merge {
  mrg_parent : option nat;
  mrg_record_a : option (list Z);
  mrg_stream_a : option stream;
  mrg_record_b : option (list Z);
  mrg_stream_b : option stream
}.

Record merge_state := mk_merge_state { runs : list run_control; mrgs : list merge_control }.

Definition with_record_a (r : option (list Z)) (x : merge_control) : merge_control :=
  mk_merge (mrg_parent x) r (mrg_stream_a x) (mrg_record_b x) (mrg_stream_b x).
Definition with_stream_a (s : option stream) (x : merge_control) : merge_control :=
  mk_merge (mrg_parent x) (mrg_record_a x) s (mrg_record_b x) (mrg_stream_b x).
Definition with_record_b (r : option (list Z)) (x : merge_control) : merge_control :=
  mk_merge (mrg_parent x) (mrg_record_a x) (mrg_stream_a x) r (mrg_stream_b x).
Definition with_stream_b (s : option stream) (x : merge_control) : merge_control :=
  mk_merge (mrg_parent x) (mrg_record_a x) (mrg_stream_a x) (mrg_record_b x) s.

Definition set_mrg (m : nat) (x : merge_control) (st : merge_state) : merge_state := mk_merge_state (runs st) (<[m := x]> (mrgs st)).
Definition set_run (r : nat) (x : run_control) (st : merge_state) : merge_state := mk_merge_state (<[r := x]> (runs st)) (mrgs st).

(** [DO_32_COMPARE]: whether all [l] longwords from [w] on are equal, and where
    the comparison has come to. *)
Fixpoint do_32_compare (l w : nat) (p q : list Z) : outcome (bool * nat) :=
  match l, p !! w, q !! w with
  | S l, Some x, Some y =>
      if x =? y then match l with O => Ret (true, S w) | S _ => do_32_compare l (S w) p q end
      else Ret (false, S w)
  | _, _, _ => Throw Overrun
  end.

(** The [record] of [get_merge]: [NULL], -1 or a record. *)
Inductive fetched := Null | Eof | Rec (r : list Z).

Section Merge.
Context `{SK : SortKeys}.

(** The prospective records [a] and [b] of a merge block: as they are when they
    have been offered to the callback, and whether [a] is rejected. *)
Definition offer (scb_sorted equal : bool) (a b : list Z) : bool * list Z * list Z :=
  match scb_dup_callback with
  | Some callback =>
      if equal then
        let a := diddle_key scb_sorted false a in
        let b := diddle_key scb_sorted false b in
        if callback a b then (true, a, diddle_key scb_sorted true b)
        else (false, diddle_key scb_sorted true a, diddle_key scb_sorted true b)
      else (false, a, b)
  | None => (false, a, b)
  end.

(** A merge block that gets what it has asked for. *)
Definition deliver (f : fetched) (x : merge_control) : merge_control :=
  match f with
  | Null => x
  | Eof => if bool_decide (is_Some (mrg_stream_a x)) && negb (bool_decide (is_Some (mrg_record_a x))) then with_stream_a None x else with_stream_b None x
  | Rec r => if bool_decide (is_Some (mrg_stream_a x)) && negb (bool_decide (is_Some (mrg_record_a x))) then with_record_a (Some r) x else with_record_b (Some r) x
  end.

(** Which of two records comes first: the lower one, the second if they are
    equal.  [w] is where their unique keys have been compared to. *)
Definition choose (x : merge_control) (equal : bool) (w : nat) (a b : list Z) : outcome (option nat * fetched * merge_control) :=
  let l := (scb_key_length - scb_unique_length)%nat in
  let* (_, w) := (if equal && negb (l =? 0)%nat then do_32_compare l w a b else Ret (equal, w)) in
  match a !! pred w, b !! pred w with
  | Some p, Some q =>
      if p <? q then Ret (mrg_parent x, Rec a, with_record_a None (with_record_b (Some b) x))
      else Ret (mrg_parent x, Rec b, with_record_b None (with_record_a (Some a) x))
  | _, _ => Throw Overrun
  end.

(** One turn of the loop of [get_merge]. *)
Definition merge_turn (scb_sorted : bool) (node : stream) (f : fetched) (st : merge_state) : outcome (option stream * fetched * merge_state) :=
  match node with
  | Run r =>
      match runs st !! r with
      | None => Throw Overrun
      | Some x =>
          match run_records x with
          | [] => Ret (Mrg <$> run_parent x, Eof, st)
          | k :: l => Ret (Mrg <$> run_parent x, Rec k, set_run r (mk_run l (run_depth x) (run_parent x)) st)
          end
      end
  | Mrg m =>
      match mrgs st !! m with
      | None => Throw Overrun
      | Some x =>
          let x := deliver f x in
          match mrg_record_a x, mrg_stream_a x, mrg_record_b x, mrg_stream_b x with
          | None, Some a, _, _ => Ret (Some a, Null, set_mrg m x st)
          | _, _, None, Some b => Ret (Some b, Null, set_mrg m x st)
          | Some a, _, None, None => Ret (Mrg <$> mrg_parent x, Rec a, set_mrg m (with_record_a None x) st)
          | None, None, None, None => Ret (Mrg <$> mrg_parent x, Eof, set_mrg m x st)
          | None, None, Some b, _ => Ret (Mrg <$> mrg_parent x, Rec b, set_mrg m (with_record_b None x) st)
          | Some a, _, Some b, _ =>
              let* (equal, w) := do_32_compare scb_unique_length 0 a b in
              let '(reject, a, b) := offer scb_sorted equal a b in
              if reject : bool then Ret (Some (Mrg m), Null, set_mrg m (with_record_a None (with_record_b (Some b) x)) st) else
              let* (parent, f, x) := choose x equal w a b in
              Ret (Mrg <$> parent, f, set_mrg m x st)
          end
      end
  end.

Fixpoint get_merge (fuel : nat) (scb_sorted : bool) (node : option stream) (f : fetched) (st : merge_state) : outcome (option (list Z) * merge_state) :=
  match node with
  | None => Ret (match f with Rec r => Some r | _ => None end, st)
  | Some node =>
      match fuel with
      | O => Throw Overrun
      | S fuel =>
          let* (node, f, st) := merge_turn scb_sorted node f st in
          get_merge fuel scb_sorted node f st
      end
  end.

(** The fuel is enough for every node to be visited three times for each record
    that may be rejected (see [SortMerge]). *)
Definition merge_fuel (st : merge_state) : nat :=
  3 * (length (runs st) + length (mrgs st)) * S (list_sum (length ∘ run_records <$> runs st) + 2 * length (mrgs st)) + 1.

(** ** Building a merge tree *)

Definition set_parent (s : stream) (p : option nat) (st : merge_state) : merge_state :=
  match s with
  | Run r => mk_merge_state (alter (fun x => mk_run (run_records x) (run_depth x) p) r (runs st)) (mrgs st)
  | Mrg m => mk_merge_state (runs st) (alter (fun x => mk_merge p (mrg_record_a x) (mrg_stream_a x) (mrg_record_b x) (mrg_stream_b x)) m (mrgs st))
  end.

(** A pass through the streams: the next merge block for two of them. *)
Fixpoint merge_pass (streams : list stream) (st : merge_state) : list stream * merge_state :=
  match streams with
  | a :: b :: streams =>
      let merge := length (mrgs st) in
      let st := set_parent b (Some merge) (set_parent a (Some merge) st) in
      let st := mk_merge_state (runs st) (mrgs st ++ [mk_merge None None (Some a) None (Some b)]) in
      let '(streams, st) := merge_pass streams st in
      (Mrg merge :: streams, st)
  | _ => (streams, st)
  end.

Fixpoint merge_passes (fuel : nat) (streams : list stream) (st : merge_state) : outcome (stream * merge_state) :=
  match streams with
  | [] => Throw Overrun
  | [s] => Ret (s, st)
  | _ =>
      match fuel with
      | O => Throw Overrun
      | S fuel => let '(streams, st) := merge_pass streams st in merge_passes fuel streams st
      end
  end.

Definition merge_tree (l : list run_control) : outcome (stream * merge_state) :=
  let* (merge, st) := merge_passes (length l) (Run <$> seq 0 (length l)) (mk_merge_state l []) in
  Ret (merge, set_parent merge None st).

(** ** The interface *)

(** [scb_longs] counts the longword of the pointer back, [scb_size_memory] is
    in longwords.  [scb_next] is the next pointer to fetch, [scb_runs] has the
    newest run first, [scb_merge] is the merge tree with its blocks. *)
Record SortContext := mk_scb {
  scb_longs : nat;
  scb_size_memory : nat;
  scb_memory : memory;
  scb_records : nat;
  scb_next : nat;
  scb_runs : list run_control;
  scb_merge : option (stream * merge_state);
  scb_sorted : bool
}.

Definition with_memory (m : memory) (scb : SortContext) : SortContext :=
  mk_scb (scb_longs scb) (scb_size_memory scb) m (scb_records scb) (scb_next scb) (scb_runs scb) (scb_merge scb) (scb_sorted scb).
Definition with_count (n : nat) (scb : SortContext) : SortContext :=
  mk_scb (scb_longs scb) (scb_size_memory scb) (scb_memory scb) n (scb_next scb) (scb_runs scb) (scb_merge scb) (scb_sorted scb).
Definition with_next (n : nat) (scb : SortContext) : SortContext :=
  mk_scb (scb_longs scb) (scb_size_memory scb) (scb_memory scb) (scb_records scb) n (scb_runs scb) (scb_merge scb) (scb_sorted scb).
Definition with_runs (l : list run_control) (scb : SortContext) : SortContext :=
  mk_scb (scb_longs scb) (scb_size_memory scb) (scb_memory scb) (scb_records scb) (scb_next scb) l (scb_merge scb) (scb_sorted scb).
Definition with_merge (t : stream * merge_state) (scb : SortContext) : SortContext :=
  mk_scb (scb_longs scb - 1) (scb_size_memory scb) (scb_memory scb) (scb_records scb) (scb_next scb) (scb_runs scb) (Some t) (scb_sorted scb).
Definition with_sorted (scb : SortContext) : SortContext :=
  mk_scb (scb_longs scb) (scb_size_memory scb) (scb_memory scb) (scb_records scb) (scb_next scb) (scb_runs scb) (scb_merge scb) true.

(** The high key is one for all sorts. *)
Definition init (scb : SortContext) : SortContext := with_memory (mk_memory [] [] (high (scb_memory scb))) scb.

(** [record_length] in bytes, a pointer having 4. *)
Definition SORT_init (record_length size_memory : nat) : SortContext :=
  init (mk_scb ((record_length + 4 + 3) / 4) size_memory (mk_memory [] [] high_key) 0 0 [] None false).

(** [n] records of [len] longwords. *)
Fixpoint chunks (n len : nat) (l : list Z) : list (list Z) :=
  match n with O => [] | S n => take len l :: chunks n len (drop len l) end.

Definition put_run (scb : SortContext) : outcome SortContext :=
  let* m := sort (scb_longs scb) (scb_memory scb) in
  let* (n, mem) := order (scb_longs scb) m in
  Ret (with_memory (with_high (high m) (scb_memory scb)) (with_runs (mk_run (chunks n (scb_longs scb - 1) mem) 0 None :: scb_runs scb) scb)).

(** What comes out of a merge tree until it is empty. *)
Fixpoint merge_all (n : nat) (scb_sorted : bool) (merge : stream) (st : merge_state) : outcome (list (list Z)) :=
  match n with
  | O => Throw Overrun
  | S n =>
      let* (p, st) := get_merge (merge_fuel st) scb_sorted (Some merge) Null st in
      match p with
      | None => Ret []
      | Some p => let* l := merge_all n scb_sorted merge st in Ret (p :: l)
      end
  end.

Definition merge_runs (n : nat) (scb : SortContext) : outcome SortContext :=
  let l := take n (scb_runs scb) in
  let* (merge, st) := merge_tree l in
  let* records := merge_all (S (list_sum (length ∘ run_records <$> l))) (scb_sorted scb) merge st in
  match last l with
  | None => Throw Overrun
  | Some run => Ret (with_runs (mk_run records (run_depth run + 1) None :: drop n (scb_runs scb)) scb)
  end.

(** The runs of the same depth at the head of the list. *)
Fixpoint same_depth (depth : Z) (l : list run_control) : nat :=
  match l with
  | run :: l => if run_depth run =? depth then S (same_depth depth l) else O
  | [] => O
  end.

Fixpoint merge_levels (fuel : nat) (scb : SortContext) : outcome SortContext :=
  match fuel, scb_runs scb with
  | S fuel, run :: l =>
      let depth := run_depth run in
      if depth =? MAX_MERGE_LEVEL then Ret scb else
      let count := S (same_depth depth l) in
      if (count <? RUN_GROUP)%nat then Ret scb else
      let* scb := merge_runs count scb in
      merge_levels fuel scb
  | _, _ => Throw Overrun
  end.

(** The last record put is made comparable. *)
Definition diddle_last (scb : SortContext) : outcome SortContext :=
  match length (records (scb_memory scb)) with
  | O => Ret scb
  | S s =>
      let* r := record_of (scb_memory scb) s in
      Ret (with_memory (with_records (<[s := mk_sr (sr_bckptr r) (diddle_key (scb_sorted scb) true (sort_record_key r))]> (records (scb_memory scb))) (scb_memory scb)) scb)
  end.

(** There is no room for a record more, with its pointer. *)
Definition full (scb : SortContext) : bool :=
  let n := Z.of_nat (length (records (scb_memory scb))) in
  let longs := Z.of_nat (scb_longs scb) in
  let size := Z.of_nat (scb_size_memory scb) in
  (size - n * longs <? longs) || (size - (n + 1) * longs <=? n + 2).

(** [SORT_put] and the caller, who moves [record] to where it tells. *)
Definition SORT_put (record : list Z) (scb : SortContext) : outcome SortContext :=
  let* scb := diddle_last scb in
  let* scb :=
    (if full scb then
       let* scb := put_run scb in
       let* scb := merge_levels (S (length (scb_runs scb))) scb in
       Ret (init scb)
     else Ret scb) in
  let m := scb_memory scb in
  let n := length (pointers m) in
  if (scb_size_memory scb - S (length (records m)) * scb_longs scb <=? S n)%nat then Throw Overrun else
  Ret (with_count (S (scb_records scb))
    (with_memory (mk_memory (pointers m ++ [Some (length (records m))]) (records m ++ [mk_sr (Some n) record]) (high m)) scb)).

Definition SORT_sort (scb : SortContext) : outcome SortContext :=
  let* scb := diddle_last scb in
  match scb_runs scb with
  | [] =>
      let* m := sort (scb_longs scb) (scb_memory scb) in
      Ret (with_sorted (with_next 0 (with_memory m scb)))
  | _ =>
      let* scb := put_run scb in
      let* t := merge_tree (scb_runs scb) in
      Ret (with_sorted (with_merge t scb))
  end.

(** The next pointer that is not null. *)
Fixpoint next_pointer (n i : nat) (m : memory) : outcome (option nat * nat * nat) :=
  match n with
  | O => Ret (None, O, i)
  | S n =>
      match pointers m !! i with
      | None => Throw Overrun
      | Some None => next_pointer n (S i) m
      | Some (Some s) => Ret (Some s, n, S i)
      end
  end.

Definition SORT_get (scb : SortContext) : outcome (option (list Z) * SortContext) :=
  match scb_merge scb with
  | None =>
      let* (p, n, i) := next_pointer (scb_records scb) (scb_next scb) (scb_memory scb) in
      let scb := with_count n (with_next i scb) in
      match p with
      | None => Ret (None, scb)
      | Some s =>
          let* r := record_of (scb_memory scb) s in
          let k := diddle_key (scb_sorted scb) false (sort_record_key r) in
          Ret (Some k, with_memory (with_records (<[s := mk_sr (sr_bckptr r) k]> (records (scb_memory scb))) (scb_memory scb)) scb)
      end
  | Some (merge, st) =>
      let* (p, st) := get_merge (merge_fuel st) (scb_sorted scb) (Some merge) Null st in
      let scb := mk_scb (scb_longs scb) (scb_size_memory scb) (scb_memory scb) (scb_records scb) (scb_next scb) (scb_runs scb) (Some (merge, st)) (scb_sorted scb) in
      Ret (diddle_key (scb_sorted scb) false <$> p, scb)
  end.

End Merge.

End Sort.
