(* ===== verification/SortQuick.v ===== *)
(** * Sorting in memory ([jrd/sort.cpp])

    [quick] and the pass behind it bring the pointers into the order of the
    records, within the memory and the stack of intervals. *)

From S2P Require Import Prelude.
From S2P Require Import QSort.
From S2P Require Import Sort.
From stdpp Require Import list sorting.
#[local] Open Scope Z_scope.

Module SortQuick.
Import Sort.

(** ** Comparing keys *)

(** The order of keys: that of their first longwords that differ. *)
Fixpoint lex (a b : list Z) : Z :=
  match a, b with
  | [], [] => 0
  | [], _ :: _ => -1
  | _ :: _, [] => 1
  | x :: a, y :: b => if x =? y then lex a b else if x <? y then -1 else 1
  end.

Lemma lex_flip a b : lex b a = - lex a b.
Proof.
  revert b. induction a as [|x a IH]; intros [|y b]; cbn; try done. rewrite (Z.eqb_sym y x). destruct (Z.eqb_spec x y); [apply IH|].
  destruct (Z.ltb_spec x y), (Z.ltb_spec y x); lia.
Qed.

Lemma lex_cases a b : lex a b = -1 \/ lex a b = 0 \/ lex a b = 1.
Proof.
  revert b. induction a as [|x a IH]; intros [|y b]; cbn; try lia. destruct (x =? y); [apply IH|]. destruct (x <? y); lia.
Qed.

Lemma lex_eq a b : lex a b = 0 -> a = b.
Proof.
  revert b. induction a as [|x a IH]; intros [|y b]; cbn; try done. destruct (Z.eqb_spec x y) as [->|]; [intros H; f_equal; auto|]. by destruct (x <? y).
Qed.

Lemma lex_refl a : lex a a = 0.
Proof. induction a as [|x a IH]; cbn; [done|]. by rewrite Z.eqb_refl. Qed.

Lemma lex_trans a b c : lex a b <= 0 -> lex b c <= 0 -> lex a c <= 0.
Proof.
  revert b c. induction a as [|x a IH]; intros [|y b] [|z c]; cbn; try lia.
  destruct (Z.eqb_spec x y) as [->|Hxy]; [destruct (Z.eqb_spec y z) as [->|Hyz]; [apply IH|done]|].
  destruct (Z.eqb_spec y z) as [->|Hyz]; [destruct (Z.eqb_spec x z); [done|]; intros H _; exact H|].
  destruct (Z.ltb_spec x y); [|lia]. destruct (Z.ltb_spec y z); [|lia]. destruct (Z.eqb_spec x z); [lia|]. destruct (Z.ltb_spec x z); lia.
Qed.

(** Where the first [tl] longwords of two keys differ. *)
Fixpoint first_difference (tl : nat) (a b : list Z) : outcome (option (Z * Z)) :=
  match tl, a, b with
  | O, _, _ => Ret None
  | S tl, x :: a, y :: b => if x =? y then first_difference tl a b else Ret (Some (x, y))
  | _, _, _ => Throw Overrun
  end.

Lemma differ_eq tl w m i j a b :
  key_at m i = Ret a -> key_at m j = Ret b -> differ tl w m i j = first_difference tl (drop w a) (drop w b).
Proof.
  intros Ha Hb. revert w. induction tl as [|tl IH]; intros w; [done|]. cbn [differ]. unfold word_at. rewrite Ha, Hb. cbn [obind].
  destruct (a !! w) as [x|] eqn:Ex; cbn [obind].
  - rewrite (drop_S a x w Ex). destruct (b !! w) as [y|] eqn:Ey; cbn [obind].
    + rewrite (drop_S b y w Ey). cbn [first_difference]. by rewrite IH.
    + rewrite (drop_ge b) by (by apply lookup_ge_None_1). done.
  - rewrite (drop_ge a) by (by apply lookup_ge_None_1). done.
Qed.

(** Two records are compared as a whole. *)
Lemma first_difference_lex a b :
  length a = length b ->
  exists d, first_difference (length a) a b = Ret d /\
    (lex a b < 0 <-> exists p q, d = Some (p, q) /\ p < q) /\ (0 < lex a b <-> exists p q, d = Some (p, q) /\ q < p).
Proof.
  revert b. induction a as [|x a IH]; intros [|y b] Hl; try done; cbn.
  { exists None. split; [done|]. split; (split; [lia|by intros (p & q & ? & _)]). }
  injection Hl as Hl. destruct (Z.eqb_spec x y) as [->|Hne]; [by apply IH|]. exists (Some (x, y)). split; [done|].
  assert (He : forall P : Z -> Z -> Prop, (exists p q, Some (x, y) = Some (p, q) /\ P p q) <-> P x y).
  { intros P. split; [by intros (p & q & [= <- <-] & ?)|by exists x, y]. }
  rewrite !He. destruct (Z.ltb_spec x y); lia.
Qed.

(** A record that the high key is above of. *)
Definition below_high (k : list Z) : Prop :=
  (forall x, x ∈ k -> 0 <= x <= ULONG_MAX) /\ exists w x, (w < 64)%nat /\ k !! w = Some x /\ x <> ULONG_MAX.

Lemma first_difference_high k h :
  (forall x, x ∈ k -> 0 <= x <= ULONG_MAX) -> (exists w x, (w < h)%nat /\ k !! w = Some x /\ x <> ULONG_MAX) ->
  exists p, first_difference (length k) (replicate h ULONG_MAX) k = Ret (Some (ULONG_MAX, p)) /\
    first_difference (length k) k (replicate h ULONG_MAX) = Ret (Some (p, ULONG_MAX)) /\ p < ULONG_MAX.
Proof.
  revert h. induction k as [|x k IH]; intros h Hr (w & y & Hw & Hy & Hne); [done|]. destruct h as [|h]; [lia|]. cbn [replicate first_difference length].
  assert (Hx : 0 <= x <= ULONG_MAX) by (apply Hr; left). rewrite (Z.eqb_sym x). destruct (Z.eqb_spec ULONG_MAX x) as [<-|Hd].
  - apply IH; [intros z Hz; apply Hr; by right|]. destruct w as [|w]; [cbn in Hy; congruence|]. exists w, y. split_and!; [lia|done|done].
  - exists x. split; [done|]. split; [done|lia].
Qed.

(** ** The memory during a sort *)

Section Keys.
Context (K : list (list Z)) (tl : nat).
Context (K_length : forall k, k ∈ K -> length k = S tl).
Context (K_below : forall k, k ∈ K -> below_high k).

Definition key_of (s : nat) : list Z := default [] (K !! s).

#[export] Instance compare_slots : QSort.Compare nat := fun s t => lex (key_of s) (key_of t).

#[export] Instance compare_slots_laws : QSort.CompareLaws (T := nat).
Proof.
  split; unfold QSort.compare, compare_slots.
  - intros s t. rewrite (lex_flip (key_of s) (key_of t)). lia.
  - intros s t u. apply lex_trans.
Qed.

Definition size : Z := Z.of_nat (length K).

(** The pointers are [ps], to all records, and the records point back. *)
Record holds (m : memory) (ps : list nat) : Prop := {
  holds_pointers : pointers m = Some <$> ps;
  holds_keys : sort_record_key <$> records m = K;
  holds_all : ps ≡ₚ seq 0 (length K);
  holds_high : high m = high_key;
  holds_back k s : ps !! k = Some s -> exists r, records m !! s = Some r /\ sr_bckptr r = Some k
}.

Lemma holds_length m ps : holds m ps -> length ps = length K.
Proof. intros H. rewrite (holds_all _ _ H). apply length_seq. Qed.

Lemma holds_slot m ps k s : holds m ps -> ps !! k = Some s -> exists r, records m !! s = Some r /\ sort_record_key r = key_of s /\ key_of s ∈ K.
Proof.
  intros H Hs. destruct (holds_back _ _ H k s Hs) as (r & Hr & _). exists r. split; [done|]. unfold key_of. rewrite <-(holds_keys _ _ H), list_lookup_fmap, Hr. cbn.
  split; [done|]. apply list_elem_of_fmap_2. by eapply list_elem_of_lookup_2.
Qed.

Lemma slot_at_ok m ps i s : holds m ps -> 0 <= i -> ps !! Z.to_nat i = Some s -> slot_at m i = Ret s.
Proof. intros H Hi Hs. unfold slot_at. rewrite (proj2 (Z.ltb_ge _ _)) by done. by rewrite (holds_pointers _ _ H), list_lookup_fmap, Hs. Qed.

Lemma key_at_ok m ps i s : holds m ps -> 0 <= i -> ps !! Z.to_nat i = Some s -> key_at m i = Ret (key_of s).
Proof.
  intros H Hi Hs. unfold key_at. pose proof (lookup_lt_Some _ _ _ Hs). rewrite (proj2 (Z.eqb_neq i (-1))) by lia.
  rewrite (holds_pointers _ _ H), length_fmap. rewrite (proj2 (Z.eqb_neq i _)) by lia. rewrite (slot_at_ok m ps i s) by done. cbn [obind].
  destruct (holds_slot m ps _ s H Hs) as (r & Hr & Hk & _). unfold record_of. by rewrite Hr, <-Hk.
Qed.

Lemma key_at_high m ps : holds m ps -> key_at m size = Ret high_key.
Proof.
  intros H. unfold key_at, size. rewrite (proj2 (Z.eqb_neq _ (-1))) by lia.
  by rewrite (holds_pointers _ _ H), length_fmap, (holds_length m ps H), Z.eqb_refl, (holds_high _ _ H).
Qed.

Lemma key_length m ps k s : holds m ps -> ps !! k = Some s -> length (key_of s) = S tl.
Proof. intros H Hs. destruct (holds_slot m ps k s H Hs) as (_ & _ & _ & Hk). by apply K_length. Qed.

Lemma word_at_ok m ps i s : holds m ps -> 0 <= i -> ps !! Z.to_nat i = Some s -> exists x k, word_at m i 0 = Ret x /\ key_of s = x :: k.
Proof.
  intros H Hi Hs. unfold word_at. rewrite (key_at_ok m ps i s) by done. pose proof (key_length m ps _ s H Hs) as Hl. cbn [obind].
  destruct (key_of s) as [|x k]; [done|]. by exists x, k.
Qed.

Lemma word_at_high m ps : holds m ps -> word_at m size 0 = Ret ULONG_MAX.
Proof. intros H. unfold word_at. by rewrite (key_at_high m ps H). Qed.

Lemma slot_exists m ps i : holds m ps -> 0 <= i < size -> exists s, ps !! Z.to_nat i = Some s.
Proof. intros H Hi. apply lookup_lt_is_Some_2. rewrite (holds_length m ps H). unfold size in Hi. lia. Qed.

(** ** [exchange] *)

Lemma exchange_ok m ps i j s t :
  holds m ps -> 0 <= i -> 0 <= j -> ps !! Z.to_nat i = Some s -> ps !! Z.to_nat j = Some t ->
  exists m', exchange i j m = Ret m' /\ holds m' (<[Z.to_nat j := s]> (<[Z.to_nat i := t]> ps)).
Proof.
  intros H Hi Hj Hs Ht. unfold exchange. rewrite (slot_at_ok m ps i s), (slot_at_ok m ps j t) by done. cbn [obind].
  destruct (holds_slot m ps _ s H Hs) as (r & Hr & Hkr & _). destruct (holds_slot m ps _ t H Ht) as (u & Hu & Hku & _).
  unfold set_bckptr, record_of. rewrite Hr. cbn [obind]. cbn [records with_records].
  assert (Hu' : exists v, <[s := mk_sr (Some (Z.to_nat j)) (sort_record_key r)]> (records m) !! t = Some v /\ sort_record_key v = sort_record_key u).
  { destruct (decide (s = t)) as [->|Hne]; [rewrite Hr in Hu; injection Hu as <-; eexists; split; [apply list_lookup_insert_eq; by eapply lookup_lt_Some|done]|].
    exists u. by rewrite list_lookup_insert_ne. }
  destruct Hu' as (v & -> & Hv). cbn [obind]. eexists. split; [reflexivity|].
  pose proof (lookup_lt_Some _ _ _ Hs). pose proof (lookup_lt_Some _ _ _ Ht). pose proof (lookup_lt_Some _ _ _ Hr). pose proof (lookup_lt_Some _ _ _ Hu).
  split; cbn.
  - by rewrite (holds_pointers _ _ H), !list_fmap_insert.
  - rewrite <-(holds_keys _ _ H), !list_fmap_insert. cbn. rewrite Hv.
    rewrite (list_insert_id _ t) by (rewrite list_lookup_insert; case_decide as E; [destruct E as [-> _]; rewrite Hr in Hu; by injection Hu as <-|by rewrite list_lookup_fmap, Hu]).
    apply list_insert_id. by rewrite list_lookup_fmap, Hr.
  - rewrite <-(holds_all _ _ H). apply (QSort.sh_perm (Z.min i j) (Z.max i j)), QSort.swap_shuffled; (done || lia).
  - apply (holds_high _ _ H).
  - intros k x Hx. rewrite (QSort.swap_lookup ps _ _ s t k Hs Ht) in Hx.
    assert (Hnd : NoDup ps) by (rewrite (holds_all _ _ H); apply NoDup_ListNoDup, seq_NoDup).
    unfold QSort.swap in Hx. destruct (decide (k = Z.to_nat i)) as [->|Hki].
    + assert (x = t) as -> by congruence. rewrite list_lookup_insert_eq by (by rewrite length_insert). by eexists.
    + destruct (decide (k = Z.to_nat j)) as [->|Hkj].
      * assert (x = s) as -> by congruence. assert (s <> t) by (intros ->; apply Hki; symmetry; by apply (NoDup_lookup ps _ _ t)).
        rewrite list_lookup_insert_ne, list_lookup_insert_eq by done. by eexists.
      * assert (x <> t) by (intros ->; apply Hkj; by apply (NoDup_lookup ps _ _ t)). assert (x <> s) by (intros ->; apply Hki; by apply (NoDup_lookup ps _ _ s)).
        rewrite !list_lookup_insert_ne by done. apply (holds_back _ _ H k x Hx).
Qed.

(** ** The scans *)

#[local] Abbreviation le := (QSort.le (C := compare_slots)).

Lemma le_lex s t : le s t <-> lex (key_of s) (key_of t) <= 0.
Proof. done. Qed.

(** The comparison of two records by [differ]. *)
Lemma differ_slots m ps i j s t :
  holds m ps -> 0 <= i -> 0 <= j -> ps !! Z.to_nat i = Some s -> ps !! Z.to_nat j = Some t ->
  exists d, differ (S tl) 0 m i j = Ret d /\
    (lex (key_of s) (key_of t) < 0 <-> exists p q, d = Some (p, q) /\ p < q) /\ (0 < lex (key_of s) (key_of t) <-> exists p q, d = Some (p, q) /\ q < p).
Proof.
  intros H Hi Hj Hs Ht. rewrite (differ_eq _ _ _ _ _ (key_of s) (key_of t)) by (by apply (key_at_ok m ps)). rewrite !drop_0.
  rewrite <-(key_length m ps _ s H Hs). apply first_difference_lex. by rewrite (key_length m ps _ s H Hs), (key_length m ps _ t H Ht).
Qed.

Lemma differ_high m ps r s :
  holds m ps -> 0 <= r -> ps !! Z.to_nat r = Some s ->
  exists p, differ (S tl) 0 m size r = Ret (Some (ULONG_MAX, p)) /\ differ (S tl) 0 m r size = Ret (Some (p, ULONG_MAX)) /\ p < ULONG_MAX.
Proof.
  intros H Hr Hs. rewrite !(differ_eq _ _ _ size r high_key (key_of s)), !(differ_eq _ _ _ r size (key_of s) high_key) by (by (apply (key_at_high m ps) || apply (key_at_ok m ps))).
  rewrite !drop_0, <-(key_length m ps _ s H Hs). destruct (holds_slot m ps _ s H Hs) as (_ & _ & _ & Hk). destruct (K_below _ Hk) as [B1 B2].
  by apply first_difference_high.
Qed.

(** Where a scan upwards may stop: at the high key or a greater record. *)
Definition above (ps : list nat) (key : nat) (i : Z) : Prop := i = size \/ forall s, ps !! Z.to_nat i = Some s -> ~ le s key.

Lemma skip_less_ok fuel m ps r key x k i :
  holds m ps -> 0 <= r -> ps !! Z.to_nat r = Some key -> key_of key = x :: k -> 0 <= i <= size -> size - i < Z.of_nat fuel ->
  exists i', skip_less fuel x m i = Ret i' /\ i <= i' <= size /\ QSort.all_at (fun s => le s key) i i' ps /\
    exists y, word_at m i' 0 = Ret y /\ x <= y.
Proof.
  intros H Hr Hkey Ek. revert i. induction fuel as [|fuel IH]; intros i Hi Hf; [lia|]. cbn [skip_less].
  destruct (decide (i = size)) as [->|Hne].
  - rewrite (word_at_high m ps H). cbn [obind]. destruct (holds_slot m ps _ key H Hkey) as (_ & _ & _ & Hk). destruct (K_below _ Hk) as [Hrng _].
    assert (0 <= x <= ULONG_MAX) by (apply Hrng; rewrite Ek; left). rewrite (proj2 (Z.ltb_ge _ _)) by lia. exists size. split; [done|]. split; [lia|].
    split; [intros q z Hq; lia|]. exists ULONG_MAX. split; [by apply (word_at_high m ps)|lia].
  - destruct (slot_exists m ps i H ltac:(lia)) as [s Hs]. destruct (word_at_ok m ps i s H ltac:(lia) Hs) as (y & l & Ey & El). rewrite Ey. cbn [obind].
    destruct (Z.ltb_spec y x) as [Hlt|Hge].
    + destruct (IH (i + 1)) as (i' & E & H1 & H2 & H3); [lia|lia|]. exists i'. split; [done|]. split; [lia|]. split; [|done].
      intros q z Hq Hz. destruct (decide (q = i)) as [->|]; [|by apply (H2 q); [lia|] ]. assert (z = s) as -> by congruence.
      apply le_lex. rewrite Ek, El. cbn. rewrite (proj2 (Z.eqb_neq _ _)), (proj2 (Z.ltb_lt _ _)) by lia. lia.
    + exists i. split; [done|]. split; [lia|]. split; [intros q z Hq; lia|by exists y].
Qed.

Lemma skip_up_ok fuel m ps r key i :
  holds m ps -> 0 <= r -> ps !! Z.to_nat r = Some key -> 0 <= i <= size -> size - i < Z.of_nat fuel ->
  exists i', skip_up fuel (S tl) m r i = Ret i' /\ i <= i' <= size /\ QSort.all_at (fun s => le s key) i i' ps /\ above ps key i'.
Proof.
  intros H Hr Hkey. revert i. induction fuel as [|fuel IH]; intros i Hi Hf; [lia|]. cbn [skip_up].
  destruct (decide (i = size)) as [->|Hne].
  - destruct (differ_high m ps r key H Hr Hkey) as (p & -> & _ & Hp). cbn [obind]. rewrite (proj2 (Z.ltb_lt _ _)) by done.
    exists size. split; [done|]. split; [lia|]. split; [intros q z Hq; lia|by left].
  - destruct (slot_exists m ps i H ltac:(lia)) as [s Hs]. destruct (differ_slots m ps i r s key H ltac:(lia) Hr Hs Hkey) as (d & -> & _ & Hd). cbn [obind].
    assert (Hgo : le s key -> exists i', skip_up fuel (S tl) m r (i + 1) = Ret i' /\ i <= i' <= size /\ QSort.all_at (fun s => le s key) i i' ps /\ above ps key i').
    { intros Hle. destruct (IH (i + 1)) as (i' & E & H1 & H2 & H3); [lia|lia|]. exists i'. split; [done|]. split; [lia|]. split; [|done].
      intros q z Hq Hz. destruct (decide (q = i)) as [->|]; [by assert (z = s) as -> by congruence|by apply (H2 q); [lia|] ]. }
    destruct d as [[p q]|].
    + destruct (Z.ltb_spec q p) as [Hlt|Hge].
      * exists i. split; [done|]. split; [lia|]. split; [intros c z Hc; lia|right]. intros z Hz Hle. assert (z = s) as -> by congruence.
        rewrite le_lex in Hle. assert (0 < lex (key_of s) (key_of key)) by (apply Hd; by exists p, q). lia.
      * apply Hgo, le_lex. destruct (Z.le_gt_cases (lex (key_of s) (key_of key)) 0) as [|Hgt]; [done|]. apply Z.lt_gt, Z.gt_lt, Hd in Hgt as (? & ? & [= <- <-] & ?). lia.
    + apply Hgo, le_lex. destruct (Z.le_gt_cases (lex (key_of s) (key_of key)) 0) as [|Hgt]; [done|]. apply Z.lt_gt, Z.gt_lt, Hd in Hgt as (? & ? & [=] & ?).
Qed.

Lemma scan_greater_ok fuel m ps r key x k i :
  holds m ps -> 0 <= r -> ps !! Z.to_nat r = Some key -> key_of key = x :: k -> 0 <= i <= size -> size - i < Z.of_nat fuel ->
  exists i', scan_up fuel (S tl) x m r i = Ret i' /\ i <= i' <= size /\ QSort.all_at (fun s => le s key) i i' ps /\ above ps key i'.
Proof.
  intros H Hr Hkey Ek Hi Hf. unfold scan_up. destruct (skip_less_ok fuel m ps r key x k i) as (i1 & -> & H1 & H2 & y & Ey & Hy); [done..|]. cbn [obind]. rewrite Ey. cbn [obind].
  destruct (Z.eqb_spec y x) as [->|Hne].
  - destruct (skip_up_ok fuel m ps r key i1) as (i2 & -> & H3 & H4 & H5); [done|done|done|lia|lia|]. exists i2. split; [done|]. split; [lia|]. split; [|done].
    apply (QSort.all_at_split _ _ i1); [lia|done|done].
  - exists i1. split; [done|]. split; [done|]. split; [done|]. destruct (decide (i1 = size)) as [->|Hns]; [by left|right]. intros s Hs Hle.
    destruct (word_at_ok m ps i1 s H ltac:(lia) Hs) as (z & l & Ez & El). assert (z = y) as -> by congruence. rewrite le_lex in Hle. rewrite Ek, El in Hle. cbn in Hle.
    rewrite (proj2 (Z.eqb_neq _ _)), (proj2 (Z.ltb_ge _ _)) in Hle by lia. lia.
Qed.

(** Downwards: at the record itself or a smaller one. *)
Definition below (ps : list nat) (key : nat) (r j : Z) : Prop := j = r \/ forall s, ps !! Z.to_nat j = Some s -> ~ le key s.

Lemma skip_greater_ok fuel m ps r key x k j :
  holds m ps -> 0 <= r -> ps !! Z.to_nat r = Some key -> key_of key = x :: k -> r <= j < size -> j - r < Z.of_nat fuel ->
  exists j', skip_greater fuel x m j = Ret j' /\ r <= j' <= j /\ QSort.all_at (le key) (j' + 1) (j + 1) ps /\
    exists y, word_at m j' 0 = Ret y /\ y <= x.
Proof.
  intros H Hr Hkey Ek. revert j. induction fuel as [|fuel IH]; intros j Hj Hf; [lia|]. cbn [skip_greater].
  destruct (slot_exists m ps j H ltac:(lia)) as [s Hs]. destruct (word_at_ok m ps j s H ltac:(lia) Hs) as (y & l & Ey & El). rewrite Ey. cbn [obind].
  destruct (Z.ltb_spec x y) as [Hlt|Hge].
  - assert (j <> r) by (intros ->; assert (s = key) as -> by congruence; rewrite Ek in El; injection El as -> _; lia).
    destruct (IH (j - 1)) as (j' & E & H1 & H2 & H3); [lia|lia|]. exists j'. split; [done|]. split; [lia|]. split; [|done].
    intros q z Hq Hz. destruct (decide (q = j)) as [->|]; [|by apply (H2 q); [lia|] ]. assert (z = s) as -> by congruence.
    apply le_lex. rewrite Ek, El. cbn. rewrite (proj2 (Z.eqb_neq _ _)), (proj2 (Z.ltb_lt _ _)) by lia. lia.
  - exists j. split; [done|]. split; [lia|]. split; [intros q z Hq; lia|by exists y].
Qed.

Lemma skip_down_ok fuel m ps r key j :
  holds m ps -> 0 <= r -> ps !! Z.to_nat r = Some key -> r <= j < size -> j - r < Z.of_nat fuel ->
  exists j', skip_down fuel (S tl) m r j = Ret j' /\ r <= j' <= j /\ QSort.all_at (le key) (j' + 1) (j + 1) ps /\ below ps key r j'.
Proof.
  intros H Hr Hkey. revert j. induction fuel as [|fuel IH]; intros j Hj Hf; [lia|]. cbn [skip_down]. destruct (Z.eqb_spec j r) as [->|Hne].
  { exists r. split; [done|]. split; [lia|]. split; [intros q z Hq; lia|by left]. }
  destruct (slot_exists m ps j H ltac:(lia)) as [s Hs]. destruct (differ_slots m ps j r s key H ltac:(lia) Hr Hs Hkey) as (d & -> & Hd & _). cbn [obind].
  assert (Hgo : le key s -> exists j', skip_down fuel (S tl) m r (j - 1) = Ret j' /\ r <= j' <= j /\ QSort.all_at (le key) (j' + 1) (j + 1) ps /\ below ps key r j').
  { intros Hle. destruct (IH (j - 1)) as (j' & E & H1 & H2 & H3); [lia|lia|]. exists j'. split; [done|]. split; [lia|]. split; [|done].
    intros q z Hq Hz. destruct (decide (q = j)) as [->|]; [by assert (z = s) as -> by congruence|by apply (H2 q); [lia|] ]. }
  assert (Hle : ~ lex (key_of s) (key_of key) < 0 -> le key s) by (intros Hn; apply le_lex; rewrite lex_flip; lia).
  destruct d as [[p q]|].
  - destruct (Z.ltb_spec p q) as [Hlt|Hge].
    + exists j. split; [done|]. split; [lia|]. split; [intros c z Hc; lia|right]. intros z Hz Hle'. assert (z = s) as -> by congruence.
      rewrite le_lex in Hle'. rewrite lex_flip in Hle'. assert (lex (key_of s) (key_of key) < 0) by (apply Hd; by exists p, q). lia.
    + apply Hgo, Hle. intros Hlt. apply Hd in Hlt as (? & ? & [= <- <-] & ?). lia.
  - apply Hgo, Hle. intros Hlt. by apply Hd in Hlt as (? & ? & [=] & ?).
Qed.

Lemma scan_smaller_ok fuel m ps r key x k j :
  holds m ps -> 0 <= r -> ps !! Z.to_nat r = Some key -> key_of key = x :: k -> r <= j < size -> j - r < Z.of_nat fuel ->
  exists j', scan_down fuel (S tl) x m r j = Ret j' /\ r <= j' <= j /\ QSort.all_at (le key) (j' + 1) (j + 1) ps /\ below ps key r j'.
Proof.
  intros H Hr Hkey Ek Hj Hf. unfold scan_down. destruct (skip_greater_ok fuel m ps r key x k j) as (j1 & -> & H1 & H2 & y & Ey & Hy); [done..|]. cbn [obind]. rewrite Ey. cbn [obind].
  destruct (Z.eqb_spec y x) as [->|Hne].
  - destruct (skip_down_ok fuel m ps r key j1) as (j2 & -> & H3 & H4 & H5); [done|done|done|lia|lia|]. exists j2. split; [done|]. split; [lia|]. split; [|done].
    apply (QSort.all_at_split _ _ (j1 + 1)); [lia|done|done].
  - exists j1. split; [done|]. split; [done|]. split; [done|]. right. intros s Hs Hle.
    destruct (word_at_ok m ps j1 s H ltac:(lia) Hs) as (z & l & Ez & El). assert (z = y) as -> by congruence. rewrite le_lex in Hle. rewrite Ek, El in Hle. cbn in Hle.
    rewrite (proj2 (Z.eqb_neq _ _)), (proj2 (Z.ltb_ge _ _)) in Hle by lia. lia.
Qed.

(** ** Splitting an interval *)

Lemma holds_shuffled a b m ps ps' : holds m ps -> QSort.shuffled a b ps ps' -> length ps' = length K.
Proof. intros H Hs. rewrite <-(holds_length m ps H). by apply (QSort.shuffled_length a b). Qed.

Lemma converge_ok fuel scan m ps r key x k u i j :
  holds m ps -> 0 <= r -> ps !! Z.to_nat r = Some key -> key_of key = x :: k -> u < size -> size < Z.of_nat scan ->
  r + 1 <= i <= j + 1 -> r <= j <= u -> j - i + 1 < Z.of_nat fuel ->
  QSort.all_at (fun s => le s key) (r + 1) i ps -> QSort.all_at (le key) (j + 1) (u + 1) ps ->
  exists j' m' ps', converge fuel scan (S tl) x r i j m = Ret (j', m') /\ holds m' ps' /\ r <= j' <= u /\ QSort.shuffled (r + 1) u ps ps' /\
    QSort.all_at (fun s => le s key) (r + 1) (j' + 1) ps' /\ QSort.all_at (le key) (j' + 1) (u + 1) ps'.
Proof.
  revert m ps i j. induction fuel as [|fuel IH]; intros m ps i j H Hr Hkey Ek Hu Hscan Hi Hj Hf Hlow Hhigh; cbn [converge].
  { lia. }
  destruct (scan_greater_ok scan m ps r key x k i) as (i1 & -> & Hi1 & Hup & Hs1); [done|done|done|done|lia|lia|]. cbn [obind].
  destruct (scan_smaller_ok scan m ps r key x k j) as (j1 & -> & Hj1 & Hdn & Hs2); [done|done|done|done|lia|lia|]. cbn [obind].
  assert (Hlow1 : QSort.all_at (fun s => le s key) (r + 1) i1 ps) by (apply (QSort.all_at_split _ _ i); [lia|done..]).
  assert (Hhigh1 : QSort.all_at (le key) (j1 + 1) (u + 1) ps) by (apply (QSort.all_at_split _ _ (j + 1)); [lia|done..]).
  destruct (Z.leb_spec j1 i1) as [Hij|Hij].
  - exists j1, m, ps. split; [done|]. split; [done|]. split; [lia|]. split; [apply QSort.shuffled_refl|]. split; [|done].
    destruct (decide (j1 < i1)); [intros q s Hq; apply (Hlow1 q s); lia|]. assert (j1 = i1) as -> by lia.
    apply (QSort.all_at_split _ _ i1); [lia|done|]. intros q s Hq Hs. assert (q = i1) as -> by lia.
    destruct Hs2 as [->|Hnle]; [lia|]. destruct (QSort.le_total s key) as [|Hk']; [done|]. by destruct (Hnle s Hs).
  - destruct (slot_exists m ps i1 H ltac:(lia)) as [s Hs]. destruct (slot_exists m ps j1 H ltac:(lia)) as [t Ht].
    destruct (exchange_ok m ps i1 j1 s t H ltac:(lia) ltac:(lia) Hs Ht) as (m1 & -> & H1). cbn [obind].
    destruct Hs1 as [|Hs']; [lia|]. specialize (Hs' s Hs). destruct Hs2 as [|Ht']; [lia|]. specialize (Ht' t Ht).
    assert (Htk : le t key) by (by destruct (QSort.le_total t key)). assert (Hsk : le key s) by (by destruct (QSort.le_total s key)).
    pose proof (QSort.swap_shuffled ps (r + 1) u i1 j1 s t ltac:(lia) ltac:(lia) ltac:(lia) Hs Ht) as Hsh.
    set (ps1 := <[Z.to_nat j1:=s]> (<[Z.to_nat i1:=t]> ps)) in *.
    assert (Hat : forall q, q <> Z.to_nat i1 -> q <> Z.to_nat j1 -> ps1 !! q = ps !! q).
    { intros q E1 E2. unfold ps1. by rewrite !list_lookup_insert_ne by done. }
    pose proof (lookup_lt_Some _ _ _ Hs). pose proof (lookup_lt_Some _ _ _ Ht).
    assert (Hati : ps1 !! Z.to_nat i1 = Some t) by (unfold ps1; rewrite list_lookup_insert_ne by lia; by apply list_lookup_insert_eq).
    assert (Hatj : ps1 !! Z.to_nat j1 = Some s) by (unfold ps1; apply list_lookup_insert_eq; by rewrite length_insert).
    destruct (IH m1 ps1 (i1 + 1) (j1 - 1)) as (j' & m' & ps' & E & H' & Hj' & Hsh' & Hlo' & Hhi').
    + done.
    + done.
    + by rewrite Hat by lia.
    + done.
    + done.
    + done.
    + lia.
    + lia.
    + lia.
    + intros q z Hq Hz. destruct (decide (q = i1)) as [->|]; [congruence|]. apply (Hlow1 q z); [lia|]. by rewrite <-Hat by lia.
    + intros q z Hq Hz. destruct (decide (q = j1)) as [->|]; [congruence|]. apply (Hhigh1 q z); [lia|]. by rewrite <-Hat by lia.
    + exists j', m', ps'. split; [done|]. split; [done|]. split; [done|]. split; [|done]. by apply (QSort.shuffled_trans _ _ _ ps1); [lia|..].
Qed.

Lemma partition_ok scan m ps r u :
  holds m ps -> 0 <= r -> r + 2 <= u -> u < size -> size + 1 < Z.of_nat scan ->
  exists j key m' ps', partition scan (S tl) r u m = Ret (j, m') /\ holds m' ps' /\ r <= j <= u /\ QSort.shuffled r u ps ps' /\
    ps' !! Z.to_nat j = Some key /\ QSort.all_at (fun s => le s key) r j ps' /\ QSort.all_at (le key) (j + 1) (u + 1) ps'.
Proof.
  intros H Hr Hru Hu Hscan. unfold partition. set (i := r + (u - r) / 2). assert (Hi : r <= i <= u) by (pose proof (Z.div_le_upper_bound (u - r) 2 (u - r)); pose proof (Z.div_pos (u - r) 2); lia).
  destruct (slot_exists m ps r H ltac:(lia)) as [s Hs]. destruct (slot_exists m ps i H ltac:(lia)) as [key Hkey].
  destruct (exchange_ok m ps r i s key H ltac:(lia) ltac:(lia) Hs Hkey) as (m1 & -> & H1). cbn [obind].
  pose proof (QSort.swap_shuffled ps r u r i s key Hr ltac:(lia) ltac:(lia) Hs Hkey) as Hsh1. set (ps1 := <[Z.to_nat i:=s]> (<[Z.to_nat r:=key]> ps)) in *.
  assert (Hkey1 : ps1 !! Z.to_nat r = Some key).
  { unfold ps1. rewrite (QSort.swap_lookup ps _ _ s key) by done. unfold QSort.swap. by rewrite decide_True. }
  destruct (word_at_ok m1 ps1 r key H1 Hr Hkey1) as (x & k & Ex & Ek). rewrite Ex. cbn [obind].
  destruct (converge_ok scan scan m1 ps1 r key x k u (r + 1) u) as (j & m2 & ps2 & -> & H2 & Hj & Hsh & Hlo & Hhi);
    [done|done|done|done|lia|lia|lia|lia|lia|intros q z Hq; lia|intros q z Hq; lia|]. cbn [obind].
  assert (Hkey2 : ps2 !! Z.to_nat r = Some key) by (by rewrite (QSort.sh_out _ _ _ _ Hsh) by lia).
  destruct (slot_exists m2 ps2 j H2 ltac:(lia)) as [t Ht]. destruct (exchange_ok m2 ps2 r j key t H2 Hr ltac:(lia) Hkey2 Ht) as (m3 & -> & H3). cbn [obind].
  pose proof (lookup_lt_Some _ _ _ Hkey2). pose proof (lookup_lt_Some _ _ _ Ht).
  pose proof (QSort.swap_shuffled ps2 r u r j key t Hr ltac:(lia) ltac:(lia) Hkey2 Ht) as Hsh3.
  exists j, key, m3, (<[Z.to_nat j:=key]> (<[Z.to_nat r:=t]> ps2)). split; [done|]. split; [done|]. split; [lia|]. split_and!.
  - apply (QSort.shuffled_trans _ _ _ ps1); [done..|]. apply (QSort.shuffled_trans _ _ _ ps2); [done| |done]. by apply (QSort.shuffled_wider (r + 1) u); [lia..|].
  - apply list_lookup_insert_eq. by rewrite length_insert.
  - intros q z Hq Hz. rewrite list_lookup_insert_ne in Hz by lia. destruct (decide (q = r)) as [->|Hne].
    + rewrite list_lookup_insert_eq in Hz by done. injection Hz as <-. apply (Hlo j t); [lia|done].
    + rewrite list_lookup_insert_ne in Hz by lia. apply (Hlo q z); [lia|done].
  - intros q z Hq Hz. rewrite !list_lookup_insert_ne in Hz by lia. apply (Hhi q z); [lia|done].
Qed.

(** ** The stack of intervals *)

(** An interval on top of the stack is dealt with before what is below. *)
Definition sorts_interval (scan : nat) (a b : Z) : Prop :=
  forall m ps stack fuel,
    holds m ps -> 0 <= a -> a <= b + 1 -> b < size -> (b - a + 1) * 2 ^ Z.of_nat (length stack) < 2147483648 -> 2 * (b - a + 1) + 1 <= Z.of_nat fuel ->
    exists m' ps' fuel',
      quick_loop fuel scan (S tl) ((a, b) :: stack) m = quick_loop fuel' scan (S tl) stack m' /\
      Z.of_nat fuel <= Z.of_nat fuel' + 2 * (b - a + 1) + 1 /\ holds m' ps' /\ QSort.shuffled a b ps ps' /\ QSort.almost a b ps'.

Lemma small_interval scan a b : b - a < 2 -> sorts_interval scan a b.
Proof.
  intros Hab m ps stack fuel H Ha Hab1 Hb _ Hf. destruct fuel as [|fuel]; [lia|]. cbn [quick_loop]. rewrite (proj2 (Z.ltb_lt _ _)) by lia.
  exists m, ps, fuel. split; [done|]. split; [lia|]. split; [done|]. split; [apply QSort.shuffled_refl|]. apply QSort.almost_small. lia.
Qed.

(** There is room for an interval that is large enough to be split. *)
Lemma stack_interval_ok l u stack : 2 * 2 ^ Z.of_nat (length stack) <= 2147483648 -> stack_interval l u stack = Ret ((l, u) :: stack).
Proof.
  intros H. unfold stack_interval. rewrite (proj2 (Nat.ltb_lt _ _)); [done|]. unfold stack_size.
  destruct (Nat.lt_ge_cases (length stack) 50) as [|Hge]; [done|exfalso]. pose proof (Z.pow_le_mono_r 2 50 (Z.of_nat (length stack)) eq_refl ltac:(lia)) as Hp.
  assert (2147483648 < 2 ^ 50) by reflexivity. lia.
Qed.

Lemma two_intervals scan a b c d m ps stack fuel :
  sorts_interval scan a b -> sorts_interval scan c d -> holds m ps ->
  0 <= a -> 0 <= c -> a <= b + 1 -> c <= d + 1 -> b < c \/ d < a -> b < size -> d < size ->
  4 * 2 ^ Z.of_nat (length stack) <= 2147483648 ->
  (d - c + 1) * 2 ^ Z.of_nat (length stack) < 2147483648 -> (b - a + 1) * 2 ^ Z.of_nat (S (length stack)) < 2147483648 ->
  2 * (b - a + 1) + 2 * (d - c + 1) + 2 <= Z.of_nat fuel ->
  exists m' ps' fuel',
    (let* stack := (let* stack := stack_interval c d stack in stack_interval a b stack) in quick_loop fuel scan (S tl) stack m)
    = quick_loop fuel' scan (S tl) stack m' /\
    Z.of_nat fuel <= Z.of_nat fuel' + 2 * (b - a + 1) + 2 * (d - c + 1) + 2 /\ holds m' ps' /\
    exists ps1, QSort.shuffled a b ps ps1 /\ QSort.shuffled c d ps1 ps' /\ QSort.almost a b ps' /\ QSort.almost c d ps'.
Proof.
  intros Hp1 Hp2 H Ha Hc Hab Hcd Hap Hbl Hdl Hroom Hpow Hpow' Hf. pose proof (Z.pow_pos_nonneg 2 (Z.of_nat (length stack)) ltac:(lia) ltac:(lia)) as Hpos.
  rewrite (stack_interval_ok c d) by lia. cbn [obind]. rewrite (stack_interval_ok a b) by (cbn [length]; rewrite Nat2Z.inj_succ, Z.pow_succ_r by lia; lia). cbn [obind].
  destruct (Hp1 m ps ((c, d) :: stack) fuel) as (m1 & ps1 & fuel1 & -> & Hf1 & H1 & Hsh1 & Hal1); [done..|lia|].
  destruct (Hp2 m1 ps1 stack fuel1) as (m' & ps' & fuel' & -> & Hf2 & H2 & Hsh2 & Hal2); [done..|lia|].
  exists m', ps', fuel'. split; [done|]. split; [lia|]. split; [done|]. exists ps1. split; [done|]. split; [done|]. split; [|done].
  apply (QSort.almost_same a b ps1); [|done]. intros q Hq. apply (QSort.sh_out _ _ _ _ Hsh2); lia.
Qed.

(** The record between two intervals that are in order. *)
Lemma join_intervals a b j key ps1 ps2 ps' :
  0 <= a -> a <= j <= b -> ps1 !! Z.to_nat j = Some key ->
  QSort.all_at (fun s => le s key) a j ps1 -> QSort.all_at (le key) (j + 1) (b + 1) ps1 ->
  QSort.shuffled a (j - 1) ps1 ps2 /\ QSort.shuffled (j + 1) b ps2 ps' \/ QSort.shuffled (j + 1) b ps1 ps2 /\ QSort.shuffled a (j - 1) ps2 ps' ->
  QSort.almost a (j - 1) ps' -> QSort.almost (j + 1) b ps' -> QSort.shuffled a b ps1 ps' /\ QSort.almost a b ps'.
Proof.
  intros Ha Hj Hkey Hlo Hhi Hshs Hal1 Hal2.
  assert (Hkey' : ps' !! Z.to_nat j = Some key).
  { destruct Hshs as [[S1 S2]|[S1 S2]]; by rewrite (QSort.sh_out _ _ _ _ S2), (QSort.sh_out _ _ _ _ S1) by lia. }
  assert (Hlo' : QSort.all_at (fun s => le s key) a j ps').
  { replace j with (j - 1 + 1) by lia. destruct Hshs as [[S1 S2]|[S1 S2]].
    - apply (QSort.shuffled_apart _ (j + 1) b _ _ ps2); [done|lia|lia|]. apply (QSort.shuffled_all _ _ _ ps1); [done|]. by replace (j - 1 + 1) with j by lia.
    - apply (QSort.shuffled_all _ _ _ ps2); [done|]. apply (QSort.shuffled_apart _ (j + 1) b _ _ ps1); [done|lia|lia|]. by replace (j - 1 + 1) with j by lia. }
  assert (Hhi' : QSort.all_at (le key) (j + 1) (b + 1) ps').
  { destruct Hshs as [[S1 S2]|[S1 S2]].
    - apply (QSort.shuffled_all _ _ _ ps2); [done|]. apply (QSort.shuffled_apart _ a (j - 1) _ _ ps1); [done|lia|lia|done].
    - apply (QSort.shuffled_apart _ a (j - 1) _ _ ps2); [done|lia|lia|]. by apply (QSort.shuffled_all _ _ _ ps1). }
  split.
  - destruct Hshs as [[S1 S2]|[S1 S2]]; (apply (QSort.shuffled_trans _ _ _ ps2); [done|..]); (eapply QSort.shuffled_wider; [done| | |eassumption]; lia).
  - intros p q x y Hp Hpq Hq Hx Hy. destruct (Z.lt_trichotomy q j) as [Hqj|[->|Hqj]].
    + apply (Hal1 p q); [lia..|done|done].
    + rewrite Hkey' in Hy. injection Hy as <-. apply (Hlo' p x); [lia|done].
    + destruct (Z.lt_trichotomy p j) as [Hpj|[->|Hpj]].
      * apply (QSort.compare_trans _ key); [apply (Hlo' p x); [lia|done]|apply (Hhi' q y); [lia|done] ].
      * rewrite Hkey' in Hx. injection Hx as <-. apply (Hhi' q y); [lia|done].
      * apply (Hal2 p q); [lia..|done|done].
Qed.

Lemma interval_ok scan n : size + 1 < Z.of_nat scan -> forall a b, b - a <= Z.of_nat n -> sorts_interval scan a b.
Proof.
  intros Hscan. induction n as [|n IH]; intros a b Hn; [apply small_interval; lia|].
  destruct (Z.lt_ge_cases (b - a) 2) as [|Hbig]; [by apply small_interval|].
  intros m ps stack fuel H Ha Hab Hb Hpow Hf. destruct fuel as [|fuel]; [lia|]. cbn [quick_loop]. rewrite (proj2 (Z.ltb_ge _ _)) by lia.
  destruct (partition_ok scan m ps a b H Ha ltac:(lia) Hb Hscan) as (j & key & m1 & ps1 & -> & H1 & Hj & Hsh & Hkey & Hlo & Hhi). cbn [obind].
  pose proof (Z.pow_pos_nonneg 2 (Z.of_nat (length stack)) ltac:(lia) ltac:(lia)) as Hpos.
  assert (Hp1 : sorts_interval scan a (j - 1)) by (apply IH; lia). assert (Hp2 : sorts_interval scan (j + 1) b) by (apply IH; lia).
  assert (Hroom : 4 * 2 ^ Z.of_nat (length stack) <= 2147483648).
  { destruct (Z.le_gt_cases (4 * 2 ^ Z.of_nat (length stack)) 2147483648) as [|Hgt]; [done|exfalso]. assert (3 * 2 ^ Z.of_nat (length stack) < 2147483648) by nia.
    assert (2 ^ 29 < 2 ^ Z.of_nat (length stack)) as Hexp by (change (2 ^ 29) with 536870912; lia). apply Z.pow_lt_mono_r_iff in Hexp; [|lia..].
    pose proof (Z.pow_le_mono_r 2 30 (Z.of_nat (length stack)) eq_refl ltac:(lia)) as Hp. change (2 ^ 30) with 1073741824 in Hp. lia. }
  assert (Hsucc : 2 ^ Z.of_nat (S (length stack)) = 2 * 2 ^ Z.of_nat (length stack)) by (rewrite Nat2Z.inj_succ, Z.pow_succ_r; lia).
  destruct (Z.ltb_spec (b - j + 1) (j - a)) as [Hs|Hs].
  - destruct (two_intervals scan (j + 1) b a (j - 1) m1 ps1 stack fuel) as (m' & ps' & fuel' & E & Hfu & H' & ps2 & S1 & S2 & A1 & A2);
      [done|done|done|lia|lia|lia|lia|lia|lia|lia|done|nia|rewrite Hsucc; nia|lia|].
    destruct (join_intervals a b j key ps1 ps2 ps') as [J1 J2]; [done|done|done|done|done|by right|done|done|].
    exists m', ps', fuel'. split; [exact E|]. split; [lia|]. split; [done|]. split; [by apply (QSort.shuffled_trans _ _ _ ps1)|done].
  - destruct (two_intervals scan a (j - 1) (j + 1) b m1 ps1 stack fuel) as (m' & ps' & fuel' & E & Hfu & H' & ps2 & S1 & S2 & A1 & A2);
      [done|done|done|lia|lia|lia|lia|lia|lia|lia|done|nia|rewrite Hsucc; nia|lia|].
    destruct (join_intervals a b j key ps1 ps2 ps') as [J1 J2]; [done|done|done|done|done|by left|done|done|].
    exists m', ps', fuel'. split; [exact E|]. split; [lia|]. split; [done|]. split; [by apply (QSort.shuffled_trans _ _ _ ps1)|done].
Qed.

Lemma quick_ok m ps :
  holds m ps -> size < 2147483648 ->
  exists m' ps', quick (length K) m (S (S tl)) = Ret m' /\ holds m' ps' /\ QSort.almost 0 (size - 1) ps'.
Proof.
  intros H Hsize. unfold quick. fold size. unfold size in *.
  destruct (interval_ok (S (S (length K))) (length K) ltac:(unfold size; lia) 0 (Z.of_nat (length K) - 1) ltac:(lia) m ps [] (2 * length K + 1)%nat)
    as (m' & ps' & fuel' & E & _ & H' & _ & Hal); [done|lia|lia|unfold size; lia|cbn [length]; lia|lia|].
  exists m', ps'. split; [|done]. cbn [Nat.sub] in *. rewrite E. by destruct fuel'.
Qed.

(** ** The pass behind it *)

Lemma straighten_ok l : forall done x m,
  holds m (done ++ x :: l) ->
  exists m', straighten (S (length l)) (S tl) (Z.of_nat (length done)) m = Ret m' /\ holds m' (done ++ QSort.flip_pass x l).
Proof.
  assert (Hat : forall (d : list nat) x l, (d ++ x :: l) !! Z.to_nat (Z.of_nat (length d)) = Some x) by (intros d x l'; rewrite Nat2Z.id; by apply list_lookup_middle).
  induction l as [|y l IH]; intros d x m H; cbn [straighten QSort.flip_pass].
  - destruct (word_at_ok m _ _ x H (Zle_0_nat _) (Hat d x [])) as (w & k & Ew & Ek). rewrite Ew. cbn [obind].
    assert (Hi : Z.of_nat (length d) + 1 = size) by (unfold size; rewrite <-(holds_length _ _ H), length_app; cbn; lia). rewrite Hi, (word_at_high m _ H). cbn [obind].
    destruct (differ_high m _ _ x H (Zle_0_nat _) (Hat d x [])) as (p & _ & E & Hp). rewrite E. cbn [obind]. rewrite (proj2 (Z.ltb_ge ULONG_MAX p)) by lia.
    exists m. split; [by destruct (_ <=? _)|done].
  - assert (Hy : (d ++ x :: y :: l) !! Z.to_nat (Z.of_nat (length d) + 1) = Some y).
    { replace (Z.to_nat (Z.of_nat (length d) + 1)) with (length (d ++ [x])) by (rewrite length_app; cbn; lia).
      replace (d ++ x :: y :: l) with ((d ++ [x]) ++ y :: l) by (by rewrite <-app_assoc). by apply list_lookup_middle. }
    destruct (word_at_ok m _ _ x H (Zle_0_nat _) (Hat d x (y :: l))) as (w & k & Ew & Ek). rewrite Ew. cbn [obind].
    destruct (word_at_ok m _ (Z.of_nat (length d) + 1) y H ltac:(lia) Hy) as (v & k' & Ev & Ek'). rewrite Ev. cbn [obind].
    destruct (differ_slots m _ (Z.of_nat (length d)) (Z.of_nat (length d) + 1) x y H ltac:(lia) ltac:(lia) (Hat d x (y :: l)) Hy) as (df & Ed & _ & Hdf). rewrite Ed. cbn [obind].
    assert (Hlen : Z.of_nat (length d) + 1 = Z.of_nat (length (d ++ [x])) /\ length (d ++ [y]) = length (d ++ [x])) by (rewrite !length_app; cbn; lia).
    assert (Hex : 0 < lex (key_of x) (key_of y) -> exists m', exchange (Z.of_nat (length d)) (Z.of_nat (length d) + 1) m = Ret m' /\ holds m' (d ++ y :: x :: l)).
    { intros _. destruct (exchange_ok m _ _ _ x y H (Zle_0_nat _) (Z.le_le_succ_r _ _ (Zle_0_nat (length d))) (Hat d x (y :: l)) Hy) as (m' & E & H'). exists m'. split; [exact E|].
      enough (Hins : <[Z.to_nat (Z.of_nat (length d) + 1):=x]> (<[Z.to_nat (Z.of_nat (length d)):=y]> (d ++ x :: y :: l)) = d ++ y :: x :: l) by (by rewrite <-Hins).
      rewrite Nat2Z.id, (insert_app_r_alt _ _ (length d)), Nat.sub_diag by lia. cbn. rewrite (insert_app_r_alt _ _ (Z.to_nat _)) by lia.
      by replace (Z.to_nat (Z.of_nat (length d) + 1) - length d)%nat with 1%nat by lia. }
    destruct (Z.ltb_spec 0 (QSort.compare x y)) as [Hgt|Hle]; unfold QSort.compare, compare_slots in *.
    + apply Hdf in Hgt as Hd. destruct Hd as (p & q & -> & Hqp). rewrite (proj2 (Z.ltb_lt _ _)) by done. destruct (Hex Hgt) as (m1 & -> & H1).
      assert (Hvw : v <= w) by (rewrite Ek, Ek' in Hgt; cbn in Hgt; destruct (Z.eqb_spec w v); [lia|]; destruct (Z.ltb_spec w v); lia).
      rewrite (proj2 (Z.leb_le _ _)) by done. cbn [obind]. destruct Hlen as [-> <-]. replace (d ++ y :: QSort.flip_pass x l) with ((d ++ [y]) ++ QSort.flip_pass x l) by (by rewrite <-app_assoc).
      apply IH. by rewrite <-app_assoc.
    + assert (Hsame : (if v <=? w then match df with Some (p, q) => if q <? p then exchange (Z.of_nat (length d)) (Z.of_nat (length d) + 1) m else Ret m | None => Ret m end else Ret m) = Ret m).
      { destruct (v <=? w); [|done]. destruct df as [[p q]|]; [|done]. destruct (Z.ltb_spec q p); [|done]. exfalso. enough (0 < lex (key_of x) (key_of y)) by lia. apply Hdf. by exists p, q. }
      rewrite Hsame. cbn [obind]. destruct Hlen as [-> _]. replace (d ++ x :: QSort.flip_pass y l) with ((d ++ [x]) ++ QSort.flip_pass y l) by (by rewrite <-app_assoc).
      apply IH. by rewrite <-app_assoc.
Qed.

(** The pointers in the order of the records. *)
Lemma quick_straighten_ok m ps :
  holds m ps -> size < 2147483648 ->
  exists m' ps', (let* m1 := quick (length (pointers m)) m (S (S tl)) in straighten (length (pointers m)) (S tl) 0 m1) = Ret m' /\
    holds m' ps' /\ StronglySorted le ps'.
Proof.
  intros H Hsize. assert (Hlen : forall m ps, holds m ps -> length (pointers m) = length K) by (intros m0 ps0 H0; by rewrite (holds_pointers _ _ H0), length_fmap, (holds_length m0 ps0 H0)).
  rewrite (Hlen m ps H). destruct (quick_ok m ps H Hsize) as (m1 & ps1 & -> & H1 & Hal). cbn [obind].
  unfold size in Hal. rewrite <-(holds_length m1 ps1 H1) in Hal |- *. apply QSort.almost_nearly in Hal. destruct ps1 as [|x l].
  - exists m1, []. split; [done|]. split; [done|constructor].
  - destruct (straighten_ok l [] x m1 H1) as (m' & E & H'). exists m', (QSort.flip_pass x l). split; [exact E|]. split; [done|]. by apply QSort.flip_pass_sorted.
Qed.

End Keys.

End SortQuick.
