(* ===== verification/SortOrder.v ===== *)
(** * Records in physical order ([jrd/sort.cpp])

    [order] moves the records to the start of their memory, in the order of the
    pointers, without a second buffer: a record that is in the way takes the
    place of the one that is moved. *)

From S2P Require Import Prelude.
From S2P Require Import Sort.
From stdpp Require Import list.

Module SortOrder.
Import Sort.
#[local] Open Scope nat_scope.

(** ** Pieces of memory *)

Definition piece (a n : nat) (mem : list Z) : list Z := take n (drop a mem).

Lemma piece_lookup a n mem i : piece a n mem !! i = if decide (i < n) then mem !! (a + i) else None.
Proof.
  unfold piece. case_decide; [by rewrite lookup_take_lt, lookup_drop|by rewrite lookup_take_ge by lia].
Qed.

Lemma piece_length a n mem : a + n <= length mem -> length (piece a n mem) = n.
Proof. intros H. unfold piece. rewrite length_take, length_drop. lia. Qed.

Lemma piece_stored a l mem : a + length l <= length mem -> piece a (length l) (list_inserts a l mem) = l.
Proof.
  intros H. apply list_eq. intros i. rewrite piece_lookup. case_decide; [|by rewrite lookup_ge_None_2 by lia].
  rewrite list_lookup_inserts by lia. f_equal. lia.
Qed.

Lemma piece_before a n b l mem : a + n <= b -> piece a n (list_inserts b l mem) = piece a n mem.
Proof. intros H. apply list_eq. intros i. rewrite !piece_lookup. case_decide; [|done]. by apply list_lookup_inserts_lt; lia. Qed.

Lemma piece_after a n b l mem : b + length l <= a -> piece a n (list_inserts b l mem) = piece a n mem.
Proof. intros H. apply list_eq. intros i. rewrite !piece_lookup. case_decide; [|done]. by apply list_lookup_inserts_ge; lia. Qed.


Lemma fetch_words_ok n a mem : a + n <= length mem -> fetch_words n a mem = Ret (piece a n mem).
Proof. intros H. unfold fetch_words. by rewrite (proj2 (Nat.leb_le _ _)). Qed.

Lemma store_words_ok l a mem : a + length l <= length mem -> store_words l a mem = Ret (list_inserts a l mem).
Proof. intros H. unfold store_words. by rewrite (proj2 (Nat.leb_le _ _)). Qed.

Lemma move_32_ok n from to mem : from + n <= length mem -> to + n <= length mem -> move_32 n from to mem = Ret (list_inserts to (piece from n mem) mem).
Proof. intros H1 H2. unfold move_32. rewrite fetch_words_ok by done. cbn. apply store_words_ok. by rewrite piece_length. Qed.

Lemma piece_extended a l mem : a + length l <= length mem -> piece 0 (a + length l) (list_inserts a l mem) = piece 0 a mem ++ l.
Proof.
  intros H. apply list_eq. intros i. rewrite piece_lookup, lookup_app, piece_lookup. cbn.
  destruct (decide (i < a)) as [Hi|Hi].
  - rewrite decide_True by lia. rewrite list_lookup_inserts_lt by done. by destruct (mem !! i) eqn:E; [|apply lookup_ge_None_1 in E; lia].
  - rewrite piece_length by (cbn; lia). case_decide; [by rewrite list_lookup_inserts by lia|]. by rewrite lookup_ge_None_2 by lia.
Qed.

(** The pointer back at the start of a block. *)
Lemma piece_head a n mem b k : piece a (S n) mem = b :: k -> mem !! a = Some b.
Proof. intros H. pose proof (piece_lookup a (S n) mem 0) as E. rewrite H, decide_True, Nat.add_0_r in E by lia. by rewrite <-E. Qed.

Lemma piece_tail a n mem b k : piece a (S n) mem = b :: k -> piece (a + 1) n mem = k.
Proof.
  intros H. apply list_eq. intros i. rewrite piece_lookup. pose proof (piece_lookup a (S n) mem (S i)) as E. rewrite H in E. change ((b :: k) !! S i) with (k !! i) in E. rewrite E.
  destruct (decide (i < n)); [rewrite decide_True by lia; f_equal; lia|by rewrite decide_False by lia].
Qed.

(** ** The loop *)

Section Order.
Context (len : nat) (len_positive : 0 < len).
#[local] Abbreviation L := (S len).

(** [n] blocks of memory; what each pointer stands for; [t0] is the first block
    that may be live. *)
Context (n : nat) (contents : list (option (list Z))).
Context (contents_length : forall q k, contents !! q = Some (Some k) -> length k = len).

Record placed (p : nat) (ptrs : list (option nat)) (t0 output : nat) (done : list (list Z)) (mem : list Z) : Prop := {
  placed_length : length mem = n * L;
  placed_limit : t0 <= n /\ output <= t0 * L;
  placed_output : output = length done * len /\ piece 0 output mem = concat done;
  placed_pointers q : (ptrs !! q = None <-> contents !! q = None) /\ (ptrs !! q = Some None <-> contents !! q = Some None);
  placed_live q k : p <= q -> contents !! q = Some (Some k) ->
    exists t, ptrs !! q = Some (Some (t * L + 1)) /\ t0 <= t < n /\ piece (t * L) L mem = Z.of_nat (S q) :: k;
  placed_back t b : t0 <= t < n -> mem !! (t * L) = Some b -> b <> 0%Z ->
    exists q k, b = Z.of_nat (S q) /\ p <= q /\ contents !! q = Some (Some k) /\ ptrs !! q = Some (Some (t * L + 1))
}.

(** The lower limit comes to the next live block. *)
Lemma advance_ok fuel t0 t mem b :
  length mem = n * L -> t0 <= t < n -> mem !! (t * L) = Some b -> b <> 0%Z -> t - t0 < fuel ->
  exists t1 b1, advance fuel L (t0 * L) mem = Ret (t1 * L) /\ t0 <= t1 <= t /\ mem !! (t1 * L) = Some b1 /\ b1 <> 0%Z /\
    forall u, t0 <= u < t1 -> mem !! (u * L) = Some 0%Z.
Proof.
  intros Hlen. revert t0. induction fuel as [|fuel IH]; intros t0 Ht Hb Hne Hf; [lia|]. cbn [advance].
  assert (Hin : t0 * L < length mem) by (rewrite Hlen; nia). destruct (lookup_lt_is_Some_2 mem (t0 * L) Hin) as [c Hc]. rewrite Hc.
  destruct (Z.eqb_spec c 0) as [->|Hc0]; cbn [andb].
  - rewrite (proj2 (Nat.ltb_lt _ _)) by done. assert (t0 <> t) by (intros ->; congruence).
    destruct (IH (S t0)) as (t1 & b1 & E & H1 & H2 & H3 & H4); [lia|done|done|lia|]. exists t1, b1.
    replace (t0 * L + L) with (S t0 * L) by lia. split; [done|]. split; [lia|]. split; [done|]. split; [done|]. intros u Hu.
    destruct (decide (u = t0)) as [->|]; [done|apply H4; lia].
  - exists t0, c. split; [done|]. split; [lia|]. split; [done|]. split; [done|]. intros u Hu. lia.
Qed.

(** A block that is stored leaves the others as they are. *)
Lemma other_block t u l mem o : o <= u * L -> length l <= L -> u < t -> piece (t * L) L (list_inserts o l mem) = piece (t * L) L mem.
Proof. intros Ho Hl Hu. apply piece_after. nia. Qed.

Lemma block_lookup t mem mem' b : piece (t * L) L mem' = piece (t * L) L mem -> mem' !! (t * L) = Some b -> mem !! (t * L) = Some b.
Proof. intros E Hb. pose proof (piece_lookup (t * L) L mem 0) as E1. pose proof (piece_lookup (t * L) L mem' 0) as E2. rewrite decide_True, Nat.add_0_r in E1, E2 by lia. congruence. Qed.

Lemma placed_skip p ptrs t0 output done mem : contents !! p = Some None -> placed p ptrs t0 output done mem -> placed (S p) ptrs t0 output done mem.
Proof.
  intros Hp [P1 P2 P3 P4 P5 P6]. split; try done.
  - intros q k Hq Hk. apply P5; [lia|done].
  - intros t b Ht Hb Hne. destruct (P6 t b Ht Hb Hne) as (q & k & E & Hq & Hk & Hptr). exists q, k. split_and!; try done.
    assert (q <> p) by (intros ->; congruence). lia.
Qed.

Lemma placed_advanced p ptrs t0 t1 output done mem :
  placed p ptrs t0 output done mem -> t0 <= t1 <= n -> (forall u, t0 <= u < t1 -> mem !! (u * L) = Some 0%Z) -> placed p ptrs t1 output done mem.
Proof.
  intros [P1 [P2 P2'] P3 P4 P5 P6] Ht Hz. split; try done; [split; [lia|nia]| |].
  - intros q k Hq Hk. destruct (P5 q k Hq Hk) as (t & Hptr & Hlt & Hpc). exists t. split; [done|]. split; [|done].
    split; [|lia]. destruct (decide (t1 <= t)) as [|Hn]; [done|]. exfalso. pose proof (piece_head _ _ _ _ _ Hpc) as Hh. rewrite Hz in Hh by lia. injection Hh as Hh. lia.
  - intros t b Hlt. apply P6. lia.
Qed.

(** A record is moved to where nothing is live. *)
Lemma placed_moved p ptrs t0 t output done mem k :
  placed p ptrs t0 output done mem -> contents !! p = Some (Some k) -> ptrs !! p = Some (Some (t * L + 1)) -> t0 <= t < n ->
  piece (t * L) L mem = Z.of_nat (S p) :: k -> output + len <= t0 * L ->
  placed (S p) ptrs t0 (output + len) (done ++ [k]) (list_inserts output k (list_inserts (t * L) [0%Z] mem)).
Proof.
  intros [P1 [P2 P2'] [P3 P3'] P4 P5 P6] Hk Hptr Ht Hpc Hroom. pose proof (contents_length p k Hk) as Hl.
  set (mem1 := list_inserts (t * L) [0%Z] mem). set (mem2 := list_inserts output k mem1).
  assert (Hlen1 : length mem1 = n * L) by (unfold mem1; by rewrite length_inserts).
  assert (Hlen2 : length mem2 = n * L) by (unfold mem2; by rewrite length_inserts).
  assert (Hblk : forall u, t0 <= u -> u <> t -> piece (u * L) L mem2 = piece (u * L) L mem).
  { intros u Hu Hne. unfold mem2. rewrite piece_after by (rewrite Hl; nia). unfold mem1.
    destruct (Nat.lt_ge_cases u t) as [Hlt|Hge]; [apply piece_before; nia|apply piece_after; cbn; nia]. }
  assert (Hzero : mem2 !! (t * L) = Some 0%Z).
  { unfold mem2. rewrite list_lookup_inserts_ge by (rewrite Hl; nia). unfold mem1. rewrite list_lookup_inserts by (cbn; nia). by rewrite Nat.sub_diag. }
  split.
  - done.
  - split; [done|lia].
  - rewrite length_app, concat_app. cbn. split; [lia|]. unfold mem2. rewrite <-Hl, piece_extended by (rewrite Hl; nia).
    rewrite app_nil_r. f_equal. unfold mem1. rewrite piece_before by (cbn; nia). done.
  - done.
  - intros q k' Hq Hk'. destruct (P5 q k' ltac:(lia) Hk') as (u & Hu & Hlt & Hpu). exists u. split; [done|]. split; [done|].
    rewrite Hblk; [done|lia|]. intros ->. rewrite Hpc in Hpu. injection Hpu as E _. lia.
  - intros u b Hlt Hb Hne. assert (u <> t) by (intros ->; rewrite Hzero in Hb; congruence).
    apply (block_lookup _ mem) in Hb; [|apply Hblk; (done || lia)]. destruct (P6 u b Hlt Hb Hne) as (q & k' & E & Hq & Hk' & Hpq).
    exists q, k'. split_and!; try done. enough (q <> p) by lia. intros ->. rewrite Hptr in Hpq. injection Hpq as E'. apply H. nia.
Qed.

(** A record is moved onto a live block, which takes its place. *)
Lemma placed_swapped p ptrs t0 t output done mem q k kq :
  placed p ptrs t0 output done mem -> contents !! p = Some (Some k) -> ptrs !! p = Some (Some (t * L + 1)) -> t0 <= t < n ->
  piece (t * L) L mem = Z.of_nat (S p) :: k ->
  contents !! q = Some (Some kq) -> p <= q -> ptrs !! q = Some (Some (t0 * L + 1)) -> piece (t0 * L) L mem = Z.of_nat (S q) :: kq ->
  placed (S p) (<[q := Some (t * L + 1)]> ptrs) (S t0) (output + len) (done ++ [k])
    (list_inserts output k (list_inserts (t * L) (piece (t0 * L) L mem) mem)).
Proof.
  intros [P1 [P2 P2'] [P3 P3'] P4 P5 P6] Hk Hptr Ht Hpc Hkq Hpq Hptrq Hpcq. pose proof (contents_length p k Hk) as Hl.
  assert (Hblen : length (piece (t0 * L) L mem) = L) by (apply piece_length; nia).
  set (mem1 := list_inserts (t * L) (piece (t0 * L) L mem) mem). set (mem2 := list_inserts output k mem1).
  assert (Hlen1 : length mem1 = n * L) by (unfold mem1; by rewrite length_inserts).
  assert (Hlen2 : length mem2 = n * L) by (unfold mem2; by rewrite length_inserts).
  assert (Hblk : forall u, t0 < u -> u <> t -> piece (u * L) L mem2 = piece (u * L) L mem).
  { intros u Hu Hne. unfold mem2. rewrite piece_after by (rewrite Hl; nia). unfold mem1.
    destruct (Nat.lt_ge_cases u t) as [Hlt|Hge]; [apply piece_before; nia|apply piece_after; rewrite Hblen; nia]. }
  assert (Hnew : t0 < t -> piece (t * L) L mem2 = Z.of_nat (S q) :: kq).
  { intros Hlt. unfold mem2. rewrite piece_after by (rewrite Hl; nia). rewrite <-Hpcq.
    transitivity (piece (t * L) (length (piece (t0 * L) L mem)) mem1); [by rewrite Hblen|apply piece_stored; rewrite Hblen; nia]. }
  assert (Hsame : t = t0 -> q = p) by (intros ->; rewrite Hpc in Hpcq; injection Hpcq as E _; lia).
  assert (Hother : q = p -> t = t0) by (intros ->; rewrite Hptr in Hptrq; injection Hptrq as E; nia).
  pose proof (lookup_lt_Some _ _ _ Hptrq) as Hqlen. split.
  - done.
  - split; [lia|nia].
  - rewrite length_app, concat_app. cbn. split; [lia|]. unfold mem2. rewrite <-Hl, piece_extended by (rewrite Hl; nia).
    rewrite app_nil_r. f_equal. unfold mem1. rewrite piece_before by nia. done.
  - intros q'. destruct (decide (q' = q)) as [->|Hne]; [|by rewrite list_lookup_insert_ne]. rewrite list_lookup_insert_eq by done. rewrite Hkq. by split.
  - intros q' k' Hq' Hk'. destruct (decide (q' = q)) as [->|Hne].
    + exists t. rewrite list_lookup_insert_eq by done. assert (t <> t0) by (intros E; apply Hsame in E; lia). split; [done|]. split; [lia|].
      assert (k' = kq) as -> by congruence. apply Hnew. lia.
    + destruct (P5 q' k' ltac:(lia) Hk') as (u & Hu & Hlt & Hpu). exists u. rewrite list_lookup_insert_ne by done. split; [done|].
      assert (u <> t) by (intros ->; rewrite Hpc in Hpu; injection Hpu as E _; lia). assert (u <> t0) by (intros ->; rewrite Hpcq in Hpu; injection Hpu as E _; lia).
      split; [lia|]. rewrite Hblk; [done|lia|done].
  - intros u b Hlt Hb Hne. destruct (decide (u = t)) as [->|Hut].
    + pose proof (piece_head _ _ _ _ _ (Hnew ltac:(lia))) as Hh. rewrite Hh in Hb. injection Hb as <-. exists q, kq.
      rewrite list_lookup_insert_eq by done. split_and!; try done. enough (q <> p) by lia. intros E. apply Hother in E. lia.
    + apply (block_lookup _ mem) in Hb; [|apply Hblk; (done || lia)]. destruct (P6 u b ltac:(lia) Hb Hne) as (q' & k' & E & Hq' & Hk' & Hpq').
      exists q', k'. assert (q' <> q) by (intros ->; rewrite Hptrq in Hpq'; injection Hpq' as E'; nia). rewrite list_lookup_insert_ne by done.
      split_and!; try done. enough (q' <> p) by lia. intros ->. rewrite Hptr in Hpq'. injection Hpq' as E'. apply Hut. nia.
Qed.

Lemma order_loop_ok m p ptrs t0 output done mem :
  placed p ptrs t0 output done mem -> p + m = length contents ->
  exists output' mem', order_loop m p L ptrs (t0 * L) output mem = Ret (output', mem') /\
    let all := done ++ omap id (drop p contents) in output' = length all * len /\ piece 0 output' mem' = concat all.
Proof.
  revert p ptrs t0 output done mem. induction m as [|m IH]; intros p ptrs t0 output done mem Hpl Hpm; cbn [order_loop].
  { exists output, mem. split; [done|]. rewrite drop_ge by lia. cbn. rewrite app_nil_r. by apply (placed_output _ _ _ _ _ _ Hpl). }
  destruct (lookup_lt_is_Some_2 contents p ltac:(lia)) as [c Hc]. rewrite (drop_S _ _ _ Hc). destruct (placed_pointers _ _ _ _ _ _ Hpl p) as [Pn Ps].
  destruct c as [k|]; cbn [omap list_omap id].
  2: { rewrite (proj2 Ps Hc). destruct (IH (S p) ptrs t0 output done mem) as (o & mm & E & H); [by apply placed_skip|lia|]. by exists o, mm. }
  destruct (placed_live _ _ _ _ _ _ Hpl p k (le_n p) Hc) as (t & Hptr & Ht & Hpc). rewrite Hptr. cbn [obind].
  pose proof (placed_length _ _ _ _ _ _ Hpl) as Hlen. pose proof (piece_head _ _ _ _ _ Hpc) as Hh. pose proof (contents_length p k Hc) as Hl.
  destruct (advance_ok (S (length mem)) t0 t mem (Z.of_nat (S p))) as (t1 & b1 & -> & Ht1 & Hb1 & Hb1n & Hz); [done|done|done|lia|rewrite Hlen; nia|]. cbn [obind].
  pose proof (placed_advanced p ptrs t0 t1 output done mem Hpl ltac:(lia) Hz) as Hpl1. clear Hpl Hz.
  destruct (placed_limit _ _ _ _ _ _ Hpl1) as [_ Hout]. replace (t * L + 1 - 1) with (t * L) by lia.
  rewrite (proj2 (Nat.eqb_neq _ _)) by nia. pose proof (piece_tail _ _ _ _ _ Hpc) as Htail. replace (L - 1) with len by lia.
  destruct (Nat.leb_spec (output + L - 1) (t1 * L)) as [Hroom|Hroom].
  - rewrite store_words_ok by (cbn [length]; nia). cbn [obind]. rewrite move_32_ok by (rewrite length_inserts; nia). cbn [obind].
    rewrite (piece_after (t * L + 1)) by (cbn [length]; lia). rewrite Htail.
    destruct (IH (S p) ptrs t1 (output + len) (done ++ [k]) (list_inserts output k (list_inserts (t * L) [0%Z] mem))) as (o & mm & E & H);
      [by apply placed_moved; try lia|lia|]. exists o, mm. split; [done|]. by rewrite <-app_assoc in H.
  - rewrite fetch_words_ok by nia. cbn [obind]. rewrite fetch_words_ok by nia. cbn [obind]. rewrite Htail.
    destruct (placed_back _ _ _ _ _ _ Hpl1 t1 b1 ltac:(lia) Hb1 Hb1n) as (q & kq & -> & Hpq & Hkq & Hptrq).
    destruct (placed_live _ _ _ _ _ _ Hpl1 q kq Hpq Hkq) as (t' & Hptr' & Ht' & Hpcq). assert (t' = t1) as -> by (rewrite Hptrq in Hptr'; injection Hptr' as E; nia).
    assert (piece (t1 * L) 1 mem = [Z.of_nat (S q)]) as ->.
    { apply list_eq. intros [|i]; rewrite piece_lookup; [by rewrite decide_True, Nat.add_0_r by lia|by rewrite decide_False by lia]. }
    rewrite (proj2 (Z.eqb_neq _ _)) by lia. rewrite move_32_ok by nia. cbn [obind].
    assert (length (piece (t1 * L) L mem) = L) by (apply piece_length; nia).
    rewrite store_words_ok by (rewrite length_inserts, Hl; nia). cbn [obind]. replace (Z.to_nat (Z.of_nat (S q) - 1)) with q by lia. replace (t1 * L + L) with (S t1 * L) by lia.
    destruct (IH (S p) (<[q:=Some (t * L + 1)]> ptrs) (S t1) (output + len) (done ++ [k])
      (list_inserts output k (list_inserts (t * L) (piece (t1 * L) L mem) mem))) as (o & mm & E & H'); [by apply (placed_swapped _ _ _ _ _ _ _ q k kq); try lia|lia|].
    exists o, mm. split; [done|]. by rewrite <-app_assoc in H'.
Qed.

End Order.

(** ** [order] *)

(** Pointers and records belong together; the records of eliminated pointers
    are not pointed to. *)
Record linked (len : nat) (m : memory) : Prop := {
  linked_length s r : records m !! s = Some r -> length (sort_record_key r) = len;
  linked_pointer q s : pointers m !! q = Some (Some s) -> exists r, records m !! s = Some r /\ sr_bckptr r = Some q;
  linked_back s r q : records m !! s = Some r -> sr_bckptr r = Some q -> pointers m !! q = Some (Some s)
}.

(** What the pointers stand for, and that without those of eliminated records. *)
Definition contents (m : memory) : list (option (list Z)) :=
  (fun p : option nat => match p with Some s => sort_record_key <$> records m !! s | None => None end) <$> pointers m.

Definition live (m : memory) : list (list Z) := omap id (contents m).

Lemma concat_piece n l t b : (forall x, x ∈ l -> length x = n) -> l !! t = Some b -> piece (t * n) n (concat l) = b.
Proof.
  revert t. induction l as [|x l IH]; intros t Hl Ht; [done|]. assert (Hx : length x = n) by (apply Hl; left). destruct t as [|t]; cbn in Ht |- *.
  - injection Ht as <-. unfold piece. cbn. rewrite drop_0. rewrite <-Hx. by apply take_app_length.
  - rewrite <-(IH t); [|intros y Hy; apply Hl; by right|done]. unfold piece. rewrite (drop_app_ge x) by lia. do 2 f_equal. lia.
Qed.

Lemma concat_length n (l : list (list Z)) : (forall x, x ∈ l -> length x = n) -> length (concat l) = length l * n.
Proof.
  induction l as [|x l IH]; intros Hl; [done|]. cbn. rewrite length_app, IH by (intros y Hy; apply Hl; by right). rewrite (Hl x) by left. lia.
Qed.

Definition block (r : sr) : list Z := match sr_bckptr r with Some k => Z.of_nat (S k) | None => 0%Z end :: sort_record_key r.

Lemma longwords_blocks len m : linked len m ->
  length (longwords m) = length (records m) * S len /\
  forall s r, records m !! s = Some r -> piece ((length (records m) - S s) * S len) (S len) (longwords m) = block r.
Proof.
  intros H. unfold longwords. fold block. change (fun r => _ :: sort_record_key r) with block. set (l := reverse (block <$> records m)).
  assert (Hl : forall x, x ∈ l -> length x = S len).
  { intros x Hx. unfold l in Hx. rewrite elem_of_reverse, list_elem_of_fmap in Hx. destruct Hx as (r & -> & Hr). apply list_elem_of_lookup_1 in Hr as [s Hs].
    unfold block. cbn. by rewrite (linked_length _ _ H s r Hs). }
  split; [rewrite (concat_length (S len)) by done; unfold l; by rewrite length_reverse, length_fmap|]. intros s r Hs. pose proof (lookup_lt_Some _ _ _ Hs). apply concat_piece; [done|].
  unfold l. rewrite reverse_lookup by (rewrite length_fmap; lia). rewrite length_fmap, list_lookup_fmap.
  replace (length (records m) - S (length (records m) - S s)) with s by lia. by rewrite Hs.
Qed.

Lemma order_ok len m :
  0 < len -> linked len m ->
  exists mem, order (S len) m = Ret (length (live m), mem) /\ take (length (live m) * len) mem = concat (live m).
Proof.
  intros Hpos H. destruct (longwords_blocks len m H) as [Hlen Hblk]. set (n := length (records m)) in *.
  assert (Hc : forall q, contents m !! q = (fun p : option nat => match p with Some s => sort_record_key <$> records m !! s | None => None end) <$> pointers m !! q) by (intros q; apply list_lookup_fmap).
  assert (Ha : forall q, addresses (S len) m !! q = option_map (fun s => (n - S s) * S len + 1) <$> pointers m !! q) by (intros q; unfold addresses; apply list_lookup_fmap).
  assert (Hrec : forall q s, pointers m !! q = Some (Some s) -> exists r, records m !! s = Some r /\ sr_bckptr r = Some q) by apply H.
  destruct (order_loop_ok len Hpos n (contents m)) with (m := length (pointers m)) (p := 0) (ptrs := addresses (S len) m) (t0 := 0) (output := 0) (done := @nil (list Z)) (mem := longwords m)
    as (output & mem & E & Eo & Em).
  - intros q k Hk. rewrite Hc in Hk. destruct (pointers m !! q) as [[s|]|]; cbn in Hk; try discriminate. destruct (records m !! s) as [r|] eqn:Hr; [|discriminate].
    injection Hk as <-. by apply (linked_length _ _ H s).
  - split; [done|lia|done| | |].
    + intros q. rewrite Hc, Ha. destruct (pointers m !! q) as [[s|]|] eqn:Hq; cbn; [|by split|by split]. destruct (Hrec q s Hq) as (r & -> & _). cbn. by split.
    + intros q k _ Hk. rewrite Hc in Hk. rewrite Ha. destruct (pointers m !! q) as [[s|]|] eqn:Hq; cbn in Hk; try discriminate. destruct (Hrec q s Hq) as (r & Hr & Hb).
      rewrite Hr in Hk. injection Hk as <-. exists (n - S s). split; [done|]. pose proof (lookup_lt_Some _ _ _ Hr). fold n in H0. split; [lia|]. rewrite (Hblk s r Hr). unfold block. by rewrite Hb.
    + intros t b Ht Hb Hne. destruct (lookup_lt_is_Some_2 (records m) (n - S t)) as [r Hr]; [fold n; lia|]. pose proof (Hblk _ _ Hr) as Hp. replace (n - S (n - S t)) with t in Hp by lia.
      unfold block in Hp. pose proof (piece_head _ _ _ _ _ Hp) as Hh. rewrite Hb in Hh. injection Hh as ->. destruct (sr_bckptr r) as [q|] eqn:Eb; [|done].
      exists q, (sort_record_key r). pose proof (linked_back _ _ H _ _ _ Hr Eb) as Hq. split_and!; [done|lia|by rewrite Hc, Hq; cbn; rewrite Hr|].
      rewrite Ha, Hq. cbn [fmap option_fmap option_map]. by replace (n - S (n - S t)) with t by lia.
  - cbn. unfold contents. by rewrite length_fmap.
  - unfold order. change (0 * S len) with 0 in E. rewrite E. cbn [obind]. cbn zeta in Eo, Em. rewrite drop_0 in Eo, Em. change ([] ++ omap id (contents m)) with (live m) in Eo, Em. exists mem. rewrite <-Eo. split; [|exact Em]. rewrite Eo. replace (S len - 1) with len by lia. rewrite Nat.div_mul by lia. done.
Qed.

End SortOrder.
