(* ===== verification/SortMerge.v ===== *)
(** * Fetching from a merge tree ([jrd/sort.cpp])

    One call of [get_merge] fetches the record that comes first of all records
    in the runs and blocks of a merge tree, but for those the callback has
    rejected, and the tree remains one.  The number of turns is bounded. *)

From S2P Require Import Prelude.
From S2P Require Import Sort.
From S2P Require Import SortQuick.
From stdpp Require Import list sorting.

Module SortMerge.
Import Sort SortQuick.
#[local] Open Scope nat_scope.

(** ** Comparing keys *)

Lemma lex_app p q a b : length p = length q -> lex (p ++ a) (q ++ b) = (if (lex p q =? 0)%Z then lex a b else lex p q).
Proof.
  revert q. induction p as [|x p IH]; intros [|y q] Hl; try done. injection Hl as Hl. cbn. destruct (Z.eqb_spec x y); [by apply IH|]. by destruct (x <? y)%Z.
Qed.

Lemma do_32_compare_ok l : forall w a b,
  0 < l -> w + l <= length a -> w + l <= length b ->
  exists equal w' x y, do_32_compare l w a b = Ret (equal, w') /\ a !! pred w' = Some x /\ b !! pred w' = Some y /\
    let c := lex (take l (drop w a)) (take l (drop w b)) in
    (equal = true <-> c = 0%Z) /\ ((x < y)%Z <-> (c < 0)%Z) /\ (equal = true -> w' = w + l).
Proof.
  induction l as [|l IH]; intros w a b Hpos Ha Hb; [lia|]. cbn [do_32_compare].
  destruct (lookup_lt_is_Some_2 a w ltac:(lia)) as [x Hx]. destruct (lookup_lt_is_Some_2 b w ltac:(lia)) as [y Hy]. rewrite Hx, Hy.
  rewrite (drop_S _ _ _ Hx), (drop_S _ _ _ Hy). cbn [take lex]. destruct (Z.eqb_spec x y) as [->|Hne].
  - destruct l as [|l].
    + exists true, (S w), y, y. rewrite !take_0. cbn. split_and!; try done; lia.
    + destruct (IH (S w) a b) as (e & w' & p & q & -> & H1 & H2 & H3 & H4 & H5); [lia..|]. exists e, w', p, q. split_and!; try done. intros He. specialize (H5 He). lia.
  - exists false, (S w), x, y. cbn. split; [done|]. split; [done|]. split; [done|]. destruct (Z.ltb_spec x y); split_and!; try done; lia.
Qed.

Section Merge.
Context `{SK : SortKeys}.

Definition key_of_record (x : list Z) : list Z := take scb_key_length x.
Definition unique_of_record (x : list Z) : list Z := take scb_unique_length x.
Definition key_le (x y : list Z) : Prop := (lex (key_of_record x) (key_of_record y) <= 0)%Z.

(** The callback rejects [x] for [y]. *)
Definition rejects (srt : bool) (x y : list Z) : Prop :=
  exists callback, scb_dup_callback = Some callback /\ unique_of_record x = unique_of_record y /\
    callback (diddle_key srt false x) (diddle_key srt false y) = true.

(** Records that are comparable, for which changing forth and back is harmless;
    the order in which they are to come. *)
Class Merging (valid : list Z -> Prop) (R : list Z -> list Z -> Prop) := {
  lengths : 0 < scb_unique_length <= scb_key_length;
  valid_length x : valid x -> scb_key_length <= length x;
  valid_undo srt x : valid x -> diddle_key srt true (diddle_key srt false x) = x;
  R_trans x y z : R x y -> R y z -> R x z;
  R_kept srt x y : valid x -> valid y -> key_le x y -> ~ rejects srt x y \/ ~ rejects srt y x -> R x y
}.

Context {valid : list Z -> Prop} {R : list Z -> list Z -> Prop} {MG : Merging valid R}.
Context (srt : bool).

Definition lost_ok (x : list Z) : Prop := valid x /\ exists s y, valid y /\ rejects s x y.

Lemma compare_unique a b :
  valid a -> valid b -> exists equal w, do_32_compare scb_unique_length 0 a b = Ret (equal, w) /\ (equal = true <-> unique_of_record a = unique_of_record b) /\
    forall x, exists r, choose x equal w a b = Ret r /\
      (r = (mrg_parent x, Rec a, with_record_a None (with_record_b (Some b) x)) /\ key_le a b \/
       r = (mrg_parent x, Rec b, with_record_b None (with_record_a (Some a) x)) /\ key_le b a).
Proof.
  intros Ha Hb. pose proof lengths as Hl. pose proof (valid_length a Ha) as La. pose proof (valid_length b Hb) as Lb.
  assert (Hsplit : forall x, scb_key_length <= length x -> key_of_record x = take scb_unique_length x ++ take (scb_key_length - scb_unique_length) (drop scb_unique_length x)).
  { intros x Hx. unfold key_of_record. rewrite take_take_drop. f_equal. lia. }
  unfold key_le. rewrite !Hsplit by done. rewrite !lex_app by (rewrite !length_take; lia). rewrite (lex_flip (take scb_unique_length a)).
  destruct (do_32_compare_ok scb_unique_length 0 a b) as (e & w & x & y & -> & Hx & Hy & He & Hlt & Hw); [lia..|]. rewrite !drop_0 in He, Hlt.
  exists e, w. split; [done|]. split. { rewrite He. unfold unique_of_record. split; [apply lex_eq|intros ->; apply lex_refl]. }
  intros m. unfold choose. destruct e.
  2: { assert (lex (take scb_unique_length a) (take scb_unique_length b) <> 0)%Z by (rewrite <-He; done). cbn [andb obind]. rewrite Hx, Hy.
    rewrite !(proj2 (Z.eqb_neq _ 0)) by lia. destruct (Z.ltb_spec x y); eexists; (split; [done|]); [left|right]; (split; [done|]); lia. }
  rewrite (proj1 He eq_refl). change (- 0 =? 0)%Z with true. change (0 =? 0)%Z with true. cbn [andb]. destruct (Nat.eqb_spec (scb_key_length - scb_unique_length) 0) as [Hz|Hz]; cbn [negb obind].
  - rewrite Hx, Hy, Hz, !take_0. cbn [lex]. destruct (Z.ltb_spec x y); eexists; (split; [done|]); [left|right]; (split; [done|]); lia.
  - rewrite (Hw eq_refl), Nat.add_0_l. destruct (do_32_compare_ok (scb_key_length - scb_unique_length) scb_unique_length a b) as (e2 & w2 & x2 & y2 & -> & Hx2 & Hy2 & _ & Hlt2 & _); [lia..|].
    cbn [obind]. rewrite Hx2, Hy2. rewrite (lex_flip (take _ (drop _ a))).
    destruct (Z.ltb_spec x2 y2); eexists; (split; [done|]); [left|right]; (split; [done|]); lia.
Qed.

(** ** Trees *)

(** A merge tree; [Gone] is a stream that has come to its end. *)
Inductive tree :=
  | Gone
  | Leaf (r : nat) (d : Z) (l : list (list Z))
  | Node (m : nat) (ra : option (list Z)) (a : tree) (rb : option (list Z)) (b : tree).

Definition stream_of (t : tree) : option stream :=
  match t with Gone => None | Leaf r _ _ => Some (Run r) | Node m _ _ _ _ => Some (Mrg m) end.

Fixpoint nodes (t : tree) : list stream :=
  match t with Gone => [] | Leaf r _ _ => [Run r] | Node m _ a _ b => Mrg m :: nodes a ++ nodes b end.

(** The records that are still to come. *)
Fixpoint pend (t : tree) : list (list Z) :=
  match t with Gone => [] | Leaf _ _ l => l | Node _ ra a rb b => (option_list ra ++ pend a) ++ option_list rb ++ pend b end.

Fixpoint tree_at (st : merge_state) (p : option nat) (t : tree) : Prop :=
  match t with
  | Gone => True
  | Leaf r d l => runs st !! r = Some (mk_run l d p)
  | Node m ra a rb b => mrgs st !! m = Some (mk_merge p ra (stream_of a) rb (stream_of b)) /\ tree_at st (Some m) a /\ tree_at st (Some m) b
  end.

Definition before (r : option (list Z)) (l : list (list Z)) : Prop := forall x y, r = Some x -> y ∈ l -> R x y.

Fixpoint ordered (t : tree) : Prop :=
  match t with
  | Gone => True
  | Leaf _ _ l => StronglySorted R l
  | Node _ ra a rb b => before ra (pend a) /\ ordered a /\ before rb (pend b) /\ ordered b
  end.

Definition same (s : stream) (st st' : merge_state) : Prop :=
  match s with Run r => runs st' !! r = runs st !! r | Mrg m => mrgs st' !! m = mrgs st !! m end.

Definition same_size (st st' : merge_state) : Prop := length (runs st') = length (runs st) /\ length (mrgs st') = length (mrgs st).

Lemma tree_at_same st st' p t : (forall s, s ∈ nodes t -> same s st st') -> tree_at st p t -> tree_at st' p t.
Proof.
  revert p. induction t as [|r d l|m ra a IHa rb b IHb]; intros p Hs; cbn; [done|..].
  - intros H. rewrite <-H. apply (Hs (Run r)). cbn. apply list_elem_of_here.
  - intros (H & Ha & Hb). split; [|split].
    + rewrite <-H. apply (Hs (Mrg m)). cbn. apply list_elem_of_here.
    + apply IHa; [|done]. intros s Hin. apply Hs. cbn. apply list_elem_of_further, elem_of_app. by left.
    + apply IHb; [|done]. intros s Hin. apply Hs. cbn. apply list_elem_of_further, elem_of_app. by right.
Qed.

(** A tree that is there, in order, with nodes of its own. *)
Record well (st : merge_state) (p : option nat) (t : tree) : Prop := {
  well_at : tree_at st p t;
  well_nodes : NoDup (nodes t);
  well_ordered : ordered t;
  well_valid : forall x, x ∈ pend t -> valid x
}.

(** What becomes of a tree when records are lost and come [out] of it. *)
Record moves (st : merge_state) (t : tree) (lost out : list (list Z)) (st' : merge_state) (t' : tree) : Prop := {
  moves_stream : stream_of t' = stream_of t;
  moves_nodes : (nodes t') `sublist_of` (nodes t);
  moves_pend : pend t ≡ₚ lost ++ out ++ pend t';
  moves_lost x : x ∈ lost -> lost_ok x /\ exists y, y ∈ out ++ pend t' /\ unique_of_record x = unique_of_record y;
  moves_same s : s ∉ nodes t -> same s st st';
  moves_size : same_size st st'
}.

Lemma moves_refl st t : moves st t [] [] st t.
Proof. split; try done. - by intros x ?%elem_of_nil. - by intros []. Qed.

Lemma moves_trans st t l1 st1 t1 l2 out st2 t2 : moves st t l1 [] st1 t1 -> moves st1 t1 l2 out st2 t2 -> moves st t (l1 ++ l2) out st2 t2.
Proof.
  intros [A1 A2 A3 A4 A5 [A6 A7]] [B1 B2 B3 B4 B5 [B6 B7]]. split.
  - congruence.
  - by etrans.
  - rewrite A3, B3. cbn. by rewrite <-(assoc_L _ l1).
  - intros x [Hx|Hx]%elem_of_app; [|auto]. destruct (A4 x Hx) as (Hok & y & Hy & E). split; [done|]. cbn in Hy. rewrite B3 in Hy.
    apply elem_of_app in Hy as [Hy|Hy]; [|by exists y]. destruct (B4 y Hy) as (_ & z & Hz & E'). exists z. split; [done|]. congruence.
  - intros s Hs. specialize (A5 s Hs). assert (Hs1 : s ∉ nodes t1) by (intros ?; by eapply Hs, sublist_subseteq). specialize (B5 s Hs1). destruct s; cbn in *; congruence.
  - split; congruence.
Qed.

Definition out_of (f : fetched) : list (list Z) := match f with Rec x => [x] | _ => [] end.

Lemma get_deliver fuel m x f st :
  mrgs st !! m = Some x -> get_merge (S fuel) srt (Some (Mrg m)) f st = get_merge (S fuel) srt (Some (Mrg m)) Null (set_mrg m (deliver f x) st).
Proof.
  intros Hx. cbn [get_merge]. unfold merge_turn at 1. unfold merge_turn. rewrite Hx. cbn [set_mrg mrgs runs]. rewrite list_lookup_insert_eq by (by eapply lookup_lt_Some).
  cbn [deliver]. unfold set_mrg. cbn [mrgs runs]. set (y := deliver f x). destruct (mrg_record_a y), (mrg_stream_a y), (mrg_record_b y), (mrg_stream_b y); cbn [obind]; rewrite ?list_insert_insert_eq; try done.
  all: destruct (do_32_compare _ _ _ _) as [[e w]|]; cbn [obind]; [|done]; destruct (offer _ _ _ _) as [[[] ?] ?]; cbn [obind]; [by rewrite list_insert_insert_eq|].
  all: destruct (choose _ _ _ _ _) as [[[? ?] ?]|]; cbn [obind]; [by rewrite list_insert_insert_eq|done].
Qed.

(** A merge block that is changed. *)
Lemma set_mrg_same s m x st : s <> Mrg m -> same s st (set_mrg m x st).
Proof. intros Hs. destruct s as [r|m']; cbn; [done|]. rewrite list_lookup_insert_ne; [done|]. by intros ->. Qed.

Lemma set_mrg_size m x st : same_size st (set_mrg m x st).
Proof. split; cbn; [done|]. by rewrite length_insert. Qed.

Lemma set_mrg_tree m x st p t : Mrg m ∉ nodes t -> tree_at st p t -> tree_at (set_mrg m x st) p t.
Proof. intros Hm. apply tree_at_same. intros s Hs. apply set_mrg_same. by intros ->. Qed.

Lemma set_mrg_node m p ra a rb b st : (exists x, mrgs st !! m = Some x) -> Mrg m ∉ nodes a -> Mrg m ∉ nodes b -> tree_at st (Some m) a -> tree_at st (Some m) b ->
  tree_at (set_mrg m (mk_merge p ra (stream_of a) rb (stream_of b)) st) p (Node m ra a rb b).
Proof.
  intros [x Hx] Ha Hb Ta Tb. cbn. rewrite list_lookup_insert_eq by (by eapply lookup_lt_Some). split; [done|]. split; by apply set_mrg_tree.
Qed.

Lemma node_nodes m ra a rb b : NoDup (nodes (Node m ra a rb b)) ->
  (Mrg m ∉ nodes a) /\ (Mrg m ∉ nodes b) /\ NoDup (nodes a) /\ NoDup (nodes b) /\ forall s, s ∈ nodes a -> s ∉ nodes b.
Proof. cbn. rewrite NoDup_cons, elem_of_app, NoDup_app. naive_solver. Qed.

Lemma well_child_a st p m ra a rb b : well st p (Node m ra a rb b) -> well st (Some m) a.
Proof.
  intros [(_ & Ta & _) W2 (_ & Oa & _) W4]. apply node_nodes in W2 as (_ & _ & Na & _). split; try done. intros x Hx. apply W4. cbn. rewrite !elem_of_app. auto.
Qed.

Lemma well_child_b st p m ra a rb b : well st p (Node m ra a rb b) -> well st (Some m) b.
Proof.
  intros [(_ & _ & Tb) W2 (_ & _ & _ & Ob) W4]. apply node_nodes in W2 as (_ & _ & _ & Nb & _). split; try done. intros x Hx. apply W4. cbn. rewrite !elem_of_app. auto.
Qed.

(** What has come of a stream, and the stream itself: it goes when it is empty. *)
Definition held (f : fetched) : option (list Z) := match f with Rec x => Some x | _ => None end.
Definition rest (f : fetched) (t : tree) : tree := match f with Rec _ => t | _ => Gone end.

Definition fetched_ok (f : fetched) (t : tree) : Prop :=
  match f with Null => False | Eof => pend t = [] | Rec x => forall y, y ∈ pend t -> R x y end.

Lemma rest_ok f t st p :
  fetched_ok f t -> well st p t ->
  out_of f ++ pend t = option_list (held f) ++ pend (rest f t) /\ (nodes (rest f t)) `sublist_of` (nodes t) /\ before (held f) (pend (rest f t)) /\
  tree_at st p (rest f t) /\ ordered (rest f t).
Proof.
  intros Hf [W1 W2 W3 W4]. destruct f as [| |x]; cbn in *; [done|..].
  - rewrite Hf. split_and!; try done. apply sublist_nil_l.
  - split_and!; try done. intros x' y [= <-]. apply Hf.
Qed.

Lemma child_a st p m a rb b la f st1 a' :
  well st p (Node m None a rb b) -> a <> Gone -> moves st a la (out_of f) st1 a' -> well st1 (Some m) a' -> fetched_ok f a' ->
  exists x, mrgs st1 !! m = Some x /\ let t2 := Node m (held f) (rest f a') rb b in let st2 := set_mrg m (deliver f x) st1 in
    moves st (Node m None a rb b) la [] st2 t2 /\ well st2 p t2.
Proof.
  intros W Ha [M1 M2 M3 M4 M5 M6] W' Hf. pose proof (well_nodes _ _ _ W) as Hn. destruct W as [(T & Ta & Tb) _ (_ & Oa & Hb & Ob) Wv].
  apply node_nodes in Hn as Hn'. destruct Hn' as (Ma & Mb & Na & Nb & Hd). pose proof (M5 _ Ma) as Hm. cbn in Hm. rewrite T in Hm. eexists. split; [exact Hm|]. cbn zeta.
  destruct (rest_ok f a' st1 (Some m) Hf W') as (Ep & Sn & Hbef & Tr & Or).
  assert (deliver f (mk_merge p None (stream_of a) rb (stream_of b)) = mk_merge p (held f) (stream_of (rest f a')) rb (stream_of b)) as ->.
  { destruct f; [done|..]; cbn; (destruct (stream_of a) eqn:E; [|by destruct a]); cbn; [done|]. by rewrite M1. }
  assert (Ma' : Mrg m ∉ nodes (rest f a')) by (intros H; apply Ma; eapply sublist_subseteq; [exact M2|]; by eapply sublist_subseteq).
  assert (Tb1 : tree_at st1 (Some m) b) by (eapply tree_at_same; [|exact Tb]; intros s Hs; apply M5; intros Hs'; by eapply Hd).
  assert (Hsub : (nodes (Node m (held f) (rest f a') rb b)) `sublist_of` (nodes (Node m None a rb b))).
  { cbn. apply sublist_skip, sublist_app; [|done]. by etrans. }
  assert (Hpend : pend (Node m None a rb b) ≡ₚ la ++ pend (Node m (held f) (rest f a') rb b)).
  { cbn. by rewrite M3, Ep, <-!(assoc_L _ la). }
  split.
  - split; [done|done|done| | |].
    + intros x Hx. destruct (M4 x Hx) as (Hok & y & Hy & E). split; [done|]. exists y. split; [|done]. rewrite Ep in Hy. cbn [app pend]. apply elem_of_app. by left.
    + intros s Hs. assert (s <> Mrg m) by (intros ->; apply Hs; apply list_elem_of_here). pose proof (set_mrg_same s m (mk_merge p (held f) (stream_of (rest f a')) rb (stream_of b)) st1 H) as E.
      specialize (M5 s ltac:(intros Hs'; apply Hs; apply list_elem_of_further, elem_of_app; by left)). destruct s; cbn in *; congruence.
    + destruct M6, (set_mrg_size m (mk_merge p (held f) (stream_of (rest f a')) rb (stream_of b)) st1). split; congruence.
  - split.
    + apply set_mrg_node; [by eexists|done..].
    + by apply (sublist_NoDup _ _ Hn Hsub).
    + done.
    + intros x Hx. apply Wv. rewrite Hpend. apply elem_of_app. by right.
Qed.

Lemma child_b st p m ra a b lb f st1 b' :
  well st p (Node m ra a None b) -> (ra = None -> a = Gone) -> b <> Gone -> moves st b lb (out_of f) st1 b' -> well st1 (Some m) b' -> fetched_ok f b' ->
  exists x, mrgs st1 !! m = Some x /\ let t2 := Node m ra a (held f) (rest f b') in let st2 := set_mrg m (deliver f x) st1 in
    moves st (Node m ra a None b) lb [] st2 t2 /\ well st2 p t2.
Proof.
  intros W Hra Hb0 [M1 M2 M3 M4 M5 M6] W' Hf. pose proof (well_nodes _ _ _ W) as Hn. destruct W as [(T & Ta & Tb) _ (Ha & Oa & _ & Ob) Wv].
  apply node_nodes in Hn as Hn'. destruct Hn' as (Ma & Mb & Na & Nb & Hd). pose proof (M5 _ Mb) as Hm. cbn in Hm. rewrite T in Hm. eexists. split; [exact Hm|]. cbn zeta.
  destruct (rest_ok f b' st1 (Some m) Hf W') as (Ep & Sn & Hbef & Tr & Or).
  assert (deliver f (mk_merge p ra (stream_of a) None (stream_of b)) = mk_merge p ra (stream_of a) (held f) (stream_of (rest f b'))) as ->.
  { assert (bool_decide (is_Some (stream_of a)) && negb (bool_decide (is_Some ra)) = false) as E.
    { destruct ra; [by rewrite andb_comm|]. by rewrite (Hra eq_refl). }
    destruct f; [done|..]; cbn [deliver mrg_stream_a mrg_record_a]; rewrite E; cbn; [done|]. by rewrite M1. }
  assert (Mb' : Mrg m ∉ nodes (rest f b')) by (intros H; apply Mb; eapply sublist_subseteq; [exact M2|]; by eapply sublist_subseteq).
  assert (Ta1 : tree_at st1 (Some m) a) by (eapply tree_at_same; [|exact Ta]; intros s Hs; apply M5; intros Hs'; by eapply Hd).
  assert (Hsub : (nodes (Node m ra a (held f) (rest f b'))) `sublist_of` (nodes (Node m ra a None b))).
  { cbn. apply sublist_skip, sublist_app; [done|]. by etrans. }
  assert (Hpend : pend (Node m ra a None b) ≡ₚ lb ++ pend (Node m ra a (held f) (rest f b'))).
  { cbn. rewrite M3, Ep. rewrite !(assoc_L _ _ lb), (Permutation_app_comm _ lb). by rewrite <-!(assoc_L _ lb). }
  split.
  - split; [done|done|done| | |].
    + intros x Hx. destruct (M4 x Hx) as (Hok & y & Hy & E). split; [done|]. exists y. split; [|done]. rewrite Ep in Hy. cbn [app pend]. apply elem_of_app. by right.
    + intros s Hs. assert (s <> Mrg m) by (intros ->; apply Hs; apply list_elem_of_here). pose proof (set_mrg_same s m (mk_merge p ra (stream_of a) (held f) (stream_of (rest f b'))) st1 H) as E.
      specialize (M5 s ltac:(intros Hs'; apply Hs; apply list_elem_of_further, elem_of_app; by right)). destruct s; cbn in *; congruence.
    + destruct M6, (set_mrg_size m (mk_merge p ra (stream_of a) (held f) (stream_of (rest f b'))) st1). split; congruence.
  - split.
    + apply set_mrg_node; [by eexists|done..].
    + by apply (sublist_NoDup _ _ Hn Hsub).
    + done.
    + intros x Hx. apply Wv. rewrite Hpend. apply elem_of_app. by right.
Qed.

Lemma set_mrg_id m x st : mrgs st !! m = Some x -> set_mrg m x st = st.
Proof. intros H. destruct st as [l l']. unfold set_mrg. cbn in *. by rewrite list_insert_id. Qed.

(** Records held by a block are given away. *)
Lemma node_set st p m ra a rb b ra' rb' lost out :
  well st p (Node m ra a rb b) -> (ra' = ra \/ ra' = None) -> (rb' = rb \/ rb' = None) -> (forall x, x ∈ lost -> lost_ok x /\ exists y, y ∈ out ++ pend (Node m ra' a rb' b) /\ unique_of_record x = unique_of_record y) ->
  pend (Node m ra a rb b) ≡ₚ lost ++ out ++ pend (Node m ra' a rb' b) ->
  let st' := set_mrg m (mk_merge p ra' (stream_of a) rb' (stream_of b)) st in
  moves st (Node m ra a rb b) lost out st' (Node m ra' a rb' b) /\ well st' p (Node m ra' a rb' b).
Proof.
  intros W Hra Hrb Hlost Hp st'. pose proof (well_nodes _ _ _ W) as Hn. destruct (node_nodes _ _ _ _ _ Hn) as (Ma & Mb & _). destruct W as [(T & Ta & Tb) _ (Ha & Oa & Hb & Ob) Wv].
  split.
  - split; try done; [|apply set_mrg_size]. intros s Hs. apply set_mrg_same. intros ->. apply Hs. apply list_elem_of_here.
  - split; [apply set_mrg_node; try done; by eexists|done| |].
    + cbn. split_and!; [by destruct Hra as [->| ->]|done|by destruct Hrb as [->| ->]|done].
    + intros x Hx. apply Wv. rewrite Hp, !elem_of_app. auto.
Qed.

Definition fetches (p : option nat) (st : merge_state) (t : tree) : Prop :=
  exists k f st' t' lost,
    (forall fuel, get_merge (k + fuel) srt (stream_of t) Null st = get_merge fuel srt (Mrg <$> p) f st') /\
    k <= 3 * length (nodes t) * (1 + length lost) /\ moves st t lost (out_of f) st' t' /\ well st' p t' /\ fetched_ok f t'.

Lemma leaf_fetches p st r d l : well st p (Leaf r d l) -> fetches p st (Leaf r d l).
Proof.
  intros W. pose proof W as [T _ O V]. cbn in T, O. destruct l as [|x l].
  - exists 1, Eof, st, (Leaf r d []), []. split; [|split; [cbn; lia|split; [apply moves_refl|done]]].
    intros fuel. cbn [stream_of Nat.add get_merge]. unfold merge_turn. rewrite T. done.
  - exists 1, (Rec x), (set_run r (mk_run l d p) st), (Leaf r d l), []. apply StronglySorted_inv in O as [O F]. rewrite List.Forall_forall in F.
    split; [|split; [cbn; lia|split; [|split]]].
    + intros fuel. cbn [stream_of Nat.add get_merge]. unfold merge_turn. rewrite T. done.
    + split; try done.
      * by intros y ?%elem_of_nil.
      * intros [r'|m']; cbn; [|done]. intros H. rewrite list_lookup_insert_ne; [done|]. intros ->. apply H, list_elem_of_here.
      * split; [|done]. cbn. by rewrite length_insert.
    + split; [|by apply (well_nodes _ _ _ W)|done|].
      * cbn. by rewrite list_lookup_insert_eq by (by eapply lookup_lt_Some).
      * intros y Hy. apply V. cbn. by apply list_elem_of_further.
    + cbn. intros y Hy. apply F. by apply list_elem_of_In.
Qed.

(** A stream a block has to ask is asked. *)
Lemma resolve_a st p m ra a rb b :
  well st p (Node m ra a rb b) -> (a <> Gone -> fetches (Some m) st a) ->
  exists k st' ra' a' lost,
    (forall fuel, get_merge (k + S fuel) srt (Some (Mrg m)) Null st = get_merge (S fuel) srt (Some (Mrg m)) Null st') /\
    k <= 1 + 3 * length (nodes a) * (1 + length lost) /\ (ra' = None -> a' = Gone) /\
    moves st (Node m ra a rb b) lost [] st' (Node m ra' a' rb b) /\ well st' p (Node m ra' a' rb b).
Proof.
  intros W IH. assert (ra <> None \/ a = Gone \/ ra = None /\ a <> Gone) as [Hn|[->|[-> Ha]]] by (destruct ra, a; auto).
  - exists 0, st, ra, a, []. split_and!; [done|lia|done|apply moves_refl|done].
  - exists 0, st, ra, Gone, []. split_and!; [done|lia|done|apply moves_refl|done].
  - destruct (IH Ha) as (k & f & st1 & a' & lost & E & Hk & M & W' & Hf).
    destruct (child_a st p m a rb b lost f st1 a' W Ha M W' Hf) as (x & Hx & M2 & W2). eexists (1 + k), _, _, _, lost. split_and!; [|lia| |exact M2|exact W2].
    + intros fuel. rewrite <-(get_deliver fuel m x f) by done. rewrite <-Nat.add_assoc. cbn [Nat.add get_merge]. unfold merge_turn.
      destruct (well_at _ _ _ W) as (T & _). rewrite T. cbn [deliver mrg_record_a mrg_stream_a]. destruct (stream_of a) as [s|] eqn:Es; [|by destruct a]. cbn [obind].
      rewrite set_mrg_id by done. apply E.
    + by destruct f.
Qed.

Lemma resolve_b st p m ra a rb b :
  well st p (Node m ra a rb b) -> (ra = None -> a = Gone) -> (b <> Gone -> fetches (Some m) st b) ->
  exists k st' rb' b' lost,
    (forall fuel, get_merge (k + S fuel) srt (Some (Mrg m)) Null st = get_merge (S fuel) srt (Some (Mrg m)) Null st') /\
    k <= 1 + 3 * length (nodes b) * (1 + length lost) /\ (rb' = None -> b' = Gone) /\
    moves st (Node m ra a rb b) lost [] st' (Node m ra a rb' b') /\ well st' p (Node m ra a rb' b').
Proof.
  intros W Hra IH. assert (rb <> None \/ b = Gone \/ rb = None /\ b <> Gone) as [Hn|[->|[-> Hb]]] by (destruct rb, b; auto).
  - exists 0, st, rb, b, []. split_and!; [done|lia|done|apply moves_refl|done].
  - exists 0, st, rb, Gone, []. split_and!; [done|lia|done|apply moves_refl|done].
  - destruct (IH Hb) as (k & f & st1 & b' & lost & E & Hk & M & W' & Hf).
    destruct (child_b st p m ra a b lost f st1 b' W Hra Hb M W' Hf) as (x & Hx & M2 & W2). eexists (1 + k), _, _, _, lost. split_and!; [|lia| |exact M2|exact W2].
    + intros fuel. rewrite <-(get_deliver fuel m x f) by done. rewrite <-Nat.add_assoc. cbn [Nat.add get_merge]. unfold merge_turn.
      destruct (well_at _ _ _ W) as (T & _). rewrite T. cbn [deliver mrg_record_a mrg_stream_a mrg_record_b mrg_stream_b]. destruct (stream_of b) as [s|] eqn:Es; [|by destruct b].
      destruct ra as [xa|]; [|rewrite (Hra eq_refl)]; cbn [stream_of obind]; rewrite ?set_mrg_id by done; [apply E|].
      rewrite (Hra eq_refl) in T. rewrite set_mrg_id by done. apply E.
    + by destruct f.
Qed.

Lemma offer_ok equal a b :
  valid a -> valid b -> (equal = true <-> unique_of_record a = unique_of_record b) ->
  offer srt equal a b = (false, a, b) /\ ~ rejects srt a b \/ exists a', offer srt equal a b = (true, a', b) /\ rejects srt a b.
Proof.
  intros Ha Hb He. unfold offer, rejects. destruct scb_dup_callback as [callback|]; [|left; split; [done|by intros (? & [=] & _)]].
  destruct equal.
  - rewrite !valid_undo by done. destruct (callback (diddle_key srt false a) (diddle_key srt false b)) eqn:Ec.
    + right. eexists. split; [done|]. exists callback. split_and!; [done|by apply He|done].
    + left. split; [done|]. intros (? & [= <-] & _ & ?). congruence.
  - left. split; [done|]. intros (? & _ & E & _). apply He in E. done.
Qed.

Lemma before_choose m p ra a rb b st x :
  well st p (Node m ra a rb b) -> (forall y, ra = Some y -> R x y) -> (ra = None -> forall z, z ∈ pend a -> R x z) ->
  (forall y, rb = Some y -> R x y) -> (rb = None -> forall z, z ∈ pend b -> R x z) -> forall z, z ∈ pend (Node m ra a rb b) -> R x z.
Proof.
  intros [_ _ (Ha & _ & Hb & _) _] H1 H2 H3 H4 z. cbn. rewrite !elem_of_app. intros [[Hz|Hz]|[Hz|Hz]].
  - destruct ra as [y|]; cbn in Hz; [|by apply elem_of_nil in Hz]. apply list_elem_of_singleton in Hz as ->. by apply H1.
  - destruct ra as [y|]; [|by apply H2]. eapply R_trans; [by apply (H1 y)|by apply (Ha y)].
  - destruct rb as [y|]; cbn in Hz; [|by apply elem_of_nil in Hz]. apply list_elem_of_singleton in Hz as ->. by apply H3.
  - destruct rb as [y|]; [|by apply H4]. eapply R_trans; [by apply (H3 y)|by apply (Hb y)].
Qed.

(** A block with what it needs gives a record away, or loses one. *)
Lemma ready st p m ra a rb b :
  well st p (Node m ra a rb b) -> (ra = None -> a = Gone) -> (rb = None -> b = Gone) ->
  (exists f st' t', (forall fuel, get_merge (S fuel) srt (Some (Mrg m)) Null st = get_merge fuel srt (Mrg <$> p) f st') /\
     moves st (Node m ra a rb b) [] (out_of f) st' t' /\ well st' p t' /\ fetched_ok f t') \/
  exists x st' t', (forall fuel, get_merge (S fuel) srt (Some (Mrg m)) Null st = get_merge fuel srt (stream_of t') Null st') /\
     moves st (Node m ra a rb b) [x] [] st' t' /\ well st' p t'.
Proof.
  intros W Hra Hrb. destruct (well_at _ _ _ W) as (T & _). pose proof (well_ordered _ _ _ W) as (Ba & _ & Bb & _). pose proof (well_valid _ _ _ W) as V.
  assert (NS : forall (P : list Z -> Prop) x, x ∈ [] -> P x) by (by intros P x ?%elem_of_nil).
  destruct ra as [x|]; [destruct rb as [y|]|].
  - assert (Vx : valid x) by (apply V; cbn; apply list_elem_of_here). assert (Vy : valid y) by (apply V; cbn; rewrite elem_of_cons, elem_of_app, elem_of_cons; auto).
    destruct (compare_unique x y Vx Vy) as (e & w & E & He & Hc).
    assert (Hturn : forall fuel, get_merge (S fuel) srt (Some (Mrg m)) Null st =
      (let '(reject, a', b') := offer srt e x y in
       if reject : bool then get_merge fuel srt (Some (Mrg m)) Null (set_mrg m (mk_merge p None (stream_of a) (Some b') (stream_of b)) st) else
       let* (parent, f, z) := choose (mk_merge p (Some x) (stream_of a) (Some y) (stream_of b)) e w a' b' in get_merge fuel srt (Mrg <$> parent) f (set_mrg m z st))).
    { intros fuel. cbn [get_merge]. unfold merge_turn. rewrite T. cbn [deliver mrg_record_a mrg_stream_a mrg_record_b mrg_stream_b]. rewrite E. destruct (stream_of a); cbn [obind];
        destruct (offer srt e x y) as [[[] ?] ?]; cbn [obind]; try done; by destruct (choose _ _ _ _ _) as [[[? ?] ?]|]. }
    destruct (offer_ok e x y Vx Vy He) as [[Eo Hn]|(x' & Eo & Hr)]; rewrite Eo in Hturn.
    + left. destruct (Hc (mk_merge p (Some x) (stream_of a) (Some y) (stream_of b))) as (r & Er & [[-> Hle]|[-> Hle]]); rewrite Er in Hturn; cbn [obind] in Hturn.
      * destruct (node_set st p m (Some x) a (Some y) b None (Some y) [] [x] W) as (M & W'); [by right|by left|apply NS|done|].
        eexists (Rec x), _, _. split; [exact Hturn|]. split; [exact M|]. split; [exact W'|]. cbn [fetched_ok]. assert (R x y) by (apply (R_kept srt x y Vx Vy Hle); by left).
        apply (before_choose _ _ _ _ _ _ _ _ W'); [done|intros _ z Hz; by apply (Ba x z)|intros ? [= <-]; done|done].
      * destruct (node_set st p m (Some x) a (Some y) b (Some x) None [] [y] W) as (M & W'); [by left|by right|apply NS|cbn; rewrite <-(Permutation_middle (pend a)); apply perm_swap|].
        eexists (Rec y), _, _. split; [exact Hturn|]. split; [exact M|]. split; [exact W'|]. cbn [fetched_ok]. assert (R y x) by (apply (R_kept srt y x Vy Vx Hle); by right).
        apply (before_choose _ _ _ _ _ _ _ _ W'); [intros ? [= <-]; done|done|done|intros _ z Hz; by apply (Bb y z)].
    + right. destruct (node_set st p m (Some x) a (Some y) b None (Some y) [x] [] W) as (M & W'); [by right|by left| |done|].
      { intros z ->%list_elem_of_singleton. split; [split; [done|by exists srt, y]|]. exists y. split; [cbn; rewrite elem_of_app, elem_of_cons; auto|by destruct Hr as (? & _ & ? & _)]. }
      exists x. eexists _, (Node m None a (Some y) b). split; [exact Hturn|]. split; [exact M|exact W'].
  - left. rewrite (Hrb eq_refl) in *. destruct (node_set st p m (Some x) a None Gone None None [] [x] W) as (M & W'); [by right|by left|apply NS|done|].
    eexists (Rec x), _, _. split; [|split; [exact M|split; [exact W'|]]].
    + intros fuel. cbn [get_merge]. unfold merge_turn. rewrite T. cbn [deliver mrg_record_a mrg_stream_a mrg_record_b mrg_stream_b stream_of]. by destruct (stream_of a).
    + cbn. rewrite app_nil_r. intros z Hz. by apply (Ba x z).
  - left. rewrite (Hra eq_refl) in *. destruct rb as [y|].
    + destruct (node_set st p m None Gone (Some y) b None None [] [y] W) as (M & W'); [by left|by right|apply NS|done|].
      eexists (Rec y), _, _. split; [|split; [exact M|split; [exact W'|]]].
      * intros fuel. cbn [get_merge]. unfold merge_turn. rewrite T. cbn [deliver mrg_record_a mrg_stream_a mrg_record_b mrg_stream_b stream_of]. by destruct (stream_of b).
      * cbn. intros z Hz. by apply (Bb y z).
    + rewrite (Hrb eq_refl) in *. exists Eof, st, (Node m None Gone None Gone). split; [|split; [apply moves_refl|done]].
      intros fuel. cbn [get_merge]. unfold merge_turn. rewrite T. cbn [deliver mrg_record_a mrg_stream_a mrg_record_b mrg_stream_b stream_of obind].
      by rewrite set_mrg_id.
Qed.

(** A stream that is asked gives the record that comes first, or is at its end. *)
Lemma tree_fetches st p t : t <> Gone -> well st p t -> fetches p st t.
Proof.
  remember (length (nodes t) + length (pend t)) as n eqn:Hn. revert st p t Hn. induction (lt_wf n) as [n _ IH]. intros st p t -> Ht W.
  destruct t as [|r d l|m ra a rb b]; [done|by apply leaf_fetches|].
  destruct (resolve_a st p m ra a rb b W) as (ka & st1 & ra1 & a1 & la & Ea & Ka & Hra & Ma & Wa).
  { intros Ha. eapply IH; [|done|done|by eapply well_child_a]. cbn. rewrite !length_app. lia. }
  pose proof (sublist_length _ _ (moves_nodes _ _ _ _ _ _ Ma)) as Na. pose proof (Permutation_length (moves_pend _ _ _ _ _ _ Ma)) as Pa. cbn [app] in Pa. rewrite length_app in Pa.
  cbn [nodes length] in Na. rewrite !length_app in Na.
  destruct (resolve_b st1 p m ra1 a1 rb b Wa Hra) as (kb & st2 & rb2 & b2 & lb & Eb & Kb & Hrb & Mb & Wb).
  { intros Hb. eapply IH; [|done|done|by eapply well_child_b]. cbn in *. rewrite !length_app in *. lia. }
  pose proof (sublist_length _ _ (moves_nodes _ _ _ _ _ _ Mb)) as Nb. pose proof (Permutation_length (moves_pend _ _ _ _ _ _ Mb)) as Pb. cbn [app] in Pb. rewrite length_app in Pb.
  cbn [nodes length] in Nb. rewrite !length_app in Nb. pose proof (moves_trans _ _ _ _ _ _ _ _ _ Ma Mb) as M.
  assert (E : forall k (Q : nat -> outcome (option (list Z) * merge_state)), (forall fuel, get_merge (S (k + fuel)) srt (Some (Mrg m)) Null st2 = Q fuel) ->
    forall fuel, get_merge ((ka + kb + S k) + fuel) srt (Some (Mrg m)) Null st = Q fuel).
  { intros k Q HQ fuel. rewrite <-HQ, <-Eb, <-Nat.add_succ_r. transitivity (get_merge (S (kb + (k + fuel))) srt (Some (Mrg m)) Null st1); [|f_equal; lia].
    rewrite <-Ea. f_equal. lia. }
  destruct (ready st2 p m ra1 a1 rb2 b2 Wb Hra Hrb) as [(f & st3 & t3 & Er & M3 & W3 & Hf)|(x & st3 & t3 & Er & M3 & W3)].
  - exists (ka + kb + 1), f, st3, t3, ((la ++ lb) ++ []). split; [|split; [|split; [by eapply moves_trans|done]]].
    + apply (E 0 (fun fuel => get_merge fuel srt (Mrg <$> p) f st3)). apply Er.
    + cbn [nodes length]. rewrite !length_app. cbn [length]. nia.
  - pose proof (sublist_length _ _ (moves_nodes _ _ _ _ _ _ M3)) as N3. pose proof (Permutation_length (moves_pend _ _ _ _ _ _ M3)) as P3.
    cbn [app length] in P3. cbn [nodes length] in N3. rewrite !length_app in N3.
    destruct (IH (length (nodes t3) + length (pend t3)) ltac:(cbn in *; rewrite !length_app in *; lia) st3 p t3 eq_refl) as (k & f & st4 & t4 & lost & E4 & K4 & M4 & W4 & Hf); [|done|].
    { intros ->. by pose proof (moves_stream _ _ _ _ _ _ M3). }
    exists (ka + kb + S k), f, st4, t4, (((la ++ lb) ++ [x]) ++ lost). split; [|split; [|split; [|done]]].
    + apply (E k (fun fuel => get_merge fuel srt (Mrg <$> p) f st4)). intros fuel. rewrite Er. apply E4.
    + cbn [nodes length]. rewrite !length_app. cbn [length]. nia.
    + by eapply moves_trans; [eapply moves_trans|].
Qed.

End Merge.

End SortMerge.
