(* ===== verification/SortTree.v ===== *)
(** * Merge trees as they are built and read ([jrd/sort.cpp])

    The passes over the runs end with one tree of all of them; the fuel of
    [get_merge] is enough for a tree; and what comes out of one, until it is
    empty, is all its records in order, but those that are rejected. *)

From S2P Require Import Prelude.
From S2P Require Import Sort.
From S2P Require Import SortQuick.
From S2P Require Import SortMerge.
From stdpp Require Import list sorting.

Module SortTree.
Import Sort SortQuick SortMerge.
#[local] Open Scope nat_scope.

Section Tree.
Context `{SK : SortKeys} {valid : list Z -> Prop} {R : list Z -> list Z -> Prop} {MG : Merging valid R}.

(** Records of a list that are left when some are rejected, each for another
    with the same unique key. *)
Definition reduces (l l' : list (list Z)) : Prop :=
  exists lost, l ≡ₚ lost ++ l' /\ forall x, x ∈ lost -> lost_ok (valid := valid) x /\ exists y, y ∈ l' /\ unique_of_record x = unique_of_record y.

Lemma reduces_same l l' : l ≡ₚ l' -> reduces l l'.
Proof. intros H. exists []. split; [done|]. by intros x ?%elem_of_nil. Qed.

Lemma reduces_trans l1 l2 l3 : reduces l1 l2 -> reduces l2 l3 -> reduces l1 l3.
Proof.
  intros (a & Ha & La) (b & Hb & Lb). exists (a ++ b). split; [by rewrite Ha, Hb, (assoc_L _)|]. intros x [Hx|Hx]%elem_of_app; [|by apply Lb].
  destruct (La x Hx) as (Hok & y & Hy & E). split; [done|]. rewrite Hb in Hy. apply elem_of_app in Hy as [Hy|Hy]; [|by exists y].
  destruct (Lb y Hy) as (_ & z & Hz & E'). exists z. split; [done|]. congruence.
Qed.

Lemma reduces_app l1 l1' l2 l2' : reduces l1 l1' -> reduces l2 l2' -> reduces (l1 ++ l2) (l1' ++ l2').
Proof.
  intros (a & Ha & La) (b & Hb & Lb). exists (a ++ b). split.
  - rewrite Ha, Hb, <-!(assoc_L _). f_equiv. rewrite !(assoc_L _). f_equiv. apply Permutation_app_comm.
  - intros x [Hx|Hx]%elem_of_app; [destruct (La x Hx) as (Hok & y & Hy & E)|destruct (Lb x Hx) as (Hok & y & Hy & E)];
      (split; [done|]; exists y; split; [|done]; apply elem_of_app; auto).
Qed.

Lemma reduces_in l l' x : reduces l l' -> x ∈ l' -> x ∈ l.
Proof. intros (a & Ha & _) Hx. rewrite Ha. apply elem_of_app. by right. Qed.

Lemma reduces_length l l' : reduces l l' -> length l' <= length l.
Proof. intros (a & Ha & _). rewrite Ha, length_app. lia. Qed.

Lemma moves_reduces st t lost out st' t' : moves (valid := valid) st t lost out st' t' -> reduces (pend t) (out ++ pend t').
Proof. intros M. exists lost. split; apply M. Qed.

(** ** The fuel *)

Definition all_nodes (st : merge_state) : list stream :=
  (Run <$> seq 0 (length (runs st))) ++ (Mrg <$> seq 0 (length (mrgs st))).

Definition there (st : merge_state) (s : stream) : Prop :=
  match s with Run r => r < length (runs st) | Mrg m => m < length (mrgs st) end.

Lemma all_nodes_there st s : s ∈ all_nodes st <-> there st s.
Proof.
  unfold all_nodes. rewrite elem_of_app, !list_elem_of_fmap. setoid_rewrite elem_of_seq. destruct s; cbn; split.
  - intros [(y & [= ->] & ?)|(y & ? & _)]; [lia|done].
  - intros H. left. exists r. split; [done|lia].
  - intros [(y & ? & _)|(y & [= ->] & ?)]; [done|lia].
  - intros H. right. exists m. split; [done|lia].
Qed.

Lemma tree_there st p t s : tree_at st p t -> s ∈ nodes t -> there st s.
Proof.
  revert p. induction t as [|r d l|m ra a IHa rb b IHb]; intros p; cbn.
  - by intros _ ?%elem_of_nil.
  - intros H ->%list_elem_of_singleton. by eapply lookup_lt_Some.
  - intros (H & Ha & Hb) [->|[Hs|Hs]%elem_of_app]%elem_of_cons; [by eapply lookup_lt_Some|by eapply IHa|by eapply IHb].
Qed.

Definition weight (st : merge_state) (s : stream) : nat :=
  match s with Run r => from_option (length ∘ run_records) 0 (runs st !! r) | Mrg _ => 2 end.

Lemma pend_weight st p t : tree_at st p t -> length (pend t) <= list_sum (weight st <$> nodes t).
Proof.
  revert p. induction t as [|r d l|m ra a IHa rb b IHb]; intros p; cbn; [lia|intros ->; cbn; lia|].
  intros (_ & Ha & Hb). specialize (IHa _ Ha). specialize (IHb _ Hb). rewrite fmap_app, list_sum_app, !length_app. unfold list_sum in *. destruct ra, rb; cbn; lia.
Qed.

Lemma submseteq_sum (f : stream -> nat) l l' : l ⊆+ l' -> list_sum (f <$> l) <= list_sum (f <$> l').
Proof. unfold list_sum. induction 1; cbn in *; lia. Qed.

Lemma run_weights (l : list run_control) : list_sum ((fun r => from_option (length ∘ run_records) 0 (l !! r)) <$> seq 0 (length l)) = list_sum (length ∘ run_records <$> l).
Proof.
  induction l as [|x l IH]; [done|]. cbn [length seq fmap list_fmap list_sum foldr]. rewrite <-fmap_S_seq, <-list_fmap_compose. unfold list_sum in *. cbn. f_equal. apply IH.
Qed.

Lemma all_weights st : list_sum (weight st <$> all_nodes st) = list_sum (length ∘ run_records <$> runs st) + 2 * length (mrgs st).
Proof.
  unfold all_nodes. rewrite fmap_app, list_sum_app, <-!list_fmap_compose. f_equal; [apply run_weights|].
  generalize 0 at 1. induction (length (mrgs st)) as [|n IH]; intros k; [done|]. cbn. rewrite IH. lia.
Qed.

Lemma fuel_enough st p t (lost : list (list Z)) k :
  well (R := R) (valid := valid) st p t -> length lost <= length (pend t) -> k <= 3 * length (nodes t) * (1 + length lost) -> k <= merge_fuel st.
Proof.
  intros [T N _ _] Hl Hk. assert (Hsub : nodes t ⊆+ all_nodes st).
  { apply NoDup_submseteq; [done|]. intros s Hs. apply all_nodes_there. by eapply tree_there. }
  pose proof (pend_weight st p t T) as Hw. pose proof (submseteq_sum (weight st) _ _ Hsub) as Hs. rewrite all_weights in Hs.
  apply submseteq_length in Hsub. unfold all_nodes in Hsub. rewrite length_app, !length_fmap, !length_seq in Hsub. unfold merge_fuel.
  etransitivity; [exact Hk|]. etransitivity; [|apply Nat.le_add_r]. apply Nat.mul_le_mono; lia.
Qed.

(** ** Reading a tree *)

(** One call of [get_merge]. *)
Lemma get_merge_ok srt st t :
  t <> Gone -> well (R := R) (valid := valid) st None t ->
  exists f st' t' lost, get_merge (merge_fuel st) srt (stream_of t) Null st = Ret (held f, st') /\
    moves (valid := valid) st t lost (out_of f) st' t' /\ well (R := R) (valid := valid) st' None t' /\ fetched_ok (R := R) f t'.
Proof.
  intros Ht W. destruct (tree_fetches srt st None t Ht W) as (k & f & st' & t' & lost & E & Hk & M & W' & Hf).
  exists f, st', t', lost. split; [|done]. pose proof (Permutation_length (moves_pend _ _ _ _ _ _ M)) as Hp. rewrite !length_app in Hp.
  pose proof (fuel_enough st None t lost k W ltac:(lia) Hk) as Hfuel. replace (merge_fuel st) with (k + (merge_fuel st - k)) by lia. rewrite E. generalize (merge_fuel st - k). intros n. cbn [fmap option_fmap option_map].
  by destruct n, f.
Qed.

Lemma merge_all_ok n srt st t s :
  stream_of t = Some s -> well (R := R) (valid := valid) st None t -> length (pend t) < n ->
  exists l, merge_all n srt s st = Ret l /\ reduces (pend t) l /\ StronglySorted R l.
Proof.
  revert st t. induction n as [|n IH]; intros st t Hs W Hn; [lia|]. cbn [merge_all].
  destruct (get_merge_ok srt st t ltac:(by intros ->) W) as (f & st' & t' & lost & E & M & W' & Hf). rewrite Hs in E. rewrite E. cbn [obind].
  pose proof (moves_reduces _ _ _ _ _ _ M) as Hp. destruct f as [| |x]; [done|..]; cbn in Hf, Hp |- *.
  - exists []. rewrite Hf in Hp. split; [done|]. split; [done|constructor].
  - pose proof (reduces_length _ _ Hp) as Hl. cbn in Hl.
    destruct (IH st' t') as (l & -> & Hp' & Hsl); [by rewrite (moves_stream _ _ _ _ _ _ M)|done|lia|].
    exists (x :: l). split; [done|]. split.
    + eapply reduces_trans; [exact Hp|]. apply (reduces_app [x] [x]); [by apply reduces_same|done].
    + constructor; [done|]. apply List.Forall_forall. intros y Hy%list_elem_of_In. apply Hf. by eapply reduces_in.
Qed.

(** ** Building a tree *)

Definition trees_at (st : merge_state) (ts : list tree) : Prop :=
  forall t, t ∈ ts -> t <> Gone /\ ordered (R := R) t /\ exists p, tree_at st p t.

Definition all_of (ts : list tree) : list stream := concat (nodes <$> ts).
Definition pending (ts : list tree) : list (list Z) := concat (pend <$> ts).

Lemma all_of_in t ts s : t ∈ ts -> s ∈ nodes t -> s ∈ all_of ts.
Proof. intros Ht Hs. unfold all_of. apply list_elem_of_In, List.in_concat. exists (nodes t). split; apply list_elem_of_In; [by apply list_elem_of_fmap_2|done]. Qed.

Lemma trees_at_same st st' ts : (forall s, s ∈ all_of ts -> same s st st') -> trees_at st ts -> trees_at st' ts.
Proof.
  intros Hs H t Ht. destruct (H t Ht) as (H1 & H2 & p & H3). split; [done|]. split; [done|]. exists p. eapply tree_at_same; [|exact H3].
  intros s Hin. apply Hs. by eapply all_of_in.
Qed.

Lemma set_parent_same s s' p st : s' <> s -> same s' st (set_parent s p st).
Proof. intros Hs. destruct s as [r|m], s' as [r'|m']; cbn; try done; (rewrite list_lookup_alter_ne; [done|]); by intros ->. Qed.

Lemma set_parent_size s p st : same_size st (set_parent s p st).
Proof. destruct s; split; cbn; by rewrite ?length_alter. Qed.

Lemma set_parent_tree s p q st t : tree_at st q t -> stream_of t = Some s -> NoDup (nodes t) -> tree_at (set_parent s p st) p t.
Proof.
  intros T Hs N. destruct t as [|r d l|m ra a rb b]; [done|..]; injection Hs as <-; cbn in T |- *.
  - by rewrite list_lookup_alter_eq, T.
  - destruct T as (T & Ta & Tb). apply node_nodes in N as (Ma & Mb & _). rewrite list_lookup_alter_eq, T. split; [done|].
    split; (eapply tree_at_same; [|done]); intros s Hin; apply (set_parent_same (Mrg m)); by intros ->.
Qed.

Lemma same_trans s st st1 st2 : same s st st1 -> same s st1 st2 -> same s st st2.
Proof. destruct s; cbn; congruence. Qed.

(** Two streams get a block. *)
Definition joined (st : merge_state) (a b : stream) : merge_state :=
  let merge := length (mrgs st) in
  let st := set_parent b (Some merge) (set_parent a (Some merge) st) in
  mk_merge_state (runs st) (mrgs st ++ [mk_merge None None (Some a) None (Some b)]).

Lemma append_same s x st : there st s -> same s st (mk_merge_state (runs st) (mrgs st ++ [x])).
Proof. destruct s; cbn; [done|]. intros H. by rewrite lookup_app_l. Qed.

Lemma joined_same s a b st : there st s -> s <> a -> s <> b -> same s st (joined st a b).
Proof.
  intros Hs Ha Hb. eapply same_trans; [by apply (set_parent_same a)|]. eapply same_trans; [by apply (set_parent_same b)|]. apply append_same.
  destruct (set_parent_size a (Some (length (mrgs st))) st) as [E1 E2]. destruct (set_parent_size b (Some (length (mrgs st))) (set_parent a (Some (length (mrgs st))) st)) as [E3 E4].
  destruct s; cbn in *; congruence.
Qed.

Lemma joined_size a b st : length (runs (joined st a b)) = length (runs st) /\ length (mrgs (joined st a b)) = S (length (mrgs st)).
Proof.
  unfold joined. cbn. rewrite length_app. cbn. destruct (set_parent_size a (Some (length (mrgs st))) st) as [E1 E2].
  destruct (set_parent_size b (Some (length (mrgs st))) (set_parent a (Some (length (mrgs st))) st)) as [E3 E4]. lia.
Qed.

Lemma joined_tree st p q a b ta tb :
  tree_at st p ta -> tree_at st q tb -> stream_of ta = Some a -> stream_of tb = Some b -> NoDup (nodes ta ++ nodes tb) ->
  tree_at (joined st a b) None (Node (length (mrgs st)) None ta None tb).
Proof.
  intros Ta Tb Ea Eb N. apply NoDup_app in N as (Na & Hd & Nb). set (merge := length (mrgs st)).
  assert (Ra : a ∈ nodes ta) by (destruct ta; [done|injection Ea as <-; apply list_elem_of_here..]).
  assert (Rb : b ∈ nodes tb) by (destruct tb; [done|injection Eb as <-; apply list_elem_of_here..]).
  set (st1 := set_parent a (Some merge) st). set (st2 := set_parent b (Some merge) st1).
  assert (Hsize : length (mrgs st2) = merge).
  { destruct (set_parent_size a (Some merge) st) as [_ E2]. destruct (set_parent_size b (Some merge) st1) as [_ E4]. unfold st2. rewrite E4. exact E2. }
  assert (Ta2 : tree_at st2 (Some merge) ta).
  { eapply tree_at_same; [|by apply (set_parent_tree a _ p)]. intros s Hs. apply set_parent_same. intros ->. by eapply Hd. }
  assert (Tb2 : tree_at st2 (Some merge) tb).
  { apply (set_parent_tree b _ q); [|done|done]. eapply tree_at_same; [|exact Tb]. intros s Hs. apply set_parent_same. intros ->. by eapply Hd. }
  change (joined st a b) with (mk_merge_state (runs st2) (mrgs st2 ++ [mk_merge None None (Some a) None (Some b)])). cbn [tree_at mrgs].
  rewrite lookup_app_r, Hsize, Nat.sub_diag by lia. split; [by rewrite Ea, Eb|].
  split; [apply (tree_at_same st2); [|exact Ta2]|apply (tree_at_same st2); [|exact Tb2]]; intros s Hs; apply append_same;
    [by apply (tree_there st2 _ ta s Ta2)|by apply (tree_there st2 _ tb s Tb2)].
Qed.

Record pass (st : merge_state) (ts : list tree) (st' : merge_state) (ts' : list tree) : Prop := {
  pass_trees : trees_at st' ts';
  pass_nodes : NoDup (all_of ts');
  pass_pending : pending ts' = pending ts;
  pass_new s : s ∈ all_of ts' -> s ∈ all_of ts \/ ~ there st s;
  pass_same s : there st s -> s ∉ all_of ts -> same s st st';
  pass_runs : length (runs st') = length (runs st) /\ length (mrgs st) <= length (mrgs st')
}.

Lemma merge_pass_ok n : forall st ts streams,
  length ts <= n -> trees_at st ts -> NoDup (all_of ts) -> stream_of <$> ts = Some <$> streams ->
  exists st' ts' streams', merge_pass streams st = (streams', st') /\ pass st ts st' ts' /\ stream_of <$> ts' = Some <$> streams' /\
    2 * length ts' <= S (length ts) /\ (ts <> [] -> ts' <> []).
Proof.
  induction n as [n IH] using lt_wf_ind; intros st ts streams Hn H N Hs.
  assert (Hsmall : ts = [] \/ (exists t, ts = [t]) -> merge_pass streams st = (streams, st) ->
    exists st' ts' streams', merge_pass streams st = (streams', st') /\ pass st ts st' ts' /\ stream_of <$> ts' = Some <$> streams' /\
    2 * length ts' <= S (length ts) /\ (ts <> [] -> ts' <> [])).
  { intros Hts E. exists st, ts, streams. split_and!; [done| |done|destruct Hts as [->|[t ->]]; cbn; lia|done]. split; try done; [intros s; by left|by intros []]. }
  destruct ts as [|ta [|tb ts]], streams as [|a [|b streams]]; try discriminate Hs.
  { apply Hsmall; [by left|done]. } { apply Hsmall; [right; by eexists|done]. }
  cbn in Hs. injection Hs as Ea Eb Hs. cbn [merge_pass]. fold (joined st a b). clear Hsmall.
  destruct (H ta ltac:(apply list_elem_of_here)) as (_ & Oa & p & Ta). destruct (H tb ltac:(apply list_elem_of_further, list_elem_of_here)) as (_ & Ob & q & Tb).
  unfold all_of in N. cbn in N. rewrite (assoc_L _) in N. apply NoDup_app in N as (Nab & Hd & N). fold (all_of ts) in Hd, N.
  set (st1 := joined st a b). set (node := Node (length (mrgs st)) None ta None tb).
  assert (Tn : tree_at st1 None node) by (by eapply joined_tree).
  assert (a ∈ nodes ta ++ nodes tb /\ b ∈ nodes ta ++ nodes tb) as [Hina Hinb].
  { rewrite !elem_of_app. split; [left; destruct ta|right; destruct tb]; try done; (injection Ea as <- || injection Eb as <-); apply list_elem_of_here. }
  assert (Hts : trees_at st ts) by (intros t Ht; apply H; by do 2 apply list_elem_of_further).
  assert (Hthere : forall s, s ∈ all_of ts -> there st s).
  { intros s Hin. apply list_elem_of_In, List.in_concat in Hin as (l & Hl & Hin). apply list_elem_of_In, list_elem_of_fmap in Hl as (t & -> & Ht).
    destruct (Hts t Ht) as (_ & _ & pt & Tt). eapply tree_there; [exact Tt|]. by apply list_elem_of_In. }
  assert (H1 : trees_at st1 ts).
  { eapply trees_at_same; [|exact Hts]. intros s Hin. apply joined_same; [by apply Hthere| |]; intros ->; [by apply (Hd a)|by apply (Hd b)]. }
  destruct (IH (length ts) ltac:(cbn in Hn; lia) st1 ts streams (le_n _) H1 N Hs) as (st2 & ts2 & streams2 & E & [P1 P2 P3 P4 P5 P6] & Es & El & Ene).
  destruct (joined_size a b st) as [S1 S2]. fold st1 in S1, S2.
  assert (Hmono : forall s, there st s -> there st1 s) by (intros []; unfold there; rewrite ?S1, ?S2; lia).
  assert (Hnew : ~ there st (Mrg (length (mrgs st)))) by (cbn; lia).
  assert (Hnode : forall s, s ∈ nodes node -> s ∉ all_of ts).
  { intros s Hin Hts'. cbn in Hin. apply elem_of_cons in Hin as [->|Hin]; [by apply Hnew, Hthere|by eapply Hd]. }
  exists st2, (node :: ts2), (Mrg (length (mrgs st)) :: streams2). rewrite E. split; [done|]. split; [|split; [cbn; by rewrite Es|split; [cbn; lia|done]]]. split.
  - intros t [->|Ht]%elem_of_cons; [|by apply P1]. split; [done|]. split; [cbn; repeat split; try done|]. exists None. eapply tree_at_same; [|exact Tn].
    intros s Hin. apply P5; [by eapply tree_there|by apply Hnode].
  - unfold all_of. cbn [fmap list_fmap concat]. apply NoDup_app. split; [|split; [|done]].
    + cbn. apply NoDup_cons. split; [|done]. intros Hin. apply Hnew. apply elem_of_app in Hin as [Hin|Hin]; [by eapply (tree_there st p ta)|by eapply (tree_there st q tb)].
    + intros s Hin Hin'. destruct (P4 s Hin') as [Hin2|Hin2]; [by eapply Hnode|]. apply Hin2. by eapply tree_there.
  - unfold pending in *. cbn. rewrite P3. cbn. by rewrite (assoc_L _).
  - intros s Hin. unfold all_of in Hin |- *. cbn in Hin |- *. apply elem_of_cons in Hin as [->|Hin]; [by right|]. rewrite !elem_of_app in Hin |- *.
    destruct Hin as [[Hin|Hin]|Hin]; [by left; left|by left; right; left|]. destruct (P4 s Hin) as [?|Hno]; [by left; right; right|]. right. intros ?. by apply Hno, Hmono.
  - intros s Hts' Hin. unfold all_of in Hin. cbn in Hin. rewrite !elem_of_app in Hin. eapply same_trans; [|apply P5; [by apply Hmono|tauto]].
    apply joined_same; [done|..]; intros ->; rewrite elem_of_app in Hina, Hinb; tauto.
  - lia.
Qed.

Lemma merge_passes_ok fuel : forall st ts streams,
  length ts <= S fuel -> ts <> [] -> trees_at st ts -> NoDup (all_of ts) -> stream_of <$> ts = Some <$> streams ->
  exists s st' t, merge_passes fuel streams st = Ret (s, st') /\ stream_of t = Some s /\ trees_at st' [t] /\ NoDup (nodes t) /\ pend t = pending ts.
Proof.
  induction fuel as [|fuel IH]; intros st ts streams Hn Hne H N Hs.
  - destruct ts as [|t [|]]; [done| |cbn in Hn; lia]. destruct streams as [|s [|]]; try discriminate Hs. injection Hs as Hs.
    exists s, st, t. unfold all_of, pending in *. cbn in *. rewrite app_nil_r in *. done.
  - destruct ts as [|t1 [|t2 ts]]; [done|..].
    + destruct streams as [|s [|]]; try discriminate Hs. injection Hs as Hs. exists s, st, t1. unfold all_of, pending in *. cbn in *. rewrite app_nil_r in *. done.
    + destruct (merge_pass_ok _ st (t1 :: t2 :: ts) streams (le_n _) H N Hs) as (st' & ts' & streams' & E & P & Es & El & Ene).
      destruct streams as [|s1 [|s2 streams]]; try discriminate Hs. cbn [merge_passes]. rewrite E.
      destruct (IH st' ts' streams') as (s & st2 & t & E2 & Hst & Ht & Hnd & Hp); [cbn in *; lia|by apply Ene|apply P|apply P|done|].
      exists s, st2, t. split; [done|]. split; [done|]. split; [done|]. split; [done|]. rewrite Hp. apply (pass_pending _ _ _ _ P).
Qed.

Fixpoint leaves (k : nat) (l : list run_control) : list tree :=
  match l with [] => [] | x :: l => Leaf k (run_depth x) (run_records x) :: leaves (S k) l end.

Lemma leaves_ok k l :
  all_of (leaves k l) = Run <$> seq k (length l) /\ pending (leaves k l) = concat (run_records <$> l) /\
  stream_of <$> leaves k l = Some <$> (Run <$> seq k (length l)) /\ length (leaves k l) = length l /\
  forall t, t ∈ leaves k l -> exists i x, l !! i = Some x /\ t = Leaf (k + i) (run_depth x) (run_records x).
Proof.
  revert k. induction l as [|x l IH]; intros k; [split_and!; try done; by intros t ?%elem_of_nil|].
  destruct (IH (S k)) as (I1 & I2 & I3 & I4 & I5). unfold all_of, pending in *. cbn. rewrite I1, I2, I3, I4. split_and!; try done.
  intros t [->|Ht]%elem_of_cons; [exists 0, x; by rewrite Nat.add_0_r|]. destruct (I5 t Ht) as (i & y & Hi & ->). exists (S i), y. split; [done|]. f_equal. lia.
Qed.

Definition sorted_runs (l : list run_control) : Prop :=
  forall x, x ∈ l -> StronglySorted R (run_records x) /\ forall k, k ∈ run_records x -> valid k.

Lemma merge_tree_ok l :
  l <> [] -> sorted_runs l ->
  exists s st t, merge_tree l = Ret (s, st) /\ stream_of t = Some s /\ well (R := R) (valid := valid) st None t /\ pend t = concat (run_records <$> l).
Proof.
  intros Hl Hs. destruct (leaves_ok 0 l) as (L1 & L2 & L3 & L4 & L5). unfold merge_tree.
  destruct (merge_passes_ok (length l) (mk_merge_state l []) (leaves 0 l) (Run <$> seq 0 (length l))) as (s & st & t & E & Et & T & N & P).
  - lia.
  - intros E. rewrite E in L4. by destruct l.
  - intros t Ht. destruct (L5 t Ht) as (i & x & Hx & ->). split; [done|]. split; [apply Hs; by eapply list_elem_of_lookup_2|]. exists (run_parent x). cbn. rewrite Hx. by destruct x.
  - rewrite L1. apply NoDup_fmap_2; [by intros ?? [=]|apply NoDup_seq].
  - done.
  - rewrite E. cbn [obind]. destruct (T t ltac:(apply list_elem_of_here)) as (_ & O & p & T').
    exists s, (set_parent s None st), t. split; [done|]. split; [done|]. rewrite P, L2. split; [|done]. split; [by eapply set_parent_tree|done|done|].
    rewrite P, L2. intros k Hk. apply list_elem_of_In, List.in_concat in Hk as (ks & Hks & Hk). apply list_elem_of_In, list_elem_of_fmap in Hks as (x & -> & Hx).
    apply (Hs x Hx). by apply list_elem_of_In.
Qed.

End Tree.

End SortTree.
