(* ===== verification/SortPass.v ===== *)
(** * A sort in memory as a whole ([jrd/sort.cpp])

    [sort] brings the records in memory into order and eliminates the ones the
    callback rejects; [put_run] makes a run of what is left. *)

From S2P Require Import Prelude.
From S2P Require Import QSort.
From S2P Require Import Sort.
From S2P Require Import SortQuick.
From S2P Require Import SortOrder.
From S2P Require Import SortMerge.
From S2P Require Import SortTree.
From stdpp Require Import list sorting.

Module SortPass.
Import Sort SortQuick SortOrder SortMerge SortTree.
#[local] Open Scope nat_scope.

(** What a sort asks of its keys: records have [len] longwords and are [raw];
    made comparable they are [valid], and none is like the high key; changing
    forth and back is harmless.  They are to come in the order [R]. *)
Class Sorting `{SK : SortKeys} (len : nat) (valid : list Z -> Prop) (R : list Z -> list Z -> Prop) (raw : list Z -> Prop) := {
  sorting_merging :: Merging valid R;
  len_positive : 0 < len;
  valid_len x : valid x -> length x = len;
  valid_below x : valid x -> below_high x;
  unique_below x : valid x -> scb_dup_callback = None \/ exists w y, w < scb_unique_length /\ w < 64 /\ x !! w = Some y /\ y <> ULONG_MAX;
  diddled_length srt x : valid x -> length (diddle_key srt false x) = len;
  R_below x y z : R x y -> key_le y z -> R x z;
  raw_valid r : raw r -> valid (diddle_key false true r);
  raw_length r : raw r -> length r = len
}.

Lemma lex_take k : forall a b, (lex a b <= 0)%Z -> (lex (take k a) (take k b) <= 0)%Z.
Proof.
  induction k as [|k IH]; intros [|x a] [|y b]; cbn; try done. destruct (x =? y)%Z; [apply IH|done].
Qed.

Lemma first_difference_take tl : forall a b, tl <= length a -> tl <= length b -> exists d, first_difference tl a b = Ret d /\ (d = None <-> take tl a = take tl b).
Proof.
  induction tl as [|tl IH]; intros a b Ha Hb; [by exists None|]. destruct a as [|x a], b as [|y b]; cbn in Ha, Hb; try lia. cbn.
  destruct (Z.eqb_spec x y) as [->|Hne]; [|eexists; split; [done|]; split; [done|by intros [=]]].
  destruct (IH a b ltac:(lia) ltac:(lia)) as (d & E & Hd). exists d. split; [done|]. rewrite Hd. split; [by intros ->|by intros [=]].
Qed.

Lemma first_difference_some tl : forall w a b x y, w < tl -> a !! w = Some x -> b !! w = Some y -> x <> y -> exists d, first_difference tl a b = Ret (Some d).
Proof.
  induction tl as [|tl IH]; intros w a b x y Hw Ha Hb Hne; [lia|]. destruct a as [|p a], b as [|q b]; try done. cbn [first_difference].
  destruct (Z.eqb_spec p q); [|by eexists]. destruct w as [|w]; [cbn in Ha, Hb; congruence|]. by apply (IH w a b x y); [lia|..].
Qed.

Section Pass.
Context `{SO : Sorting}.

(** ** Duplicates *)

Definition slot (m : memory) (i s : nat) (r : sr) : Prop := pointers m !! i = Some (Some s) /\ records m !! s = Some r.

Lemma slot_key m i s r : slot m i s r -> key_at m (Z.of_nat i) = Ret (sort_record_key r).
Proof.
  intros [Hp Hr]. unfold key_at, slot_at, record_of. pose proof (lookup_lt_Some _ _ _ Hp). rewrite !(proj2 (Z.eqb_neq _ _)) by lia.
  rewrite (proj2 (Z.ltb_ge _ _)) by lia. by rewrite Nat2Z.id, Hp; cbn; rewrite Hr.
Qed.

Lemma slot_diddle d m i s r : slot m i s r ->
  diddle_at d (Z.of_nat i) m = Ret (with_records (<[s := mk_sr (sr_bckptr r) (diddle_key false d (sort_record_key r))]> (records m)) m).
Proof.
  intros H. unfold diddle_at. rewrite (slot_key m i s r H). destruct H as [Hp Hr]. cbn [obind]. unfold set_key, slot_at, record_of. pose proof (lookup_lt_Some _ _ _ Hp).
  rewrite (proj2 (Z.eqb_neq _ _)), (proj2 (Z.ltb_ge _ _)) by lia. by rewrite Nat2Z.id, Hp; cbn; rewrite Hr.
Qed.

Lemma contents_slot m i x : linked len m -> contents m !! i = Some (Some x) -> exists s r, slot m i s r /\ sort_record_key r = x /\ sr_bckptr r = Some i.
Proof.
  intros L Hc. unfold contents in Hc. rewrite list_lookup_fmap in Hc. destruct (pointers m !! i) as [[s|]|] eqn:Hp; cbn in Hc; try discriminate.
  destruct (linked_pointer _ _ L _ _ Hp) as (r & Hr & Hb). rewrite Hr in Hc. injection Hc as <-. by exists s, r.
Qed.

Lemma slot_other m i j s t r u : slot m i s r -> slot m j t u -> sr_bckptr r = Some i -> sr_bckptr u = Some j -> i <> j -> s <> t.
Proof. intros [_ H1] [_ H2] B1 B2 Hij ->. congruence. Qed.

Lemma contents_length m : length (contents m) = length (pointers m).
Proof. unfold contents. by rewrite length_fmap. Qed.

(** The records of two positions and what is rejected. *)
Definition rejected_at (m : memory) (i s : nat) (k : list Z) : memory :=
  mk_memory (<[i := None]> (pointers m)) (<[s := mk_sr None k]> (records m)) (high m).

Lemma rejected_linked m i s r k : linked len m -> slot m i s r -> sr_bckptr r = Some i -> length k = len ->
  linked len (rejected_at m i s k) /\ contents (rejected_at m i s k) = <[i := None]> (contents m).
Proof.
  intros L [Hp Hr] Hb Hk. pose proof (lookup_lt_Some _ _ _ Hr) as Hs. pose proof (lookup_lt_Some _ _ _ Hp) as Hi.
  assert (Hother : forall q s', q <> i -> pointers m !! q = Some (Some s') -> s' <> s).
  { intros q s' Hq Hq' ->. destruct (linked_pointer _ _ L _ _ Hq') as (r' & Hr' & Hb'). congruence. }
  split; [split|].
  - intros s' r'. cbn. destruct (decide (s' = s)) as [->|Hne]; [rewrite list_lookup_insert_eq by done; by intros [= <-]|rewrite list_lookup_insert_ne by done; apply L].
  - intros q s'. cbn. destruct (decide (q = i)) as [->|Hq]; [rewrite list_lookup_insert_eq by done; done|rewrite list_lookup_insert_ne by done]. intros Hq'.
    rewrite list_lookup_insert_ne; [by apply (linked_pointer _ _ L)|]. intros ->. by eapply Hother.
  - intros s' r' q. cbn. destruct (decide (s' = s)) as [->|Hne]; [rewrite list_lookup_insert_eq by done; by intros [= <-]|rewrite list_lookup_insert_ne by done]. intros Hr' Hb'.
    pose proof (linked_back _ _ L _ _ _ Hr' Hb') as Hq. rewrite list_lookup_insert_ne; [done|]. intros ->. congruence.
  - apply list_eq. intros q. unfold contents. cbn [rejected_at pointers records]. rewrite list_lookup_fmap. destruct (decide (q = i)) as [->|Hq].
    + rewrite !list_lookup_insert_eq by (rewrite ?length_fmap; done). done.
    + rewrite !list_lookup_insert_ne by done. rewrite list_lookup_fmap. destruct (pointers m !! q) as [[s'|]|] eqn:Hq'; [|done|done]. cbn.
      rewrite list_lookup_insert_ne; [done|]. intros ->. by eapply Hother.
Qed.

Lemma eliminate_pair callback n m i x y :
  scb_dup_callback = Some callback -> linked len m -> contents m !! i = Some (Some x) -> contents m !! S i = Some (Some y) -> valid x -> valid y ->
  eliminate callback (S n) (Z.of_nat i) m = eliminate callback n (Z.of_nat (S i)) m /\ ~ rejects false x y \/
  exists m', eliminate callback (S n) (Z.of_nat i) m = eliminate callback n (Z.of_nat (S i)) m' /\ rejects false x y /\
    linked len m' /\ high m' = high m /\ contents m' = <[i := None]> (contents m).
Proof.
  intros Hcb L Hx Hy Vx Vy. destruct (contents_slot m i x L Hx) as (s & [bs ks] & Ss & Es & Bs). destruct (contents_slot m (S i) y L Hy) as (t & [bt kt] & St & Et & Bt).
  cbn in Es, Et, Bs, Bt. subst. pose proof (slot_other _ _ _ _ _ _ _ Ss St eq_refl eq_refl ltac:(lia)) as Hst. pose proof lengths as Hlens. pose proof (valid_length x Vx) as Lx. pose proof (valid_length y Vy) as Ly.
  cbn [eliminate]. replace (Z.of_nat i + 1)%Z with (Z.of_nat (S i)) by lia. unfold word_at. rewrite (slot_key _ _ _ _ Ss), (slot_key _ _ _ _ St). cbn [obind sort_record_key].
  destruct (lookup_lt_is_Some_2 x 0 ltac:(lia)) as [p Hp]. destruct (lookup_lt_is_Some_2 y 0 ltac:(lia)) as [q Hq]. rewrite Hp, Hq. cbn [obind].
  assert (Hneq : unique_of_record x <> unique_of_record y -> ~ rejects false x y) by (intros Hn (? & _ & ? & _); done).
  destruct (Z.eqb_spec p q) as [->|Hpq]; cbn [negb].
  2: { left. split; [done|]. apply Hneq. intros E. apply (f_equal (fun l => l !! 0)) in E. unfold unique_of_record in E. rewrite !lookup_take_lt in E by lia. congruence. }
  rewrite (differ_eq _ _ _ _ _ x y) by (by apply (slot_key _ _ _ _ Ss) || apply (slot_key _ _ _ _ St)). rewrite !drop_0.
  destruct (first_difference_take scb_unique_length x y ltac:(lia) ltac:(lia)) as (d & -> & Hd). cbn [obind]. destruct d as [d|].
  { left. split; [done|]. apply Hneq. intros E. by apply Hd in E. }
  pose proof (proj1 Hd eq_refl) as Heq. destruct Ss as [Ps Rs], St as [Pt Rt]. pose proof (lookup_lt_Some _ _ _ Rs) as Hs. pose proof (lookup_lt_Some _ _ _ Rt) as Ht.
  rewrite (slot_diddle false m i s _ (conj Ps Rs)). cbn [obind sr_bckptr sort_record_key].
  rewrite (slot_diddle false _ (S i) t (mk_sr (Some (S i)) y)) by (split; cbn; [done|by rewrite list_lookup_insert_ne]). cbn [obind sr_bckptr sort_record_key records with_records pointers high].
  rewrite (slot_key _ i s (mk_sr (Some i) (diddle_key false false x))) by (split; cbn; [done|by rewrite list_lookup_insert_ne, list_lookup_insert_eq by done]).
  rewrite (slot_key _ (S i) t (mk_sr (Some (S i)) (diddle_key false false y))) by (split; cbn; [done|by rewrite list_lookup_insert_eq by (by rewrite length_insert)]).
  cbn [obind sort_record_key]. destruct (callback (diddle_key false false x) (diddle_key false false y)) eqn:Ec.
  - right. exists (rejected_at m i s (diddle_key false false x)). split; [|split; [by exists callback|]].
    + unfold slot_at. rewrite (proj2 (Z.ltb_ge _ _)) by lia. cbn [pointers with_records]. rewrite Nat2Z.id, Ps. cbn [obind]. unfold set_bckptr, record_of. cbn [records with_records].
      rewrite list_lookup_insert_ne, list_lookup_insert_eq by done. cbn [obind sort_record_key with_pointers pointers records high with_records].
      rewrite (slot_diddle true _ (S i) t (mk_sr (Some (S i)) (diddle_key false false y))).
      2: { split; cbn; [rewrite list_lookup_insert_ne by lia; done|]. rewrite list_lookup_insert_ne, list_lookup_insert_eq by (rewrite ?length_insert; done). done. }
      cbn [obind sr_bckptr sort_record_key records with_records pointers high]. rewrite valid_undo by done. f_equal. unfold rejected_at, with_records, with_pointers. cbn [pointers records high]. f_equal.
      rewrite (list_insert_insert_ne _ t s), list_insert_insert_eq, (list_insert_insert_ne _ t s), list_insert_insert_eq by done. by rewrite (list_insert_id _ t).
    + destruct (rejected_linked m i s _ (diddle_key false false x) L (conj Ps Rs) eq_refl ltac:(by apply diddled_length)). done.
  - left. split; [|intros (cb & E & _ & Hc); rewrite Hcb in E; injection E as <-; congruence].
    rewrite (slot_diddle true _ i s (mk_sr (Some i) (diddle_key false false x))) by (split; cbn; [done|by rewrite list_lookup_insert_ne, list_lookup_insert_eq by done]).
    cbn [obind sr_bckptr sort_record_key records with_records pointers high].
    rewrite (slot_diddle true _ (S i) t (mk_sr (Some (S i)) (diddle_key false false y))) by (split; cbn; [done|by rewrite list_lookup_insert_ne, list_lookup_insert_eq by (rewrite ?length_insert; done)]).
    cbn [obind sr_bckptr sort_record_key records with_records pointers high]. rewrite !valid_undo by done. f_equal. destruct m as [P Q h]. unfold with_records. cbn in *. f_equal.
    rewrite (list_insert_insert_ne _ s t), !list_insert_insert_eq by done. by rewrite (list_insert_id Q s), (list_insert_id Q t).
Qed.

Lemma eliminate_last callback m i x :
  scb_dup_callback = Some callback -> linked len m -> high m = high_key -> contents m !! i = Some (Some x) -> S i = length (pointers m) -> valid x ->
  eliminate callback 1 (Z.of_nat i) m = Ret m.
Proof.
  intros Hcb L Hh Hx Hi Vx. destruct (contents_slot m i x L Hx) as (s & r & Ss & <- & _). set (x := sort_record_key r) in *.
  assert (Hkey : key_at m (Z.of_nat (S i)) = Ret high_key) by (unfold key_at; rewrite (proj2 (Z.eqb_neq _ _)), (proj2 (Z.eqb_eq _ _)) by lia; by rewrite Hh).
  cbn [eliminate]. replace (Z.of_nat i + 1)%Z with (Z.of_nat (S i)) by lia. unfold word_at. rewrite Hkey, (slot_key _ _ _ _ Ss). cbn [obind]. fold x.
  pose proof (valid_len x Vx). pose proof len_positive. destruct (lookup_lt_is_Some_2 x 0 ltac:(lia)) as [p Hp]. rewrite Hp. cbn [obind high_key replicate lookup list_lookup].
  destruct (Z.eqb_spec p ULONG_MAX); cbn [negb]; [|done]. rewrite (differ_eq _ _ _ _ _ x high_key) by (done || by apply (slot_key _ _ _ _ Ss)). rewrite !drop_0.
  destruct (unique_below x Vx) as [|(w & y & Hw & Hw' & Hy & Hne)]; [congruence|].
  destruct (first_difference_some scb_unique_length w x high_key y ULONG_MAX) as (d & ->); try done; by apply lookup_replicate_2.
Qed.

Definition all_valid (l : list (list Z)) : Prop := forall x, x ∈ l -> valid x.

Lemma eliminate_ok callback l : forall done m,
  scb_dup_callback = Some callback -> linked len m -> high m = high_key -> contents m = done ++ (Some <$> l) -> all_valid l -> StronglySorted key_le l ->
  exists m' l', eliminate callback (length l) (Z.of_nat (length done)) m = Ret m' /\ linked len m' /\ high m' = high_key /\ contents m' = done ++ l' /\ length l' = length l /\
    reduces (valid := valid) l (omap id l') /\ StronglySorted R (omap id l').
Proof.
  induction l as [|x l IH]; intros done m Hcb L Hh Hc V Hs.
  { exists m, []. split_and!; try done; [by apply reduces_same|constructor]. }
  assert (Hx : contents m !! length done = Some (Some x)) by (rewrite Hc; by apply list_lookup_middle).
  assert (Vx : valid x) by (apply V, list_elem_of_here). destruct l as [|y l].
  { exists m, [Some x]. split; [|split_and!; try done; [by apply reduces_same|repeat constructor]].
    apply (eliminate_last callback m _ x); try done. rewrite <-contents_length, Hc, length_app. cbn. lia. }
  assert (Hy : contents m !! S (length done) = Some (Some y)).
  { rewrite Hc, lookup_app_r by lia. by replace (S (length done) - length done) with 1 by lia. }
  assert (Vl : all_valid (y :: l)) by (intros z Hz; apply V; by apply list_elem_of_further). apply StronglySorted_inv in Hs as [Hs Hxl]. rewrite List.Forall_forall in Hxl.
  cbn [length]. destruct (eliminate_pair callback (S (length l)) m _ x y Hcb L Hx Hy Vx (Vl y ltac:(apply list_elem_of_here))) as [[-> Hkept]|(m1 & -> & Hrej & L1 & Hh1 & Hc1)].
  - destruct (IH (done ++ [Some x]) m Hcb L Hh ltac:(by rewrite <-app_assoc) Vl Hs) as (m' & l' & E & L' & Hh' & Hc' & Hl' & Hr & Hs').
    rewrite length_app, Nat.add_comm in E. exists m', (Some x :: l'). split; [exact E|]. split; [done|]. split; [done|]. split; [by rewrite Hc', <-app_assoc|]. split; [cbn; by rewrite Hl'|].
    cbn [omap list_omap id]. split; [by apply (reduces_app [x] [x]); [apply reduces_same|]|]. constructor; [done|]. apply List.Forall_forall. intros z Hz%list_elem_of_In.
    pose proof (reduces_in _ _ _ Hr Hz) as Hz'. assert (Rxy : R x y) by (apply (R_kept false); [done|apply Vl, list_elem_of_here|apply Hxl; by left|by left]).
    apply elem_of_cons in Hz' as [->|Hz']; [done|]. apply (R_below x y); [done|]. apply StronglySorted_inv in Hs as [_ Hs]. rewrite List.Forall_forall in Hs. by apply Hs, list_elem_of_In.
  - destruct (IH (done ++ [None]) m1 Hcb L1 ltac:(congruence)) as (m' & l' & E & L' & Hh' & Hc' & Hl' & Hr & Hs'); [|done|done|].
    { rewrite Hc1, Hc, insert_app_r_alt by lia. rewrite Nat.sub_diag. cbn. by rewrite <-app_assoc. }
    rewrite length_app, Nat.add_comm in E. exists m', (None :: l'). split; [exact E|]. split; [done|]. split; [done|]. split; [by rewrite Hc', <-app_assoc|]. split; [cbn; by rewrite Hl'|].
    cbn [omap list_omap id]. split; [|done]. apply (reduces_trans _ (y :: l)); [|done]. exists [x]. split; [done|]. intros z ->%list_elem_of_singleton.
    split; [split; [done|]; exists false, y; split; [apply Vl, list_elem_of_here|done]|]. exists y. split; [apply list_elem_of_here|]. by destruct Hrej as (? & _ & ? & _).
Qed.

(** ** [sort] and [put_run] *)

(** Records in memory as they are put there. *)
Definition fresh (l : list (list Z)) : memory :=
  mk_memory (Some <$> seq 0 (length l)) (imap (fun i k => mk_sr (Some i) k) l) high_key.

Lemma fresh_holds l : holds l (fresh l) (seq 0 (length l)).
Proof.
  split; try done.
  - cbn. rewrite fmap_imap. apply list_eq. intros i. rewrite list_lookup_imap. by destruct (l !! i).
  - intros k s Hs. apply lookup_seq in Hs as [-> Hk]. cbn. destruct (lookup_lt_is_Some_2 l k Hk) as [x Hx]. exists (mk_sr (Some k) x). split; [|done].
    rewrite list_lookup_imap. cbn. by rewrite Hx.
Qed.

Lemma holds_linked K m ps : all_valid K -> holds K m ps -> linked len m /\ contents m = Some <$> (key_of K <$> ps).
Proof.
  intros V H. assert (Hnodup : NoDup ps) by (rewrite (holds_all _ _ _ H); apply NoDup_seq). split; [split|].
  - intros s r Hr. apply valid_len, V. rewrite <-(holds_keys _ _ _ H). apply list_elem_of_fmap_2. by eapply list_elem_of_lookup_2.
  - intros q s. rewrite (holds_pointers _ _ _ H), list_lookup_fmap. destruct (ps !! q) as [s'|] eqn:E; [|done]. intros [= ->]. by apply (holds_back _ _ _ H).
  - intros s r q Hr Hb. rewrite (holds_pointers _ _ _ H), list_lookup_fmap. assert (Hs : s ∈ ps).
    { rewrite (holds_all _ _ _ H). apply elem_of_seq. pose proof (lookup_lt_Some _ _ _ Hr) as Hl. rewrite <-(length_fmap sort_record_key), (holds_keys _ _ _ H) in Hl. lia. }
    apply list_elem_of_lookup_1 in Hs as [q' Hq']. destruct (holds_back _ _ _ H _ _ Hq') as (r' & Hr' & Hb'). assert (q' = q) as -> by congruence. by rewrite Hq'.
  - apply list_eq. intros q. unfold contents. rewrite (holds_pointers _ _ _ H), !list_lookup_fmap. destruct (ps !! q) as [s|] eqn:E; [|done]. cbn.
    destruct (holds_slot _ _ _ _ _ H E) as (r & -> & Hk & _). cbn. by rewrite Hk.
Qed.

Lemma key_of_all K : key_of K <$> seq 0 (length K) = K.
Proof.
  apply list_eq. intros i. rewrite list_lookup_fmap. unfold key_of. destruct (decide (i < length K)) as [Hi|Hi].
  - rewrite lookup_seq_lt by done. cbn. by destruct (lookup_lt_is_Some_2 K i Hi) as [x ->].
  - rewrite lookup_seq_ge by lia. by rewrite lookup_ge_None_2 by lia.
Qed.

Lemma sorted_without_callback l : scb_dup_callback = None -> all_valid l -> StronglySorted key_le l -> StronglySorted R l.
Proof.
  intros Hcb. induction l as [|x l IH]; intros V Hs; [constructor|]. apply StronglySorted_inv in Hs as [Hs Hx].
  constructor; [apply IH; [intros y Hy; apply V; by apply list_elem_of_further|done]|]. rewrite List.Forall_forall in Hx |- *. intros y Hy. pose proof (Hx y Hy) as Hle.
  apply (R_kept false); [apply V, list_elem_of_here|apply V, list_elem_of_further; by apply list_elem_of_In|done|left]. intros (cb & E & _). congruence.
Qed.

Lemma sort_pass_ok l :
  all_valid l -> (Z.of_nat (length l) < 2147483648)%Z ->
  exists m, sort (S len) (fresh l) = Ret m /\ linked len m /\ high m = high_key /\ length (pointers m) = length l /\
    reduces (valid := valid) l (live m) /\ StronglySorted R (live m).
Proof.
  intros V Hlen. unfold sort. pose proof len_positive as Hpos. assert (exists tl, len = S tl) as [tl Elen] by (destruct len as [|tl]; [lia|by exists tl]). rewrite Elen.
  destruct (quick_straighten_ok l tl) with (m := fresh l) (ps := seq 0 (length l)) as (m & ps & E & H & Hs).
  { intros k Hk. rewrite <-Elen. by apply valid_len, V. } { intros k Hk. by apply valid_below, V. } { apply fresh_holds. } { done. }
  replace (S (S tl) - 1) with (S tl) by lia. destruct (quick _ _ _) as [m1|] eqn:Eq; [|done]. cbn [obind] in E |- *.
  rewrite E. cbn [obind].
  destruct (holds_linked l m ps V H) as [L Hc]. pose proof (holds_high _ _ _ H) as Hh.
  assert (Hps : length ps = length l) by (by rewrite (holds_length _ _ _ H)).
  set (ks := key_of l <$> ps) in Hc. assert (Hks : length ks = length l) by (unfold ks; by rewrite length_fmap).
  assert (Hperm : l ≡ₚ ks). { transitivity (key_of l <$> seq 0 (length l)); [by rewrite key_of_all|]. unfold ks. by rewrite (holds_all _ _ _ H). }
  assert (Vk : all_valid ks) by (intros x Hx; apply V; by rewrite Hperm).
  assert (Hsk : StronglySorted key_le ks).
  { unfold ks. clear -Hs. induction Hs as [|s ps Hs IH Hall]; cbn; constructor; [done|]. apply List.Forall_map. eapply List.Forall_impl; [|exact Hall].
    intros t Ht. apply lex_take. exact Ht. }
  assert (Hptr : length (pointers (fresh l)) = length ks) by (unfold fresh; cbn; by rewrite length_fmap, length_seq).
  destruct scb_dup_callback as [callback|] eqn:Ecb.
  - rewrite Hptr. destruct (eliminate_ok callback ks [] m Ecb L Hh Hc Vk Hsk) as (m' & l' & E' & L' & Hh' & Hc' & Hl' & Hr & Hs').
    exists m'. split; [exact E'|]. split; [by rewrite <-Elen|]. split; [done|]. unfold live. rewrite Hc'. cbn [app]. split; [|split; [|done]].
    + rewrite <-contents_length, Hc'. cbn [app]. by rewrite Hl', Hks.
    + eapply reduces_trans; [apply reduces_same; exact Hperm|done].
  - exists m. split; [done|]. split; [by rewrite <-Elen|]. split; [done|]. unfold live. rewrite Hc.
    assert (omap id (Some <$> ks) = ks) as -> by (clear; induction ks; cbn; by f_equal).
    split; [rewrite <-contents_length, Hc, length_fmap; done|]. split; [by apply reduces_same|].
    by apply sorted_without_callback.
Qed.

Lemma chunks_ok n l : forall mem, (forall x, x ∈ l -> length x = n) -> take (length l * n) mem = concat l -> chunks (length l) n mem = l.
Proof.
  induction l as [|x l IH]; intros mem Hl E; [done|]. cbn in E |- *. assert (Hx : length x = n) by (apply Hl, list_elem_of_here).
  assert (E1 : take n mem = x).
  { apply (f_equal (take n)) in E. rewrite take_take, Nat.min_l in E by lia. rewrite E. rewrite <-Hx. by apply take_app_length. }
  rewrite E1. f_equal. apply IH; [intros y Hy; apply Hl; by apply list_elem_of_further|].
  rewrite take_drop_commute, E. rewrite <-Hx. by apply drop_app_length.
Qed.

Lemma put_run_ok scb l :
  scb_longs scb = S len -> scb_memory scb = fresh l -> all_valid l -> (Z.of_nat (length l) < 2147483648)%Z ->
  exists x, put_run scb = Ret (with_memory (fresh l) (with_runs (x :: scb_runs scb) scb)) /\
    sorted_runs (R := R) (valid := valid) [x] /\ reduces (valid := valid) l (run_records x).
Proof.
  intros Hlongs Hmem V Hlen. unfold put_run. rewrite Hlongs, Hmem. destruct (sort_pass_ok l V Hlen) as (m & -> & L & Hh & _ & Hr & Hs). cbn [obind].
  destruct (order_ok len m len_positive L) as (mem & -> & Htake). cbn [obind]. replace (S len - 1) with len by lia.
  assert (Hlive : all_valid (live m)) by (intros x Hx; apply V; by eapply reduces_in).
  rewrite chunks_ok; [|intros x Hx; by apply valid_len, Hlive|done]. eexists. rewrite Hh. split; [done|]. split; [|done]. by intros x ->%list_elem_of_singleton.
Qed.

End Pass.

End SortPass.
