(* ===== verification/SortClient.v ===== *)
(** * The interface of sorting ([jrd/sort.cpp])

    Records that are put come back in order: all of them, but for those the
    callback has rejected for another with the same unique key, whether they
    fit in memory or went through runs and merges.  A sort does not run out of
    its memory, and the merges of runs come to an end. *)

From S2P Require Import Prelude.
From S2P Require Import QSort.
From S2P Require Import Sort.
From S2P Require Import SortQuick.
From S2P Require Import SortOrder.
From S2P Require Import SortMerge.
From S2P Require Import SortTree.
From S2P Require Import SortPass.
From stdpp Require Import list sorting.

Module SortClient.
Import Sort SortQuick SortOrder SortMerge SortTree SortPass.
#[local] Open Scope nat_scope.

Section Client.
Context `{SO : Sorting}.

(** ** Merging runs *)

Definition run_content (l : list run_control) : list (list Z) := concat (run_records <$> l).

Lemma sorted_runs_app l l' : sorted_runs (R := R) (valid := valid) l -> sorted_runs (R := R) (valid := valid) l' -> sorted_runs (R := R) (valid := valid) (l ++ l').
Proof. intros H H' x [Hx|Hx]%elem_of_app; auto. Qed.

Lemma content_length l : length (run_content l) = list_sum (length ∘ run_records <$> l).
Proof. unfold run_content, list_sum. induction l as [|x l IH]; [done|]. cbn in *. rewrite length_app. lia. Qed.

Lemma merge_runs_ok n scb :
  0 < n <= length (scb_runs scb) -> sorted_runs (R := R) (valid := valid) (scb_runs scb) ->
  exists x, merge_runs n scb = Ret (with_runs (x :: drop n (scb_runs scb)) scb) /\
    sorted_runs (R := R) (valid := valid) (x :: drop n (scb_runs scb)) /\
    reduces (valid := valid) (run_content (scb_runs scb)) (run_content (x :: drop n (scb_runs scb))).
Proof.
  intros Hn Hs. set (l := take n (scb_runs scb)). rewrite <-(take_drop n (scb_runs scb)) in Hs. unfold merge_runs. fold l.
  assert (Hl : l <> []) by (unfold l; destruct n as [|n]; [lia|]; destruct (scb_runs scb); [cbn in Hn; lia|done]).
  assert (Hsl : sorted_runs (R := R) (valid := valid) l) by (intros x Hx; apply Hs; apply elem_of_app; by left).
  destruct (merge_tree_ok l Hl Hsl) as (s & st & t & -> & Et & W & Hp). cbn [obind]. fold (run_content l) in Hp.
  destruct (merge_all_ok (S (list_sum (length ∘ run_records <$> l))) (scb_sorted scb) st t s Et W) as (records & -> & Hr & Hsr).
  { rewrite Hp, content_length. lia. }
  cbn [obind]. destruct (last l) as [run|] eqn:El; [|by apply last_None in El]. eexists. split; [done|]. rewrite Hp in Hr. split.
  - intros x [->|Hx]%elem_of_cons; [|apply Hs; apply elem_of_app; by right]. split; [done|]. cbn. intros k Hk. pose proof (reduces_in _ _ _ Hr Hk) as Hk'.
    rewrite <-Hp in Hk'. by apply (well_valid _ _ _ W).
  - rewrite <-(take_drop n (scb_runs scb)) at 1. fold l. unfold run_content in *. rewrite fmap_app, concat_app. cbn. by apply reduces_app; [|apply reduces_same].
Qed.

Lemma same_depth_length d l : same_depth d l <= length l.
Proof. induction l as [|x l IH]; cbn; [lia|]. destruct (run_depth x =? d)%Z; lia. Qed.

Lemma merge_levels_ok fuel : forall scb,
  scb_runs scb <> [] -> length (scb_runs scb) <= fuel -> sorted_runs (R := R) (valid := valid) (scb_runs scb) ->
  exists l, merge_levels fuel scb = Ret (with_runs l scb) /\ l <> [] /\ sorted_runs (R := R) (valid := valid) l /\ reduces (valid := valid) (run_content (scb_runs scb)) (run_content l).
Proof.
  induction fuel as [|fuel IH]; intros scb Hne Hf Hs; [destruct (scb_runs scb); [done|cbn in Hf; lia]|]. cbn [merge_levels].
  destruct (scb_runs scb) as [|run l] eqn:E; [done|]. assert (Hdone : with_runs (run :: l) scb = scb) by (rewrite <-E; by destruct scb).
  assert (Hstop : exists l0, Ret scb = Ret (with_runs l0 scb) /\ l0 <> [] /\ sorted_runs (R := R) (valid := valid) l0 /\ reduces (valid := valid) (run_content (run :: l)) (run_content l0)).
  { exists (run :: l). rewrite Hdone. split_and!; try done. by apply reduces_same. }
  destruct (run_depth run =? MAX_MERGE_LEVEL)%Z; [done|]. destruct (Nat.ltb_spec (S (same_depth (run_depth run) l)) RUN_GROUP) as [|Hge]; [done|].
  set (n := S (same_depth (run_depth run) l)) in *. pose proof (same_depth_length (run_depth run) l).
  destruct (merge_runs_ok n scb) as (x & -> & Hsx & Hr); [rewrite E; cbn; lia|by rewrite E|]. cbn [obind]. rewrite E in *.
  destruct (IH (with_runs (x :: drop n (run :: l)) scb)) as (l' & E' & Hne' & Hs' & Hr'); cbn [scb_runs with_runs] in *.
  - done.
  - unfold RUN_GROUP in Hge. cbn [length] in *. rewrite length_drop. cbn. lia.
  - done.
  - exists l'. split; [exact E'|]. split; [done|]. split; [done|]. by eapply reduces_trans.
Qed.

(** ** Putting records *)

Definition comparable (done : list (list Z)) : list (list Z) := diddle_key false true <$> done.

(** A sort to which the records [done] have been put, the last of them made
    comparable; [ls] are in memory. *)
Record settled (scb : SortContext) (done ls : list (list Z)) : Prop := {
  settled_longs : scb_longs scb = S len;
  settled_size : S len + 2 < scb_size_memory scb /\ (Z.of_nat (scb_size_memory scb) < 2147483648)%Z;
  settled_memory : scb_memory scb = fresh ls;
  settled_valid : all_valid (valid := valid) ls;
  settled_runs : sorted_runs (R := R) (valid := valid) (scb_runs scb);
  settled_merge : scb_merge scb = None /\ scb_sorted scb = false;
  settled_count : scb_records scb = length done /\ (scb_runs scb = [] -> length ls = length done);
  settled_records : reduces (valid := valid) (comparable done) (run_content (scb_runs scb) ++ ls);
  settled_fits : ls <> [] -> length ls * S len + length ls + 1 < scb_size_memory scb
}.

Definition putting (scb : SortContext) (done : list (list Z)) : Prop := exists scb' ls, diddle_last scb = Ret scb' /\ settled scb' done ls.

Lemma settled_small scb done ls : settled scb done ls -> (Z.of_nat (length ls) < 2147483648)%Z.
Proof. intros H. destruct (settled_size _ _ _ H) as [_ H1]. destruct ls as [|x ls]; [done|]. pose proof (settled_fits _ _ _ H ltac:(done)). nia. Qed.

Lemma fresh_snoc ls k :
  fresh (ls ++ [k]) = mk_memory (pointers (fresh ls) ++ [Some (length ls)]) (records (fresh ls) ++ [mk_sr (Some (length ls)) k]) high_key.
Proof. unfold fresh. cbn. rewrite length_app, seq_app, fmap_app, imap_app. cbn. by rewrite Nat.add_0_r. Qed.

Lemma fresh_length ls : length (pointers (fresh ls)) = length ls /\ length (records (fresh ls)) = length ls.
Proof. cbn. by rewrite length_fmap, length_seq, length_imap. Qed.

Lemma full_false scb done ls :
  settled scb done ls -> full scb = false -> S (length ls) * S len + S (length ls) + 1 < scb_size_memory scb.
Proof.
  intros H. unfold full. rewrite (settled_memory _ _ _ H), (proj2 (fresh_length ls)), (settled_longs _ _ _ H).
  intros [H1 H2]%orb_false_iff. apply Z.ltb_ge in H1. apply Z.leb_gt in H2. nia.
Qed.

(** A full memory becomes a run. *)
Lemma emptied scb done ls :
  settled scb done ls ->
  exists scb', (let* scb := put_run scb in let* scb := merge_levels (S (length (scb_runs scb))) scb in Ret (init scb)) = Ret scb' /\
    settled scb' done [] /\ scb_size_memory scb' = scb_size_memory scb.
Proof.
  intros H. destruct (put_run_ok scb ls (settled_longs _ _ _ H) (settled_memory _ _ _ H) (settled_valid _ _ _ H) (settled_small _ _ _ H)) as (x & -> & Hx & Hr). cbn [obind].
  set (scb1 := with_memory (fresh ls) (with_runs (x :: scb_runs scb) scb)).
  destruct (merge_levels_ok (S (length (scb_runs scb1))) scb1) as (l & -> & Hne & Hs & Hr'); [done|lia| |].
  { apply (sorted_runs_app [x]); [done|apply H]. }
  cbn [obind]. eexists. split; [done|]. split; [|done]. split; cbn; try apply H; try done.
  - by intros y ?%elem_of_nil.
  - split; [apply H|done].
  - rewrite app_nil_r. eapply reduces_trans; [apply H|]. eapply reduces_trans; [|exact Hr']. unfold scb1. cbn. unfold run_content. cbn.
    eapply reduces_trans; [apply reduces_same, Permutation_app_comm|]. by apply reduces_app; [|apply reduces_same].
Qed.

(** A record is added where there is room. *)
Definition added (record : list Z) (scb : SortContext) : outcome SortContext :=
  let m := scb_memory scb in
  let n := length (pointers m) in
  if (scb_size_memory scb - S (length (records m)) * scb_longs scb <=? S n) then Throw Overrun else
  Ret (with_count (S (scb_records scb))
    (with_memory (mk_memory (pointers m ++ [Some (length (records m))]) (records m ++ [mk_sr (Some n) record]) (high m)) scb)).

Lemma added_ok scb done ls r :
  settled scb done ls -> raw r -> S (length ls) * S len + S (length ls) + 1 < scb_size_memory scb ->
  exists scb', added r scb = Ret scb' /\ putting scb' (done ++ [r]).
Proof.
  intros H Hr Hroom. unfold added. rewrite (settled_memory _ _ _ H), (settled_longs _ _ _ H). destruct (fresh_length ls) as [-> ->].
  rewrite (proj2 (Nat.leb_gt _ _)) by nia. eexists. split; [done|]. exists (with_count (S (scb_records scb)) (with_memory (fresh (ls ++ [diddle_key false true r])) scb)), (ls ++ [diddle_key false true r]).
  split.
  - unfold diddle_last. cbn [scb_memory with_count with_memory records]. rewrite length_app, (proj2 (fresh_length ls)), Nat.add_comm. cbn [Nat.add length]. unfold record_of. cbn [records].
    rewrite lookup_app_r, (proj2 (fresh_length ls)), Nat.sub_diag by (rewrite (proj2 (fresh_length ls)); lia). cbn [lookup list_lookup obind sr_bckptr sort_record_key scb_sorted with_count with_memory].
    rewrite (proj2 (settled_merge _ _ _ H)), fresh_snoc. unfold with_records, with_memory, with_count. cbn [pointers records high scb_longs scb_size_memory scb_memory scb_records scb_next scb_runs scb_merge scb_sorted]. do 3 f_equal.
    rewrite insert_app_r_alt by (rewrite (proj2 (fresh_length ls)); lia). rewrite (proj2 (fresh_length ls)), Nat.sub_diag. done.
  - split; cbn; try apply H; try done.
    + intros x [Hx|Hx]%elem_of_app; [by apply (settled_valid _ _ _ H)|]. apply list_elem_of_singleton in Hx as ->. by apply raw_valid.
    + destruct (settled_count _ _ _ H) as [H1 H2]. rewrite !length_app, H1. cbn. split; [lia|]. intros E. rewrite (H2 E). done.
    + unfold comparable. rewrite fmap_app, (assoc_L _). apply reduces_app; [apply H|by apply reduces_same].
    + intros _. rewrite length_app, Nat.add_comm. cbn [length]. lia.
Qed.

Lemma SORT_put_ok scb done r : putting scb done -> raw r -> exists scb', SORT_put r scb = Ret scb' /\ putting scb' (done ++ [r]).
Proof.
  intros (scb1 & ls & E & H) Hr. unfold SORT_put. rewrite E. cbn [obind]. fold (added r). destruct (full scb1) eqn:Ef.
  - destruct (emptied scb1 done ls H) as (scb2 & E2 & H2 & Hsize). rewrite E2. cbn [obind]. apply (added_ok scb2 done []); [done|done|]. destruct (settled_size _ _ _ H2). cbn [length]. lia.
  - cbn [obind]. apply (added_ok scb1 done ls); [done|done|]. by eapply full_false.
Qed.

(** A caller that puts all its records. *)
Fixpoint put_all (l : list (list Z)) (scb : SortContext) : outcome SortContext :=
  match l with [] => Ret scb | r :: l => let* scb := SORT_put r scb in put_all l scb end.

Lemma put_all_ok l : forall scb done, putting scb done -> (forall r, r ∈ l -> raw r) -> exists scb', put_all l scb = Ret scb' /\ putting scb' (done ++ l).
Proof.
  induction l as [|r l IH]; intros scb done H Hr; cbn [put_all]; [exists scb; by rewrite app_nil_r|].
  destruct (SORT_put_ok scb done r H) as (scb1 & -> & H1); [apply Hr, list_elem_of_here|]. cbn [obind].
  destruct (IH scb1 (done ++ [r]) H1) as (scb2 & E & H2); [intros x Hx; apply Hr; by apply list_elem_of_further|]. exists scb2. by rewrite <-app_assoc in H2.
Qed.

Lemma SORT_init_ok record_length size :
  (record_length + 4 + 3) / 4 = S len -> S len + 2 < size -> (Z.of_nat size < 2147483648)%Z -> putting (SORT_init record_length size) [].
Proof.
  intros Hl Hs Hs'. exists (SORT_init record_length size), []. split; [done|]. split; cbn; try done.
  - by intros x ?%elem_of_nil.
  - by intros x ?%elem_of_nil.
  - by apply reduces_same.
Qed.

(** ** Fetching records *)

(** A caller that fetches until there is no more. *)
Fixpoint get_all (n : nat) (scb : SortContext) : outcome (list (list Z)) :=
  match n with
  | O => Throw Overrun
  | S n =>
      let* (p, scb) := SORT_get scb in
      match p with
      | None => Ret []
      | Some k => let* l := get_all n scb in Ret (k :: l)
      end
  end.

Definition restored (l : list (list Z)) : list (list Z) := diddle_key true false <$> l.

(** From the merge tree. *)
Lemma get_all_merge n : forall scb s st t,
  scb_merge scb = Some (s, st) -> scb_sorted scb = true -> stream_of t = Some s -> well (R := R) (valid := valid) st None t -> length (pend t) < n ->
  exists l, get_all n scb = Ret (restored l) /\ reduces (valid := valid) (pend t) l /\ StronglySorted R l.
Proof.
  induction n as [|n IH]; intros scb s st t Hm Hsrt Ht W Hn; [lia|]. cbn [get_all]. unfold SORT_get. rewrite Hm, Hsrt.
  destruct (get_merge_ok true st t ltac:(by intros ->) W) as (f & st' & t' & lost & E & M & W' & Hf). rewrite Ht in E. rewrite E. cbn [obind].
  pose proof (moves_reduces _ _ _ _ _ _ M) as Hp. destruct f as [| |x]; [done|..]; cbn [held fmap option_fmap option_map out_of fetched_ok app] in *.
  - exists []. rewrite Hf in Hp. split; [done|]. split; [done|constructor].
  - pose proof (reduces_length _ _ Hp) as Hl. cbn in Hl.
    destruct (IH (mk_scb (scb_longs scb) (scb_size_memory scb) (scb_memory scb) (scb_records scb) (scb_next scb) (scb_runs scb) (Some (s, st')) true) s st' t') as (l & -> & Hp' & Hsl);
      [done|done|by rewrite (moves_stream _ _ _ _ _ _ M)|done|lia|].
    cbn [obind]. exists (x :: l). split; [done|]. split.
    + eapply reduces_trans; [exact Hp|]. apply (reduces_app [x] [x]); [by apply reduces_same|done].
    + constructor; [done|]. apply List.Forall_forall. intros y Hy%list_elem_of_In. apply Hf. by eapply reduces_in.
Qed.

(** From memory. *)
Lemma next_pointer_ok n : forall i m,
  linked len m -> i + n = length (pointers m) ->
  (next_pointer n i m = Ret (None, 0, i + n) /\ omap id (drop i (contents m)) = []) \/
  exists j s r, next_pointer n i m = Ret (Some s, n - S (j - i), S j) /\ i <= j < i + n /\ slot m j s r /\ sr_bckptr r = Some j /\
    omap id (drop i (contents m)) = sort_record_key r :: omap id (drop (S j) (contents m)).
Proof.
  induction n as [|n IH]; intros i m L Hi; cbn [next_pointer].
  - left. split; [by rewrite Nat.add_0_r|]. by rewrite drop_ge by (rewrite SortPass.contents_length; lia).
  - destruct (lookup_lt_is_Some_2 (pointers m) i ltac:(lia)) as [p Hp]. rewrite Hp.
    assert (Hc : contents m !! i = Some (match p with Some s => sort_record_key <$> records m !! s | None => None end)) by (unfold contents; by rewrite list_lookup_fmap, Hp).
    rewrite (drop_S _ _ _ Hc). destruct p as [s|].
    + right. destruct (linked_pointer _ _ L _ _ Hp) as (r & Hr & Hb). exists i, s, r. rewrite Nat.sub_diag, Hr. cbn. rewrite Nat.sub_0_r. split_and!; try done; lia.
    + destruct (IH (S i) m L ltac:(lia)) as [(-> & E)|(j & s & r & -> & Hj & Hsl & Hb & E)]; cbn [omap list_omap id].
      * left. split; [do 2 f_equal; lia|done].
      * right. exists j, s, r. split; [do 3 f_equal; lia|]. split; [lia|done].
Qed.

Lemma given_linked m j s r k :
  linked len m -> slot m j s r -> sr_bckptr r = Some j -> length k = len ->
  let m' := with_records (<[s := mk_sr (sr_bckptr r) k]> (records m)) m in linked len m' /\ drop (S j) (contents m') = drop (S j) (contents m).
Proof.
  intros L [Hp Hr] Hb Hk m'. pose proof (lookup_lt_Some _ _ _ Hr) as Hs.
  assert (Hother : forall q s', q <> j -> pointers m !! q = Some (Some s') -> s' <> s).
  { intros q s' Hq Hq' ->. destruct (linked_pointer _ _ L _ _ Hq') as (r' & Hr' & Hb'). congruence. }
  split; [split|].
  - intros s' r'. cbn. destruct (decide (s' = s)) as [->|Hne]; [rewrite list_lookup_insert_eq by done; by intros [= <-]|rewrite list_lookup_insert_ne by done; apply L].
  - intros q s'. cbn. intros Hq'. destruct (decide (q = j)) as [->|Hq].
    + assert (s' = s) as -> by congruence. rewrite list_lookup_insert_eq by done. by eexists.
    + rewrite list_lookup_insert_ne; [by apply (linked_pointer _ _ L)|]. intros ->. by eapply Hother.
  - intros s' r' q. cbn. destruct (decide (s' = s)) as [->|Hne]; [rewrite list_lookup_insert_eq by done|rewrite list_lookup_insert_ne by done; apply L].
    intros [= <-]. cbn. rewrite Hb. by intros [= <-].
  - apply list_eq. intros i. rewrite !lookup_drop. unfold contents, m'. cbn [pointers records with_records]. rewrite !list_lookup_fmap.
    destruct (pointers m !! (S j + i)) as [[s'|]|] eqn:Hq; [|done|done]. cbn. rewrite list_lookup_insert_ne; [done|]. intros ->. apply (Hother (S j + i) s'); [lia|done|done].
Qed.

Lemma get_all_memory n : forall scb l,
  scb_merge scb = None -> scb_sorted scb = true -> linked len (scb_memory scb) -> scb_next scb + scb_records scb = length (pointers (scb_memory scb)) ->
  omap id (drop (scb_next scb) (contents (scb_memory scb))) = l -> all_valid (valid := valid) l -> length l < n -> get_all n scb = Ret (restored l).
Proof.
  induction n as [|n IH]; intros scb l Hm Hsrt L Hn El V Hl; [lia|]. cbn [get_all]. unfold SORT_get. rewrite Hm.
  destruct (next_pointer_ok (scb_records scb) (scb_next scb) (scb_memory scb) L Hn) as [(-> & E)|(j & s & r & -> & Hj & Hsl & Hb & E)]; cbn [obind]; rewrite E in El; subst l; [done|].
  assert (Vr : valid (sort_record_key r)) by (apply V, list_elem_of_here).
  unfold record_of. cbn [scb_memory scb_sorted with_count with_next]. rewrite (proj2 Hsl), Hsrt. cbn [obind].
  destruct (given_linked (scb_memory scb) j s r (diddle_key true false (sort_record_key r)) L Hsl Hb ltac:(by apply diddled_length)) as [L' E'].
  erewrite IH; [cbn [obind]; done|done|done|exact L'| |cbn [scb_next with_memory with_count with_next scb_memory]; by rewrite E'| |].
  - cbn. destruct Hsl as [Hp _]. apply lookup_lt_Some in Hp. lia.
  - intros x Hx. apply V. by apply list_elem_of_further.
  - cbn in Hl. lia.
Qed.

(** ** The whole *)

Lemma SORT_sort_ok scb done :
  putting scb done -> exists scb' l, SORT_sort scb = Ret scb' /\
    get_all (S (length done)) scb' = Ret (restored l) /\ reduces (valid := valid) (comparable done) l /\ StronglySorted R l.
Proof.
  intros (scb1 & ls & E & H). unfold SORT_sort. rewrite E. cbn [obind]. destruct (settled_merge _ _ _ H) as [Hmerge Hsrt]. destruct (settled_count _ _ _ H) as [Hcount Hfirst].
  pose proof (settled_records _ _ _ H) as Hr. assert (Hcd : length (comparable done) = length done) by (unfold comparable; apply length_fmap).
  destruct (scb_runs scb1) as [|run runs] eqn:Eruns.
  - rewrite (settled_longs _ _ _ H), (settled_memory _ _ _ H). destruct (sort_pass_ok ls (settled_valid _ _ _ H) (settled_small _ _ _ H)) as (m & -> & L & _ & Hptr & Hrl & Hsl).
    cbn [obind]. eexists _, (live m). split; [done|]. cbn in Hr. assert (Hall : reduces (valid := valid) (comparable done) (live m)) by (by eapply reduces_trans). split; [|done].
    apply get_all_memory; try done.
    + cbn. rewrite Hcount, Hptr. symmetry. by apply Hfirst.
    + intros x Hx. apply (settled_valid _ _ _ H). by eapply reduces_in.
    + pose proof (reduces_length _ _ Hall). lia.
  - destruct (put_run_ok scb1 ls (settled_longs _ _ _ H) (settled_memory _ _ _ H) (settled_valid _ _ _ H) (settled_small _ _ _ H)) as (x & -> & Hx & Hrx). cbn [obind scb_runs with_runs with_memory].
    rewrite Eruns. destruct (merge_tree_ok (R := R) (valid := valid) (x :: run :: runs)) as (s & st & t & -> & Et & W & Hp); [done|apply (sorted_runs_app [x]); [done|rewrite <-Eruns; apply H]|]. cbn [obind].
    assert (Hpend : reduces (valid := valid) (comparable done) (pend t)).
    { rewrite Hp. eapply reduces_trans; [exact Hr|]. eapply reduces_trans; [apply reduces_same, Permutation_app_comm|]. by apply reduces_app; [|apply reduces_same]. }
    eexists. edestruct (get_all_merge (S (length done))) as (l & E' & Hr' & Hs'); [| |exact Et|exact W| |].
    4: { exists l. split; [done|]. split; [exact E'|]. split; [by eapply reduces_trans|done]. }
    + done.
    + done.
    + pose proof (reduces_length _ _ Hpend). lia.
Qed.

(** Records that are put come back. *)
Lemma sorted_ok record_length size l :
  (record_length + 4 + 3) / 4 = S len -> S len + 2 < size -> (Z.of_nat size < 2147483648)%Z -> (forall r, r ∈ l -> raw r) ->
  exists l', (let* scb := put_all l (SORT_init record_length size) in let* scb := SORT_sort scb in get_all (S (length l)) scb) = Ret (restored l') /\
    reduces (valid := valid) (comparable l) l' /\ StronglySorted R l'.
Proof.
  intros Hl Hs Hs' Hr. destruct (put_all_ok l (SORT_init record_length size) [] (SORT_init_ok _ _ Hl Hs Hs') Hr) as (scb & -> & H). cbn [obind app] in *.
  destruct (SORT_sort_ok scb l H) as (scb' & l' & -> & E & Hred & Hsl). exists l'. cbn [obind]. rewrite E. done.
Qed.

End Client.

(** ** Sorts with and without duplicates *)

(** The laws of keys, whatever is done with duplicates (see [Sorting]). *)
Class Keys `{SK : SortKeys} (len : nat) (valid raw : list Z -> Prop) := {
  keys_lengths : 0 < scb_unique_length <= scb_key_length /\ scb_key_length <= len;
  keys_len x : valid x -> length x = len;
  keys_below x : valid x -> below_high x;
  keys_unique x : valid x -> scb_dup_callback = None \/ exists w y, w < scb_unique_length /\ w < 64 /\ x !! w = Some y /\ y <> ULONG_MAX;
  keys_undo srt x : valid x -> diddle_key srt true (diddle_key srt false x) = x;
  keys_diddled srt x : valid x -> length (diddle_key srt false x) = len;
  keys_raw r : raw r -> valid (diddle_key false true r) /\ length r = len
}.

Lemma lex_lt_le a b c : (lex a b < 0)%Z -> (lex b c <= 0)%Z -> (lex a c < 0)%Z.
Proof.
  intros H1 H2. pose proof (lex_trans a b c ltac:(lia) H2). destruct (Z.eq_dec (lex a c) 0%Z) as [E|]; [|lia]. apply lex_eq in E as ->. rewrite lex_flip in H2. lia.
Qed.

Section Keys.
Context `{KY : Keys}.

(** The order of unique keys. *)
Definition unique_lt (x y : list Z) : Prop := (lex (unique_of_record x) (unique_of_record y) < 0)%Z.

Lemma key_unique_le x y : key_le x y -> (lex (unique_of_record x) (unique_of_record y) <= 0)%Z.
Proof.
  intros H. apply (lex_take scb_unique_length) in H. unfold key_of_record in H. rewrite !take_take, Nat.min_l in H by apply keys_lengths. exact H.
Qed.

Lemma sorting_by_key : Sorting len valid key_le raw.
Proof.
  pose proof keys_lengths as [Hl Hk]. split; [split| | | | | | | |].
  - apply Hl.
  - intros x Hx. rewrite (keys_len x Hx). exact Hk.
  - apply keys_undo.
  - intros x y z. apply lex_trans.
  - done.
  - lia.
  - apply keys_len.
  - apply keys_below.
  - apply keys_unique.
  - apply keys_diddled.
  - intros x y z. apply lex_trans.
  - intros r Hr. exact (proj1 (keys_raw r Hr)).
  - intros r Hr. exact (proj2 (keys_raw r Hr)).
Qed.

Lemma sorting_by_unique : (exists callback, scb_dup_callback = Some callback /\ forall x y, callback x y = true) -> Sorting len valid unique_lt raw.
Proof.
  intros (callback & Hcb & Hall). pose proof keys_lengths as [Hl Hk].
  assert (Hbelow : forall x y z, unique_lt x y -> key_le y z -> unique_lt x z) by (intros x y z H1 H2; eapply lex_lt_le; [exact H1|by apply key_unique_le]).
  split; [split| | | | | | | |].
  - apply Hl.
  - intros x Hx. rewrite (keys_len x Hx). exact Hk.
  - apply keys_undo.
  - intros x y z H1 H2. eapply lex_lt_le; [exact H1|]. unfold unique_lt in H2. lia.
  - intros srt x y Hx Hy Hle Hr. pose proof (key_unique_le x y Hle) as Hu. unfold unique_lt. destruct (Z.eq_dec (lex (unique_of_record x) (unique_of_record y)) 0%Z) as [E|]; [|lia].
    apply lex_eq in E. exfalso. destruct Hr as [Hr|Hr]; apply Hr; exists callback; done.
  - lia.
  - apply keys_len.
  - apply keys_below.
  - apply keys_unique.
  - apply keys_diddled.
  - exact Hbelow.
  - intros r Hr. exact (proj1 (keys_raw r Hr)).
  - intros r Hr. exact (proj2 (keys_raw r Hr)).
Qed.

(** A sort of records: what comes of it. *)
Definition sort_records (record_length size : nat) (l : list (list Z)) : outcome (list (list Z)) :=
  let* scb := put_all l (SORT_init record_length size) in
  let* scb := SORT_sort scb in
  get_all (S (length l)) scb.

(** C8: records put to a sort without a callback for duplicates come back, all
    of them and each as often, in the order of their keys, whatever the memory
    is that the sort has got: there is no overrun in sorting, in putting records
    in physical order or in merging runs, and every loop ends. *)
Lemma sorting_permutes_ok record_length size l :
  scb_dup_callback = None -> (record_length + 4 + 3) / 4 = S len -> S len + 2 < size -> (Z.of_nat size < 2147483648)%Z -> (forall r, r ∈ l -> raw r) ->
  exists l', sort_records record_length size l = Ret (diddle_key true false <$> l') /\
    l' ≡ₚ diddle_key false true <$> l /\ StronglySorted key_le l'.
Proof.
  intros Hcb Hl Hs Hs' Hr. destruct (sorted_ok (SO := sorting_by_key) record_length size l Hl Hs Hs' Hr) as (l' & E & (lost & Hp & Hlost) & Hsl).
  exists l'. split; [exact E|]. split; [|done]. destruct lost as [|x lost]; [symmetry; exact Hp|].
  destruct (Hlost x ltac:(apply list_elem_of_here)) as ((_ & s & y & _ & callback & Hcb' & _) & _). congruence.
Qed.

(** C21: with a callback that rejects all duplicates what comes back is strictly
    ascending in the unique keys, is among the records put, and has every unique
    key that was put. *)
Lemma sorting_distinct_ok record_length size l :
  (exists callback, scb_dup_callback = Some callback /\ forall x y, callback x y = true) ->
  (record_length + 4 + 3) / 4 = S len -> S len + 2 < size -> (Z.of_nat size < 2147483648)%Z -> (forall r, r ∈ l -> raw r) ->
  exists l', sort_records record_length size l = Ret (diddle_key true false <$> l') /\ StronglySorted unique_lt l' /\
    (forall x, x ∈ l' -> x ∈ diddle_key false true <$> l) /\
    forall x, x ∈ diddle_key false true <$> l -> exists y, y ∈ l' /\ unique_of_record x = unique_of_record y.
Proof.
  intros Hcb Hl Hs Hs' Hr. destruct (sorted_ok (SO := sorting_by_unique Hcb) record_length size l Hl Hs Hs' Hr) as (l' & E & Hred & Hsl).
  exists l'. split; [exact E|]. split; [done|]. split; [intros x Hx; by eapply reduces_in|]. destruct Hred as (lost & Hp & Hlost).
  intros x Hx. fold (comparable l) in Hx. rewrite Hp in Hx. apply elem_of_app in Hx as [Hx|Hx]; [by apply Hlost|by exists x].
Qed.

End Keys.

End SortClient.
