(* ===== verification/SortKey.v ===== *)
(** * Sort keys made comparable ([diddle_key] of [jrd/sort.cpp])

    Keys are changed in place so that unsigned comparison of longwords, from
    the first on, is comparison of the keys; and back.  Little-endian, IEEE
    floating point numbers; strings in the collation of their bytes. *)

From S2P Require Import Prelude.
From S2P Require Import QSort.
From S2P Require Import Sort.
From stdpp Require Import list.

Module SortKey.
Import Sort.
#[local] Open Scope nat_scope.

Inductive dtype :=
  | SKD_long | SKD_ulong | SKD_short | SKD_ushort | SKD_text | SKD_float | SKD_double | SKD_quad | SKD_timestamp1 | SKD_bytes
  | SKD_d_float | SKD_varying | SKD_cstring | SKD_sql_time | SKD_sql_date | SKD_timestamp2 | SKD_int64.

#[export] Instance dtype_eq_dec : EqDecision dtype.
Proof. solve_decision. Defined.

Record SortKeyDef := mk_skd {
  skd_dtype : dtype;
  skd_flags : Z;
  skd_length : nat;
  skd_offset : nat;
  skd_vary_offset : nat
}.

Definition SKD_descending : Z := 1.
Definition SKD_binary : Z := 4.

Definition descending (key : SortKeyDef) : bool := negb (Z.land (skd_flags key) SKD_descending =? 0)%Z.

(** [ROUNDUP(skd_length, sizeof(SLONG))] *)
Definition key_bytes (key : SortKeyDef) : nat := (skd_length key + 3) / 4 * 4.

(** ** Bytes of a record *)

(** [p[...] ^= 1 << 7] *)
Definition flip (p : nat) (record : list Z) : outcome (list Z) :=
  let* l := fetch_words 1 p record in store_words ((fun b => Z.lxor b 128) <$> l) p record.

(** [SWAP_LONGS] *)
Definition swap_longs (p : nat) (record : list Z) : outcome (list Z) :=
  let* a := fetch_words 4 p record in
  let* b := fetch_words 4 (p + 4) record in
  let* record := store_words b p record in
  store_words a (p + 4) record.

Definition get_ushort (p : nat) (record : list Z) : outcome nat :=
  let* l := fetch_words 2 p record in
  match l with [a; b] => Ret (Z.to_nat (a + 256 * b)) | _ => Throw Overrun end.

Definition put_ushort (l p : nat) (record : list Z) : outcome (list Z) :=
  store_words [Z.of_nat l mod 256; Z.of_nat l / 256 mod 256]%Z p record.

Definition memset (p : nat) (c : Z) (n : nat) (record : list Z) : outcome (list Z) := store_words (replicate n c) p record.

Fixpoint strlen (l : list Z) : outcome nat :=
  match l with
  | [] => Throw Overrun
  | c :: l => if (c =? 0)%Z then Ret 0 else let* n := strlen l in Ret (S n)
  end.

(** The bytes of each longword in reverse. *)
Fixpoint reverse_longs (longs p : nat) (record : list Z) : outcome (list Z) :=
  match longs with
  | O => Ret record
  | S longs =>
      let* l := fetch_words 4 p record in
      let* record := store_words (reverse l) p record in
      reverse_longs longs (p + 4) record
  end.

(** [*p++ ^= -1] *)
Definition complement_bytes (n p : nat) (record : list Z) : outcome (list Z) :=
  let* l := fetch_words n p record in store_words ((fun b => Z.lxor b 255) <$> l) p record.

(** ** One key *)

Definition fill_char (key : SortKeyDef) : Z := if (Z.land (skd_flags key) SKD_binary =? 0)%Z then 32 else 0.

(** Control information of varying and zero-terminated strings. *)
Definition stash (sorted : bool) (key : SortKeyDef) (record : list Z) : outcome (list Z) :=
  let p := skd_offset key in
  let n := key_bytes key in
  match skd_dtype key with
  | SKD_varying =>
      let* record :=
        (if negb sorted then
           let* l := get_ushort p record in
           let* record := put_ushort l (skd_vary_offset key) record in
           let fill := Z.to_nat ((Z.of_nat n - 2 - Z.of_nat l) mod 65536) in
           memset (p + 2 + l) (fill_char key) fill record
         else Ret record) in
      put_ushort 0 p record
  | SKD_cstring =>
      if negb sorted then
        let* l := strlen (drop p record) in
        let* record := put_ushort l (skd_vary_offset key) record in
        let fill := Z.to_nat ((Z.of_nat n - Z.of_nat l) mod 65536) in
        memset (p + l) (fill_char key) fill record
      else
        let* l := get_ushort (skd_vary_offset key) record in
        store_words [fill_char key] (p + l) record
  | _ => Ret record
  end.

Definition restore (key : SortKeyDef) (record : list Z) : outcome (list Z) :=
  match skd_dtype key with
  | SKD_varying => let* l := get_ushort (skd_vary_offset key) record in put_ushort l (skd_offset key) record
  | SKD_cstring => let* l := get_ushort (skd_vary_offset key) record in store_words [0%Z] (skd_offset key + l) record
  | _ => Ret record
  end.

(** A floating point number with its sign in the byte at [p]; and whether it is
    to be complemented. *)
Definition diddle_sign (direction complement : bool) (p : nat) (record : list Z) : outcome (list Z * bool) :=
  let flag := if direction || negb complement then direction else true in
  let* l := fetch_words 1 p record in
  match l with
  | [b] => if xorb flag (negb (Z.shiftr b 7 =? 0)%Z) then let* record := flip p record in Ret (record, complement) else Ret (record, negb complement)
  | _ => Throw Overrun
  end.

Definition diddle_value (sorted direction : bool) (key : SortKeyDef) (record : list Z) : outcome (list Z * bool) :=
  let p := skd_offset key in
  let complement := descending key in
  match skd_dtype key with
  | SKD_timestamp1 | SKD_timestamp2 | SKD_sql_time | SKD_sql_date | SKD_long => let* record := flip (p + 3) record in Ret (record, complement)
  | SKD_ulong | SKD_ushort | SKD_d_float => Ret (record, complement)
  | SKD_text | SKD_bytes | SKD_cstring | SKD_varying =>
      let* record := (if direction then stash sorted key record else Ret record) in
      let* record := reverse_longs (key_bytes key / 4) p record in
      Ret (record, complement)
  | SKD_short => let* record := flip (p + 1) record in Ret (record, complement)
  | SKD_quad => let* record := flip (p + 7) record in Ret (record, complement)
  | SKD_int64 =>
      let* record := (if direction then Ret record else swap_longs p record) in
      let* record := flip (p + 7) record in
      let* record := (if direction then swap_longs p record else Ret record) in
      Ret (record, complement)
  | SKD_double =>
      let* record := (if direction then Ret record else swap_longs p record) in
      let* (record, complement) := diddle_sign direction complement (p + 7) record in
      let* record := (if direction then swap_longs p record else Ret record) in
      Ret (record, complement)
  | SKD_float => diddle_sign direction complement (p + 3) record
  end.

Definition diddle_one (sorted direction : bool) (key : SortKeyDef) (record : list Z) : outcome (list Z) :=
  let* (record, complement) := diddle_value sorted direction key record in
  let* record := (if complement && negb (key_bytes key =? 0) then complement_bytes (key_bytes key) (skd_offset key) record else Ret record) in
  if direction then Ret record else restore key record.

Fixpoint diddle_key (sorted direction : bool) (keys : list SortKeyDef) (record : list Z) : outcome (list Z) :=
  match keys with
  | [] => Ret record
  | key :: keys => let* record := diddle_one sorted direction key record in diddle_key sorted direction keys record
  end.

Example diddle_example :
  let keys := [mk_skd SKD_long 0 4 0 0; mk_skd SKD_varying 1 7 4 12] in
  let record := [254; 255; 255; 255; 2; 0; 65; 66; 0; 0; 0; 0; 0; 0; 7; 7]%Z in
  diddle_key false true keys record = Ret [254; 255; 255; 127; 189; 190; 255; 255; 223; 223; 223; 223; 2; 0; 7; 7]%Z /\
  (let* record := diddle_key false true keys record in diddle_key true false keys record) = Ret [254; 255; 255; 255; 2; 0; 65; 66; 32; 32; 32; 32; 0 + 2; 0; 7; 7]%Z.
Proof. vm_compute. split; reflexivity. Qed.

End SortKey.
