(* ===== verification/SortKeyView.v ===== *)
(** * Keys of a record ([diddle_key] of [jrd/sort.cpp])

    What [diddle_one] does to a record is done to the bytes of the key, and to
    two bytes of control information of strings, and depends on nothing else:
    a function of these bytes ([diddled]).  Functions on keys of their own
    commute, so that keys are restored one by one. *)

From S2P Require Import Prelude.
From S2P Require Import QSort.
From S2P Require Import Sort.
From S2P Require Import SortOrder.
From S2P Require Import SortKey.
From stdpp Require Import list.

Module SortKeyView.
Import Sort SortOrder SortKey.
#[local] Open Scope nat_scope.

Lemma inserts_outside (l k : list Z) i j : j < i \/ i + length k <= j -> list_inserts i k l !! j = l !! j.
Proof. intros [H|H]; [by apply list_lookup_inserts_lt|by apply list_lookup_inserts_ge]. Qed.

(** ** A record around a key *)

Section View.
Context (r : list Z) (p n v : nat).

Definition around (s c : list Z) : list Z := list_inserts v c (list_inserts p s r).

Definition apart (c : list Z) : Prop := p + n <= length r /\ v + length c <= length r /\ (c = [] \/ v + length c <= p \/ p + n <= v).

Lemma around_length s c : length (around s c) = length r.
Proof. unfold around. by rewrite !length_inserts. Qed.

Lemma around_lookup s c i : length s = n -> apart c ->
  around s c !! i = if decide (v <= i < v + length c) then c !! (i - v) else if decide (p <= i < p + n) then s !! (i - p) else r !! i.
Proof.
  intros Hs (H1 & H2 & H3). unfold around. case_decide as Hv; [apply list_lookup_inserts; rewrite ?length_inserts; lia|].
  rewrite inserts_outside by lia. case_decide as Hp; [apply list_lookup_inserts; lia|]. apply inserts_outside. lia.
Qed.

Lemma fetch_key m i s c : length s = n -> apart c -> i + m <= n -> fetch_words m (p + i) (around s c) = Ret (piece i m s).
Proof.
  intros Hs Ha Hi. pose proof Ha as (H1 & H2 & H3). rewrite fetch_words_ok by (rewrite ?around_length; lia). f_equal. apply list_eq. intros k. rewrite !piece_lookup.
  case_decide; [|done]. rewrite around_lookup by done. rewrite decide_False by (destruct H3 as [->|[?|?]]; cbn; lia). rewrite decide_True by lia. f_equal. lia.
Qed.

Lemma store_key l i s c : length s = n -> apart c -> i + length l <= n -> store_words l (p + i) (around s c) = Ret (around (list_inserts i l s) c).
Proof.
  intros Hs Ha Hi. pose proof Ha as (H1 & H2 & H3). rewrite store_words_ok by (rewrite ?around_length; lia). f_equal. apply list_eq. intros k.
  rewrite (around_lookup (list_inserts i l s)) by (rewrite ?length_inserts; done).
  destruct (decide (p + i <= k < p + i + length l)) as [Hk|Hk].
  - rewrite list_lookup_inserts by (rewrite ?around_length; lia). rewrite decide_False by (destruct H3 as [->|[?|?]]; cbn; lia). rewrite decide_True by lia.
    rewrite list_lookup_inserts by lia. f_equal. lia.
  - rewrite inserts_outside by lia. rewrite around_lookup by done. case_decide; [done|]. case_decide; [|done]. rewrite inserts_outside by lia. done.
Qed.

Lemma fetch_control s c : length s = n -> apart c -> fetch_words (length c) v (around s c) = Ret c.
Proof.
  intros Hs Ha. pose proof Ha as (H1 & H2 & H3). rewrite fetch_words_ok by (rewrite ?around_length; lia). f_equal. apply list_eq. intros k. rewrite piece_lookup.
  case_decide; [|by rewrite lookup_ge_None_2 by lia]. rewrite around_lookup by done. rewrite decide_True by lia. f_equal. lia.
Qed.

Lemma store_control l s c : length s = n -> apart c -> length l = length c -> store_words l v (around s c) = Ret (around s l).
Proof.
  intros Hs Ha Hl. pose proof Ha as (H1 & H2 & H3). rewrite store_words_ok by (rewrite ?around_length; lia). f_equal.
  assert (Ha' : apart l) by (split; [done|]; rewrite Hl; split; [done|]; destruct H3 as [->|]; [left; by destruct l|by right]).
  apply list_eq. intros k. rewrite (around_lookup s l) by done. rewrite Hl. case_decide.
  - rewrite list_lookup_inserts by (rewrite ?around_length; lia). done.
  - rewrite inserts_outside by lia. rewrite around_lookup by done. by rewrite decide_False.
Qed.

End View.

(** ** What becomes of the bytes of a key *)

Definition flipped (i : nat) (s : list Z) : list Z := alter (fun b => Z.lxor b 128) i s.
Definition swapped (s : list Z) : list Z := piece 4 4 s ++ piece 0 4 s ++ drop 8 s.
Definition complemented (s : list Z) : list Z := (fun b => Z.lxor b 255) <$> s.

Fixpoint reversed (longs : nat) (s : list Z) : list Z :=
  match longs with O => s | S longs => reverse (take 4 s) ++ reversed longs (drop 4 s) end.

Definition ushort (l : list Z) : nat := match l with [a; b] => Z.to_nat (a + 256 * b) | _ => 0 end.
Definition ushort_bytes (l : nat) : list Z := [Z.of_nat l mod 256; Z.of_nat l / 256 mod 256]%Z.

Fixpoint zero_at (s : list Z) : nat := match s with [] => 0 | b :: s => if (b =? 0)%Z then 0 else S (zero_at s) end.

Definition padded (key : SortKeyDef) (l : nat) (s : list Z) : list Z := take l s ++ replicate (length s - l) (fill_char key).

Definition stashed (srt : bool) (key : SortKeyDef) (s c : list Z) : list Z * list Z :=
  match skd_dtype key with
  | SKD_varying =>
      let '(s, c) := if srt then (s, c) else let l := ushort (take 2 s) in (padded key (2 + l) s, ushort_bytes l) in
      (ushort_bytes 0 ++ drop 2 s, c)
  | SKD_cstring => if srt then (<[ushort c := fill_char key]> s, c) else let l := zero_at s in (padded key l s, ushort_bytes l)
  | _ => (s, c)
  end.

Definition given_back (key : SortKeyDef) (s c : list Z) : list Z * list Z :=
  match skd_dtype key with
  | SKD_varying => (ushort_bytes (ushort c) ++ drop 2 s, c)
  | SKD_cstring => (<[ushort c := 0%Z]> s, c)
  | _ => (s, c)
  end.

Definition signed (direction complement : bool) (i : nat) (s : list Z) : list Z * bool :=
  let flag := if direction || negb complement then direction else true in
  if xorb flag (negb (Z.shiftr (s !!! i) 7 =? 0)%Z) then (flipped i s, complement) else (s, negb complement).

Definition valued (srt direction : bool) (key : SortKeyDef) (s c : list Z) : list Z * list Z * bool :=
  let complement := descending key in
  match skd_dtype key with
  | SKD_timestamp1 | SKD_timestamp2 | SKD_sql_time | SKD_sql_date | SKD_long => (flipped 3 s, c, complement)
  | SKD_ulong | SKD_ushort | SKD_d_float => (s, c, complement)
  | SKD_text | SKD_bytes | SKD_cstring | SKD_varying =>
      let '(s, c) := if direction then stashed srt key s c else (s, c) in (reversed (key_bytes key / 4) s, c, complement)
  | SKD_short => (flipped 1 s, c, complement)
  | SKD_quad => (flipped 7 s, c, complement)
  | SKD_int64 => ((if direction then swapped (flipped 7 s) else flipped 7 (swapped s)), c, complement)
  | SKD_double =>
      let '(s, complement) := signed direction complement 7 (if direction then s else swapped s) in ((if direction then swapped s else s), c, complement)
  | SKD_float => let '(s, complement) := signed direction complement 3 s in (s, c, complement)
  end.

Definition diddled (srt direction : bool) (key : SortKeyDef) (s c : list Z) : list Z * list Z :=
  let '(s, c, complement) := valued srt direction key s c in
  let s := if complement then complemented s else s in
  if direction then (s, c) else given_back key s c.

(** The bytes of control information, and the least number of bytes of a key. *)
Definition control_bytes (key : SortKeyDef) : nat := match skd_dtype key with SKD_varying | SKD_cstring => 2 | _ => 0 end.
Definition least_bytes (key : SortKeyDef) : nat :=
  match skd_dtype key with
  | SKD_timestamp1 | SKD_timestamp2 | SKD_quad | SKD_int64 | SKD_double => 8
  | _ => 4
  end.

(** A string is within its key, by its own account or by the control
    information. *)
Definition string_ok (srt direction : bool) (key : SortKeyDef) (s c : list Z) : Prop :=
  match skd_dtype key with
  | SKD_varying => if direction then srt = false -> 2 + ushort (take 2 s) <= length s else True
  | SKD_cstring => if direction && negb srt then zero_at s < length s else ushort c < length s
  | _ => True
  end.

Lemma flipped_ok i s : i < length s -> list_inserts i ((fun b => Z.lxor b 128) <$> piece i 1 s) s = flipped i s.
Proof.
  intros H. unfold flipped. apply list_eq. intros k. destruct (decide (k = i)) as [->|Hk].
  - rewrite list_lookup_inserts by (rewrite ?length_fmap, ?piece_length; lia). rewrite Nat.sub_diag, list_lookup_fmap, piece_lookup, Nat.add_0_r, decide_True by lia. by rewrite list_lookup_alter_eq.
  - rewrite inserts_outside by (rewrite length_fmap, piece_length; lia). by rewrite list_lookup_alter_ne.
Qed.

Lemma complemented_ok s : list_inserts 0 ((fun b => Z.lxor b 255) <$> piece 0 (length s) s) s = complemented s.
Proof.
  unfold complemented, piece. rewrite drop_0, take_ge by lia. apply list_eq. intros k. destruct (decide (k < length s)) as [Hk|Hk].
  - rewrite list_lookup_inserts by (rewrite ?length_fmap; lia). by rewrite Nat.sub_0_r.
  - rewrite !lookup_ge_None_2 by (rewrite ?length_inserts, ?length_fmap; lia). done.
Qed.

Lemma swapped_ok s : 8 <= length s -> list_inserts 4 (piece 0 4 s) (list_inserts 0 (piece 4 4 s) s) = swapped s.
Proof. intros H. do 8 (destruct s as [|? s]; [cbn in H; lia|]). done. Qed.

Lemma inserts_front (l s : list Z) : length l <= length s -> list_inserts 0 l s = l ++ drop (length l) s.
Proof.
  intros H. apply list_eq. intros k. destruct (decide (k < length l)) as [Hk|Hk].
  - rewrite list_lookup_inserts, lookup_app_l by lia. by rewrite Nat.sub_0_r.
  - rewrite inserts_outside, lookup_app_r, lookup_drop by lia. f_equal. lia.
Qed.

Lemma inserts_back l i (s : list Z) : i + length l = length s -> list_inserts i l s = take i s ++ l.
Proof.
  intros H. apply list_eq. intros k. destruct (decide (k < i)) as [Hk|Hk].
  - rewrite inserts_outside, lookup_app_l, lookup_take_lt by (rewrite ?length_take; lia). done.
  - rewrite lookup_app_r by (rewrite length_take; lia). rewrite length_take, Nat.min_l by lia. destruct (decide (k < length s)) as [Hs|Hs].
    + rewrite list_lookup_inserts by lia. done.
    + rewrite !lookup_ge_None_2 by (rewrite ?length_inserts; lia). done.
Qed.

Lemma reversed_length q s : length (reversed q s) = length s.
Proof. revert s. induction q as [|q IH]; intros s; [done|]. cbn. rewrite length_app, length_reverse, IH, length_take, length_drop. lia. Qed.

(** ** One key of a record *)

Record keyed (r : list Z) (key : SortKeyDef) (s c : list Z) : Prop := {
  keyed_length : length s = key_bytes key;
  keyed_control : length c = control_bytes key;
  keyed_apart : apart r (skd_offset key) (key_bytes key) (skd_vary_offset key) c;
  keyed_least : least_bytes key <= key_bytes key;
  keyed_small : (Z.of_nat (key_bytes key) < 65536)%Z
}.

(** The record with these bytes for the key. *)
Definition with_key (r : list Z) (key : SortKeyDef) (s c : list Z) : list Z := around r (skd_offset key) (skd_vary_offset key) s c.

Lemma keyed_new r key s c s' c' : keyed r key s c -> length s' = length s -> length c' = length c -> keyed r key s' c'.
Proof.
  intros [H1 H2 H3 H4 H5] Hs Hc. split; [congruence|congruence| |done|done]. destruct H3 as (A1 & A2 & A3). split; [done|]. rewrite Hc. split; [done|].
  destruct A3 as [->|A3]; [left; by destruct c'|by right].
Qed.

Section Step.
Context (r : list Z) (key : SortKeyDef).
#[local] Abbreviation p := (skd_offset key).
#[local] Abbreviation n := (key_bytes key).

Lemma fetch_at m i s c : keyed r key s c -> i + m <= n -> fetch_words m (p + i) (with_key r key s c) = Ret (piece i m s).
Proof. intros K Hi. apply (fetch_key r p n); [apply K|apply K|done]. Qed.

Lemma store_at l i s c : keyed r key s c -> i + length l <= n -> store_words l (p + i) (with_key r key s c) = Ret (with_key r key (list_inserts i l s) c).
Proof. intros K Hi. apply (store_key r p n); [apply K|apply K|done]. Qed.

Lemma flip_at i s c : keyed r key s c -> i < n -> flip (p + i) (with_key r key s c) = Ret (with_key r key (flipped i s) c).
Proof.
  intros K Hi. pose proof (keyed_length _ _ _ _ K) as Hs. unfold flip. rewrite fetch_at by (done || lia). cbn [obind]. rewrite store_at by (done || (rewrite length_fmap, piece_length; lia)).
  by rewrite flipped_ok by lia.
Qed.

Lemma swap_at s c : keyed r key s c -> 8 <= n -> swap_longs p (with_key r key s c) = Ret (with_key r key (swapped s) c).
Proof.
  intros K Hn. pose proof (keyed_length _ _ _ _ K) as Hs. unfold swap_longs. rewrite <-(Nat.add_0_r p), fetch_at by (done || lia). cbn [obind]. rewrite Nat.add_0_r, fetch_at by (done || lia). cbn [obind].
  rewrite <-(Nat.add_0_r p) at 1. rewrite store_at by (done || (rewrite piece_length; lia)). cbn [obind]. rewrite store_at.
  - by rewrite swapped_ok by lia.
  - eapply keyed_new; [done|by rewrite length_inserts|done].
  - rewrite piece_length; lia.
Qed.

Lemma complement_at s c : keyed r key s c -> complement_bytes n p (with_key r key s c) = Ret (with_key r key (complemented s) c).
Proof.
  intros K. pose proof (keyed_length _ _ _ _ K) as Hs. unfold complement_bytes. rewrite <-(Nat.add_0_r p), fetch_at by (done || lia). cbn [obind].
  rewrite store_at by (done || (rewrite length_fmap, piece_length; lia)). by rewrite <-Hs, complemented_ok.
Qed.

Lemma reverse_at q : forall i s c, keyed r key s c -> i + 4 * q <= n -> reverse_longs q (p + i) (with_key r key s c) = Ret (with_key r key (take i s ++ reversed q (drop i s)) c).
Proof.
  induction q as [|q IH]; intros i s c K Hi; cbn [reverse_longs reversed]; [by rewrite take_drop|]. pose proof (keyed_length _ _ _ _ K) as Hs.
  rewrite fetch_at by (done || lia). cbn [obind]. assert (Hl : length (reverse (piece i 4 s)) = 4) by (rewrite length_reverse, piece_length; lia).
  rewrite store_at by (done || (rewrite Hl; lia)). cbn [obind]. rewrite <-Nat.add_assoc, IH; [|eapply keyed_new; [done|by rewrite length_inserts|done]|lia].
  do 2 f_equal. assert (E : list_inserts i (reverse (piece i 4 s)) s = (take i s ++ reverse (piece i 4 s)) ++ drop (i + 4) s).
  { apply list_eq. intros k. destruct (decide (k < i + 4)) as [Hk|Hk].
    - rewrite lookup_app_l by (rewrite length_app, length_take, Hl; lia). destruct (decide (k < i)).
      + rewrite inserts_outside, lookup_app_l, lookup_take_lt by (rewrite ?length_take; lia). done.
      + rewrite list_lookup_inserts, lookup_app_r, length_take, Nat.min_l by (rewrite ?length_take; lia). done.
    - rewrite inserts_outside, lookup_app_r by (rewrite ?length_app, ?length_take, ?Hl; lia). rewrite length_app, length_take, Hl, Nat.min_l, lookup_drop by lia. f_equal. lia. }
  rewrite E. rewrite take_app_length', drop_app_length' by (rewrite length_app, length_take, Hl; lia). rewrite <-(assoc_L _). f_equal. unfold piece. by rewrite drop_drop.
Qed.

Lemma sign_at direction complement i s c : keyed r key s c -> i < n ->
  diddle_sign direction complement (p + i) (with_key r key s c) = Ret (with_key r key (signed direction complement i s).1 c, (signed direction complement i s).2).
Proof.
  intros K Hi. pose proof (keyed_length _ _ _ _ K) as Hs. unfold diddle_sign, signed. rewrite fetch_at by (done || lia). cbn [obind].
  assert (piece i 1 s = [s !!! i]) as ->.
  { apply list_eq. intros [|k]; rewrite piece_lookup; [|by rewrite decide_False by lia]. rewrite decide_True, Nat.add_0_r by lia. apply list_lookup_lookup_total_lt. lia. }
  destruct (xorb _ _); [|done]. by rewrite flip_at.
Qed.

End Step.

Lemma ushort_range (a b : Z) : ushort_bytes (ushort [a; b]) = [a; b] \/ ~ (0 <= a < 256 /\ 0 <= b < 256)%Z.
Proof.
  destruct (decide (0 <= a < 256 /\ 0 <= b < 256)%Z) as [[Ha Hb]|]; [left|by right]. unfold ushort_bytes, ushort. rewrite Z2Nat.id by lia.
  assert ((a + 256 * b) / 256 = b)%Z as -> by (symmetry; apply (Z.div_unique _ _ _ a); lia). rewrite (Z.mod_small b) by lia. f_equal.
  symmetry. apply (Z.mod_unique _ _ b); lia.
Qed.

Lemma ushort_of_bytes l : (Z.of_nat l < 65536)%Z -> ushort (ushort_bytes l) = l.
Proof.
  intros Hl. unfold ushort, ushort_bytes. rewrite (Z.mod_small (Z.of_nat l / 256)) by (split; [apply Z.div_pos; lia|apply Z.div_lt_upper_bound; lia]).
  rewrite Z.add_comm, <-Z.div_mod by lia. lia.
Qed.

Lemma strlen_prefix l n : zero_at (take n l) < length (take n l) -> strlen l = Ret (zero_at (take n l)).
Proof.
  revert n. induction l as [|b l IH]; intros [|n]; cbn; try lia. destruct (b =? 0)%Z; [done|]. intros H. rewrite (IH n) by lia. done.
Qed.

Section Control.
Context (r : list Z) (key : SortKeyDef).
#[local] Abbreviation p := (skd_offset key).
#[local] Abbreviation n := (key_bytes key).

Lemma get_control s c : keyed r key s c -> length c = 2 -> get_ushort (skd_vary_offset key) (with_key r key s c) = Ret (ushort c).
Proof.
  intros K Hc. unfold get_ushort. rewrite <-Hc. unfold with_key. rewrite (fetch_control r p n) by apply K. cbn [obind].
  destruct c as [|a [|b [|]]]; try discriminate Hc. done.
Qed.

Lemma put_control l s c : keyed r key s c -> length c = 2 -> put_ushort l (skd_vary_offset key) (with_key r key s c) = Ret (with_key r key s (ushort_bytes l)).
Proof. intros K Hc. unfold put_ushort, with_key. apply (store_control r p n); [apply K|apply K|by rewrite Hc]. Qed.

Lemma get_length s c : keyed r key s c -> 2 <= n -> get_ushort p (with_key r key s c) = Ret (ushort (take 2 s)).
Proof.
  intros K Hn. pose proof (keyed_length _ _ _ _ K) as Hs. unfold get_ushort. rewrite <-(Nat.add_0_r p), fetch_at by (done || lia). cbn [obind].
  unfold piece. rewrite drop_0. destruct s as [|a [|b s]]; cbn [length] in Hs; [lia|lia|done].
Qed.

Lemma put_length l s c : keyed r key s c -> 2 <= n -> put_ushort l p (with_key r key s c) = Ret (with_key r key (ushort_bytes l ++ drop 2 s) c).
Proof.
  intros K Hn. pose proof (keyed_length _ _ _ _ K) as Hs. unfold put_ushort. rewrite <-(Nat.add_0_r p), store_at by (done || (cbn [length ushort_bytes]; lia)).
  by rewrite inserts_front by (cbn [length ushort_bytes]; lia).
Qed.

Lemma pad_at l s c : keyed r key s c -> l <= n ->
  memset (p + l) (fill_char key) (Z.to_nat ((Z.of_nat n - Z.of_nat l) mod 65536)) (with_key r key s c) = Ret (with_key r key (padded key l s) c).
Proof.
  intros K Hl. pose proof (keyed_length _ _ _ _ K) as Hs. pose proof (keyed_small _ _ _ _ K). rewrite Z.mod_small by lia. replace (Z.to_nat (Z.of_nat n - Z.of_nat l)) with (n - l) by lia.
  unfold memset. rewrite store_at by (done || (rewrite length_replicate; lia)). rewrite inserts_back by (rewrite length_replicate; lia). unfold padded. by rewrite Hs.
Qed.

Lemma padded_length l s : l <= length s -> length (padded key l s) = length s.
Proof. intros H. unfold padded. rewrite length_app, length_take, length_replicate. lia. Qed.

Lemma byte_at b l s c : keyed r key s c -> l < n -> store_words [b] (p + l) (with_key r key s c) = Ret (with_key r key (<[l := b]> s) c).
Proof.
  intros K Hl. pose proof (keyed_length _ _ _ _ K) as Hs. rewrite store_at by (done || (cbn [length ushort_bytes]; lia)). do 2 f_equal.
Qed.

Lemma stash_at srt s c : keyed r key s c -> string_ok srt true key s c ->
  stash srt key (with_key r key s c) = Ret (with_key r key (stashed srt key s c).1 (stashed srt key s c).2).
Proof.
  intros K Hok. pose proof (keyed_length _ _ _ _ K) as Hs. pose proof (keyed_control _ _ _ _ K) as Hc. pose proof (keyed_least _ _ _ _ K) as Hn. pose proof (keyed_small _ _ _ _ K) as Hsmall.
  unfold stash, stashed, string_ok, control_bytes, least_bytes in *. destruct (skd_dtype key); try done.
  - destruct srt; cbn [negb obind fst snd]; [by rewrite put_length by (done || lia)|]. specialize (Hok eq_refl). rewrite get_length by (done || lia). cbn [obind].
    rewrite put_control by done. cbn [obind]. assert (K2 : keyed r key s (ushort_bytes (ushort (take 2 s)))) by (eapply keyed_new; [done|done|by rewrite Hc]).
    replace (Z.of_nat n - 2 - Z.of_nat (ushort (take 2 s)))%Z with (Z.of_nat n - Z.of_nat (2 + ushort (take 2 s)))%Z by lia. rewrite <-Nat.add_assoc, pad_at by (done || lia). cbn [obind].
    rewrite put_length; [done|eapply keyed_new; [exact K2|by apply padded_length|done]|lia].
  - destruct srt; cbn [negb andb obind fst snd] in *; [by rewrite get_control by done; cbn [obind]; apply byte_at; [done|lia]|].
    assert (strlen (drop p (with_key r key s c)) = Ret (zero_at s)) as ->.
    { pose proof (fetch_at r key n 0 s c K ltac:(lia)) as E. rewrite Nat.add_0_r, fetch_words_ok in E.
      2: { unfold with_key. rewrite around_length. apply (keyed_apart _ _ _ _ K). }
      injection E as E. unfold piece in E. rewrite drop_0, (take_ge s) in E by lia. rewrite <-E at 2. apply strlen_prefix. rewrite E. done. }
    cbn [obind]. rewrite put_control by done. cbn [obind]. rewrite pad_at; [done|eapply keyed_new; [done|done|by rewrite Hc]|lia].
Qed.

Lemma restore_at s c : keyed r key s c -> string_ok false false key s c -> restore key (with_key r key s c) = Ret (with_key r key (given_back key s c).1 (given_back key s c).2).
Proof.
  intros K Hok. pose proof (keyed_length _ _ _ _ K) as Hs. pose proof (keyed_control _ _ _ _ K) as Hc. pose proof (keyed_least _ _ _ _ K) as Hn.
  unfold restore, given_back, string_ok, control_bytes, least_bytes in *. destruct (skd_dtype key); try done.
  - rewrite get_control by done. cbn [obind]. by rewrite put_length by (done || lia).
  - rewrite get_control by done. cbn [obind]. cbn in Hok. apply byte_at; [done|lia].
Qed.

Lemma stashed_length srt s c : string_ok srt true key s c -> least_bytes key <= length s -> length c = control_bytes key ->
  length (stashed srt key s c).1 = length s /\ length (stashed srt key s c).2 = length c.
Proof.
  unfold stashed, string_ok, control_bytes, least_bytes. intros Hok Hn Hc. destruct (skd_dtype key); try done.
  - destruct srt; cbn [fst snd]; rewrite length_app, length_drop; cbn [length ushort_bytes]; [lia|]. specialize (Hok eq_refl). rewrite padded_length by lia. rewrite Hc. cbn. lia.
  - destruct srt; cbn [fst snd negb andb] in *; [by rewrite length_insert|]. rewrite padded_length by lia. by rewrite Hc.
Qed.

End Control.

Section One.
Context (r : list Z) (key : SortKeyDef).

Lemma flipped_length i s : length (flipped i s) = length s.
Proof. apply length_alter. Qed.

Lemma swapped_length s : 8 <= length s -> length (swapped s) = length s.
Proof. intros H. unfold swapped. rewrite !length_app, !piece_length, length_drop by lia. lia. Qed.

Lemma signed_length direction complement i s : length (signed direction complement i s).1 = length s.
Proof. unfold signed. destruct (xorb _ _); cbn; [apply flipped_length|done]. Qed.

Lemma valued_at srt direction s c : keyed r key s c -> string_ok srt direction key s c ->
  let '(s', c', complement) := valued srt direction key s c in
  diddle_value srt direction key (with_key r key s c) = Ret (with_key r key s' c', complement) /\ length s' = length s /\ length c' = length c.
Proof.
  intros K Hok. pose proof (keyed_length _ _ _ _ K) as Hs. pose proof (keyed_least _ _ _ _ K) as Hn. pose proof (keyed_control _ _ _ _ K) as Hc.
  assert (Hdiv : 4 * (key_bytes key / 4) = key_bytes key) by (unfold key_bytes; rewrite Nat.div_mul by lia; lia).
  assert (Htext : forall s' c', keyed r key s' c' -> reverse_longs (key_bytes key / 4) (skd_offset key) (with_key r key s' c') = Ret (with_key r key (reversed (key_bytes key / 4) s') c')).
  { intros s' c' K'. pose proof (reverse_at r key (key_bytes key / 4) 0 s' c' K' ltac:(lia)) as E. by rewrite Nat.add_0_r, drop_0 in E. }
  assert (Hstash : skd_dtype key = SKD_text \/ skd_dtype key = SKD_bytes \/ skd_dtype key = SKD_cstring \/ skd_dtype key = SKD_varying ->
    let '(s', c') := if direction then stashed srt key s c else (s, c) in
    (let* record := (if direction then stash srt key (with_key r key s c) else Ret (with_key r key s c)) in
     let* record := reverse_longs (key_bytes key / 4) (skd_offset key) record in Ret (record, descending key)) = Ret (with_key r key (reversed (key_bytes key / 4) s') c', descending key) /\
    length (reversed (key_bytes key / 4) s') = length s /\ length c' = length c).
  { intros _. destruct direction; cbn [obind].
    - rewrite (stash_at r key srt s c K Hok). destruct (stashed_length key srt s c Hok ltac:(lia) Hc) as [L1 L2]. destruct (stashed srt key s c) as [s' c']. cbn [obind fst snd] in *.
      rewrite Htext by ((eapply keyed_new; [exact K|done|done])). cbn [obind]. rewrite reversed_length. done.
    - rewrite Htext by done. cbn [obind]. rewrite reversed_length. done. }
  unfold valued, diddle_value. unfold least_bytes in Hn. destruct (skd_dtype key) eqn:Ed.
  all: try (rewrite flip_at by (done || lia); cbn [obind]; rewrite flipped_length; done).
  all: try done.
  - specialize (Hstash ltac:(auto)). destruct direction; [destruct (stashed srt key s c)|]; exact Hstash.
  - rewrite sign_at by (done || lia). pose proof (signed_length direction (descending key) 3 s) as L. destruct (signed _ _ 3 s) as [s' b]. done.
  - destruct direction; cbn [obind].
    + rewrite sign_at by (done || lia). pose proof (signed_length true (descending key) 7 s) as L. destruct (signed _ _ 7 s) as [s' b]. cbn [obind fst snd] in *.
      rewrite swap_at; [cbn [obind]; rewrite swapped_length by lia; by rewrite L|(eapply keyed_new; [exact K|done|done])|lia].
    + rewrite swap_at by (done || lia). cbn [obind]. pose proof (swapped_length s ltac:(lia)) as L0. rewrite sign_at; [|(eapply keyed_new; [exact K|done|done])|lia].
      pose proof (signed_length false (descending key) 7 (swapped s)) as L. destruct (signed _ _ 7 (swapped s)) as [s' b]. cbn [obind fst snd] in *. split; [done|]. by rewrite L.
  - specialize (Hstash ltac:(auto)). destruct direction; [destruct (stashed srt key s c)|]; exact Hstash.
  - specialize (Hstash ltac:(auto)). destruct direction; [destruct (stashed srt key s c)|]; exact Hstash.
  - specialize (Hstash ltac:(auto)). destruct direction; [destruct (stashed srt key s c)|]; exact Hstash.
  - destruct direction; cbn [obind].
    + rewrite flip_at by (done || lia). cbn [obind]. rewrite swap_at; [cbn [obind]; rewrite swapped_length by (rewrite flipped_length; lia); by rewrite flipped_length|eapply keyed_new; [done|apply flipped_length|done]|lia].
    + rewrite swap_at by (done || lia). cbn [obind]. pose proof (swapped_length s ltac:(lia)) as L0. rewrite flip_at; [cbn [obind]; rewrite flipped_length; done|(eapply keyed_new; [exact K|done|done])|lia].
Qed.

Lemma complemented_length s : length (complemented s) = length s.
Proof. apply length_fmap. Qed.

Lemma given_back_length s c : 2 <= length s -> length (given_back key s c).1 = length s /\ length (given_back key s c).2 = length c.
Proof.
  intros H. unfold given_back. destruct (skd_dtype key); cbn [fst snd]; try done; [|by rewrite length_insert].
  rewrite length_app, length_drop. cbn [length ushort_bytes]. split; [lia|done].
Qed.

(** The control information as it is when values are restored. *)
Lemma diddle_one_at srt direction s c : keyed r key s c -> string_ok srt direction key s c ->
  diddle_one srt direction key (with_key r key s c) = Ret (with_key r key (diddled srt direction key s c).1 (diddled srt direction key s c).2) /\
  length (diddled srt direction key s c).1 = length s /\ length (diddled srt direction key s c).2 = length c.
Proof.
  intros K Hok. pose proof (keyed_length _ _ _ _ K) as Hs. pose proof (keyed_least _ _ _ _ K) as Hn. assert (Hpos : 4 <= key_bytes key) by (unfold least_bytes in Hn; destruct (skd_dtype key); lia).
  pose proof (valued_at srt direction s c K Hok) as Hv. unfold diddle_one, diddled. assert (Hc' : direction = false -> (valued srt direction key s c).1.2 = c).
  { intros ->. unfold valued. destruct (skd_dtype key); try done; by destruct (signed _ _ _ _). }
  destruct (valued srt direction key s c) as [[s1 c1] complement]. cbn [fst snd] in Hc'. destruct Hv as (-> & L1 & L2). cbn [obind].
  assert (K1 : keyed r key s1 c1) by ((eapply keyed_new; [exact K|done|done])). set (s2 := if complement then complemented s1 else s1).
  assert (L3 : length s2 = length s) by (unfold s2; destruct complement; [by rewrite complemented_length|done]).
  assert (K2 : keyed r key s2 c1) by ((eapply keyed_new; [exact K|done|done])).
  assert ((if complement && negb (key_bytes key =? 0) then complement_bytes (key_bytes key) (skd_offset key) (with_key r key s1 c1) else Ret (with_key r key s1 c1)) = Ret (with_key r key s2 c1)) as ->.
  { rewrite (proj2 (Nat.eqb_neq _ _)) by lia. rewrite andb_true_r. unfold s2. destruct complement; [by apply complement_at|done]. }
  cbn [obind]. destruct direction; cbn [fst snd]; [done|]. rewrite (Hc' eq_refl) in *. rewrite restore_at; [|done|].
  - destruct (given_back_length s2 c) as [G1 G2]; [lia|]. split; [done|]. split; [by rewrite G1|done].
  - unfold string_ok in *. destruct (skd_dtype key); try done. cbn [andb negb] in *. by rewrite L3.
Qed.

End One.

End SortKeyView.
