(* ===== verification/SortKeyLaws.v ===== *)
(** * Sort keys there and back ([diddle_key] of [jrd/sort.cpp])

    Changing the keys of a record forth and back gives the record, but for what
    is behind the end of a varying or zero-terminated string; and forth again
    gives what it gave before, whether the sort is complete or not. *)

From S2P Require Import Prelude.
From S2P Require Import QSort.
From S2P Require Import Sort.
From S2P Require Import SortOrder.
From S2P Require Import SortKey.
From S2P Require Import SortKeyView.
From stdpp Require Import list.

Module SortKeyLaws.
Import Sort SortOrder SortKey SortKeyView.
#[local] Open Scope nat_scope.

Definition bytes (s : list Z) : Prop := forall b, b ∈ s -> (0 <= b < 256)%Z.

(** ** Bytes *)

Lemma lxor_twice b m : Z.lxor (Z.lxor b m) m = b.
Proof. by rewrite Z.lxor_assoc, Z.lxor_nilpotent, Z.lxor_0_r. Qed.

(** A property of bytes that holds of each. *)
Lemma every_byte (P : Z -> bool) : forallb P (Z.of_nat <$> seq 0 256) = true -> forall b, (0 <= b < 256)%Z -> P b = true.
Proof.
  intros H b Hb. rewrite List.forallb_forall in H. apply H. apply list_elem_of_In, list_elem_of_fmap. exists (Z.to_nat b). split; [lia|]. apply elem_of_seq. lia.
Qed.

Definition negative (b : Z) : bool := negb (Z.shiftr b 7 =? 0)%Z.

Lemma flip_byte b : (0 <= b < 256)%Z -> negative (Z.lxor b 128) = negb (negative b) /\ (0 <= Z.lxor b 128 < 256)%Z.
Proof.
  intros Hb. pose proof (every_byte (fun b => eqb (negative (Z.lxor b 128)) (negb (negative b)) && (0 <=? Z.lxor b 128)%Z && (Z.lxor b 128 <? 256)%Z) ltac:(vm_compute; reflexivity) b Hb) as H.
  apply andb_prop in H as [[H1%eqb_prop H2]%andb_prop H3]. split; [done|lia].
Qed.

Lemma complement_byte b : (0 <= b < 256)%Z -> negative (Z.lxor b 255) = negb (negative b) /\ Z.lxor b 255 = (255 - b)%Z.
Proof.
  intros Hb. pose proof (every_byte (fun b => eqb (negative (Z.lxor b 255)) (negb (negative b)) && (Z.lxor b 255 =? 255 - b)%Z) ltac:(vm_compute; reflexivity) b Hb) as H.
  apply andb_prop in H as [H1%eqb_prop H2]. split; [done|lia].
Qed.

Lemma flipped_twice i s : flipped i (flipped i s) = s.
Proof.
  apply list_eq. intros k. unfold flipped. destruct (decide (k = i)) as [->|]; [|by rewrite !list_lookup_alter_ne].
  rewrite !list_lookup_alter_eq. destruct (s !! i) as [b|]; [|done]. cbn. by rewrite lxor_twice.
Qed.

Lemma complemented_twice s : complemented (complemented s) = s.
Proof. unfold complemented. rewrite <-list_fmap_compose. apply list_eq. intros i. rewrite list_lookup_fmap. destruct (s !! i) as [b|]; [|done]. cbn. by rewrite lxor_twice. Qed.

Lemma complemented_flipped i s : complemented (flipped i s) = flipped i (complemented s).
Proof.
  apply list_eq. intros k. unfold flipped, complemented. rewrite list_lookup_fmap. destruct (decide (k = i)) as [->|]; [|by rewrite !list_lookup_alter_ne, list_lookup_fmap].
  rewrite !list_lookup_alter_eq, list_lookup_fmap. destruct (s !! i) as [b|]; [|done]. cbn. f_equal. rewrite !Z.lxor_assoc. by rewrite (Z.lxor_comm 128).
Qed.

Lemma swapped_twice s : 8 <= length s -> swapped (swapped s) = s.
Proof. intros H. do 8 (destruct s as [|? s]; [cbn in H; lia|]). cbn. by rewrite drop_0. Qed.

Lemma complemented_swapped s : complemented (swapped s) = swapped (complemented s).
Proof. unfold complemented, swapped, piece. by rewrite !fmap_app, !fmap_take, !fmap_drop. Qed.

Lemma reversed_twice q s : 4 * q <= length s -> reversed q (reversed q s) = s.
Proof.
  revert s. induction q as [|q IH]; intros s H; [done|]. cbn [reversed]. assert (Hl : length (reverse (take 4 s)) = 4) by (rewrite length_reverse, length_take; lia).
  rewrite take_app_length', drop_app_length' by done. rewrite reverse_involutive, IH by (rewrite length_drop; lia). apply take_drop.
Qed.

Lemma complemented_reversed q s : complemented (reversed q s) = reversed q (complemented s).
Proof.
  revert s. induction q as [|q IH]; intros s; [done|]. cbn [reversed]. unfold complemented in *. rewrite fmap_app, fmap_reverse, fmap_take, IH, fmap_drop. done.
Qed.

(** ** One key *)

Definition complement_if (c : bool) (s : list Z) : list Z := if c then complemented s else s.

Lemma complement_if_twice c s : complement_if c (complement_if c s) = s.
Proof. destruct c; [apply complemented_twice|done]. Qed.

Lemma complement_if_flipped c i s : complement_if c (flipped i s) = flipped i (complement_if c s).
Proof. destruct c; [apply complemented_flipped|done]. Qed.

Lemma complement_if_swapped c s : complement_if c (swapped s) = swapped (complement_if c s).
Proof. destruct c; [apply complemented_swapped|done]. Qed.

Lemma complement_if_length c s : length (complement_if c s) = length s.
Proof. destruct c; [apply complemented_length|done]. Qed.

(** A floating point number, with its sign in byte [i]. *)
Definition signed_value (direction desc : bool) (i : nat) (s : list Z) : list Z :=
  complement_if (signed direction desc i s).2 (signed direction desc i s).1.

Lemma signed_back desc i s : bytes s -> i < length s -> signed_value false desc i (signed_value true desc i s) = s.
Proof.
  intros Hb Hi. destruct (lookup_lt_is_Some_2 s i Hi) as [b Hs]. assert (Hrange : (0 <= b < 256)%Z) by (apply Hb; by eapply list_elem_of_lookup_2).
  destruct (flip_byte b Hrange) as [Hf Hf']. destruct (complement_byte b Hrange) as [Hc _]. destruct (complement_byte _ Hf') as [Hcf _].
  assert (Ef : flipped i s !!! i = Z.lxor b 128) by (apply list_lookup_total_correct; unfold flipped; by rewrite list_lookup_alter_eq, Hs).
  assert (Ec : complemented s !!! i = Z.lxor b 255) by (apply list_lookup_total_correct; unfold complemented; by rewrite list_lookup_fmap, Hs).
  assert (Ecf : complemented (flipped i s) !!! i = Z.lxor (Z.lxor b 128) 255).
  { apply list_lookup_total_correct. unfold complemented. rewrite list_lookup_fmap. unfold flipped. by rewrite list_lookup_alter_eq, Hs. }
  apply list_lookup_total_correct in Hs. unfold signed_value, signed. fold (negative (s !!! i)). rewrite Hs. destruct desc, (negative b) eqn:En; cbn [orb negb xorb fst snd complement_if].
  - fold (negative (s !!! i)). rewrite Hs, En. done.
  - fold (negative (complemented (flipped i s) !!! i)). rewrite Ecf, Hcf, Hf. cbn. rewrite <-complemented_flipped, complemented_twice. apply flipped_twice.
  - fold (negative (complemented s !!! i)). rewrite Ec, Hc. cbn. apply complemented_twice.
  - fold (negative (flipped i s !!! i)). rewrite Ef, Hf. cbn. apply flipped_twice.
Qed.

Definition fixed (key : SortKeyDef) : Prop := skd_dtype key <> SKD_varying /\ skd_dtype key <> SKD_cstring.

Lemma key_words key : 4 * (key_bytes key / 4) = key_bytes key.
Proof. unfold key_bytes. rewrite Nat.div_mul by lia. lia. Qed.

Lemma bytes_piece a n s : bytes s -> bytes (piece a n s).
Proof. intros Hb x Hx. apply Hb. apply (sublist_subseteq _ _ (sublist_drop s a)). by apply (sublist_subseteq _ _ (sublist_take _ n)). Qed.

Lemma bytes_app l l' : bytes l -> bytes l' -> bytes (l ++ l').
Proof. intros H H' x [Hx|Hx]%elem_of_app; auto. Qed.

Lemma bytes_swapped s : bytes s -> bytes (swapped s).
Proof.
  intros Hb. unfold swapped. apply bytes_app; [by apply bytes_piece|]. apply bytes_app; [by apply bytes_piece|].
  intros x Hx. apply Hb. by apply (sublist_subseteq _ _ (sublist_drop s 8)).
Qed.

(** The text of a key: longwords in reverse, complemented if descending. *)
Definition text_of (key : SortKeyDef) (s : list Z) : list Z := complement_if (descending key) (reversed (key_bytes key / 4) s).

Lemma text_of_twice key s : length s = key_bytes key -> text_of key (text_of key s) = s.
Proof.
  intros Hs. unfold text_of. destruct (descending key); cbn [complement_if]; [rewrite <-complemented_reversed, complemented_twice|]; apply reversed_twice; rewrite key_words; lia.
Qed.

Lemma text_of_length key s : length (text_of key s) = length s.
Proof. unfold text_of. by rewrite complement_if_length, reversed_length. Qed.

Lemma diddled_fixed key s c srt direction : fixed key ->
  diddled srt direction key s c =
  (match skd_dtype key with
   | SKD_timestamp1 | SKD_timestamp2 | SKD_sql_time | SKD_sql_date | SKD_long => complement_if (descending key) (flipped 3 s)
   | SKD_ulong | SKD_ushort | SKD_d_float => complement_if (descending key) s
   | SKD_short => complement_if (descending key) (flipped 1 s)
   | SKD_quad => complement_if (descending key) (flipped 7 s)
   | SKD_int64 => complement_if (descending key) (if direction then swapped (flipped 7 s) else flipped 7 (swapped s))
   | SKD_double => if direction then swapped (signed_value true (descending key) 7 s) else signed_value false (descending key) 7 (swapped s)
   | SKD_float => signed_value direction (descending key) 3 s
   | _ => text_of key s
   end, c).
Proof.
  intros [H1 H2]. unfold diddled, valued, given_back, stashed, text_of, signed_value.
  destruct (skd_dtype key) eqn:Ed; try done; destruct direction; cbn [fst snd]; try done.
  - by destruct (signed true (descending key) 3 s) as [? []].
  - by destruct (signed false (descending key) 3 s) as [? []].
  - destruct (signed true (descending key) 7 s) as [? []]; cbn [complement_if fst snd]; [by rewrite complemented_swapped|done].
  - by destruct (signed false (descending key) 7 (swapped s)) as [? []].
Qed.

Lemma complement_back c (f g : list Z -> list Z) s : (forall s, complement_if c (g s) = g (complement_if c s)) -> g (f s) = s -> complement_if c (g (complement_if c (f s))) = s.
Proof. intros Hg Hs. by rewrite <-Hg, complement_if_twice. Qed.

Lemma diddled_back srt srt' key s c :
  fixed key -> bytes s -> length s = key_bytes key -> least_bytes key <= key_bytes key ->
  diddled srt' false key (diddled srt true key s c).1 (diddled srt true key s c).2 = (s, c).
Proof.
  intros Hf Hb Hs Hn. rewrite !diddled_fixed by done. cbn [fst snd]. f_equal. unfold least_bytes in Hn. destruct Hf as [F1 F2].
  destruct (skd_dtype key) eqn:Ed; try done.
  all: try (apply (complement_back _ (flipped _)); [intros; apply complement_if_flipped|apply flipped_twice]).
  all: try apply complement_if_twice.
  all: try (by apply text_of_twice).
  - apply signed_back; [done|lia].
  - rewrite swapped_twice; [apply signed_back; [done|lia]|]. unfold signed_value. rewrite complement_if_length, signed_length. lia.
  - apply (complement_back _ (fun s => swapped (flipped 7 s)) (fun s => flipped 7 (swapped s))).
    + intros t. by rewrite complement_if_flipped, complement_if_swapped.
    + rewrite swapped_twice by (rewrite flipped_length; lia). apply flipped_twice.
Qed.

(** Strings of varying length. *)
Lemma padded_take key l s : l <= length s -> take l (padded key l s) = take l s.
Proof. intros H. unfold padded. apply take_app_length'. rewrite length_take. lia. Qed.

Lemma padded_twice key l s : l <= length s -> padded key l (padded key l s) = padded key l s.
Proof. intros H. unfold padded at 1. rewrite padded_take, padded_length by done. done. Qed.

Lemma diddled_varying srt direction key s c : skd_dtype key = SKD_varying ->
  diddled srt direction key s c =
  if direction then (text_of key (stashed srt key s c).1, (stashed srt key s c).2) else (ushort_bytes (ushort c) ++ drop 2 (text_of key s), c).
Proof.
  intros Ed. unfold diddled, valued, given_back, text_of. rewrite Ed. destruct direction; [|done]. by destruct (stashed srt key s c) as [s' c'].
Qed.

Lemma diddled_cstring srt direction key s c : skd_dtype key = SKD_cstring ->
  diddled srt direction key s c =
  if direction then (text_of key (stashed srt key s c).1, (stashed srt key s c).2) else (<[ushort c := 0%Z]> (text_of key s), c).
Proof.
  intros Ed. unfold diddled, valued, given_back, text_of. rewrite Ed. destruct direction; [|done]. by destruct (stashed srt key s c) as [s' c'].
Qed.

(** What a string is when it comes back: itself with blanks behind its end. *)
Definition normal (key : SortKeyDef) (s : list Z) : list Z :=
  match skd_dtype key with
  | SKD_varying => padded key (2 + ushort (take 2 s)) s
  | SKD_cstring => <[zero_at s := 0%Z]> (padded key (zero_at s) s)
  | _ => s
  end.

Lemma zero_at_insert l s : l < length s -> (forall i b, i < l -> s !! i = Some b -> b <> 0%Z) -> zero_at (<[l := 0%Z]> s) = l.
Proof.
  revert s. induction l as [|l IH]; intros [|b s] Hl Hnz; cbn in Hl; try lia; cbn; [done|].
  rewrite (proj2 (Z.eqb_neq b 0)) by (by apply (Hnz 0 b); [lia|]). f_equal. apply IH; [lia|]. intros i x Hi Hx. apply (Hnz (S i)); [lia|done].
Qed.

Lemma zero_at_nonzero s i b : i < zero_at s -> s !! i = Some b -> b <> 0%Z.
Proof.
  revert i. induction s as [|x s IH]; intros i; cbn; [done|]. destruct (Z.eqb_spec x 0); [lia|]. destruct i as [|i]; [by intros _ [= <-]|]. intros Hi. apply IH. lia.
Qed.

(** Forth, back, and forth. *)
Lemma diddled_again srt srt' key s c :
  bytes s -> length s = key_bytes key -> least_bytes key <= key_bytes key -> (Z.of_nat (key_bytes key) < 65536)%Z -> string_ok false true key s c ->
  let '(s1, c1) := diddled false true key s c in
  let '(s2, c2) := diddled srt' false key s1 c1 in
  string_ok srt' false key s1 c1 /\ s2 = normal key s /\ string_ok srt true key s2 c2 /\ diddled srt true key s2 c2 = (s1, c1).
Proof.
  intros Hb Hs Hn Hsmall Hok. destruct (decide (skd_dtype key = SKD_varying)) as [Ev|Ev]; [|destruct (decide (skd_dtype key = SKD_cstring)) as [Ec|Ec]].
  - rewrite diddled_varying by done. unfold string_ok, normal, least_bytes in *. rewrite Ev in *. specialize (Hok eq_refl). unfold stashed at 1 2. rewrite Ev. cbn [fst snd].
    rewrite diddled_varying by done. set (l := ushort (take 2 s)) in *. rewrite text_of_twice by (rewrite length_app, length_drop, padded_length by lia; cbn [length ushort_bytes]; lia).
    rewrite ushort_of_bytes by lia. assert (E : ushort_bytes l ++ drop 2 (ushort_bytes 0 ++ drop 2 (padded key (2 + l) s)) = padded key (2 + l) s).
    { rewrite drop_app_length' by done. rewrite <-(take_drop 2 (padded key (2 + l) s)) at 2. f_equal. transitivity (take 2 s).
      - unfold l. destruct s as [|a [|b s]]; cbn [length] in Hs; [lia|lia|]. cbn [take].
        assert (0 <= a < 256 /\ 0 <= b < 256)%Z by (split; apply Hb; rewrite !elem_of_cons; auto). by destruct (ushort_range a b).
      - transitivity (take 2 (take (2 + l) (padded key (2 + l) s))); [rewrite padded_take, take_take by lia; done|by rewrite take_take]. }
    rewrite E. split; [done|]. split; [done|]. assert (El : ushort (take 2 (padded key (2 + l) s)) = l).
    { transitivity (ushort (take 2 (take (2 + l) (padded key (2 + l) s)))); [by rewrite take_take|]. rewrite padded_take, take_take by lia. done. }
    split; [intros _; rewrite El, padded_length; lia|]. rewrite diddled_varying by done. unfold stashed. rewrite Ev.
    destruct srt; cbn [fst snd]; [done|]. by rewrite El, padded_twice by lia.
  - rewrite diddled_cstring by done. unfold string_ok, normal, least_bytes in *. rewrite Ec in *. cbn [andb negb] in Hok. set (l := zero_at s) in *.
    assert (Est : stashed false key s c = (padded key l s, ushort_bytes l)) by (unfold stashed; by rewrite Ec). rewrite Est. cbn [fst snd]. rewrite diddled_cstring by done. rewrite ushort_of_bytes by lia. rewrite text_of_twice by (rewrite padded_length; lia). cbn [andb negb].
    split; [rewrite text_of_length, padded_length; lia|]. split; [done|].
    assert (Ez : zero_at (<[l := 0%Z]> (padded key l s)) = l).
    { apply zero_at_insert; [rewrite padded_length; lia|]. intros i b Hi Hb'. apply (zero_at_nonzero s i); [done|]. unfold padded in Hb'. rewrite lookup_app_l, lookup_take_lt in Hb' by (rewrite ?length_take; lia). done. }
    assert (Efill : padded key l s !! l = Some (fill_char key)).
    { unfold padded. rewrite lookup_app_r, length_take, Nat.min_l, Nat.sub_diag by (rewrite ?length_take; lia). apply lookup_replicate_2. lia. }
    rewrite length_insert, padded_length by lia. split; [destruct srt; cbn [negb]; rewrite ?Ez, ?ushort_of_bytes by lia; lia|].
    rewrite diddled_cstring by done. unfold stashed. rewrite Ec. destruct srt; cbn [fst snd].
    + rewrite ushort_of_bytes by lia. rewrite list_insert_insert_eq, list_insert_id by done. done.
    + rewrite Ez. do 2 f_equal. unfold padded at 1. rewrite length_insert, take_insert_ge by lia. rewrite padded_take, padded_length by lia. done.
  - assert (Hf : fixed key) by done. pose proof (diddled_back false srt' key s c Hf Hb Hs Hn) as E. destruct (diddled false true key s c) as [s1 c1] eqn:E1. cbn [fst snd] in E. rewrite E.
    unfold string_ok, normal. split; [destruct (skd_dtype key); done|]. split; [by destruct (skd_dtype key)|]. split; [destruct (skd_dtype key); done|]. rewrite <-E1. by rewrite !diddled_fixed.
Qed.

End SortKeyLaws.
