(* ===== verification/SortKeyRecord.v ===== *)
(** * All keys of a record ([diddle_key] of [jrd/sort.cpp])

    The keys of a record do not meet, so each is changed as if it were alone:
    forth, back and forth again is forth.  Records as longwords, for the sort,
    and the laws the sort relies on. *)

From S2P Require Import Prelude.
From S2P Require Import QSort.
From S2P Require Import Sort.
From S2P Require Import SortOrder.
From S2P Require Import SortKey.
From S2P Require Import SortKeyView.
From S2P Require Import SortKeyLaws.
From stdpp Require Import list.

Module SortKeyRecord.
Import Sort SortOrder SortKey SortKeyView SortKeyLaws.
#[local] Open Scope nat_scope.

(** ** Places of keys *)

Definition covers (key : SortKeyDef) (i : nat) : Prop :=
  skd_offset key <= i < skd_offset key + key_bytes key \/ skd_vary_offset key <= i < skd_vary_offset key + control_bytes key.

#[export] Instance covers_dec key i : Decision (covers key i).
Proof. unfold covers. apply _. Defined.

(** A key, and the place for its control information, in a record of [size]
    bytes. *)
Definition within (size : nat) (key : SortKeyDef) : Prop :=
  skd_offset key + key_bytes key <= size /\ skd_vary_offset key + control_bytes key <= size /\
  (control_bytes key = 0 \/ skd_vary_offset key + control_bytes key <= skd_offset key \/ skd_offset key + key_bytes key <= skd_vary_offset key) /\
  least_bytes key <= key_bytes key /\ (Z.of_nat (key_bytes key) < 65536)%Z.

#[export] Instance within_dec size key : Decision (within size key).
Proof. unfold within. apply _. Defined.

Definition separate (a b : SortKeyDef) : Prop := forall i, covers a i -> ~ covers b i.

Fixpoint disjoint_keys (keys : list SortKeyDef) : Prop :=
  match keys with [] => True | key :: keys => (forall b, b ∈ keys -> separate key b) /\ disjoint_keys keys end.

Definition bytes_of (key : SortKeyDef) (r : list Z) : list Z := piece (skd_offset key) (key_bytes key) r.
Definition control_of (key : SortKeyDef) (r : list Z) : list Z := piece (skd_vary_offset key) (control_bytes key) r.

Lemma view_same key r r' : (forall i, covers key i -> r' !! i = r !! i) -> bytes_of key r' = bytes_of key r /\ control_of key r' = control_of key r.
Proof.
  intros H. unfold bytes_of, control_of. split; apply list_eq; intros i; rewrite !piece_lookup; (case_decide; [|done]); apply H; unfold covers; lia.
Qed.

Lemma with_own_key key r : within (length r) key -> keyed r key (bytes_of key r) (control_of key r) /\ with_key r key (bytes_of key r) (control_of key r) = r.
Proof.
  intros (H1 & H2 & H3 & H4 & H5). assert (K : keyed r key (bytes_of key r) (control_of key r)).
  { split; try done; [by apply piece_length|by apply piece_length|]. split; [done|]. unfold control_of. rewrite piece_length by done. split; [done|].
    destruct H3 as [H3|H3]; [left|by right]. rewrite H3. done. }
  split; [done|]. unfold with_key. apply list_eq. intros i. rewrite (around_lookup _ _ (key_bytes key)) by apply K. rewrite (keyed_control _ _ _ _ K).
  case_decide; [unfold control_of; rewrite piece_lookup, decide_True by lia; f_equal; lia|]. case_decide; [|done].
  unfold bytes_of. rewrite piece_lookup, decide_True by lia. f_equal. lia.
Qed.

Lemma with_key_view r key s c : keyed r key s c -> bytes_of key (with_key r key s c) = s /\ control_of key (with_key r key s c) = c /\
  forall i, ~ covers key i -> with_key r key s c !! i = r !! i.
Proof.
  intros K. pose proof (keyed_length _ _ _ _ K) as Hs. pose proof (keyed_control _ _ _ _ K) as Hc. destruct (keyed_apart _ _ _ _ K) as (A1 & A2 & A3).
  unfold bytes_of, control_of, with_key. split; [|split].
  - apply list_eq. intros i. rewrite piece_lookup. case_decide; [|by rewrite lookup_ge_None_2 by lia]. rewrite (around_lookup _ _ (key_bytes key)) by apply K.
    rewrite decide_False by (destruct A3 as [->|[?|?]]; cbn [length]; lia). rewrite decide_True by lia. f_equal. lia.
  - apply list_eq. intros i. rewrite piece_lookup. case_decide; [|by rewrite lookup_ge_None_2 by lia]. rewrite (around_lookup _ _ (key_bytes key)) by apply K.
    rewrite decide_True by lia. f_equal. lia.
  - intros i Hi. unfold covers in Hi. rewrite (around_lookup _ _ (key_bytes key)) by apply K. rewrite !decide_False by lia. done.
Qed.

(** ** All keys *)

Definition strings_ok (srt direction : bool) (keys : list SortKeyDef) (r : list Z) : Prop :=
  forall key, key ∈ keys -> string_ok srt direction key (bytes_of key r) (control_of key r).

Lemma diddle_key_ok srt direction keys : forall r,
  disjoint_keys keys -> (forall key, key ∈ keys -> within (length r) key) -> strings_ok srt direction keys r ->
  exists r', diddle_key srt direction keys r = Ret r' /\ length r' = length r /\
    (forall key, key ∈ keys -> (bytes_of key r', control_of key r') = diddled srt direction key (bytes_of key r) (control_of key r)) /\
    forall i, (forall key, key ∈ keys -> ~ covers key i) -> r' !! i = r !! i.
Proof.
  induction keys as [|key keys IH]; intros r Hd Hw Hok; cbn [diddle_key].
  { exists r. split_and!; try done. by intros key ?%elem_of_nil. }
  destruct Hd as [Hsep Hd]. destruct (with_own_key key r) as [K E]; [apply Hw, list_elem_of_here|].
  destruct (diddle_one_at r key srt direction _ _ K) as (E1 & L1 & L2); [apply Hok, list_elem_of_here|]. rewrite E in E1. rewrite E1. cbn [obind].
  set (s1 := (diddled srt direction key (bytes_of key r) (control_of key r)).1) in *. set (c1 := (diddled srt direction key (bytes_of key r) (control_of key r)).2) in *.
  assert (K1 : keyed r key s1 c1) by (by eapply keyed_new). set (r1 := with_key r key s1 c1) in *. destruct (with_key_view r key s1 c1 K1) as (V1 & V2 & V3). fold r1 in V1, V2, V3.
  assert (Hl1 : length r1 = length r) by apply around_length.
  assert (Hview : forall b, b ∈ keys -> bytes_of b r1 = bytes_of b r /\ control_of b r1 = control_of b r).
  { intros b Hb. apply view_same. intros i Hi. apply V3. intros Hc. by apply (Hsep b Hb i). }
  destruct (IH r1 Hd) as (r' & E' & Hl' & Hv' & Ho').
  { intros b Hb. rewrite Hl1. apply Hw. by apply list_elem_of_further. }
  { intros b Hb. destruct (Hview b Hb) as [-> ->]. apply Hok. by apply list_elem_of_further. }
  exists r'. split; [done|]. split; [congruence|]. split.
  - intros b [->|Hb]%elem_of_cons.
    + destruct (view_same key r1 r') as [-> ->]; [|rewrite V1, V2; by destruct (diddled srt direction key (bytes_of key r) (control_of key r))].
      intros i Hi. apply Ho'. intros b Hb. by apply Hsep.
    + rewrite (Hv' b Hb). by destruct (Hview b Hb) as [-> ->].
  - intros i Hi. rewrite Ho' by (intros b Hb; apply Hi; by apply list_elem_of_further). apply V3, Hi, list_elem_of_here.
Qed.

Lemma views_eq (keys : list SortKeyDef) r r' :
  length r = length r' -> (forall key, key ∈ keys -> bytes_of key r = bytes_of key r' /\ control_of key r = control_of key r') ->
  (forall i, (forall key, key ∈ keys -> ~ covers key i) -> r !! i = r' !! i) -> r = r'.
Proof.
  intros Hl Hv Ho. apply list_eq. intros i. destruct (decide (Exists (fun key => covers key i) keys)) as [H|H].
  - apply Exists_exists in H as (key & Hin & Hc). destruct (Hv key Hin) as [E1 E2]. unfold bytes_of, control_of in *. destruct Hc as [Hc|Hc].
    + apply (f_equal (fun l => l !! (i - skd_offset key))) in E1. rewrite !piece_lookup, !decide_True in E1 by lia. by replace (skd_offset key + (i - skd_offset key)) with i in E1 by lia.
    + apply (f_equal (fun l => l !! (i - skd_vary_offset key))) in E2. rewrite !piece_lookup, !decide_True in E2 by lia. by replace (skd_vary_offset key + (i - skd_vary_offset key)) with i in E2 by lia.
  - apply Ho. intros key Hin Hc. apply H. apply Exists_exists. by exists key.
Qed.

(** Forth, back, and forth: what is in a key when it is back is [normal]. *)
Lemma diddle_key_again srt srt' keys r :
  disjoint_keys keys -> (forall key, key ∈ keys -> within (length r) key) -> strings_ok false true keys r -> bytes r ->
  exists x y, diddle_key false true keys r = Ret x /\ diddle_key srt' false keys x = Ret y /\ diddle_key srt true keys y = Ret x /\
    length x = length r /\ length y = length r /\ strings_ok srt' false keys x /\ (forall key, key ∈ keys -> bytes_of key y = normal key (bytes_of key r)) /\
    forall i, (forall key, key ∈ keys -> ~ covers key i) -> y !! i = r !! i.
Proof.
  intros Hd Hw Hok Hb. destruct (diddle_key_ok false true keys r Hd Hw Hok) as (x & Ex & Lx & Vx & Ox).
  assert (Hagain : forall key, key ∈ keys -> string_ok srt' false key (bytes_of key x) (control_of key x) /\
    forall s2 c2, (s2, c2) = diddled srt' false key (bytes_of key x) (control_of key x) ->
      s2 = normal key (bytes_of key r) /\ string_ok srt true key s2 c2 /\ diddled srt true key s2 c2 = (bytes_of key x, control_of key x)).
  { intros key Hin. destruct (Hw key Hin) as (W1 & W2 & W3 & W4 & W5).
    pose proof (diddled_again srt srt' key (bytes_of key r) (control_of key r) (bytes_piece _ _ _ Hb) (piece_length _ _ _ W1) W4 W5 (Hok key Hin)) as H. rewrite <-(Vx key Hin) in H.
    destruct (diddled srt' false key (bytes_of key x) (control_of key x)) as [s2 c2]. destruct H as [H1 H2]. split; [done|]. by intros ? ? [= -> ->]. }
  destruct (diddle_key_ok srt' false keys x Hd) as (y & Ey & Ly & Vy & Oy).
  { by rewrite Lx. } { intros key Hin. by apply Hagain. }
  destruct (diddle_key_ok srt true keys y Hd) as (z & Ez & Lz & Vz & Oz).
  { by rewrite Ly, Lx. } { intros key Hin. destruct (Hagain key Hin) as [_ H]. by apply (H _ _ (Vy key Hin)). }
  exists x, y. split; [done|]. split; [done|]. split; [|split; [done|split; [congruence|split; [intros key Hin; by apply Hagain|split]]]].
  - rewrite Ez. f_equal. apply (views_eq keys); [congruence| |].
    + intros key Hin. destruct (Hagain key Hin) as [_ H]. destruct (H _ _ (Vy key Hin)) as (_ & _ & E). rewrite <-(Vz key Hin) in E. by injection E.
    + intros i Hi. by rewrite Oz, Oy.
  - intros key Hin. destruct (Hagain key Hin) as [_ H]. by apply (H _ _ (Vy key Hin)).
  - intros i Hi. by rewrite Oy, Ox.
Qed.

(** ** Bytes stay bytes *)

Lemma bytes_fmap f s : (forall b, (0 <= b < 256)%Z -> (0 <= f b < 256)%Z) -> bytes s -> bytes (f <$> s).
Proof. intros Hf Hs x Hx. apply list_elem_of_fmap in Hx as (b & -> & Hb). by apply Hf, Hs. Qed.

Lemma bytes_lookup s : (forall i b, s !! i = Some b -> (0 <= b < 256)%Z) -> bytes s.
Proof. intros H b Hb. apply list_elem_of_lookup_1 in Hb as [i Hi]. by apply (H i). Qed.

Lemma lookup_bytes s i b : bytes s -> s !! i = Some b -> (0 <= b < 256)%Z.
Proof. intros H Hi. apply H. by eapply list_elem_of_lookup_2. Qed.

Lemma bytes_flipped i s : bytes s -> bytes (flipped i s).
Proof.
  intros Hs. apply bytes_lookup. intros k b. unfold flipped. destruct (decide (k = i)) as [->|Hk]; [rewrite list_lookup_alter_eq|rewrite list_lookup_alter_ne by done; intros E; by apply (lookup_bytes s k)].
  destruct (s !! i) as [x|] eqn:E; [|done]. cbn. intros [= <-]. apply flip_byte. by apply (lookup_bytes s i).
Qed.

Lemma bytes_complement_if c s : bytes s -> bytes (complement_if c s).
Proof. intros Hs. destruct c; [|done]. apply bytes_fmap; [|done]. intros b Hb. destruct (complement_byte b Hb) as [_ ->]. lia. Qed.

Lemma bytes_reversed q s : bytes s -> bytes (reversed q s).
Proof.
  revert s. induction q as [|q IH]; intros s Hs; [done|]. cbn [reversed]. apply bytes_app; [|apply IH; intros x Hx; apply Hs; by apply (sublist_subseteq _ _ (sublist_drop s 4))].
  intros x Hx. rewrite elem_of_reverse in Hx. apply Hs. by apply (sublist_subseteq _ _ (sublist_take s 4)).
Qed.

Lemma bytes_insert i b s : (0 <= b < 256)%Z -> bytes s -> bytes (<[i := b]> s).
Proof.
  intros Hb Hs. apply bytes_lookup. intros k x Hx. apply list_lookup_insert_Some in Hx as [(_ & <- & _)|[_ Hx]]; [done|by apply (lookup_bytes s k)].
Qed.

Lemma bytes_ushort l : bytes (ushort_bytes l).
Proof. intros x. unfold ushort_bytes. rewrite !elem_of_cons, elem_of_nil. intros [->|[->|[]]]; apply Z.mod_pos_bound; lia. Qed.

Lemma fill_byte key : (0 <= fill_char key < 256)%Z.
Proof. unfold fill_char. destruct (_ =? _)%Z; lia. Qed.

Lemma bytes_padded key l s : bytes s -> bytes (padded key l s).
Proof.
  intros Hs. apply bytes_app; [intros x Hx; apply Hs; by apply (sublist_subseteq _ _ (sublist_take s l))|]. intros x Hx%elem_of_replicate. destruct Hx as [-> _]. apply fill_byte.
Qed.

Lemma bytes_drop n s : bytes s -> bytes (drop n s).
Proof. intros Hs x Hx. apply Hs. by apply (sublist_subseteq _ _ (sublist_drop s n)). Qed.

Lemma bytes_stashed srt key s c : bytes s -> bytes c -> bytes (stashed srt key s c).1 /\ bytes (stashed srt key s c).2.
Proof.
  intros Hs Hc. unfold stashed. destruct (skd_dtype key); try done; destruct srt; cbn [fst snd]; (split; [|done || apply bytes_ushort]).
  - apply bytes_app; [apply bytes_ushort|by apply bytes_drop].
  - apply bytes_app; [apply bytes_ushort|]. by apply bytes_drop, bytes_padded.
  - apply bytes_insert; [apply fill_byte|done].
  - by apply bytes_padded.
Qed.

Lemma bytes_signed direction desc i s : bytes s -> bytes (signed_value direction desc i s).
Proof. intros Hs. apply bytes_complement_if. unfold signed. destruct (xorb _ _); [by apply bytes_flipped|done]. Qed.

Lemma bytes_diddled srt direction key s c : bytes s -> bytes c -> bytes (diddled srt direction key s c).1 /\ bytes (diddled srt direction key s c).2.
Proof.
  intros Hs Hc. destruct (decide (skd_dtype key = SKD_varying)) as [Ev|Ev]; [|destruct (decide (skd_dtype key = SKD_cstring)) as [Ec|Ec]].
  - rewrite diddled_varying by done. destruct (bytes_stashed srt key s c Hs Hc). destruct direction; cbn [fst snd]; [|split; [|done]].
    + split; [by apply bytes_complement_if, bytes_reversed|done].
    + apply bytes_app; [apply bytes_ushort|]. by apply bytes_drop, bytes_complement_if, bytes_reversed.
  - rewrite diddled_cstring by done. destruct (bytes_stashed srt key s c Hs Hc). destruct direction; cbn [fst snd]; [|split; [|done]].
    + split; [by apply bytes_complement_if, bytes_reversed|done].
    + apply bytes_insert; [lia|]. by apply bytes_complement_if, bytes_reversed.
  - rewrite diddled_fixed by done. cbn [fst snd]. split; [|done].
    destruct (skd_dtype key); try (by apply bytes_complement_if, bytes_flipped); try (by apply bytes_complement_if); try (by apply bytes_complement_if, bytes_reversed).
    + by apply bytes_signed.
    + destruct direction; [by apply bytes_swapped, bytes_signed|by apply bytes_signed, bytes_swapped].
    + apply bytes_complement_if. destruct direction; [by apply bytes_swapped, bytes_flipped|by apply bytes_flipped, bytes_swapped].
Qed.

Lemma diddle_key_bytes srt direction keys r r' :
  disjoint_keys keys -> (forall key, key ∈ keys -> within (length r) key) -> strings_ok srt direction keys r -> bytes r ->
  diddle_key srt direction keys r = Ret r' -> bytes r'.
Proof.
  intros Hd Hw Hok Hb E. destruct (diddle_key_ok srt direction keys r Hd Hw Hok) as (r1 & E1 & Hl & Hv & Ho). assert (r1 = r') as -> by congruence.
  apply bytes_lookup. intros i b Hi. destruct (decide (Exists (fun key => covers key i) keys)) as [H|H].
  - apply Exists_exists in H as (key & Hin & Hc). destruct (bytes_diddled srt direction key (bytes_of key r) (control_of key r)) as [B1 B2]; [by apply bytes_piece|by apply bytes_piece|].
    rewrite <-(Hv key Hin) in B1, B2. cbn [fst snd] in B1, B2. unfold bytes_of, control_of in B1, B2. destruct Hc as [Hc|Hc].
    + apply (lookup_bytes _ (i - skd_offset key) b B1). rewrite piece_lookup, decide_True by lia. by replace (skd_offset key + (i - skd_offset key)) with i by lia.
    + apply (lookup_bytes _ (i - skd_vary_offset key) b B2). rewrite piece_lookup, decide_True by lia. by replace (skd_vary_offset key + (i - skd_vary_offset key)) with i by lia.
  - rewrite Ho in Hi by (intros key Hin Hc; apply H; apply Exists_exists; by exists key). by apply (lookup_bytes r i).
Qed.

(** ** Longwords *)

Definition long_bytes (w : Z) : list Z := [w mod 256; w / 256 mod 256; w / 65536 mod 256; w / 16777216 mod 256]%Z.
Definition to_bytes (l : list Z) : list Z := concat (long_bytes <$> l).

Definition long_of (a b c d : Z) : Z := (a + 256 * (b + 256 * (c + 256 * d)))%Z.

Fixpoint to_longs (s : list Z) : list Z :=
  match s with a :: b :: c :: d :: s => long_of a b c d :: to_longs s | _ => [] end.

Definition long (w : Z) : Prop := (0 <= w < 4294967296)%Z.

Lemma long_of_bytes w : long w -> long_of (w mod 256) (w / 256 mod 256) (w / 65536 mod 256) (w / 16777216 mod 256) = w.
Proof. unfold long, long_of. intros H. Z.to_euclidean_division_equations; lia. Qed.

Lemma bytes_of_long a b c d : bytes [a; b; c; d] -> long_bytes (long_of a b c d) = [a; b; c; d] /\ long (long_of a b c d).
Proof.
  intros H. assert (Ha : (0 <= a < 256 /\ 0 <= b < 256 /\ 0 <= c < 256 /\ 0 <= d < 256)%Z) by (repeat split; apply H; rewrite !elem_of_cons; auto).
  unfold long_bytes, long_of, long. split; [|lia]. assert (E : forall x y, (0 <= x < 256)%Z -> ((x + 256 * y) mod 256 = x /\ (x + 256 * y) / 256 = y)%Z).
  { intros x y Hx. split; [symmetry; apply (Z.mod_unique _ _ y); lia|symmetry; apply (Z.div_unique _ _ _ x); lia]. }
  replace 65536%Z with (256 * 256)%Z by lia. replace 16777216%Z with (256 * 256 * 256)%Z by lia. rewrite <-!Z.div_div by lia.
  rewrite !(proj2 (E a _ ltac:(lia))), !(proj2 (E b _ ltac:(lia))), !(proj2 (E c _ ltac:(lia))).
  rewrite !(proj1 (E a _ ltac:(lia))), !(proj1 (E b _ ltac:(lia))), !(proj1 (E c _ ltac:(lia))). by rewrite (Z.mod_small d) by lia.
Qed.

Lemma to_longs_bytes l : (forall w, w ∈ l -> long w) -> to_longs (to_bytes l) = l.
Proof.
  induction l as [|w l IH]; intros H; [done|]. cbn. rewrite long_of_bytes by (apply H, list_elem_of_here). f_equal. apply IH. intros x Hx. apply H. by apply list_elem_of_further.
Qed.

Lemma to_bytes_longs n : forall s, length s = n * 4 -> bytes s -> to_bytes (to_longs s) = s /\ length (to_longs s) = n /\ forall w, w ∈ to_longs s -> long w.
Proof.
  induction n as [|n IH]; intros s Hl Hb.
  - destruct s; [|done]. split; [done|]. split; [done|]. by intros w ?%elem_of_nil.
  - do 4 (destruct s as [|? s]; [cbn in Hl; lia|]). cbn [to_longs]. destruct (bytes_of_long z z0 z1 z2) as [E1 E2]; [intros x Hx; apply Hb; change (z :: z0 :: z1 :: z2 :: s) with ([z; z0; z1; z2] ++ s); apply elem_of_app; by left|].
    destruct (IH s) as (E3 & E4 & E5); [cbn in Hl; lia|intros x Hx; apply Hb; by do 4 apply list_elem_of_further|]. split; [|split].
    + unfold to_bytes in *. cbn [fmap list_fmap concat]. by rewrite E1, E3.
    + cbn. by rewrite E4.
    + intros w [->|Hw]%elem_of_cons; [done|by apply E5].
Qed.

Lemma to_bytes_ok l : length (to_bytes l) = length l * 4 /\ bytes (to_bytes l).
Proof.
  induction l as [|w l [IH1 IH2]]; [split; [done|]; by intros b ?%elem_of_nil|]. cbn. split; [f_equal; by do 4 f_equal|].
  intros b Hb. rewrite !elem_of_cons in Hb. destruct Hb as [->|[->|[->|[->|Hb]]]]; [apply Z.mod_pos_bound; lia..|by apply IH2].
Qed.

End SortKeyRecord.
