(* ===== verification/SortKeyOrder.v ===== *)
(** * The order of sort keys ([diddle_key] of [jrd/sort.cpp])

    The longwords of keys that were made comparable are in the order of the
    values of the keys: signed and unsigned integers, IEEE numbers, dates and
    times, strings by their bytes; in reverse if the key is descending. *)

From S2P Require Import Prelude.
From S2P Require Import QSort.
From S2P Require Import Sort.
From S2P Require Import SortQuick.
From S2P Require Import SortOrder.
From S2P Require Import SortKey.
From S2P Require Import SortKeyView.
From S2P Require Import SortKeyLaws.
From S2P Require Import SortKeyRecord.
From stdpp Require Import list.

Module SortKeyOrder.
Import Sort SortQuick SortOrder SortKey SortKeyView SortKeyLaws SortKeyRecord.
#[local] Open Scope nat_scope.

(** ** Values of keys *)

(** The number a list of bytes is, least byte first. *)
Definition unsigned (s : list Z) : Z := foldr (fun b x => b + 256 * x)%Z 0%Z s.

(** IEEE numbers are in the order of these, but that -0 comes before 0. *)
Definition ordinal (w bits : Z) : Z := (if bits <? 2 ^ (w - 1) then bits else 2 ^ (w - 1) - 1 - bits)%Z.

(** What keys of a type are compared by, in the order of [lex]. *)
Definition value_of (key : SortKeyDef) (s : list Z) : list Z :=
  match skd_dtype key with
  | SKD_long | SKD_sql_date | SKD_sql_time => [wrap_s 32 (unsigned s)]
  | SKD_ulong | SKD_ushort => [unsigned s]
  | SKD_short => [unsigned (drop 2 s); wrap_s 16 (unsigned (take 2 s))]
  | SKD_int64 => [wrap_s 64 (unsigned s)]
  | SKD_timestamp1 | SKD_timestamp2 => [wrap_s 32 (unsigned (take 4 s)); unsigned (drop 4 s)]
  | SKD_float => [ordinal 32 (unsigned s)]
  | SKD_double => [ordinal 64 (unsigned s)]
  | SKD_varying => ushort_bytes 0 ++ drop 2 (padded key (2 + ushort (take 2 s)) s)
  | SKD_cstring => padded key (zero_at s) s
  | _ => s
  end.

(** The types whose values are compared, with the lengths they have. *)
Definition ordered_key (key : SortKeyDef) : Prop :=
  match skd_dtype key with
  | SKD_long | SKD_sql_date | SKD_sql_time | SKD_ulong | SKD_ushort | SKD_short | SKD_float => key_bytes key = 4
  | SKD_int64 | SKD_timestamp1 | SKD_timestamp2 | SKD_double => key_bytes key = 8
  | SKD_quad | SKD_d_float => False
  | _ => True
  end.

(** ** Comparing *)

Definition order_of (x y : Z) : Z := if (x =? y)%Z then 0%Z else if (x <? y)%Z then (-1)%Z else 1%Z.

Lemma lex_one x y : lex [x] [y] = order_of x y.
Proof. done. Qed.

Lemma lex_cons x y a b : lex (x :: a) (y :: b) = if (x =? y)%Z then lex a b else order_of x y.
Proof. unfold order_of. cbn. by destruct (x =? y)%Z. Qed.

Lemma order_shift f x y : (forall a b : Z, (a < b)%Z <-> (f a < f b)%Z) -> order_of (f x) (f y) = order_of x y.
Proof.
  intros Hf. unfold order_of. pose proof (Hf x y). pose proof (Hf y x). destruct (Z.eqb_spec x y) as [->|]; [by rewrite Z.eqb_refl|].
  destruct (Z.eqb_spec (f x) (f y)); [lia|]. destruct (Z.ltb_spec x y), (Z.ltb_spec (f x) (f y)); lia.
Qed.

Lemma order_same a b x y : ((a < b)%Z <-> (x < y)%Z) -> ((b < a)%Z <-> (y < x)%Z) -> order_of a b = order_of x y.
Proof.
  intros H1 H2. unfold order_of. destruct (Z.eqb_spec a b), (Z.eqb_spec x y), (Z.ltb_spec a b), (Z.ltb_spec x y); lia.
Qed.

(** Two longwords, the greater one first, as one number. *)
Lemma lex_two h l h' l' : long l -> long l' -> lex [h; l] [h'; l'] = order_of (h * 4294967296 + l) (h' * 4294967296 + l').
Proof.
  unfold long. intros Hl Hl'. rewrite lex_cons. destruct (Z.eqb_spec h h') as [->|]; [apply order_same; lia|]. apply order_same; lia.
Qed.

Lemma four (s : list Z) : length s = 4 -> exists a b c d, s = [a; b; c; d].
Proof. intros H. do 5 (destruct s as [|? s]; try discriminate H). by eexists _, _, _, _. Qed.

Lemma longs_four a b c d s : to_longs ([a; b; c; d] ++ s) = unsigned [a; b; c; d] :: to_longs s.
Proof. cbn. unfold long_of, unsigned. cbn. f_equal. lia. Qed.

Lemma unsigned_range s : bytes s -> (0 <= unsigned s < 256 ^ Z.of_nat (length s))%Z.
Proof.
  induction s as [|b s IH]; intros H; [cbn; lia|]. cbn [unsigned foldr length]. fold (unsigned s). rewrite Nat2Z.inj_succ, Z.pow_succ_r by lia.
  pose proof (H b ltac:(apply list_elem_of_here)). specialize (IH ltac:(intros x Hx; apply H; by apply list_elem_of_further)). nia.
Qed.

Lemma unsigned_app s t : unsigned (s ++ t) = (unsigned s + 256 ^ Z.of_nat (length s) * unsigned t)%Z.
Proof.
  induction s as [|b s IH]; [change (unsigned t = 0 + 1 * unsigned t)%Z; lia|]. cbn [unsigned foldr length app]. fold (unsigned s) (unsigned (s ++ t)). rewrite IH, Nat2Z.inj_succ, Z.pow_succ_r by lia. ring.
Qed.

Lemma unsigned_complemented s : bytes s -> unsigned (complemented s) = (256 ^ Z.of_nat (length s) - 1 - unsigned s)%Z.
Proof.
  induction s as [|b s IH]; intros H; [done|]. cbn [unsigned foldr length complemented fmap list_fmap]. fold (unsigned s). fold (complemented s). fold (unsigned (complemented s)).
  rewrite IH by (intros x Hx; apply H; by apply list_elem_of_further). rewrite Nat2Z.inj_succ, Z.pow_succ_r by lia.
  destruct (complement_byte b) as [_ ->]; [by apply H, list_elem_of_here|]. lia.
Qed.

(** Complemented keys are in reverse order. *)
Lemma complemented_order q : forall s t, length s = q * 4 -> length t = q * 4 -> bytes s -> bytes t ->
  lex (to_longs (complemented s)) (to_longs (complemented t)) = lex (to_longs t) (to_longs s).
Proof.
  induction q as [|q IH]; intros s t Hs Ht Bs Bt; [by destruct s, t|].
  rewrite <-(take_drop 4 s), <-(take_drop 4 t) in *. set (s1 := take 4 s) in *. set (s2 := drop 4 s) in *. set (t1 := take 4 t) in *. set (t2 := drop 4 t) in *.
  assert (L1 : length s1 = 4) by (unfold s1; rewrite length_take; rewrite length_app in Hs; unfold s1, s2 in Hs; rewrite length_take, length_drop in Hs; lia).
  assert (L2 : length t1 = 4) by (unfold t1; rewrite length_take; rewrite length_app in Ht; unfold t1, t2 in Ht; rewrite length_take, length_drop in Ht; lia).
  rewrite length_app in Hs, Ht. assert (B1 : bytes s1 /\ bytes s2 /\ bytes t1 /\ bytes t2) by (split; [|split; [|split]]; intros x Hx; ((apply Bs; apply elem_of_app; by auto) || (apply Bt; apply elem_of_app; by auto))).
  destruct B1 as (B1 & B2 & B3 & B4). unfold complemented in *. rewrite !fmap_app. fold (complemented s1) (complemented s2) (complemented t1) (complemented t2).
  pose proof (unsigned_complemented s1 B1) as U1. pose proof (unsigned_complemented t1 B3) as U2. rewrite L1 in U1. rewrite L2 in U2.
  destruct (four s1 L1) as (a & b & c & d & E1). destruct (four t1 L2) as (a' & b' & c' & d' & E2).
  assert (Hlong : forall l s, length l = 4 -> to_longs (l ++ s) = unsigned l :: to_longs s) by (intros l x Hl; destruct (four l Hl) as (? & ? & ? & ? & ->); apply longs_four).
  rewrite !Hlong by (rewrite ?complemented_length; done). rewrite !lex_cons, U1, U2. specialize (IH s2 t2 ltac:(lia) ltac:(lia) B2 B4). unfold complemented in *. rewrite IH.
  destruct (Z.eqb_spec (unsigned t1) (unsigned s1)) as [E|E]; [rewrite (proj2 (Z.eqb_eq _ _)) by lia; done|]. rewrite (proj2 (Z.eqb_neq _ _)) by lia. apply order_same; lia.
Qed.

(** ** Sign bits *)

Definition width (w : Z) (i : nat) : Prop := (2 ^ (w - 1) = 128 * 256 ^ Z.of_nat i /\ 2 ^ w = 256 * 256 ^ Z.of_nat i)%Z.

Lemma byte_sign b : (0 <= b < 256)%Z -> negative b = (128 <=? b)%Z /\ Z.lxor b 128 = (if negative b then b - 128 else b + 128)%Z.
Proof.
  intros Hb. pose proof (every_byte (fun b => eqb (negative b) (128 <=? b)%Z && (Z.lxor b 128 =? if negative b then b - 128 else b + 128)%Z) ltac:(vm_compute; reflexivity) b Hb) as H.
  apply andb_prop in H as [H1%eqb_prop H2]. split; [done|lia].
Qed.

Lemma last_byte i (s : list Z) : length s = S i -> exists s0 d, s = s0 ++ [d] /\ length s0 = i.
Proof.
  intros H. destruct s as [|d s0 _] using rev_ind; [done|]. exists s0, d. split; [done|]. rewrite length_app in H. cbn in H. lia.
Qed.

Lemma top_byte w i s : width w i -> length s = S i -> bytes s ->
  exists d, s !!! i = d /\ (0 <= d < 256)%Z /\ (0 <= unsigned s < 2 ^ w)%Z /\ negative d = (2 ^ (w - 1) <=? unsigned s)%Z /\
    unsigned (flipped i s) = (if negative d then unsigned s - 2 ^ (w - 1) else unsigned s + 2 ^ (w - 1))%Z.
Proof.
  intros [W1 W2] Hl Hb. destruct (last_byte i s Hl) as (s0 & d & -> & Hi). assert (Hd : (0 <= d < 256)%Z) by (apply Hb, elem_of_app; right; apply list_elem_of_here).
  assert (B0 : bytes s0) by (intros x Hx; apply Hb, elem_of_app; by left). pose proof (unsigned_range s0 B0) as Hr. rewrite Hi in Hr.
  assert (Hat : (s0 ++ [d]) !! i = Some d) by (rewrite lookup_app_r, Hi, Nat.sub_diag by lia; done). exists d.
  assert (Hf : flipped i (s0 ++ [d]) = s0 ++ [Z.lxor d 128]) by (unfold flipped; rewrite <-Hi, <-(Nat.add_0_r (length s0)); by rewrite alter_app_r).
  rewrite Hf, !unsigned_app, Hi. destruct (byte_sign d Hd) as [N1 N2]. rewrite N2, N1, W1, W2. set (P := (256 ^ Z.of_nat i)%Z) in *.
  assert (U : forall x, unsigned [x] = x) by (intros x; cbn; lia). rewrite !U. split; [by apply list_lookup_total_correct|]. split; [done|]. split; [nia|].
  destruct (Z.leb_spec 128 d); (split; [symmetry; (apply Z.leb_le || apply Z.leb_gt); nia|nia]).
Qed.

Lemma flipped_value w i s : width w i -> length s = S i -> bytes s -> unsigned (flipped i s) = (wrap_s w (unsigned s) + 2 ^ (w - 1))%Z.
Proof.
  intros W Hl Hb. destruct (top_byte w i s W Hl Hb) as (d & _ & _ & Hr & Hn & ->). unfold wrap_s. destruct W as [W1 W2]. rewrite Hn.
  destruct (Z.leb_spec (2 ^ (w - 1)) (unsigned s)).
  - rewrite <-(Z.mod_unique (unsigned s + 2 ^ (w - 1)) (2 ^ w) 1 (unsigned s - 2 ^ (w - 1))); lia.
  - rewrite Z.mod_small by lia. lia.
Qed.

Lemma signed_ordinal w i s : width w i -> length s = S i -> bytes s -> unsigned (signed_value true false i s) = (ordinal w (unsigned s) + 2 ^ (w - 1))%Z.
Proof.
  intros W Hl Hb. destruct (top_byte w i s W Hl Hb) as (d & Hd & _ & Hr & Hn & Hf). pose proof (unsigned_complemented s Hb) as Hc. rewrite Hl, Nat2Z.inj_succ, Z.pow_succ_r in Hc by lia.
  unfold signed_value, signed, ordinal. fold (negative (s !!! i)). rewrite Hd. destruct W as [W1 W2]. destruct (negative d) eqn:En; cbn [orb negb xorb fst snd complement_if]; symmetry in Hn.
  - apply Z.leb_le in Hn. rewrite Hc, (proj2 (Z.ltb_ge _ _)) by lia. lia.
  - apply Z.leb_gt in Hn. rewrite Hf, (proj2 (Z.ltb_lt _ _)) by lia. lia.
Qed.

Lemma signed_descending i s : signed_value true true i s = complemented (signed_value true false i s).
Proof. unfold signed_value, signed. cbn [orb]. destruct (xorb _ _); cbn [fst snd negb complement_if]; [done|by rewrite complemented_twice]. Qed.

Lemma width_16 : width 16 1. Proof. done. Qed.
Lemma width_32 : width 32 3. Proof. done. Qed.
Lemma width_64 : width 64 7. Proof. done. Qed.

(** ** Keys in ascending order *)

Definition ascending (key : SortKeyDef) (s : list Z) : list Z :=
  match skd_dtype key with
  | SKD_long | SKD_sql_date | SKD_sql_time | SKD_timestamp1 | SKD_timestamp2 => flipped 3 s
  | SKD_short => flipped 1 s
  | SKD_int64 => swapped (flipped 7 s)
  | SKD_float => signed_value true false 3 s
  | SKD_double => swapped (signed_value true false 7 s)
  | SKD_ulong | SKD_ushort | SKD_quad | SKD_d_float => s
  | SKD_text | SKD_bytes => reversed (key_bytes key / 4) s
  | SKD_varying | SKD_cstring => reversed (key_bytes key / 4) (value_of key s)
  end.

Lemma diddled_ascending key s c : ordered_key key -> (diddled false true key s c).1 = complement_if (descending key) (ascending key s).
Proof.
  intros Ho. destruct (decide (skd_dtype key = SKD_varying)) as [Ev|Ev]; [|destruct (decide (skd_dtype key = SKD_cstring)) as [Ec|Ec]].
  - rewrite diddled_varying by done. unfold ascending, text_of, stashed, value_of. by rewrite Ev.
  - rewrite diddled_cstring by done. unfold ascending, text_of, stashed, value_of. by rewrite Ec.
  - rewrite diddled_fixed by done. unfold ascending, ordered_key in *. cbn [fst]. destruct (skd_dtype key); try done; destruct (descending key); cbn [complement_if]; try done.
    + apply signed_descending.
    + by rewrite signed_descending, complemented_swapped.
Qed.

Lemma to_longs_app l s : length l = 4 -> to_longs (l ++ s) = unsigned l :: to_longs s.
Proof. intros Hl. destruct (four l Hl) as (? & ? & ? & ? & ->). apply longs_four. Qed.

Lemma to_longs_four s : length s = 4 -> to_longs s = [unsigned s].
Proof. intros H. pose proof (to_longs_app s [] H) as E. by rewrite app_nil_r in E. Qed.

Lemma to_longs_eight s : length s = 8 -> to_longs s = [unsigned (take 4 s); unsigned (drop 4 s)].
Proof.
  intros H. rewrite <-(take_drop 4 s) at 1. rewrite to_longs_app by (rewrite length_take; lia). by rewrite to_longs_four by (rewrite length_drop; lia).
Qed.

Lemma to_longs_swapped s : length s = 8 -> to_longs (swapped s) = [unsigned (drop 4 s); unsigned (take 4 s)].
Proof. intros H. do 9 (destruct s as [|? s]; try discriminate H). cbn. unfold long_of. do 2 f_equal; lia. Qed.

Lemma long_unsigned s : length s = 4 -> bytes s -> long (unsigned s).
Proof. intros Hl Hb. pose proof (unsigned_range s Hb) as H. rewrite Hl in H. exact H. Qed.

Lemma eight_value s : length s = 8 -> (unsigned (drop 4 s) * 4294967296 + unsigned (take 4 s))%Z = unsigned s.
Proof. intros H. rewrite <-(take_drop 4 s) at 3. rewrite unsigned_app, length_take, Nat.min_l by lia. change (256 ^ Z.of_nat 4)%Z with 4294967296%Z. lia. Qed.

(** The two longwords of eight bytes that are compared from the greater one
    on. *)
Lemma lex_eight s t : length s = 8 -> length t = 8 -> bytes s -> bytes t -> lex (to_longs (swapped s)) (to_longs (swapped t)) = order_of (unsigned s) (unsigned t).
Proof.
  intros Hs Ht Bs Bt. rewrite !to_longs_swapped by done. rewrite lex_two by (apply long_unsigned; [rewrite length_take; lia|rewrite <-(drop_0 (take 4 _)); by apply bytes_drop, (bytes_piece 0 4)]).
  by rewrite !eight_value.
Qed.

(** The bytes of longwords in reverse are compared one by one. *)
Lemma reversed_order q : forall s t, length s = q * 4 -> length t = q * 4 -> bytes s -> bytes t -> lex (to_longs (reversed q s)) (to_longs (reversed q t)) = lex s t.
Proof.
  induction q as [|q IH]; intros s t Hs Ht Bs Bt; [by destruct s, t|].
  do 4 (destruct s as [|? s]; [cbn in Hs; lia|]). do 4 (destruct t as [|? t]; [cbn in Ht; lia|]). cbn [reversed take drop]. rewrite ?take_0, ?drop_0.
  assert (R : (0 <= z < 256 /\ 0 <= z0 < 256 /\ 0 <= z1 < 256 /\ 0 <= z2 < 256 /\ 0 <= z3 < 256 /\ 0 <= z4 < 256 /\ 0 <= z5 < 256 /\ 0 <= z6 < 256)%Z).
  { repeat apply conj; first [apply Bs; rewrite !elem_of_cons; tauto | apply Bt; rewrite !elem_of_cons; tauto]. }
  assert (E : lex (to_longs (reversed q s)) (to_longs (reversed q t)) = lex s t).
  { apply IH; [injection Hs as Hs; exact Hs|injection Ht as Ht; exact Ht| |]; intros x Hx; [apply Bs|apply Bt]; by do 4 apply list_elem_of_further. }
  rewrite !to_longs_app by (by rewrite length_reverse). rewrite lex_cons, E.
  cbn [reverse rev_append app unsigned foldr reverse]. unfold reverse. cbn [rev_append unsigned foldr]. rewrite !lex_cons.
  destruct (Z.eqb_spec z z3) as [->|]; [|rewrite (proj2 (Z.eqb_neq _ _)) by lia; apply order_same; lia].
  destruct (Z.eqb_spec z0 z4) as [->|]; [|rewrite (proj2 (Z.eqb_neq _ _)) by lia; apply order_same; lia].
  destruct (Z.eqb_spec z1 z5) as [->|]; [|rewrite (proj2 (Z.eqb_neq _ _)) by lia; apply order_same; lia].
  destruct (Z.eqb_spec z2 z6) as [->|]; [|rewrite (proj2 (Z.eqb_neq _ _)) by lia; apply order_same; lia].
  by rewrite Z.eqb_refl.
Qed.

(** ** The order *)

Lemma ascending_length key s : ordered_key key -> length s = key_bytes key -> string_ok false true key s [] -> least_bytes key <= key_bytes key -> length (ascending key s) = key_bytes key.
Proof.
  intros Ho Hs Hok Hn. unfold ascending, ordered_key, least_bytes, string_ok, value_of in *. destruct (skd_dtype key); try done; rewrite ?flipped_length, ?reversed_length; try done.
  - unfold signed_value. by rewrite complement_if_length, signed_length.
  - rewrite swapped_length; unfold signed_value; rewrite complement_if_length, signed_length; lia.
  - specialize (Hok eq_refl). rewrite length_app, length_drop, padded_length by lia. cbn [length ushort_bytes]. lia.
  - cbn [andb negb] in Hok. rewrite padded_length by lia. done.
  - rewrite swapped_length; rewrite flipped_length; lia.
Qed.

Lemma bytes_value key s : bytes s -> skd_dtype key = SKD_varying \/ skd_dtype key = SKD_cstring -> bytes (value_of key s).
Proof.
  intros Hs [E|E]; unfold value_of; rewrite E; [|by apply bytes_padded]. apply bytes_app; [apply bytes_ushort|]. by apply bytes_drop, bytes_padded.
Qed.

Lemma bytes_ascending key s : bytes s -> ordered_key key -> bytes (ascending key s).
Proof.
  intros Hs Ho. pose proof (bytes_value key s Hs) as Hv. unfold ascending, ordered_key in *.
  destruct (skd_dtype key); try done; try (by apply bytes_flipped); try (by apply bytes_reversed); try (apply bytes_reversed, Hv; auto).
  - by apply bytes_signed.
  - by apply bytes_swapped, bytes_signed.
  - by apply bytes_swapped, bytes_flipped.
Qed.

Lemma order_add x y k : order_of (x + k) (y + k) = order_of x y.
Proof. apply (order_shift (fun a => a + k)%Z). lia. Qed.

Lemma bytes_take n s : bytes s -> bytes (take n s).
Proof. intros Hs x Hx. apply Hs. by apply (sublist_subseteq _ _ (sublist_take s n)). Qed.

Lemma flipped_take i n s : i < n -> take n (flipped i s) = flipped i (take n s) /\ drop n (flipped i s) = drop n s.
Proof.
  intros H. unfold flipped. split; apply list_eq; intros k.
  - destruct (decide (k < n)); [|rewrite !lookup_ge_None_2 by (rewrite ?length_alter, ?length_take, ?length_alter; lia); done]. rewrite lookup_take_lt by done.
    destruct (decide (k = i)) as [->|]; [rewrite !list_lookup_alter_eq|rewrite !list_lookup_alter_ne by done]; by rewrite lookup_take_lt.
  - rewrite !lookup_drop. apply list_lookup_alter_ne. lia.
Qed.

Lemma ascending_order key s t :
  ordered_key key -> length s = key_bytes key -> length t = key_bytes key -> bytes s -> bytes t -> string_ok false true key s [] -> string_ok false true key t [] -> least_bytes key <= key_bytes key ->
  lex (to_longs (ascending key s)) (to_longs (ascending key t)) = lex (value_of key s) (value_of key t).
Proof.
  intros Ho Hs Ht Bs Bt Os Ot Hn. pose proof (ascending_length key s Ho Hs Os Hn) as Las. pose proof (ascending_length key t Ho Ht Ot Hn) as Lat.
  pose proof (bytes_value key s Bs) as Vs. pose proof (bytes_value key t Bt) as Vt.
  assert (Htext : forall u v, length u = key_bytes key -> length v = key_bytes key -> bytes u -> bytes v ->
    lex (to_longs (reversed (key_bytes key / 4) u)) (to_longs (reversed (key_bytes key / 4) v)) = lex u v).
  { intros u v Hu Hv Bu Bv. pose proof (key_words key). apply reversed_order; try done; lia. }
  assert (Hlong : length s = 4 -> length t = 4 -> lex (to_longs (flipped 3 s)) (to_longs (flipped 3 t)) = lex [wrap_s 32 (unsigned s)] [wrap_s 32 (unsigned t)]).
  { intros L1 L2. rewrite !to_longs_four by (by rewrite flipped_length). rewrite !lex_one, !(flipped_value 32 3) by (done || apply width_32). apply order_add. }
  assert (Hts : length s = 8 -> length t = 8 ->
    lex (to_longs (flipped 3 s)) (to_longs (flipped 3 t)) = lex [wrap_s 32 (unsigned (take 4 s)); unsigned (drop 4 s)] [wrap_s 32 (unsigned (take 4 t)); unsigned (drop 4 t)]).
  { intros L1 L2. rewrite !to_longs_eight by (by rewrite flipped_length). rewrite !(proj1 (flipped_take 3 4 _ ltac:(lia))), !(proj2 (flipped_take 3 4 _ ltac:(lia))).
    rewrite !(flipped_value 32 3) by (apply width_32 || (rewrite length_take; lia) || by apply bytes_take). rewrite !lex_cons, order_add.
    destruct (Z.eqb_spec (wrap_s 32 (unsigned (take 4 s))) (wrap_s 32 (unsigned (take 4 t)))) as [->|]; [by rewrite Z.eqb_refl|]. by rewrite (proj2 (Z.eqb_neq _ _)) by lia. }
  unfold ascending, ordered_key, value_of in *. unfold string_ok in Os, Ot. destruct (skd_dtype key) eqn:Ed; try done; cbn [andb negb] in *.
  - apply Hlong; congruence.
  - rewrite !to_longs_four by congruence. done.
  - assert (Hsplit : forall u, length u = 4 -> bytes u -> unsigned (flipped 1 u) = (unsigned (drop 2 u) * 65536 + (wrap_s 16 (unsigned (take 2 u)) + 32768))%Z).
    { intros u Hu Bu. rewrite <-(take_drop 2 (flipped 1 u)), (proj1 (flipped_take 1 2 u ltac:(lia))), (proj2 (flipped_take 1 2 u ltac:(lia))), unsigned_app.
      rewrite (flipped_value 16 1) by (apply width_16 || (rewrite length_take; lia) || by apply bytes_take). rewrite flipped_length, length_take, Hu.
      change (256 ^ Z.of_nat (2 `min` 4))%Z with 65536%Z. change (2 ^ (16 - 1))%Z with 32768%Z. lia. }
    rewrite !to_longs_four by congruence. rewrite lex_one, !Hsplit by (congruence || done). rewrite lex_cons.
    assert (Hw : forall u, (0 <= wrap_s 16 u + 32768 < 65536)%Z) by (intros u; unfold wrap_s; pose proof (Z.mod_pos_bound (u + 2 ^ (16 - 1)) (2 ^ 16)); lia).
    pose proof (Hw (unsigned (take 2 s))). pose proof (Hw (unsigned (take 2 t))). destruct (Z.eqb_spec (unsigned (drop 2 s)) (unsigned (drop 2 t))) as [->|]; [rewrite lex_one|]; apply order_same; lia.
  - rewrite !to_longs_four by congruence. done.
  - by apply Htext.
  - rewrite !to_longs_four by congruence. rewrite !lex_one, !(signed_ordinal 32 3) by (congruence || done || apply width_32). apply order_add.
  - rewrite lex_eight; unfold signed_value; try (rewrite complement_if_length, signed_length; congruence); try (by apply bytes_signed). fold (signed_value true false 7 s) (signed_value true false 7 t).
    rewrite !(signed_ordinal 64 7) by (congruence || done || apply width_64). rewrite order_add. done.
  - apply Hts; congruence.
  - by apply Htext.
  - specialize (Os eq_refl). specialize (Ot eq_refl). apply Htext; [rewrite length_app, length_drop, padded_length by lia; cbn [length ushort_bytes]; lia..|by apply Vs; auto|by apply Vt; auto].
  - apply Htext; [rewrite padded_length by lia; done..|by apply Vs; auto|by apply Vt; auto].
  - apply Hlong; congruence.
  - apply Hlong; congruence.
  - apply Hts; congruence.
  - rewrite lex_eight by (rewrite ?flipped_length; (congruence || by apply bytes_flipped)). rewrite !(flipped_value 64 7) by (congruence || done || apply width_64). rewrite order_add. done.
Qed.

Lemma diddled_order key s t c d :
  ordered_key key -> length s = key_bytes key -> length t = key_bytes key -> bytes s -> bytes t -> string_ok false true key s c -> string_ok false true key t d -> least_bytes key <= key_bytes key ->
  lex (to_longs (diddled false true key s c).1) (to_longs (diddled false true key t d).1) =
  if descending key then lex (value_of key t) (value_of key s) else lex (value_of key s) (value_of key t).
Proof.
  intros Ho Hs Ht Bs Bt Os Ot Hn. rewrite !diddled_ascending by done.
  assert (Os' : string_ok false true key s []) by (unfold string_ok in *; by destruct (skd_dtype key)). assert (Ot' : string_ok false true key t []) by (unfold string_ok in *; by destruct (skd_dtype key)).
  destruct (descending key); cbn [complement_if]; [|by apply ascending_order].
  rewrite (complemented_order (key_bytes key / 4)); [by apply ascending_order|..]; try (by apply bytes_ascending); rewrite ascending_length by done; pose proof (key_words key); lia.
Qed.

End SortKeyOrder.
