(* ===== verification/SortKeyClient.v ===== *)
(** * Sorting by described keys ([jrd/sort.cpp])

    The keys of [diddle_key] satisfy what the sort relies on, so that records
    come back in the order of the values of their keys. *)

From S2P Require Import Prelude.
From S2P Require Import QSort.
From S2P Require Import Sort.
From S2P Require Import SortQuick.
From S2P Require Import SortOrder.
From S2P Require Import SortMerge.
From S2P Require Import SortClient.
From S2P Require Import SortKey.
From S2P Require Import SortKeyView.
From S2P Require Import SortKeyLaws.
From S2P Require Import SortKeyRecord.
From S2P Require Import SortKeyOrder.
From stdpp Require Import list sorting.

Module SortKeyClient.
Import Sort SortQuick SortOrder SortMerge SortClient SortKey SortKeyView SortKeyLaws SortKeyRecord SortKeyOrder.
#[local] Open Scope nat_scope.

(** ** The keys of a sort *)

(** [ROUNDUP(p->skd_offset + p->skd_length, sizeof(SLONG)) >> SHIFTLONG] *)
Definition key_longs (p : SortKeyDef) : nat := (skd_offset p + skd_length p + 3) / 4.

(** Records as longwords; one that [diddle_key] cannot change has none. *)
Definition diddle_longs (sorted direction : bool) (keys : list SortKeyDef) (record : list Z) : list Z :=
  match SortKey.diddle_key sorted direction keys (to_bytes record) with Ret r => to_longs r | Throw _ => [] end.

(** What [SORT_init] makes of the description of keys. *)
Definition sort_keys (keys : list SortKeyDef) (unique_keys : nat) (callback : option (list Z -> list Z -> bool)) : SortKeys := {|
  scb_key_length := from_option key_longs 0 (last keys);
  scb_unique_length := from_option key_longs 0 (keys !! pred unique_keys);
  Sort.diddle_key sorted direction record := diddle_longs sorted direction keys record;
  scb_dup_callback := callback |}.

(** Keys that lie in records of [len] longwords and do not meet, the unique
    ones first. *)
Record layout (keys : list SortKeyDef) (unique_keys len : nat) : Prop := {
  layout_disjoint : disjoint_keys keys;
  layout_within key : key ∈ keys -> within (len * 4) key;
  layout_lengths : 0 < from_option key_longs 0 (keys !! pred unique_keys) <= from_option key_longs 0 (last keys) /\ from_option key_longs 0 (last keys) <= len
}.

(** Records that can be sorted: strings end within their keys, and not all of a
    record, or of the unique keys if duplicates matter, is as great as can be. *)
Record sortable (keys : list SortKeyDef) (unique_keys : nat) (callback : option (list Z -> list Z -> bool)) (len : nat) (r : list Z) : Prop := {
  sortable_length : length r = len;
  sortable_longs w : w ∈ r -> long w;
  sortable_strings : strings_ok false true keys (to_bytes r);
  sortable_below : exists w x, w < 64 /\ diddle_longs false true keys r !! w = Some x /\ x <> ULONG_MAX;
  sortable_unique : callback = None \/
    exists w x, w < from_option key_longs 0 (keys !! pred unique_keys) /\ w < 64 /\ diddle_longs false true keys r !! w = Some x /\ x <> ULONG_MAX
}.

Section Keys.
Context (keys : list SortKeyDef) (unique_keys len : nat) (callback : option (list Z -> list Z -> bool)).
Context (LA : layout keys unique_keys len).

Lemma diddle_longs_again srt r :
  length r = len -> strings_ok false true keys (to_bytes r) ->
  let x := diddle_longs false true keys r in let y := diddle_longs srt false keys x in
  length x = len /\ length y = len /\ (forall w, w ∈ x -> long w) /\ (forall srt', diddle_longs srt' true keys y = x) /\
  (forall key, key ∈ keys -> bytes_of key (to_bytes y) = normal key (bytes_of key (to_bytes r))) /\
  forall i, (forall key, key ∈ keys -> ~ covers key i) -> to_bytes y !! i = to_bytes r !! i.
Proof.
  intros Hl Hok x y. destruct (to_bytes_ok r) as [Lr Br]. rewrite Hl in Lr. pose proof (layout_disjoint _ _ _ LA) as Hd.
  assert (Hw : forall key, key ∈ keys -> within (length (to_bytes r)) key) by (rewrite Lr; apply LA).
  destruct (diddle_key_again false srt keys _ Hd Hw Hok Br) as (xb & yb & Ex & Ey & _ & Lx & Ly & Hox & Hn & Ho).
  pose proof (diddle_key_bytes false true keys _ _ Hd Hw Hok Br Ex) as Bx. assert (Hwx : forall key, key ∈ keys -> within (length xb) key) by (by rewrite Lx).
  pose proof (diddle_key_bytes srt false keys _ _ Hd Hwx Hox Bx Ey) as By.
  destruct (to_bytes_longs len xb) as (Tx & Llx & Rx); [congruence|done|]. destruct (to_bytes_longs len yb) as (Ty & Lly & Ry); [congruence|done|].
  assert (E1 : x = to_longs xb) by (unfold x, diddle_longs; by rewrite Ex). assert (E2 : y = to_longs yb) by (unfold y, diddle_longs; by rewrite E1, Tx, Ey).
  rewrite E1, E2. split; [done|]. split; [done|]. split; [done|]. rewrite Ty. split; [|done].
  intros srt'. destruct (diddle_key_again srt' srt keys _ Hd Hw Hok Br) as (xb' & yb' & Ex' & Ey' & Ez' & _). assert (xb' = xb) as -> by congruence. assert (yb' = yb) as -> by congruence.
  unfold diddle_longs. by rewrite Ty, Ez'.
Qed.

Definition made (x : list Z) : Prop := exists r, sortable keys unique_keys callback len r /\ x = diddle_longs false true keys r.

#[local] Instance SK : SortKeys := sort_keys keys unique_keys callback.

Lemma sort_keys_laws : Keys (SK := SK) len made (sortable keys unique_keys callback len).
Proof.
  split.
  - apply LA.
  - intros x (r & H & ->). by apply (diddle_longs_again false r (sortable_length _ _ _ _ _ H) (sortable_strings _ _ _ _ _ H)).
  - intros x (r & H & ->). split; [|apply (sortable_below _ _ _ _ _ H)]. intros w Hw.
    destruct (diddle_longs_again false r (sortable_length _ _ _ _ _ H) (sortable_strings _ _ _ _ _ H)) as (_ & _ & Hr & _). pose proof (Hr w Hw) as Hl. unfold long in Hl. unfold ULONG_MAX. lia.
  - intros x (r & H & ->). apply (sortable_unique _ _ _ _ _ H).
  - intros srt x (r & H & ->). by apply (diddle_longs_again srt r (sortable_length _ _ _ _ _ H) (sortable_strings _ _ _ _ _ H)).
  - intros srt x (r & H & ->). by apply (diddle_longs_again srt r (sortable_length _ _ _ _ _ H) (sortable_strings _ _ _ _ _ H)).
  - intros r H. split; [by exists r|apply H].
Qed.

End Keys.

(** ** Records by their keys *)

(** A record as it comes back from a sort. *)
Definition returned (keys : list SortKeyDef) (r : list Z) : list Z := diddle_longs true false keys (diddle_longs false true keys r).

Lemma permuted_image {A B} (f : A -> B) (l : list A) (m : list B) : m ≡ₚ f <$> l -> exists l', l' ≡ₚ l /\ m = f <$> l'.
Proof.
  intros H. apply Permutation_map_inv in H as (l' & -> & H'). exists l'. split; [by symmetry|done].
Qed.

Lemma sorted_image {A B} (f : A -> B) (P : B -> B -> Prop) (l : list A) : StronglySorted P (f <$> l) -> StronglySorted (fun x y => P (f x) (f y)) l.
Proof.
  induction l as [|x l IH]; intros H; [constructor|]. apply StronglySorted_inv in H as [H Hx]. constructor; [by apply IH|]. apply (List.Forall_map f (P (f x)) l). exact Hx.
Qed.

(** C29: changing the keys of a record for comparison and back gives the record,
    but that strings are padded behind their ends; and changing them for
    comparison again, before or after the sort is complete, gives the same. *)
Theorem diddle_key_roundtrip keys unique_keys len r srt srt' :
  layout keys unique_keys len -> length r = len -> strings_ok false true keys (to_bytes r) ->
  let x := diddle_longs false true keys r in let y := diddle_longs srt false keys x in
  diddle_longs srt' true keys y = x /\ (forall key, key ∈ keys -> bytes_of key (to_bytes y) = normal key (bytes_of key (to_bytes r))) /\
  forall i, (forall key, key ∈ keys -> ~ covers key i) -> to_bytes y !! i = to_bytes r !! i.
Proof. intros LA Hl Hok. destruct (diddle_longs_again keys unique_keys len LA srt r Hl Hok) as (_ & _ & _ & H1 & H2 & H3). done. Qed.

(** C28: the longwords of a key that was made comparable are in the order of the
    values of the keys: signed and unsigned integers, IEEE numbers, dates,
    timestamps, strings by their bytes with blanks or zeros behind them; in the
    reverse order if the key is descending. *)
Theorem diddle_key_orders keys r r' x x' key :
  disjoint_keys keys -> (forall key, key ∈ keys -> within (length r) key) -> length r' = length r -> bytes r -> bytes r' ->
  strings_ok false true keys r -> strings_ok false true keys r' -> key ∈ keys -> ordered_key key ->
  SortKey.diddle_key false true keys r = Ret x -> SortKey.diddle_key false true keys r' = Ret x' ->
  lex (to_longs (bytes_of key x)) (to_longs (bytes_of key x')) =
  if descending key then lex (value_of key (bytes_of key r')) (value_of key (bytes_of key r)) else lex (value_of key (bytes_of key r)) (value_of key (bytes_of key r')).
Proof.
  intros Hd Hw Hl Br Br' Hok Hok' Hin Ho Ex Ex'. destruct (Hw key Hin) as (W1 & _ & _ & W4 & _). assert (Hw' : forall key, key ∈ keys -> within (length r') key) by (by rewrite Hl).
  destruct (diddle_key_ok false true keys r Hd Hw Hok) as (x1 & E1 & _ & V & _). destruct (diddle_key_ok false true keys r' Hd Hw' Hok') as (x1' & E1' & _ & V' & _).
  assert (x1 = x) as -> by congruence. assert (x1' = x') as -> by congruence. pose proof (f_equal fst (V key Hin)) as F. pose proof (f_equal fst (V' key Hin)) as F'. cbn [fst] in F, F'. rewrite F, F'.
  apply diddled_order; [done|by apply piece_length|apply piece_length; lia|by apply bytes_piece|by apply bytes_piece|by apply Hok|by apply Hok'|done].
Qed.

(** C9: records put to a sort without a callback for duplicates come back, all
    of them and each as often, in the order of their keys, whatever the memory
    is that the sort has got: there is no overrun in sorting, in putting records
    in physical order or in merging runs, and every loop ends.  Records with all
    ones in each of their longwords (the first 64 of them, keys as they are
    compared) are excluded ([sortable_below]): they are like the guard at the end,
    which does not stop the scan for a greater record then.  Strings have to end
    within their keys. *)
Theorem sorting_permutes keys unique_keys len record_length size l :
  let SK := sort_keys keys unique_keys None in
  layout keys unique_keys len -> (record_length + 4 + 3) / 4 = S len -> S len + 2 < size -> (Z.of_nat size < 2147483648)%Z ->
  (forall r, r ∈ l -> sortable keys unique_keys None len r) ->
  exists l', sort_records record_length size l = Ret (returned keys <$> l') /\ l' ≡ₚ l /\
    StronglySorted (fun r r' => key_le (diddle_longs false true keys r) (diddle_longs false true keys r')) l'.
Proof.
  intros SK LA Hl Hs Hs' Hr. destruct (sorting_permutes_ok (KY := sort_keys_laws keys unique_keys len None LA) record_length size l eq_refl Hl Hs Hs' Hr) as (l1 & E & Hp & Hsl).
  destruct (permuted_image _ l l1 Hp) as (l' & Hp' & ->). exists l'. split; [|split; [done|by apply (sorted_image _ key_le)]].
  etransitivity; [exact E|]. f_equal. by rewrite <-list_fmap_compose.
Qed.

(** C27: with a callback that rejects all duplicates what comes back is strictly
    ascending in the unique keys, consists of records that were put, and has
    every unique key that was put.  Records whose unique keys have all ones in
    each longword (the first 64 of them, keys as they are compared) are excluded
    ([sortable_unique]), as the last pass offers such a record to the callback
    together with the guard at the end, and loses it; and so are the records
    that have all ones everywhere, as for sorts without a callback. *)
Theorem sorting_distinct keys unique_keys len record_length size l callback :
  let SK := sort_keys keys unique_keys (Some callback) in
  layout keys unique_keys len -> (forall x y, callback x y = true) ->
  (record_length + 4 + 3) / 4 = S len -> S len + 2 < size -> (Z.of_nat size < 2147483648)%Z ->
  (forall r, r ∈ l -> sortable keys unique_keys (Some callback) len r) ->
  exists l', sort_records record_length size l = Ret (returned keys <$> l') /\ (forall r, r ∈ l' -> r ∈ l) /\
    StronglySorted (fun r r' => unique_lt (diddle_longs false true keys r) (diddle_longs false true keys r')) l' /\
    forall r, r ∈ l -> exists r', r' ∈ l' /\ unique_of_record (diddle_longs false true keys r) = unique_of_record (diddle_longs false true keys r').
Proof.
  intros SK LA Hcb Hl Hs Hs' Hr.
  destruct (sorting_distinct_ok (KY := sort_keys_laws keys unique_keys len (Some callback) LA) record_length size l (ex_intro _ callback (conj eq_refl Hcb)) Hl Hs Hs' Hr) as (l1 & E & Hsl & Hin & Hall).
  assert (Hl1 : exists l', l1 = (diddle_longs false true keys <$> l') /\ forall r, r ∈ l' -> r ∈ l).
  { clear -Hin. induction l1 as [|x l1 IH]; [exists []; split; [done|by intros r ?%elem_of_nil]|].
    destruct IH as (l' & -> & H'); [intros y Hy; apply Hin; by apply list_elem_of_further|]. destruct (proj1 (list_elem_of_fmap _ _ _) (Hin x ltac:(apply list_elem_of_here))) as (r & -> & Hr).
    exists (r :: l'). split; [done|]. intros r' [->|Hr']%elem_of_cons; [done|by apply H']. }
  destruct Hl1 as (l' & -> & Hl'). exists l'. split; [etransitivity; [exact E|]; f_equal; by rewrite <-list_fmap_compose|]. split; [done|]. split; [by apply (sorted_image _ unique_lt)|].
  intros r Hrl. destruct (Hall (diddle_longs false true keys r)) as (y & Hy & Ey); [by apply list_elem_of_fmap_2|]. apply list_elem_of_fmap in Hy as (r' & -> & Hr'). by exists r'.
Qed.

(** ** Records with a descending integer and a string *)

Definition two_keys : list SortKeyDef := [mk_skd SKD_long 1 4 0 0; mk_skd SKD_varying 0 7 4 12].

(** The string is of two characters, its length first. *)
Definition two_fields (n a b : Z) : list Z := [n; long_of 2 0 a b; 0; 0]%Z.

Definition six_records : list (list Z) :=
  [two_fields 5 66 66; two_fields 4294967295 65 67; two_fields 7 65 65; two_fields 5 65 66; two_fields 0 90 90; two_fields 7 65 65].

Lemma two_keys_layout : layout two_keys 1 4.
Proof.
  split.
  - split; [|split; [by intros b ?%elem_of_nil|done]]. intros b ->%list_elem_of_singleton i. unfold covers. cbn. lia.
  - intros key [->|[->|[]%elem_of_nil]%elem_of_cons]%elem_of_cons; (apply (bool_decide_unpack _); vm_compute; exact I).
  - cbn. lia.
Qed.

Lemma two_fields_sortable callback n a b :
  (0 <= n < 4294967296)%Z -> (0 <= a < 256)%Z -> (0 <= b < 256)%Z -> diddle_longs false true two_keys (two_fields n a b) !! 0 <> Some ULONG_MAX ->
  sortable two_keys 1 callback 4 (two_fields n a b).
Proof.
  intros Hn Ha Hb Hne. assert (Hlen : length (two_fields n a b) = 4) by done.
  assert (Hlongs : forall w, w ∈ two_fields n a b -> long w).
  { intros w. unfold two_fields, long_of, long. rewrite !elem_of_cons, elem_of_nil. intros [->|[->|[->|[->|[]]]]]; lia. }
  assert (Hstr : strings_ok false true two_keys (to_bytes (two_fields n a b))).
  { intros key [->|[->|[]%elem_of_nil]%elem_of_cons]%elem_of_cons; [done|]. unfold string_ok. cbn [skd_dtype]. intros _. unfold two_fields, to_bytes. cbn [fmap list_fmap concat].
    destruct (bytes_of_long 2 0 a b) as [E _]; [intros x; rewrite !elem_of_cons, elem_of_nil; intros [->|[->|[->|[->|[]]]]]; lia|]. rewrite E. vm_compute. lia. }
  destruct (diddle_longs_again two_keys 1 4 two_keys_layout false _ Hlen Hstr) as (Hx & _). destruct (diddle_longs false true two_keys (two_fields n a b)) as [|x l] eqn:E; [done|].
  cbn in Hne. split; try done.
  - exists 0, x. rewrite E. split; [lia|]. split; [done|]. congruence.
  - right. exists 0, x. rewrite E. split; [cbn; lia|]. split; [lia|]. split; [done|]. congruence.
Qed.

Lemma six_records_sortable callback r : r ∈ six_records -> sortable two_keys 1 callback 4 r.
Proof.
  unfold six_records. rewrite !elem_of_cons, elem_of_nil. intros [->|[->|[->|[->|[->|[->|[]]]]]]]; (apply two_fields_sortable; [lia|lia|lia|vm_compute; discriminate]).
Qed.

Lemma diddle_key_roundtrip_witness :
  diddle_longs false true two_keys (two_fields 5 66 65) = [2147483642; 16961; 538976288; 2]%Z /\
  let x := diddle_longs false true two_keys (two_fields 5 66 65) in let y := diddle_longs true false two_keys x in
  diddle_longs false true two_keys y = x /\ y = [5; long_of 2 0 66 65; 538976288; 2]%Z.
Proof.
  split; [vm_compute; reflexivity|].
  assert (Hs : strings_ok false true two_keys (to_bytes (two_fields 5 66 65))) by (apply (two_fields_sortable None); [lia|lia|lia|vm_compute; discriminate]).
  pose proof (diddle_key_roundtrip two_keys 1 4 (two_fields 5 66 65) true false two_keys_layout eq_refl Hs) as [H _]. split; [exact H|vm_compute; reflexivity].
Defined.

Lemma diddle_key_orders_witness :
  lex (to_longs (bytes_of (mk_skd SKD_long 1 4 0 0) [250; 255; 255; 127; 66; 65; 0; 0; 32; 32; 32; 32; 2; 0; 0; 0]%Z))
      (to_longs (bytes_of (mk_skd SKD_long 1 4 0 0) [0; 0; 0; 128; 66; 65; 0; 0; 32; 32; 32; 32; 2; 0; 0; 0]%Z)) =
  lex (value_of (mk_skd SKD_long 1 4 0 0) [255; 255; 255; 255]%Z) (value_of (mk_skd SKD_long 1 4 0 0) [5; 0; 0; 0]%Z) /\
  value_of (mk_skd SKD_long 1 4 0 0) [255; 255; 255; 255]%Z = [-1]%Z.
Proof.
  split; [|vm_compute; reflexivity].
  assert (Hs : forall n, (0 <= n < 4294967296)%Z -> diddle_longs false true two_keys (two_fields n 65 66) !! 0 <> Some ULONG_MAX -> strings_ok false true two_keys (to_bytes (two_fields n 65 66))).
  { intros n Hn Hd. apply (two_fields_sortable None); [exact Hn|lia|lia|exact Hd]. }
  exact (diddle_key_orders two_keys (to_bytes (two_fields 5 65 66)) (to_bytes (two_fields 4294967295 65 66)) _ _ (mk_skd SKD_long 1 4 0 0)
    (layout_disjoint _ _ _ two_keys_layout) (layout_within _ _ _ two_keys_layout) eq_refl (proj2 (to_bytes_ok _)) (proj2 (to_bytes_ok _))
    (Hs 5%Z ltac:(lia) ltac:(vm_compute; discriminate)) (Hs 4294967295%Z ltac:(lia) ltac:(vm_compute; discriminate)) (list_elem_of_here _ _) eq_refl eq_refl eq_refl).
Defined.

Lemma sorting_permutes_witness :
  sort_records (SK := sort_keys two_keys 1 None) 16 12 six_records =
    Ret (returned two_keys <$> [two_fields 7 65 65; two_fields 7 65 65; two_fields 5 65 66; two_fields 5 66 66; two_fields 0 90 90; two_fields 4294967295 65 67])%Z /\
  exists l', sort_records (SK := sort_keys two_keys 1 None) 16 12 six_records = Ret (returned two_keys <$> l') /\ l' ≡ₚ six_records /\
    StronglySorted (fun r r' => key_le (SK := sort_keys two_keys 1 None) (diddle_longs false true two_keys r) (diddle_longs false true two_keys r')) l'.
Proof.
  split; [vm_compute; reflexivity|].
  exact (sorting_permutes two_keys 1 4 16 12 six_records two_keys_layout eq_refl ltac:(lia) ltac:(lia) (six_records_sortable None)).
Defined.

Lemma sorting_distinct_witness :
  exists l', sort_records (SK := sort_keys two_keys 1 (Some (fun _ _ => true))) 16 12 six_records = Ret (returned two_keys <$> l') /\
    StronglySorted (fun r r' => unique_lt (SK := sort_keys two_keys 1 (Some (fun _ _ => true))) (diddle_longs false true two_keys r) (diddle_longs false true two_keys r')) l'.
Proof.
  destruct (sorting_distinct two_keys 1 4 16 12 six_records (fun _ _ => true) two_keys_layout (fun _ _ => eq_refl) eq_refl ltac:(lia) ltac:(lia) (six_records_sortable _)) as (l' & E & _ & Hs & _).
  exists l'. split; [exact E|exact Hs].
Defined.

End SortKeyClient.
