(* ===== verification/Pag.v ===== *)
(** * Page allocation ([jrd/pag.cpp], [jrd/pag.h], [jrd/ods.h])

    Which pages of the database file are in use is kept on page inventory
    pages, one bit for each page, set while the page is free.  The first is
    page 1; each other is the last page of those that its predecessor
    describes.  Pages are what the cache holds; what is asked of the cache is
    listed in the order of the calls.  The operations run one after another,
    as by one thread. *)

From S2P Require Import Prelude.
From stdpp Require Import gmap.
#[local] Open Scope Z_scope.

Module Pag.

(** ** Pages *)

Definition pag_undefined : Z := 0.
Definition pag_header : Z := 1.
Definition pag_pages : Z := 2.
Definition pag_log : Z := 10.

Definition HEADER_PAGE : Z := 0.
Definition LOG_PAGE : Z := 2.

Record page_inv_page := mk_pip { pip_min : Z; pip_bits : list Z }.

(** Of a page of another type only the type is kept. *)
Inductive page :=
  | Inventory (pip : page_inv_page)
  | Page (type : Z).

Definition pag_type (p : page) : Z := match p with Inventory _ => pag_pages | Page t => t end.

(** Where the parts of a page begin, and the sizes of what repeats there. *)
Definition offset_pip_bits : Z := 20.
Definition offset_tip_transactions : Z := 20.
Definition offset_gpg_values : Z := 32.
Definition offset_ppg_page : Z := 32.
Definition offset_irt_rpt : Z := 20.
Definition offset_rhd_data : Z := 13.
Definition sizeof_gpg_values : Z := 8.
Definition sizeof_ppg_page : Z := 4.
Definition sizeof_data_page : Z := 28.
Definition sizeof_dpg_repeat : Z := 4.
Definition sizeof_irt_repeat : Z := 12.
Definition sizeof_irtd : Z := 8.
Definition sizeof_irtd_ods10 : Z := 4.

(** ** The page control block *)

Record PageControl := mk_control {
  pgc_high_water : Z;
  pgc_ppp : Z;
  pgc_pip : Z;
  pgc_bytes : Z;
  pgc_tpt : Z;
  pgc_gpg : Z
}.

Definition with_high_water (n : Z) (c : PageControl) : PageControl :=
  mk_control n (pgc_ppp c) (pgc_pip c) (pgc_bytes c) (pgc_tpt c) (pgc_gpg c).

(** What a database derives from its page size. *)
Record limits := mk_limits {
  dbb_dp_per_pp : Z;
  dbb_max_records : Z;
  dbb_max_idx : Z;
  dbb_prefetch_sequence : Z;
  dbb_prefetch_pages : Z
}.

Definition ODS_VERSION10 : Z := 10.
Definition ODS_VERSION11 : Z := 11.
Definition BITS_PER_LONG : Z := 32.
Definition PREFETCH_MAX_TRANSFER : Z := 16384.

Definition PAG_init (dbb_page_size dbb_ods_version : Z) : PageControl * limits :=
  let pgc_bytes := dbb_page_size - offset_pip_bits in
  let new_generators := (dbb_ods_version =? 0) || (ODS_VERSION10 <=? dbb_ods_version) in
  let genPageSpace := dbb_page_size - (if new_generators then offset_gpg_values else offset_ppg_page) in
  let pgc_gpg := genPageSpace / (if new_generators then sizeof_gpg_values else sizeof_ppg_page) in
  let dpgPageSpace := dbb_page_size - offset_ppg_page in
  let irtPageSpace := dbb_page_size - offset_irt_rpt in
  let irtdSize := if (ODS_VERSION11 <=? dbb_ods_version) || (dbb_ods_version =? 0) then sizeof_irtd else sizeof_irtd_ods10 in
  let sequence := PREFETCH_MAX_TRANSFER / dbb_page_size in
  (mk_control 0 (pgc_bytes * 8) 1 pgc_bytes ((dbb_page_size - offset_tip_transactions) * 4) pgc_gpg,
   mk_limits (dpgPageSpace * 8 / (BITS_PER_LONG + 2))
     ((dbb_page_size - sizeof_data_page) / (sizeof_dpg_repeat + offset_rhd_data))
     (irtPageSpace / (sizeof_irt_repeat + irtdSize)) sequence (sequence * 2)).

(** ** The database *)

(** What is asked of the page cache. *)
Inductive call :=
  | FETCH (p : Z) (write : bool)
  | FAKE (p : Z)
  | MARK (p : Z)
  | MARK_MUST_WRITE (p : Z)
  | PRECEDENCE (low p : Z)
  | RELEASE (p : Z).

Record database := mk_db { control : PageControl; pages : gmap Z page; calls : list call }.

Definition with_control (c : PageControl) (s : database) : database := mk_db c (pages s) (calls s).
Definition with_page (n : Z) (p : page) (s : database) : database := mk_db (control s) (<[n := p]> (pages s)) (calls s).
Definition called (l : list call) (s : database) : database := mk_db (control s) (pages s) (calls s ++ l).

Definition isc_io_error : Z := 335544344.
Definition isc_db_corrupt : Z := 335544335.

(** Reading beyond the end of the file is an error of the operating system; a
    page of another type than expected is damage. *)
Definition CCH_FETCH (n : Z) (write : bool) (type : Z) (s : database) : outcome (page * database) :=
  match pages s !! n with
  | Some p => if pag_type p =? type then Ret (p, called [FETCH n write] s) else Throw (Post isc_db_corrupt)
  | None => Throw (Post isc_io_error)
  end.

Definition fetch_pip (n : Z) (write : bool) (s : database) : outcome (page_inv_page * database) :=
  let* (p, s) := CCH_FETCH n write pag_pages s in
  match p with
  | Inventory pip => Ret (pip, s)
  | Page _ => Throw (Post isc_db_corrupt)
  end.

(** A faked page is cleared. *)
Definition CCH_FAKE (n : Z) (s : database) : database := called [FAKE n] (with_page n (Page pag_undefined) s).

(** The number of the inventory page with a sequence number. *)
Definition pip_number (c : PageControl) (sequence : Z) : Z :=
  if sequence =? 0 then pgc_pip c else SLONG (sequence * pgc_ppp c - 1).

(** ** Formatting *)

Definition all_free (c : PageControl) : list Z := replicate (Z.to_nat (pgc_bytes c)) 255.

Definition PAG_format_pip (s : database) : database :=
  let c := control s in
  let s := with_control (mk_control (pgc_high_water c) (pgc_ppp c) 1 (pgc_bytes c) (pgc_tpt c) (pgc_gpg c)) s in
  let s := CCH_FAKE 1 s in
  let bits := all_free c in
  let first := match bits with b :: _ => b | [] => 0 end in
  let bits := <[0%nat := UCHAR (Z.land first (Z.lnot (Z.lor (Z.lor 1 2) 4)))]> bits in
  called [RELEASE 1] (with_page 1 (Inventory (mk_pip 4 bits)) s).

Definition PAG_format_log (s : database) : database :=
  called [RELEASE LOG_PAGE] (with_page LOG_PAGE (Page pag_log) (CCH_FAKE LOG_PAGE s)).

(** ** Allocating *)

(** [for (i = 0; i < 8; i++, bit <<= 1)]: the bit that is set. *)
Fixpoint scan_bits (turns : nat) (i bit byte : Z) : option (Z * Z) :=
  match turns with
  | O => None
  | S turns => if flag_set bit byte then Some (i, bit) else scan_bits turns (i + 1) (UCHAR (Z.shiftl bit 1)) byte
  end.

(** The bytes from the number [k] on: the first with a bit that is set. *)
Fixpoint scan_bytes (k : Z) (bytes : list Z) : option (Z * Z * Z) :=
  match bytes with
  | [] => None
  | b :: bytes =>
      if b =? 0 then scan_bytes (k + 1) bytes
      else match scan_bits 8 0 1 b with
           | Some (i, bit) => Some (k, i, bit)
           | None => scan_bytes (k + 1) bytes
           end
  end.

Definition scan_page (pip : page_inv_page) : outcome (option (Z * Z * Z)) :=
  let first := Z.shiftr (pip_min pip) 3 in
  if first <? 0 then Throw Overrun else Ret (scan_bytes first (drop (Z.to_nat first) (pip_bits pip))).

Definition update_byte (k : Z) (f : Z -> Z) (bits : list Z) : list Z := alter (fun b => UCHAR (f b)) (Z.to_nat k) bits.

(** The page inventory page that the last page becomes. *)
Definition format_new_pip (n : Z) (s : database) : database :=
  let s := CCH_FAKE n s in
  called [MARK_MUST_WRITE n; RELEASE n] (with_page n (Inventory (mk_pip 0 (all_free (control s)))) s).

(** One turn for each inventory page looked at. *)
Fixpoint allocate_from (fuel : nat) (sequence : Z) (s : database) : outcome (Z * database) :=
  match fuel with
  | O => Throw Overrun
  | S fuel =>
      let c := control s in
      let pip_window := pip_number c sequence in
      let* (pip, s) := fetch_pip pip_window true s in
      let* found := scan_page pip in
      match found with
      | None => allocate_from fuel (SLONG (sequence + 1)) (called [RELEASE pip_window] s)
      | Some (byte, i, bit) =>
          let relative_bit := Z.shiftl byte 3 + i in
          let window := SLONG (relative_bit + sequence * pgc_ppp c) in
          let s := called [MARK pip_window] (with_control (with_high_water sequence c) s) in
          let bits := update_byte byte (fun b => Z.land b (Z.lnot bit)) (pip_bits pip) in
          let s := with_page pip_window (Inventory (mk_pip (pip_min pip) bits)) s in
          if negb (relative_bit =? pgc_ppp c - 1) then
            let s := CCH_FAKE window (called [RELEASE pip_window] s) in
            Ret (window, called [PRECEDENCE window pip_window] s)
          else
            let s := called [MARK_MUST_WRITE pip_window; RELEASE pip_window] (format_new_pip window s) in
            allocate_from fuel (pgc_high_water (control s)) s
      end
  end.

(** There are no more inventory pages than pages, and the one that is made. *)
Definition PAG_allocate (s : database) : outcome (Z * database) :=
  allocate_from (S (S (size (pages s)))) (pgc_high_water (control s)) s.

(** ** Releasing *)

Definition PAG_release_page (number prior_page : Z) (s : database) : outcome database :=
  let c := control s in
  let sequence := Z.quot number (pgc_ppp c) in
  let relative_bit := Z.rem number (pgc_ppp c) in
  let pip_window := pip_number c sequence in
  let* (pip, s) := fetch_pip pip_window true s in
  let s := called [PRECEDENCE pip_window prior_page; MARK pip_window] s in
  let byte := Z.shiftr relative_bit 3 in
  if (0 <=? byte) && (byte <? Z.of_nat (length (pip_bits pip))) then
    let bits := update_byte byte (fun b => Z.lor b (Z.shiftl 1 (Z.land relative_bit 7))) (pip_bits pip) in
    let s := with_page pip_window (Inventory (mk_pip (Z.min (pip_min pip) relative_bit) bits)) s in
    let s := called [RELEASE pip_window] s in
    Ret (with_control (with_high_water (Z.min (pgc_high_water c) sequence) c) s)
  else Throw Overrun.

(** ** The last page *)

(** [for (bits = ...; *bits == (UCHAR) - 1; --bits)]: from the byte with the
    number [k] down, over [bytes]. *)
Fixpoint scan_down (k : Z) (bytes : list Z) : outcome (Z * Z) :=
  match bytes with
  | [] => Throw Overrun
  | b :: bytes => if b =? 255 then scan_down (k - 1) bytes else Ret (k, b)
  end.

(** [for (bit = 7; bit >= 0; --bit)]: the highest bit that is clear. *)
Fixpoint clear_bit (turns : nat) (byte : Z) : Z :=
  match turns with
  | O => -1
  | S n => if flag_set byte (Z.shiftl 1 (Z.of_nat n)) then clear_bit n byte else Z.of_nat n
  end.

(** The bytes of the page down from the bits that describe [ppp] pages: before
    the bits there is [pip_min], and the header of the page. *)
Definition bytes_down (ppp : Z) (pip : page_inv_page) : list Z :=
  rev (le_bytes 4 (ULONG (pip_min pip)) ++ take (Z.to_nat (Z.shiftr ppp 3)) (pip_bits pip)).

Fixpoint last_page_from (fuel : nat) (sequence : Z) (s : database) : outcome (Z * database) :=
  match fuel with
  | O => Throw Overrun
  | S fuel =>
      let c := control s in
      let pages_per_pip := ULONG (pgc_ppp c) in
      let win_page := if sequence =? 0 then pgc_pip c else SLONG (sequence * pages_per_pip - 1) in
      let* (pip, s) := fetch_pip win_page false s in
      let* (k, b) := scan_down (Z.shiftr pages_per_pip 3 - 1) (bytes_down pages_per_pip pip) in
      let relative_bit := ULONG (k * 8 + clear_bit 8 b) in
      let s := called [RELEASE win_page] s in
      if negb (relative_bit =? ULONG (pages_per_pip - 1)) then Ret (SLONG (sequence * pages_per_pip + relative_bit), s)
      else last_page_from fuel (USHORT (sequence + 1)) s
  end.

Definition PAG_last_page (s : database) : outcome (Z * database) := last_page_from (S (size (pages s))) 0 s.

(** ** A new database *)

(** The header page, the log page and the first inventory page. *)
Definition create (dbb_page_size : Z) : database :=
  let s := mk_db (fst (PAG_init dbb_page_size 0)) ∅ [] in
  let s := called [RELEASE HEADER_PAGE] (with_page HEADER_PAGE (Page pag_header) (CCH_FAKE HEADER_PAGE s)) in
  PAG_format_pip (PAG_format_log s).

End Pag.
