(* ===== verification/PagBits.v ===== *)
(** * The bits of an inventory page

    What the scans of [Pag] find, and what setting and clearing a bit does to
    the others. *)

From S2P Require Import Prelude.
From S2P Require Import Pag.
From stdpp Require Import gmap.
#[local] Open Scope Z_scope.

Module PagBits.
Import Pag.

(** Whether the page with the relative number [r] is free. *)
Definition free_bit (bits : list Z) (r : Z) : bool :=
  match bits !! Z.to_nat (r / 8) with
  | Some b => Z.testbit b (r mod 8)
  | None => false
  end.

Definition full (bits : list Z) : Prop := forall r, 0 <= r -> free_bit bits r = false.

(** [r] is the lowest free page. *)
Definition first_free (bits : list Z) (r : Z) : Prop :=
  0 <= r /\ free_bit bits r = true /\ forall q, 0 <= q < r -> free_bit bits q = false.

Lemma free_bit_cons_low b bits r : 0 <= r < 8 -> free_bit (b :: bits) r = Z.testbit b r.
Proof. intros H. unfold free_bit. by rewrite Z.div_small, Z.mod_small by lia. Qed.

Lemma free_bit_shift m bits r : 0 <= r -> free_bit bits (8 * Z.of_nat m + r) = free_bit (drop m bits) r.
Proof.
  intros H. unfold free_bit. rewrite lookup_drop.
  replace (8 * Z.of_nat m + r) with (r + Z.of_nat m * 8) by lia. rewrite Z.div_add, Z.mod_add by lia.
  replace (Z.to_nat (r / 8 + Z.of_nat m)) with (m + Z.to_nat (r / 8))%nat; [done|].
  rewrite Z2Nat.inj_add, Nat2Z.id by (Z.to_euclidean_division_equations; lia). lia.
Qed.

Lemma free_bit_cons_high b bits r : 8 <= r -> free_bit (b :: bits) r = free_bit bits (r - 8).
Proof.
  intros H. replace r with (8 * Z.of_nat 1 + (r - 8)) at 1 by lia. rewrite free_bit_shift by lia. done.
Qed.

Lemma free_bit_beyond bits r : 8 * Z.of_nat (length bits) <= r -> free_bit bits r = false.
Proof.
  intros H. unfold free_bit. rewrite lookup_ge_None_2; [done|]. Z.to_euclidean_division_equations; lia.
Qed.

Lemma free_bit_range bits r : 0 <= r -> free_bit bits r = true -> r < 8 * Z.of_nat (length bits).
Proof.
  intros H Hf. destruct (Z.lt_ge_cases r (8 * Z.of_nat (length bits))) as [|Hr]; [done|]. by rewrite free_bit_beyond in Hf.
Qed.

Lemma free_bit_zero bits r : 0 <= r -> free_bit (0 :: bits) r = (8 <=? r) && free_bit bits (r - 8).
Proof.
  intros H. destruct (Z.leb_spec 8 r); cbn [andb]; [by apply free_bit_cons_high|].
  rewrite free_bit_cons_low by lia. apply Z.bits_0.
Qed.

(** ** Scans *)

Definition scan_bits_check (b : Z) : bool :=
  match scan_bits 8 0 1 b with
  | Some (i, bit) => (bit =? 2 ^ i) && (0 <=? i) && (i <? 8) && Z.testbit b i && forallb (fun j => negb (Z.testbit b j)) (seqZ 0 i)
  | None => b =? 0
  end.

Lemma scan_bits_spec b : is_uchar b ->
  match scan_bits 8 0 1 b with
  | Some (i, bit) => bit = 2 ^ i /\ 0 <= i < 8 /\ Z.testbit b i = true /\ forall j, 0 <= j < i -> Z.testbit b j = false
  | None => b = 0
  end.
Proof.
  intros Hb. assert (C : scan_bits_check b = true).
  { apply (Z_range_check scan_bits_check 0 256); [vm_compute; reflexivity|exact Hb]. }
  unfold scan_bits_check in C. destruct (scan_bits 8 0 1 b) as [ [i bit]|]; [|lia].
  apply andb_true_iff in C as [C Hl]. rewrite forallb_forall in Hl. bool_hyps. split_and!; try done.
  intros j Hj. apply negb_true_iff, Hl, list_elem_of_In, elem_of_seqZ. lia.
Qed.

Lemma scan_bytes_spec bits : Forall is_uchar bits -> forall k,
  match scan_bytes k bits with
  | Some (y, i, bit) => k <= y /\ 0 <= i < 8 /\ bit = 2 ^ i /\ first_free bits ((y - k) * 8 + i)
  | None => full bits
  end.
Proof.
  induction 1 as [|b bits Hb _ IH]; intros k; cbn [scan_bytes]; [by intros r _|].
  destruct (Z.eqb_spec b 0) as [->|Hb0].
  - specialize (IH (k + 1)). destruct (scan_bytes (k + 1) bits) as [ [ [y i] bit]|].
    + destruct IH as (H1 & H2 & H3 & H4 & H5 & H6). split_and!; try lia; try done. split; [lia|split].
      * rewrite free_bit_zero by lia. destruct (Z.leb_spec 8 ((y - k) * 8 + i)); [|lia]. cbn [andb]. rewrite <- H5. f_equal. lia.
      * intros q Hq. rewrite free_bit_zero by lia. destruct (Z.leb_spec 8 q); [|done]. apply H6. lia.
    + intros r Hr. rewrite free_bit_zero by lia. destruct (Z.leb_spec 8 r); [|done]. apply IH. lia.
  - pose proof (scan_bits_spec b Hb) as Hs. destruct (scan_bits 8 0 1 b) as [ [i bit]|]; [|lia].
    destruct Hs as (E & Hi & Ht & Hl). rewrite Z.sub_diag. split_and!; try lia; try done. split; [lia|split].
    + by rewrite free_bit_cons_low by lia.
    + intros q Hq. rewrite free_bit_cons_low by lia. apply Hl. lia.
Qed.

(** A page as it is scanned: no page is free below the byte it begins with. *)
Record wf_pip (bytes : Z) (pip : page_inv_page) : Prop := {
  pip_length : Z.of_nat (length (pip_bits pip)) = bytes;
  pip_uchar : Forall is_uchar (pip_bits pip);
  pip_low : 0 <= pip_min pip < 2147483648;
  pip_first : forall r, 0 <= r < 8 * (pip_min pip / 8) -> free_bit (pip_bits pip) r = false
}.

Lemma scan_page_spec bytes pip : wf_pip bytes pip ->
  match scan_page pip with
  | Ret (Some (y, i, bit)) => 0 <= y /\ 0 <= i < 8 /\ bit = 2 ^ i /\ first_free (pip_bits pip) (y * 8 + i)
  | Ret None => full (pip_bits pip)
  | Throw _ => False
  end.
Proof.
  intros [_ Hu Hl Hf]. unfold scan_page. rewrite shiftr_div by lia. change (2 ^ 3) with 8. set (m := pip_min pip / 8) in *.
  assert (0 <= m) by (unfold m; Z.to_euclidean_division_equations; lia). destruct (Z.ltb_spec m 0); [lia|].
  pose proof (scan_bytes_spec (drop (Z.to_nat m) (pip_bits pip)) (Forall_drop _ _ _ Hu) m) as Hs.
  assert (D : forall q, 8 * m <= q -> free_bit (pip_bits pip) q = free_bit (drop (Z.to_nat m) (pip_bits pip)) (q - 8 * m)).
  { intros q Hq. rewrite <- free_bit_shift by lia. f_equal. lia. }
  destruct (scan_bytes m _) as [ [ [y i] bit]|].
  - destruct Hs as (H1 & H2 & H3 & _ & H5 & H6). split_and!; [lia..|done|]. split; [lia|split].
    + rewrite D by lia. rewrite <- H5. f_equal. lia.
    + intros q Hq. destruct (Z.lt_ge_cases q (8 * m)); [apply Hf; lia|]. rewrite D by lia. apply H6. lia.
  - intros r Hr. destruct (Z.lt_ge_cases r (8 * m)); [apply Hf; lia|]. rewrite D by lia. apply Hs. lia.
Qed.

(** ** Changing a bit *)

Lemma UCHAR_testbit z i : i < 8 -> Z.testbit (UCHAR z) i = Z.testbit z i.
Proof. intros H. unfold UCHAR, wrap_u. by apply Z.mod_pow2_bits_low. Qed.

Lemma length_update_byte k f bits : length (update_byte k f bits) = length bits.
Proof. apply length_alter. Qed.

Lemma update_byte_uchar k f bits : Forall is_uchar bits -> Forall is_uchar (update_byte k f bits).
Proof. intros H. apply Forall_alter; [done|]. intros. apply UCHAR_range. Qed.

Lemma free_bit_update k i f bits r :
  0 <= k -> 0 <= i < 8 -> 0 <= r -> (forall b j, 0 <= j < 8 -> j <> i -> Z.testbit (f b) j = Z.testbit b j) ->
  free_bit (update_byte k f bits) r =
    if r =? k * 8 + i then (match bits !! Z.to_nat k with Some b => Z.testbit (f b) i | None => false end) else free_bit bits r.
Proof.
  intros Hk Hi Hr Hf. unfold free_bit, update_byte. destruct (Z.eqb_spec r (k * 8 + i)) as [->|Hne].
  - replace ((k * 8 + i) / 8) with k by (Z.to_euclidean_division_equations; lia).
    replace ((k * 8 + i) mod 8) with i by (Z.to_euclidean_division_equations; lia).
    rewrite list_lookup_alter_eq. destruct (bits !! Z.to_nat k); [|done]. cbn. apply UCHAR_testbit. lia.
  - destruct (Z.eqb_spec (r / 8) k) as [E|E].
    + rewrite E, list_lookup_alter_eq. destruct (bits !! Z.to_nat k); [|done]. cbn.
      rewrite UCHAR_testbit by (Z.to_euclidean_division_equations; lia). apply Hf; Z.to_euclidean_division_equations; lia.
    + rewrite list_lookup_alter_ne; [done|]. intros E'. apply E. apply (f_equal Z.of_nat) in E'.
      rewrite !Z2Nat.id in E' by (Z.to_euclidean_division_equations; lia). done.
Qed.

Lemma free_bit_clear k i bits r : 0 <= k -> 0 <= i < 8 -> 0 <= r ->
  free_bit (update_byte k (fun b => Z.land b (Z.lnot (2 ^ i))) bits) r = free_bit bits r && negb (r =? k * 8 + i).
Proof.
  intros Hk Hi Hr. rewrite (free_bit_update k i) by (try done; intros b j Hj Hne; rewrite Z.land_spec, Z.lnot_spec, Z.pow2_bits_false by lia; apply andb_true_r).
  destruct (Z.eqb_spec r (k * 8 + i)); cbn [negb]; [|by rewrite andb_true_r]. rewrite andb_false_r. destruct (bits !! _); [|done].
  by rewrite Z.land_spec, Z.lnot_spec, Z.pow2_bits_true, andb_false_r by lia.
Qed.

Lemma free_bit_set r bits q : 0 <= r < 8 * Z.of_nat (length bits) -> 0 <= q ->
  free_bit (update_byte (Z.shiftr r 3) (fun b => Z.lor b (Z.shiftl 1 (Z.land r 7))) bits) q = free_bit bits q || (q =? r).
Proof.
  intros Hr Hq. rewrite shiftr_div by lia. change (2 ^ 3) with 8. change 7 with (2 ^ 3 - 1). rewrite land_low by lia. change (2 ^ 3) with 8.
  rewrite Z.shiftl_1_l. assert (Hb : 0 <= r mod 8 < 8) by (Z.to_euclidean_division_equations; lia).
  assert (Hd : 0 <= r / 8) by (Z.to_euclidean_division_equations; lia).
  rewrite (free_bit_update (r / 8) (r mod 8)) by (try done; intros b j Hj Hne; rewrite Z.lor_spec, Z.pow2_bits_false by lia; apply orb_false_r).
  replace (r / 8 * 8 + r mod 8) with r by (Z.to_euclidean_division_equations; lia).
  destruct (Z.eqb_spec q r) as [->|]; [|by rewrite orb_false_r]. rewrite orb_true_r.
  destruct (lookup_lt_is_Some_2 bits (Z.to_nat (r / 8))) as [b ->]; [Z.to_euclidean_division_equations; lia|].
  by rewrite Z.lor_spec, Z.pow2_bits_true, orb_true_r by lia.
Qed.

Lemma free_bit_all n r : 0 <= r -> free_bit (replicate n 255) r = (r <? 8 * Z.of_nat n).
Proof.
  intros Hr. destruct (Z.ltb_spec r (8 * Z.of_nat n)).
  - unfold free_bit. rewrite lookup_replicate_2 by (Z.to_euclidean_division_equations; lia).
    change 255 with (Z.ones 8). apply Z.ones_spec_low. Z.to_euclidean_division_equations; lia.
  - apply free_bit_beyond. rewrite length_replicate. lia.
Qed.

End PagBits.
