(* ===== verification/PagSpec.v ===== *)
(** * What the inventory pages say

    The pages in use, the invariant of the inventory pages and of the page
    control block, and what changing one bit, or making a new inventory page,
    does to them. *)

From S2P Require Import Prelude.
From S2P Require Import Pag.
From S2P Require Import PagBits.
From stdpp Require Import gmap.
#[local] Open Scope Z_scope.

Module PagSpec.
Import Pag PagBits.

(** The inventory page with the sequence number [k], and its bits. *)
Definition pip_at (s : database) (k : Z) : option page_inv_page :=
  match pages s !! pip_number (control s) k with
  | Some (Inventory pip) => Some pip
  | _ => None
  end.

Definition bits_at (s : database) (k : Z) : list Z :=
  match pip_at s k with Some pip => pip_bits pip | None => [] end.

Definition ppp (s : database) : Z := pgc_ppp (control s).

(** The inventory pages have the sequence numbers from 0 to [n]; the last page
    each describes is its successor, free only where there is none yet.  Below
    the high water mark no page is free. *)
Record wf (n : Z) (s : database) : Prop := {
  wf_bytes : 0 < pgc_bytes (control s);
  wf_ppp : ppp s = pgc_bytes (control s) * 8;
  wf_first : pgc_pip (control s) = 1;
  wf_water : 0 <= pgc_high_water (control s) <= n;
  wf_room : (n + 1) * ppp s <= 2147483648;
  wf_pips : forall k, 0 <= k <= n -> exists pip, pip_at s k = Some pip /\ wf_pip (pgc_bytes (control s)) pip;
  wf_last : forall k, 0 <= k <= n -> free_bit (bits_at s k) (ppp s - 1) = (k =? n);
  wf_one : free_bit (bits_at s 0) 1 = false;
  wf_full : forall k, 0 <= k < pgc_high_water (control s) -> full (bits_at s k)
}.

(** The page [p] is in use. *)
Definition used (n : Z) (s : database) (p : Z) : Prop :=
  0 <= p < (n + 1) * ppp s /\ free_bit (bits_at s (p / ppp s)) (p mod ppp s) = false.

(** The places of inventory pages. *)
Definition inventory (per_page p : Z) : bool := (p =? 1) || ((0 <? p) && ((p + 1) mod per_page =? 0)).

(** ** Numbers of inventory pages *)

Section Numbers.
Context (n : Z) (s : database) (W : wf n s).

Lemma ppp_pos : 8 <= ppp s.
Proof. destruct W. lia. Qed.

Lemma pip_number_eq k : 0 <= k -> k * ppp s <= 2147483648 -> pip_number (control s) k = if k =? 0 then 1 else k * ppp s - 1.
Proof.
  intros Hk Hr. unfold pip_number. rewrite (wf_first _ _ W). destruct (Z.eqb_spec k 0); [done|]. apply SLONG_small.
  pose proof ppp_pos. fold (ppp s). nia.
Qed.

Lemma pip_number_inj j k : 0 <= j -> 0 <= k -> j * ppp s <= 2147483648 -> k * ppp s <= 2147483648 ->
  pip_number (control s) j = pip_number (control s) k -> j = k.
Proof.
  intros Hj Hk Rj Rk. rewrite !pip_number_eq by lia. pose proof ppp_pos.
  destruct (Z.eqb_spec j 0), (Z.eqb_spec k 0); nia.
Qed.

Lemma in_room k : 0 <= k <= n + 1 -> k * ppp s <= 2147483648.
Proof. intros H. pose proof (wf_room _ _ W). pose proof ppp_pos. nia. Qed.

Lemma pip_number_inventory k : 0 <= k <= n + 1 -> inventory (ppp s) (pip_number (control s) k) = true.
Proof.
  intros Hk. rewrite pip_number_eq by (try apply in_room; lia). unfold inventory. destruct (Z.eqb_spec k 0); [done|].
  replace (k * ppp s - 1 + 1) with (k * ppp s) by lia. pose proof ppp_pos. rewrite Z.mod_mul by lia.
  destruct (Z.ltb_spec 0 (k * ppp s - 1)); [by rewrite orb_true_r|nia].
Qed.

Lemma not_pip p k : inventory (ppp s) p = false -> 0 <= k <= n + 1 -> pip_number (control s) k <> p.
Proof. intros Hp Hk <-. by rewrite pip_number_inventory in Hp. Qed.

Lemma pip_bits_length k : 0 <= k <= n -> 8 * Z.of_nat (length (bits_at s k)) = ppp s.
Proof. intros Hk. destruct (wf_pips _ _ W k Hk) as (pip & E & [L _ _ _]). unfold bits_at. rewrite E, (wf_ppp _ _ W). lia. Qed.

Lemma split_page k r : 0 <= r < ppp s -> (k * ppp s + r) / ppp s = k /\ (k * ppp s + r) mod ppp s = r.
Proof.
  intros Hr. rewrite (Z.add_comm (k * _)), Z.div_add, Z.mod_add by lia. rewrite Z.div_small, Z.mod_small by lia. lia.
Qed.

Lemma join_page p : 0 <= p -> exists k r, p = k * ppp s + r /\ 0 <= r < ppp s /\ 0 <= k.
Proof.
  intros Hp. pose proof ppp_pos. exists (p / ppp s), (p mod ppp s). pose proof (Z.mod_pos_bound p (ppp s)).
  pose proof (Z.div_pos p (ppp s)). pose proof (Z.div_mod p (ppp s)). split_and!; lia.
Qed.

Lemma used_iff k r : 0 <= r < ppp s -> used n s (k * ppp s + r) <-> 0 <= k <= n /\ free_bit (bits_at s k) r = false.
Proof.
  intros Hr. unfold used. destruct (split_page k r Hr) as [-> ->]. pose proof ppp_pos as Hpos. split; intros [H F]; (split; [nia|done]).
Qed.

Lemma inventory_iff k r : 0 <= k -> 0 <= r < ppp s -> inventory (ppp s) (k * ppp s + r) = ((k =? 0) && (r =? 1)) || (r =? ppp s - 1).
Proof.
  intros Hk Hr. unfold inventory. pose proof ppp_pos. destruct (Z.eqb_spec r (ppp s - 1)) as [->|Hne].
  - replace (k * ppp s + (ppp s - 1) + 1) with ((k + 1) * ppp s) by lia. rewrite Z.mod_mul by lia.
    destruct (Z.ltb_spec 0 (k * ppp s + (ppp s - 1))); [by rewrite !orb_true_r|nia].
  - replace (k * ppp s + r + 1) with (k * ppp s + (r + 1)) by lia. rewrite (Z.add_comm (k * ppp s) (r + 1)), Z.mod_add, (Z.mod_small (r + 1)) by lia.
    bool_cases; try done; nia.
Qed.

End Numbers.

(** ** Changing pages *)

Lemma pip_at_called l s k : pip_at (called l s) k = pip_at s k.
Proof. done. Qed.

Lemma pip_at_water h s k : pip_at (with_control (with_high_water h (control s)) s) k = pip_at s k.
Proof. done. Qed.

(** A page that is not an inventory page is changed. *)
Lemma pip_at_page s q t k : pip_number (control s) k <> q -> pip_at (with_page q t s) k = pip_at s k.
Proof. intros H. unfold pip_at. cbn. by rewrite lookup_insert_ne. Qed.

Lemma pip_at_self s k pip : pip_at (with_page (pip_number (control s) k) (Inventory pip) s) k = Some pip.
Proof. unfold pip_at. cbn. by rewrite lookup_insert_eq. Qed.

(** What the inventory pages are after a change of the one with number [k]. *)
Record changed (s s' : database) (h k : Z) (pip' : page_inv_page) (n : Z) : Prop := {
  ch_control : control s' = with_high_water h (control s);
  ch_at : pip_at s' k = Some pip';
  ch_others : forall j, 0 <= j <= n -> j <> k -> pip_at s' j = pip_at s j
}.

Lemma changed_ppp s s' h k pip' n : changed s s' h k pip' n -> ppp s' = ppp s.
Proof. intros [E _ _]. unfold ppp. by rewrite E. Qed.

Lemma changed_bits s s' h k pip' n j : changed s s' h k pip' n -> 0 <= j <= n ->
  bits_at s' j = if j =? k then pip_bits pip' else bits_at s j.
Proof.
  intros [_ A O] Hj. unfold bits_at. destruct (Z.eqb_spec j k) as [->|Hne]; [by rewrite A|by rewrite O].
Qed.

(** The invariant, after a change that keeps the last bit. *)
Lemma wf_changed n s s' h k pip pip' :
  wf n s -> 0 <= k <= n -> pip_at s k = Some pip -> changed s s' h k pip' n -> wf_pip (pgc_bytes (control s)) pip' ->
  free_bit (pip_bits pip') (ppp s - 1) = free_bit (pip_bits pip) (ppp s - 1) ->
  (k = 0 -> free_bit (pip_bits pip') 1 = false) ->
  0 <= h <= n -> (forall j, 0 <= j < h -> full (bits_at s' j)) -> wf n s'.
Proof.
  intros W Hk Hp C Wp Hl H1 Hh Hf. pose proof (changed_ppp _ _ _ _ _ _ C) as Ep. pose proof (ch_control _ _ _ _ _ _ C) as Ec.
  split; rewrite ?Ep, ?Ec; cbn [with_high_water pgc_bytes pgc_pip pgc_high_water]; try apply W; try done.
  - intros j Hj. destruct (Z.eq_dec j k) as [->|Hne]; [exists pip'; split; [apply C|done]|].
    rewrite (ch_others _ _ _ _ _ _ C j Hj Hne). by apply W.
  - intros j Hj. rewrite (changed_bits _ _ _ _ _ _ j C Hj). destruct (Z.eqb_spec j k) as [->|]; [|by apply W].
    rewrite Hl, <- (wf_last _ _ W k Hj). unfold bits_at. by rewrite Hp.
  - rewrite (changed_bits _ _ _ _ _ _ 0 C) by lia. destruct (Z.eqb_spec 0 k); [by apply H1|]. apply W.
Qed.

Lemma used_changed n s s' h k pip pip' p r b :
  wf n s -> 0 <= k <= n -> pip_at s k = Some pip -> changed s s' h k pip' n -> 0 <= r < ppp s ->
  (forall q, 0 <= q < ppp s -> free_bit (pip_bits pip') q = if q =? r then b else free_bit (pip_bits pip) q) ->
  used n s' p <-> (if p =? k * ppp s + r then b = false else used n s p).
Proof.
  intros W Hk Hp C Hr Hb. pose proof (changed_ppp _ _ _ _ _ _ C) as Ep. pose proof (ppp_pos n s W) as Hpos.
  assert (U : forall j q, 0 <= q < ppp s -> used n s' (j * ppp s + q) <-> 0 <= j <= n /\ free_bit (bits_at s' j) q = false).
  { intros j q Hq. unfold used. rewrite Ep. destruct (split_page s j q Hq) as [-> ->]. split; intros [H F]; (split; [nia|done]). }
  destruct (Z.lt_ge_cases p 0) as [Hn|Hn].
  { destruct (Z.eqb_spec p (k * ppp s + r)); [nia|]. unfold used. split; intros [H _]; lia. }
  destruct (join_page n s W p Hn) as (j & q & -> & Hq & Hj). rewrite U by done.
  destruct (Z.eqb_spec (j * ppp s + q) (k * ppp s + r)) as [E|E]; [|rewrite (used_iff n s W) by done].
  - assert (j = k /\ q = r) as [-> ->] by (pose proof (split_page s j q Hq) as S; pose proof (split_page s k r Hr); rewrite E in S; lia).
     rewrite (changed_bits _ _ _ _ _ _ k C Hk), Z.eqb_refl, Hb, Z.eqb_refl by done. tauto.
  - split; intros [H F]; split; try done; rewrite (changed_bits _ _ _ _ _ _ j C) in * by lia; destruct (Z.eqb_spec j k) as [->|]; try done.
    + rewrite Hb in F by done. unfold bits_at. rewrite Hp. destruct (Z.eqb_spec q r); [lia|done].
    + rewrite Hb by done. unfold bits_at in F. rewrite Hp in F. destruct (Z.eqb_spec q r); [lia|done].
Qed.

End PagSpec.
