(* ===== verification/PagAlloc.v ===== *)
(** * Allocating and releasing pages

    The turns of [PAG_allocate], what it returns and leaves behind, and that
    its turns are enough; [PAG_release_page]. *)

From S2P Require Import Prelude.
From S2P Require Import Pag.
From S2P Require Import PagBits.
From S2P Require Import PagSpec.
From stdpp Require Import gmap.
#[local] Open Scope Z_scope.

Module PagAlloc.
Import Pag PagBits PagSpec.

Lemma fetch_pip_at s k w pip : pip_at s k = Some pip ->
  fetch_pip (pip_number (control s) k) w s = Ret (pip, called [FETCH (pip_number (control s) k) w] s).
Proof.
  unfold pip_at, fetch_pip, CCH_FETCH. intros H. destruct (pages s !! _) as [ [p|t]|]; try done. injection H as ->. done.
Qed.

Lemma called_app l l' s : called l' (called l s) = called (l ++ l') s.
Proof. unfold called. cbn. by rewrite app_assoc. Qed.

Lemma wf_called n l s : wf n s -> wf n (called l s).
Proof. intros []. by split. Qed.

Lemma used_called n l s p : used n (called l s) p <-> used n s p.
Proof. done. Qed.

(** The inventory page with the bit [r] cleared. *)
Definition taken (pip : page_inv_page) (r : Z) : page_inv_page :=
  mk_pip (pip_min pip) (update_byte (r / 8) (fun b => Z.land b (Z.lnot (2 ^ (r mod 8)))) (pip_bits pip)).

Lemma taken_bit pip r q : 0 <= r -> 0 <= q -> free_bit (pip_bits (taken pip r)) q = if q =? r then false else free_bit (pip_bits pip) q.
Proof.
  intros Hr Hq. cbn. rewrite free_bit_clear by (Z.to_euclidean_division_equations; lia).
  replace (r / 8 * 8 + r mod 8) with r by (Z.to_euclidean_division_equations; lia).
  destruct (q =? r); [by rewrite andb_false_r|by rewrite andb_true_r].
Qed.

Lemma wf_taken bytes pip r : 0 <= r -> wf_pip bytes pip -> wf_pip bytes (taken pip r).
Proof.
  intros Hr [L U M F]. split; cbn -[Z.div].
  - by rewrite length_update_byte.
  - by apply update_byte_uchar.
  - done.
  - intros q Hq. pose proof (taken_bit pip r q Hr ltac:(lia)) as E. cbn -[Z.div] in E. rewrite E.
    destruct (q =? r); [done|by apply F].
Qed.

Lemma wf_all_free c : 0 < pgc_bytes c -> wf_pip (pgc_bytes c) (mk_pip 0 (all_free c)).
Proof.
  intros H. unfold all_free. split; cbn; [rewrite length_replicate; lia| |lia|].
  - apply Forall_replicate. unfold is_uchar. lia.
  - intros r Hr. change (0 / 8) with 0 in Hr. lia.
Qed.

(** ** One turn *)

Section Turn.
Context (n : Z) (s : database) (W : wf n s) (fuel : nat) (k : Z) (Hk : 0 <= k <= n) (pip : page_inv_page) (Hp : pip_at s k = Some pip).

Let x := pip_number (control s) k.

Lemma pip_ok : wf_pip (pgc_bytes (control s)) pip.
Proof. destruct (wf_pips _ _ W k Hk) as (q & E & Q). rewrite Hp in E. by injection E as <-. Qed.

Lemma first_free_range r : first_free (pip_bits pip) r -> 0 <= r < ppp s.
Proof.
  intros (H0 & H1 & _). pose proof (free_bit_range _ _ H0 H1). pose proof (pip_length _ _ pip_ok). rewrite (wf_ppp _ _ W). lia.
Qed.

Lemma turn_full : full (pip_bits pip) -> allocate_from (S fuel) k s = allocate_from fuel (k + 1) (called [FETCH x true; RELEASE x] s).
Proof.
  intros Hf. cbn [allocate_from]. fold x. unfold x. rewrite (fetch_pip_at s k true pip Hp). cbn [obind].
  pose proof (scan_page_spec _ _ pip_ok) as Hs. destruct (scan_page pip) as [ [ [ [y i] bit]|]|]; cbn [obind]; [| |done].
  - destruct Hs as (Hy & Hi & _ & H1 & H2 & _). by rewrite Hf in H2.
  - rewrite called_app, SLONG_small; [done|]. pose proof (wf_room _ _ W). pose proof (ppp_pos _ _ W). nia.
Qed.

Lemma same_first r r' : first_free (pip_bits pip) r -> first_free (pip_bits pip) r' -> r = r'.
Proof.
  intros (H1 & H2 & H3) (H4 & H5 & H6). destruct (Z.lt_trichotomy r r') as [L|[E|L] ]; [|done|].
  - rewrite H6 in H2 by lia. done.
  - rewrite H3 in H5 by lia. done.
Qed.

Definition marked (r : Z) : database :=
  with_page x (Inventory (taken pip r)) (called [FETCH x true; MARK x] (with_control (with_high_water k (control s)) s)).

Lemma turn_found r : first_free (pip_bits pip) r ->
  allocate_from (S fuel) k s =
    (let p := k * ppp s + r in
     if negb (r =? ppp s - 1) then Ret (p, called [PRECEDENCE p x] (CCH_FAKE p (called [RELEASE x] (marked r))))
     else allocate_from fuel k (called [MARK_MUST_WRITE x; RELEASE x] (format_new_pip p (marked r)))).
Proof.
  intros Hf. cbn [allocate_from]. fold x. unfold x. rewrite (fetch_pip_at s k true pip Hp). cbn [obind]. fold x.
  pose proof (scan_page_spec _ _ pip_ok) as Hs. destruct (scan_page pip) as [ [ [ [y i] bit]|]|]; cbn [obind]; [| |done].
  2: { destruct Hf as (H1 & H2 & _). by rewrite Hs in H2. }
  destruct Hs as (Hy & Hi & -> & Hff). pose proof (same_first _ _ Hf Hff) as ->. pose proof (first_free_range _ Hff) as Hr.
  rewrite Z.shiftl_mul_pow2 by lia. change (2 ^ 3) with 8.
  replace (SLONG (y * 8 + i + k * pgc_ppp (control s))) with (k * ppp s + (y * 8 + i)).
  2: { symmetry. rewrite SLONG_small; fold (ppp s); pose proof (wf_room _ _ W); nia. }
  assert (T : mk_pip (pip_min pip) (update_byte y (fun b => Z.land b (Z.lnot (2 ^ i))) (pip_bits pip)) = taken pip (y * 8 + i)).
  { unfold taken. replace ((y * 8 + i) / 8) with y by (Z.to_euclidean_division_equations; lia).
    by replace ((y * 8 + i) mod 8) with i by (Z.to_euclidean_division_equations; lia). }
  rewrite T. fold (ppp s).
  assert (M : with_page x (Inventory (taken pip (y * 8 + i))) (called [MARK x] (with_control (with_high_water k (control s)) (called [FETCH x true] s)))
    = marked (y * 8 + i)).
  { unfold marked, with_page, called, with_control. cbn. by rewrite <-app_assoc. }
  rewrite M. destruct (negb _); [done|]. done.
Qed.

End Turn.

(** ** What a turn leaves behind *)

Lemma marked_changed n s k pip r : wf n s -> 0 <= k <= n -> changed s (marked s k pip r) k k (taken pip r) n.
Proof.
  intros W Hk. split; [done| |].
  - unfold marked. apply (pip_at_self (called _ (with_control (with_high_water k (control s)) s))).
  - intros j Hj Hne. unfold marked. rewrite pip_at_page; [done|]. intros E. apply Hne.
    apply (pip_number_inj n s W) in E; try apply (in_room n s W); lia.
Qed.

(** A page that is not an inventory page may be faked. *)
Lemma changed_page n s s' h k pip' p t l : wf n s -> changed s s' h k pip' n -> 0 <= k <= n -> inventory (ppp s) p = false ->
  changed s (called l (with_page p (Page t) s')) h k pip' n.
Proof.
  intros W [E A O] Hk Hp.
  assert (D : forall j, 0 <= j <= n -> pip_at (called l (with_page p (Page t) s')) j = pip_at s' j).
  { intros j Hj. rewrite pip_at_called, pip_at_page; [done|]. rewrite E. change (pip_number (control s) j <> p). eapply not_pip; [done..|lia]. }
  split; [done| |].
  - by rewrite D.
  - intros j Hj Hne. rewrite D by done. by apply O.
Qed.

Lemma free_not_one n s k pip r : wf n s -> 0 <= k <= n -> pip_at s k = Some pip -> free_bit (pip_bits pip) r = true -> k = 0 -> r <> 1.
Proof.
  intros W Hk Hp Hf -> ->. pose proof (wf_one _ _ W) as H1. unfold bits_at in H1. rewrite Hp in H1. congruence.
Qed.

(** The page with the lowest free bit of the lowest page with one is taken. *)
Lemma wf_grant n s s' k pip r : wf n s -> 0 <= k <= n -> pip_at s k = Some pip -> first_free (pip_bits pip) r -> r <> ppp s - 1 ->
  (forall j, 0 <= j < k -> full (bits_at s j)) -> changed s s' k k (taken pip r) n ->
  wf n s' /\ forall q, used n s' q <-> used n s q \/ q = k * ppp s + r.
Proof.
  intros W Hk Hp Hf Hr Hfull C. pose proof (first_free_range _ _ W k Hk pip Hp r Hf) as Hrange. split.
  - eapply (wf_changed n s s' k k pip); try done.
    + apply wf_taken; [lia|]. by apply (pip_ok n s W k Hk).
    + rewrite taken_bit by lia. by destruct (Z.eqb_spec (ppp s - 1) r); [lia|].
    + intros ->. rewrite taken_bit by lia. destruct (1 =? r); [done|]. pose proof (wf_one _ _ W) as H1. unfold bits_at in H1. by rewrite Hp in H1.
    + intros j Hj. rewrite (changed_bits _ _ _ _ _ _ j C) by lia. destruct (Z.eqb_spec j k); [lia|]. by apply Hfull.
  - intros q. rewrite (used_changed n s s' k k pip (taken pip r) q r false) by (try done; intros q' Hq'; apply taken_bit; lia).
    destruct (Z.eqb_spec q (k * ppp s + r)); [tauto|]. split; [by left|]. by intros [H|H].
Qed.

Lemma taken_full pip r : first_free (pip_bits pip) r -> 8 * Z.of_nat (length (pip_bits pip)) = r + 1 -> full (pip_bits (taken pip r)).
Proof.
  intros (H0 & _ & H2) HL q Hq. rewrite taken_bit by lia. destruct (Z.eqb_spec q r); [done|].
  destruct (Z.lt_ge_cases q r); [by apply H2|]. apply free_bit_beyond. lia.
Qed.

(** The last page of the last inventory page becomes the next one. *)
Record extended (s s' : database) (n : Z) (pip : page_inv_page) : Prop := {
  ex_control : control s' = with_high_water n (control s);
  ex_last : pip_at s' n = Some (taken pip (ppp s - 1));
  ex_new : pip_at s' (n + 1) = Some (mk_pip 0 (all_free (control s)));
  ex_others : forall j, 0 <= j < n -> pip_at s' j = pip_at s j
}.

Section Extended.
Context (n : Z) (s s' : database) (pip : page_inv_page) (W : wf n s) (Hp : pip_at s n = Some pip)
  (Hf : first_free (pip_bits pip) (ppp s - 1)) (Hfull : forall j, 0 <= j < n -> full (bits_at s j))
  (E : extended s s' n pip) (Hroom : (n + 2) * ppp s <= 2147483648).

Lemma n_pos : 0 <= n.
Proof. pose proof (wf_water _ _ W). lia. Qed.

Lemma extended_ppp : ppp s' = ppp s.
Proof. unfold ppp. by rewrite (ex_control _ _ _ _ E). Qed.

Lemma extended_full j : 0 <= j <= n -> full (bits_at s' j).
Proof.
  intros Hj. destruct (Z.eq_dec j n) as [->|Hne].
  - unfold bits_at. rewrite (ex_last _ _ _ _ E). apply taken_full; [done|].
    pose proof (pip_bits_length n s W n ltac:(lia)) as L. unfold bits_at in L. rewrite Hp in L. lia.
  - unfold bits_at. rewrite (ex_others _ _ _ _ E) by lia. apply Hfull. lia.
Qed.

Lemma extended_free r : 0 <= r -> free_bit (bits_at s' (n + 1)) r = (r <? ppp s).
Proof.
  intros Hr. unfold bits_at. rewrite (ex_new _ _ _ _ E). cbn [pip_bits]. unfold all_free. rewrite free_bit_all by done.
  pose proof (wf_bytes _ _ W). rewrite (wf_ppp _ _ W). f_equal. lia.
Qed.

Lemma wf_extended : wf (n + 1) s'.
Proof.
  pose proof n_pos as Hn. pose proof extended_ppp as Ep. pose proof (ppp_pos _ _ W) as Hpos. pose proof (ex_control _ _ _ _ E) as Ec.
  assert (Wp : forall j, 0 <= j <= n -> exists q, pip_at s' j = Some q /\ wf_pip (pgc_bytes (control s)) q).
  { intros j Hj. destruct (Z.eq_dec j n) as [->|Hne].
    - eexists. split; [apply E|]. apply wf_taken; [lia|]. by apply (pip_ok n s W n).
    - rewrite (ex_others _ _ _ _ E) by lia. by apply W. }
  split; rewrite ?Ep, ?Ec; cbn [with_high_water pgc_bytes pgc_pip pgc_high_water]; try apply W; try lia.
  - intros j Hj. destruct (Z.eq_dec j (n + 1)) as [->|Hne]; [|apply Wp; lia].
    eexists. split; [apply E|]. apply wf_all_free, W.
  - intros j Hj. destruct (Z.eqb_spec j (n + 1)) as [->|Hne]; [rewrite extended_free by lia; lia|]. apply extended_full; lia.
  - apply extended_full; lia.
  - intros j Hj. apply extended_full. lia.
Qed.

Lemma used_extended q : used (n + 1) s' q <-> used n s q \/ q = (n + 1) * ppp s - 1.
Proof.
  pose proof n_pos as Hn. pose proof extended_ppp as Ep. pose proof (ppp_pos _ _ W) as Hpos.
  destruct (Z.lt_ge_cases q 0) as [Hq|Hq]; [unfold used; split; [intros [H _]; lia|intros [ [H _]|H]; nia]|].
  destruct (join_page n s W q Hq) as (j & r & -> & Hr & Hj). rewrite <-Ep at 1. rewrite (used_iff _ s' wf_extended) by lia. rewrite (used_iff n s W) by done.
  destruct (Z.lt_trichotomy j n) as [L|[->|L] ].
  - split; [intros _; left; split; [lia|apply Hfull; lia]|]. intros _. split; [lia|]. apply extended_full; lia.
  - split; [|intros _; split; [lia|apply extended_full; lia] ]. intros _. destruct (Z.eq_dec r (ppp s - 1)) as [->|Hne]; [right; lia|left].
    split; [lia|]. unfold bits_at. rewrite Hp. apply Hf. lia.
  - split; [|intros [ [H _]|H]; [lia|nia] ]. intros [H F]. assert (j = n + 1) as -> by lia. rewrite extended_free in F by lia. lia.
Qed.

End Extended.

Lemma format_extended n s pip : wf n s -> pip_at s n = Some pip -> (n + 2) * ppp s <= 2147483648 ->
  extended s (called [MARK_MUST_WRITE (pip_number (control s) n); RELEASE (pip_number (control s) n)]
    (format_new_pip ((n + 1) * ppp s - 1) (marked s n pip (ppp s - 1)))) n pip.
Proof.
  intros W Hp Hroom. pose proof (wf_water _ _ W) as Hw. pose proof (ppp_pos _ _ W) as Hpos.
  assert (N : pip_number (control s) (n + 1) = (n + 1) * ppp s - 1).
  { rewrite (pip_number_eq n s W) by lia. destruct (Z.eqb_spec (n + 1) 0); lia. }
  assert (R : forall j, 0 <= j <= n -> pip_at (called [MARK_MUST_WRITE (pip_number (control s) n); RELEASE (pip_number (control s) n)]
    (format_new_pip ((n + 1) * ppp s - 1) (marked s n pip (ppp s - 1)))) j = pip_at (marked s n pip (ppp s - 1)) j).
  { intros j Hj. unfold format_new_pip. rewrite !pip_at_called, pip_at_page; [unfold CCH_FAKE; rewrite pip_at_called, pip_at_page; [done|] |];
      (intros Ej; rewrite <- N in Ej; apply (pip_number_inj n s W) in Ej; [lia|lia..| |]; first [apply (in_room n s W); lia|lia]). }
  destruct (marked_changed n s n pip (ppp s - 1) W ltac:(lia)) as [C1 C2 C3]. split.
  - done.
  - rewrite R by lia. done.
  - rewrite <- N. unfold format_new_pip. rewrite !pip_at_called. exact (pip_at_self (CCH_FAKE (pip_number (control s) (n + 1)) (marked s n pip (ppp s - 1))) (n + 1) _).
  - intros j Hj. rewrite R by lia. apply C3; lia.
Qed.

(** ** Allocating *)

(** The page [p] is taken: the lowest that was free, and no inventory page. *)
Record allocated (n : Z) (s : database) (p n' : Z) (s' : database) : Prop := {
  al_wf : wf n' s';
  al_grows : n <= n';
  al_ppp : ppp s' = ppp s;
  al_place : 0 <= p /\ inventory (ppp s) p = false;
  al_new : ~ used n s p;
  al_least : forall q, 0 <= q < p -> used n s q \/ inventory (ppp s) q = true;
  al_used : forall q, used n' s' q <-> used n s q \/ q = p \/ (q = p - 1 /\ inventory (ppp s) q = true);
  al_page : pages s' !! p = Some (Page pag_undefined);
  al_others : forall q, inventory (ppp s) q = false -> q <> p -> pages s' !! q = pages s !! q;
  al_calls : exists l, calls s' = calls s ++ l ++ [FAKE p; PRECEDENCE p (pip_number (control s) (p / ppp s))]
    /\ MARK (pip_number (control s) (p / ppp s)) ∈ l
}.

Lemma allocated_called l n s p n' s' : allocated n (called l s) p n' s' -> allocated n s p n' s'.
Proof.
  intros [H1 H2 H3 H4 H5 H6 H7 H8 H9 (l' & Hl & Hm)]. split; try done.
  exists (l ++ l'). split; [|mem]. rewrite Hl. cbn. by rewrite <-!app_assoc.
Qed.

Lemma full_or_free n s k : wf n s -> 0 <= k <= n -> exists pip, pip_at s k = Some pip /\ (full (pip_bits pip) \/ exists r, first_free (pip_bits pip) r).
Proof.
  intros W Hk. destruct (wf_pips _ _ W k Hk) as (pip & E & Wp). exists pip. split; [done|].
  pose proof (scan_page_spec _ _ Wp) as Hs. destruct (scan_page pip) as [ [ [ [y i] bit]|]|]; [|by left|done].
  right. exists (y * 8 + i). apply Hs.
Qed.

Lemma used_below n s q k : wf n s -> 0 <= k <= n -> (forall j, 0 <= j < k -> full (bits_at s j)) -> 0 <= q < k * ppp s -> used n s q.
Proof.
  intros W Hk Hfull Hq. destruct (join_page n s W q ltac:(lia)) as (j & r & -> & Hr & Hj). apply (used_iff n s W); [done|].
  assert (j < k) by (pose proof (ppp_pos _ _ W); nia). split; [lia|]. apply Hfull; lia.
Qed.

(** The page that is granted is the lowest. *)
Lemma grant_allocates n s fuel k pip r : wf n s -> 0 <= k <= n -> pip_at s k = Some pip -> first_free (pip_bits pip) r -> r <> ppp s - 1 ->
  (forall j, 0 <= j < k -> full (bits_at s j)) ->
  exists s', allocate_from (S fuel) k s = Ret (k * ppp s + r, s') /\ allocated n s (k * ppp s + r) n s'.
Proof.
  intros W Hk Hp Hf Hr Hfull. rewrite (turn_found n s W fuel k Hk pip Hp r Hf). cbv zeta.
  destruct (Z.eqb_spec r (ppp s - 1)) as [|_]; [done|]. cbn [negb]. eexists. split; [reflexivity|].
  set (p := k * ppp s + r). set (x := pip_number (control s) k). pose proof (ppp_pos _ _ W) as Hpos.
  pose proof (first_free_range n s W k Hk pip Hp r Hf) as Hrange. destruct (split_page s k r Hrange) as [Ed Em].
  assert (Hi : inventory (ppp s) p = false).
  { unfold p. rewrite (inventory_iff n s W) by lia. destruct (Z.eqb_spec r (ppp s - 1)); [lia|]. rewrite orb_false_r.
    destruct (Z.eqb_spec k 0), (Z.eqb_spec r 1); try done. exfalso. by eapply (free_not_one n s k pip r); try apply Hf. }
  set (s' := called _ _). assert (C : changed s s' k k (taken pip r) n).
  { unfold s', CCH_FAKE. rewrite called_app. apply changed_page; try done. destruct (marked_changed n s k pip r W Hk) as [C1 C2 C3]. by split. }
  destruct (wf_grant n s s' k pip r W Hk Hp Hf Hr Hfull C) as [Ws Hu]. split; try done; try lia.
  - split; [unfold p; nia|done].
  - unfold p. rewrite (used_iff n s W) by done. unfold bits_at. rewrite Hp. intros [_ F]. destruct Hf as (_ & F' & _). congruence.
  - intros q Hq. left. destruct (Z.lt_ge_cases q (k * ppp s)); [apply (used_below n s q k); try done; lia|].
    replace q with (k * ppp s + (q - k * ppp s)) by lia. apply (used_iff n s W); [lia|]. split; [done|]. unfold bits_at. rewrite Hp. apply Hf. lia.
  - intros q. rewrite Hu. fold p. split; [tauto|]. intros [H|[H|[-> H] ] ]; [tauto..|]. left.
    destruct (Z.eq_dec r 0) as [->|Hr0].
    + unfold p in *. destruct (Z.eq_dec k 0) as [->|]; [discriminate H|]. apply (used_below n s _ k); [done..|nia].
    + unfold p. replace (k * ppp s + r - 1) with (k * ppp s + (r - 1)) by lia. apply (used_iff n s W); [lia|]. split; [done|].
      unfold bits_at. rewrite Hp. apply Hf. lia.
  - unfold s', CCH_FAKE. cbn. by rewrite lookup_insert_eq.
  - intros q Hq Hne. unfold s', CCH_FAKE. cbn. rewrite lookup_insert_ne by done. rewrite lookup_insert_ne; [done|].
    fold x. eapply not_pip; [done..|lia].
  - exists [FETCH x true; MARK x; RELEASE x]. unfold p. rewrite Ed. fold x. split; [|mem]. cbn. by rewrite <-!app_assoc.
Qed.

(** Inventory pages without a free page are skipped. *)
Lemma skip_full n s d k : wf n s -> 0 <= k -> k + Z.of_nat d <= n -> (forall j, k <= j < k + Z.of_nat d -> full (bits_at s j)) ->
  forall fuel, exists l, allocate_from (d + fuel) k s = allocate_from fuel (k + Z.of_nat d) (called l s).
Proof.
  intros W Hk Hd Hf. revert s k W Hk Hd Hf. induction d as [|d IH]; intros s k W Hk Hd Hf fuel.
  { exists []. cbn. rewrite Z.add_0_r. f_equal. destruct s. unfold called. cbn. by rewrite app_nil_r. }
  destruct (wf_pips _ _ W k ltac:(lia)) as (pip & E & _). pose proof (Hf k ltac:(lia)) as Hk0. unfold bits_at in Hk0. rewrite E in Hk0.
  change (S d + fuel)%nat with (S (d + fuel)). rewrite (turn_full n s W _ k ltac:(lia) pip E Hk0).
  destruct (IH (called [FETCH (pip_number (control s) k) true; RELEASE (pip_number (control s) k)] s) (k + 1)) with (fuel := fuel) as (l & ->).
  - by apply wf_called.
  - lia.
  - lia.
  - intros j Hj. apply Hf. lia.
  - eexists. rewrite called_app. f_equal. lia.
Qed.

(** There is a first inventory page with a free page. *)
Lemma first_with_free n s : wf n s -> exists k pip r, pgc_high_water (control s) <= k <= n /\ pip_at s k = Some pip /\ first_free (pip_bits pip) r
  /\ forall j, 0 <= j < k -> full (bits_at s j).
Proof.
  intros W. set (h := pgc_high_water (control s)). pose proof (wf_water _ _ W) as Hh. fold h in Hh.
  assert (A : forall d h', Z.to_nat (n - h') = d -> h <= h' <= n -> (forall j, 0 <= j < h' -> full (bits_at s j)) ->
    exists k pip r, h <= k <= n /\ pip_at s k = Some pip /\ first_free (pip_bits pip) r /\ forall j, 0 <= j < k -> full (bits_at s j)).
  { induction d as [|d IH]; intros h' Hd Hr Hf; destruct (full_or_free n s h' W ltac:(lia)) as (pip & E & [F|[r F] ]); [|by exists h', pip, r| |by exists h', pip, r].
    - exfalso. assert (h' = n) as -> by lia. pose proof (wf_last _ _ W n ltac:(lia)) as L. unfold bits_at in L. rewrite E, F, Z.eqb_refl in L; [done|].
      pose proof (ppp_pos _ _ W). lia.
    - apply (IH (h' + 1)); [lia| |].
      + split; [lia|]. destruct (Z.eq_dec h' n) as [->|]; lia.
      + intros j Hj. destruct (Z.eq_dec j h') as [->|]; [|apply Hf; lia]. unfold bits_at. by rewrite E. }
  apply (A _ h eq_refl); [lia|]. apply W.
Qed.

(** Every inventory page is a page. *)
Lemma pips_le_pages n s : wf n s -> (Z.to_nat (n + 1) <= size (pages s))%nat.
Proof.
  intros W. pose proof (wf_water _ _ W). set (l := pip_number (control s) <$> seqZ 0 (n + 1)).
  assert (N : NoDup l).
  { apply NoDup_fmap_2_strong; [|apply NoDup_seqZ]. intros j k Hj Hk E. apply elem_of_seqZ in Hj, Hk.
    apply (pip_number_inj n s W) in E; try apply (in_room n s W); lia. }
  assert (L : length l = Z.to_nat (n + 1)) by (unfold l; rewrite length_fmap, length_seqZ; done).
  rewrite <- L, <- (size_list_to_set (C := gset Z) l N), <- size_dom. apply subseteq_size. intros x Hx. apply elem_of_list_to_set in Hx.
  apply list_elem_of_fmap in Hx as (k & -> & Hk). apply elem_of_seqZ in Hk. destruct (wf_pips _ _ W k ltac:(lia)) as (pip & E & _).
  unfold pip_at in E. apply elem_of_dom. destruct (pages s !! _); [done|discriminate E].
Qed.

Lemma format_pages n s pip q l : inventory (ppp s) q = false -> wf n s -> (n + 2) * ppp s <= 2147483648 ->
  pages (called l (format_new_pip ((n + 1) * ppp s - 1) (marked s n pip (ppp s - 1)))) !! q = pages s !! q.
Proof.
  intros Hq W Hroom. pose proof (wf_water _ _ W) as Hw. pose proof (ppp_pos _ _ W) as Hpos.
  assert (Hne : (n + 1) * ppp s - 1 <> q).
  { intros E. assert (N : pip_number (control s) (n + 1) = q) by (rewrite (pip_number_eq n s W) by lia; destruct (Z.eqb_spec (n + 1) 0); lia).
    by apply (not_pip n s W q (n + 1) Hq ltac:(lia)). }
  unfold format_new_pip, CCH_FAKE. cbn. rewrite !lookup_insert_ne; [done|..|done|done]. eapply not_pip; [done..|lia].
Qed.

(** The last page of the last inventory page is not granted: it becomes an
    inventory page, and the first page after it is granted. *)
Lemma extend_allocates n s fuel pip : wf n s -> pip_at s n = Some pip -> first_free (pip_bits pip) (ppp s - 1) ->
  (forall j, 0 <= j < n -> full (bits_at s j)) -> (n + 2) * ppp s <= 2147483648 ->
  exists s', allocate_from (3 + fuel) n s = Ret ((n + 1) * ppp s, s') /\ allocated n s ((n + 1) * ppp s) (n + 1) s'.
Proof.
  intros W Hp Hf Hfull Hroom. pose proof (wf_water _ _ W) as Hw. pose proof (ppp_pos _ _ W) as Hpos.
  change (3 + fuel)%nat with (S (S (S fuel))). rewrite (turn_found n s W _ n ltac:(lia) pip Hp _ Hf). cbv zeta. rewrite Z.eqb_refl. cbn [negb].
  replace (n * ppp s + (ppp s - 1)) with ((n + 1) * ppp s - 1) by lia.
  pose proof (format_extended n s pip W Hp Hroom) as E. pose proof (fun q Hq l => format_pages n s pip q l Hq W Hroom) as P.
  set (x := pip_number (control s) n) in *. set (s1 := called _ _) in *.
  pose proof (wf_extended n s s1 pip W Hp Hf Hfull E Hroom) as W1. pose proof (used_extended n s s1 pip W Hp Hf Hfull E Hroom) as U1.
  pose proof (extended_ppp n s s1 pip E) as Ep.
  change (S (S fuel)) with (1 + S fuel)%nat.
  destruct (skip_full (n + 1) s1 1 n W1 ltac:(lia) ltac:(lia)) with (fuel := S fuel) as (l & ->).
  { intros j Hj. apply (extended_full n s s1 pip W Hp Hf Hfull E). lia. }
  change (n + Z.of_nat 1) with (n + 1). pose proof (ex_new _ _ _ _ E) as Hnew.
  destruct (grant_allocates (n + 1) (called l s1) fuel (n + 1) (mk_pip 0 (all_free (control s))) 0) as (s' & -> & A).
  - by apply wf_called.
  - lia.
  - done.
  - split; [done|]. split; [|intros q Hq; lia]. pose proof (extended_free n s s1 pip W E 0 ltac:(lia)) as F. unfold bits_at in F.
    rewrite Hnew in F. cbn [pip_bits] in F |- *. rewrite F. lia.
  - change (0 <> ppp s1 - 1). lia.
  - intros j Hj. apply (extended_full n s s1 pip W Hp Hf Hfull E). lia.
  - apply allocated_called in A. change (ppp (called l s1)) with (ppp s1) in A |- *. rewrite Ep, Z.add_0_r in *.
    exists s'. split; [done|]. destruct A as [A1 A2 A3 A4 A5 A6 A7 A8 A9 (l' & Al & Am)]. rewrite Ep in *. split; try done; try lia.
    + intros U. apply A5, U1. by left.
    + intros q Hq. destruct (A6 q Hq) as [U|U]; [|by right]. apply U1 in U as [U| ->]; [by left|right].
      unfold inventory. replace ((n + 1) * ppp s - 1 + 1) with ((n + 1) * ppp s) by lia. rewrite Z.mod_mul by lia.
      destruct (Z.ltb_spec 0 ((n + 1) * ppp s - 1)); [by rewrite orb_true_r|nia].
    + intros q. rewrite A7, U1. split; [|intros [H|[H|[H H'] ] ]; tauto]. intros [ [H| ->]|H]; [tauto| |tauto]. right. right. split; [done|].
      unfold inventory. replace ((n + 1) * ppp s - 1 + 1) with ((n + 1) * ppp s) by lia. rewrite Z.mod_mul by lia.
      destruct (Z.ltb_spec 0 ((n + 1) * ppp s - 1)); [by rewrite orb_true_r|nia].
    + intros q Hq Hne. rewrite A9 by done. by apply P.
    + assert (Ec : control s1 = with_high_water n (control s)) by apply E. rewrite Ec in Al, Am.
      exists ([FETCH x true; MARK x; FAKE ((n + 1) * ppp s - 1); MARK_MUST_WRITE ((n + 1) * ppp s - 1); RELEASE ((n + 1) * ppp s - 1);
        MARK_MUST_WRITE x; RELEASE x] ++ l'). split; [|mem]. rewrite Al. unfold s1, format_new_pip, CCH_FAKE, marked. cbn. rewrite <-!app_assoc. cbn. done.
Qed.

Lemma allocate_spec n s : wf n s -> (n + 2) * ppp s <= 2147483648 ->
  exists p n' s', PAG_allocate s = Ret (p, s') /\ allocated n s p n' s' /\ n' <= n + 1.
Proof.
  intros W Hroom. destruct (first_with_free n s W) as (k & pip & r & Hk & Hp & Hf & Hfull). pose proof (wf_water _ _ W) as Hw.
  pose proof (pips_le_pages n s W) as Hsize. unfold PAG_allocate. set (h := pgc_high_water (control s)) in *.
  replace (S (S (size (pages s)))) with (Z.to_nat (k - h) + (3 + (size (pages s) - 1 - Z.to_nat (k - h))))%nat by lia.
  destruct (skip_full n s (Z.to_nat (k - h)) h W ltac:(lia) ltac:(lia)) with (fuel := (3 + (size (pages s) - 1 - Z.to_nat (k - h)))%nat) as (l & ->).
  { intros j Hj. apply Hfull. lia. }
  replace (h + Z.of_nat (Z.to_nat (k - h))) with k by lia. destruct (Z.eq_dec r (ppp s - 1)) as [->|Hr].
  - assert (k = n) as ->.
    { pose proof (wf_last _ _ W k ltac:(lia)) as L. unfold bits_at in L. rewrite Hp in L. destruct Hf as (_ & F & _). rewrite F in L. lia. }
    destruct (extend_allocates n (called l s) (size (pages s) - 1 - Z.to_nat (n - h)) pip) as (s' & -> & A); try done; [by apply wf_called|].
    apply allocated_called in A. eexists _, _, _. split; [done|]. split; [exact A|lia].
  - change (3 + ?f)%nat with (S (2 + f)). destruct (grant_allocates n (called l s) (2 + (size (pages s) - 1 - Z.to_nat (k - h))) k pip r) as (s' & -> & A);
      try done; [by apply wf_called|lia|]. apply allocated_called in A. eexists _, n, _. split; [done|]. split; [exact A|lia].
Qed.

(** ** The last page in use *)

(** The highest relative number below [m] of a page in use, or -1. *)
Definition last_used (bits : list Z) (m t : Z) : Prop :=
  -1 <= t < m /\ (t = -1 \/ 0 <= t /\ free_bit bits t = false) /\ forall q, t < q < m -> free_bit bits q = true.

Lemma last_used_exists bits m : 0 <= m -> exists t, last_used bits m t.
Proof.
  intros Hm. rewrite <- (Z2Nat.id m Hm). clear Hm. generalize (Z.to_nat m). intros d. induction d as [|d (t & H1 & H2 & H3)].
  { exists (-1). split; [lia|]. split; [by left|]. intros q Hq. lia. }
  destruct (free_bit bits (Z.of_nat d)) eqn:E.
  - exists t. split; [lia|]. split; [done|]. intros q Hq. destruct (Z.eq_dec q (Z.of_nat d)) as [->|]; [done|]. apply H3. lia.
  - exists (Z.of_nat d). split; [lia|]. split; [right; split; [lia|done]|]. intros q Hq. lia.
Qed.

Lemma byte_all_ones b : is_uchar b -> (forall j, 0 <= j < 8 -> Z.testbit b j = true) -> b = 255.
Proof.
  intros Hb Hj. change 255 with (Z.ones 8). apply Z.bits_inj'. intros i Hi. destruct (Z.lt_ge_cases i 8).
  - rewrite Z.ones_spec_low by lia. apply Hj. lia.
  - rewrite Z.ones_spec_high by lia. apply (testbit_above b 8); [|lia]. exact Hb.
Qed.

Definition clear_bit_check (b : Z) : bool :=
  (b =? 255) || (let i := clear_bit 8 b in (0 <=? i) && (i <? 8) && negb (Z.testbit b i) && forallb (fun j => Z.testbit b j) (seqZ (i + 1) (7 - i))).

Lemma clear_bit_spec b : is_uchar b -> b <> 255 ->
  0 <= clear_bit 8 b < 8 /\ Z.testbit b (clear_bit 8 b) = false /\ forall j, clear_bit 8 b < j < 8 -> Z.testbit b j = true.
Proof.
  intros Hb Hne. assert (C : clear_bit_check b = true).
  { apply (Z_range_check clear_bit_check 0 256); [vm_compute; reflexivity|exact Hb]. }
  unfold clear_bit_check in C. apply orb_true_iff in C as [C|C]; [lia|]. cbv zeta in C. apply andb_true_iff in C as [C Hl].
  rewrite forallb_forall in Hl. bool_hyps. split; [lia|]. split; [done|]. intros j Hj. apply Hl, list_elem_of_In, elem_of_seqZ. lia.
Qed.

Lemma scan_down_spec pre b t k : b <> 255 -> scan_down k (rev (pre ++ b :: replicate t 255)) = Ret (k - Z.of_nat t, b).
Proof.
  intros Hb. rewrite rev_app_distr. cbn [rev]. rewrite <- app_assoc.
  assert (rev (replicate t 255) = replicate t 255) as -> by (rewrite rev_alt; apply reverse_replicate). revert k. induction t as [|t IH]; intros k; cbn.
  - destruct (Z.eqb_spec b 255); [done|]. do 2 f_equal. lia.
  - rewrite IH. do 2 f_equal. lia.
Qed.

(** A byte that describes a page that is not the last in use, and the bytes
    above it. *)
Lemma bytes_at bits y r : Forall is_uchar bits -> 0 <= r -> y = Z.to_nat (r / 8) -> r < 8 * Z.of_nat (length bits) ->
  exists b, bits !! y = Some b /\ is_uchar b /\ forall j, 0 <= j < 8 -> Z.testbit b j = free_bit bits (8 * Z.of_nat y + j).
Proof.
  intros Hu Hr -> Hl. destruct (lookup_lt_is_Some_2 bits (Z.to_nat (r / 8))) as [b E]; [Z.to_euclidean_division_equations; lia|].
  exists b. split; [done|]. split; [by eapply Forall_lookup_1|]. intros j Hj. rewrite free_bit_shift by lia.
  rewrite (drop_S _ b _ E), free_bit_cons_low by lia. done.
Qed.

Lemma all_ones_above bits y : Forall is_uchar bits -> (forall q, 8 * Z.of_nat y <= q < 8 * Z.of_nat (length bits) -> free_bit bits q = true) ->
  drop y bits = replicate (length bits - y) 255.
Proof.
  intros Hu Hf. rewrite <- length_drop. symmetry. apply replicate_as_Forall_2; [done|]. apply Forall_lookup_2. intros i b Hi.
  symmetry. apply byte_all_ones; [eapply Forall_lookup_1; [by apply Forall_drop|done]|]. intros j Hj.
  rewrite lookup_drop in Hi. pose proof (lookup_lt_Some _ _ _ Hi).
  rewrite <- (Hf (8 * Z.of_nat (y + i) + j)) by lia. rewrite free_bit_shift by lia. by rewrite (drop_S _ b _ Hi), free_bit_cons_low by lia.
Qed.

Lemma last_turn bytes pip t : wf_pip bytes pip -> 0 < bytes -> last_used (pip_bits pip) (bytes * 8) t ->
  exists k b, scan_down (Z.shiftr (bytes * 8) 3 - 1) (bytes_down (bytes * 8) pip) = Ret (k, b) /\ k * 8 + clear_bit 8 b = t.
Proof.
  intros [L U M _] Hb (H1 & H2 & H3). unfold bytes_down. rewrite shiftr_div by lia. change (2 ^ 3) with 8. rewrite Z.div_mul by lia.
  rewrite take_ge by lia. destruct H2 as [->|H2].
  - rewrite <- (drop_0 (pip_bits pip)), (all_ones_above _ 0) by (try done; intros q Hq; apply H3; lia). rewrite Nat.sub_0_r.
    assert (E : exists b3, le_bytes 4 (ULONG (pip_min pip)) = take 3 (le_bytes 4 (ULONG (pip_min pip))) ++ [b3] /\ 0 <= b3 < 128).
    { eexists. split; [reflexivity|]. replace (ULONG (pip_min pip)) with (pip_min pip) by machine_lia. cbn -[Z.div Z.modulo]. Z.to_euclidean_division_equations; lia. }
    destruct E as (b3 & -> & Hb3). rewrite <-app_assoc. cbn [app]. rewrite scan_down_spec by lia. eexists _, b3. split; [done|].
    pose proof (Z_range_check (fun b => clear_bit 8 b =? 7) 0 128 eq_refl b3 Hb3) as C. cbv beta in C. lia.
  - set (y := Z.to_nat (t / 8)). destruct H2 as [Ht H2].
    destruct (bytes_at (pip_bits pip) y t U Ht eq_refl ltac:(lia)) as (b & E & Hub & Hbits).
    assert (Et : t = 8 * Z.of_nat y + t mod 8) by (unfold y; Z.to_euclidean_division_equations; lia).
    assert (Hm : 0 <= t mod 8 < 8) by (Z.to_euclidean_division_equations; lia).
    assert (Hc : Z.testbit b (t mod 8) = false) by (rewrite Hbits by lia; by rewrite <- Et).
    assert (Hb255 : b <> 255) by (intros ->; change 255 with (Z.ones 8) in Hc; rewrite Z.ones_spec_low in Hc by lia; done).
    rewrite <- (take_drop_middle (pip_bits pip) y b E), (all_ones_above _ (S y) U), app_assoc by (intros q Hq; apply H3; clearbody y; lia).
    rewrite scan_down_spec by done. eexists _, b. split; [done|].
    destruct (clear_bit_spec b Hub Hb255) as (C1 & C2 & C3). pose proof (lookup_lt_Some _ _ _ E) as Hy.
    assert (clear_bit 8 b = t mod 8); [|lia]. destruct (Z.lt_trichotomy (clear_bit 8 b) (t mod 8)) as [G|[G|G] ]; [|done|].
    + rewrite C3 in Hc by lia. done.
    + rewrite Hbits, H3 in C2 by lia. done.
Qed.

Lemma ULONG_fits z : 0 <= z < 4294967296 -> ULONG z = z.
Proof. intros H. machine_lia. Qed.

(** The highest page in use is found, from an inventory page on. *)
Lemma last_page_turns n d : forall s k fuel, wf n s -> n < 65536 -> 0 <= k -> k + Z.of_nat d = n -> (d < fuel)%nat ->
  exists p l, last_page_from fuel k s = Ret (p, called l s) /\ used n s p /\ forall q, used n s q -> q <= p.
Proof.
  induction d as [|d IH]; intros s k fuel W Hn Hk Hd Hfuel; (destruct fuel as [|fuel]; [lia|]); cbn [last_page_from];
    pose proof (ppp_pos _ _ W) as Hpos; pose proof (wf_room _ _ W) as Hroom; pose proof (wf_bytes _ _ W) as Hb; fold (ppp s);
    assert (Hp31 : ppp s <= 2147483648) by nia; rewrite (ULONG_fits (ppp s)) by lia;
    change (if k =? 0 then pgc_pip (control s) else SLONG (k * ppp s - 1)) with (pip_number (control s) k);
    destruct (wf_pips _ _ W k ltac:(lia)) as (pip & E & Wp); rewrite (fetch_pip_at s k false pip E); cbn [obind];
    destruct (last_used_exists (pip_bits pip) (ppp s) ltac:(lia)) as (t & L); pose proof L as (L1 & L2 & L3);
    rewrite (wf_ppp _ _ W) in L; destruct (last_turn _ _ _ Wp Hb L) as (y & b & T & Et); rewrite <- (wf_ppp _ _ W) in T; rewrite T; cbn [obind];
    rewrite Et, (ULONG_fits (ppp s - 1)) by lia; assert (Eb : bits_at s k = pip_bits pip) by (unfold bits_at; by rewrite E);
    pose proof (wf_last _ _ W k ltac:(lia)) as Hlast; rewrite Eb in Hlast.
  - assert (k = n) as -> by lia. rewrite Z.eqb_refl in Hlast. assert (Ht : t <> ppp s - 1) by (intros ->; destruct L2 as [|[_ L2] ]; [lia|congruence]).
    assert (N : ULONG t <> ppp s - 1) by machine_lia. destruct (Z.eqb_spec (ULONG t) (ppp s - 1)); [done|]. cbn [negb].
    assert (Ep : SLONG (n * ppp s + ULONG t) = n * ppp s + t).
    { assert (Hr : -1 <= n * ppp s + t < 2147483648) by nia. assert (ULONG t = t \/ ULONG t = t + 4294967296) as [->| ->] by machine_lia; machine_lia. }
    rewrite Ep, called_app. exists (n * ppp s + t). eexists. split; [reflexivity|]. split.
    + destruct L2 as [->|[Ht0 L2] ]; [|apply (used_iff n s W); [lia|]; rewrite Eb; split; [lia|done] ].
      destruct (Z.eq_dec n 0) as [->|Hn0].
      { pose proof (wf_one _ _ W) as H1. rewrite Eb, L3 in H1; [done|lia]. }
      replace (n * ppp s + -1) with ((n - 1) * ppp s + (ppp s - 1)) by lia. apply (used_iff n s W); [lia|]. split; [lia|].
      rewrite (wf_last _ _ W) by lia. lia.
    + intros q Hq. destruct (join_page n s W q (proj1 (proj1 Hq))) as (j & r & -> & Hr & Hj). apply (used_iff n s W) in Hq as [Hjn F]; [|done].
      destruct (Z.eq_dec j n) as [->|]; [|nia]. rewrite Eb in F. destruct (Z.lt_ge_cases t r); [|lia]. rewrite L3 in F; [done|lia].
  - assert (Hkn : k < n) by lia. destruct (Z.eqb_spec k n); [lia|].
    assert (Ht : t = ppp s - 1).
    { destruct (Z.eq_dec t (ppp s - 1)); [done|]. rewrite L3 in Hlast; [done|lia]. }
    rewrite (ULONG_fits t), Ht, Z.eqb_refl by lia. cbn [negb]. rewrite called_app, USHORT_small by lia.
    destruct (IH (called ([FETCH (pip_number (control s) k) false] ++ [RELEASE (pip_number (control s) k)]) s) (k + 1) fuel) as (p & l & -> & U & M);
      [by apply wf_called|lia..|]. exists p. eexists. rewrite called_app. split; [reflexivity|]. by split.
Qed.

Lemma last_page_spec n s : wf n s -> n < 65536 ->
  exists p l, PAG_last_page s = Ret (p, called l s) /\ used n s p /\ forall q, used n s q -> q <= p.
Proof.
  intros W Hn. pose proof (wf_water _ _ W). pose proof (pips_le_pages n s W). apply (last_page_turns n (Z.to_nat n)); try done; lia.
Qed.

(** ** Releasing *)

Record released (n : Z) (s : database) (number prior : Z) (s' : database) : Prop := {
  re_wf : wf n s';
  re_ppp : ppp s' = ppp s;
  re_used : forall q, used n s' q <-> used n s q /\ q <> number;
  re_others : forall q, inventory (ppp s) q = false -> pages s' !! q = pages s !! q;
  re_calls : let x := pip_number (control s) (number / ppp s) in calls s' = calls s ++ [FETCH x true; PRECEDENCE x prior; MARK x; RELEASE x]
}.

Lemma release_spec n s number prior : wf n s -> 0 <= number < (n + 1) * ppp s -> inventory (ppp s) number = false ->
  exists s', PAG_release_page number prior s = Ret s' /\ released n s number prior s'.
Proof.
  intros W Hnum Hinv. pose proof (ppp_pos _ _ W) as Hpos. destruct (join_page n s W number ltac:(lia)) as (k & r & -> & Hr & Hk).
  destruct (split_page s k r Hr) as [Ed Em]. assert (Hkn : 0 <= k <= n) by nia.
  unfold PAG_release_page. fold (ppp s). rewrite Z.quot_div_nonneg, Z.rem_mod_nonneg, Ed, Em by lia.
  destruct (wf_pips _ _ W k Hkn) as (pip & E & [L U M F]). rewrite (fetch_pip_at s k true pip E). cbn [obind].
  pose proof (wf_ppp _ _ W) as Hppp.
  assert (Hb : (0 <=? Z.shiftr r 3) && (Z.shiftr r 3 <? Z.of_nat (length (pip_bits pip))) = true).
  { rewrite shiftr_div by lia. change (2 ^ 3) with 8. apply andb_true_iff. split; [apply Z.leb_le|apply Z.ltb_lt]; Z.to_euclidean_division_equations; lia. }
  rewrite Hb. set (pip' := mk_pip _ _). set (h := Z.min _ _). eexists. split; [reflexivity|].
  rewrite (inventory_iff n s W) in Hinv by lia. apply orb_false_iff in Hinv as [Hone Hlast].
  assert (Hbits : forall q, 0 <= q < ppp s -> free_bit (pip_bits pip') q = if q =? r then true else free_bit (pip_bits pip) q).
  { intros q Hq. cbn [pip' pip_bits]. rewrite free_bit_set by lia. destruct (q =? r); [by rewrite orb_true_r|by rewrite orb_false_r]. }
  set (s' := with_control _ _).
  assert (C : changed s s' h k pip' n).
  { unfold s'. split; [done| |].
    - apply (pip_at_self s k pip').
    - intros j Hj Hne. change (pip_at (with_page (pip_number (control s) k) (Inventory pip') s) j = pip_at s j). apply pip_at_page. intros Ej. apply Hne.
      apply (pip_number_inj n s W) in Ej; try apply (in_room n s W); lia. }
  pose proof (wf_water _ _ W) as Hw. assert (Ws : wf n s').
  { eapply (wf_changed n s s' h k pip pip'); try done.
    - split; cbn [pip' pip_bits pip_min].
      + by rewrite length_update_byte.
      + by apply update_byte_uchar.
      + lia.
      + intros q Hq. destruct (Z.lt_ge_cases q (ppp s)) as [Hq'|Hq']; [|apply free_bit_beyond; rewrite length_update_byte; lia].
        change (free_bit (pip_bits pip') q = false). rewrite Hbits by lia. destruct (Z.eqb_spec q r) as [->|].
        * exfalso. Z.to_euclidean_division_equations; lia.
        * apply F. Z.to_euclidean_division_equations; lia.
    - rewrite Hbits by lia. destruct (Z.eqb_spec (ppp s - 1) r); [lia|done].
    - intros ->. rewrite Hbits by lia. destruct (Z.eqb_spec 1 r) as [<-|]; [discriminate Hone|].
      pose proof (wf_one _ _ W) as H1. unfold bits_at in H1. by rewrite E in H1.
    - unfold h. lia.
    - intros j Hj. unfold h in Hj. rewrite (changed_bits _ _ _ _ _ _ j C) by lia. destruct (Z.eqb_spec j k); [lia|]. apply (wf_full _ _ W). lia. }
  split; [done|done| | |].
  - intros q. rewrite (used_changed n s s' h k pip pip' q r true) by done.
    destruct (Z.eqb_spec q (k * ppp s + r)) as [->|]; [|tauto]. split; [done|]. intros [_ H]. done.
  - intros q Hq. unfold s'. cbn. rewrite lookup_insert_ne; [done|]. eapply not_pip; [done..|lia].
  - rewrite Ed. unfold s'. cbn. by rewrite <-!app_assoc.
Qed.

End PagAlloc.
