(* ===== verification/PagClient.v ===== *)
(** * Promises of page allocation

    An allocator of pages as a set of pages in use, and that the inventory
    pages implement it: from a new database on, each operation answers and
    changes the pages in use as the allocator does.  What happens to the
    contents of pages, in which order the page cache may write them, and what
    damage leads to. *)

From S2P Require Import Prelude.
From S2P Require Import PageCache.
From S2P Require Import PageCacheOrder.
From S2P Require Import PageCacheGraph.
From S2P Require Import PageCacheSteps.
From S2P Require Import PageCacheClient.
From S2P Require Import Pag.
From S2P Require Import PagBits.
From S2P Require Import PagSpec.
From S2P Require Import PagAlloc.
From stdpp Require Import gmap.
#[local] Open Scope Z_scope.

Module PagClient.
Import Pag PagBits PagSpec PagAlloc.

(** ** The allocator *)

Inductive page_op :=
  | Allocate
  | Release (number prior_page : Z)
  | LastPage.

Definition run_op (o : page_op) (s : database) : outcome (option Z * database) :=
  match o with
  | Allocate => let* (p, s) := PAG_allocate s in Ret (Some p, s)
  | Release number prior_page => let* s := PAG_release_page number prior_page s in Ret (None, s)
  | LastPage => let* (p, s) := PAG_last_page s in Ret (Some p, s)
  end.

Fixpoint run (ops : list page_op) (s : database) : outcome (list (option Z) * database) :=
  match ops with
  | [] => Ret ([], s)
  | o :: ops => let* (a, s) := run_op o s in let* (l, s) := run ops s in Ret (a :: l, s)
  end.

(** Allocating takes the lowest page that is not in use nor at the place of an
    inventory page; where it is the first after such a place, the inventory page
    is in use then. *)
Inductive allocator (per_page : Z) : gset Z -> page_op -> option Z -> gset Z -> Prop :=
  | allocates U p :
      0 <= p -> p ∉ U -> inventory per_page p = false -> (forall q, 0 <= q < p -> q ∈ U \/ inventory per_page q = true) ->
      allocator per_page U Allocate (Some p) ({[p]} ∪ (if inventory per_page (p - 1) then {[p - 1]} else ∅) ∪ U)
  | releases U number prior_page : allocator per_page U (Release number prior_page) None (U ∖ {[number]})
  | finds_last U p : p ∈ U -> (forall q, q ∈ U -> q <= p) -> allocator per_page U LastPage (Some p) U.

Inductive allocator_run (per_page : Z) : gset Z -> list page_op -> list (option Z) -> gset Z -> Prop :=
  | run_nil U : allocator_run per_page U [] [] U
  | run_cons U o a U' ops l U'' :
      allocator per_page U o a U' -> allocator_run per_page U' ops l U'' -> allocator_run per_page U (o :: ops) (a :: l) U''.

(** Page numbers have 32 bits, and [PAG_last_page] counts inventory pages in
    16; pages are released that are in use and no inventory pages. *)
Definition legal (per_page : Z) (U : gset Z) (o : page_op) : Prop :=
  match o with
  | Allocate => forall q, q ∈ U -> q + 1 + 2 * per_page <= 2147483648
  | Release number _ => number ∈ U /\ inventory per_page number = false
  | LastPage => forall q, q ∈ U -> q + 1 < 65536 * per_page
  end.

Fixpoint legal_run (per_page : Z) (U : gset Z) (ops : list page_op) : Prop :=
  match ops with
  | [] => True
  | o :: ops => legal per_page U o /\ forall a U', allocator per_page U o a U' -> legal_run per_page U' ops
  end.

(** The inventory pages say that the pages in [U] are in use. *)
Definition represents (s : database) (U : gset Z) : Prop := exists n, wf n s /\ forall q, q ∈ U <-> used n s q.

(** The last inventory page is in use. *)
Lemma highest_pip n s : wf n s -> exists q, used n s q /\ n * ppp s <= q + 1.
Proof.
  intros W. pose proof (wf_water _ _ W). pose proof (ppp_pos _ _ W). destruct (Z.eq_dec n 0) as [->|Hn].
  - exists 1. split; [|lia]. replace 1 with (0 * ppp s + 1) by lia. apply (used_iff 0 s W); [lia|]. split; [lia|]. apply W.
  - exists ((n - 1) * ppp s + (ppp s - 1)). split; [|lia]. apply (used_iff n s W); [lia|]. split; [lia|]. rewrite (wf_last _ _ W) by lia. lia.
Qed.

Lemma run_op_refines s U o : represents s U -> legal (ppp s) U o ->
  exists a s' U', run_op o s = Ret (a, s') /\ allocator (ppp s) U o a U' /\ represents s' U' /\ ppp s' = ppp s.
Proof.
  intros (n & W & HU) L. destruct (highest_pip n s W) as (q & Hq & Hn). rewrite <- HU in Hq. pose proof (ppp_pos _ _ W) as Hpos.
  destruct o as [|number prior|]; cbn [run_op legal] in *.
  - pose proof (wf_water _ _ W) as Hw. destruct (allocate_spec n s W) as (p & n' & s' & -> & A & _); [specialize (L q Hq); lia|].
    cbn [obind]. eexists _, s', _. split; [done|]. destruct A as [A1 A2 A3 A4 A5 A6 A7 A8 A9 A10]. split; [|split; [|done] ].
    + apply allocates; [apply A4|by rewrite HU|apply A4|]. intros q' Hq'. rewrite HU. by apply A6.
    + exists n'. split; [done|]. intros q'. rewrite A7, !elem_of_union, HU, elem_of_singleton.
      destruct (inventory (ppp s) (p - 1)) eqn:E.
      * rewrite elem_of_singleton. split; [intros [ [->| ->]|H]; tauto|]. intros [H|[H|[H _] ] ]; tauto.
      * split; [intros [ [->|H]|H]; try tauto; by apply elem_of_empty in H|]. intros [H|[H|[-> H] ] ]; try tauto. congruence.
  - destruct L as [L1 L2]. rewrite HU in L1. destruct (release_spec n s number prior W (proj1 L1) L2) as (s' & -> & R). cbn [obind].
    eexists _, s', _. split; [done|]. destruct R as [R1 R2 R3 R4 R5]. split; [apply releases|]. split; [|done].
    exists n. split; [done|]. intros q'. rewrite elem_of_difference, elem_of_singleton, R3, HU. done.
  - destruct (last_page_spec n s W) as (p & l & -> & Hp & Hm); [specialize (L q Hq); nia|]. cbn [obind].
    eexists _, _, U. split; [done|]. split; [apply finds_last; [by rewrite HU|]; intros q'; rewrite HU; apply Hm|].
    split; [|done]. exists n. split; [by apply wf_called|done].
Qed.

(** ** A new database *)

(** The bits after formatting. *)
Definition formatted (c : PageControl) : list Z :=
  let bits := all_free c in
  <[0%nat := UCHAR (Z.land (match bits with b :: _ => b | [] => 0 end) (Z.lnot (Z.lor (Z.lor 1 2) 4)))]> bits.

Lemma format_pip_at s : pip_at (PAG_format_pip s) 0 = Some (mk_pip 4 (formatted (control s))).
Proof.
  unfold pip_at. assert (E : pages (PAG_format_pip s) = <[1 := Inventory (mk_pip 4 (formatted (control s)))]> (pages (CCH_FAKE 1 s))) by reflexivity.
  rewrite E. change (pip_number (control (PAG_format_pip s)) 0) with 1. by rewrite lookup_insert_eq.
Qed.

Lemma create_pip_at page_size : 21 <= page_size ->
  pip_at (create page_size) 0 = Some (mk_pip 4 (248 :: replicate (Z.to_nat (page_size - 21)) 255)).
Proof.
  intros H. unfold create. rewrite format_pip_at. do 2 f_equal. unfold formatted, all_free.
  match goal with |- context [pgc_bytes ?c] => change (pgc_bytes c) with (page_size - 20) end.
  replace (Z.to_nat (page_size - 20)) with (S (Z.to_nat (page_size - 21))) by lia. reflexivity.
Qed.

Lemma create_bits page_size : 21 <= page_size ->
  bits_at (create page_size) 0 = 248 :: replicate (Z.to_nat (page_size - 21)) 255.
Proof. intros H. unfold bits_at. by rewrite create_pip_at. Qed.

Lemma create_free page_size r : 21 <= page_size -> 0 <= r ->
  free_bit (bits_at (create page_size) 0) r = (3 <=? r) && (r <? (page_size - 20) * 8).
Proof.
  intros H Hr. rewrite create_bits by done. destruct (Z.lt_ge_cases r 8).
  - rewrite free_bit_cons_low by lia.
    assert (C : forall z, 0 <= z < 8 -> Bool.eqb (Z.testbit 248 z) (3 <=? z) = true)
      by (apply (Z_range_check (fun z => Bool.eqb (Z.testbit 248 z) (3 <=? z))); vm_compute; reflexivity).
    specialize (C r ltac:(lia)). apply eqb_prop in C. rewrite C. destruct (Z.ltb_spec r ((page_size - 20) * 8)); [by rewrite andb_true_r|lia].
  - rewrite free_bit_cons_high, free_bit_all by lia. destruct (Z.leb_spec 3 r); [|lia]. cbn [andb]. apply eq_true_iff_eq. rewrite !Z.ltb_lt. lia.
Qed.

Lemma wf_create page_size : 21 <= page_size -> page_size <= 16384 -> wf 0 (create page_size).
Proof.
  intros H1 H2.
  assert (P : ppp (create page_size) = (page_size - 20) * 8) by done.
  pose proof (fun r => create_free page_size r H1) as F.
  split; rewrite ?P; cbn [create PAG_format_pip PAG_format_log]; try done.
  - change (0 < page_size - 20). lia.
  - lia.
  - intros k Hk. assert (k = 0) as -> by lia. eexists. split; [by apply create_pip_at|]. change (wf_pip (page_size - 20) (mk_pip 4 (248 :: replicate (Z.to_nat (page_size - 21)) 255))).
    split; cbn [pip_bits pip_min].
    + cbn [length]. rewrite length_replicate. lia.
    + constructor; [unfold is_uchar; lia|]. apply Forall_replicate. unfold is_uchar. lia.
    + lia.
    + intros r Hr. change (4 / 8) with 0 in Hr. lia.
  - intros k Hk. assert (k = 0) as -> by lia. rewrite F by lia. cbn. lia.
  - by rewrite F by lia.
  - intros k Hk. cbn in Hk. lia.
Qed.

Definition reserved : gset Z := {[0; 1; 2]}.

Lemma create_represents page_size : 21 <= page_size -> page_size <= 16384 -> represents (create page_size) reserved.
Proof.
  intros H1 H2. pose proof (wf_create page_size H1 H2) as W. exists 0. split; [done|]. intros q.
  assert (P : ppp (create page_size) = (page_size - 20) * 8) by done.
  unfold reserved. rewrite !elem_of_union, !elem_of_singleton. destruct (Z.lt_ge_cases q 0) as [Hq|Hq]; [unfold used; split; [lia|intros [H _]; lia]|].
  destruct (join_page 0 _ W q Hq) as (k & r & -> & Hr & Hk). rewrite (used_iff 0 _ W) by done. split.
  - intros H. assert (k = 0 /\ r <= 2) as [-> H3] by nia. split; [lia|]. rewrite create_free by lia. destruct (Z.leb_spec 3 r); [lia|done].
  - intros [Hk0 F]. assert (k = 0) as -> by lia. rewrite create_free in F by lia. destruct (Z.leb_spec 3 r); [|lia].
    destruct (Z.ltb_spec r ((page_size - 20) * 8)); [done|lia].
Qed.

(** C8: From a new database on, page allocation is an allocator of pages: any
    sequence of allocations, releases of pages in use and questions for the
    last page returns, with the answers of the allocator, and leaves inventory
    pages that say what the allocator's set is.  In particular an allocated
    page is not in use, is not the place of an inventory page, and is the
    lowest such page. *)
Theorem page_allocation_refines page_size ops :
  21 <= page_size -> page_size <= 16384 -> let per_page := ppp (create page_size) in legal_run per_page reserved ops ->
  exists l s U, run ops (create page_size) = Ret (l, s) /\ allocator_run per_page reserved ops l U /\ represents s U.
Proof.
  intros H1 H2. cbv zeta. generalize (create_represents page_size H1 H2). generalize reserved, (create page_size). clear H1 H2 page_size.
  intros U s Hr. revert U s Hr. induction ops as [|o ops IH]; intros U s Hr L.
  - exists [], s, U. split; [done|]. split; [apply run_nil|done].
  - destruct L as [L1 L2]. destruct (run_op_refines s U o Hr L1) as (a & s1 & U1 & E & A & Hr1 & P).
    rewrite <- P in L2. destruct (IH U1 s1 Hr1) as (l & s2 & U2 & E2 & R2 & Hr2); [by apply (L2 a); rewrite P|].
    exists (a :: l), s2, U2. split; [cbn [run]; rewrite E; cbn [obind]; by rewrite E2|]. split; [|done].
    rewrite P in R2. by eapply run_cons.
Qed.

(** ** Contents of pages *)

(** C23: Neither allocating nor releasing a page changes what is on a page in
    use, inventory pages apart; the page that is allocated is empty. *)
Theorem allocation_keeps_contents s U o a s' :
  represents s U -> legal (ppp s) U o -> run_op o s = Ret (a, s') ->
  (forall q, q ∈ U -> inventory (ppp s) q = false -> pages s' !! q = pages s !! q) /\
  (o = Allocate -> exists p, a = Some p /\ (p ∉ U) /\ inventory (ppp s) p = false /\ pages s' !! p = Some (Page pag_undefined)).
Proof.
  intros (n & W & HU) L E. destruct (highest_pip n s W) as (q0 & Hq0 & Hn). rewrite <- HU in Hq0. pose proof (ppp_pos _ _ W) as Hpos.
  destruct o as [|number prior|]; cbn [run_op legal] in *.
  - pose proof (wf_water _ _ W) as Hw. destruct (allocate_spec n s W) as (p & n' & s1 & E1 & [A1 A2 A3 A4 A5 A6 A7 A8 A9 A10] & _); [specialize (L q0 Hq0); lia|].
    rewrite E1 in E. cbn [obind] in E. injection E as <- <-. split.
    + intros q Hq Hi. apply A9; [done|]. intros ->. by apply A5, HU.
    + intros _. exists p. split; [done|]. split; [by rewrite HU|]. split; [apply A4|done].
  - destruct L as [L1 L2]. rewrite HU in L1. destruct (release_spec n s number prior W (proj1 L1) L2) as (s1 & E1 & [R1 R2 R3 R4 R5]).
    rewrite E1 in E. cbn [obind] in E. injection E as <- <-. split; [|done]. intros q _ Hi. by apply R4.
  - destruct (last_page_spec n s W) as (p & l & E1 & _); [specialize (L q0 Hq0); nia|]. rewrite E1 in E. cbn [obind] in E. injection E as <- <-. done.
Qed.

(** A page that is released is allocated next, unless a lower page is free,
    and the pages in use are then those from before. *)
Theorem release_allocate_roundtrip s U number prior :
  represents s U -> legal (ppp s) U (Release number prior) -> legal (ppp s) U Allocate ->
  (forall q, 0 <= q < number -> q ∈ U \/ inventory (ppp s) q = true) -> (inventory (ppp s) (number - 1) = true -> number - 1 ∈ U) ->
  exists s1 s2, PAG_release_page number prior s = Ret s1 /\ PAG_allocate s1 = Ret (number, s2) /\ represents s2 U.
Proof.
  intros (n & W & HU) [L1 L2] La Hlow Hprev. destruct (highest_pip n s W) as (q0 & Hq0 & Hn). rewrite <- HU in Hq0. pose proof (ppp_pos _ _ W) as Hpos.
  pose proof (proj1 (HU number) L1) as Un. destruct (release_spec n s number prior W (proj1 Un) L2) as (s1 & E1 & [R1 R2 R3 R4 R5]).
  pose proof (wf_water _ _ W) as Hw. destruct (allocate_spec n s1 R1) as (p & n' & s2 & E2 & [A1 A2 A3 A4 A5 A6 A7 A8 A9 A10] & _).
  { rewrite R2. specialize (La q0 Hq0). lia. }
  rewrite R2 in *. assert (p = number) as ->.
  { destruct (Z.lt_trichotomy p number) as [G|[G|G] ]; [|done|].
    - destruct (Hlow p ltac:(lia)) as [H|H]; [|destruct A4; congruence]. exfalso. apply A5, R3. split; [by apply HU|lia].
    - destruct (A6 number) as [H|H]; [split; [apply Un|lia]| |congruence]. by apply R3 in H as [_ H]. }
  exists s1, s2. split; [done|]. split; [done|]. exists n'. split; [done|]. intros q. rewrite A7, R3, HU.
  destruct (Z.eq_dec q number) as [->|Hne]; [tauto|]. split; [tauto|]. intros [H|[H|[-> H] ] ]; [tauto..|]. apply HU, Hprev. done.
Qed.

(** ** Through the page cache *)

(** What is asked of the cache, as its operations; [lru] are the buffers it may
    reuse. *)
Definition cache_op_of (lru : list nat) (c : call) : PageCache.cache_op :=
  match c with
  | FETCH p write => PageCache.Op_fetch lru p write
  | FAKE p => PageCache.Op_fake lru p
  | MARK p => PageCache.Op_mark p false
  | MARK_MUST_WRITE p => PageCache.Op_must_write p
  | PRECEDENCE low p => PageCache.Op_precedence low p
  | RELEASE p => PageCache.Op_release p
  end.

Section Cache.
Context `{ST : PageCache.Storage} {T : PageCache.Thread}.
Import PageCacheOrder PageCacheGraph PageCacheSteps PageCacheClient.

(** Whatever threads do from [c2] to [c3], [low] is not written before what
    [high] held in [c]. *)
Definition written_after (c c2 c3 : PageCache.cache) (low high : Z) : Prop :=
  forall later u earlier, PageCache.writes c3 = later ++ (low, u) :: earlier -> PageCache.writes c2 `suffix_of` earlier ->
    version c high <= on_file earlier high.

Lemma declared_then_marked lru turns fuel low high c c2 c3 :
  reachable c -> ~ settled high c -> low <> high -> 0 <= high ->
  cache_run turns fuel (cache_op_of lru <$> [PRECEDENCE low high; MARK low]) c = Ret c2 -> cache_steps c2 c3 ->
  written_after c c2 c3 low high.
Proof.
  intros Hr Hset Hne Hh E Hs later u earlier. cbn [fmap list_fmap cache_op_of cache_run] in E.
  destruct (legalb (PageCache.Op_precedence low high) c) eqn:L1; [|done]. apply legalb_ok in L1.
  destruct (PageCache.cache_step turns fuel (PageCache.Op_precedence low high) c) as [c1|e] eqn:E1; [|done]. cbn [obind] in E.
  destruct (legalb (PageCache.Op_mark low false) c1); [|done].
  destruct (PageCache.cache_step turns fuel (PageCache.Op_mark low false) c1) as [c2'|e] eqn:E2; [|done]. cbn [obind] in E. injection E as ->.
  assert (F : first_page high = high) by (unfold first_page; destruct (Z.ltb_spec high 0); [lia|done]).
  pose proof (reachable_ok c Hr) as Hw. destruct (precedence_then_mark turns fuel c c1 c2 low high false Hw L1 E1 E2 Hset) as [G D]; [by rewrite F|].
  destruct (cache_steps_good _ _ Hs (good_wf _ _ G Hw)) as (_ & _ & Hd & _). rewrite F in D. by apply (Hd _ _ _ D).
Qed.

(** C10: Releasing a page declares and then makes its change of the inventory
    page, so that the cache, whatever threads do with it afterwards, does not
    write that the page is free before the page that referred to it
    ([prior_page]) is written without the reference. *)
Theorem release_in_order n s number prior s' lru turns fuel c c2 c3 :
  PagSpec.wf n s -> 0 <= number < (n + 1) * ppp s -> inventory (ppp s) number = false -> PAG_release_page number prior s = Ret s' ->
  let pip := pip_number (control s) (number / ppp s) in
  exists asked, calls s' = calls s ++ FETCH pip true :: asked ++ [RELEASE pip] /\
    (reachable c -> ~ settled prior c -> 0 < prior -> pip <> prior ->
     cache_run turns fuel (cache_op_of lru <$> asked) c = Ret c2 -> cache_steps c2 c3 -> written_after c c2 c3 pip prior).
Proof.
  intros W Hn Hi E pip. destruct (release_spec n s number prior W Hn Hi) as (s1 & E1 & [_ _ _ _ R]). rewrite E in E1. injection E1 as <-.
  exists [PRECEDENCE pip prior; MARK pip]. split; [exact R|]. intros Hr Hset Hp Hne. apply declared_then_marked; (done || lia).
Qed.

End Cache.

(** ** What a new database can hold *)

(** The numbers that are derived from the page size fit the pages: a pointer
    page holds its data pages and two bits for each, and not one more; an
    inventory page and a transaction inventory page are used up to the end; the
    generators, the indices with one key, and the records of no data fit. *)
Theorem limits_fit page_size ods : 1024 <= page_size <= 16384 -> 11 <= ods \/ ods = 0 ->
  let (c, l) := PAG_init page_size ods in
  offset_ppg_page + sizeof_ppg_page * dbb_dp_per_pp l + (dbb_dp_per_pp l * 2 + 7) / 8 <= page_size
  /\ page_size < offset_ppg_page + sizeof_ppg_page * (dbb_dp_per_pp l + 1) + ((dbb_dp_per_pp l + 1) * 2 + 7) / 8
  /\ offset_pip_bits + pgc_ppp c / 8 = page_size /\ pgc_ppp c mod 8 = 0
  /\ offset_tip_transactions + pgc_tpt c / 4 = page_size /\ pgc_tpt c mod 4 = 0
  /\ offset_gpg_values + sizeof_gpg_values * pgc_gpg c <= page_size
  /\ offset_irt_rpt + (sizeof_irt_repeat + sizeof_irtd) * dbb_max_idx l <= page_size
  /\ sizeof_data_page + (sizeof_dpg_repeat + offset_rhd_data) * dbb_max_records l <= page_size.
Proof.
  intros H1 H2. unfold PAG_init. assert (E : (ods =? 0) || (ODS_VERSION10 <=? ods) = true) by (unfold ODS_VERSION10; destruct (Z.eqb_spec ods 0), (Z.leb_spec 10 ods); try done; lia).
  rewrite E. assert (E' : (ODS_VERSION11 <=? ods) || (ods =? 0) = true) by (unfold ODS_VERSION11; destruct (Z.eqb_spec ods 0), (Z.leb_spec 11 ods); try done; lia).
  rewrite E'. unfold offset_ppg_page, offset_gpg_values, offset_irt_rpt, offset_pip_bits, offset_tip_transactions, sizeof_ppg_page, sizeof_gpg_values, sizeof_irt_repeat,
    sizeof_irtd, sizeof_data_page, sizeof_dpg_repeat, offset_rhd_data, BITS_PER_LONG. cbn -[Z.div Z.modulo Z.mul Z.add Z.sub]. split_and!; Z.to_euclidean_division_equations; lia.
Qed.

(** ** Concrete inputs *)

(** A database of pages of 1024 bytes from which a page has been allocated. *)
Definition small : database := match PAG_allocate (create 1024) with Ret (_, s) => s | Throw _ => create 1024 end.

Lemma first_allocated a U : allocator 8032 reserved Allocate a U -> a = Some 3 /\ U = {[3]} ∪ ∅ ∪ reserved.
Proof.
  intros A. inversion A as [U0 p H1 H2 H3 H4| |]; subst. assert (p = 3) as ->; [|done].
  unfold reserved in *. rewrite !elem_of_union, !elem_of_singleton in H2.
  destruct (Z.lt_trichotomy p 3) as [G|[G|G] ]; [lia|done|]. destruct (H4 3 ltac:(lia)) as [H|H]; [|discriminate H].
  rewrite !elem_of_union, !elem_of_singleton in H. lia.
Qed.

Lemma small_is_next : PAG_allocate (create 1024) = Ret (3, small).
Proof. vm_cast_no_check (eq_refl (PAG_allocate (create 1024))). Qed.

Lemma run_allocate s p s' : PAG_allocate s = Ret (p, s') -> run_op Allocate s = Ret (Some p, s').
Proof. intros E. cbn [run_op]. by rewrite E. Qed.

Lemma per_page_1024 : ppp (create 1024) = 8032.
Proof. reflexivity. Qed.

Lemma reserved_small q : q ∈ reserved -> 0 <= q <= 2.
Proof. unfold reserved. rewrite !elem_of_union, !elem_of_singleton. lia. Qed.

Lemma small_represents : represents small ({[3]} ∪ ∅ ∪ reserved).
Proof.
  destruct (run_op_refines (create 1024) reserved Allocate) as (a & s' & U & E & A & R & _).
  - apply create_represents; lia.
  - intros q Hq. apply reserved_small in Hq. rewrite per_page_1024. lia.
  - rewrite per_page_1024 in A. apply first_allocated in A as [-> ->]. rewrite (run_allocate _ _ _ small_is_next) in E.
    injection E as <-. exact R.
Qed.

Lemma small_small q : q ∈ ({[3]} ∪ ∅ ∪ reserved : gset Z) -> 0 <= q <= 3.
Proof. unfold reserved. rewrite !elem_of_union, !elem_of_singleton, elem_of_empty. lia. Qed.

Lemma small_release : legal (ppp small) ({[3]} ∪ ∅ ∪ reserved) (Release 3 2).
Proof. split; [unfold reserved; rewrite !elem_of_union, !elem_of_singleton; lia|vm_compute; reflexivity]. Qed.

Lemma small_allocate : legal (ppp small) ({[3]} ∪ ∅ ∪ reserved) Allocate.
Proof. intros q Hq. apply small_small in Hq. replace (ppp small) with 8032 by (vm_compute; reflexivity). lia. Qed.

Example page_allocation_refines_witness :
  exists l s U, run [Allocate; Release 3 2; LastPage] (create 1024) = Ret (l, s) /\
    allocator_run 8032 reserved [Allocate; Release 3 2; LastPage] l U /\ represents s U.
Proof.
  apply (page_allocation_refines 1024); [lia|lia|]. change (ppp (create 1024)) with 8032. split.
  - intros q Hq. unfold reserved in Hq. rewrite !elem_of_union, !elem_of_singleton in Hq. lia.
  - intros a U A. apply first_allocated in A as [-> ->]. split; [split; [unfold reserved; rewrite !elem_of_union, !elem_of_singleton; lia|reflexivity]|].
    intros a U A. inversion A; subst. split; [|done]. intros q Hq. apply elem_of_difference in Hq as [Hq _]. apply small_small in Hq. lia.
Defined.

Example allocation_keeps_contents_witness :
  exists a s', run_op (Release 3 2) small = Ret (a, s') /\ pages s' !! 0 = pages small !! 0.
Proof.
  destruct small_represents as (n & W & HU). assert (U3 : used n small 3) by (apply HU; unfold reserved; rewrite !elem_of_union, !elem_of_singleton; lia).
  assert (I3 : inventory (ppp small) 3 = false) by (vm_compute; reflexivity).
  destruct (release_spec n small 3 2 W (proj1 U3) I3) as (s' & E & _). exists None, s'.
  assert (E' : run_op (Release 3 2) small = Ret (None, s')) by (cbn [run_op]; rewrite E; reflexivity). split; [exact E'|].
  apply (proj1 (allocation_keeps_contents small _ (Release 3 2) None s' small_represents small_release E')).
  - unfold reserved. rewrite !elem_of_union, !elem_of_singleton. lia.
  - vm_compute. reflexivity.
Defined.

Example release_allocate_roundtrip_witness :
  exists s1 s2, PAG_release_page 3 2 small = Ret s1 /\ PAG_allocate s1 = Ret (3, s2) /\ represents s2 ({[3]} ∪ ∅ ∪ reserved).
Proof.
  apply (release_allocate_roundtrip small _ 3 2 small_represents small_release small_allocate).
  - intros q Hq. left. unfold reserved. rewrite !elem_of_union, !elem_of_singleton. lia.
  - intros H. vm_compute in H. discriminate H.
Defined.

(** A cache in which page 2 has been changed and page 1 is fetched, and what is
    asked of it when page 3, to which page 2 referred, is released. *)
Example release_in_order_witness :
  exists s', PAG_release_page 3 2 small = Ret s' /\ calls s' = calls small ++ [FETCH 1 true; PRECEDENCE 1 2; MARK 1; RELEASE 1] /\
    written_after PageCacheClient.two_pages PageCacheClient.changed PageCacheClient.flushed 1 2.
Proof.
  destruct small_represents as (n & W & HU). assert (U3 : used n small 3) by (apply HU; unfold reserved; rewrite !elem_of_union, !elem_of_singleton; lia).
  assert (I3 : inventory (ppp small) 3 = false) by (vm_compute; reflexivity).
  destruct (release_spec n small 3 2 W (proj1 U3) I3) as (s' & E & [_ _ _ _ R]). exists s'. split; [done|]. split; [exact R|].
  destruct (release_in_order (ST := PageCacheClient.some_storage) (T := PageCacheClient.some_thread false) n small 3 2 s' [] 20 20
    PageCacheClient.two_pages PageCacheClient.changed PageCacheClient.flushed W (proj1 U3) I3 E) as (asked & Ha & H).
  rewrite Ha in R. apply app_inv_head in R. injection R as R. apply (app_inj_tail asked [PRECEDENCE 1 2; MARK 1]) in R as [-> _].
  apply H; [apply PageCacheClient.two_pages_reachable|intros [G|[G _] ]; discriminate G|done|vm_compute; discriminate| |apply PageCacheClient.after_steps].
  vm_compute. reflexivity.
Defined.

End PagClient.
