(* ===== verification/Clump.v ===== *)
(** * Clumps of the header and log pages ([jrd/pag.cpp], [jrd/ods.h])

    Optional data about the database (secondary files, the sweep interval,
    backup files) are clumps, a type, a length and bytes, one after the other on
    the header page and the pages it continues on.  The log page has clumps of
    the same form.  New pages come from [Pag], with which the calls of the page
    cache are shared. *)

From S2P Require Import Prelude.
From S2P Require Import Pag.
From stdpp Require Import gmap.
#[local] Open Scope Z_scope.

Module Clump.

Definition HDR_SIZE : Z := 96.
Definition LIP_SIZE : Z := 106.
Definition HDR_end : Z := 0.
Definition HDR_sweep_interval : Z := 6.
Definition CLUMP_ADD : Z := 0.
Definition CLUMP_REPLACE : Z := 1.
Definition CLUMP_REPLACE_ONLY : Z := 2.
Definition isc_read_only_database : Z := 335544765.

(** Of a header or log page: the page it continues on, the offset of the end of
    its clumps, and the bytes from [hdr_data] or [log_data] on. *)
Record clump_page := mk_clumps { next_page : Z; end_of : Z; data : list Z }.

Definition with_next (n : Z) (p : clump_page) : clump_page := mk_clumps n (end_of p) (data p).
Definition with_end (e : Z) (p : clump_page) : clump_page := mk_clumps (next_page p) e (data p).
Definition with_data (e : Z) (d : list Z) (p : clump_page) : clump_page := mk_clumps (next_page p) e d.

Record database := mk_database {
  allocation : Pag.database;
  clump_pages : gmap Z clump_page;
  dbb_page_size : Z;
  dbb_read_only : bool
}.

Definition with_allocation (d : Pag.database) (s : database) : database := mk_database d (clump_pages s) (dbb_page_size s) (dbb_read_only s).
Definition with_clumps (n : Z) (p : clump_page) (s : database) : database :=
  mk_database (allocation s) (<[n := p]> (clump_pages s)) (dbb_page_size s) (dbb_read_only s).
Definition asks (l : list Pag.call) (s : database) : database := with_allocation (Pag.called l (allocation s)) s.

(** Whether a chain begins on the header page or the log page. *)
Definition page_type (page_num : Z) : Z := if page_num =? Pag.HEADER_PAGE then Pag.pag_header else Pag.pag_log.
Definition first_offset (page_num : Z) : Z := if page_num =? Pag.HEADER_PAGE then HDR_SIZE else LIP_SIZE.

Definition at_page (n : Z) (s : database) : outcome clump_page :=
  match clump_pages s !! n with Some p => Ret p | None => Throw Overrun end.

Definition fetch (page_num n : Z) (write : bool) (s : database) : outcome (clump_page * database) :=
  let* (_, d) := Pag.CCH_FETCH n write (page_type page_num) (allocation s) in
  let* p := at_page n s in
  Ret (p, with_allocation d s).

(** The next page is fetched before the one of the window is released. *)
Definition CCH_HANDOFF (page_num window n : Z) (write : bool) (s : database) : outcome (clump_page * database) :=
  let* (p, s) := fetch page_num n write s in Ret (p, asks [Pag.RELEASE window] s).

Definition mark (must_write : bool) (window : Z) : Pag.call := if must_write then Pag.MARK_MUST_WRITE window else Pag.MARK window.

Definition byte_at (d : list Z) (p : Z) : outcome Z :=
  if p <? 0 then Throw Overrun else match d !! Z.to_nat p with Some b => Ret b | None => Throw Overrun end.

Definition bytes_at (d : list Z) (p n : Z) : outcome (list Z) :=
  if (0 <=? p) && (0 <=? n) && (p + n <=? Z.of_nat (length d)) then Ret (take (Z.to_nat n) (drop (Z.to_nat p) d)) else Throw Overrun.

Definition put_at (d : list Z) (p : Z) (bs : list Z) : outcome (list Z) :=
  if (0 <=? p) && (p + Z.of_nat (length bs) <=? Z.of_nat (length d)) then Ret (store d (Z.to_nat p) bs) else Throw Overrun.

(** ** Finding *)

(** [for (; *p != HDR_end; p += 2 + p[1]) if ( *p == type) q = p;] *)
Fixpoint last_of_type (fuel : nat) (d : list Z) (type p : Z) (q : option Z) : outcome (option Z * Z) :=
  match fuel with
  | O => Throw Overrun
  | S fuel =>
      let* b := byte_at d p in
      if b =? HDR_end then Ret (q, p)
      else
        let* l := byte_at d (p + 1) in
        last_of_type fuel d type (p + (2 + l)) (if b =? type then Some p else q)
  end.

(** The window, its page, and the offsets of the clump and of the end. *)
Fixpoint find_type_from (fuel : nat) (page_num : Z) (write : bool) (type window : Z) (page : clump_page) (s : database)
  : outcome (Z * clump_page * option (Z * Z) * database) :=
  match fuel with
  | O => Throw Overrun
  | S fuel =>
      let* (q, clump_end) := last_of_type (S (length (data page))) (data page) type 0 None in
      match q with
      | Some entry_p => Ret (window, page, Some (entry_p, clump_end), s)
      | None =>
          let next := next_page page in
          if next =? 0 then Ret (window, page, None, s)
          else let* (page, s) := CCH_HANDOFF page_num window next write s in find_type_from fuel page_num write type next page s
      end
  end.

(** No chain has more pages than there are. *)
Definition find_type (page_num : Z) (write : bool) (type window : Z) (page : clump_page) (s : database) :=
  find_type_from (S (size (clump_pages s))) page_num write type window page s.

Definition PAG_get_clump (page_num type : Z) (s : database) : outcome (option (list Z) * database) :=
  let* (page, s) := fetch page_num page_num false s in
  let* (window, page, found, s) := find_type page_num false type page_num page s in
  match found with
  | None => Ret (None, asks [Pag.RELEASE window] s)
  | Some (entry_p, _) =>
      let* l := byte_at (data page) (entry_p + 1) in
      let* bs := bytes_at (data page) (entry_p + 2) l in
      Ret (Some bs, asks [Pag.RELEASE window] s)
  end.

(** ** Removing *)

(** What follows the clump, with the end, is moved over it. *)
Definition close_gap (d : list Z) (entry_p clump_end : Z) : outcome (Z * list Z) :=
  let* l := byte_at d (entry_p + 1) in
  let r := entry_p + 2 + l in
  let* rest := bytes_at d r (USHORT (clump_end - r + 1)) in
  let* d := put_at d entry_p rest in
  Ret (2 + l, d).

Definition PAG_delete_clump_entry (page_num type : Z) (s : database) : outcome (bool * database) :=
  if dbb_read_only s then Throw (Post isc_read_only_database)
  else
    let* (page, s) := fetch page_num page_num true s in
    let* (window, page, found, s) := find_type page_num true type page_num page s in
    match found with
    | None => Ret (false, asks [Pag.RELEASE window] s)
    | Some (entry_p, clump_end) =>
        let* (gap, d) := close_gap (data page) entry_p clump_end in
        let page := with_data (USHORT (end_of page - gap)) d page in
        Ret (true, asks [Pag.MARK window; Pag.RELEASE window] (with_clumps window page s))
    end.

(** ** Adding *)

(** A clump is written over the end, and the end after it. *)
Definition put_clump (first type : Z) (entry : list Z) (p : Z) (page : clump_page) : outcome clump_page :=
  let len := Z.of_nat (length entry) in
  let* d := put_at (data page) p (UCHAR type :: UCHAR len :: entry ++ [HDR_end]) in
  Ret (with_data (USHORT (first + p + 2 + len)) d page).

Fixpoint find_space_from (fuel : nat) (page_num window : Z) (page : clump_page) (type : Z) (entry : list Z) (must_write : bool) (s : database)
  : outcome (Z * database) :=
  match fuel with
  | O => Throw Overrun
  | S fuel =>
      let first := first_offset page_num in
      let len := Z.of_nat (length entry) in
      let free_space := dbb_page_size s - end_of page in
      if 2 + len <? free_space then
        let* page := put_clump first type entry (end_of page - first) page in
        Ret (window, asks [mark must_write window] (with_clumps window page s))
      else if negb (next_page page =? 0) then
        let next := next_page page in
        let* (page, s) := CCH_HANDOFF page_num window next true s in
        find_space_from fuel page_num next page type entry must_write s
      else
        let* (next, d) := Pag.PAG_allocate (allocation s) in
        let d := Pag.with_page next (Pag.Page (page_type page_num)) (Pag.called [mark must_write next] d) in
        let blank := mk_clumps 0 first (replicate (Z.to_nat (dbb_page_size s - first)) 0) in
        let* new_page := put_clump first type entry 0 blank in
        let s := with_clumps next new_page (with_allocation d s) in
        let s := asks [Pag.RELEASE next; Pag.PRECEDENCE window next; Pag.MARK window] s in
        Ret (window, with_clumps window (with_next next page) s)
  end.

Definition find_clump_space (page_num window : Z) (page : clump_page) (type : Z) (entry : list Z) (must_write : bool) (s : database)
  : outcome (Z * database) := find_space_from (S (size (clump_pages s))) page_num window page type entry must_write s.

Definition add_entry (page_num : Z) (page : clump_page) (type : Z) (entry : list Z) (must_write : bool) (s : database)
  : outcome (bool * database) :=
  let* (window, s) := find_clump_space page_num page_num page type entry must_write s in
  Ret (true, asks [Pag.RELEASE window] s).

(** [end_addr] is that of the first page, wherever the clump is found. *)
Definition PAG_add_clump (page_num type : Z) (entry : list Z) (mode : Z) (must_write : bool) (s : database) : outcome (bool * database) :=
  if dbb_read_only s then Throw (Post isc_read_only_database)
  else
    let* (page, s) := fetch page_num page_num true s in
    if mode =? CLUMP_ADD then add_entry page_num page type entry must_write s
    else
      let* (window, page, found, s) := find_type page_num true type page_num page s in
      match found with
      | None =>
          if mode =? CLUMP_REPLACE_ONLY then Ret (false, asks [Pag.RELEASE window] s)
          else
            let* (window, s) := find_clump_space page_num window page type entry must_write s in
            Ret (true, asks [Pag.RELEASE window] s)
      | Some (entry_p, clump_end) =>
          let* l := byte_at (data page) (entry_p + 1) in
          if l =? Z.of_nat (length entry) then
            if l =? 0 then Ret (true, asks [Pag.RELEASE window] s)
            else
              let* d := put_at (data page) (entry_p + 2) entry in
              Ret (true, asks [mark must_write window; Pag.RELEASE window] (with_clumps window (with_data (end_of page) d page) s))
          else
            let* first := at_page page_num s in
            let s := with_clumps page_num (with_end (USHORT (end_of first - (2 + l))) first) s in
            let* page := at_page window s in
            let* (_, d) := close_gap (data page) entry_p clump_end in
            let s := asks [Pag.MARK_MUST_WRITE window; Pag.RELEASE window] (with_clumps window (with_data (end_of page) d page) s) in
            let* (page, s) := fetch page_num page_num true s in
            add_entry page_num page type entry must_write s
      end.

Definition PAG_sweep_interval (interval : Z) (s : database) : outcome (bool * database) :=
  PAG_add_clump Pag.HEADER_PAGE HDR_sweep_interval (le_bytes 4 interval) CLUMP_REPLACE true s.

(** ** The header page in a buffer *)

(** [for (p = header->hdr_data; (( *p != HDR_end) && ( *p != type)); p += 2 + p[1]);] *)
Fixpoint first_of_type (fuel : nat) (d : list Z) (type p : Z) : outcome (Z * Z) :=
  match fuel with
  | O => Throw Overrun
  | S fuel =>
      let* b := byte_at d p in
      if (b =? HDR_end) || (b =? type) then Ret (p, b)
      else let* l := byte_at d (p + 1) in first_of_type fuel d type (p + (2 + l))
  end.

(** Without an entry ([None]), [len] zeros are written. *)
Definition PAG_add_header_entry (read_only : bool) (page_size : Z) (header : clump_page) (type len : Z) (entry : option (list Z))
  : outcome (bool * clump_page) :=
  if read_only then Throw (Post isc_read_only_database)
  else
    let* (p, b) := first_of_type (S (length (data header))) (data header) type 0 in
    if negb (b =? HDR_end) then Ret (false, header)
    else
      let free_space := page_size - end_of header in
      if 2 + len <? free_space then
        let* bytes := match entry with Some bs => bytes_at bs 0 len | None => Ret (replicate (Z.to_nat len) 0) end in
        let* d := put_at (data header) p (UCHAR type :: UCHAR len :: bytes ++ [HDR_end]) in
        Ret (true, with_data (USHORT (HDR_SIZE + p + 2 + len)) d header)
      else Throw (BUGCHECK 251).

(** The item is removed if it is found.  The length of the clump, with its two
    bytes, is kept in 8 bits. *)
Definition remove_first (type : Z) (header : clump_page) : outcome clump_page :=
  let* (p, b) := first_of_type (S (length (data header))) (data header) type 0 in
  if b =? HDR_end then Ret header
  else
    let* n := byte_at (data header) (p + 1) in
    let l := UCHAR (n + 2) in
    let* rest := bytes_at (data header) (p + l) (end_of header - (HDR_SIZE + p) - l + 1) in
    let* d := put_at (data header) p rest in
    Ret (with_data (USHORT (end_of header - l)) d header).

Definition PAG_replace_entry_first (read_only : bool) (page_size : Z) (header : clump_page) (type : Z) (entry : option (list Z))
  : outcome (bool * clump_page) :=
  if read_only then Throw (Post isc_read_only_database)
  else
    let* header := remove_first type header in
    match entry with
    | None => Ret (false, header)
    | Some bs =>
        let len := Z.of_nat (length bs) in
        if page_size - end_of header <=? len + 2 then Throw (BUGCHECK 251)
        else
          let* old := bytes_at (data header) 0 (end_of header - HDR_SIZE + 1) in
          let* d := put_at (data header) (len + 2) old in
          let* d := put_at d 0 (UCHAR type :: UCHAR len :: bs) in
          Ret (true, with_data (USHORT (end_of header + (len + 2))) d header)
    end.

(** The header page of a new file has no clumps. *)
Definition blank_header (page_size : Z) : clump_page := mk_clumps 0 HDR_SIZE (replicate (Z.to_nat (page_size - HDR_SIZE)) HDR_end).

End Clump.
