(* ===== verification/ClumpSpec.v ===== *)
(** * Clumps as lists

    What a page with clumps holds, what the walks over one page find, and what
    removing and writing a clump does to it. *)

From S2P Require Import Prelude.
From S2P Require Import Clump.
From stdpp Require Import gmap.
#[local] Open Scope Z_scope.

Module ClumpSpec.
Import Clump.

Abbreviation clump := (Z * list Z)%type.

Definition enc_clump (c : clump) : list Z := fst c :: Z.of_nat (length (snd c)) :: snd c.
Definition enc (cs : list clump) : list Z := concat (enc_clump <$> cs).
Definition good_clump (c : clump) : Prop := 1 <= fst c < 256 /\ Z.of_nat (length (snd c)) < 256.

(** The page holds the clumps [cs]; [first] is the offset of the first of them
    in the page, of [ps] bytes. *)
Record holds (first ps : Z) (page : clump_page) (cs : list clump) : Prop := {
  h_data : exists rest, data page = enc cs ++ HDR_end :: rest;
  h_end : end_of page = first + Z.of_nat (length (enc cs));
  h_size : Z.of_nat (length (data page)) = ps - first;
  h_good : Forall good_clump cs
}.

Definition types (cs : list clump) : list Z := fst <$> cs.

Lemma enc_app a b : enc (a ++ b) = enc a ++ enc b.
Proof. unfold enc. by rewrite fmap_app, concat_app. Qed.

Lemma enc_cons c cs : enc (c :: cs) = enc_clump c ++ enc cs.
Proof. done. Qed.

Lemma length_enc_clump c : length (enc_clump c) = (2 + length (snd c))%nat.
Proof. done. Qed.

(** ** Bytes *)

Lemma byte_at_app pre x rest p : p = Z.of_nat (length pre) -> byte_at (pre ++ x :: rest) p = Ret x.
Proof.
  intros ->. unfold byte_at. destruct (Z.ltb_spec (Z.of_nat (length pre)) 0); [lia|]. by rewrite Nat2Z.id, list_lookup_middle.
Qed.

Lemma byte_at_app_1 pre x y rest p : p = Z.of_nat (length pre) + 1 -> byte_at (pre ++ x :: y :: rest) p = Ret y.
Proof.
  intros ->. rewrite cons_middle, app_assoc. apply byte_at_app. rewrite length_app. cbn. lia.
Qed.

Lemma bytes_at_app pre bs rest p n : p = Z.of_nat (length pre) -> n = Z.of_nat (length bs) -> bytes_at (pre ++ bs ++ rest) p n = Ret bs.
Proof.
  intros -> ->. unfold bytes_at. rewrite !length_app, !Nat2Z.id.
  assert ((0 <=? Z.of_nat (length pre)) && (0 <=? Z.of_nat (length bs)) && (Z.of_nat (length pre) + Z.of_nat (length bs) <=? Z.of_nat (length pre + (length bs + length rest))) = true) as -> by (rewrite !andb_true_iff, !Z.leb_le; lia).
  by rewrite drop_app_length, take_app_length.
Qed.

(** Writing over what follows [pre]. *)
Lemma put_at_app pre old bs p : p = Z.of_nat (length pre) -> (length bs <= length old)%nat ->
  put_at (pre ++ old) p bs = Ret (pre ++ bs ++ drop (length bs) old).
Proof.
  intros -> H. unfold put_at. rewrite length_app.
  assert ((0 <=? Z.of_nat (length pre)) && (Z.of_nat (length pre) + Z.of_nat (length bs) <=? Z.of_nat (length pre + length old)) = true) as -> by (rewrite andb_true_iff, !Z.leb_le; lia).
  unfold store. rewrite Nat2Z.id, take_app_length, drop_app_ge by lia. do 4 f_equal. lia.
Qed.

(** ** Walks over a page *)

Lemma clump_type pre c tail : byte_at (pre ++ enc_clump c ++ tail) (Z.of_nat (length pre)) = Ret (fst c).
Proof. by apply (byte_at_app pre (fst c)). Qed.

Lemma clump_length pre c tail p : p = Z.of_nat (length pre) + 1 -> byte_at (pre ++ enc_clump c ++ tail) p = Ret (Z.of_nat (length (snd c))).
Proof. intros ->. by apply (byte_at_app_1 pre (fst c)). Qed.

Lemma after_clump pre c : Z.of_nat (length pre) + (2 + Z.of_nat (length (snd c))) = Z.of_nat (length (pre ++ enc_clump c)).
Proof. rewrite length_app, length_enc_clump. lia. Qed.

Lemma last_of_type_none pre cs rest t q fuel : Forall good_clump cs -> t ∉ types cs -> (length cs < fuel)%nat ->
  last_of_type fuel (pre ++ enc cs ++ HDR_end :: rest) t (Z.of_nat (length pre)) q = Ret (q, Z.of_nat (length pre) + Z.of_nat (length (enc cs))).
Proof.
  intros Hg. revert pre fuel. induction Hg as [|c cs [Hu Hl] _ IH]; intros pre fuel Ht Hf; (destruct fuel as [|fuel]; [cbn in Hf; lia|]); cbn [last_of_type].
  - rewrite (byte_at_app pre HDR_end rest) by done. cbn. by rewrite Z.add_0_r.
  - rewrite enc_cons, <- app_assoc, clump_type. cbn [obind]. destruct (Z.eqb_spec (fst c) HDR_end); [unfold HDR_end in *; lia|].
    rewrite clump_length by done. cbn [obind]. destruct (Z.eqb_spec (fst c) t) as [<-|]; [exfalso; apply Ht; left|].
    rewrite after_clump, app_assoc, IH; [|intros H; apply Ht; by right|cbn in Hf; lia]. rewrite !length_app. do 2 f_equal. lia.
Qed.

Lemma last_of_type_some pre a t bs b rest q fuel : Forall good_clump (a ++ (t, bs) :: b) -> t ∉ types b -> (length (a ++ (t, bs) :: b) < fuel)%nat ->
  last_of_type fuel (pre ++ enc (a ++ (t, bs) :: b) ++ HDR_end :: rest) t (Z.of_nat (length pre)) q =
    Ret (Some (Z.of_nat (length pre) + Z.of_nat (length (enc a))), Z.of_nat (length pre) + Z.of_nat (length (enc (a ++ (t, bs) :: b)))).
Proof.
  revert pre fuel q. induction a as [|c a IH]; intros pre fuel q Hg Ht Hf; (destruct fuel as [|fuel]; [cbn in Hf; lia|]); cbn [last_of_type app] in *;
    apply Forall_cons in Hg as [ [Hu Hl] Hg]; rewrite enc_cons, <- app_assoc, clump_type; cbn [obind];
    (match goal with |- context [?z =? HDR_end] => destruct (Z.eqb_spec z HDR_end) as [E|_]; [unfold HDR_end in E; lia|] end);
    rewrite clump_length by done; cbn [obind]; rewrite after_clump, app_assoc.
  - cbn [fst]. rewrite Z.eqb_refl, last_of_type_none; [|done|done|cbn in Hf; lia]. rewrite !length_app. cbn [enc concat fmap list_fmap length]. f_lia.
  - rewrite IH; [|done|done|cbn in Hf; lia]. rewrite (enc_cons _ a), !length_app. f_lia.
Qed.

(** ** A page *)

Lemma holds_nonneg first ps page cs : holds first ps page cs -> 0 < ps - first.
Proof. intros [ [rest E] _ S _]. rewrite <- S, E, length_app. cbn. lia. Qed.

Lemma length_clumps cs : (length cs <= length (enc cs))%nat.
Proof. induction cs as [|c cs IH]; [done|]. rewrite enc_cons, length_app, length_enc_clump. cbn. lia. Qed.

Lemma walk_none first ps page cs t : holds first ps page cs -> t ∉ types cs ->
  last_of_type (S (length (data page))) (data page) t 0 None = Ret (None, Z.of_nat (length (enc cs))).
Proof.
  intros [ [rest E] _ _ G] Ht. rewrite E. rewrite (last_of_type_none [] cs rest t None); [done|done|done|].
  rewrite length_app. pose proof (length_clumps cs). lia.
Qed.

Lemma walk_some first ps page a t bs b : holds first ps page (a ++ (t, bs) :: b) -> t ∉ types b ->
  last_of_type (S (length (data page))) (data page) t 0 None =
    Ret (Some (Z.of_nat (length (enc a))), Z.of_nat (length (enc (a ++ (t, bs) :: b)))).
Proof.
  intros [ [rest E] _ _ G] Ht. rewrite E. rewrite (last_of_type_some [] a t bs b rest None); [done|done|done|].
  rewrite (length_app (enc _)). pose proof (length_clumps (a ++ (t, bs) :: b)). lia.
Qed.

(** The bytes of a page around one of its clumps. *)
Lemma around first ps page a c b : holds first ps page (a ++ c :: b) ->
  exists rest, data page = enc a ++ enc_clump c ++ enc b ++ HDR_end :: rest.
Proof. intros [ [rest E] _ _ _]. exists rest. by rewrite E, enc_app, enc_cons, <-!app_assoc. Qed.

Lemma entry_length first ps page a c b : holds first ps page (a ++ c :: b) ->
  byte_at (data page) (Z.of_nat (length (enc a)) + 1) = Ret (Z.of_nat (length (snd c))).
Proof. intros H. destruct (around _ _ _ _ _ _ H) as [rest ->]. by rewrite clump_length. Qed.

Lemma entry_bytes first ps page a c b : holds first ps page (a ++ c :: b) ->
  bytes_at (data page) (Z.of_nat (length (enc a)) + 2) (Z.of_nat (length (snd c))) = Ret (snd c).
Proof.
  intros H. destruct (around _ _ _ _ _ _ H) as [rest ->].
  replace (enc a ++ enc_clump c ++ enc b ++ HDR_end :: rest) with ((enc a ++ [fst c; Z.of_nat (length (snd c))]) ++ snd c ++ enc b ++ HDR_end :: rest).
  - apply bytes_at_app; [rewrite length_app; cbn; lia|done].
  - rewrite <- app_assoc. done.
Qed.

(** Removing a clump. *)
Lemma close_gap_spec first ps page a c b : holds first ps page (a ++ c :: b) -> 0 <= first -> ps <= 16384 ->
  exists d, close_gap (data page) (Z.of_nat (length (enc a))) (Z.of_nat (length (enc (a ++ c :: b)))) = Ret (2 + Z.of_nat (length (snd c)), d)
    /\ exists rest, d = enc (a ++ b) ++ HDR_end :: rest /\ length d = length (data page).
Proof.
  intros H Hf Hps. unfold close_gap. rewrite (entry_length first ps page a c b H). cbn [obind].
  destruct (around _ _ _ _ _ _ H) as [rest E]. destruct H as [_ _ S _]. rewrite E in *.
  rewrite !length_app in S. cbn in S. rewrite USHORT_small; rewrite enc_app, enc_cons, !length_app, length_enc_clump; [|lia].
  rewrite app_assoc.
  replace ((enc a ++ enc_clump c) ++ enc b ++ HDR_end :: rest) with ((enc a ++ enc_clump c) ++ (enc b ++ [HDR_end]) ++ rest) by (by rewrite <-!app_assoc).
  rewrite bytes_at_app; [|rewrite length_app, length_enc_clump; lia|rewrite !length_app; cbn; lia]. cbn [obind].
  rewrite <- !app_assoc. rewrite put_at_app; [|done|rewrite !length_app, length_enc_clump; cbn; lia]. cbn [obind].
  eexists. split; [f_equal; f_equal; lia|]. eexists. split.
  - rewrite enc_app, <-!app_assoc. reflexivity.
  - rewrite !length_app, length_drop, !length_app, length_enc_clump. cbn. lia.
Qed.

Lemma holds_close first ps page a c b d rest : holds first ps page (a ++ c :: b) -> 0 <= first -> ps <= 16384 ->
  d = enc (a ++ b) ++ HDR_end :: rest -> length d = length (data page) ->
  holds first ps (with_data (USHORT (end_of page - (2 + Z.of_nat (length (snd c))))) d page) (a ++ b).
Proof.
  intros [ [r E] He S G] Hf Hps Hd Hl. split; cbn.
  - by exists rest.
  - rewrite E, enc_app, enc_cons, !length_app, length_enc_clump in S. rewrite enc_app, enc_cons, !length_app, length_enc_clump in He.
    cbn [length] in S. rewrite enc_app, length_app.
    rewrite USHORT_small; lia.
  - by rewrite Hl.
  - apply Forall_app in G as [G1 G2]. apply Forall_cons in G2 as [_ G2]. by apply Forall_app.
Qed.

(** Overwriting the bytes of a clump. *)
Lemma holds_overwrite first ps page a t bs b entry : holds first ps page (a ++ (t, bs) :: b) -> length bs = length entry ->
  exists d, put_at (data page) (Z.of_nat (length (enc a)) + 2) entry = Ret d /\
    holds first ps (with_data (end_of page) d page) (a ++ (t, entry) :: b).
Proof.
  intros H Hlen. destruct (around _ _ _ _ _ _ H) as [rest E]. destruct H as [_ He S G]. rewrite E in *.
  replace (enc a ++ enc_clump (t, bs) ++ enc b ++ HDR_end :: rest) with ((enc a ++ [t; Z.of_nat (length bs)]) ++ bs ++ enc b ++ HDR_end :: rest)
    by (rewrite <- app_assoc; done).
  rewrite put_at_app; [|rewrite length_app; cbn; lia|rewrite length_app; lia]. eexists. split; [reflexivity|].
  rewrite <- Hlen, drop_app_length. split; cbn.
  - exists rest. rewrite enc_app, enc_cons, <-!app_assoc. unfold enc_clump. cbn. by rewrite Hlen.
  - rewrite He. rewrite !enc_app, !enc_cons, !length_app, !length_enc_clump. cbn. lia.
  - rewrite <- S. rewrite !length_app, length_enc_clump. cbn [length snd]. lia.
  - apply Forall_app in G as [G1 G2]. apply Forall_cons in G2 as [ [G2 G3] G4]. apply Forall_app. split; [done|]. constructor; [|done].
    split; cbn in *; lia.
Qed.

(** Writing a clump over the end. *)
Lemma put_clump_spec first ps page cs t entry : holds first ps page cs -> good_clump (t, entry) -> 0 <= first -> ps <= 16384 ->
  2 + Z.of_nat (length entry) < ps - end_of page ->
  exists page', put_clump first t entry (end_of page - first) page = Ret page' /\ holds first ps page' (cs ++ [(t, entry)]) /\ next_page page' = next_page page.
Proof.
  intros [ [rest E] He S G] [Gt Gl] Hf Hps Hroom. cbn [fst snd] in *. unfold put_clump. rewrite !UCHAR_small by (unfold is_uchar; lia).
  rewrite E in S |- *. rewrite length_app in S. cbn [length] in S. rewrite He in *. replace (first + Z.of_nat (length (enc cs)) - first) with (Z.of_nat (length (enc cs))) by lia.
  rewrite put_at_app; [|done|cbn; rewrite length_app; cbn; lia]. cbn [obind]. eexists. split; [reflexivity|]. split; [|done].
  rewrite USHORT_small by lia. split; cbn [data end_of with_data].
  - eexists. rewrite enc_app, <-app_assoc. f_equal. cbn. rewrite app_nil_r, <-app_assoc. reflexivity.
  - rewrite enc_app, length_app. unfold enc. cbn. rewrite app_nil_r. lia.
  - rewrite <- S, !length_app, length_drop. cbn [length]. rewrite ?length_app. cbn [length]. lia.
  - apply Forall_app. split; [done|]. constructor; [|done]. split; cbn; lia.
Qed.

Lemma holds_blank first ps : 0 <= first -> first < ps -> holds first ps (mk_clumps 0 first (replicate (Z.to_nat (ps - first)) 0)) [].
Proof.
  intros H1 H2. split; cbn.
  - replace (Z.to_nat (ps - first)) with (S (Z.to_nat (ps - first - 1))) by lia. by eexists.
  - lia.
  - rewrite length_replicate. lia.
  - done.
Qed.

End ClumpSpec.
