(* ===== verification/ClumpChain.v ===== *)
(** * Chains of pages with clumps

    The header page and its continuations as a list of lists of clumps; what
    the searches find in it, and what the operations make of it. *)

From S2P Require Import Prelude.
From S2P Require Import Pag.
From S2P Require Import PagSpec.
From S2P Require Import PagAlloc.
From S2P Require Import Clump.
From S2P Require Import ClumpSpec.
From stdpp Require Import gmap.
#[local] Open Scope Z_scope.

Module ClumpChain.
Import Clump ClumpSpec.

(** The pages from [p] on, with their clumps. *)
Inductive chain (first ps : Z) (m : gmap Z clump_page) : Z -> list (Z * list clump) -> Prop :=
  | chain_last p page cs : m !! p = Some page -> holds first ps page cs -> next_page page = 0 -> chain first ps m p [(p, cs)]
  | chain_more p page cs l :
      m !! p = Some page -> holds first ps page cs -> next_page page <> 0 -> chain first ps m (next_page page) l -> chain first ps m p ((p, cs) :: l).

(** A database whose chain from the page [pn] on is [l]; the pages of the chain
    are in use and have the type of the first. *)
Record ok (n pn : Z) (l : list (Z * list clump)) (s : database) : Prop := {
  ok_alloc : PagSpec.wf n (allocation s);
  ok_chain : chain (first_offset pn) (dbb_page_size s) (clump_pages s) pn l;
  ok_once : NoDup (fst <$> l);
  ok_pages : forall p, p ∈ fst <$> l ->
    Pag.pages (allocation s) !! p = Some (Pag.Page (page_type pn)) /\ PagSpec.used n (allocation s) p /\ PagSpec.inventory (PagSpec.ppp (allocation s)) p = false;
  ok_size : 1024 <= dbb_page_size s <= 16384
}.

(** The value of a type: the last of the first page that has it. *)
Fixpoint last_in (t : Z) (cs : list clump) : option (list Z) :=
  match cs with
  | [] => None
  | (u, bs) :: cs => match last_in t cs with Some x => Some x | None => if u =? t then Some bs else None end
  end.

Fixpoint value_of (t : Z) (l : list (Z * list clump)) : option (list Z) :=
  match l with
  | [] => None
  | (_, cs) :: l => match last_in t cs with Some x => Some x | None => value_of t l end
  end.

Lemma first_offset_range pn : 96 <= first_offset pn <= 106.
Proof. unfold first_offset, HDR_SIZE, LIP_SIZE. destruct (_ =? _); lia. Qed.

(** ** Values *)

Lemma last_in_cases t cs :
  (last_in t cs = None /\ (t ∉ types cs)) \/ (exists a bs b, cs = a ++ (t, bs) :: b /\ (t ∉ types b) /\ last_in t cs = Some bs).
Proof.
  induction cs as [|[u bs] cs [ [E H]|(a & x & b & -> & H & E)] ].
  - left. split; [done|]. intros H. by apply elem_of_nil in H.
  - cbn. rewrite E. destruct (Z.eqb_spec u t) as [->|Hne].
    + right. by exists [], bs, cs.
    + left. split; [done|]. intros H'. apply elem_of_cons in H' as [H'|H']; [cbn in H'; congruence|done].
  - right. exists ((u, bs) :: a), x, b. cbn. by rewrite E.
Qed.

Lemma last_in_none t cs : t ∉ types cs -> last_in t cs = None.
Proof.
  intros H. destruct (last_in_cases t cs) as [ [E _]|(a & bs & b & -> & _)]; [done|]. exfalso. apply H. unfold types.
  rewrite fmap_app. apply elem_of_app. right. left.
Qed.

Lemma last_in_app t a b : last_in t (a ++ b) = match last_in t b with Some x => Some x | None => last_in t a end.
Proof.
  induction a as [|[u bs] a IH]; cbn; [by destruct (last_in t b)|]. rewrite IH. by destruct (last_in t b).
Qed.

Lemma value_of_app t a b : value_of t (a ++ b) = match value_of t a with Some x => Some x | None => value_of t b end.
Proof. induction a as [|[p cs] a IH]; [done|]. cbn. destruct (last_in t cs); [done|]. by rewrite IH. Qed.

Lemma value_of_none t l : (forall x, x ∈ l -> t ∉ types (snd x)) -> value_of t l = None.
Proof.
  induction l as [|[p cs] l IH]; intros H; [done|]. cbn. rewrite last_in_none by (apply (H (p, cs)); left). apply IH. intros x Hx. apply H. by right.
Qed.

Lemma value_cases t l :
  (value_of t l = None /\ forall x, x ∈ l -> t ∉ types (snd x)) \/
  (exists l1 p a bs b l2, l = l1 ++ (p, a ++ (t, bs) :: b) :: l2 /\ (t ∉ types b) /\ (forall x, x ∈ l1 -> t ∉ types (snd x)) /\ value_of t l = Some bs).
Proof.
  induction l as [|[p cs] l IH].
  - left. split; [done|]. intros x H. by apply elem_of_nil in H.
  - destruct (last_in_cases t cs) as [ [E H]|(a & bs & b & -> & H & E)]; cbn; rewrite E.
    + destruct IH as [ [E' H']|(l1 & q & a & bs & b & l2 & -> & Hb & Hl & E')]; rewrite E'.
      * left. split; [done|]. intros x Hx. apply elem_of_cons in Hx as [->|Hx]; [done|by apply H'].
      * right. exists ((p, cs) :: l1), q, a, bs, b, l2. split_and!; try done. intros x Hx. apply elem_of_cons in Hx as [->|Hx]; [done|by apply Hl].
    + right. exists [], p, a, bs, b, l. split_and!; try done. intros x Hx. by apply elem_of_nil in Hx.
Qed.

(** ** Calls *)

Lemma asks_asks l l' s : asks l' (asks l s) = asks (l ++ l') s.
Proof. unfold asks, with_allocation. cbn. by rewrite PagAlloc.called_app. Qed.

Lemma ok_asks n pn l calls s : ok n pn l s -> ok n pn l (asks calls s).
Proof. intros [A B C D E]. split; try done. by apply PagAlloc.wf_called. Qed.

Lemma fetch_live pn p w page s : Pag.pages (allocation s) !! p = Some (Pag.Page (page_type pn)) -> clump_pages s !! p = Some page ->
  fetch pn p w s = Ret (page, asks [Pag.FETCH p w] s).
Proof.
  intros H1 H2. unfold fetch, Pag.CCH_FETCH. rewrite H1. cbn [Pag.pag_type]. rewrite Z.eqb_refl. cbn [obind]. unfold at_page. by rewrite H2.
Qed.

Lemma chain_head first ps m p l : chain first ps m p l -> exists page cs l', l = (p, cs) :: l' /\ m !! p = Some page /\ holds first ps page cs.
Proof. intros [q page cs|q page cs l'] ; by eexists _, _, _. Qed.

(** Pages of a chain are pages. *)
Lemma chain_in first ps m p l q cs : chain first ps m p l -> (q, cs) ∈ l -> exists page, m !! q = Some page /\ holds first ps page cs.
Proof.
  induction 1 as [p page ds H1 H2 H3|p page ds l H1 H2 H3 _ IH]; intros Hq.
  - apply list_elem_of_singleton in Hq. injection Hq as -> ->. by exists page.
  - apply elem_of_cons in Hq as [Hq|Hq]; [injection Hq as -> ->; by exists page|by apply IH].
Qed.

Lemma chain_size first ps m p l : chain first ps m p l -> NoDup (fst <$> l) -> (length l <= size m)%nat.
Proof.
  intros C N. rewrite <- (length_fmap fst l), <- (size_list_to_set (C := gset Z) _ N), <- size_dom. apply subseteq_size. intros q Hq.
  apply elem_of_list_to_set in Hq. apply list_elem_of_fmap in Hq as ([q' cs] & -> & Hq). destruct (chain_in _ _ _ _ _ _ _ C Hq) as (page & E & _).
  apply elem_of_dom. by exists page.
Qed.

(** ** Searching a chain *)

Section Search.
Context (pn : Z) (write : bool) (t : Z).

(** The pages of the chain can be fetched. *)
Definition typed (s : database) (l : list (Z * list clump)) : Prop :=
  forall p, p ∈ fst <$> l -> Pag.pages (allocation s) !! p = Some (Pag.Page (page_type pn)).

Lemma find_none ps s w l : chain (first_offset pn) ps (clump_pages s) w l -> typed s l -> (forall x, x ∈ l -> t ∉ types (snd x)) ->
  forall page fuel calls, clump_pages s !! w = Some page -> (length l <= fuel)%nat ->
  exists l0 w' cs' page' calls', l = l0 ++ [(w', cs')] /\ clump_pages s !! w' = Some page' /\ holds (first_offset pn) ps page' cs' /\ next_page page' = 0 /\
    find_type_from fuel pn write t w page (asks calls s) = Ret (w', page', None, asks (calls ++ calls') s).
Proof.
  induction 1 as [p page cs H1 H2 H3|p page cs l H1 H2 H3 C IH]; intros Ht Hn page' fuel calls Hp Hf; rewrite H1 in Hp; injection Hp as <-;
    (destruct fuel as [|fuel]; [cbn in Hf; lia|]); cbn [find_type_from]; rewrite (walk_none _ _ _ _ t H2) by (apply (Hn (p, cs)); left); cbn [obind].
  - rewrite (proj2 (Z.eqb_eq _ _) H3). exists [], p, cs, page, []. by rewrite app_nil_r.
  - rewrite (proj2 (Z.eqb_neq _ _) H3). destruct (chain_head _ _ _ _ _ C) as (next & ds & l' & El & E & _). unfold CCH_HANDOFF.
    rewrite (fetch_live pn _ write next (asks calls s)); [|apply Ht; right; rewrite El; left|done]. cbn [obind]. rewrite !asks_asks.
    destruct (IH) with (page := next) (fuel := fuel) (calls := calls ++ [Pag.FETCH (next_page page) write] ++ [Pag.RELEASE p])
      as (l0 & w' & cs' & page' & calls' & E1 & E2 & E3 & E4 & E5); [intros q Hq; apply Ht; by right|intros x Hx; apply Hn; by right|done|cbn in Hf; lia|].
    rewrite E5. exists ((p, cs) :: l0), w', cs', page'. eexists. split_and!; try done; [by rewrite E1|]. do 3 f_equal. by rewrite <-!app_assoc.
Qed.

Lemma find_some ps s w l1 w' a bs b l2 : chain (first_offset pn) ps (clump_pages s) w (l1 ++ (w', a ++ (t, bs) :: b) :: l2) ->
  typed s (l1 ++ (w', a ++ (t, bs) :: b) :: l2) -> (forall x, x ∈ l1 -> t ∉ types (snd x)) -> t ∉ types b ->
  forall page fuel calls, clump_pages s !! w = Some page -> (length l1 < fuel)%nat ->
  exists page' calls', clump_pages s !! w' = Some page' /\ holds (first_offset pn) ps page' (a ++ (t, bs) :: b) /\
    find_type_from fuel pn write t w page (asks calls s) =
      Ret (w', page', Some (Z.of_nat (length (enc a)), Z.of_nat (length (enc (a ++ (t, bs) :: b)))), asks (calls ++ calls') s).
Proof.
  revert w. induction l1 as [|[q cs] l1 IH]; intros w C Ht Hn Hb page fuel calls Hp Hf; (destruct fuel as [|fuel]; [cbn in Hf; lia|]); cbn [find_type_from].
  - destruct (chain_head _ _ _ _ _ C) as (page' & cs & l' & E1 & E2 & E3). injection E1 as -> <- ->. rewrite Hp in E2. injection E2 as ->.
    rewrite (walk_some _ _ _ _ _ _ _ E3 Hb). cbn [obind]. exists page', []. by rewrite app_nil_r.
  - inversion C as [p x ds G1 G2 G3 G4 G5|p x ds l G1 G2 G3 G4 G5]; subst; [by destruct l1|]. rewrite Hp in G1. injection G1 as ->.
    rewrite (walk_none _ _ _ _ t G2) by (apply (Hn (q, cs)); left). cbn [obind]. rewrite (proj2 (Z.eqb_neq _ _) G3).
    destruct (chain_head _ _ _ _ _ G4) as (next & ds & l' & El & E & _). unfold CCH_HANDOFF.
    assert (Hin : next_page x ∈ fst <$> (l1 ++ (w', a ++ (t, bs) :: b) :: l2)) by (rewrite El; left).
    rewrite (fetch_live pn _ write next (asks calls s)); [|apply Ht; by right|done]. cbn [obind]. rewrite !asks_asks.
    destruct (IH _ G4) with (page := next) (fuel := fuel) (calls := calls ++ [Pag.FETCH (next_page x) write] ++ [Pag.RELEASE q])
      as (page' & calls' & E1 & E2 & E3); [intros y Hy; apply Ht; by right|intros y Hy; apply Hn; by right|done|done|cbn in Hf; lia|].
    rewrite E3. exists page'. eexists. split_and!; try done. do 3 f_equal. by rewrite <-!app_assoc.
Qed.

End Search.

(** ** Changing a chain *)

Lemma chain_ext first ps m m' p l : chain first ps m p l -> (forall q, q ∈ fst <$> l -> m' !! q = m !! q) -> chain first ps m' p l.
Proof.
  induction 1 as [p page cs H1 H2 H3|p page cs l H1 H2 H3 _ IH]; intros H.
  - apply (chain_last _ _ _ _ page); [rewrite H; [done|left]|done..].
  - apply (chain_more _ _ _ _ page); [rewrite H; [done|left]|done..|]. apply IH. intros q Hq. apply H. by right.
Qed.

Lemma chain_update first ps m p l1 q cs cs' page page' l2 :
  chain first ps m p (l1 ++ (q, cs) :: l2) -> NoDup (fst <$> (l1 ++ (q, cs) :: l2)) -> m !! q = Some page ->
  holds first ps page' cs' -> next_page page' = next_page page -> chain first ps (<[q := page']> m) p (l1 ++ (q, cs') :: l2).
Proof.
  revert p. induction l1 as [|[r ds] l1 IH]; intros p C N Hq Hh Hn; cbn [app fmap list_fmap fst] in *; apply NoDup_cons in N as [N1 N2].
  - inversion C as [? x ? G1 G2 G3|? x ? ? G1 G2 G3 G4]; subst; rewrite G1 in Hq; injection Hq as ->.
    + apply (chain_last _ _ _ _ page'); [by rewrite lookup_insert_eq|done|congruence].
    + apply (chain_more _ _ _ _ page'); [by rewrite lookup_insert_eq|done|congruence|]. rewrite Hn. eapply chain_ext; [done|].
      intros r Hr. rewrite lookup_insert_ne; [done|]. intros ->. by apply N1.
  - assert (r <> q) by (intros ->; apply N1; rewrite fmap_app; apply elem_of_app; right; left).
    inversion C as [? x ? G1 G2 G3|? x ? ? G1 G2 G3 G4]; subst; [by destruct l1|].
    apply (chain_more _ _ _ _ x); [by rewrite lookup_insert_ne|done|done|]. by apply IH.
Qed.

Lemma chain_append first ps m p l w cs page new page' ds :
  chain first ps m p (l ++ [(w, cs)]) -> NoDup (fst <$> (l ++ [(w, cs)])) -> m !! w = Some page -> new ∉ fst <$> (l ++ [(w, cs)]) -> new <> 0 ->
  holds first ps page' ds -> next_page page' = 0 ->
  chain first ps (<[w := with_next new page]> (<[new := page']> m)) p (l ++ [(w, cs); (new, ds)]).
Proof.
  intros C N Hw Hnew H0 Hh Hn. revert p C. induction l as [|[r es] l IH]; intros p C; cbn [app fmap list_fmap fst] in *; apply NoDup_cons in N as [N1 N2].
  - assert (new <> w) by (intros ->; apply Hnew; left).
    assert (p = w /\ holds first ps page cs) as [-> Hc].
    { inversion C as [? x ? G1 G2 G3|? x ? ? G1 G2 G3 G4]; subst; [by rewrite G1 in Hw; injection Hw as ->|]. inversion G4. }
    apply (chain_more _ _ _ _ (with_next new page)); [by rewrite lookup_insert_eq|destruct Hc; by split|done|].
    apply (chain_last _ _ _ _ page'); [|done|done]. cbn. by rewrite lookup_insert_ne, lookup_insert_eq.
  - assert (r <> w) by (intros ->; apply N1; rewrite fmap_app; apply elem_of_app; right; left).
    assert (new <> r) by (intros ->; apply Hnew; left).
    inversion C as [? x ? G1 G2 G3|? x ? ? G1 G2 G3 G4]; subst; [by destruct l|].
    apply (chain_more _ _ _ _ x); [by rewrite !lookup_insert_ne|done|done|]. apply IH; [done| |done]. intros Hin. apply Hnew. by right.
Qed.

(** The keys of a chain after one of its pages has changed. *)
Lemma keys_update l1 (q : Z) (cs cs' : list clump) l2 : fst <$> (l1 ++ (q, cs) :: l2) = fst <$> (l1 ++ (q, cs') :: l2).
Proof. by rewrite !fmap_app. Qed.

Lemma ok_update n pn l1 q cs cs' l2 page page' s :
  ok n pn (l1 ++ (q, cs) :: l2) s -> clump_pages s !! q = Some page -> holds (first_offset pn) (dbb_page_size s) page' cs' ->
  next_page page' = next_page page -> ok n pn (l1 ++ (q, cs') :: l2) (with_clumps q page' s).
Proof.
  intros [A B C D E] Hq Hh Hn. split; try done; rewrite <- ?(keys_update l1 q cs cs' l2); try done. by apply (chain_update _ _ _ _ _ _ cs _ page).
Qed.

Lemma in_middle (l1 : list (Z * list clump)) q cs l2 : (q, cs) ∈ l1 ++ (q, cs) :: l2.
Proof. apply elem_of_app. right. left. Qed.

(** ** Getting *)

Lemma ok_first n pn l s : ok n pn l s -> exists page, clump_pages s !! pn = Some page /\
  Pag.pages (allocation s) !! pn = Some (Pag.Page (page_type pn)).
Proof.
  intros [A B C D E]. destruct (chain_head _ _ _ _ _ B) as (page & cs & l' & -> & H & _). exists page. split; [done|]. apply D. left.
Qed.

Lemma get_clump_spec n pn l t s : ok n pn l s -> exists calls, PAG_get_clump pn t s = Ret (value_of t l, asks calls s).
Proof.
  intros O. destruct (ok_first _ _ _ _ O) as (page & H1 & H2). pose proof O as [A B C D E]. unfold PAG_get_clump.
  rewrite (fetch_live pn pn false page s H2 H1). cbn [obind]. unfold find_type. pose proof (chain_size _ _ _ _ _ B C) as Hs.
  assert (Ht : typed pn s l) by (intros p Hp; by apply D).
  destruct (value_cases t l) as [ [Ev Hn]|(l1 & q & a & bs & b & l2 & -> & Hb & Hl & Ev)]; rewrite Ev.
  - destruct (find_none pn false t _ s pn l B Ht Hn page (S (size (clump_pages s))) [Pag.FETCH pn false] H1 ltac:(lia))
      as (l0 & w & cs & page' & calls' & _ & _ & _ & _ & F).
    change (size (clump_pages (asks [Pag.FETCH pn false] s))) with (size (clump_pages s)). rewrite F. cbn [obind]. eexists. by rewrite asks_asks.
  - rewrite length_app in Hs.
    destruct (find_some pn false t _ s pn l1 q a bs b l2 B Ht Hl Hb page (S (size (clump_pages s))) [Pag.FETCH pn false] H1 ltac:(lia))
      as (page' & calls' & H3 & H4 & F).
    change (size (clump_pages (asks [Pag.FETCH pn false] s))) with (size (clump_pages s)). rewrite F. cbn [obind].
    rewrite (entry_length _ _ _ _ _ _ H4). cbn [obind]. rewrite (entry_bytes _ _ _ _ _ _ H4). cbn [obind snd]. eexists. by rewrite asks_asks.
Qed.

(** ** Removing *)

Lemma delete_clump_spec n pn l t s : ok n pn l s -> dbb_read_only s = false ->
  (value_of t l = None /\ exists calls, PAG_delete_clump_entry pn t s = Ret (false, asks calls s)) \/
  exists l1 q a bs b l2 s', l = l1 ++ (q, a ++ (t, bs) :: b) :: l2 /\ (t ∉ types b) /\ value_of t l = Some bs /\
    PAG_delete_clump_entry pn t s = Ret (true, s') /\ ok n pn (l1 ++ (q, a ++ b) :: l2) s' /\
    forall p, PagSpec.used n (allocation s) p -> PagSpec.used n (allocation s') p.
Proof.
  intros O Hro. destruct (ok_first _ _ _ _ O) as (page & H1 & H2). pose proof O as [A B C D E]. unfold PAG_delete_clump_entry.
  rewrite Hro, (fetch_live pn pn true page s H2 H1). cbn [obind]. unfold find_type. pose proof (chain_size _ _ _ _ _ B C) as Hs.
  assert (Ht : typed pn s l) by (intros p Hp; by apply D). change (size (clump_pages (asks [Pag.FETCH pn true] s))) with (size (clump_pages s)).
  destruct (value_cases t l) as [ [Ev Hn]|(l1 & q & a & bs & b & l2 & -> & Hb & Hl & Ev)].
  - left. split; [done|]. destruct (find_none pn true t _ s pn l B Ht Hn page (S (size (clump_pages s))) [Pag.FETCH pn true] H1 ltac:(lia))
      as (l0 & w & cs & page' & calls' & _ & _ & _ & _ & F). rewrite F. cbn [obind]. eexists. by rewrite asks_asks.
  - right. exists l1, q, a, bs, b, l2. rewrite length_app in Hs.
    destruct (find_some pn true t _ s pn l1 q a bs b l2 B Ht Hl Hb page (S (size (clump_pages s))) [Pag.FETCH pn true] H1 ltac:(lia))
      as (page' & calls' & H3 & H4 & F). rewrite F. cbn [obind]. pose proof (first_offset_range pn).
    destruct (close_gap_spec _ _ _ _ _ _ H4 ltac:(lia) ltac:(lia)) as (d & -> & rest & Ed & El). cbn [obind snd].
    eexists. split_and!; [done|done|done|reflexivity| |done]. apply ok_asks. apply (ok_update _ _ _ _ (a ++ (t, bs) :: b) _ _ page').
    + by apply ok_asks.
    + exact H3.
    + eapply (holds_close _ _ _ a (t, bs) b d rest H4); [lia|cbn; lia|exact Ed|done].
    + done.
Qed.

End ClumpChain.
