(* ===== verification/ClumpAdd.v ===== *)
(** * Adding clumps

    Where [find_clump_space] puts a clump, on a page of the chain or on a new
    page from [Pag]; what [PAG_add_clump] makes of a chain, in each of its
    cases. *)

From S2P Require Import Prelude.
From S2P Require Import Pag.
From S2P Require Import PagBits.
From S2P Require Import PagSpec.
From S2P Require Import PagAlloc.
From S2P Require Import Clump.
From S2P Require Import ClumpSpec.
From S2P Require Import ClumpChain.
From stdpp Require Import gmap.
#[local] Open Scope Z_scope.

Module ClumpAdd.
Import PagSpec PagAlloc Clump ClumpSpec ClumpChain.

(** A page that is not an inventory page changes. *)
Lemma wf_other_page n s p t : PagSpec.wf n s -> inventory (ppp s) p = false -> PagSpec.wf n (Pag.with_page p (Pag.Page t) s).
Proof.
  intros W Hp. assert (E : forall k, 0 <= k <= n -> pip_at (Pag.with_page p (Pag.Page t) s) k = pip_at s k).
  { intros k Hk. apply pip_at_page. eapply not_pip; [exact W|done|lia]. }
  pose proof (wf_water _ _ W) as Hw. destruct W as [W1 W2 W3 W4 W5 W6 W7 W8 W9]. split; try done.
  - intros k Hk. rewrite E by done. by apply W6.
  - intros k Hk. unfold bits_at. rewrite E by done. by apply W7.
  - unfold bits_at. by rewrite E by lia.
  - intros k Hk. unfold bits_at. rewrite E by (cbn in Hk; lia). by apply W9.
Qed.

Lemma used_other_page n s p t q : PagSpec.wf n s -> inventory (ppp s) p = false ->
  used n (Pag.with_page p (Pag.Page t) s) q <-> used n s q.
Proof.
  intros W Hp. pose proof (ppp_pos _ _ W) as Hpos. unfold used. change (ppp (Pag.with_page p (Pag.Page t) s)) with (ppp s).
  split; intros [H F]; (split; [done|]); unfold bits_at in *.
  - rewrite pip_at_page in F; [done|]. eapply not_pip; [exact W|done|]. split; [apply Z.div_pos; lia|].
    apply Z.lt_le_incl, Z.lt_le_trans with (n + 1); [|lia]. apply Z.div_lt_upper_bound; lia.
  - rewrite pip_at_page; [done|]. eapply not_pip; [exact W|done|]. split; [apply Z.div_pos; lia|].
    apply Z.lt_le_incl, Z.lt_le_trans with (n + 1); [|lia]. apply Z.div_lt_upper_bound; lia.
Qed.

(** The clump is at the end of a page, or alone on a new one. *)
Inductive appended (c : clump) : list (Z * list clump) -> list (Z * list clump) -> Prop :=
  | app_here l1 p cs l2 : appended c (l1 ++ (p, cs) :: l2) (l1 ++ (p, cs ++ [c]) :: l2)
  | app_new l p : p ∉ fst <$> l -> appended c l (l ++ [(p, [c])]).

(** The chain [l1], of which the part from [w] on is [l2]. *)
Record at_window (n pn : Z) (l1 : list (Z * list clump)) (w : Z) (l2 : list (Z * list clump)) (page : clump_page) (s : database) : Prop := {
  aw_ok : ok n pn (l1 ++ l2) s;
  aw_rest : chain (first_offset pn) (dbb_page_size s) (clump_pages s) w l2;
  aw_page : clump_pages s !! w = Some page
}.

Lemma at_window_asks n pn l1 w l2 page calls s : at_window n pn l1 w l2 page s -> at_window n pn l1 w l2 page (asks calls s).
Proof. intros [A B C]. split; [by apply ok_asks|done|done]. Qed.

(** The header page is in use, so that no new page has its number. *)
Definition header_used (n : Z) (s : database) : Prop := used n (allocation s) 0.

Lemma new_page n pn l1 w cs page t entry mw s :
  at_window n pn l1 w [(w, cs)] page s -> next_page page = 0 -> good_clump (t, entry) -> header_used n s ->
  (n + 2) * ppp (allocation s) <= 2147483648 ->
  exists next d new_page,
    Pag.PAG_allocate (allocation s) = Ret (next, d) /\
    put_clump (first_offset pn) t entry 0 (mk_clumps 0 (first_offset pn) (replicate (Z.to_nat (dbb_page_size s - first_offset pn)) 0)) = Ret new_page /\
    exists n', n <= n' /\ let s' := with_clumps w (with_next next page) (asks [Pag.RELEASE next; Pag.PRECEDENCE w next; Pag.MARK w]
        (with_clumps next new_page (with_allocation (Pag.with_page next (Pag.Page (page_type pn)) (Pag.called [mark mw next] d)) s))) in
      ok n' pn (l1 ++ [(w, cs)] ++ [(next, [(t, entry)])]) s' /\ header_used n' s' /\ next ∉ fst <$> (l1 ++ [(w, cs)]).
Proof.
  intros [O C Hp] Hn Hg H0 Hroom. pose proof O as [A B N D E]. pose proof (first_offset_range pn) as Hf.
  destruct (allocate_spec n (allocation s) A Hroom) as (next & n' & d & Ea & [A1 A2 A3 [A4 A4'] A5 A6 A7 A8 A9 _] & _).
  assert (Hfresh : next ∉ fst <$> (l1 ++ [(w, cs)])) by (intros Hin; apply A5; by apply D).
  assert (Hnext : next <> 0) by (intros ->; by apply A5).
  set (blank := mk_clumps 0 (first_offset pn) (replicate (Z.to_nat (dbb_page_size s - first_offset pn)) 0)).
  assert (Hb : holds (first_offset pn) (dbb_page_size s) blank []) by (apply holds_blank; lia).
  destruct (put_clump_spec _ _ _ _ t entry Hb Hg) as (page' & Ep & Hh & Hnx); [lia|lia|destruct Hg as [_ Hl]; cbn in Hl |- *; lia|].
  replace (end_of blank - first_offset pn) with 0 in Ep by (cbn; lia).
  exists next, d, page'. split; [done|]. split; [done|]. exists n'. split; [done|]. cbv zeta.
  assert (Hinv : inventory (ppp d) next = false) by (by rewrite A3).
  assert (U : forall q, used n' (Pag.with_page next (Pag.Page (page_type pn)) (Pag.called [mark mw next] d)) q <-> used n' d q).
  { intros q. rewrite (used_other_page n' _ next); [done|by apply wf_called|exact Hinv]. }
  split; [|split; [|done] ]; [|apply U, A7; by left]. split; cbn [allocation clump_pages dbb_page_size with_clumps asks with_allocation].
  - apply wf_called, wf_other_page; [by apply wf_called|exact Hinv].
  - by apply (chain_append _ _ _ _ _ w cs page next page').
  - rewrite app_assoc, fmap_app. cbn [fmap list_fmap fst]. apply NoDup_app. split; [done|]. split.
    + intros q Hq Hq'. apply list_elem_of_singleton in Hq'. congruence.
    + apply NoDup_singleton.
  - intros q Hq. change (ppp _) with (ppp d). rewrite A3. change (Pag.pages _) with (<[next := Pag.Page (page_type pn)]> (Pag.pages d)).
    rewrite app_assoc, fmap_app in Hq. apply elem_of_app in Hq as [Hq|Hq].
    + destruct (D q Hq) as (D1 & D2 & D3). assert (q <> next) by congruence. split; [rewrite lookup_insert_ne by done; by rewrite A9|].
      split; [|done]. apply (proj2 (U q)). apply A7. by left.
    + apply list_elem_of_singleton in Hq. subst q. cbn. split; [by rewrite lookup_insert_eq|]. split; [|done]. apply (proj2 (U next)). apply A7. by right; left.
  - done.
Qed.

(** Space is found. *)
Lemma find_space_spec pn t entry mw w l2 ps m : chain (first_offset pn) ps m w l2 -> forall n l1 page s fuel,
  at_window n pn l1 w l2 page s -> ps = dbb_page_size s -> m = clump_pages s -> good_clump (t, entry) -> header_used n s ->
  (n + 2) * ppp (allocation s) <= 2147483648 -> (length l2 <= fuel)%nat ->
  exists w' s' n' l', find_space_from fuel pn w page t entry mw s = Ret (w', s') /\ ok n' pn l' s' /\ header_used n' s' /\ n <= n' /\ appended (t, entry) (l1 ++ l2) l'.
Proof.
  intros C. induction C as [w page0 cs H1 H2 H3|w page0 cs l H1 H2 H3 C IH]; intros n l1 page s fuel Hw -> -> Hg H0 Hroom Hf;
    (destruct fuel as [|fuel]; [cbn in Hf; lia|]); cbn [find_space_from]; pose proof (aw_page _ _ _ _ _ _ _ Hw) as Hp; rewrite H1 in Hp; injection Hp as ->;
    pose proof (first_offset_range pn) as Hfo; pose proof (ok_size _ _ _ _ (aw_ok _ _ _ _ _ _ _ Hw)) as Hps;
    (destruct (Z.ltb_spec (2 + Z.of_nat (length entry)) (dbb_page_size s - end_of page)) as [Hfit|_];
     [destruct (put_clump_spec _ _ _ _ t entry H2 Hg ltac:(lia) ltac:(lia) Hfit) as (page' & -> & Hh & Hn); cbn [obind];
      eexists _, _, n, _; split; [reflexivity|]; split; [apply ok_asks; eapply ok_update; [apply Hw|exact H1|exact Hh|exact Hn]|];
      split; [done|]; split; [lia|apply app_here]|]).
  - rewrite (proj2 (Z.eqb_eq _ _) H3). cbn [negb].
    destruct (new_page n pn l1 w cs page t entry mw s Hw H3 Hg H0 Hroom) as (next & d & np & -> & Ep & n' & Hn' & O & H0' & Hfresh).
    cbn [obind]. rewrite Ep. cbn [obind]. eexists _, _, n', _. split; [reflexivity|]. split; [exact O|]. split; [done|]. split; [done|].
    rewrite app_assoc. by apply app_new.
  - rewrite (proj2 (Z.eqb_neq _ _) H3). cbn [negb]. destruct (chain_head _ _ _ _ _ C) as (next & ds & l' & El & E & _). unfold CCH_HANDOFF.
    pose proof (aw_ok _ _ _ _ _ _ _ Hw) as O. destruct (ok_pages _ _ _ _ O (next_page page)) as (T & _).
    { rewrite El, fmap_app. apply elem_of_app. right. right. left. }
    rewrite (fetch_live pn _ true next s T E). cbn [obind]. rewrite asks_asks.
    destruct (IH n (l1 ++ [(w, cs)]) next (asks ([Pag.FETCH (next_page page) true] ++ [Pag.RELEASE w]) s) fuel) as (w' & s' & n' & l'' & Ef & O' & H0' & Hn' & Ha); try done.
    + apply at_window_asks. split; [by rewrite <- app_assoc|done|done].
    + cbn in Hf. lia.
    + rewrite <- app_assoc in Ha. by exists w', s', n', l''.
Qed.

(** ** [PAG_add_clump] *)

Lemma at_start n pn l page s : ok n pn l s -> clump_pages s !! pn = Some page -> at_window n pn [] pn l page s.
Proof. intros O H. split; [done|apply O|done]. Qed.

Lemma size_chain n pn l s : ok n pn l s -> (length l <= size (clump_pages s))%nat.
Proof. intros [A B N D E]. by eapply chain_size. Qed.

(** A clump is added from the first page on. *)
Lemma add_entry_spec n pn l page t entry mw s : ok n pn l s -> clump_pages s !! pn = Some page -> good_clump (t, entry) -> header_used n s ->
  (n + 2) * ppp (allocation s) <= 2147483648 ->
  exists s' n' l', add_entry pn page t entry mw s = Ret (true, s') /\ ok n' pn l' s' /\ header_used n' s' /\ n <= n' /\ appended (t, entry) l l'.
Proof.
  intros O Hp Hg H0 Hroom. pose proof (size_chain _ _ _ _ O) as Hs. unfold add_entry, find_clump_space.
  destruct (find_space_spec pn t entry mw pn l _ _ (ok_chain _ _ _ _ O) n [] page s (S (size (clump_pages s))) (at_start _ _ _ _ _ O Hp) eq_refl eq_refl Hg H0 Hroom)
    as (w & s' & n' & l' & -> & O' & H0' & Hn & Ha); [lia|]. cbn [obind]. eexists _, n', l'. split; [reflexivity|]. split; [by apply ok_asks|done].
Qed.

Lemma add_clump_add n pn l t entry mw s : ok n pn l s -> dbb_read_only s = false -> good_clump (t, entry) -> header_used n s ->
  (n + 2) * ppp (allocation s) <= 2147483648 ->
  exists s' n' l', PAG_add_clump pn t entry CLUMP_ADD mw s = Ret (true, s') /\ ok n' pn l' s' /\ header_used n' s' /\ n <= n' /\ appended (t, entry) l l'.
Proof.
  intros O Hro Hg H0 Hroom. destruct (ok_first _ _ _ _ O) as (page & H1 & H2). unfold PAG_add_clump.
  rewrite Hro, (fetch_live pn pn true page s H2 H1). cbn [obind CLUMP_ADD Z.eqb]. apply (add_entry_spec n); try done. by apply ok_asks.
Qed.

Lemma with_clumps_twice p x y s : with_clumps p y (with_clumps p x s) = with_clumps p y s.
Proof. unfold with_clumps. cbn. by rewrite insert_insert_eq. Qed.

(** What [CLUMP_REPLACE] makes of a chain: a clump that is not there is added, one
    of the same size overwritten, one of another size on the first page removed
    before the new one is added. *)
Inductive replaced (c : clump) : list (Z * list clump) -> list (Z * list clump) -> Prop :=
  | rep_new l l' : (forall x, x ∈ l -> fst c ∉ types (snd x)) -> appended c l l' -> replaced c l l'
  | rep_same l1 q a bs b l2 : fst c ∉ types b -> (forall x, x ∈ l1 -> fst c ∉ types (snd x)) -> length bs = length (snd c) ->
      replaced c (l1 ++ (q, a ++ (fst c, bs) :: b) :: l2) (l1 ++ (q, a ++ c :: b) :: l2)
  | rep_first q a bs b l2 l' : fst c ∉ types b -> length bs <> length (snd c) -> appended c ((q, a ++ b) :: l2) l' ->
      replaced c ((q, a ++ (fst c, bs) :: b) :: l2) l'.

(** The clump has its size, or is on the first page. *)
Definition replaceable (t : Z) (entry : list Z) (l : list (Z * list clump)) : Prop :=
  forall bs, value_of t l = Some bs -> length bs = length entry \/ (exists p cs l', l = (p, cs) :: l' /\ t ∈ types cs).

Section Replace.
Context (n pn : Z) (l : list (Z * list clump)) (t : Z) (entry : list Z) (mw : bool) (s : database).
Context (O : ok n pn l s) (Hro : dbb_read_only s = false) (Hg : good_clump (t, entry)) (H0 : header_used n s)
  (Hroom : (n + 2) * ppp (allocation s) <= 2147483648).

Lemma find_from_first : exists page,
  clump_pages s !! pn = Some page /\ fetch pn pn true s = Ret (page, asks [Pag.FETCH pn true] s) /\ typed pn (asks [Pag.FETCH pn true] s) l.
Proof.
  destruct (ok_first _ _ _ _ O) as (page & H1 & H2). exists page. split; [done|]. split; [by apply fetch_live|]. intros p Hp. by apply O.
Qed.

(** The type is not there. *)
Lemma replace_new : value_of t l = None ->
  exists s' n' l', PAG_add_clump pn t entry CLUMP_REPLACE mw s = Ret (true, s') /\ ok n' pn l' s' /\ header_used n' s' /\ n <= n' /\ replaced (t, entry) l l'.
Proof.
  intros Ev. destruct (value_cases t l) as [ [_ Hn]|(l1 & q & a & bs & b & l2 & _ & _ & _ & E)]; [|congruence].
  destruct find_from_first as (page & H1 & F & Ht). unfold PAG_add_clump. rewrite Hro, F. cbn [obind CLUMP_ADD CLUMP_REPLACE CLUMP_REPLACE_ONLY Z.eqb].
  pose proof (size_chain _ _ _ _ O) as Hs. unfold find_type. change (size (clump_pages (asks _ s))) with (size (clump_pages s)).
  destruct (find_none pn true t _ s pn l (ok_chain _ _ _ _ O) Ht Hn page (S (size (clump_pages s))) [Pag.FETCH pn true] H1 ltac:(lia))
    as (l0 & w & cs & page' & calls' & El & Hp & Hh & Hnx & ->). cbn [obind Pos.eqb]. unfold find_clump_space.
  assert (C : chain (first_offset pn) (dbb_page_size s) (clump_pages s) w [(w, cs)]) by (by apply (chain_last _ _ _ _ page')).
  destruct (find_space_spec pn t entry mw w [(w, cs)] _ _ C n l0 page' (asks ([Pag.FETCH pn true] ++ calls') s) (S (size (clump_pages s))))
    as (w' & s' & n' & l' & E & O' & H0' & Hn' & Ha); try done; [split; [|done|done]; apply ok_asks; by rewrite <- El|cbn; lia|].
  change (size (clump_pages (asks _ s))) with (size (clump_pages s)). rewrite E. cbn [obind]. eexists _, n', l'. split; [reflexivity|]. split; [by apply ok_asks|].
  split; [done|]. split; [done|]. apply rep_new; [done|]. by rewrite El.
Qed.

(** The type is there. *)
Context (l1 : list (Z * list clump)) (q : Z) (a : list clump) (bs : list Z) (b : list clump) (l2 : list (Z * list clump)).
Context (El : l = l1 ++ (q, a ++ (t, bs) :: b) :: l2) (Hb : t ∉ types b) (Hl : forall x, x ∈ l1 -> t ∉ types (snd x)).

Lemma find_there page : clump_pages s !! pn = Some page -> typed pn (asks [Pag.FETCH pn true] s) l ->
  exists page' calls, clump_pages s !! q = Some page' /\ holds (first_offset pn) (dbb_page_size s) page' (a ++ (t, bs) :: b) /\
    find_type pn true t pn page (asks [Pag.FETCH pn true] s) =
      Ret (q, page', Some (Z.of_nat (length (enc a)), Z.of_nat (length (enc (a ++ (t, bs) :: b)))), asks calls s).
Proof.
  intros H1 Ht. pose proof (size_chain _ _ _ _ O) as Hs. pose proof (ok_chain _ _ _ _ O) as C. rewrite El in *. rewrite length_app in Hs. cbn [length] in Hs.
  destruct (find_some pn true t _ s pn l1 q a bs b l2 C Ht Hl Hb page (S (size (clump_pages s))) [Pag.FETCH pn true] H1 ltac:(lia))
    as (page' & calls' & H3 & H4 & F). exists page'. eexists. split; [done|]. split; [done|]. exact F.
Qed.

Lemma replace_same : length bs = length entry ->
  exists s', PAG_add_clump pn t entry CLUMP_REPLACE mw s = Ret (true, s') /\ ok n pn (l1 ++ (q, a ++ (t, entry) :: b) :: l2) s' /\ header_used n s'.
Proof.
  intros Hlen. destruct find_from_first as (page & H1 & F & Ht). destruct (find_there page H1 Ht) as (page' & calls & H3 & H4 & Ff).
  unfold PAG_add_clump. rewrite Hro, F. cbn [obind CLUMP_ADD CLUMP_REPLACE Z.eqb]. rewrite Ff. cbn [obind].
  rewrite (entry_length _ _ _ _ _ _ H4). cbn [obind snd]. rewrite Hlen, Z.eqb_refl. destruct (Z.eqb_spec (Z.of_nat (length entry)) 0) as [E0|E0].
  - eexists. split; [reflexivity|]. split; [|done]. do 2 apply ok_asks. assert (bs = [] /\ entry = []) as [E1 E2] by (destruct bs, entry; cbn in *; (done || lia)).
    rewrite E2. rewrite E1 in El. by rewrite <- El.
  - destruct (holds_overwrite _ _ _ _ _ _ _ entry H4 Hlen) as (d & -> & Hh). cbn [obind]. eexists. split; [reflexivity|]. split; [|done].
    apply ok_asks. apply (ok_update _ _ _ _ (a ++ (t, bs) :: b) _ _ page'); [apply ok_asks; by rewrite <- El|done|exact Hh|done].
Qed.

Lemma replace_first : length bs <> length entry -> l1 = [] ->
  exists s' n' l', PAG_add_clump pn t entry CLUMP_REPLACE mw s = Ret (true, s') /\ ok n' pn l' s' /\ header_used n' s' /\ n <= n' /\
    appended (t, entry) ((q, a ++ b) :: l2) l'.
Proof.
  intros Hlen El1. assert (El' : l = (q, a ++ (t, bs) :: b) :: l2) by (by rewrite El, El1). destruct find_from_first as (page & H1 & F & Ht). destruct (find_there page H1 Ht) as (page' & calls & H3 & H4 & Ff).
  assert (q = pn) as ->.
  { destruct (chain_head _ _ _ _ _ (ok_chain _ _ _ _ O)) as (p & cs & l' & E & _). rewrite El' in E. by injection E. }
  rewrite H1 in H3. injection H3 as <-. pose proof (first_offset_range pn) as Hfo. pose proof (ok_size _ _ _ _ O) as Hps.
  unfold PAG_add_clump. rewrite Hro, F. cbn [obind CLUMP_ADD CLUMP_REPLACE Z.eqb]. rewrite Ff. cbn [obind].
  rewrite (entry_length _ _ _ _ _ _ H4). cbn [obind snd]. rewrite (proj2 (Z.eqb_neq (Z.of_nat (length bs)) (Z.of_nat (length entry)))) by lia.
  unfold at_page at 1. cbn [clump_pages asks with_allocation]. rewrite H1. cbn [obind].
  set (first := with_end (USHORT (end_of page - (2 + Z.of_nat (length bs)))) page). unfold at_page at 1. cbn [clump_pages with_clumps]. rewrite lookup_insert_eq.
  cbn [obind]. change (data first) with (data page). change (end_of first) with (USHORT (end_of page - (2 + Z.of_nat (length bs)))).
  destruct (close_gap_spec _ _ _ a (t, bs) b H4) as (d & -> & rest & Ed & Edl); [lia|lia|]. cbn [obind].
  set (page2 := with_data _ d first). set (s1 := asks [Pag.MARK_MUST_WRITE pn; Pag.RELEASE pn] _).
  assert (Hh : holds (first_offset pn) (dbb_page_size s) page2 (a ++ b)) by (eapply (holds_close _ _ page a (t, bs) b d rest H4); (lia || done)).
  assert (O1 : ok n pn ((pn, a ++ b) :: l2) s1).
  { unfold s1. rewrite with_clumps_twice. apply ok_asks. apply (ok_update n pn [] pn (a ++ (t, bs) :: b) (a ++ b) l2 page);
      [apply ok_asks; cbn [app]; by rewrite <- El'|done|exact Hh|done]. }
  assert (Hp2 : clump_pages s1 !! pn = Some page2) by (unfold s1; cbn; by rewrite lookup_insert_eq).
  destruct (ok_pages _ _ _ _ O1 pn) as (Hty & _); [left|]. rewrite (fetch_live pn pn true page2 s1 Hty Hp2). cbn [obind].
  apply (add_entry_spec n); try done. by apply ok_asks.
Qed.

End Replace.

Lemma replace_spec n pn l t entry mw s : ok n pn l s -> dbb_read_only s = false -> good_clump (t, entry) -> header_used n s ->
  (n + 2) * ppp (allocation s) <= 2147483648 -> replaceable t entry l ->
  exists s' n' l', PAG_add_clump pn t entry CLUMP_REPLACE mw s = Ret (true, s') /\ ok n' pn l' s' /\ header_used n' s' /\ n <= n' /\ replaced (t, entry) l l'.
Proof.
  intros O Hro Hg H0 Hroom Hr. destruct (value_cases t l) as [ [Ev _]|(l1 & q & a & bs & b & l2 & El & Hb & Hl & Ev)]; [by apply replace_new|].
  destruct (decide (length bs = length entry)) as [Hlen|Hlen].
  - destruct (replace_same n pn l t entry mw s O Hro Hg H0 l1 q a bs b l2 El Hb Hl Hlen) as (s' & E & O' & H0').
    eexists s', n, _. split; [exact E|]. split; [exact O'|]. split; [done|]. split; [done|]. rewrite El. by apply (rep_same (t, entry)).
  - destruct (Hr bs Ev) as [?|(p & cs & l' & El' & Hin)]; [done|]. assert (l1 = []) as ->.
    { destruct l1 as [|[r ds] l1]; [done|]. exfalso. rewrite El' in El. injection El as -> -> ->. by apply (Hl (r, ds)); [left|]. }
    destruct (replace_first n pn l t entry mw s O Hro Hg H0 Hroom [] q a bs b l2 El Hb Hl Hlen eq_refl) as (s' & n' & l'' & E & O' & H0' & Hn & Ha).
    exists s', n', l''. split_and!; try done. rewrite El. by apply (rep_first (t, entry)).
Qed.

End ClumpAdd.
