(* ===== verification/ClumpClient.v ===== *)
(** * Promises of clumps

    Chains of pages with clumps implement a map from types to values; the
    outcomes of the operations on one header page, errors included; what happens
    to a clump that is replaced on a continuation page, and to one of 254 bytes. *)

From S2P Require Import Prelude.
From S2P Require Import Pag.
From S2P Require Import PagBits.
From S2P Require Import PagSpec.
From S2P Require Import PagAlloc.
From S2P Require Import PagClient.
From S2P Require Import Clump.
From S2P Require Import ClumpSpec.
From S2P Require Import ClumpChain.
From S2P Require Import ClumpAdd.
From stdpp Require Import gmap.
#[local] Open Scope Z_scope.

Module ClumpClient.
Import PagSpec PagAlloc Clump ClumpSpec ClumpChain ClumpAdd.

(** ** Types in a chain *)

Definition types_of (l : list (Z * list clump)) : list Z := types (concat (snd <$> l)).

(** No type occurs twice. *)
Definition unique (l : list (Z * list clump)) : Prop := NoDup (types_of l).

Lemma types_of_app l l' : types_of (l ++ l') = types_of l ++ types_of l'.
Proof. unfold types_of, types. by rewrite fmap_app, concat_app, fmap_app. Qed.

Lemma types_of_cons p cs l : types_of ((p, cs) :: l) = types cs ++ types_of l.
Proof. unfold types_of, types. cbn. by rewrite fmap_app. Qed.

Lemma types_app a b : types (a ++ b) = types a ++ types b.
Proof. apply fmap_app. Qed.

Lemma types_cons (c : clump) b : types (c :: b) = fst c :: types b.
Proof. done. Qed.

Lemma value_none_iff t l : value_of t l = None <-> t ∉ types_of l.
Proof.
  induction l as [|[p cs] l IH]; [split; [intros _ H; by apply elem_of_nil in H|done]|]. rewrite types_of_cons. cbn.
  destruct (last_in_cases t cs) as [ [-> H]|(a & bs & b & -> & H & ->)].
  - rewrite IH. split; [intros H1 H2; apply elem_of_app in H2 as [H2|H2]; done|]. intros H1 H2. apply H1. apply elem_of_app. by right.
  - split; [done|]. intros H1. exfalso. apply H1. rewrite types_app. apply elem_of_app. left. apply elem_of_app. right. left.
Qed.

Lemma appended_types c l l' : appended c l l' -> types_of l' ≡ₚ fst c :: types_of l.
Proof.
  intros [l1 p cs l2|l0 p _].
  - rewrite !types_of_app, !types_of_cons, types_app, types_cons. change (types []) with (@nil Z). solve_Permutation.
  - rewrite types_of_app, types_of_cons, types_cons. change (types []) with (@nil Z). change (types_of []) with (@nil Z). solve_Permutation.
Qed.

Lemma last_in_snoc u cs c : last_in u (cs ++ [c]) = if fst c =? u then Some (snd c) else last_in u cs.
Proof. rewrite last_in_app. destruct c as [t bs]. cbn. by destruct (t =? u). Qed.

Lemma appended_other c l l' u : appended c l l' -> u <> fst c -> value_of u l' = value_of u l.
Proof.
  intros [l1 p cs l2|l0 p _] Hu; rewrite !value_of_app; cbn.
  - rewrite last_in_snoc. by rewrite (proj2 (Z.eqb_neq (fst c) u)) by done.
  - destruct c as [t bs]. cbn in *. rewrite (proj2 (Z.eqb_neq t u)) by done. by destruct (value_of u l0).
Qed.

Lemma appended_value c l l' : appended c l l' -> value_of (fst c) l = None -> value_of (fst c) l' = Some (snd c).
Proof.
  intros [l1 p cs l2|l0 p _]; rewrite !value_of_app; cbn.
  - destruct (value_of (fst c) l1); [done|]. intros _. by rewrite last_in_snoc, Z.eqb_refl.
  - intros ->. destruct c as [t bs]. cbn. by rewrite Z.eqb_refl.
Qed.

(** A clump that is removed. *)
Lemma removed_types l1 q a (c : clump) b l2 : types_of (l1 ++ (q, a ++ c :: b) :: l2) ≡ₚ fst c :: types_of (l1 ++ (q, a ++ b) :: l2).
Proof. rewrite !types_of_app, !types_of_cons, !types_app, types_cons. solve_Permutation. Qed.

Lemma removed_other l1 q a (c : clump) b l2 u : u <> fst c -> value_of u (l1 ++ (q, a ++ b) :: l2) = value_of u (l1 ++ (q, a ++ c :: b) :: l2).
Proof.
  intros Hu. rewrite !value_of_app. cbn. rewrite !last_in_app. destruct c as [t bs]. cbn in *.
  by rewrite (proj2 (Z.eqb_neq t u)) by done; destruct (last_in u b).
Qed.

Lemma removed_gone l1 q a (c : clump) b l2 : unique (l1 ++ (q, a ++ c :: b) :: l2) ->
  unique (l1 ++ (q, a ++ b) :: l2) /\ value_of (fst c) (l1 ++ (q, a ++ b) :: l2) = None.
Proof. unfold unique. rewrite removed_types, NoDup_cons. intros [H1 H2]. split; [done|]. by apply value_none_iff. Qed.

Lemma replaced_values c l l' : unique l -> replaced c l l' ->
  unique l' /\ value_of (fst c) l' = Some (snd c) /\ forall u, u <> fst c -> value_of u l' = value_of u l.
Proof.
  intros Hu R. revert Hu. destruct R as [l0 l0' Hn Ha|l1 q a bs b l2 Hb Hl Hlen|q a bs b l2 l0' Hb Hlen Ha]; intros Hu.
  - assert (E : value_of (fst c) l0 = None) by (by apply value_of_none). split_and!.
    + unfold unique. rewrite (appended_types _ _ _ Ha), NoDup_cons. split; [by apply value_none_iff|assumption].
    + by eapply appended_value.
    + intros u Hne. by eapply appended_other.
  - split_and!.
    + unfold unique in *. rewrite removed_types in *. done.
    + rewrite value_of_app, value_of_none by done. cbn. rewrite last_in_app. destruct c as [t v]. cbn in *.
      by rewrite last_in_none, Z.eqb_refl by done.
    + intros u Hne. rewrite <- (removed_other l1 q a c b l2 u Hne). by rewrite <- (removed_other l1 q a (fst c, bs) b l2 u Hne).
  - pose proof (removed_gone [] q a (fst c, bs) b l2 Hu) as [U E]. cbn [app fst] in U, E. split_and!.
    + unfold unique. rewrite (appended_types _ _ _ Ha), NoDup_cons. split; [by apply value_none_iff|assumption].
    + by eapply appended_value.
    + intros u Hne. rewrite (appended_other _ _ _ _ Ha Hne). by apply (removed_other [] q a (fst c, bs) b l2 u).
Qed.

(** ** Operations on a chain, and on a map *)

Inductive clump_op :=
  | Get (type : Z)
  | Set_value (type : Z) (entry : list Z) (must_write : bool)
  | Delete (type : Z).

Inductive answer := Value (v : option (list Z)) | Done (b : bool).

Definition run_clump (pn : Z) (o : clump_op) (s : database) : outcome (answer * database) :=
  match o with
  | Get t => let* (v, s) := PAG_get_clump pn t s in Ret (Value v, s)
  | Set_value t entry mw => let* (b, s) := PAG_add_clump pn t entry CLUMP_REPLACE mw s in Ret (Done b, s)
  | Delete t => let* (b, s) := PAG_delete_clump_entry pn t s in Ret (Done b, s)
  end.

(** What the operations do to a map. *)
Definition map_step (o : clump_op) (f : Z -> option (list Z)) (a : answer) (f' : Z -> option (list Z)) : Prop :=
  match o with
  | Get t => a = Value (f t) /\ forall u, f' u = f u
  | Set_value t entry _ => a = Done true /\ forall u, f' u = if u =? t then Some entry else f u
  | Delete t => a = Done (match f t with Some _ => true | None => false end) /\ forall u, f' u = if u =? t then None else f u
  end.

(** Sizes have 8 bits, page numbers 32; clumps of other sizes are replaced on the
    first page only. *)
Definition possible (n : Z) (l : list (Z * list clump)) (s : database) (o : clump_op) : Prop :=
  match o with
  | Get _ => True
  | Set_value t entry _ => dbb_read_only s = false /\ good_clump (t, entry) /\ (n + 2) * ppp (allocation s) <= 2147483648 /\ replaceable t entry l
  | Delete _ => dbb_read_only s = false
  end.

(** C16: The clumps on the header page and its continuations (and on the log
    page) are a map from types to values: getting a clump answers what the map
    has; setting one ([CLUMP_REPLACE]) and deleting one change the value of
    this type alone, whether the chain has to grow by a new page or not; and no
    type comes to be there twice.  A clump that is set replaces one of the same
    size, or one on the first page, or none: replacing a clump of another size on
    a continuation page is not covered ([replaceable]), for it damages the first
    page, as [replace_on_next_page_damages] shows. *)
Theorem clumps_refine_map n pn l s o : ok n pn l s -> unique l -> header_used n s -> possible n l s o ->
  exists a s' n' l', run_clump pn o s = Ret (a, s') /\ ok n' pn l' s' /\ unique l' /\ header_used n' s' /\
    map_step o (fun u => value_of u l) a (fun u => value_of u l').
Proof.
  intros O Hu H0 Hp. destruct o as [t|t entry mw|t]; cbn [run_clump possible map_step] in *.
  - destruct (get_clump_spec n pn l t s O) as (calls & ->). cbn [obind]. eexists _, _, n, l. split; [reflexivity|]. split; [by apply ok_asks|]. by split_and!.
  - destruct Hp as (Hro & Hg & Hroom & Hr). destruct (replace_spec n pn l t entry mw s O Hro Hg H0 Hroom Hr) as (s' & n' & l' & -> & O' & H0' & _ & R).
    cbn [obind]. eexists _, _, n', l'. split; [reflexivity|]. destruct (replaced_values _ _ _ Hu R) as (U & V & W). cbn [fst snd] in *. split_and!; try done.
    intros u. destruct (Z.eqb_spec u t) as [->|]; [done|by apply W].
  - destruct (delete_clump_spec n pn l t s O Hp) as [ [E (calls & ->)]|(l1 & q & a & bs & b & l2 & s' & -> & Hb & E & -> & O' & Hk)]; cbn [obind].
    + eexists _, _, n, l. split; [reflexivity|]. rewrite E. split; [by apply ok_asks|]. split_and!; try done. intros u. by destruct (Z.eqb_spec u t) as [->|].
    + destruct (removed_gone _ _ _ _ _ _ Hu) as [U V]. cbn [fst] in V. eexists _, _, n, _. split; [reflexivity|]. rewrite E. split_and!; try done.
      * by apply Hk.
      * intros u. destruct (Z.eqb_spec u t) as [->|Hne]; [done|]. by apply (removed_other l1 q a (t, bs) b l2 u).
Qed.

(** ** One header page *)

Lemma first_of_type_none pre cs rest t fuel : Forall good_clump cs -> t ∉ types cs -> (length cs < fuel)%nat ->
  first_of_type fuel (pre ++ enc cs ++ HDR_end :: rest) t (Z.of_nat (length pre)) = Ret (Z.of_nat (length pre) + Z.of_nat (length (enc cs)), HDR_end).
Proof.
  intros Hg. revert pre fuel. induction Hg as [|c cs [Hu Hl] _ IH]; intros pre fuel Ht Hf; (destruct fuel as [|fuel]; [cbn in Hf; lia|]); cbn [first_of_type].
  - rewrite (byte_at_app pre HDR_end rest) by done. cbn. by rewrite Z.add_0_r.
  - rewrite enc_cons, <- app_assoc, clump_type. cbn [obind]. destruct (Z.eqb_spec (fst c) HDR_end); [unfold HDR_end in *; lia|].
    destruct (Z.eqb_spec (fst c) t) as [<-|]; [exfalso; apply Ht; left|]. cbn [orb]. rewrite clump_length by done. cbn [obind].
    rewrite after_clump, app_assoc, IH; [|intros H; apply Ht; by right|cbn in Hf; lia]. rewrite !length_app. do 2 f_equal. lia.
Qed.

Lemma first_of_type_some pre a t bs b rest fuel : Forall good_clump (a ++ (t, bs) :: b) -> t ∉ types a -> (length a < fuel)%nat ->
  first_of_type fuel (pre ++ enc (a ++ (t, bs) :: b) ++ HDR_end :: rest) t (Z.of_nat (length pre)) = Ret (Z.of_nat (length pre) + Z.of_nat (length (enc a)), t).
Proof.
  revert pre fuel. induction a as [|c a IH]; intros pre fuel Hg Ht Hf; (destruct fuel as [|fuel]; [cbn in Hf; lia|]); cbn [first_of_type app] in *;
    apply Forall_cons in Hg as [ [Hu Hl] Hg]; rewrite enc_cons, <- app_assoc, clump_type; cbn [obind].
  - cbn [fst]. rewrite Z.eqb_refl, orb_true_r. cbn. by rewrite Z.add_0_r.
  - destruct (Z.eqb_spec (fst c) HDR_end) as [E|_]; [unfold HDR_end in E; lia|]. destruct (Z.eqb_spec (fst c) t) as [<-|]; [exfalso; apply Ht; left|].
    cbn [orb]. rewrite clump_length by done. cbn [obind]. rewrite after_clump, app_assoc, IH; [|done|intros H; apply Ht; by right|cbn in Hf; lia].
    rewrite (enc_cons _ a), !length_app. f_lia.
Qed.

Lemma first_in_cases t cs : t ∉ types cs \/ exists a bs b, cs = a ++ (t, bs) :: b /\ t ∉ types a.
Proof.
  induction cs as [|[u bs] cs [H|(a & x & b & -> & H)] ].
  - left. intros H. by apply elem_of_nil in H.
  - destruct (Z.eq_dec u t) as [->|Hne]; [right; exists [], bs, cs; split; [done|intros H'; by apply elem_of_nil in H']|].
    left. intros H'. apply elem_of_cons in H' as [H'|H']; [cbn in H'; congruence|done].
  - destruct (Z.eq_dec u t) as [->|Hne]; [right; exists [], bs, (a ++ (t, x) :: b); split; [done|intros H'; by apply elem_of_nil in H']|].
    right. exists ((u, bs) :: a), x, b. split; [done|]. intros H'. apply elem_of_cons in H' as [H'|H']; [cbn in H'; congruence|done].
Qed.

Section Header.
Context (ps : Z) (header : clump_page) (cs : list clump) (H : holds HDR_SIZE ps header cs) (Hps : 1024 <= ps <= 16384).

Lemma header_walk t : (t ∉ types cs -> first_of_type (S (length (data header))) (data header) t 0 = Ret (Z.of_nat (length (enc cs)), HDR_end)) /\
  forall a bs b, cs = a ++ (t, bs) :: b -> t ∉ types a -> first_of_type (S (length (data header))) (data header) t 0 = Ret (Z.of_nat (length (enc a)), t).
Proof.
  destruct H as [ [rest E] _ _ G]. rewrite E. split.
  - intros Ht. rewrite (first_of_type_none [] cs rest t); [done|done|done|]. rewrite length_app. pose proof (length_clumps cs). lia.
  - intros a bs b -> Ht. rewrite (first_of_type_some [] a t bs b rest); [done|done|done|]. rewrite (length_app (enc _)), enc_app, length_app.
    pose proof (length_clumps a). lia.
Qed.

(** [PAG_add_header_entry] has exactly these outcomes: a read-only database
    is an error; a type that is there leaves the page alone; a clump that does
    not fit is a consistency check; otherwise the page has the clump after those
    it had. *)
Theorem add_header_entry_outcomes read_only t entry : good_clump (t, entry) ->
  let len := Z.of_nat (length entry) in
  match PAG_add_header_entry read_only ps header t len (Some entry) with
  | Throw f => (read_only = true /\ f = Post isc_read_only_database) \/
      (read_only = false /\ (t ∉ types cs) /\ ps <= end_of header + 2 + len /\ f = BUGCHECK 251)
  | Ret (false, header') => read_only = false /\ t ∈ types cs /\ header' = header
  | Ret (true, header') => read_only = false /\ (t ∉ types cs) /\ end_of header + 2 + len < ps /\
      holds HDR_SIZE ps header' (cs ++ [(t, entry)]) /\ next_page header' = next_page header
  end.
Proof.
  intros Hg. cbv zeta. unfold PAG_add_header_entry. destruct read_only; [by left|]. destruct (header_walk t) as [W1 W2].
  destruct (first_in_cases t cs) as [Ht|(a & bs & b & Ecs & Ha)].
  - rewrite (W1 Ht). cbn [obind]. rewrite Z.eqb_refl. cbn [negb]. destruct (Z.ltb_spec (2 + Z.of_nat (length entry)) (ps - end_of header)) as [Hfit|Hfit].
    + replace (bytes_at entry 0 (Z.of_nat (length entry))) with (Ret entry).
      2: { symmetry. rewrite <- (app_nil_r entry) at 1. by apply (bytes_at_app [] entry []). }
      cbn [obind]. destruct (put_clump_spec HDR_SIZE ps header cs t entry H Hg ltac:(unfold HDR_SIZE; lia) ltac:(lia) Hfit) as (h' & E & Hh & Hn).
      unfold put_clump in E. rewrite (h_end _ _ _ _ H) in E. replace (HDR_SIZE + Z.of_nat (length (enc cs)) - HDR_SIZE) with (Z.of_nat (length (enc cs))) in E by lia.
      destruct (put_at _ _ _) as [d|]; [|discriminate E]. cbn [obind] in E |- *. injection E as <-. split_and!; (done || lia).
    + right. split_and!; (done || lia).
  - rewrite (W2 _ _ _ Ecs Ha). cbn [obind]. pose proof (h_good _ _ _ _ H) as G. rewrite Ecs in G. apply Forall_app in G as [_ G].
    apply Forall_cons in G as [ [G _] _]. cbn [fst] in G. destruct (Z.eqb_spec t HDR_end); [unfold HDR_end in *; lia|]. cbn [negb].
    split_and!; [done| |done]. rewrite Ecs, types_app. apply elem_of_app. right. left.
Qed.

End Header.

Lemma in_the_middle {A} (a : list A) c b : c ∈ a ++ c :: b.
Proof. apply elem_of_app. right. left. Qed.

(** ** The first entry *)

(** The first clump of the type removed. *)
Definition without (t : Z) (cs cs' : list clump) : Prop :=
  ((t ∉ types cs) /\ cs' = cs) \/ exists a bs b, cs = a ++ (t, bs) :: b /\ (t ∉ types a) /\ cs' = a ++ b.

Section First.
Context (ps : Z) (Hps : 1024 <= ps <= 16384) (t : Z).

Lemma remove_first_spec header cs : holds HDR_SIZE ps header cs -> (forall bs, (t, bs) ∈ cs -> Z.of_nat (length bs) < 254) ->
  exists header' cs', remove_first t header = Ret header' /\ without t cs cs' /\ holds HDR_SIZE ps header' cs' /\ next_page header' = next_page header.
Proof.
  intros H Hs. unfold remove_first. destruct (header_walk ps header cs H t) as [W1 W2]. destruct (first_in_cases t cs) as [Ht|(a & bs & b & Ecs & Ha)].
  - rewrite (W1 Ht). cbn [obind]. rewrite Z.eqb_refl. exists header, cs. split_and!; try done. by left.
  - rewrite (W2 _ _ _ Ecs Ha). cbn [obind]. rewrite Ecs in *. pose proof (h_good _ _ _ _ H) as G. apply Forall_app in G as [_ G].
    apply Forall_cons in G as [ [G _] _]. cbn [fst] in G. destruct (Z.eqb_spec t HDR_end); [unfold HDR_end in *; lia|].
    specialize (Hs bs (in_the_middle a (t, bs) b)). pose proof (close_gap_spec HDR_SIZE ps header a (t, bs) b H ltac:(unfold HDR_SIZE; lia) ltac:(lia)) as C.
    destruct C as (d & C & rest & Ed & El). unfold close_gap in C. rewrite (entry_length _ _ _ _ _ _ H) in *. cbn [obind snd] in *.
    rewrite UCHAR_small by (unfold is_uchar; lia). rewrite (h_end _ _ _ _ H).
    assert (R : USHORT (Z.of_nat (length (enc (a ++ (t, bs) :: b))) - (Z.of_nat (length (enc a)) + 2 + Z.of_nat (length bs)) + 1)
      = HDR_SIZE + Z.of_nat (length (enc (a ++ (t, bs) :: b))) - (HDR_SIZE + Z.of_nat (length (enc a))) - (Z.of_nat (length bs) + 2) + 1).
    { destruct H as [ [r E] _ S _]. rewrite E, length_app in S. rewrite enc_app, enc_cons, !length_app, length_enc_clump in *. cbn [snd length] in *.
      unfold HDR_SIZE in *. rewrite USHORT_small; lia. }
    rewrite R in C. replace (Z.of_nat (length (enc a)) + 2 + Z.of_nat (length bs)) with (Z.of_nat (length (enc a)) + (Z.of_nat (length bs) + 2)) in C by lia.
    destruct (bytes_at _ _ _) as [x|]; [|discriminate C]. cbn [obind] in *. destruct (put_at _ _ _) as [y|]; [|discriminate C]. cbn [obind] in *. injection C as ->.
    rewrite <- (h_end _ _ _ _ H). replace (Z.of_nat (length bs) + 2) with (2 + Z.of_nat (length (snd (t, bs)))) by (cbn; lia).
    eexists _, (a ++ b). split; [reflexivity|]. split; [right; by exists a, bs, b|]. split; [|done].
    by apply (holds_close HDR_SIZE ps header a (t, bs) b d rest H ltac:(unfold HDR_SIZE; lia) ltac:(lia)).
Qed.

Lemma put_first header cs entry : holds HDR_SIZE ps header cs -> good_clump (t, entry) -> 2 + Z.of_nat (length entry) < ps - end_of header ->
  exists d1 d2, bytes_at (data header) 0 (end_of header - HDR_SIZE + 1) = Ret (enc cs ++ [HDR_end]) /\
    put_at (data header) (Z.of_nat (length entry) + 2) (enc cs ++ [HDR_end]) = Ret d1 /\
    put_at d1 0 (UCHAR t :: UCHAR (Z.of_nat (length entry)) :: entry) = Ret d2 /\
    holds HDR_SIZE ps (with_data (USHORT (end_of header + (Z.of_nat (length entry) + 2))) d2 header) ((t, entry) :: cs).
Proof.
  intros [ [rest E] He S G] [Gt Gl] Hfit. cbn [fst snd] in *. rewrite !UCHAR_small by (unfold is_uchar; lia).
  assert (B : bytes_at (data header) 0 (end_of header - HDR_SIZE + 1) = Ret (enc cs ++ [HDR_end])).
  { rewrite E. replace (enc cs ++ HDR_end :: rest) with ([] ++ (enc cs ++ [HDR_end]) ++ rest) by (by rewrite <-app_assoc).
    apply bytes_at_app; [done|]. rewrite length_app, He. cbn. lia. }
  set (L := (length entry + 2)%nat). assert (HL : (L + length (enc cs) + 1 <= length (data header))%nat) by (unfold HDR_SIZE, L in *; lia).
  assert (P1 : put_at (data header) (Z.of_nat (length entry) + 2) (enc cs ++ [HDR_end])
    = Ret (take L (data header) ++ (enc cs ++ [HDR_end]) ++ drop (length (enc cs ++ [HDR_end])) (drop L (data header)))).
  { rewrite <- (take_drop L (data header)) at 1. apply put_at_app; [rewrite length_take; lia|]. rewrite length_app, length_drop. cbn. lia. }
  assert (P2 : forall tail, put_at (take L (data header) ++ tail) 0 (t :: Z.of_nat (length entry) :: entry) = Ret ((t :: Z.of_nat (length entry) :: entry) ++ tail)).
  { intros tail. pose proof (put_at_app [] (take L (data header) ++ tail) (t :: Z.of_nat (length entry) :: entry) 0 eq_refl) as P.
    cbn [app] in P. rewrite P; [|rewrite length_app, length_take; cbn; lia]. do 2 f_equal.
    rewrite drop_app_length'; [done|]. rewrite length_take. cbn. lia. }
  eexists _, _. split; [exact B|]. split; [exact P1|]. split; [apply P2|]. split; cbn [data end_of with_data].
  - eexists. rewrite enc_cons. unfold enc_clump. cbn [fst snd app]. do 2 f_equal. rewrite <- !app_assoc. reflexivity.
  - rewrite enc_cons, length_app, length_enc_clump. cbn [snd]. rewrite He in *. unfold HDR_SIZE in *. rewrite USHORT_small; lia.
  - rewrite <- S, !length_app, !length_drop, ?length_app. cbn [length]. lia.
  - constructor; [by split|done].
Qed.

End First.

(** [PAG_replace_entry_first] has exactly these outcomes, for clumps of less
    than 254 bytes: the type is removed where it is, and the entry, if there is
    one and if it fits, becomes the first clump. *)
Theorem replace_entry_first_outcomes ps header cs read_only t entry :
  holds HDR_SIZE ps header cs -> 1024 <= ps <= 16384 -> (forall bs, (t, bs) ∈ cs -> Z.of_nat (length bs) < 254) ->
  (forall bs, entry = Some bs -> good_clump (t, bs)) ->
  match PAG_replace_entry_first read_only ps header t entry with
  | Throw f => (read_only = true /\ f = Post isc_read_only_database) \/
      (exists bs cs', read_only = false /\ entry = Some bs /\ without t cs cs' /\ f = BUGCHECK 251 /\
         ps <= HDR_SIZE + Z.of_nat (length (enc cs')) + 2 + Z.of_nat (length bs))
  | Ret (b, header') => read_only = false /\ next_page header' = next_page header /\ exists cs', without t cs cs' /\
      match entry with
      | None => b = false /\ holds HDR_SIZE ps header' cs'
      | Some bs => b = true /\ holds HDR_SIZE ps header' ((t, bs) :: cs')
      end
  end.
Proof.
  intros H Hps Hs Hg. unfold PAG_replace_entry_first. destruct read_only; [by left|].
  destruct (remove_first_spec ps Hps t header cs H Hs) as (h & cs' & E & Hw & Hh & Hn). rewrite E. cbn [obind].
  destruct entry as [bs|]; [|split_and!; try done; by exists cs'].
  destruct (Z.leb_spec (ps - end_of h) (Z.of_nat (length bs) + 2)) as [Hl|Hl].
  - right. exists bs, cs'. split_and!; try done. rewrite (h_end _ _ _ _ Hh) in Hl. lia.
  - destruct (put_first ps Hps t h cs' bs Hh (Hg bs eq_refl) ltac:(lia)) as (d1 & d2 & B & P1 & P2 & Hf).
    rewrite B. cbn [obind]. rewrite P1. cbn [obind]. rewrite P2. cbn [obind]. split_and!; try done. by exists cs'.
Qed.

(** ** What goes wrong *)

(** The header page of a new database of pages of 1024 bytes. *)
Definition new_database : database := mk_database (Pag.create 1024) {[ Pag.HEADER_PAGE := blank_header 1024 ]} 1024 false.

Fixpoint run_all (pn : Z) (ops : list clump_op) (s : database) : outcome database :=
  match ops with
  | [] => Ret s
  | o :: ops => let* (_, s) := run_clump pn o s in run_all pn ops s
  end.

Definition answer_of (o : clump_op) (s : database) : outcome answer := let* (a, _) := run_clump Pag.HEADER_PAGE o s in Ret a.

Definition after_all (ops : list clump_op) : database :=
  match run_all Pag.HEADER_PAGE ops new_database with Ret s => s | Throw _ => new_database end.

(** Three long clumps fill the header page, so that a fourth is on the next. *)
Definition long_clump (t : Z) (n : nat) : clump_op := Set_value t (replicate n t) true.
Definition two_pages : database := after_all [long_clump 1 255; long_clump 2 255; long_clump 3 255; long_clump 4 200].

(** Replacing a clump on a continuation page by one of another size loses it,
    and writes over another clump on the header page: it is the end of the
    header page that is moved. *)
Theorem replace_on_next_page_damages :
  answer_of (Get 3) two_pages = Ret (Value (Some (replicate 255 3))) /\
  answer_of (Get 4) two_pages = Ret (Value (Some (replicate 200 4))) /\
  exists s, run_clump Pag.HEADER_PAGE (long_clump 4 100) two_pages = Ret (Done true, s) /\
    answer_of (Get 4) s = Ret (Value None) /\ answer_of (Get 3) s <> Ret (Value (Some (replicate 255 3))).
Proof.
  split; [vm_compute; reflexivity|]. split; [vm_compute; reflexivity|]. eexists. split; [vm_compute; reflexivity|].
  split; [vm_compute; reflexivity|]. vm_compute. discriminate.
Qed.

(** Replacing an entry of 254 bytes moves the page by 256 bytes less than it
    should, as the length has 8 bits: the old entry stays. *)
Theorem replace_entry_of_254_stays :
  exists h h', PAG_add_header_entry false 1024 (blank_header 1024) 12 254 (Some (replicate 254 7)) = Ret (true, h) /\
    PAG_replace_entry_first false 1024 h 12 None = Ret (false, h') /\ h' = h.
Proof. eexists _, _. split; [vm_compute; reflexivity|]. split; vm_compute; reflexivity. Qed.

(** ** Concrete inputs *)

Lemma blank_holds : holds HDR_SIZE 1024 (blank_header 1024) [].
Proof. apply holds_blank; unfold HDR_SIZE; lia. Qed.

Lemma new_database_ok : ok 0 Pag.HEADER_PAGE [(Pag.HEADER_PAGE, [])] new_database.
Proof.
  split.
  - apply PagClient.wf_create; lia.
  - apply (chain_last _ _ _ _ (blank_header 1024)); [done|exact blank_holds|done].
  - apply NoDup_singleton.
  - intros p Hp. apply list_elem_of_singleton in Hp. subst p. split; [vm_compute; reflexivity|]. split; [|reflexivity].
    change (used 0 (Pag.create 1024) 0). split; [rewrite PagClient.per_page_1024; lia|]. vm_compute. reflexivity.
  - cbn. lia.
Qed.

Example clumps_refine_map_witness : exists a s' n' l', run_clump Pag.HEADER_PAGE (Set_value HDR_sweep_interval (le_bytes 4 20000) true) new_database = Ret (a, s') /\
  ok n' Pag.HEADER_PAGE l' s' /\ unique l' /\ header_used n' s' /\
  map_step (Set_value HDR_sweep_interval (le_bytes 4 20000) true) (fun _ => None) a (fun u => value_of u l').
Proof.
  apply (clumps_refine_map 0 Pag.HEADER_PAGE [(Pag.HEADER_PAGE, [])] new_database); [apply new_database_ok|apply NoDup_nil; done| |].
  - apply new_database_ok. left.
  - split; [done|]. split; [unfold good_clump, HDR_sweep_interval; cbn; lia|]. split; [change (ppp (allocation new_database)) with 8032; lia|]. intros bs H. discriminate H.
Defined.

Example add_header_entry_outcomes_witness :
  match PAG_add_header_entry false 1024 (blank_header 1024) 3 3 (Some [97; 46; 98]) with
  | Ret (true, h) => holds HDR_SIZE 1024 h [(3, [97; 46; 98])]
  | _ => False
  end.
Proof.
  pose proof (add_header_entry_outcomes 1024 (blank_header 1024) [] blank_holds ltac:(lia) false 3 [97; 46; 98] ltac:(split; cbn; lia)) as H.
  cbv zeta in H. change (Z.of_nat (length [97; 46; 98])) with 3 in H.
  destruct (PAG_add_header_entry false 1024 (blank_header 1024) 3 3 (Some [97; 46; 98])) as [ [ [|] h]|f] eqn:E; [apply H| |]; vm_compute in E; discriminate E.
Defined.

Example replace_entry_first_outcomes_witness :
  match PAG_replace_entry_first false 1024 (blank_header 1024) 13 (Some [1; 2; 3]) with
  | Ret (true, h) => exists cs', without 13 [] cs' /\ holds HDR_SIZE 1024 h ((13, [1; 2; 3]) :: cs')
  | _ => False
  end.
Proof.
  pose proof (replace_entry_first_outcomes 1024 (blank_header 1024) [] false 13 (Some [1; 2; 3]) blank_holds ltac:(lia)) as H.
  destruct (PAG_replace_entry_first false 1024 (blank_header 1024) 13 (Some [1; 2; 3])) as [ [ [|] h]|f] eqn:E; [| |]; [|vm_compute in E; discriminate E..].
  destruct H as (_ & _ & cs' & Hw & _ & Hh); [intros bs Hb; by apply elem_of_nil in Hb|intros bs [= <-]; split; cbn; lia|].
  by exists cs'.
Defined.

End ClumpClient.
