(* ===== verification/Header.v ===== *)
(** * The header page ([jrd/pag.cpp], [jrd/ods.h], [jrd/Database.h])

    Formatting the header page of a new database, checking that of a database
    that is opened, and the settings kept in its flags and in those of the
    database in memory. *)

From S2P Require Import Prelude.
From S2P Require Import Pag.
#[local] Open Scope Z_scope.

Module Header.

(** ** Constants *)

Definition MIN_PAGE_SIZE : Z := 1024.
Definition MAX_PAGE_SIZE : Z := 16384.

Definition ODS_VERSION : Z := Pag.ODS_VERSION11.
Definition ODS_CURRENT : Z := 0.
Definition ODS_FIREBIRD_FLAG : Z := 32768.

Definition ENCODE_ODS (major minor : Z) : Z := USHORT (Z.lor (Z.shiftl major 4) minor).
Definition DECODE_ODS_MAJOR (ods_version : Z) : Z := USHORT (Z.shiftr (Z.land ods_version 32752) 4).
Definition DECODE_ODS_MINOR (ods_version : Z) : Z := USHORT (Z.land ods_version 15).
Definition DECODE_FIREBIRD_FLAG (ods_version : Z) : Z := USHORT (Z.shiftr (Z.land ods_version ODS_FIREBIRD_FLAG) 15).
Definition ODS_10_0 : Z := ENCODE_ODS Pag.ODS_VERSION10 0.

Definition hdr_force_write : Z := 2.
Definition hdr_no_reserve : Z := 32.
Definition hdr_shutdown : Z := 128.
Definition hdr_SQL_dialect_3 : Z := 256.
Definition hdr_read_only : Z := 512.

Definition DBB_force_write : Z := 128.
Definition DBB_no_reserve : Z := 256.
Definition DBB_DB_SQL_dialect_3 : Z := 4096.
Definition DBB_read_only : Z := 8192.
Definition DBB_being_opened_read_only : Z := 16384.
Definition DBB_shutdown : Z := 8.

Definition SQL_DIALECT_V5 : Z := 1.
Definition SQL_DIALECT_V6 : Z := 3.

Definition isc_bad_db_format : Z := 335544323.
Definition isc_no_priv : Z := 335544352.
Definition isc_wrong_ods : Z := 335544379.
Definition isc_read_only_database : Z := 335544765.
Definition isc_inv_dialect_specified : Z := 335544805.

(** ** Platforms *)

Definition CLASS_MAX10 : Z := 24.
Definition CLASS_MAX : Z := 24.

Inductive ArchitectureType := archUnknown | archIntel86 | archLittleEndian | archBigEndian.

#[global] Instance ArchitectureType_eq_dec : EqDecision ArchitectureType.
Proof. solve_decision. Defined.

Definition archMatrix10 : list ArchitectureType :=
  [archUnknown; archUnknown; archUnknown; archIntel86; archUnknown; archUnknown; archUnknown; archUnknown; archUnknown; archUnknown;
   archUnknown; archUnknown; archUnknown; archUnknown; archUnknown; archUnknown; archIntel86; archUnknown; archUnknown; archIntel86;
   archUnknown; archIntel86; archIntel86; archUnknown; archUnknown].

Definition archMatrix : list ArchitectureType :=
  [archUnknown; archUnknown; archBigEndian; archLittleEndian; archUnknown; archUnknown; archUnknown; archBigEndian; archUnknown; archUnknown;
   archBigEndian; archUnknown; archUnknown; archBigEndian; archUnknown; archBigEndian; archLittleEndian; archUnknown; archUnknown; archLittleEndian;
   archBigEndian; archLittleEndian; archLittleEndian; archBigEndian; archLittleEndian].

Definition arch (m : list ArchitectureType) (c : Z) : ArchitectureType := nth (Z.to_nat c) m archUnknown.

(** What the code is compiled for. *)
Class Platform := { CLASS : Z; SYNC_WRITE_DEFAULT : bool }.

(** ** The header page and the database *)

Record header_page := mk_header {
  pag_type : Z;
  hdr_page_size : Z;
  hdr_ods_version : Z;
  hdr_PAGES : Z;
  hdr_oldest_transaction : Z;
  hdr_oldest_active : Z;
  hdr_next_transaction : Z;
  hdr_sequence : Z;
  hdr_flags : Z;
  hdr_attachment_id : Z;
  hdr_implementation : Z;
  hdr_ods_minor : Z;
  hdr_ods_minor_original : Z;
  hdr_page_buffers : Z;
  hdr_bumped_transaction : Z;
  hdr_oldest_snapshot : Z
}.

(** [rel_pages] are the pages of the relation of pages; [files] says of each
    file of the database whether writes to it are forced. *)
Record Database := mk_dbb {
  dbb_page_size : Z;
  dbb_ods_version : Z;
  dbb_minor_version : Z;
  dbb_minor_original : Z;
  dbb_flags : Z;
  dbb_ast_flags : Z;
  dbb_page_buffers : Z;
  dbb_next_transaction : Z;
  dbb_oldest_transaction : Z;
  dbb_oldest_active : Z;
  dbb_oldest_snapshot : Z;
  dbb_attachment_id : Z;
  rel_pages : list Z;
  files : list bool
}.

Definition with_flags (f : Z) (d : Database) : Database :=
  mk_dbb (dbb_page_size d) (dbb_ods_version d) (dbb_minor_version d) (dbb_minor_original d) f (dbb_ast_flags d) (dbb_page_buffers d)
    (dbb_next_transaction d) (dbb_oldest_transaction d) (dbb_oldest_active d) (dbb_oldest_snapshot d) (dbb_attachment_id d) (rel_pages d) (files d).

Definition with_files (l : list bool) (d : Database) : Database :=
  mk_dbb (dbb_page_size d) (dbb_ods_version d) (dbb_minor_version d) (dbb_minor_original d) (dbb_flags d) (dbb_ast_flags d) (dbb_page_buffers d)
    (dbb_next_transaction d) (dbb_oldest_transaction d) (dbb_oldest_active d) (dbb_oldest_snapshot d) (dbb_attachment_id d) (rel_pages d) l.

Definition with_versions (major minor original : Z) (d : Database) : Database :=
  mk_dbb (dbb_page_size d) major minor original (dbb_flags d) (dbb_ast_flags d) (dbb_page_buffers d)
    (dbb_next_transaction d) (dbb_oldest_transaction d) (dbb_oldest_active d) (dbb_oldest_snapshot d) (dbb_attachment_id d) (rel_pages d) (files d).

Definition with_attachment (n : Z) (d : Database) : Database :=
  mk_dbb (dbb_page_size d) (dbb_ods_version d) (dbb_minor_version d) (dbb_minor_original d) (dbb_flags d) (dbb_ast_flags d) (dbb_page_buffers d)
    (dbb_next_transaction d) (dbb_oldest_transaction d) (dbb_oldest_active d) (dbb_oldest_snapshot d) n (rel_pages d) (files d).

Definition with_hdr_flags (f : Z) (h : header_page) : header_page :=
  mk_header (pag_type h) (hdr_page_size h) (hdr_ods_version h) (hdr_PAGES h) (hdr_oldest_transaction h) (hdr_oldest_active h) (hdr_next_transaction h)
    (hdr_sequence h) f (hdr_attachment_id h) (hdr_implementation h) (hdr_ods_minor h) (hdr_ods_minor_original h) (hdr_page_buffers h)
    (hdr_bumped_transaction h) (hdr_oldest_snapshot h).

Definition with_hdr_attachment (n : Z) (h : header_page) : header_page :=
  mk_header (pag_type h) (hdr_page_size h) (hdr_ods_version h) (hdr_PAGES h) (hdr_oldest_transaction h) (hdr_oldest_active h) (hdr_next_transaction h)
    (hdr_sequence h) (hdr_flags h) n (hdr_implementation h) (hdr_ods_minor h) (hdr_ods_minor_original h) (hdr_page_buffers h)
    (hdr_bumped_transaction h) (hdr_oldest_snapshot h).

Definition with_hdr_buffers (n : Z) (h : header_page) : header_page :=
  mk_header (pag_type h) (hdr_page_size h) (hdr_ods_version h) (hdr_PAGES h) (hdr_oldest_transaction h) (hdr_oldest_active h) (hdr_next_transaction h)
    (hdr_sequence h) (hdr_flags h) (hdr_attachment_id h) (hdr_implementation h) (hdr_ods_minor h) (hdr_ods_minor_original h) n
    (hdr_bumped_transaction h) (hdr_oldest_snapshot h).

(** [flags |= bit] and [flags &= ~bit]. *)
Definition set_bit (bit flags : Z) : Z := Z.lor flags bit.
Definition clear_bit (bit flags : Z) : Z := Z.land flags (Z.lnot bit).
Definition put_bit (on : bool) (bit flags : Z) : Z := if on then set_bit bit flags else clear_bit bit flags.

(** ** Formatting and opening *)

Section Header.
Context `{P : Platform}.

(** The header page of a new file; the rest of a faked page is zero. *)
Definition PAG_format_header (d : Database) : header_page * Database :=
  let flags := if SYNC_WRITE_DEFAULT then set_bit hdr_force_write 0 else 0 in
  let flags := if flag_set (dbb_flags d) DBB_DB_SQL_dialect_3 then set_bit hdr_SQL_dialect_3 flags else flags in
  let h := mk_header Pag.pag_header (dbb_page_size d) (Z.lor ODS_VERSION ODS_FIREBIRD_FLAG) 0 1 0 0 0 flags 0 CLASS ODS_CURRENT ODS_CURRENT 0 1 0 in
  (h, with_versions (clear_bit ODS_FIREBIRD_FLAG (hdr_ods_version h)) (hdr_ods_minor h) (hdr_ods_minor_original h) d).

(** The version, as it is or encoded with the minor version. *)
Definition decode_version (h : header_page) : Z * Z :=
  let majorVersion := clear_bit ODS_FIREBIRD_FLAG (hdr_ods_version h) in
  if Z.shiftl 10 4 <? majorVersion then (DECODE_ODS_MAJOR (hdr_ods_version h), DECODE_ODS_MINOR (hdr_ods_version h))
  else (majorVersion, hdr_ods_minor h).

(** [a && b ? c : d] is [(a && b) ? c : d]. *)
Definition wrong_platform (h : header_page) : bool :=
  let impl := hdr_implementation h in
  if negb (impl =? CLASS) && (DECODE_ODS_MAJOR (hdr_ods_version h) <? Pag.ODS_VERSION11) then
    (impl <? 0) || (CLASS_MAX10 <? impl) || bool_decide (arch archMatrix10 impl = archUnknown)
      || bool_decide (arch archMatrix10 impl <> arch archMatrix10 CLASS)
  else
    (impl <? 0) || (CLASS_MAX <? impl) || bool_decide (arch archMatrix impl = archUnknown)
      || bool_decide (arch archMatrix impl <> arch archMatrix CLASS).

(** What is taken over from the header page. *)
Definition take_over (major minor : Z) (h : header_page) (d : Database) : Database :=
  mk_dbb (hdr_page_size h) major minor (hdr_ods_minor_original h)
    (if flag_set (hdr_flags h) hdr_SQL_dialect_3 then set_bit DBB_DB_SQL_dialect_3 (dbb_flags d) else dbb_flags d)
    (dbb_ast_flags d) (hdr_page_buffers h) (hdr_next_transaction h) (hdr_oldest_transaction h) (hdr_oldest_active h) (hdr_oldest_snapshot h)
    (hdr_attachment_id h) (match rel_pages d with [] => [hdr_PAGES h] | l => l end) (files d).

Definition force_first (l : list bool) : list bool := match l with [] => [] | _ :: l => true :: l end.

Definition PAG_header (h : header_page) (d : Database) : outcome Database :=
  if negb (pag_type h =? Pag.pag_header) || negb (hdr_sequence h =? 0) then Throw (Post isc_bad_db_format)
  else
    let (majorVersion, minorVersion) := decode_version h in
    if negb (majorVersion =? ODS_VERSION) || (ODS_CURRENT <? minorVersion) || (DECODE_FIREBIRD_FLAG (hdr_ods_version h) =? 0)
    then Throw (Post isc_wrong_ods)
    else if wrong_platform h then Throw (Post isc_bad_db_format)
    else if (hdr_page_size h <? MIN_PAGE_SIZE) || (MAX_PAGE_SIZE <? hdr_page_size h) then Throw (Post isc_bad_db_format)
    else if negb (hdr_next_transaction h =? 0) && (hdr_next_transaction h <? hdr_oldest_active h) then Throw (BUGCHECK 266)
    else if negb (hdr_next_transaction h =? 0) && (hdr_next_transaction h <? hdr_oldest_transaction h) then Throw (BUGCHECK 267)
    else
      let d := take_over majorVersion minorVersion h d in
      let read_only := flag_set (hdr_flags h) hdr_read_only in
      let d := if read_only then with_flags (set_bit DBB_read_only (clear_bit DBB_being_opened_read_only (dbb_flags d))) d else d in
      if negb read_only && flag_set (dbb_flags d) DBB_being_opened_read_only then Throw (Post isc_no_priv)
      else
        let d :=
          if flag_set (hdr_flags h) hdr_force_write then
            let d := with_flags (set_bit DBB_force_write (dbb_flags d)) d in
            if read_only then d else with_files (force_first (files d)) d
          else d in
        let d := if flag_set (hdr_flags h) hdr_no_reserve then with_flags (set_bit DBB_no_reserve (dbb_flags d)) d else d in
        Ret (if flag_set (hdr_flags h) hdr_shutdown
             then mk_dbb (dbb_page_size d) (dbb_ods_version d) (dbb_minor_version d) (dbb_minor_original d) (dbb_flags d)
                    (set_bit DBB_shutdown (dbb_ast_flags d)) (dbb_page_buffers d) (dbb_next_transaction d) (dbb_oldest_transaction d)
                    (dbb_oldest_active d) (dbb_oldest_snapshot d) (dbb_attachment_id d) (rel_pages d) (files d)
             else d).

(** ** Settings *)

Definition read_only (d : Database) : bool := flag_set (dbb_flags d) DBB_read_only.

(** The value 2 stands for the default. *)
Definition PAG_set_force_write (flag : Z) (h : header_page) (d : Database) : outcome (header_page * Database) :=
  if read_only d then Throw (Post isc_read_only_database)
  else
    let flag := if flag =? 2 then (if SYNC_WRITE_DEFAULT then 1 else 0) else flag in
    let on := negb (flag =? 0) in
    Ret (with_hdr_flags (put_bit on hdr_force_write (hdr_flags h)) h,
         with_files (map (fun _ => on) (files d)) (with_flags (put_bit on DBB_force_write (dbb_flags d)) d)).

Definition PAG_set_no_reserve (flag : Z) (h : header_page) (d : Database) : outcome (header_page * Database) :=
  if read_only d then Throw (Post isc_read_only_database)
  else
    let on := negb (flag =? 0) in
    Ret (with_hdr_flags (put_bit on hdr_no_reserve (hdr_flags h)) h, with_flags (put_bit on DBB_no_reserve (dbb_flags d)) d).

Definition PAG_set_db_readonly (flag : Z) (h : header_page) (d : Database) : header_page * Database :=
  let on := negb (flag =? 0) in
  (with_hdr_flags (put_bit on hdr_read_only (hdr_flags h)) h, with_flags (put_bit on DBB_read_only (dbb_flags d)) d).

(** The warning is whether a dialect was reset. *)
Definition PAG_set_db_SQL_dialect (flag : Z) (h : header_page) (d : Database) : outcome (bool * header_page * Database) :=
  let major_version := USHORT (SSHORT (dbb_ods_version d)) in
  let minor_original := USHORT (SSHORT (dbb_minor_original d)) in
  if negb (flag =? 0) && (ODS_10_0 <=? ENCODE_ODS major_version minor_original) then
    if flag =? SQL_DIALECT_V5 then
      let warning := flag_set (dbb_flags d) DBB_DB_SQL_dialect_3 || flag_set (hdr_flags h) hdr_SQL_dialect_3 in
      Ret (warning, with_hdr_flags (clear_bit hdr_SQL_dialect_3 (hdr_flags h)) h, with_flags (clear_bit DBB_DB_SQL_dialect_3 (dbb_flags d)) d)
    else if flag =? SQL_DIALECT_V6 then
      Ret (false, with_hdr_flags (set_bit hdr_SQL_dialect_3 (hdr_flags h)) h, with_flags (set_bit DBB_DB_SQL_dialect_3 (dbb_flags d)) d)
    else Throw (Post isc_inv_dialect_specified)
  else Ret (false, h, d).

Definition PAG_set_page_buffers (buffers : Z) (h : header_page) (d : Database) : outcome header_page :=
  if read_only d then Throw (Post isc_read_only_database) else Ret (with_hdr_buffers (ULONG buffers) h).

(** The attachment's id, if it has one, or the next; in a read-only database the
    ids are counted in memory. *)
Definition PAG_attachment_id (id : option Z) (h : header_page) (d : Database) : Z * header_page * Database :=
  match id with
  | Some id => (id, h, d)
  | None =>
      if read_only d then
        let n := SLONG (dbb_attachment_id d + 1) in (n, h, with_attachment n d)
      else
        let n := SLONG (hdr_attachment_id h + 1) in (n, with_hdr_attachment n h, d)
  end.

End Header.
End Header.
