(* ===== verification/HeaderClient.v ===== *)
(** * Promises of the header page

    Which databases are opened and which errors are posted otherwise; that a
    new database can be opened, and has its settings then; which platforms are
    kept from each other's databases. *)

From S2P Require Import Prelude.
From S2P Require Import Pag.
From S2P Require Import Header.
#[local] Open Scope Z_scope.

Module HeaderClient.
Import Header.

(** ** Flags *)

Definition power (bit : Z) : Prop := exists i, 0 <= i /\ bit = 2 ^ i.

Lemma flag_set_bit i flags : 0 <= i -> flag_set flags (2 ^ i) = Z.testbit flags i.
Proof.
  intros Hi. unfold flag_set. destruct (Z.testbit flags i) eqn:E.
  - apply negb_true_iff, Z.eqb_neq. intros H. apply (f_equal (fun z => Z.testbit z i)) in H.
    by rewrite Z.land_spec, E, Z.pow2_bits_true, Z.bits_0 in H by done.
  - apply negb_false_iff, Z.eqb_eq, Z.bits_inj'. intros j Hj. rewrite Z.land_spec, Z.bits_0, Z.pow2_bits_eqb by done.
    destruct (Z.eqb_spec i j) as [<-|]; [by rewrite E|apply andb_false_r].
Qed.

Lemma put_bit_spec on i j flags : 0 <= i -> 0 <= j ->
  flag_set (put_bit on (2 ^ i) flags) (2 ^ j) = if j =? i then on else flag_set flags (2 ^ j).
Proof.
  intros Hi Hj. rewrite !flag_set_bit by done. destruct on; cbn; unfold set_bit, clear_bit.
  - rewrite Z.lor_spec, Z.pow2_bits_eqb by done. rewrite Z.eqb_sym. destruct (j =? i); [apply orb_true_r|apply orb_false_r].
  - rewrite Z.land_spec, Z.lnot_spec, Z.pow2_bits_eqb by done. rewrite Z.eqb_sym. destruct (j =? i); [apply andb_false_r|apply andb_true_r].
Qed.

(** The bits of the settings. *)
Lemma setting_bits : DBB_force_write = 2 ^ 7 /\ DBB_no_reserve = 2 ^ 8 /\ DBB_DB_SQL_dialect_3 = 2 ^ 12 /\ DBB_read_only = 2 ^ 13 /\
  DBB_being_opened_read_only = 2 ^ 14 /\ hdr_force_write = 2 ^ 1 /\ hdr_no_reserve = 2 ^ 5 /\ hdr_SQL_dialect_3 = 2 ^ 8 /\ hdr_read_only = 2 ^ 9.
Proof. by split_and!. Qed.

Section Header.
Context `{P : Platform}.

(** ** Opening *)

(** The version of this engine, as it is formatted or encoded with the minor
    version. *)
Definition right_version (h : header_page) : Prop :=
  (hdr_ods_version h = 32779 /\ hdr_ods_minor h <= 0) \/ hdr_ods_version h = 32944.

Lemma clear_top v : 0 <= v < 65536 -> clear_bit ODS_FIREBIRD_FLAG v = v mod 2 ^ 15.
Proof.
  intros Hv. unfold clear_bit, ODS_FIREBIRD_FLAG. rewrite <- (Z.mod_small v (2 ^ 16)) at 1 by lia.
  apply Z.bits_inj'. intros j Hj. change 32768 with (2 ^ 15). rewrite Z.land_spec, Z.lnot_spec, Z.pow2_bits_eqb by done.
  destruct (Z.ltb_spec j 15).
  - rewrite !Z.mod_pow2_bits_low by lia. destruct (Z.eqb_spec 15 j); [lia|apply andb_true_r].
  - rewrite (Z.mod_pow2_bits_high v 15) by lia. destruct (Z.eqb_spec 15 j); [apply andb_false_r|].
    by rewrite Z.mod_pow2_bits_high by lia.
Qed.

Lemma decode_major v : 0 <= v < 65536 -> DECODE_ODS_MAJOR v = (v / 16) mod 2 ^ 11.
Proof.
  intros Hv. unfold DECODE_ODS_MAJOR. rewrite Z.shiftr_land. change (Z.shiftr 32752 4) with (Z.ones 11).
  rewrite Z.land_ones, Z.shiftr_div_pow2 by lia. apply Z.mod_small.
  pose proof (Z.mod_pos_bound (v / 16) (2 ^ 11) ltac:(lia)). lia.
Qed.

Lemma decode_minor v : 0 <= v < 65536 -> DECODE_ODS_MINOR v = v mod 16.
Proof.
  intros Hv. unfold DECODE_ODS_MINOR. change 15 with (Z.ones 4). rewrite Z.land_ones by lia. apply Z.mod_small.
  pose proof (Z.mod_pos_bound v 16 ltac:(lia)). lia.
Qed.

Lemma decode_flag v : 0 <= v < 65536 -> DECODE_FIREBIRD_FLAG v = v / 2 ^ 15.
Proof.
  intros Hv. unfold DECODE_FIREBIRD_FLAG, ODS_FIREBIRD_FLAG. rewrite Z.shiftr_land. change (Z.shiftr 32768 15) with (Z.ones 1).
  rewrite Z.land_ones, Z.shiftr_div_pow2 by lia. unfold USHORT, wrap_u. change (2 ^ 1) with 2. change (2 ^ 15) with 32768. Z.to_euclidean_division_equations; lia.
Qed.

Definition version_refused (h : header_page) : bool :=
  negb (fst (decode_version h) =? ODS_VERSION) || (ODS_CURRENT <? snd (decode_version h)) || (DECODE_FIREBIRD_FLAG (hdr_ods_version h) =? 0).

Lemma version_refused_spec h : 0 <= hdr_ods_version h < 65536 -> version_refused h = false <-> right_version h.
Proof.
  intros Hv. unfold version_refused, right_version, decode_version, ODS_CURRENT. change ODS_VERSION with 11. change (Z.shiftl 10 4) with 160.
  rewrite clear_top, decode_flag by done. rewrite !orb_false_iff, negb_false_iff, !Z.eqb_eq, Z.ltb_ge, Z.eqb_neq.
  destruct (Z.ltb_spec 160 (hdr_ods_version h mod 2 ^ 15)) as [L|L]; cbn [fst snd]; [rewrite decode_major, decode_minor by done|];
    change (2 ^ 15) with 32768 in *; change (2 ^ 11) with 2048; split.
  - intros [[? ?] ?]. right. Z.to_euclidean_division_equations; lia.
  - intros [[E ?]|E]; rewrite E in *; [exfalso; revert L; by vm_compute|done].
  - intros [[? ?] ?]. left. Z.to_euclidean_division_equations; lia.
  - intros [[E ?]|E]; rewrite E in *; [done|exfalso; revert L; by vm_compute].
Qed.

(** The platforms whose databases are taken: those known to be laid out as
    this one's. A database whose version is not encoded is looked up in the
    older table unless it is of this very platform. *)
Definition matrix (h : header_page) : list ArchitectureType :=
  if (hdr_implementation h =? CLASS) || (hdr_ods_version h =? 32944) then archMatrix else archMatrix10.

Definition same_platform (h : header_page) : Prop :=
  0 <= hdr_implementation h <= 24 /\ arch (matrix h) (hdr_implementation h) <> archUnknown /\
  arch (matrix h) (hdr_implementation h) = arch (matrix h) CLASS.

Lemma wrong_platform_spec h : right_version h -> wrong_platform h = false <-> same_platform h.
Proof.
  intros Hv. unfold same_platform, wrong_platform, matrix.
  assert ((DECODE_ODS_MAJOR (hdr_ods_version h) <? Pag.ODS_VERSION11) = negb (hdr_ods_version h =? 32944)) as ->
    by by destruct Hv as [[-> _]| ->].
  change CLASS_MAX10 with 24. change CLASS_MAX with 24.
  assert (forall m, (hdr_implementation h <? 0) || (24 <? hdr_implementation h) || bool_decide (arch m (hdr_implementation h) = archUnknown)
      || bool_decide (arch m (hdr_implementation h) <> arch m CLASS) = false <->
    0 <= hdr_implementation h <= 24 /\ arch m (hdr_implementation h) <> archUnknown /\ arch m (hdr_implementation h) = arch m CLASS) as Hm.
  { intros m. rewrite !orb_false_iff, !Z.ltb_ge, !bool_decide_eq_false. destruct (decide (arch m (hdr_implementation h) = arch m CLASS)); tauto. }
  destruct (hdr_implementation h =? CLASS), (hdr_ods_version h =? 32944); cbn [negb andb orb]; apply Hm.
Qed.

Definition primary (h : header_page) : Prop := pag_type h = Pag.pag_header /\ hdr_sequence h = 0.
Definition sane_size (h : header_page) : Prop := 1024 <= hdr_page_size h <= 16384.
Definition sane_counters (h : header_page) : Prop :=
  hdr_next_transaction h <> 0 ->
  hdr_oldest_active h <= hdr_next_transaction h /\ hdr_oldest_transaction h <= hdr_next_transaction h.

(** A database in a file that may only be read has to be marked so. *)
Definition may_write (h : header_page) (d : Database) : Prop :=
  flag_set (dbb_flags d) DBB_being_opened_read_only = true -> flag_set (hdr_flags h) hdr_read_only = true.

(** ** Flags after opening *)

Definition opened_flags (h : header_page) (d : Database) : Z :=
  let f := if flag_set (hdr_flags h) hdr_SQL_dialect_3 then set_bit DBB_DB_SQL_dialect_3 (dbb_flags d) else dbb_flags d in
  let f := if flag_set (hdr_flags h) hdr_read_only then set_bit DBB_read_only (clear_bit DBB_being_opened_read_only f) else f in
  let f := if flag_set (hdr_flags h) hdr_force_write then set_bit DBB_force_write f else f in
  if flag_set (hdr_flags h) hdr_no_reserve then set_bit DBB_no_reserve f else f.

Lemma being_opened_dialect (b : bool) f :
  flag_set (if b then set_bit DBB_DB_SQL_dialect_3 f else f) DBB_being_opened_read_only = flag_set f DBB_being_opened_read_only.
Proof. destruct b; [|done]. by apply (put_bit_spec true 12 14). Qed.

(** What is opened, when nothing is refused. *)
Lemma PAG_header_opens h d :
  primary h -> version_refused h = false -> wrong_platform h = false -> sane_size h -> sane_counters h -> may_write h d ->
  exists d', PAG_header h d = Ret d' /\ dbb_flags d' = opened_flags h d /\ dbb_page_size d' = hdr_page_size h /\
    dbb_ods_version d' = fst (decode_version h) /\ dbb_minor_original d' = hdr_ods_minor_original h /\
    dbb_page_buffers d' = hdr_page_buffers h /\ dbb_attachment_id d' = hdr_attachment_id h.
Proof.
  intros [Ht Hs] Hv Hp Hz Hc Hw. unfold PAG_header. rewrite Ht, Hs, Z.eqb_refl. cbn [negb orb].
  unfold version_refused in Hv. destruct (decode_version h) as [major minor]; cbn [fst snd] in *. rewrite Hv, Hp. cbn [negb andb].
  rewrite (proj2 (Z.ltb_ge _ _)), (proj2 (Z.ltb_ge (MAX_PAGE_SIZE) _)) by (unfold sane_size, MIN_PAGE_SIZE, MAX_PAGE_SIZE in *; lia). cbn [orb].
  assert (forall x, (hdr_next_transaction h <> 0 -> x <= hdr_next_transaction h) ->
    negb (hdr_next_transaction h =? 0) && (hdr_next_transaction h <? x) = false) as Hn
    by (intros x Hx; destruct (Z.eqb_spec (hdr_next_transaction h) 0); [done|apply Z.ltb_ge; auto]).
  rewrite !Hn by (intros; apply Hc; done).
  assert (negb (flag_set (hdr_flags h) hdr_read_only) && flag_set (dbb_flags d) DBB_being_opened_read_only = false) as Hr.
  { unfold may_write in Hw. destruct (flag_set (hdr_flags h) hdr_read_only); [done|]. cbn. destruct (flag_set (dbb_flags d) _); [symmetry; by apply Hw|done]. }
  unfold opened_flags. destruct (flag_set (hdr_flags h) hdr_read_only) eqn:Er; cbn [negb andb] in *;
    cbn [take_over dbb_flags]; rewrite ?being_opened_dialect, ?Hr;
    destruct (flag_set (hdr_flags h) hdr_force_write), (flag_set (hdr_flags h) hdr_no_reserve), (flag_set (hdr_flags h) hdr_shutdown);
    eexists; split_and!; reflexivity.
Qed.

(** What is refused, in the order of the checks. *)
Lemma PAG_header_refuses h d :
  (~ primary h -> PAG_header h d = Throw (Post isc_bad_db_format)) /\
  (primary h -> version_refused h = true -> PAG_header h d = Throw (Post isc_wrong_ods)) /\
  (primary h -> version_refused h = false ->
    (wrong_platform h = true \/ ~ sane_size h -> PAG_header h d = Throw (Post isc_bad_db_format)) /\
    (wrong_platform h = false -> sane_size h ->
      (hdr_next_transaction h <> 0 -> hdr_next_transaction h < hdr_oldest_active h -> PAG_header h d = Throw (BUGCHECK 266)) /\
      (hdr_next_transaction h <> 0 -> hdr_oldest_active h <= hdr_next_transaction h < hdr_oldest_transaction h ->
        PAG_header h d = Throw (BUGCHECK 267)) /\
      (sane_counters h -> ~ may_write h d -> PAG_header h d = Throw (Post isc_no_priv)))).
Proof.
  unfold PAG_header. split_and!.
  { intros Hp. assert (negb (pag_type h =? Pag.pag_header) || negb (hdr_sequence h =? 0) = true) as ->; [|done].
    unfold primary in Hp. destruct (Z.eqb_spec (pag_type h) Pag.pag_header), (Z.eqb_spec (hdr_sequence h) 0); naive_solver. }
  all: intros [Ht Hs] Hv; rewrite Ht, Hs, Z.eqb_refl; cbn [negb orb]; unfold version_refused in Hv;
    destruct (decode_version h) as [major minor]; cbn [fst snd] in *; rewrite Hv; try done.
  destruct (wrong_platform h); [by split|].
  unfold sane_size, MIN_PAGE_SIZE, MAX_PAGE_SIZE. destruct (Z.ltb_spec (hdr_page_size h) 1024); [split; [done|lia]|].
  destruct (Z.ltb_spec 16384 (hdr_page_size h)); [split; [done|lia]|]. cbn [orb]. split; [lia|]. intros _ _.
  assert (~ may_write h d -> flag_set (hdr_flags h) hdr_read_only = false /\ flag_set (dbb_flags d) DBB_being_opened_read_only = true) as Hm
    by (unfold may_write; destruct (flag_set (hdr_flags h) _), (flag_set (dbb_flags d) _); naive_solver).
  assert (negb (hdr_next_transaction h =? 0) = bool_decide (hdr_next_transaction h <> 0)) as ->
    by (destruct (Z.eqb_spec (hdr_next_transaction h) 0); case_bool_decide; done).
  split; [|split].
  - intros Hn Ha. rewrite bool_decide_true by done. by rewrite (proj2 (Z.ltb_lt _ _) Ha).
  - intros Hn [Ha Ht']. rewrite bool_decide_true by done. by rewrite (proj2 (Z.ltb_ge _ _) Ha), (proj2 (Z.ltb_lt _ _) Ht').
  - intros Hc Hw. destruct (Hm Hw) as [-> E]. unfold sane_counters in Hc. case_bool_decide as Hn; cbn [negb andb take_over dbb_flags].
    + destruct (Hc Hn) as [H1%Z.ltb_ge H2%Z.ltb_ge]. rewrite H1, H2. cbn [take_over dbb_flags]. by rewrite being_opened_dialect, E.
    + by rewrite being_opened_dialect, E.
Qed.

(** What is checked before the counters. *)
Definition acceptable (h : header_page) : Prop := primary h /\ right_version h /\ same_platform h /\ sane_size h.

#[local] Instance primary_dec h : Decision (primary h).
Proof. unfold primary. apply _. Defined.

#[local] Instance sane_size_dec h : Decision (sane_size h).
Proof. unfold sane_size. apply _. Defined.

#[local] Instance may_write_dec h d : Decision (may_write h d).
Proof. unfold may_write. apply _. Defined.

Lemma own_unknown h : arch archMatrix CLASS = archUnknown -> hdr_implementation h = CLASS -> ~ same_platform h.
Proof. intros Hc Hi (_ & Hu & He). apply Hu. rewrite He. unfold matrix. by rewrite Hi, Z.eqb_refl. Qed.

Lemma counters_cases h :
  (hdr_next_transaction h <> 0 /\ hdr_next_transaction h < hdr_oldest_active h) \/
  (hdr_next_transaction h <> 0 /\ hdr_oldest_active h <= hdr_next_transaction h < hdr_oldest_transaction h) \/ sane_counters h.
Proof. unfold sane_counters. lia. Qed.

(** With the outcome known, which of the conditions holds. *)
Ltac outcome :=
  repeat match goal with H : context [PAG_header _ _] |- _ => clear H end; unfold acceptable, sane_counters in *; split_and!;
  lazymatch goal with
  | |- forall f, Throw _ = Throw f -> _ => intros f [= <-]; repeat (first [apply list_elem_of_here|apply list_elem_of_further])
  | |- forall f, Ret _ = Throw f -> _ => discriminate
  | |- _ <-> _ => naive_solver lia
  | |- _ => intros; first [reflexivity|exfalso; naive_solver]
  end.

(** C17: A database is opened exactly when its first page is the header page of a
    first file, of this version of the on-disk structure, of a platform laid
    out alike ([same_platform], as the tables and the grouping of the condition
    have it), with a page size within the limits, no transaction counter past
    the next transaction, and not writable by its header only.  Otherwise the
    error says which of these failed first, and there are no other errors: a bad
    format, a wrong version, the consistency check 266 if the oldest active
    transaction is past the next, 267 if the oldest interesting one is, or
    missing privileges.  On a platform that the table of this version does not
    know no database is opened that was made there, although the comment on
    [archUnknown] says that one of just this platform is. *)
Theorem PAG_header_outcomes h d : 0 <= hdr_ods_version h < 65536 ->
  ((exists d', PAG_header h d = Ret d') <->
     primary h /\ right_version h /\ same_platform h /\ sane_size h /\ sane_counters h /\ may_write h d) /\
  (PAG_header h d = Throw (Post isc_wrong_ods) <-> primary h /\ ~ right_version h) /\
  (PAG_header h d = Throw (Post isc_bad_db_format) <->
     ~ primary h \/ (right_version h /\ ~ (same_platform h /\ sane_size h))) /\
  (PAG_header h d = Throw (BUGCHECK 266) <->
     acceptable h /\ hdr_next_transaction h <> 0 /\ hdr_next_transaction h < hdr_oldest_active h) /\
  (PAG_header h d = Throw (BUGCHECK 267) <->
     acceptable h /\ hdr_next_transaction h <> 0 /\ hdr_oldest_active h <= hdr_next_transaction h < hdr_oldest_transaction h) /\
  (PAG_header h d = Throw (Post isc_no_priv) <-> acceptable h /\ sane_counters h /\ ~ may_write h d) /\
  (forall f, PAG_header h d = Throw f ->
     f ∈ [Post isc_wrong_ods; Post isc_bad_db_format; BUGCHECK 266; BUGCHECK 267; Post isc_no_priv]) /\
  (arch archMatrix CLASS = archUnknown -> hdr_implementation h = CLASS -> primary h -> right_version h ->
     PAG_header h d = Throw (Post isc_bad_db_format)).
Proof.
  intros Hv. pose proof (PAG_header_refuses h d) as (Rp & Rv & Rest). pose proof (PAG_header_opens h d) as Ro.
  pose proof (version_refused_spec h Hv) as Sv. pose proof (own_unknown h) as Own.
  destruct (decide (primary h)) as [Hp|Hp]; [|rewrite Rp by done; by outcome].
  destruct (version_refused h) eqn:Ev; [rewrite Rv by done; by outcome|]. destruct Sv as [Sv _]. specialize (Sv eq_refl).
  destruct (Rest Hp eq_refl) as [Rb Rc]. pose proof (wrong_platform_spec h Sv) as Sp.
  destruct (wrong_platform h) eqn:Ep; [rewrite Rb by auto; by outcome|]. destruct Sp as [Sp _]. specialize (Sp eq_refl).
  destruct (decide (sane_size h)) as [Hz|Hz]; [|rewrite Rb by auto; by outcome].
  destruct (Rc eq_refl Hz) as (Ra & Rt & Rw).
  destruct (counters_cases h) as [[Hn Ha]|[[Hn Ht]|Hc]].
  - rewrite (Ra Hn Ha). by outcome.
  - rewrite (Rt Hn Ht). by outcome.
  - destruct (decide (may_write h d)) as [Hm|Hm]; [|rewrite (Rw Hc Hm); by outcome].
    destruct Ro as (d' & -> & _); try done. by outcome.
Qed.

(** ** A new database *)

Definition dialect_3 (d : Database) : bool := flag_set (dbb_flags d) DBB_DB_SQL_dialect_3.

(** Force writes, no reserve, read only, dialect 3. *)
Definition settings (d : Database) : bool * bool * bool * bool :=
  (flag_set (dbb_flags d) DBB_force_write, flag_set (dbb_flags d) DBB_no_reserve, read_only d, dialect_3 d).

Definition header_settings (h : header_page) : bool * bool * bool * bool :=
  (flag_set (hdr_flags h) hdr_force_write, flag_set (hdr_flags h) hdr_no_reserve, flag_set (hdr_flags h) hdr_read_only,
   flag_set (hdr_flags h) hdr_SQL_dialect_3).

(** What is read of flags in which bits were put. *)
Ltac read_flags :=
  change DBB_force_write with (2 ^ 7) in *; change DBB_no_reserve with (2 ^ 8) in *; change DBB_DB_SQL_dialect_3 with (2 ^ 12) in *;
  change DBB_read_only with (2 ^ 13) in *; change DBB_being_opened_read_only with (2 ^ 14) in *; change hdr_force_write with (2 ^ 1) in *;
  change hdr_no_reserve with (2 ^ 5) in *; change hdr_SQL_dialect_3 with (2 ^ 8) in *; change hdr_read_only with (2 ^ 9) in *;
  change set_bit with (put_bit true) in *; change clear_bit with (put_bit false) in *;
  repeat (rewrite put_bit_spec by done; cbn [Z.eqb Pos.eqb]).

(** The settings of the database are those of its header, where they are not
    set already. *)
Lemma opened_settings h d d' :
  dbb_flags d' = opened_flags h d -> settings d = (false, false, false, false) -> settings d' = header_settings h.
Proof.
  intros E [= Ef Er Eo Ed]. unfold settings, header_settings, read_only, dialect_3 in *. rewrite E. unfold opened_flags.
  destruct (flag_set (hdr_flags h) hdr_force_write), (flag_set (hdr_flags h) hdr_no_reserve), (flag_set (hdr_flags h) hdr_read_only),
    (flag_set (hdr_flags h) hdr_SQL_dialect_3).
  all: read_flags; congruence.
Qed.


(** Changes of the settings; one that is refused changes nothing. *)
Inductive setting := Force (flag : Z) | Reserve (flag : Z) | Readonly (flag : Z) | Dialect (flag : Z) | Buffers (n : Z).

Definition refused {A} (old : A) (r : outcome A) : A := match r with Ret a => a | Throw _ => old end.

Definition change (hd : header_page * Database) (s : setting) : header_page * Database :=
  let (h, d) := hd in
  match s with
  | Force flag => refused hd (PAG_set_force_write flag h d)
  | Reserve flag => refused hd (PAG_set_no_reserve flag h d)
  | Readonly flag => PAG_set_db_readonly flag h d
  | Dialect flag => match PAG_set_db_SQL_dialect flag h d with Ret (_, h', d') => (h', d') | Throw _ => hd end
  | Buffers n => (refused h (PAG_set_page_buffers n h d), d)
  end.

(** Whether writes have been forced or not by a change that was not refused. *)
Fixpoint forced (l : list setting) (hd : header_page * Database) : bool :=
  match l with
  | [] => false
  | s :: l => match s with Force _ => negb (read_only (snd hd)) | _ => false end || forced l (change hd s)
  end.

(** The header can be opened. *)
Definition openable (h : header_page) : Prop :=
  primary h /\ version_refused h = false /\ wrong_platform h = false /\ sane_size h /\ sane_counters h.

Definition force_write (d : Database) : bool := flag_set (dbb_flags d) DBB_force_write.

Definition other_settings (d : Database) : bool * bool * bool := (flag_set (dbb_flags d) DBB_no_reserve, read_only d, dialect_3 d).

(** The header says of the settings what the database does, but for the forcing
    of writes, of which it says [force]. *)
Definition agree (force : bool) (hd : header_page * Database) : Prop :=
  openable (fst hd) /\ header_settings (fst hd) = (force, flag_set (dbb_flags (snd hd)) DBB_no_reserve, read_only (snd hd), dialect_3 (snd hd)).

(** What the header says after a change. *)
Definition force_after (force : bool) (hd : header_page * Database) (s : setting) : bool :=
  if match s with Force _ => negb (read_only (snd hd)) | _ => false end then force_write (snd (change hd s)) else force.

(** Only forcing writes, where it is not refused, changes whether they are. *)
Lemma change_force hd s :
  match s with Force _ => negb (read_only (snd hd)) | _ => false end = false -> force_write (snd (change hd s)) = force_write (snd hd).
Proof.
  destruct hd as [h d], s as [flag|flag|flag|flag|n]; cbn [change snd]; intros H.
  - unfold PAG_set_force_write. apply negb_false_iff in H. by rewrite H.
  - unfold PAG_set_no_reserve. destruct (read_only d); [done|]. unfold force_write; cbn. by read_flags.
  - unfold force_write; cbn. by read_flags.
  - unfold PAG_set_db_SQL_dialect. destruct (negb (flag =? 0) && _); [|done].
    destruct (flag =? SQL_DIALECT_V5); [|destruct (flag =? SQL_DIALECT_V6); [|done]]; unfold force_write; cbn; by read_flags.
  - by unfold PAG_set_page_buffers.
Qed.

Lemma change_agree force hd s : agree force hd -> agree (force_after force hd s) (change hd s).
Proof.
  destruct hd as [h d]. intros [Ho E]. unfold force_after. assert (agree force (h, d)) as H by by split. pose proof E as E'.
  unfold header_settings, settings, read_only, dialect_3 in E'. cbn [fst snd] in E'. injection E' as E1 E2 E3 E4.
  destruct s as [flag|flag|flag|flag|n]; cbn [change snd].
  - unfold PAG_set_force_write. destruct (read_only d) eqn:Er; [done|]. cbn [negb refused snd]. split; [exact Ho|].
    generalize (if flag =? 2 then if SYNC_WRITE_DEFAULT then 1 else 0 else flag); intros f. cbn.
    unfold header_settings, force_write, read_only, dialect_3 in *; cbn. read_flags. congruence.
  - unfold PAG_set_no_reserve. destruct (read_only d); [done|]. split; [exact Ho|]. cbn.
    unfold header_settings, settings, read_only, dialect_3; cbn. read_flags. congruence.
  - split; [exact Ho|]. cbn. unfold header_settings, settings, read_only, dialect_3; cbn. read_flags. congruence.
  - unfold PAG_set_db_SQL_dialect. destruct (negb (flag =? 0) && _); [|done].
    destruct (flag =? SQL_DIALECT_V5); [|destruct (flag =? SQL_DIALECT_V6); [|done]].
    all: split; [exact Ho|]; cbn; unfold header_settings, settings, read_only, dialect_3; cbn; read_flags; congruence.
  - unfold PAG_set_page_buffers. destruct (read_only d); [done|]. split; [exact Ho|exact E].
Qed.

(** Once writes have been forced or not, the header says what the database does. *)
Lemma changes_agree l : forall force hd, agree force hd ->
  agree (if forced l hd then force_write (snd (fold_left change l hd)) else force) (fold_left change l hd).
Proof.
  assert (forall l hd, agree (force_write (snd hd)) hd -> agree (force_write (snd (fold_left change l hd))) (fold_left change l hd)) as Same.
  { clear l. induction l as [|s l IH]; intros hd H; [done|]. apply IH. pose proof (change_agree _ _ s H) as H'. unfold force_after in H'.
    destruct (match s with Force _ => negb (read_only (snd hd)) | _ => false end) eqn:E; [done|]. by rewrite (change_force hd s E). }
  induction l as [|s l IH]; intros force hd H; [done|]. cbn [forced fold_left]. pose proof (change_agree _ _ s H) as H'. unfold force_after in H'.
  destruct (match s with Force _ => negb (read_only (snd hd)) | _ => false end) eqn:E; cbn [orb]; [by apply Same|by apply IH].
Qed.

(** A new header, and its database. *)
Lemma format_agree d : 0 <= CLASS <= 24 -> arch archMatrix CLASS <> archUnknown ->
  1024 <= dbb_page_size d <= 16384 -> (exists b, settings d = (false, false, false, b)) -> agree SYNC_WRITE_DEFAULT (PAG_format_header d).
Proof.
  intros Hc Hm Hz [b [= Ef Er Eo Ed]]. unfold PAG_format_header. split.
  - split_and!; [by split|by vm_compute| |exact Hz|by intros []]. cbn [fst]. apply wrong_platform_spec; [by left|].
    unfold same_platform, matrix; cbn. rewrite Z.eqb_refl. by split_and!; try lia.
  - unfold header_settings, settings, read_only, dialect_3 in *; cbn. rewrite Ed, Er, Eo. by destruct b, SYNC_WRITE_DEFAULT.
Qed.

Lemma changes_force l : forall hd, forced l hd = false -> force_write (snd (fold_left change l hd)) = force_write (snd hd).
Proof.
  induction l as [|s l IH]; intros hd H; [done|]. cbn [forced fold_left] in *. apply orb_false_iff in H as [H1 H2].
  by rewrite IH, change_force.
Qed.

Lemma change_page_size hd s : hdr_page_size (fst (change hd s)) = hdr_page_size (fst hd).
Proof.
  destruct hd as [h d], s as [flag|flag|flag|flag|n]; cbn [change].
  - unfold PAG_set_force_write. by destruct (read_only d).
  - unfold PAG_set_no_reserve. by destruct (read_only d).
  - done.
  - unfold PAG_set_db_SQL_dialect. repeat case_match; naive_solver.
  - unfold PAG_set_page_buffers. by destruct (read_only d).
Qed.

Lemma changes_page_size d l : hdr_page_size (fst (fold_left change l (PAG_format_header d))) = dbb_page_size d.
Proof.
  assert (forall hd, hdr_page_size (fst (fold_left change l hd)) = hdr_page_size (fst hd)) as H; [|by rewrite H].
  induction l as [|s l IH]; intros hd; [done|]. cbn [fold_left]. by rewrite IH, change_page_size.
Qed.


End Header.

(** ** On a platform *)

Definition Linux : Platform := {| CLASS := 24; SYNC_WRITE_DEFAULT := false |}.
Definition Windows : Platform := {| CLASS := 16; SYNC_WRITE_DEFAULT := true |}.
Definition NetWare : Platform := {| CLASS := 8; SYNC_WRITE_DEFAULT := false |}.

Definition new_database : Database := mk_dbb 4096 0 0 0 4096 0 0 0 0 0 0 0 [] [false].
Definition opened_database : Database := mk_dbb 0 0 0 0 0 0 0 0 0 0 0 0 [] [false].

Lemma PAG_header_outcomes_witness :
  let h := fst (@PAG_format_header Linux new_database) in
  hdr_ods_version h = 32779 /\ exists d', @PAG_header Linux h opened_database = Ret d' /\ dbb_page_size d' = 4096.
Proof.
  split; [reflexivity|].
  assert (exists d', @PAG_header Linux (fst (@PAG_format_header Linux new_database)) opened_database = Ret d') as [d' E].
  { apply (@PAG_header_outcomes Linux); [vm_compute; split; congruence|]. split_and!.
    - by split.
    - by left.
    - vm_compute. split_and!; congruence.
    - by vm_compute.
    - by intros [].
    - by vm_compute. }
  exists d'. split; [exact E|]. vm_compute in E. injection E as <-. reflexivity.
Defined.


(** The header of a new database where writes are forced by default says so, the
    database in memory does not. *)
Lemma forced_after_reopening_only :
  let hd := @PAG_format_header Windows new_database in
  flag_set (hdr_flags (fst hd)) hdr_force_write = true /\ force_write (snd hd) = false.
Proof. by vm_compute. Qed.

(** The condition that selects the older table, [a && b ? c : d], holds for
    every database of another platform, since the version is decoded as though
    it were encoded: a Linux database and a Windows one are both little-endian
    in the table of this version, but are not exchanged. *)
Lemma exchange_refused :
  let h := fst (@PAG_format_header Windows new_database) in
  arch archMatrix 16 = arch archMatrix 24 /\ arch archMatrix 16 <> archUnknown /\
  @PAG_header Linux h opened_database = Throw (Post isc_bad_db_format).
Proof. by vm_compute. Qed.

(** A platform that the table does not know refuses the databases it makes. *)
Lemma own_database_refused :
  @PAG_header NetWare (fst (@PAG_format_header NetWare new_database)) opened_database = Throw (Post isc_bad_db_format).
Proof. by vm_compute. Qed.

End HeaderClient.
